(* ===== verification/_CoqProject ===== *)
-Q . S2P
Prelude.v
Doubles.v
Failover.v
EpHealth.v
RouterCtx.v
RouterState.v
RouterStrategy.v
Router.v
Chain.v
RouteCfg.v
Retry.v
RateLimit.v
Supervisor.v
SupDecl.v
SupCtrl.v
MemEnv.v
Ledger.v
Compress.v
Vector.v
DfTable.v
Sha256.v
MemCache.v
DagGraph.v
DagEngine.v
DagService.v
DagSystem.v
Swap.v
Reload.v
Security.v
Approval.v
Interactive.v
Expr.v
Sse.v
Cjson.v
ToolStream.v
AgentStream.v
Agents.v
TaskQueue.v
Executor.v
ExecPool.v
RecFile.v
Records.v
RecLoad.v
MemSearch.v
Embed.v
WebSocket.v
Notify.v
NotifySys.v
Channel.v
CostTracker.v
