(* ===== verification/Prelude.v ===== *)
(** * A verified model of the runtime daemons

    The repository holds the daemons of an agent runtime, C programs that talk
    over local sockets.  This library models the parts that decide something:
    which language-model endpoint serves a request, when one is taken out of
    rotation, how requests are retried, throttled, streamed, reloaded under and
    charged (llm_d); how daemons are declared, started, restarted and stopped
    (supervisor_d); how context is accounted for, cached and compressed, and how
    records are kept, indexed, searched and restored (mem_d); how agents are
    chosen, tasks queued and task graphs built and executed (sched_d); who may
    call a tool and how it is run (common, tool_d); how a streamed answer is
    taken apart (agent_d); how events reach subscribers (notify_d); how channels
    are opened and used (channel_d); what an expression means (maths_d).

    ** Conventions

    Fixed-width integers are [Z] with their wrap-around written out ([u8],
    [u32], [u64], [s32] below); [double] is IEEE binary64 (file Doubles); C
    strings are [string]; a pointer that may be NULL is an [option]; tables and
    linked lists are lists.  Stateful functions pass their state explicitly.
    Code outside this repository (the commons library, libcurl, cJSON, the
    operating system, [qsort], the allocator) is a type class of operations on
    a world; what the code relies on is a separate class of laws, and every
    theorem that needs one has a witness with a concrete instance.  Where
    threads share state, what one does between taking a lock and releasing it
    is one step of a transition system (DagSystem, TaskQueue, Reload,
    Interactive, ExecPool, NotifySys, CostTracker, Channel, the seat gate of
    Chain), or the other threads are an operation that runs between two such
    sections (Notify); elsewhere locks are taken around single calls and are
    not represented.  Files are on a disk that remembers every state it went
    through (RecFile).  Log output is not represented; memory release has no
    counterpart except where reading a freed object is possible (MemCache,
    Reload, Compress, ExecPool, Notify) or resources are counted (Channel).

    ** Files

    - Prelude: integers, return codes, C string and number functions, hint
      database [daemon], tactics [ulia] and [bool_cases].
    - Doubles: binary64 operations and the order lemmas of the selection loops.
    - Failover (llm_d/src/router/core/llm_failover.c): which errors may move a
      request to another endpoint.
    - EpHealth (llm_d/src/router/core/llm_health.c, [ep_*] and [llm_ep_*]): the
      circuit breaker of one endpoint.  An abstract breaker with the documented
      thresholds and times, on unbounded time ([cb_step]), specifies it;
      [ep_refines_breaker] is the simulation.
    - RouterCtx (router_context.h, llm_router.h): the context record, cost and
      token estimates, eligibility.
    - RouterState (router_state.c): saving, loading and restoring the breakers.
    - RouterStrategy (router/strategy/router_strategy.c and [llm_router_pick]):
      the four selection strategies and the ranked candidate list.
    - Router (llm_router.c and the [llm_rtr_*] functions of llm_health.c): the
      public operations; [router_step] is the transition system of all of them.
    - Chain (llm_d/src/rpc/service_chain.c with the registry look-ups and the
      generation parameters of registry.c, adapter.c, service.c and
      service_request.c): the failover chain of one call, over the router; the
      seat gate also as a machine of interleaved atomic steps ([seat_step])
      with an atomic counter ([seat_spec]) as its specification.
    - RouteCfg (llm_d/src/rpc/service_route.c): the routing section that
      configures the chain.
    - Retry (llm_d/src/providers/core/retry.c, http.c): the transport retry
      loop over an attempt hook, and the POST attempt itself.
    - RateLimit (rate_limit.c): the request window, the 429 and 5xx holds and
      the request loop over [provider_http_post].
    - Sse (llm_d/src/providers/core/sse.c): the framing of event streams and the
      streaming request, over Retry.
    - Cjson: the interface to the cJSON library.
    - ToolStream (toolstream.c, provider_envelope.h): the assembly of a streamed
      response, over Sse and Cjson.
    - Swap (common/src/svc/svc_swap.c): the drain gate of a configuration swap.
    - Reload (llm_d/src/rpc/service_reload.c, service_request.c): the hot reload
      over Swap, as a step relation of concurrent requests and reloads.
    - CostTracker (llm_d/src/accounting/cost_tracker.c, the charging of a
      response in service_request.c, the pricing rules of
      config/service_config_yaml_pricing.c): prices, totals and the usage file,
      with concurrent writers as a step relation.
    - Supervisor (supervisor_d/src/proc/proc.c, POSIX branch, and svc.c): spawn,
      reap, back-off, reconcile, liveness, activate, shutdown.
    - SupDecl (supervisor_d/src/decl/decl.c): the profile.env loader.
    - SupCtrl (supervisor_d/src/ctrl/ctrl.c): the control protocol.
    - MemEnv: allocator, clock, token counter and identifiers shared by the
      engines of mem_d and by sched_d.
    - Ledger (mem_d/src/engine/ledger.c): the context ledger; every allocation
      may fail.
    - Compress (mem_d/src/engine/compress.c): the compression of a window of
      ledger entries.
    - Sha256 (mem_d/src/engine/cache.c, first part): the digest of cache keys.
    - MemCache (mem_d/src/engine/cache.c): the semantic cache.
    - Vector, DfTable (mem_d/src/engine/vector.c): the tokenizer and the table of
      document frequencies.
    - RecFile (mem_d/src/engine/mem_persist.c, writing): the disk, the escape, the
      file of records and its replacement.
    - Records (mem_d/src/core/service.c, engine/kb.c, mem_persist.c reading): the
      record store with its hash index and the knowledge bases.
    - RecLoad: a restart of the record store, over RecFile and Records.
    - MemSearch (service.c, vector.c, emb_client.c): scoring, sorting, cutting.
    - Embed (mem_d/src/engine/emb_client.c): the embedding client.
    - Agents (sched_d/src/service/sched_service_agent.c): the agent registry and
      the choice of an agent.
    - TaskQueue (sched_service_task.c, sched_service_worker.c): the task queue and
      its worker as a step relation, over Agents.
    - DagGraph (sched_d/src/dag/sched_dag_parse.c): task graphs and their
      construction with the cycle test.
    - DagEngine (sched_dag_engine.c): inputs, readiness, outcome of a node,
      propagation of failures, final status.
    - DagService (sched_dag_impl.c, sched_dag_worker.c): submission,
      cancellation, serial and parallel dispatch; the invariant of a graph.
    - DagSystem: the scheduler as a transition system of worker, pool and
      requests ([work_step]).
    - Security (common/src/security): the access list, its rule file, the
      permission check, the sanitizer, the audit line.
    - Approval (tool_d/src/approval: gate.c, tool_approval.c,
      safety_guard_bridge.c): the guard chain, the static check, the user's
      overruling, over Security.
    - Interactive (tool_d/src/approval/tool_interactive_approval.c): the request
      manager behind Approval, as a step relation of workers and deciders.
    - Executor (tool_d/src/core/executor.c, builtin/builtin.c): the run of a tool
      behind Approval.
    - ExecPool (tool_d/src/core/executor_pool.c): the worker pool as a step
      relation with a heap of jobs.
    - WebSocket (notify_d/src/net/net.c, service/notify_service.c): handshake and
      frames.
    - Notify (notify_service.c, net.c, svc.c): the event ring, the subscription
      registry, broadcast, heartbeat, registration and the RPC dispatcher.
    - NotifySys: the notification daemon as a system of connections and event
      loop, over Notify.
    - Channel (channel_d/src: book/channel_book.c, service/channel_service.c,
      io/channel_io.c): the channel table, its transports and transfers.
    - Expr (maths_d/src/expr/expr_eval.c): the expression evaluator.
    - AgentStream (agent_d/src/run/agent_run_stream.c): the demultiplexer of the
      streams that ToolStream produces.

    ** What the theorems show

    Breaker: what is observed of the code is what the documented breaker shows,
    across wraps of the clock, as long as no event comes more than half the
    clock range after a deadline; trip condition, length of the open phase, one
    probe at a time, sparse failures never trip.  Router: the tables stay
    well-formed under every operation, no request is routed to an open
    endpoint, each strategy returns the endpoint it promises, round robin is
    fair, saving and loading the state and a hot reload keep the breakers.
    Chain: a call returns after a bounded number of attempts, never calls an
    endpoint twice when registry and router agree, returns the first error,
    makes no attempt once something was delivered, follows breaker and seats,
    gives every seat back and keeps the router invariant; the seat gate is an
    atomic bounded counter under any interleaving; the configuration stays in
    its bounds and overlays key by key. Providers: retries are bounded in
    number and time, one call of the POST routine sends a request that is not
    idempotent at most once (against the results that libcurl documents as
    failures before sending, not the code's own list), the window cap holds,
    the request loop terminates and its outcome is classified. Streams: however
    the bytes are cut into pieces, the callbacks are those that a line-by-line
    statement of the protocol prescribes for the whole text; a streaming
    request that succeeds has delivered one complete transfer; tool calls and
    text are the concatenation of their fragments; the demultiplexer refines a
    decoder on the whole stream and reads back exactly what the assembly of
    llm_d sent. Reload: a result is kept exactly when no generation was opened
    since its request entered, and a request sees one configuration from entry
    to return, but for the window between a forced switch and its commit, in
    which it may see two ([forced_switch_mixes]); no configuration is destroyed
    while a request may read it within the grace period, at most one reload
    switches at a time. Accounting: the tracker is a map from models to the
    sums of their uses; the first matching rule sets the price; with one writer
    at a time the file lacks at most the pending uses, is never torn, and a
    restart restores it. Supervisor: the process-table invariant, at most
    [max_attempts] calls that start a daemon without an answer or an activation
    in between, a shutdown that ends and in which every child was asked to stop
    and found gone, or killed and waited for, signals included; declarations
    always give a usable table, the health response fits its buffer and the
    client's request is understood by the server. Ledger: counters equal the
    chains, append is atomic under any allocation failure, marking is
    append-only and idempotent, window and budget agree. Compression: a plan
    never touches a protected entry, every action is justified by its rule, and
    no text outgrows the buffer it is written to. Cache: bucket placement,
    unique keys, exact counters and caps after every operation; eviction
    removes exactly the expired and then least-used entries; hits are never
    stale; the digest equals the standard's definition; admission is exact.
    Records: the vector of a text is its words, characters and pairs with their
    counts; the frequency table counts documents; the store is a bounded map,
    full exactly at its limit while memory lasts, with an exact index and exact
    frequencies; a crash leaves the old or the new file and a restart restores
    the store; a search returns the best records in order; the embedding client
    rests for exactly its cooldown. Agents and tasks: the registry is a bounded
    map and the agent chosen has the best score; the ring holds the pending
    tasks in order, a task runs at most once and never once its cancellation
    answered success, the most urgent one first, final records stay, and the
    worker is never stuck. Task graphs: a submission is accepted exactly when
    its graph is well formed and acyclic; for every interleaving the table
    stays consistent, a node runs only after its dependencies succeeded, final
    results stay final, an active graph always has something to do, and the
    number of executions is bounded. Permissions: the access table refines a
    finite map from pairs to verdicts; the gate lets a call through exactly
    when every enabled guard passes, as stated apart from the code, or a user
    says so; a minute sees at most twice the rate limit; the request manager
    refines a desk of requests with distinct identifiers, each decided at most
    once, and a worker leaves when its time is over. Tools: no tool runs
    without consent, and a call that has it runs the named tool with the
    caller's parameters; the pool never touches or frees a job that was freed,
    loses none, and gives every caller its own result. Notifications: events
    are broadcast once, in the order of their acceptance, with a call of [send]
    for exactly the clients that are to get them, whatever that call returns;
    the registry is a set of at most 512 pairs; the accept key is the
    standard's, frames are read back; the dispatcher stays inside its arrays
    whatever other threads do between its sections (but for the list method,
    which may read a topic that was freed) and the loop is never stuck.
    Channels: with openings that race for the last place the table grows by at
    most one entry per opener beyond its limit; every descriptor and mapping
    belongs to an open channel and is given back; what is put into a mailbox is
    taken out. Expressions: the evaluator accepts exactly the sentences of the
    grammar and returns their value, or the message of the first error. A few
    further theorems record where the code does less than its comments say.

    ** Fuel

    Recursion that is not structural carries fuel with a proof that it is
    enough: the expiry scan of a chain has the chain's length, the eviction
    loop one more than the number of entries, the digest's reference the length
    of the padded message; the chain and its enumeration of candidates have one
    more than the capacity of the set of tried endpoints, in which every round
    takes a place ([next_prov_total], [iter_progress]); the retry loop recurses
    on the retries left; the request loop and the shutdown grace loop are
    proved to finish for a stated amount ([with_retry_terminates],
    [shutdown_complete], where each signal that arrives costs one round). The
    expression parser has eight steps per character and eight more
    ([eval_exact] has no fuel hypothesis); the framing and demultiplexing loops
    have one more than the length of the text, which shrinks in every round;
    doubling loops of buffers have 64 rounds, after which a 64-bit size has
    overflowed; the rings have one round per slot (256), the probes of the
    frequency table one per entry; the loops of the tokenizer, of the ingestion
    and of the deletion of a knowledge base consume a byte or a record per
    round; the block loop of SHA-1 has the length of the padded message.  Every
    other loop is structural on the list or counter it walks over.

    ** Not modelled

    Sockets, file descriptors and process images beyond the classes above;
    Windows branches; JSON and YAML text and the RPC glue that maps it to
    calls; the request and response codecs of the provider adapters, the
    endpoint prober and the response cache of llm_d; the tool loop and sessions
    of agent_d and the individual builtin tools, which call other daemons and
    processes; the statistics of maths_d; gateway_d, think_d, monit_d, market_d
    and a2a_d, which are mostly forwarding between the daemons above.  The
    power-loss behaviour of files (what [fsync] adds to a flush) and
    floating-point contraction by a compiler are outside the model. *)

From Stdlib Require Export ZArith Lia Ascii.
From stdpp Require Export base tactics list numbers strings option sorting sets.

#[export] Set Default Goal Selector "!".

(** ** Scope and machine integers *)

Declare Scope daemon_scope.
Delimit Scope daemon_scope with daemon.

Open Scope Z_scope.

(** Unsigned arithmetic of the C code is written out as a reduction modulo the
    width; [s32] is the two's-complement reading of a [uint32_t] bit pattern,
    the [(int32_t)] casts of the code. *)
Definition UINT8_MAX : Z := 255.
Definition UINT32_MAX : Z := 4294967295.
Definition UINT64_MAX : Z := 18446744073709551615.

Definition u8 (x : Z) : Z := x mod 256.
Definition u32 (x : Z) : Z := x mod 4294967296.
Definition u64 (x : Z) : Z := x mod 18446744073709551616.
Definition s32 (x : Z) : Z :=
  if 2147483648 <=? u32 x then u32 x - 4294967296 else u32 x.

Definition is_u8 (x : Z) : Prop := 0 <= x <= UINT8_MAX.
Definition is_u32 (x : Z) : Prop := 0 <= x <= UINT32_MAX.
Definition is_u64 (x : Z) : Prop := 0 <= x <= UINT64_MAX.

(** ** Return codes

    The symbolic return codes of the commons library that the modelled code
    returns or tests.  Their integer values live outside this repository and
    enter through [ErrModel] (file Failover) where the code does arithmetic
    on them. *)
Inductive airy_rc :=
| AIRY_SUCCESS
| AIRY_ERR_INVALID_PARAM
| AIRY_ERR_OUT_OF_MEMORY
| AIRY_ERR_NOT_FOUND
| AIRY_ERR_ALREADY_EXISTS
| AIRY_ERR_TIMEOUT
| AIRY_ERR_NOT_SUPPORTED
| AIRY_ERR_PERMISSION_DENIED
| AIRY_ERR_IO
| AIRY_ERR_OVERFLOW
| AIRY_ERR_BUSY
| AIRY_ERR_UNKNOWN
| AIRY_ERR_SYS_NOT_INIT
| AIRY_ERR_SYS_MUTEX
| AIRY_ERR_LLM_AUTH_FAIL
| AIRY_ERR_LLM_RATE_LIMIT
| AIRY_ERR_LLM_BAD_REQUEST
| AIRY_ERR_LLM_STREAM_STALL
| AIRY_ERR_LLM_INVALID_MODEL
| AIRY_ETIMEDOUT
| AIRY_ERR_SYS_RESOURCE
| AIRY_ERR_SYS_THREAD
| AIRY_ERR_SYS_SEMAPHORE
| AIRY_ERR_SYS_CONDITION
| AIRY_ERR_SYS_PIPE
| AIRY_ERR_SYS_PROCESS
| AIRY_ERR_SYS_SOCKET
| AIRY_ERR_SYS_FILE
| AIRY_ERR_EXEC_TIMEOUT
| AIRY_ERR_SVC_NOT_READY
| AIRY_ERR_SVC_BUSY
| AIRY_ERR_SVC_STOPPED
| AIRY_ERR_LLM_PROVIDER_FAIL
| AIRY_ERR_LLM_PARSE_RESP
| AIRY_ERR_LLM_EMPTY_RESP
| AIRY_ERR_PARSE_ERROR
| AIRY_ERR_INTERRUPTED
| AIRY_ERR_WOULD_BLOCK
| AIRY_ERR_CYCLE_DETECTED
| AIRY_ERR_STATE_ERROR
| AIRY_EPERM
| AIRY_ERR_LLM_STREAM_UNDONE
| AIRY_ERR_SEC_VIOLATION
| AIRY_ERR_SEC_QUOTA
| AIRY_ERR_CANCELED
| AIRY_ERR_EXEC_NOT_FOUND.

#[export] Instance airy_rc_eq_dec : EqDecision airy_rc.
Proof. solve_decision. Defined.

(** ** The commons string macro

    [AIRY_STRNCPY_TERM dst src sizeof(dst)] is a macro of the commons library:
    the modelled code relies on it to copy a string that fits unchanged. *)
Class AiryString := AIRY_STRNCPY_TERM : nat -> string -> string.

Class AiryStringOk `{AiryString} : Prop :=
  strncpy_term_short : forall n s,
    (String.length s < n)%nat -> AIRY_STRNCPY_TERM n s = s.

(** The bounded copy of the C library: [snprintf (dst, n, "%s", src)]. *)
Definition snprintf_s (n : nat) (s : string) : string := String.substring 0 (n - 1) s.

(** A concrete bounded copy, used to exhibit that the laws can hold. *)
Definition bounded_copy : AiryString := snprintf_s.

(** ** String primitives of the C library *)

Definition strcmp_eq (a b : string) : bool := String.eqb a b.

Definition strlen (s : string) : Z := Z.of_nat (String.length s).

Definition tolower (c : ascii) : ascii :=
  let n := nat_of_ascii c in
  if ((65 <=? n) && (n <=? 90))%nat then ascii_of_nat (n + 32) else c.

(** [strchr]-driven split: the text before the first [c] and, when [c]
    occurs, the text after it. *)
Fixpoint cut_at (c : ascii) (s : string) : string * option string :=
  match s with
  | EmptyString => (EmptyString, None)
  | String a s' =>
      if Ascii.eqb a c then (EmptyString, Some s')
      else let '(h, t) := cut_at c s' in (String a h, t)
  end.

Fixpoint str_forallb (p : ascii -> bool) (s : string) : bool :=
  match s with
  | EmptyString => true
  | String a s' => p a && str_forallb p s'
  end.

Definition has_char (c : ascii) (s : string) : bool :=
  negb (str_forallb (fun a => negb (Ascii.eqb a c)) s).

(** [strncmp s pfx (strlen pfx) == 0]: the remainder after the prefix. *)
Fixpoint strip_prefix (pfx s : string) : option string :=
  match pfx, s with
  | EmptyString, _ => Some s
  | String a p', String b s' => if Ascii.eqb a b then strip_prefix p' s' else None
  | _, EmptyString => None
  end.

(** [strstr hay needle]: the suffix of [hay] that starts at the first
    occurrence of [needle]. *)
Fixpoint strstr (needle hay : string) : option string :=
  match strip_prefix needle hay with
  | Some _ => Some hay
  | None => match hay with
            | EmptyString => None
            | String _ h' => strstr needle h'
            end
  end.

Definition str_concat (l : list string) : string := foldr String.append "" l.

(** ** Number parsing of the C library *)

Fixpoint skip_while (p : ascii -> bool) (s : string) : string :=
  match s with
  | String c s' => if p c then skip_while p s' else s
  | EmptyString => EmptyString
  end.

(** [isspace] of the C locale. *)
Definition is_space (c : ascii) : bool :=
  Ascii.eqb c " " || (9 <=? nat_of_ascii c)%nat && (nat_of_ascii c <=? 13)%nat.

Definition is_dec (c : ascii) : bool := (48 <=? nat_of_ascii c)%nat && (nat_of_ascii c <=? 57)%nat.

(** The value of the leading digits and the rest. *)
Fixpoint dec_run (s : string) (v : Z) : Z * string :=
  match s with
  | String c s' => if is_dec c then dec_run s' (v * 10 + (Z.of_nat (nat_of_ascii c) - 48)) else (v, s)
  | EmptyString => (v, EmptyString)
  end.

Definition LONG_MAX : Z := 9223372036854775807.

Definition clamp_long (v : Z) : Z := Z.max (- LONG_MAX - 1) (Z.min LONG_MAX v).

(** [strtol (s, &end, 10)]: the value and the text at [end]; without digits
    the value is 0 and [end] is [s]. *)
Definition strtol (s : string) : Z * string :=
  let digits neg t :=
    match t with
    | String c _ => if is_dec c
                    then let '(v, r) := dec_run t 0 in (clamp_long (if neg : bool then - v else v), r)
                    else (0, s)
    | EmptyString => (0, s)
    end in
  match skip_while is_space s with
  | String c t => if Ascii.eqb c "-" then digits true t
                  else if Ascii.eqb c "+" then digits false t
                  else digits false (String c t)
  | EmptyString => (0, s)
  end.

(** ** Decimal printing ("%u", "%d") *)

Definition digit_char (d : Z) : ascii := ascii_of_nat (Z.to_nat (48 + d)).

Fixpoint dec_aux (fuel : nat) (n : Z) (acc : string) : string :=
  match fuel with
  | O => acc
  | S f => let acc' := String (digit_char (n mod 10)) acc in
           if n <? 10 then acc' else dec_aux f (n / 10) acc'
  end.

(** Twenty digits are enough for any 64-bit value. *)
Definition print_u (n : Z) : string := dec_aux 20 n EmptyString.

Definition print_d (n : Z) : string :=
  if n <? 0 then String "-" (print_u (- n)) else print_u n.

(** "%x" of a non-negative value of at most 64 bits. *)
Definition hex_char (d : Z) : ascii :=
  ascii_of_nat (Z.to_nat (if d <? 10 then 48 + d else 87 + d)).

Fixpoint hex_aux (fuel : nat) (n : Z) (acc : string) : string :=
  match fuel with
  | O => acc
  | S f => let acc' := String (hex_char (n mod 16)) acc in
           if n <? 16 then acc' else hex_aux f (n / 16) acc'
  end.

Definition print_x (n : Z) : string := hex_aux 16 n EmptyString.

(** ** Automation *)

Create HintDb daemon.
Create Rewrite HintDb daemon.

(** Goals that mix wrap-around arithmetic and linear facts. *)
Ltac ulia :=
  unfold is_u8, is_u32, is_u64, s32, u8, u32, u64,
    UINT8_MAX, UINT32_MAX, UINT64_MAX in *;
  repeat case_match; rewrite ?Z.leb_le, ?Z.leb_gt, ?Z.ltb_lt, ?Z.ltb_ge in *;
  try (Z.div_mod_to_equations; lia).

(** Case analysis on the boolean guards of a handler. *)
Ltac bool_cases :=
  repeat match goal with
  | H : _ && _ = true |- _ => apply andb_true_iff in H as [? ?]
  | H : _ || _ = false |- _ => apply orb_false_iff in H as [? ?]
  | H : negb _ = true |- _ => apply negb_true_iff in H
  | H : negb _ = false |- _ => apply negb_false_iff in H
  | H : (_ =? _) = true |- _ => apply Z.eqb_eq in H
  | H : (_ =? _) = false |- _ => apply Z.eqb_neq in H
  | H : (_ <? _) = true |- _ => apply Z.ltb_lt in H
  | H : (_ <? _) = false |- _ => apply Z.ltb_ge in H
  | H : (_ <=? _) = true |- _ => apply Z.leb_le in H
  | H : (_ <=? _) = false |- _ => apply Z.leb_gt in H
  | H : strcmp_eq _ _ = true |- _ => apply String.eqb_eq in H
  | H : strcmp_eq _ _ = false |- _ => apply String.eqb_neq in H
  end.

(** ** Integer lemmas *)

Lemma u32_range x : is_u32 (u32 x).
Proof. ulia. Qed.

Lemma u32_id x : is_u32 x -> u32 x = x.
Proof. intros. apply Z.mod_small. ulia. Qed.

Lemma u64_range x : is_u64 (u64 x).
Proof. ulia. Qed.

Lemma u64_id x : is_u64 x -> u64 x = x.
Proof. intros. apply Z.mod_small. ulia. Qed.

Lemma s32_small x : 0 <= x < 2147483648 -> s32 x = x.
Proof. intros. ulia. Qed.

#[export] Hint Resolve u32_range u64_range : daemon.

(** ** Summation over lists, as the counters of the code do it *)

Fixpoint zsum (l : list Z) : Z :=
  match l with
  | [] => 0
  | x :: l' => x + zsum l'
  end.

Lemma zsum_app l1 l2 : zsum (l1 ++ l2) = zsum l1 + zsum l2.
Proof. induction l1; simpl; lia. Qed.

Lemma zsum_nonneg l : Forall (fun x => 0 <= x) l -> 0 <= zsum l.
Proof. induction 1; simpl; lia. Qed.

#[export] Hint Rewrite zsum_app : daemon.

(** ** String lemmas *)

Lemma forallb_false {A} (f : A -> bool) l :
  forallb f l = false -> exists x, x ∈ l /\ f x = false.
Proof.
  induction l as [|y l IH]; simpl; [done|]. intros [H|H]%andb_false_iff.
  - exists y. by split; [left|].
  - destruct (IH H) as (x & Hx & Hf). exists x. by split; [right|].
Qed.

Lemma strcmp_eq_refl s : strcmp_eq s s = true.
Proof. apply String.eqb_refl. Qed.

Lemma strcmp_eq_true a b : strcmp_eq a b = true <-> a = b.
Proof. apply String.eqb_eq. Qed.

Lemma strcmp_eq_false a b : strcmp_eq a b = false <-> a <> b.
Proof. apply String.eqb_neq. Qed.

Lemma substring_size n a : String.length (String.substring 0 n a) = Nat.min n (String.length a).
Proof. revert n. induction a as [|c a IH]; intros [|n]; cbn; [done..|]. by rewrite IH. Qed.

Lemma substring_short n s : (String.length (String.substring 0 n s) <= n)%nat.
Proof. rewrite substring_size. lia. Qed.

Lemma substring_all n s : (String.length s <= n)%nat -> String.substring 0 n s = s.
Proof. revert s. induction n as [|n IH]; intros [|c s] H; simpl in *; try done; try lia. f_equal. apply IH. lia. Qed.

Lemma alter_insert {A} (f : A -> A) (l : list A) p x : l !! p = Some x -> alter f p l = <[p := f x]> l.
Proof.
  intros Hx. pose proof (lookup_lt_Some _ _ _ Hx). apply list_eq. intros i. destruct (decide (i = p)) as [->|Hne].
  - by rewrite list_lookup_alter_eq, list_lookup_insert_eq, Hx.
  - by rewrite list_lookup_alter_ne, list_lookup_insert_ne.
Qed.

Lemma str_length_app a b :
  String.length (a +:+ b) = (String.length a + String.length b)%nat.
Proof. induction a; [done|]. change (String a a0 +:+ b) with (String a (a0 +:+ b)). simpl. lia. Qed.

Lemma str_app_cons x a b : String x a +:+ b = String x (a +:+ b).
Proof. done. Qed.

Lemma str_app_nil_r a : a +:+ "" = a.
Proof. induction a; [done|]. rewrite str_app_cons. by f_equal. Qed.

Lemma str_app_assoc a b c : (a +:+ b) +:+ c = a +:+ (b +:+ c).
Proof. induction a; [done|]. rewrite !str_app_cons. by f_equal. Qed.

Lemma strip_prefix_spec p s r : strip_prefix p s = Some r <-> s = p +:+ r.
Proof.
  revert s. induction p as [|a p IH]; intros s; cbn [strip_prefix]; [split; [by intros [= ->]|by intros ->]|].
  destruct s as [|c s]; [done|]. destruct (Ascii.eqb_spec a c) as [->|Hn].
  - rewrite IH. split; [by intros ->|by intros [= ->]].
  - split; [done|]. rewrite str_app_cons. by intros [= -> _].
Qed.

(** What [skip_while] takes off, and where it stops. *)
Lemma skip_while_split p s : exists a, s = a +:+ skip_while p s /\ str_forallb p a = true /\
  forall c r, skip_while p s = String c r -> p c = false.
Proof.
  induction s as [|c s (a & Hs & Ha & Hr)]; cbn [skip_while]; [by exists ""|]. destruct (p c) eqn:E.
  - exists (String c a). split; [rewrite str_app_cons; by f_equal|]. cbn [str_forallb]. by rewrite E.
  - exists "". split; [done|]. split; [done|]. by intros c' r [= <- _].
Qed.

Lemma str_forallb_app p a b :
  str_forallb p (a +:+ b) = str_forallb p a && str_forallb p b.
Proof.
  induction a; [done|]. rewrite str_app_cons. simpl. by rewrite IHa, andb_assoc.
Qed.

Lemma has_char_false c s :
  has_char c s = false <-> str_forallb (fun a => negb (Ascii.eqb a c)) s = true.
Proof. unfold has_char. by rewrite negb_false_iff. Qed.

Lemma has_char_app c a b : has_char c (a +:+ b) = has_char c a || has_char c b.
Proof. unfold has_char. by rewrite str_forallb_app, negb_andb. Qed.

Lemma cut_at_app c a b :
  has_char c a = false -> cut_at c (a +:+ String c b) = (a, Some b).
Proof.
  rewrite has_char_false. induction a as [|x a IH]; intros H.
  - change ("" +:+ String c b) with (String c b). simpl. by rewrite Ascii.eqb_refl.
  - rewrite str_app_cons. simpl in *. apply andb_true_iff in H as [H1 H2]. apply negb_true_iff in H1.
    rewrite H1, IH; done.
Qed.

Lemma cut_at_none c a : has_char c a = false -> cut_at c a = (a, None).
Proof.
  rewrite has_char_false. induction a as [|x a IH]; simpl; intros H; [done|].
  apply andb_true_iff in H as [H1 H2]. apply negb_true_iff in H1.
  rewrite H1, IH; done.
Qed.

Lemma bounded_copy_ok : @AiryStringOk bounded_copy.
Proof.
  intros n s Hs. unfold AIRY_STRNCPY_TERM, bounded_copy, snprintf_s.
  revert n Hs. induction s as [|a s IH]; intros n Hs; simpl in *.
  - by destruct (n - 1)%nat.
  - destruct n as [|[|n]]; simpl in *; try lia.
    f_equal. specialize (IH (S n)). simpl in IH. rewrite Nat.sub_0_r in IH.
    apply IH. lia.
Qed.
