(* ===== verification/Doubles.v ===== *)
(** * Doubles

    IEEE 754 binary64 arithmetic as the C code uses it ([double]), on the
    Standard Library's executable specification of floating-point numbers
    (precision 53, exponent bound 1024).  The file provides the operations the
    daemons need and the order lemmas the selection loops rely on: [dlt] is a
    strict order on all doubles, and total up to equality on the doubles that
    are not NaN; an integer below 2^53 is converted exactly. *)

From Stdlib Require Import SpecFloat.
From S2P Require Import Prelude.

Definition double := spec_float.

Definition dadd : double -> double -> double := SFadd 53 1024.
Definition dsub : double -> double -> double := SFsub 53 1024.
Definition dmul : double -> double -> double := SFmul 53 1024.
Definition ddiv : double -> double -> double := SFdiv 53 1024.
Definition dlt : double -> double -> bool := SFltb.
Definition dle : double -> double -> bool := SFleb.
Definition deq : double -> double -> bool := SFeqb.

(** Conversion of an integer to the nearest double, [(double)n]. *)
Definition d_of_Z (n : Z) : double := binary_normalize 53 1024 n 0 false.

(** A decimal literal [n / d] of the source: the correctly rounded quotient. *)
Definition d_lit (n d : Z) : double := ddiv (d_of_Z n) (d_of_Z d).

Definition d_zero : double := S754_zero false.
Definition d_inf : double := S754_infinity false.

Definition is_nan (x : double) : bool :=
  match x with S754_nan => true | _ => false end.

(** Conversion of a non-negative finite double to an integer, truncating:
    [(size_t)x] where the value is in range. *)
Definition d_trunc (x : double) : Z :=
  match x with
  | S754_finite s m e =>
      let v := Z.shiftl (Zpos m) e in if s then - v else v
  | _ => 0
  end.

(** ** Order *)

(** A key on which [SFcompare] is lexicographic comparison. *)
Definition dkey (x : double) : Z * Z * Z :=
  match x with
  | S754_nan => (0, 0, 0)
  | S754_infinity true => (-2, 0, 0)
  | S754_infinity false => (2, 0, 0)
  | S754_zero _ => (0, 0, 0)
  | S754_finite true m e => (-1, - e, - Zpos m)
  | S754_finite false m e => (1, e, Zpos m)
  end.

Definition key_lt (a b : Z * Z * Z) : Prop :=
  a.1.1 < b.1.1 \/ a.1.1 = b.1.1 /\
  (a.1.2 < b.1.2 \/ a.1.2 = b.1.2 /\ a.2 < b.2).

Lemma dlt_key x y :
  is_nan x = false -> is_nan y = false -> dlt x y = true <-> key_lt (dkey x) (dkey y).
Proof.
  intros Hx Hy. unfold dlt, SFltb, key_lt.
  destruct x as [sx|sx| |sx mx ex]; destruct y as [sy|sy| |sy my ey]; try done;
    try destruct sx; try destruct sy; simpl; try (split; [done|lia]); try (split; [lia|done]).
  all: destruct (Z.compare_spec ex ey) as [Hz|Hz|Hz]; try (split; [done|lia]); try (split; [lia|done]).
  all: fold (Pos.compare mx my).
  all: destruct (Pos.compare_spec mx my); simpl; try (split; [done|lia]); try (split; [lia|done]).
Qed.

Lemma dlt_nan x y : dlt x y = true -> is_nan x = false /\ is_nan y = false.
Proof. destruct x as [[]|[]| |[] ? ?]; destruct y as [[]|[]| |[] ? ?]; done. Qed.

Lemma dlt_irrefl x : dlt x x = false.
Proof.
  destruct (dlt x x) eqn:E; [|done]. exfalso.
  destruct (dlt_nan _ _ E). apply dlt_key in E; [|done..]. unfold key_lt in E. lia.
Qed.

Lemma dlt_trans x y z : dlt x y = true -> dlt y z = true -> dlt x z = true.
Proof.
  intros H1 H2. destruct (dlt_nan _ _ H1), (dlt_nan _ _ H2).
  apply dlt_key in H1, H2; [|done..]. apply dlt_key; [done..|]. unfold key_lt in *. lia.
Qed.

(** Negative transitivity: with [y] not NaN, [x < z] puts [y] above [x] or
    below [z]. *)
Lemma dlt_cotrans x y z :
  is_nan y = false -> dlt x z = true -> dlt x y = true \/ dlt y z = true.
Proof.
  intros Hy H. destruct (dlt_nan _ _ H). apply dlt_key in H; [|done..].
  rewrite !dlt_key by done. unfold key_lt in *. lia.
Qed.

Lemma dlt_asym x y : dlt x y = true -> dlt y x = false.
Proof.
  intros H. destruct (dlt y x) eqn:E; [|done].
  pose proof (dlt_trans _ _ _ H E) as C. by rewrite dlt_irrefl in C.
Qed.

#[export] Hint Resolve dlt_irrefl dlt_asym : daemon.

(** ** Integers below 2^53 *)

Lemma digits2_bound p : 2 ^ (Zpos (digits2_pos p) - 1) <= Zpos p < 2 ^ Zpos (digits2_pos p).
Proof.
  induction p as [p IH|p IH|]; cbn [digits2_pos]; [| |done];
    rewrite Pos2Z.inj_succ, Z.sub_succ_l, !Z.pow_succ_r by lia; lia.
Qed.

Lemma digits2_xO n p : digits2_pos (Pos.iter xO p n) = (digits2_pos p + n)%positive.
Proof.
  induction n as [|n IH] using Pos.peano_ind; cbn [Pos.iter digits2_pos]; [lia|].
  rewrite Pos.iter_succ. cbn [digits2_pos]. rewrite IH. lia.
Qed.

Lemma iter_xO n p : Zpos (Pos.iter xO p n) = Z.shiftl (Zpos p) (Zpos n).
Proof.
  rewrite Z.shiftl_mul_pow2 by lia. induction n as [|n IH] using Pos.peano_ind; [simpl; lia|].
  rewrite Pos.iter_succ, Pos2Z.inj_xO, IH, Pos2Z.inj_succ, Z.pow_succ_r by lia. lia.
Qed.

(** A number of 53 digits is its own mantissa. *)
Lemma round_exact m e :
  Zpos (digits2_pos m) = 53 -> -1074 <= e <= 0 -> binary_round_aux 53 1024 false (Zpos m) e loc_Exact = S754_finite false m e.
Proof.
  intros Hd He. unfold binary_round_aux, shr_fexp, fexp, emin. cbn [Zdigits2 shr_record_of_loc]. rewrite Hd.
  replace (Z.max (53 + e - 53) (3 - 1024 - 53) - e) with 0 by lia. cbn [shr shr_m loc_of_shr_record round_nearest_even Zdigits2]. rewrite Hd.
  replace (Z.max (53 + e - 53) (3 - 1024 - 53) - e) with 0 by lia. cbn [shr shr_m].
  by rewrite (proj2 (Z.leb_le e (1024 - 53))) by lia.
Qed.

(** An integer below 2^53 is a double, exactly. *)
Lemma d_of_pos p :
  Zpos p < 2 ^ 53 -> exists m, d_of_Z (Zpos p) = S754_finite false m (Zpos (digits2_pos p) - 53)
    /\ Z.shiftl (Zpos m) (Zpos (digits2_pos p) - 53) = Zpos p.
Proof.
  intros Hn. unfold d_of_Z, binary_normalize, binary_round.
  pose proof (digits2_bound p) as Hb. assert (Hd : Zpos (digits2_pos p) <= 53).
  { destruct (Z.le_gt_cases (Zpos (digits2_pos p)) 53) as [|Hgt]; [done|].
    assert (2 ^ 53 <= 2 ^ (Zpos (digits2_pos p) - 1)) by (apply Z.pow_le_mono_r; lia). lia. }
  unfold fexp, emin. replace (Z.max _ _) with (Zpos (digits2_pos p) - 53) by lia. unfold shl_align.
  destruct (Zpos (digits2_pos p) - 53 - 0) as [|q|q] eqn:E; [|lia|].
  - exists p. rewrite round_exact by lia. split; [f_equal; lia|]. replace (_ - 53) with 0 by lia. by rewrite Z.shiftl_0_r.
  - exists (Pos.iter xO p q). rewrite round_exact by (rewrite ?digits2_xO; lia). split; [done|]. rewrite iter_xO.
    replace (Zpos (digits2_pos p) - 53) with (- Zpos q) by lia. rewrite Z.shiftl_shiftl by lia.
    by rewrite Z.add_opp_diag_r, Z.shiftl_0_r.
Qed.

Lemma d_trunc_of_Z n : 0 <= n < 2 ^ 53 -> d_trunc (d_of_Z n) = n.
Proof.
  intros Hn. destruct n as [|p|p]; [done| |lia]. destruct (d_of_pos p) as (m & -> & E); [lia|]. exact E.
Qed.

(** The order of a power of two and the integers below it. *)
Lemma d_of_Z_below n k : 0 <= n < 2 ^ k -> 0 <= k < 53 -> dlt (d_of_Z n) (d_of_Z (2 ^ k)) = true.
Proof.
  intros Hn Hk. destruct (2 ^ k) as [|q|q] eqn:Eq; [lia| |lia].
  assert (Hq : Zpos q < 2 ^ 53) by (rewrite <- Eq; apply Z.pow_lt_mono_r; lia).
  pose proof (digits2_bound q) as [_ Bq]. rewrite <- Eq in Bq. apply Z.pow_lt_mono_r_iff in Bq; [|lia..].
  destruct (d_of_pos q Hq) as (mq & -> & _). destruct n as [|p|p]; [done| |lia].
  pose proof (digits2_bound p) as [Bp _]. destruct (d_of_pos p) as (mp & -> & _); [lia|].
  assert (2 ^ (Zpos (digits2_pos p) - 1) < 2 ^ k) as Bk by lia. apply Z.pow_lt_mono_r_iff in Bk; [|lia..].
  apply dlt_key; [done..|]. right. split; [done|]. left. cbn. lia.
Qed.

(** The literals of the code evaluate to the doubles a C compiler emits. *)
Example d_lit_0_2 : d_lit 2 10 = S754_finite false 7205759403792794 (-55).
Proof. vm_compute. reflexivity. Qed.

Example d_trunc_pos : d_trunc (dmul (d_of_Z 32768) (d_lit 8 10)) = 26214.
Proof. vm_compute. reflexivity. Qed.
