(* ===== verification/Failover.v ===== *)
(** * Failover

    The endpoint-switch decision of llm_d (llm_d/src/router/core/llm_failover.c):
    an error code is mapped to the reason for which another endpoint may be
    tried.  The numeric error codes and the error classifier
    [airy_err_class_of] belong to the commons library; they are the interface
    [ErrModel]. *)

From S2P Require Import Prelude.

(** ** The commons error model, an interface *)

Inductive airy_err_class :=
| AIRY_ERR_CLASS_OK
| AIRY_ERR_CLASS_TRANSPORT
| AIRY_ERR_CLASS_CONFIG
| AIRY_ERR_CLASS_POLICY
| AIRY_ERR_CLASS_BUSINESS.

#[export] Instance airy_err_class_eq_dec : EqDecision airy_err_class.
Proof. solve_decision. Defined.

Class ErrModel := {
  err_code : airy_rc -> Z;
  airy_err_class_of : Z -> airy_err_class
}.

(** What the code relies on: success is 0, errors are negative, distinct
    symbols have distinct values. *)
Class ErrModelOk `{ErrModel} : Prop := {
  err_code_success : err_code AIRY_SUCCESS = 0;
  err_code_neg : forall c, c <> AIRY_SUCCESS -> err_code c < 0;
  err_code_inj : forall a b, err_code a = err_code b -> a = b
}.

(** ** The decision *)

Inductive llm_fo_reason_t :=
| LLM_FO_NONE | LLM_FO_TRANSPORT | LLM_FO_RATE_LIMIT | LLM_FO_AUTH.

#[export] Instance llm_fo_reason_t_eq_dec : EqDecision llm_fo_reason_t.
Proof. solve_decision. Defined.

Definition fo_val (r : llm_fo_reason_t) : Z :=
  match r with
  | LLM_FO_NONE => 0
  | LLM_FO_TRANSPORT => 1
  | LLM_FO_RATE_LIMIT => 2
  | LLM_FO_AUTH => 3
  end.

Definition LLM_FO_BIT (r : llm_fo_reason_t) : Z := Z.shiftl 1 (fo_val r).

Definition LLM_FO_ON_DEFAULT : Z :=
  Z.lor (Z.lor (LLM_FO_BIT LLM_FO_TRANSPORT) (LLM_FO_BIT LLM_FO_RATE_LIMIT))
        (LLM_FO_BIT LLM_FO_AUTH).

Definition fo_names : list string := ["none"; "transport"; "rate_limit"; "auth"].

(** The enum value is an [int]; anything outside the table reads "none". *)
Definition llm_fo_name (reason : Z) : string :=
  if (reason <? 0) || (Z.of_nat (length fo_names) <=? reason) then "none"
  else default "none" (fo_names !! Z.to_nat reason).

Fixpoint fo_parse_loop (name : string) (rs : list llm_fo_reason_t) : llm_fo_reason_t :=
  match rs with
  | [] => LLM_FO_NONE
  | r :: rs' => if strcmp_eq name (llm_fo_name (fo_val r)) then r else fo_parse_loop name rs'
  end.

Definition llm_fo_parse (name : option string) : llm_fo_reason_t :=
  match name with
  | None => LLM_FO_NONE
  | Some n => fo_parse_loop n [LLM_FO_NONE; LLM_FO_TRANSPORT; LLM_FO_RATE_LIMIT; LLM_FO_AUTH]
  end.

Section failover.
  Context `{EM : ErrModel}.

Definition k_fo_map : list (Z * llm_fo_reason_t) :=
    [ (err_code AIRY_ERR_LLM_AUTH_FAIL, LLM_FO_AUTH);
      (err_code AIRY_ERR_LLM_RATE_LIMIT, LLM_FO_RATE_LIMIT);
      (err_code AIRY_ERR_IO, LLM_FO_TRANSPORT) ].

Fixpoint fo_map_scan (code : Z) (m : list (Z * llm_fo_reason_t)) : llm_fo_reason_t :=
    match m with
    | [] => LLM_FO_NONE
    | (c, r) :: m' => if c =? code then r else fo_map_scan code m'
    end.

Definition fo_map_find (code : Z) : llm_fo_reason_t := fo_map_scan code k_fo_map.

Definition llm_fo_reason (err : Z) : llm_fo_reason_t :=
    let code := if 0 <? err then - err else err in
    if code =? 0 then LLM_FO_NONE
    else
      let mapped := fo_map_find code in
      if decide (mapped <> LLM_FO_NONE) then mapped
      else if decide (airy_err_class_of code = AIRY_ERR_CLASS_TRANSPORT)
           then LLM_FO_TRANSPORT else LLM_FO_NONE.

Definition llm_fo_should (err on_mask : Z) : bool :=
    let reason := llm_fo_reason err in
    bool_decide (reason <> LLM_FO_NONE) && negb (Z.land on_mask (LLM_FO_BIT reason) =? 0).

  (** Sign normalisation: the code accepts either sign of an error. *)
Lemma llm_fo_reason_opp err : llm_fo_reason (- err) = llm_fo_reason err.
  Proof.
    unfold llm_fo_reason.
    destruct (Z.ltb_spec 0 err), (Z.ltb_spec 0 (- err)); try lia.
    - done.
    - by rewrite Z.opp_involutive.
    - by replace (- err) with err by lia.
  Qed.

Lemma fo_should_mask err m :
    llm_fo_should err m = true ->
    llm_fo_reason err <> LLM_FO_NONE /\ Z.land m (LLM_FO_BIT (llm_fo_reason err)) <> 0.
  Proof.
    unfold llm_fo_should. intros H. apply andb_true_iff in H as [H1 H2].
    apply bool_decide_eq_true in H1. bool_cases. done.
  Qed.

  Context `{EMO : !ErrModelOk}.

Lemma fo_reason_of_sym c :
    c <> AIRY_SUCCESS ->
    llm_fo_reason (err_code c) =
      match c with
      | AIRY_ERR_LLM_AUTH_FAIL => LLM_FO_AUTH
      | AIRY_ERR_LLM_RATE_LIMIT => LLM_FO_RATE_LIMIT
      | AIRY_ERR_IO => LLM_FO_TRANSPORT
      | _ => if decide (airy_err_class_of (err_code c) = AIRY_ERR_CLASS_TRANSPORT)
             then LLM_FO_TRANSPORT else LLM_FO_NONE
      end.
  Proof.
    intros Hc. pose proof (err_code_neg c Hc). unfold llm_fo_reason.
    destruct (Z.ltb_spec 0 (err_code c)); [lia|].
    destruct (Z.eqb_spec (err_code c) 0); [lia|].
    unfold fo_map_find, k_fo_map. simpl.
    repeat match goal with
    | |- context [err_code ?a =? err_code c] =>
        destruct (Z.eqb_spec (err_code a) (err_code c)) as [Heq|];
        [apply err_code_inj in Heq; subst c; done|]
    end.
    rewrite decide_False by tauto. destruct c; congruence.
  Qed.

  (** Failover classification.  With the default white list the code
      switches endpoint exactly for the three explicitly mapped errors
      (authentication, rate limit, I/O) and for the errors the commons
      library classes as transport errors; the explicit entries keep their
      own reason whatever class the library gives them, and the sign of the
      code is irrelevant. *)
Theorem llm_fo_should_default c :
    c <> AIRY_SUCCESS ->
    llm_fo_should (err_code c) LLM_FO_ON_DEFAULT =
      bool_decide (c ∈ [AIRY_ERR_LLM_AUTH_FAIL; AIRY_ERR_LLM_RATE_LIMIT; AIRY_ERR_IO]
                   \/ airy_err_class_of (err_code c) = AIRY_ERR_CLASS_TRANSPORT)
    /\ llm_fo_should (- err_code c) LLM_FO_ON_DEFAULT
       = llm_fo_should (err_code c) LLM_FO_ON_DEFAULT.
  Proof.
    intros Hc. split.
    - unfold llm_fo_should. rewrite fo_reason_of_sym by done.
      destruct (decide (airy_err_class_of (err_code c) = AIRY_ERR_CLASS_TRANSPORT)) as [E|E].
      + rewrite (bool_decide_eq_true_2 (_ \/ _)) by auto. by destruct c.
      + destruct (decide (c ∈ [AIRY_ERR_LLM_AUTH_FAIL; AIRY_ERR_LLM_RATE_LIMIT; AIRY_ERR_IO]))
          as [Hin|Hin].
        * rewrite (bool_decide_eq_true_2 (_ \/ _)) by auto.
          rewrite !elem_of_cons in Hin. destruct Hin as [->|[->|[->|Hin]]]; try done.
          by apply not_elem_of_nil in Hin.
        * rewrite (bool_decide_eq_false_2 (_ \/ _)) by tauto.
          rewrite !elem_of_cons in Hin. destruct c; try done; tauto.
    - unfold llm_fo_should. by rewrite llm_fo_reason_opp.
  Qed.
End failover.

(** The wire names round trip. *)
Lemma llm_fo_parse_name r : llm_fo_parse (Some (llm_fo_name (fo_val r))) = r.
Proof. by destruct r. Qed.

(** ** A concrete error model: the values test_error.c asserts, and
    distinct negative numbers for the codes they leave open. *)
Module SampleErr.
Definition sample_code (c : airy_rc) : Z :=
    match c with
    | AIRY_SUCCESS => 0
    | AIRY_ERR_INVALID_PARAM => -36
    | AIRY_ERR_OUT_OF_MEMORY => -59
    | AIRY_ERR_NOT_FOUND => -6
    | AIRY_ERR_ALREADY_EXISTS => -38
    | AIRY_ERR_TIMEOUT => -8
    | AIRY_ERR_NOT_SUPPORTED => -9
    | AIRY_ERR_PERMISSION_DENIED => -39
    | AIRY_ERR_IO => -40
    | AIRY_ERR_OVERFLOW => -60
    | AIRY_ERR_BUSY => -58
    | AIRY_ERR_UNKNOWN => -1
    | AIRY_ERR_SYS_NOT_INIT => -101
    | AIRY_ERR_SYS_MUTEX => -103
    | AIRY_ERR_LLM_AUTH_FAIL => -301
    | AIRY_ERR_LLM_RATE_LIMIT => -302
    | AIRY_ERR_LLM_BAD_REQUEST => -303
    | AIRY_ERR_LLM_STREAM_STALL => -304
    | AIRY_ERR_LLM_INVALID_MODEL => -305
    | AIRY_ETIMEDOUT => -110
    | AIRY_ERR_SYS_RESOURCE => -102
    | AIRY_ERR_SYS_THREAD => -401
    | AIRY_ERR_SYS_SEMAPHORE => -402
    | AIRY_ERR_SYS_CONDITION => -403
    | AIRY_ERR_SYS_PIPE => -404
    | AIRY_ERR_SYS_PROCESS => -405
    | AIRY_ERR_SYS_SOCKET => -406
    | AIRY_ERR_SYS_FILE => -407
    | AIRY_ERR_EXEC_TIMEOUT => -408
    | AIRY_ERR_SVC_NOT_READY => -409
    | AIRY_ERR_SVC_BUSY => -410
    | AIRY_ERR_SVC_STOPPED => -411
    | AIRY_ERR_LLM_PROVIDER_FAIL => -412
    | AIRY_ERR_LLM_PARSE_RESP => -413
    | AIRY_ERR_LLM_EMPTY_RESP => -414
    | AIRY_ERR_PARSE_ERROR => -415
    | AIRY_ERR_INTERRUPTED => -19
    | AIRY_ERR_WOULD_BLOCK => -417
    | AIRY_ERR_CYCLE_DETECTED => -418
    | AIRY_ERR_LLM_STREAM_UNDONE => -430
    | AIRY_ERR_SEC_VIOLATION => -431
    | AIRY_ERR_SEC_QUOTA => -432
    | AIRY_ERR_CANCELED => -57
    | AIRY_ERR_EXEC_NOT_FOUND => -434
    | AIRY_ERR_STATE_ERROR => -419
    | AIRY_EPERM => -420
    end.

#[export] Instance sample_err : ErrModel := {
    err_code := sample_code;
    airy_err_class_of z :=
      if z =? 0 then AIRY_ERR_CLASS_OK
      else if (z =? -8) || (z =? -302) then AIRY_ERR_CLASS_TRANSPORT
      else if z =? -301 then AIRY_ERR_CLASS_CONFIG
      else AIRY_ERR_CLASS_BUSINESS
  }.

#[export] Instance sample_err_ok : ErrModelOk.
  Proof. split; [done| |]; [by intros [] | by intros [] []]. Qed.
End SampleErr.

(** A timeout is switchable, an invalid parameter is not. *)
Lemma llm_fo_should_default_witness :
  @llm_fo_should SampleErr.sample_err (-8) LLM_FO_ON_DEFAULT = true /\
  @llm_fo_should SampleErr.sample_err (-36) LLM_FO_ON_DEFAULT = false.
Proof.
  split.
  - refine (eq_trans (proj1 (llm_fo_should_default
      (EM := SampleErr.sample_err) (EMO := SampleErr.sample_err_ok) AIRY_ERR_TIMEOUT _)) _); [done|].
    by vm_compute.
  - refine (eq_trans (proj1 (llm_fo_should_default
      (EM := SampleErr.sample_err) (EMO := SampleErr.sample_err_ok) AIRY_ERR_INVALID_PARAM _)) _); [done|].
    by vm_compute.
Defined.
