(* ===== verification/EpHealth.v ===== *)
(** * EpHealth

    The endpoint circuit breaker of llm_d (llm_d/src/router/core/llm_health.c,
    the part that works on one endpoint).  Times are [airy_time_ms()] truncated
    to 32 bits and compared through the sign of the 32-bit difference, so every
    operation is modelled at width.  The six health fields of
    [llm_endpoint_t] form the record [ep_sig_t], which the source also names. *)

From S2P Require Import Prelude Failover.

(** ** Data *)

Record ep_sig_t := mkSig {
  consec_fail : Z;
  last_fail_ms : Z;
  open_until_ms : Z;
  probe_until_ms : Z;
  probe_fail : Z;
  open_level : Z
}.

#[export] Instance ep_sig_t_eq_dec : EqDecision ep_sig_t.
Proof. solve_decision. Defined.

Inductive llm_ep_state_t := LLM_EP_CLOSED | LLM_EP_OPEN | LLM_EP_HALF.

#[export] Instance llm_ep_state_t_eq_dec : EqDecision llm_ep_state_t.
Proof. solve_decision. Defined.

Definition ep_state_val (s : llm_ep_state_t) : Z :=
  match s with LLM_EP_CLOSED => 0 | LLM_EP_OPEN => 1 | LLM_EP_HALF => 2 end.

Definition LLM_EP_FAIL_MAX : Z := 3.
Definition LLM_EP_FAIL_WINDOW_MS : Z := 60000.
Definition LLM_EP_OPEN_MS : Z := 30000.
Definition LLM_EP_OPEN_MAX_MS : Z := 300000.
Definition LLM_EP_MAX_LEVEL : Z := 4.
Definition LLM_EP_PROBE_MS : Z := 10000.
Definition LLM_EP_PROBE_MAX : Z := 3.

(** ** Operations *)

(** The hold time of [ep_open], before it is added to [now]. *)
Definition ep_hold (level : Z) : Z :=
  let l := if level <? LLM_EP_MAX_LEVEL then level else LLM_EP_MAX_LEVEL in
  let hold := u64 (Z.shiftl LLM_EP_OPEN_MS l) in
  if LLM_EP_OPEN_MAX_MS <? hold then LLM_EP_OPEN_MAX_MS else hold.

Definition ep_open (ep : ep_sig_t) (now : Z) : ep_sig_t :=
  let until := u32 (now + u32 (ep_hold (open_level ep))) in
  mkSig (consec_fail ep) (last_fail_ms ep)
        (if until =? 0 then 1 else until)
        0
        (probe_fail ep)
        (if open_level ep <? UINT8_MAX then open_level ep + 1 else open_level ep).

Definition llm_ep_state (ep : ep_sig_t) (now : Z) : llm_ep_state_t :=
  if open_until_ms ep =? 0 then LLM_EP_CLOSED
  else if 0 <? s32 (open_until_ms ep - now) then LLM_EP_OPEN
  else LLM_EP_HALF.

Definition llm_ep_admit (ep : ep_sig_t) (now : Z) : bool * ep_sig_t :=
  match llm_ep_state ep now with
  | LLM_EP_OPEN => (false, ep)
  | LLM_EP_CLOSED => (true, ep)
  | LLM_EP_HALF =>
      if negb (probe_until_ms ep =? 0) && (0 <? s32 (probe_until_ms ep - now))
      then (false, ep)
      else
        let until := u32 (now + LLM_EP_PROBE_MS) in
        (true, mkSig (consec_fail ep) (last_fail_ms ep) (open_until_ms ep)
                     (if until =? 0 then 1 else until) (probe_fail ep) (open_level ep))
  end.

Definition ep_count (ep : ep_sig_t) (now : Z) : ep_sig_t :=
  let c := if negb (consec_fail ep =? 0)
              && (LLM_EP_FAIL_WINDOW_MS <=? u32 (now - last_fail_ms ep))
           then 0 else consec_fail ep in
  mkSig (if c <? UINT32_MAX then c + 1 else c) now
        (open_until_ms ep) (probe_until_ms ep) (probe_fail ep) (open_level ep).

Definition set_last_fail (ep : ep_sig_t) (now : Z) : ep_sig_t :=
  mkSig (consec_fail ep) now (open_until_ms ep) (probe_until_ms ep) (probe_fail ep)
        (open_level ep).

Definition set_probe_fail (ep : ep_sig_t) (n : Z) : ep_sig_t :=
  mkSig (consec_fail ep) (last_fail_ms ep) (open_until_ms ep) (probe_until_ms ep) n
        (open_level ep).

(** [llm_ep_fail] after the classification of the error. *)
Definition ep_fail_reason (ep : ep_sig_t) (reason : llm_fo_reason_t) (now : Z) : ep_sig_t :=
  match reason with
  | LLM_FO_NONE => ep
  | _ =>
    match llm_ep_state ep now with
    | LLM_EP_OPEN => set_last_fail ep now
    | LLM_EP_HALF =>
        let ep1 := set_last_fail ep now in
        if bool_decide (reason = LLM_FO_AUTH)
        then ep_open (set_probe_fail ep1 0) now
        else
          let pf := u32 (probe_fail ep1 + 1) in
          if LLM_EP_PROBE_MAX <=? pf
          then ep_open (set_probe_fail ep1 0) now
          else set_probe_fail ep1 pf
    | LLM_EP_CLOSED =>
        let ep1 := ep_count ep now in
        if bool_decide (reason = LLM_FO_AUTH) || (LLM_EP_FAIL_MAX <=? consec_fail ep1)
        then ep_open (set_probe_fail ep1 0) now
        else ep1
    end
  end.

Definition llm_ep_fail `{ErrModel} (ep : ep_sig_t) (err now : Z) : ep_sig_t :=
  ep_fail_reason ep (llm_fo_reason err) now.

Definition ep_zero : ep_sig_t := mkSig 0 0 0 0 0 0.

(** [llm_ep_ok] clears the six fields whatever they held. *)
Definition llm_ep_ok (ep : ep_sig_t) : ep_sig_t := ep_zero.

Definition ep_sig_differs (a b : ep_sig_t) : bool :=
  negb (consec_fail a =? consec_fail b) || negb (last_fail_ms a =? last_fail_ms b)
  || negb (open_until_ms a =? open_until_ms b) || negb (probe_until_ms a =? probe_until_ms b)
  || negb (probe_fail a =? probe_fail b) || negb (open_level a =? open_level b).

Definition ep_step `{ErrModel} (ep : ep_sig_t) (ok : bool) (err now : Z) : ep_sig_t * bool :=
  let after := if ok then llm_ep_ok ep else llm_ep_fail ep err now in
  (after, ep_sig_differs ep after).

(** ** Well-formedness: every field within its C type, the counters of the
    closed and half-open phases below their thresholds. *)
Record ep_wf (ep : ep_sig_t) : Prop := {
  wf_consec : 0 <= consec_fail ep <= LLM_EP_FAIL_MAX;
  wf_last : is_u32 (last_fail_ms ep);
  wf_open : is_u32 (open_until_ms ep);
  wf_probe : is_u32 (probe_until_ms ep);
  wf_pf : 0 <= probe_fail ep < LLM_EP_PROBE_MAX;
  wf_level : is_u8 (open_level ep);
  wf_closed : open_until_ms ep = 0 -> consec_fail ep < LLM_EP_FAIL_MAX
}.

Lemma ep_zero_wf : ep_wf ep_zero.
Proof. split; unfold ep_zero, is_u32, is_u8, UINT32_MAX, UINT8_MAX, LLM_EP_PROBE_MAX,
         LLM_EP_FAIL_MAX; simpl; lia. Qed.

(** ** The hold time *)

Lemma ep_hold_table level :
  0 <= level ->
  ep_hold level = if level =? 0 then 30000 else if level =? 1 then 60000
                  else if level =? 2 then 120000 else if level =? 3 then 240000 else 300000.
Proof.
  intros H. unfold ep_hold, LLM_EP_MAX_LEVEL.
  destruct (Z.ltb_spec level 4).
  - assert (level = 0 \/ level = 1 \/ level = 2 \/ level = 3) as [->|[->|[->| ->]]] by lia; done.
  - repeat case_match; bool_cases; try lia; done.
Qed.

Lemma ep_hold_bounds level :
  0 <= level -> LLM_EP_OPEN_MS <= ep_hold level <= LLM_EP_OPEN_MAX_MS.
Proof.
  intros. rewrite ep_hold_table by done. unfold LLM_EP_OPEN_MS, LLM_EP_OPEN_MAX_MS.
  repeat case_match; lia.
Qed.

Lemma ep_hold_mono l1 l2 : 0 <= l1 <= l2 -> ep_hold l1 <= ep_hold l2.
Proof. intros. rewrite !ep_hold_table by lia. repeat case_match; bool_cases; lia. Qed.

Lemma ep_open_until ep now :
  0 <= open_level ep ->
  open_until_ms (ep_open ep now) =
    (if u32 (now + ep_hold (open_level ep)) =? 0 then 1
     else u32 (now + ep_hold (open_level ep))).
Proof.
  intros H. unfold ep_open. simpl. pose proof (ep_hold_bounds _ H).
  rewrite (u32_id (ep_hold _)); [done|].
  unfold LLM_EP_OPEN_MS, LLM_EP_OPEN_MAX_MS in *. ulia.
Qed.

Lemma ep_open_nonzero ep now : open_until_ms (ep_open ep now) <> 0.
Proof. unfold ep_open. simpl. case_match; bool_cases; lia. Qed.

#[export] Hint Resolve ep_open_nonzero ep_zero_wf : daemon.

(** ** Timing of the open phase *)

Lemma ep_open_state_gen ep now d :
  ep_wf ep -> is_u32 now -> 0 <= d < ep_hold (open_level ep) ->
  llm_ep_state (ep_open ep now) (u32 (now + d)) = LLM_EP_OPEN.
Proof.
  intros Hwf Hnow Hd. pose proof (wf_level _ Hwf) as Hl.
  pose proof (ep_hold_bounds (open_level ep)) as Hh. unfold LLM_EP_OPEN_MS, LLM_EP_OPEN_MAX_MS in Hh.
  unfold llm_ep_state. destruct (Z.eqb_spec (open_until_ms (ep_open ep now)) 0) as [E|_].
  { by apply ep_open_nonzero in E. }
  rewrite ep_open_until by (unfold is_u8 in Hl; lia).
  destruct (Z.ltb_spec 0 (s32 ((if u32 (now + ep_hold (open_level ep)) =? 0 then 1
    else u32 (now + ep_hold (open_level ep))) - u32 (now + d)))) as [|Hbad]; [done|exfalso].
  revert Hbad. unfold is_u8 in Hl. set (h := ep_hold (open_level ep)) in *.
  destruct (Z.eqb_spec (u32 (now + h)) 0); ulia.
Qed.

Lemma ep_open_state_now ep now :
  ep_wf ep -> is_u32 now -> llm_ep_state (ep_open ep now) now = LLM_EP_OPEN.
Proof.
  intros Hwf Hn. pose proof (wf_level _ Hwf) as [Hl _].
  pose proof (ep_hold_bounds _ Hl) as Hh. unfold LLM_EP_OPEN_MS in Hh.
  rewrite <- (u32_id now Hn) at 2. rewrite <- (Z.add_0_r now) at 2.
  apply ep_open_state_gen; [done..|lia].
Qed.

Lemma ep_open_half ep now d :
  ep_wf ep -> is_u32 now ->
  ep_hold (open_level ep) < d <= ep_hold (open_level ep) + 2147483648 ->
  llm_ep_state (ep_open ep now) (u32 (now + d)) = LLM_EP_HALF.
Proof.
  intros Hwf Hnow Hd. pose proof (wf_level _ Hwf) as [Hl _].
  pose proof (ep_hold_bounds _ Hl) as Hh. unfold LLM_EP_OPEN_MS, LLM_EP_OPEN_MAX_MS in Hh.
  unfold llm_ep_state. destruct (Z.eqb_spec (open_until_ms (ep_open ep now)) 0) as [E|_].
  { by apply ep_open_nonzero in E. }
  rewrite ep_open_until by done. set (h := ep_hold (open_level ep)) in *.
  destruct (Z.ltb_spec 0 (s32 ((if u32 (now + h) =? 0 then 1 else u32 (now + h))
    - u32 (now + d)))) as [Hbad|]; [exfalso|done].
  revert Hbad. destruct (Z.eqb_spec (u32 (now + h)) 0); ulia.
Qed.

(** ** Preservation of well-formedness *)

Lemma closed_open_until ep now :
  llm_ep_state ep now = LLM_EP_CLOSED <-> open_until_ms ep = 0.
Proof.
  unfold llm_ep_state. split; [|by intros ->].
  repeat case_match; bool_cases; done.
Qed.

Lemma set_last_fail_wf ep now : ep_wf ep -> is_u32 now -> ep_wf (set_last_fail ep now).
Proof. intros [] ?. by split. Qed.

Lemma set_probe_fail_wf ep n :
  ep_wf ep -> 0 <= n < LLM_EP_PROBE_MAX -> ep_wf (set_probe_fail ep n).
Proof. intros [] ?. by split. Qed.

Lemma ep_open_wf ep now :
  0 <= consec_fail ep <= LLM_EP_FAIL_MAX -> is_u32 (last_fail_ms ep) ->
  is_u8 (open_level ep) -> 0 <= probe_fail ep < LLM_EP_PROBE_MAX -> ep_wf (ep_open ep now).
Proof.
  intros. split; try done.
  - unfold ep_open. simpl. case_match; [|apply u32_range].
    unfold is_u32, UINT32_MAX. lia.
  - unfold is_u8, UINT8_MAX in *. unfold ep_open. simpl.
    case_match; bool_cases; unfold UINT8_MAX in *; lia.
  - intros E. by apply ep_open_nonzero in E.
Qed.

Lemma ep_count_range ep now :
  0 <= consec_fail ep <= LLM_EP_FAIL_MAX -> 1 <= consec_fail (ep_count ep now) <= UINT32_MAX
    /\ (consec_fail (ep_count ep now) <= consec_fail ep + 1).
Proof.
  unfold ep_count, LLM_EP_FAIL_MAX, UINT32_MAX. simpl. intros.
  match goal with |- context [if ?b then 0 else consec_fail ep] => destruct b end;
    case_match; bool_cases; lia.
Qed.

Lemma ep_count_fresh ep now :
  0 <= consec_fail ep ->
  consec_fail ep = 0 \/ LLM_EP_FAIL_WINDOW_MS <= u32 (now - last_fail_ms ep) ->
  consec_fail (ep_count ep now) = 1.
Proof.
  intros Hc H. unfold ep_count. cbn [consec_fail].
  destruct (Z.eqb_spec (consec_fail ep) 0) as [->|]; [done|].
  destruct H as [|H]; [done|]. by rewrite (proj2 (Z.leb_le _ _) H).
Qed.

Lemma ep_fail_reason_wf ep r now :
  ep_wf ep -> is_u32 now -> ep_wf (ep_fail_reason ep r now).
Proof.
  intros Hwf Hn. destruct (decide (r = LLM_FO_NONE)) as [->|Hr]; [done|].
  unfold ep_fail_reason. destruct (llm_ep_state ep now) eqn:Est.
  - pose proof (ep_count_range ep now (wf_consec _ Hwf)) as [Hc Hc'].
    apply closed_open_until in Est. pose proof (wf_closed _ Hwf Est) as Hc3.
    unfold LLM_EP_FAIL_MAX in *.
    destruct (bool_decide (r = LLM_FO_AUTH) || _) eqn:Eb; destruct r; try done;
      try (apply ep_open_wf; [| done | apply Hwf | done]; unfold LLM_EP_FAIL_MAX; simpl in *; lia).
    all: apply orb_false_iff in Eb as [_ Eb]; bool_cases; split; try apply Hwf;
      try done; unfold LLM_EP_FAIL_MAX; simpl in *; lia.
  - destruct r; try done; by apply set_last_fail_wf.
  - pose proof (wf_pf _ Hwf) as Hpf. unfold LLM_EP_PROBE_MAX in *.
    assert (u32 (probe_fail ep + 1) = probe_fail ep + 1) as Epf.
    { apply u32_id. unfold is_u32, UINT32_MAX. lia. }
    assert (ep_wf (ep_open (set_probe_fail (set_last_fail ep now) 0) now)) as Hop.
    { by apply ep_open_wf; try apply Hwf. }
    destruct r; try done; simpl; rewrite Epf; case_match; try done;
      (apply set_probe_fail_wf; [by apply set_last_fail_wf|]); bool_cases;
      unfold LLM_EP_PROBE_MAX; lia.
Qed.

Lemma llm_ep_admit_wf ep now :
  ep_wf ep -> is_u32 now -> ep_wf (llm_ep_admit ep now).2.
Proof.
  intros Hwf Hn. unfold llm_ep_admit. destruct (llm_ep_state ep now); try done.
  case_match; [done|]. destruct Hwf. split; try done. simpl.
  case_match; [unfold is_u32, UINT32_MAX; lia | apply u32_range].
Qed.

#[export] Hint Resolve ep_fail_reason_wf llm_ep_admit_wf : daemon.

(** ** The abstract breaker and the refinement *)

Inductive ep_event :=
| EvOk
| EvFail (r : llm_fo_reason_t)
| EvAdmit.

(** The breaker of the interface documentation, on a clock that never wraps and
    with the documented numbers: CLOSED with the length of the current run of
    failures and the time of the last one; or tripped, with the end of the open
    phase, the number of trips since the last success, the end of the probe slot
    and the failed probes.  A tripped breaker is OPEN before [until] and HALF
    from then on. *)
Inductive breaker :=
| BClosed (run last : Z)
| BTripped (until trips : Z) (slot : option Z) (probes : Z).

(** A deadline on a multiple of 2^32 ms is moved by one millisecond. *)
Definition deadline (t : Z) : Z := if t mod 2 ^ 32 =? 0 then t + 1 else t.

(** The [trips]-th hold: 30 s, doubled by every trip, at most 300 s. *)
Definition trip (t trips : Z) : breaker := BTripped (deadline (t + Z.min 300000 (30000 * 2 ^ trips))) (trips + 1) None 0.

Definition phase (b : breaker) (t : Z) : llm_ep_state_t :=
  match b with
  | BClosed _ _ => LLM_EP_CLOSED
  | BTripped until _ _ _ => if t <? until then LLM_EP_OPEN else LLM_EP_HALF
  end.

(** A failure that counts: the third of a run whose neighbours are less than a
    minute apart, or one that is about credentials, trips; so does the third
    failed probe; a failure while OPEN changes nothing. *)
Definition cb_fail (b : breaker) (r : llm_fo_reason_t) (t : Z) : breaker :=
  match b with
  | BClosed run last =>
      let run' := if (0 <? run) && (t - last <? 60000) then run + 1 else 1 in
      if bool_decide (r = LLM_FO_AUTH) || (3 <=? run') then trip t 0 else BClosed run' t
  | BTripped until trips slot probes =>
      if t <? until then b
      else if bool_decide (r = LLM_FO_AUTH) || (3 <=? probes + 1) then trip t trips
      else BTripped until trips slot (probes + 1)
  end.

(** Who may call: everybody while CLOSED, nobody while OPEN, and one caller in ten
    seconds while HALF. *)
Definition cb_admit (b : breaker) (t : Z) : bool * breaker :=
  match b with
  | BClosed _ _ => (true, b)
  | BTripped until trips slot probes =>
      if t <? until then (false, b)
      else if match slot with Some p => t <? p | None => false end then (false, b)
      else (true, BTripped until trips (Some (deadline (t + 10000))) probes)
  end.

(** One event at time [t]: what is observed (the phase before it and the answer
    to a caller) and the breaker after it. *)
Definition cb_step (b : breaker) (t : Z) (ev : ep_event) : llm_ep_state_t * bool * breaker :=
  match ev with
  | EvOk => (phase b t, true, BClosed 0 0)
  | EvFail LLM_FO_NONE => (phase b t, true, b)
  | EvFail r => (phase b t, true, cb_fail b r t)
  | EvAdmit => let '(ok, b') := cb_admit b t in (phase b t, ok, b')
  end.

(** The code on its 32-bit clock. *)
Definition ep_event_step (ep : ep_sig_t) (now : Z) (ev : ep_event) : llm_ep_state_t * bool * ep_sig_t :=
  match ev with
  | EvOk => (llm_ep_state ep now, true, llm_ep_ok ep)
  | EvFail r => (llm_ep_state ep now, true, ep_fail_reason ep r now)
  | EvAdmit => let '(ok, ep') := llm_ep_admit ep now in (llm_ep_state ep now, ok, ep')
  end.

Fixpoint cb_run (b : breaker) (h : list (Z * ep_event)) : list (llm_ep_state_t * bool) * breaker :=
  match h with
  | [] => ([], b)
  | (t, ev) :: h' => let '(obs, b) := cb_step b t ev in let '(l, b) := cb_run b h' in (obs :: l, b)
  end.

Fixpoint ep_run (ep : ep_sig_t) (h : list (Z * ep_event)) : list (llm_ep_state_t * bool) * ep_sig_t :=
  match h with
  | [] => ([], ep)
  | (t, ev) :: h' => let '(obs, ep) := ep_event_step ep (u32 t) ev in let '(l, ep) := ep_run ep h' in (obs :: l, ep)
  end.

(** The 32-bit comparisons see the right order: no event comes more than 2^31 ms
    (24 days) after a deadline, or 2^32 ms after the last failure of a run. *)
Definition in_range (b : breaker) (t : Z) : Prop :=
  match b with
  | BClosed run last => 0 < run -> t - last < 2 ^ 32
  | BTripped until _ slot _ => t <= until + 2 ^ 31 /\ match slot with Some p => t <= p + 2 ^ 31 | None => True end
  end.

(** A history with a clock that does not go back and stays in range. *)
Fixpoint clock_ok (b : breaker) (t0 : Z) (h : list (Z * ep_event)) : Prop :=
  match h with
  | [] => True
  | (t, ev) :: h' => t0 <= t /\ in_range b t /\ clock_ok (cb_step b t ev).2 t h'
  end.

Lemma ep_fail_reason_cases ep r now :
  r <> LLM_FO_NONE ->
  ep_fail_reason ep r now = match llm_ep_state ep now with
    | LLM_EP_OPEN => set_last_fail ep now
    | LLM_EP_HALF =>
        if bool_decide (r = LLM_FO_AUTH) || (LLM_EP_PROBE_MAX <=? u32 (probe_fail ep + 1))
        then ep_open (set_probe_fail (set_last_fail ep now) 0) now
        else set_probe_fail (set_last_fail ep now) (u32 (probe_fail ep + 1))
    | LLM_EP_CLOSED =>
        if bool_decide (r = LLM_FO_AUTH) || (LLM_EP_FAIL_MAX <=? consec_fail (ep_count ep now))
        then ep_open (set_probe_fail (ep_count ep now) 0) now else ep_count ep now
    end.
Proof. intros Hr. unfold ep_fail_reason. destruct r; try done; by destruct (llm_ep_state ep now). Qed.

Lemma ep_state_congr ep1 ep2 now :
  open_until_ms ep1 = open_until_ms ep2 -> llm_ep_state ep1 now = llm_ep_state ep2 now.
Proof. unfold llm_ep_state. by intros ->. Qed.

Lemma ep_trip_state ep now n :
  ep_wf ep -> is_u32 now -> 0 <= n < LLM_EP_PROBE_MAX ->
  llm_ep_state (ep_open (set_probe_fail (set_last_fail ep now) n) now) now = LLM_EP_OPEN.
Proof.
  intros. apply ep_open_state_now; [|done].
  apply set_probe_fail_wf; [|done]. by apply set_last_fail_wf.
Qed.

(** Tripping from the closed phase: [ep_count] may leave [consec_fail] at the
    threshold, so the field-wise facts are used instead of [ep_wf]. *)
Lemma ep_trip_closed ep now :
  ep_wf ep -> is_u32 now ->
  llm_ep_state (ep_open (set_probe_fail (ep_count ep now) 0) now) now = LLM_EP_OPEN.
Proof.
  intros Hwf Hn.
  rewrite (ep_state_congr _ (ep_open (set_probe_fail (set_last_fail ep now) 0) now)) by done.
  apply ep_trip_state; [done..|]. unfold LLM_EP_PROBE_MAX. lia.
Qed.

(** ** The refinement *)

(** What the six fields say of a breaker at time [t]. *)
Definition ep_shows (ep : ep_sig_t) (b : breaker) (t : Z) : Prop :=
  match b with
  | BClosed run last =>
      open_until_ms ep = 0 /\ consec_fail ep = run /\ open_level ep = 0 /\ (0 < run -> last_fail_ms ep = u32 last /\ last <= t)
  | BTripped until trips slot probes =>
      open_until_ms ep = u32 until /\ u32 until <> 0 /\ until <= t + 300001 /\ open_level ep = Z.min 255 trips /\ 0 < trips
      /\ probe_fail ep = probes
      /\ match slot with Some p => probe_until_ms ep = u32 p /\ u32 p <> 0 /\ p <= t + 10001 | None => probe_until_ms ep = 0 end
  end.

Lemma ep_shows_later ep b t0 t : ep_shows ep b t0 -> t0 <= t -> ep_shows ep b t.
Proof.
  intros Hs Ht. destruct b as [run last|until trips [p|] probes]; cbn in *.
  - destruct Hs as (? & ? & ? & Hlast). split_and!; try done. intros Hrun. destruct (Hlast Hrun). split; [done|lia].
  - destruct Hs as (? & ? & ? & ? & ? & ? & ? & ? & ?). split_and!; try done; lia.
  - destruct Hs as (? & ? & ? & ? & ? & ? & ?). split_and!; try done; lia.
Qed.

Definition ep_rel (ep : ep_sig_t) (b : breaker) (t : Z) : Prop := ep_wf ep /\ ep_shows ep b t.

Lemma deadline_u32 t : u32 (deadline t) = (if u32 t =? 0 then 1 else u32 t) /\ u32 (deadline t) <> 0 /\ t <= deadline t <= t + 1.
Proof.
  unfold deadline, u32. change (2 ^ 32) with 4294967296. destruct (Z.eqb_spec (t mod 4294967296) 0) as [E|E]; [|lia].
  rewrite Zplus_mod, E. split_and!; done || lia.
Qed.

(** The sign of the 32-bit difference is the order of the times. *)
Lemma s32_order d t : t - 2 ^ 31 <= d < t + 2 ^ 31 -> (0 <? s32 (u32 d - u32 t)) = (t <? d).
Proof. intros Hd. destruct (Z.ltb_spec t d), (Z.ltb_spec 0 (s32 (u32 d - u32 t))); try done; exfalso; ulia. Qed.

Lemma ep_hold_doc level trips :
  0 <= trips -> level = Z.min 255 trips -> ep_hold level = Z.min 300000 (30000 * 2 ^ trips).
Proof.
  intros Ht ->. rewrite ep_hold_table by lia. destruct (Z.leb_spec 4 trips) as [H4|H4].
  - assert (2 ^ 4 <= 2 ^ trips) by (apply Z.pow_le_mono_r; lia). repeat case_match; bool_cases; lia.
  - assert (trips = 0 \/ trips = 1 \/ trips = 2 \/ trips = 3) as [->|[->|[->| ->]]] by lia; done.
Qed.

Lemma rel_phase ep b t0 t : ep_rel ep b t0 -> t0 <= t -> in_range b t -> llm_ep_state ep (u32 t) = phase b t.
Proof.
  intros [Hwf Hs] Ht Hr. unfold llm_ep_state. destruct b as [run last|until trips slot probes]; cbn in *.
  - destruct Hs as (-> & _). done.
  - destruct Hs as (-> & Hnz & Hle & _). rewrite (proj2 (Z.eqb_neq _ _)) by done. rewrite s32_order; [done|]. lia.
Qed.

(** A trip of the code is a trip of the breaker. *)
Lemma trip_rel ep t trips :
  ep_wf (ep_open ep (u32 t)) -> 0 <= trips -> open_level ep = Z.min 255 trips -> probe_fail ep = 0 ->
  ep_rel (ep_open ep (u32 t)) (trip t trips) t.
Proof.
  intros Hwf Ht Hl Hp. split; [done|]. unfold trip. cbn [ep_shows].
  pose proof (ep_hold_bounds (open_level ep) ltac:(lia)) as Hb. rewrite (ep_hold_doc _ trips) in Hb by done.
  pose proof (deadline_u32 (t + Z.min 300000 (30000 * 2 ^ trips))) as (Hd & Hn & Hr).
  split_and!; [|done|unfold LLM_EP_OPEN_MAX_MS in Hb; lia| |lia|done|done].
  - rewrite ep_open_until by lia. rewrite (ep_hold_doc _ trips) by done. rewrite Hd.
    assert (E : forall h, u32 (u32 t + h) = u32 (t + h)) by (intros h; unfold u32; by rewrite Zplus_mod_idemp_l). by rewrite !E.
  - unfold ep_open. cbn [open_level]. unfold UINT8_MAX. rewrite Hl. destruct (Z.ltb_spec (Z.min 255 trips) 255); lia.
Qed.

Lemma count_run ep t run last :
  0 <= run < 3 -> consec_fail ep = run -> (0 < run -> last_fail_ms ep = u32 last /\ last <= t) -> (0 < run -> t - last < 2 ^ 32) ->
  consec_fail (ep_count ep (u32 t)) = if (0 <? run) && (t - last <? 60000) then run + 1 else 1.
Proof.
  intros Hrun Hc Hl Hr. unfold ep_count. cbn [consec_fail]. rewrite Hc. destruct (Z.ltb_spec 0 run) as [H0|H0].
  - destruct (Hl H0) as [-> Hle]. specialize (Hr H0). rewrite (proj2 (Z.eqb_neq run 0)) by lia. cbn [negb andb].
    assert (E : u32 (u32 t - u32 last) = t - last).
    { unfold u32. rewrite <- Zminus_mod. apply Z.mod_small. change (2 ^ 32) with 4294967296 in Hr. lia. }
    rewrite E. unfold LLM_EP_FAIL_WINDOW_MS, UINT32_MAX. destruct (Z.leb_spec 60000 (t - last)), (Z.ltb_spec (t - last) 60000); try lia; [done|].
    destruct (Z.ltb_spec run 4294967295); lia.
  - replace run with 0 by lia. done.
Qed.

Lemma fail_rel ep b t0 t r :
  ep_rel ep b t0 -> t0 <= t -> in_range b t -> r <> LLM_FO_NONE -> ep_rel (ep_fail_reason ep r (u32 t)) (cb_fail b r t) t.
Proof.
  intros Hrel Ht Hr Hn. pose proof (rel_phase _ _ _ _ Hrel Ht Hr) as Hph. destruct Hrel as [Hwf Hs].
  pose proof (ep_fail_reason_wf ep r (u32 t) Hwf (u32_range t)) as Hwf'. revert Hwf'. rewrite ep_fail_reason_cases by done. rewrite Hph.
  destruct b as [run last|until trips slot probes]; cbn [phase cb_fail ep_shows in_range] in *.
  - destruct Hs as (Ho & Hc & Hl & Hlast). pose proof (wf_closed _ Hwf Ho) as Hlt. pose proof (wf_consec _ Hwf) as Hge.
    unfold LLM_EP_FAIL_MAX in *. rewrite (count_run ep t run last) by (try done; lia).
    destruct (bool_decide (r = LLM_FO_AUTH) || _) eqn:Eb; intros Hwf'.
    + apply trip_rel; [done|lia|exact Hl|done].
    + split; [done|]. cbn [ep_shows]. split_and!; [done| |done|].
      * by apply (count_run ep t run last); try done; lia.
      * intros _. cbn. split; [done|lia].
  - destruct Hs as (Ho & Hnz & Hu & Hl & Htr & Hp & Hslot). destruct (Z.ltb_spec t until) as [Hlt|Hge].
    + intros Hwf'. split; [done|]. apply (ep_shows_later _ _ t0); [by cbn|done].
    + pose proof (wf_pf _ Hwf) as Hpf. unfold LLM_EP_PROBE_MAX in *. rewrite Hp in *.
      rewrite (u32_id (probes + 1)) by (unfold is_u32, UINT32_MAX; lia).
      destruct (bool_decide (r = LLM_FO_AUTH) || _) eqn:Eb; intros Hwf'.
      * apply trip_rel; [done|lia|done|done].
      * split; [done|]. apply (ep_shows_later _ _ t0); [by cbn|done].
Qed.

Lemma admit_rel ep b t0 t :
  ep_rel ep b t0 -> t0 <= t -> in_range b t ->
  (llm_ep_admit ep (u32 t)).1 = (cb_admit b t).1 /\ ep_rel (llm_ep_admit ep (u32 t)).2 (cb_admit b t).2 t.
Proof.
  intros Hrel Ht Hr. pose proof (rel_phase _ _ _ _ Hrel Ht Hr) as Hph. destruct Hrel as [Hwf Hs].
  pose proof (llm_ep_admit_wf ep (u32 t) Hwf (u32_range t)) as Hwf'. revert Hwf'. unfold llm_ep_admit. rewrite Hph.
  destruct b as [run last|until trips slot probes]; cbn [phase cb_admit ep_shows in_range] in *.
  - intros Hwf'. split; [done|]. split; [done|]. by apply (ep_shows_later _ _ t0).
  - pose proof (ep_shows_later ep (BTripped until trips slot probes) t0 t Hs Ht) as Hkeep.
    destruct Hs as (Ho & Hnz & Hu & Hl & Htr & Hp & Hslot).
    destruct (Z.ltb_spec t until) as [Hlt|Hge]; [done|].
    assert (E : negb (probe_until_ms ep =? 0) && (0 <? s32 (probe_until_ms ep - u32 t)) = match slot with Some p => t <? p | None => false end).
    { destruct slot as [p|]; [|by rewrite Hslot]. destruct Hslot as (-> & Hpz & Hpt). rewrite (proj2 (Z.eqb_neq _ _)) by done.
      cbn [negb andb]. apply s32_order. lia. }
    rewrite E. destruct (match slot with Some p => t <? p | None => false end); [done|]. intros Hwf'. split; [done|]. split; [done|].
    pose proof (deadline_u32 (t + 10000)) as (Hd & Hdn & Hdr). cbn [snd ep_shows open_until_ms open_level probe_fail probe_until_ms].
    split_and!; try done; [lia| |lia]. rewrite Hd. unfold LLM_EP_PROBE_MS.
    assert (E2 : u32 (u32 t + 10000) = u32 (t + 10000)) by (unfold u32; by rewrite Zplus_mod_idemp_l). by rewrite E2.
Qed.

Lemma event_rel ep b t0 t ev :
  ep_rel ep b t0 -> t0 <= t -> in_range b t ->
  (ep_event_step ep (u32 t) ev).1 = (cb_step b t ev).1 /\ ep_rel (ep_event_step ep (u32 t) ev).2 (cb_step b t ev).2 t.
Proof.
  intros Hrel Ht Hr. pose proof (rel_phase _ _ _ _ Hrel Ht Hr) as Hph. destruct ev as [|r|]; cbn [ep_event_step cb_step].
  - split; [by rewrite Hph|]. split; [apply ep_zero_wf|]. by cbn.
  - destruct (decide (r = LLM_FO_NONE)) as [->|Hn].
    + cbn. split; [by rewrite Hph|]. destruct Hrel as [Hwf Hs]. split; [done|]. by apply (ep_shows_later _ _ t0).
    + pose proof (fail_rel ep b t0 t r Hrel Ht Hr Hn) as Hf. rewrite Hph. by destruct r.
  - pose proof (admit_rel ep b t0 t Hrel Ht Hr) as [Ha Hrel']. destruct (llm_ep_admit ep (u32 t)) as [ok ep'], (cb_admit b t) as [ok' b'].
    cbn in *. by rewrite Ha, Hph.
Qed.

Lemma run_rel : forall h ep b t0, ep_rel ep b t0 -> clock_ok b t0 h -> (ep_run ep h).1 = (cb_run b h).1 /\ ep_wf (ep_run ep h).2.
Proof.
  induction h as [|[t ev] h IH]; intros ep b t0 Hrel Hck; [by destruct Hrel|]. cbn [clock_ok ep_run cb_run] in *.
  destruct Hck as (Ht & Hr & Hck). destruct (event_rel ep b t0 t ev Hrel Ht Hr) as [Hobs Hrel'].
  destruct (ep_event_step ep (u32 t) ev) as [obs ep'], (cb_step b t ev) as [obs' b']. cbn in *. subst obs'.
  destruct (IH ep' b' t Hrel' Hck) as [E Hwf]. destruct (ep_run ep' h) as [l ep''], (cb_run b' h) as [l' b'']. cbn in *. by rewrite E.
Qed.

(** C1.  The code is the documented breaker.  For every history of successes,
    failures of any kind and callers, what is observed of an endpoint at every
    event (CLOSED, OPEN or HALF, and whether a caller is admitted) is what the
    documented breaker shows: it trips at the third failure of a run whose
    neighbours are less than 60 s apart, or at one credential failure; it stays
    OPEN for 30 s, doubled at every trip without a success in between and at
    most 300 s, failures meanwhile not prolonging it; then it admits one caller
    in 10 s and opens again at the third failed probe or a credential failure;
    a success closes it.  The breaker keeps unbounded time and the code 32 bits:
    the clock may wrap, as long as it does not go back and no event comes more
    than 2^31 ms after a deadline or 2^32 ms after the last failure of a run.  A
    deadline that is a multiple of 2^32 is one millisecond later. *)
Theorem ep_refines_breaker h t0 :
  clock_ok (BClosed 0 0) t0 h -> (ep_run ep_zero h).1 = (cb_run (BClosed 0 0) h).1 /\ ep_wf (ep_run ep_zero h).2.
Proof. apply run_rel. split; [apply ep_zero_wf|]. by cbn. Qed.

(** Three failures around the wrap of the clock, a refused caller, a probe and a
    refused second one. *)
Definition wrap_history : list (Z * ep_event) :=
  [(4294967000, EvFail LLM_FO_TRANSPORT); (4294967100, EvFail LLM_FO_TRANSPORT); (4294967296, EvFail LLM_FO_TRANSPORT);
   (4294997295, EvAdmit); (4294997296, EvAdmit); (4294997297, EvAdmit); (4294997300, EvOk); (4294997301, EvAdmit)].

Lemma ep_refines_breaker_witness :
  (ep_run ep_zero wrap_history).1
  = [(LLM_EP_CLOSED, true); (LLM_EP_CLOSED, true); (LLM_EP_CLOSED, true); (LLM_EP_OPEN, false); (LLM_EP_HALF, true);
     (LLM_EP_HALF, false); (LLM_EP_HALF, true); (LLM_EP_CLOSED, true)].
Proof.
  rewrite (proj1 (ep_refines_breaker wrap_history 0 ltac:(vm_compute; repeat split; discriminate || (intros; discriminate) || reflexivity))).
  vm_compute. reflexivity.
Defined.

(** Length of the open phase.  A trip at [now] keeps the endpoint OPEN
    for exactly the hold time of its back-off level: at every instant strictly
    inside the hold time it is OPEN, after it the endpoint is HALF (until the
    32-bit difference wraps, 2^31 ms later), and at the boundary it is HALF
    except when the deadline falls on the reserved value 0, which the code
    moves one millisecond later.  The hold time doubles from 30 s per level
    and is capped at 300 s. *)
Theorem ep_open_phase ep now :
  ep_wf ep -> is_u32 now ->
  (forall d, 0 <= d < ep_hold (open_level ep) ->
     llm_ep_state (ep_open ep now) (u32 (now + d)) = LLM_EP_OPEN) /\
  (u32 (now + ep_hold (open_level ep)) <> 0 ->
     llm_ep_state (ep_open ep now) (u32 (now + ep_hold (open_level ep))) = LLM_EP_HALF) /\
  (forall d, ep_hold (open_level ep) < d <= ep_hold (open_level ep) + 2147483648 ->
     llm_ep_state (ep_open ep now) (u32 (now + d)) = LLM_EP_HALF) /\
  ep_hold (open_level ep) = Z.min 300000 (30000 * 2 ^ Z.min 4 (open_level ep)).
Proof.
  intros Hwf Hn. pose proof (wf_level _ Hwf) as [Hl _].
  split; [|split; [|split]].
  - intros. by apply ep_open_state_gen.
  - intros Hnz. unfold llm_ep_state. rewrite ep_open_until by done.
    destruct (Z.eqb_spec (u32 (now + ep_hold (open_level ep))) 0); [done|].
    rewrite (proj2 (Z.eqb_neq _ _)) by done. by rewrite Z.sub_diag.
  - intros. by apply ep_open_half.
  - rewrite ep_hold_table by done.
    destruct (Z.leb_spec 4 (open_level ep)).
    + rewrite (Z.min_l 4) by lia. repeat case_match; bool_cases; try lia; done.
    + assert (open_level ep = 0 \/ open_level ep = 1 \/ open_level ep = 2 \/ open_level ep = 3)
        as [->|[->|[->| ->]]] by lia; done.
Qed.

Lemma ep_open_phase_witness :
  llm_ep_state (ep_open ep_zero 4294967000) (u32 (4294967000 + 29999)) = LLM_EP_OPEN /\
  llm_ep_state (ep_open ep_zero 4294967000) (u32 (4294967000 + 30001)) = LLM_EP_HALF.
Proof.
  destruct (ep_open_phase ep_zero 4294967000) as (H1 & _ & H3 & _);
    [apply ep_zero_wf | unfold is_u32, UINT32_MAX; lia |].
  split; [apply H1 | apply H3]; change (ep_hold (open_level ep_zero)) with 30000; lia.
Defined.

(** ** When the breaker trips *)

(** Trip condition.  A counted failure of a CLOSED endpoint opens it iff
    the failure is an authentication failure, or it is at least the third
    failure of a run whose consecutive members are less than a window apart;
    otherwise the endpoint stays CLOSED and the run length is updated, a
    failure that comes a full window after the previous one starting a new
    run. *)
Theorem ep_trip_iff ep r now :
  ep_wf ep -> is_u32 now -> llm_ep_state ep now = LLM_EP_CLOSED -> r <> LLM_FO_NONE ->
  let run := if (0 <? consec_fail ep) && (u32 (now - last_fail_ms ep) <? LLM_EP_FAIL_WINDOW_MS)
             then consec_fail ep + 1 else 1 in
  (llm_ep_state (ep_fail_reason ep r now) now = LLM_EP_OPEN
     <-> r = LLM_FO_AUTH \/ LLM_EP_FAIL_MAX <= run) /\
  consec_fail (ep_fail_reason ep r now) = run /\
  last_fail_ms (ep_fail_reason ep r now) = now.
Proof.
  intros Hwf Hn Est Hr run.
  assert (consec_fail (ep_count ep now) = run) as Hrun.
  { pose proof (wf_consec _ Hwf) as Hc.
    apply closed_open_until in Est. pose proof (wf_closed _ Hwf Est) as Hc3.
    unfold run, ep_count, is_u32, UINT32_MAX, LLM_EP_FAIL_MAX, LLM_EP_FAIL_WINDOW_MS in *.
    simpl. destruct (Z.eqb_spec (consec_fail ep) 0) as [->|], (Z.ltb_spec 0 (consec_fail ep));
      simpl; try lia; try done.
    destruct (Z.leb_spec 60000 (u32 (now - last_fail_ms ep))),
      (Z.ltb_spec (u32 (now - last_fail_ms ep)) 60000); try lia; simpl;
      repeat case_match; bool_cases; lia. }
  assert (ep_fail_reason ep r now =
      if bool_decide (r = LLM_FO_AUTH) || (LLM_EP_FAIL_MAX <=? run)
      then ep_open (set_probe_fail (ep_count ep now) 0) now else ep_count ep now) as ->.
  { by rewrite ep_fail_reason_cases, Est, Hrun. }
  destruct (bool_decide (r = LLM_FO_AUTH)) eqn:Ea; simpl;
    [|destruct (Z.leb_spec LLM_EP_FAIL_MAX run)].
  - apply bool_decide_eq_true in Ea. rewrite ep_trip_closed by done. tauto.
  - rewrite ep_trip_closed by done. tauto.
  - apply bool_decide_eq_false in Ea. rewrite (ep_state_congr _ ep) by done. rewrite Est.
    split; [|done]. split; [done|]. intros []; [done|lia].
Qed.

Lemma ep_trip_iff_witness :
  llm_ep_state (ep_fail_reason (mkSig 2 100 0 0 0 0) LLM_FO_TRANSPORT 200) 200 = LLM_EP_OPEN.
Proof.
  apply (proj2 (proj1 (ep_trip_iff (mkSig 2 100 0 0 0 0) LLM_FO_TRANSPORT 200
    ltac:(split; unfold is_u32, is_u8, UINT32_MAX, UINT8_MAX, LLM_EP_PROBE_MAX, LLM_EP_FAIL_MAX;
          simpl; lia)
    ltac:(unfold is_u32, UINT32_MAX; lia) eq_refl ltac:(discriminate)))).
  right. vm_compute. discriminate.
Defined.

(** A history of failures whose neighbours are a full window apart. *)
Fixpoint sparse (prev : Z) (evs : list (llm_fo_reason_t * Z)) : Prop :=
  match evs with
  | [] => True
  | (r, t) :: evs' =>
      r <> LLM_FO_AUTH /\ is_u32 t /\ LLM_EP_FAIL_WINDOW_MS <= u32 (t - prev) /\
      (r <> LLM_FO_NONE -> sparse t evs') /\ (r = LLM_FO_NONE -> sparse prev evs')
  end.

Definition ep_fails (ep : ep_sig_t) (evs : list (llm_fo_reason_t * Z)) : ep_sig_t :=
  foldl (fun e ev => ep_fail_reason e ev.1 ev.2) ep evs.

(** Sparse failures never trip.  However long the history, failures that
    are each at least a window after the previous counted one (as the wrapping
    32-bit clock measures it) leave a CLOSED endpoint CLOSED, with a run
    length of at most one. *)
Theorem sparse_never_trips ep evs :
  ep_wf ep -> open_until_ms ep = 0 -> consec_fail ep <= 1 ->
  sparse (last_fail_ms ep) evs ->
  open_until_ms (ep_fails ep evs) = 0 /\ consec_fail (ep_fails ep evs) <= 1.
Proof.
  revert ep. induction evs as [|[r t] evs IH]; intros ep Hwf Ho Hc; [done|].
  intros (Hna & Ht & Hgap & Hs & Hs0). unfold ep_fails. simpl.
  fold (ep_fails (ep_fail_reason ep r t) evs).
  destruct (decide (r = LLM_FO_NONE)) as [->|Hr]; [by apply IH; auto|].
  assert (llm_ep_state ep t = LLM_EP_CLOSED) as Est by (by apply closed_open_until).
  assert (consec_fail (ep_count ep t) = 1) as H1 by (by apply ep_count_fresh; [apply Hwf|right]).
  assert (ep_fail_reason ep r t = ep_count ep t) as E.
  { rewrite ep_fail_reason_cases, Est, H1 by done. by rewrite bool_decide_eq_false_2. }
  rewrite E. apply IH.
  - rewrite <- E. by apply ep_fail_reason_wf.
  - done.
  - lia.
  - by apply Hs.
Qed.

Lemma sparse_never_trips_witness :
  open_until_ms (ep_fails ep_zero
    [(LLM_FO_TRANSPORT, 60000); (LLM_FO_TRANSPORT, 120000); (LLM_FO_RATE_LIMIT, 180000);
     (LLM_FO_TRANSPORT, 4294967295)]) = 0.
Proof.
  apply (sparse_never_trips ep_zero); [apply ep_zero_wf | reflexivity | vm_compute; discriminate |].
  repeat split; try discriminate; unfold is_u32, UINT32_MAX; try lia;
    intros; repeat split; try discriminate; unfold is_u32, UINT32_MAX; try lia.
Defined.

(** ** Probing *)

(** One probe at a time.  When a HALF endpoint admits a caller, every
    further caller in the next 10 s is refused, and the slot is released
    afterwards: a caller that arrives later, and finds the endpoint still
    HALF, is admitted. *)
Theorem probe_exclusive ep now :
  ep_wf ep -> is_u32 now -> llm_ep_state ep now = LLM_EP_HALF ->
  (llm_ep_admit ep now).1 = true ->
  let ep' := (llm_ep_admit ep now).2 in
  (forall d, 0 <= d < LLM_EP_PROBE_MS -> (llm_ep_admit ep' (u32 (now + d))).1 = false) /\
  (forall d, LLM_EP_PROBE_MS < d <= 2147483648 ->
     llm_ep_state ep' (u32 (now + d)) = LLM_EP_HALF ->
     (llm_ep_admit ep' (u32 (now + d))).1 = true).
Proof.
  intros Hwf Hn Est Ha ep'.
  assert (open_until_ms ep' = open_until_ms ep /\
          probe_until_ms ep' = if u32 (now + LLM_EP_PROBE_MS) =? 0 then 1
                               else u32 (now + LLM_EP_PROBE_MS)) as [Ho Hp].
  { unfold ep', llm_ep_admit in *. rewrite Est in *. by case_match. }
  assert (open_until_ms ep <> 0) as Hnz.
  { intros E. apply (closed_open_until ep now) in E. congruence. }
  split; intros d Hd; unfold llm_ep_admit.
  - destruct (llm_ep_state ep' (u32 (now + d))) eqn:E; [|done|].
    { apply closed_open_until in E. congruence. }
    rewrite Hp. unfold LLM_EP_PROBE_MS in *.
    destruct (Z.eqb_spec (u32 (now + 10000)) 0) as [E0|E0]; simpl.
    + destruct (Z.ltb_spec 0 (s32 (1 - u32 (now + d)))); [done|exfalso]. ulia.
    + rewrite (proj2 (Z.eqb_neq _ _) E0). simpl.
      destruct (Z.ltb_spec 0 (s32 (u32 (now + 10000) - u32 (now + d)))); [done|exfalso]. ulia.
  - intros ->. rewrite Hp. unfold LLM_EP_PROBE_MS in *.
    destruct (Z.eqb_spec (u32 (now + 10000)) 0) as [E0|E0]; simpl.
    + destruct (Z.ltb_spec 0 (s32 (1 - u32 (now + d)))); [exfalso|done]. ulia.
    + rewrite (proj2 (Z.eqb_neq _ _) E0). simpl.
      destruct (Z.ltb_spec 0 (s32 (u32 (now + 10000) - u32 (now + d)))); [exfalso|done]. ulia.
Qed.

Lemma probe_exclusive_witness :
  (llm_ep_admit (llm_ep_admit (mkSig 3 100 30100 0 0 1) 30100).2 (u32 (30100 + 9999))).1 = false.
Proof.
  refine (proj1 (probe_exclusive (mkSig 3 100 30100 0 0 1) 30100 _ _ eq_refl eq_refl) 9999 _).
  - split; unfold is_u32, is_u8, UINT32_MAX, UINT8_MAX, LLM_EP_PROBE_MAX, LLM_EP_FAIL_MAX;
      simpl; lia.
  - unfold is_u32, UINT32_MAX; lia.
  - unfold LLM_EP_PROBE_MS; lia.
Defined.

(** The 32-bit comparison has a horizon: an endpoint that nobody probes for
    more than 2^31 ms after its deadline reads OPEN again. *)
Lemma ep_half_relapse :
  llm_ep_state (ep_open ep_zero 1000) (u32 (1000 + 30000 + 2147483648)) = LLM_EP_HALF /\
  llm_ep_state (ep_open ep_zero 1000) (u32 (1000 + 30000 + 2147483648 + 1)) = LLM_EP_OPEN.
Proof. by vm_compute. Qed.

(** Failures inside the open phase do not prolong it.  A failure reported
    while the endpoint is OPEN changes nothing but the time stamp of the last
    failure: deadline, probe slot, probe counter and back-off level are
    untouched, so a stream of late reports cannot pin an endpoint OPEN. *)
Theorem open_fail_no_extend ep r now :
  llm_ep_state ep now = LLM_EP_OPEN ->
  let ep' := ep_fail_reason ep r now in
  open_until_ms ep' = open_until_ms ep /\ probe_until_ms ep' = probe_until_ms ep /\
  probe_fail ep' = probe_fail ep /\ open_level ep' = open_level ep /\
  consec_fail ep' = consec_fail ep /\
  last_fail_ms ep' = if bool_decide (r = LLM_FO_NONE) then last_fail_ms ep else now.
Proof. intros Est. unfold ep_fail_reason. rewrite Est. by destruct r. Qed.

Lemma open_fail_no_extend_witness :
  open_until_ms (ep_fail_reason (mkSig 3 100 30100 0 0 1) LLM_FO_AUTH 200) = 30100.
Proof. exact (proj1 (open_fail_no_extend (mkSig 3 100 30100 0 0 1) LLM_FO_AUTH 200 eq_refl)). Defined.
