(* ===== verification/RouterCtx.v ===== *)
(** * RouterCtx

    The shared context of the llm_d router (llm_d/src/router/core/llm_router.h
    and router_context.h): endpoints, requests, results, statistics, the global
    [router_ctx_t] and the inline helpers every strategy uses.  The endpoint
    table and the restore table are fixed arrays of 64 slots with a live
    count; slots beyond the count are never read, so a table is the list of
    its live slots. *)

From S2P Require Import Prelude Doubles Failover EpHealth.

(** ** Data *)

Record llm_endpoint_t := mkEp {
  provider_name : string;
  model_name : string;
  ep_endpoint : string;
  api_key_env : string;
  capabilities : Z;
  context_window : Z;
  cost_per_1k_input : double;
  cost_per_1k_output : double;
  avg_latency_ms : Z;
  enabled : bool;
  priority : Z;
  health : ep_sig_t
}.

Definition set_health (ep : llm_endpoint_t) (h : ep_sig_t) : llm_endpoint_t :=
  mkEp (provider_name ep) (model_name ep) (ep_endpoint ep) (api_key_env ep) (capabilities ep)
       (context_window ep) (cost_per_1k_input ep) (cost_per_1k_output ep) (avg_latency_ms ep)
       (enabled ep) (priority ep) h.

Definition set_latency (ep : llm_endpoint_t) (l : Z) : llm_endpoint_t :=
  mkEp (provider_name ep) (model_name ep) (ep_endpoint ep) (api_key_env ep) (capabilities ep)
       (context_window ep) (cost_per_1k_input ep) (cost_per_1k_output ep) l
       (enabled ep) (priority ep) (health ep).

(** Strategies are an enum; values from [LLM_ROUTE_COUNT] on are invalid. *)
Definition LLM_ROUTE_COMPLEXITY : Z := 0.
Definition LLM_ROUTE_COST : Z := 1.
Definition LLM_ROUTE_LATENCY : Z := 2.
Definition LLM_ROUTE_FALLBACK : Z := 3.
Definition LLM_ROUTE_ROUND_ROBIN : Z := 4.
Definition LLM_ROUTE_COUNT : Z := 5.

Definition LLM_ROUTER_MAX_ENDPOINTS : nat := 64.
Definition LLM_ROUTE_EST_OUTPUT_TOKENS : Z := 1024.

Record llm_route_request_t := mkReq {
  prompt : option string;
  prompt_len : Z;
  required_caps : Z;
  max_tokens : Z;
  max_cost : double;
  max_latency_ms : Z;
  strategy : Z;
  preferred_provider : string
}.

Record llm_route_result_t := mkRes {
  r_provider_name : string;
  r_model_name : string;
  r_endpoint : string;
  estimated_cost : double;
  estimated_latency_ms : Z;
  strategy_used : Z;
  confidence : Z;
  fallback_provider : string;
  fallback_model : string
}.

Definition res_zero : llm_route_result_t := mkRes "" "" "" d_zero 0 0 0 "" "".

Record llm_router_stats_t := mkStats {
  total_requests : Z;
  routed_count : list Z;
  fallback_count : Z;
  error_count : Z;
  total_cost : double;
  total_tokens : Z;
  lat_samples : Z;
  lat_total_ms : Z;
  prompt_tokens_sum : Z;
  cached_tokens_sum : Z;
  meas_samples : Z;
  prefill_tokens : Z;
  decode_tokens : Z;
  kv_cache_tokens : Z;
  prefill_ms : double;
  decode_ms : double
}.

Definition stats_zero : llm_router_stats_t :=
  mkStats 0 [0; 0; 0; 0; 0] 0 0 d_zero 0 0 0 0 0 0 0 0 0 d_zero d_zero.

(** A health snapshot: durations relative to now, so that it survives a
    restart of the monotonic clock. *)
Record router_ep_snap_t := mkSnap {
  s_provider_name : string;
  s_model_name : string;
  s_consec_fail : Z;
  s_last_fail_age_ms : Z;
  s_open_remain_ms : Z;
  s_probe_fail : Z;
  s_open_level : Z;
  s_state : Z
}.

Record router_ctx_t := mkCtx {
  endpoints : list llm_endpoint_t;
  default_strategy : Z;
  stats : llm_router_stats_t;
  token_model : option string;
  initialized : bool;
  round_robin_index : Z;
  restore : list router_ep_snap_t
}.

Definition ctx_zero : router_ctx_t := mkCtx [] 0 stats_zero None false 0 [].

Definition set_endpoints (c : router_ctx_t) (l : list llm_endpoint_t) : router_ctx_t :=
  mkCtx l (default_strategy c) (stats c) (token_model c) (initialized c)
        (round_robin_index c) (restore c).

Definition set_stats (c : router_ctx_t) (s : llm_router_stats_t) : router_ctx_t :=
  mkCtx (endpoints c) (default_strategy c) s (token_model c) (initialized c)
        (round_robin_index c) (restore c).

Definition set_rr (c : router_ctx_t) (i : Z) : router_ctx_t :=
  mkCtx (endpoints c) (default_strategy c) (stats c) (token_model c) (initialized c) i (restore c).

Definition set_restore (c : router_ctx_t) (l : list router_ep_snap_t) : router_ctx_t :=
  mkCtx (endpoints c) (default_strategy c) (stats c) (token_model c) (initialized c)
        (round_robin_index c) l.

(** ** Helpers of router_context.h *)

Section helpers.
  (** The commons token counter: [(size_t)-1] reports a failure. *)
  Context (airy_token_standard_count : string -> option string -> Z).

Definition router_estimate_tokens (ctx : router_ctx_t) (p : option string) (plen : Z) : Z :=
    match token_model ctx, p with
    | Some m, Some s =>
        let count := airy_token_standard_count s (Some m) in
        if count =? UINT64_MAX then plen / 4 else count
    | _, _ => plen / 4
    end.
End helpers.

Definition router_estimate_cost (ep : llm_endpoint_t) (input_tokens output_tokens : Z) : double :=
  dadd (ddiv (dmul (cost_per_1k_input ep) (d_of_Z input_tokens)) (d_of_Z 1000))
       (ddiv (dmul (cost_per_1k_output ep) (d_of_Z output_tokens)) (d_of_Z 1000)).

Definition router_has_capabilities (ep : llm_endpoint_t) (caps : Z) : bool :=
  Z.land (capabilities ep) caps =? caps.

(** The filter of [router_get_eligible], guard by guard. *)
Definition eligible_ep (request : llm_route_request_t) (now : Z) (ep : llm_endpoint_t) : bool :=
  if negb (enabled ep) then false
  else if bool_decide (llm_ep_state (health ep) now = LLM_EP_OPEN) then false
  else if negb (router_has_capabilities ep (required_caps request)) then false
  else if negb (strcmp_eq (preferred_provider request) "")
          && negb (strcmp_eq (provider_name ep) (preferred_provider request)) then false
  else true.

Fixpoint eligible_scan (request : llm_route_request_t) (now : Z) (max_count : nat)
    (i : nat) (eps : list llm_endpoint_t) : list (nat * llm_endpoint_t) :=
  match eps, max_count with
  | [], _ | _, O => []
  | ep :: eps', S m =>
      if eligible_ep request now ep
      then (i, ep) :: eligible_scan request now m (S i) eps'
      else eligible_scan request now max_count (S i) eps'
  end.

(** Pointers into the endpoint table are the slot index with the slot. *)
Definition router_get_eligible (ctx : router_ctx_t) (request : llm_route_request_t) (now : Z)
    (max_count : nat) : list (nat * llm_endpoint_t) :=
  eligible_scan request now max_count 0 (endpoints ctx).

Section fill.
  Context `{AiryString}.

Definition router_fill_result (result : llm_route_result_t) (ep : llm_endpoint_t)
      (strat conf input_tokens output_tokens : Z) : llm_route_result_t :=
    mkRes (AIRY_STRNCPY_TERM 64 (provider_name ep)) (AIRY_STRNCPY_TERM 64 (model_name ep))
          (AIRY_STRNCPY_TERM 256 (ep_endpoint ep))
          (router_estimate_cost ep input_tokens output_tokens)
          (avg_latency_ms ep) strat conf (fallback_provider result) (fallback_model result).

Definition router_set_fallback (result : llm_route_result_t) (fb : option llm_endpoint_t)
      : llm_route_result_t :=
    match fb with
    | None => result
    | Some e =>
        mkRes (r_provider_name result) (r_model_name result) (r_endpoint result)
              (estimated_cost result) (estimated_latency_ms result) (strategy_used result)
              (confidence result)
              (AIRY_STRNCPY_TERM 64 (provider_name e)) (AIRY_STRNCPY_TERM 64 (model_name e))
    end.
End fill.

(** [router_ep_find]: slot index of the first endpoint with these names. *)
Fixpoint ep_find_from (i : nat) (provider model : string) (eps : list llm_endpoint_t) : option nat :=
  match eps with
  | [] => None
  | ep :: eps' =>
      if strcmp_eq (provider_name ep) provider && strcmp_eq (model_name ep) model
      then Some i else ep_find_from (S i) provider model eps'
  end.

Definition router_ep_find (ctx : router_ctx_t) (provider model : string) : option nat :=
  ep_find_from 0 provider model (endpoints ctx).

(** ** Well-formedness *)

Definition ep_names_ok (ep : llm_endpoint_t) : Prop :=
  (String.length (provider_name ep) < 64)%nat /\ (String.length (model_name ep) < 64)%nat /\
  (String.length (ep_endpoint ep) < 256)%nat.

Record ctx_wf (c : router_ctx_t) : Prop := {
  wf_count : (length (endpoints c) <= LLM_ROUTER_MAX_ENDPOINTS)%nat;
  wf_restore : (length (restore c) <= LLM_ROUTER_MAX_ENDPOINTS)%nat;
  wf_rr : is_u64 (round_robin_index c);
  wf_default : 0 <= default_strategy c < LLM_ROUTE_COUNT;
  wf_routed : length (routed_count (stats c)) = 5%nat
}.

(** ** Lemmas on the helpers *)

Lemma eligible_ep_spec req now ep :
  eligible_ep req now ep = true <->
  enabled ep = true /\ llm_ep_state (health ep) now <> LLM_EP_OPEN /\
  Z.land (capabilities ep) (required_caps req) = required_caps req /\
  (preferred_provider req = "" \/ provider_name ep = preferred_provider req).
Proof.
  unfold eligible_ep, router_has_capabilities.
  destruct (enabled ep); simpl; [|naive_solver].
  case_bool_decide; [naive_solver|].
  destruct (Z.eqb_spec (Z.land (capabilities ep) (required_caps req)) (required_caps req));
    simpl; [|naive_solver].
  unfold strcmp_eq.
  destruct (String.eqb_spec (preferred_provider req) ""); simpl; [naive_solver|].
  destruct (String.eqb_spec (provider_name ep) (preferred_provider req)); simpl; naive_solver.
Qed.

Lemma eligible_scan_filter req now eps i max :
  (length eps <= max)%nat ->
  eligible_scan req now max i eps =
    filter (fun p => eligible_ep req now p.2 = true) (imap (fun k e => ((i + k)%nat, e)) eps).
Proof.
  revert i max. induction eps as [|ep eps IH]; intros i max Hm; [by destruct max|].
  destruct max as [|max]; simpl in *; [lia|].
  rewrite Nat.add_0_r.
  assert (imap ((fun k e => ((i + k)%nat, e)) ∘ S) eps
          = imap (fun k e => ((S i + k)%nat, e)) eps) as ->.
  { apply imap_ext. intros. simpl. f_equal. lia. }
  rewrite filter_cons. simpl. destruct (eligible_ep req now ep) eqn:E.
  - rewrite decide_True by done. f_equal. apply IH. lia.
  - rewrite decide_False by done. apply IH. lia.
Qed.

Lemma ep_find_from_Some i p m eps k :
  ep_find_from i p m eps = Some k ->
  exists j ep, k = (i + j)%nat /\ eps !! j = Some ep /\ provider_name ep = p /\ model_name ep = m.
Proof.
  revert i. induction eps as [|ep eps IH]; intros i; simpl; [done|].
  case_match eqn:E.
  - intros [= <-]. apply andb_true_iff in E as [? ?]. bool_cases.
    exists 0%nat, ep. repeat split; try done; lia.
  - intros H. apply IH in H as (j & e & -> & ? & ? & ?). exists (S j), e.
    repeat split; try done; lia.
Qed.

Lemma ep_find_from_None i p m eps :
  ep_find_from i p m eps = None <->
  forall ep, ep ∈ eps -> ~ (provider_name ep = p /\ model_name ep = m).
Proof.
  revert i. induction eps as [|ep eps IH]; intros i; simpl.
  { split; [intros _ ? H; by apply not_elem_of_nil in H | done]. }
  case_match eqn:E.
  - split; [done|]. intros H. apply andb_true_iff in E as [? ?]. bool_cases.
    exfalso. apply (H ep); [left|done].
  - rewrite IH. split.
    + intros H e He [Hp Hm]. apply elem_of_cons in He as [->|He]; [|by eapply H].
      subst. by rewrite !strcmp_eq_refl in E.
    + intros H e He. apply H. by right.
Qed.

Lemma set_health_names ep h :
  provider_name (set_health ep h) = provider_name ep /\
  model_name (set_health ep h) = model_name ep.
Proof. done. Qed.

(** ** Concrete endpoints for the witnesses *)

Definition sample_ep (p m : string) (h : ep_sig_t) : llm_endpoint_t :=
  mkEp p m "https://api" "KEY" 1 8192 (d_lit 1 1000) (d_lit 2 1000) 100 true 0 h.

Definition sample_ctx (eps : list llm_endpoint_t) : router_ctx_t :=
  mkCtx eps LLM_ROUTE_COST stats_zero (Some "cl100k_base") true 0 [].
