(* ===== verification/RouterState.v ===== *)
(** * RouterState

    Persistence of the endpoint health (llm_d/src/router/core/router_state.c):
    a tab-separated text file with one line of eight columns per endpoint,
    written after every health change and read once at start.  The file system
    is the content of the one file; the results of the commons I/O calls are
    fields of [rtr_env]. *)

From S2P Require Import Prelude Doubles Failover EpHealth RouterCtx.

Definition TAB : ascii := "009".
Definition NL : ascii := "010".

Record rtr_env := mkEnv {
  data_dir : option string;    (** [airy_data_dir()] *)
  path_max : Z;                (** [AIRY_PATH_MAX] *)
  malloc_ok : bool;            (** whether the buffer allocation succeeds *)
  write_ok : bool              (** whether [airy_io_write_file] succeeds *)
}.

Definition RTR_STATE_LINE_MAX : Z := 320.

Definition state_path (env : rtr_env) : option string :=
  match data_dir env with
  | None => None
  | Some dir =>
      if strcmp_eq dir "" then None
      else let path := dir +:+ "/" +:+ "router.state" in
           if path_max env <=? strlen path then None else Some path
  end.

(** ** Numbers *)

Definition is_digit (c : ascii) : bool :=
  let n := Z.of_nat (nat_of_ascii c) in (48 <=? n) && (n <=? 57).

Definition digit_val (c : ascii) : Z := Z.of_nat (nat_of_ascii c) - 48.

Fixpoint field_loop (s : string) (v : Z) : option Z :=
  match s with
  | EmptyString => Some v
  | String c s' =>
      if negb (is_digit c) then None
      else let d := digit_val c in
           if (UINT32_MAX - d) / 10 <? v then None
           else field_loop s' (v * 10 + d)
  end.

Definition field_u32 (s : string) : option Z :=
  match s with
  | EmptyString => None
  | _ => field_loop s 0
  end.

(** ** Lines *)

(** The cutting loop of [line_split]: at most [n] fields, each ended by the
    next tab, which is overwritten by a terminator. *)
Fixpoint split_loop (n : nat) (p : string) : list string :=
  match n with
  | O => []
  | S n' => match cut_at TAB p with
            | (f, None) => [f]
            | (f, Some rest) => f :: split_loop n' rest
            end
  end.

Definition line_split (line : string) : option (list string) :=
  let f := split_loop 8 line in
  if (length f =? 8)%nat && negb (has_char TAB (default "" (f !! 7%nat))) then Some f else None.

Definition snap_num (f : list string) : option (list Z) :=
  mapM field_u32 (take 6 (drop 2 f)).

(** The format string of [rtr_state_save]: columns separated by tabs. *)
Fixpoint join_tab (l : list string) : string :=
  match l with
  | [] => ""
  | [x] => x
  | x :: l' => x +:+ String TAB (join_tab l')
  end.

Section state.
  Context `{AiryString}.

Definition clip (hi v : Z) : Z := if hi <? v then hi else v.

Definition snap_fill (f : list string) (v : list Z) : option router_ep_snap_t :=
    match f, v with
    | p :: m :: _, [v0; v1; v2; v3; v4; v5] =>
        Some (mkSnap (AIRY_STRNCPY_TERM 64 p) (AIRY_STRNCPY_TERM 64 m)
               (clip LLM_EP_FAIL_MAX v0) (clip LLM_EP_FAIL_WINDOW_MS v1)
               (clip LLM_EP_OPEN_MAX_MS v3) (clip LLM_EP_PROBE_MAX v4)
               (clip LLM_EP_MAX_LEVEL v5) (u8 v2))
    | _, _ => None
    end.

(** One line: [None] when the line is dropped. *)
Definition parse_line (line : string) : option router_ep_snap_t :=
    f ← line_split line;
    if strcmp_eq (default "" (f !! 0%nat)) "" || strcmp_eq (default "" (f !! 1%nat)) "" then None
    else v ← snap_num f;
         if ep_state_val LLM_EP_HALF <? default 0 (v !! 2%nat) then None
         else snap_fill f v.

Definition state_parse (line : string) (restore : list router_ep_snap_t)
      : list router_ep_snap_t :=
    match parse_line line with
    | None => restore
    | Some s => if (LLM_ROUTER_MAX_ENDPOINTS <=? length restore)%nat then restore
                else restore ++ [s]
    end.

(** The reading loop stops at the end of the text, at an empty line or when
    the table is full; every turn consumes at least one character. *)
Fixpoint load_loop (fuel : nat) (line : string) (restore : list router_ep_snap_t)
      : list router_ep_snap_t :=
    match fuel with
    | O => restore
    | S f =>
        if strcmp_eq line "" || (LLM_ROUTER_MAX_ENDPOINTS <=? length restore)%nat then restore
        else match cut_at NL line with
             | (l, None) => state_parse l restore
             | (l, Some rest) => load_loop f rest (state_parse l restore)
             end
    end.

(** [file] is the result of [airy_io_read_file]: [None] when it fails. *)
Definition router_state_load (env : rtr_env) (file : option string) (ctx : router_ctx_t)
      : router_ctx_t :=
    match state_path env, file with
    | Some _, Some buf => set_restore ctx (load_loop (S (String.length buf)) buf [])
    | _, _ => set_restore ctx []
    end.

(** ** Snapshots *)

Definition snap_from_ep (ep : llm_endpoint_t) (now : Z) : router_ep_snap_t :=
    let h := health ep in
    let st := llm_ep_state h now in
    let age0 := if last_fail_ms h =? 0 then 0 else u32 (now - last_fail_ms h) in
    let age := if negb (consec_fail h =? 0) && (age0 =? 0) then 1 else age0 in
    mkSnap (AIRY_STRNCPY_TERM 64 (provider_name ep)) (AIRY_STRNCPY_TERM 64 (model_name ep))
           (consec_fail h) age
           (if bool_decide (st = LLM_EP_OPEN) then u32 (open_until_ms h - now) else 0)
           (probe_fail h) (open_level h) (u8 (ep_state_val st)).

Definition rtr_state_capture (ctx : router_ctx_t) (now : Z) : router_ctx_t :=
    set_restore ctx (map (fun ep => snap_from_ep ep now)
                         (take LLM_ROUTER_MAX_ENDPOINTS (endpoints ctx))).

(** The health fields a snapshot restores at time [now]. *)
Definition snap_health (s : router_ep_snap_t) (now : Z) : ep_sig_t :=
    mkSig (s_consec_fail s)
          (if s_last_fail_age_ms s =? 0 then 0 else u32 (now - s_last_fail_age_ms s))
          (if s_state s =? u8 (ep_state_val LLM_EP_OPEN)
           then u32 (now + (if s_open_remain_ms s =? 0 then 1 else s_open_remain_ms s))
           else if s_state s =? u8 (ep_state_val LLM_EP_HALF)
           then (if now =? 0 then 1 else now)
           else 0)
          0 (s_probe_fail s) (s_open_level s).

(** First matching snapshot; a hit is removed by moving the last one into its
    slot. *)
Fixpoint snap_find (i : nat) (p m : string) (l : list router_ep_snap_t)
      : option (nat * router_ep_snap_t) :=
    match l with
    | [] => None
    | s :: l' =>
        if negb (strcmp_eq (s_provider_name s) p) || negb (strcmp_eq (s_model_name s) m)
        then snap_find (S i) p m l'
        else Some (i, s)
    end.

Definition swap_remove (i : nat) (l : list router_ep_snap_t) : list router_ep_snap_t :=
    match last l with
    | None => l
    | Some z => take (length l - 1) (<[i := z]> l)
    end.

Definition rtr_ep_restore (ctx : router_ctx_t) (now : Z) (ep : llm_endpoint_t)
      : llm_endpoint_t * router_ctx_t :=
    match snap_find 0 (provider_name ep) (model_name ep) (restore ctx) with
    | None => (ep, ctx)
    | Some (i, s) => (set_health ep (snap_health s now),
                      set_restore ctx (swap_remove i (restore ctx)))
    end.

(** ** Writing *)

Definition print_line (s : router_ep_snap_t) : string :=
    join_tab [s_provider_name s; s_model_name s; print_u (s_consec_fail s);
              print_u (s_last_fail_age_ms s); print_u (s_state s); print_u (s_open_remain_ms s);
              print_u (s_probe_fail s); print_u (s_open_level s)] +:+ String NL "".

(** The filling loop: a line that does not fit the rest of the buffer ends
    the loop, and only the complete lines are written. *)
Fixpoint save_loop (eps : list llm_endpoint_t) (now cap pos : Z) : string :=
    match eps with
    | [] => ""
    | ep :: eps' =>
        let line := print_line (snap_from_ep ep now) in
        let n := strlen line in
        if (n <=? 0) || (cap - pos <=? n) then ""
        else line +:+ save_loop eps' now cap (pos + n)
    end.

Definition save_cap (ctx : router_ctx_t) : Z :=
    Z.of_nat (length (endpoints ctx)) * (RTR_STATE_LINE_MAX + 1) + 1.

(** Returns the code and the content of the state file afterwards. *)
Definition rtr_state_save (env : rtr_env) (ctx : router_ctx_t) (now : Z) (file : option string)
      : airy_rc * option string :=
    if negb (initialized ctx) then (AIRY_ERR_SYS_NOT_INIT, file)
    else if (length (endpoints ctx) =? 0)%nat then (AIRY_SUCCESS, file)
    else match state_path env with
         | None => (AIRY_ERR_INVALID_PARAM, file)
         | Some _ =>
             if negb (malloc_ok env) then (AIRY_ERR_OUT_OF_MEMORY, file)
             else if write_ok env
             then (AIRY_SUCCESS, Some (save_loop (endpoints ctx) now (save_cap ctx) 0))
             else (AIRY_ERR_IO, file)
         end.
End state.

(** ** Decimal numbers: value, printing, parsing *)

Fixpoint dec_from (v : Z) (s : string) : Z :=
  match s with
  | EmptyString => v
  | String c s' => dec_from (v * 10 + digit_val c) s'
  end.

Lemma digit_char_spec d :
  0 <= d <= 9 -> is_digit (digit_char d) = true /\ digit_val (digit_char d) = d.
Proof.
  intros H. assert (d = 0 \/ d = 1 \/ d = 2 \/ d = 3 \/ d = 4 \/ d = 5 \/ d = 6 \/ d = 7 \/ d = 8
    \/ d = 9) as HH by lia.
  repeat (destruct HH as [->|HH]; [done|]). by subst.
Qed.

Lemma is_digit_val c : is_digit c = true -> 0 <= digit_val c <= 9.
Proof. unfold is_digit, digit_val. intros H. apply andb_true_iff in H as [? ?]. bool_cases. lia. Qed.

Lemma dec_aux_value fuel n acc :
  (0 < fuel)%nat -> 0 <= n < 10 ^ Z.of_nat fuel ->
  dec_from 0 (dec_aux fuel n acc) = dec_from n acc.
Proof.
  revert n acc. induction fuel as [|fuel IH]; intros n acc Hf Hn; [lia|].
  simpl. destruct (Z.ltb_spec n 10).
  - simpl. destruct (digit_char_spec (n mod 10)) as [_ ->]; [ulia|].
    rewrite Z.mod_small by lia. f_equal.
  - destruct fuel as [|fuel]; [simpl in Hn; lia|].
    rewrite IH; [|lia|].
    + simpl. destruct (digit_char_spec (n mod 10)) as [_ ->]; [ulia|].
      f_equal. ulia.
    + rewrite (Nat2Z.inj_succ (S fuel)), Z.pow_succ_r in Hn by lia.
      split; [apply Z.div_pos; lia | apply Z.div_lt_upper_bound; lia].
Qed.

Lemma dec_aux_digits fuel n acc :
  0 <= n -> str_forallb is_digit (dec_aux fuel n acc) = str_forallb is_digit acc.
Proof.
  revert n acc. induction fuel as [|fuel IH]; intros n acc Hn; [done|].
  simpl. destruct (digit_char_spec (n mod 10)) as [Hd _]; [ulia|].
  case_match; [simpl; by rewrite Hd|].
  rewrite IH by (apply Z.div_pos; lia). simpl. by rewrite Hd.
Qed.

Lemma dec_aux_length fuel n acc k :
  (0 < k)%nat -> 0 <= n < 10 ^ Z.of_nat k ->
  (String.length (dec_aux fuel n acc) <= k + String.length acc)%nat.
Proof.
  revert n acc k. induction fuel as [|fuel IH]; intros n acc k Hk Hn; simpl; [lia|].
  destruct (Z.ltb_spec n 10); [simpl; lia|].
  destruct k as [|[|k]]; [lia|simpl in Hn; lia|].
  eapply Nat.le_trans; [apply (IH _ _ (S k)); [lia|]|simpl; lia].
  rewrite (Nat2Z.inj_succ (S k)), Z.pow_succ_r in Hn by lia.
  split; [apply Z.div_pos; lia | apply Z.div_lt_upper_bound; lia].
Qed.

Lemma dec_aux_nonempty fuel n acc : (0 < fuel)%nat -> dec_aux fuel n acc <> EmptyString.
Proof.
  assert (forall f m a, a <> EmptyString -> dec_aux f m a <> EmptyString) as H.
  { induction f as [|f IH]; intros m a Ha; simpl; [done|]. case_match; [done|]. by apply IH. }
  destruct fuel; [lia|]. intros _. simpl. case_match; [done|]. by apply H.
Qed.

Lemma dec_from_ge s v : str_forallb is_digit s = true -> 0 <= v -> v <= dec_from v s.
Proof.
  revert v. induction s as [|c s IH]; intros v Hs Hv; simpl in *; [lia|].
  apply andb_true_iff in Hs as [Hc Hs]. apply is_digit_val in Hc.
  etransitivity; [|apply IH; [done|lia]]. lia.
Qed.

Lemma field_loop_spec s v r :
  0 <= v <= UINT32_MAX ->
  field_loop s v = Some r <->
  str_forallb is_digit s = true /\ dec_from v s = r /\ r <= UINT32_MAX.
Proof.
  revert v. induction s as [|c s IH]; intros v Hv; simpl.
  { split; [intros [= ->]; lia | intros (_ & -> & _); done]. }
  destruct (is_digit c) eqn:Hc; simpl; [|naive_solver].
  pose proof (is_digit_val _ Hc) as Hd. unfold UINT32_MAX in *.
  destruct (Z.ltb_spec ((4294967295 - digit_val c) / 10) v) as [Hlt|Hge].
  - split; [done|]. intros (Hs & Hr & Hle).
    pose proof (dec_from_ge s (v * 10 + digit_val c) Hs ltac:(lia)). ulia.
  - apply IH. ulia.
Qed.

Lemma field_u32_print v : is_u32 v -> field_u32 (print_u v) = Some v.
Proof.
  intros Hv. unfold print_u, is_u32, UINT32_MAX in *.
  assert (dec_aux 20 v "" <> "") as Hne by (apply dec_aux_nonempty; lia).
  unfold field_u32. destruct (dec_aux 20 v "") as [|c s] eqn:E; [done|]. rewrite <- E.
  apply field_loop_spec; [unfold UINT32_MAX; lia|]. split; [|split].
  - by rewrite dec_aux_digits by lia.
  - rewrite dec_aux_value; [done|lia|]. simpl. lia.
  - unfold UINT32_MAX. lia.
Qed.

(** Exactness of the field parser.  [field_u32] accepts a column iff it is
    a non-empty string of decimal digits whose value fits 32 bits, and then
    returns that value; no wrap-around can occur in the accumulator.  It is a
    left inverse of the printer on every 32-bit value. *)
Theorem field_u32_exact s v :
  (field_u32 s = Some v <->
     s <> EmptyString /\ str_forallb is_digit s = true /\ dec_from 0 s = v /\ v <= UINT32_MAX)
  /\ (is_u32 v -> field_u32 (print_u v) = Some v).
Proof.
  split; [|apply field_u32_print].
  destruct s as [|c s]; [naive_solver|].
  change (field_u32 (String c s)) with (field_loop (String c s) 0).
  rewrite field_loop_spec by (unfold UINT32_MAX; lia). naive_solver.
Qed.

Lemma field_u32_exact_witness : field_u32 (print_u 4294967295) = Some 4294967295.
Proof. apply (field_u32_exact "" 4294967295). unfold is_u32, UINT32_MAX. lia. Defined.

(** ** Splitting is the inverse of joining *)

Definition clean (s : string) : Prop := has_char TAB s = false /\ has_char NL s = false.

Lemma str_forallb_impl p q s :
  (forall c, p c = true -> q c = true) -> str_forallb p s = true -> str_forallb q s = true.
Proof.
  intros Hpq. induction s as [|c s IH]; simpl; [done|]. intros H.
  apply andb_true_iff in H as [? ?]. by rewrite Hpq, IH.
Qed.

Lemma digits_clean s : str_forallb is_digit s = true -> clean s.
Proof.
  intros H. split; apply has_char_false; (eapply str_forallb_impl; [|done]); intros c Hc;
    apply negb_true_iff, Ascii.eqb_neq; intros ->; done.
Qed.

Lemma print_u_clean v : 0 <= v -> clean (print_u v).
Proof. intros. apply digits_clean. unfold print_u. by rewrite dec_aux_digits. Qed.

Lemma print_u_length v k :
  (0 < k)%nat -> 0 <= v < 10 ^ Z.of_nat k -> (String.length (print_u v) <= k)%nat.
Proof.
  intros. unfold print_u. etransitivity; [by apply (dec_aux_length _ _ _ k)|]. simpl. lia.
Qed.

Lemma split_join l :
  l <> [] -> Forall (fun s => has_char TAB s = false) l -> split_loop (length l) (join_tab l) = l.
Proof.
  intros Hl HF. induction HF as [|x l Hx HF IH]; [done|].
  destruct l as [|y l].
  - simpl. by rewrite cut_at_none.
  - change (join_tab (x :: y :: l)) with (x +:+ String TAB (join_tab (y :: l))).
    change (length (x :: y :: l)) with (S (length (y :: l))). cbn [split_loop].
    rewrite cut_at_app by done. f_equal. by apply IH.
Qed.

Lemma join_tab_no_nl l : Forall (fun s => has_char NL s = false) l -> has_char NL (join_tab l) = false.
Proof.
  induction 1 as [|x l Hx HF IH]; [done|]. destruct l as [|y l]; [done|].
  change (join_tab (x :: y :: l)) with (x +:+ String TAB (join_tab (y :: l))).
  rewrite has_char_app, Hx. simpl. change (has_char NL (String TAB (join_tab (y :: l))))
    with (has_char NL (join_tab (y :: l))). done.
Qed.

Lemma join_tab_length l :
  (String.length (join_tab l) <= length l + list_sum (String.length <$> l))%nat.
Proof.
  induction l as [|x l IH]; [done|]. destruct l as [|y l]; [simpl; lia|].
  change (join_tab (x :: y :: l)) with (x +:+ String TAB (join_tab (y :: l))).
  rewrite str_length_app. cbn [String.length fmap list_fmap length] in *.
  change (list_sum (String.length x :: ?a)) with (String.length x + list_sum a)%nat. 
  simpl in *. lia.
Qed.

(** ** Lines of well-formed snapshots *)

Record snap_ok (s : router_ep_snap_t) : Prop := {
  so_p : clean (s_provider_name s);
  so_m : clean (s_model_name s);
  so_pn : s_provider_name s <> "";
  so_mn : s_model_name s <> "";
  so_pl : (String.length (s_provider_name s) < 64)%nat;
  so_ml : (String.length (s_model_name s) < 64)%nat;
  so_c : is_u32 (s_consec_fail s);
  so_a : is_u32 (s_last_fail_age_ms s);
  so_r : is_u32 (s_open_remain_ms s);
  so_f : is_u32 (s_probe_fail s);
  so_l : is_u32 (s_open_level s);
  so_s : 0 <= s_state s <= 2
}.

Definition fields_of (s : router_ep_snap_t) : list string :=
  [s_provider_name s; s_model_name s; print_u (s_consec_fail s);
   print_u (s_last_fail_age_ms s); print_u (s_state s); print_u (s_open_remain_ms s);
   print_u (s_probe_fail s); print_u (s_open_level s)].

Lemma fields_clean s : snap_ok s -> Forall clean (fields_of s).
Proof.
  intros []. unfold fields_of, is_u32 in *.
  repeat constructor; try apply print_u_clean; try lia; try apply so_p0; apply so_m0.
Qed.

Lemma print_u32_length v : is_u32 v -> (String.length (print_u v) <= 10)%nat.
Proof.
  unfold is_u32, UINT32_MAX. intros. apply print_u_length; [lia|].
  change (10 ^ Z.of_nat 10) with 10000000000. lia.
Qed.

Lemma print_line_length s : snap_ok s -> 0 < strlen (print_line s) <= RTR_STATE_LINE_MAX.
Proof.
  intros H. unfold strlen, print_line, RTR_STATE_LINE_MAX. rewrite str_length_app.
  pose proof (join_tab_length (fields_of s)) as Hj. unfold fields_of in *.
  pose proof (print_u32_length _ (so_c _ H)). pose proof (print_u32_length _ (so_a _ H)).
  pose proof (print_u32_length _ (so_r _ H)). pose proof (print_u32_length _ (so_f _ H)).
  pose proof (print_u32_length _ (so_l _ H)).
  assert (String.length (print_u (s_state s)) <= 10)%nat.
  { apply print_u32_length. pose proof (so_s _ H). unfold is_u32, UINT32_MAX. lia. }
  pose proof (so_pl _ H). pose proof (so_ml _ H). simpl in *. lia.
Qed.

Section roundtrip.
  Context `{AS : AiryString} `{ASO : !AiryStringOk}.

Definition clip_snap (s : router_ep_snap_t) : router_ep_snap_t :=
    mkSnap (s_provider_name s) (s_model_name s) (clip LLM_EP_FAIL_MAX (s_consec_fail s))
           (clip LLM_EP_FAIL_WINDOW_MS (s_last_fail_age_ms s))
           (clip LLM_EP_OPEN_MAX_MS (s_open_remain_ms s)) (clip LLM_EP_PROBE_MAX (s_probe_fail s))
           (clip LLM_EP_MAX_LEVEL (s_open_level s)) (s_state s).

Lemma parse_line_print s :
    snap_ok s -> parse_line (join_tab (fields_of s)) = Some (clip_snap s).
  Proof.
    intros H. pose proof (fields_clean s H) as Hc.
    assert (line_split (join_tab (fields_of s)) = Some (fields_of s)) as E.
    { assert (split_loop 8 (join_tab (fields_of s)) = fields_of s) as Hsp.
      { apply (split_join (fields_of s)); [done|].
        eapply Forall_impl; [exact Hc|]. by intros x []. }
      unfold line_split. rewrite Hsp. simpl. unfold fields_of in Hc. rewrite !Forall_cons in Hc.
      destruct Hc as (_&_&_&_&_&_&_&[-> _]&_). done. }
    unfold parse_line. rewrite E. simpl.
    unfold strcmp_eq. rewrite (proj2 (String.eqb_neq _ _) (so_pn _ H)),
      (proj2 (String.eqb_neq _ _) (so_mn _ H)). simpl.
    unfold snap_num. simpl.
    pose proof (so_s _ H) as Hs.
    rewrite !field_u32_print by (first [apply H | unfold is_u32, UINT32_MAX; lia]). simpl.
    destruct (Z.ltb_spec 2 (s_state s)); [lia|].
    rewrite !strncpy_term_short by apply H. unfold clip_snap, u8.
    by rewrite (Z.mod_small (s_state s)) by lia.
  Qed.

Lemma load_loop_lines ss fuel acc :
    Forall snap_ok ss -> (length acc + length ss <= LLM_ROUTER_MAX_ENDPOINTS)%nat ->
    (String.length (str_concat (map print_line ss)) < fuel)%nat ->
    load_loop fuel (str_concat (map print_line ss)) acc = acc ++ map clip_snap ss.
  Proof.
    intros HF. revert fuel acc. induction HF as [|s ss Hs HF IH]; intros fuel acc Hlen Hf.
    { destruct fuel; [simpl in Hf; lia|]. simpl. by rewrite app_nil_r. }
    assert (str_concat (map print_line (s :: ss))
            = join_tab (fields_of s) +:+ String NL (str_concat (map print_line ss))) as E.
    { unfold print_line at 1. cbn [map str_concat foldr]. fold (fields_of s).
      by rewrite str_app_assoc. }
    rewrite E in *. destruct fuel as [|fuel]; [lia|]. cbn [load_loop].
    rewrite str_length_app in Hf. simpl in Hf, Hlen.
    assert (strcmp_eq (join_tab (fields_of s) +:+ String NL (str_concat (map print_line ss))) ""
            = false) as ->.
    { apply strcmp_eq_false. intros H0. apply (f_equal String.length) in H0.
      rewrite str_length_app in H0. simpl in H0. lia. }
    destruct (Nat.leb_spec LLM_ROUTER_MAX_ENDPOINTS (length acc)); [lia|]. simpl.
    rewrite cut_at_app; [|apply (join_tab_no_nl (fields_of s)); eapply Forall_impl;
                          [by apply fields_clean|]; by intros x []].
    unfold state_parse. fold (join_tab (fields_of s)). pose proof (parse_line_print s Hs) as Hp.
    simpl in Hp. rewrite Hp.
    destruct (Nat.leb_spec LLM_ROUTER_MAX_ENDPOINTS (length acc)); [lia|].
    rewrite IH; [by rewrite <- app_assoc| rewrite length_app; simpl; lia | lia].
  Qed.

Lemma save_loop_lines eps now cap pos :
    Forall (fun ep => snap_ok (snap_from_ep ep now)) eps ->
    Z.of_nat (length eps) * (RTR_STATE_LINE_MAX + 1) < cap - pos ->
    save_loop eps now cap pos =
      str_concat (map (fun ep => print_line (snap_from_ep ep now)) eps).
  Proof.
    intros HF. revert pos. induction HF as [|ep eps Hs HF IH]; intros pos Hcap; [done|].
    pose proof (print_line_length _ Hs) as Hl. unfold RTR_STATE_LINE_MAX in *.
    cbn [save_loop length] in *. rewrite Nat2Z.inj_succ in Hcap.
    destruct (Z.leb_spec (strlen (print_line (snap_from_ep ep now))) 0); [lia|].
    destruct (Z.leb_spec (cap - pos) (strlen (print_line (snap_from_ep ep now)))); [lia|].
    simpl. by rewrite IH by lia.
  Qed.
End roundtrip.

(** ** Snapshots of running endpoints *)

Record ep_persist_ok (ep : llm_endpoint_t) : Prop := {
  po_names : ep_names_ok ep;
  po_p : clean (provider_name ep);
  po_m : clean (model_name ep);
  po_pn : provider_name ep <> "";
  po_mn : model_name ep <> "";
  po_wf : ep_wf (health ep)
}.

Section restore.
  Context `{AS : AiryString} `{ASO : !AiryStringOk}.

Lemma snap_from_ep_ok ep now :
    ep_persist_ok ep -> is_u32 now -> snap_ok (snap_from_ep ep now).
  Proof.
    intros [(Hpl & Hml & _) ???? Hwf] Hn.
    pose proof (wf_consec _ Hwf). pose proof (wf_pf _ Hwf). pose proof (wf_level _ Hwf).
    unfold LLM_EP_FAIL_MAX, LLM_EP_PROBE_MAX, is_u8, UINT8_MAX in *.
    split; simpl; rewrite ?strncpy_term_short by done; try done.
    all: try (unfold is_u32, UINT32_MAX; lia).
    - repeat case_match; try apply u32_range; unfold is_u32, UINT32_MAX; lia.
    - case_match; [apply u32_range|]. unfold is_u32, UINT32_MAX; lia.
    - by destruct (llm_ep_state (health ep) now).
  Qed.

Lemma snap_health_state s st now :
    s_state s = ep_state_val st -> is_u32 now -> now <> 0 ->
    (st = LLM_EP_OPEN -> 0 < s_open_remain_ms s < 2147483648 /\ u32 (now + s_open_remain_ms s) <> 0) ->
    llm_ep_state (snap_health s now) now = st.
  Proof.
    intros Hs Hn Hnz Hopen. unfold llm_ep_state, snap_health. simpl. rewrite Hs.
    destruct st; simpl.
    - done.
    - destruct Hopen as [Hr Hz]; [done|]. change (1 =? u8 1) with true.
      destruct (Z.eqb_spec (s_open_remain_ms s) 0); [lia|]. simpl.
      rewrite (proj2 (Z.eqb_neq _ _) Hz).
      destruct (Z.ltb_spec 0 (s32 (u32 (now + s_open_remain_ms s) - now))); [done|exfalso]. ulia.
    - change (2 =? u8 1) with false. change (2 =? u8 2) with true. simpl.
      rewrite (proj2 (Z.eqb_neq _ _) Hnz). rewrite (proj2 (Z.eqb_neq _ _) Hnz).
      by rewrite Z.sub_diag.
  Qed.

Lemma open_remain_range ep now :
    ep_wf ep -> llm_ep_state ep now = LLM_EP_OPEN ->
    0 < u32 (open_until_ms ep - now) < 2147483648.
  Proof.
    intros Hwf. unfold llm_ep_state. repeat case_match; bool_cases; try done.
    intros _. ulia.
  Qed.

  (** Save and load.  For a table of at most 64 endpoints with printable,
      non-empty, tab- and newline-free names, a save that finds its path,
      memory and a writable file writes one complete line per endpoint (the
      buffer is never too small), and loading that file yields exactly the
      snapshots of all endpoints in table order, with the counters clipped to
      their ceilings. *)
Theorem save_load_roundtrip env ctx ctx' now file path :
    initialized ctx = true -> state_path env = Some path ->
    malloc_ok env = true -> write_ok env = true ->
    (0 < length (endpoints ctx) <= LLM_ROUTER_MAX_ENDPOINTS)%nat ->
    Forall ep_persist_ok (endpoints ctx) -> is_u32 now ->
    exists content,
      rtr_state_save env ctx now file = (AIRY_SUCCESS, Some content) /\
      content = str_concat (map (fun ep => print_line (snap_from_ep ep now)) (endpoints ctx)) /\
      restore (router_state_load env (Some content) ctx') =
        map (fun ep => clip_snap (snap_from_ep ep now)) (endpoints ctx).
  Proof.
    intros Hi Hp Hm Hw Hlen HF Hn.
    assert (Forall (fun ep => snap_ok (snap_from_ep ep now)) (endpoints ctx)) as HS.
    { eapply Forall_impl; [exact HF|]. intros. by apply snap_from_ep_ok. }
    eexists. split; [|split; [reflexivity|]].
    - unfold rtr_state_save. rewrite Hi, Hp, Hm, Hw. simpl.
      destruct (Nat.eqb_spec (length (endpoints ctx)) 0); [lia|].
      rewrite save_loop_lines; [done|done|]. unfold save_cap. lia.
    - unfold router_state_load. rewrite Hp. cbn [restore set_restore].
      rewrite <- (map_map (fun ep => snap_from_ep ep now) print_line).
      rewrite load_loop_lines.
      + by rewrite map_map.
      + by apply Forall_map.
      + rewrite length_map. simpl. lia.
      + lia.
  Qed.

  (** Health survives a restart.  The snapshot of a well-formed endpoint
      taken at [now], also after the clipping of the state file, restores at
      any later clock value [now'] an endpoint in the same breaker state, with
      the same remaining hold time (at most the 300 s ceiling), run length,
      probe count and (capped) back-off level; this needs [now'] and the new
      deadline to miss the reserved value 0 of the 32-bit clock. *)
Theorem restore_preserves_health ep now now' :
    ep_persist_ok ep -> is_u32 now -> is_u32 now' -> now' <> 0 ->
    let s := clip_snap (snap_from_ep ep now) in
    let h := health ep in
    let h' := snap_health s now' in
    (llm_ep_state h now = LLM_EP_OPEN -> u32 (now' + s_open_remain_ms s) <> 0) ->
    llm_ep_state h' now' = llm_ep_state h now /\
    (llm_ep_state h now = LLM_EP_OPEN ->
       u32 (open_until_ms h' - now') = Z.min LLM_EP_OPEN_MAX_MS (u32 (open_until_ms h - now))) /\
    consec_fail h' = consec_fail h /\ probe_fail h' = probe_fail h /\
    open_level h' = Z.min LLM_EP_MAX_LEVEL (open_level h) /\
    ep_hold (open_level h') = ep_hold (open_level h).
  Proof.
    intros Hok Hn Hn' Hnz s h h' Hz. pose proof (po_wf _ Hok) as Hwf. fold h in Hwf.
    assert (forall hi v, clip hi v = Z.min hi v) as Hclip.
    { intros. unfold clip. case_match; bool_cases; lia. }
    assert (llm_ep_state h now = LLM_EP_OPEN ->
      s_open_remain_ms s = Z.min LLM_EP_OPEN_MAX_MS (u32 (open_until_ms h - now))
      /\ 0 < s_open_remain_ms s <= 300000) as Hrem.
    { intros E. unfold s. simpl. fold h. rewrite E, bool_decide_eq_true_2 by done.
      rewrite Hclip. pose proof (open_remain_range h now Hwf E).
      unfold LLM_EP_OPEN_MAX_MS. lia. }
    split; [|split; [|split; [|split; [|split]]]].
    - apply snap_health_state; try done.
      + unfold s. simpl. fold h. by destruct (llm_ep_state h now).
      + intros E. destruct (Hrem E). split; [lia|by apply Hz].
    - intros E. destruct (Hrem E) as [Hr1 Hr2]. rewrite <- Hr1. unfold h', snap_health. simpl.
      assert (s_state s = 1) as Hst by (unfold s; simpl; fold h; by rewrite E).
      change (u8 (ep_state_val (llm_ep_state (health ep) now))) with (s_state s). rewrite Hst. simpl.
      change (clip LLM_EP_OPEN_MAX_MS _) with (s_open_remain_ms s).
      rewrite (proj2 (Z.eqb_neq (s_open_remain_ms s) 0)) by lia. ulia.
    - unfold h', s. simpl. fold h. rewrite Hclip. pose proof (wf_consec _ Hwf). lia.
    - unfold h', s. simpl. fold h. rewrite Hclip. pose proof (wf_pf _ Hwf). lia.
    - unfold h', s. simpl. fold h. apply Hclip.
    - unfold h', s. simpl. fold h. rewrite Hclip. pose proof (wf_level _ Hwf) as [? _].
      unfold LLM_EP_MAX_LEVEL. rewrite !ep_hold_table by lia. repeat case_match; bool_cases; lia.
  Qed.
End restore.

(** ** Concrete instances for the witnesses *)

Definition sample_env : rtr_env := mkEnv (Some "/data") 4096 true true.

Lemma sample_ep_ok h : ep_wf h -> ep_persist_ok (sample_ep "openai" "gpt" h).
Proof. intros. split; try done. repeat split; simpl; lia. Qed.

Lemma sample_open_wf : ep_wf (mkSig 3 100 30100 0 0 1).
Proof. split; unfold is_u32, is_u8, UINT32_MAX, UINT8_MAX, LLM_EP_PROBE_MAX, LLM_EP_FAIL_MAX;
         simpl; lia. Qed.

Lemma save_load_roundtrip_witness :
  exists content,
    rtr_state_save (H := bounded_copy) sample_env
      (sample_ctx [sample_ep "openai" "gpt" (mkSig 3 100 30100 0 0 1)]) 200 None
      = (AIRY_SUCCESS, Some content) /\
    restore (router_state_load (H := bounded_copy) sample_env (Some content) ctx_zero)
      = [mkSnap "openai" "gpt" 3 100 29900 0 1 1].
Proof.
  destruct (@save_load_roundtrip bounded_copy bounded_copy_ok sample_env
    (sample_ctx [sample_ep "openai" "gpt" (mkSig 3 100 30100 0 0 1)]) ctx_zero 200 None
    "/data/router.state" eq_refl eq_refl eq_refl eq_refl) as (c & H1 & _ & H3).
  - simpl. unfold LLM_ROUTER_MAX_ENDPOINTS. lia.
  - apply Forall_singleton, sample_ep_ok, sample_open_wf.
  - unfold is_u32, UINT32_MAX. lia.
  - exists c. split; [exact H1|]. rewrite H3. vm_compute. reflexivity.
Defined.

Lemma restore_preserves_health_witness :
  llm_ep_state (snap_health (clip_snap (snap_from_ep (H := bounded_copy)
    (sample_ep "openai" "gpt" (mkSig 3 100 30100 0 0 1)) 200)) 5) 5 = LLM_EP_OPEN.
Proof.
  refine (eq_trans (proj1 (@restore_preserves_health bounded_copy
    (sample_ep "openai" "gpt" (mkSig 3 100 30100 0 0 1)) 200 5
    (sample_ep_ok _ sample_open_wf) _ _ _ _)) _).
  - unfold is_u32, UINT32_MAX. lia.
  - unfold is_u32, UINT32_MAX. lia.
  - lia.
  - intros _. vm_compute. discriminate.
  - reflexivity.
Defined.

(** ** Consumption of snapshots *)

Lemma snap_find_Some i p m l k s :
  snap_find i p m l = Some (k, s) ->
  exists j, k = (i + j)%nat /\ l !! j = Some s /\ s_provider_name s = p /\ s_model_name s = m.
Proof.
  revert i. induction l as [|x l IH]; intros i; simpl; [done|].
  case_match eqn:E.
  - intros H. apply IH in H as (j & -> & ? & ?). exists (S j). split; [lia|done].
  - intros [= <- <-]. apply orb_false_iff in E as [? ?]. bool_cases.
    exists 0%nat. split; [lia|done].
Qed.

Lemma swap_remove_perm i l s :
  l !! i = Some s -> l ≡ₚ s :: swap_remove i l.
Proof.
  intros Hi. unfold swap_remove. destruct (last l) as [z|] eqn:Hl.
  2:{ apply last_None in Hl. by subst. }
  apply last_Some in Hl as [l' ->]. rewrite length_app. simpl.
  replace (length l' + 1 - 1)%nat with (length l') by lia.
  destruct (decide (i < length l')%nat) as [Hlt|Hge].
  - rewrite insert_app_l by done. rewrite take_app_le by (rewrite length_insert; lia).
    rewrite firstn_all2 by (rewrite length_insert; lia).
    rewrite lookup_app_l in Hi by done.
    rewrite (delete_Permutation _ _ _ Hi) at 1.
    rewrite insert_take_drop by done. rewrite <- app_comm_cons. constructor.
    rewrite delete_take_drop. rewrite <- app_assoc. solve_Permutation.
  - apply lookup_lt_Some in Hi as Hi'. rewrite length_app in Hi'. simpl in Hi'.
    assert (i = length l') as -> by lia.
    rewrite lookup_app_r in Hi by lia. rewrite Nat.sub_diag in Hi. simplify_eq/=.
    rewrite insert_app_r_alt by lia. rewrite take_app_le, firstn_all by lia.
    by rewrite Permutation_app_comm.
Qed.

(** A snapshot is consumed once.  Registering an endpoint either finds no
    snapshot of its provider and model, and then leaves the endpoint and the
    restore table alone, or it restores the health fields from one matching
    snapshot and removes exactly that snapshot from the table; every other
    field of the endpoint is untouched. *)
Theorem restore_consumes_once ctx now ep :
  let '(ep', ctx') := rtr_ep_restore ctx now ep in
  (ep' = ep /\ ctx' = ctx /\
     forall s, s ∈ restore ctx ->
       ~ (s_provider_name s = provider_name ep /\ s_model_name s = model_name ep)) \/
  (exists s, s ∈ restore ctx /\ s_provider_name s = provider_name ep /\
     s_model_name s = model_name ep /\ ep' = set_health ep (snap_health s now) /\
     restore ctx ≡ₚ s :: restore ctx' /\ endpoints ctx' = endpoints ctx).
Proof.
  unfold rtr_ep_restore. destruct (snap_find _ _ _ _) as [[i s]|] eqn:E.
  - right. apply snap_find_Some in E as (j & -> & Hj & Hp & Hm). exists s.
    split; [by eapply list_elem_of_lookup_2|]. repeat split; try done.
    by apply swap_remove_perm.
  - left. split; [done|]. split; [done|]. revert E. generalize 0%nat.
    induction (restore ctx) as [|x l IH]; intros n H s Hs [Hp Hm]; simpl in H.
    + by apply not_elem_of_nil in Hs.
    + apply elem_of_cons in Hs as [->|Hs].
      * by rewrite Hp, Hm, !strcmp_eq_refl in H.
      * case_match; [|done]. by eapply IH.
Qed.

(** ** Deviations from the stated contract *)

(** A ninth column is accepted.  The comment of [line_split] promises that
    a line with more than eight columns is dropped as a format mismatch; the
    loop overwrites the tab after the eighth column before the check looks for
    it, so the check can never fail and the surplus is silently ignored. *)
Theorem ninth_column_accepted f rest :
  length f = 8%nat -> Forall (fun s => has_char TAB s = false) f ->
  line_split (join_tab (f ++ [rest])) = Some f.
Proof.
  intros Hl HF.
  assert (forall l, l <> [] -> Forall (fun s => has_char TAB s = false) l ->
            split_loop (length l) (join_tab (l ++ [rest])) = l) as Hsplit.
  { induction l as [|x l IH]; [done|]. intros _ Hx. apply Forall_cons in Hx as [Hx Hl'].
    replace (join_tab ((x :: l) ++ [rest])) with (x +:+ String TAB (join_tab (l ++ [rest])))
      by (by destruct l).
    cbn [length split_loop]. rewrite cut_at_app by done. f_equal.
    destruct l; [done|]. by apply IH. }
  assert (f <> []) as Hne by (by intros ->).
  specialize (Hsplit f Hne HF). rewrite Hl in Hsplit. unfold line_split. rewrite Hsplit.
  destruct (lookup_lt_is_Some_2 f 7) as [x E]; [lia|].
  rewrite Forall_lookup in HF. rewrite E, Hl. pose proof (HF _ _ E) as Hx.
  simpl in Hx |- *. by rewrite Hx.
Qed.

Lemma ninth_column_accepted_witness :
  line_split (join_tab ["a"; "b"; "0"; "0"; "0"; "0"; "0"; "0"; "junk"])
  = Some ["a"; "b"; "0"; "0"; "0"; "0"; "0"; "0"].
Proof.
  apply (ninth_column_accepted ["a"; "b"; "0"; "0"; "0"; "0"; "0"; "0"] "junk"); [done|].
  repeat constructor.
Defined.

(** An OPEN endpoint can be restored as CLOSED.  [rtr_ep_restore] computes
    the new deadline as [now + remaining] without the guard that [ep_open]
    has for the reserved value 0: for every hold time there is a clock value
    at which a circuit that was open before the restart comes back closed. *)
Theorem restore_open_as_closed s :
  s_state s = ep_state_val LLM_EP_OPEN -> 0 < s_open_remain_ms s <= LLM_EP_OPEN_MAX_MS ->
  exists now, is_u32 now /\ llm_ep_state (snap_health s now) now = LLM_EP_CLOSED.
Proof.
  intros Hs Hr. unfold LLM_EP_OPEN_MAX_MS in Hr. exists (4294967296 - s_open_remain_ms s).
  split; [unfold is_u32, UINT32_MAX; lia|]. apply closed_open_until. unfold snap_health. simpl.
  rewrite Hs. change (ep_state_val LLM_EP_OPEN =? u8 1) with true. simpl.
  rewrite (proj2 (Z.eqb_neq _ _)) by lia. ulia.
Qed.

Lemma restore_open_as_closed_witness :
  exists now, is_u32 now /\
    llm_ep_state (snap_health (mkSnap "p" "m" 3 1 30000 0 1 1) now) now = LLM_EP_CLOSED.
Proof.
  apply restore_open_as_closed; [reflexivity|]. unfold LLM_EP_OPEN_MAX_MS. simpl. lia.
Defined.
