(* ===== verification/RouterStrategy.v ===== *)
(** * RouterStrategy

    The four selection rules of llm_d/src/router/strategy/router_strategy.c and
    the candidate ranking of [llm_router_pick] (llm_router.c).  An eligible
    endpoint is a pair of its slot in the endpoint table and the slot's
    content: pointer comparison in the code is comparison of slots here.  The
    commons' token counter and the C library's [qsort] are parameters. *)

From Stdlib Require Import Sorting.Sorted.
From S2P Require Import Prelude Doubles Failover EpHealth RouterCtx.

Definition cand := (nat * llm_endpoint_t)%type.

(** ** Candidate order of [llm_router_pick] *)

Definition cand_precedes (a b : llm_endpoint_t) (in_tok out_tok : Z) : bool :=
  if negb (priority a =? priority b) then priority b <? priority a
  else dlt (router_estimate_cost a in_tok out_tok) (router_estimate_cost b in_tok out_tok).

(** The inner [while] of the insertion sort walks the sorted prefix from its
    end; [rev_pre] is that prefix, last element first. *)
Fixpoint sift (key : cand) (in_tok out_tok : Z) (rev_pre : list cand) : list cand :=
  match rev_pre with
  | [] => [key]
  | y :: r => if cand_precedes key.2 y.2 in_tok out_tok
              then y :: sift key in_tok out_tok r
              else key :: rev_pre
  end.

Fixpoint isort_loop (in_tok out_tok : Z) (rev_pre rest : list cand) : list cand :=
  match rest with
  | [] => rev rev_pre
  | key :: rest' => isort_loop in_tok out_tok (sift key in_tok out_tok rev_pre) rest'
  end.

(** The outer loop starts at index 1 with a prefix of one element. *)
Definition cand_sort (in_tok out_tok : Z) (eps : list cand) : list cand :=
  match eps with
  | [] => []
  | e :: eps' => isort_loop in_tok out_tok [e] eps'
  end.

(** ** Quality order *)

Definition quality_cmp (x y : llm_endpoint_t) : Z :=
  if negb (priority x =? priority y) then (if priority y <? priority x then -1 else 1)
  else if negb (context_window x =? context_window y)
  then (if context_window y <? context_window x then -1 else 1)
  else 0.

Definition quality_le (a b : cand) : Prop := quality_cmp a.2 b.2 <= 0.

(** [qsort] returns a rearrangement in the order of the comparison. *)
Class QsortOk (qsort : list cand -> list cand) : Prop := {
  qsort_perm : forall l, qsort l ≡ₚ l;
  qsort_sorted : forall l, Sorted quality_le (qsort l)
}.

(** ** The strategies *)

Section strategy.
  Context `{AiryString}.
  Context (airy_token_standard_count : string -> option string -> Z).
  Context (qsort : list cand -> list cand).

Definition strategy_begin (ctx : router_ctx_t) (request : llm_route_request_t) (now : Z)
      : list cand :=
    router_get_eligible ctx request now LLM_ROUTER_MAX_ENDPOINTS.

Definition strategy_tokens (ctx : router_ctx_t) (req : llm_route_request_t) : Z * Z :=
    (router_estimate_tokens airy_token_standard_count ctx (prompt req) (prompt_len req),
     if 0 <? max_tokens req then max_tokens req else LLM_ROUTE_EST_OUTPUT_TOKENS).

Definition strategy_finish (result : llm_route_result_t) (best : cand) (fallback : option cand)
      (type score inp out : Z) : llm_route_result_t :=
    let result := router_fill_result result best.2 type score inp out in
    match fallback with
    | Some fb => if negb (fb.1 =? best.1)%nat then router_set_fallback result (Some fb.2)
                 else result
    | None => result
    end.

(** The state of the selection loop of [route_cost_aware]. *)
Record cost_acc := mkCost { best_idx : nat; fb_idx : nat; best_cost : double }.

Definition cost_skip (request : llm_route_request_t) (ep : llm_endpoint_t) (cost : double)
      : bool :=
    (dlt d_zero (max_cost request) && dlt (max_cost request) cost)
    || ((0 <? max_latency_ms request) && (max_latency_ms request <? avg_latency_ms ep)).

Fixpoint cost_loop (request : llm_route_request_t) (inp out : Z) (i : nat)
      (eligible : list cand) (a : cost_acc) : cost_acc :=
    match eligible with
    | [] => a
    | c :: rest =>
        let cost := router_estimate_cost c.2 inp out in
        let a' := if cost_skip request c.2 cost then a
                  else if dlt cost (best_cost a) then mkCost i (best_idx a) cost
                  else a in
        cost_loop request inp out (S i) rest a'
    end.

Definition route_cost_aware (ctx : router_ctx_t) (request : llm_route_request_t) (now : Z)
      (result : llm_route_result_t) : airy_rc * llm_route_result_t :=
    let eligible := strategy_begin ctx request now in
    match eligible with
    | [] => (AIRY_ERR_NOT_FOUND, result)
    | c0 :: _ =>
        let '(inp, out) := strategy_tokens ctx request in
        let a := cost_loop request inp out 0 eligible (mkCost 0 0 d_inf) in
        if deq (best_cost a) d_inf then (AIRY_ERR_NOT_FOUND, result)
        else
          let fb := if negb (fb_idx a =? best_idx a)%nat then eligible !! fb_idx a else None in
          (AIRY_SUCCESS,
           strategy_finish result (default c0 (eligible !! best_idx a)) fb LLM_ROUTE_COST 90
             inp out)
    end.

Definition route_round_robin (ctx : router_ctx_t) (request : llm_route_request_t) (now : Z)
      (result : llm_route_result_t) : airy_rc * llm_route_result_t * router_ctx_t :=
    let eligible := strategy_begin ctx request now in
    match eligible with
    | [] => (AIRY_ERR_NOT_FOUND, result, ctx)
    | c0 :: _ =>
        let count := Z.of_nat (length eligible) in
        let idx := round_robin_index ctx mod count in
        let ctx' := set_rr ctx (u64 (round_robin_index ctx + 1)) in
        let '(inp, out) := strategy_tokens ctx' request in
        let fb := if 1 <? count then eligible !! Z.to_nat ((idx + 1) mod count) else None in
        (AIRY_SUCCESS,
         strategy_finish result (default c0 (eligible !! Z.to_nat idx)) fb
           LLM_ROUTE_ROUND_ROBIN 70 inp out,
         ctx')
    end.

(** The state of the selection loop of [route_least_latency]. *)
Record lat_acc := mkLat { l_best_idx : nat; l_fb_idx : nat; l_best : Z; l_second : Z }.

Fixpoint lat_loop (i : nat) (eligible : list cand) (a : lat_acc) : lat_acc :=
    match eligible with
    | [] => a
    | c :: rest =>
        let latency := avg_latency_ms c.2 in
        let a' := if latency <? l_best a then mkLat i (l_best_idx a) latency (l_best a)
                  else if latency <? l_second a
                  then mkLat (l_best_idx a) i (l_best a) latency
                  else a in
        lat_loop (S i) rest a'
    end.

Definition route_least_latency (ctx : router_ctx_t) (request : llm_route_request_t) (now : Z)
      (result : llm_route_result_t) : airy_rc * llm_route_result_t :=
    let eligible := strategy_begin ctx request now in
    match eligible with
    | [] => (AIRY_ERR_NOT_FOUND, result)
    | c0 :: _ =>
        let a := lat_loop 0 eligible (mkLat 0 0 UINT32_MAX UINT32_MAX) in
        let '(inp, out) := strategy_tokens ctx request in
        (AIRY_SUCCESS,
         strategy_finish result (default c0 (eligible !! l_best_idx a)) (eligible !! l_fb_idx a)
           LLM_ROUTE_LATENCY 85 inp out)
    end.

Definition route_quality_first (ctx : router_ctx_t) (request : llm_route_request_t) (now : Z)
      (result : llm_route_result_t) : airy_rc * llm_route_result_t :=
    match qsort (strategy_begin ctx request now) with
    | [] => (AIRY_ERR_NOT_FOUND, result)
    | top :: rest =>
        let '(inp, out) := strategy_tokens ctx request in
        (AIRY_SUCCESS,
         strategy_finish result top (match rest with [] => None | s :: _ => Some s end)
           LLM_ROUTE_COMPLEXITY 95 inp out)
    end.

(** [llm_router_pick] after its argument checks: [out] is the caller's array,
    [max] its capacity; the slots past the returned count keep their content. *)
Fixpoint fill_out (l : list cand) (in_tok out_tok : Z) (out : list llm_route_result_t)
      : list llm_route_result_t :=
    match l, out with
    | c :: l', o :: out' =>
        router_fill_result o c.2 LLM_ROUTE_COST 100 in_tok out_tok
        :: fill_out l' in_tok out_tok out'
    | _, _ => out
    end.

Definition llm_router_pick (ctx : router_ctx_t) (request : option llm_route_request_t)
      (out : option (list llm_route_result_t)) (now : Z)
      : airy_rc * option (list llm_route_result_t) * nat :=
    match request, out with
    | Some req, Some out =>
        if (length out =? 0)%nat then (AIRY_ERR_INVALID_PARAM, Some out, 0%nat)
        else if negb (initialized ctx) then (AIRY_ERR_SYS_NOT_INIT, Some out, 0%nat)
        else
          let eps := router_get_eligible ctx req now LLM_ROUTER_MAX_ENDPOINTS in
          let in_tok := router_estimate_tokens airy_token_standard_count ctx (prompt req)
                          (prompt_len req) in
          let out_tok := if negb (max_tokens req =? 0) then max_tokens req
                         else LLM_ROUTE_EST_OUTPUT_TOKENS in
          let sorted := cand_sort in_tok out_tok eps in
          let n := (length eps `min` length out)%nat in
          (AIRY_SUCCESS, Some (fill_out (firstn n sorted) in_tok out_tok out), n)
    | _, _ => (AIRY_ERR_INVALID_PARAM, out, 0%nat)
    end.
End strategy.

(** ** Slots of the eligible list *)

Lemma eligible_scan_slots req now max i eps :
  Forall (fun c => (i <= c.1)%nat) (eligible_scan req now max i eps) /\
  NoDup (map fst (eligible_scan req now max i eps)) /\
  StronglySorted (fun a b => (a.1 < b.1)%nat) (eligible_scan req now max i eps).
Proof.
  revert max i. induction eps as [|ep eps IH]; intros [|m] i; simpl;
    try (repeat split; constructor).
  case_match.
  - destruct (IH m (S i)) as (H1 & H2 & H3). split; [|split].
    + constructor; [done|]. eapply Forall_impl; [exact H1|]. intros ? ?; simpl in *; lia.
    + constructor; [|done]. intros (c & Hc & Hin)%list_elem_of_fmap.
      rewrite Forall_forall in H1. specialize (H1 c Hin). simpl in *. lia.
    + constructor; [done|]. eapply Forall_impl; [exact H1|]. intros ? ?; simpl in *; lia.
  - destruct (IH (S m) (S i)) as (H1 & H2 & H3). split; [|done].
    eapply Forall_impl; [exact H1|]. intros ? ?; simpl in *; lia.
Qed.

Lemma begin_slot_ne ctx req now i j a b :
  strategy_begin ctx req now !! i = Some a -> strategy_begin ctx req now !! j = Some b ->
  i <> j -> a.1 <> b.1.
Proof.
  intros Ha Hb Hij Heq. apply Hij.
  destruct (eligible_scan_slots req now LLM_ROUTER_MAX_ENDPOINTS 0 (endpoints ctx)) as (_ & Hnd & _).
  eapply (NoDup_lookup _ i j a.1 Hnd).
  - apply list_lookup_fmap_Some. by exists a.
  - apply list_lookup_fmap_Some. by exists b.
Qed.

(** ** Cost-aware selection *)

Section cost.
  Context `{AS : AiryString}.
  Context (cnt : string -> option string -> Z) (req : llm_route_request_t) (inp out : Z).

Definition ccost (c : cand) : double := router_estimate_cost c.2 inp out.
Definition cadm (c : cand) : Prop := cost_skip req c.2 (ccost c) = false.

(** [best] is the first cheapest admissible candidate of [pre]. *)
Definition cheapest (pre : list cand) (i : nat) (c : cand) : Prop :=
    pre !! i = Some c /\ cadm c /\ dlt (ccost c) d_inf = true /\
    forall j c', pre !! j = Some c' -> cadm c' ->
      dlt (ccost c') (ccost c) = false /\
      ((j < i)%nat -> is_nan (ccost c') = false -> dlt (ccost c) (ccost c') = true).

Definition cost_inv (pre : list cand) (a : cost_acc) : Prop :=
    (best_cost a = d_inf /\ best_idx a = 0%nat /\ fb_idx a = 0%nat /\
     forall c, c ∈ pre -> cadm c -> dlt (ccost c) d_inf = false) \/
    (exists c, best_cost a = ccost c /\ cheapest pre (best_idx a) c).

Lemma cost_inv_skip pre a c :
    cost_inv pre a ->
    (cadm c -> dlt (ccost c) (best_cost a) = false) ->
    cost_inv (pre ++ [c]) a.
  Proof.
    intros [(Hb & H1 & H2 & Hall)|(b & Hb & Hl & Hadm & Hlt & Hmin)] Hc.
    - left. repeat split; try done. intros c' [Hin|Hin]%elem_of_app Ha; [by apply Hall|].
      apply list_elem_of_singleton in Hin as ->. rewrite <- Hb. by apply Hc.
    - right. exists b. split; [done|]. split; [by apply lookup_app_l_Some|]. split; [done|].
      split; [done|]. intros j c' Hj Ha. apply lookup_snoc_Some in Hj as [[Hj Hin]|[-> <-]].
      + by eapply Hmin.
      + split; [rewrite <- Hb; by apply Hc|]. intros Hlt'.
        apply lookup_lt_Some in Hl. lia.
  Qed.

Lemma cost_inv_take pre a c :
    cost_inv pre a -> cadm c -> dlt (ccost c) (best_cost a) = true ->
    cost_inv (pre ++ [c]) (mkCost (length pre) (best_idx a) (ccost c)).
  Proof.
    intros Hinv Hadm Hlt. right. exists c. split; [done|]. simpl.
    assert (dlt (ccost c) d_inf = true) as Hfin.
    { destruct Hinv as [(Hb & _)|(b & Hb & _ & _ & Hbi & _)]; [by rewrite <- Hb|].
      rewrite Hb in Hlt. by eapply dlt_trans. }
    split; [by apply list_lookup_middle|]. split; [done|]. split; [done|].
    intros j c' Hj Ha. apply lookup_snoc_Some in Hj as [[Hj Hin]|[-> <-]].
    2:{ split; [apply dlt_irrefl|lia]. }
    assert (dlt (ccost c') (best_cost a) = false) as Hge.
    { destruct Hinv as [(Hb & _ & _ & Hall)|(b & Hb & _ & _ & _ & Hmin)]; rewrite Hb.
      - apply Hall; [by eapply list_elem_of_lookup_2|done].
      - by eapply Hmin. }
    split.
    - destruct (dlt (ccost c') (ccost c)) eqn:E; [|done].
      by rewrite (dlt_trans _ _ _ E Hlt) in Hge.
    - intros _ Hnan. destruct (dlt_cotrans _ _ _ Hnan Hlt) as [|E]; [done|].
      by rewrite E in Hge.
  Qed.

Lemma cost_loop_inv rest pre a :
    cost_inv pre a -> cost_inv (pre ++ rest) (cost_loop req inp out (length pre) rest a).
  Proof.
    revert pre a. induction rest as [|c rest IH]; intros pre a Hinv; simpl.
    { by rewrite app_nil_r. }
    rewrite (cons_middle c pre rest), app_assoc.
    replace (S (length pre)) with (length (pre ++ [c])) by (rewrite length_app; simpl; lia).
    apply IH. change (router_estimate_cost c.2 inp out) with (ccost c).
    destruct (cost_skip req c.2 (ccost c)) eqn:Hs.
    - apply cost_inv_skip; [done|]. unfold cadm. by rewrite Hs.
    - destruct (dlt (ccost c) (best_cost a)) eqn:Hlt.
      + by apply cost_inv_take.
      + by apply cost_inv_skip.
  Qed.

Lemma cost_loop_result eligible :
    cost_inv eligible (cost_loop req inp out 0 eligible (mkCost 0 0 d_inf)).
  Proof.
    apply (cost_loop_inv eligible [] (mkCost 0 0 d_inf)). left. repeat split; try done.
    intros c Hc. by apply not_elem_of_nil in Hc.
  Qed.
End cost.

Lemma dlt_inf_deq x : dlt x d_inf = true -> deq x d_inf = false.
Proof. by destruct x as [[]|[]| |[] ? ?]. Qed.

(** The result of a strategy names endpoint [ep]. *)
Definition names_ep `{AiryString} (r : llm_route_result_t) (ep : llm_endpoint_t) : Prop :=
  r_provider_name r = AIRY_STRNCPY_TERM 64 (provider_name ep) /\
  r_model_name r = AIRY_STRNCPY_TERM 64 (model_name ep) /\
  r_endpoint r = AIRY_STRNCPY_TERM 256 (ep_endpoint ep).

Definition names_fallback `{AiryString} (r : llm_route_result_t) (ep : llm_endpoint_t) : Prop :=
  fallback_provider r = AIRY_STRNCPY_TERM 64 (provider_name ep) /\
  fallback_model r = AIRY_STRNCPY_TERM 64 (model_name ep).

Lemma finish_fields `{AiryString} r best fb type score inp out :
  let r' := strategy_finish r best fb type score inp out in
  names_ep r' best.2 /\ estimated_cost r' = router_estimate_cost best.2 inp out /\
  strategy_used r' = type /\ estimated_latency_ms r' = avg_latency_ms best.2.
Proof. unfold strategy_finish. destruct fb as [fb|]; [case_match|]; done. Qed.

Lemma finish_fallback `{AiryString} r best fb type score inp out :
  fb.1 <> best.1 -> names_fallback (strategy_finish r best (Some fb) type score inp out) fb.2.
Proof.
  intros Hne. unfold strategy_finish. rewrite (proj2 (Nat.eqb_neq _ _) Hne). done.
Qed.

Lemma finish_strategy `{AiryString} r best fb type score inp out :
  strategy_used (strategy_finish r best fb type score inp out) = type.
Proof. by destruct (finish_fields r best fb type score inp out) as (_ & _ & ? & _). Qed.

(** Cost-aware routing is optimal and complete.  On success the result
    names the first cheapest endpoint among the eligible ones that respect the
    request's budget and latency caps, with its estimated cost; a failure is
    AIRY_ERR_NOT_FOUND, leaves the result untouched and happens only when no
    eligible endpoint within the caps has a cost below infinity. *)
Theorem cost_aware_optimal `{AiryString} cnt ctx req now result :
  let eligible := strategy_begin ctx req now in
  let '(inp, out) := strategy_tokens cnt ctx req in
  let '(rc, r) := route_cost_aware cnt ctx req now result in
  (rc = AIRY_SUCCESS /\ exists i c, cheapest req inp out eligible i c /\ names_ep r c.2 /\
     estimated_cost r = ccost inp out c /\ strategy_used r = LLM_ROUTE_COST) \/
  (rc = AIRY_ERR_NOT_FOUND /\ r = result /\
     forall c, c ∈ eligible -> cadm req inp out c -> dlt (ccost inp out c) d_inf = false).
Proof.
  cbv zeta. destruct (strategy_tokens cnt ctx req) as [inp out] eqn:Ht.
  unfold route_cost_aware. rewrite Ht. set (el := strategy_begin ctx req now).
  pose proof (cost_loop_result req inp out el) as Hinv.
  clearbody el. destruct el as [|c0 el'].
  { right. split; [done|]. split; [done|]. intros c Hc. by apply not_elem_of_nil in Hc. }
  set (el := c0 :: el') in *. set (a := cost_loop _ _ _ _ _ _) in *.
  destruct Hinv as [(Hb & _ & _ & Hall)|(c & Hb & Hch)].
  - rewrite Hb. change (deq d_inf d_inf) with true. by right.
  - pose proof Hch as (Hl & _ & Hfin & _). rewrite Hb, dlt_inf_deq by done. left.
    split; [done|]. exists (best_idx a), c. rewrite Hl. split; [done|].
    by destruct (finish_fields result c
      (if negb (fb_idx a =? best_idx a)%nat then el !! fb_idx a else None)
      LLM_ROUTE_COST 90 inp out) as (? & ? & ? & _).
Qed.

(** ** Least latency *)

Definition lat (c : cand) : Z := avg_latency_ms c.2.

Record lat_inv (pre : list cand) (a : lat_acc) : Prop := {
  li_start : pre = [] -> a = mkLat 0 0 UINT32_MAX UINT32_MAX;
  li_best : pre <> [] -> exists b, pre !! l_best_idx a = Some b /\ lat b = l_best a;
  li_min : forall j c, pre !! j = Some c ->
    l_best a <= lat c /\ ((j < l_best_idx a)%nat -> l_best a < lat c);
  li_one : length pre = 1%nat -> l_second a = UINT32_MAX /\ l_best_idx a = 0%nat;
  li_second : (2 <= length pre)%nat ->
    exists f, pre !! l_fb_idx a = Some f /\ l_fb_idx a <> l_best_idx a /\
      lat f = l_second a /\
      forall j c, pre !! j = Some c -> j <> l_best_idx a -> l_second a <= lat c
}.

Lemma lat_inv_step pre c a :
  lat_inv pre a -> lat c < UINT32_MAX ->
  lat_inv (pre ++ [c])
    (if lat c <? l_best a then mkLat (length pre) (l_best_idx a) (lat c) (l_best a)
     else if lat c <? l_second a then mkLat (l_best_idx a) (length pre) (l_best a) (lat c)
     else a).
Proof.
  intros [Hst Hbest Hmin Hone Hsec] Hc.
  destruct (decide (pre = [])) as [->|Hne].
  { rewrite (Hst eq_refl). cbn [l_best l_second l_best_idx length app].
    rewrite (proj2 (Z.ltb_lt _ _) Hc). split; simpl; try done; try lia.
    - intros _. by exists c.
    - intros [|j] c'; simpl; [intros [= <-]; lia|done]. }
  destruct (Hbest Hne) as (b & Hb & Hbl).
  assert (length pre <> 0%nat) as Hlen by (by destruct pre).
  assert (l_best_idx a < length pre)%nat as Hbi by (by eapply lookup_lt_Some).
  destruct (Z.ltb_spec (lat c) (l_best a)) as [Hlt|Hge].
  { split; simpl; try (intros E; exfalso; revert E; rewrite ?length_app; simpl; try lia;
      by destruct pre).
    - intros _. exists c. split; [by apply list_lookup_middle|done].
    - intros j c' Hj. apply lookup_snoc_Some in Hj as [[Hj Hin]|[-> <-]].
      + destruct (Hmin _ _ Hin). lia.
      + lia.
    - intros _. exists b. split; [by apply lookup_app_l_Some|]. split; [lia|]. split; [done|].
      intros j c' Hj Hji. apply lookup_snoc_Some in Hj as [[Hj Hin]|[-> <-]]; [|done].
      by destruct (Hmin _ _ Hin). }
  assert (forall a', l_best_idx a' = l_best_idx a -> l_best a' = l_best a ->
    (exists b', (pre ++ [c]) !! l_best_idx a' = Some b' /\ lat b' = l_best a') /\
    (forall j c', (pre ++ [c]) !! j = Some c' ->
       l_best a' <= lat c' /\ ((j < l_best_idx a')%nat -> l_best a' < lat c'))) as Hkeep.
  { intros a' -> ->. split; [exists b; split; [by apply lookup_app_l_Some|done]|].
    intros j c' Hj. apply lookup_snoc_Some in Hj as [[Hj Hin]|[-> <-]]; [by apply Hmin|lia]. }
  destruct (Z.ltb_spec (lat c) (l_second a)) as [Hlt2|Hge2].
  - split; try (intros E; exfalso; revert E; rewrite ?length_app; simpl; try lia; by destruct pre).
    + intros _. by apply (Hkeep (mkLat (l_best_idx a) (length pre) (l_best a) (lat c))).
    + by apply (Hkeep (mkLat (l_best_idx a) (length pre) (l_best a) (lat c))).
    + intros _. exists c. simpl. split; [by apply list_lookup_middle|].
      split; [lia|]. split; [done|]. intros j c' Hj Hji.
      apply lookup_snoc_Some in Hj as [[Hj Hin]|[-> <-]]; [|lia].
      destruct (decide (length pre = 1)%nat) as [H1|H1].
      * destruct (Hone H1). lia.
      * destruct Hsec as (f & _ & _ & _ & Hsec); [lia|]. specialize (Hsec _ _ Hin Hji). lia.
  - assert (length pre <> 1)%nat as H1 by (intros H1; destruct (Hone H1); lia).
    split; try (intros E; exfalso; revert E; rewrite ?length_app; simpl; try lia; by destruct pre).
    + intros _. by apply (Hkeep a).
    + by apply (Hkeep a).
    + intros _. destruct Hsec as (f & Hf & Hfb & Hfl & Hsec); [lia|]. exists f.
      split; [by apply lookup_app_l_Some|]. split; [done|]. split; [done|].
      intros j c' Hj Hji. apply lookup_snoc_Some in Hj as [[Hj Hin]|[-> <-]]; [|lia].
      by eapply Hsec.
Qed.

Lemma lat_loop_inv rest pre a :
  lat_inv pre a -> Forall (fun c => lat c < UINT32_MAX) rest ->
  lat_inv (pre ++ rest) (lat_loop (length pre) rest a).
Proof.
  revert pre a. induction rest as [|c rest IH]; intros pre a Hinv HF; simpl.
  { by rewrite app_nil_r. }
  apply Forall_cons in HF as [Hc HF].
  rewrite (cons_middle c pre rest), app_assoc.
  replace (S (length pre)) with (length (pre ++ [c])) by (rewrite length_app; simpl; lia).
  apply IH; [|done]. by apply lat_inv_step.
Qed.

(** Least-latency routing picks the fastest endpoint.  With measured
    latencies (none at the 32-bit ceiling, the initial value of the search)
    it succeeds exactly when some endpoint is eligible; the result names the
    first endpoint of minimal average latency, and with at least two eligible
    endpoints the fallback is another slot whose latency is minimal among the
    rest. *)
Theorem least_latency_spec `{AiryString} cnt ctx req now result :
  let eligible := strategy_begin ctx req now in
  Forall (fun c => lat c < UINT32_MAX) eligible ->
  let '(rc, r) := route_least_latency cnt ctx req now result in
  (eligible = [] /\ rc = AIRY_ERR_NOT_FOUND /\ r = result) \/
  (rc = AIRY_SUCCESS /\ exists i b, eligible !! i = Some b /\ names_ep r b.2 /\
     (forall j c, eligible !! j = Some c -> lat b <= lat c /\ ((j < i)%nat -> lat b < lat c)) /\
     ((2 <= length eligible)%nat -> exists k f, eligible !! k = Some f /\ k <> i /\
        names_fallback r f.2 /\ forall j c, eligible !! j = Some c -> j <> i -> lat f <= lat c)).
Proof.
  simpl. unfold route_least_latency. set (el := strategy_begin ctx req now). intros HF.
  pose proof (lat_loop_inv el [] (mkLat 0 0 UINT32_MAX UINT32_MAX)) as Hinv.
  assert (lat_inv [] (mkLat 0 0 UINT32_MAX UINT32_MAX)) as H0 by (split; simpl; done || lia).
  specialize (Hinv H0 HF). simpl in Hinv.
  assert (forall i j a b, el !! i = Some a -> el !! j = Some b -> i <> j -> a.1 <> b.1) as Hslot
    by apply begin_slot_ne.
  clearbody el. destruct el as [|c0 el']; [by left|]. right. set (el := c0 :: el') in *.
  set (a := lat_loop _ _ _) in *. destruct (strategy_tokens cnt ctx req) as [inp out].
  split; [done|]. destruct Hinv as [_ Hbest Hmin _ Hsec].
  destruct Hbest as (b & Hb & Hbl); [done|].
  exists (l_best_idx a), b. rewrite Hb. split; [done|]. split; [by apply finish_fields|].
  split; [intros j c Hj; rewrite Hbl; by apply Hmin|].
  intros Hlen. destruct (Hsec Hlen) as (f & Hf & Hne & Hfl & Hs). exists (l_fb_idx a), f.
  split; [done|]. split; [done|]. rewrite Hf. split.
  - apply finish_fallback. by eapply Hslot.
  - intros j c Hj Hji. rewrite Hfl. by eapply Hs.
Qed.

(** ** Round robin *)

Lemma eligible_set_rr ctx v req now : strategy_begin (set_rr ctx v) req now = strategy_begin ctx req now.
Proof. done. Qed.

(** [n] consecutive round-robin requests at one clock value. *)
Fixpoint rr_run `{AiryString} (cnt : string -> option string -> Z) (n : nat) (ctx : router_ctx_t)
    (req : llm_route_request_t) (now : Z) (result : llm_route_result_t)
    : list (airy_rc * llm_route_result_t) :=
  match n with
  | O => []
  | S n' => let '(rc, r, ctx') := route_round_robin cnt ctx req now result in
            (rc, r) :: rr_run cnt n' ctx' req now result
  end.

(** The code and the chosen provider and model of an outcome. *)
Definition outcome_names (o : airy_rc * llm_route_result_t) : airy_rc * string * string :=
  (o.1, r_provider_name o.2, r_model_name o.2).

Definition chosen_names `{AiryString} (c : cand) : airy_rc * string * string :=
  (AIRY_SUCCESS, AIRY_STRNCPY_TERM 64 (provider_name c.2), AIRY_STRNCPY_TERM 64 (model_name c.2)).

Lemma rr_run_indices `{AiryString} cnt n ctx req now result c0 el :
  strategy_begin ctx req now = c0 :: el ->
  0 <= round_robin_index ctx -> round_robin_index ctx + Z.of_nat n <= UINT64_MAX + 1 ->
  map outcome_names (rr_run cnt n ctx req now result) =
  map (fun k => chosen_names (default c0 ((c0 :: el) !!
         Z.to_nat ((round_robin_index ctx + Z.of_nat k) mod Z.of_nat (length (c0 :: el))))))
      (seq 0 n).
Proof.
  revert ctx. induction n as [|n IH]; intros ctx Hel H0 Hb; [done|].
  cbn [rr_run]. unfold route_round_robin at 1. rewrite Hel.
  destruct (strategy_tokens _ _ _) as [inp out]. cbn [map seq]. f_equal.
  - unfold outcome_names. rewrite Z.add_0_r. cbn [fst snd].
    destruct (finish_fields result (default c0 ((c0 :: el) !!
       Z.to_nat (round_robin_index ctx mod Z.of_nat (length (c0 :: el)))))
       (if 1 <? Z.of_nat (length (c0 :: el)) then (c0 :: el) !!
          Z.to_nat ((round_robin_index ctx mod Z.of_nat (length (c0 :: el)) + 1)
             mod Z.of_nat (length (c0 :: el))) else None)
       LLM_ROUTE_ROUND_ROBIN 70 inp out) as ((Hp & Hm & _) & _). by rewrite Hp, Hm.
  - rewrite <- seq_shift, map_map. destruct n as [|n']; [done|].
    rewrite IH; unfold UINT64_MAX in *.
    + apply map_ext. intros k. unfold set_rr, u64. cbn [round_robin_index].
      rewrite (Z.mod_small (round_robin_index ctx + 1)) by lia.
      do 5 f_equal. lia.
    + by rewrite eligible_set_rr.
    + unfold set_rr, u64. cbn [round_robin_index]. rewrite Z.mod_small by lia. lia.
    + unfold set_rr, u64. cbn [round_robin_index]. rewrite Z.mod_small by lia. lia.
Qed.

(** A full turn of a cyclic counter visits every residue once. *)
Lemma rotation_perm (s : Z) (n : nat) :
  map (fun k => Z.to_nat ((s + Z.of_nat k) mod Z.of_nat n)) (seq 0 n) ≡ₚ seq 0 n.
Proof.
  destruct (decide (n = 0)%nat) as [->|Hn]; [done|].
  apply submseteq_length_Permutation; [|by rewrite length_map].
  apply NoDup_submseteq.
  - apply NoDup_fmap_2_strong; [|apply NoDup_seq].
    intros x y Hx%elem_of_seq Hy%elem_of_seq E.
    apply Z2Nat.inj in E; [|apply Z.mod_pos_bound; lia..].
    assert (Z.of_nat x = Z.of_nat y); [|lia].
    rewrite <- (Z.mod_small (Z.of_nat x) (Z.of_nat n)), <- (Z.mod_small (Z.of_nat y) (Z.of_nat n))
      by lia.
    assert ((Z.of_nat x - Z.of_nat y) mod Z.of_nat n = 0) as E'.
    { replace (Z.of_nat x - Z.of_nat y) with ((s + Z.of_nat x) - (s + Z.of_nat y)) by lia.
      rewrite Zminus_mod, E, Z.sub_diag. by apply Z.mod_0_l; lia. }
    replace (Z.of_nat x) with ((Z.of_nat x - Z.of_nat y) + Z.of_nat y) by lia.
    by rewrite Zplus_mod, E', Z.add_0_l, Z.mod_mod by lia.
  - intros i (k & -> & _)%list_elem_of_fmap. apply elem_of_seq.
    pose proof (Z.mod_pos_bound (s + Z.of_nat k) (Z.of_nat n)). lia.
Qed.

Lemma map_lookup_seq {A B} (f : A -> B) (d : A) (l : list A) :
  map (fun i => f (default d (l !! i))) (seq 0 (length l)) = map f l.
Proof.
  apply list_eq. intros i. rewrite !list_lookup_fmap.
  destruct (decide (i < length l)%nat) as [Hi|Hi].
  - rewrite lookup_seq_lt by done. simpl.
    destruct (lookup_lt_is_Some_2 l i Hi) as [x Hx]. by rewrite Hx.
  - rewrite (lookup_ge_None_2 l i) by lia. rewrite lookup_seq_ge by lia. done.
Qed.

(** Round robin is fair.  As many consecutive requests as there are
    eligible endpoints, at any position of the counter that does not wrap in
    between, all succeed and choose every eligible endpoint exactly once. *)
Theorem round_robin_fair `{AiryString} cnt ctx req now result :
  let eligible := strategy_begin ctx req now in
  let n := length eligible in
  0 <= round_robin_index ctx -> round_robin_index ctx + Z.of_nat n <= UINT64_MAX + 1 ->
  map outcome_names (rr_run cnt n ctx req now result) ≡ₚ map chosen_names eligible.
Proof.
  intros eligible n H0 Hb. subst n. subst eligible.
  destruct (strategy_begin ctx req now) as [|c0 el] eqn:Hel; [done|].
  rewrite (rr_run_indices _ _ _ _ _ _ c0 el Hel H0 Hb).
  rewrite <- (map_map (fun k => Z.to_nat ((round_robin_index ctx + Z.of_nat k)
                mod Z.of_nat (length (c0 :: el))))
             (fun i => chosen_names (default c0 ((c0 :: el) !! i)))).
  rewrite (rotation_perm (round_robin_index ctx) (length (c0 :: el))).
  by rewrite (map_lookup_seq chosen_names).
Qed.

(** ** Quality first *)

#[export] Instance quality_le_dec : RelDecision quality_le.
Proof. intros a b. unfold quality_le. apply _. Defined.

Lemma quality_le_spec a b :
  quality_le a b <-> priority b.2 < priority a.2 \/
    priority a.2 = priority b.2 /\ context_window b.2 <= context_window a.2.
Proof.
  unfold quality_le, quality_cmp. repeat case_match; bool_cases; lia.
Qed.

#[export] Instance quality_le_trans : Transitive quality_le.
Proof. intros a b c. rewrite !quality_le_spec. lia. Qed.

#[export] Instance quality_le_total : Total quality_le.
Proof. intros a b. rewrite !quality_le_spec. lia. Qed.

(** Quality-first routing.  Whatever [qsort] does with equal elements,
    the route fails only when nothing is eligible; otherwise it names an
    eligible endpoint that no eligible endpoint beats in priority, nor in
    context window at equal priority, and with two candidates or more the
    fallback is another slot that only the chosen one may beat. *)
Theorem quality_first_spec `{AiryString} qsort `{!QsortOk qsort} cnt ctx req now result :
  let eligible := strategy_begin ctx req now in
  let '(rc, r) := route_quality_first cnt qsort ctx req now result in
  (eligible = [] /\ rc = AIRY_ERR_NOT_FOUND /\ r = result) \/
  (rc = AIRY_SUCCESS /\ exists b, b ∈ eligible /\ names_ep r b.2 /\
     (forall c, c ∈ eligible -> quality_le b c) /\
     ((2 <= length eligible)%nat -> exists f, f ∈ eligible /\ f.1 <> b.1 /\
        names_fallback r f.2 /\ forall c, c ∈ eligible -> c <> b -> quality_le f c)).
Proof.
  cbv zeta. unfold route_quality_first. set (el := strategy_begin ctx req now).
  pose proof (qsort_perm el) as Hp. pose proof (qsort_sorted el) as Hs.
  apply Sorted_StronglySorted in Hs; [|apply quality_le_trans].
  assert (NoDup (map fst el)) as Hnd by apply eligible_scan_slots.
  rewrite <- Hp in Hnd. destruct (qsort el) as [|top rest].
  { left. by apply Permutation_nil_l in Hp. }
  right. destruct (strategy_tokens cnt ctx req) as [inp out]. split; [done|].
  apply StronglySorted_inv in Hs as [Hs Htop]. rewrite Forall_forall in Htop.
  exists top. split; [rewrite <- Hp; left|]. split; [by apply finish_fields|]. split.
  { intros c Hc. rewrite <- Hp in Hc. apply elem_of_cons in Hc as [->|Hc]; [|by apply Htop].
    apply quality_le_spec. lia. }
  intros Hlen. rewrite <- Hp in Hlen. destruct rest as [|f rest]; simpl in Hlen; [lia|].
  apply NoDup_cons in Hnd as [Hnd _]. apply StronglySorted_inv in Hs as [_ Hf].
  rewrite Forall_forall in Hf.
  assert (f.1 <> top.1) as Hne by (intros E; apply Hnd; rewrite <- E; left).
  exists f. split; [rewrite <- Hp; right; left|]. split; [done|].
  split; [by apply finish_fallback|]. intros c Hc Hct. rewrite <- Hp in Hc.
  apply elem_of_cons in Hc as [->|Hc]; [done|]. apply elem_of_cons in Hc as [->|Hc]; [|by apply Hf].
  apply quality_le_spec. lia.
Qed.

(** ** Candidate ranking *)

Section pick.
  Context (in_tok out_tok : Z).

Definition prec (a b : cand) : bool := cand_precedes a.2 b.2 in_tok out_tok.
Definition priced (c : cand) : Prop := is_nan (router_estimate_cost c.2 in_tok out_tok) = false.

(** The ranking order: the code's criterion, ties in registration order. *)
Definition ranked_before (a b : cand) : Prop :=
    prec a b = true \/ prec b a = false /\ (a.1 < b.1)%nat.

Lemma prec_asym a b : prec a b = true -> prec b a = false.
  Proof.
    unfold prec, cand_precedes. rewrite (Z.eqb_sym (priority b.2)).
    destruct (Z.eqb_spec (priority a.2) (priority b.2)); simpl; [apply dlt_asym|].
    intros. bool_cases. apply Z.ltb_ge. lia.
  Qed.

Lemma prec_cotrans a b c :
    priced b -> prec a c = true -> prec a b = true \/ prec b c = true.
  Proof.
    unfold prec, cand_precedes, priced. intros Hb.
    destruct (Z.eqb_spec (priority a.2) (priority c.2)); simpl;
    destruct (Z.eqb_spec (priority a.2) (priority b.2)); simpl;
    destruct (Z.eqb_spec (priority b.2) (priority c.2)); simpl; intros; bool_cases;
      rewrite ?Z.ltb_lt; try lia.
    by apply dlt_cotrans.
  Qed.

(** One insertion keeps the reversed prefix ranked. *)
Lemma sift_perm key l : sift key in_tok out_tok l ≡ₚ key :: l.
  Proof.
    induction l as [|y l IH]; simpl; [done|]. case_match; [|done].
    rewrite IH. constructor.
  Qed.

Lemma sift_ranked key l :
    StronglySorted (fun x y => ranked_before y x) l ->
    Forall priced l -> Forall (fun y => (y.1 < key.1)%nat) l ->
    StronglySorted (fun x y => ranked_before y x) (sift key in_tok out_tok l).
  Proof.
    induction l as [|y l IH]; intros Hs Hp Hk; simpl; [by repeat constructor|].
    apply StronglySorted_inv in Hs as [Hs Hy].
    apply Forall_cons in Hp as [Hpy Hp]. apply Forall_cons in Hk as [Hky Hk].
    destruct (cand_precedes key.2 y.2 in_tok out_tok) eqn:E.
    - constructor; [by apply IH|]. rewrite (sift_perm key l). constructor; [by left|done].
    - constructor; [by constructor|]. rewrite Forall_forall in Hy, Hk.
      constructor; [by right|]. apply Forall_forall. intros z Hz. right. split; [|by apply Hk].
      destruct (prec key z) eqn:Ez; [|done].
      destruct (prec_cotrans key y z Hpy Ez) as [E1|E1]; [unfold prec in E1; congruence|].
      destruct (Hy z Hz) as [E2|[E2 _]]; [|congruence].
      by rewrite (prec_asym _ _ E2) in E1.
  Qed.

Lemma isort_loop_ranked rest pre :
    StronglySorted (fun x y => ranked_before y x) pre ->
    Forall priced pre -> Forall priced rest ->
    StronglySorted (fun a b => (a.1 < b.1)%nat) rest ->
    Forall (fun y => Forall (fun k => (y.1 < k.1)%nat) rest) pre ->
    StronglySorted ranked_before (isort_loop in_tok out_tok pre rest) /\
    isort_loop in_tok out_tok pre rest ≡ₚ pre ++ rest.
  Proof.
    revert pre. induction rest as [|key rest IH]; intros pre Hs Hp Hpr Hr Hlt; simpl.
    - rewrite app_nil_r. split; [|by rewrite <- (Permutation_rev pre)].
      clear -Hs. induction Hs as [|x l Hl IHl Hx]; simpl; [constructor|].
      apply StronglySorted_app_2; [|done|by repeat constructor].
      intros a b Ha Hb%list_elem_of_singleton. subst.
      rewrite Forall_forall in Hx. apply Hx. by rewrite <- (Permutation_rev l) in Ha.
    - apply Forall_cons in Hpr as [Hkp Hpr]. apply StronglySorted_inv in Hr as [Hr Hkr].
      destruct (IH (sift key in_tok out_tok pre)) as [H1 H2]; try done.
      + apply sift_ranked; try done. eapply Forall_impl; [exact Hlt|].
        intros y Hy. by apply Forall_cons in Hy as [? _].
      + rewrite sift_perm. by constructor.
      + rewrite sift_perm. constructor; [done|]. eapply Forall_impl; [exact Hlt|].
        intros y Hy. by apply Forall_cons in Hy as [_ ?].
      + split; [done|]. rewrite H2, sift_perm. simpl. by rewrite Permutation_middle.
  Qed.

Lemma cand_sort_ranked eps :
    Forall priced eps -> StronglySorted (fun a b => (a.1 < b.1)%nat) eps ->
    StronglySorted ranked_before (cand_sort in_tok out_tok eps) /\
    cand_sort in_tok out_tok eps ≡ₚ eps.
  Proof.
    intros Hp Hs. destruct eps as [|e eps]; [by split; [constructor|]|].
    apply Forall_cons in Hp as [He Hp]. apply StronglySorted_inv in Hs as [Hs Hes].
    apply (isort_loop_ranked eps [e]); try done; by repeat constructor.
  Qed.
End pick.

Lemma fill_out_lookup `{AiryString} l inp outp out k c :
  (length l <= length out)%nat -> l !! k = Some c ->
  exists o, fill_out l inp outp out !! k = Some (router_fill_result o c.2 LLM_ROUTE_COST 100 inp outp).
Proof.
  revert out k. induction l as [|x l IH]; intros [|o out] [|k] Hl Hk; simpl in *; try done; try lia.
  - exists o. by simplify_eq.
  - apply IH; [lia|done].
Qed.

Lemma fill_out_rest `{AiryString} l inp outp out k :
  (length l <= k)%nat -> fill_out l inp outp out !! k = out !! k.
Proof.
  revert out k. induction l as [|x l IH]; intros [|o out] [|k] Hk; simpl in *; try done; try lia.
  apply IH. lia.
Qed.

(** [llm_router_pick] enumerates the eligible endpoints in rank order.
    With no NaN among the estimated costs, the call succeeds and writes the
    first [min n max] entries of the one ranking of the eligible endpoints:
    priority descending, then estimated cost ascending, then registration
    order; the slots of the caller's array beyond the count are untouched. *)
Theorem pick_ranked `{AiryString} cnt ctx req out now :
  let eligible := router_get_eligible ctx req now LLM_ROUTER_MAX_ENDPOINTS in
  let '(inp, outp) := strategy_tokens cnt ctx req in
  initialized ctx = true -> out <> [] -> 0 <= max_tokens req -> Forall (priced inp outp) eligible ->
  exists ranking out', ranking ≡ₚ eligible /\ StronglySorted (ranked_before inp outp) ranking /\
    llm_router_pick cnt ctx (Some req) (Some out) now
      = (AIRY_SUCCESS, Some out', (length eligible `min` length out)%nat) /\
    (forall k c, (k < length eligible `min` length out)%nat -> ranking !! k = Some c ->
       exists r, out' !! k = Some r /\ names_ep r c.2 /\ estimated_cost r = ccost inp outp c) /\
    (forall k, (length eligible `min` length out <= k)%nat -> out' !! k = out !! k).
Proof.
  cbv zeta. destruct (strategy_tokens cnt ctx req) as [inp outp] eqn:Ht.
  unfold strategy_tokens in Ht. injection Ht as Hin Hout. intros Hi Ho Hmt Hp.
  unfold llm_router_pick. rewrite Hi, Hin.
  assert ((if negb (max_tokens req =? 0) then max_tokens req else LLM_ROUTE_EST_OUTPUT_TOKENS)
          = outp) as ->.
  { rewrite <- Hout. repeat case_match; bool_cases; lia. }
  set (el := router_get_eligible _ _ _ _) in *.
  assert (StronglySorted (fun a b => (a.1 < b.1)%nat) el) as Hs by apply eligible_scan_slots.
  destruct (cand_sort_ranked inp outp el Hp Hs) as [H1 H2].
  set (l := cand_sort inp outp el) in *.
  set (n := (length el `min` length out)%nat).
  pose proof (Permutation_length H2) as Hll.
  assert (length (firstn n l) = n) as Hn by (rewrite length_take; unfold n, l, cand in *; lia).
  exists l, (fill_out (firstn n l) inp outp out). split; [done|]. split; [done|]. split; [|split].
  - destruct out; done.
  - intros k c Hk Hc. destruct (fill_out_lookup (firstn n l) inp outp out k c) as [o Hr].
    + rewrite Hn. lia.
    + by rewrite lookup_take_lt.
    + eexists. split; [exact Hr|]. by repeat split.
  - intros k Hk. apply fill_out_rest. by rewrite Hn.
Qed.

(** ** Deviations from the stated contract *)

(** The runner-up of cost-aware routing can violate the caps.  The header
    announces a runner-up fallback; the search starts with slot 0 as the
    previous best, so when slot 0 is skipped for exceeding the budget or the
    latency cap and the next endpoint is chosen, the fallback that is reported
    is the skipped slot 0. *)
Theorem cost_fallback_violates_caps `{AiryString} cnt ctx req now result c0 c1 :
  let '(inp, outp) := strategy_tokens cnt ctx req in
  strategy_begin ctx req now = [c0; c1] ->
  cost_skip req c0.2 (ccost inp outp c0) = true ->
  cost_skip req c1.2 (ccost inp outp c1) = false -> dlt (ccost inp outp c1) d_inf = true ->
  exists r, route_cost_aware cnt ctx req now result = (AIRY_SUCCESS, r) /\
    names_ep r c1.2 /\ names_fallback r c0.2.
Proof.
  destruct (strategy_tokens cnt ctx req) as [inp outp] eqn:Ht. intros Hel Hs0 Hs1 Hfin.
  assert (c0.1 <> c1.1) as Hne.
  { apply (begin_slot_ne ctx req now 0 1); rewrite ?Hel; done. }
  unfold route_cost_aware. rewrite Hel, Ht. unfold ccost in *. cbn [cost_loop best_cost].
  rewrite Hs0, Hs1. cbn [best_cost best_idx]. rewrite Hfin. cbn [best_cost].
  rewrite dlt_inf_deq by done. exists (strategy_finish result c1 (Some c0) LLM_ROUTE_COST 90 inp outp).
  split; [done|]. split; [by apply finish_fields|]. by apply finish_fallback.
Qed.

(** ** Concrete inputs *)

Definition ep_cost (p : string) (ci : Z) (lat prio : Z) : llm_endpoint_t :=
  mkEp p "m" "https://api" "KEY" 1 8192 (d_of_Z ci) (d_of_Z 0) lat true prio ep_zero.

Definition req_budget (budget : Z) (strat : Z) : llm_route_request_t :=
  mkReq None 4000 0 1000 (d_of_Z budget) 0 strat "".

Definition no_counter (s : string) (m : option string) : Z := 0.

Definition two_eps : router_ctx_t :=
  sample_ctx [ep_cost "dear" 50 100 1; ep_cost "cheap" 2 300 0].

Lemma least_latency_spec_witness :
  exists r, @route_least_latency bounded_copy no_counter two_eps (req_budget 10 2) 0 res_zero
    = (AIRY_SUCCESS, r) /\ r_provider_name r = "dear" /\ fallback_provider r = "cheap".
Proof.
  pose proof (@least_latency_spec bounded_copy no_counter two_eps (req_budget 10 2) 0 res_zero) as Hs.
  cbv zeta in Hs.
  destruct (route_least_latency _ _ _ _ _) as [rc r] eqn:E.
  destruct Hs as [(C & _)|(-> & i & b & _)].
  - repeat constructor.
  - vm_compute in C. discriminate C.
  - vm_compute in E. injection E as <-. eexists. repeat split; reflexivity.
Defined.

Lemma round_robin_fair_witness :
  map outcome_names (@rr_run bounded_copy no_counter 2 two_eps (req_budget 10 4) 0 res_zero)
    ≡ₚ [(AIRY_SUCCESS, "dear", "m"); (AIRY_SUCCESS, "cheap", "m")].
Proof.
  refine (@round_robin_fair bounded_copy no_counter two_eps (req_budget 10 4) 0 res_zero _ _).
  - vm_compute. discriminate.
  - vm_compute. discriminate.
Defined.

#[export] Instance merge_sort_qsort : QsortOk (merge_sort quality_le).
Proof.
  split; intros l.
  - apply merge_sort_Permutation.
  - apply StronglySorted_Sorted, (StronglySorted_merge_sort quality_le).
Qed.

Lemma quality_first_spec_witness :
  exists r, @route_quality_first bounded_copy no_counter (merge_sort quality_le) two_eps
    (req_budget 10 0) 0 res_zero = (AIRY_SUCCESS, r) /\ r_provider_name r = "dear".
Proof.
  pose proof (@quality_first_spec bounded_copy (merge_sort quality_le) merge_sort_qsort
    no_counter two_eps (req_budget 10 0) 0 res_zero) as Hs.
  cbv zeta in Hs.
  destruct (route_quality_first _ _ _ _ _ _) as [rc r] eqn:E.
  destruct Hs as [(C & _)|(-> & b & _)].
  - vm_compute in C. discriminate C.
  - vm_compute in E. injection E as <-. eexists. split; reflexivity.
Defined.

Lemma pick_ranked_witness :
  exists out', @llm_router_pick bounded_copy no_counter two_eps (Some (req_budget 10 1))
    (Some [res_zero; res_zero]) 0 = (AIRY_SUCCESS, Some out', 2%nat).
Proof.
  destruct (@pick_ranked bounded_copy no_counter two_eps (req_budget 10 1) [res_zero; res_zero] 0)
    as (l & out' & _ & _ & Hp & _).
  - reflexivity.
  - discriminate.
  - vm_compute. discriminate.
  - repeat constructor.
  - exists out'. exact Hp.
Defined.

Lemma cost_fallback_violates_caps_witness :
  exists r, @route_cost_aware bounded_copy no_counter two_eps (req_budget 10 1) 0 res_zero
      = (AIRY_SUCCESS, r) /\ r_provider_name r = "cheap" /\ fallback_provider r = "dear".
Proof.
  destruct (@cost_fallback_violates_caps bounded_copy no_counter two_eps (req_budget 10 1) 0
    res_zero (0%nat, ep_cost "dear" 50 100 1) (1%nat, ep_cost "cheap" 2 300 0))
    as (r & Hr & (Hp & _) & (Hf & _)); try (vm_compute; reflexivity).
  exists r. split; [exact Hr|]. split; [exact Hp|exact Hf].
Defined.

(** The first candidate of [llm_router_pick] need not be the choice of the
    cost strategy, although its contract says that they agree: the ranking
    puts priority before cost and ignores the request's caps. *)
Theorem pick_differs_from_cost :
  exists ctx req out' r,
    @llm_router_pick bounded_copy no_counter ctx (Some req) (Some [res_zero]) 0
      = (AIRY_SUCCESS, Some out', 1%nat) /\
    @route_cost_aware bounded_copy no_counter ctx req 0 res_zero = (AIRY_SUCCESS, r) /\
    (r_provider_name <$> head out') <> Some (r_provider_name r).
Proof.
  exists two_eps, (req_budget 100 1). eexists _, _.
  split; [vm_compute; reflexivity|]. split; [vm_compute; reflexivity|]. discriminate.
Qed.
