(* ===== verification/Router.v ===== *)
(** * Router

    The router of llm_d as a state machine: life cycle, registration, hot
    reload, dispatch and accounting (llm_d/src/router/core/llm_router.c) and
    the locked wrappers of the health model (llm_health.c).  Every exported
    operation is one transition of [router_op]; the invariant of the global
    context is proved for every sequence of transitions.  The state is the
    context and the content of the state file; every reading of the clock is
    an argument of its own. *)

From S2P Require Import Prelude Doubles Failover EpHealth RouterCtx RouterState RouterStrategy.

(** The fields of the commons' [llm_response_t] the measurement reads. *)
Record llm_response_t := mkResp {
  prompt_tokens : Z;
  cached_tokens : Z;
  t_prefill_tokens : Z;
  t_decode_tokens : Z;
  t_kv_cache_tokens : Z;
  t_prefill_ms : double;
  t_decode_ms : double
}.

Inductive llm_health_state_t := LLM_HEALTH_OK | LLM_HEALTH_DEGRADED | LLM_HEALTH_DOWN.

Record llm_health_snap_t := mkHealth {
  h_state : llm_health_state_t; h_total : Z; h_ok : Z; h_down : Z }.

Definition llm_health_name (s : llm_health_state_t) : string :=
  match s with LLM_HEALTH_OK => "ok" | LLM_HEALTH_DEGRADED => "degraded" | _ => "down" end.

Definition BPE_MODEL : string := "cl100k_base".

Section router.
  Context `{AS : AiryString} `{EM : ErrModel}.
  Context (cnt : string -> option string -> Z) (qsort : list cand -> list cand).

(** ** Life cycle *)

Definition llm_router_init (mutex_ok : bool) (env : rtr_env) (file : option string)
      (ctx : router_ctx_t) : airy_rc * router_ctx_t :=
    if initialized ctx then (AIRY_SUCCESS, ctx)
    else
      if negb mutex_ok
      then (AIRY_ERR_SYS_MUTEX, mkCtx [] LLM_ROUTE_COST stats_zero None false 0 [])
      else (AIRY_SUCCESS, router_state_load env file
              (mkCtx [] LLM_ROUTE_COST stats_zero (Some BPE_MODEL) true 0 [])).

Definition llm_router_destroy (env : rtr_env) (now : Z) (file : option string)
      (ctx : router_ctx_t) : router_ctx_t * option string :=
    if negb (initialized ctx) then (ctx, file)
    else let '(_, file') := rtr_state_save env ctx now file in (ctx_zero, file').

Definition llm_router_register_endpoint (ctx : router_ctx_t) (now : Z)
      (endpoint : option llm_endpoint_t) : airy_rc * router_ctx_t :=
    match endpoint with
    | None => (AIRY_ERR_INVALID_PARAM, ctx)
    | Some e =>
        if (LLM_ROUTER_MAX_ENDPOINTS <=? length (endpoints ctx))%nat
        then (AIRY_ERR_OVERFLOW, ctx)
        else let '(slot, ctx') := rtr_ep_restore ctx now (set_health e ep_zero) in
             (AIRY_SUCCESS, set_endpoints ctx' (endpoints ctx' ++ [slot]))
    end.

Definition llm_rtr_reset_eps (ctx : router_ctx_t) (now : Z) : airy_rc * router_ctx_t :=
    if negb (initialized ctx) then (AIRY_ERR_SYS_NOT_INIT, ctx)
    else (AIRY_SUCCESS, set_rr (set_endpoints (rtr_state_capture ctx now) []) 0).

(** ** Routing *)

Definition incr_fallback (s : llm_router_stats_t) : llm_router_stats_t :=
    mkStats (total_requests s) (routed_count s) (u64 (fallback_count s + 1)) (error_count s)
      (total_cost s) (total_tokens s) (lat_samples s) (lat_total_ms s) (prompt_tokens_sum s)
      (cached_tokens_sum s) (meas_samples s) (prefill_tokens s) (decode_tokens s)
      (kv_cache_tokens s) (prefill_ms s) (decode_ms s).

(** [clock k] is the clock reading of the [k]-th strategy that is tried. *)
Definition route_dispatch (ctx : router_ctx_t) (request : llm_route_request_t)
      (result : llm_route_result_t) (strat : Z) (clock : nat -> Z)
      : airy_rc * llm_route_result_t * string * router_ctx_t :=
    if strat =? LLM_ROUTE_COST then
      let '(ret, r) := route_cost_aware cnt ctx request (clock 0%nat) result in
      if decide (ret = AIRY_SUCCESS) then (AIRY_SUCCESS, r, "COST_AWARE", ctx)
      else
        let ctx1 := set_stats ctx (incr_fallback (stats ctx)) in
        let '(ret', r', ctx2) := route_round_robin cnt ctx1 request (clock 1%nat) res_zero in
        (ret', r', if decide (ret' = AIRY_SUCCESS) then "COST_AWARE->ROUND_ROBIN"
                   else "COST_AWARE", ctx2)
    else if strat =? LLM_ROUTE_ROUND_ROBIN then
      let '(ret, r, ctx') := route_round_robin cnt ctx request (clock 0%nat) result in
      (ret, r, "ROUND_ROBIN", ctx')
    else if strat =? LLM_ROUTE_LATENCY then
      let '(ret, r) := route_least_latency cnt ctx request (clock 0%nat) result in
      (ret, r, "LEAST_LATENCY", ctx)
    else if strat =? LLM_ROUTE_COMPLEXITY then
      let '(ret, r) := route_quality_first cnt qsort ctx request (clock 0%nat) result in
      (ret, r, "QUALITY_FIRST", ctx)
    else if strat =? LLM_ROUTE_FALLBACK then
      let '(ret, r, ctx1) := route_round_robin cnt ctx request (clock 0%nat) result in
      if decide (ret = AIRY_SUCCESS) then (AIRY_SUCCESS, r, "FALLBACK", ctx1)
      else
        let '(ret2, r2) := route_cost_aware cnt ctx1 request (clock 1%nat) r in
        if decide (ret2 = AIRY_SUCCESS) then (AIRY_SUCCESS, r2, "FALLBACK", ctx1)
        else let '(ret3, r3) := route_least_latency cnt ctx1 request (clock 2%nat) r2 in
             (ret3, r3, "FALLBACK", ctx1)
    else
      let '(ret, r) := route_cost_aware cnt ctx request (clock 0%nat) result in
      (ret, r, "DEFAULT->COST_AWARE", ctx).

Definition route_account (ctx : router_ctx_t) (request : llm_route_request_t)
      (result : llm_route_result_t) (strat : Z) (ret : airy_rc) : router_ctx_t :=
    let s := stats ctx in
    let total := u64 (total_requests s + 1) in
    if decide (ret = AIRY_SUCCESS) then
      let k := Z.to_nat strat in
      set_stats ctx
        (mkStats total (alter (fun v => u64 (v + 1)) k (routed_count s)) (fallback_count s)
           (error_count s) (dadd (total_cost s) (estimated_cost result))
           (match prompt request with
            | Some _ => u64 (total_tokens s + router_estimate_tokens cnt ctx (prompt request)
                               (prompt_len request))
            | None => total_tokens s
            end)
           (lat_samples s) (lat_total_ms s) (prompt_tokens_sum s) (cached_tokens_sum s)
           (meas_samples s) (prefill_tokens s) (decode_tokens s) (kv_cache_tokens s)
           (prefill_ms s) (decode_ms s))
    else
      set_stats ctx
        (mkStats total (routed_count s) (fallback_count s) (u64 (error_count s + 1))
           (total_cost s) (total_tokens s) (lat_samples s) (lat_total_ms s)
           (prompt_tokens_sum s) (cached_tokens_sum s) (meas_samples s) (prefill_tokens s)
           (decode_tokens s) (kv_cache_tokens s) (prefill_ms s) (decode_ms s)).

Definition llm_router_route (ctx : router_ctx_t) (request : option llm_route_request_t)
      (result : option llm_route_result_t) (clock : nat -> Z)
      : airy_rc * option llm_route_result_t * router_ctx_t :=
    match request, result with
    | Some req, Some _ =>
        if negb (initialized ctx) then (AIRY_ERR_SYS_NOT_INIT, result, ctx)
        else
          let strat := if LLM_ROUTE_COUNT <=? strategy req then default_strategy ctx
                       else strategy req in
          let '(ret, r, _, ctx1) := route_dispatch ctx req res_zero strat clock in
          (ret, Some r, route_account ctx1 req r strat ret)
    | _, _ => (AIRY_ERR_INVALID_PARAM, result, ctx)
    end.

(** ** Measurement *)

Definition ewma (avg lat_ms : Z) : Z := u32 (u64 (u64 (avg * 4) + lat_ms + 2) / 5).

Definition meas_stats (s : llm_router_stats_t) (fresh : bool) (resp : llm_response_t)
      (lat_ms : Z) : llm_router_stats_t :=
    let timed := fresh && (negb (t_prefill_tokens resp =? 0) || negb (t_decode_tokens resp =? 0)
                   || negb (t_kv_cache_tokens resp =? 0) || negb (deq (t_prefill_ms resp) d_zero)
                   || negb (deq (t_decode_ms resp) d_zero)) in
    let addu v d := if timed then u64 (v + d) else v in
    let addd v d := if timed then dadd v d else v in
    mkStats (total_requests s) (routed_count s) (fallback_count s) (error_count s)
      (total_cost s) (total_tokens s)
      (if fresh then u64 (lat_samples s + 1) else lat_samples s)
      (if fresh then u64 (lat_total_ms s + lat_ms) else lat_total_ms s)
      (u64 (prompt_tokens_sum s + prompt_tokens resp))
      (u64 (cached_tokens_sum s + cached_tokens resp))
      (addu (meas_samples s) 1) (addu (prefill_tokens s) (t_prefill_tokens resp))
      (addu (decode_tokens s) (t_decode_tokens resp))
      (addu (kv_cache_tokens s) (t_kv_cache_tokens resp))
      (addd (prefill_ms s) (t_prefill_ms resp)) (addd (decode_ms s) (t_decode_ms resp)).

Definition llm_rtr_meas (ctx : router_ctx_t) (provider model : option string)
      (resp : option llm_response_t) (lat_ms : Z) : airy_rc * router_ctx_t :=
    match resp with
    | None => (AIRY_ERR_INVALID_PARAM, ctx)
    | Some resp =>
        if negb (initialized ctx) then (AIRY_ERR_SYS_NOT_INIT, ctx)
        else
          match provider, model with
          | Some p, Some m =>
              let ctx1 := match router_ep_find ctx p m with
                          | Some k => set_endpoints ctx (alter (fun ep =>
                                        set_latency ep (ewma (avg_latency_ms ep) lat_ms)) k
                                        (endpoints ctx))
                          | None => ctx
                          end in
              (AIRY_SUCCESS, set_stats ctx1 (meas_stats (stats ctx1) true resp lat_ms))
          | _, _ => (AIRY_SUCCESS, set_stats ctx (meas_stats (stats ctx) false resp lat_ms))
          end
    end.

Definition llm_router_get_stats (ctx : router_ctx_t) (out : option llm_router_stats_t)
      : airy_rc * option llm_router_stats_t :=
    match out with
    | None => (AIRY_ERR_INVALID_PARAM, None)
    | Some _ => (AIRY_SUCCESS, Some (stats ctx))
    end.

(** ** Locked wrappers of the health model *)

Definition llm_rtr_admit (ctx : router_ctx_t) (provider model : option string) (now : Z)
      : bool * router_ctx_t :=
    match provider, model with
    | Some p, Some m =>
        if negb (initialized ctx) then (false, ctx)
        else match router_ep_find ctx p m with
             | None => (false, ctx)
             | Some k =>
                 match endpoints ctx !! k with
                 | None => (false, ctx)
                 | Some ep =>
                     let '(ok, h) := llm_ep_admit (health ep) now in
                     (ok, set_endpoints ctx (<[k := set_health ep h]> (endpoints ctx)))
                 end
             end
    | _, _ => (false, ctx)
    end.

Definition llm_rtr_known (ctx : router_ctx_t) (provider model : option string) : bool :=
    match provider, model with
    | Some p, Some m =>
        if negb (initialized ctx) then false else bool_decide (is_Some (router_ep_find ctx p m))
    | _, _ => false
    end.

(** [save_now] is the clock reading inside [rtr_state_save]. *)
Definition ep_note (env : rtr_env) (ctx : router_ctx_t) (file : option string)
      (provider model : option string) (err : Z) (ok : bool) (now save_now : Z)
      : airy_rc * router_ctx_t * option string :=
    match provider, model with
    | Some p, Some m =>
        if negb (initialized ctx) then (AIRY_ERR_SYS_NOT_INIT, ctx, file)
        else match k ← router_ep_find ctx p m; ep ← endpoints ctx !! k; Some (k, ep) with
             | None => (AIRY_ERR_NOT_FOUND, ctx, file)
             | Some (k, ep) =>
                 let '(h, changed) := ep_step (health ep) ok err now in
                 let ctx' := set_endpoints ctx (<[k := set_health ep h]> (endpoints ctx)) in
                 (AIRY_SUCCESS, ctx',
                  if changed then (rtr_state_save env ctx' save_now file).2 else file)
             end
    | _, _ => (AIRY_ERR_INVALID_PARAM, ctx, file)
    end.

Definition llm_rtr_fail env ctx file provider model err now save_now :=
    ep_note env ctx file provider model err false now save_now.

Definition llm_rtr_ok env ctx file provider model now save_now :=
    ep_note env ctx file provider model 0 true now save_now.

(** The loop of [llm_rtr_prov_note]: endpoints after it, hits, dirty flag. *)
Fixpoint prov_loop (provider : string) (ok : bool) (now : Z) (eps : list llm_endpoint_t)
      : list llm_endpoint_t * Z * bool :=
    match eps with
    | [] => ([], 0, false)
    | ep :: rest =>
        let '(rest', hit, dirty) := prov_loop provider ok now rest in
        if negb (strcmp_eq (provider_name ep) provider) then (ep :: rest', hit, dirty)
        else let '(h, ch) := ep_step (health ep) ok (err_code AIRY_ERR_IO) now in
             (set_health ep h :: rest', hit + 1, ch || dirty)
    end.

Definition llm_rtr_prov_note (env : rtr_env) (ctx : router_ctx_t) (file : option string)
      (provider : option string) (ok : bool) (now save_now : Z)
      : Z * router_ctx_t * option string :=
    match provider with
    | None => (0, ctx, file)
    | Some p =>
        if strcmp_eq p "" || negb (initialized ctx) then (0, ctx, file)
        else let '(eps, hit, dirty) := prov_loop p ok now (endpoints ctx) in
             let ctx' := set_endpoints ctx eps in
             (hit, ctx', if dirty then (rtr_state_save env ctx' save_now file).2 else file)
    end.

Fixpoint health_loop (now : Z) (eps : list llm_endpoint_t) (t o d : Z) : Z * Z * Z :=
    match eps with
    | [] => (t, o, d)
    | ep :: rest =>
        if negb (enabled ep) then health_loop now rest t o d
        else if bool_decide (llm_ep_state (health ep) now = LLM_EP_CLOSED)
        then health_loop now rest (t + 1) (o + 1) d
        else health_loop now rest (t + 1) o (d + 1)
    end.

Definition llm_rtr_health (ctx : router_ctx_t) (now : Z) : llm_health_snap_t :=
    if negb (initialized ctx) then mkHealth LLM_HEALTH_DOWN 0 0 0
    else
      let '(total, ok, down) := health_loop now (endpoints ctx) 0 0 0 in
      mkHealth (if (total =? 0) || (ok =? 0) then LLM_HEALTH_DOWN
                else if ok =? total then LLM_HEALTH_OK else LLM_HEALTH_DEGRADED)
               total ok down.
End router.

(** ** The state machine *)

Inductive router_op :=
| OpInit (mutex_ok : bool) (env : rtr_env)
| OpDestroy (env : rtr_env) (now : Z)
| OpRegister (now : Z) (ep : option llm_endpoint_t)
| OpReset (now : Z)
| OpRoute (req : option llm_route_request_t) (res : option llm_route_result_t) (clock : nat -> Z)
| OpMeas (provider model : option string) (resp : option llm_response_t) (lat_ms : Z)
| OpAdmit (provider model : option string) (now : Z)
| OpNote (env : rtr_env) (provider model : option string) (err : Z) (ok : bool) (now save_now : Z)
| OpProv (env : rtr_env) (provider : option string) (ok : bool) (now save_now : Z)
| OpFile (content : option string).

Definition router_state := (router_ctx_t * option string)%type.

(** [OpFile] is anyone else writing the state file. *)
Definition router_step `{AiryString} `{ErrModel} (cnt : string -> option string -> Z)
    (qsort : list cand -> list cand) (op : router_op) (st : router_state) : router_state :=
  let '(ctx, file) := st in
  match op with
  | OpInit m env => ((llm_router_init m env file ctx).2, file)
  | OpDestroy env now => llm_router_destroy env now file ctx
  | OpRegister now ep => ((llm_router_register_endpoint ctx now ep).2, file)
  | OpReset now => ((llm_rtr_reset_eps ctx now).2, file)
  | OpRoute req res clock => ((llm_router_route cnt qsort ctx req res clock).2, file)
  | OpMeas p m resp lat => ((llm_rtr_meas ctx p m resp lat).2, file)
  | OpAdmit p m now => ((llm_rtr_admit ctx p m now).2, file)
  | OpNote env p m err ok now sn =>
      let '(_, ctx', file') := ep_note env ctx file p m err ok now sn in (ctx', file')
  | OpProv env p ok now sn =>
      let '(_, ctx', file') := llm_rtr_prov_note env ctx file p ok now sn in (ctx', file')
  | OpFile c => (ctx, c)
  end.

(** Arguments within their C types. *)
Definition op_typed (op : router_op) : Prop :=
  match op with
  | OpInit _ _ | OpFile _ | OpMeas _ _ _ _ => True
  | OpDestroy _ now | OpRegister now _ | OpReset now | OpAdmit _ _ now => is_u32 now
  | OpRoute req _ _ => forall r, req = Some r -> 0 <= strategy r
  | OpNote _ _ _ _ _ now _ | OpProv _ _ _ now _ => is_u32 now
  end.

Record ep_typed (h : ep_sig_t) : Prop := {
  ty_consec : is_u32 (consec_fail h);
  ty_last : is_u32 (last_fail_ms h);
  ty_open : is_u32 (open_until_ms h);
  ty_probe : is_u32 (probe_until_ms h);
  ty_pf : is_u32 (probe_fail h);
  ty_level : is_u8 (open_level h)
}.

Definition snap_typed (s : router_ep_snap_t) : Prop :=
  is_u32 (s_consec_fail s) /\ is_u32 (s_probe_fail s) /\ is_u8 (s_open_level s).

Definition balanced (s : llm_router_stats_t) : Prop :=
  u64 (total_requests s) = u64 (zsum (routed_count s) + error_count s).

Record rtr_inv (ctx : router_ctx_t) : Prop := {
  ri_count : (length (endpoints ctx) <= LLM_ROUTER_MAX_ENDPOINTS)%nat;
  ri_restore : (length (restore ctx) <= LLM_ROUTER_MAX_ENDPOINTS)%nat;
  ri_rr : is_u64 (round_robin_index ctx);
  ri_default : 0 <= default_strategy ctx < LLM_ROUTE_COUNT;
  ri_routed : length (routed_count (stats ctx)) = 5%nat;
  ri_health : Forall (fun ep => ep_typed (health ep)) (endpoints ctx);
  ri_snaps : Forall snap_typed (restore ctx);
  ri_balance : balanced (stats ctx)
}.

(** *** Health fields keep their types *)

Lemma ep_zero_typed : ep_typed ep_zero.
Proof. split; simpl; ulia. Qed.

Lemma ep_open_typed h now : ep_typed h -> ep_typed (ep_open h now).
Proof.
  intros []. unfold ep_open. split; simpl; try done; try ulia.
Qed.

Lemma ep_count_typed h now : ep_typed h -> is_u32 now -> ep_typed (ep_count h now).
Proof.
  intros [] Hn. unfold ep_count. split; simpl; try done.
  unfold is_u32, UINT32_MAX in *. repeat case_match; bool_cases; lia.
Qed.

Lemma set_pf_typed h n : ep_typed h -> is_u32 n -> ep_typed (set_probe_fail h n).
Proof. intros [] ?. by split. Qed.

Lemma set_last_typed h n : ep_typed h -> is_u32 n -> ep_typed (set_last_fail h n).
Proof. intros [] ?. by split. Qed.

#[export] Hint Resolve ep_zero_typed ep_open_typed ep_count_typed set_pf_typed set_last_typed : daemon.

Lemma ep_fail_typed h r now : ep_typed h -> is_u32 now -> ep_typed (ep_fail_reason h r now).
Proof.
  intros Hh Hn. assert (is_u32 0) by (unfold is_u32, UINT32_MAX; lia).
  destruct (decide (r = LLM_FO_NONE)) as [->|Hr]; [done|].
  rewrite ep_fail_reason_cases by done.
  destruct (llm_ep_state h now); repeat case_match; eauto 6 with daemon.
Qed.

Lemma ep_admit_typed h now : ep_typed h -> ep_typed (llm_ep_admit h now).2.
Proof.
  intros Hh. unfold llm_ep_admit. destruct (llm_ep_state h now); try done.
  case_match; [done|]. destruct Hh. split; simpl; try done.
  case_match; [unfold is_u32, UINT32_MAX; lia | apply u32_range].
Qed.

Lemma ep_step_typed `{ErrModel} h ok err now :
  ep_typed h -> is_u32 now -> ep_typed (ep_step h ok err now).1.
Proof.
  intros. unfold ep_step. simpl. destruct ok; [apply ep_zero_typed|by apply ep_fail_typed].
Qed.

(** *** Snapshots keep their types *)

Lemma clip_u32 hi v : is_u32 hi -> is_u32 v -> is_u32 (clip hi v).
Proof. intros. unfold clip. by case_match. Qed.

Lemma field_u32_range s v : field_u32 s = Some v -> is_u32 v.
Proof.
  unfold field_u32. destruct s as [|c s]; [done|]. intros E.
  apply field_loop_spec in E as (Hd & Hv & Hle); [|unfold UINT32_MAX; lia].
  pose proof (dec_from_ge _ 0 Hd ltac:(lia)). unfold is_u32. lia.
Qed.

Lemma parse_line_typed `{AiryString} line s : parse_line line = Some s -> snap_typed s.
Proof.
  unfold parse_line. destruct (line_split line) as [f|]; simpl; [|done].
  case_match; [done|]. destruct (snap_num f) as [v|] eqn:Hv; simpl; [|done].
  case_match; [done|]. intros Hs.
  assert (Forall is_u32 v) as HF.
  { apply mapM_Some_1 in Hv. eapply Forall2_Forall_r; [exact Hv|].
    apply Forall_forall. intros x _ y. apply field_u32_range. }
  unfold snap_fill in Hs.
  destruct f as [|p [|m f]]; try done.
  destruct v as [|v0 [|v1 [|v2 [|v3 [|v4 [|v5 [|]]]]]]]; try done.
  repeat match goal with H : Forall _ (_ :: _) |- _ => apply Forall_cons in H as [? ?] end.
  simplify_eq. unfold snap_typed. simpl.
  split; [|split]; [apply clip_u32; [|done]; unfold is_u32, UINT32_MAX, LLM_EP_FAIL_MAX, LLM_EP_PROBE_MAX; lia..|].
  unfold clip, LLM_EP_MAX_LEVEL, is_u8, is_u32, UINT8_MAX in *. case_match; bool_cases; lia.
Qed.

Lemma load_loop_inv `{AiryString} fuel line acc :
  (length acc <= LLM_ROUTER_MAX_ENDPOINTS)%nat -> Forall snap_typed acc ->
  (length (load_loop fuel line acc) <= LLM_ROUTER_MAX_ENDPOINTS)%nat /\
  Forall snap_typed (load_loop fuel line acc).
Proof.
  revert line acc. induction fuel as [|fuel IH]; intros line acc Hl HF; simpl; [done|].
  case_match; [done|].
  assert (forall l, (length (state_parse l acc) <= LLM_ROUTER_MAX_ENDPOINTS)%nat /\
            Forall snap_typed (state_parse l acc)) as Hp.
  { intros l. unfold state_parse. destruct (parse_line l) as [s|] eqn:E; [|done].
    destruct (Nat.leb_spec LLM_ROUTER_MAX_ENDPOINTS (length acc)) as [El|El]; [done|]. rewrite length_app. simpl.
    split; [lia|]. apply Forall_app. split; [done|]. constructor; [|done].
    by eapply parse_line_typed. }
  destruct (cut_at NL line) as [l [rest|]]; [|apply Hp]. apply IH; apply Hp.
Qed.

Lemma snap_from_ep_typed `{AiryString} ep now :
  ep_typed (health ep) -> snap_typed (snap_from_ep ep now).
Proof. intros []. by repeat split; try apply ty_consec0; try apply ty_pf0; try apply ty_level0. Qed.

Lemma snap_health_typed s now : snap_typed s -> is_u32 now -> ep_typed (snap_health s now).
Proof.
  intros (H1 & H2 & H3) Hn. unfold snap_health. split; simpl; try done.
  - case_match; [unfold is_u32, UINT32_MAX; lia|apply u32_range].
  - repeat case_match; try apply u32_range; try done; unfold is_u32, UINT32_MAX; lia.
Qed.

(** *** The accounting balance *)

Lemma zsum_alter f k l v :
  l !! k = Some v -> zsum (alter f k l) = zsum l - v + f v.
Proof.
  revert k. induction l as [|x l IH]; intros [|k] H; try done.
  - injection H as ->. simpl. lia.
  - specialize (IH k H). unfold alter in *. simpl in *. lia.
Qed.

Lemma balanced_success s k t' l' :
  balanced s -> (k < length (routed_count s))%nat ->
  t' = u64 (total_requests s + 1) ->
  l' = alter (fun v => u64 (v + 1)) k (routed_count s) ->
  u64 t' = u64 (zsum l' + error_count s).
Proof.
  intros Hb Hk -> ->. destruct (lookup_lt_is_Some_2 _ _ Hk) as [v Hv].
  rewrite (zsum_alter _ _ _ _ Hv). unfold balanced in Hb. ulia.
Qed.

(** What [route_dispatch] leaves alone. *)
Record same_tables (ctx ctx' : router_ctx_t) : Prop := {
  st_eps : endpoints ctx' = endpoints ctx;
  st_restore : restore ctx' = restore ctx;
  st_default : default_strategy ctx' = default_strategy ctx;
  st_total : total_requests (stats ctx') = total_requests (stats ctx);
  st_routed : routed_count (stats ctx') = routed_count (stats ctx);
  st_error : error_count (stats ctx') = error_count (stats ctx);
  st_init : initialized ctx' = initialized ctx;
  st_rr : is_u64 (round_robin_index ctx) -> is_u64 (round_robin_index ctx')
}.

#[export] Instance same_tables_po : PreOrder same_tables.
Proof.
  split.
  - intros c. by split.
  - intros a b c [] []. split; try (by etrans). auto.
Qed.

Lemma round_robin_tables `{AiryString} cnt ctx req now res :
  same_tables ctx (route_round_robin cnt ctx req now res).2.
Proof.
  unfold route_round_robin. destruct (strategy_begin _ _ _); [by split|].
  destruct (strategy_tokens _ _ _). split; try done. intros _. apply u64_range.
Qed.

Lemma route_dispatch_tables `{AiryString} cnt qsort ctx req res strat clock :
  same_tables ctx (route_dispatch cnt qsort ctx req res strat clock).2.
Proof.
  unfold route_dispatch. repeat (case_match; simplify_eq/=; try done).
  all: try match goal with H : route_round_robin ?c ?x ?r ?n ?s = _ |- _ =>
    pose proof (round_robin_tables c x r n s) as Ht; rewrite H in Ht; simpl in Ht end.
  all: try done.
  all: etrans; [|exact Ht]; by split.
Qed.

(** *** The invariant *)

Lemma rtr_inv_zero : rtr_inv ctx_zero.
Proof. split; simpl; try done; unfold LLM_ROUTE_COUNT, is_u64, UINT64_MAX; lia. Qed.

Lemma rtr_inv_endpoints ctx eps :
  rtr_inv ctx -> length eps = length (endpoints ctx) ->
  Forall (fun ep => ep_typed (health ep)) eps -> rtr_inv (set_endpoints ctx eps).
Proof. intros [] Hl HF. split; simpl; try done. by rewrite Hl. Qed.

Lemma rtr_inv_stats ctx s :
  rtr_inv ctx -> length (routed_count s) = 5%nat -> balanced s -> rtr_inv (set_stats ctx s).
Proof. intros [] Hl HF. by split. Qed.

Lemma prov_loop_typed `{ErrModel} p ok now eps :
  is_u32 now -> Forall (fun ep => ep_typed (health ep)) eps ->
  length (prov_loop p ok now eps).1.1 = length eps /\
  Forall (fun ep => ep_typed (health ep)) (prov_loop p ok now eps).1.1.
Proof.
  intros Hn. induction 1 as [|ep eps Hep Hf IH]; simpl; [done|].
  destruct (prov_loop p ok now eps) as [[rest hit] dirty]. destruct IH as [IHl IHf]. simpl in *.
  case_match; simpl.
  - split; [lia|by constructor].
  - split; [lia|]. constructor; [|done]. simpl.
    by apply (ep_step_typed _ ok (err_code AIRY_ERR_IO)).
Qed.

Lemma register_inv ctx now ep :
  rtr_inv ctx -> is_u32 now -> rtr_inv (llm_router_register_endpoint ctx now ep).2.
Proof.
  intros Hinv Hn. destruct ep as [e|]; [|done]. unfold llm_router_register_endpoint.
  destruct (Nat.leb_spec LLM_ROUTER_MAX_ENDPOINTS (length (endpoints ctx))); [done|].
  destruct Hinv as [Hc Hr Hrr Hd Hro Hh Hs Hb]. unfold rtr_ep_restore.
  destruct (snap_find _ _ _ _) as [[i s]|] eqn:E; simpl.
  - apply snap_find_Some in E as (j & -> & Hj & _). simpl.
    pose proof (swap_remove_perm _ _ _ Hj) as Hp. rewrite Hp in Hs.
    apply Forall_cons in Hs as [Hs1 Hs2]. apply Permutation_length in Hp as Hpl. simpl in Hpl.
    split; simpl; try done; try lia.
    + rewrite length_app. simpl. lia.
    + apply Forall_app. split; [done|]. constructor; [|done]. by apply snap_health_typed.
  - split; simpl; try done.
    + rewrite length_app. simpl. lia.
    + apply Forall_app. split; [done|]. constructor; [apply ep_zero_typed|done].
Qed.

Lemma route_inv `{AiryString} cnt qsort ctx req res clock :
  rtr_inv ctx -> (forall r, req = Some r -> 0 <= strategy r) ->
  rtr_inv (llm_router_route cnt qsort ctx req res clock).2.
Proof.
  intros Hinv Hst. unfold llm_router_route. destruct req as [r|]; [|done].
  destruct res; [|done]. destruct (initialized ctx); [|done]. simpl.
  set (st := if LLM_ROUTE_COUNT <=? strategy r then default_strategy ctx else strategy r).
  assert (0 <= st < LLM_ROUTE_COUNT) as Hs.
  { subst st. destruct (Z.leb_spec LLM_ROUTE_COUNT (strategy r)); [apply Hinv|].
    specialize (Hst r eq_refl). lia. }
  pose proof (route_dispatch_tables cnt qsort ctx r res_zero st clock) as Ht.
  destruct (route_dispatch _ _ _ _ _ _ _) as [[[ret res'] nm] ctx1]. simpl in *.
  destruct Hinv as [Hc Hr Hrr Hd Hro Hh Hsn Hb]. destruct Ht as [He Hre Hde Hto Hrou Her _ Hrr1].
  unfold balanced in Hb. unfold LLM_ROUTE_COUNT in Hs.
  assert (u64 (total_requests (stats ctx1)) = u64 (zsum (routed_count (stats ctx1)) + error_count (stats ctx1)))
    as Hb1 by congruence.
  unfold route_account. destruct (decide (ret = AIRY_SUCCESS)).
  - split; simpl; rewrite ?He, ?Hre, ?Hde; auto.
    + rewrite length_alter. congruence.
    + unfold balanced. simpl.
      apply (balanced_success (stats ctx1) (Z.to_nat st)); [exact Hb1| |done|done].
      rewrite Hrou, Hro. lia.
  - split; simpl; rewrite ?He, ?Hre, ?Hde; auto.
    + congruence.
    + unfold balanced. simpl. ulia.
Qed.

Lemma init_inv `{AiryString} m env file ctx :
  rtr_inv ctx -> rtr_inv (llm_router_init m env file ctx).2.
Proof.
  intros Hinv. unfold llm_router_init. destruct (initialized ctx); [done|].
  assert (forall tm i l, (length l <= LLM_ROUTER_MAX_ENDPOINTS)%nat -> Forall snap_typed l ->
            rtr_inv (mkCtx [] LLM_ROUTE_COST stats_zero tm i 0 l)) as H0.
  { intros. split; simpl; try done; unfold LLM_ROUTE_COUNT, LLM_ROUTE_COST, is_u64, UINT64_MAX; lia. }
  destruct m; simpl; [|apply H0; simpl; [lia|done]].
  unfold router_state_load.
  destruct (state_path env), file as [buf|]; try (apply H0; simpl; [lia|done]).
  unfold set_restore. simpl.
  destruct (load_loop_inv (S (String.length buf)) buf []) as [Hl Hf]; simpl; try lia; try done.
  by apply H0.
Qed.

Lemma admit_inv ctx p m now : rtr_inv ctx -> rtr_inv (llm_rtr_admit ctx p m now).2.
Proof.
  intros Hinv. unfold llm_rtr_admit. destruct p as [p|], m as [m|]; try done.
  destruct (initialized ctx); [|done]. simpl.
  destruct (router_ep_find ctx p m) as [k|]; [|done].
  destruct (endpoints ctx !! k) as [ep|] eqn:Hep; [|done].
  destruct (llm_ep_admit (health ep) now) as [ok h] eqn:Hadm. simpl.
  apply rtr_inv_endpoints; [done|apply length_insert|].
  apply Forall_insert; [apply Hinv|]. simpl.
  pose proof (ri_health _ Hinv) as Hh. rewrite Forall_lookup in Hh.
  pose proof (ep_admit_typed (health ep) now (Hh _ _ Hep)) as Ha. by rewrite Hadm in Ha.
Qed.

Lemma note_inv `{AiryString} `{ErrModel} env ctx file p m err ok now sn :
  rtr_inv ctx -> is_u32 now -> rtr_inv (ep_note env ctx file p m err ok now sn).1.2.
Proof.
  intros Hinv Hn. unfold ep_note. destruct p as [p|], m as [m|]; try done.
  destruct (initialized ctx); [|done]. simpl.
  destruct (router_ep_find ctx p m) as [k|]; simpl; [|done].
  destruct (endpoints ctx !! k) as [ep|] eqn:Hep; simpl; [|done].
  apply rtr_inv_endpoints; [done|apply length_insert|].
  apply Forall_insert; [apply Hinv|]. simpl.
  pose proof (ri_health _ Hinv) as Hh. rewrite Forall_lookup in Hh.
  by apply (ep_step_typed (health ep) ok err now (Hh _ _ Hep)).
Qed.

Lemma meas_inv ctx p m resp lat_ms :
  rtr_inv ctx -> rtr_inv (llm_rtr_meas ctx p m resp lat_ms).2.
Proof.
  intros Hinv. unfold llm_rtr_meas. destruct resp as [resp|]; [|done].
  destruct (initialized ctx); [|done]. simpl.
  assert (forall c f, rtr_inv c -> rtr_inv (set_stats c (meas_stats (stats c) f resp lat_ms))) as Hm.
  { intros c f Hc. apply rtr_inv_stats; [done|apply Hc|apply Hc]. }
  destruct p as [p|], m as [m|]; try (by apply Hm).
  apply Hm. destruct (router_ep_find ctx p m) as [k|]; [|done].
  apply rtr_inv_endpoints; [done|by rewrite length_alter|].
  apply Forall_alter; [apply Hinv|]. by intros ep Hep.
Qed.

Lemma reset_inv `{AiryString} ctx now : rtr_inv ctx -> rtr_inv (llm_rtr_reset_eps ctx now).2.
Proof.
  intros Hinv. unfold llm_rtr_reset_eps. destruct (initialized ctx); [|done]. simpl.
  destruct Hinv as [Hc Hr Hrr Hd Hro Hh Hs Hb]. split; simpl; try done; try lia.
  - rewrite length_map. apply firstn_le_length.
  - apply Forall_map. apply Forall_take. eapply Forall_impl; [exact Hh|].
    intros ep. apply snap_from_ep_typed.
Qed.

(** C2.  The router invariant.  From the zeroed context, after any sequence of
    operations with arguments within their C types, and whatever anyone writes
    into the state file in between: the endpoint table and the restore table
    stay within their 64 slots, the strategy index stays within the five
    counters it selects, every health field fits its C type, and the request
    total equals the routed counts plus the errors (modulo 2^64). *)
Theorem router_reachable_inv `{AiryString} `{ErrModel} cnt qsort ops file :
  Forall op_typed ops ->
  rtr_inv (foldl (fun st op => router_step cnt qsort op st) (ctx_zero, file) ops).1.
Proof.
  assert (forall st op, rtr_inv st.1 -> op_typed op -> rtr_inv (router_step cnt qsort op st).1)
    as Hstep.
  { intros [ctx f] op Hinv Hop. simpl in Hinv. destruct op; simpl in *.
    - by apply init_inv.
    - unfold llm_router_destroy. destruct (initialized ctx); simpl; [|done].
      destruct (rtr_state_save env ctx now f). apply rtr_inv_zero.
    - by apply register_inv.
    - by apply reset_inv.
    - by apply route_inv.
    - by apply meas_inv.
    - by apply admit_inv.
    - pose proof (note_inv env ctx f provider model err ok now save_now Hinv Hop) as Hi.
      by destruct (ep_note _ _ _ _ _ _ _ _ _) as [[rc c] f'].
    - unfold llm_rtr_prov_note. destruct provider as [p|]; [|done].
      destruct (strcmp_eq p "" || negb (initialized ctx)); [done|].
      pose proof (prov_loop_typed p ok now (endpoints ctx) Hop (ri_health _ Hinv)) as [H1' H2'].
      destruct (prov_loop p ok now (endpoints ctx)) as [[eps hit] dirty]. simpl in *.
      by apply rtr_inv_endpoints.
    - done. }
  assert (forall st, rtr_inv st.1 -> Forall op_typed ops ->
    rtr_inv (foldl (fun st op => router_step cnt qsort op st) st ops).1) as Hrun.
  { induction ops as [|op ops IH]; intros st Hst HF; [done|].
    apply Forall_cons in HF as [Ho HF]. simpl. apply IH; [by apply Hstep|done]. }
  apply Hrun. apply rtr_inv_zero.
Qed.

(** ** Routing only uses eligible endpoints *)

Lemma eligible_elem ctx req now c :
  c ∈ strategy_begin ctx req now -> c.2 ∈ endpoints ctx /\ eligible_ep req now c.2 = true.
Proof.
  unfold strategy_begin, router_get_eligible. generalize LLM_ROUTER_MAX_ENDPOINTS, 0%nat.
  induction (endpoints ctx) as [|ep eps IH]; intros m i Hc; destruct m as [|m]; simpl in Hc;
    try (by apply not_elem_of_nil in Hc).
  case_match.
  - apply elem_of_cons in Hc as [->|Hc]; [by split; [left|]|].
    destruct (IH _ _ Hc). split; [by right|done].
  - destruct (IH _ _ Hc). split; [by right|done].
Qed.

Section chosen.
  Context `{AS : AiryString}.
  Context (cnt : string -> option string -> Z) (qsort : list cand -> list cand) `{!QsortOk qsort}.

(** The result names an endpoint eligible at [now]. *)
Definition chosen_from (eps : list llm_endpoint_t) (req : llm_route_request_t) (now : Z)
      (r : llm_route_result_t) : Prop :=
    exists ep, ep ∈ eps /\ eligible_ep req now ep = true /\ names_ep r ep.

Lemma finish_chosen ctx req now r best fb type score inp out :
    best ∈ strategy_begin ctx req now ->
    chosen_from (endpoints ctx) req now (strategy_finish r best fb type score inp out).
  Proof.
    intros Hb. apply eligible_elem in Hb as [Hb1 Hb2]. exists best.2.
    split; [done|]. split; [done|]. apply finish_fields.
  Qed.

Lemma default_elem {A} (x : A) (l : list A) i : default x ((x :: l) !! i) ∈ x :: l.
  Proof.
    destruct ((x :: l) !! i) as [y|] eqn:E; simpl; [by eapply list_elem_of_lookup_2|left].
  Qed.

Lemma cost_chosen ctx req now r r' :
    route_cost_aware cnt ctx req now r = (AIRY_SUCCESS, r') ->
    chosen_from (endpoints ctx) req now r'.
  Proof.
    unfold route_cost_aware. destruct (strategy_begin ctx req now) as [|c0 el] eqn:E; [done|].
    destruct (strategy_tokens cnt ctx req). case_match; [done|]. intros [= <-].
    apply finish_chosen. rewrite E. apply default_elem.
  Qed.

Lemma rr_chosen ctx req now r r' ctx' :
    route_round_robin cnt ctx req now r = (AIRY_SUCCESS, r', ctx') ->
    chosen_from (endpoints ctx) req now r'.
  Proof.
    unfold route_round_robin. destruct (strategy_begin ctx req now) as [|c0 el] eqn:E; [done|].
    destruct (strategy_tokens cnt _ req). intros [= <- _].
    apply finish_chosen. rewrite E. apply default_elem.
  Qed.

Lemma latency_chosen ctx req now r r' :
    route_least_latency cnt ctx req now r = (AIRY_SUCCESS, r') ->
    chosen_from (endpoints ctx) req now r'.
  Proof.
    unfold route_least_latency. destruct (strategy_begin ctx req now) as [|c0 el] eqn:E; [done|].
    destruct (strategy_tokens cnt ctx req). intros [= <-].
    apply finish_chosen. rewrite E. apply default_elem.
  Qed.

Lemma quality_chosen ctx req now r r' :
    route_quality_first cnt qsort ctx req now r = (AIRY_SUCCESS, r') ->
    chosen_from (endpoints ctx) req now r'.
  Proof.
    unfold route_quality_first. pose proof (qsort_perm (strategy_begin ctx req now)) as Hp.
    destruct (qsort _) as [|top rest]; [done|].
    destruct (strategy_tokens cnt ctx req). intros [= <-].
    apply finish_chosen. rewrite <- Hp. left.
  Qed.

Lemma dispatch_chosen ctx req res strat clock r nm ctx' :
    route_dispatch cnt qsort ctx req res strat clock = (AIRY_SUCCESS, r, nm, ctx') ->
    exists k, (k <= 2)%nat /\ chosen_from (endpoints ctx) req (clock k) r.
  Proof.
    unfold route_dispatch.
    assert (forall c req now res rc r c', route_round_robin cnt c req now res = (rc, r, c') ->
              endpoints c' = endpoints c) as Heps.
    { intros c rq n rs rc r0 c' E. pose proof (round_robin_tables cnt c rq n rs) as Ht.
      rewrite E in Ht. apply Ht. }
    repeat (case_match; simplify_eq/=); intros ?; simplify_eq/=;
      repeat match goal with
      | H : route_round_robin _ ?c _ _ _ = (_, _, ?c'), H2 : _ cnt ?c' _ _ _ = (AIRY_SUCCESS, _) |- _ =>
          rewrite <- (Heps _ _ _ _ _ _ _ H); clear H
      end;
      match goal with
      | H : context [clock ?k] |- _ => exists k; split; [lia|];
          first [by apply cost_chosen in H | by apply latency_chosen in H
                | by apply quality_chosen in H | by apply rr_chosen in H]
      end.
  Qed.
End chosen.

(** C3.  The router never routes to a tripped endpoint.  Whenever
    [llm_router_route] reports success, under any strategy and through any of
    its internal fallbacks, the result names a registered endpoint that is
    enabled, whose breaker is not open at one of the clock readings of the
    call, that has all the required capabilities and belongs to the preferred
    provider if one is given; the endpoint table itself is unchanged. *)
Theorem route_only_eligible `{AiryString} cnt qsort `{!QsortOk qsort} ctx req res clock r ctx' :
  llm_router_route cnt qsort ctx (Some req) (Some res) clock = (AIRY_SUCCESS, Some r, ctx') ->
  endpoints ctx' = endpoints ctx /\
  exists ep k, ep ∈ endpoints ctx /\ names_ep r ep /\ enabled ep = true /\
    llm_ep_state (health ep) (clock k) <> LLM_EP_OPEN /\
    Z.land (capabilities ep) (required_caps req) = required_caps req /\
    (preferred_provider req = "" \/ provider_name ep = preferred_provider req).
Proof.
  unfold llm_router_route. destruct (initialized ctx); [|done]. simpl.
  set (st := if LLM_ROUTE_COUNT <=? strategy req then default_strategy ctx else strategy req).
  destruct (route_dispatch _ _ _ _ _ _ _) as [[[ret r'] nm] ctx1] eqn:E. intros [= -> -> <-].
  pose proof (route_dispatch_tables cnt qsort ctx req res_zero st clock) as Ht. rewrite E in Ht.
  split.
  - unfold route_account. rewrite decide_True by done. apply Ht.
  - apply dispatch_chosen in E as (k & _ & ep & Hin & Hel & Hn); [|done].
    apply eligible_ep_spec in Hel as (H1 & H2 & H3 & H4). by exists ep, k.
Qed.

(** ** Hot reload *)

Section reload.
  Context `{AS : AiryString} `{ASO : !AiryStringOk}.

Definition ep_names (ep : llm_endpoint_t) : string * string := (provider_name ep, model_name ep).

(** An endpoint captured at [now] and restored at [now']. *)
Definition reloaded (now now' : Z) (ep : llm_endpoint_t) : llm_endpoint_t :=
    set_health ep (snap_health (snap_from_ep ep now) now').

Definition register_all (now' : Z) (ctx : router_ctx_t) (eps : list llm_endpoint_t)
      : router_ctx_t :=
    foldl (fun c e => (llm_router_register_endpoint c now' (Some e)).2) ctx eps.

Lemma snap_find_None i p m l :
    snap_find i p m l = None -> forall s, s ∈ l -> ~ (s_provider_name s = p /\ s_model_name s = m).
  Proof.
    revert i. induction l as [|x l IH]; intros i Hf s Hs [Hp Hm]; simpl in Hf.
    - by apply not_elem_of_nil in Hs.
    - apply elem_of_cons in Hs as [->|Hs]; [by rewrite Hp, Hm, !strcmp_eq_refl in Hf|].
      case_match; [|done]. by eapply IH.
  Qed.

(** Registering the next endpoint consumes its own snapshot. *)
Lemma register_reload ctx ep rest now now' :
    (length (endpoints ctx) < LLM_ROUTER_MAX_ENDPOINTS)%nat ->
    Forall ep_names_ok (ep :: rest) -> NoDup (map ep_names (ep :: rest)) ->
    restore ctx ≡ₚ map (fun e => snap_from_ep e now) (ep :: rest) ->
    let ctx' := (llm_router_register_endpoint ctx now' (Some ep)).2 in
    endpoints ctx' = endpoints ctx ++ [reloaded now now' ep] /\
    restore ctx' ≡ₚ map (fun e => snap_from_ep e now) rest /\ stats ctx' = stats ctx.
  Proof.
    intros Hlen Hok Hnd Hp. cbv zeta. unfold llm_router_register_endpoint.
    destruct (Nat.leb_spec LLM_ROUTER_MAX_ENDPOINTS (length (endpoints ctx))); [lia|].
    assert (forall e, ep_names_ok e -> s_provider_name (snap_from_ep e now) = provider_name e /\
              s_model_name (snap_from_ep e now) = model_name e) as Hnames.
    { intros e (Hpl & Hml & _). simpl. by rewrite !strncpy_term_short. }
    unfold rtr_ep_restore. cbn [set_health provider_name model_name].
    destruct (snap_find 0 _ _ (restore ctx)) as [[i s]|] eqn:E.
    - apply snap_find_Some in E as (j & -> & Hj & Hsp & Hsm). simpl.
      assert (s = snap_from_ep ep now) as ->.
      { apply list_elem_of_lookup_2 in Hj as Hin. rewrite Hp in Hin.
        apply list_elem_of_fmap in Hin as (e & -> & He).
        rewrite Forall_forall in Hok. destruct (Hnames e (Hok e He)) as [Hep Hem].
        apply elem_of_cons in He as [->|He]; [done|]. exfalso.
        apply NoDup_cons in Hnd as [Hnd _]. apply Hnd. apply list_elem_of_fmap.
        exists e. split; [|done]. unfold ep_names. congruence. }
      split; [reflexivity|]. split; [|done].
      apply (Permutation_cons_inv (a := snap_from_ep ep now)).
      by rewrite <- (swap_remove_perm j (restore ctx)).
    - exfalso. eapply (snap_find_None _ _ _ _ E (snap_from_ep ep now)).
      + rewrite Hp. left.
      + apply Hnames. by apply Forall_cons in Hok as [? _].
  Qed.

Lemma register_all_reload eps ctx now now' :
    (length (endpoints ctx) + length eps <= LLM_ROUTER_MAX_ENDPOINTS)%nat ->
    Forall ep_names_ok eps -> NoDup (map ep_names eps) ->
    restore ctx ≡ₚ map (fun e => snap_from_ep e now) eps ->
    endpoints (register_all now' ctx eps) = endpoints ctx ++ map (reloaded now now') eps /\
    restore (register_all now' ctx eps) = [] /\ stats (register_all now' ctx eps) = stats ctx.
  Proof.
    revert ctx. induction eps as [|ep eps IH]; intros ctx Hlen Hok Hnd Hp; cbn [register_all foldl].
    - simpl in *. rewrite app_nil_r. split; [done|]. split; [|done].
      by apply Permutation_nil_r in Hp.
    - cbn [length] in Hlen.
      destruct (register_reload ctx ep eps now now' ltac:(lia) Hok Hnd Hp) as (H1 & H2 & H3).
      apply Forall_cons in Hok as [_ Hok]. apply NoDup_cons in Hnd as [_ Hnd].
      destruct (IH _ ltac:(rewrite H1, length_app; cbn [length]; lia) Hok Hnd H2) as (H4 & H5 & H6).
      rewrite H1, <- app_assoc in H4. unfold register_all in *. rewrite H4, H5, H6. done.
  Qed.

(** The breaker phase of a reloaded endpoint, when its deadline avoids the
    reserved clock value. *)
Lemma reloaded_state now now' ep :
    ep_wf (health ep) -> is_u32 now' -> now' <> 0 ->
    (llm_ep_state (health ep) now = LLM_EP_OPEN ->
       u32 (now' + u32 (open_until_ms (health ep) - now)) <> 0) ->
    llm_ep_state (health (reloaded now now' ep)) now' = llm_ep_state (health ep) now.
  Proof.
    intros Hwf Hn Hz Hopen. simpl. apply snap_health_state; try done.
    - simpl. by destruct (llm_ep_state (health ep) now).
    - intros E. simpl. rewrite bool_decide_eq_true_2 by done. split; [|by apply Hopen].
      by apply open_remain_range.
  Qed.

(** A hot reload keeps the breakers.  Resetting an initialised router with
    pairwise distinct endpoints at [now] and registering the same endpoints
    again at [now'] rebuilds the table in order: the statistics survive, every
    snapshot is consumed, only health fields can change, and each endpoint
    keeps its breaker phase (its hold deadline is moved to the new clock) as
    long as neither [now'] nor the moved deadline is the reserved value 0. *)
Theorem reload_keeps_health ctx now now' :
    initialized ctx = true -> (length (endpoints ctx) <= LLM_ROUTER_MAX_ENDPOINTS)%nat ->
    Forall ep_names_ok (endpoints ctx) -> NoDup (map ep_names (endpoints ctx)) ->
    Forall (fun ep => ep_wf (health ep)) (endpoints ctx) -> is_u32 now' -> now' <> 0 ->
    let ctx' := register_all now' (llm_rtr_reset_eps ctx now).2 (endpoints ctx) in
    stats ctx' = stats ctx /\ restore ctx' = [] /\
    Forall2 (fun e e' => (exists h, e' = set_health e h) /\
      ((llm_ep_state (health e) now = LLM_EP_OPEN ->
          u32 (now' + u32 (open_until_ms (health e) - now)) <> 0) ->
       llm_ep_state (health e') now' = llm_ep_state (health e) now))
      (endpoints ctx) (endpoints ctx').
  Proof.
    intros Hi Hlen Hok Hnd Hwf Hn Hz. unfold llm_rtr_reset_eps. rewrite Hi. cbn [negb snd].
    set (c1 := set_rr _ _).
    destruct (register_all_reload (endpoints ctx) c1 now now') as (H1 & H2 & H3); try done.
    - unfold c1. simpl. by rewrite firstn_all2 by done.
    - rewrite H1, H2, H3. split; [done|]. split; [done|]. unfold c1. simpl.
      apply Forall2_fmap_r, Forall_Forall2_diag. eapply Forall_impl; [exact Hwf|].
      intros ep Hep. split; [by eexists|]. intros Hd. by apply reloaded_state.
  Qed.
End reload.

(** ** Aggregate health *)

Definition live (now : Z) (ep : llm_endpoint_t) : Prop :=
  enabled ep = true /\ llm_ep_state (health ep) now = LLM_EP_CLOSED.

#[export] Instance live_dec now ep : Decision (live now ep).
Proof. unfold live. apply _. Defined.

Definition count_of (P : llm_endpoint_t -> Prop) `{forall x, Decision (P x)}
    (eps : list llm_endpoint_t) : Z := Z.of_nat (length (filter P eps)).

Lemma count_cons P `{forall x, Decision (P x)} ep eps :
  count_of P (ep :: eps) = (if decide (P ep) then 1 else 0) + count_of P eps.
Proof. unfold count_of. rewrite filter_cons. case_decide; simpl; lia. Qed.

Lemma health_loop_spec now eps t o d :
  health_loop now eps t o d =
    (t + count_of (fun e => enabled e = true) eps, o + count_of (live now) eps,
     d + (count_of (fun e => enabled e = true) eps - count_of (live now) eps)).
Proof.
  revert t o d. induction eps as [|ep eps IH]; intros t o d; simpl.
  { unfold count_of. simpl. f_equal; [f_equal|]; lia. }
  rewrite !count_cons. destruct (decide (enabled ep = true)) as [He|He].
  - rewrite He. simpl. case_bool_decide as Hc; rewrite IH.
    + rewrite decide_True by done. f_equal; [f_equal|]; lia.
    + rewrite decide_False by (intros [_ ?]; done). f_equal; [f_equal|]; lia.
  - apply not_true_is_false in He as He'. rewrite He'. simpl.
    rewrite decide_False by (intros [? _]; done). by rewrite IH, !Z.add_0_l.
Qed.

Lemma count_live_le now eps : count_of (live now) eps <= count_of (fun e => enabled e = true) eps.
Proof.
  induction eps as [|e eps IH]; [done|]. rewrite !count_cons.
  destruct (decide (live now e)) as [[He _]|_]; [rewrite decide_True by done; lia|].
  case_decide; lia.
Qed.

Lemma count_pos P `{forall x, Decision (P x)} eps :
  0 < count_of P eps <-> exists ep, ep ∈ eps /\ P ep.
Proof.
  unfold count_of. split.
  - intros Hp. destruct (filter P eps) as [|ep l] eqn:E; simpl in Hp; [lia|].
    exists ep. assert (ep ∈ filter P eps) as Hin by (rewrite E; left).
    apply list_elem_of_filter in Hin. naive_solver.
  - intros (ep & Hin & HP).
    assert (ep ∈ filter P eps) as Hf by (by apply list_elem_of_filter).
    destruct (filter P eps); [by apply not_elem_of_nil in Hf|simpl; lia].
Qed.

Lemma count_live_all now eps :
  count_of (live now) eps = count_of (fun e => enabled e = true) eps <->
  forall ep, ep ∈ eps -> enabled ep = true -> llm_ep_state (health ep) now = LLM_EP_CLOSED.
Proof.
  induction eps as [|e eps IH].
  { split; [intros _ ep Hep; by apply not_elem_of_nil in Hep|done]. }
  pose proof (count_live_le now eps) as Hle. rewrite !count_cons.
  destruct (decide (enabled e = true)) as [He|He];
    [destruct (decide (llm_ep_state (health e) now = LLM_EP_CLOSED)) as [Hc|Hc]|].
  - rewrite decide_True by done. split.
    + intros Heq ep [->|Hin]%elem_of_cons Hen; [done|]. apply IH; [lia|done|done].
    + intros Hall. f_equal. apply IH. intros ep Hin. apply Hall. by right.
  - rewrite decide_False by (by intros [_ ?]). split; [lia|].
    intros Hall. destruct Hc. apply Hall; [left|done].
  - rewrite decide_False by (by intros [? _]). rewrite !Z.add_0_l, IH. split.
    + intros Hall ep [->|Hin]%elem_of_cons Hen; [done|]. by apply Hall.
    + intros Hall ep Hin. apply Hall. by right.
Qed.

(** The aggregate health verdict.  For an initialised router the verdict is
    "ok" exactly when some endpoint is enabled and every enabled endpoint is
    closed, "down" exactly when no enabled endpoint is closed, and otherwise
    "degraded"; the three counts are consistent. *)
Theorem rtr_health_spec ctx now :
  initialized ctx = true ->
  let s := llm_rtr_health ctx now in
  (h_state s = LLM_HEALTH_OK <->
     (exists ep, ep ∈ endpoints ctx /\ enabled ep = true) /\
     forall ep, ep ∈ endpoints ctx -> enabled ep = true -> live now ep) /\
  (h_state s = LLM_HEALTH_DOWN <-> forall ep, ep ∈ endpoints ctx -> ~ live now ep) /\
  h_total s = h_ok s + h_down s /\ 0 <= h_ok s <= h_total s.
Proof.
  intros Hi. unfold llm_rtr_health. rewrite Hi. simpl. rewrite health_loop_spec. rewrite !Z.add_0_l.
  set (t := count_of (fun e => enabled e = true) (endpoints ctx)).
  set (o := count_of (live now) (endpoints ctx)).
  pose proof (count_live_all now (endpoints ctx)) as Hall. fold t o in Hall.
  pose proof (count_pos (fun e => enabled e = true) (endpoints ctx)) as Ht. fold t in Ht.
  pose proof (count_pos (live now) (endpoints ctx)) as Ho. fold o in Ho.
  assert (0 <= t /\ 0 <= o) as [Ht0 Ho0] by (unfold t, o, count_of; lia).
  pose proof (count_live_le now (endpoints ctx)) as Hot. fold t o in Hot.
  simpl. split; [|split; [|lia]].
  - rewrite <- Ht.
    assert ((forall ep, ep ∈ endpoints ctx -> enabled ep = true -> live now ep) <-> o = t) as ->.
    { rewrite Hall. unfold live. naive_solver. }
    destruct (Z.eqb_spec t 0), (Z.eqb_spec o 0), (Z.eqb_spec o t); simpl; split; intros; try done; lia.
  - assert ((forall ep, ep ∈ endpoints ctx -> ~ live now ep) <-> o = 0) as ->.
    { split; [intros Hn; destruct (Z.eq_dec o 0); [done|]|intros E ep Hin Hl].
      - destruct Ho as [Ho _]. destruct Ho as (ep & Hin & Hl); [lia|]. by destruct (Hn ep Hin).
      - assert (0 < o) by (apply Ho; by exists ep). lia. }
    destruct (Z.eqb_spec t 0), (Z.eqb_spec o 0), (Z.eqb_spec o t); simpl; split; intros; try done; lia.
Qed.

(** ** Provider-wide notes *)

(** The effect of a provider-wide note on one endpoint. *)
Definition prov_effect `{ErrModel} (p : string) (ok : bool) (now : Z) (ep : llm_endpoint_t)
    : llm_endpoint_t :=
  if decide (provider_name ep = p)
  then set_health ep (ep_step (health ep) ok (err_code AIRY_ERR_IO) now).1 else ep.

Lemma ep_step_same `{ErrModel} ep ok err now :
  (ep_step (health ep) ok err now).2 = false ->
  set_health ep (ep_step (health ep) ok err now).1 = ep.
Proof.
  unfold ep_step, ep_sig_differs. cbn [fst snd].
  set (h' := if ok then _ else _). intros Hd. bool_cases.
  destruct ep as [? ? ? ? ? ? ? ? ? ? ? [? ? ? ? ? ?]], h'. unfold set_health. simpl in *. congruence.
Qed.

Lemma prov_loop_spec `{ErrModel} p ok now eps :
  let '(eps', hit, dirty) := prov_loop p ok now eps in
  eps' = map (prov_effect p ok now) eps /\
  hit = count_of (fun ep => provider_name ep = p) eps /\ (dirty = false -> eps' = eps).
Proof.
  induction eps as [|ep eps IH]; [done|]. cbn [prov_loop map].
  destruct (prov_loop p ok now eps) as [[rest hit] dirty]. destruct IH as (-> & -> & Hd).
  rewrite count_cons.
  assert (prov_effect p ok now ep = if decide (provider_name ep = p)
    then set_health ep (ep_step (health ep) ok (err_code AIRY_ERR_IO) now).1 else ep) as -> by done.
  pose proof (ep_step_same ep ok (err_code AIRY_ERR_IO) now) as Hsame.
  destruct (strcmp_eq (provider_name ep) p) eqn:E; bool_cases; cbn [negb].
  - destruct (ep_step (health ep) ok (err_code AIRY_ERR_IO) now) as [h ch].
    rewrite !decide_True by done. cbn [fst snd] in *. split; [done|]. split; [lia|].
    intros [Hd1 Hd2]%orb_false_iff. by rewrite Hd, Hsame.
  - rewrite !decide_False by done. split; [done|]. split; [lia|].
    intros Hf. by rewrite Hd.
Qed.

(** A provider-wide note reaches exactly the provider's endpoints.  The
    count returned is the number of endpoints of that provider; each of them
    takes the health step and every other endpoint is untouched; when no
    health field changes, neither the table nor the state file is written. *)
Theorem prov_note_spec `{AiryString} `{ErrModel} env ctx file p ok now sn :
  initialized ctx = true -> p <> "" ->
  let '(hit, ctx', file') := llm_rtr_prov_note env ctx file (Some p) ok now sn in
  hit = count_of (fun ep => provider_name ep = p) (endpoints ctx) /\
  endpoints ctx' = map (prov_effect p ok now) (endpoints ctx) /\
  (endpoints ctx' = endpoints ctx \/ file' = (rtr_state_save env ctx' sn file).2) /\
  (hit = 0 -> file' = file).
Proof.
  intros Hi Hp. unfold llm_rtr_prov_note. rewrite Hi.
  rewrite (proj2 (strcmp_eq_false p "") Hp). simpl.
  pose proof (prov_loop_spec p ok now (endpoints ctx)) as Hs.
  assert (count_of (fun ep => provider_name ep = p) (endpoints ctx) = 0 ->
          (prov_loop p ok now (endpoints ctx)).2 = false) as Hz.
  { clear Hs. induction (endpoints ctx) as [|e l IH]; [done|]. cbn [prov_loop].
    rewrite count_cons. destruct (prov_loop p ok now l) as [[rest hit] dirty].
    destruct (strcmp_eq (provider_name e) p) eqn:E; bool_cases; cbn [negb].
    - rewrite decide_True by done. unfold count_of. lia.
    - rewrite decide_False by done. by rewrite Z.add_0_l. }
  destruct (prov_loop p ok now (endpoints ctx)) as [[eps hit] dirty].
  destruct Hs as (He & Hh & Hd). simpl in *. split; [done|]. split; [done|]. split.
  - destruct dirty; [by right|left; by apply Hd].
  - intros ->. by rewrite Hz.
Qed.

(** ** Latency average *)

(** The latency average is a bounded moving average.  A measurement of a
    registered endpoint moves its average to (4 * old + sample) / 5, rounded to
    nearest, for any sample that fits 32 bits: the new value never overflows
    and lies between the old average and the sample. *)
Theorem meas_ewma ctx p m resp lat_ms k ep :
  initialized ctx = true -> router_ep_find ctx p m = Some k -> endpoints ctx !! k = Some ep ->
  is_u32 (avg_latency_ms ep) -> is_u32 lat_ms ->
  exists ep', endpoints (llm_rtr_meas ctx (Some p) (Some m) (Some resp) lat_ms).2 !! k = Some ep' /\
    (forall j, j <> k -> endpoints (llm_rtr_meas ctx (Some p) (Some m) (Some resp) lat_ms).2 !! j
                         = endpoints ctx !! j) /\
    avg_latency_ms ep' = (4 * avg_latency_ms ep + lat_ms + 2) / 5 /\
    Z.min (avg_latency_ms ep) lat_ms <= avg_latency_ms ep' <= Z.max (avg_latency_ms ep) lat_ms /\
    health ep' = health ep.
Proof.
  intros Hi Hf Hk Ha Hl. unfold llm_rtr_meas. rewrite Hi, Hf. simpl.
  exists (set_latency ep (ewma (avg_latency_ms ep) lat_ms)). simpl.
  rewrite list_lookup_alter_eq, Hk. split; [done|].
  split; [intros j Hj; by rewrite list_lookup_alter_ne|].
  assert (ewma (avg_latency_ms ep) lat_ms = (4 * avg_latency_ms ep + lat_ms + 2) / 5) as ->.
  { unfold ewma. unfold is_u32, UINT32_MAX in *. unfold u64.
    rewrite (Z.mod_small (avg_latency_ms ep * 4)) by lia. rewrite Z.mod_small by lia.
    rewrite (Z.mul_comm 4). apply u32_id. unfold is_u32, UINT32_MAX.
    Z.div_mod_to_equations; lia. }
  split; [done|]. split; [|done]. Z.div_mod_to_equations; lia.
Qed.

(** ** Concrete runs *)

Import SampleErr.

Definition sample_run : list router_op :=
  [ OpInit true sample_env;
    OpRegister 5 (Some (ep_cost "dear" 50 100 1)); OpRegister 6 (Some (ep_cost "cheap" 2 300 0));
    OpRoute (Some (req_budget 10 1)) (Some res_zero) (fun _ => 7);
    OpNote sample_env (Some "cheap") (Some "m") (-301) false 8 9;
    OpRoute (Some (req_budget 10 4)) (Some res_zero) (fun _ => 10) ].

Lemma router_reachable_inv_witness :
  let st := foldl (fun st op => @router_step bounded_copy sample_err no_counter
              (merge_sort quality_le) op st) (ctx_zero, None) sample_run in
  rtr_inv st.1 /\ total_requests (stats st.1) = 2 /\ is_Some st.2.
Proof.
  split.
  - refine (@router_reachable_inv bounded_copy sample_err no_counter (merge_sort quality_le)
      sample_run None _).
    repeat constructor; unfold UINT32_MAX; try lia; intros r [= <-]; vm_compute; discriminate.
  - split; [vm_compute; reflexivity|]. vm_compute. eexists. reflexivity.
Defined.

Lemma route_only_eligible_witness :
  exists r ctx', @llm_router_route bounded_copy no_counter (merge_sort quality_le) two_eps
      (Some (req_budget 10 1)) (Some res_zero) (fun _ => 7) = (AIRY_SUCCESS, Some r, ctx') /\
    endpoints ctx' = endpoints two_eps /\ exists ep, ep ∈ endpoints two_eps /\ enabled ep = true.
Proof.
  eexists _, _. split; [vm_compute; reflexivity|].
  destruct (@route_only_eligible bounded_copy no_counter (merge_sort quality_le) merge_sort_qsort
    two_eps (req_budget 10 1) res_zero (fun _ => 7) _ _ ltac:(vm_compute; reflexivity))
    as (He & ep & k & Hin & _ & Hen & _).
  split; [exact He|]. exists ep. split; [exact Hin|exact Hen].
Defined.

Lemma reload_keeps_health_witness :
  let ctx := sample_ctx [sample_ep "openai" "gpt" (mkSig 3 100 30100 0 0 1);
                         sample_ep "openai" "mini" ep_zero] in
  let ctx' := @register_all 9 (@llm_rtr_reset_eps bounded_copy ctx 200).2 (endpoints ctx) in
  exists e', endpoints ctx' !! 0%nat = Some e' /\ llm_ep_state (health e') 9 = LLM_EP_OPEN.
Proof.
  intros ctx ctx'.
  destruct (@reload_keeps_health bounded_copy bounded_copy_ok ctx 200 9) as (_ & _ & Hf).
  - reflexivity.
  - vm_compute. lia.
  - repeat constructor; simpl; lia.
  - apply (bool_decide_unpack _). reflexivity.
  - repeat constructor; simpl; try apply sample_open_wf; apply ep_zero_wf.
  - unfold is_u32, UINT32_MAX. lia.
  - lia.
  - fold ctx' in Hf. destruct (Forall2_lookup_l _ _ _ 0 _ Hf eq_refl) as (e' & He & _ & Hs).
    exists e'. split; [exact He|]. rewrite Hs by (intros _; vm_compute; discriminate). reflexivity.
Defined.

Lemma rtr_health_spec_witness :
  h_state (llm_rtr_health two_eps 3) = LLM_HEALTH_OK.
Proof.
  apply (rtr_health_spec two_eps 3 eq_refl). split.
  - exists (ep_cost "dear" 50 100 1). split; [left|reflexivity].
  - intros ep Hep _. apply elem_of_cons in Hep as [->|Hep]; [split; reflexivity|].
    apply list_elem_of_singleton in Hep as ->. split; reflexivity.
Defined.

Lemma prov_note_spec_witness :
  let '(hit, ctx', file') := @llm_rtr_prov_note bounded_copy sample_err sample_env two_eps None
    (Some "cheap") false 5 6 in
  hit = 1 /\ ctx' <> two_eps /\ is_Some file'.
Proof.
  pose proof (@prov_note_spec bounded_copy sample_err sample_env two_eps None "cheap" false 5 6
    eq_refl ltac:(discriminate)) as H.
  destruct (llm_rtr_prov_note _ _ _ _ _ _ _) as [[hit ctx'] file'] eqn:E.
  destruct H as (Hh & _). vm_compute in E. injection E as <- <- <-.
  split; [exact Hh|]. split; [discriminate|]. eexists. reflexivity.
Defined.

Lemma meas_ewma_witness :
  exists ep', endpoints (llm_rtr_meas two_eps (Some "cheap") (Some "m")
    (Some (mkResp 10 0 0 0 0 d_zero d_zero)) 100).2 !! 1%nat = Some ep' /\ avg_latency_ms ep' = 260.
Proof.
  destruct (meas_ewma two_eps "cheap" "m" (mkResp 10 0 0 0 0 d_zero d_zero) 100 1
    (ep_cost "cheap" 2 300 0)) as (ep' & H1 & _ & H2 & _);
    try reflexivity; try (unfold is_u32, UINT32_MAX; simpl; lia).
  exists ep'. split; [exact H1|]. rewrite H2. reflexivity.
Defined.
