(* ===== verification/Chain.v ===== *)
(** * Chain

    The call-level failover chain of llm_d (llm_d/src/rpc/service_chain.c) with
    the registry look-ups and the generation parameters it uses
    (providers/core/registry.c, adapter.c, rpc/service.c, service_request.c)
    and the routing section that configures it (rpc/service_route.c).

    The state of a run is the router context with its state file, the provider
    contexts (they hold the seat counters) and the rest of the world [W], from
    which the clock is read.  The real call is the closure [attempt]; it may
    change all of that state, since other requests run while it is in
    progress.  Out-parameters are results.  A run also reports its calls: the
    endpoint and the return code of every attempt, in order. *)

From stdpp Require Import relations.
From S2P Require Import Prelude Doubles Failover EpHealth RouterCtx RouterState RouterStrategy.
From S2P Require Import Router.

(** ** Data *)

Definition SVC_CHAIN_OFF : Z := 0.
Definition SVC_CHAIN_AUTO : Z := 1.
Definition SVC_CHAIN_DEF_DEPTH : Z := 2.
Definition SVC_CHAIN_MAX_TRIED : nat := 8.

Record llm_route_cfg_t := mkRouteCfg { mode : Z; depth : Z; on_mask : Z; budget_ms : Z }.

(** [tried] is the live prefix of the array, [tried_n] its length. *)
Record svc_chain_t := mkChain {
  cfg : llm_route_cfg_t;
  start_ms : Z;
  hops : Z;
  first_err : Z;
  tried : list (string * string)
}.

Definition tried_n (c : svc_chain_t) : nat := length (tried c).

(** The fields of [provider_base_ctx_t] the seat gate reads and writes. *)
Record provider_base_ctx_t := mkBase { props_state : Z; total_slots : Z; inflight : Z }.

(** [p_ctx] is a pointer: an index into the provider contexts.  The two tables
    are aligned with [models]. *)
Record provider_t := mkProv {
  p_name : option string;
  p_ctx : option nat;
  models : option (list string);
  model_max_output : option (list Z);
  model_max_concurrent : option (list Z)
}.

(** The fields of the commons' [llm_request_config_t] the chain sets. *)
Record llm_request_config_t := mkConfig { c_model : option string; c_max_tokens : Z }.

(** The fields of [struct llm_service] the chain reads.  A registry whose table
    was released has [providers] NULL. *)
Record llm_service_t := mkSvc {
  registry : option (list provider_t);
  default_model : string;
  default_max_output_tokens : Z;
  route : llm_route_cfg_t
}.

Record svc_step_t := mkStep { step_prov : provider_t; eff : llm_request_config_t }.

Record svc_hit_t := mkHit { hit_prov : provider_t; hit_model : string; hit_max_tokens : Z }.

(** ** Registry look-ups *)

(** The table ends at the first record without a name. *)
Fixpoint registry_scan (ps : list provider_t) (model : string) : option provider_t :=
  match ps with
  | [] => None
  | p :: ps' =>
      match p_name p with
      | None => None
      | Some _ =>
          match models p with
          | None => registry_scan ps' model
          | Some ms => if existsb (fun m => strcmp_eq m model) ms then Some p
                       else registry_scan ps' model
          end
      end
  end.

Definition provider_registry_find (reg : option (list provider_t)) (model : string)
    : option provider_t :=
  match reg with None => None | Some ps => registry_scan ps model end.

Definition svc_find_prov (svc : llm_service_t) (model : string) : option provider_t :=
  provider_registry_find (registry svc) model.

(** The value at the index of the first model with this name. *)
Fixpoint table_scan (ms : list string) (vals : list Z) (model : string) : Z :=
  match ms, vals with
  | m :: ms', v :: vals' => if strcmp_eq m model then v else table_scan ms' vals' model
  | _, _ => 0
  end.

Definition provider_registry_model_max_output (prov : provider_t) (model : string) : Z :=
  match models prov, model_max_output prov with
  | Some ms, Some vals => table_scan ms vals model
  | _, _ => 0
  end.

Definition prov_max_conc (prov : provider_t) (model : string) : Z :=
  match models prov, model_max_concurrent prov with
  | Some ms, Some vals => table_scan ms vals model
  | _, _ => 0
  end.

(** ** Chain bookkeeping *)

Definition svc_chain_def : llm_route_cfg_t :=
  mkRouteCfg SVC_CHAIN_OFF SVC_CHAIN_DEF_DEPTH LLM_FO_ON_DEFAULT 0.

Definition svc_chain_ctx (svc : option llm_service_t) : llm_route_cfg_t :=
  match svc with None => svc_chain_def | Some s => route s end.

Definition svc_chain_init (c : option llm_route_cfg_t) (now : Z) : svc_chain_t :=
  mkChain (default svc_chain_def c) now 0 0 [].

Definition svc_chain_left (chain : svc_chain_t) (now : Z) : bool :=
  if budget_ms (cfg chain) <=? 0 then true
  else u64 (now - start_ms chain) <? u64 (budget_ms (cfg chain)).

Definition svc_chain_auto (chain : svc_chain_t) : bool := mode (cfg chain) =? SVC_CHAIN_AUTO.

Definition chain_tried (chain : svc_chain_t) (prov model : string) : bool :=
  existsb (fun ep => strcmp_eq ep.1 prov && strcmp_eq ep.2 model) (tried chain).

Definition set_tried (c : svc_chain_t) (l : list (string * string)) : svc_chain_t :=
  mkChain (cfg c) (start_ms c) (hops c) (first_err c) l.

Definition set_first_err (c : svc_chain_t) (e : Z) : svc_chain_t :=
  mkChain (cfg c) (start_ms c) (hops c) e (tried c).

Definition incr_hops (c : svc_chain_t) : svc_chain_t :=
  mkChain (cfg c) (start_ms c) (hops c + 1) (first_err c) (tried c).

(** ** Output limit and model of one step *)

Section params.
  Context `{AS : AiryString}.

Definition svc_chain_mark (chain : svc_chain_t) (prov model : option string) : svc_chain_t :=
    match prov, model with
    | Some p, Some m =>
        if (SVC_CHAIN_MAX_TRIED <=? tried_n chain)%nat then chain
        else if chain_tried chain p m then chain
        else set_tried chain (tried chain ++ [(AIRY_STRNCPY_TERM 64 p, AIRY_STRNCPY_TERM 64 m)])
    | _, _ => chain
    end.

Definition resolve_gen_params (svc : llm_service_t) (prov : provider_t)
      (manager : llm_request_config_t) (model_size : nat) : string * Z :=
    let model := match c_model manager with
                 | Some m => if strcmp_eq m "" then default_model svc else m
                 | None => default_model svc
                 end in
    let limit0 := provider_registry_model_max_output prov model in
    let limit := if limit0 <=? 0 then default_max_output_tokens svc else limit0 in
    let want := c_max_tokens manager in
    let resolved := if (0 <? limit) && ((want <=? 0) || (limit <? want)) then limit else want in
    (AIRY_STRNCPY_TERM model_size model, if resolved <? 0 then 0 else resolved).

(** The step, the resolved model and the report of the endpoint. *)
Definition step_build (svc : llm_service_t) (prov : provider_t) (manager : llm_request_config_t)
      (cur_model : string) (msz : nat) : svc_step_t * string * svc_hit_t :=
    let eff0 := if strcmp_eq cur_model "" then manager
                else mkConfig (Some cur_model) (c_max_tokens manager) in
    let '(model, max_tok) := resolve_gen_params svc prov eff0 msz in
    (mkStep prov (mkConfig (Some model) max_tok), model,
     mkHit prov (AIRY_STRNCPY_TERM 128 model) max_tok).
End params.

(** ** The state of a run *)

Class ChainClock (W : Type) := chain_time_ms : W -> Z * W.

Record chain_st (W : Type) := mkSt {
  st_rtr : router_ctx_t;
  st_file : option string;
  st_base : list provider_base_ctx_t;
  st_world : W
}.
Arguments mkSt {W}.
Arguments st_rtr {W}.
Arguments st_file {W}.
Arguments st_base {W}.
Arguments st_world {W}.

(** One attempt of the run: provider name, resolved model, return code. *)
Definition call := (option string * string * Z)%type.

Definition CHAIN_OK : Z := 0.
Definition CHAIN_NEXT : Z := 1.
Definition CHAIN_STOP : Z := 2.

Section chain.
  Context {W : Type} `{CK : ChainClock W} `{AS : AiryString} `{EM : ErrModel}.
  Context (cnt : string -> option string -> Z) (env : rtr_env).

  Notation st := (chain_st W).

Definition set_rtr (s : st) (r : router_ctx_t) : st :=
    mkSt r (st_file s) (st_base s) (st_world s).

Definition set_base (s : st) (i : nat) (b : provider_base_ctx_t) : st :=
    mkSt (st_rtr s) (st_file s) (<[i := b]> (st_base s)) (st_world s).

Definition airy_time_ms (s : st) : Z * st :=
    let '(t, w) := chain_time_ms (st_world s) in (t, mkSt (st_rtr s) (st_file s) (st_base s) w).

(** The router reads the clock once it is known to be initialised. *)
Definition rtr_time (s : st) : Z * st :=
    if initialized (st_rtr s) then let '(t, s') := airy_time_ms s in (u32 t, s') else (0, s).

(** *** Seats *)

Definition provider_base_ctx (s : st) (prov : provider_t) : option (nat * provider_base_ctx_t) :=
    i ← p_ctx prov; b ← st_base s !! i; Some (i, b).

Definition gate_limit_of (b : provider_base_ctx_t) (conc : Z) : Z :=
    if props_state b =? 0 then 0
    else
      let sp := if 0 <? total_slots b then total_slots b else if 0 <? conc then conc else 1 in
      let mi := if 0 <? conc then conc else 1 in
      if mi <? sp then mi else sp.

Definition svc_gate_limit (s : st) (prov : provider_t) (model : string) : Z :=
    match provider_base_ctx s prov with
    | None => 0
    | Some (_, b) => gate_limit_of b (prov_max_conc prov model)
    end.

(** The loop of the source as one atomic transition: the load that sees the
    gate full, or the exchange that succeeds (see [seat_step]). *)
Definition svc_gate_acquire (s : st) (prov : provider_t) (model : string) : Z * st :=
    let limit := svc_gate_limit s prov model in
    if limit <=? 0 then (0, s)
    else match provider_base_ctx s prov with
         | None => (0, s)
         | Some (i, b) =>
             if limit <=? s32 (inflight b) then (-1, s)
             else (limit, set_base s i (mkBase (props_state b) (total_slots b)
                                          (u64 (inflight b + 1))))
         end.

Definition svc_gate_release (s : st) (prov : provider_t) : st :=
    match provider_base_ctx s prov with
    | None => s
    | Some (i, b) => set_base s i (mkBase (props_state b) (total_slots b) (u64 (inflight b - 1)))
    end.

(** *** Decisions *)

Definition svc_chain_retry (s : st) (chain : svc_chain_t) (err : Z) : bool * svc_chain_t * st :=
    let chain := if first_err chain =? 0 then set_first_err chain err else chain in
    if negb (svc_chain_auto chain) then (false, chain, s)
    else if negb (llm_fo_should err (on_mask (cfg chain))) then (false, chain, s)
    else if depth (cfg chain) <=? hops chain then (false, chain, s)
    else let '(now, s') := airy_time_ms s in (svc_chain_left chain now, chain, s').

(** The scan over the candidates of [svc_chain_next]. *)
Fixpoint next_scan (cands : list llm_route_result_t) (chain : svc_chain_t) (psz msz : nat)
      : option (string * string * svc_chain_t) :=
    match cands with
    | [] => None
    | c :: rest =>
        if chain_tried chain (r_provider_name c) (r_model_name c) then next_scan rest chain psz msz
        else Some (AIRY_STRNCPY_TERM psz (r_provider_name c), AIRY_STRNCPY_TERM msz (r_model_name c),
                   incr_hops (svc_chain_mark chain (Some (r_provider_name c))
                                (Some (r_model_name c))))
    end.

Definition svc_chain_next (s : st) (req : option llm_route_request_t) (chain : svc_chain_t)
      (psz msz : nat) : option (string * string * svc_chain_t) * st :=
    match req with
    | None => (None, s)
    | Some _ =>
        if (psz =? 0)%nat || (msz =? 0)%nat then (None, s)
        else if (SVC_CHAIN_MAX_TRIED <=? tried_n chain)%nat then (None, s)
        else
          let '(now, s1) := rtr_time s in
          match llm_router_pick cnt (st_rtr s1) req
                  (Some (repeat res_zero SVC_CHAIN_MAX_TRIED)) now with
          | (AIRY_SUCCESS, Some cand, n) => (next_scan (firstn n cand) chain psz msz, s1)
          | _ => (None, s1)
          end
    end.

Definition ep_gate (s : st) (prov : provider_t) (model : string) : bool * st :=
    match p_name prov with
    | None => (true, s)
    | Some name =>
        let '(now, s1) := rtr_time s in
        let '(ok, r) := llm_rtr_admit (st_rtr s1) (Some name) (Some model) now in
        let s2 := set_rtr s1 r in
        if ok then (true, s2)
        else (if llm_rtr_known (st_rtr s2) (Some name) (Some model) then false else true, s2)
    end.

(** Every round of the loop adds an entry to the bounded set, so the fuel of
    the callers is never used up ([next_prov_total]).  The result is the
    provider, the chain state and the content of the model buffer. *)
Fixpoint next_prov (fuel : nat) (svc : llm_service_t) (req : llm_route_request_t) (s : st)
      (chain : svc_chain_t) (cur_model : string) (msz : nat)
      : option (option provider_t * svc_chain_t * string * st) :=
    match fuel with
    | O => None
    | S fuel' =>
        match svc_chain_next s (Some req) chain 64 msz with
        | (None, s') => Some (None, chain, cur_model, s')
        | (Some (_, model, chain'), s') =>
            match svc_find_prov svc model with
            | Some hit => Some (Some hit, chain', model, s')
            | None => next_prov fuel' svc req s' chain' model msz
            end
        end
    end.

(** The verdict of the source: 0 go, 1 next candidate, -1 busy; then the seat
    that was taken, the chain state and the state. *)
Definition chain_gate (s : st) (chain : svc_chain_t) (prov : provider_t) (model : string)
      (auto_mode : bool) : Z * Z * svc_chain_t * st :=
    let chain1 := if auto_mode then svc_chain_mark chain (p_name prov) (Some model) else chain in
    let '(pass, s1) := if auto_mode then ep_gate s prov model else (true, s) in
    if negb pass then (1, 0, chain1, s1)
    else
      let '(gated, s2) := svc_gate_acquire s1 prov model in
      if gated <? 0 then (if auto_mode then 1 else -1, 0, chain1, s2)
      else (0, gated, chain1, s2).

(** *** One attempt *)

Definition attempt_fn := svc_step_t -> st -> Z * option llm_response_t * st.

(** [rtr_state_save] draws its own clock reading. *)
Definition rtr_note (s : st) (name : option string) (model : string) (err : Z) (ok : bool) : st :=
    let '(now, s1) := match name with Some _ => rtr_time s | None => (0, s) end in
    let '(save_now, s2) := rtr_time s1 in
    let '(_, r, f) := if ok then llm_rtr_ok env (st_rtr s2) (st_file s2) name (Some model) now save_now
                      else llm_rtr_fail env (st_rtr s2) (st_file s2) name (Some model) err now
                             save_now in
    mkSt r f (st_base s2) (st_world s2).

Definition attempt_run (s : st) (prov : provider_t) (model : string) (attempt : attempt_fn)
      (step : svc_step_t) (gated : Z) : Z * option llm_response_t * st :=
    let '(t0, s0) := airy_time_ms s in
    let '(ret, resp, s1) := attempt step s0 in
    let s2 := if 0 <? gated then svc_gate_release s1 prov else s1 in
    if ret =? 0 then
      let s3 := rtr_note s2 (p_name prov) model 0 true in
      let '(t1, s4) := airy_time_ms s3 in
      (0, resp, set_rtr s4 (llm_rtr_meas (st_rtr s4) (p_name prov) (Some model) resp
                              (u64 (t1 - t0))).2)
    else (ret, None, rtr_note s2 (p_name prov) model ret false).

(** *** The run *)

Record run_st := mkRun {
  rs_chain : svc_chain_t;
  rs_model : string;
  rs_hit : option svc_hit_t;
  rs_calls : list call;
  rs_st : st
}.

Record run_out := mkRunOut {
  ro_rc : Z;
  ro_resp : option llm_response_t;
  ro_hit : option svc_hit_t;
  ro_calls : list call;
  ro_st : st
}.

(** What the loop reads and does not change. *)
Record run_ctx := mkRunCtx {
  rc_svc : llm_service_t;
  rc_manager : llm_request_config_t;
  rc_req : llm_route_request_t;
  rc_attempt : attempt_fn;
  rc_sent : option (st -> bool)
}.

Definition chain_try (rc : run_ctx) (auto_mode : bool) (prov : provider_t) (l : run_st)
      : Z * option llm_response_t * run_st :=
    let '(step, model, hit) :=
      step_build (rc_svc rc) prov (rc_manager rc) (rs_model l) 128 in
    let '(gate, gated, chain1, s1) := chain_gate (rs_st l) (rs_chain l) prov model auto_mode in
    if negb (gate =? 0) then
      (if gate <? 0 then err_code AIRY_ERR_BUSY else CHAIN_NEXT, None,
       mkRun chain1 (rs_model l) (Some hit) (rs_calls l) s1)
    else
      let '(ret, resp, s2) := attempt_run s1 prov model (rc_attempt rc) step gated in
      let calls := rs_calls l ++ [(p_name prov, model, ret)] in
      if ret =? 0 then (CHAIN_OK, resp, mkRun chain1 (rs_model l) (Some hit) calls s2)
      else if negb auto_mode then (ret, None, mkRun chain1 (rs_model l) (Some hit) calls s2)
      else
        let '(again, chain2, s3) := svc_chain_retry s2 chain1 ret in
        let l' := mkRun chain2 (rs_model l) (Some hit) calls s3 in
        if negb again then (CHAIN_STOP, None, l')
        else (match rc_sent rc with
              | Some sent => if sent s3 then CHAIN_STOP else CHAIN_NEXT
              | None => CHAIN_NEXT
              end, None, l').

(** The return after the loop: the first error, if there was one. *)
Definition chain_end (l : run_st) : run_out :=
    mkRunOut (if negb (first_err (rs_chain l) =? 0) then first_err (rs_chain l)
              else err_code AIRY_ERR_LLM_INVALID_MODEL)
             None (rs_hit l) (rs_calls l) (rs_st l).

(** One round of the loop: a return, or the provider of the next round. *)
Definition chain_iter (rc : run_ctx) (auto_mode : bool) (prov : provider_t) (l : run_st)
      : option (run_out + provider_t * run_st) :=
    let '(code, resp, l1) := chain_try rc auto_mode prov l in
    if code =? CHAIN_OK then
      Some (inl (mkRunOut (err_code AIRY_SUCCESS) resp (rs_hit l1) (rs_calls l1) (rs_st l1)))
    else if code =? CHAIN_STOP then Some (inl (chain_end l1))
    else if negb (code =? CHAIN_NEXT) then
      Some (inl (mkRunOut code None (rs_hit l1) (rs_calls l1) (rs_st l1)))
    else
      match next_prov (S SVC_CHAIN_MAX_TRIED) (rc_svc rc) (rc_req rc) (rs_st l1) (rs_chain l1)
              (rs_model l1) 128 with
      | None => None
      | Some (q, chain', model', s') =>
          let l2 := mkRun chain' model' (rs_hit l1) (rs_calls l1) s' in
          match q with
          | Some p' => Some (inr (p', l2))
          | None => Some (inl (chain_end l2))
          end
      end.

Fixpoint chain_loop (fuel : nat) (rc : run_ctx) (auto_mode : bool) (prov : provider_t) (l : run_st)
      : option run_out :=
    match fuel with
    | O => None
    | S fuel' =>
        match chain_iter rc auto_mode prov l with
        | None => None
        | Some (inl o) => Some o
        | Some (inr (p', l')) => chain_loop fuel' rc auto_mode p' l'
        end
    end.

(** [want_out] is false when the caller passes no place for the response. *)
Definition svc_chain_run (svc : option llm_service_t) (manager : option llm_request_config_t)
      (req : option llm_route_request_t) (first : option provider_t)
      (attempt : option attempt_fn) (sent : option (st -> bool)) (want_out : bool) (s : st)
      : option run_out :=
    match svc, manager, req, first, attempt with
    | Some sv, Some mg, Some rq, Some fst_prov, Some att =>
        let '(now, s1) := airy_time_ms s in
        let chain := svc_chain_init (Some (svc_chain_ctx svc)) now in
        o ← chain_loop (S SVC_CHAIN_MAX_TRIED) (mkRunCtx sv mg rq att sent) (svc_chain_auto chain)
              fst_prov (mkRun chain "" None [] s1);
        Some (mkRunOut (ro_rc o) (if want_out then ro_resp o else None) (ro_hit o) (ro_calls o)
                (ro_st o))
    | _, _, _, _, _ =>
        Some (mkRunOut (err_code AIRY_ERR_INVALID_PARAM) None None [] s)
    end.
End chain.

#[global] Arguments svc_chain_mark : simpl never.
#[global] Arguments chain_tried : simpl never.
#[global] Arguments SVC_CHAIN_MAX_TRIED : simpl never.
#[global] Arguments svc_chain_next : simpl never.
#[global] Arguments svc_chain_retry : simpl never.
#[global] Arguments chain_gate : simpl never.
#[global] Arguments attempt_run : simpl never.
#[global] Arguments chain_try : simpl never.
#[global] Arguments chain_iter : simpl never.

Ltac nat_cases :=
  repeat match goal with
  | H : (_ <=? _)%nat = true |- _ => apply Nat.leb_le in H
  | H : (_ <=? _)%nat = false |- _ => apply Nat.leb_gt in H
  end.

(** ** Progress of the chain state

    [chain_le]: the configuration is constant, the set grows within its bound,
    hops are not taken back and the recorded error is kept. *)

Record chain_le (c c' : svc_chain_t) : Prop := {
  cl_cfg : cfg c' = cfg c;
  cl_tried : tried c `prefix_of` tried c';
  cl_max : (tried_n c <= SVC_CHAIN_MAX_TRIED -> tried_n c' <= SVC_CHAIN_MAX_TRIED)%nat;
  cl_hops : hops c <= hops c';
  cl_err : first_err c <> 0 -> first_err c' = first_err c
}.

#[export] Instance chain_le_preorder : PreOrder chain_le.
Proof.
  split; [split; auto; lia|]. intros a b c [] []. split; [congruence|by etrans|auto|lia|].
  intros Ha. rewrite <- cl_err0 by done. apply cl_err1. by rewrite cl_err0.
Qed.

Lemma chain_le_tried_n c c' : chain_le c c' -> (tried_n c <= tried_n c')%nat.
Proof. intros [_ Hp _ _ _]. by apply prefix_length. Qed.

Section progress.
  Context {W : Type} `{CK : ChainClock W} `{AS : AiryString} `{EM : ErrModel}.
  Context (cnt : string -> option string -> Z) (env : rtr_env).
  Notation st := (chain_st W).

  Implicit Types (s : st) (c : svc_chain_t).

Lemma mark_le c p m : chain_le c (svc_chain_mark c p m).
Proof.
  unfold svc_chain_mark. repeat case_match; try reflexivity.
  split; simpl; [done|by eexists| |lia|done].
  unfold tried_n. simpl. rewrite length_app. simpl. nat_cases. unfold tried_n in *. lia.
Qed.

Lemma mark_first_err c p m : first_err (svc_chain_mark c p m) = first_err c.
Proof. unfold svc_chain_mark. by repeat case_match. Qed.

Lemma mark_hops c p m : hops (svc_chain_mark c p m) = hops c.
Proof. unfold svc_chain_mark. by repeat case_match. Qed.

Lemma incr_hops_le c : chain_le c (incr_hops c).
Proof. split; simpl; auto; lia. Qed.

(** A candidate that is taken is new: the set grows by exactly one. *)
Lemma next_scan_some cands c psz msz p m c' :
  (tried_n c < SVC_CHAIN_MAX_TRIED)%nat -> next_scan cands c psz msz = Some (p, m, c') ->
  chain_le c c' /\ tried_n c' = S (tried_n c) /\ hops c' = hops c + 1 /\ first_err c' = first_err c.
Proof.
  intros Hn. induction cands as [|x cands IH]; simpl; [done|].
  destruct (chain_tried c _ _) eqn:E; [done|]. intros [= _ _ <-].
  split; [etrans; [apply mark_le|apply incr_hops_le]|].
  simpl. rewrite mark_hops, mark_first_err. split; [|done].
  unfold svc_chain_mark. rewrite E.
  case_match; nat_cases; [lia|]. unfold tried_n. simpl. rewrite length_app. simpl. lia.
Qed.

Lemma chain_next_some s req c psz msz p m c' s' :
  svc_chain_next cnt s req c psz msz = (Some (p, m, c'), s') ->
  (tried_n c < SVC_CHAIN_MAX_TRIED)%nat /\
  chain_le c c' /\ tried_n c' = S (tried_n c) /\ hops c' = hops c + 1 /\ first_err c' = first_err c.
Proof.
  unfold svc_chain_next. repeat case_match; try done. intros [= Hs _].
  assert (tried_n c < SVC_CHAIN_MAX_TRIED)%nat by (nat_cases; lia).
  split; [done|]. by eapply next_scan_some.
Qed.

(** The enumeration always ends, and a provider that it returns costs at least
    one place of the bounded set and one hop. *)
Lemma next_prov_total fuel svc req s c cur msz :
  (tried_n c <= SVC_CHAIN_MAX_TRIED)%nat -> (SVC_CHAIN_MAX_TRIED - tried_n c < fuel)%nat ->
  exists q c' m s', next_prov cnt fuel svc req s c cur msz = Some (q, c', m, s') /\
    chain_le c c' /\ first_err c' = first_err c /\
    (is_Some q -> (tried_n c < tried_n c')%nat /\ hops c + 1 <= hops c').
Proof.
  revert s c cur. induction fuel as [|fuel IH]; intros s c cur Hm Hf; [lia|]. simpl.
  destruct (svc_chain_next cnt s (Some req) c 64 msz) as [[[[p m] c1]|] s1] eqn:E.
  - apply chain_next_some in E as (Hlt & Hle & Hn & Hh & He).
    destruct (svc_find_prov svc m).
    + eexists _, _, _, _. split; [reflexivity|]. split; [done|]. split; [done|]. intros _. lia.
    + destruct (IH s1 c1 m) as (q & c2 & m2 & s2 & Heq & Hle2 & He2 & Hq); [lia..|].
      eexists _, _, _, _. split; [exact Heq|]. split; [by etrans|]. split; [congruence|].
      intros Hs. specialize (Hq Hs). lia.
  - eexists _, _, _, _. split; [reflexivity|]. split; [reflexivity|]. split; [done|]. intros [? [=]].
Qed.

Lemma gate_chain s c prov model auto g gt c' s' :
  chain_gate s c prov model auto = (g, gt, c', s') ->
  c' = if auto then svc_chain_mark c (p_name prov) (Some model) else c.
Proof. unfold chain_gate. by repeat case_match; intros [= _ _ <- _]. Qed.

Lemma gate_le s c prov model auto g gt c' s' :
  chain_gate s c prov model auto = (g, gt, c', s') ->
  chain_le c c' /\ first_err c' = first_err c /\ hops c' = hops c.
Proof.
  intros ->%gate_chain. destruct auto; [|split; [reflexivity|done]].
  split; [apply mark_le|]. by rewrite mark_first_err, mark_hops.
Qed.

Lemma gate_codes s c prov model auto g gt c' s' :
  chain_gate s c prov model auto = (g, gt, c', s') ->
  g = 0 \/ (g = 1 /\ auto = true) \/ (g = -1 /\ auto = false).
Proof. unfold chain_gate. destruct auto; repeat case_match; intros [= <- _ _ _]; auto. Qed.

(** The decision records the error when it is the first one. *)
Lemma retry_le s c err b c' s' :
  svc_chain_retry s c err = (b, c', s') ->
  chain_le c c' /\ hops c' = hops c /\
  first_err c' = (if first_err c =? 0 then err else first_err c) /\
  (b = true -> mode (cfg c) = SVC_CHAIN_AUTO /\ hops c < depth (cfg c) /\
     llm_fo_should err (on_mask (cfg c)) = true).
Proof.
  unfold svc_chain_retry, svc_chain_auto.
  assert (chain_le c (set_first_err c err) \/ first_err c <> 0) as Hle.
  { destruct (decide (first_err c = 0)) as [E|]; [left|by right]. split; simpl; auto; [lia|].
    by rewrite E. }
  destruct (Z.eqb_spec (first_err c) 0) as [E|E].
  - destruct Hle as [Hle|]; [|done].
    repeat case_match; simpl in *; intros [= <- <- _]; (split; [done|]);
      repeat split; bool_cases; try done; try lia.
  - repeat case_match; simpl in *; intros [= <- <- _]; (split; [reflexivity|]);
      repeat split; bool_cases; try done; try lia.
Qed.
End progress.

(** ** The loop

    The view of one step: what [chain_try] returns in each of its cases. *)

Section loop.
  Context {W : Type} `{CK : ChainClock W} `{AS : AiryString} `{EM : ErrModel}.
  Context (cnt : string -> option string -> Z) (env : rtr_env).
  Notation st := (chain_st W).
  Notation run_st := (@run_st W).
  Notation run_out := (@run_out W).

  Implicit Types (l : run_st) (o : run_out) (rc : @run_ctx W).

(** The model a step resolves to. *)
Definition step_model rc (prov : provider_t) (cur_model : string) : string :=
  (step_build (rc_svc rc) prov (rc_manager rc) cur_model 128).1.2.

Definition step_hit rc (prov : provider_t) (cur_model : string) : svc_hit_t :=
  (step_build (rc_svc rc) prov (rc_manager rc) cur_model 128).2.

(** [ret] is a return code of the closure. *)
Definition called rc (ret : Z) : Prop := exists step s0, ret = (rc_attempt rc step s0).1.1.

Inductive try_view rc (auto : bool) prov l : Z -> option llm_response_t -> run_st -> Prop :=
| TrySkip code c s :
    auto = true /\ code = CHAIN_NEXT \/ auto = false /\ code = err_code AIRY_ERR_BUSY ->
    chain_le (rs_chain l) c -> first_err c = first_err (rs_chain l) -> hops c = hops (rs_chain l) ->
    try_view rc auto prov l code None
      (mkRun c (rs_model l) (Some (step_hit rc prov (rs_model l))) (rs_calls l) s)
| TryOk resp c s :
    called rc 0 -> chain_le (rs_chain l) c -> first_err c = first_err (rs_chain l) -> hops c = hops (rs_chain l) ->
    try_view rc auto prov l CHAIN_OK resp
      (mkRun c (rs_model l) (Some (step_hit rc prov (rs_model l)))
         (rs_calls l ++ [(p_name prov, step_model rc prov (rs_model l), 0)]) s)
| TryOff ret c s :
    auto = false -> ret <> 0 -> called rc ret -> chain_le (rs_chain l) c ->
    first_err c = first_err (rs_chain l) -> hops c = hops (rs_chain l) ->
    try_view rc auto prov l ret None
      (mkRun c (rs_model l) (Some (step_hit rc prov (rs_model l)))
         (rs_calls l ++ [(p_name prov, step_model rc prov (rs_model l), ret)]) s)
| TryFail ret code c s :
    auto = true -> ret <> 0 -> called rc ret ->
    chain_le (rs_chain l) c -> hops c = hops (rs_chain l) ->
    first_err c = (if first_err (rs_chain l) =? 0 then ret else first_err (rs_chain l)) ->
    code = CHAIN_STOP \/
      code = CHAIN_NEXT /\ hops (rs_chain l) < depth (cfg (rs_chain l)) /\
      llm_fo_should ret (on_mask (cfg (rs_chain l))) = true ->
    try_view rc auto prov l code None
      (mkRun c (rs_model l) (Some (step_hit rc prov (rs_model l)))
         (rs_calls l ++ [(p_name prov, step_model rc prov (rs_model l), ret)]) s).

Lemma attempt_run_called rc s prov model step gated ret resp s' :
  attempt_run env s prov model (rc_attempt rc) step gated = (ret, resp, s') -> called rc ret.
Proof.
  unfold attempt_run. destruct (airy_time_ms s) as [t0 s0].
  destruct (rc_attempt rc step s0) as [[r x] s1] eqn:E.
  intros H. exists step, s0. rewrite E. simpl. revert H.
  destruct (Z.eqb_spec r 0) as [->|]; [|by intros [= <- _ _]].
  destruct (airy_time_ms _). by intros [= <- _ _].
Qed.

Lemma try_viewP rc auto prov l code resp l' :
  chain_try env rc auto prov l = (code, resp, l') -> try_view rc auto prov l code resp l'.
Proof.
  unfold chain_try.
  destruct (step_build _ _ _ _ _) as [[step model] hit] eqn:Eb.
  assert (step_model rc prov (rs_model l) = model) as Hm by (unfold step_model; by rewrite Eb).
  assert (step_hit rc prov (rs_model l) = hit) as Hh by (unfold step_hit; by rewrite Eb).
  destruct (chain_gate _ _ _ _ _) as [[[gate gated] c1] s1] eqn:Eg.
  pose proof (gate_codes _ _ _ _ _ _ _ _ _ Eg) as Hc.
  apply gate_le in Eg as (Hle & He & Hhops).
  destruct (Z.eqb_spec gate 0) as [->|Hg]; simpl.
  - destruct (attempt_run _ _ _ _ _ _ _) as [[ret r] s2] eqn:Ea.
    apply attempt_run_called in Ea.
    destruct (Z.eqb_spec ret 0) as [->|Hr].
    { intros [= <- <- <-]. rewrite <- Hh, <- Hm. by constructor. }
    destruct auto; simpl.
    2: { intros [= <- <- <-]. rewrite <- Hh, <- Hm. by constructor. }
    destruct (svc_chain_retry _ _ _) as [[again c2] s3] eqn:Er.
    apply retry_le in Er as (Hle2 & Hh2 & He2 & Ht). rewrite He in He2.
    rewrite (cl_cfg _ _ Hle), Hhops in Ht.
    intros Heq. assert (chain_le (rs_chain l) c2) by (by etrans).
    destruct again; simpl in Heq; injection Heq as <- <- <-; rewrite <- Hh, <- Hm;
      constructor; try done; try congruence; [|by left].
    destruct Ht as (_ & ? & ?); [done|]. repeat case_match; auto.
  - intros [= <- <- <-]. rewrite <- Hh. constructor; try done.
    destruct Hc as [?|[[-> ->]|[-> ->]]]; [done|by left|by right].
Qed.

(** Counting: a step makes at most one attempt, and goes on to a candidate in
    auto mode without an attempt or within the depth. *)
Lemma try_calls rc auto p l code resp l1 :
  try_view rc auto p l code resp l1 -> err_code AIRY_ERR_BUSY <> CHAIN_NEXT ->
  (length (rs_calls l1) <= S (length (rs_calls l)))%nat /\
  hops (rs_chain l1) = hops (rs_chain l) /\ (tried_n (rs_chain l) <= tried_n (rs_chain l1))%nat /\
  (code = CHAIN_NEXT ->
     auto = true /\ (rs_calls l1 = rs_calls l \/ hops (rs_chain l) < depth (cfg (rs_chain l))) \/
     auto = false /\ called rc CHAIN_NEXT).
Proof.
  intros V Hb. assert (chain_le (rs_chain l) (rs_chain l1)) as Hle by (by destruct V).
  apply chain_le_tried_n in Hle.
  destruct V; simpl in *; rewrite ?length_app; simpl; (split; [lia|]; split; [done|]; split; [done|]);
    intros; subst; try naive_solver.
Qed.

(** One round keeps the bound of the set; a further round costs a place. *)
Lemma iter_progress rc auto p l :
  (tried_n (rs_chain l) <= SVC_CHAIN_MAX_TRIED)%nat ->
  match chain_iter cnt env rc auto p l with
  | None => False
  | Some (inl _) => True
  | Some (inr (_, l')) =>
      (tried_n (rs_chain l) < tried_n (rs_chain l') <= SVC_CHAIN_MAX_TRIED)%nat
  end.
Proof.
  intros Hn. unfold chain_iter. destruct (chain_try _ _ _ _ _) as [[code resp] l1] eqn:E.
  apply try_viewP in E.
  assert (chain_le (rs_chain l) (rs_chain l1)) as Hle by (by destruct E).
  destruct (code =? CHAIN_OK), (code =? CHAIN_STOP), (code =? CHAIN_NEXT); try done; cbn [negb].
  destruct (next_prov_total cnt (S SVC_CHAIN_MAX_TRIED) (rc_svc rc) (rc_req rc) (rs_st l1)
    (rs_chain l1) (rs_model l1) 128) as (q & c' & m & s' & -> & Hle' & _ & Hq).
  { by apply (cl_max _ _ Hle). }
  { lia. }
  destruct q as [p'|]; simpl; [|done].
  destruct Hq as [Hq _]; [by eexists|]. apply chain_le_tried_n in Hle as Hl.
  split; [lia|]. apply (cl_max _ _ Hle'), (cl_max _ _ Hle), Hn.
Qed.

(** The proof rule of the loop: an invariant of the rounds that gives the
    postcondition at every return.  The loop always returns. *)
Lemma chain_loop_rule rc auto (I : provider_t -> run_st -> Prop) (Q : run_out -> Prop) :
  (forall p l, I p l -> match chain_iter cnt env rc auto p l with
                        | Some (inl o) => Q o
                        | Some (inr (p', l')) => I p' l'
                        | None => True
                        end) ->
  forall fuel p l, I p l -> (tried_n (rs_chain l) <= SVC_CHAIN_MAX_TRIED)%nat ->
    (SVC_CHAIN_MAX_TRIED - tried_n (rs_chain l) < fuel)%nat ->
    exists o, chain_loop cnt env fuel rc auto p l = Some o /\ Q o.
Proof.
  intros Hstep fuel. induction fuel as [|fuel IH]; intros p l HI Hn Hf; [lia|]. simpl.
  pose proof (Hstep p l HI) as Hs. pose proof (iter_progress rc auto p l Hn) as Hp.
  destruct (chain_iter cnt env rc auto p l) as [[o|[p' l']]|]; [by eexists| |done].
  apply IH; [done|lia..].
Qed.

(** What a client of the rule shows for the outcome of one step. *)
Record round_ok rc (I : provider_t -> run_st -> Prop) (Q : run_out -> Prop)
    (code : Z) (resp : option llm_response_t) (l1 : run_st) : Prop := {
  ro_success : code = CHAIN_OK ->
    Q (mkRunOut (err_code AIRY_SUCCESS) resp (rs_hit l1) (rs_calls l1) (rs_st l1));
  ro_stop : code = CHAIN_STOP -> Q (chain_end l1);
  ro_raw : code <> CHAIN_OK -> code <> CHAIN_STOP -> code <> CHAIN_NEXT ->
    Q (mkRunOut code None (rs_hit l1) (rs_calls l1) (rs_st l1));
  ro_next : code = CHAIN_NEXT -> forall q c' m s',
    next_prov cnt (S SVC_CHAIN_MAX_TRIED) (rc_svc rc) (rc_req rc) (rs_st l1) (rs_chain l1)
      (rs_model l1) 128 = Some (q, c', m, s') ->
    chain_le (rs_chain l1) c' -> first_err c' = first_err (rs_chain l1) ->
    match q with
    | Some p' => (tried_n (rs_chain l1) < tried_n c')%nat -> hops (rs_chain l1) + 1 <= hops c' ->
                 I p' (mkRun c' m (rs_hit l1) (rs_calls l1) s')
    | None => Q (chain_end (mkRun c' m (rs_hit l1) (rs_calls l1) s'))
    end
}.

Definition drop_resp (want_out : bool) (o : run_out) : run_out :=
  mkRunOut (ro_rc o) (if want_out then ro_resp o else None) (ro_hit o) (ro_calls o) (ro_st o).

(** The proof rule of a run: it returns, and the postcondition holds. *)
Lemma chain_run_rule svc mg rq first att sent want (s : st)
    (I : provider_t -> run_st -> Prop) (Q : run_out -> Prop) :
  let rc := mkRunCtx svc mg rq att sent in
  let auto := mode (route svc) =? SVC_CHAIN_AUTO in
  I first (mkRun (mkChain (route svc) (airy_time_ms s).1 0 0 []) "" None [] (airy_time_ms s).2) ->
  (forall p l code resp l1,
     I p l -> cfg (rs_chain l) = route svc -> (tried_n (rs_chain l) <= SVC_CHAIN_MAX_TRIED)%nat ->
     chain_try env rc auto p l = (code, resp, l1) -> try_view rc auto p l code resp l1 ->
     round_ok rc I Q code resp l1) ->
  exists o, svc_chain_run cnt env (Some svc) (Some mg) (Some rq) (Some first) (Some att) sent want s
            = Some (drop_resp want o) /\ Q o.
Proof.
  intros rc auto HI Hround. unfold svc_chain_run. destruct (airy_time_ms s) as [now s1]. simpl in HI.
  edestruct (chain_loop_rule rc auto
    (fun p l => I p l /\ cfg (rs_chain l) = route svc /\
                (tried_n (rs_chain l) <= SVC_CHAIN_MAX_TRIED)%nat) Q) as (o & Ho & HQ).
  2: { split; [exact HI|]. split; [done|]. unfold tried_n. simpl. lia. }
  2: { unfold tried_n. simpl. lia. }
  2: { unfold tried_n. simpl. apply (Nat.lt_succ_diag_r SVC_CHAIN_MAX_TRIED). }
  2: { exists o. split; [|done]. unfold svc_chain_init, svc_chain_ctx, svc_chain_auto.
       cbn [from_option cfg id]. fold rc auto. by rewrite Ho. }
  clear HI. intros p l (HI & Hcfg & Hn). unfold chain_iter.
  destruct (chain_try env rc auto p l) as [[code resp] l1] eqn:E.
  pose proof (try_viewP _ _ _ _ _ _ _ E) as V.
  destruct (Hround p l code resp l1 HI Hcfg Hn E V) as [H1 H2 H3 H4].
  assert (chain_le (rs_chain l) (rs_chain l1)) as Hle by (by destruct V).
  destruct (Z.eqb_spec code CHAIN_OK); [by apply H1|].
  destruct (Z.eqb_spec code CHAIN_STOP); [by apply H2|].
  destruct (Z.eqb_spec code CHAIN_NEXT) as [Hx|]; cbn [negb]; [|by apply H3].
  destruct (next_prov_total cnt (S SVC_CHAIN_MAX_TRIED) (rc_svc rc) (rc_req rc) (rs_st l1)
    (rs_chain l1) (rs_model l1) 128) as (q & c' & m & s' & Hnp & Hle' & He & Hq).
  { by apply (cl_max _ _ Hle). }
  { lia. }
  specialize (H4 Hx _ _ _ _ Hnp Hle' He). rewrite Hnp. destruct q as [p'|]; [|done].
  destruct Hq; [by eexists|]. split; [by apply H4|]. simpl.
  split; [by rewrite (cl_cfg _ _ Hle'), (cl_cfg _ _ Hle)|].
  apply (cl_max _ _ Hle'), (cl_max _ _ Hle), Hn.
Qed.
End loop.

(** ** Termination, attempt bound, outcome *)

Section results.
  Context {W : Type} `{CK : ChainClock W} `{AS : AiryString} `{EM : ErrModel} `{EMO : !ErrModelOk}.
  Context (cnt : string -> option string -> Z) (env : rtr_env).
  Notation st := (chain_st W).

  Context (svc : llm_service_t) (mg : llm_request_config_t) (rq : llm_route_request_t)
    (first : provider_t) (att : @attempt_fn W) (sent : option (st -> bool)) (want : bool) (s : st).

  Notation run := (svc_chain_run cnt env (Some svc) (Some mg) (Some rq) (Some first) (Some att)
                     sent want s).

Lemma busy_code : err_code AIRY_ERR_BUSY < 0.
Proof. by apply err_code_neg. Qed.

(** C10.  A chained call returns.  Whatever the endpoints, the closure and the
    clock do, the run ends; it makes at most nine attempts, at most one more
    than the configured depth in auto mode, and at most one when the chain is
    off and the closure does not return the number that means another
    candidate. *)
Theorem chain_run_bounded :
  exists o, run = Some o /\ (length (ro_calls o) <= S SVC_CHAIN_MAX_TRIED)%nat /\
    (mode (route svc) = SVC_CHAIN_AUTO ->
       Z.of_nat (length (ro_calls o)) <= 1 + Z.max 0 (depth (route svc))) /\
    (mode (route svc) <> SVC_CHAIN_AUTO -> (forall step s', (att step s').1.1 <> CHAIN_NEXT) ->
       (length (ro_calls o) <= 1)%nat).
Proof.
  set (quiet := forall step s', (att step s').1.1 <> CHAIN_NEXT).
  set (isauto := mode (route svc) = SVC_CHAIN_AUTO).
  edestruct (chain_run_rule cnt env svc mg rq first att sent want s
    (fun _ l => let n := length (rs_calls l) in
       (n <= tried_n (rs_chain l))%nat /\
       (isauto -> Z.of_nat n <= hops (rs_chain l) /\ Z.of_nat n <= Z.max 0 (depth (route svc))) /\
       (~ isauto -> quiet -> n = 0%nat))
    (fun o => let n := length (ro_calls o) in
       (n <= S SVC_CHAIN_MAX_TRIED)%nat /\
       (isauto -> Z.of_nat n <= 1 + Z.max 0 (depth (route svc))) /\
       (~ isauto -> quiet -> (n <= 1)%nat))) as (o & Ho & HQ); [| |by eexists].
  { simpl. split; [lia|]. split; [lia|done]. }
  intros p l code resp l1 (H1 & H2 & H3) Hcfg Hn _ V. pose proof busy_code as Hb.
  destruct (try_calls _ _ _ _ _ _ _ V) as (Hc & Hh & Ht & Hx); [unfold CHAIN_NEXT; lia|]. rewrite Hcfg in Hx.
  assert ((mode (route svc) =? SVC_CHAIN_AUTO) = true <-> isauto) as Ha by apply Z.eqb_eq.
  assert (forall o : @run_out W, ro_calls o = rs_calls l1 -> let n := length (ro_calls o) in
    (n <= S SVC_CHAIN_MAX_TRIED)%nat /\
    (isauto -> Z.of_nat n <= 1 + Z.max 0 (depth (route svc))) /\
    (~ isauto -> quiet -> (n <= 1)%nat)) as HQ.
  { intros o Ho. simpl. rewrite Ho. split; [lia|]. split; [|intros A B; specialize (H3 A B); lia].
    intros A. specialize (H2 A). lia. }
  split; [by intros; apply HQ..|]. intros Hcode q c' m s' _ _ _.
  destruct q as [p'|]; [|by apply HQ]. simpl.
  intros Hlt Hhop. split; [lia|]. destruct (Hx Hcode) as [[A Hx']|[A (step & s0 & Hs)]].
  - apply Ha in A. split; [|done]. intros _. specialize (H2 A).
    destruct Hx' as [Hx'|Hx']; rewrite ?Hx'; lia.
  - split; [intros A'; apply Ha in A'; congruence|]. intros _ Hq. exfalso.
    by apply (Hq step s0).
Qed.

Definition rets (calls : list call) : list Z := map snd calls.

(** The state between rounds: every attempt so far failed with a switchable
    error, and the recorded error is that of the first one. *)
Definition failed_so_far (l : @run_st W) : Prop :=
  Forall (fun r => r <> 0 /\ llm_fo_should r (on_mask (route svc)) = true) (rets (rs_calls l)) /\
  first_err (rs_chain l) = hd 0 (rets (rs_calls l)) /\
  (mode (route svc) <> SVC_CHAIN_AUTO -> rs_calls l = []).

(** How a return code comes about. *)
Definition outcome_ok (o : @run_out W) : Prop :=
  (ro_rc o = err_code AIRY_SUCCESS ->
     exists pre, rets (ro_calls o) = pre ++ [0] /\
       Forall (fun r => r <> 0 /\ llm_fo_should r (on_mask (route svc)) = true) pre) /\
  (ro_rc o <> err_code AIRY_SUCCESS ->
     Forall (fun r => r <> 0) (rets (ro_calls o)) /\
     ro_rc o = hd (err_code (if mode (route svc) =? SVC_CHAIN_AUTO
                             then AIRY_ERR_LLM_INVALID_MODEL else AIRY_ERR_BUSY))
                  (rets (ro_calls o))).

Lemma hd_app_ne (d : Z) l x : l <> [] -> hd d (l ++ x) = hd d l.
Proof. by destruct l. Qed.

Lemma first_err_snoc (l : list Z) r e :
  Forall (fun x => x <> 0) l -> e = hd 0 l -> (if e =? 0 then r else e) = hd 0 (l ++ [r]).
Proof.
  intros Hf ->. destruct l as [|x l]; simpl; [done|].
  apply Forall_cons in Hf as [? _]. by destruct (Z.eqb_spec x 0).
Qed.

Lemma chain_end_outcome (l : @run_st W) :
  Forall (fun r => r <> 0) (rets (rs_calls l)) ->
  first_err (rs_chain l) = hd 0 (rets (rs_calls l)) ->
  (mode (route svc) <> SVC_CHAIN_AUTO -> rs_calls l <> []) -> outcome_ok (chain_end l).
Proof.
  intros Hf He Hc. pose proof (err_code_neg AIRY_ERR_LLM_INVALID_MODEL) as Hm.
  unfold outcome_ok, chain_end. simpl. rewrite He, err_code_success.
  destruct (rets (rs_calls l)) as [|r rs] eqn:E; simpl.
  - split; [intros; specialize (Hm ltac:(done)); lia|]. intros _. split; [done|].
    destruct (Z.eqb_spec (mode (route svc)) SVC_CHAIN_AUTO); [done|].
    destruct (Hc n). by destruct (rs_calls l).
  - apply Forall_cons in Hf as Hf'. destruct Hf' as [Hr _].
    destruct (Z.eqb_spec r 0); [done|]. simpl. by split.
Qed.

(** The first error survives.  When the closure returns zero or a negative
    code: a run that succeeds ends with its only successful attempt, every
    attempt before it failing with an error of the switchable classes; a run
    that fails made failing attempts only and returns the code of the first
    one, whatever happened on the endpoints that were tried after it.  Without
    any attempt the code is that of an unknown model in auto mode and busy when
    the chain is off. *)
Theorem chain_first_error :
  (forall step s', (att step s').1.1 <= 0) -> exists o, run = Some o /\ outcome_ok o.
Proof.
  intros Hneg.
  edestruct (chain_run_rule cnt env svc mg rq first att sent want s
    (fun _ => failed_so_far) outcome_ok) as (o & Ho & HQ); [| |by eexists].
  { split; [constructor|done]. }
  intros p l code resp l1 (H1 & H2 & H3) Hcfg Hn _ V. pose proof busy_code as Hb.
  assert (Forall (fun r => r <> 0) (rets (rs_calls l))) as Hnz by (eapply Forall_impl; naive_solver).
  destruct V as [code c s1 Hk Hle He Hh|resp c s1 Hk Hle He Hh|ret c s1 Ha Hr Hk Hle He Hh
                |ret code c s1 Ha Hr Hk Hle Hh He Hcode].
  - destruct Hk as [[Ha ->]|[Ha ->]]; split; try (unfold CHAIN_OK, CHAIN_STOP, CHAIN_NEXT; lia).
    + intros _ q c' m s' _ _ He'. apply Z.eqb_eq in Ha. simpl in *. rewrite He in He'.
      destruct q; [|apply chain_end_outcome; simpl; congruence].
      intros _ _. by repeat split; simpl; [|congruence|].
    + intros _ _ _. apply Z.eqb_neq in Ha as Ha'. specialize (H3 Ha'). simpl. rewrite H3.
      unfold outcome_ok. rewrite err_code_success, Ha. simpl. split; [lia|done].
  - split; try (unfold CHAIN_OK, CHAIN_STOP, CHAIN_NEXT; lia).
    intros _. split; [|simpl; congruence]. intros _. exists (rets (rs_calls l)). simpl.
    unfold rets. by rewrite map_app.
  - destruct Hk as (step & s0 & Hk). pose proof (Hneg step s0) as Hn0. simpl in Hk. rewrite <- Hk in Hn0.
    split; try (unfold CHAIN_OK, CHAIN_STOP, CHAIN_NEXT; lia). intros _ _ _.
    apply Z.eqb_neq in Ha. specialize (H3 Ha). simpl. rewrite H3.
    unfold outcome_ok. rewrite err_code_success. simpl. split; [lia|by repeat constructor].
  - apply Z.eqb_eq in Ha.
    assert (Forall (fun r => r <> 0) (rets (rs_calls l ++ [(p_name p,
      step_model {| rc_svc := svc; rc_manager := mg; rc_req := rq; rc_attempt := att;
        rc_sent := sent |} p (rs_model l), ret)]))) as Hnz'.
    { unfold rets. rewrite map_app. apply Forall_app. by repeat constructor. }
    rewrite (first_err_snoc _ ret _ Hnz H2) in He.
    destruct Hcode as [->|(-> & Hd & Hs)]; split; try done.
    + intros _. apply chain_end_outcome; [done| |done]. simpl. rewrite He. unfold rets. by rewrite map_app.
    + intros _ q c' m s' _ _ He'. simpl in *. rewrite He in He'.
      destruct q; [|apply chain_end_outcome; [done| |done]; simpl; rewrite He'; unfold rets; by rewrite map_app].
      intros _ _. split; [|split; [simpl; rewrite He'; unfold rets; by rewrite map_app|done]].
      unfold rets. simpl. rewrite map_app. apply Forall_app. rewrite Hcfg in Hs. by repeat constructor.
Qed.

(** The report names the endpoint that answered.  When a run succeeds, its last
    attempt is the one on the provider and the model the report gives. *)
Theorem chain_hit_reported :
  exists o, run = Some o /\
    (ro_rc o = err_code AIRY_SUCCESS -> exists h m pre,
       ro_hit o = Some h /\ ro_calls o = pre ++ [(p_name (hit_prov h), m, 0)] /\
       hit_model h = AIRY_STRNCPY_TERM 128 m).
Proof.
  set (Q := fun o : @run_out W => ro_rc o = err_code AIRY_SUCCESS -> exists h m pre,
       ro_hit o = Some h /\ ro_calls o = pre ++ [(p_name (hit_prov h), m, 0)] /\
       hit_model h = AIRY_STRNCPY_TERM 128 m).
  assert (forall l, Q (chain_end l)) as Hend.
  { intros l. unfold Q, chain_end. simpl. rewrite err_code_success.
    pose proof (err_code_neg AIRY_ERR_LLM_INVALID_MODEL ltac:(done)).
    destruct (Z.eqb_spec (first_err (rs_chain l)) 0); simpl; lia. }
  edestruct (chain_run_rule cnt env svc mg rq first att sent want s (fun _ _ => True) Q)
    as (o & Ho & HQ); [done| |by eexists].
  intros p l code resp l1 _ _ _ _ V. split; [|done| |intros _ [p'|] c' m s' _ _ _; done].
  - intros Hc _. destruct V as [? ? ? Hk|resp c s1|ret|? ? ? ? ? ? ? ? ? ? [?|(? & _)]]; try done.
    + pose proof busy_code. destruct Hk as [[_ ->]|[_ ->]]; unfold CHAIN_OK in Hc; [done|lia].
    + simpl. by eexists _, _, _.
    + subst. done.
    + subst. done.
  - intros H0 _ _ Hc. simpl in Hc. by rewrite err_code_success in Hc.
Qed.
End results.

(** ** What a run leaves alone

    A component [G] of the state that neither the router nor the clock touches
    is changed by the seat gate and the closure only. *)

Record frame {W A} `{CK : ChainClock W} (G : chain_st W -> A) : Prop := {
  fr_rtr s r f : G (mkSt r f (st_base s) (st_world s)) = G s;
  fr_time s : G (airy_time_ms s).2 = G s
}.

Section frame.
  Context {W A : Type} `{CK : ChainClock W} `{AS : AiryString} `{EM : ErrModel}.
  Context (G : chain_st W -> A) (HG : frame G).
  Implicit Types (s : chain_st W) (prov : provider_t).

Lemma time_frame s t s' : airy_time_ms s = (t, s') -> G s' = G s.
Proof. intros E. by rewrite <- (fr_time _ HG s), E. Qed.

Lemma rtr_time_frame s t s' : rtr_time s = (t, s') -> G s' = G s.
Proof.
  unfold rtr_time. destruct (airy_time_ms s) eqn:E. apply time_frame in E.
  case_match; by intros [= _ <-].
Qed.

Lemma ep_gate_frame s prov m b s' : ep_gate s prov m = (b, s') -> G s' = G s.
Proof.
  unfold ep_gate. case_match; [|by intros [= _ <-]].
  destruct (rtr_time s) as [now s1] eqn:E. apply rtr_time_frame in E.
  assert (forall r, G (set_rtr s1 r) = G s) as Hr by (intros r; rewrite <- E; apply (fr_rtr _ HG)).
  repeat case_match; by intros [= _ <-].
Qed.

Lemma chain_next_frame cnt s req c psz msz r s' :
  svc_chain_next cnt s req c psz msz = (r, s') -> G s' = G s.
Proof.
  unfold svc_chain_next. destruct (rtr_time s) eqn:E. apply rtr_time_frame in E.
  repeat case_match; by intros [= _ <-].
Qed.

Lemma next_prov_frame cnt fuel svc req s c cur msz q c' m s' :
  next_prov cnt fuel svc req s c cur msz = Some (q, c', m, s') -> G s' = G s.
Proof.
  revert s c cur. induction fuel as [|fuel IH]; intros s c cur; simpl; [done|].
  destruct (svc_chain_next _ _ _ _ _ _) as [r s1] eqn:E. apply chain_next_frame in E.
  destruct r as [[[p m1] c1]|]; [|by intros [= _ _ _ <-]].
  case_match; [by intros [= _ _ _ <-]|]. intros Hr%IH. congruence.
Qed.

Lemma retry_frame s c err b c' s' : svc_chain_retry s c err = (b, c', s') -> G s' = G s.
Proof.
  unfold svc_chain_retry. destruct (airy_time_ms s) eqn:E. apply time_frame in E.
  repeat case_match; by intros [= _ _ <-].
Qed.

Lemma rtr_note_frame env s name m err ok : G (rtr_note env s name m err ok) = G s.
Proof.
  unfold rtr_note. destruct (match name with Some _ => _ | None => _ end) as [now s1] eqn:E1.
  assert (G s1 = G s) as H1.
  { destruct name; [by apply rtr_time_frame in E1|by injection E1 as _ <-]. }
  destruct (rtr_time s1) as [sn s2] eqn:E2. apply rtr_time_frame in E2.
  destruct (if ok then _ else _) as [[? r] f]. rewrite (fr_rtr _ HG). congruence.
Qed.
End frame.

(** ** Seats *)

Lemma base_frame {W} `{CK : ChainClock W} : frame (W := W) st_base.
Proof. split; [done|]. intros s. unfold airy_time_ms. by case_match. Qed.

Section seats.
  Context {W : Type} `{CK : ChainClock W} `{AS : AiryString} `{EM : ErrModel} `{EMO : !ErrModelOk}.
  Context (cnt : string -> option string -> Z) (env : rtr_env).
  Notation st := (chain_st W).

  Implicit Types (s : st) (prov : provider_t).

(** *** Taking and giving back *)

(** The number of requests in progress fits an [int]. *)
Definition base_typed (b : provider_base_ctx_t) : Prop := 0 <= inflight b < 2147483647.

Lemma u64_back x : 0 <= x < 2147483647 -> u64 (u64 (x + 1) - 1) = x.
Proof. intros. rewrite (u64_id (x + 1)) by ulia. rewrite Z.add_simpl_r. apply u64_id. ulia. Qed.

(** While a gated attempt is in progress its endpoint holds at least one seat
    and no more than its limit. *)
Definition seat_ok (step : svc_step_t) s : Prop :=
  match provider_base_ctx s (step_prov step), c_model (eff step) with
  | Some (_, b), Some model =>
      let limit := svc_gate_limit s (step_prov step) model in
      0 < limit -> 1 <= inflight b <= limit
  | _, _ => True
  end.

Lemma acquire_cases s prov m gated s' :
  Forall base_typed (st_base s) -> svc_gate_acquire s prov m = (gated, s') ->
  s' = s /\ gated <= 0 /\ (gated = 0 -> svc_gate_limit s prov m <= 0) \/
  0 < gated /\ exists i b, provider_base_ctx s prov = Some (i, b) /\
    gated = svc_gate_limit s prov m /\ inflight b < gated /\
    s' = set_base s i (mkBase (props_state b) (total_slots b) (inflight b + 1)).
Proof.
  clear cnt. intros Hty. unfold svc_gate_acquire. destruct (Z.leb_spec (svc_gate_limit s prov m) 0).
  { intros [= <- <-]. left. split; [done|]. lia. }
  destruct (provider_base_ctx s prov) as [[i b]|] eqn:Eb.
  - assert (base_typed b) as Hb.
    { unfold provider_base_ctx in Eb. destruct (p_ctx prov) as [j|]; [|done]. simpl in Eb.
      destruct (st_base s !! j) as [b'|] eqn:El; [|done]. injection Eb as -> ->.
      by eapply Forall_lookup_1 in El. }
    unfold base_typed in Hb. rewrite s32_small by lia.
    destruct (Z.leb_spec (svc_gate_limit s prov m) (inflight b)); intros [= <- <-].
    + left. split; [done|]. lia.
    + right. split; [done|]. exists i, b. rewrite u64_id by ulia. done.
  - unfold svc_gate_limit in *. rewrite Eb in *. lia.
Qed.

Lemma base_ctx_ext s s' prov :
  st_base s' = st_base s -> provider_base_ctx s' prov = provider_base_ctx s prov.
Proof. unfold provider_base_ctx. by intros ->. Qed.

Lemma base_ctx_lookup s prov i b :
  provider_base_ctx s prov = Some (i, b) <-> p_ctx prov = Some i /\ st_base s !! i = Some b.
Proof.
  unfold provider_base_ctx. destruct (p_ctx prov) as [j|]; simpl; [|by split; [|intros [? _]]].
  destruct (st_base s !! j) as [b'|] eqn:E; simpl; naive_solver.
Qed.

Lemma set_base_ctx s prov i b b' :
  provider_base_ctx s prov = Some (i, b) -> provider_base_ctx (set_base s i b') prov = Some (i, b').
Proof.
  rewrite !base_ctx_lookup. intros [? ?]. split; [done|]. simpl.
  apply list_lookup_insert_eq. by eapply lookup_lt_Some.
Qed.

Section guarded.
  Context (att : @attempt_fn W).
  (** The closure gives back every seat it takes, provided that it is called
      with its own seat taken and the gate not overrun. *)
  Context (Hatt : forall step s, seat_ok step s -> st_base (att step s).2 = st_base s).

Lemma attempt_base s prov m step gated s1 ret resp s2 :
  Forall base_typed (st_base s) -> svc_gate_acquire s prov m = (gated, s1) -> 0 <= gated ->
  step_prov step = prov -> c_model (eff step) = Some m ->
  attempt_run env s1 prov m att step gated = (ret, resp, s2) -> st_base s2 = st_base s.
Proof.
  intros Hty Hacq Hg Hsp Hsm. unfold attempt_run.
  destruct (airy_time_ms s1) as [t0 s0] eqn:E0. apply (time_frame _ base_frame) in E0.
  assert (seat_ok step s0 /\ forall s3, st_base s3 = st_base s0 ->
    st_base (if 0 <? gated then svc_gate_release s3 prov else s3) = st_base s) as [Hs Hrel].
  { unfold seat_ok, svc_gate_limit, svc_gate_release. rewrite Hsp, Hsm.
    rewrite (base_ctx_ext _ _ _ E0).
    apply (acquire_cases _ _ _ _ _ Hty) in Hacq as [(-> & Hg' & Hl)|(Hpos & i & b & Hb & Hl & Hlt & ->)].
    - assert (gated = 0) as -> by lia. specialize (Hl eq_refl). unfold svc_gate_limit in Hl.
      split; [|intros s3 H3; simpl; congruence]. repeat case_match; try done. simplify_eq. lia.
    - unfold svc_gate_limit in Hl. rewrite Hb in Hl.
      rewrite (set_base_ctx _ _ _ _ _ Hb). apply base_ctx_lookup in Hb as Hb'.
      destruct Hb' as [_ Hlk]. pose proof (Forall_lookup_1 _ _ _ _ Hty Hlk) as Htb. unfold base_typed in Htb.
      change (gate_limit_of _ _) with (gate_limit_of b (prov_max_conc prov m)).
      rewrite <- Hl. simpl. split; [lia|]. intros s3 H3.
      destruct (Z.ltb_spec 0 gated); [|lia]. rewrite (base_ctx_ext _ _ prov (eq_trans H3 E0)).
      rewrite (set_base_ctx _ _ _ _ _ Hb). simpl. rewrite H3, E0. simpl.
      rewrite list_insert_insert_eq, Z.add_simpl_r, u64_id by ulia.
      apply list_insert_id. by destruct b. }
  pose proof (Hatt step s0 Hs) as Ha. destruct (att step s0) as [[r x] s3]. simpl in Ha.
  specialize (Hrel s3 Ha).
  destruct (r =? 0).
  - destruct (airy_time_ms _) as [t1 s4] eqn:E4. apply (time_frame _ base_frame) in E4. rewrite (rtr_note_frame _ base_frame) in E4.
    intros [= _ _ <-]. simpl. by rewrite E4.
  - intros [= _ _ <-]. by rewrite (rtr_note_frame _ base_frame).
Qed.

Lemma gate_split s c prov m auto g gated c' s' :
  Forall base_typed (st_base s) -> chain_gate s c prov m auto = (g, gated, c', s') ->
  g <> 0 /\ st_base s' = st_base s \/
  g = 0 /\ exists s1, st_base s1 = st_base s /\ svc_gate_acquire s1 prov m = (gated, s') /\ 0 <= gated.
Proof.
  intros Hty. unfold chain_gate. destruct (if auto then _ else _) as [pass s1] eqn:E1.
  assert (st_base s1 = st_base s) as H1.
  { destruct auto; [by apply (ep_gate_frame _ base_frame) in E1|by injection E1 as _ <-]. }
  destruct pass; simpl; [|intros [= <- _ _ <-]; by left].
  destruct (svc_gate_acquire s1 prov m) as [gd s2] eqn:Ea. pose proof Ea as Ea'.
  apply acquire_cases in Ea; [|by rewrite H1].
  destruct (Z.ltb_spec gd 0); intros [= <- <- _ <-].
  - left. split; [by destruct auto|]. destruct Ea as [(-> & _)|(? & _)]; [done|lia].
  - right. split; [done|]. by exists s1.
Qed.

Lemma try_base rc auto p l code resp l1 :
  rc_attempt rc = att -> Forall base_typed (st_base (rs_st l)) ->
  chain_try env rc auto p l = (code, resp, l1) -> st_base (rs_st l1) = st_base (rs_st l).
Proof.
  intros Hrc Hty. unfold chain_try, step_build.
  destruct (resolve_gen_params _ _ _ _) as [model mt].
  destruct (chain_gate _ _ _ _ _) as [[[g gated] c1] s1] eqn:Eg.
  apply gate_split in Eg as [[Hg Hb]|[-> (s0 & Hb0 & Ha & Hgd)]]; [| |done].
  { destruct (Z.eqb_spec g 0); [done|]. simpl. by intros [= _ _ <-]. }
  simpl. rewrite Hrc. destruct (attempt_run _ _ _ _ _ _ _) as [[ret r] s2] eqn:Er.
  eapply attempt_base in Er; [|by rewrite Hb0|done..].
  destruct (ret =? 0); [intros [= _ _ <-]; simpl; congruence|].
  destruct auto; [|intros [= _ _ <-]; simpl; congruence]. simpl.
  destruct (svc_chain_retry _ _ _) as [[again c2] s3] eqn:Ey. apply (retry_frame _ base_frame) in Ey.
  destruct again; intros [= _ _ <-]; simpl; congruence.
Qed.

(** Seats are balanced on every path.  If the closure gives back the seats it
    takes itself whenever it is entered with its endpoint's own seat taken and
    no more seats in use than the limit, then a run, whichever way it ends,
    leaves every seat counter as it found it. *)
Theorem chain_seats_balanced svc mg rq first sent want s :
  Forall base_typed (st_base s) ->
  exists o, svc_chain_run cnt env (Some svc) (Some mg) (Some rq) (Some first) (Some att) sent want s
            = Some o /\ st_base (ro_st o) = st_base s.
Proof.
  intros Hty.
  edestruct (chain_run_rule cnt env svc mg rq first att sent want s
    (fun _ l => st_base (rs_st l) = st_base s)
    (fun o => st_base (ro_st o) = st_base s)) as (o & Ho & HQ); [| |by eexists].
  { simpl. destruct (airy_time_ms s) eqn:E. by apply (time_frame _ base_frame) in E. }
  intros p l code resp l1 HI _ _ Ht _. apply try_base in Ht; [|done|by rewrite HI].
  rewrite HI in Ht. split; [done..|]. intros _ q c' m s' Hn _ _.
  apply (next_prov_frame _ base_frame) in Hn. destruct q; simpl; congruence.
Qed.
End guarded.
End seats.

(** ** The seat gate under interleaving

    The loop of [svc_gate_acquire] as its atomic steps, for any number of
    requests of one provider at the same time.  A request computes its limit
    once, when it enters. *)

Inductive seat_pc :=
| SIdle            (** outside the gate *)
| SLoop            (** about to load the counter *)
| SLoaded (cur : Z) (** about to exchange [cur] for [cur + 1] *)
| SFull            (** returned -1 *)
| SHeld.           (** returned the limit *)

#[export] Instance seat_pc_eq_dec : EqDecision seat_pc.
Proof. solve_decision. Defined.

(** The next atomic step of a request, acting on the shared counter. *)
Definition seat_thread (limit k : Z) (pc : seat_pc) : Z * seat_pc :=
  match pc with
  | SIdle => (k, SLoop)
  | SLoop => (k, if limit <=? s32 k then SFull else SLoaded k)
  | SLoaded cur => if k =? cur then (u64 (cur + 1), SHeld) else (k, SLoop)
  | SFull => (k, SIdle)
  | SHeld => (u64 (k - 1), SIdle)
  end.

Definition seat_state := (Z * list seat_pc)%type.

Inductive seat_step (lims : list Z) : seat_state -> seat_state -> Prop :=
| SeatStep i limit pc k pcs :
    lims !! i = Some limit -> pcs !! i = Some pc ->
    seat_step lims (k, pcs)
      ((seat_thread limit k pc).1, <[i := (seat_thread limit k pc).2]> pcs).

(** The specification: a counter whose acquisition is one step. *)
Inductive seat_spec (lims : list Z) : seat_state -> seat_state -> Prop :=
| SpecTake i limit k pcs :
    lims !! i = Some limit -> pcs !! i = Some SIdle -> k < limit ->
    seat_spec lims (k, pcs) (k + 1, <[i := SHeld]> pcs)
| SpecFull i limit k pcs :
    lims !! i = Some limit -> pcs !! i = Some SIdle -> limit <= k ->
    seat_spec lims (k, pcs) (k, <[i := SFull]> pcs)
| SpecLeave i k pcs :
    pcs !! i = Some SFull -> seat_spec lims (k, pcs) (k, <[i := SIdle]> pcs)
| SpecRelease i k pcs :
    pcs !! i = Some SHeld -> seat_spec lims (k, pcs) (k - 1, <[i := SIdle]> pcs).

(** A request inside the loop has not acquired anything yet. *)
Definition seat_abs (pc : seat_pc) : seat_pc :=
  match pc with SLoop | SLoaded _ => SIdle | _ => pc end.

Definition is_held (pc : seat_pc) : Z := match pc with SHeld => 1 | _ => 0 end.

Definition held (pcs : list seat_pc) : Z := zsum (map is_held pcs).

Lemma held_insert pcs i pc pc' :
  pcs !! i = Some pc -> held (<[i := pc']> pcs) = held pcs - is_held pc + is_held pc'.
Proof.
  unfold held. revert i. induction pcs as [|x pcs IH]; intros [|i] H; simpl in *; try done.
  - injection H as ->. lia.
  - rewrite (IH _ H). lia.
Qed.

Lemma held_bounds pcs : 0 <= held pcs <= Z.of_nat (length pcs).
Proof.
  unfold held. induction pcs as [|x pcs IH]; simpl; [lia|].
  assert (0 <= is_held x <= 1) by (destruct x; simpl; lia). lia.
Qed.

Section interleaving.
  Context (lims : list Z) (top : Z).
  Context (Htop : Forall (fun l => l <= top) lims) (Hn : Z.of_nat (length lims) < 2147483648).

(** The counter is the number of seats held, below the largest limit, and a
    value that passed the test was below the limit of its request. *)
Definition seat_inv (st : seat_state) : Prop :=
  length st.2 = length lims /\ st.1 = held st.2 /\ st.1 <= Z.max 0 top /\
  forall i limit cur, lims !! i = Some limit -> st.2 !! i = Some (SLoaded cur) -> cur < limit.

Ltac seat_done H :=
  split; [done|split; [lia|split; [lia|apply H; intros ? [=]; subst; done]]].

Lemma seat_inv_init : seat_inv (0, repeat SIdle (length lims)).
Proof.
  split; [simpl; by rewrite repeat_length|]. split; [|split; [simpl; lia|]]; simpl.
  - unfold held. induction (length lims); simpl; [done|]. lia.
  - intros i limit cur _ H%list_elem_of_lookup_2. apply list_elem_of_In, repeat_spec in H. done.
Qed.

Lemma seat_step_refines k pcs k' pcs' :
  seat_inv (k, pcs) -> seat_step lims (k, pcs) (k', pcs') ->
  seat_inv (k', pcs') /\
  rtc (seat_spec lims) (k, map seat_abs pcs) (k', map seat_abs pcs').
Proof.
  intros (Hlen & Hk & Hmax & Hld) Hs. inversion Hs as [i limit pc ? ? Hl Hpc]; subst. simpl in *.
  assert (limit <= top) as Hlt by (by eapply Forall_lookup_1 in Htop).
  pose proof (held_bounds pcs) as Hh.
  assert (map seat_abs pcs !! i = Some (seat_abs pc)) as Habs by (by rewrite list_lookup_fmap, Hpc).
  assert (forall v, (forall cur, v = SLoaded cur -> cur < limit) -> forall j lj cur, lims !! j = Some lj ->
    <[i := v]> pcs !! j = Some (SLoaded cur) -> cur < lj) as Hins.
  { intros v Hv j lj cur Hj Hlk. destruct (decide (i = j)) as [<-|Hij].
    - rewrite list_lookup_insert_eq in Hlk by (by eapply lookup_lt_Some). simplify_eq. by apply Hv.
    - rewrite list_lookup_insert_ne in Hlk by done. by eapply Hld. }
  assert (forall v, map seat_abs (<[i := v]> pcs) = <[i := seat_abs v]> (map seat_abs pcs)) as Hmap
    by (intros; apply list_fmap_insert).
  unfold seat_inv. simpl. rewrite length_insert, (held_insert _ _ _ _ Hpc), Hmap.
  assert (forall v, seat_abs pc = v -> <[i := v]> (map seat_abs pcs) = map seat_abs pcs) as Hsame
    by (intros v <-; by apply list_insert_id).
  destruct pc as [|  |cur| |]; simpl in *.
  - split; [seat_done Hins|]. by rewrite Hsame.
  - rewrite s32_small by lia. destruct (Z.leb_spec limit k); simpl.
    + split; [seat_done Hins|].
      apply rtc_once. by eapply SpecFull.
    + split; [seat_done Hins|by rewrite Hsame].
  - destruct (Z.eqb_spec k cur) as [<-|]; simpl.
    + specialize (Hld _ _ _ Hl Hpc). rewrite u64_id by ulia.
      split; [seat_done Hins|].
      apply rtc_once. by eapply SpecTake.
    + split; [seat_done Hins|]. by rewrite Hsame.
  - split; [seat_done Hins|].
    apply rtc_once. by apply SpecLeave.
  - assert (1 <= held pcs).
    { pose proof (held_insert _ _ _ SIdle Hpc) as E. pose proof (held_bounds (<[i:=SIdle]> pcs)).
      simpl in E. lia. }
    rewrite u64_id by ulia. split; [seat_done Hins|].
    apply rtc_once. by apply SpecRelease.
Qed.
End interleaving.

(** The seat gate is an atomic bounded counter.  However the loads, the
    exchanges and the releases of any number of requests interleave, the
    counter equals the number of requests that hold a seat, it never exceeds
    the largest limit, and the execution is one of the counter whose
    acquisition is a single step that succeeds exactly below the limit. *)
Theorem seat_gate_atomic lims top k pcs :
  Z.of_nat (length lims) < 2147483648 -> Forall (fun l => l <= top) lims ->
  rtc (seat_step lims) (0, repeat SIdle (length lims)) (k, pcs) ->
  k = held pcs /\ k <= Z.max 0 top /\
  rtc (seat_spec lims) (0, repeat SIdle (length lims)) (k, map seat_abs pcs).
Proof.
  intros Hn Ht Hrun.
  assert (seat_inv lims top (k, pcs) /\
    rtc (seat_spec lims) (0, repeat SIdle (length lims)) (k, map seat_abs pcs))
    as [(_ & Hk & Hm & _) Hr]; [|done].
  change (k, map seat_abs pcs) with ((fun c => (c.1, map seat_abs c.2)) (k, pcs)).
  revert Hrun. generalize (k, pcs). apply rtc_ind_r.
  - simpl. rewrite map_repeat. split; [by apply seat_inv_init|done].
  - intros [k1 pcs1] [k2 pcs2] _ Hs [Hi Hr].
    eapply seat_step_refines in Hs as [Hi' Hr']; [|done..]. split; [done|]. by etrans.
Qed.

(** ** The router during a run

    A property of the router context that admission, notes and measurements
    keep is kept by a run whose closure keeps it. *)

Record rtr_stable `{AiryString} `{ErrModel} (env : rtr_env) (P : router_ctx_t -> Prop) : Prop := {
  rst_admit ctx p m now : P ctx -> P (llm_rtr_admit ctx p m now).2;
  rst_note ctx file p m err ok now sn :
    is_u32 now -> P ctx -> P (ep_note env ctx file p m err ok now sn).1.2;
  rst_meas ctx p m resp lat : P ctx -> P (llm_rtr_meas ctx p m resp lat).2
}.

Section stable.
  Context {W : Type} `{CK : ChainClock W} `{AS : AiryString} `{EM : ErrModel} `{EMO : !ErrModelOk}.
  Context (cnt : string -> option string -> Z) (env : rtr_env).
  Context (P : router_ctx_t -> Prop) (HP : rtr_stable env P).
  Notation st := (chain_st W).

  Implicit Types (s : st) (prov : provider_t).

Lemma time_rtr s t s' : airy_time_ms s = (t, s') -> st_rtr s' = st_rtr s.
Proof. unfold airy_time_ms. case_match. by intros [= _ <-]. Qed.

Lemma rtr_time_rtr s t s' : rtr_time s = (t, s') -> st_rtr s' = st_rtr s /\ is_u32 t.
Proof.
  clear cnt HP P. unfold rtr_time. destruct (airy_time_ms s) eqn:E. apply time_rtr in E.
  case_match; intros [= <- <-]; (split; [done|]); [apply u32_range|ulia].
Qed.

Lemma chain_next_rtr s req c psz msz r s' :
  svc_chain_next cnt s req c psz msz = (r, s') -> st_rtr s' = st_rtr s.
Proof.
  unfold svc_chain_next. destruct (rtr_time s) eqn:E. apply rtr_time_rtr in E as [E _].
  repeat case_match; by intros [= _ <-].
Qed.

Lemma next_prov_rtr fuel svc req s c cur msz q c' m s' :
  next_prov cnt fuel svc req s c cur msz = Some (q, c', m, s') -> st_rtr s' = st_rtr s.
Proof.
  revert s c cur. induction fuel as [|fuel IH]; intros s c cur; simpl; [done|].
  destruct (svc_chain_next _ _ _ _ _ _) as [r s1] eqn:E. apply chain_next_rtr in E.
  destruct r as [[[p m1] c1]|]; [|by intros [= _ _ _ <-]].
  case_match; [by intros [= _ _ _ <-]|]. intros Hr%IH. congruence.
Qed.

Lemma ep_gate_stable s prov m b s' :
  ep_gate s prov m = (b, s') -> P (st_rtr s) -> P (st_rtr s').
Proof.
  unfold ep_gate. case_match; [|by intros [= _ <-]].
  destruct (rtr_time s) as [now s1] eqn:E. apply rtr_time_rtr in E as [E _]. rewrite E.
  destruct (llm_rtr_admit _ _ _ _) as [ok r] eqn:Ea. intros Hg Hs.
  apply (rst_admit _ _ HP _ (Some s0) (Some m) now) in Hs. rewrite Ea in Hs.
  destruct ok; injection Hg as _ <-; done.
Qed.

Lemma gate_stable s c prov m auto g gated c' s' :
  chain_gate s c prov m auto = (g, gated, c', s') -> P (st_rtr s) -> P (st_rtr s').
Proof.
  unfold chain_gate. destruct (if auto then _ else _) as [pass s1] eqn:E1. intros Hg Hs.
  assert (P (st_rtr s1)) as H1.
  { destruct auto; [by eapply ep_gate_stable|by injection E1 as _ <-]. }
  assert (forall gd s2, svc_gate_acquire s1 prov m = (gd, s2) -> st_rtr s2 = st_rtr s1) as Ha.
  { intros gd s2. unfold svc_gate_acquire. repeat case_match; by intros [= _ <-]. }
  destruct pass; simpl in Hg; [|by injection Hg as _ _ _ <-].
  destruct (svc_gate_acquire s1 prov m) as [gd s2]. specialize (Ha _ _ eq_refl).
  destruct (gd <? 0); injection Hg as _ _ _ <-; by rewrite Ha.
Qed.

Lemma note_stable s name m err ok :
  P (st_rtr s) -> P (st_rtr (rtr_note env s name m err ok)).
Proof.
  unfold rtr_note. intros Hs. destruct (match name with Some _ => _ | None => _ end) as [now s1] eqn:E1.
  assert (st_rtr s1 = st_rtr s /\ is_u32 now) as [H1 Hn].
  { destruct name; [by apply rtr_time_rtr in E1|]. injection E1 as <- <-. split; [done|ulia]. }
  destruct (rtr_time s1) as [sn s2] eqn:E2. apply rtr_time_rtr in E2 as [E2 _].
  assert (P (st_rtr s2)) as H2 by (by rewrite E2, H1).
  unfold llm_rtr_ok, llm_rtr_fail.
  destruct ok.
  - pose proof (rst_note _ _ HP (st_rtr s2) (st_file s2) name (Some m) 0 true now sn Hn H2) as Hp.
    by destruct (ep_note _ _ _ _ _ _ _ _ _) as [[? ?] ?].
  - pose proof (rst_note _ _ HP (st_rtr s2) (st_file s2) name (Some m) err false now sn Hn H2) as Hp.
    by destruct (ep_note _ _ _ _ _ _ _ _ _) as [[? ?] ?].
Qed.

Section closure.
  Context (att : @attempt_fn W).
  Context (Hatt : forall step s, P (st_rtr s) -> P (st_rtr (att step s).2)).

Lemma attempt_stable s prov m step gated ret resp s' :
  attempt_run env s prov m att step gated = (ret, resp, s') -> P (st_rtr s) -> P (st_rtr s').
Proof.
  unfold attempt_run. destruct (airy_time_ms s) as [t0 s0] eqn:E0. apply time_rtr in E0.
  intros Hr Hs. rewrite <- E0 in Hs. apply (Hatt step) in Hs.
  destruct (att step s0) as [[r x] s1]. simpl in Hs.
  assert (P (st_rtr (if 0 <? gated then svc_gate_release s1 prov else s1))) as H1.
  { unfold svc_gate_release. by repeat case_match. }
  destruct (r =? 0).
  - destruct (airy_time_ms _) as [t1 s4] eqn:E4. apply time_rtr in E4.
    injection Hr as _ _ <-. simpl. rewrite E4. by apply (rst_meas _ _ HP), note_stable.
  - injection Hr as _ _ <-. by apply note_stable.
Qed.

Lemma try_stable rc auto p l code resp l1 :
  rc_attempt rc = att -> chain_try env rc auto p l = (code, resp, l1) ->
  P (st_rtr (rs_st l)) -> P (st_rtr (rs_st l1)).
Proof.
  intros Hrc. unfold chain_try. destruct (step_build _ _ _ _ _) as [[step model] hit].
  destruct (chain_gate _ _ _ _ _) as [[[g gated] c1] s1] eqn:Eg. intros Ht Hl.
  eapply gate_stable in Eg; [|done]. rewrite Hrc in Ht.
  destruct (g =? 0); simpl in Ht; [|by injection Ht as _ _ <-].
  destruct (attempt_run _ _ _ _ _ _ _) as [[ret r] s2] eqn:Er. eapply attempt_stable in Er; [|done].
  destruct (ret =? 0); [by injection Ht as _ _ <-|].
  destruct auto; simpl in Ht; [|by injection Ht as _ _ <-].
  destruct (svc_chain_retry _ _ _) as [[again c2] s3] eqn:Ey.
  assert (st_rtr s3 = st_rtr s2) as E3.
  { revert Ey. unfold svc_chain_retry. destruct (airy_time_ms s2) eqn:E. apply time_rtr in E.
    repeat case_match; by intros [= _ _ <-]. }
  destruct again; injection Ht as _ _ <-; simpl; by rewrite E3.
Qed.

Lemma run_stable svc mg rq first sent want s :
  P (st_rtr s) ->
  exists o, svc_chain_run cnt env (Some svc) (Some mg) (Some rq) (Some first) (Some att) sent want s
            = Some o /\ P (st_rtr (ro_st o)).
Proof.
  intros Hs.
  edestruct (chain_run_rule cnt env svc mg rq first att sent want s
    (fun _ l => P (st_rtr (rs_st l))) (fun o => P (st_rtr (ro_st o)))) as (o & Ho & HQ);
    [| |by eexists].
  { simpl. destruct (airy_time_ms s) eqn:E. apply time_rtr in E. simpl. by rewrite E. }
  intros p l code resp l1 HI _ _ Ht _. eapply try_stable in Ht; [|done..].
  split; [done..|]. intros _ q c' m s' Hn _ _. apply next_prov_rtr in Hn.
  destruct q; simpl; by rewrite Hn.
Qed.
End closure.
End stable.

Lemma rtr_inv_stable `{AiryString} `{ErrModel} env : rtr_stable env rtr_inv.
Proof.
  split; intros; [by apply admit_inv|by apply note_inv|by apply meas_inv].
Qed.

(** The chain keeps the router invariant.  A run whose closure keeps the
    invariant of the router context returns and leaves it in place: the
    admissions, notes and measurements of all its attempts are within what the
    router allows. *)
Theorem chain_keeps_router {W} `{ChainClock W} `{AiryString} `{EM : ErrModel} `{!ErrModelOk}
    cnt env svc mg rq first (att : @attempt_fn W) sent want (s : chain_st W) :
  (forall step s', rtr_inv (st_rtr s') -> rtr_inv (st_rtr (att step s').2)) -> rtr_inv (st_rtr s) ->
  exists o, svc_chain_run cnt env (Some svc) (Some mg) (Some rq) (Some first) (Some att) sent want s
            = Some o /\ rtr_inv (st_rtr (ro_st o)).
Proof. intros Ha Hs. by apply run_stable; [apply rtr_inv_stable|..]. Qed.

(** ** The gate *)

(** Look-up does not depend on the health of the endpoints. *)
Lemma ep_find_update ctx p m k ep h :
  endpoints ctx !! k = Some ep ->
  router_ep_find (set_endpoints ctx (<[k := set_health ep h]> (endpoints ctx))) p m
  = router_ep_find ctx p m.
Proof.
  unfold router_ep_find. simpl. generalize 0%nat. revert k.
  induction (endpoints ctx) as [|e eps IH]; intros [|k] i Hk; simpl in *; try done.
  - by injection Hk as ->.
  - by rewrite IH.
Qed.

Section gate.
  Context {W : Type} `{CK : ChainClock W} `{AS : AiryString} `{EM : ErrModel}.
  Implicit Types (s : chain_st W) (prov : provider_t).

(** A seat is not needed, or one is free. *)
Definition seat_free s prov (m : string) : Prop :=
  forall i b, provider_base_ctx s prov = Some (i, b) ->
    svc_gate_limit s prov m <= 0 \/ inflight b < svc_gate_limit s prov m.

Lemma acquire_iff s prov m gated s' :
  Forall base_typed (st_base s) -> svc_gate_acquire s prov m = (gated, s') ->
  (0 <= gated <-> seat_free s prov m) /\ (gated < 0 -> s' = s) /\ st_rtr s' = st_rtr s.
Proof.
  intros Hty Ha. assert (st_rtr s' = st_rtr s) as Hr.
  { revert Ha. unfold svc_gate_acquire. repeat case_match; by intros [= _ <-]. }
  pose proof Ha as Hc. apply acquire_cases in Hc; [|done]. split; [|split; [|done]].
  - unfold seat_free. split.
    + intros Hg i b Hb. destruct Hc as [(_ & H0 & Hl)|(_ & i' & b' & Hb' & Hl & Hlt & _)].
      * left. apply Hl. lia.
      * rewrite Hb in Hb'. simplify_eq. lia.
    + intros Hf. revert Ha. unfold svc_gate_acquire.
      destruct (Z.leb_spec (svc_gate_limit s prov m) 0); [intros [= <- _]; lia|].
      destruct (provider_base_ctx s prov) as [[i b]|] eqn:Eb; [|intros [= <- _]; lia].
      apply base_ctx_lookup in Eb as Hlk. destruct Hlk as [_ Hlk].
      pose proof (Forall_lookup_1 _ _ _ _ Hty Hlk) as Htb. unfold base_typed in Htb.
      rewrite s32_small by lia. specialize (Hf _ _ eq_refl).
      destruct (Z.leb_spec (svc_gate_limit s prov m) (inflight b)); intros [= <- _]; lia.
  - intros Hg. destruct Hc as [(? & _)|(? & _)]; [done|lia].
Qed.

(** The gate of auto mode follows the breaker and the seats.  For an endpoint
    the router knows, the gate lets the attempt through exactly when the
    breaker admits it at the reading of the clock and a seat is free or not
    needed; it then holds the probe slot the breaker handed out.  In every
    other case the verdict is the next candidate, and no seat is taken. *)
Theorem gate_follows_breaker s c prov m g gated c' s' n k ep :
  let now := u32 (airy_time_ms s).1 in
  Forall base_typed (st_base s) -> initialized (st_rtr s) = true -> p_name prov = Some n ->
  router_ep_find (st_rtr s) n m = Some k -> endpoints (st_rtr s) !! k = Some ep ->
  chain_gate s c prov m true = (g, gated, c', s') ->
  (g = 0 <-> (llm_ep_admit (health ep) now).1 = true /\ seat_free s prov m) /\
  (g <> 0 -> g = 1 /\ st_base s' = st_base s) /\
  endpoints (st_rtr s') !! k = Some (set_health ep (llm_ep_admit (health ep) now).2).
Proof.
  intros now Hty Hi Hn Hk Hep. unfold chain_gate, ep_gate, rtr_time. rewrite Hn, Hi.
  unfold now. destruct (airy_time_ms s) as [t s1] eqn:Et. simpl.
  apply time_rtr in Et as Er. apply (time_frame _ base_frame) in Et as Eb.
  unfold llm_rtr_admit, llm_rtr_known. rewrite Er, Hi. simpl. rewrite Hk, Hep.
  destruct (llm_ep_admit (health ep) (u32 t)) as [ok h]. simpl.
  assert (<[k := set_health ep h]> (endpoints (st_rtr s)) !! k = Some (set_health ep h)) as Hlk.
  { apply list_lookup_insert_eq. by eapply lookup_lt_Some. }
  destruct ok; simpl.
  - set (s2 := set_rtr s1 _). destruct (svc_gate_acquire s2 prov m) as [gd s3] eqn:Ea.
    apply acquire_iff in Ea as (Hf & Hs & Hr3); [|simpl; by rewrite Eb].
    assert (seat_free s2 prov m <-> seat_free s prov m) as Hsf.
    { unfold seat_free, svc_gate_limit. by rewrite !(base_ctx_ext s s2) by done. }
    destruct (Z.ltb_spec gd 0) as [Hneg|Hpos]; intros [= <- _ _ <-]; rewrite Hr3.
    + split; [|split; [|done]]; [split; [done|intros [_ F]; apply Hsf, Hf in F; lia]|].
      intros _. split; [done|]. by rewrite (Hs Hneg).
    + split; [|by split]. split; [intros _|done]. split; [done|]. by apply Hsf, Hf.
  - rewrite Hi. simpl. rewrite bool_decide_true.
    + intros [= <- _ _ <-]. simpl. split; [by split; [|intros [? _]]|]. by split.
    + rewrite (ep_find_update _ _ _ _ ep) by done. by eexists.
Qed.
End gate.

(** ** No endpoint is called twice *)

Lemma isort_loop_perm inp outp rest pre : isort_loop inp outp pre rest ≡ₚ pre ++ rest.
Proof.
  revert pre. induction rest as [|key rest IH]; intros pre; simpl.
  - by rewrite app_nil_r, <- (Permutation_rev pre).
  - rewrite IH, sift_perm. simpl. by rewrite Permutation_middle.
Qed.

Lemma cand_sort_perm inp outp eps : cand_sort inp outp eps ≡ₚ eps.
Proof. destruct eps as [|e eps]; [done|]. apply (isort_loop_perm inp outp eps [e]). Qed.

(** Every candidate names a registered endpoint. *)
Lemma pick_names `{AiryString} cnt ctx rq out now cands n r :
  llm_router_pick cnt ctx (Some rq) (Some out) now = (AIRY_SUCCESS, Some cands, n) ->
  r ∈ firstn n cands -> exists ep, ep ∈ endpoints ctx /\ names_ep r ep.
Proof.
  unfold llm_router_pick. case_match; [done|]. case_match; [done|].
  set (el := router_get_eligible _ _ _ _). set (inp := router_estimate_tokens _ _ _ _).
  set (outp := if negb _ then _ else _).
  intros [= <- <-] [j Hj]%list_elem_of_lookup.
  pose proof (Permutation_length (cand_sort_perm inp outp el)) as Hlen.
  assert (j < length el `min` length out)%nat as Hlt.
  { apply lookup_lt_Some in Hj. rewrite length_take in Hj. lia. }
  rewrite lookup_take_lt in Hj by done.
  destruct (cand_sort inp outp el !! j) as [c|] eqn:Ec.
  2: { apply lookup_ge_None in Ec. unfold cand in *. lia. }
  destruct (fill_out_lookup (firstn (length el `min` length out) (cand_sort inp outp el))
    inp outp out j c) as [o Ho].
  { rewrite length_take. lia. }
  { by rewrite lookup_take_lt. }
  rewrite Ho in Hj. injection Hj as <-. exists c.2. split; [|by repeat split].
  apply (eligible_elem ctx rq now). change (c ∈ el). rewrite <- (cand_sort_perm inp outp el).
  by eapply list_elem_of_lookup_2.
Qed.

Lemma chain_tried_spec c p m : chain_tried c p m = true <-> (p, m) ∈ tried c.
Proof.
  unfold chain_tried. rewrite existsb_exists. split.
  - intros ([p' m'] & Hin & [Hp Hm]%andb_true_iff). apply list_elem_of_In.
    apply strcmp_eq_true in Hp, Hm. simpl in *. by subst.
  - intros Hin%list_elem_of_In. exists (p, m). split; [done|]. simpl. by rewrite !strcmp_eq_refl.
Qed.

(** The registry and the router agree: every registered endpoint has a model
    name that leads the registry to its provider, and names that fit. *)
Record reg_agrees (svc : llm_service_t) (names : list (string * string)) : Prop := {
  ra_fit p m : (p, m) ∈ names -> (String.length p < 64)%nat /\ (String.length m < 64)%nat /\ m <> "";
  ra_find p m q : (p, m) ∈ names -> svc_find_prov svc m = Some q -> p_name q = Some p
}.

Section fresh.
  Context {W : Type} `{CK : ChainClock W} `{AS : AiryString} `{ASO : !AiryStringOk}.
  Context (cnt : string -> option string -> Z).
  Context (svc : llm_service_t) (names : list (string * string)) (Hreg : reg_agrees svc names).
  Implicit Types (s : chain_st W) (c : svc_chain_t).

Definition has_names (ctx : router_ctx_t) : Prop := map ep_names (endpoints ctx) = names.

Lemma chain_next_fresh s rq c p m c' s' :
  has_names (st_rtr s) -> svc_chain_next cnt s (Some rq) c 64 128 = (Some (p, m, c'), s') ->
  (p, m) ∈ names /\ (p, m) ∉ tried c /\ (p, m) ∈ tried c'.
Proof.
  intros Hnames. unfold svc_chain_next. cbn [orb Nat.eqb]. case_match eqn:Hfull; [done|]. nat_cases.
  destruct (rtr_time s) as [now s1] eqn:Et. apply rtr_time_rtr in Et as [Et _].
  destruct (llm_router_pick _ _ _ _ _) as [[rc cands] n] eqn:Ep.
  destruct rc; try done. destruct cands as [cands|]; [|done].
  intros [= Hs _]. assert (forall r, r ∈ firstn n cands ->
    (r_provider_name r, r_model_name r) ∈ names) as Hc.
  { intros r Hr. eapply pick_names in Hr as (ep & Hin & Hp & Hm & _); [|exact Ep].
    rewrite Et in Hin. assert ((provider_name ep, model_name ep) ∈ names) as Hn.
    { rewrite <- Hnames. apply list_elem_of_fmap. by exists ep. }
    pose proof (ra_fit _ _ Hreg _ _ Hn) as (H1 & H2 & _).
    by rewrite Hp, Hm, !strncpy_term_short. }
  revert Hs Hc. generalize (firstn n cands). intros l. induction l as [|x l IH]; simpl; [done|].
  intros Hs Hc. destruct (chain_tried c _ _) eqn:Ex.
  { apply IH; [done|]. intros r Hr. apply Hc. by right. }
  specialize (Hc x ltac:(left)). pose proof (ra_fit _ _ Hreg _ _ Hc) as (H1 & H2 & _).
  rewrite !strncpy_term_short in Hs by lia. injection Hs as <- <- <-.
  split; [done|]. split; [rewrite <- chain_tried_spec; congruence|].
  simpl. unfold svc_chain_mark. rewrite Ex. case_match; nat_cases; [lia|]. simpl.
  rewrite !strncpy_term_short by done. apply elem_of_app. right. by left.
Qed.

Lemma next_prov_fresh fuel rq s c cur q c' m s' :
  has_names (st_rtr s) -> next_prov cnt fuel svc rq s c cur 128 = Some (Some q, c', m, s') ->
  exists p, p_name q = Some p /\ (p, m) ∈ names /\ (p, m) ∉ tried c /\ (p, m) ∈ tried c'.
Proof.
  revert s c cur. induction fuel as [|fuel IH]; intros s c cur Hn; simpl; [done|].
  destruct (svc_chain_next _ _ _ _ _ _) as [r s1] eqn:E. pose proof (chain_next_rtr _ _ _ _ _ _ _ _ E) as Er.
  destruct r as [[[p m1] c1]|]; [|done].
  pose proof (chain_next_some _ _ _ _ _ _ _ _ _ _ E) as (_ & Hle & _).
  apply chain_next_fresh in E as (Hin & Hnt & Ht); [|done].
  destruct (svc_find_prov svc m1) as [q'|] eqn:Ef.
  - intros [= <- <- <- _]. exists p. split; [|done]. by eapply ra_find.
  - intros Hr. apply IH in Hr as (p' & ? & ? & Hnt' & ?); [|by rewrite Er].
    exists p'. split; [done|]. split; [done|]. split; [|done].
    intros Hbad. apply Hnt'. destruct (cl_tried _ _ Hle) as [k ->]. apply elem_of_app. by left.
Qed.
End fresh.

Lemma names_insert eps k (e e' : llm_endpoint_t) :
  eps !! k = Some e -> ep_names e' = ep_names e -> map ep_names (<[k := e']> eps) = map ep_names eps.
Proof.
  intros Hk He. rewrite list_fmap_insert. apply list_insert_id. by rewrite list_lookup_fmap, Hk, He.
Qed.

Lemma names_alter f eps k :
  (forall e, ep_names (f e) = ep_names e) -> map ep_names (alter f k eps) = map ep_names eps.
Proof.
  intros Hf. revert k. induction eps as [|e eps IH]; intros [|k]; simpl; [done..| |].
  - by rewrite Hf.
  - unfold alter in IH. by rewrite IH.
Qed.

Lemma has_names_stable `{AiryString} `{ErrModel} env names : rtr_stable env (has_names names).
Proof.
  split; unfold has_names.
  - intros ctx p m now <-. unfold llm_rtr_admit. repeat case_match; try done. simpl.
    by eapply names_insert.
  - intros ctx file p m err ok now sn _ <-. unfold ep_note.
    destruct p as [p|], m as [m|]; try done. destruct (initialized ctx); [|done]. simpl.
    destruct (router_ep_find ctx p m) as [k|]; simpl; [|done].
    destruct (endpoints ctx !! k) as [e|] eqn:E; simpl; [|done]. by eapply names_insert.
  - intros ctx p m resp lat <-. unfold llm_rtr_meas. repeat case_match; try done. simpl.
    by apply names_alter.
Qed.

Section norepeat.
  Context {W : Type} `{CK : ChainClock W} `{AS : AiryString} `{ASO : !AiryStringOk}
    `{EM : ErrModel} `{EMO : !ErrModelOk}.
  Context (cnt : string -> option string -> Z) (env : rtr_env).
  Context (svc : llm_service_t) (names : list (string * string)) (Hreg : reg_agrees svc names).
  Notation run_st := (@run_st W).

(** In auto mode the step enters its endpoint into the set. *)
Lemma try_marks rc p (l : run_st) code resp l1 :
  chain_try env rc true p l = (code, resp, l1) ->
  tried (rs_chain l1)
  = tried (svc_chain_mark (rs_chain l) (p_name p) (Some (step_model rc p (rs_model l)))).
Proof.
  unfold chain_try, step_model. destruct (step_build _ _ _ _ _) as [[step model] hit]. simpl.
  destruct (chain_gate _ _ _ _ _) as [[[g gated] c1] s1] eqn:Eg. apply gate_chain in Eg as ->.
  destruct (g =? 0); [|by intros [= _ _ <-]].
  cbn [negb]. destruct (attempt_run _ _ _ _ _ _ _) as [[ret r] s2].
  destruct (ret =? 0); [by intros [= _ _ <-]|].
  destruct (svc_chain_retry _ _ _) as [[again c2] s3] eqn:Ey.
  assert (tried c2 = tried (svc_chain_mark (rs_chain l) (p_name p) (Some model))) as <-.
  { revert Ey. unfold svc_chain_retry. destruct (airy_time_ms s2).
    repeat case_match; by intros [= _ <- _]. }
  destruct again; by intros [= _ _ <-].
Qed.

Lemma mark_elem c n m :
  (String.length n < 64)%nat -> (String.length m < 64)%nat ->
  (n, m) ∈ tried c \/ (tried_n c < SVC_CHAIN_MAX_TRIED)%nat ->
  (n, m) ∈ tried (svc_chain_mark c (Some n) (Some m)).
Proof.
  intros Hn Hm Hor. unfold svc_chain_mark.
  destruct (chain_tried c n m) eqn:Et.
  { apply chain_tried_spec in Et. by case_match. }
  case_match; nat_cases.
  - destruct Hor as [Hin|]; [|lia]. apply chain_tried_spec in Hin. congruence.
  - simpl. rewrite !strncpy_term_short by done. apply elem_of_app. right. by left.
Qed.

(** The calls made so far are distinct and their endpoints in the set; the
    endpoint of the next round is not among them. *)
Record fresh_inv (rc : @run_ctx W) (p : provider_t) (l : run_st) : Prop := {
  fi_names : has_names names (st_rtr (rs_st l));
  fi_nodup : NoDup (map fst (rs_calls l));
  fi_tried : Forall (fun key => exists n m, key = (Some n, m) /\ (n, m) ∈ tried (rs_chain l))
               (map fst (rs_calls l));
  fi_next : exists n, let m := step_model rc p (rs_model l) in
    p_name p = Some n /\ (Some n, m) ∉ map fst (rs_calls l) /\
    (String.length n < 64)%nat /\ (String.length m < 64)%nat /\
    ((n, m) ∈ tried (rs_chain l) \/ (tried_n (rs_chain l) < SVC_CHAIN_MAX_TRIED)%nat)
}.

(** One step: the calls stay distinct, and all of them are in the set. *)
Lemma try_fresh rc p (l : run_st) code resp l1 :
  fresh_inv rc p l -> chain_try env rc true p l = (code, resp, l1) ->
  try_view rc true p l code resp l1 ->
  NoDup (map fst (rs_calls l1)) /\
  Forall (fun key => exists n m, key = (Some n, m) /\ (n, m) ∈ tried (rs_chain l1))
    (map fst (rs_calls l1)).
Proof.
  intros [_ Hnd Htr (n & Hp & Hnew & Hn & Hm & Hor)] Ht V.
  set (m := step_model rc p (rs_model l)) in *.
  apply try_marks in Ht. rewrite Hp in Ht. fold m in Ht.
  pose proof (mark_elem _ _ _ Hn Hm Hor) as Hin. rewrite <- Ht in Hin.
  assert (tried (rs_chain l) `prefix_of` tried (rs_chain l1)) as [k Hk].
  { rewrite Ht. apply cl_tried, mark_le. }
  assert (Forall (fun key => exists n m, key = (Some n, m) /\ (n, m) ∈ tried (rs_chain l1))
    (map fst (rs_calls l))) as Hall.
  { eapply Forall_impl; [exact Htr|]. intros key (n' & m' & -> & H'). exists n', m'.
    split; [done|]. rewrite Hk. apply elem_of_app. by left. }
  assert (rs_calls l1 = rs_calls l \/ exists ret, rs_calls l1 = rs_calls l ++ [(Some n, m, ret)])
    as [->|[ret ->]]; [|done|].
  { destruct V; simpl; rewrite ?Hp; eauto. }
  rewrite map_app. simpl. split.
  - apply NoDup_app. split; [done|]. split; [|apply NoDup_singleton].
    intros x Hx ->%list_elem_of_singleton. done.
  - apply Forall_app. split; [done|]. repeat constructor. by exists n, m.
Qed.

Lemma step_model_cur (rc : @run_ctx W) p m :
  m <> "" -> (String.length m < 128)%nat -> step_model rc p m = m.
Proof.
  intros Hm Hl. unfold step_model, step_build, resolve_gen_params.
  destruct (strcmp_eq m "") eqn:E; [by apply strcmp_eq_true in E|]. simpl. rewrite E.
  by apply strncpy_term_short.
Qed.

(** No endpoint is called twice.  In auto mode, when the registry and the
    router agree on which provider serves a model and the names fit the set,
    the attempts of one run go to pairwise distinct endpoints, whatever the
    failures and however the health of the endpoints changes meanwhile. *)
Theorem chain_no_repeat mg rq first att sent want (s : chain_st W) n0 :
  let m0 := (step_build svc first mg "" 128).1.2 in
  mode (route svc) = SVC_CHAIN_AUTO -> has_names names (st_rtr s) ->
  (forall step s', has_names names (st_rtr s') -> has_names names (st_rtr (att step s').2)) ->
  p_name first = Some n0 -> (String.length n0 < 64)%nat -> (String.length m0 < 64)%nat ->
  exists o, svc_chain_run cnt env (Some svc) (Some mg) (Some rq) (Some first) (Some att) sent want s
            = Some o /\ NoDup (map fst (ro_calls o)).
Proof.
  intros m0 Hauto Hs Hatt Hn0 Hln Hlm.
  edestruct (chain_run_rule cnt env svc mg rq first att sent want s
    (fresh_inv (mkRunCtx svc mg rq att sent)) (fun o => NoDup (map fst (ro_calls o))))
    as (o & Ho & HQ); [| |by eexists].
  { destruct (airy_time_ms s) as [t s1] eqn:E. apply time_rtr in E. split; simpl.
    - by rewrite E.
    - constructor.
    - constructor.
    - exists n0. split; [done|]. split; [apply not_elem_of_nil|]. split; [done|]. split; [done|].
      right. unfold tried_n, SVC_CHAIN_MAX_TRIED. simpl. lia. }
  rewrite (proj2 (Z.eqb_eq _ _) Hauto). intros p l code resp l1 HI Hcfg _ Ht V.
  destruct (try_fresh _ _ _ _ _ _ HI Ht V) as [Hnd Hall].
  split; [done..|]. intros _ q c' m s' Hn Hle _. destruct q as [p'|]; [|done]. intros _ _.
  assert (has_names names (st_rtr (rs_st l1))) as Hl1.
  { by eapply (try_stable cnt env _ (has_names_stable env names) att Hatt); [|exact Ht|apply HI]. }
  pose proof (next_prov_rtr _ _ _ _ _ _ _ _ _ _ _ _ Hn) as Er.
  eapply next_prov_fresh in Hn as (pn & Hp & Hin & Hnt & Hint); [|done..].
  destruct (ra_fit _ _ Hreg _ _ Hin) as (H1 & H2 & H3).
  destruct (cl_tried _ _ Hle) as [k Hk]. split; simpl.
  - by rewrite Er.
  - done.
  - eapply Forall_impl; [exact Hall|]. intros key (a & b & -> & Hab). exists a, b.
    split; [done|]. rewrite Hk. apply elem_of_app. by left.
  - exists pn. rewrite step_model_cur by (done || lia). split; [done|]. split; [|by auto].
    intros Hbad. eapply Forall_forall in Hall; [|exact Hbad].
    destruct Hall as (a & b & [= <- <-] & Hab). done.
Qed.
End norepeat.

(** ** The first byte is final *)

Section sent.
  Context {W : Type} `{CK : ChainClock W} `{AS : AiryString} `{EM : ErrModel}.
  Context (cnt : string -> option string -> Z) (env : rtr_env).
  (** [F] tells from the world whether something went out to the client; reading
      the clock does not change that. *)
  Context (F : W -> bool) (HF : forall w, F (chain_time_ms w).2 = F w).
  Implicit Types (s : chain_st W) (l : @run_st W).

Definition sent_flag s : bool := F (st_world s).

Lemma sent_frame : frame sent_flag.
Proof.
  split; [done|]. intros s. unfold sent_flag, airy_time_ms. rewrite <- (HF (st_world s)).
  by case_match.
Qed.

Lemma gate_sent s c prov m auto g gated c' s' :
  chain_gate s c prov m auto = (g, gated, c', s') -> sent_flag s' = sent_flag s.
Proof.
  unfold chain_gate. destruct (if auto then _ else _) as [pass s1] eqn:E1.
  assert (sent_flag s1 = sent_flag s) as H1.
  { destruct auto; [by apply (ep_gate_frame _ sent_frame) in E1|by injection E1 as _ <-]. }
  destruct pass; simpl; [|by intros [= _ _ _ <-]].
  assert (forall gd s2, svc_gate_acquire s1 prov m = (gd, s2) -> sent_flag s2 = sent_flag s1) as Ha.
  { intros gd s2. unfold svc_gate_acquire. repeat case_match; by intros [= _ <-]. }
  destruct (svc_gate_acquire s1 prov m) as [gd s2]. specialize (Ha _ _ eq_refl).
  destruct (gd <? 0); intros [= _ _ _ <-]; congruence.
Qed.

Section agree.
  Context (svc : llm_service_t) (mg : llm_request_config_t) (rq : llm_route_request_t)
    (att att' : @attempt_fn W).
  Context (Hagree : forall step s, sent_flag s = false -> att' step s = att step s).
  Notation rc := (mkRunCtx svc mg rq att (Some sent_flag)).
  Notation rc' := (mkRunCtx svc mg rq att' (Some sent_flag)).

(** A step that starts before the first byte does not depend on what the
    closure does after it, and goes on only before it. *)
Lemma try_agree p l code resp l1 :
  sent_flag (rs_st l) = false -> chain_try env rc true p l = (code, resp, l1) ->
  chain_try env rc' true p l = (code, resp, l1) /\
  (code = CHAIN_NEXT -> sent_flag (rs_st l1) = false).
Proof.
  intros Hl. unfold chain_try. cbn [rc_svc rc_manager rc_attempt rc_sent]. destruct (step_build _ _ _ _ _) as [[step model] hit].
  destruct (chain_gate _ _ _ _ _) as [[[g gated] c1] s1] eqn:Eg. apply gate_sent in Eg.
  destruct (g =? 0); simpl.
  2: { intros [= <- <- <-]. split; [done|]. simpl. congruence. }
  assert (attempt_run env s1 p model att' step gated = attempt_run env s1 p model att step gated) as ->.
  { unfold attempt_run. destruct (airy_time_ms s1) eqn:E. apply (time_frame _ sent_frame) in E.
    by rewrite Hagree by congruence. }
  destruct (attempt_run _ _ _ _ _ _ _) as [[ret r] s2].
  destruct (ret =? 0); [by intros [= <- <- <-]|].
  destruct (svc_chain_retry _ _ _) as [[again c2] s3].
  destruct again; simpl; [|by intros [= <- <- <-]].
  destruct (sent_flag s3) eqn:Es; by intros [= <- <- <-].
Qed.

Lemma loop_agree fuel p l :
  sent_flag (rs_st l) = false ->
  chain_loop cnt env fuel rc' true p l = chain_loop cnt env fuel rc true p l.
Proof.
  revert p l. induction fuel as [|fuel IH]; intros p l Hl; simpl; [done|]. unfold chain_iter.
  destruct (chain_try env rc true p l) as [[code resp] l1] eqn:E.
  apply try_agree in E as [-> Hnext]; [|done].
  destruct (code =? CHAIN_OK); [done|]. destruct (code =? CHAIN_STOP); [done|].
  destruct (Z.eqb_spec code CHAIN_NEXT) as [Hc|]; cbn [negb]; [|done]. specialize (Hnext Hc).
  destruct (next_prov _ _ _ _ _ _ _ _) as [[[[q c'] m] s']|] eqn:En; [|done].
  apply (next_prov_frame _ sent_frame) in En. destruct q as [p'|]; [|done].
  apply IH. simpl. congruence.
Qed.

(** Nothing follows the first byte.  In auto mode with the sentinel of the
    stream, a run that starts before anything was delivered never enters the
    closure again once something was: it behaves the same for any two closures
    that agree as long as nothing has been delivered. *)
Theorem chain_sent_final first want s :
  mode (route svc) = SVC_CHAIN_AUTO -> sent_flag s = false ->
  svc_chain_run cnt env (Some svc) (Some mg) (Some rq) (Some first) (Some att') (Some sent_flag) want s
  = svc_chain_run cnt env (Some svc) (Some mg) (Some rq) (Some first) (Some att) (Some sent_flag) want s.
Proof.
  intros Ha Hs. unfold svc_chain_run. destruct (airy_time_ms s) as [now s1] eqn:E.
  apply (time_frame _ sent_frame) in E.
  unfold svc_chain_init, svc_chain_ctx, svc_chain_auto. cbn [from_option cfg id].
  rewrite (proj2 (Z.eqb_eq _ _) Ha). rewrite loop_agree; [done|]. simpl. congruence.
Qed.
End agree.
End sent.

(** ** Generation parameters *)

(** The output limit.  The resolved limit is never negative, never above the
    cap of the model (or of the engine where the model has none), equal to the
    request where that lies within the cap, and equal to the cap where the
    request sets none. *)
Theorem gen_params_capped `{AiryString} svc prov mg n :
  let model := match c_model mg with Some m => if strcmp_eq m "" then default_model svc else m
                                   | None => default_model svc end in
  let cap0 := provider_registry_model_max_output prov model in
  let cap := if cap0 <=? 0 then default_max_output_tokens svc else cap0 in
  let '(out_model, tokens) := resolve_gen_params svc prov mg n in
  out_model = AIRY_STRNCPY_TERM n model /\ 0 <= tokens /\ (0 < cap -> tokens <= cap) /\
  (0 < c_max_tokens mg -> cap <= 0 \/ c_max_tokens mg <= cap -> tokens = c_max_tokens mg) /\
  (c_max_tokens mg <= 0 -> tokens = Z.max 0 cap).
Proof.
  intros model cap0 cap. unfold resolve_gen_params. fold model. fold cap0. fold cap.
  split; [done|]. repeat case_match; bool_cases; try lia.
  all: rewrite ?andb_false_iff, ?orb_true_iff, ?orb_false_iff in *.
  all: rewrite ?Z.ltb_lt, ?Z.ltb_ge, ?Z.leb_le, ?Z.leb_gt in *; lia.
Qed.

(** ** A concrete service *)

Module Sample.

(** A clock that advances by one; the world also holds the flag of the stream. *)
#[export] Instance step_clock : ChainClock (Z * bool) := fun w => (w.1, (w.1 + 1, w.2)).

Definition prov (name : string) (ctx : nat) (ms : list string) : provider_t :=
  mkProv (Some name) (Some ctx) (Some ms) (Some (map (fun _ => 512) ms)) None.

Definition svc (ps : list provider_t) (m : Z) : llm_service_t :=
  mkSvc (Some ps) "m1" 4096 (mkRouteCfg m 2 LLM_FO_ON_DEFAULT 0).

Definition two : list provider_t := [prov "a" 0 ["m1"]; prov "b" 1 ["m2"]].

Definition names : list (string * string) := [("a", "m1"); ("b", "m2")].

Definition rtr (ns : list (string * string)) (h : ep_sig_t) : router_ctx_t :=
  sample_ctx (map (fun n => sample_ep n.1 n.2 h) ns).

Definition start (r : router_ctx_t) (b : provider_base_ctx_t) : chain_st (Z * bool) :=
  mkSt r None [b; b] (1000, false).

Definition cfg0 : llm_request_config_t := mkConfig (Some "m1") 0.

Definition req0 : llm_route_request_t := req_budget 10 1.

Definition answer : llm_response_t := mkResp 10 0 0 0 0 d_zero d_zero.

(** Provider [a] is unreachable, the others answer. *)
Definition a_down : @attempt_fn (Z * bool) := fun step s =>
  if decide (p_name (step_prov step) = Some "a") then (-40, None, s) else (0, Some answer, s).

(** Provider [a] fails in the middle of the stream. *)
Definition a_breaks : @attempt_fn (Z * bool) := fun step s =>
  (-40, None, mkSt (st_rtr s) (st_file s) (st_base s) ((st_world s).1, true)).

Definition free : provider_base_ctx_t := mkBase 1 2 0.
Definition full : provider_base_ctx_t := mkBase 1 1 1.

#[export] Existing Instance SampleErr.sample_err.
#[export] Existing Instance SampleErr.sample_err_ok.
#[export] Existing Instance bounded_copy.
#[export] Existing Instance bounded_copy_ok.

Definition run (ps : list provider_t) (m : Z) (att : @attempt_fn (Z * bool))
    (s : chain_st (Z * bool)) : option run_out :=
  svc_chain_run no_counter sample_env (Some (svc ps m)) (Some cfg0) (Some req0)
    (Some (prov "a" 0 ["m1"])) (Some att) (Some (sent_flag snd)) true s.

Definition summary (o : option (@run_out (Z * bool))) : option (Z * list call) :=
  o ← o; Some (ro_rc o, ro_calls o).

(** The second endpoint answers after the first one failed. *)
Example fails_over :
  summary (run two SVC_CHAIN_AUTO a_down (start (rtr names ep_zero) free))
  = Some (0, [(Some "a", "m1", -40); (Some "b", "m2", 0)]).
Proof. by vm_compute. Qed.

(** Off: the error is returned as it is. *)
Example off_returns :
  summary (run two SVC_CHAIN_OFF a_down (start (rtr names ep_zero) free))
  = Some (-40, [(Some "a", "m1", -40)]).
Proof. by vm_compute. Qed.
End Sample.

Import Sample.

(** ** Deviations *)

(** A model two providers serve.  The chain enumerates endpoints, provider and
    model, but resolves a candidate through the registry by its model name
    alone: the candidate on the second provider leads back to the first one.
    The failed endpoint is called again and the healthy provider never. *)
Theorem shared_model_refails :
  let shared := [prov "a" 0 ["m1"]; prov "b" 1 ["m1"]] in
  summary (run shared SVC_CHAIN_AUTO a_down (start (rtr [("a", "m1"); ("b", "m1")] ep_zero) free))
  = Some (-40, [(Some "a", "m1", -40); (Some "a", "m1", -40)]).
Proof. by vm_compute. Qed.

(** A busy endpoint in auto mode.  With the only endpoint at its seat limit the
    run makes no attempt and reports an unknown model; off mode reports busy. *)
Theorem busy_reported_as_model :
  summary (run [prov "a" 0 ["m1"]] SVC_CHAIN_AUTO a_down (start (rtr [("a", "m1")] ep_zero) full))
  = Some (err_code AIRY_ERR_LLM_INVALID_MODEL, []) /\
  summary (run [prov "a" 0 ["m1"]] SVC_CHAIN_OFF a_down (start (rtr [("a", "m1")] ep_zero) full))
  = Some (err_code AIRY_ERR_BUSY, []).
Proof. by vm_compute. Qed.

(** A full seat gate uses up the probe.  The breaker hands out its probe slot
    before the seats are tested: with the seats taken, a half-open endpoint is
    not called, and refuses every caller of the next ten seconds. *)
Theorem busy_uses_up_probe :
  let half := mkSig 3 100 500 0 0 1 in
  exists o, run [prov "a" 0 ["m1"]] SVC_CHAIN_AUTO a_down (start (rtr [("a", "m1")] half) full) = Some o /\
    ro_calls o = [] /\
    (llm_rtr_admit (st_rtr (ro_st o)) (Some "a") (Some "m1") 5000).1 = false /\
    (llm_rtr_admit (rtr [("a", "m1")] half) (Some "a") (Some "m1") 5000).1 = true.
Proof. eexists. split; [by vm_compute|]. by vm_compute. Qed.

(** ** Witnesses *)

Lemma chain_run_bounded_witness :
  exists o, run two SVC_CHAIN_AUTO a_down (start (rtr names ep_zero) free) = Some o /\
    Z.of_nat (length (ro_calls o)) <= 3.
Proof.
  destruct (chain_run_bounded no_counter sample_env (svc two SVC_CHAIN_AUTO) cfg0 req0
    (prov "a" 0 ["m1"]) a_down (Some (sent_flag snd)) true (start (rtr names ep_zero) free))
    as (o & Ho & _ & Ha & _).
  exists o. split; [exact Ho|]. exact (Ha eq_refl).
Defined.

Lemma a_down_ret step s : (a_down step s).1.1 <= 0.
Proof. unfold a_down. case_match; simpl; lia. Qed.

Lemma chain_first_error_witness :
  exists o, run [prov "a" 0 ["m1"]] SVC_CHAIN_AUTO a_down (start (rtr [("a", "m1")] ep_zero) free)
    = Some o /\ ro_rc o = -40 /\ rets (ro_calls o) = [-40].
Proof.
  destruct (chain_first_error no_counter sample_env (svc [prov "a" 0 ["m1"]] SVC_CHAIN_AUTO) cfg0 req0
    (prov "a" 0 ["m1"]) a_down (Some (sent_flag snd)) true (start (rtr [("a", "m1")] ep_zero) free)
    a_down_ret) as (o & Ho & _ & He).
  exists o. split; [exact Ho|]. assert (Some o = run [prov "a" 0 ["m1"]] SVC_CHAIN_AUTO a_down
    (start (rtr [("a", "m1")] ep_zero) free)) as E by (symmetry; exact Ho).
  vm_compute in E. injection E as ->. destruct He as [_ He]; [done|]. by split.
Defined.

Lemma chain_hit_reported_witness :
  exists o h, run two SVC_CHAIN_AUTO a_down (start (rtr names ep_zero) free) = Some o /\
    ro_hit o = Some h /\ p_name (hit_prov h) = Some "b".
Proof.
  destruct (chain_hit_reported no_counter sample_env (svc two SVC_CHAIN_AUTO) cfg0 req0
    (prov "a" 0 ["m1"]) a_down (Some (sent_flag snd)) true (start (rtr names ep_zero) free))
    as (o & Ho & Hh).
  assert (Some o = run two SVC_CHAIN_AUTO a_down (start (rtr names ep_zero) free)) as E
    by (symmetry; exact Ho).
  vm_compute in E. injection E as ->. destruct Hh as (h & m & pre & Hh & _ & _); [done|].
  eexists _, h. split; [exact Ho|]. split; [exact Hh|]. by injection Hh as <-.
Defined.

Lemma chain_seats_balanced_witness :
  exists o, run two SVC_CHAIN_AUTO a_down (start (rtr names ep_zero) free) = Some o /\
    st_base (ro_st o) = [free; free].
Proof.
  apply (chain_seats_balanced no_counter sample_env a_down).
  - intros step s _. unfold a_down. by case_match.
  - simpl. repeat constructor; unfold base_typed; simpl; lia.
Defined.

(** Two requests of limit 1: the second one finds the gate full. *)
Lemma seat_gate_atomic_witness :
  1 = held [SHeld; SFull] /\ 1 <= Z.max 0 1 /\
  rtc (seat_spec [1; 1]) (0, [SIdle; SIdle]) (1, [SHeld; SFull]).
Proof.
  apply (seat_gate_atomic [1; 1] 1 1 [SHeld; SFull]); [simpl; lia|by repeat constructor|].
  eapply rtc_l; [apply (SeatStep _ 0 1 SIdle); done|].
  eapply rtc_l; [apply (SeatStep _ 0 1 SLoop); done|].
  eapply rtc_l; [apply (SeatStep _ 0 1 (SLoaded 0)); done|].
  eapply rtc_l; [apply (SeatStep _ 1 1 SIdle); done|].
  eapply rtc_l; [apply (SeatStep _ 1 1 SLoop); done|].
  apply rtc_refl.
Defined.

Lemma sample_rtr_inv ns : (length ns <= 64)%nat -> rtr_inv (rtr ns ep_zero).
Proof.
  intros Hn. split; simpl; try done; try lia.
  - rewrite length_map. unfold LLM_ROUTER_MAX_ENDPOINTS. lia.
  - apply Forall_map, Forall_true. intros n. apply ep_zero_typed.
Qed.

Lemma chain_keeps_router_witness :
  exists o, run two SVC_CHAIN_AUTO a_down (start (rtr names ep_zero) free) = Some o /\
    rtr_inv (st_rtr (ro_st o)).
Proof.
  apply (chain_keeps_router no_counter sample_env).
  - intros step s. unfold a_down. by case_match.
  - apply sample_rtr_inv. simpl. lia.
Defined.

Lemma gate_follows_breaker_witness :
  (chain_gate (start (rtr names ep_zero) free) (svc_chain_init None 0) (prov "a" 0 ["m1"]) "m1" true).1.1.1
  = 0.
Proof.
  destruct (chain_gate (start (rtr names ep_zero) free) (svc_chain_init None 0) (prov "a" 0 ["m1"])
    "m1" true) as [[[g gd] c'] s'] eqn:E. simpl.
  apply (gate_follows_breaker _ _ _ _ _ _ _ _ "a" 0%nat (sample_ep "a" "m1" ep_zero)) in E;
    [|simpl; repeat constructor; unfold base_typed; simpl; lia|done..].
  apply E. split; [done|]. intros i b Hb. injection Hb as <- <-. right. by vm_compute.
Defined.

Lemma sample_agrees : reg_agrees (svc two SVC_CHAIN_AUTO) names.
Proof.
  split.
  - intros p m Hin. unfold names in Hin. rewrite !elem_of_cons in Hin.
    destruct Hin as [[= -> ->]|[[= -> ->]|Hin%not_elem_of_nil]]; [..|done]; (split; [|split]);
      [simpl; lia..|done|simpl; lia|simpl; lia|done].
  - intros p m q Hin. unfold names in Hin. rewrite !elem_of_cons in Hin.
    destruct Hin as [[= -> ->]|[[= -> ->]|Hin%not_elem_of_nil]]; [..|done]; by intros [= <-].
Qed.

Lemma chain_no_repeat_witness :
  exists o, run two SVC_CHAIN_AUTO a_down (start (rtr names ep_zero) free) = Some o /\
    NoDup (map fst (ro_calls o)).
Proof.
  apply (chain_no_repeat no_counter sample_env (svc two SVC_CHAIN_AUTO) names sample_agrees cfg0 req0
    (prov "a" 0 ["m1"]) a_down (Some (sent_flag snd)) true (start (rtr names ep_zero) free) "a");
    [done|done| |done|simpl; lia|simpl; lia].
  intros step s. unfold a_down. by case_match.
Defined.

(** A closure that breaks the stream off is not distinguished from one that
    would misbehave when called again. *)
Lemma chain_sent_final_witness :
  run two SVC_CHAIN_AUTO (fun step s => if sent_flag snd s then (-1, None, s) else a_breaks step s)
    (start (rtr names ep_zero) free)
  = run two SVC_CHAIN_AUTO a_breaks (start (rtr names ep_zero) free) /\
  summary (run two SVC_CHAIN_AUTO a_breaks (start (rtr names ep_zero) free))
  = Some (-40, [(Some "a", "m1", -40)]).
Proof.
  split; [|by vm_compute].
  apply (chain_sent_final no_counter sample_env snd); [done| |done|done].
  intros step s Hs. by rewrite Hs.
Defined.
