(* ===== verification/RouteCfg.v ===== *)
(** * RouteCfg

    The routing section of model.yaml (llm_d/src/rpc/service_route.c), which
    configures the failover chain.  The YAML reader is not part of this
    repository: [yaml_file] is what it reports of a file, down to the values
    of the four keys as its accessors return them. *)

From S2P Require Import Prelude Failover EpHealth RouterCtx Chain.

(** ** Data *)

(** [None] is an absent key.  An [on] key that is not a sequence is [Some None];
    an item that is not a string is [None]. *)
Record yaml_routing := mkRouting {
  y_mode : option string;
  y_depth : option Z;
  y_on : option (option (list (option string)));
  y_deadline : option Z
}.

Inductive yaml_file :=
| YNoMemory
| YUnreadable
| YNoSection
| YNotMapping
| YSection (r : yaml_routing).

Definition INT_MAX : Z := 2147483647.

(** ** Operations *)

Fixpoint route_ieq (a b : string) : bool :=
  match a, b with
  | String x a', String y b' => if Ascii.eqb (tolower x) (tolower y) then route_ieq a' b' else false
  | EmptyString, EmptyString => true
  | _, _ => false
  end.

Definition route_mode (rt : yaml_routing) (c : llm_route_cfg_t) : llm_route_cfg_t :=
  match y_mode rt with
  | None => c
  | Some val => mkRouteCfg (if route_ieq val "auto" then SVC_CHAIN_AUTO else SVC_CHAIN_OFF)
                  (depth c) (on_mask c) (budget_ms c)
  end.

Definition depth_value (val : Z) : Z :=
  let v := if val <? 0 then 0 else val in
  if Z.of_nat SVC_CHAIN_MAX_TRIED <? v then Z.of_nat SVC_CHAIN_MAX_TRIED else v.

Definition route_depth (rt : yaml_routing) (c : llm_route_cfg_t) : llm_route_cfg_t :=
  match y_depth rt with
  | None => c
  | Some val => mkRouteCfg (mode c) (depth_value val) (on_mask c) (budget_ms c)
  end.

Fixpoint on_loop (items : list (option string)) (mask : Z) : Z :=
  match items with
  | [] => mask
  | name :: rest =>
      let reason := llm_fo_parse name in
      if bool_decide (reason = LLM_FO_NONE) then on_loop rest mask
      else on_loop rest (Z.lor mask (LLM_FO_BIT reason))
  end.

Definition route_on (rt : yaml_routing) (c : llm_route_cfg_t) : llm_route_cfg_t :=
  match y_on rt with
  | None => c
  | Some None => c
  | Some (Some items) => mkRouteCfg (mode c) (depth c) (on_loop items 0) (budget_ms c)
  end.

Definition deadline_value (sec : Z) : Z :=
  if sec <=? 0 then 0
  else (if INT_MAX / 1000 <? sec then INT_MAX / 1000 else sec) * 1000.

Definition route_deadline (rt : yaml_routing) (c : llm_route_cfg_t) : llm_route_cfg_t :=
  match y_deadline rt with
  | None => c
  | Some sec => mkRouteCfg (mode c) (depth c) (on_mask c) (deadline_value sec)
  end.

(** [None] for the file or the configuration is a NULL argument. *)
Definition svc_route_load (path : option yaml_file) (c : option llm_route_cfg_t)
    : airy_rc * option llm_route_cfg_t :=
  match path, c with
  | Some f, Some c0 =>
      match f with
      | YNoMemory => (AIRY_ERR_UNKNOWN, c)
      | YUnreadable => (AIRY_ERR_IO, c)
      | YNoSection => (AIRY_ERR_NOT_FOUND, c)
      | YNotMapping => (AIRY_ERR_INVALID_PARAM, c)
      | YSection rt =>
          (AIRY_SUCCESS, Some (route_deadline rt (route_on rt (route_depth rt (route_mode rt c0)))))
      end
  | _, _ => (AIRY_ERR_INVALID_PARAM, c)
  end.

(** The files of a start, in order: the main configuration, then the overlay. *)
Definition route_boot (files : list yaml_file) : llm_route_cfg_t :=
  foldl (fun c f => default c (svc_route_load (Some f) (Some c)).2) svc_chain_def files.

(** ** Bounds *)

(** What the chain relies on: a known mode, a depth within the set, a
    non-negative budget in whole seconds, switchable classes only. *)
Record cfg_wf (c : llm_route_cfg_t) : Prop := {
  cw_mode : mode c = SVC_CHAIN_OFF \/ mode c = SVC_CHAIN_AUTO;
  cw_depth : 0 <= depth c <= Z.of_nat SVC_CHAIN_MAX_TRIED;
  cw_budget : 0 <= budget_ms c <= INT_MAX /\ budget_ms c mod 1000 = 0;
  cw_mask : Z.ldiff (on_mask c) LLM_FO_ON_DEFAULT = 0
}.

Lemma depth_value_bounds v : 0 <= depth_value v <= Z.of_nat SVC_CHAIN_MAX_TRIED.
Proof. unfold depth_value. repeat case_match; bool_cases; unfold SVC_CHAIN_MAX_TRIED in *; lia. Qed.

Lemma deadline_value_bounds v : 0 <= deadline_value v <= INT_MAX /\ deadline_value v mod 1000 = 0.
Proof.
  unfold deadline_value, INT_MAX. repeat case_match; bool_cases; [done|..];
    (split; [Z.div_mod_to_equations; lia|apply Z_mod_mult]).
Qed.

(** The bits of the mask, item by item. *)
Lemma on_loop_bit items mask r :
  r <> LLM_FO_NONE ->
  Z.testbit (on_loop items mask) (fo_val r)
  = Z.testbit mask (fo_val r) || bool_decide (Exists (fun n => llm_fo_parse n = r) items).
Proof.
  intros Hr. revert mask. induction items as [|n items IH]; intros mask; cbn [on_loop].
  { rewrite bool_decide_false, orb_false_r; [done|]. by inversion 1. }
  assert (bool_decide (Exists (fun n => llm_fo_parse n = r) (n :: items))
    = bool_decide (llm_fo_parse n = r) || bool_decide (Exists (fun n => llm_fo_parse n = r) items)) as ->.
  { rewrite <- bool_decide_or. apply bool_decide_ext. by rewrite Exists_cons. }
  destruct (llm_fo_parse n) eqn:E.
  { rewrite bool_decide_true, IH by done. f_equal. by rewrite (bool_decide_false (LLM_FO_NONE = r)) by congruence. }
  all: rewrite bool_decide_false, IH, Z.lor_spec, <- orb_assoc by done; f_equal; f_equal; by destruct r.
Qed.

Lemma ldiff_lor a b c : Z.ldiff (Z.lor a b) c = Z.lor (Z.ldiff a c) (Z.ldiff b c).
Proof.
  apply Z.bits_inj'. intros n _. rewrite Z.lor_spec, !Z.ldiff_spec, Z.lor_spec.
  apply andb_orb_distrib_l.
Qed.

Lemma on_loop_wf items mask :
  Z.ldiff mask LLM_FO_ON_DEFAULT = 0 -> Z.ldiff (on_loop items mask) LLM_FO_ON_DEFAULT = 0.
Proof.
  revert mask. induction items as [|n items IH]; intros mask Hm; simpl; [done|].
  case_match; apply IH; [done|]. rewrite ldiff_lor, Hm.
  destruct (llm_fo_parse n); done.
Qed.

(** The bounds hold after every start.  Whatever the configuration files say,
    and however many of them are read: the mode is off or auto, the depth is
    between zero and the capacity of the set, the budget is a non-negative
    number of whole seconds that fits an [int], and only switchable classes
    are enabled. *)
Theorem route_boot_wf files : cfg_wf (route_boot files).
Proof.
  assert (forall c, cfg_wf c -> cfg_wf (foldl (fun c f =>
    default c (svc_route_load (Some f) (Some c)).2) c files)) as H; [|apply H].
  - induction files as [|f files IH]; intros c Hc; [done|]. apply IH. clear IH.
    destruct f as [| | | |rt]; [done..|]. simpl. destruct Hc as [H1 H2 H3 H4].
    unfold route_deadline, route_on, route_depth, route_mode.
    split; repeat case_match; simpl; auto using depth_value_bounds, deadline_value_bounds;
      by apply on_loop_wf.
  - split; simpl; [by left| |done..]. unfold SVC_CHAIN_DEF_DEPTH, SVC_CHAIN_MAX_TRIED. lia.
Qed.

(** ** Overlays *)

(** The value a file declares for a key, if it does. *)
Definition declares {A B} (key : yaml_routing -> option A) (val : A -> B) (f : yaml_file) : option B :=
  match f with YSection rt => val <$> key rt | _ => None end.

Definition mode_value (v : string) : Z :=
  if route_ieq v "auto" then SVC_CHAIN_AUTO else SVC_CHAIN_OFF.

Definition on_items (f : yaml_file) : option (list (option string)) :=
  match f with
  | YSection rt => match y_on rt with Some items => items | None => None end
  | _ => None
  end.

(** One file: every setting is the declared value or the one before. *)
Lemma route_load_fields c f :
  let c' := default c (svc_route_load (Some f) (Some c)).2 in
  mode c' = default (mode c) (declares y_mode mode_value f) /\
  depth c' = default (depth c) (declares y_depth depth_value f) /\
  budget_ms c' = default (budget_ms c) (declares y_deadline deadline_value f) /\
  on_mask c' = default (on_mask c) ((fun l => on_loop l 0) <$> on_items f).
Proof.
  destruct f as [| | | |[[ym|] [yd|] [[yo|]|] [yl|]]]; by repeat split.
Qed.

(** The overlay wins key by key.  Reading a second file over a first one, each
    setting is that of the second file if it declares the key, else that of
    the first file if it does, else the default; an [on] list enables exactly
    the classes it names. *)
Theorem route_overlay f1 f2 :
  let c := route_boot [f1; f2] in
  let pick {B} (key : yaml_file -> option B) (d : B) := default (default d (key f1)) (key f2) in
  mode c = pick (declares y_mode mode_value) SVC_CHAIN_OFF /\
  depth c = pick (declares y_depth depth_value) SVC_CHAIN_DEF_DEPTH /\
  budget_ms c = pick (declares y_deadline deadline_value) 0 /\
  forall r, r <> LLM_FO_NONE ->
    Z.testbit (on_mask c) (fo_val r)
    = match on_items f2, on_items f1 with
      | Some items, _ | None, Some items => bool_decide (Exists (fun n => llm_fo_parse n = r) items)
      | None, None => true
      end.
Proof.
  intros c pick. unfold c, route_boot, pick. cbn [foldl].
  set (c1 := default svc_chain_def _).
  destruct (route_load_fields svc_chain_def f1) as (M1 & D1 & B1 & O1). fold c1 in M1, D1, B1, O1.
  destruct (route_load_fields c1 f2) as (M2 & D2 & B2 & O2).
  rewrite M2, D2, B2, O2, M1, D1, B1, O1.
  split; [done|]. split; [done|]. split; [done|]. intros r Hr.
  destruct (on_items f2), (on_items f1); simpl; rewrite ?on_loop_bit by done; by destruct r.
Qed.

Example overlay_example :
  route_boot [YSection (mkRouting (Some "AUTO") (Some 99) None (Some 30));
              YSection (mkRouting None None (Some (Some [Some "auth"; Some "other"])) None)]
  = mkRouteCfg SVC_CHAIN_AUTO 8 8 30000.
Proof. reflexivity. Qed.
