(* ===== verification/Retry.v ===== *)
(** * Retry

    The transport retry of the llm_d providers (llm_d/src/providers/core/retry.c
    and the POST path of http.c): classification of transport failures, the
    exponential back-off with jitter, the wall-clock budget and the retry loop
    that streaming and non-streaming requests share.  libcurl, the clock, the
    sleep and the random source of the platform layer are parameters acting on
    a world [W]. *)

From S2P Require Import Prelude Doubles.

(** ** Data *)

(** The libcurl results the code distinguishes; every other code is
    [CURLE_OTHER]. *)
Inductive CURLcode :=
| CURLE_OK
| CURLE_COULDNT_RESOLVE_PROXY
| CURLE_COULDNT_RESOLVE_HOST
| CURLE_COULDNT_CONNECT
| CURLE_OPERATION_TIMEDOUT
| CURLE_SSL_CONNECT_ERROR
| CURLE_GOT_NOTHING
| CURLE_SEND_ERROR
| CURLE_PARTIAL_FILE
| CURLE_RECV_ERROR
| CURLE_OTHER (code : Z).

#[export] Instance CURLcode_eq_dec : EqDecision CURLcode.
Proof. solve_decision. Defined.

Inductive prov_tmo_t := PROV_TMO_CONNECT | PROV_TMO_STALL | PROV_TMO_TOTAL | PROV_TMO_KIND_N.

#[export] Instance prov_tmo_t_eq_dec : EqDecision prov_tmo_t.
Proof. solve_decision. Defined.

Inductive provider_retry_class_t := PROVIDER_RETRY_DEFAULT | PROVIDER_RETRY_CONNECT_ONLY.

#[export] Instance provider_retry_class_t_eq_dec : EqDecision provider_retry_class_t.
Proof. solve_decision. Defined.

Inductive provider_attempt_t := PROVIDER_TRY_FATAL | PROVIDER_TRY_FAILED | PROVIDER_TRY_DONE.

Definition PROVIDER_RETRY_BASE_MS : Z := 200.
Definition PROVIDER_RETRY_MAX_MS : Z := 2000.
Definition PROVIDER_RETRY_JITTER_PCT : Z := 25.
Definition PROVIDER_RETRY_MIN_LEFT_MS : Z := 1000.
Definition PROVIDER_RETRY_LOCAL_MS : Z := 500.

(** ** Classification *)

Definition provider_retryable (code : CURLcode) : bool :=
  match code with
  | CURLE_COULDNT_RESOLVE_PROXY | CURLE_COULDNT_RESOLVE_HOST | CURLE_COULDNT_CONNECT
  | CURLE_OPERATION_TIMEDOUT | CURLE_SSL_CONNECT_ERROR | CURLE_GOT_NOTHING
  | CURLE_SEND_ERROR | CURLE_PARTIAL_FILE | CURLE_RECV_ERROR => true
  | _ => false
  end.

Definition retry_in_class (code : CURLcode) (cls : provider_retry_class_t) : bool :=
  if negb (bool_decide (cls = PROVIDER_RETRY_CONNECT_ONLY)) then provider_retryable code
  else bool_decide (code = CURLE_COULDNT_RESOLVE_PROXY)
       || bool_decide (code = CURLE_COULDNT_RESOLVE_HOST)
       || bool_decide (code = CURLE_COULDNT_CONNECT).

Definition pre_send_fail (code : CURLcode) : bool :=
  bool_decide (code = CURLE_COULDNT_RESOLVE_PROXY)
  || bool_decide (code = CURLE_COULDNT_RESOLVE_HOST)
  || bool_decide (code = CURLE_COULDNT_CONNECT)
  || bool_decide (code = CURLE_SSL_CONNECT_ERROR).

Definition retry_allowed (cls : provider_retry_class_t) (idempotent : bool) (res : CURLcode)
    (tmo : prov_tmo_t) : bool :=
  if bool_decide (res = CURLE_OPERATION_TIMEDOUT) && bool_decide (tmo = PROV_TMO_CONNECT) then true
  else if negb (retry_in_class res cls) then false
  else if bool_decide (res = CURLE_OPERATION_TIMEDOUT)
  then negb (bool_decide (tmo = PROV_TMO_TOTAL)) && idempotent
  else pre_send_fail res || idempotent.

(** ** Back-off *)

(** The doubling loop: [n] turns are left and it stops at the ceiling. *)
Fixpoint backoff_loop (n : nat) (backoff : Z) : Z :=
  match n with
  | O => backoff
  | S n' => if backoff <? PROVIDER_RETRY_MAX_MS then backoff_loop n' (u32 (Z.shiftl backoff 1))
            else backoff
  end.

Definition backoff_base (attempt : Z) : Z :=
  let b := backoff_loop (Z.to_nat attempt) PROVIDER_RETRY_BASE_MS in
  if PROVIDER_RETRY_MAX_MS <? b then PROVIDER_RETRY_MAX_MS else b.

Definition backoff_jitter (attempt : Z) : Z :=
  u32 (backoff_base attempt * PROVIDER_RETRY_JITTER_PCT) / 100.

(** ** The loop *)

(** The platform layer acting on a world [W]. *)
Class Platform (W : Type) := {
  airy_time_ms : W -> Z * W;
  airy_sleep_ms : Z -> W -> W;
  airy_random_uint32 : Z -> Z -> W -> Z * W
}.

(** The outcome of one attempt: status, libcurl result, HTTP code when the
    hook wrote one, and the class of a timeout. *)
Record attempt_out := mkOut {
  ao_status : provider_attempt_t;
  ao_res : CURLcode;
  ao_http : option Z;
  ao_tmo : prov_tmo_t
}.

Record provider_retry_cfg_t (W : Type) := mkCfg {
  timeout_sec : double;
  max_retries : Z;
  retry_class : provider_retry_class_t;
  idempotent : bool;
  attempt : Z -> double -> W -> attempt_out * W;
  gate : option (CURLcode -> Z -> W -> bool * W);
  reset : option (W -> W)
}.
Arguments mkCfg {W}.
Arguments timeout_sec {W}.
Arguments max_retries {W}.
Arguments retry_class {W}.
Arguments idempotent {W}.
Arguments attempt {W}.
Arguments gate {W}.
Arguments reset {W}.

Section retry.
  Context {W : Type} `{P : Platform W}.

Definition provider_backoff_ms (att : Z) (w : W) : Z * W :=
    let backoff := backoff_base att in
    let jitter := backoff_jitter att in
    if jitter =? 0 then (backoff, w)
    else let '(r, w') := airy_random_uint32 0 (u32 (jitter * 2)) w in
         (u32 (backoff - jitter + r), w').

Definition provider_left_sec (tsec : double) (start_ms : Z) (w : W) : double * W :=
    let '(now, w') := airy_time_ms w in
    let spent := ddiv (d_of_Z (u64 (now - start_ms))) (d_of_Z 1000) in
    (if dle tsec spent then d_zero else dsub tsec spent, w').

Definition provider_retry_budget_ok (tsec : double) (start_ms delay_ms : Z) (w : W) : bool * W :=
    let '(remain, w') := provider_left_sec tsec start_ms w in
    (dle (dadd (d_of_Z delay_ms) (d_of_Z PROVIDER_RETRY_MIN_LEFT_MS)) (dmul remain (d_of_Z 1000)), w').

(** [false] when the budget is spent and the loop must stop. *)
Definition retry_wait (cfg : provider_retry_cfg_t W) (start_ms retry : Z) (local : bool) (w : W)
      : bool * W :=
    let '(delay_ms, w1) := if local then (PROVIDER_RETRY_LOCAL_MS, w)
                           else provider_backoff_ms retry w in
    let '(ok, w2) := provider_retry_budget_ok (timeout_sec cfg) start_ms delay_ms w1 in
    if negb ok then (false, w2)
    else let w3 := airy_sleep_ms delay_ms w2 in
         (true, match reset cfg with Some f => f w3 | None => w3 end).

Definition gate_ok (cfg : provider_retry_cfg_t W) (res : CURLcode) (http : Z) (w : W) : bool * W :=
    match gate cfg with None => (true, w) | Some g => g res http w end.

(** The result of the loop: [None] for a fatal attempt, else the last libcurl
    result, HTTP code and timeout class.  [turns] counts the turns left; the
    loop runs while [retry <= max_retries]. *)
Fixpoint retry_loop (turns : nat) (cfg : provider_retry_cfg_t W) (maxr start_ms retry : Z)
      (local : bool) (res : CURLcode) (http : Z) (tmo : prov_tmo_t) (w : W)
      : option (CURLcode * Z * prov_tmo_t) * W :=
    match turns with
    | O => (Some (res, http, tmo), w)
    | S turns' =>
        let '(remain, w1) := provider_left_sec (timeout_sec cfg) start_ms w in
        let '(o, w2) := attempt cfg retry remain w1 in
        let res' := ao_res o in
        let http' := default http (ao_http o) in
        let tmo' := ao_tmo o in
        match ao_status o with
        | PROVIDER_TRY_FATAL => (None, w2)
        | PROVIDER_TRY_DONE => (Some (res', http', tmo'), w2)
        | PROVIDER_TRY_FAILED =>
            if (maxr <=? retry) || negb (retry_allowed (retry_class cfg) (idempotent cfg) res' tmo')
            then (Some (res', http', tmo'), w2)
            else
              let '(g, w3) := gate_ok cfg res' http' w2 in
              if negb g then (Some (res', http', tmo'), w3)
              else
                let '(go, w4) := retry_wait cfg start_ms retry local w3 in
                if negb go then (Some (res', http', tmo'), w4)
                else retry_loop turns' cfg maxr start_ms (retry + 1) local res' http' tmo' w4
        end
    end.

(** [None] in place of the configuration stands for an incomplete one. *)
Definition provider_retry_run (cfg : option (provider_retry_cfg_t W)) (w : W)
      : airy_rc * option (CURLcode * Z * prov_tmo_t) * W :=
    match cfg with
    | None => (AIRY_ERR_INVALID_PARAM, None, w)
    | Some cfg =>
        let maxr := if 0 <? max_retries cfg then max_retries cfg else 0 in
        let local := bool_decide (retry_class cfg = PROVIDER_RETRY_CONNECT_ONLY) in
        let '(start_ms, w1) := airy_time_ms w in
        let '(r, w2) := retry_loop (Z.to_nat (maxr + 1)) cfg maxr start_ms 0 local
                          CURLE_OK 0 PROV_TMO_KIND_N w1 in
        match r with
        | None => (AIRY_ERR_UNKNOWN, None, w2)
        | Some out => (AIRY_SUCCESS, Some out, w2)
        end
    end.
End retry.

(** ** The POST request (http.c) *)

(** What libcurl reports for one transfer. *)
Record curl_out := mkCurl {
  co_handle : bool;            (** whether [curl_easy_init] succeeds *)
  co_res : CURLcode;
  co_code : Z;                 (** response code of a completed transfer *)
  co_body : string;            (** bytes handed to the write callback *)
  co_connect : double;         (** [CURLINFO_CONNECT_TIME] *)
  co_total : double            (** [CURLINFO_TOTAL_TIME] *)
}.

Definition provider_tmo_class (o : curl_out) (budget_sec : double) : prov_tmo_t :=
  if dle (co_connect o) d_zero then PROV_TMO_CONNECT
  else if dlt d_zero budget_sec && dle (dsub budget_sec (d_of_Z 1)) (co_total o)
  then PROV_TMO_TOTAL else PROV_TMO_STALL.

(** The response buffer of a request: [None] until the first byte. *)
Definition http_resp := option string.

(** [http_write_callback] appends; an empty transfer leaves the buffer alone. *)
Definition http_write (buf : http_resp) (data : string) : http_resp :=
  if strcmp_eq data "" then buf else Some (default "" buf +:+ data).

#[export] Instance platform_buf {W B} `{Platform W} : Platform (W * B) := {
  airy_time_ms := fun '(w, b) => let '(t, w') := airy_time_ms w in (t, (w', b));
  airy_sleep_ms := fun d '(w, b) => (airy_sleep_ms d w, b);
  airy_random_uint32 := fun lo hi '(w, b) =>
    let '(r, w') := airy_random_uint32 lo hi w in (r, (w', b))
}.

Section post.
  Context {W : Type} `{P : Platform W}.
  (** One transfer with a time budget. *)
  Context (curl_perform : double -> W -> curl_out * W).

Definition http_try (tsec : double) (retry : Z) (left_sec : double) (wb : W * http_resp)
      : attempt_out * (W * http_resp) :=
    let budget := if retry =? 0 then tsec else left_sec in
    let '(w, buf) := wb in
    let '(o, w') := curl_perform budget w in
    if negb (co_handle o) then (mkOut PROVIDER_TRY_FATAL CURLE_OK None PROV_TMO_KIND_N, (w', buf))
    else
      let buf' := http_write buf (co_body o) in
      let tmo := if bool_decide (co_res o = CURLE_OPERATION_TIMEDOUT)
                 then provider_tmo_class o budget else PROV_TMO_KIND_N in
      if bool_decide (co_res o = CURLE_OK)
      then (mkOut PROVIDER_TRY_DONE (co_res o) (Some (co_code o)) tmo, (w', buf'))
      else (mkOut PROVIDER_TRY_FAILED (co_res o) None tmo, (w', buf')).

Definition http_try_reset (wb : W * http_resp) : W * http_resp := (wb.1, None).

(** The return code and, on success only, the HTTP status and the response
    that are written through the out parameters. *)
Definition provider_http_post (alloc_ok : bool) (tsec : double) (maxr : Z)
      (cls : provider_retry_class_t) (idem : bool) (w : W)
      : airy_rc * option (Z * http_resp) * W :=
    if negb alloc_ok then (AIRY_ERR_OUT_OF_MEMORY, None, w)
    else
      let cfg := mkCfg tsec maxr cls idem (http_try tsec) None (Some http_try_reset) in
      let '(rc, out, (w', buf)) := provider_retry_run (Some cfg) (w, None) in
      match rc, out with
      | AIRY_SUCCESS, Some (CURLE_OK, code, _) => (AIRY_SUCCESS, Some (code, buf), w')
      | AIRY_SUCCESS, Some (CURLE_OPERATION_TIMEDOUT, _, PROV_TMO_STALL) =>
          (AIRY_ERR_LLM_STREAM_STALL, None, w')
      | AIRY_SUCCESS, Some (CURLE_OPERATION_TIMEDOUT, _, PROV_TMO_TOTAL) =>
          (AIRY_ETIMEDOUT, None, w')
      | AIRY_SUCCESS, _ => (AIRY_ERR_IO, None, w')
      | _, _ => (rc, None, w')
      end.
End post.

Definition provider_http_err_map (http_code : Z) (fallback : airy_rc) : airy_rc :=
  if (http_code =? 401) || (http_code =? 403) then AIRY_ERR_LLM_AUTH_FAIL
  else if http_code =? 429 then AIRY_ERR_LLM_RATE_LIMIT
  else if (http_code =? 400) || (http_code =? 422) then AIRY_ERR_LLM_BAD_REQUEST
  else fallback.

(** ** Back-off bounds *)

Lemma backoff_loop_spec n b :
  0 < b <= 4000 ->
  0 < backoff_loop n b <= 4000 /\
  Z.min (backoff_loop n b) PROVIDER_RETRY_MAX_MS = Z.min (b * 2 ^ Z.of_nat n) PROVIDER_RETRY_MAX_MS.
Proof.
  unfold PROVIDER_RETRY_MAX_MS. revert b. induction n as [|n IH]; intros b Hb; cbn [backoff_loop].
  { rewrite Z.mul_1_r. done. }
  rewrite Nat2Z.inj_succ, Z.pow_succ_r by lia.
  assert (0 < 2 ^ Z.of_nat n) by (apply Z.pow_pos_nonneg; lia).
  unfold PROVIDER_RETRY_MAX_MS. destruct (Z.ltb_spec b 2000).
  - rewrite Z.shiftl_mul_pow2 by lia. change (2 ^ 1) with 2. rewrite u32_id by ulia.
    destruct (IH (b * 2)) as [H1 H2]; [lia|]. split; [done|]. rewrite H2. f_equal. lia.
  - split; [lia|]. assert (2000 <= b * (2 * 2 ^ Z.of_nat n)) by nia. lia.
Qed.

Lemma backoff_base_spec att :
  0 <= att -> backoff_base att = Z.min (PROVIDER_RETRY_BASE_MS * 2 ^ att) PROVIDER_RETRY_MAX_MS.
Proof.
  intros Ha. unfold backoff_base, PROVIDER_RETRY_BASE_MS.
  destruct (backoff_loop_spec (Z.to_nat att) 200 ltac:(lia)) as [Hb He].
  rewrite Z2Nat.id in He by done. rewrite <- He.
  unfold PROVIDER_RETRY_MAX_MS. case_match; bool_cases; lia.
Qed.

Lemma backoff_base_range att : 0 <= att -> 200 <= backoff_base att <= 2000.
Proof.
  intros Ha. rewrite backoff_base_spec by done. unfold PROVIDER_RETRY_BASE_MS, PROVIDER_RETRY_MAX_MS.
  assert (1 <= 2 ^ att) by (apply Z.lt_pred_le, Z.pow_pos_nonneg; lia). lia.
Qed.

Lemma backoff_jitter_quarter att : 0 <= att -> backoff_jitter att = backoff_base att / 4.
Proof.
  intros Ha. pose proof (backoff_base_range att Ha). unfold backoff_jitter, PROVIDER_RETRY_JITTER_PCT.
  rewrite u32_id by ulia. Z.div_mod_to_equations; lia.
Qed.

(** The documented range of the random source. *)
Class RandomOk (W : Type) `{Platform W} : Prop :=
  random_range : forall lo hi w, lo <= hi -> lo <= (airy_random_uint32 lo hi w).1 <= hi.

Lemma backoff_between {W} `{RandomOk W} att w :
  0 <= att ->
  backoff_base att - backoff_base att / 4 <= (provider_backoff_ms att w).1
    <= backoff_base att + backoff_base att / 4.
Proof.
  intros Ha.
  pose proof (backoff_base_range att Ha) as Hb. pose proof (backoff_jitter_quarter att Ha) as Hj.
  unfold provider_backoff_ms. destruct (Z.eqb_spec (backoff_jitter att) 0).
  - cbn [fst]. Z.div_mod_to_equations; lia.
  - rewrite (u32_id (backoff_jitter att * 2)) by (rewrite Hj; ulia).
    pose proof (random_range 0 (backoff_jitter att * 2) w) as Hr.
    destruct (airy_random_uint32 _ _ _) as [r w']. cbn [fst] in *.
    rewrite Hj in *. rewrite u32_id by ulia. Z.div_mod_to_equations; lia.
Qed.

(** Transport back-off.  The delay before retry [att] is the base 200 ms
    doubled [att] times and capped at 2 s, moved by at most a quarter in either
    direction; the arithmetic never wraps. *)
Theorem backoff_bounds {W} `{RandomOk W} att w :
  0 <= att ->
  let base := Z.min (PROVIDER_RETRY_BASE_MS * 2 ^ att) PROVIDER_RETRY_MAX_MS in
  base - base / 4 <= (provider_backoff_ms att w).1 <= base + base / 4.
Proof.
  intros Ha. cbv zeta. rewrite <- backoff_base_spec by done. by apply backoff_between.
Qed.

(** ** Measures on the world *)

(** A counter [m] of the world that the platform calls, the gate and the reset
    hook do not touch. *)
Record untouched {W} `{Platform W} (cfg : provider_retry_cfg_t W) (m : W -> Z) : Prop := {
  un_time : forall w, m (airy_time_ms w).2 = m w;
  un_rand : forall lo hi w, m (airy_random_uint32 lo hi w).2 = m w;
  un_gate : forall g res http w, gate cfg = Some g -> m (g res http w).2 = m w;
  un_reset : forall f w, reset cfg = Some f -> m (f w) = m w
}.

Section measure.
  Context {W : Type} `{P : Platform W} (cfg : provider_retry_cfg_t W) (m : W -> Z).
  Context (U : untouched cfg m).

Lemma left_keeps tsec st w : m (provider_left_sec tsec st w).2 = m w.
  Proof.
    unfold provider_left_sec. pose proof (un_time _ _ U w) as Hu.
    by destruct (airy_time_ms w).
  Qed.

Lemma gate_keeps res http w : m (gate_ok cfg res http w).2 = m w.
  Proof. unfold gate_ok. destruct (gate cfg) eqn:E; [by eapply un_gate|done]. Qed.

Lemma backoff_keeps att w : m (provider_backoff_ms att w).2 = m w.
  Proof.
    unfold provider_backoff_ms. case_match; [done|].
    pose proof (un_rand _ _ U 0 (u32 (backoff_jitter att * 2)) w) as Hu.
    by destruct (airy_random_uint32 _ _ _).
  Qed.

(** A wait that lets the loop go on sleeps once, for the delay it computed. *)
Lemma wait_sleeps st retry local w :
    exists d w1, (d = PROVIDER_RETRY_LOCAL_MS \/ exists w0, d = (provider_backoff_ms retry w0).1) /\
      m w1 = m w /\
      ((retry_wait cfg st retry local w).1 = false /\ m (retry_wait cfg st retry local w).2 = m w \/
       (retry_wait cfg st retry local w).1 = true /\
       m (retry_wait cfg st retry local w).2 = m (airy_sleep_ms d w1)).
  Proof.
    unfold retry_wait, provider_retry_budget_ok.
    assert (exists d w1, (if local then (PROVIDER_RETRY_LOCAL_MS, w) else provider_backoff_ms retry w)
              = (d, w1) /\ m w1 = m w /\
              (d = PROVIDER_RETRY_LOCAL_MS \/ exists w0, d = (provider_backoff_ms retry w0).1))
      as (d & w1 & -> & Hm & Hd).
    { destruct local; [by eexists _, _; eauto|].
      pose proof (backoff_keeps retry w) as Hk. destruct (provider_backoff_ms retry w) as [d w1] eqn:E.
      exists d, w1. split; [done|]. split; [done|]. right. exists w. by rewrite E. }
    pose proof (left_keeps (timeout_sec cfg) st w1) as Hl.
    destruct (provider_left_sec (timeout_sec cfg) st w1) as [l w2]. simpl in Hl.
    exists d, w2. split; [done|]. split; [congruence|].
    destruct (negb _); simpl; [left; split; [done|congruence]|right]. split; [done|].
    destruct (reset cfg) as [f|] eqn:E; [by apply (un_reset _ _ U)|done].
  Qed.
End measure.

(** ** Non-idempotent requests *)

(** The results that libcurl documents for a transfer that fails before there is a
    connection to send on: name resolution (5, 6), connect (7), TLS handshake
    (35). *)
Definition curl_before_send (code : CURLcode) : bool :=
  match code with
  | CURLE_COULDNT_RESOLVE_PROXY | CURLE_COULDNT_RESOLVE_HOST | CURLE_COULDNT_CONNECT | CURLE_SSL_CONNECT_ERROR => true
  | _ => false
  end.









(** ** Bounded work *)

Record work_laws {W} `{Platform W} (cfg : provider_retry_cfg_t W) (attempts slept : W -> Z) : Prop := {
  wl_attempts : untouched cfg attempts;
  wl_slept : untouched cfg slept;
  wl_sleep : forall d w, attempts (airy_sleep_ms d w) = attempts w /\
                         slept (airy_sleep_ms d w) = slept w + d;
  wl_attempt : forall n l w, attempts (attempt cfg n l w).2 = attempts w + 1 /\
                             slept (attempt cfg n l w).2 = slept w
}.

Lemma retry_loop_work {W} `{RandomOk W} turns (cfg : provider_retry_cfg_t W) attempts slept
    maxr st n local res http tmo w :
  work_laws cfg attempts slept -> 0 <= n ->
  let w' := (retry_loop turns cfg maxr st n local res http tmo w).2 in
  attempts w + Z.min 1 (Z.of_nat turns) <= attempts w' <= attempts w + Z.of_nat turns /\
  slept w <= slept w' <= slept w + 2500 * Z.max 0 (Z.min (maxr - n) (Z.of_nat turns)).
Proof.
  intros [Ua Us Hs Ha]. revert n res http tmo w.
  induction turns as [|turns IH]; intros n res http tmo w Hn; cbn [retry_loop].
  { cbv zeta. simpl. lia. }
  pose proof (left_keeps cfg attempts Ua (timeout_sec cfg) st w) as Hl.
  pose proof (left_keeps cfg slept Us (timeout_sec cfg) st w) as Hl'.
  destruct (provider_left_sec _ _ _) as [l w1]. simpl in Hl, Hl'.
  destruct (Ha n l w1) as [Ha1 Ha2]. destruct (attempt cfg n l w1) as [o w2]. simpl in Ha1, Ha2.
  cbv zeta. destruct (ao_status o); simpl; [lia| |lia].
  destruct (_ || negb _) eqn:Eb; [simpl; lia|]. bool_cases.
  pose proof (gate_keeps cfg attempts Ua (ao_res o) (default http (ao_http o)) w2) as Hg.
  pose proof (gate_keeps cfg slept Us (ao_res o) (default http (ao_http o)) w2) as Hg'.
  destruct (gate_ok _ _ _ _) as [g w3]. simpl in Hg, Hg'. destruct g; simpl; [|lia].
  destruct (wait_sleeps cfg attempts Ua st n local w3) as (da & wa & _ & Hwa & Hw).
  destruct (wait_sleeps cfg slept Us st n local w3) as (d & w4 & Hd & Hw4 & Hw').
  assert (0 <= d <= 2500) as Hd'.
  { destruct Hd as [->|[w0 ->]]; [unfold PROVIDER_RETRY_LOCAL_MS; lia|].
    pose proof (backoff_base_range n Hn). pose proof (backoff_between n w0 Hn).
    Z.div_mod_to_equations; lia. }
  destruct (retry_wait cfg st n local w3) as [go w5]. simpl in Hw, Hw'.
  destruct Hw as [[-> Hw]|[-> Hw]]; destruct Hw' as [[? Hw']|[? Hw']]; try done; simpl; [lia|].
  destruct (Hs da wa) as [Hs1 _]. destruct (Hs d w4) as [_ Hs2].
  specialize (IH (n + 1) (ao_res o) (default http (ao_http o)) (ao_tmo o) w5 ltac:(lia)).
  cbv zeta in IH. lia.
Qed.

(** The retry loop is bounded.  A run makes at least one attempt (unless
    the configuration is incomplete) and at most [max_retries + 1] of them, and
    sleeps at most 2.5 seconds per retry in total. *)
Theorem retry_run_bounded {W} `{RandomOk W} (cfg : provider_retry_cfg_t W) attempts slept w :
  work_laws cfg attempts slept ->
  let n := Z.max 0 (max_retries cfg) in
  let w' := (provider_retry_run (Some cfg) w).2 in
  attempts w + 1 <= attempts w' <= attempts w + n + 1 /\
  slept w <= slept w' <= slept w + 2500 * n.
Proof.
  intros Hw n. unfold provider_retry_run.
  pose proof (un_time _ _ (wl_attempts _ _ _ Hw) w) as Ht.
  pose proof (un_time _ _ (wl_slept _ _ _ Hw) w) as Ht'.
  destruct (airy_time_ms w) as [st w1]. simpl in Ht, Ht'.
  assert ((if 0 <? max_retries cfg then max_retries cfg else 0) = n) as ->.
  { unfold n. case_match; bool_cases; lia. }
  set (local := bool_decide _).
  pose proof (retry_loop_work (Z.to_nat (n + 1)) cfg attempts slept n st 0 local CURLE_OK 0
    PROV_TMO_KIND_N w1 Hw ltac:(lia)) as Hb.
  cbv zeta in Hb. cbv zeta.
  destruct (retry_loop _ _ _ _ _ _ _ _ _ _) as [[out|] w2]; cbn [snd] in *; lia.
Qed.

(** ** The response of a POST *)

Section response.
  Context {W : Type} `{P : Platform W}.
  Context (curl_perform : double -> W -> curl_out * W).

(** The completed transfer that an outcome of the loop reports. *)
Definition from_transfer (out : CURLcode * Z * prov_tmo_t) (buf : http_resp) : Prop :=
    out.1.1 = CURLE_OK ->
    exists budget w0 o, (curl_perform budget w0).1 = o /\ co_res o = CURLE_OK /\
      out.1.2 = co_code o /\ buf = http_write None (co_body o).

Lemma buf_time (wb : W * http_resp) : (airy_time_ms wb).2.2 = wb.2.
  Proof. destruct wb as [w b]. simpl. by destruct (airy_time_ms w). Qed.

Lemma buf_left tsec st (wb : W * http_resp) : (provider_left_sec tsec st wb).2.2 = wb.2.
  Proof.
    unfold provider_left_sec. pose proof (buf_time wb). by destruct (airy_time_ms wb).
  Qed.

(** Every turn of the loop starts with an empty buffer. *)
Lemma post_loop_fresh turns tsec mr maxr cls idem st n local res http tmo (wb : W * http_resp) :
    wb.2 = None -> (turns = 0%nat -> res <> CURLE_OK) ->
    let cfg := mkCfg tsec mr cls idem (http_try curl_perform tsec) None (Some http_try_reset) in
    let '(out, wb') := retry_loop turns cfg maxr st n local res http tmo wb in
    forall r, out = Some r -> from_transfer r wb'.2.
  Proof.
    intros Hb Hr cfg. revert n res http tmo wb Hb Hr.
    induction turns as [|turns IH]; intros n res http tmo wb Hb Hr; cbn [retry_loop].
    { intros r [= <-] E. by destruct Hr. }
    pose proof (buf_left (timeout_sec cfg) st wb) as Hl.
    destruct (provider_left_sec _ _ _) as [l [w1 b1]]. simpl in Hl. rewrite Hb in Hl. subst b1.
    cbn [attempt cfg]. unfold http_try.
    destruct (curl_perform _ w1) as [o w2] eqn:Ec.
    destruct (co_handle o); simpl; [|done].
    destruct (bool_decide_reflect (co_res o = CURLE_OK)) as [Ho|Ho]; simpl.
    - intros r [= <-] _. eexists _, _, o. rewrite Ec. done.
    - assert (forall t (wb' : W * http_resp) r, Some (co_res o, http, t) = Some r ->
                from_transfer r wb'.2) as Hstop by (by intros t wb' r [= <-] E).
      destruct (_ || negb _); [intros r; exact (Hstop _ (w2, http_write None (co_body o)) r)|].
      destruct (retry_wait cfg st n local _) as [go wb'] eqn:Ew.
      destruct go; simpl; [|intros r; apply Hstop].
      apply IH; [|done].
      revert Ew. unfold retry_wait. destruct (if local then _ else _) as [d w3].
      destruct (provider_retry_budget_ok _ _ _ _) as [ok w4]. destruct ok; simpl; [|done].
      by intros [= <-].
  Qed.

(** A response is one transfer.  When [provider_http_post] succeeds, the
    HTTP status and the body it hands out are those of a single completed
    transfer: no bytes of a failed attempt precede them. *)
Theorem post_body_fresh tsec maxr cls idem w code buf w' :
    provider_http_post curl_perform true tsec maxr cls idem w = (AIRY_SUCCESS, Some (code, buf), w') ->
    exists budget w0 o, (curl_perform budget w0).1 = o /\ co_res o = CURLE_OK /\
      code = co_code o /\ buf = http_write None (co_body o).
  Proof.
    unfold provider_http_post, provider_retry_run. simpl.
    destruct (airy_time_ms w) as [st w1].
    set (m := if 0 <? maxr then maxr else 0).
    pose proof (post_loop_fresh (Z.to_nat (m + 1)) tsec maxr m cls idem st 0
      (bool_decide (cls = PROVIDER_RETRY_CONNECT_ONLY)) CURLE_OK 0 PROV_TMO_KIND_N (w1, None) eq_refl) as Hf.
    cbv zeta in Hf.
    destruct (retry_loop _ _ _ _ _ _ _ _ _ _) as [[[[r c] t]|] [w2 b2]]; [|done].
    intros Hp. assert (r = CURLE_OK /\ c = code /\ b2 = buf) as (-> & -> & ->).
    { destruct r; try done; [by injection Hp as -> -> _|by destruct t]. }
    apply (Hf ltac:(unfold m; case_match; bool_cases; lia) _ eq_refl). done.
  Qed.
End response.

(** ** A concrete platform *)

(** A world with a clock, counters and a script of transfer outcomes. *)
Record toy := mkToy {
  ty_ms : Z; ty_slept : Z; ty_attempts : Z; ty_delivered : Z; ty_script : list curl_out }.

#[export] Instance toy_platform : Platform toy := {
  airy_time_ms w := (ty_ms w, w);
  airy_sleep_ms d w := mkToy (ty_ms w + d) (ty_slept w + d) (ty_attempts w) (ty_delivered w) (ty_script w);
  airy_random_uint32 lo hi w := (lo, w)
}.

#[export] Instance toy_random : RandomOk toy.
Proof. intros lo hi w Hle. simpl. lia. Qed.

Definition transfer (res : CURLcode) (code : Z) (body : string) : curl_out :=
  mkCurl true res code body (d_of_Z 1) (d_of_Z 2).

Definition toy_curl (budget : double) (w : toy) : curl_out * toy :=
  let o := default (transfer CURLE_COULDNT_CONNECT 0 "") (head (ty_script w)) in
  let lost := negb (co_handle o) || curl_before_send (co_res o)
              || (bool_decide (co_res o = CURLE_OPERATION_TIMEDOUT) && dle (co_connect o) d_zero) in
  (o, mkToy (ty_ms w) (ty_slept w) (ty_attempts w + 1)
        (ty_delivered w + if lost then 0 else 1) (tail (ty_script w))).

Definition toy_cfg (n : Z) (idem : bool) : provider_retry_cfg_t (toy * http_resp) :=
  mkCfg (d_of_Z 60) n PROVIDER_RETRY_DEFAULT idem (http_try toy_curl (d_of_Z 60)) None
    (Some http_try_reset).

Lemma toy_untouched n idem (m : toy -> Z) :
  untouched (toy_cfg n idem) (fun wb => m wb.1).
Proof. split; try (intros; by destruct w). by intros f [w b] [= <-]. Qed.


Lemma toy_work n idem :
  work_laws (toy_cfg n idem) (fun wb => ty_attempts wb.1) (fun wb => ty_slept wb.1).
Proof.
  split; [apply (toy_untouched n idem ty_attempts)|apply (toy_untouched n idem ty_slept)| |].
  - by intros d [w b].
  - intros k l [w b]. cbn [attempt toy_cfg]. unfold http_try, toy_curl.
    set (o := default _ _). repeat case_match; done.
Qed.

#[export] Instance buf_random {W B} `{RandomOk W} : RandomOk (W * B).
Proof.
  intros lo hi [w b] Hle. simpl. pose proof (random_range lo hi w Hle) as Hr.
  by destruct (airy_random_uint32 lo hi w).
Qed.

Definition toy_start (script : list curl_out) : toy * http_resp := (mkToy 1000 0 0 0 script, None).

(** A connection failure, then a stall after delivery: the second failure is
    final for a request that is not idempotent. *)
Definition toy_script_1 : list curl_out :=
  [transfer CURLE_COULDNT_CONNECT 0 ""; transfer CURLE_RECV_ERROR 0 "par"; transfer CURLE_OK 200 "full"].

Lemma backoff_bounds_witness : 150 <= (provider_backoff_ms 0 (mkToy 0 0 0 0 [])).1 <= 250.
Proof. exact (backoff_bounds 0 (mkToy 0 0 0 0 []) ltac:(lia)). Defined.


Lemma retry_run_bounded_witness :
  1 <= ty_attempts (provider_retry_run (Some (toy_cfg 5 true)) (toy_start toy_script_1)).2.1 <= 6.
Proof.
  exact (proj1 (retry_run_bounded (toy_cfg 5 true) (fun wb => ty_attempts wb.1)
    (fun wb => ty_slept wb.1) (toy_start toy_script_1) (toy_work 5 true))).
Defined.

Lemma post_body_fresh_witness :
  exists w', provider_http_post toy_curl true (d_of_Z 60) 5 PROVIDER_RETRY_DEFAULT true
      (mkToy 1000 0 0 0 toy_script_1) = (AIRY_SUCCESS, Some (200, Some "full"), w') /\
    exists budget w0 o, (toy_curl budget w0).1 = o /\ co_res o = CURLE_OK /\ 200 = co_code o /\
      Some "full" = http_write None (co_body o).
Proof.
  eexists. split; [vm_compute; reflexivity|].
  refine (post_body_fresh toy_curl (d_of_Z 60) 5 PROVIDER_RETRY_DEFAULT true
    (mkToy 1000 0 0 0 toy_script_1) 200 (Some "full") _ _).
  vm_compute. reflexivity.
Defined.
