(* ===== verification/RateLimit.v ===== *)
(** * RateLimit

    The request limiter of the llm_d providers
    (llm_d/src/providers/core/rate_limit.c): the per-minute request window, the
    HTTP 429 state, and the request loop that retries on HTTP status 429 and
    5xx on top of the transport retry of file Retry. *)

From Stdlib Require Import SpecFloat.
From S2P Require Import Prelude Doubles Retry.

Record provider_rate_limiter_t := mkRl {
  rpm_window_start : Z;
  rpm_count : Z;
  rpm_limit : Z;
  last_429_time : Z;
  retry_after_sec : Z;
  consecutive_429s : Z
}.

Definition PROVIDER_RL_DEFAULT_RPM : Z := 500.
Definition PROVIDER_RL_MAX_RETRIES : Z := 5.
Definition PROVIDER_RL_BASE_DELAY_MS : Z := 1000.
Definition PROVIDER_RL_MAX_DELAY_MS : Z := 60000.
Definition PROVIDER_RL_JITTER_FACTOR : double := d_lit 2 10.

(** ** The limiter *)

Definition provider_rl_init (now : Z) : provider_rate_limiter_t :=
  mkRl now 0 PROVIDER_RL_DEFAULT_RPM 0 0 0.

Definition rl_check_rpm (now : Z) (rl : provider_rate_limiter_t) : airy_rc * provider_rate_limiter_t :=
  let rl1 := if 60 <=? now - rpm_window_start rl
             then mkRl now 0 (rpm_limit rl) (last_429_time rl) (retry_after_sec rl) (consecutive_429s rl)
             else rl in
  if rpm_limit rl1 <=? rpm_count rl1 then (AIRY_ERR_LLM_RATE_LIMIT, rl1)
  else (AIRY_SUCCESS, mkRl (rpm_window_start rl1) (rpm_count rl1 + 1) (rpm_limit rl1)
                        (last_429_time rl1) (retry_after_sec rl1) (consecutive_429s rl1)).

Definition rl_record_429 (now retry_after : Z) (rl : provider_rate_limiter_t) : provider_rate_limiter_t :=
  mkRl (rpm_window_start rl) (rpm_count rl) (rpm_limit rl) now
       (if 0 <? retry_after then retry_after else 0) (s32 (consecutive_429s rl + 1)).

Definition rl_reset_429 (rl : provider_rate_limiter_t) : provider_rate_limiter_t :=
  mkRl (rpm_window_start rl) (rpm_count rl) (rpm_limit rl) (last_429_time rl) 0 0.

(** [1000 << attempt] as a 32-bit [int]. *)
Definition delay_base (attempt : Z) : Z :=
  let d := s32 (Z.shiftl PROVIDER_RL_BASE_DELAY_MS attempt) in
  if PROVIDER_RL_MAX_DELAY_MS <? d then PROVIDER_RL_MAX_DELAY_MS else d.

Definition jittered (base rnd : Z) : Z :=
  d_trunc (dadd (d_of_Z base)
    (dmul (dmul (ddiv (d_of_Z rnd) (d_of_Z 100)) (d_of_Z base)) PROVIDER_RL_JITTER_FACTOR)).

Definition rl_get_wait_ms {W} `{Platform W} (attempt : Z) (rl : provider_rate_limiter_t) (w : W)
    : Z * provider_rate_limiter_t * W :=
  if 0 <? retry_after_sec rl
  then (s32 (retry_after_sec rl * 1000),
        mkRl (rpm_window_start rl) (rpm_count rl) (rpm_limit rl) (last_429_time rl) 0
             (consecutive_429s rl), w)
  else let '(rnd, w') := airy_random_uint32 0 99 w in
       (jittered (delay_base attempt) rnd, rl, w').

(** ** Retry-After *)

Definition is_blank (c : ascii) : bool := Ascii.eqb c " " || Ascii.eqb c "009".

Definition parse_retry_after (headers_data : option string) : Z :=
  match headers_data with
  | None => 0
  | Some h =>
      match (match strstr "retry-after:" h with Some p => Some p | None => strstr "Retry-After:" h end) with
      | None => 0
      | Some p =>
          match cut_at ":" p with
          | (_, None) => 0
          | (_, Some q) =>
              let seconds := (strtol (skip_while is_blank q)).1 in
              if seconds <=? 0 then 0 else if 300 <? seconds then 300 else seconds
          end
      end
  end.

(** ** The request loop *)

(** [time (NULL)] of the world. *)
Class WallClock (W : Type) := time_sec : W -> Z.

Section request.
  Context {W : Type} `{P : Platform W} `{C : WallClock W}.
  Context (curl_perform : double -> W -> curl_out * W).
  (** Whether the allocation of the response succeeds. *)
  Context (calloc_ok : W -> bool).

(** The out parameters: HTTP code and response ([None] for NULL). *)
Definition rl_hold_429 (attempt : Z) (rl : provider_rate_limiter_t) (resp : option http_resp) (w : W)
      : provider_rate_limiter_t * W :=
    let retry_after := parse_retry_after (match resp with Some b => b | None => None end) in
    let rl1 := rl_record_429 (time_sec w) retry_after rl in
    let '(wait_ms, rl2, w1) := rl_get_wait_ms attempt rl1 w in
    (rl2, if 0 <? wait_ms then airy_sleep_ms (u32 wait_ms) w1 else w1).

Definition rl_hold_5xx (attempt : Z) (w : W) : W := airy_sleep_ms (u32 (delay_base attempt)) w.

Fixpoint request_loop (fuel : nat) (base_max_retries : Z) (cls : provider_retry_class_t)
      (budget : double) (idem : bool) (max_attempts attempt : Z) (rl : provider_rate_limiter_t)
      (http : Z) (resp : option http_resp) (w : W)
      : option (airy_rc * provider_rate_limiter_t * Z * option http_resp * W) :=
    match fuel with
    | O => None
    | S fuel' =>
        if max_attempts <=? attempt
        then Some (provider_http_err_map http AIRY_ERR_IO, rl, http, resp, w)
        else
          let '(ret, rl1) := rl_check_rpm (time_sec w) rl in
          if negb (bool_decide (ret = AIRY_SUCCESS))
          then request_loop fuel' base_max_retries cls budget idem max_attempts attempt rl1 http resp
                 (airy_sleep_ms 1000 w)
          else
            let '(rc, out, w1) := provider_http_post curl_perform (calloc_ok w) budget
                                    base_max_retries cls idem w in
            let http1 := match out with Some (c, _) => c | None => http end in
            let resp1 := match out with Some (_, b) => Some b | None => None end in
            if bool_decide (rc = AIRY_SUCCESS) && (http1 =? 200)
            then Some (AIRY_SUCCESS, rl_reset_429 rl1, http1, resp1, w1)
            else if http1 =? 429
            then let '(rl2, w2) := rl_hold_429 attempt rl1 resp1 w1 in
                 request_loop fuel' base_max_retries cls budget idem max_attempts (attempt + 1) rl2
                   http1 None w2
            else if (500 <=? http1) && (http1 <? 600) && (attempt <? max_attempts - 1)
            then request_loop fuel' base_max_retries cls budget idem max_attempts (attempt + 1) rl1
                   http1 None (rl_hold_5xx attempt w1)
            else Some (provider_http_err_map http1 AIRY_ERR_IO, rl1, http1, resp1, w1)
    end.

Definition provider_http_request_with_retry (fuel : nat) (base_max_retries : Z)
      (base_timeout : double) (cls : provider_retry_class_t) (tsec : double) (idem : bool)
      (rl : provider_rate_limiter_t) (http : Z) (resp : option http_resp) (w : W) :=
    let max_attempts := if 0 <? base_max_retries then base_max_retries else PROVIDER_RL_MAX_RETRIES in
    let budget := if dlt d_zero tsec then tsec else base_timeout in
    request_loop fuel base_max_retries cls budget idem max_attempts 0 rl http resp w.
End request.

(** ** The window *)

(** Checks at the given times: the number that passes and the limiter. *)
Fixpoint rl_checks (times : list Z) (rl : provider_rate_limiter_t) : Z * provider_rate_limiter_t :=
  match times with
  | [] => (0, rl)
  | t :: ts => let '(rc, rl1) := rl_check_rpm t rl in
               let '(n, rl2) := rl_checks ts rl1 in
               (if bool_decide (rc = AIRY_SUCCESS) then n + 1 else n, rl2)
  end.

(** The window cap.  Of any sequence of checks within one minute of the
    window's start, exactly as many pass as the window has room for; the
    counter rises by the number of checks that pass and stays within the
    limit. *)
Theorem rl_window_cap rl times :
  0 <= rpm_count rl <= rpm_limit rl ->
  Forall (fun t => t - rpm_window_start rl < 60) times ->
  let '(n, rl') := rl_checks times rl in
  n = Z.min (Z.of_nat (length times)) (rpm_limit rl - rpm_count rl) /\
  rpm_count rl' = rpm_count rl + n /\ rpm_count rl' <= rpm_limit rl'.
Proof.
  intros Hc HF. revert Hc. revert rl HF. induction times as [|t ts IH]; intros rl HF Hc.
  { simpl. lia. }
  apply Forall_cons in HF as [Ht HF]. cbn [rl_checks length]. unfold rl_check_rpm.
  destruct (Z.leb_spec 60 (t - rpm_window_start rl)); [lia|].
  rewrite Nat2Z.inj_succ. destruct (Z.leb_spec (rpm_limit rl) (rpm_count rl)).
  - specialize (IH rl HF Hc). destruct (rl_checks ts rl) as [n rl']. simpl. lia.
  - specialize (IH (mkRl (rpm_window_start rl) (rpm_count rl + 1) (rpm_limit rl)
      (last_429_time rl) (retry_after_sec rl) (consecutive_429s rl)) HF). simpl in IH.
    destruct (rl_checks ts _) as [n rl']. simpl. lia.
Qed.

Lemma rl_window_cap_witness :
  let '(n, rl') := rl_checks [100; 110; 130; 159] (mkRl 100 498 500 0 0 0) in
  n = 2 /\ rpm_count rl' = 500 /\ rpm_count rl' <= rpm_limit rl'.
Proof.
  refine (rl_window_cap (mkRl 100 498 500 0 0 0) [100; 110; 130; 159] _ _).
  - simpl. lia.
  - repeat constructor.
Defined.

(** ** Waiting times *)

Lemma delay_base_spec attempt :
  0 <= attempt < 22 ->
  delay_base attempt = Z.min (PROVIDER_RL_BASE_DELAY_MS * 2 ^ attempt) PROVIDER_RL_MAX_DELAY_MS.
Proof.
  intros Ha. unfold delay_base, PROVIDER_RL_BASE_DELAY_MS, PROVIDER_RL_MAX_DELAY_MS.
  rewrite Z.shiftl_mul_pow2 by lia.
  assert (2 ^ attempt <= 2 ^ 21) by (apply Z.pow_le_mono_r; lia).
  assert (1 <= 2 ^ attempt) by (apply Z.lt_pred_le, Z.pow_pos_nonneg; lia).
  change (2 ^ 21) with 2097152 in *.
  rewrite s32_small by lia. case_match; bool_cases; lia.
Qed.

Lemma delay_base_cases attempt :
  0 <= attempt < 22 -> delay_base attempt ∈ [1000; 2000; 4000; 8000; 16000; 32000; 60000].
Proof.
  intros Ha. rewrite delay_base_spec by done.
  unfold PROVIDER_RL_BASE_DELAY_MS, PROVIDER_RL_MAX_DELAY_MS.
  destruct (Z_lt_le_dec attempt 6) as [Hlt|Hge].
  - assert (attempt = 0 \/ attempt = 1 \/ attempt = 2 \/ attempt = 3 \/ attempt = 4 \/ attempt = 5)
      as [->|[->|[->|[->|[->| ->]]]]] by lia; apply (bool_decide_unpack _); reflexivity.
  - assert (2 ^ 6 <= 2 ^ attempt) by (apply Z.pow_le_mono_r; lia).
    change (2 ^ 6) with 64 in *. rewrite Z.min_r by lia. apply (bool_decide_unpack _). reflexivity.
Qed.

(** The jitter in binary64, for every base and every random draw. *)
Lemma jittered_range base rnd :
  base ∈ [1000; 2000; 4000; 8000; 16000; 32000; 60000] -> 0 <= rnd <= 99 ->
  base <= jittered base rnd /\ 5 * jittered base rnd < 6 * base.
Proof.
  intros Hb Hr.
  assert (forallb (fun b => forallb (fun r => (b <=? jittered b r) && (5 * jittered b r <? 6 * b))
            (seqZ 0 100)) [1000; 2000; 4000; 8000; 16000; 32000; 60000] = true) as HF
    by (vm_compute; reflexivity).
  rewrite forallb_forall in HF. specialize (HF base (proj1 (list_elem_of_In _ _) Hb)).
  rewrite forallb_forall in HF. specialize (HF rnd).
  assert (In rnd (seqZ 0 100)) as Hin by (apply list_elem_of_In, elem_of_seqZ; lia).
  specialize (HF Hin). bool_cases. lia.
Qed.

(** Waits after a 429.  With a server-given delay (at most 300 s by the
    parser) the wait is that delay; otherwise, for the first 22 attempts, it
    is the base second doubled per attempt, capped at one minute, plus a jitter
    of less than a fifth, computed in binary64. *)
Theorem rl_wait_bounds {W} `{RandomOk W} attempt rl (w : W) :
  0 <= attempt < 22 -> retry_after_sec rl <= 300 ->
  let '(wait, rl', _) := rl_get_wait_ms attempt rl w in
  let base := Z.min (PROVIDER_RL_BASE_DELAY_MS * 2 ^ attempt) PROVIDER_RL_MAX_DELAY_MS in
  retry_after_sec rl' <= 0 /\
  ((0 < retry_after_sec rl /\ wait = retry_after_sec rl * 1000) \/
   (retry_after_sec rl <= 0 /\ base <= wait /\ 5 * wait < 6 * base)).
Proof.
  intros Ha Hra. unfold rl_get_wait_ms. destruct (Z.ltb_spec 0 (retry_after_sec rl)).
  - simpl. split; [lia|]. left. split; [done|]. apply s32_small. lia.
  - pose proof (random_range 0 99 w ltac:(lia)) as Hr.
    destruct (airy_random_uint32 0 99 w) as [rnd w']. simpl in Hr.
    rewrite <- delay_base_spec by done. split; [done|]. right. split; [done|].
    apply jittered_range; [by apply delay_base_cases|done].
Qed.

Lemma rl_wait_bounds_witness :
  let '(wait, rl', _) := rl_get_wait_ms 3 (provider_rl_init 0) (mkToy 0 0 0 0 []) in
  8000 <= wait /\ 5 * wait < 6 * 8000.
Proof.
  pose proof (rl_wait_bounds 3 (provider_rl_init 0) (mkToy 0 0 0 0 []) ltac:(lia) ltac:(simpl; lia)) as H.
  destruct (rl_get_wait_ms _ _ _) as [[wait rl'] w'].
  destruct H as [_ [[C _]|(_ & H1 & H2)]]; [simpl in C; lia|]. split; [exact H1|exact H2].
Defined.

Lemma strtol_parse_range h : 0 <= parse_retry_after h <= 300.
Proof. unfold parse_retry_after. repeat case_match; bool_cases; lia. Qed.

(** ** Termination of the request loop *)

(** The wall clock never goes back, and a sleep of a second moves it by one. *)
Class ClockOk (W : Type) `{Platform W} `{WallClock W} (curl_perform : double -> W -> curl_out * W)
    : Prop := {
  ck_time : forall w, time_sec w <= time_sec (airy_time_ms w).2;
  ck_rand : forall lo hi w, time_sec w <= time_sec (airy_random_uint32 lo hi w).2;
  ck_sleep : forall d w, time_sec w + d / 1000 <= time_sec (airy_sleep_ms d w);
  ck_curl : forall b w, time_sec w <= time_sec (curl_perform b w).2
}.

Section termination.
  Context {W : Type} `{P : Platform W} `{C : WallClock W}.
  Context (curl_perform : double -> W -> curl_out * W) (calloc_ok : W -> bool).
  Context `{CK : !ClockOk W curl_perform}.

Lemma sleep_mono d w : 0 <= d -> time_sec w <= time_sec (airy_sleep_ms d w).
  Proof. intros Hd. pose proof (ck_sleep d w). pose proof (Z.div_pos d 1000 Hd). lia. Qed.

Lemma left_mono tsec st (wb : W * http_resp) :
    time_sec wb.1 <= time_sec (provider_left_sec tsec st wb).2.1.
  Proof.
    destruct wb as [w b]. unfold provider_left_sec. simpl. pose proof (ck_time w) as Ht.
    by destruct (airy_time_ms w).
  Qed.

Lemma wait_mono cfg st n local (wb : W * http_resp) :
    reset cfg = Some http_try_reset ->
    time_sec wb.1 <= time_sec (retry_wait cfg st n local wb).2.1.
  Proof.
    intros Hr. unfold retry_wait, provider_retry_budget_ok.
    assert (exists d w1, (if local then (PROVIDER_RETRY_LOCAL_MS, wb) else provider_backoff_ms n wb)
       = (d, w1) /\ 0 <= d /\ time_sec wb.1 <= time_sec w1.1) as (d & w1 & -> & Hd & Hw).
    { destruct local; [eexists _, _; split; [done|]; unfold PROVIDER_RETRY_LOCAL_MS; simpl; lia|].
      destruct wb as [w b]. unfold provider_backoff_ms.
      assert (0 <= backoff_base n) as Hb.
      { unfold backoff_base. destruct (backoff_loop_spec (Z.to_nat n) PROVIDER_RETRY_BASE_MS) as [H _];
          [unfold PROVIDER_RETRY_BASE_MS; lia|]. unfold PROVIDER_RETRY_MAX_MS. case_match; lia. }
      case_match; [eexists _, _; split; [done|]; simpl; lia|].
      cbn. pose proof (ck_rand 0 (u32 (backoff_jitter n * 2)) w) as Ht.
      destruct (airy_random_uint32 _ _ w) as [r w']. eexists _, _. split; [done|]. simpl in *.
      split; [apply u32_range|done]. }
    pose proof (left_mono (timeout_sec cfg) st w1) as Hl.
    destruct (provider_left_sec (timeout_sec cfg) st w1) as [l [w2 b2]]. simpl in Hl.
    case_match; simpl; [lia|]. rewrite Hr. simpl. pose proof (sleep_mono d w2 Hd). lia.
  Qed.

Lemma post_loop_mono turns tsec mr maxr cls idem st n local res http tmo (wb : W * http_resp) :
    let cfg := mkCfg tsec mr cls idem (http_try curl_perform tsec) None (Some http_try_reset) in
    time_sec wb.1 <= time_sec (retry_loop turns cfg maxr st n local res http tmo wb).2.1.
  Proof.
    intros cfg. revert n res http tmo wb.
    induction turns as [|turns IH]; intros n res http tmo wb; cbn [retry_loop]; [done|].
    pose proof (left_mono (timeout_sec cfg) st wb) as Hl.
    destruct (provider_left_sec _ _ _) as [l [w1 b1]]. simpl in Hl.
    assert (time_sec w1 <= time_sec (attempt cfg n l (w1, b1)).2.1) as Ha.
    { cbn [attempt cfg]. unfold http_try.
      pose proof (ck_curl (if n =? 0 then tsec else l) w1) as Hk.
      destruct (curl_perform _ w1). simpl in Hk. repeat case_match; simpl; done. }
    destruct (attempt cfg n l (w1, b1)) as [o wb2]. simpl in Ha.
    destruct (ao_status o); simpl; [lia| |lia].
    destruct (_ || negb _); [simpl; lia|]. cbn [gate_ok gate cfg].
    pose proof (wait_mono cfg st n local wb2 eq_refl) as Hw.
    simpl. destruct (retry_wait cfg st n local wb2) as [go wb3]. simpl in Hw.
    destruct go; simpl; [|lia].
    specialize (IH (n + 1) (ao_res o) (default http (ao_http o)) (ao_tmo o) wb3). lia.
  Qed.

Lemma post_mono ok tsec maxr cls idem w :
    time_sec w <= time_sec (provider_http_post curl_perform ok tsec maxr cls idem w).2.
  Proof.
    unfold provider_http_post, provider_retry_run. destruct ok; simpl; [|done].
    pose proof (ck_time w) as Ht. destruct (airy_time_ms w) as [st w1]. simpl in Ht.
    set (m := if 0 <? maxr then maxr else 0).
    pose proof (post_loop_mono (Z.to_nat (m + 1)) tsec maxr m cls idem st 0
      (bool_decide (cls = PROVIDER_RETRY_CONNECT_ONLY)) CURLE_OK 0 PROV_TMO_KIND_N (w1, None)) as Hm.
    cbv zeta in Hm. simpl in Hm.
    destruct (retry_loop _ _ _ _ _ _ _ _ _ _) as [[[[r c] t]|] [w2 b2]]; simpl in *; [|lia].
    destruct r, t; simpl; lia.
  Qed.

Lemma hold_429_mono attempt rl resp w :
    time_sec w <= time_sec (rl_hold_429 attempt rl resp w).2 /\
    rpm_window_start (rl_hold_429 attempt rl resp w).1 = rpm_window_start rl /\
    rpm_limit (rl_hold_429 attempt rl resp w).1 = rpm_limit rl.
  Proof.
    unfold rl_hold_429, rl_get_wait_ms.
    assert (forall x w', time_sec w' <= time_sec (if 0 <? x then airy_sleep_ms (u32 x) w' else w')) as Hs.
    { intros x w'. destruct (0 <? x); [apply sleep_mono, u32_range|done]. }
    destruct (0 <? retry_after_sec _); [split; [apply Hs|done]|].
    pose proof (ck_rand 0 99 w) as Hr. destruct (airy_random_uint32 0 99 w) as [rnd w'].
    simpl in *. split; [|done]. specialize (Hs (jittered (delay_base attempt) rnd) w'). lia.
  Qed.

(** Turns the loop may still spend waiting for the current window to end. *)
Definition window_left (rl : provider_rate_limiter_t) (w : W) : Z :=
    Z.max 0 (60 - (time_sec w - rpm_window_start rl)).

Lemma check_rpm_cases rl w :
    0 < rpm_limit rl -> rpm_window_start rl <= time_sec w ->
    let '(rc, rl1) := rl_check_rpm (time_sec w) rl in
    rpm_limit rl1 = rpm_limit rl /\ rpm_window_start rl1 <= time_sec w /\
    (rc = AIRY_SUCCESS \/
     rc = AIRY_ERR_LLM_RATE_LIMIT /\ rl1 = rl /\ 0 < window_left rl w).
  Proof.
    intros Hl Hw. unfold rl_check_rpm, window_left.
    destruct (Z.leb_spec 60 (time_sec w - rpm_window_start rl)); simpl.
    - destruct (Z.leb_spec (rpm_limit rl) 0); [lia|]. simpl. repeat split; [lia|by left].
    - destruct (Z.leb_spec (rpm_limit rl) (rpm_count rl)); simpl; repeat split; try lia; [right|by left].
      repeat split. lia.
  Qed.

Lemma request_loop_total fuel mr cls budget idem max_attempts attempt rl http resp w :
    0 < rpm_limit rl -> rpm_window_start rl <= time_sec w ->
    62 * Z.max 0 (max_attempts - attempt) + window_left rl w < Z.of_nat fuel ->
    is_Some (request_loop curl_perform calloc_ok fuel mr cls budget idem max_attempts attempt rl
               http resp w).
  Proof.
    revert attempt rl http resp w. induction fuel as [|fuel IH]; intros attempt rl http resp w Hl Hw Hf.
    { unfold window_left in Hf. lia. }
    cbn [request_loop]. destruct (Z.leb_spec max_attempts attempt); [by eexists|].
    pose proof (check_rpm_cases rl w Hl Hw) as Hc.
    destruct (rl_check_rpm (time_sec w) rl) as [rc rl1]. destruct Hc as (Hl1 & Hw1 & Hc).
    destruct Hc as [->|(-> & -> & Hleft)].
    2:{ simpl. pose proof (ck_sleep 1000 w) as Hs. change (1000 / 1000) with 1 in Hs.
        apply IH; [done|lia|]. unfold window_left in *. lia. }
    rewrite bool_decide_eq_true_2 by done. cbn [negb].
    pose proof (post_mono (calloc_ok w) budget mr cls idem w) as Hp.
    destruct (provider_http_post _ _ _ _ _ _ w) as [[rc out] w1]. cbn [snd] in Hp.
    set (http1 := match out with Some (c, _) => c | None => http end).
    set (resp1 := match out with Some (_, b) => Some b | None => None end).
    assert (forall rl' w', rpm_window_start rl' <= time_sec w' ->
       62 * Z.max 0 (max_attempts - (attempt + 1)) + window_left rl' w' < Z.of_nat fuel) as Hnext.
    { intros rl' w' Hw'. unfold window_left in *. lia. }
    destruct (_ && (http1 =? 200)); [by eexists|].
    destruct (http1 =? 429).
    { destruct (hold_429_mono attempt rl1 resp1 w1) as (Hh1 & Hh2 & Hh3).
      destruct (rl_hold_429 attempt rl1 resp1 w1) as [rl2 w2]. simpl in Hh1, Hh2, Hh3.
      apply IH; [lia|lia|]. apply Hnext. lia. }
    destruct (_ && (attempt <? max_attempts - 1)); [|by eexists].
    assert (time_sec w1 <= time_sec (rl_hold_5xx attempt w1)) as Hx
      by (apply sleep_mono, u32_range).
    apply IH; [lia|lia|]. apply Hnext. lia.
  Qed.

(** The request loop terminates.  With a positive limit, a window that did
    not start in the future and a wall clock that advances, the loop returns
    after at most [62 * max_attempts + 61] turns, although a turn that finds
    the window full does not count as an attempt. *)
Theorem with_retry_terminates mr base_timeout cls tsec idem rl http resp w :
    0 < rpm_limit rl -> rpm_window_start rl <= time_sec w ->
    let max_attempts := if 0 <? mr then mr else PROVIDER_RL_MAX_RETRIES in
    is_Some (provider_http_request_with_retry curl_perform calloc_ok
      (Z.to_nat (62 * max_attempts + 61)) mr base_timeout cls tsec idem rl http resp w).
  Proof.
    intros Hl Hw n. unfold provider_http_request_with_retry.
    assert (0 < n) by (unfold n, PROVIDER_RL_MAX_RETRIES; case_match; bool_cases; lia).
    apply request_loop_total; [done|done|]. unfold window_left, n in *. lia.
  Qed.
End termination.

(** ** Results *)

Lemma post_out_some {W} `{Platform W} curl_perform ok tsec maxr cls idem (w : W) out w' :
  provider_http_post curl_perform ok tsec maxr cls idem w = (AIRY_SUCCESS, out, w') -> is_Some out.
Proof.
  unfold provider_http_post. destruct ok; cbn [negb]; [|done].
  match goal with |- context [provider_retry_run ?c ?x] =>
    destruct (provider_retry_run c x) as [[rc o] [w2 b2]] end.
  destruct rc; try done. destruct o as [[[r c] t]|]; [|done].
  destruct r, t; try done; intros [= <- _]; by eexists.
Qed.

Lemma request_loop_code {W} `{Platform W} `{WallClock W} curl_perform calloc_ok fuel mr cls budget idem
    max_attempts attempt rl http resp (w : W) rc rl' http' resp' w' :
  request_loop curl_perform calloc_ok fuel mr cls budget idem max_attempts attempt rl http resp w
    = Some (rc, rl', http', resp', w') ->
  (rc = AIRY_SUCCESS /\ http' = 200 /\ consecutive_429s rl' = 0 /\ is_Some resp') \/
  rc = provider_http_err_map http' AIRY_ERR_IO.
Proof.
  revert attempt rl http resp w. induction fuel as [|fuel IH]; intros attempt rl http resp w; [done|].
  cbn [request_loop]. destruct (max_attempts <=? attempt); [intros [= <- <- <- <- <-]; by right|].
  destruct (rl_check_rpm (time_sec w) rl) as [ret rl1].
  destruct (negb (bool_decide (ret = AIRY_SUCCESS))); [apply IH|].
  destruct (provider_http_post _ _ _ _ _ _ w) as [[rc1 out] w1] eqn:Ep.
  destruct (_ && _) eqn:Eok.
  { intros [= <- <- <- <- <-]. left. bool_cases. apply bool_decide_eq_true in H1. subst rc1.
    split; [done|]. split; [done|]. split; [done|].
    apply post_out_some in Ep. destruct out as [[c b]|]; [by eexists|by destruct Ep]. }
  destruct (_ =? 429).
  { destruct (rl_hold_429 _ _ _ _) as [rl2 w2]. apply IH. }
  destruct (_ && (attempt <? max_attempts - 1)); [apply IH|].
  intros [= <- <- <- <- <-]. by right.
Qed.

(** The outcome of a request.  A finished request either succeeded with
    HTTP status 200, handing out a response and clearing the 429 state, or
    returns the error its last recorded status maps to: authentication for 401
    and 403, rate limit for 429, bad request for 400 and 422, and an I/O error
    for every other status. *)
Theorem with_retry_outcome {W} `{Platform W} `{WallClock W} curl_perform calloc_ok fuel mr bt cls tsec idem
    rl http resp (w : W) rc rl' http' resp' w' :
  provider_http_request_with_retry curl_perform calloc_ok fuel mr bt cls tsec idem rl http resp w
    = Some (rc, rl', http', resp', w') ->
  (rc = AIRY_SUCCESS /\ http' = 200 /\ consecutive_429s rl' = 0 /\ is_Some resp') \/
  (rc <> AIRY_SUCCESS /\ rc = provider_http_err_map http' AIRY_ERR_IO).
Proof.
  intros Hr. apply request_loop_code in Hr as [Hr| ->]; [by left|right].
  split; [|done]. unfold provider_http_err_map. by repeat case_match.
Qed.

(** ** Concrete runs *)

#[export] Instance toy_clock : WallClock toy := fun w => ty_ms w / 1000.

#[export] Instance toy_clock_ok : ClockOk toy toy_curl.
Proof.
  split; unfold time_sec, toy_clock; intros; simpl; try lia.
  rewrite <- Z.div_add by lia. Z.div_mod_to_equations; lia.
Qed.

Definition toy_alloc (w : toy) : bool := true.

Lemma with_retry_terminates_witness :
  is_Some (provider_http_request_with_retry toy_curl toy_alloc (Z.to_nat (62 * 2 + 61)) 2 (d_of_Z 60)
    PROVIDER_RETRY_DEFAULT d_zero false (mkRl 1 500 500 0 0 0) 0 None (mkToy 1000 0 0 0 toy_script_1)).
Proof.
  apply (with_retry_terminates toy_curl toy_alloc 2 (d_of_Z 60) PROVIDER_RETRY_DEFAULT d_zero false
    (mkRl 1 500 500 0 0 0) 0 None (mkToy 1000 0 0 0 toy_script_1)); [simpl; lia|].
  vm_compute. discriminate.
Defined.

Definition one_answer : toy := mkToy 1000 0 0 0 [transfer CURLE_OK 200 "body"].

Lemma with_retry_outcome_witness :
  exists rc rl' http' resp' w', provider_http_request_with_retry toy_curl toy_alloc 5 2 (d_of_Z 60)
      PROVIDER_RETRY_DEFAULT d_zero false (provider_rl_init 0) 0 None one_answer
      = Some (rc, rl', http', resp', w') /\
  ((rc = AIRY_SUCCESS /\ http' = 200 /\ consecutive_429s rl' = 0 /\ is_Some resp') \/
   (rc <> AIRY_SUCCESS /\ rc = provider_http_err_map http' AIRY_ERR_IO)).
Proof.
  destruct (provider_http_request_with_retry toy_curl toy_alloc 5 2 (d_of_Z 60)
      PROVIDER_RETRY_DEFAULT d_zero false (provider_rl_init 0) 0 None one_answer)
    as [[[[[rc rl'] http'] resp'] w']|] eqn:E.
  - exists rc, rl', http', resp', w'. split; [reflexivity|].
    exact (with_retry_outcome toy_curl toy_alloc 5 2 (d_of_Z 60) PROVIDER_RETRY_DEFAULT d_zero false
      (provider_rl_init 0) 0 None one_answer rc rl' http' resp' w' E).
  - vm_compute in E. discriminate E.
Defined.

(** A stale status is acted on.  [provider_http_post] writes the HTTP code
    only when a transfer completes, and the request loop does not clear it: if
    the first answer is 429 and the connection then breaks, every later
    transport failure is counted as another 429 and the request ends with a
    rate-limit error although the last three transfers never got an answer. *)
Theorem stale_status_reused :
  exists rl' w', provider_http_request_with_retry toy_curl toy_alloc 20 4 (d_of_Z 60)
      PROVIDER_RETRY_DEFAULT d_zero false (provider_rl_init 0) 0 None
      (mkToy 1000 0 0 0 [transfer CURLE_OK 429 "slow down"; transfer CURLE_RECV_ERROR 0 "";
                         transfer CURLE_RECV_ERROR 0 ""; transfer CURLE_RECV_ERROR 0 ""])
      = Some (AIRY_ERR_LLM_RATE_LIMIT, rl', 429, None, w') /\
    consecutive_429s rl' = 4 /\ ty_script w' = [].
Proof. eexists _, _. split; [vm_compute; reflexivity|]. split; reflexivity. Qed.
