(* ===== verification/Supervisor.v ===== *)
(** * Supervisor

    The process domain of supervisor_d (supervisor_d/src/proc/proc.c, the POSIX
    branch, and the life cycle of svc.c): spawn, reap, exponential back-off,
    reconciliation of desired and actual state, liveness probing, activation on
    demand and shutdown.  The operating system is a class of operations on a
    world [W].  The process table is the list of its live entries. *)

From S2P Require Import Prelude.

(** ** Data *)

Definition SUP_PID_INVALID : Z := -1.
Definition SUP_ARGV_MAX : nat := 64.
Definition SUP_ARGS_MAX : nat := 512.
Definition SUP_TERM_GRACE_MS : Z := 5000.
Definition SIGKILL : Z := 9.
Definition SIGTERM : Z := 15.

Inductive sup_role_t := SUP_ROLE_CORE | SUP_ROLE_AUX.

#[export] Instance sup_role_t_eq_dec : EqDecision sup_role_t.
Proof. solve_decision. Defined.

Inductive sup_state_t :=
| SUP_ST_STOPPED | SUP_ST_STARTING | SUP_ST_RUNNING | SUP_ST_BACKOFF | SUP_ST_FAILED.

#[export] Instance sup_state_t_eq_dec : EqDecision sup_state_t.
Proof. solve_decision. Defined.

Record sup_proc_t := mkProc {
  name : string;
  bin : string;
  sock : string;
  args : string;
  role : sup_role_t;
  state : sup_state_t;
  pid : Z;
  fail_count : Z;
  next_ms : Z;
  dead_ticks : Z;
  last_death : string
}.

Record sup_ctx_t := mkSup {
  procs : list sup_proc_t;
  airy_home : string;
  runtime_dir : string;
  log_dir : string;
  ctrl_ep : string;
  tick_ms : Z;
  backoff_base_ms : Z;
  backoff_max_ms : Z;
  max_attempts : Z;
  liveness_ticks : Z;
  shutdown : bool
}.

Definition set_procs (c : sup_ctx_t) (l : list sup_proc_t) : sup_ctx_t :=
  mkSup l (airy_home c) (runtime_dir c) (log_dir c) (ctrl_ep c) (tick_ms c) (backoff_base_ms c)
        (backoff_max_ms c) (max_attempts c) (liveness_ticks c) (shutdown c).

Definition set_shutdown (c : sup_ctx_t) : sup_ctx_t :=
  mkSup (procs c) (airy_home c) (runtime_dir c) (log_dir c) (ctrl_ep c) (tick_ms c)
        (backoff_base_ms c) (backoff_max_ms c) (max_attempts c) (liveness_ticks c) true.

(** The mutable fields of an entry. *)
Definition upd (p : sup_proc_t) (st : sup_state_t) (i f n d : Z) (c : string) : sup_proc_t :=
  mkProc (name p) (bin p) (sock p) (args p) (role p) st i f n d c.

(** Result of [waitpid (pid, &st, options)]. *)
Inductive wait_res :=
| WRunning                    (** returns 0 *)
| WError (err : Z)            (** returns a negative value, with [errno] *)
| WExited (code : Z)
| WSignaled (sig : Z)
| WStatus (st : Z).

Definition EINTR : Z := 4.
Definition ECHILD : Z := 10.

Class SupOS (W : Type) := {
  sup_now_ms : W -> Z * W;
  (** [fork] and [execv] of the command: [None] when the fork fails. *)
  fork_exec : string -> list string -> W -> option Z * W;
  waitpid_nohang : Z -> W -> wait_res * W;
  waitpid_block : Z -> W -> wait_res * W;
  kill : Z -> Z -> W -> W;
  sup_probe_sock : string -> W -> bool * W;
  nanosleep_100ms : W -> W
}.

(** ** Back-off *)

(** The doubling loop with [n] turns left. *)
Fixpoint sup_backoff_loop (n : nat) (ms bmax : Z) : Z :=
  match n with
  | O => ms
  | S n' => if ms <? bmax then sup_backoff_loop n' (ms * 2) bmax else ms
  end.

Definition sup_backoff_ms (ctx : sup_ctx_t) (fails : Z) : Z :=
  let ms := sup_backoff_loop (Z.to_nat (fails - 1)) (backoff_base_ms ctx) (backoff_max_ms ctx) in
  if ms <? backoff_max_ms ctx then ms else backoff_max_ms ctx.

(** ** Arguments *)

Definition is_sep (c : ascii) : bool := Ascii.eqb c " " || Ascii.eqb c "009".

(** [strtok_r (s, " \t")]: the maximal runs of other characters. *)
Fixpoint strtok_all (s : string) (cur : string) : list string :=
  match s with
  | EmptyString => if strcmp_eq cur "" then [] else [cur]
  | String c s' =>
      if is_sep c then (if strcmp_eq cur "" then strtok_all s' "" else cur :: strtok_all s' "")
      else strtok_all s' (cur +:+ String c "")
  end.

Section proc.
  Context {W : Type} `{OS : SupOS W}.

(** ** Spawn *)

Definition spawn_posix (p : sup_proc_t) (w : W) : option Z * W :=
    let toks := strtok_all (snprintf_s SUP_ARGS_MAX (args p)) "" in
    if (SUP_ARGV_MAX - 2 <? length toks)%nat then (None, w)
    else fork_exec (bin p) toks w.

Definition sup_proc_spawn (p : sup_proc_t) (w : W) : bool * sup_proc_t * W :=
    if negb (pid p =? SUP_PID_INVALID) then (true, p, w)
    else
      let '(r, w') := spawn_posix p w in
      match r with
      | None => (false, upd p (state p) (pid p) (fail_count p + 1) (next_ms p) (dead_ticks p)
                          (last_death p), w')
      | Some i => (true, upd p SUP_ST_STARTING i (fail_count p) (next_ms p) 0 (last_death p), w')
      end.

Definition spawn_or_backoff (ctx : sup_ctx_t) (now : Z) (p : sup_proc_t) (w : W) : sup_proc_t * W :=
    let '(ok, p', w') := sup_proc_spawn p w in
    if ok then (p', w')
    else (upd p' SUP_ST_BACKOFF (pid p') (fail_count p') (now + sup_backoff_ms ctx (fail_count p'))
              (dead_ticks p') (last_death p'), w').

(** ** Reap *)

Definition death_cause (r : wait_res) : string :=
  match r with
  | WRunning => ""
  | WError e => "wait-error=" +:+ print_d e
  | WExited c => "exit=" +:+ print_d c
  | WSignaled s => "signal=" +:+ print_d s
  | WStatus s => "status=0x" +:+ print_x s
  end.

Definition still_running (r : wait_res) : bool :=
  match r with
  | WRunning => true
  | WError e => e =? EINTR
  | _ => false
  end.

Definition reap_one (ctx : sup_ctx_t) (p : sup_proc_t) (w : W) : sup_proc_t * W :=
    if pid p =? SUP_PID_INVALID then (p, w)
    else
      let '(r, w1) := waitpid_nohang (pid p) w in
      if still_running r then (p, w1)
      else
        let fails := fail_count p + 1 in
        let cause := snprintf_s 128 (snprintf_s 96 (death_cause r)) in
        match role p with
        | SUP_ROLE_CORE =>
            let '(now, w2) := sup_now_ms w1 in
            (upd p SUP_ST_BACKOFF SUP_PID_INVALID fails (now + sup_backoff_ms ctx fails)
                 (dead_ticks p) cause, w2)
        | SUP_ROLE_AUX =>
            (upd p SUP_ST_STOPPED SUP_PID_INVALID fails (next_ms p) (dead_ticks p) cause, w1)
        end.

(** The loops over the table visit the entries in order. *)
Fixpoint for_procs (f : sup_proc_t -> W -> sup_proc_t * W) (l : list sup_proc_t) (w : W)
      : list sup_proc_t * W :=
    match l with
    | [] => ([], w)
    | p :: l' => let '(p', w1) := f p w in
                 let '(l'', w2) := for_procs f l' w1 in (p' :: l'', w2)
    end.

Definition sup_proc_reap (ctx : sup_ctx_t) (w : W) : sup_ctx_t * W :=
    let '(l, w') := for_procs (reap_one ctx) (procs ctx) w in (set_procs ctx l, w').

(** ** Liveness *)

Definition sup_health_tick (ctx : sup_ctx_t) (p : sup_proc_t) (w : W) : sup_proc_t * W :=
    if pid p =? SUP_PID_INVALID then (p, w)
    else if strcmp_eq (sock p) "" then
      (if decide (state p = SUP_ST_STARTING)
       then upd p SUP_ST_RUNNING (pid p) 0 (next_ms p) (dead_ticks p) (last_death p) else p, w)
    else
      let '(ok, w1) := sup_probe_sock (sock p) w in
      if ok then (upd p SUP_ST_RUNNING (pid p) 0 (next_ms p) 0 (last_death p), w1)
      else
        let p' := upd p (state p) (pid p) (fail_count p) (next_ms p) (dead_ticks p + 1)
                      (last_death p) in
        (p', if liveness_ticks ctx <=? dead_ticks p' then kill (pid p) SIGKILL w1 else w1).

(** ** Reconciliation *)

Definition reconcile_one (ctx : sup_ctx_t) (now : Z) (p : sup_proc_t) (w : W) : sup_proc_t * W :=
    match role p with
    | SUP_ROLE_AUX => (p, w)
    | SUP_ROLE_CORE =>
        match state p with
        | SUP_ST_STOPPED => spawn_or_backoff ctx now p w
        | SUP_ST_BACKOFF =>
            if next_ms p <=? now then
              if max_attempts ctx <=? fail_count p
              then (upd p SUP_ST_FAILED (pid p) (fail_count p) (next_ms p) (dead_ticks p)
                        (last_death p), w)
              else spawn_or_backoff ctx now p w
            else (p, w)
        | SUP_ST_STARTING | SUP_ST_RUNNING => sup_health_tick ctx p w
        | SUP_ST_FAILED => (p, w)
        end
    end.

Definition sup_reconcile (ctx : sup_ctx_t) (w : W) : sup_ctx_t * W :=
    let '(now, w1) := sup_now_ms w in
    let '(ctx1, w2) := sup_proc_reap ctx w1 in
    let '(l, w3) := for_procs (reconcile_one ctx1 now) (procs ctx1) w2 in
    (set_procs ctx1 l, w3).

(** ** Activation *)

Fixpoint find_from (i : nat) (n : string) (l : list sup_proc_t) : option nat :=
    match l with
    | [] => None
    | p :: l' => if strcmp_eq (name p) n then Some i else find_from (S i) n l'
    end.

Definition sup_proc_find (l : list sup_proc_t) (n : option string) : option nat :=
    match n with
    | None => None
    | Some n => if strcmp_eq n "" then None else find_from 0 n l
    end.

(** [true] for the return value 0. *)
Definition sup_activate (ctx : sup_ctx_t) (n : option string) (w : W) : bool * sup_ctx_t * W :=
    match i ← sup_proc_find (procs ctx) n; p ← procs ctx !! i; Some (i, p) with
    | None => (false, ctx, w)
    | Some (i, p) =>
        if negb (pid p =? SUP_PID_INVALID) then (true, ctx, w)
        else
          let p1 := upd p SUP_ST_STOPPED (pid p) 0 (next_ms p) (dead_ticks p) (last_death p) in
          let '(now, w1) := sup_now_ms w in
          let '(p2, w2) := spawn_or_backoff ctx now p1 w1 in
          (bool_decide (state p2 = SUP_ST_STARTING),
           set_procs ctx (<[i := p2]> (procs ctx)), w2)
    end.

(** ** Shutdown *)

Definition set_pid (p : sup_proc_t) (i : Z) : sup_proc_t :=
    upd p (state p) i (fail_count p) (next_ms p) (dead_ticks p) (last_death p).

Definition term_one (p : sup_proc_t) (w : W) : sup_proc_t * W :=
    if pid p =? SUP_PID_INVALID then (p, w) else (p, kill (pid p) SIGTERM w).

(** One entry of a poll of the grace period; the entry stays live unless
    [waitpid] returns its pid or reports that there is no such child. *)
Definition poll_one (p : sup_proc_t) (w : W) : sup_proc_t * W :=
    if pid p =? SUP_PID_INVALID then (p, w)
    else let '(r, w') := waitpid_nohang (pid p) w in
         match r with
         | WRunning => (p, w')
         | WError e => (if e =? ECHILD then set_pid p SUP_PID_INVALID else p, w')
         | _ => (set_pid p SUP_PID_INVALID, w')
         end.

Definition live_pid (p : sup_proc_t) : bool := negb (pid p =? SUP_PID_INVALID).

(** The polling loop: [None] when the fuel runs out. *)
Fixpoint grace_loop (fuel : nat) (deadline : Z) (l : list sup_proc_t) (w : W)
      : option (list sup_proc_t * W) :=
    match fuel with
    | O => None
    | S fuel' =>
        let '(l1, w1) := for_procs poll_one l w in
        if negb (existsb live_pid l1) then Some (l1, w1)
        else let '(now, w2) := sup_now_ms w1 in
             if deadline <=? now then Some (l1, w2)
             else grace_loop fuel' deadline l1 (nanosleep_100ms w2)
    end.

Definition kill_one (p : sup_proc_t) (w : W) : sup_proc_t * W :=
    if pid p =? SUP_PID_INVALID then (p, w) else (p, kill (pid p) SIGKILL w).

Definition interrupted (r : wait_res) : bool := match r with WError e => e =? EINTR | _ => false end.

(** The loop of the last [waitpid]: again while a signal interrupts it; [None]
    when the fuel runs out. *)
Fixpoint bury_wait (fuel : nat) (i : Z) (w : W) : option W :=
    match fuel with
    | O => None
    | S fuel' => let '(r, w') := waitpid_block i w in if interrupted r then bury_wait fuel' i w' else Some w'
    end.

Definition bury_one (fuel : nat) (p : sup_proc_t) (w : W) : option (sup_proc_t * W) :=
    if pid p =? SUP_PID_INVALID then Some (p, w)
    else match bury_wait fuel (pid p) w with
         | Some w' => Some (set_pid p SUP_PID_INVALID, w')
         | None => None
         end.

Fixpoint bury_procs (fuel : nat) (l : list sup_proc_t) (w : W) : option (list sup_proc_t * W) :=
    match l with
    | [] => Some ([], w)
    | p :: l' =>
        match bury_one fuel p w with
        | None => None
        | Some (p', w1) =>
            match bury_procs fuel l' w1 with Some (l'', w2) => Some (p' :: l'', w2) | None => None end
        end
    end.

Definition sup_shutdown_all (fuel : nat) (ctx : sup_ctx_t) (w : W) : option (sup_ctx_t * W) :=
    let '(l1, w1) := for_procs term_one (procs ctx) w in
    let '(now, w2) := sup_now_ms w1 in
    match grace_loop fuel (now + SUP_TERM_GRACE_MS) l1 w2 with
    | None => None
    | Some (l2, w3) =>
        let '(l3, w4) := for_procs kill_one l2 w3 in
        match bury_procs fuel l3 w4 with Some (l4, w5) => Some (set_procs ctx l4, w5) | None => None end
    end.

(** ** One round of the main loop *)

(** [g_stop] is the signal flag as read before and after reconciliation, and
    [serve] the control port; [true] asks the caller to stop. *)
Definition sup_svc_step (g_stop1 g_stop2 : bool) (serve : sup_ctx_t -> W -> sup_ctx_t * W)
      (ctx : sup_ctx_t) (w : W) : bool * sup_ctx_t * W :=
    if g_stop1 || shutdown ctx then (true, ctx, w)
    else
      let '(ctx1, w1) := sup_reconcile ctx w in
      if g_stop2 || shutdown ctx1 then (true, ctx1, w1)
      else let '(ctx2, w2) := serve ctx1 w1 in (false, ctx2, w2).
End proc.

(** ** Back-off *)

Lemma sup_backoff_loop_spec n ms bmax :
  0 < ms ->
  0 < sup_backoff_loop n ms bmax /\
  Z.min (sup_backoff_loop n ms bmax) bmax = Z.min (ms * 2 ^ Z.of_nat n) bmax.
Proof.
  revert ms. induction n as [|n IH]; intros ms Hm; cbn [sup_backoff_loop].
  { rewrite Z.mul_1_r. done. }
  rewrite Nat2Z.inj_succ, Z.pow_succ_r by lia.
  assert (0 < 2 ^ Z.of_nat n) by (apply Z.pow_pos_nonneg; lia).
  destruct (Z.ltb_spec ms bmax).
  - destruct (IH (ms * 2)) as [H1 H2]; [lia|]. split; [done|]. rewrite H2. f_equal. lia.
  - split; [done|]. assert (bmax <= ms * (2 * 2 ^ Z.of_nat n)) by nia. lia.
Qed.

(** The restart delay.  After [fails] consecutive failures the delay is the
    base doubled [fails - 1] times, capped at the maximum; every intermediate
    product stays below twice the maximum, so a cap of at most 2^62 never
    overflows the 64-bit counter. *)
Theorem sup_backoff_formula ctx fails :
  0 < backoff_base_ms ctx -> 1 <= fails ->
  sup_backoff_ms ctx fails = Z.min (backoff_base_ms ctx * 2 ^ (fails - 1)) (backoff_max_ms ctx) /\
  (backoff_base_ms ctx <= backoff_max_ms ctx -> forall n,
     sup_backoff_loop n (backoff_base_ms ctx) (backoff_max_ms ctx) < 2 * backoff_max_ms ctx).
Proof.
  intros Hb Hf. split.
  - unfold sup_backoff_ms.
    destruct (sup_backoff_loop_spec (Z.to_nat (fails - 1)) (backoff_base_ms ctx) (backoff_max_ms ctx) Hb)
      as [_ He]. rewrite Z2Nat.id in He by lia. rewrite <- He. case_match; bool_cases; lia.
  - intros Hbm n.
    assert (forall ms, 0 < ms < 2 * backoff_max_ms ctx ->
      sup_backoff_loop n ms (backoff_max_ms ctx) < 2 * backoff_max_ms ctx) as Hg; [|apply Hg; lia].
    induction n as [|n IH]; intros ms Hm; simpl; [lia|]. case_match; bool_cases; [|lia].
    apply IH. lia.
Qed.

Lemma sup_backoff_formula_witness :
  sup_backoff_ms (mkSup [] "" "" "" "" 5000 1000 30000 5 3 false) 4 = 8000.
Proof.
  exact (proj1 (sup_backoff_formula (mkSup [] "" "" "" "" 5000 1000 30000 5 3 false) 4
    ltac:(simpl; lia) ltac:(lia))).
Defined.

(** ** The life cycle of one process *)

Inductive sup_ev := EvDied | EvSpawned | EvSpawnFailed | EvHealthy | EvSilent | EvGaveUp | EvActivated.

#[export] Instance sup_ev_eq_dec : EqDecision sup_ev.
Proof. solve_decision. Defined.

(** May the automatic path start the process? *)
Definition may_spawn (ctx : sup_ctx_t) (p : sup_proc_t) : Prop :=
  state p = SUP_ST_STOPPED /\ fail_count p = 0 \/
  state p = SUP_ST_BACKOFF /\ role p = SUP_ROLE_CORE /\ fail_count p < max_attempts ctx.

(** The state machine of the interface: one step per observable event. *)
Inductive proc_step (ctx : sup_ctx_t) : sup_proc_t -> sup_ev -> sup_proc_t -> Prop :=
| ps_died p n c :
    pid p <> SUP_PID_INVALID ->
    proc_step ctx p EvDied
      (upd p (match role p with SUP_ROLE_CORE => SUP_ST_BACKOFF | SUP_ROLE_AUX => SUP_ST_STOPPED end)
         SUP_PID_INVALID (fail_count p + 1) n (dead_ticks p) c)
| ps_spawned p i :
    pid p = SUP_PID_INVALID -> 0 < i -> may_spawn ctx p ->
    proc_step ctx p EvSpawned (upd p SUP_ST_STARTING i (fail_count p) (next_ms p) 0 (last_death p))
| ps_spawn_failed p n :
    pid p = SUP_PID_INVALID -> may_spawn ctx p ->
    proc_step ctx p EvSpawnFailed
      (upd p SUP_ST_BACKOFF (pid p) (fail_count p + 1) n (dead_ticks p) (last_death p))
| ps_healthy p d :
    pid p <> SUP_PID_INVALID -> role p = SUP_ROLE_CORE ->
    proc_step ctx p EvHealthy (upd p SUP_ST_RUNNING (pid p) 0 (next_ms p) d (last_death p))
| ps_silent p :
    pid p <> SUP_PID_INVALID -> role p = SUP_ROLE_CORE ->
    proc_step ctx p EvSilent
      (upd p (state p) (pid p) (fail_count p) (next_ms p) (dead_ticks p + 1) (last_death p))
| ps_gave_up p :
    state p = SUP_ST_BACKOFF -> role p = SUP_ROLE_CORE -> max_attempts ctx <= fail_count p ->
    proc_step ctx p EvGaveUp
      (upd p SUP_ST_FAILED (pid p) (fail_count p) (next_ms p) (dead_ticks p) (last_death p))
| ps_activated p :
    pid p = SUP_PID_INVALID ->
    proc_step ctx p EvActivated
      (upd p SUP_ST_STOPPED (pid p) 0 (next_ms p) (dead_ticks p) (last_death p)).

Inductive proc_steps (ctx : sup_ctx_t) : sup_proc_t -> list sup_ev -> sup_proc_t -> Prop :=
| pss_nil p : proc_steps ctx p [] p
| pss_cons p e p' es p'' :
    proc_step ctx p e p' -> proc_steps ctx p' es p'' -> proc_steps ctx p (e :: es) p''.

Lemma proc_steps_one ctx p e p' : proc_step ctx p e p' -> proc_steps ctx p [e] p'.
Proof. intros. by econstructor; [|constructor]. Qed.

Lemma proc_steps_app ctx p es p' es' p'' :
  proc_steps ctx p es p' -> proc_steps ctx p' es' p'' -> proc_steps ctx p (es ++ es') p''.
Proof. induction 1; [done|]. intros. simpl. econstructor; [done|]. auto. Qed.

#[export] Hint Resolve pss_nil proc_steps_one : daemon.

(** *** The invariant of one process *)

Definition state_pid_ok (p : sup_proc_t) : Prop :=
  match state p with
  | SUP_ST_STARTING | SUP_ST_RUNNING => 0 < pid p
  | _ => pid p = SUP_PID_INVALID
  end.

Definition fails_ok (ctx : sup_ctx_t) (p : sup_proc_t) : Prop :=
  match state p, role p with
  | SUP_ST_STOPPED, SUP_ROLE_CORE => fail_count p = 0
  | SUP_ST_STOPPED, SUP_ROLE_AUX => 0 <= fail_count p <= 1
  | SUP_ST_STARTING, SUP_ROLE_CORE => 0 <= fail_count p < max_attempts ctx
  | SUP_ST_STARTING, SUP_ROLE_AUX => fail_count p = 0
  | SUP_ST_RUNNING, SUP_ROLE_CORE => fail_count p = 0
  | SUP_ST_BACKOFF, SUP_ROLE_CORE => 1 <= fail_count p <= max_attempts ctx
  | SUP_ST_BACKOFF, SUP_ROLE_AUX => fail_count p = 1
  | SUP_ST_FAILED, SUP_ROLE_CORE => fail_count p = max_attempts ctx
  | SUP_ST_RUNNING, SUP_ROLE_AUX | SUP_ST_FAILED, SUP_ROLE_AUX => False
  end.

Definition proc_inv (ctx : sup_ctx_t) (p : sup_proc_t) : Prop := state_pid_ok p /\ fails_ok ctx p.

Lemma proc_step_inv ctx p e p' :
  1 <= max_attempts ctx -> proc_inv ctx p -> proc_step ctx p e p' -> proc_inv ctx p'.
Proof.
  intros Hm [Hs Hf] Hst. unfold proc_inv, state_pid_ok, fails_ok, may_spawn, SUP_PID_INVALID in *.
  destruct Hst; simpl in *; unfold SUP_PID_INVALID in *;
    destruct (state p) eqn:Es; destruct (role p) eqn:Er; try done; try lia;
    try (split; [done|]; naive_solver lia); try (split; naive_solver lia).
  all: match goal with H : may_spawn _ _ |- _ => destruct H as [[? ?]|(? & ? & ?)] end;
    try congruence; lia.
Qed.

Lemma proc_steps_inv ctx p es p' :
  1 <= max_attempts ctx -> proc_steps ctx p es p' -> proc_inv ctx p -> proc_inv ctx p'.
Proof. intros Hm. induction 1; [done|]. eauto using proc_step_inv. Qed.

(** *** The code refines the state machine *)

(** [fork] returns the pid of the child. *)
Class SupOSOk (W : Type) `{SupOS W} : Prop :=
  fork_pos : forall b a w i, (fork_exec b a w).1 = Some i -> 0 < i.

Section refine.
  Context {W : Type} `{OS : SupOS W} `{OK : !SupOSOk W}.
  Context (ctx : sup_ctx_t).

Lemma spawn_refines now p w :
    pid p = SUP_PID_INVALID -> may_spawn ctx p ->
    exists e, (e = EvSpawned \/ e = EvSpawnFailed) /\
      proc_step ctx p e (spawn_or_backoff ctx now p w).1.
  Proof.
    intros Hp Hm. unfold spawn_or_backoff, sup_proc_spawn.
    destruct (Z.eqb_spec (pid p) SUP_PID_INVALID); [|done]. cbn [negb].
    unfold spawn_posix. destruct (_ <? _)%nat.
    - exists EvSpawnFailed. split; [by right|]. 
      exact (ps_spawn_failed ctx p (now + sup_backoff_ms ctx (fail_count p + 1)) Hp Hm).
    - pose proof (fork_pos (bin p) (strtok_all (snprintf_s SUP_ARGS_MAX (args p)) "") w) as Hf.
      destruct (fork_exec _ _ w) as [[i|] w']; simpl in *.
      + exists EvSpawned. split; [by left|]. apply ps_spawned; auto.
      + exists EvSpawnFailed. split; [by right|]. 
      exact (ps_spawn_failed ctx p (now + sup_backoff_ms ctx (fail_count p + 1)) Hp Hm).
  Qed.

Lemma reap_refines p w :
    exists es, proc_steps ctx p es (reap_one ctx p w).1 /\ (es = [] \/ es = [EvDied]).
  Proof.
    unfold reap_one. destruct (Z.eqb_spec (pid p) SUP_PID_INVALID) as [|Hp]; [by eauto with daemon|].
    destruct (waitpid_nohang (pid p) w) as [r w1]. case_match; [by eauto with daemon|].
    exists [EvDied]. split; [|by right]. apply proc_steps_one.
    pose proof (fun n c => ps_died ctx p n c Hp) as Hd.
    destruct (role p); [|apply Hd]. destruct (sup_now_ms w1). apply Hd.
  Qed.

Definition auto_ev (e : sup_ev) : Prop := e <> EvActivated.

Lemma reconcile_refines now p w :
    proc_inv ctx p ->
    exists es, proc_steps ctx p es (reconcile_one ctx now p w).1 /\ Forall auto_ev es.
  Proof.
    intros [Hs Hf]. unfold state_pid_ok, fails_ok in *. unfold reconcile_one.
    destruct (role p) eqn:Er; [|by eauto with daemon].
    assert (may_spawn ctx p -> pid p = SUP_PID_INVALID ->
      exists es, proc_steps ctx p es (spawn_or_backoff ctx now p w).1 /\ Forall auto_ev es) as Hsp.
    { intros Hm Hp. destruct (spawn_refines now p w Hp Hm) as (e & He & Hst).
      exists [e]. split; [by apply proc_steps_one|]. constructor; [|done]. by destruct He as [->| ->]. }
    assert (0 < pid p -> exists es, proc_steps ctx p es (sup_health_tick ctx p w).1 /\ Forall auto_ev es)
      as Hh.
    { intros Hp. assert (pid p <> SUP_PID_INVALID) as Hne by (unfold SUP_PID_INVALID; lia).
      unfold sup_health_tick. rewrite (proj2 (Z.eqb_neq _ _) Hne).
      destruct (strcmp_eq (sock p) "").
      - case_decide; [|by eauto with daemon]. exists [EvHealthy].
        split; [apply proc_steps_one; by apply ps_healthy|by repeat constructor].
      - destruct (sup_probe_sock (sock p) w) as [[] w1]; simpl.
        + exists [EvHealthy]. split; [apply proc_steps_one; by apply ps_healthy|by repeat constructor].
        + exists [EvSilent]. split; [apply proc_steps_one; by apply ps_silent|by repeat constructor]. }
    destruct (state p) eqn:Es.
    - apply Hsp; [by left|done].
    - by apply Hh.
    - by apply Hh.
    - destruct (Z.leb_spec (next_ms p) now); [|by eauto with daemon].
      destruct (Z.leb_spec (max_attempts ctx) (fail_count p)).
      + exists [EvGaveUp]. split; [apply proc_steps_one; by apply ps_gave_up|by repeat constructor].
      + apply Hsp; [by right|done].
    - by eauto with daemon.
  Qed.
End refine.

Lemma for_procs_Forall2 {W} (f : sup_proc_t -> W -> sup_proc_t * W) (R : sup_proc_t -> sup_proc_t -> Prop) l w :
  (forall p w, p ∈ l -> R p (f p w).1) -> Forall2 R l (for_procs f l w).1.
Proof.
  revert w. induction l as [|p l IH]; intros w Hf; [constructor|]. cbn [for_procs].
  pose proof (Hf p w ltac:(left)) as Hp. destruct (f p w) as [p' w1]. simpl in Hp.
  specialize (IH w1 ltac:(intros; apply Hf; by right)). destruct (for_procs f l w1) as [l' w2].
  simpl in *. by constructor.
Qed.

Lemma for_procs_lookup {W} (f : sup_proc_t -> W -> sup_proc_t * W) l w i p :
  l !! i = Some p -> exists w', (for_procs f l w).1 !! i = Some (f p w').1.
Proof.
  revert i w. induction l as [|x l IH]; intros i w Hi; [done|]. cbn [for_procs].
  destruct (f x w) as [x' w1] eqn:Ex. destruct (for_procs f l w1) as [l' w2] eqn:El.
  destruct i as [|i]; simpl in *.
  - injection Hi as ->. exists w. by rewrite Ex.
  - destruct (IH i w1 Hi) as [w' Hw']. exists w'. by rewrite El in Hw'.
Qed.

(** Steps under a configuration only look at its limits. *)
Lemma proc_steps_ctx ctx ctx' p es p' :
  max_attempts ctx' = max_attempts ctx -> proc_steps ctx p es p' -> proc_steps ctx' p es p'.
Proof.
  intros Hm. induction 1 as [|p e p1 es p2 Hs _ IH]; [constructor|]. econstructor; [|exact IH].
  destruct Hs; unfold may_spawn in *; constructor; unfold may_spawn; rewrite ?Hm; done.
Qed.

Section rounds.
  Context {W : Type} `{OS : SupOS W} `{OK : !SupOSOk W}.

(** One round, as runs of the state machine. *)
Lemma reconcile_round ctx w :
    1 <= max_attempts ctx -> Forall (proc_inv ctx) (procs ctx) ->
    let ctx' := (sup_reconcile ctx w).1 in
    max_attempts ctx' = max_attempts ctx /\
    Forall2 (fun p p' => exists es, proc_steps ctx p es p' /\ Forall auto_ev es) (procs ctx) (procs ctx').
  Proof.
    intros Hm HF. unfold sup_reconcile, sup_proc_reap.
    destruct (sup_now_ms w) as [now w1].
    pose proof (for_procs_Forall2 (reap_one ctx)
      (fun p p' => exists es, proc_steps ctx p es p' /\ Forall auto_ev es) (procs ctx) w1) as Hr.
    destruct (for_procs (reap_one ctx) (procs ctx) w1) as [l1 w2]. cbn [procs set_procs fst] in *.
    assert (Forall2 (fun p p' => exists es, proc_steps ctx p es p' /\ Forall auto_ev es) (procs ctx) l1)
      as Hr1.
    { apply Hr. intros p w0 _. destruct (reap_refines ctx p w0) as (es & Hes & Hd). exists es.
      split; [done|]. destruct Hd as [->| ->]; by repeat constructor. }
    pose proof (for_procs_Forall2 (reconcile_one (set_procs ctx l1) now)
      (fun p p' => proc_inv ctx p -> exists es, proc_steps ctx p es p' /\ Forall auto_ev es) l1 w2) as Hc.
    destruct (for_procs (reconcile_one _ now) l1 w2) as [l2 w3]. cbn [fst procs set_procs] in *.
    split; [done|].
    assert (Forall2 (fun p p' => proc_inv ctx p -> exists es, proc_steps ctx p es p' /\ Forall auto_ev es)
      l1 l2) as Hc1.
    { apply Hc. intros p w0 _ Hi.
      destruct (reconcile_refines (set_procs ctx l1) now p w0 Hi) as (es & Hes & Ha).
      exists es. split; [|done]. by eapply proc_steps_ctx; [|exact Hes]. }
    clear Hr Hc. revert HF l2 Hc1. induction Hr1 as [|p p1 l l1' [es [Hs Ha]] Hr1 IH]; intros HF l2 Hc1.
    - inversion Hc1. constructor.
    - inversion Hc1 as [|? p2 ? l2' Hp2 Hrest]; subst. apply Forall_cons in HF as [Hi HF].
      constructor; [|by apply IH].
      destruct (Hp2 (proc_steps_inv _ _ _ _ Hm Hs Hi)) as (es2 & Hs2 & Ha2).
      exists (es ++ es2). split; [by eapply proc_steps_app|]. by apply Forall_app.
  Qed.
End rounds.

(** ** Reachable tables *)

Definition proc_fresh (p : sup_proc_t) : Prop :=
  state p = SUP_ST_STOPPED /\ pid p = SUP_PID_INVALID /\ fail_count p = 0.

Inductive sup_op := SupReconcile | SupActivate (n : option string) | SupShutdown.

Definition sup_apply {W} `{SupOS W} (op : sup_op) (st : sup_ctx_t * W) : sup_ctx_t * W :=
  let '(ctx, w) := st in
  match op with
  | SupReconcile => sup_reconcile ctx w
  | SupActivate n => let '(_, ctx', w') := sup_activate ctx n w in (ctx', w')
  | SupShutdown => (set_shutdown ctx, w)
  end.

Lemma proc_inv_ctx ctx ctx' p :
  max_attempts ctx' = max_attempts ctx -> proc_inv ctx p -> proc_inv ctx' p.
Proof. intros Hm. unfold proc_inv, fails_ok. by rewrite Hm. Qed.

Lemma proc_fresh_inv ctx p : proc_fresh p -> proc_inv ctx p.
Proof.
  intros (Hs & Hp & Hf). unfold proc_inv, state_pid_ok, fails_ok. rewrite Hs, Hp, Hf.
  split; [done|]. destruct (role p); lia.
Qed.

Section reach.
  Context {W : Type} `{OS : SupOS W} `{OK : !SupOSOk W}.

Lemma activate_steps ctx n w :
    let '(ok, ctx', w') := sup_activate ctx n w in
    max_attempts ctx' = max_attempts ctx /\
    (procs ctx' = procs ctx \/
     exists i p p' e, procs ctx !! i = Some p /\ pid p = SUP_PID_INVALID /\
       procs ctx' = <[i := p']> (procs ctx) /\ (e = EvSpawned \/ e = EvSpawnFailed) /\
       proc_steps ctx p [EvActivated; e] p' /\ ok = bool_decide (state p' = SUP_ST_STARTING)).
  Proof.
    unfold sup_activate. destruct (sup_proc_find (procs ctx) n) as [i|]; simpl; [|by auto].
    destruct (procs ctx !! i) as [p|] eqn:Hi; simpl; [|by auto].
    destruct (Z.eqb_spec (pid p) SUP_PID_INVALID) as [Hp|]; simpl; [|by auto].
    destruct (sup_now_ms w) as [now w1].
    set (p1 := upd p SUP_ST_STOPPED (pid p) 0 (next_ms p) (dead_ticks p) (last_death p)).
    destruct (spawn_refines ctx now p1 w1 Hp) as (e & He & Hst); [by left|].
    destruct (spawn_or_backoff ctx now p1 w1) as [p2 w2]. simpl in *.
    split; [done|]. right. exists i, p, p2, e. split; [done|]. split; [done|]. split; [done|].
    split; [done|]. split; [|done]. econstructor; [by apply ps_activated|]. by apply proc_steps_one.
  Qed.

Lemma sup_apply_inv op ctx w :
    1 <= max_attempts ctx -> Forall (proc_inv ctx) (procs ctx) ->
    let ctx' := (sup_apply op (ctx, w)).1 in
    max_attempts ctx' = max_attempts ctx /\ Forall (proc_inv ctx') (procs ctx').
  Proof.
    intros Hm HF. destruct op as [|n|]; cbn [sup_apply].
    - destruct (reconcile_round ctx w Hm HF) as [Hm' H2]. split; [done|].
      revert HF. induction H2 as [|p p' l l' (es & Hs & _) H2 IH]; [constructor|].
      intros HF. apply Forall_cons in HF as [Hp HF]. constructor; [|by apply IH].
      eapply proc_inv_ctx; [exact Hm'|]. by eapply proc_steps_inv.
    - pose proof (activate_steps ctx n w) as Ha.
      destruct (sup_activate ctx n w) as [[ok ctx'] w']. destruct Ha as [Hm' Ha]. simpl.
      split; [done|].
      assert (Forall (proc_inv ctx) (procs ctx')) as HF'.
      { destruct Ha as [->|(i & p & p' & e & Hi & _ & -> & _ & Hs & _)]; [done|].
        apply Forall_insert; [done|]. rewrite Forall_lookup in HF.
        eapply proc_steps_inv; eauto. }
      eapply Forall_impl; [exact HF'|]. intros p. by apply proc_inv_ctx.
    - simpl. split; [done|]. eapply Forall_impl; [exact HF|]. intros p. by apply proc_inv_ctx.
  Qed.

Lemma reach_inv ops ctx w :
    1 <= max_attempts ctx -> Forall proc_fresh (procs ctx) ->
    Forall (proc_inv ctx) (procs (foldl (fun st op => sup_apply op st) (ctx, w) ops).1).
  Proof.
    intros Hm Hfr.
    assert (forall st, max_attempts st.1 = max_attempts ctx -> Forall (proc_inv st.1) (procs st.1) ->
      let st' := foldl (fun st op => sup_apply op st) st ops in
      max_attempts st'.1 = max_attempts ctx /\ Forall (proc_inv st'.1) (procs st'.1)) as Hrun.
    { induction ops as [|op ops IH]; intros [c w0] Hc HF; [done|]. cbn [foldl]. apply IH.
      - destruct (sup_apply_inv op c w0) as [H1 _]; [simpl in *; lia|done|]. by rewrite H1.
      - destruct (sup_apply_inv op c w0) as [_ H2]; [simpl in *; lia|done|]. done. }
    destruct (Hrun (ctx, w) eq_refl) as [H1 H2].
    { eapply Forall_impl; [exact Hfr|]. intros p. apply proc_fresh_inv. }
    eapply Forall_impl; [exact H2|]. intros p Hp. by apply (proc_inv_ctx _ ctx) in Hp.
  Qed.

(** C34.  The invariant of the process table.  From a table of freshly declared
    daemons, after any sequence of reconciliation rounds, activations and
    shutdown requests, every entry satisfies: it holds a child pid exactly in
    the states STARTING and RUNNING; its failure counter stays within
    [0, max_attempts], is 0 while RUNNING, and equals [max_attempts] in FAILED;
    and an AUX daemon is never RUNNING nor FAILED. *)
Theorem sup_reachable_inv ops ctx w :
    1 <= max_attempts ctx -> Forall proc_fresh (procs ctx) ->
    let ctx' := (foldl (fun st op => sup_apply op st) (ctx, w) ops).1 in
    Forall (fun p => state_pid_ok p /\ fails_ok ctx p) (procs ctx').
  Proof.
    intros Hm Hfr. by apply reach_inv.
  Qed.

End reach.

(** ** The calls of the supervisor *)

(** What the supervisor asks of the operating system, with the answers. *)
Inductive os_call :=
| CFork (bin : string) (ok : bool)
| CWait (i : Z) (r : wait_res)
| CWaitBlock (i : Z) (r : wait_res)
| CKill (i sig : Z)
| CProbe (sock : string) (ok : bool).

(** A record of these calls; it assumes nothing of the answers. *)
Class SupLog (W : Type) `{SupOS W} := {
  calls : W -> list os_call;
  log_now : forall w, calls (sup_now_ms w).2 = calls w;
  log_sleep : forall w, calls (nanosleep_100ms w) = calls w;
  log_fork : forall b a w, calls (fork_exec b a w).2 = calls w ++ [CFork b (match (fork_exec b a w).1 with Some _ => true | None => false end)];
  log_wait : forall i w, calls (waitpid_nohang i w).2 = calls w ++ [CWait i (waitpid_nohang i w).1];
  log_block : forall i w, calls (waitpid_block i w).2 = calls w ++ [CWaitBlock i (waitpid_block i w).1];
  log_kill : forall i sg w, calls (kill i sg w) = calls w ++ [CKill i sg];
  log_probe : forall k w, calls (sup_probe_sock k w).2 = calls w ++ [CProbe k (sup_probe_sock k w).1]
}.

(** ** Restart storms *)

(** The starts of a program, and the answers on a socket. *)
Definition is_fork (b : string) (c : os_call) : bool := match c with CFork b' _ => strcmp_eq b' b | _ => false end.

Definition is_answer (k : string) (c : os_call) : bool := match c with CProbe k' true => strcmp_eq k' k | _ => false end.

Definition count (f : os_call -> bool) (d : list os_call) : Z := Z.of_nat (length (List.filter f d)).

Lemma count_app f a b : count f (a ++ b) = count f a + count f b.
Proof. unfold count. rewrite List.filter_app, length_app. lia. Qed.

Lemma count_nonneg f d : 0 <= count f d.
Proof. unfold count. lia. Qed.

(** Start attempts that are left before the process is given up. *)
Definition attempts_left (ctx : sup_ctx_t) (p : sup_proc_t) : Z :=
  match state p with
  | SUP_ST_FAILED => 0
  | SUP_ST_STARTING | SUP_ST_RUNNING => max_attempts ctx - fail_count p - 1
  | _ => max_attempts ctx - fail_count p
  end.

Lemma attempts_left_bounds ctx p :
  1 <= max_attempts ctx -> proc_inv ctx p -> 0 <= attempts_left ctx p <= max_attempts ctx.
Proof. intros Hm [_ Hf]. unfold attempts_left, fails_ok in *. destruct (state p), (role p); lia. Qed.

Section storm.
  Context {W : Type} `{OS : SupOS W} `{OK : !SupOSOk W} `{LG : !SupLog W}.

(** What a visit of entry [p] does: starts of its own program are paid for by
    attempts, or by answers on its socket and resets; nothing else is started. *)
Definition pays (ctx : sup_ctx_t) (extra : Z) (p : sup_proc_t) (w : W) (r : sup_proc_t * W) : Prop :=
    exists d, calls r.2 = calls w ++ d /\ bin r.1 = bin p /\ sock r.1 = sock p /\
      attempts_left ctx r.1 + count (is_fork (bin p)) d
        <= attempts_left ctx p + max_attempts ctx * (count (is_answer (sock p)) d + extra) /\
      forall b, b <> bin p -> count (is_fork b) d = 0.

Lemma pays_nothing ctx extra p w : 1 <= max_attempts ctx -> 0 <= extra -> pays ctx extra p w (p, w).
Proof. intros Hm He. exists []. rewrite app_nil_r. split_and!; [done..| |done]. unfold count. cbn. nia. Qed.

Lemma count_fork_1 b b' ok : count (is_fork b) [CFork b' ok] = if strcmp_eq b' b then 1 else 0.
Proof. unfold count. cbn. by destruct (strcmp_eq b' b). Qed.

(** Starting an entry uses one attempt. *)
Lemma spawn_pays ctx extra now p w :
    1 <= max_attempts ctx -> 0 <= extra -> pid p = SUP_PID_INVALID ->
    attempts_left ctx p = max_attempts ctx - fail_count p ->
    pays ctx extra p w (spawn_or_backoff ctx now p w).
Proof.
    intros Hm He Hp Hl. unfold spawn_or_backoff, sup_proc_spawn. rewrite Hp, Z.eqb_refl. cbn [negb].
    unfold spawn_posix. destruct (_ <? _)%nat.
    - exists []. rewrite app_nil_r. cbn [fst snd bin sock upd]. split_and!; [done..| |done]. rewrite Hl.
      unfold attempts_left, count. cbn. nia.
    - pose proof (log_fork (bin p) (strtok_all (snprintf_s SUP_ARGS_MAX (args p)) "") w) as Hlog.
      destruct (fork_exec _ _ w) as [[i|] w']; cbn [fst snd] in *.
      all: eexists; split_and!; [exact Hlog|done|done| |].
      all: cbn [fst snd upd bin sock]; rewrite ?count_fork_1, ?strcmp_eq_refl; rewrite ?Hl; try (intros b Hb; rewrite count_fork_1;
             rewrite (proj2 (strcmp_eq_false (bin p) b)) by congruence; done).
      all: unfold attempts_left; cbn; pose proof (count_nonneg (is_answer (sock p)) [CFork (bin p) true]);
             pose proof (count_nonneg (is_answer (sock p)) [CFork (bin p) false]); nia.
Qed.

Lemma reap_pays ctx p w :
    1 <= max_attempts ctx -> proc_inv ctx p -> pays ctx 0 p w (reap_one ctx p w).
Proof.
    intros Hm [Hs Hf]. unfold reap_one. destruct (Z.eqb_spec (pid p) SUP_PID_INVALID) as [|Hp]; [by apply pays_nothing|].
    pose proof (log_wait (pid p) w) as Hlog. destruct (waitpid_nohang (pid p) w) as [r w1]. cbn [fst snd] in Hlog.
    destruct (still_running r); [exists [CWait (pid p) r]; split_and!; [done..| |done]; unfold count; cbn; nia|].
    assert (Hl : attempts_left ctx p = max_attempts ctx - fail_count p - 1).
    { unfold attempts_left, state_pid_ok in *. destruct (state p); (done || lia). }
    destruct (role p).
    - pose proof (log_now w1) as Hn. destruct (sup_now_ms w1) as [now w2]. cbn [fst snd] in Hn. exists [CWait (pid p) r].
      cbn [fst snd upd bin sock]. split_and!; [congruence|done|done| |done]. rewrite Hl. unfold attempts_left, count. cbn. nia.
    - exists [CWait (pid p) r]. cbn [fst snd upd bin sock]. split_and!; [done..| |done]. rewrite Hl. unfold attempts_left, count. cbn. nia.
Qed.

Lemma health_pays ctx p w :
    1 <= max_attempts ctx -> proc_inv ctx p -> sock p <> ""%string -> pays ctx 0 p w (sup_health_tick ctx p w).
Proof.
    intros Hm Hi Hk. unfold sup_health_tick. destruct (Z.eqb_spec (pid p) SUP_PID_INVALID) as [|Hp]; [by apply pays_nothing|].
    rewrite (proj2 (strcmp_eq_false (sock p) "") Hk). pose proof (attempts_left_bounds ctx p Hm Hi) as Hb.
    pose proof (log_probe (sock p) w) as Hlog. destruct (sup_probe_sock (sock p) w) as [ok w1]. cbn [fst snd] in Hlog. destruct ok.
    - exists [CProbe (sock p) true]. cbn [fst snd upd bin sock]. split_and!; [done..| |done].
      unfold attempts_left at 1, count. cbn. rewrite strcmp_eq_refl. cbn. lia.
    - cbn [fst snd upd bin sock dead_ticks]. destruct (liveness_ticks ctx <=? dead_ticks p + 1).
      + exists [CProbe (sock p) false; CKill (pid p) SIGKILL]. cbn [fst snd upd bin sock].
        split_and!; [rewrite log_kill, Hlog; by rewrite <- app_assoc|done|done| |done].
        unfold attempts_left, count. cbn. destruct (state p); lia.
      + exists [CProbe (sock p) false]. cbn [fst snd upd bin sock]. split_and!; [done..| |done].
        unfold attempts_left, count. cbn. destruct (state p); lia.
Qed.

Lemma reconcile_pays ctx now p w :
    1 <= max_attempts ctx -> proc_inv ctx p -> sock p <> ""%string -> pays ctx 0 p w (reconcile_one ctx now p w).
Proof.
    intros Hm Hi Hk. pose proof Hi as [Hs Hf]. unfold reconcile_one, state_pid_ok, fails_ok in *.
    destruct (role p) eqn:Er; [|by apply pays_nothing]. destruct (state p) eqn:Es.
    - apply spawn_pays; try done. unfold attempts_left. by rewrite Es.
    - by apply health_pays.
    - by apply health_pays.
    - destruct (next_ms p <=? now); [|by apply pays_nothing].
      destruct (Z.leb_spec (max_attempts ctx) (fail_count p)); [|apply spawn_pays; try done; unfold attempts_left; by rewrite Es].
      exists []. rewrite app_nil_r. cbn [fst snd upd bin sock]. split_and!; [done..| |done].
      unfold attempts_left at 1 2. rewrite Es. unfold count. cbn. lia.
    - by apply pays_nothing.
Qed.

(** Entries other than [p] start other programs. *)
Definition foreign (b : string) (q : sup_proc_t) (w : W) (r : sup_proc_t * W) : Prop :=
    exists d, calls r.2 = calls w ++ d /\ bin r.1 = bin q /\ (bin q <> b -> count (is_fork b) d = 0).

Lemma foreign_same b q w q' w' : bin q' = bin q -> calls w' = calls w -> foreign b q w (q', w').
Proof. intros Hb Hc. exists []. rewrite app_nil_r. done. Qed.

Lemma spawn_foreign b ctx now q w : foreign b q w (spawn_or_backoff ctx now q w).
Proof.
    unfold spawn_or_backoff, sup_proc_spawn. destruct (negb _); [by apply foreign_same|]. unfold spawn_posix.
    destruct (_ <? _)%nat; [by apply foreign_same|].
    pose proof (log_fork (bin q) (strtok_all (snprintf_s SUP_ARGS_MAX (args q)) "") w) as Hlog.
    destruct (fork_exec _ _ w) as [[i|] w']; cbn [fst snd] in *; eexists; (split_and!; [exact Hlog|done|]);
      intros Hb; rewrite count_fork_1; by rewrite (proj2 (strcmp_eq_false (bin q) b)).
Qed.

Lemma reap_foreign b ctx q w : foreign b q w (reap_one ctx q w).
Proof.
    unfold reap_one. destruct (pid q =? SUP_PID_INVALID); [by apply foreign_same|].
    pose proof (log_wait (pid q) w) as Hlog. destruct (waitpid_nohang (pid q) w) as [r w1]. cbn [fst snd] in Hlog.
    destruct (still_running r); [by exists [CWait (pid q) r]|]. destruct (role q); [|by exists [CWait (pid q) r]].
    pose proof (log_now w1) as Hn. destruct (sup_now_ms w1) as [now w2]. cbn [fst snd] in Hn. exists [CWait (pid q) r].
    split_and!; [cbn; congruence|done|done].
Qed.

Lemma reconcile_foreign b ctx now q w : foreign b q w (reconcile_one ctx now q w).
Proof.
    unfold reconcile_one. destruct (role q); [|by apply foreign_same]. destruct (state q).
    1: apply spawn_foreign.
    3: { destruct (next_ms q <=? now); [|by apply foreign_same]. destruct (_ <=? fail_count q); [by apply foreign_same|apply spawn_foreign]. }
    3: by apply foreign_same.
    all: unfold sup_health_tick; destruct (pid q =? SUP_PID_INVALID); [by apply foreign_same|];
      destruct (strcmp_eq (sock q) ""); [apply foreign_same; [by case_decide|done]|];
      pose proof (log_probe (sock q) w) as Hlog; destruct (sup_probe_sock (sock q) w) as [[] w1]; cbn [fst snd] in Hlog;
      [by exists [CProbe (sock q) true]|]; cbn [dead_ticks upd];
      destruct (liveness_ticks ctx <=? dead_ticks q + 1); [|by exists [CProbe (sock q) false]];
      exists [CProbe (sock q) false; CKill (pid q) SIGKILL]; (split_and!; [cbn; rewrite log_kill, Hlog; by rewrite <- app_assoc|done|done]).
Qed.

(** A loop over the table, as seen from entry [i]. *)
Definition pays_table (ctx : sup_ctx_t) (extra : Z) (i : nat) (p : sup_proc_t) (l : list sup_proc_t) (w : W)
      (r : list sup_proc_t * W) : Prop :=
    exists p' d, r.1 !! i = Some p' /\ calls r.2 = calls w ++ d /\ map bin r.1 = map bin l /\ sock p' = sock p /\
      attempts_left ctx p' + count (is_fork (bin p)) d
        <= attempts_left ctx p + max_attempts ctx * (count (is_answer (sock p)) d + extra).

Lemma foreign_loop b (f : sup_proc_t -> W -> sup_proc_t * W) l : (forall q w, foreign b q w (f q w)) ->
    Forall (fun q => bin q <> b) l -> forall w, exists d, calls (for_procs f l w).2 = calls w ++ d /\ count (is_fork b) d = 0 /\
    map bin (for_procs f l w).1 = map bin l.
Proof.
    intros Hf. induction 1 as [|q l Hq HF IH]; intros w; cbn [for_procs]; [exists []; by rewrite app_nil_r|].
    destruct (Hf q w) as (d & Hd & Hb & H0). destruct (f q w) as [q' w1]. cbn [fst snd] in *.
    destruct (IH w1) as (d2 & Hd2 & H2 & Hm). destruct (for_procs f l w1) as [l' w2]. cbn [fst snd map] in *.
    exists (d ++ d2). split_and!; [rewrite Hd2, Hd; by rewrite app_assoc|rewrite count_app, (H0 Hq); lia|by f_equal].
Qed.

Lemma pays_loop ctx (f : sup_proc_t -> W -> sup_proc_t * W) p l : (forall q w, foreign (bin p) q w (f q w)) ->
    (forall w, pays ctx 0 p w (f p w)) -> 1 <= max_attempts ctx -> forall i w, l !! i = Some p ->
    (forall j q, l !! j = Some q -> bin q = bin p -> j = i) ->
    pays_table ctx 0 i p l w (for_procs f l w).
Proof.
    intros Hf Hp Hm. induction l as [|q l IH]; intros i w Hi Hu; [done|]. cbn [for_procs]. destruct i as [|i].
    - injection Hi as ->. destruct (Hp w) as (d & Hd & Hb & Hk & Hle & _). destruct (f p w) as [p' w1]. cbn [fst snd] in *.
      assert (HF : Forall (fun q => bin q <> bin p) l).
      { apply Forall_lookup. intros j q Hj E. specialize (Hu (S j) q Hj E). done. }
      destruct (foreign_loop (bin p) f l Hf HF w1) as (d2 & Hd2 & H2 & Hm2). destruct (for_procs f l w1) as [l' w2]. cbn [fst snd] in *.
      exists p', (d ++ d2). cbn [fst snd lookup list_lookup map]. split_and!; [done|rewrite Hd2, Hd; by rewrite app_assoc|by f_equal|done|].
      rewrite !count_app, H2. pose proof (count_nonneg (is_answer (sock p)) d2). nia.
    - assert (Hq : bin q <> bin p) by (intros E; specialize (Hu 0%nat q eq_refl E); done).
      destruct (Hf q w) as (d & Hd & Hb & H0). destruct (f q w) as [q' w1]. cbn [fst snd] in *.
      destruct (IH i w1 Hi) as (p' & d2 & Hi2 & Hd2 & Hm2 & Hk & Hle).
      { intros j q0 Hj E. specialize (Hu (S j) q0 Hj E). lia. }
      destruct (for_procs f l w1) as [l' w2]. cbn [fst snd] in *.
      exists p', (d ++ d2). cbn [fst snd map]. split_and!; [done|rewrite Hd2, Hd; by rewrite app_assoc|by f_equal|done|].
      rewrite !count_app, (H0 Hq). pose proof (count_nonneg (is_answer (sock p)) d). nia.
Qed.

Lemma bins_unique (l l' : list sup_proc_t) i p p' :
    map bin l' = map bin l -> l !! i = Some p -> l' !! i = Some p' ->
    (forall j q, l !! j = Some q -> bin q = bin p -> j = i) ->
    bin p' = bin p /\ (forall j q, l' !! j = Some q -> bin q = bin p' -> j = i).
Proof.
    intros Hm Hi Hi' Hu.
    assert (Hbin : forall j q', l' !! j = Some q' -> exists q, l !! j = Some q /\ bin q = bin q').
    { intros j q' Hj. assert (E : map bin l' !! j = Some (bin q')) by (rewrite list_lookup_fmap, Hj; done).
      rewrite Hm in E. change (map bin l) with (bin <$> l) in E. rewrite list_lookup_fmap in E.
      destruct (l !! j) as [q|]; [|done]. exists q. split; [done|]. by injection E. }
    destruct (Hbin i p' Hi') as (q0 & Hq0 & Eb). rewrite Hi in Hq0. injection Hq0 as <-. split; [done|].
    intros j q' Hj E. destruct (Hbin j q' Hj) as (q & Hq & Eq). apply (Hu j q Hq). congruence.
Qed.

Lemma reconcile_table ctx w i p :
    1 <= max_attempts ctx -> Forall (proc_inv ctx) (procs ctx) -> procs ctx !! i = Some p -> sock p <> ""%string ->
    (forall j q, procs ctx !! j = Some q -> bin q = bin p -> j = i) ->
    pays_table ctx 0 i p (procs ctx) w (procs (sup_reconcile ctx w).1, (sup_reconcile ctx w).2).
Proof.
    intros Hm HF Hi Hk Hu. unfold sup_reconcile, sup_proc_reap.
    pose proof (log_now w) as Hn. destruct (sup_now_ms w) as [now w1]. cbn [fst snd] in Hn.
    assert (Hip : proc_inv ctx p) by (rewrite Forall_lookup in HF; by eapply HF).
    destruct (pays_loop ctx (reap_one ctx) p (procs ctx) (fun q w => reap_foreign (bin p) ctx q w)
      (fun w => reap_pays ctx p w Hm Hip) Hm i w1 Hi Hu) as (p1 & d1 & Hi1 & Hd1 & Hm1 & Hk1 & Hle1).
    assert (Hp1 : proc_inv ctx p1).
    { destruct (for_procs_lookup (reap_one ctx) (procs ctx) w1 i p Hi) as [w0 Hr]. rewrite Hi1 in Hr. injection Hr as ->.
      destruct (reap_refines ctx p w0) as (es & Hes & _). by eapply proc_steps_inv. }
    destruct (for_procs (reap_one ctx) (procs ctx) w1) as [l1 w2]. cbn [fst snd] in *.
    destruct (bins_unique (procs ctx) l1 i p p1 Hm1 Hi Hi1 Hu) as [Eb Hu1].
    destruct (pays_loop ctx (reconcile_one (set_procs ctx l1) now) p1 l1
      (fun q w => reconcile_foreign (bin p1) _ now q w)) with (i := i) (w := w2) as (p2 & d2 & Hi2 & Hd2 & Hm2 & Hk2 & Hle2); try done.
    { intros w0. apply (reconcile_pays (set_procs ctx l1)); [done| |by rewrite Hk1]. by eapply proc_inv_ctx; [|exact Hp1]. }
    cbn [procs set_procs].
    destruct (for_procs (reconcile_one (set_procs ctx l1) now) l1 w2) as [l2 w3]. cbn [fst snd procs set_procs] in *.
    exists p2, (d1 ++ d2). cbn [fst snd]. rewrite Eb, Hk1 in Hle2. split_and!; [done| |congruence|congruence|].
    - rewrite Hd2, Hd1, Hn. by rewrite app_assoc.
    - rewrite !count_app. lia.
Qed.

Lemma activate_table ctx n w i p :
    1 <= max_attempts ctx -> Forall (proc_inv ctx) (procs ctx) -> procs ctx !! i = Some p ->
    (forall j q, procs ctx !! j = Some q -> bin q = bin p -> j = i) ->
    pays_table ctx 1 i p (procs ctx) w (procs (sup_activate ctx n w).1.2, (sup_activate ctx n w).2).
Proof.
    intros Hm HF Hi Hu. assert (Hip : proc_inv ctx p) by (rewrite Forall_lookup in HF; by eapply HF).
    pose proof (attempts_left_bounds ctx p Hm Hip) as Hb.
    assert (Hsame : pays_table ctx 1 i p (procs ctx) w (procs ctx, w)).
    { exists p, []. rewrite app_nil_r. split_and!; [done..|]. unfold count. cbn. lia. }
    unfold sup_activate. destruct (sup_proc_find (procs ctx) n) as [j|]; cbn [mbind option_bind]; [|done].
    destruct (procs ctx !! j) as [q|] eqn:Ej; cbn [mbind option_bind]; [|done].
    destruct (Z.eqb_spec (pid q) SUP_PID_INVALID) as [Hq|]; cbn [negb]; [|done].
    pose proof (log_now w) as Hn. destruct (sup_now_ms w) as [now w1]. cbn [fst snd] in Hn.
    set (q1 := upd q SUP_ST_STOPPED (pid q) 0 (next_ms q) (dead_ticks q) (last_death q)).
    destruct (spawn_foreign (bin p) ctx now q1 w1) as (d & Hd & Hbn & H0).
    pose proof (spawn_pays ctx 0 now q1 w1 Hm ltac:(lia) Hq ltac:(unfold attempts_left; cbn; lia)) as Hpay.
    destruct (spawn_or_backoff ctx now q1 w1) as [q2 w2]. cbn [fst snd procs set_procs] in *.
    assert (Hmap : map bin (<[j := q2]> (procs ctx)) = map bin (procs ctx)).
    { change (bin <$> <[j := q2]> (procs ctx) = bin <$> procs ctx). rewrite list_fmap_insert. apply list_insert_id.
      by rewrite list_lookup_fmap, Ej, Hbn. }
    destruct (decide (j = i)) as [->|Hji].
    - rewrite Hi in Ej. injection Ej as <-. destruct Hpay as (d' & Hd' & _ & Hk' & Hle & _). cbn [fst snd] in *.
      exists q2, d'. cbn [fst snd]. split_and!; [rewrite list_lookup_insert_eq; [done|by eapply lookup_lt_Some]|congruence|done|done|].
      change (bin q1) with (bin p) in Hle. change (sock q1) with (sock p) in Hle.
      assert (attempts_left ctx q1 = max_attempts ctx) as E1 by (unfold attempts_left; cbn; lia).
      rewrite E1 in Hle. nia.
    - exists p, d. cbn [fst snd]. split_and!; [by rewrite list_lookup_insert_ne|congruence|done|done|].
      assert (Hne : bin q1 <> bin p) by (intros E; by apply Hji, (Hu j q Ej)).
      rewrite (H0 Hne). pose proof (count_nonneg (is_answer (sock p)) d). nia.
Qed.

Definition is_activation (op : sup_op) : bool := match op with SupActivate _ => true | _ => false end.

Lemma apply_table op ctx w i p :
    1 <= max_attempts ctx -> Forall (proc_inv ctx) (procs ctx) -> procs ctx !! i = Some p -> sock p <> ""%string ->
    (forall j q, procs ctx !! j = Some q -> bin q = bin p -> j = i) ->
    pays_table ctx (if is_activation op then 1 else 0) i p (procs ctx) w (procs (sup_apply op (ctx, w)).1, (sup_apply op (ctx, w)).2).
Proof.
    intros Hm HF Hi Hk Hu. destruct op as [|n|]; cbn [sup_apply is_activation].
    - by apply reconcile_table.
    - pose proof (activate_table ctx n w i p Hm HF Hi Hu) as Ha. by destruct (sup_activate ctx n w) as [[ok c] w'].
    - exists p, []. cbn. rewrite app_nil_r. split_and!; [done..|]. unfold attempts_left, count. cbn. lia.
Qed.

Lemma pays_table_ctx ctx ctx' extra i p l w r :
    max_attempts ctx' = max_attempts ctx -> pays_table ctx' extra i p l w r -> pays_table ctx extra i p l w r.
Proof. intros Hm. unfold pays_table, attempts_left. by rewrite Hm. Qed.

Definition activations (ops : list sup_op) : Z := Z.of_nat (length (List.filter is_activation ops)).

Lemma run_table ops : forall ctx w i p,
    1 <= max_attempts ctx -> Forall (proc_inv ctx) (procs ctx) -> procs ctx !! i = Some p -> sock p <> ""%string ->
    (forall j q, procs ctx !! j = Some q -> bin q = bin p -> j = i) ->
    let st := foldl (fun st op => sup_apply op st) (ctx, w) ops in
    pays_table ctx (activations ops) i p (procs ctx) w (procs st.1, st.2) /\ Forall (proc_inv ctx) (procs st.1).
Proof.
    induction ops as [|op ops IH]; intros ctx w i p Hm HF Hi Hk Hu; cbn [foldl].
    { split; [|done]. exists p, []. cbn. rewrite app_nil_r. split_and!; [done..|]. unfold count, activations. cbn. lia. }
    destruct (apply_table op ctx w i p Hm HF Hi Hk Hu) as (p1 & d1 & Hi1 & Hd1 & Hm1 & Hk1 & Hle1).
    destruct (sup_apply_inv op ctx w Hm HF) as [Hma HF1]. destruct (sup_apply op (ctx, w)) as [c1 w1]. cbn [fst snd] in *.
    destruct (bins_unique (procs ctx) (procs c1) i p p1 Hm1 Hi Hi1 Hu) as [Eb Hu1].
    destruct (IH c1 w1 i p1 ltac:(lia) HF1 Hi1 ltac:(by rewrite Hk1) Hu1) as [Hp HF2].
    apply (pays_table_ctx ctx) in Hp; [|done]. destruct Hp as (p2 & d2 & Hi2 & Hd2 & Hm2 & Hk2 & Hle2).
    destruct (foldl _ (c1, w1) ops) as [c2 w2]. cbn [fst snd] in *. split.
    - exists p2, (d1 ++ d2). cbn [fst snd]. rewrite Eb, Hk1 in Hle2. split_and!; [done| |congruence|congruence|].
      + rewrite Hd2, Hd1. by rewrite app_assoc.
      + rewrite !count_app. unfold activations in *. cbn [List.filter]. destruct (is_activation op); cbn [length]; lia.
    - eapply Forall_impl; [exact HF2|]. intros q. by apply proc_inv_ctx.
Qed.

(** C35.  No restart storm.  Over any sequence of reconciliation rounds,
    activations and shutdown requests, from any table that satisfies the
    invariant, the calls that start the program of a daemon with a socket, whose
    program no other entry runs, are at most [max_attempts] times one more than
    the number of times it answered on that socket and the number of
    activations: a daemon that never answers and that nobody activates is
    started at most [max_attempts] times, whatever the operating system
    answers. *)
Theorem restart_storm_bounded ops ctx w i p :
    1 <= max_attempts ctx -> Forall (proc_inv ctx) (procs ctx) -> procs ctx !! i = Some p -> sock p <> ""%string ->
    (forall j q, procs ctx !! j = Some q -> bin q = bin p -> j = i) ->
    let st := foldl (fun st op => sup_apply op st) (ctx, w) ops in
    exists d, calls st.2 = calls w ++ d /\
      count (is_fork (bin p)) d <= max_attempts ctx * (1 + count (is_answer (sock p)) d + activations ops).
Proof.
    intros Hm HF Hi Hk Hu. destruct (run_table ops ctx w i p Hm HF Hi Hk Hu) as [(p' & d & Hi' & Hd & _ & _ & Hle) HF'].
    exists d. split; [done|]. cbn [fst snd] in *. rewrite Forall_lookup in HF, HF'.
    pose proof (attempts_left_bounds ctx p Hm (HF i p Hi)). pose proof (attempts_left_bounds ctx p' Hm (HF' i p' Hi')). nia.
Qed.
End storm.

(** ** Waiting and giving up *)

(** Reconciliation respects the back-off and the verdict.  A daemon that is
    backing off and whose deadline lies ahead of the round's clock reading, and
    a daemon that was given up, come out of the round exactly as they went in:
    the first is not restarted early, the second only by an activation. *)
Theorem reconcile_waits {W} `{SupOS W} ctx (w : W) i p :
  procs ctx !! i = Some p -> pid p = SUP_PID_INVALID ->
  state p = SUP_ST_FAILED \/ state p = SUP_ST_BACKOFF /\ (sup_now_ms w).1 < next_ms p ->
  procs (sup_reconcile ctx w).1 !! i = Some p.
Proof.
  intros Hi Hp Hst. unfold sup_reconcile, sup_proc_reap.
  destruct (sup_now_ms w) as [now w1].
  destruct (for_procs_lookup (reap_one ctx) (procs ctx) w1 i p Hi) as [w0 Hr].
  destruct (for_procs (reap_one ctx) (procs ctx) w1) as [l1 w2].
  unfold reap_one in Hr. rewrite Hp, Z.eqb_refl in Hr. simpl in Hr.
  destruct (for_procs_lookup (reconcile_one (set_procs ctx l1) now) l1 w2 i p Hr) as [w3 Hc].
  simpl. destruct (for_procs (reconcile_one (set_procs ctx l1) now) l1 w2) as [l2 w4]. simpl in *.
  rewrite Hc. f_equal. unfold reconcile_one. destruct (role p); [|done].
  destruct Hst as [->|[-> Hlt]]; [done|].
  destruct (Z.leb_spec (next_ms p) now); [lia|done].
Qed.

(** ** Shutdown *)

(** The monotonic clock never goes back.  [sigs] is the number of signals that
    still arrive: a pause lasts its 100 ms unless one of them ends it, and each of
    them ends at most one pause or interrupts one wait. *)
Class SupClockOk (W : Type) `{SupOS W} := {
  sigs : W -> nat;
  sc_now : forall w, (sigs (sup_now_ms w).2 <= sigs w)%nat;
  sc_read : forall w, (sup_now_ms w).1 <= (sup_now_ms (sup_now_ms w).2).1;
  sc_wait : forall i w, (sup_now_ms w).1 <= (sup_now_ms (waitpid_nohang i w).2).1 /\
                        (sigs (waitpid_nohang i w).2 <= sigs w)%nat;
  sc_kill : forall i sg w, (sigs (kill i sg w) <= sigs w)%nat;
  sc_sleep : forall w, (sup_now_ms w).1 + 100 <= (sup_now_ms (nanosleep_100ms w)).1 /\ (sigs (nanosleep_100ms w) <= sigs w)%nat \/
                       (sup_now_ms w).1 <= (sup_now_ms (nanosleep_100ms w)).1 /\ (sigs (nanosleep_100ms w) < sigs w)%nat;
  sc_block : forall i w, (sigs (waitpid_block i w).2 <= sigs w)%nat /\
                         (interrupted (waitpid_block i w).1 = true -> (sigs (waitpid_block i w).2 < sigs w)%nat)
}.

(** [x] and later [y] among the calls. *)
Definition before (x y : os_call) (d : list os_call) : Prop := exists a b c, d = a ++ x :: b ++ y :: c.

(** A non-blocking wait that says that the child is gone. *)
Definition gone (r : wait_res) : Prop :=
  match r with WRunning => False | WError e => e = ECHILD | _ => True end.

(** What was done to a child: it was asked to stop and then collected, or, after
    that, killed and waited for without being interrupted. *)
Definition ended (i : Z) (d : list os_call) : Prop :=
  (exists r, gone r /\ before (CKill i SIGTERM) (CWait i r) d) \/
  (exists r, interrupted r = false /\ before (CKill i SIGTERM) (CKill i SIGKILL) d /\ before (CKill i SIGKILL) (CWaitBlock i r) d).

Lemma before_in x y a b c d e : x ∈ b -> y ∈ d -> before x y (a ++ b ++ c ++ d ++ e).
Proof.
  intros (b1 & b2 & ->)%list_elem_of_split (d1 & d2 & ->)%list_elem_of_split.
  exists (a ++ b1), (b2 ++ c ++ d1), (d2 ++ e). rewrite <- ?app_assoc; cbn [app]; rewrite <- ?app_assoc; cbn [app]; by rewrite <- ?app_assoc.
Qed.

Section stop.
  Context {W : Type} `{OS : SupOS W} `{CK : !SupClockOk W} `{LG : !SupLog W}.

Definition clk (w : W) : Z := (sup_now_ms w).1.

(** A loop body that records its calls, lets no signal appear, and leaves what
    [Q] says of the entry and its calls. *)
Definition visits (f : sup_proc_t -> W -> sup_proc_t * W) (Q : sup_proc_t -> sup_proc_t -> list os_call -> Prop) : Prop :=
    forall p w, exists d, calls (f p w).2 = calls w ++ d /\ (sigs (f p w).2 <= sigs w)%nat /\ Q p (f p w).1 d.

Lemma visits_all f Q l : visits f Q -> forall w, exists ds, calls (for_procs f l w).2 = calls w ++ concat ds /\
    (sigs (for_procs f l w).2 <= sigs w)%nat /\ Forall3 Q l (for_procs f l w).1 ds.
Proof.
    intros Hf. induction l as [|p l IH]; intros w; cbn [for_procs]; [exists []; cbn; rewrite app_nil_r; split_and!; [done|done|constructor]|].
    destruct (Hf p w) as (d & Hd & Hs & Hq). destruct (f p w) as [p' w1]. cbn [fst snd] in *.
    destruct (IH w1) as (ds & Hds & Hs1 & HF). destruct (for_procs f l w1) as [l' w2]. cbn [fst snd] in *.
    exists (d :: ds). cbn [concat]. split_and!; [rewrite Hds, Hd; by rewrite app_assoc|lia|by constructor].
Qed.

Lemma concat_elem (ds : list (list os_call)) i d x : ds !! i = Some d -> x ∈ d -> x ∈ concat ds.
Proof. intros Hi Hx. apply list_elem_of_In, in_concat. exists d. split; [by eapply list_elem_of_In, list_elem_of_lookup_2|by apply list_elem_of_In]. Qed.

(** The signals to the live entries. *)
Definition signalled (sg : Z) (p p' : sup_proc_t) (d : list os_call) : Prop :=
    p' = p /\ (pid p <> SUP_PID_INVALID -> CKill (pid p) sg ∈ d).

Lemma signal_visits sg : visits (fun p w => if pid p =? SUP_PID_INVALID then (p, w) else (p, kill (pid p) sg w)) (signalled sg).
Proof.
    intros p w. destruct (Z.eqb_spec (pid p) SUP_PID_INVALID) as [|Hp]; cbn [fst snd].
    - exists []. rewrite app_nil_r. split_and!; [done|done|]. split; [done|]. by intros ?.
    - exists [CKill (pid p) sg]. split_and!; [apply log_kill|apply sc_kill|]. split; [done|]. intros _. by apply list_elem_of_singleton.
Qed.

(** A poll collects the entry or leaves it. *)
Definition polled (p p' : sup_proc_t) (d : list os_call) : Prop :=
    p' = p \/ pid p' = SUP_PID_INVALID /\ exists r, gone r /\ CWait (pid p) r ∈ d.

Lemma poll_visits : visits poll_one polled.
Proof.
    intros p w. unfold poll_one. destruct (pid p =? SUP_PID_INVALID); [exists []; rewrite app_nil_r; split_and!; [done|done|by left]|].
    pose proof (log_wait (pid p) w) as Hl. pose proof (proj2 (sc_wait (pid p) w)) as Hs.
    destruct (waitpid_nohang (pid p) w) as [r w']. cbn [fst snd] in *. exists [CWait (pid p) r].
    assert (Hin : CWait (pid p) r ∈ [CWait (pid p) r]) by by apply list_elem_of_singleton.
    destruct r as [|e|c|sg|st]; cbn [fst snd]; (split_and!; [done|done|]).
    - by left.
    - destruct (Z.eqb_spec e ECHILD) as [->|]; [right|by left]. split; [done|]. by exists (WError ECHILD).
    - right. split; [done|]. by exists (WExited c).
    - right. split; [done|]. by exists (WSignaled sg).
    - right. split; [done|]. by exists (WStatus st).
Qed.

Lemma poll_clk l w : clk w <= clk (for_procs poll_one l w).2.
Proof.
    revert w. induction l as [|p l IH]; intros w; [done|]. cbn [for_procs].
    assert (clk w <= clk (poll_one p w).2) as Hp.
    { unfold poll_one. case_match; [done|]. pose proof (proj1 (sc_wait (pid p) w)) as Hw.
      destruct (waitpid_nohang (pid p) w) as [[]]; done. }
    destruct (poll_one p w) as [p' w1]. specialize (IH w1).
    destruct (for_procs poll_one l w1) as [l' w2]. simpl in *. lia.
Qed.

Lemma polled_trans p1 p2 p3 d e : polled p1 p2 d -> polled p2 p3 e -> polled p1 p3 (d ++ e).
Proof.
    intros [->|(Hp & r & Hg & Hr)] H2.
    - destruct H2 as [->|(Hp & r & Hg & Hr)]; [by left|]. right. split; [done|]. exists r. split; [done|]. apply elem_of_app. by right.
    - right. split; [|exists r; split; [done|]; apply elem_of_app; by left]. destruct H2 as [->|[? _]]; done.
Qed.

(** The grace period ends, with every entry collected or as it was. *)
Lemma grace_total fuel : forall deadline l w,
    Z.max 0 (deadline - clk w) <= 100 * (Z.of_nat fuel - 1 - Z.of_nat (sigs w)) ->
    exists l' w' d, grace_loop fuel deadline l w = Some (l', w') /\ calls w' = calls w ++ d /\ (sigs w' <= sigs w)%nat /\
      Forall2 (fun p p' => polled p p' d) l l'.
Proof.
    induction fuel as [|fuel IH]; intros deadline l w Hd; [lia|]. cbn [grace_loop].
    pose proof (poll_clk l w) as Hp. destruct (visits_all poll_one polled l poll_visits w) as (ds & Hds & Hs & HF).
    assert (HF2 : Forall2 (fun p p' => polled p p' (concat ds)) l (for_procs poll_one l w).1).
    { apply Forall2_same_length_lookup. split; [by eapply Forall3_length_lm|]. intros i p p' Hi Hi'.
      destruct (Forall3_lookup_l _ _ _ _ _ _ HF Hi) as (p2 & d & Hi2 & Hdi & Hq). rewrite Hi' in Hi2. injection Hi2 as <-.
      destruct Hq as [->|(Hp' & r & Hg & Hr)]; [by left|]. right. split; [done|]. exists r. split; [done|]. by eapply concat_elem. }
    destruct (for_procs poll_one l w) as [l1 w1]. cbn [fst snd] in *.
    destruct (negb _); [by exists l1, w1, (concat ds)|]. pose proof (sc_read w1) as Hr. pose proof (sc_now w1) as Hns.
    pose proof (log_now w1) as Hnl. unfold clk in *.
    destruct (sup_now_ms w1) as [now w2] eqn:E. cbn [fst snd] in *.
    destruct (Z.leb_spec deadline now); [exists l1, w2, (concat ds); split_and!; [done|congruence|lia|done]|].
    pose proof (sc_sleep w2) as Hsl. pose proof (log_sleep w2) as Hll.
    destruct (IH deadline l1 (nanosleep_100ms w2)) as (l' & w' & d & Hg & Hc & Hs' & HF'); [unfold clk; lia|].
    exists l', w', (concat ds ++ d). split_and!; [done|rewrite Hc, Hll, Hnl, Hds; by rewrite app_assoc|lia|].
    apply Forall2_same_length_lookup. split; [by rewrite (Forall2_length _ _ _ HF2), (Forall2_length _ _ _ HF')|].
    intros i p p' Hi Hi'. destruct (Forall2_lookup_l _ _ _ _ _ HF2 Hi) as (p1 & Hi1 & H1).
    destruct (Forall2_lookup_l _ _ _ _ _ HF' Hi1) as (p2 & Hi2 & H2). rewrite Hi' in Hi2. injection Hi2 as <-.
    by eapply polled_trans.
Qed.

Lemma bury_wait_total fuel : forall i w, (sigs w < fuel)%nat ->
    exists w' d r, bury_wait fuel i w = Some w' /\ calls w' = calls w ++ d /\ (sigs w' <= sigs w)%nat /\
      interrupted r = false /\ CWaitBlock i r ∈ d.
Proof.
    induction fuel as [|fuel IH]; intros i w Hf; [lia|]. cbn [bury_wait]. pose proof (sc_block i w) as [Hs Hi].
    pose proof (log_block i w) as Hl. destruct (waitpid_block i w) as [r w1]. cbn [fst snd] in *. destruct (interrupted r) eqn:Er.
    - specialize (Hi eq_refl). destruct (IH i w1 ltac:(lia)) as (w' & d & r' & Hb & Hc & Hs' & Hn & Hin).
      exists w', (CWaitBlock i r :: d), r'. split_and!; [done|rewrite Hc, Hl; by rewrite <- app_assoc|lia|done|by right].
    - exists w1, [CWaitBlock i r], r. split_and!; [done|done|done|done|by apply list_elem_of_singleton].
Qed.

Lemma bury_total fuel l : forall w, (sigs w < fuel)%nat ->
    exists l' w' d, bury_procs fuel l w = Some (l', w') /\ calls w' = calls w ++ d /\
      Forall (fun p => pid p = SUP_PID_INVALID) l' /\
      Forall (fun p => pid p <> SUP_PID_INVALID -> exists r, interrupted r = false /\ CWaitBlock (pid p) r ∈ d) l.
Proof.
    induction l as [|p l IH]; intros w Hf; cbn [bury_procs]; [exists [], w, []; rewrite app_nil_r; split_and!; [done|done|constructor|constructor]|].
    unfold bury_one. destruct (Z.eqb_spec (pid p) SUP_PID_INVALID) as [Hp|Hp].
    - destruct (IH w Hf) as (l' & w' & d & -> & Hc & HF & HG). exists (p :: l'), w', d.
      split_and!; [done|done|by constructor|]. constructor; [done|exact HG].
    - destruct (bury_wait_total fuel (pid p) w Hf) as (w1 & d1 & r & -> & Hc1 & Hs1 & Hr & Hin).
      destruct (IH w1 ltac:(lia)) as (l' & w' & d & -> & Hc & HF & HG). exists (set_pid p SUP_PID_INVALID :: l'), w', (d1 ++ d).
      split_and!; [done|rewrite Hc, Hc1; by rewrite app_assoc|by constructor|]. constructor.
      + intros _. exists r. split; [done|]. apply elem_of_app. by left.
      + eapply Forall_impl; [exact HG|]. intros q Hq Hqp. destruct (Hq Hqp) as (r' & Hr' & Hin'). exists r'. split; [done|].
        apply elem_of_app. by right.
Qed.

(** C36.  Shutdown terminates and every child was dealt with.  With a monotonic
    clock and [sigs w] signals that may still interrupt pauses and waits, the
    grace period takes at most [51 + sigs w] polls and each final wait as many
    turns (a wait for a killed child is taken to return).  Every child in the
    table was sent SIGTERM, and after that either a poll found it gone, or it was
    sent SIGKILL and then waited for until the wait was not interrupted; no entry
    holds a pid at the end. *)
Theorem shutdown_complete ctx (w : W) :
    exists ctx' w' d, sup_shutdown_all (51 + sigs w) ctx w = Some (ctx', w') /\ calls w' = calls w ++ d /\
      Forall (fun p => pid p = SUP_PID_INVALID) (procs ctx') /\
      Forall (fun p => pid p <> SUP_PID_INVALID -> ended (pid p) d) (procs ctx).
Proof.
    unfold sup_shutdown_all.
    destruct (visits_all _ _ (procs ctx) (signal_visits SIGTERM) w) as (d1 & Hc1 & Hs1 & HF1).
    change (fun (p : sup_proc_t) (w0 : W) => if pid p =? SUP_PID_INVALID then (p, w0) else (p, kill (pid p) SIGTERM w0)) with (@term_one W _) in *.
    destruct (for_procs term_one (procs ctx) w) as [l1 w1]. cbn [fst snd] in *.
    pose proof (sc_read w1) as Hr. pose proof (sc_now w1) as Hns. pose proof (log_now w1) as Hnl.
    destruct (sup_now_ms w1) as [now w2] eqn:E. cbn [fst snd] in *.
    destruct (grace_total (51 + sigs w) (now + SUP_TERM_GRACE_MS) l1 w2) as (l2 & w3 & d2 & -> & Hc2 & Hs2 & HF2).
    { unfold clk, SUP_TERM_GRACE_MS. lia. }
    destruct (visits_all _ _ l2 (signal_visits SIGKILL) w3) as (d3 & Hc3 & Hs3 & HF3).
    change (fun (p : sup_proc_t) (w0 : W) => if pid p =? SUP_PID_INVALID then (p, w0) else (p, kill (pid p) SIGKILL w0)) with (@kill_one W _) in *.
    destruct (for_procs kill_one l2 w3) as [l3 w4]. cbn [fst snd] in *.
    destruct (bury_total (51 + sigs w) l3 w4 ltac:(lia)) as (l4 & w5 & d4 & -> & Hc4 & HF4 & HG).
    exists (set_procs ctx l4), w5, (concat d1 ++ d2 ++ concat d3 ++ d4). split_and!; [done| |exact HF4|].
    { rewrite Hc4, Hc3, Hc2, Hnl, Hc1. by rewrite <- !app_assoc. }
    apply Forall_lookup. intros i p Hi Hp.
    destruct (Forall3_lookup_l _ _ _ _ _ _ HF1 Hi) as (p1 & e1 & Hi1 & He1 & -> & Hk1).
    pose proof (concat_elem _ _ _ _ He1 (Hk1 Hp)) as Hin1.
    destruct (Forall2_lookup_l _ _ _ _ _ HF2 Hi1) as (p2 & Hi2 & [->|(_ & r & Hg & Hr2)]).
    2: { left. exists r. split; [done|]. exact (before_in _ _ [] _ [] _ (concat d3 ++ d4) Hin1 Hr2). }
    destruct (Forall3_lookup_l _ _ _ _ _ _ HF3 Hi2) as (p3 & e3 & Hi3 & He3 & -> & Hk3).
    pose proof (concat_elem _ _ _ _ He3 (Hk3 Hp)) as Hin3. rewrite Forall_lookup in HG.
    destruct (HG i p Hi3 Hp) as (r & Hint & Hin4). right. exists r. split; [done|]. split.
    - exact (before_in _ _ [] _ d2 _ d4 Hin1 Hin3).
    - rewrite app_assoc. pose proof (before_in _ _ (concat d1 ++ d2) _ [] _ [] Hin3 Hin4) as Hb. by rewrite app_nil_r in Hb.
Qed.
End stop.

(** ** A concrete operating system *)

(** A clock, a pid counter, whether children die at once, whether sockets
    answer, the calls so far. *)
Record toyos := mkOs { os_ms : Z; os_pid : Z; os_dead : bool; os_sock : bool; os_log : list os_call }.

Definition tick (d : Z) (w : toyos) : toyos := mkOs (os_ms w + d) (os_pid w) (os_dead w) (os_sock w) (os_log w).

Definition note (c : os_call) (w : toyos) : toyos := mkOs (os_ms w) (os_pid w) (os_dead w) (os_sock w) (os_log w ++ [c]).

Definition toy_wait (w : toyos) : wait_res := if os_dead w then WExited 1 else WRunning.

#[export] Instance toy_supos : SupOS toyos := {
  sup_now_ms w := (os_ms w, tick 1 w);
  fork_exec b a w := (Some (1 + Z.abs (os_pid w)),
                      mkOs (os_ms w) (1 + Z.abs (os_pid w)) (os_dead w) (os_sock w) (os_log w ++ [CFork b true]));
  waitpid_nohang i w := (toy_wait w, note (CWait i (toy_wait w)) w);
  waitpid_block i w := (WSignaled SIGKILL, note (CWaitBlock i (WSignaled SIGKILL)) w);
  kill i s w := note (CKill i s) w;
  sup_probe_sock s w := (os_sock w, note (CProbe s (os_sock w)) w);
  nanosleep_100ms w := tick 100 w
}.

#[export] Instance toy_supos_ok : SupOSOk toyos.
Proof. intros b a w i [= <-]. lia. Qed.

#[export] Instance toy_suplog : SupLog toyos.
Proof. exists os_log; done. Defined.

#[export] Instance toy_supclock_ok : SupClockOk toyos.
Proof. exists (fun _ => O); intros; simpl; lia. Defined.

Definition fresh_proc (n : string) (r : sup_role_t) : sup_proc_t :=
  mkProc n ("/bin/" +:+ n) ("/run/" +:+ n) "" r SUP_ST_STOPPED SUP_PID_INVALID 0 0 0 "".

Definition two_procs : sup_ctx_t :=
  mkSup [fresh_proc "llm_d" SUP_ROLE_CORE; fresh_proc "monit_d" SUP_ROLE_AUX] "" "" "" "" 5000 1000
        30000 5 3 false.

Lemma two_procs_fresh : Forall proc_fresh (procs two_procs).
Proof. by repeat constructor. Qed.

Lemma sup_reachable_inv_witness :
  let ctx' := (foldl (fun st op => sup_apply op st) (two_procs, mkOs 0 0 false true [])
    [SupReconcile; SupActivate (Some "monit_d"); SupReconcile]).1 in
  Forall (fun p => state_pid_ok p /\ fails_ok two_procs p) (procs ctx') /\
  map state (procs ctx') = [SUP_ST_RUNNING; SUP_ST_STARTING].
Proof.
  split; [|vm_compute; reflexivity].
  apply (sup_reachable_inv [SupReconcile; SupActivate (Some "monit_d"); SupReconcile] two_procs
    (mkOs 0 0 false true [])); [simpl; lia|apply two_procs_fresh].
Defined.

(** A daemon that dies at once and never answers: five starts, as many as it may
    have, in fourteen rounds 40 seconds apart. *)
Definition dying : list sup_op := replicate 14 SupReconcile.

Definition slow_world : toyos := mkOs 0 0 true false [].

Lemma restart_storm_bounded_witness :
  exists d, os_log (foldl (fun st op => sup_apply op st) (two_procs, slow_world) dying).2 = d /\
    count (is_fork "/bin/llm_d") d <= 5.
Proof.
  destruct (restart_storm_bounded dying two_procs slow_world 0 (fresh_proc "llm_d" SUP_ROLE_CORE)) as (d & Hd & Hc).
  - simpl; lia.
  - eapply Forall_impl; [apply two_procs_fresh|]. intros p. apply proc_fresh_inv.
  - reflexivity.
  - discriminate.
  - intros [|[|j]] q Hj Hb; [reflexivity|injection Hj as <-; discriminate Hb|discriminate Hj].
  - exists d. split; [exact Hd|].
    assert (E : count (is_answer "/run/llm_d") d = 0).
    { change (calls slow_world ++ d) with d in Hd. rewrite <- Hd. vm_compute. reflexivity. }
    change (sock (fresh_proc "llm_d" SUP_ROLE_CORE)) with "/run/llm_d"%string in Hc. rewrite E in Hc. exact Hc.
Defined.

Lemma reconcile_waits_witness :
  let p := mkProc "x" "" "" "" SUP_ROLE_CORE SUP_ST_BACKOFF SUP_PID_INVALID 2 5000 0 "exit=1" in
  procs (sup_reconcile (set_procs two_procs [p]) (mkOs 100 0 true false [])).1 !! 0%nat = Some p.
Proof.
  intros p. apply (reconcile_waits (set_procs two_procs [p]) (mkOs 100 0 true false []) 0 p);
    [reflexivity|reflexivity|right; split; [reflexivity|vm_compute; reflexivity]].
Defined.

(** A daemon that does not stop by itself. *)
Definition one_live : sup_ctx_t :=
  set_procs two_procs [mkProc "llm_d" "/bin/llm_d" "/run/llm_d" "" SUP_ROLE_CORE SUP_ST_RUNNING 7 0 0 0 ""].

Lemma shutdown_complete_witness :
  exists ctx' w' d, sup_shutdown_all 51 one_live (mkOs 0 0 false true []) = Some (ctx', w') /\ calls w' = d /\
    Forall (fun p => pid p = SUP_PID_INVALID) (procs ctx') /\ Forall (fun p => pid p <> SUP_PID_INVALID -> ended (pid p) d) (procs one_live).
Proof. exact (shutdown_complete one_live (mkOs 0 0 false true [])). Defined.
