(* ===== verification/SupDecl.v ===== *)
(** * SupDecl

    The declaration of the desired state (supervisor_d/src/decl/decl.c, POSIX
    branch): the launch section of profile.env is turned into the process table
    of file Supervisor.  The environment, the password database and the content
    of profile.env are arguments. *)

From S2P Require Import Prelude Supervisor.

Definition SUP_MAX_DAEMONS : nat := 16.
Definition SUP_NAME_MAX : nat := 32.
Definition SUP_PATH_MAX : nat := 512.
Definition SUP_DEFAULT_TICK_MS : Z := 5000.
Definition SUP_DEFAULT_BACKOFF_BASE_MS : Z := 1000.
Definition SUP_DEFAULT_BACKOFF_MAX_MS : Z := 30000.
Definition SUP_DEFAULT_MAX_ATTEMPTS : Z := 5.
Definition SUP_DEFAULT_LIVENESS_TICKS : Z := 3.

(** ** Strings *)

Definition path_join (sz : nat) (a b : string) : string := snprintf_s sz (a +:+ "/" +:+ b).

(** [strncat] bounded by the room left in a buffer of [sz] bytes. *)
Definition strncat_room (sz : nat) (dst src : string) : string :=
  dst +:+ String.substring 0 (sz - String.length dst - 1) src.

Definition toupper (c : ascii) : ascii :=
  let n := nat_of_ascii c in
  if (97 <=? n)%nat && (n <=? 122)%nat then ascii_of_nat (n - 32) else c.

Fixpoint str_map (f : ascii -> ascii) (s : string) : string :=
  match s with
  | EmptyString => EmptyString
  | String c s' => String (f c) (str_map f s')
  end.

(** "notify_d" to "notify". *)
Definition ns_of (n : string) (sz : nat) : string :=
  let len := String.length n in
  let len1 := if (2 <? len)%nat && strcmp_eq (String.substring (len - 2) 2 n) "_d"
              then (len - 2)%nat else len in
  let len2 := if (sz <=? len1)%nat then (sz - 1)%nat else len1 in
  snprintf_s sz (String.substring 0 len2 n).

Definition is_trail (c : ascii) : bool :=
  Ascii.eqb c "010" || Ascii.eqb c "013" || Ascii.eqb c " " || Ascii.eqb c "009".

(** Drops the maximal trailing run of such characters. *)
Fixpoint rstrip (p : ascii -> bool) (s : string) : string :=
  match s with
  | EmptyString => EmptyString
  | String c s' => match rstrip p s' with
                   | EmptyString => if p c then EmptyString else String c EmptyString
                   | r => String c r
                   end
  end.

Definition QUOT : ascii := "034".
Definition APOS : ascii := "039".

(** Leading blanks, trailing white space and one pair of quotes. *)
Definition trim_val (s : string) : string :=
  let t := rstrip is_trail (skip_while is_sep s) in
  let n := String.length t in
  let quoted q := match String.get 0 t, String.get (n - 1) t with
                  | Some a, Some b => Ascii.eqb a q && Ascii.eqb b q
                  | _, _ => false
                  end in
  if (2 <=? n)%nat && (quoted QUOT || quoted APOS) then String.substring 1 (n - 2) t else t.

Section decl.
  (** [getenv], and the home directory of the password database. *)
  Context (getenv : string -> option string) (pw_dir : option string).

(** A variable that is set and not empty. *)
Definition env_set (key : string) : option string :=
    match getenv key with
    | Some v => if strcmp_eq v "" then None else Some v
    | None => None
    end.

Definition env_long (key : string) (dflt : Z) : Z :=
    match env_set key with
    | None => dflt
    | Some v => let '(r, rest) := strtol v in
                if strcmp_eq rest "" && (0 <? r) then r else dflt
    end.

Definition home_default : string :=
    match env_set "AIRY_HOME" with
    | Some e => snprintf_s SUP_PATH_MAX e
    | None => let up := match getenv "HOME" with Some h => h | None => default "." pw_dir end in
              snprintf_s SUP_PATH_MAX (up +:+ "/.airymaxrt")
    end.

(** ** Entries *)

Definition resolve_ep (ctx : sup_ctx_t) (n : string) : string :=
    let ns := ns_of n SUP_NAME_MAX in
    let env_key := str_map toupper (snprintf_s 64 ("AIRY_" +:+ ns +:+ "_SOCK")) in
    match env_set env_key with
    | Some ov => snprintf_s SUP_PATH_MAX ov
    | None => if strcmp_eq ns "gateway" then ""
              else strncat_room SUP_PATH_MAX (path_join SUP_PATH_MAX (runtime_dir ctx) ns) ".sock"
    end.

Definition add_proc (ctx : sup_ctx_t) (n : string) (r : sup_role_t) : sup_ctx_t :=
    if (SUP_MAX_DAEMONS <=? length (procs ctx))%nat || strcmp_eq n "" then ctx
    else match sup_proc_find (procs ctx) (Some n) with
         | Some _ => ctx
         | None =>
             let nm := snprintf_s SUP_NAME_MAX n in
             let b := strncat_room SUP_PATH_MAX
                        (strncat_room SUP_PATH_MAX (path_join SUP_PATH_MAX (airy_home ctx) "bin") "/") n in
             set_procs ctx (procs ctx ++
               [mkProc nm b (resolve_ep ctx nm) "" r SUP_ST_STOPPED SUP_PID_INVALID 0 0 0 ""])
         end.

Definition add_all (ctx : sup_ctx_t) (ns : list string) (r : sup_role_t) : sup_ctx_t :=
    foldl (fun c n => add_proc c n r) ctx ns.

Definition split_names (ctx : sup_ctx_t) (val : string) (r : sup_role_t) : sup_ctx_t :=
    add_all ctx (strtok_all (snprintf_s SUP_ARGS_MAX val) "") r.

(** ** Lines *)

Definition set_args (p : sup_proc_t) (v : string) : sup_proc_t :=
    mkProc (name p) (bin p) (sock p) v (role p) (state p) (pid p) (fail_count p) (next_ms p)
           (dead_ticks p) (last_death p).

Definition set_bin (p : sup_proc_t) (v : string) : sup_proc_t :=
    mkProc (name p) v (sock p) (args p) (role p) (state p) (pid p) (fail_count p) (next_ms p)
           (dead_ticks p) (last_death p).

Definition set_sock (p : sup_proc_t) (v : string) : sup_proc_t :=
    mkProc (name p) (bin p) v (args p) (role p) (state p) (pid p) (fail_count p) (next_ms p)
           (dead_ticks p) (last_death p).

(** The entry a key with this prefix is about. *)
Definition keyed (ctx : sup_ctx_t) (pfx key : string) : option nat :=
    match strip_prefix pfx key with
    | Some n => sup_proc_find (procs ctx) (Some n)
    | None => None
    end.

Definition apply_args_line (ctx : sup_ctx_t) (key val : string) : sup_ctx_t :=
    match keyed ctx "AIRYRT_LAUNCH_ARGS_" key with
    | None => ctx
    | Some i => set_procs ctx (alter (fun p => set_args p (snprintf_s SUP_ARGS_MAX val)) i (procs ctx))
    end.

Definition apply_bin_line (ctx : sup_ctx_t) (key val : string) : sup_ctx_t :=
    if strcmp_eq val "" then ctx
    else match keyed ctx "AIRYRT_LAUNCH_BIN_" key with
         | None => ctx
         | Some i => set_procs ctx (alter (fun p => set_bin p (snprintf_s SUP_PATH_MAX val)) i (procs ctx))
         end.

(** A tcp endpoint needs a port that [strtol] reads to the end. *)
Definition ep_ok (val : string) : bool :=
    match strip_prefix "tcp:" val with
    | None => true
    | Some t => let '(port, rest) := strtol t in
                strcmp_eq rest "" && (1 <=? port) && (port <=? 65535)
    end.

Definition apply_ep_line (ctx : sup_ctx_t) (key val : string) : sup_ctx_t :=
    if strcmp_eq val "" then ctx
    else match keyed ctx "AIRYRT_LAUNCH_EP_" key with
         | None => ctx
         | Some i => if negb (ep_ok val) then ctx
                     else set_procs ctx (alter (fun p => set_sock p (snprintf_s SUP_PATH_MAX val)) i (procs ctx))
         end.

(** ** The file *)

(** [fgets] with a buffer of [n + 1] bytes: one line with its newline, or the
    first [n] characters of it. *)
Fixpoint fgets (n : nat) (s : string) : string * string :=
    match n, s with
    | O, _ | _, EmptyString => (EmptyString, s)
    | S n', String c s' =>
        if Ascii.eqb c "010" then (String c EmptyString, s')
        else let '(l, r) := fgets n' s' in (String c l, r)
    end.

(** Every line consumes a character, so the length of the text is enough. *)
Fixpoint file_lines (fuel : nat) (s : string) : list string :=
    match fuel, s with
    | O, _ | _, EmptyString => []
    | S f, _ => let '(l, r) := fgets (SUP_ARGS_MAX + 64 - 1) s in l :: file_lines f r
    end.

(** Key and value of a line. *)
Definition key_val (line : string) : option (string * string) :=
    match cut_at "=" line with
    | (_, None) => None
    | (k, Some v) => if strcmp_eq k "" then None else Some (k, trim_val v)
    end.

Definition pass0 (st : sup_ctx_t * bool) (line : string) : sup_ctx_t * bool :=
    let '(ctx, have) := st in
    match key_val line with
    | None => st
    | Some (k, v) =>
        if strcmp_eq k "AIRYRT_LAUNCH_CORE" then (split_names ctx v SUP_ROLE_CORE, true)
        else if strcmp_eq k "AIRYRT_LAUNCH_AUX" then (split_names ctx v SUP_ROLE_AUX, true)
        else st
    end.

Definition pass1 (ctx : sup_ctx_t) (line : string) : sup_ctx_t :=
    match key_val line with
    | None => ctx
    | Some (k, v) => apply_ep_line (apply_bin_line (apply_args_line ctx k v) k v) k v
    end.

Definition default_core : list string := ["gateway_d"; "llm_d"; "think_d"; "agent_d"; "tool_d"].
Definition default_aux : list string :=
    ["monit_d"; "sched_d"; "channel_d"; "market_d"; "cupolas_d"; "mem_d"; "a2a_d"; "notify_d"].

(** [true] for the return value 0. *)
Definition sup_decl_defaults (ctx : sup_ctx_t) : bool * sup_ctx_t :=
    let c := add_all (add_all (set_procs ctx []) default_core SUP_ROLE_CORE) default_aux SUP_ROLE_AUX in
    ((0 <? length (procs c))%nat, c).

Definition decl_params : sup_ctx_t :=
    let home := home_default in
    let rt := match env_set "AIRY_RUNTIME_DIR" with
              | Some d => snprintf_s SUP_PATH_MAX d
              | None => path_join SUP_PATH_MAX home "run"
              end in
    let ep := match env_set "AIRY_SUPERVISOR_SOCK" with
              | Some e => snprintf_s SUP_PATH_MAX e
              | None => path_join SUP_PATH_MAX rt "supervisor.sock"
              end in
    mkSup [] home rt (path_join SUP_PATH_MAX home "logs") ep
      (env_long "AIRYRT_SUP_TICK_MS" SUP_DEFAULT_TICK_MS)
      (env_long "AIRYRT_SUP_BACKOFF_BASE_MS" SUP_DEFAULT_BACKOFF_BASE_MS)
      (env_long "AIRYRT_SUP_BACKOFF_MAX_MS" SUP_DEFAULT_BACKOFF_MAX_MS)
      (s32 (env_long "AIRYRT_SUP_MAX_ATTEMPTS" SUP_DEFAULT_MAX_ATTEMPTS))
      (s32 (env_long "AIRYRT_SUP_LIVENESS_TICKS" SUP_DEFAULT_LIVENESS_TICKS))
      false.

(** [file] is the content of profile.env, [None] when it cannot be opened. *)
Definition sup_decl_load (file : option string) : bool * sup_ctx_t :=
    let ctx0 := decl_params in
    match file with
    | None => sup_decl_defaults ctx0
    | Some content =>
        let lines := file_lines (String.length content) content in
        let '(ctx1, have) := foldl pass0 (ctx0, false) lines in
        let ctx2 := foldl pass1 ctx1 lines in
        if negb have || (length (procs ctx2) =? 0)%nat then sup_decl_defaults ctx2
        else (true, ctx2)
    end.
End decl.

(** ** Declared tables *)

Record decl_ok (l : list sup_proc_t) : Prop := {
  do_cap : (length l <= SUP_MAX_DAEMONS)%nat;
  do_fresh : Forall proc_fresh l;
  do_names : Forall (fun p => name p <> "" /\ (String.length (name p) < SUP_NAME_MAX)%nat) l
}.

Lemma decl_ok_nil : decl_ok [].
Proof. split; [simpl; lia|constructor|constructor]. Qed.

Lemma snprintf_length k s : (0 < k)%nat -> (String.length (snprintf_s k s) < k)%nat.
Proof. intros Hk. unfold snprintf_s. pose proof (substring_short (k - 1) s). lia. Qed.

Lemma snprintf_nonempty k s : (2 <= k)%nat -> s <> "" -> snprintf_s k s <> "".
Proof. intros Hk Hs. unfold snprintf_s. destruct k as [|[|k]]; [lia..|]. by destruct s. Qed.

Section table.
  Context (getenv : string -> option string) (pw_dir : option string).

Lemma add_proc_ok ctx n r :
    decl_ok (procs ctx) -> decl_ok (procs (add_proc getenv ctx n r)).
  Proof.
    intros [Hc Hf Hn]. unfold add_proc. destruct (_ || _) eqn:E; [done|].
    apply orb_false_iff in E as [E1 E2]. apply Nat.leb_gt in E1. bool_cases.
    destruct (sup_proc_find _ _); [done|]. split; cbn [procs set_procs].
    - rewrite length_app. simpl. lia.
    - apply Forall_app. split; [done|]. by repeat constructor.
    - apply Forall_app. split; [done|]. constructor; [|done]. cbn [name]. split.
      + apply snprintf_nonempty; [unfold SUP_NAME_MAX; lia|done].
      + apply snprintf_length. unfold SUP_NAME_MAX. lia.
  Qed.

Lemma add_all_ok ns ctx r :
    decl_ok (procs ctx) -> decl_ok (procs (add_all getenv ctx ns r)).
  Proof.
    unfold add_all. revert ctx. induction ns as [|n ns IH]; intros ctx Hd; [done|].
    cbn [foldl]. apply IH. by apply add_proc_ok.
  Qed.

Lemma decl_alter_ok l i f :
    (forall p, proc_fresh p -> proc_fresh (f p)) -> (forall p, name (f p) = name p) ->
    decl_ok l -> decl_ok (alter f i l).
  Proof.
    intros Hf Hn [Hc Hfr Hna]. split.
    - by rewrite length_alter.
    - apply Forall_alter; [done|]. auto.
    - apply Forall_alter; [done|]. intros p. by rewrite Hn.
  Qed.

Lemma pass1_ok ctx line : decl_ok (procs ctx) -> decl_ok (procs (pass1 ctx line)).
  Proof.
    intros Hd. unfold pass1. destruct (key_val line) as [[k v]|]; [|done].
    assert (decl_ok (procs (apply_args_line ctx k v))) as H1.
    { unfold apply_args_line. case_match; [|done]. by apply decl_alter_ok. }
    assert (forall c, decl_ok (procs c) -> decl_ok (procs (apply_bin_line c k v))) as H2.
    { intros c Hc. unfold apply_bin_line. repeat case_match; try done. by apply decl_alter_ok. }
    unfold apply_ep_line. repeat case_match; try (by apply H2). cbn [procs set_procs].
    apply decl_alter_ok; [done|done|]. by apply H2.
  Qed.

Lemma pass0_ok st line : decl_ok (procs st.1) -> decl_ok (procs (pass0 getenv st line).1).
  Proof.
    destruct st as [ctx have]. simpl. intros Hd. unfold pass0.
    destruct (key_val line) as [[k v]|]; [|done].
    repeat case_match; try done; by apply add_all_ok.
  Qed.

Lemma foldl_ok {A S} (f : S -> A -> S) (g : S -> list sup_proc_t) l s :
    (forall s a, decl_ok (g s) -> decl_ok (g (f s a))) -> decl_ok (g s) -> decl_ok (g (foldl f s l)).
  Proof. intros Hf. revert s. induction l; intros s Hs; [done|]. simpl. auto. Qed.

Lemma add_proc_app ctx n r : exists t, procs (add_proc getenv ctx n r) = procs ctx ++ t.
  Proof.
    unfold add_proc. destruct (_ || _); [by exists []; rewrite app_nil_r|].
    destruct (sup_proc_find _ _); [by exists []; rewrite app_nil_r|]. eexists. reflexivity.
  Qed.

Lemma defaults_ok ctx : decl_ok (procs (sup_decl_defaults getenv ctx).2) /\
    (sup_decl_defaults getenv ctx).1 = true.
  Proof.
    unfold sup_decl_defaults. cbn [fst snd]. split.
    - apply add_all_ok, add_all_ok, decl_ok_nil.
    - apply Nat.ltb_lt.
      assert (forall ns c r, (length (procs c) <= length (procs (add_all getenv c ns r)))%nat) as Hmono.
      { intros ns c r. unfold add_all. revert c. induction ns as [|n ns IH]; intros c; [done|].
        cbn [foldl]. destruct (add_proc_app c n r) as [t Ht]. etrans; [|apply IH].
        rewrite Ht, length_app. lia. }
      eapply Nat.lt_le_trans; [|apply Hmono].
      eapply Nat.lt_le_trans; [|apply (Hmono ["llm_d"; "think_d"; "agent_d"; "tool_d"]
        (add_proc getenv (set_procs ctx []) "gateway_d" SUP_ROLE_CORE) SUP_ROLE_CORE)].
      unfold add_proc. cbn. lia.
  Qed.
End table.

Lemma env_long_pos getenv key d : 0 < d -> 0 < env_long getenv key d.
Proof.
  intros Hd. unfold env_long. destruct (env_set getenv key) as [v|]; [|done].
  destruct (strtol v) as [r rest]. destruct (_ && _) eqn:E; [|done].
  apply andb_true_iff in E as [_ E]. bool_cases. done.
Qed.

Lemma add_all_params getenv ctx ns r :
  max_attempts (add_all getenv ctx ns r) = max_attempts ctx.
Proof.
  unfold add_all. revert ctx. induction ns as [|n ns IH]; intros ctx; [done|]. cbn [foldl].
  rewrite IH. unfold add_proc. destruct (_ || _); [done|]. by destruct (sup_proc_find _ _).
Qed.

Lemma pass1_params ctx line : max_attempts (pass1 ctx line) = max_attempts ctx.
Proof.
  unfold pass1, apply_ep_line, apply_bin_line, apply_args_line.
  destruct (key_val line) as [[k v]|]; [|done]. repeat case_match; done.
Qed.

Lemma pass0_params getenv st line : max_attempts (pass0 getenv st line).1 = max_attempts st.1.
Proof.
  destruct st as [ctx have]. unfold pass0. destruct (key_val line) as [[k v]|]; [|done].
  destruct (strcmp_eq k "AIRYRT_LAUNCH_CORE"); [apply add_all_params|].
  destruct (strcmp_eq k "AIRYRT_LAUNCH_AUX"); [apply add_all_params|done].
Qed.

Lemma foldl_params {A S} (f : S -> A -> S) (g : S -> Z) l s :
  (forall s a, g (f s a) = g s) -> g (foldl f s l) = g s.
Proof. intros Hf. revert s. induction l; intros s; [done|]. simpl. rewrite IHl. apply Hf. Qed.

Lemma defaults_table getenv ctx ok ctx' :
  sup_decl_defaults getenv ctx = (ok, ctx') ->
  ok = true /\ decl_ok (procs ctx') /\ (1 <= length (procs ctx'))%nat /\
  max_attempts ctx' = max_attempts ctx.
Proof.
  intros E. destruct (defaults_ok getenv ctx) as [H1 H2].
  assert (max_attempts (sup_decl_defaults getenv ctx).2 = max_attempts ctx) as H3.
  { unfold sup_decl_defaults. cbn [snd]. by rewrite !add_all_params. }
  assert (1 <= length (procs (sup_decl_defaults getenv ctx).2))%nat as H4.
  { revert H2. unfold sup_decl_defaults. cbn [fst snd]. apply Nat.ltb_lt. }
  rewrite E in H1, H2, H3, H4. clear E. cbn [fst snd] in *.
  split; [exact H2|]. split; [exact H1|]. split; [exact H4|exact H3].
Qed.

Lemma load_table getenv pw file ok ctx :
  sup_decl_load getenv pw file = (ok, ctx) ->
  ok = true /\ decl_ok (procs ctx) /\ (1 <= length (procs ctx))%nat /\
  max_attempts ctx = s32 (env_long getenv "AIRYRT_SUP_MAX_ATTEMPTS" SUP_DEFAULT_MAX_ATTEMPTS).
Proof.
  unfold sup_decl_load. destruct file as [content|]; [|apply defaults_table].
  set (lines := file_lines _ _).
  pose proof (foldl_ok (pass0 getenv) (fun st => procs st.1) lines (decl_params getenv pw, false)
    (pass0_ok getenv) decl_ok_nil) as Hok0.
  pose proof (foldl_params (pass0 getenv) (fun st => max_attempts st.1) lines
    (decl_params getenv pw, false) (pass0_params getenv)) as Hm0.
  destruct (foldl (pass0 getenv) _ lines) as [ctx1 have]. cbn [fst] in *.
  pose proof (foldl_ok pass1 procs lines ctx1 pass1_ok Hok0) as Hok1.
  pose proof (foldl_params pass1 max_attempts lines ctx1 pass1_params) as Hm1.
  destruct (_ || _) eqn:E.
  - intros Hd. apply defaults_table in Hd as (H1 & H2 & H3 & H4).
    split; [done|]. split; [done|]. split; [done|]. by rewrite H4, Hm1, Hm0.
  - intros [= <- <-]. apply orb_false_iff in E as [_ E]. apply Nat.eqb_neq in E.
    split; [done|]. split; [done|]. split; [lia|]. by rewrite Hm1, Hm0.
Qed.

(** Every declaration gives a bootable table.  Whatever the environment and
    whatever profile.env holds (or its absence), loading succeeds with between
    one and sixteen daemons, each freshly stopped without a pid and named by a
    non-empty string that fits its buffer; if the attempt limit is not set
    outside the [int] range, it is positive, and then any sequence of rounds,
    activations and shutdown requests keeps the invariant of the table. *)
Theorem decl_load_ok {W} `{OS : SupOS W} `{OK : !SupOSOk W} getenv pw file ops (w : W) :
  let '(ok, ctx) := sup_decl_load getenv pw file in
  ok = true /\ decl_ok (procs ctx) /\ (1 <= length (procs ctx))%nat /\
  (env_long getenv "AIRYRT_SUP_MAX_ATTEMPTS" SUP_DEFAULT_MAX_ATTEMPTS < 2147483648 ->
   1 <= max_attempts ctx /\
   Forall (proc_inv ctx) (procs (foldl (fun st op => sup_apply op st) (ctx, w) ops).1)).
Proof.
  assert (forall ok ctx, sup_decl_load getenv pw file = (ok, ctx) ->
    ok = true /\ decl_ok (procs ctx) /\ (1 <= length (procs ctx))%nat /\
    max_attempts ctx = s32 (env_long getenv "AIRYRT_SUP_MAX_ATTEMPTS" SUP_DEFAULT_MAX_ATTEMPTS))
    as Hload by apply load_table.
  destruct (sup_decl_load getenv pw file) as [ok ctx].
  destruct (Hload ok ctx eq_refl) as (Hok & Hd & Hl & Hm). split; [done|]. split; [done|].
  split; [done|]. intros Hlt.
  assert (1 <= max_attempts ctx) as Hpos.
  { rewrite Hm. pose proof (env_long_pos getenv "AIRYRT_SUP_MAX_ATTEMPTS" SUP_DEFAULT_MAX_ATTEMPTS eq_refl).
    rewrite s32_small; lia. }
  split; [done|]. apply (reach_inv ops ctx w Hpos (do_fresh _ Hd)).
Qed.

Definition no_env (k : string) : option string := None.

Definition NLS : string := String "010" "".

Lemma decl_load_ok_witness :
  let '(ok, ctx) := sup_decl_load no_env None (Some ("AIRYRT_LAUNCH_CORE=llm_d tool_d" +:+ NLS)) in
  ok = true /\ map name (procs ctx) = ["llm_d"; "tool_d"] /\ (1 <= length (procs ctx))%nat.
Proof.
  pose proof (decl_load_ok no_env None (Some ("AIRYRT_LAUNCH_CORE=llm_d tool_d" +:+ NLS))
    [SupReconcile] (mkOs 0 0 false true [])) as H.
  destruct (sup_decl_load _ _ _) as [ok ctx] eqn:E. destruct H as (H1 & _ & H2 & _).
  vm_compute in E. injection E as <- <-. split; [exact H1|]. split; [reflexivity|exact H2].
Defined.

(** ** Distinct names *)

Lemma find_from_None i n l : find_from i n l = None <-> n ∉ map name l.
Proof.
  revert i. induction l as [|p l IH]; intros i; simpl; [split; [intros _; apply not_elem_of_nil|done]|].
  destruct (strcmp_eq (name p) n) eqn:E; bool_cases.
  - split; [done|]. intros H. destruct H. rewrite E. left.
  - rewrite IH, not_elem_of_cons. naive_solver.
Qed.

Lemma find_from_Some i n l k :
  find_from i n l = Some k -> exists j p, k = (i + j)%nat /\ l !! j = Some p /\ name p = n.
Proof.
  revert i. induction l as [|p l IH]; intros i; simpl; [done|].
  destruct (strcmp_eq (name p) n) eqn:E; bool_cases.
  - intros [= <-]. exists 0%nat, p. split; [lia|done].
  - intros H. apply IH in H as (j & q & -> & Hj & Hq). exists (S j), q. split; [lia|done].
Qed.

(** A daemon is declared once.  As long as the declared names fit the name
    buffer, adding any list of names to a table keeps the names of the table
    pairwise distinct, keeps every earlier entry (with its role) and never
    exceeds the capacity. *)
Theorem declared_once getenv ctx ns r :
  NoDup (map name (procs ctx)) -> (length (procs ctx) <= SUP_MAX_DAEMONS)%nat ->
  Forall (fun n => (String.length n < SUP_NAME_MAX)%nat) ns ->
  let ctx' := add_all getenv ctx ns r in
  NoDup (map name (procs ctx')) /\ (length (procs ctx') <= SUP_MAX_DAEMONS)%nat /\
  exists t, procs ctx' = procs ctx ++ t /\ Forall (fun p => role p = r /\ name p ∈ ns) t.
Proof.
  intros Hnd Hl HF. unfold add_all. revert ctx Hnd Hl.
  induction HF as [|n ns Hn HF IH]; intros ctx Hnd Hl; cbn [foldl].
  { split; [done|]. split; [done|]. exists []. by rewrite app_nil_r. }
  assert (NoDup (map name (procs (add_proc getenv ctx n r))) /\
    (length (procs (add_proc getenv ctx n r)) <= SUP_MAX_DAEMONS)%nat /\
    exists t, procs (add_proc getenv ctx n r) = procs ctx ++ t /\
      Forall (fun p => role p = r /\ name p ∈ n :: ns) t) as (H1 & H2 & t1 & Ht1 & Hf1).
  { unfold add_proc. destruct (_ || _) eqn:E.
    { split; [done|]. split; [done|]. exists []. by rewrite app_nil_r. }
    apply orb_false_iff in E as [E1 E2]. apply Nat.leb_gt in E1.
    cbn [sup_proc_find]. rewrite E2. destruct (find_from 0 n (procs ctx)) as [k|] eqn:Ef.
    { split; [done|]. split; [done|]. exists []. by rewrite app_nil_r. }
    apply find_from_None in Ef.
    assert (snprintf_s SUP_NAME_MAX n = n) as Hs by (by apply (bounded_copy_ok SUP_NAME_MAX n)).
    cbn [procs set_procs]. rewrite Hs. rewrite map_app, length_app. cbn [map length name]. split; [|split].
    - apply NoDup_app. split; [done|]. split; [|apply NoDup_singleton].
      intros x Hx ->%list_elem_of_singleton. done.
    - lia.
    - eexists. split; [done|]. constructor; [|done]. cbn [role name]. split; [done|left]. }
  destruct (IH _ H1 H2) as (H3 & H4 & t2 & Ht2 & Hf2). split; [done|]. split; [done|].
  exists (t1 ++ t2). rewrite Ht2, Ht1, app_assoc. split; [done|]. apply Forall_app. split; [done|].
  eapply Forall_impl; [exact Hf2|]. intros p [Hr Hp]. split; [done|by right].
Qed.

Lemma declared_once_witness :
  let ctx' := add_all no_env two_procs ["llm_d"; "mem_d"; "mem_d"] SUP_ROLE_AUX in
  NoDup (map name (procs ctx')) /\ map name (procs ctx') = ["llm_d"; "monit_d"; "mem_d"].
Proof.
  split; [|vm_compute; reflexivity].
  refine (proj1 (declared_once no_env two_procs ["llm_d"; "mem_d"; "mem_d"] SUP_ROLE_AUX _ _ _)).
  - apply (bool_decide_unpack _). reflexivity.
  - vm_compute. lia.
  - repeat constructor; vm_compute; lia.
Defined.

(** ** Fail-closed overrides *)

(** What the line [k=v] may do to an entry. *)
Definition override_rel (k v : string) (p p' : sup_proc_t) : Prop :=
  name p' = name p /\ role p' = role p /\ state p' = state p /\ pid p' = pid p /\
  (p' = p \/ exists pfx,
     pfx ∈ ["AIRYRT_LAUNCH_ARGS_"; "AIRYRT_LAUNCH_BIN_"; "AIRYRT_LAUNCH_EP_"] /\
     strip_prefix pfx k = Some (name p)) /\
  (sock p' = sock p \/ forall t, strip_prefix "tcp:" v = Some t -> 1 <= (strtol t).1 <= 65535).

#[export] Instance override_rel_po k v : PreOrder (override_rel k v).
Proof.
  split.
  - intros p. unfold override_rel. by auto 10.
  - intros a b c (N1 & R1 & T1 & I1 & D1 & S1) (N2 & R2 & T2 & I2 & D2 & S2). unfold override_rel.
    split; [congruence|]. split; [congruence|]. split; [congruence|]. split; [congruence|]. split.
    + destruct D2 as [->|(f & Hf & Hk)]; [done|]. right. exists f. split; [done|]. congruence.
    + destruct S2 as [S2|S2]; [|by right]. destruct S1 as [S1|S1]; [left; congruence|by right].
Qed.

Lemma keyed_name ctx pfx k j p :
  keyed ctx pfx k = Some j -> procs ctx !! j = Some p -> strip_prefix pfx k = Some (name p).
Proof.
  unfold keyed. destruct (strip_prefix pfx k) as [n|]; [|done]. cbn [sup_proc_find].
  destruct (strcmp_eq n ""); [done|]. intros Hj Hp.
  apply find_from_Some in Hj as (j' & q & -> & Hq & <-). simpl in Hp. rewrite Hp in Hq.
  by injection Hq as ->.
Qed.

Lemma Forall2_alter_r {A} (R : A -> A -> Prop) `{!Reflexive R} (f : A -> A) j l :
  (forall x, l !! j = Some x -> R x (f x)) -> Forall2 R l (alter f j l).
Proof.
  intros Hf. apply Forall2_same_length_lookup_2; [by rewrite length_alter|].
  intros i x y Hx Hy. destruct (decide (i = j)) as [->|Hne].
  - rewrite list_lookup_alter_eq, Hx in Hy. injection Hy as <-. by apply Hf.
  - rewrite list_lookup_alter_ne, Hx in Hy by done. by injection Hy as <-.
Qed.

Lemma Forall2_refl_list {A} (R : A -> A -> Prop) `{!Reflexive R} l : Forall2 R l l.
Proof. induction l; by constructor. Qed.

(** Overrides are fail-closed.  For one line, the second pass of the loader
    keeps the entries of the table with their names, roles and run states, and
    changes an entry only if the key is one of the three override keys and
    carries exactly that entry's name; a "tcp:" endpoint is only taken over
    with a port between 1 and 65535. *)
Theorem override_fail_closed ctx k v :
  let ctx' := apply_ep_line (apply_bin_line (apply_args_line ctx k v) k v) k v in
  Forall2 (override_rel k v) (procs ctx) (procs ctx').
Proof.
  cbv zeta. set (c1 := apply_args_line ctx k v). set (c2 := apply_bin_line c1 k v).
  transitivity (procs c1); [|transitivity (procs c2)].
  - unfold c1, apply_args_line. destruct (keyed ctx _ k) as [j|] eqn:Ej; [|apply Forall2_refl_list, _].
    apply Forall2_alter_r; [apply _|]. intros p Hp. unfold override_rel.
    cbn [name role state pid sock set_args set_bin set_sock].
    eapply keyed_name in Ej; [|exact Hp]. repeat split; [|by left]. right. eexists. split; [|exact Ej].
    apply (bool_decide_unpack _). reflexivity.
  - unfold c2, apply_bin_line. destruct (strcmp_eq v ""); [apply Forall2_refl_list, _|].
    destruct (keyed c1 _ k) as [j|] eqn:Ej; [|apply Forall2_refl_list, _].
    apply Forall2_alter_r; [apply _|]. intros p Hp. unfold override_rel.
    cbn [name role state pid sock set_args set_bin set_sock].
    eapply keyed_name in Ej; [|exact Hp]. repeat split; [|by left]. right. eexists. split; [|exact Ej].
    apply (bool_decide_unpack _). reflexivity.
  - unfold apply_ep_line. destruct (strcmp_eq v ""); [apply Forall2_refl_list, _|].
    destruct (keyed c2 _ k) as [j|] eqn:Ej; [|apply Forall2_refl_list, _].
    destruct (ep_ok v) eqn:Ev; cbn [negb]; [|apply Forall2_refl_list, _].
    apply Forall2_alter_r; [apply _|]. intros p Hp. unfold override_rel.
    cbn [name role state pid sock set_args set_bin set_sock].
    eapply keyed_name in Ej; [|exact Hp]. repeat split.
    + right. eexists. split; [|exact Ej]. apply (bool_decide_unpack _). reflexivity.
    + right. intros t Ht. unfold ep_ok in Ev. rewrite Ht in Ev. destruct (strtol t) as [port rest].
      bool_cases. simpl. lia.
Qed.

(** ** Deviations from the stated contract *)

(** Long names are declared twice.  Duplicates are looked up by the full
    name while entries store the name cut to its buffer: any name of 32
    characters or more is added again each time it is declared. *)
Theorem long_name_duplicated getenv ctx n r :
  (SUP_NAME_MAX <= String.length n)%nat -> (length (procs ctx) < SUP_MAX_DAEMONS)%nat ->
  Forall (fun p => (String.length (name p) < SUP_NAME_MAX)%nat) (procs ctx) ->
  length (procs (add_proc getenv ctx n r)) = S (length (procs ctx)).
Proof.
  intros Hn Hl HF. unfold add_proc.
  assert (n <> "") as Hne by (intros ->; simpl in Hn; unfold SUP_NAME_MAX in *; lia).
  rewrite (proj2 (Nat.leb_gt _ _) Hl), (proj2 (strcmp_eq_false n "") Hne). cbn [orb].
  cbn [sup_proc_find]. rewrite (proj2 (strcmp_eq_false n "") Hne).
  destruct (find_from 0 n (procs ctx)) as [k|] eqn:Ef.
  - exfalso. apply find_from_Some in Ef as (j & p & _ & Hj & <-).
    rewrite Forall_lookup in HF. specialize (HF _ _ Hj). lia.
  - cbn [procs set_procs]. rewrite length_app. simpl. lia.
Qed.

Definition long_name : string := "a_daemon_name_of_more_than_32_characters_d".

Lemma long_name_duplicated_witness :
  length (procs (add_proc no_env (add_proc no_env two_procs long_name SUP_ROLE_CORE) long_name
    SUP_ROLE_CORE)) = 4%nat.
Proof.
  refine (long_name_duplicated no_env (add_proc no_env two_procs long_name SUP_ROLE_CORE) long_name
    SUP_ROLE_CORE _ _ _).
  - vm_compute. lia.
  - vm_compute. lia.
  - repeat constructor; vm_compute; lia.
Defined.

(** The port check is not digits-only.  The contract asks for a port of
    digits only; the check accepts whatever [strtol] accepts, so a sign or
    leading blanks pass and end up in the probed address. *)
Theorem signed_port_accepted :
  ep_ok "tcp:+80" = true /\ ep_ok "tcp: 80" = true /\ ep_ok "tcp:80x" = false /\
  map sock (procs (apply_ep_line two_procs "AIRYRT_LAUNCH_EP_llm_d" "tcp:+80")) = ["tcp:+80"; "/run/monit_d"].
Proof. repeat split; vm_compute; reflexivity. Qed.
