(* ===== verification/SupCtrl.v ===== *)
(** * SupCtrl

    The control port of supervisor_d (supervisor_d/src/ctrl/ctrl.c): the field
    lookup of its one-line JSON-RPC, the reading of a request, the dispatch on
    the process table, the responses, and the requests of the command-line
    client.  Socket calls are left out: a connection is the list of the chunks
    read from it. *)

From S2P Require Import Prelude Supervisor SupDecl.

Definition SUP_REQ_MAX : nat := 2048.
Definition RESP_MAX : nat := 1664.

Definition state_str (st : sup_state_t) : string :=
  match st with
  | SUP_ST_STARTING => "starting"
  | SUP_ST_RUNNING => "running"
  | SUP_ST_BACKOFF => "backoff"
  | SUP_ST_FAILED => "failed"
  | SUP_ST_STOPPED => "stopped"
  end.

(** A double quote, and a string between double quotes. *)
Definition dq : string := String QUOT "".
Definition quoted (s : string) : string := dq +:+ s +:+ dq.

(** ** Fields *)

Definition is_ws (c : ascii) : bool :=
  Ascii.eqb c " " || Ascii.eqb c "009" || Ascii.eqb c "013" || Ascii.eqb c "010".

Definition str_drop (n : nat) (s : string) : string := String.substring n (String.length s - n) s.

(** The search loop; every turn moves past a match, so the length of the text
    bounds the turns. *)
Fixpoint find_key_loop (fuel : nat) (pat : string) (p : string) : option string :=
  match fuel with
  | O => None
  | S f =>
      match strstr pat p with
      | None => None
      | Some q =>
          let c := skip_while is_ws (str_drop (String.length pat) q) in
          match c with
          | String ":" c' => Some (skip_while is_ws c')
          | _ => find_key_loop f pat c
          end
      end
  end.

Definition sup_find_key (json key : string) : option string :=
  let pat := quoted key in
  if (64 <=? String.length pat)%nat then None
  else find_key_loop (S (String.length json)) pat json.

(** The copy loop: the text up to the closing quote, an escaped character
    standing for itself, at most [room] characters kept. *)
Fixpoint copy_string (room : nat) (c : string) : option string :=
  match c with
  | EmptyString => None
  | String a c' =>
      if Ascii.eqb a QUOT then Some EmptyString
      else
        match Ascii.eqb a "\", c' with
        | true, String b c'' =>
            match room with
            | O => copy_string O c''
            | S r => option_map (String b) (copy_string r c'')
            end
        | _, _ =>
            match room with
            | O => copy_string O c'
            | S r => option_map (String a) (copy_string r c')
            end
        end
  end.

(** [None] for the return value -1. *)
Definition sup_json_field (json key : string) (out_sz : nat) : option string :=
  match sup_find_key json key with
  | Some (String a c) => if Ascii.eqb a QUOT then copy_string (out_sz - 1) c else None
  | _ => None
  end.

(** ** Responses *)

Definition resp_msg (kind text : string) (id : Z) : string :=
  "{" +:+ quoted kind +:+ ":" +:+ quoted text +:+ "," +:+ quoted "id" +:+ ":" +:+ print_d id +:+ "}" +:+ NLS.

Definition health_head : string :=
  "{" +:+ quoted "result" +:+ ":" +:+ quoted "ok" +:+ "," +:+ quoted "daemons" +:+ ":[".

Definition health_entry (first : bool) (p : sup_proc_t) : string :=
  (if first then "" else ",") +:+ "{" +:+ quoted "name" +:+ ":" +:+ quoted (name p) +:+ ","
  +:+ quoted "state" +:+ ":" +:+ quoted (state_str (state p)) +:+ "," +:+ quoted "fails" +:+ ":"
  +:+ print_d (fail_count p) +:+ "}".

(** The filling loop of the health response.  [off] counts the characters that
    the calls would have written, [buf] is the buffer. *)
Fixpoint health_loop (first : bool) (l : list sup_proc_t) (off : nat) (buf : string) : nat * string :=
  match l with
  | [] => (off, buf)
  | p :: l' =>
      if (off <? RESP_MAX)%nat
      then let e := health_entry first p in
           health_loop false l' (off + String.length e) (buf +:+ snprintf_s (RESP_MAX - off) e)
      else (off, buf)
  end.

(** [None] when the last call would write behind the buffer. *)
Definition health_resp (l : list sup_proc_t) (id : Z) : option string :=
  let head := snprintf_s RESP_MAX health_head in
  let '(off, buf) := health_loop true l (String.length health_head) head in
  if (RESP_MAX <? off)%nat then None
  else Some (buf +:+ snprintf_s (RESP_MAX - off) ("]," +:+ quoted "id" +:+ ":" +:+ print_d id +:+ "}" +:+ NLS)).

(** ** Dispatch *)

Section dispatch.
  Context {W : Type} `{OS : SupOS W}.

(** The table, the world and the response; [None] in place of the response
    stands for a write behind the response buffer. *)
Definition dispatch (ctx : sup_ctx_t) (req : string) (w : W) : sup_ctx_t * W * option string :=
    let id := match sup_find_key req "id" with Some s => (strtol s).1 | None => 0 end in
    match sup_json_field req "method" 64 with
    | None => (ctx, w, Some (snprintf_s RESP_MAX (resp_msg "error" "missing method" id)))
    | Some m =>
        if strcmp_eq m "supervisor.activate" then
          match sup_json_field req "name" SUP_NAME_MAX with
          | None => (ctx, w, Some (snprintf_s RESP_MAX (resp_msg "error" "missing name" id)))
          | Some n =>
              let '(ok, ctx', w') := sup_activate ctx (Some n) w in
              (ctx', w', Some (snprintf_s RESP_MAX
                 (if ok : bool then resp_msg "result" "ok" id else resp_msg "error" "activate failed" id)))
          end
        else if strcmp_eq m "supervisor.shutdown" then
          (set_shutdown ctx, w, Some (snprintf_s RESP_MAX (resp_msg "result" "ok" id)))
        else if strcmp_eq m "health_check" then (ctx, w, health_resp (procs ctx) id)
        else (ctx, w, Some (snprintf_s RESP_MAX (resp_msg "error" "unknown method" id)))
    end.

(** The reading loop over the chunks of a connection (without NUL bytes); the
    empty string when nothing is to be dispatched. *)
Fixpoint read_req (chunks : list string) (acc : string) : string :=
    match chunks with
    | [] => acc
    | c :: rest =>
        if (SUP_REQ_MAX <=? String.length acc + String.length c)%nat then ""
        else let acc' := acc +:+ c in
             if has_char "010" acc' || has_char "}" acc' then acc' else read_req rest acc'
    end.

Definition sup_ctrl_serve (ctx : sup_ctx_t) (chunks : list string) (w : W)
      : sup_ctx_t * W * option string :=
    let req := read_req chunks "" in
    if strcmp_eq req "" then (ctx, w, Some "") else dispatch ctx req w.
End dispatch.

(** ** The client *)

Definition CLIENT_REQ_MAX : nat := 160.

(** The request of a sub-command; [None] for the usage text. *)
Definition client_req (argv : list string) : option string :=
  match argv with
  | ["activate"; n] =>
      Some (snprintf_s CLIENT_REQ_MAX
        ("{" +:+ quoted "method" +:+ ":" +:+ quoted "supervisor.activate" +:+ "," +:+ quoted "params" +:+ ":{"
         +:+ quoted "name" +:+ ":" +:+ dq +:+ n +:+ dq +:+ "}," +:+ quoted "id" +:+ ":1}" +:+ NLS))
  | ["stop"] =>
      Some (snprintf_s CLIENT_REQ_MAX
        ("{" +:+ quoted "method" +:+ ":" +:+ quoted "supervisor.shutdown" +:+ "," +:+ quoted "id" +:+ ":1}" +:+ NLS))
  | ["status"] =>
      Some (snprintf_s CLIENT_REQ_MAX
        ("{" +:+ quoted "method" +:+ ":" +:+ quoted "health_check" +:+ "," +:+ quoted "id" +:+ ":1}" +:+ NLS))
  | _ => None
  end.

(** ** The health response fits its buffer *)

Lemma print_u_len_gen fuel n acc k :
  0 <= n < 10 ^ Z.of_nat k -> (0 < k)%nat ->
  (String.length (dec_aux fuel n acc) <= k + String.length acc)%nat.
Proof.
  revert n acc k. induction fuel as [|f IH]; intros n acc k Hn Hk; cbn [dec_aux]; [lia|].
  destruct (Z.ltb_spec n 10); [cbn [String.length]; lia|].
  destruct k as [|k]; [lia|]. rewrite Nat2Z.inj_succ, Z.pow_succ_r in Hn by lia.
  assert (k <> 0)%nat as Hk0.
  { intros ->. change (10 ^ Z.of_nat 0) with 1 in Hn. lia. }
  etrans; [apply (IH _ _ k)|cbn [String.length]; lia].
  - split; [apply Z.div_pos; lia|]. apply Z.div_lt_upper_bound; lia.
  - lia.
Qed.

Lemma print_d_len n : - 2147483648 <= n <= 2147483647 -> (String.length (print_d n) <= 11)%nat.
Proof.
  intros Hn. unfold print_d, print_u. destruct (Z.ltb_spec n 0).
  - cbn [String.length]. pose proof (print_u_len_gen 20 (- n) "" 10 ltac:(lia) ltac:(lia)). simpl in *. lia.
  - pose proof (print_u_len_gen 20 n "" 10 ltac:(lia) ltac:(lia)). simpl in *. lia.
Qed.

Lemma health_entry_len first p :
  (String.length (name p) < SUP_NAME_MAX)%nat -> - 2147483648 <= fail_count p <= 2147483647 ->
  (String.length (health_entry first p) <= 82)%nat.
Proof.
  intros Hn Hf. unfold health_entry, quoted, dq. rewrite !str_length_app. cbn [String.length].
  pose proof (print_d_len _ Hf). unfold SUP_NAME_MAX in Hn.
  assert (String.length (state_str (state p)) <= 8)%nat by (destruct (state p); simpl; lia).
  assert (String.length (if first then "" else ",") <= 1)%nat by (destruct first; simpl; lia). lia.
Qed.

Lemma snprintf_short k s : (String.length s < k)%nat -> snprintf_s k s = s.
Proof. apply (bounded_copy_ok k s). Qed.

(** The entries in order, separated by commas. *)
Fixpoint health_entries (first : bool) (l : list sup_proc_t) : string :=
  match l with
  | [] => ""
  | p :: l' => health_entry first p +:+ health_entries false l'
  end.

Lemma health_loop_fits first l off buf :
  Forall (fun p => (String.length (name p) < SUP_NAME_MAX)%nat /\
                   - 2147483648 <= fail_count p <= 2147483647) l ->
  (off + 82 * length l < RESP_MAX)%nat ->
  health_loop first l off buf = ((off + String.length (health_entries first l))%nat, buf +:+ health_entries first l)
  /\ (String.length (health_entries first l) <= 82 * length l)%nat.
Proof.
  intros HF. revert first off buf. induction HF as [|p l [Hn Hf] HF IH]; intros first off buf Hl; cbn [length] in *.
  - simpl. rewrite str_app_nil_r, Nat.add_0_r. done.
  - cbn [health_loop health_entries]. pose proof (health_entry_len first p Hn Hf) as He.
    rewrite (proj2 (Nat.ltb_lt off RESP_MAX)) by lia. rewrite snprintf_short by lia.
    destruct (IH false (off + String.length (health_entry first p))%nat
      (buf +:+ health_entry first p)) as [-> Hlen]; [lia|].
    rewrite str_length_app, str_app_assoc, Nat.add_assoc. split; [done|]. lia.
Qed.

Lemma print_d_long_len n :
  - LONG_MAX - 1 <= n <= LONG_MAX -> (String.length (print_d n) <= 20)%nat.
Proof.
  unfold LONG_MAX. intros Hn. unfold print_d, print_u. destruct (Z.ltb_spec n 0).
  - cbn [String.length]. pose proof (print_u_len_gen 20 (- n) "" 19 ltac:(lia) ltac:(lia)). simpl in *. lia.
  - pose proof (print_u_len_gen 20 n "" 19 ltac:(lia) ltac:(lia)). simpl in *. lia.
Qed.

(** The health response fits.  For every table of the declared shape (at
    most sixteen entries, names within their buffer, counters within [int]) and
    every 64-bit request id, the response of health_check is written completely
    and within its 1664-byte buffer: all entries in table order, then the id. *)
Theorem health_resp_fits l id :
  (length l <= SUP_MAX_DAEMONS)%nat ->
  Forall (fun p => (String.length (name p) < SUP_NAME_MAX)%nat /\
                   - 2147483648 <= fail_count p <= 2147483647) l ->
  - LONG_MAX - 1 <= id <= LONG_MAX ->
  let text := health_head +:+ health_entries true l +:+ "]," +:+ quoted "id" +:+ ":" +:+ print_d id +:+ "}" +:+ NLS in
  health_resp l id = Some text /\ (String.length text < RESP_MAX)%nat.
Proof.
  intros Hl HF Hid. cbv zeta. unfold health_resp.
  assert (String.length health_head = 26)%nat as Hh by reflexivity.
  assert (82 * length l <= 1312)%nat as Hb by (unfold SUP_MAX_DAEMONS in Hl; lia).
  rewrite (snprintf_short RESP_MAX health_head) by (rewrite Hh; unfold RESP_MAX; lia).
  destruct (health_loop_fits true l (String.length health_head) health_head HF) as [-> Hlen].
  { rewrite Hh. unfold RESP_MAX. lia. }
  pose proof (print_d_long_len id Hid) as Hi.
  assert (String.length ("]," +:+ quoted "id" +:+ ":" +:+ print_d id +:+ "}" +:+ NLS) <= 29)%nat as Ht.
  { unfold quoted, dq, NLS. rewrite !str_length_app. cbn [String.length]. lia. }
  set (tail := "]," +:+ _) in *. rewrite Hh.
  rewrite (proj2 (Nat.ltb_ge RESP_MAX _)) by (unfold RESP_MAX; lia).
  rewrite snprintf_short by (unfold RESP_MAX; lia).
  rewrite str_app_assoc. split; [done|]. rewrite !str_length_app, Hh. unfold RESP_MAX. lia.
Qed.

Lemma health_resp_fits_witness :
  exists text, health_resp (procs two_procs) 7 = Some text /\ (String.length text < RESP_MAX)%nat.
Proof.
  eexists. apply (health_resp_fits (procs two_procs) 7).
  - vm_compute. lia.
  - repeat constructor; vm_compute; try lia; discriminate.
  - unfold LONG_MAX. lia.
Defined.

(** ** Client and server agree *)

(** A name without quotes and backslashes. *)
Definition plain_name (n : string) : Prop :=
  str_forallb (fun c => negb (Ascii.eqb c QUOT) && negb (Ascii.eqb c "\")) n = true.

Lemma copy_string_plain n room rest :
  plain_name n -> (String.length n <= room)%nat ->
  copy_string room (n +:+ String QUOT rest) = Some n.
Proof.
  unfold plain_name. revert room. induction n as [|c n IH]; intros room Hp Hl.
  - change ("" +:+ String QUOT rest) with (String QUOT rest). done.
  - cbn [str_forallb] in Hp. apply andb_true_iff in Hp as [Hc Hp].
    apply andb_true_iff in Hc as [Hq Hb]. apply negb_true_iff in Hq, Hb.
    rewrite str_app_cons. cbn [copy_string]. rewrite Hq, Hb. cbn [String.length] in Hl.
    destruct room as [|r]; [lia|]. rewrite IH; [done|done|lia].
Qed.

(** The request around the name. *)
Definition act_pre : string :=
  "{" +:+ quoted "method" +:+ ":" +:+ quoted "supervisor.activate" +:+ "," +:+ quoted "params" +:+ ":{"
  +:+ quoted "name" +:+ ":" +:+ dq.
Definition act_post : string := dq +:+ "}," +:+ quoted "id" +:+ ":1}" +:+ NLS.

Lemma act_req n :
  (String.length n < SUP_NAME_MAX)%nat ->
  client_req ["activate"; n] = Some (act_pre +:+ (n +:+ act_post)).
Proof.
  intros Hn. cbn [client_req]. f_equal.
  transitivity (snprintf_s CLIENT_REQ_MAX (act_pre +:+ (n +:+ act_post))); [reflexivity|].
  apply snprintf_short. rewrite !str_length_app.
  change (String.length act_pre) with 50%nat. change (String.length act_post) with 11%nat.
  unfold SUP_NAME_MAX, CLIENT_REQ_MAX in *. lia.
Qed.

Lemma strstr_method t :
  strstr (quoted "method") (act_pre +:+ t)
  = Some (quoted "method" +:+ (":" +:+ quoted "supervisor.activate" +:+ "," +:+ quoted "params" +:+ ":{"
          +:+ quoted "name" +:+ ":" +:+ dq) +:+ t).
Proof. reflexivity. Qed.

Lemma strstr_name t :
  strstr (quoted "name") (act_pre +:+ t) = Some (quoted "name" +:+ ":" +:+ dq +:+ t).
Proof. reflexivity. Qed.

Lemma str_drop_app a b : str_drop (String.length a) (a +:+ b) = b.
Proof.
  unfold str_drop. rewrite str_length_app, Nat.add_comm, Nat.add_sub.
  assert (forall s, String.substring 0 (String.length s) s = s) as Hall
    by (induction s; simpl; congruence).
  induction a as [|c a IH]; [apply Hall|]. exact IH.
Qed.

Lemma act_method t : sup_json_field (act_pre +:+ t) "method" 64 = Some "supervisor.activate".
Proof.
  unfold sup_json_field, sup_find_key. change (64 <=? String.length (quoted "method"))%nat with false.
  cbn [find_key_loop]. rewrite strstr_method, str_drop_app. reflexivity.
Qed.

Lemma act_name n :
  plain_name n -> (String.length n < SUP_NAME_MAX)%nat ->
  sup_json_field (act_pre +:+ (n +:+ act_post)) "name" SUP_NAME_MAX = Some n.
Proof.
  intros Hp Hn. unfold sup_json_field, sup_find_key.
  change (64 <=? String.length (quoted "name"))%nat with false.
  cbn [find_key_loop]. rewrite strstr_name, str_drop_app.
  change (skip_while is_ws (":" +:+ dq +:+ (n +:+ act_post))) with (":" +:+ dq +:+ (n +:+ act_post)).
  change (copy_string (SUP_NAME_MAX - 1)
    (n +:+ String QUOT ("}," +:+ quoted "id" +:+ ":1}" +:+ NLS)) = Some n).
  apply copy_string_plain; [done|]. unfold SUP_NAME_MAX in *. lia.
Qed.

(** The client's activation reaches the table.  For every name that fits
    the name buffer and holds no quote or backslash, the request the command
    line builds is received whole and has exactly the effect of activating that
    name; the answer is "ok" when the activation reports success and
    "activate failed" otherwise. *)
Theorem client_activate_roundtrip {W} `{SupOS W} ctx n (w : W) :
  plain_name n -> (String.length n < SUP_NAME_MAX)%nat ->
  exists req id, client_req ["activate"; n] = Some req /\
    sup_ctrl_serve ctx [req] w =
      let '(ok, ctx', w') := sup_activate ctx (Some n) w in
      (ctx', w', Some (snprintf_s RESP_MAX
         (if ok : bool then resp_msg "result" "ok" id else resp_msg "error" "activate failed" id))).
Proof.
  intros Hp Hn. set (req := act_pre +:+ (n +:+ act_post)). exists req.
  exists (match sup_find_key req "id" with Some s => (strtol s).1 | None => 0 end).
  split; [by apply act_req|]. unfold sup_ctrl_serve.
  assert (read_req [req] "" = req) as ->.
  { cbn [read_req]. change ("" +:+ req) with req. change (String.length "") with 0%nat.
    rewrite (proj2 (Nat.leb_gt _ _)).
    - assert (has_char "010" req = true) as ->; [|done].
      unfold req. rewrite !has_char_app. change (has_char "010" act_post) with true. by rewrite !orb_true_r.
    - unfold req. rewrite !str_length_app.
      change (String.length act_pre) with 50%nat. change (String.length act_post) with 11%nat.
      unfold SUP_NAME_MAX, SUP_REQ_MAX in *. lia. }
  change (strcmp_eq req "") with false. unfold dispatch.
  rewrite (act_method (n +:+ act_post) : sup_json_field req "method" 64 = _).
  rewrite (act_name n Hp Hn : sup_json_field req "name" SUP_NAME_MAX = _).
  change (strcmp_eq "supervisor.activate" "supervisor.activate") with true. cbv iota. done.
Qed.

Lemma client_activate_roundtrip_witness :
  exists req id, client_req ["activate"; "monit_d"] = Some req /\
    sup_ctrl_serve two_procs [req] (mkOs 0 0 false true []) =
      let '(ok, ctx', w') := sup_activate two_procs (Some "monit_d") (mkOs 0 0 false true []) in
      (ctx', w', Some (snprintf_s RESP_MAX
         (if ok : bool then resp_msg "result" "ok" id else resp_msg "error" "activate failed" id))).
Proof.
  apply (client_activate_roundtrip two_procs "monit_d" (mkOs 0 0 false true [])); [reflexivity|].
  vm_compute. lia.
Defined.
