(* ===== verification/MemEnv.v ===== *)
(** * MemEnv

    What the context engines of mem_d (ledger, semantic cache) use of their
    environment: the commons allocator, the monotonic clock, [rand], the token
    counter of commons, and the identifier format both engines share
    (["%08x%08x%08x%08x"]).  The environment is a class of operations on a
    world [W]; every allocation asks it for an answer, so an out-of-memory
    failure can happen at each of them. *)

From S2P Require Import Prelude.

Class MemOS (W : Type) := {
  os_alloc : W -> bool * W;                    (** malloc, calloc, realloc, strdup *)
  os_time_ns : W -> Z * W;                     (** airy_time_ns *)
  os_rand : W -> Z * W;
  self_addr : Z;                               (** the address of the engine object *)
  tok_counter : Type;                          (** airy_token_counter_t *)
  tok_create : string -> W -> option tok_counter * W;
  tok_count : tok_counter -> string -> Z;
  AIRY_TOKEN_MODEL_NAME_DEFAULT : string
}.

(** ** Identifiers *)

(** [n] printed as [k] hexadecimal digits: "%08x" of a [uint32_t] is
    [hexn 8]. *)
Fixpoint hexn (k : nat) (n : Z) : string :=
  match k with
  | O => EmptyString
  | S k' => hexn k' (n / 16) +:+ String (hex_char (n mod 16)) EmptyString
  end.

Definition id32 (now r seq : Z) : string :=
  hexn 8 (u32 now) +:+ hexn 8 (u32 (Z.shiftr now 32)) +:+ hexn 8 (u32 r) +:+ hexn 8 (u32 seq).

Section Env.
Context {W : Type} `{MemOS W}.

Definition AIRY_STRDUP (s : string) (w : W) : option string * W :=
  let '(ok, w) := os_alloc w in (if ok : bool then Some s else None, w).

(** [p ? AIRY_STRDUP(p) : NULL] *)
Definition strdup_opt (s : option string) (w : W) : option string * W :=
  match s with
  | Some s => AIRY_STRDUP s w
  | None => (None, w)
  end.

(** The identifier for the (already incremented) counter [seq]: clock, random
    word mixed with the object's address, counter. *)
Definition id_gen (seq : Z) (w : W) : string * W :=
  let '(now, w) := os_time_ns w in
  let '(rnd, w) := os_rand w in
  (id32 now (Z.lxor (u64 rnd) (u64 self_addr)) seq, w).
End Env.

(** ** Lemmas *)

Lemma hexn_length k n : String.length (hexn k n) = k.
Proof.
  revert n. induction k as [|k IH]; intros n; [done|].
  cbn [hexn]. rewrite str_length_app, IH. simpl. lia.
Qed.

Lemma hex_char_inj a b : 0 <= a < 16 -> 0 <= b < 16 -> hex_char a = hex_char b -> a = b.
Proof.
  intros Ha Hb E.
  assert (N : nat_of_ascii (hex_char a) = nat_of_ascii (hex_char b)) by by rewrite E.
  unfold hex_char in N. rewrite !nat_ascii_embedding in N by (repeat case_match; lia).
  repeat case_match; bool_cases; lia.
Qed.

Lemma str_app_inj a a' b b' :
  String.length a = String.length a' -> a +:+ b = a' +:+ b' -> a = a' /\ b = b'.
Proof.
  revert a'. induction a as [|x a IH]; intros [|x' a'] L E; try done.
  rewrite !str_app_cons in E. injection E as -> E. simpl in L.
  destruct (IH a') as [-> ->]; [lia|done|done].
Qed.

Lemma hexn_inj k n m :
  0 <= n < 16 ^ Z.of_nat k -> 0 <= m < 16 ^ Z.of_nat k -> hexn k n = hexn k m -> n = m.
Proof.
  revert n m. induction k as [|k IH]; intros n m Hn Hm E; [simpl in *; lia|].
  rewrite Nat2Z.inj_succ, Z.pow_succ_r in Hn, Hm by lia. cbn [hexn] in E.
  apply str_app_inj in E as [E1 E2]; [|by rewrite !hexn_length].
  injection E2 as E2. apply hex_char_inj in E2; [|apply Z.mod_pos_bound; lia..].
  apply IH in E1; [|Z.div_mod_to_equations; nia..].
  Z.div_mod_to_equations; lia.
Qed.

(** Identifiers made for different counter values are different: the last
    word is the counter. *)
Lemma id32_seq_inj now r n now' r' n' :
  is_u32 n -> is_u32 n' -> id32 now r n = id32 now' r' n' -> n = n'.
Proof.
  intros Hn Hn' E. unfold id32 in E.
  do 3 (apply str_app_inj in E as [_ E]; [|by rewrite !hexn_length]).
  rewrite !u32_id in E by done. apply hexn_inj in E; [done|ulia..].
Qed.

Lemma id32_length now r n : String.length (id32 now r n) = 32%nat.
Proof. unfold id32. by rewrite !str_length_app, !hexn_length. Qed.

(** ** Concrete environments *)

(** Memory never runs out; the clock is the world. *)
Definition toy_mem : MemOS Z :=
  Build_MemOS Z (fun w => (true, w)) (fun w => (w, w + 1)) (fun w => (w * 7, w)) 4096
    unit (fun _ w => (Some tt, w)) (fun _ t => strlen t / 4 + 1) "generic".

(** The world is the number of allocations that still succeed. *)
Definition tight_mem : MemOS nat :=
  Build_MemOS nat (fun w => match w with S w' => (true, w') | O => (false, O) end)
    (fun w => (1, w)) (fun w => (2, w)) 4096
    unit (fun _ w => (Some tt, w)) (fun _ t => strlen t / 4 + 1) "generic".
