(* ===== verification/Ledger.v ===== *)
(** * Ledger

    The context ledger of mem_d (mem_d/src/engine/ledger.c): per session an
    append-only chain of entries with token costs and status, batch append in
    two phases, status marking, the active window, the budget query and the
    history replay.  The singly linked chains are lists, oldest entry first;
    the session list is newest first, as the code prepends. *)

From S2P Require Import Prelude Doubles MemEnv.

(** ** Data *)

Definition DEFAULT_BUDGET : Z := 32768.
Definition DEFAULT_WARN_RATIO : double := d_lit 8 10.
Definition MAX_SESSION_ID_LEN : Z := 255.
Definition DEFAULT_MAX_SESSIONS : Z := 1024.
Definition DEFAULT_MAX_ENTRIES : Z := 200000.

(** ledger_entry_type_t *)
Definition LEDGER_ENTRY_SYSTEM : Z := 0.
Definition LEDGER_ENTRY_USER : Z := 2.
Definition LEDGER_ENTRY_CACHE_HIT : Z := 6.

(** ledger_status_t *)
Definition LEDGER_STATUS_ACTIVE : Z := 0.
Definition LEDGER_STATUS_EVICTED : Z := 1.
Definition LEDGER_STATUS_COMPRESSED : Z := 2.
Definition LEDGER_STATUS_DEDUPED : Z := 3.

Record ledger_entry_in_t := mkIn {
  in_type : Z;
  in_text : option string;
  in_token_in : Z;
  in_token_out : Z;
  in_source : option string;
  in_ref_id : option string
}.

Record ledger_entry := mkEntry {
  e_seq : Z;
  e_id : string;
  e_session : string;
  e_type : Z;
  e_token_in : Z;
  e_token_out : Z;
  e_source : option string;
  e_status : Z;
  e_created : Z;
  e_ref : option string
}.

Record ledger_session := mkSession {
  s_id : string;
  s_entries : list ledger_entry;
  s_count : Z;
  s_active : Z;
  s_budget : Z
}.

Record ledger_entry_view_t := mkView {
  v_seq : Z;
  v_id : string;
  v_session : option string;
  v_type : Z;
  v_token_in : Z;
  v_token_out : Z;
  v_source : option string;
  v_status : Z;
  v_created : Z;
  v_ref : option string
}.

Record ledger_window_t := mkWindow {
  win_entries : list ledger_entry_view_t;
  win_total : Z;
  win_warn : bool
}.

Definition set_status (st : Z) (e : ledger_entry) : ledger_entry :=
  mkEntry (e_seq e) (e_id e) (e_session e) (e_type e) (e_token_in e) (e_token_out e)
          (e_source e) st (e_created e) (e_ref e).

Section Ledger.
Context `{AiryString} {W : Type} `{MemOS W}.

Record mem_ledger := mkLedger {
  sessions : list ledger_session;
  session_count : Z;
  entry_count : Z;
  total_tokens : Z;
  default_budget : Z;
  warn_ratio : double;
  max_sessions : Z;
  max_entries : Z;
  counter : tok_counter;
  token_family : string;
  l_seq : Z
}.

(** The fields the operations change. *)
Definition upd_ledger (l : mem_ledger) (ss : list ledger_session) (sc ec tt sq : Z) : mem_ledger :=
  mkLedger ss sc ec tt (default_budget l) (warn_ratio l) (max_sessions l) (max_entries l)
           (counter l) (token_family l) sq.

Definition set_seq (l : mem_ledger) (sq : Z) : mem_ledger :=
  upd_ledger l (sessions l) (session_count l) (entry_count l) (total_tokens l) sq.

(** ** Helpers *)

Definition entry_id_gen (l : mem_ledger) (w : W) : string * mem_ledger * W :=
  let sq := u64 (l_seq l + 1) in
  let '(id, w) := id_gen sq w in
  (id, set_seq l sq, w).

Fixpoint find_session (sid : string) (ss : list ledger_session) : option ledger_session :=
  match ss with
  | [] => None
  | s :: ss' => if strcmp_eq (s_id s) sid then Some s else find_session sid ss'
  end.

Definition session_find (l : mem_ledger) (sid : string) : option ledger_session :=
  find_session sid (sessions l).

(** The writes through the pointer [session_find] returned: the first session
    with the identifier is replaced. *)
Fixpoint put_session (s : ledger_session) (ss : list ledger_session) : list ledger_session :=
  match ss with
  | [] => []
  | x :: ss' => if strcmp_eq (s_id x) (s_id s) then s :: ss' else x :: put_session s ss'
  end.

Fixpoint active_sum (es : list ledger_entry) (total : Z) : Z :=
  match es with
  | [] => total
  | e :: es' =>
      active_sum es' (if e_status e =? LEDGER_STATUS_ACTIVE then u64 (total + e_token_in e)
                      else total)
  end.

Definition session_recalc_active (s : ledger_session) : ledger_session :=
  mkSession (s_id s) (s_entries s) (s_count s) (active_sum (s_entries s) 0) (s_budget s).

Fixpoint entry_find_by_id (es : list ledger_entry) (id : string) : option ledger_entry :=
  match es with
  | [] => None
  | e :: es' => if strcmp_eq (e_id e) id then Some e else entry_find_by_id es' id
  end.

(** [e->status = status] on the entry [entry_find_by_id] returned. *)
Fixpoint entry_set_status (es : list ledger_entry) (id : string) (st : Z) : list ledger_entry :=
  match es with
  | [] => []
  | e :: es' => if strcmp_eq (e_id e) id then set_status st e :: es'
                else e :: entry_set_status es' id st
  end.

Definition view_from_entry (e : ledger_entry) (w : W) : option ledger_entry_view_t * W :=
  let '(ok, w) := os_alloc w in
  if ok : bool then
    let '(sid, w) := AIRY_STRDUP (e_session e) w in
    let '(src, w) := strdup_opt (e_source e) w in
    let '(ref, w) := strdup_opt (e_ref e) w in
    (Some (mkView (e_seq e) (AIRY_STRNCPY_TERM 33 (e_id e)) sid (e_type e) (e_token_in e)
                  (e_token_out e) src (e_status e) (e_created e) ref), w)
  else (None, w).

(** ** Life cycle *)

Definition mem_ledger_create (budget : Z) (ratio : double) (w : W) : option mem_ledger * W :=
  let '(ok, w) := os_alloc w in
  if negb ok then (None, w)
  else
    let fam := AIRY_STRNCPY_TERM 16 AIRY_TOKEN_MODEL_NAME_DEFAULT in
    let '(c, w) := tok_create fam w in
    match c with
    | None => (None, w)
    | Some c =>
        (Some (mkLedger [] 0 0 0 (if 0 <? budget then budget else DEFAULT_BUDGET)
                 (if dlt d_zero ratio && dle ratio (d_of_Z 1) then ratio else DEFAULT_WARN_RATIO)
                 DEFAULT_MAX_SESSIONS DEFAULT_MAX_ENTRIES c fam 0), w)
    end.

Definition mem_ledger_set_tfam (l : option mem_ledger) (family_name : option string) (w : W)
  : airy_rc * option mem_ledger * W :=
  match l with
  | None => (AIRY_ERR_INVALID_PARAM, l, w)
  | Some lg =>
      let name := match family_name with
                  | Some (String c s) => String c s
                  | _ => AIRY_TOKEN_MODEL_NAME_DEFAULT
                  end in
      if strcmp_eq name (token_family lg) then (AIRY_SUCCESS, l, w)
      else
        let '(c, w) := tok_create name w in
        match c with
        | None => (AIRY_ERR_OUT_OF_MEMORY, l, w)
        | Some c =>
            (AIRY_SUCCESS,
             Some (mkLedger (sessions lg) (session_count lg) (entry_count lg) (total_tokens lg)
                     (default_budget lg) (warn_ratio lg) (max_sessions lg) (max_entries lg)
                     c (AIRY_STRNCPY_TERM 16 name) (l_seq lg)), w)
        end
  end.

Definition mem_ledger_tfam (l : option mem_ledger) : string :=
  match l with
  | Some l => token_family l
  | None => AIRY_TOKEN_MODEL_NAME_DEFAULT
  end.

(** ** Append *)

(** [entries] is the array argument ([None] for a NULL pointer), [count] its
    length as passed. *)
Definition append_args_ok (l : option mem_ledger) (sid : option string)
    (entries : option (list ledger_entry_in_t)) (count : Z) : airy_rc :=
  match l, sid, entries with
  | Some l, Some sid, _ =>
      if (match entries with None => 0 <? count | Some _ => false end) then AIRY_ERR_INVALID_PARAM
      else if (strlen sid =? 0) || (MAX_SESSION_ID_LEN <? strlen sid) then AIRY_ERR_INVALID_PARAM
      else if count =? 0 then AIRY_SUCCESS
      else if existsb (fun i => (in_type i <? LEDGER_ENTRY_SYSTEM) ||
                                (LEDGER_ENTRY_CACHE_HIT <? in_type i))
                      (take (Z.to_nat count) (default [] entries))
      then AIRY_ERR_INVALID_PARAM
      else if max_entries l <? u64 (entry_count l + count) then AIRY_ERR_OVERFLOW
      else AIRY_SUCCESS
  | _, _, _ => AIRY_ERR_INVALID_PARAM
  end.

(** A new session is allocated but not linked: it is not yet in [sessions]. *)
Definition append_session (l : mem_ledger) (sid : string) (w : W)
  : (airy_rc + ledger_session) * W :=
  match session_find l sid with
  | Some s => (inr s, w)
  | None =>
      if max_sessions l <=? session_count l then (inl AIRY_ERR_OVERFLOW, w)
      else
        let '(ok, w) := os_alloc w in
        if negb ok then (inl AIRY_ERR_OUT_OF_MEMORY, w)
        else
          let '(d, w) := AIRY_STRDUP sid w in
          match d with
          | None => (inl AIRY_ERR_OUT_OF_MEMORY, w)
          | Some d => (inr (mkSession d [] 0 0 (default_budget l)), w)
          end
  end.

(** One entry of the batch; [None] is an allocation failure.  The counter of
    the ledger advances once for the identifier and once for [seq]. *)
Definition fill_one (l : mem_ledger) (sid : string) (i : ledger_entry_in_t) (w : W)
  : option ledger_entry * mem_ledger * W :=
  let '(ok, w) := os_alloc w in
  if negb ok then (None, l, w)
  else
    let '(id, l, w) := entry_id_gen l w in
    let '(d, w) := AIRY_STRDUP sid w in
    match d with
    | None => (None, l, w)
    | Some d =>
        let tin := if 0 <? in_token_in i then in_token_in i
                   else match in_text i with
                        | Some t => tok_count (counter l) t
                        | None => 0
                        end in
        let '(src, w) := strdup_opt (in_source i) w in
        let '(now, w) := os_time_ns w in
        let '(ref, w) := strdup_opt (in_ref_id i) w in
        let sq := u64 (l_seq l + 1) in
        (Some (mkEntry sq id d (in_type i) tin (in_token_out i) src LEDGER_STATUS_ACTIVE now ref),
         set_seq l sq, w)
    end.

(** Phase one: all entries or none. *)
Fixpoint append_fill (l : mem_ledger) (sid : string) (ins : list ledger_entry_in_t) (w : W)
  : option (list ledger_entry) * mem_ledger * W :=
  match ins with
  | [] => (Some [], l, w)
  | i :: ins' =>
      let '(e, l, w) := fill_one l sid i w in
      match e with
      | None => (None, l, w)
      | Some e =>
          let '(b, l, w) := append_fill l sid ins' w in
          (match b with Some b => Some (e :: b) | None => None end, l, w)
      end
  end.

Definition link_one (ls : mem_ledger * ledger_session) (e : ledger_entry)
  : mem_ledger * ledger_session :=
  let '(l, s) := ls in
  (upd_ledger l (sessions l) (session_count l) (u64 (entry_count l + 1))
              (u64 (total_tokens l + e_token_in e)) (l_seq l),
   mkSession (s_id s) (s_entries s ++ [e]) (u64 (s_count s + 1))
             (u64 (s_active s + e_token_in e)) (s_budget s)).

(** Phase two: link the whole batch; a new session (one without entries) is
    put at the front of the list here. *)
Definition append_link (l : mem_ledger) (s : ledger_session) (batch : list ledger_entry)
  : mem_ledger :=
  let l := match s_entries s with
           | [] => upd_ledger l (s :: sessions l) (u64 (session_count l + 1)) (entry_count l)
                              (total_tokens l) (l_seq l)
           | _ => l
           end in
  let '(l, s) := foldl link_one (l, s) batch in
  upd_ledger l (put_session s (sessions l)) (session_count l) (entry_count l)
             (total_tokens l) (l_seq l).

(** The result: return code, [*out_ledger_id], ledger. *)
Definition mem_ledger_append (l : option mem_ledger) (sid : option string)
    (entries : option (list ledger_entry_in_t)) (count : Z) (w : W)
  : airy_rc * option string * option mem_ledger * W :=
  match append_args_ok l sid entries count with
  | AIRY_SUCCESS =>
      match l, sid with
      | Some lg, Some sd =>
          if count =? 0 then (AIRY_SUCCESS, None, l, w)
          else
            let '(r, w) := append_session lg sd w in
            match r with
            | inl rc => (rc, None, l, w)
            | inr s =>
                let '(ok, w) := os_alloc w in
                if negb ok then (AIRY_ERR_OUT_OF_MEMORY, None, l, w)
                else
                  let '(b, lg, w) :=
                    append_fill lg sd (take (Z.to_nat count) (default [] entries)) w in
                  match b with
                  | None => (AIRY_ERR_OUT_OF_MEMORY, None, Some lg, w)
                  | Some batch =>
                      let first_id := match batch with e :: _ => e_id e | [] => "" end in
                      let lg := append_link lg s batch in
                      let '(d, w) := AIRY_STRDUP (AIRY_STRNCPY_TERM 33 first_id) w in
                      (AIRY_SUCCESS, d, Some lg, w)
                  end
            end
      | _, _ => (AIRY_ERR_INVALID_PARAM, None, l, w)
      end
  | rc => (rc, None, l, w)
  end.

(** ** Queries *)

(** The views of the entries the predicate keeps, up to the first failed
    allocation. *)
Fixpoint collect_views (p : ledger_entry -> bool) (es : list ledger_entry) (w : W)
  : list ledger_entry_view_t * W :=
  match es with
  | [] => ([], w)
  | e :: es' =>
      if p e then
        let '(v, w) := view_from_entry e w in
        match v with
        | None => ([], w)
        | Some v => let '(vs, w) := collect_views p es' w in (v :: vs, w)
        end
      else collect_views p es' w
  end.

Definition is_active (e : ledger_entry) : bool := e_status e =? LEDGER_STATUS_ACTIVE.

Definition mem_ledger_window (l : option mem_ledger) (sid : option string) (w : W)
  : airy_rc * ledger_window_t * W :=
  let empty := mkWindow [] 0 false in
  match l, sid with
  | Some l, Some sid =>
      match session_find l sid with
      | None => (AIRY_SUCCESS, empty, w)
      | Some s =>
          let '(ok, w) := os_alloc w in
          if negb ok then (AIRY_ERR_OUT_OF_MEMORY, empty, w)
          else
            let '(vs, w) := collect_views is_active (s_entries s) w in
            (AIRY_SUCCESS,
             mkWindow vs (s_active s)
               (d_trunc (dmul (d_of_Z (s_budget s)) (warn_ratio l)) <=? s_active s), w)
      end
  | _, _ => (AIRY_ERR_INVALID_PARAM, empty, w)
  end.

(** Return code and the three outputs: used, limit, headroom. *)
Definition mem_ledger_budget (l : option mem_ledger) (sid : option string)
  : airy_rc * option (Z * Z * Z) :=
  match l, sid with
  | Some l, Some sid =>
      match session_find l sid with
      | None => (AIRY_SUCCESS, Some (0, default_budget l, default_budget l))
      | Some s =>
          (AIRY_SUCCESS,
           Some (s_active s, s_budget s,
                 if s_active s <? s_budget s then s_budget s - s_active s else 0))
      end
  | _, _ => (AIRY_ERR_INVALID_PARAM, None)
  end.

Definition mem_ledger_history (l : option mem_ledger) (sid : option string) (limit : Z) (w : W)
  : airy_rc * list ledger_entry_view_t * W :=
  match l, sid with
  | Some l, Some sid =>
      match session_find l sid with
      | None => (AIRY_SUCCESS, [], w)
      | Some s =>
          let total := Z.of_nat (length (s_entries s)) in
          let tk := if (0 <? limit) && (limit <? total) then limit else total in
          if tk =? 0 then (AIRY_SUCCESS, [], w)
          else
            let '(ok, w) := os_alloc w in
            if negb ok then (AIRY_ERR_OUT_OF_MEMORY, [], w)
            else
              let '(vs, w) :=
                collect_views (fun _ => true) (drop (Z.to_nat (total - tk)) (s_entries s)) w in
              (AIRY_SUCCESS, vs, w)
      end
  | _, _ => (AIRY_ERR_INVALID_PARAM, [], w)
  end.

Definition mem_ledger_stats (l : mem_ledger) : Z * Z * Z :=
  (session_count l, entry_count l, total_tokens l).

Definition mem_ledger_warn_ratio (l : option mem_ledger) : double :=
  match l with Some l => warn_ratio l | None => DEFAULT_WARN_RATIO end.

(** ** Marking *)

(** The status-change record for entry [e]; [None] is an allocation failure
    (all three copies are attempted before the test). *)
Definition mark_rec (l : mem_ledger) (sid : string) (e : ledger_entry) (st : Z) (w : W)
  : option ledger_entry * mem_ledger * W :=
  let '(ok, w) := os_alloc w in
  if negb ok then (None, l, w)
  else
    let '(id, l, w) := entry_id_gen l w in
    let '(d, w) := AIRY_STRDUP sid w in
    let '(src, w) := AIRY_STRDUP "ledger" w in
    let '(ref, w) := AIRY_STRDUP (e_id e) w in
    match d, src, ref with
    | Some d, Some src, Some ref =>
        let '(now, w) := os_time_ns w in
        let sq := u64 (l_seq l + 1) in
        (Some (mkEntry sq id d (e_type e) 0 0 (Some src) st now (Some ref)), set_seq l sq, w)
    | _, _, _ => (None, l, w)
    end.

(** The loop of [mem_ledger_mark]; [false] is the early out-of-memory
    return. *)
Fixpoint mark_loop (l : mem_ledger) (s : ledger_session) (sid : string) (ids : list string)
    (st : Z) (updated : Z) (w : W) : bool * mem_ledger * ledger_session * Z * W :=
  match ids with
  | [] => (true, l, s, updated, w)
  | id :: ids' =>
      match entry_find_by_id (s_entries s) id with
      | None => mark_loop l s sid ids' st updated w
      | Some e =>
          if e_status e =? st then mark_loop l s sid ids' st updated w
          else
            let '(r, l, w) := mark_rec l sid e st w in
            match r with
            | None => (false, l, s, updated, w)
            | Some r =>
                let l := upd_ledger l (sessions l) (session_count l) (u64 (entry_count l + 1))
                                    (total_tokens l) (l_seq l) in
                let s := mkSession (s_id s) (entry_set_status (s_entries s ++ [r]) id st)
                                   (u64 (s_count s + 1)) (s_active s) (s_budget s) in
                mark_loop l s sid ids' st (updated + 1) w
            end
      end
  end.

Definition store_session (l : mem_ledger) (s : ledger_session) : mem_ledger :=
  upd_ledger l (put_session s (sessions l)) (session_count l) (entry_count l)
             (total_tokens l) (l_seq l).

Definition mem_ledger_mark (l : option mem_ledger) (sid : option string)
    (ids : option (list string)) (count : Z) (st : Z) (w : W)
  : airy_rc * option Z * option mem_ledger * W :=
  match l, sid with
  | Some lg, Some sd =>
      if (match ids with None => 0 <? count | Some _ => false end)
      then (AIRY_ERR_INVALID_PARAM, None, l, w)
      else if (st <? LEDGER_STATUS_ACTIVE) || (LEDGER_STATUS_DEDUPED <? st)
      then (AIRY_ERR_INVALID_PARAM, None, l, w)
      else
        match session_find lg sd with
        | None => (AIRY_ERR_NOT_FOUND, None, l, w)
        | Some s =>
            let '(ok, lg, s, updated, w) :=
              mark_loop lg s sd (take (Z.to_nat count) (default [] ids)) st 0 w in
            if ok : bool
            then (AIRY_SUCCESS, Some updated, Some (store_session lg (session_recalc_active s)), w)
            else (AIRY_ERR_OUT_OF_MEMORY, None, Some (store_session lg s), w)
        end
  | _, _ => (AIRY_ERR_INVALID_PARAM, None, l, w)
  end.

(** ** Invariant *)

Definition n_entries (ss : list ledger_session) : Z :=
  zsum (map (fun s => Z.of_nat (length (s_entries s))) ss).

Definition n_tokens (es : list ledger_entry) : Z := zsum (map e_token_in es).

Definition all_tokens (ss : list ledger_session) : Z :=
  zsum (map (fun s => n_tokens (s_entries s)) ss).

Definition active_tokens_of (es : list ledger_entry) : Z := n_tokens (List.filter is_active es).

(** The identifier was generated one counter step before [seq]. *)
Definition id_ok (e : ledger_entry) : Prop := exists now r, e_id e = id32 now r (e_seq e - 1).

(** Sequence numbers grow strictly along the chain, between [lo] and [hi]. *)
Fixpoint chain (lo : Z) (es : list ledger_entry) (hi : Z) : Prop :=
  match es with
  | [] => lo <= hi
  | e :: es' => lo < e_seq e /\ id_ok e /\ chain (e_seq e) es' hi
  end.

(** [strict] says that the cached token sum is exact. *)
Record session_inv (strict : bool) (seq : Z) (s : ledger_session) : Prop := {
  si_nonempty : s_entries s <> [];
  si_count : s_count s = Z.of_nat (length (s_entries s));
  si_owner : Forall (fun e => e_session e = s_id s) (s_entries s);
  si_chain : chain 0 (s_entries s) seq;
  si_range : is_u64 (s_active s);
  si_active : strict = true -> s_active s = u64 (active_tokens_of (s_entries s))
}.

Record ledger_inv (strict : bool) (l : mem_ledger) : Prop := {
  li_nodup : NoDup (map s_id (sessions l));
  li_scount : session_count l = Z.of_nat (length (sessions l));
  li_scap : session_count l <= max_sessions l;
  li_smax : is_u64 (max_sessions l);
  li_ecount : entry_count l = n_entries (sessions l);
  li_ebound : entry_count l <= l_seq l;
  li_tokens : total_tokens l = u64 (all_tokens (sessions l));
  li_seq : is_u64 (l_seq l);
  li_sessions : Forall (session_inv strict (l_seq l)) (sessions l);
  li_budget : 0 < default_budget l
}.

(** ** Arithmetic of the counters *)

Lemma u64_add_l a b : u64 (u64 a + b) = u64 (a + b).
Proof. unfold u64. rewrite Zplus_mod_idemp_l. done. Qed.

Lemma active_sum_spec es t : active_sum es (u64 t) = u64 (t + active_tokens_of es).
Proof.
  revert t. induction es as [|e es IH]; intros t; unfold active_tokens_of, n_tokens in *; cbn [active_sum].
  - cbn. by rewrite Z.add_0_r.
  - cbn [List.filter]. unfold is_active at 1. destruct (e_status e =? LEDGER_STATUS_ACTIVE).
    + rewrite u64_add_l, IH. cbn [map zsum]. f_equal. lia.
    + by rewrite IH.
Qed.

Lemma active_sum_0 es : active_sum es 0 = u64 (active_tokens_of es).
Proof. exact (active_sum_spec es 0). Qed.

Lemma active_tokens_app a b :
  active_tokens_of (a ++ b) = active_tokens_of a + active_tokens_of b.
Proof. unfold active_tokens_of, n_tokens. by rewrite List.filter_app, map_app, zsum_app. Qed.

Lemma chain_le lo es hi : chain lo es hi -> lo <= hi.
Proof. revert lo. induction es as [|e es IH]; intros lo; cbn; [done|]. intros (?&?&?%IH). lia. Qed.

Lemma chain_length lo es hi : chain lo es hi -> lo + Z.of_nat (length es) <= hi.
Proof.
  revert lo. induction es as [|e es IH]; intros lo; cbn [chain length]; [lia|].
  intros (?&_&?%IH). lia.
Qed.

Lemma chain_app lo a mid b hi : chain lo a mid -> chain mid b hi -> chain lo (a ++ b) hi.
Proof.
  revert lo. induction a as [|e a IH]; intros lo; cbn.
  - intros ? Hb. destruct b as [|e b]; cbn in *; [lia|].
    destruct Hb as (?&?&?). repeat split; [lia|done|done].
  - intros (?&?&?) Hb. eauto.
Qed.

Lemma chain_weaken lo es mid hi : chain lo es mid -> mid <= hi -> chain lo es hi.
Proof. intros. rewrite <- (app_nil_r es). eapply chain_app; [done|]. done. Qed.

Lemma session_inv_mono strict a b s : session_inv strict a s -> a <= b -> session_inv strict b s.
Proof. intros [] ?. split; try done. by eapply chain_weaken. Qed.

Lemma zsum_lengths_nonneg ss : 0 <= n_entries ss.
Proof. apply zsum_nonneg, Forall_map, Forall_true. intros; cbn. lia. Qed.

(** ** The session list *)

Lemma find_session_split sid ss s :
  find_session sid ss = Some s ->
  exists a b, ss = a ++ s :: b /\ s_id s = sid /\ sid ∉ map s_id a /\
    forall s', s_id s' = sid -> put_session s' ss = a ++ s' :: b.
Proof.
  induction ss as [|x ss IH]; cbn; [done|].
  destruct (strcmp_eq (s_id x) sid) eqn:E.
  - intros [= ->]. bool_cases. exists [], ss. repeat split; [done|by intros ?%elem_of_nil|].
    intros s' E'. cbn. rewrite E', E. by rewrite strcmp_eq_refl.
  - intros (a & b & -> & Hs & Hn & Hp)%IH. exists (x :: a), b. repeat split; [done| |].
    + cbn. intros [C|C]%elem_of_cons; [|done]. subst sid. by rewrite C, strcmp_eq_refl in E.
    + intros s' E'. cbn. rewrite E', E. cbn. by rewrite Hp.
Qed.

Lemma find_session_none sid ss : find_session sid ss = None <-> sid ∉ map s_id ss.
Proof.
  induction ss as [|x ss IH]; cbn.
  - split; [by intros _ ?%elem_of_nil|done].
  - rewrite not_elem_of_cons. destruct (strcmp_eq (s_id x) sid) eqn:E; bool_cases.
    + split; [done|]. intros []. congruence.
    + rewrite IH. naive_solver.
Qed.

(** Reading after writing a session. *)
Lemma find_put_session ss s s' sid :
  find_session (s_id s') ss = Some s ->
  find_session sid (put_session s' ss) =
    if decide (sid = s_id s') then Some s' else find_session sid ss.
Proof.
  induction ss as [|x ss IH]; cbn; [done|].
  destruct (strcmp_eq (s_id x) (s_id s')) eqn:E; intros Hf; cbn.
  - destruct (decide (sid = s_id s')) as [->|N]; [by rewrite strcmp_eq_refl|].
    bool_cases. rewrite E. rewrite (proj2 (strcmp_eq_false _ _)) by congruence. done.
  - rewrite IH by done. destruct (decide _) as [->|N]; [by rewrite E|done].
Qed.

(** ** Append: phase lemmas *)

(** What a stored entry keeps of its input. *)
Definition entry_of_input (l : mem_ledger) (sid : string) (i : ledger_entry_in_t)
    (e : ledger_entry) : Prop :=
  e_session e = sid /\ e_type e = in_type i /\ e_token_out e = in_token_out i /\
  e_status e = LEDGER_STATUS_ACTIVE /\
  e_token_in e = (if 0 <? in_token_in i then in_token_in i
                  else match in_text i with Some t => tok_count (counter l) t | None => 0 end) /\
  (e_source e = in_source i \/ e_source e = None) /\
  (e_ref e = in_ref_id i \/ e_ref e = None).

Lemma set_seq_set l a b : set_seq (set_seq l a) b = set_seq l b.
Proof. done. Qed.

Lemma set_seq_id l : set_seq l (l_seq l) = l.
Proof. by destruct l. Qed.

Lemma strdup_opt_spec s w r w' : strdup_opt s w = (r, w') -> r = s \/ r = None.
Proof.
  destruct s as [s|]; cbn; [|naive_solver]. unfold AIRY_STRDUP.
  destruct (os_alloc w) as [[] ?]; naive_solver.
Qed.

Lemma strdup_spec s w r w' : AIRY_STRDUP s w = (r, w') -> r = Some s \/ r = None.
Proof. unfold AIRY_STRDUP. destruct (os_alloc w) as [[] ?]; naive_solver. Qed.

Lemma id_gen_spec sq w id w' : id_gen sq w = (id, w') -> exists now r, id = id32 now r sq.
Proof.
  unfold id_gen. destruct (os_time_ns w) as [now w1], (os_rand w1) as [r w2].
  intros [= <- <-]. eauto.
Qed.

Lemma entry_id_gen_spec l w id l' w' :
  entry_id_gen l w = (id, l', w') ->
  l' = set_seq l (u64 (l_seq l + 1)) /\ exists now r, id = id32 now r (u64 (l_seq l + 1)).
Proof.
  unfold entry_id_gen. destruct (id_gen _ w) as [i w1] eqn:E. intros [= <- <- <-].
  split; [done|]. by eapply id_gen_spec.
Qed.

Lemma fill_one_spec l sid i w r l' w' :
  fill_one l sid i w = (r, l', w') -> is_u64 (l_seq l) -> l_seq l + 2 <= UINT64_MAX ->
  l' = set_seq l (l_seq l') /\ l_seq l <= l_seq l' <= l_seq l + 2 /\
  forall e, r = Some e -> entry_of_input l sid i e /\ id_ok e /\
    e_seq e = l_seq l' /\ l_seq l' = l_seq l + 2.
Proof.
  unfold fill_one. intros Hf Hr Hs. destruct (os_alloc w) as [[] w1]; cbn [negb] in Hf.
  2:{ injection Hf as <- <- <-. rewrite set_seq_id. split; [done|]. split; [lia|done]. }
  destruct (entry_id_gen l w1) as [[id l1] w2] eqn:Ei.
  apply entry_id_gen_spec in Ei as [-> (now & rr & ->)]. rewrite (u64_id (l_seq l + 1)) in * by ulia.
  destruct (AIRY_STRDUP sid w2) as [d w3] eqn:Ed. destruct (strdup_spec _ _ _ _ Ed) as [->| ->].
  2:{ injection Hf as <- <- <-. cbn. split; [done|]. split; [lia|done]. }
  destruct (strdup_opt (in_source i) w3) as [src w4] eqn:Es.
  destruct (os_time_ns w4) as [t w5]. destruct (strdup_opt (in_ref_id i) w5) as [ref w6] eqn:Er.
  injection Hf as <- <- <-. cbn [l_seq set_seq upd_ledger].
  rewrite u64_id by ulia. rewrite set_seq_set. split; [f_equal; lia|]. split; [lia|].
  intros e [= <-]. split; [|split; [|cbn; lia]].
  - repeat split; cbn; eauto using strdup_opt_spec.
  - exists now, rr. cbn. f_equal. lia.
Qed.

Lemma append_fill_spec l sid ins w b l' w' :
  append_fill l sid ins w = (b, l', w') -> is_u64 (l_seq l) ->
  l_seq l + 2 * Z.of_nat (length ins) <= UINT64_MAX ->
  l' = set_seq l (l_seq l') /\ l_seq l <= l_seq l' <= l_seq l + 2 * Z.of_nat (length ins) /\
  forall batch, b = Some batch ->
    Forall2 (entry_of_input l sid) ins batch /\ chain (l_seq l) batch (l_seq l') /\
    l_seq l' = l_seq l + 2 * Z.of_nat (length ins).
Proof.
  revert l w b l' w'. induction ins as [|i ins IH]; cbn [append_fill length]; intros l w b l' w' Hf Hr Hs.
  { injection Hf as <- <- <-. rewrite set_seq_id. split; [done|]. split; [lia|].
    intros ? [= <-]. split; [constructor|]. cbn. lia. }
  destruct (fill_one l sid i w) as [[r l1] w1] eqn:E1.
  destruct (fill_one_spec _ _ _ _ _ _ _ E1 Hr) as (El1 & Hle & He); [lia|].
  destruct r as [e|].
  2:{ injection Hf as <- <- <-. split; [done|]. split; [lia|done]. }
  destruct (He e eq_refl) as (Hin & Hid & Hseq & Hl1).
  destruct (append_fill l1 sid ins w1) as [[b' l2] w2] eqn:E2. injection Hf as <- <- <-.
  destruct (IH _ _ _ _ _ E2) as (El2 & Hle2 & Hb); [ulia|lia|].
  split; [transitivity (set_seq l1 (l_seq l2)); [done|by rewrite El1]|]. split; [lia|].
  intros batch Hbb. destruct b' as [b'|]; [|done]. injection Hbb as <-.
  destruct (Hb b' eq_refl) as (HF & Hc & ?). repeat split.
  - constructor; [done|]. rewrite El1 in HF. exact HF.
  - lia.
  - done.
  - by rewrite Hseq.
  - lia.
Qed.

Lemma link_fold l s b :
  is_u64 (entry_count l) -> is_u64 (total_tokens l) -> is_u64 (s_count s) -> is_u64 (s_active s) ->
  foldl link_one (l, s) b =
    (upd_ledger l (sessions l) (session_count l) (u64 (entry_count l + Z.of_nat (length b)))
                (u64 (total_tokens l + n_tokens b)) (l_seq l),
     mkSession (s_id s) (s_entries s ++ b) (u64 (s_count s + Z.of_nat (length b)))
               (u64 (s_active s + n_tokens b)) (s_budget s)).
Proof.
  revert l s. induction b as [|e b IH]; intros l s H1 H2 H3 H4.
  - cbn. rewrite !Z.add_0_r, !u64_id, app_nil_r by done. by destruct l, s.
  - cbn [foldl link_one]. rewrite IH by (cbn; apply u64_range). cbn [length].
    unfold n_tokens. cbn [map zsum s_entries s_count s_active s_id s_budget entry_count total_tokens
      upd_ledger sessions session_count l_seq default_budget warn_ratio max_sessions max_entries counter token_family].
    rewrite !u64_add_l, <- app_assoc. unfold upd_ledger.
    cbn [default_budget warn_ratio max_sessions max_entries counter token_family app].
    do 2 f_equal; f_equal; lia.
Qed.

(** A call with an array of [count] entries. *)
Definition append_call (l : mem_ledger) (sid : string) (ins : list ledger_entry_in_t) (w : W) :=
  mem_ledger_append (Some l) (Some sid) (Some ins) (Z.of_nat (length ins)) w.

(** The session an append works on: the linked one, or a fresh one that is
    not linked yet. *)
Definition append_target (l : mem_ledger) (sid : string) (s : ledger_session) : Prop :=
  session_find l sid = Some s \/
  session_find l sid = None /\ session_count l < max_sessions l /\
  s = mkSession sid [] 0 0 (default_budget l).

Lemma append_session_spec l sid w r w' :
  append_session l sid w = (r, w') ->
  match r with inl rc => rc <> AIRY_SUCCESS | inr s => append_target l sid s end.
Proof.
  unfold append_session, append_target. destruct (session_find l sid) as [s|].
  { intros [= <- <-]. by left. }
  destruct (max_sessions l <=? session_count l) eqn:E; [by intros [= <- <-]|]. bool_cases.
  destruct (os_alloc w) as [[] w1]; cbn [negb]; [|by intros [= <- <-]].
  destruct (AIRY_STRDUP sid w1) as [d w2] eqn:Ed.
  destruct (strdup_spec _ _ _ _ Ed) as [->| ->]; intros [= <- <-]; [|done].
  right. split_and!; [done|lia|done].
Qed.

Lemma append_args_spec l sid ins :
  append_args_ok (Some l) (Some sid) (Some ins) (Z.of_nat (length ins)) = AIRY_SUCCESS ->
  ins <> [] -> u64 (entry_count l + Z.of_nat (length ins)) <= max_entries l /\
  0 < strlen sid <= MAX_SESSION_ID_LEN /\
  Forall (fun i => LEDGER_ENTRY_SYSTEM <= in_type i <= LEDGER_ENTRY_CACHE_HIT) ins.
Proof.
  intros Ha Hne. cbn [append_args_ok] in Ha.
  destruct (_ || _) eqn:E1 in Ha; [done|].
  destruct (Z.of_nat (length ins) =? 0) eqn:E2.
  { bool_cases. destruct ins; cbn in *; [done|lia]. }
  destruct (existsb _ _) eqn:E3 in Ha; [done|]. destruct (_ <? _) eqn:E4 in Ha; [done|]. bool_cases.
  split; [done|]. split; [unfold strlen in *; lia|].
  change (default [] (Some ins)) with ins in E3. rewrite Nat2Z.id, firstn_all in E3. apply Forall_forall. intros i Hi.
  destruct (decide (LEDGER_ENTRY_SYSTEM <= in_type i <= LEDGER_ENTRY_CACHE_HIT)) as [|N]; [done|].
  enough (existsb (fun i => (in_type i <? LEDGER_ENTRY_SYSTEM) ||
            (LEDGER_ENTRY_CACHE_HIT <? in_type i)) ins = true) by congruence.
  apply existsb_exists. exists i. split; [by apply list_elem_of_In|].
  apply orb_true_iff. rewrite !Z.ltb_lt. lia.
Qed.

Inductive append_result (l : mem_ledger) (sid : string) (ins : list ledger_entry_in_t)
  : airy_rc -> option string -> option mem_ledger -> Prop :=
| AppFail rc sq :
    rc <> AIRY_SUCCESS -> l_seq l <= sq <= l_seq l + 2 * Z.of_nat (length ins) ->
    append_result l sid ins rc None (Some (set_seq l sq))
| AppNil : ins = [] -> append_result l sid ins AIRY_SUCCESS None (Some l)
| AppDone s batch out :
    ins <> [] -> append_args_ok (Some l) (Some sid) (Some ins) (Z.of_nat (length ins)) = AIRY_SUCCESS ->
    append_target l sid s -> Forall2 (entry_of_input l sid) ins batch ->
    chain (l_seq l) batch (l_seq l + 2 * Z.of_nat (length ins)) ->
    (forall id, out = Some id -> exists e, head batch = Some e /\ id = AIRY_STRNCPY_TERM 33 (e_id e)) ->
    append_result l sid ins AIRY_SUCCESS out
      (Some (append_link (set_seq l (l_seq l + 2 * Z.of_nat (length ins))) s batch)).

Lemma append_cases l sid ins w rc out l' w' :
  append_call l sid ins w = (rc, out, l', w') -> is_u64 (l_seq l) ->
  l_seq l + 2 * Z.of_nat (length ins) <= UINT64_MAX ->
  append_result l sid ins rc out l'.
Proof.
  intros Hc Hr Hs. unfold append_call, mem_ledger_append in Hc.
  assert (Hnil : forall rc, rc <> AIRY_SUCCESS -> append_result l sid ins rc None (Some l)).
  { intros rc' Hrc. rewrite <- (set_seq_id l) at 2. apply AppFail; [done|lia]. }
  destruct (append_args_ok _ _ _ _) eqn:Ea in Hc; try (injection Hc as <- <- <- <-; by apply Hnil).
  destruct (_ =? 0) eqn:E0 in Hc.
  { injection Hc as <- <- <- <-. bool_cases. apply AppNil. destruct ins; [done|cbn in *; lia]. }
  destruct (append_session l sid w) as [r w1] eqn:Es. apply append_session_spec in Es.
  destruct r as [rc'|s]; [injection Hc as <- <- <- <-; by apply Hnil|].
  destruct (os_alloc w1) as [[] w2]; cbn [negb] in Hc; [|injection Hc as <- <- <- <-; by apply Hnil].
  change (default [] (Some ins)) with ins in Hc. rewrite Nat2Z.id, firstn_all in Hc.
  destruct (append_fill l sid ins w2) as [[b l2] w3] eqn:Ef.
  destruct (append_fill_spec _ _ _ _ _ _ _ Ef Hr Hs) as (El & Hle & Hb).
  destruct b as [batch|].
  2:{ injection Hc as <- <- <- <-. rewrite El. by apply AppFail. }
  destruct (Hb _ eq_refl) as (HF & Hch & Hsq). rewrite Hsq in *.
  destruct (AIRY_STRDUP _ w3) as [d w4] eqn:Ed. injection Hc as <- <- <- <-. rewrite El.
  apply AppDone; try done.
  - intros ->. bool_cases. cbn in *. lia.
  - intros id ->. destruct (strdup_spec _ _ _ _ Ed) as [[= ->]|]; [|done].
    destruct HF as [|??????]; [bool_cases; cbn in *; lia|]. cbn. eauto.
Qed.

(** ** Invariant preservation *)

Lemma inv_find strict l sid s :
  ledger_inv strict l -> session_find l sid = Some s -> s_id s = sid /\ session_inv strict (l_seq l) s.
Proof.
  intros I Hf. apply find_session_split in Hf as (a & b & E & Hid & _ & _). split; [done|].
  pose proof (li_sessions _ _ I) as HF. rewrite E in HF. apply Forall_app in HF as [_ HF].
  by inversion HF.
Qed.

Lemma inv_counts_u64 strict l : ledger_inv strict l -> is_u64 (entry_count l) /\ is_u64 (total_tokens l).
Proof.
  intros []. split; [|rewrite li_tokens0; apply u64_range].
  pose proof (zsum_lengths_nonneg (sessions l)). ulia.
Qed.

Lemma session_count_u64 strict seq s :
  session_inv strict seq s -> is_u64 seq -> is_u64 (s_count s) /\ Z.of_nat (length (s_entries s)) <= seq.
Proof.
  intros [_ Hc _ Hch _ _] Hs. rewrite Hc.
  apply chain_length in Hch. ulia.
Qed.

(** Replacing a linked session by a grown one. *)
Lemma inv_store strict l sid s s' n t sq :
  ledger_inv strict l -> session_find l sid = Some s -> s_id s' = sid ->
  session_inv strict sq s' -> l_seq l <= sq -> is_u64 sq -> 0 <= n ->
  Z.of_nat (length (s_entries s')) = Z.of_nat (length (s_entries s)) + n ->
  n_tokens (s_entries s') = n_tokens (s_entries s) + t ->
  entry_count l + n <= sq ->
  ledger_inv strict (upd_ledger l (put_session s' (sessions l)) (session_count l)
                       (u64 (entry_count l + n)) (u64 (total_tokens l + t)) sq).
Proof.
  intros I Hf Hid Hs' Hle Hsq Hn Hlen Htok Hcap. pose proof (inv_counts_u64 _ _ I) as [He _].
  apply find_session_split in Hf as (a & b & E & Hid0 & _ & Hp). rewrite (Hp s' Hid).
  destruct I as [ND SC CAP SM EC EB TT SQ SS LB]. rewrite E in ND, SC, EC, TT, SS.
  rewrite u64_id by ulia.
  split; cbn [sessions session_count entry_count total_tokens max_sessions l_seq upd_ledger]; try done.
  - rewrite map_app in *. cbn [map] in *. by rewrite Hid, <- Hid0.
  - rewrite SC, !length_app. done.
  - rewrite EC. unfold n_entries. rewrite !map_app, !zsum_app. cbn [map zsum]. lia.
  - rewrite TT. unfold all_tokens. rewrite !map_app, !zsum_app. cbn [map zsum].
    rewrite u64_add_l. f_equal. lia.
  - apply Forall_app in SS as [Sa Sb]. apply Forall_cons in Sb as [_ Sb].
    apply Forall_app. split; [|apply Forall_cons; split; [done|]];
      (eapply Forall_impl; [eassumption|]); intros x Hx; by eapply session_inv_mono.
Qed.

(** Linking a new session. *)
Lemma inv_link strict l s' n t sq :
  ledger_inv strict l -> session_find l (s_id s') = None -> session_count l < max_sessions l ->
  session_inv strict sq s' -> l_seq l <= sq -> is_u64 sq ->
  Z.of_nat (length (s_entries s')) = n -> n_tokens (s_entries s') = t ->
  entry_count l + n <= sq ->
  ledger_inv strict (upd_ledger l (s' :: sessions l) (u64 (session_count l + 1))
                       (u64 (entry_count l + n)) (u64 (total_tokens l + t)) sq).
Proof.
  intros I Hf Hcnt Hs' Hle Hsq Hlen Htok Hcap. pose proof (inv_counts_u64 _ _ I) as [He _].
  apply find_session_none in Hf. destruct I as [ND SC CAP SM EC EB TT SQ SS LB].
  rewrite (u64_id (session_count l + 1)) by ulia. rewrite (u64_id (entry_count l + n)) by ulia.
  split; cbn [sessions session_count entry_count total_tokens max_sessions l_seq upd_ledger]; try done.
  - cbn [map]. by apply NoDup_cons.
  - cbn [length]. lia.
  - lia.
  - rewrite EC. unfold n_entries. cbn [map zsum]. lia.
  - rewrite TT. unfold all_tokens. cbn [map zsum]. rewrite u64_add_l. f_equal. lia.
  - apply Forall_cons. split; [done|].
    eapply Forall_impl; [eassumption|]. intros x Hx. by eapply session_inv_mono.
Qed.

Lemma inv_set_seq strict l sq :
  ledger_inv strict l -> l_seq l <= sq -> is_u64 sq -> ledger_inv strict (set_seq l sq).
Proof.
  intros [] ??. split; cbn; try done; [lia|].
  eapply Forall_impl; [eassumption|]. intros x Hx. by eapply session_inv_mono.
Qed.

(** The batch grows the session. *)
Definition grown (s : ledger_session) (batch : list ledger_entry) : ledger_session :=
  mkSession (s_id s) (s_entries s ++ batch) (u64 (s_count s + Z.of_nat (length batch)))
            (u64 (s_active s + n_tokens batch)) (s_budget s).

Lemma active_batch l sid ins batch :
  Forall2 (entry_of_input l sid) ins batch -> active_tokens_of batch = n_tokens batch.
Proof.
  unfold active_tokens_of. intros HF. f_equal. induction HF as [|i e ins batch He HF IH]; [done|].
  cbn [List.filter]. unfold is_active at 1. destruct He as (_ & _ & _ & -> & _). cbn. by rewrite IH.
Qed.

Lemma inputs_owner l sid ins batch :
  Forall2 (entry_of_input l sid) ins batch -> Forall (fun e => e_session e = sid) batch.
Proof. induction 1 as [|i e ins batch He]; constructor; [apply He|done]. Qed.

Lemma grown_inv strict l s sid ins batch sq :
  s_id s = sid -> s_count s = Z.of_nat (length (s_entries s)) -> chain 0 (s_entries s) (l_seq l) ->
  Forall (fun e => e_session e = sid) (s_entries s) ->
  (strict = true -> s_active s = u64 (active_tokens_of (s_entries s))) ->
  Forall2 (entry_of_input l sid) ins batch -> ins <> [] -> chain (l_seq l) batch sq ->
  Z.of_nat (length (s_entries s)) + Z.of_nat (length batch) <= UINT64_MAX ->
  session_inv strict sq (grown s batch).
Proof.
  intros Hid Hc Hch Ho Ha HF Hne Hb Hlen. split; cbn [grown s_entries s_count s_active s_id].
  - destruct HF; [done|]. by destruct (s_entries s).
  - rewrite Hc, length_app. rewrite u64_id by ulia. lia.
  - apply Forall_app. subst sid. eauto using inputs_owner.
  - by eapply chain_app.
  - apply u64_range.
  - intros Hst. rewrite (Ha Hst), u64_add_l, active_tokens_app. by erewrite (active_batch _ _ _ batch).
Qed.

Lemma append_link_eq strict l sid s batch sq :
  ledger_inv strict l -> append_target l sid s ->
  append_link (set_seq l sq) s batch =
    upd_ledger l (match session_find l sid with
                  | Some _ => put_session (grown s batch) (sessions l)
                  | None => grown s batch :: sessions l
                  end)
      (match session_find l sid with
       | Some _ => session_count l
       | None => u64 (session_count l + 1)
       end)
      (u64 (entry_count l + Z.of_nat (length batch))) (u64 (total_tokens l + n_tokens batch)) sq.
Proof.
  intros I Ht. pose proof (inv_counts_u64 _ _ I) as [He Htt].
  destruct Ht as [Hf | (Hf & Hcnt & ->)].
  - pose proof (inv_find _ _ _ _ I Hf) as [Hid Si]. rewrite Hf. unfold append_link.
    pose proof (session_count_u64 _ _ _ Si (li_seq _ _ I)) as [Hc _].
    destruct (s_entries s) eqn:Es; [by destruct (si_nonempty _ _ _ Si)|].
    rewrite link_fold by first [done | apply Si]. done.
  - rewrite Hf. unfold append_link. cbn [s_entries]. rewrite link_fold by done.
    cbn. by rewrite strcmp_eq_refl.
Qed.

Lemma append_inv strict l sid ins w rc out l' w' :
  append_call l sid ins w = (rc, out, Some l', w') -> ledger_inv strict l ->
  l_seq l + 2 * Z.of_nat (length ins) <= UINT64_MAX -> ledger_inv strict l'.
Proof.
  intros Hc I Hs. pose proof (li_seq _ _ I) as Hq.
  remember (Some l') as ol eqn:Eo. destruct (append_cases _ _ _ _ _ _ _ _ Hc Hq Hs)
    as [rc' sq _ Hsq | _ | s batch out' Hne Hargs Ht HF Hch _]; injection Eo as <-.
  - apply inv_set_seq; [done|lia|ulia].
  - done.
  - rewrite (append_link_eq strict _ sid) by done.
    assert (Hlen : length batch = length ins) by (symmetry; by eapply Forall2_length).
    pose proof (li_ebound _ _ I). unfold append_target in Ht.
    destruct Ht as [Hf | (Hf & Hcnt & ->)]; rewrite Hf.
    + pose proof (inv_find _ _ _ _ I Hf) as [Hid Si].
      pose proof (session_count_u64 _ _ _ Si Hq) as [_ Hls].
      eapply inv_store; try done; cbn [s_entries grown]; try lia; try ulia.
      * destruct Si. subst sid. eapply grown_inv; try done. ulia.
      * rewrite length_app. lia.
      * unfold n_tokens. by rewrite map_app, zsum_app.
    + eapply inv_link; try done; cbn [s_entries grown]; try lia; try ulia.
      eapply grown_inv; try done; cbn; first [by constructor | lia | ulia].
Qed.

(** ** Marking: one step *)

Definition same_but_status (st : Z) (a b : ledger_entry) : Prop := b = a \/ b = set_status st a.

Definition n_with (st : Z) (es : list ledger_entry) : Z :=
  Z.of_nat (length (List.filter (fun e => e_status e =? st) es)).

(** A status-change record. *)
Definition is_mark_rec (sid : string) (st : Z) (r : ledger_entry) : Prop :=
  e_session r = sid /\ e_status r = st /\ e_token_in r = 0 /\ e_token_out r = 0 /\
  e_source r = Some "ledger"%string /\ exists id, e_ref r = Some id.

Definition settled (st : Z) (es : list ledger_entry) (id : string) : Prop :=
  forall e, entry_find_by_id es id = Some e -> e_status e = st.

Lemma n_with_app st a b : n_with st (a ++ b) = n_with st a + n_with st b.
Proof. unfold n_with. rewrite List.filter_app, length_app. lia. Qed.

Lemma set_status_same st e : e_status e = st -> set_status st e = e.
Proof. intros <-. by destruct e. Qed.

Lemma find_app a b id :
  entry_find_by_id (a ++ b) id =
    match entry_find_by_id a id with Some e => Some e | None => entry_find_by_id b id end.
Proof. induction a as [|x a IH]; cbn; [done|]. by destruct (strcmp_eq _ _). Qed.

Lemma set_status_app a b id st e :
  entry_find_by_id a id = Some e ->
  entry_set_status (a ++ b) id st = entry_set_status a id st ++ b.
Proof.
  induction a as [|x a IH]; cbn; [done|]. destruct (strcmp_eq _ _); [done|].
  intros Hf. cbn. by rewrite IH.
Qed.

Lemma entry_set_spec es id st e :
  entry_find_by_id es id = Some e -> e_status e <> st ->
  Forall2 (same_but_status st) es (entry_set_status es id st) /\
  n_with st (entry_set_status es id st) = n_with st es + 1.
Proof.
  induction es as [|x es IH]; cbn [entry_find_by_id entry_set_status]; [done|].
  destruct (strcmp_eq _ _).
  - intros [= ->] Hst. split.
    + constructor; [by right|]. apply Forall_Forall2_diag, Forall_true. by left.
    + unfold n_with. cbn [List.filter set_status e_status]. rewrite Z.eqb_refl.
      rewrite (proj2 (Z.eqb_neq _ _) Hst). cbn [length]. lia.
  - intros Hf Hst. destruct (IH Hf Hst) as [HF Hn]. split; [constructor; [by left|done]|].
    unfold n_with in *. cbn [List.filter]. destruct (_ =? st); cbn [length]; lia.
Qed.

Lemma find_set es id st id' :
  entry_find_by_id (entry_set_status es id st) id' =
    if strcmp_eq id id' then set_status st <$> entry_find_by_id es id'
    else entry_find_by_id es id'.
Proof.
  induction es as [|x es IH]; cbn [entry_find_by_id entry_set_status]; [by destruct (strcmp_eq _ _)|].
  destruct (strcmp_eq (e_id x) id) eqn:E; cbn [entry_find_by_id set_status e_id].
  - bool_cases. subst id. destruct (strcmp_eq (e_id x) id') eqn:E'; done.
  - rewrite IH. destruct (strcmp_eq (e_id x) id') eqn:E'; [|done].
    bool_cases. subst id'. destruct (strcmp_eq id (e_id x)) eqn:E2; [|done]. bool_cases. congruence.
Qed.

Lemma settled_step st es r id id' :
  e_status r = st -> settled st es id' -> settled st (entry_set_status (es ++ [r]) id st) id'.
Proof.
  intros Hr Hs e. rewrite find_set, find_app. unfold settled in Hs.
  destruct (strcmp_eq id id').
  - intros (e0 & Hf & ->)%fmap_Some. done.
  - destruct (entry_find_by_id es id') eqn:E; [intros [= <-]; by apply Hs|].
    cbn. destruct (strcmp_eq _ _); [|done]. by intros [= <-].
Qed.

Lemma settled_now st es r id : settled st (entry_set_status (es ++ [r]) id st) id.
Proof.
  intros e. rewrite find_set, strcmp_eq_refl. intros (e0 & _ & ->)%fmap_Some. done.
Qed.

Lemma mark_rec_spec l sid e st w r l' w' :
  mark_rec l sid e st w = (r, l', w') -> is_u64 (l_seq l) -> l_seq l + 2 <= UINT64_MAX ->
  l' = set_seq l (l_seq l') /\ l_seq l <= l_seq l' <= l_seq l + 2 /\
  forall rec, r = Some rec -> is_mark_rec sid st rec /\ id_ok rec /\
    e_seq rec = l_seq l' /\ l_seq l' = l_seq l + 2 /\ e_ref rec = Some (e_id e).
Proof.
  unfold mark_rec. intros Hf Hr Hs. destruct (os_alloc w) as [[] w1]; cbn [negb] in Hf.
  2:{ injection Hf as <- <- <-. rewrite set_seq_id. split; [done|]. split; [lia|done]. }
  destruct (entry_id_gen l w1) as [[id l1] w2] eqn:Ei.
  apply entry_id_gen_spec in Ei as [-> (now & rr & ->)]. rewrite (u64_id (l_seq l + 1)) in * by ulia.
  assert (Hfail : forall w3, (None, set_seq l (l_seq l + 1), w3) = (r, l', w') ->
    l' = set_seq l (l_seq l') /\ l_seq l <= l_seq l' <= l_seq l + 2 /\ r = None).
  { intros w3 [= <- <- <-]. cbn. split; [done|]. split; [lia|done]. }
  destruct (AIRY_STRDUP sid w2) as [d w3] eqn:E1, (AIRY_STRDUP _ w3) as [src w4] eqn:E2,
    (AIRY_STRDUP _ w4) as [ref w5] eqn:E3.
  apply strdup_spec in E1, E2, E3.
  destruct d as [d|]; [|apply Hfail in Hf as (?&?& ->); split; [done|split; [done|by intros ? [=]]]].
  destruct src as [src|]; [|apply Hfail in Hf as (?&?& ->); split; [done|split; [done|by intros ? [=]]]].
  destruct ref as [ref|]; [|apply Hfail in Hf as (?&?& ->); split; [done|split; [done|by intros ? [=]]]].
  destruct E1 as [[= ->]|], E2 as [[= ->]|], E3 as [[= ->]|]; try done.
  destruct (os_time_ns w5) as [t w6]. injection Hf as <- <- <-.
  cbn [l_seq set_seq upd_ledger]. rewrite u64_id by ulia. rewrite set_seq_set.
  split; [f_equal; lia|]. split; [lia|]. intros rec [= <-]. cbn. repeat split; eauto; try lia.
  exists now, rr. cbn. f_equal. lia.
Qed.

(** ** Marking: the loop *)

Lemma same_trans st a b c : same_but_status st a b -> same_but_status st b c -> same_but_status st a c.
Proof. unfold same_but_status. intros [-> | ->] [-> | ->]; auto. Qed.

Lemma same_list_trans st a b c :
  Forall2 (same_but_status st) a b -> Forall2 (same_but_status st) b c ->
  Forall2 (same_but_status st) a c.
Proof.
  intros Hab. revert c. induction Hab; intros c Hbc; inversion Hbc; subst; constructor;
    eauto using same_trans.
Qed.

(** What the loop makes of the ledger and the session: old entries keep
    everything but possibly their status, and one record per change follows. *)
Record marked (st : Z) (sid : string) (l l' : mem_ledger) (s s' : ledger_session)
    (olds recs : list ledger_entry) : Prop := {
  mk_ledger : l' = upd_ledger l (sessions l) (session_count l)
                     (u64 (entry_count l + Z.of_nat (length recs))) (total_tokens l) (l_seq l');
  mk_session : s' = mkSession (s_id s) (olds ++ recs) (u64 (s_count s + Z.of_nat (length recs)))
                     (s_active s) (s_budget s);
  mk_olds : Forall2 (same_but_status st) (s_entries s) olds;
  mk_changes : n_with st olds = n_with st (s_entries s) + Z.of_nat (length recs);
  mk_recs : Forall (is_mark_rec sid st) recs;
  mk_chain : chain (l_seq l) recs (l_seq l');
  mk_seq : l_seq l + 2 * Z.of_nat (length recs) <= l_seq l'
}.

Lemma marked_refl st sid l s :
  is_u64 (entry_count l) -> is_u64 (s_count s) -> marked st sid l l s s (s_entries s) [].
Proof.
  intros He Hc. split; cbn; rewrite ?Z.add_0_r, ?u64_id, ?app_nil_r by done; try done.
  - by destruct l.
  - by destruct s.
  - apply Forall_Forall2_diag, Forall_true. by left.
Qed.

Lemma marked_seq st sid l sq s :
  is_u64 (entry_count l) -> is_u64 (s_count s) -> l_seq l <= sq ->
  marked st sid l (set_seq l sq) s s (s_entries s) [].
Proof.
  intros He Hc Hq. destruct (marked_refl st sid l s He Hc). split; try done; cbn.
  - by rewrite Z.add_0_r, u64_id.
  - lia.
Qed.

(** One change followed by the rest of the loop. *)
Lemma marked_step st sid l l1 s id e r l' s' olds recs :
  entry_find_by_id (s_entries s) id = Some e -> e_status e <> st ->
  is_mark_rec sid st r -> id_ok r -> e_seq r = l_seq l1 -> l_seq l1 = l_seq l + 2 ->
  l1 = set_seq l (l_seq l1) ->
  marked st sid (upd_ledger l1 (sessions l1) (session_count l1) (u64 (entry_count l1 + 1))
                            (total_tokens l1) (l_seq l1)) l'
         (mkSession (s_id s) (entry_set_status (s_entries s ++ [r]) id st) (u64 (s_count s + 1))
                    (s_active s) (s_budget s)) s' olds recs ->
  exists olds0, marked st sid l l' s s' olds0 (r :: recs).
Proof.
  intros Hf Hst Hr Hid Hsq Hl1 El [ML MS MO MC MR MH MQ].
  cbn [s_entries s_id s_count s_active s_budget l_seq upd_ledger sessions session_count entry_count total_tokens] in *.
  rewrite (set_status_app _ _ _ _ _ Hf) in *. destruct (entry_set_spec _ _ _ _ Hf Hst) as [HF Hn].
  apply Forall2_app_inv_l in MO as (o & o2 & Ho & Ho2 & ->).
  apply Forall2_cons_inv_l in Ho2 as (r' & o3 & Hr' & Ho3 & ->). apply Forall2_nil_inv_l in Ho3 as ->.
  assert (r' = r) as -> by (destruct Hr' as [->| ->]; [done|]; apply set_status_same; apply Hr).
  exists o. rewrite El in ML. rewrite !n_with_app in MC. split; cbn [length].
  - rewrite ML. cbn. rewrite u64_add_l. unfold upd_ledger; cbn. f_equal. f_equal. lia.
  - rewrite MS, u64_add_l, <- app_assoc. f_equal. f_equal. lia.
  - by eapply same_list_trans.
  - lia.
  - by constructor.
  - cbn. rewrite Hsq. split_and!; [lia|done|done].
  - lia.
Qed.

Lemma mark_loop_spec ids : forall l s sid st u w ok l' s' u' w',
  mark_loop l s sid ids st u w = (ok, l', s', u', w') ->
  is_u64 (l_seq l) -> l_seq l + 2 * Z.of_nat (length ids) <= UINT64_MAX ->
  is_u64 (entry_count l) -> is_u64 (s_count s) ->
  l_seq l' <= l_seq l + 2 * Z.of_nat (length ids) /\
  exists olds recs, u' = u + Z.of_nat (length recs) /\ marked st sid l l' s s' olds recs.
Proof.
  induction ids as [|id ids IH]; cbn [mark_loop length]; intros l s sid st u w ok l' s' u' w' Hm Hr Hs He Hc.
  { injection Hm as <- <- <- <- <-. split; [lia|].
    exists (s_entries s), []. cbn. split; [lia|by apply marked_refl]. }
  assert (Hskip : mark_loop l s sid ids st u w = (ok, l', s', u', w') ->
    l_seq l' <= l_seq l + 2 * Z.of_nat (S (length ids)) /\
    exists olds recs, u' = u + Z.of_nat (length recs) /\ marked st sid l l' s s' olds recs).
  { intros H'. apply IH in H' as (?&?); [|done|lia|done|done]. split; [lia|done]. }
  destruct (entry_find_by_id (s_entries s) id) as [e|] eqn:Ef; [|by apply Hskip].
  destruct (e_status e =? st) eqn:Est; [by apply Hskip|]. clear Hskip. bool_cases.
  destruct (mark_rec l sid e st w) as [[r l1] w1] eqn:Er.
  destruct (mark_rec_spec _ _ _ _ _ _ _ _ Er Hr) as (El & Hle & Hrec); [lia|].
  destruct r as [r|].
  2:{ injection Hm as <- <- <- <- <-. split; [lia|]. exists (s_entries s), [].
      split; [cbn; lia|]. rewrite El. apply marked_seq; [done|done|lia]. }
  destruct (Hrec r eq_refl) as (Hmr & Hid & Hsq & Hl1 & _).
  apply IH in Hm as (Hle' & olds & recs & -> & HM); cbn [l_seq upd_ledger entry_count s_count] in *;
    [|ulia|lia|apply u64_range..].
  split; [lia|]. eapply marked_step in HM as [olds0 HM]; try done.
  exists olds0, (r :: recs). split; [cbn [length]; lia|done].
Qed.

Lemma mark_loop_settled ids : forall l s sid st u w l' s' u' w',
  mark_loop l s sid ids st u w = (true, l', s', u', w') ->
  is_u64 (l_seq l) -> l_seq l + 2 * Z.of_nat (length ids) <= UINT64_MAX ->
  (forall id, settled st (s_entries s) id -> settled st (s_entries s') id) /\
  Forall (settled st (s_entries s')) ids.
Proof.
  induction ids as [|id ids IH]; cbn [mark_loop length]; intros l s sid st u w l' s' u' w' Hm Hr Hs.
  { injection Hm as <- <- <- <-. split; [done|constructor]. }
  assert (Hskip : mark_loop l s sid ids st u w = (true, l', s', u', w') ->
    settled st (s_entries s) id ->
    (forall id, settled st (s_entries s) id -> settled st (s_entries s') id) /\
    Forall (settled st (s_entries s')) (id :: ids)).
  { intros H' Hid. apply IH in H' as [Hk HF]; [|done|lia]. split; [done|]. constructor; [by apply Hk|done]. }
  destruct (entry_find_by_id (s_entries s) id) as [e|] eqn:Ef.
  2:{ apply Hskip; [done|]. intros e. by rewrite Ef. }
  destruct (e_status e =? st) eqn:Est.
  { apply Hskip; [done|]. intros e'. rewrite Ef. intros [= <-]. by apply Z.eqb_eq. }
  clear Hskip. destruct (mark_rec l sid e st w) as [[r l1] w1] eqn:Er.
  destruct (mark_rec_spec _ _ _ _ _ _ _ _ Er Hr) as (El & Hle & Hrec); [lia|].
  destruct r as [r|]; [|done]. destruct (Hrec r eq_refl) as (Hmr & _).
  apply IH in Hm as [Hk HF]; cbn [l_seq upd_ledger] in *; [|ulia|lia].
  split.
  - intros id' Hid'. apply Hk. cbn [s_entries]. apply settled_step; [apply Hmr|done].
  - constructor; [|done]. apply Hk, settled_now.
Qed.

Lemma mark_loop_noop ids l s sid st u w :
  Forall (settled st (s_entries s)) ids -> mark_loop l s sid ids st u w = (true, l, s, u, w).
Proof.
  induction 1 as [|id ids Hid HF IH]; cbn [mark_loop]; [done|].
  destruct (entry_find_by_id (s_entries s) id) as [e|] eqn:Ef; [|done].
  by rewrite (Hid _ Ef), Z.eqb_refl.
Qed.

Definition mark_call (l : mem_ledger) (sid : string) (ids : list string) (st : Z) (w : W) :=
  mem_ledger_mark (Some l) (Some sid) (Some ids) (Z.of_nat (length ids)) st w.

Inductive mark_result (l : mem_ledger) (sid : string) (ids : list string) (st : Z)
  : airy_rc -> option Z -> mem_ledger -> Prop :=
| MarkReject rc :
    rc = AIRY_ERR_INVALID_PARAM \/ rc = AIRY_ERR_NOT_FOUND ->
    mark_result l sid ids st rc None l
| MarkOom s lg s' olds recs :
    session_find l sid = Some s -> marked st sid l lg s s' olds recs ->
    l_seq lg <= l_seq l + 2 * Z.of_nat (length ids) ->
    mark_result l sid ids st AIRY_ERR_OUT_OF_MEMORY None (store_session lg s')
| MarkDone s lg s' olds recs :
    session_find l sid = Some s -> marked st sid l lg s s' olds recs ->
    l_seq lg <= l_seq l + 2 * Z.of_nat (length ids) ->
    Forall (settled st (s_entries s')) ids ->
    mark_result l sid ids st AIRY_SUCCESS (Some (Z.of_nat (length recs)))
      (store_session lg (session_recalc_active s')).

Lemma mark_cases strict l sid ids st w rc u l' w' :
  mark_call l sid ids st w = (rc, u, Some l', w') -> ledger_inv strict l ->
  l_seq l + 2 * Z.of_nat (length ids) <= UINT64_MAX -> mark_result l sid ids st rc u l'.
Proof.
  intros Hc I Hs. pose proof (li_seq _ _ I) as Hr. pose proof (inv_counts_u64 _ _ I) as [He _].
  unfold mark_call, mem_ledger_mark in Hc.
  destruct (_ || _) in Hc; [injection Hc as <- <- <- <-; apply MarkReject; by left|].
  destruct (session_find l sid) as [s|] eqn:Hf.
  2:{ injection Hc as <- <- <- <-; apply MarkReject; by right. }
  pose proof (inv_find _ _ _ _ I Hf) as [_ Si]. apply session_count_u64 in Si as [Hsc _]; [|done].
  change (default [] (Some ids)) with ids in Hc. rewrite Nat2Z.id, firstn_all in Hc.
  destruct (mark_loop l s sid ids st 0 w) as [[[[ok lg] s'] n] w1] eqn:Em.
  destruct (mark_loop_spec _ _ _ _ _ _ _ _ _ _ _ _ Em Hr Hs He Hsc) as (Hle & olds & recs & -> & HM).
  destruct ok; injection Hc as <- <- <- <-; [|by eapply MarkOom].
  eapply MarkDone; try done. by eapply mark_loop_settled.
Qed.

Lemma chain_same st lo es es' hi :
  Forall2 (same_but_status st) es es' -> chain lo es hi -> chain lo es' hi.
Proof.
  intros HF. revert lo. induction HF as [|a b es es' Hab HF IH]; intros lo; cbn; [done|].
  assert (e_seq b = e_seq a /\ e_id b = e_id a) as [Eq Ei] by by destruct Hab as [->| ->].
  unfold id_ok. rewrite Eq, Ei. intros (?&?&?). split_and!; [done|done|by apply IH].
Qed.

Lemma same_tokens st es es' : Forall2 (same_but_status st) es es' -> n_tokens es' = n_tokens es.
Proof.
  unfold n_tokens. induction 1 as [|a b es es' Hab HF IH]; cbn; [done|].
  rewrite IH. by destruct Hab as [->| ->].
Qed.

Lemma recs_tokens sid st recs : Forall (is_mark_rec sid st) recs -> n_tokens recs = 0.
Proof.
  unfold n_tokens. induction 1 as [|r recs Hr HF IH]; cbn; [done|].
  destruct Hr as (_ & _ & -> & _). done.
Qed.

(** The session after the loop is well-formed; its cached sum is exact when
    [act] is the recomputed one. *)
Lemma marked_session_inv strict strict' st sid l lg s s' olds recs act :
  session_inv strict (l_seq l) s -> s_id s = sid -> marked st sid l lg s s' olds recs ->
  is_u64 (l_seq lg) -> is_u64 act ->
  (strict' = true -> act = u64 (active_tokens_of (s_entries s'))) ->
  session_inv strict' (l_seq lg) (mkSession (s_id s') (s_entries s') (s_count s') act (s_budget s')).
Proof.
  intros Si Hid [ML MS MO MC MR MH MQ] Hq Ha Hact. subst s'. cbn [s_id s_entries s_count s_budget] in *.
  destruct Si as [Ne Cn Ow Ch Ra Ac].
  assert (Hlen : length olds = length (s_entries s)) by (symmetry; by eapply Forall2_length).
  assert (Hch : chain 0 (olds ++ recs) (l_seq lg)).
  { eapply chain_app; [by eapply chain_same|done]. }
  split; cbn; try done.
  - intros [-> ->]%app_eq_nil. by destruct (s_entries s).
  - rewrite Cn, length_app, Hlen. rewrite Nat2Z.inj_add. apply u64_id.
    apply chain_length in Ch. ulia.
  - apply Forall_app. split.
    + clear -Ow MO. revert Ow. induction MO as [|a b ?? Hab]; [done|].
      intros [Ha Ho]%Forall_cons. constructor; [by destruct Hab as [->| ->]|auto].
    + eapply Forall_impl; [done|]. intros r Hr. subst sid. apply Hr.
Qed.

Lemma inv_weaken strict l : ledger_inv strict l -> ledger_inv false l.
Proof.
  intros []. split; try done. eapply Forall_impl; [eassumption|]. intros s []. by split.
Qed.

Lemma mark_result_inv strict l sid ids st rc u l' :
  mark_result l sid ids st rc u l' -> ledger_inv strict l ->
  l_seq l + 2 * Z.of_nat (length ids) <= UINT64_MAX ->
  (strict = true -> rc <> AIRY_ERR_OUT_OF_MEMORY) -> ledger_inv strict l'.
Proof.
  intros Hm I Hs Hrc. pose proof (li_seq _ _ I) as Hq. pose proof (li_ebound _ _ I) as Heb.
  assert (Hstore : forall s lg s' olds recs act, session_find l sid = Some s ->
    marked st sid l lg s s' olds recs -> l_seq lg <= l_seq l + 2 * Z.of_nat (length ids) ->
    is_u64 act -> (strict = true -> act = u64 (active_tokens_of (s_entries s'))) ->
    ledger_inv strict (store_session lg
      (mkSession (s_id s') (s_entries s') (s_count s') act (s_budget s')))).
  { intros s lg s' olds recs act Hf M Hle Hra Hac. pose proof (inv_find _ _ _ _ I Hf) as [Hid Si].
    assert (Hql : is_u64 (l_seq lg)) by (pose proof (mk_seq _ _ _ _ _ _ _ _ M); ulia).
    pose proof (marked_session_inv _ strict _ _ _ _ _ _ _ _ act Si Hid M Hql Hra Hac) as Hs'.
    destruct M as [ML MS MO MC MR MH MQ]. unfold store_session. rewrite ML.
    cbn [upd_ledger sessions session_count entry_count total_tokens l_seq default_budget warn_ratio
      max_sessions max_entries counter token_family].
    rewrite <- (u64_id (total_tokens l)) by apply (inv_counts_u64 _ _ I).
    rewrite <- (Z.add_0_r (total_tokens l)). subst s'. cbn [s_id s_entries s_count s_budget] in *.
    change (ledger_inv strict (upd_ledger l (put_session (mkSession (s_id s) (olds ++ recs)
      (u64 (s_count s + Z.of_nat (length recs))) act (s_budget s)) (sessions l)) (session_count l)
      (u64 (entry_count l + Z.of_nat (length recs))) (u64 (total_tokens l + 0)) (l_seq lg))).
    eapply inv_store; try done; cbn [s_entries]; try lia.
    - rewrite length_app, <- (Forall2_length _ _ _ MO). lia.
    - unfold n_tokens. rewrite map_app, zsum_app. pose proof (same_tokens _ _ _ MO) as T1.
      pose proof (recs_tokens _ _ _ MR) as T2. unfold n_tokens in *. lia. }
  destruct Hm as [rc Hr | s lg s' olds recs Hf M Hle | s lg s' olds recs Hf M Hle _]; [done| |].
  - pose proof (inv_find _ _ _ _ I Hf) as [Hid Si].
    assert (strict = false) as -> by (destruct strict; [by destruct Hrc|done]).
    destruct s' as [i es c a b]. eapply (Hstore s lg (mkSession i es c a b)); try done.
    pose proof (f_equal s_active (mk_session _ _ _ _ _ _ _ _ M)) as Ea. cbn in Ea. rewrite Ea. apply Si.
  - eapply Hstore; try done; rewrite active_sum_0; [apply u64_range|done].
Qed.

(** ** Reachable ledgers *)

(** One request.  The side conditions bound the 64-bit counter: it does not
    wrap around during the request.  In the strict reading no [mark] request
    runs out of memory. *)
Inductive ledger_step (strict : bool) : mem_ledger -> mem_ledger -> Prop :=
| StAppend l sid ins w rc out l' w' :
    append_call l sid ins w = (rc, out, Some l', w') ->
    l_seq l + 2 * Z.of_nat (length ins) <= UINT64_MAX -> ledger_step strict l l'
| StMark l sid ids st w rc u l' w' :
    mark_call l sid ids st w = (rc, u, Some l', w') ->
    l_seq l + 2 * Z.of_nat (length ids) <= UINT64_MAX ->
    (strict = true -> rc <> AIRY_ERR_OUT_OF_MEMORY) -> ledger_step strict l l'
| StFamily l fam w rc l' w' :
    mem_ledger_set_tfam (Some l) fam w = (rc, Some l', w') -> ledger_step strict l l'.

Inductive ledger_reachable (strict : bool) : mem_ledger -> Prop :=
| ReachCreate budget ratio w l w' :
    mem_ledger_create budget ratio w = (Some l, w') -> ledger_reachable strict l
| ReachStep l l' :
    ledger_reachable strict l -> ledger_step strict l l' -> ledger_reachable strict l'.

Lemma create_inv strict budget ratio w l w' :
  mem_ledger_create budget ratio w = (Some l, w') -> ledger_inv strict l.
Proof.
  unfold mem_ledger_create. destruct (os_alloc w) as [[] w1]; cbn [negb]; [|done].
  destruct (tok_create _ w1) as [[c|] w2]; [|done]. intros [= <- <-].
  split; cbn; try done; [constructor..|]. destruct (0 <? budget) eqn:E; bool_cases; [lia|done].
Qed.

Lemma tfam_inv strict l fam w rc l' w' :
  mem_ledger_set_tfam (Some l) fam w = (rc, Some l', w') -> ledger_inv strict l -> ledger_inv strict l'.
Proof.
  cbn. intros Hc I. destruct (strcmp_eq _ _) in Hc; [by injection Hc as <- <- <-|].
  destruct (tok_create _ w) as [[c|] w1]; injection Hc as <- <- <-; [|done].
  destruct I. by split.
Qed.

Lemma step_inv strict l l' : ledger_step strict l l' -> ledger_inv strict l -> ledger_inv strict l'.
Proof.
  intros [? sid ins w rc out ? w' Hc Hs | ? sid ids st w rc u ? w' Hc Hs Ho | ? fam w rc ? w' Hc] I.
  - by eapply append_inv.
  - eapply mark_result_inv; [by eapply mark_cases|done..].
  - by eapply tfam_inv.
Qed.

(** C37.  In every ledger reachable from creation by append, mark and family
    switches, under any allocator behaviour, session identifiers are distinct,
    every linked session is non-empty, the session, entry and token counters
    equal what the chains contain, sequence numbers grow along each chain, and
    the session cap holds; when no mark request ran out of memory, the cached
    active-token sum of every session is exact as well. *)
Theorem ledger_reachable_inv strict l : ledger_reachable strict l -> ledger_inv strict l.
Proof. induction 1; eauto using create_inv, step_inv. Qed.

(** ** Append *)

(** C40.  Append is atomic: whatever allocation fails, a call that does not
    succeed leaves sessions, chains and counters exactly as they were (only
    the internal identifier counter may have advanced) and returns no id. *)
Theorem append_atomic l sid ins w rc out l' w' :
  append_call l sid ins w = (rc, out, l', w') -> is_u64 (l_seq l) ->
  l_seq l + 2 * Z.of_nat (length ins) <= UINT64_MAX -> rc <> AIRY_SUCCESS ->
  out = None /\ exists sq, l_seq l <= sq /\ l' = Some (set_seq l sq).
Proof.
  intros Hc Hr Hs Hrc. destruct (append_cases _ _ _ _ _ _ _ _ Hc Hr Hs) as [rc' sq | | ]; [|done..].
  split; [done|]. exists sq. split; [lia|done].
Qed.

Definition entries_of (l : mem_ledger) (sid : string) : list ledger_entry :=
  match session_find l sid with Some s => s_entries s | None => [] end.

Lemma entries_of_link strict l sid s batch sq sid' :
  ledger_inv strict l -> append_target l sid s ->
  entries_of (append_link (set_seq l sq) s batch) sid' =
    if decide (sid' = sid) then entries_of l sid ++ batch else entries_of l sid'.
Proof.
  intros I Ht. rewrite (append_link_eq strict l sid) by done. unfold entries_of, session_find.
  cbn [sessions upd_ledger]. destruct Ht as [Hf | (Hf & _ & ->)]; unfold session_find in Hf; rewrite Hf.
  - pose proof (inv_find _ _ _ _ I Hf) as [Hid _].
    rewrite (find_put_session _ s) by (cbn; by rewrite Hid).
    cbn [grown s_id]. rewrite Hid. by destruct (decide _).
  - cbn. destruct (decide (sid' = sid)) as [->|N]; [by rewrite strcmp_eq_refl|].
    by rewrite (proj2 (strcmp_eq_false _ _)) by congruence.
Qed.

(** A successful append of a non-empty batch puts exactly the requested
    entries, in order, at the end of that session's chain and leaves every
    other session's chain unchanged; the token cost is the explicit one or the
    counter's estimate of the text; the global entry cap holds afterwards; the
    returned identifier is that of the first new entry. *)
Theorem append_appends strict l sid ins w out l' w' :
  ledger_inv strict l -> append_call l sid ins w = (AIRY_SUCCESS, out, Some l', w') -> ins <> [] ->
  l_seq l + 2 * Z.of_nat (length ins) <= UINT64_MAX ->
  exists batch, Forall2 (entry_of_input l sid) ins batch /\
    (forall sid', entries_of l' sid' =
       if decide (sid' = sid) then entries_of l sid ++ batch else entries_of l sid') /\
    entry_count l' = entry_count l + Z.of_nat (length ins) /\ entry_count l' <= max_entries l /\
    (forall id, out = Some id -> exists e, head batch = Some e /\ id = AIRY_STRNCPY_TERM 33 (e_id e)).
Proof.
  intros I Hc Hne Hs. pose proof (li_seq _ _ I) as Hq. pose proof (inv_counts_u64 _ _ I) as [He _].
  pose proof (li_ebound _ _ I) as Hb.
  remember (Some l') as ol eqn:Eo. remember AIRY_SUCCESS as rc eqn:Erc.
  destruct (append_cases _ _ _ _ _ _ _ _ Hc Hq Hs)
    as [rc' sq | | s batch out' _ Hargs Ht HF Hch Hout]; [done|done|]. injection Eo as <-.
  exists batch. apply append_args_spec in Hargs as (Hcap & _ & _); [|done].
  pose proof (Forall2_length _ _ _ HF) as Hlen.
  split; [done|]. split; [intros sid'; by apply (entries_of_link strict)|].
  rewrite (append_link_eq strict l sid) by done. cbn [entry_count upd_ledger].
  rewrite <- Hlen. rewrite u64_id in * by ulia. done.
Qed.

(** ** Mark *)

Lemma entries_of_store strict l lg s s' st sid olds recs act sid' :
  ledger_inv strict l -> session_find l sid = Some s -> marked st sid l lg s s' olds recs ->
  entries_of (store_session lg (mkSession (s_id s') (s_entries s') (s_count s') act (s_budget s'))) sid' =
    if decide (sid' = sid) then olds ++ recs else entries_of l sid'.
Proof.
  intros I Hf M. pose proof (inv_find _ _ _ _ I Hf) as [Hid _].
  unfold entries_of, session_find, store_session. cbn [sessions upd_ledger].
  rewrite (mk_ledger _ _ _ _ _ _ _ _ M). cbn [sessions upd_ledger].
  rewrite (mk_session _ _ _ _ _ _ _ _ M). cbn [s_id s_entries s_count s_budget].
  unfold session_find in Hf. rewrite (find_put_session _ s) by (cbn; by rewrite Hid).
  cbn [s_id]. rewrite Hid. by destruct (decide _).
Qed.

(** Marking is append-only: whatever the outcome, the marked session's
    chain keeps its entries in place, each unchanged except possibly for its
    status, followed by one zero-cost status record per change; other sessions
    and the total token count do not change; on success the reported number is
    the number of records, every named entry has the new status and the
    session's active-token sum is exact. *)
Theorem mark_append_only strict l sid ids st w rc u l' w' :
  ledger_inv strict l -> mark_call l sid ids st w = (rc, u, Some l', w') ->
  l_seq l + 2 * Z.of_nat (length ids) <= UINT64_MAX ->
  exists olds recs,
    Forall2 (same_but_status st) (entries_of l sid) olds /\ Forall (is_mark_rec sid st) recs /\
    n_with st olds = n_with st (entries_of l sid) + Z.of_nat (length recs) /\
    (forall sid', entries_of l' sid' = if decide (sid' = sid) then olds ++ recs else entries_of l sid') /\
    total_tokens l' = total_tokens l /\
    (rc = AIRY_SUCCESS -> u = Some (Z.of_nat (length recs)) /\
       Forall (settled st (entries_of l' sid)) ids /\
       exists s, session_find l' sid = Some s /\ s_active s = u64 (active_tokens_of (olds ++ recs))).
Proof.
  intros I Hc Hs. pose proof (mark_cases _ _ _ _ _ _ _ _ _ _ Hc I Hs) as Hm.
  destruct Hm as [rc Hr | s lg s' olds recs Hf M Hle | s lg s' olds recs Hf M Hle Hset].
  - exists (entries_of l sid), []. cbn. rewrite app_nil_r, Z.add_0_r. split_and!; try done.
    + apply Forall_Forall2_diag, Forall_true. by left.
    + intros sid'. by destruct (decide _) as [->|].
    + intros ->. by destruct Hr.
  - exists olds, recs. assert (Es : entries_of l sid = s_entries s) by (unfold entries_of; by rewrite Hf).
    rewrite Es. pose proof M as [ML MS MO MC MR MH MQ]. split_and!; try done.
    + intros sid'. destruct s' as [i es c a b] eqn:E'.
      by apply (entries_of_store strict l lg s (mkSession i es c a b) st sid olds recs a).
    + unfold store_session. cbn. by rewrite ML.
  - exists olds, recs. assert (Es : entries_of l sid = s_entries s) by (unfold entries_of; by rewrite Hf).
    rewrite Es. pose proof M as [ML MS MO MC MR MH MQ].
    pose proof (inv_find _ _ _ _ I Hf) as [Hid _].
    assert (Ent : forall sid', entries_of (store_session lg (session_recalc_active s')) sid' =
      if decide (sid' = sid) then olds ++ recs else entries_of l sid').
    { intros sid'. by apply (entries_of_store strict l lg s s' st sid olds recs). }
    split_and!; try done.
    + unfold store_session. cbn. by rewrite ML.
    + intros _. split; [done|]. rewrite Ent, decide_True by done. split; [by subst s'|].
      exists (session_recalc_active s'). unfold session_find, store_session. cbn [sessions upd_ledger].
      rewrite ML. cbn [sessions upd_ledger]. rewrite (find_put_session _ s) by (subst s'; cbn; by rewrite Hid).
      rewrite decide_True by (by subst s'). split; [done|]. subst s'. cbn. apply active_sum_0.
Qed.

Lemma put_session_same ss s : find_session (s_id s) ss = Some s -> put_session s ss = ss.
Proof.
  induction ss as [|x ss IH]; cbn; [done|]. destruct (strcmp_eq _ _); [by intros [= ->]|].
  intros ?. by rewrite IH.
Qed.

(** Marking is idempotent: after a successful mark, the same request
    changes nothing, allocates nothing and reports zero updates. *)
Theorem mark_idempotent strict l sid ids st w u l' w' w2 :
  ledger_inv strict l -> mark_call l sid ids st w = (AIRY_SUCCESS, u, Some l', w') ->
  l_seq l + 2 * Z.of_nat (length ids) <= UINT64_MAX ->
  mark_call l' sid ids st w2 = (AIRY_SUCCESS, Some 0, Some l', w2).
Proof.
  intros I Hc Hs. pose proof (mark_cases _ _ _ _ _ _ _ _ _ _ Hc I Hs) as Hm.
  assert (Hst : (st <? LEDGER_STATUS_ACTIVE) || (LEDGER_STATUS_DEDUPED <? st) = false).
  { unfold mark_call, mem_ledger_mark in Hc. by destruct (_ || _). }
  remember AIRY_SUCCESS as rc eqn:Erc in Hm. destruct Hm as [? [-> | ->] | | s lg s' olds recs Hf M Hle Hset];
    try done.
  pose proof (inv_find _ _ _ _ I Hf) as [Hid _].
  unfold mark_call, mem_ledger_mark. cbn [negb]. rewrite Hst.
  set (s1 := session_recalc_active s'). set (l1 := store_session lg s1).
  assert (Hf1 : session_find l1 sid = Some s1).
  { unfold session_find, l1, store_session. cbn [sessions upd_ledger].
    rewrite (mk_ledger _ _ _ _ _ _ _ _ M). cbn [sessions upd_ledger].
    rewrite (find_put_session _ s) by (subst s1; rewrite (mk_session _ _ _ _ _ _ _ _ M); cbn; by rewrite Hid).
    rewrite decide_True; [done|]. subst s1. rewrite (mk_session _ _ _ _ _ _ _ _ M). cbn. done. }
  rewrite Hf1. change (default [] (Some ids)) with ids. rewrite Nat2Z.id, firstn_all.
  rewrite mark_loop_noop by done.
  enough (store_session l1 (session_recalc_active s1) = l1) as -> by done.
  change (session_recalc_active s1) with s1. unfold store_session.
  rewrite put_session_same; [by destruct l1|]. replace (s_id s1) with sid; [done|].
  subst s1. rewrite (mk_session _ _ _ _ _ _ _ _ M). cbn. done.
Qed.

(** As long as the counter fits 32 bits, the identifiers of a session
    name its entries: looking an entry up by its own identifier finds it. *)
Theorem entry_ids_resolve strict l sid e :
  ledger_inv strict l -> l_seq l <= UINT32_MAX -> e ∈ entries_of l sid ->
  entry_find_by_id (entries_of l sid) (e_id e) = Some e.
Proof.
  intros I Hq He. unfold entries_of in *. destruct (session_find l sid) as [s|] eqn:Hf;
    [|by apply elem_of_nil in He].
  pose proof (inv_find _ _ _ _ I Hf) as [_ Si]. pose proof (si_chain _ _ _ Si) as Hch. clear Si Hf.
  enough (Hg : forall es lo, 0 <= lo -> e ∈ es -> chain lo es (l_seq l) ->
    entry_find_by_id es (e_id e) = Some e) by by apply (Hg _ 0).
  clear He Hch. induction es as [|x es IH]; intros lo Hlo He Hch; [by apply elem_of_nil in He|].
  cbn in Hch. destruct Hch as (Hx & Hid & Hch). cbn [entry_find_by_id].
  apply elem_of_cons in He as [->|He]; [by rewrite strcmp_eq_refl|].
  destruct (strcmp_eq (e_id x) (e_id e)) eqn:E; [|apply (IH (e_seq x)); [lia|done|done]].
  exfalso. bool_cases.
  assert (Hlt : e_seq x < e_seq e <= l_seq l /\ id_ok e).
  { clear -Hch He. revert Hch. generalize (e_seq x) as lo. induction es as [|y es IH]; intros lo;
      [by apply elem_of_nil in He|]. cbn. intros (H1 & H2 & H3).
    apply elem_of_cons in He as [->|He].
    - apply chain_le in H3. split; [lia|done].
    - destruct (IH He _ H3). split; [lia|done]. }
  destruct Hlt as [Hlt (n2 & r2 & E2)], Hid as (n1 & r1 & E1). rewrite E1, E2 in E.
  enough (e_seq x - 1 = e_seq e - 1) by lia.
  eapply id32_seq_inj; [| |exact E]; unfold is_u32; lia.
Qed.

(** ** Queries *)

Definition view_of (e : ledger_entry) : ledger_entry_view_t :=
  mkView (e_seq e) (e_id e) (Some (e_session e)) (e_type e) (e_token_in e) (e_token_out e)
         (e_source e) (e_status e) (e_created e) (e_ref e).

Definition no_oom : Prop := forall w : W, fst (os_alloc w) = true.

Lemma strdup_no_oom s w : no_oom -> exists w', AIRY_STRDUP s w = (Some s, w').
Proof. intros Ho. unfold AIRY_STRDUP. specialize (Ho w). destruct (os_alloc w) as [b w']; cbn in *; subst. eauto. Qed.

Lemma strdup_opt_no_oom s w : no_oom -> exists w', strdup_opt s w = (s, w').
Proof. intros Ho. destruct s as [s|]; cbn; [by apply strdup_no_oom|eauto]. Qed.

Lemma alloc_no_oom w : no_oom -> exists w', os_alloc w = (true, w').
Proof. intros Ho. specialize (Ho w). destruct (os_alloc w) as [b w']; cbn in *; subst. eauto. Qed.

Lemma view_no_oom `{!AiryStringOk} e w :
  no_oom -> id_ok e -> exists w', view_from_entry e w = (Some (view_of e), w').
Proof.
  intros Ho (now & r & Hid). unfold view_from_entry.
  destruct (alloc_no_oom w Ho) as [w1 ->]. destruct (strdup_no_oom (e_session e) w1 Ho) as [w2 ->].
  destruct (strdup_opt_no_oom (e_source e) w2 Ho) as [w3 ->].
  destruct (strdup_opt_no_oom (e_ref e) w3 Ho) as [w4 ->].
  rewrite strncpy_term_short by (rewrite Hid, id32_length; lia). eauto.
Qed.

Lemma collect_no_oom `{!AiryStringOk} p es w :
  no_oom -> Forall id_ok es -> exists w', collect_views p es w = (map view_of (List.filter p es), w').
Proof.
  intros Ho HF. revert w. induction HF as [|e es He HF IH]; intros w; cbn; [eauto|].
  destruct (p e); [|apply IH]. destruct (view_no_oom e w Ho He) as [w1 ->].
  destruct (IH w1) as [w2 ->]. cbn. eauto.
Qed.

Lemma chain_ids lo es hi : chain lo es hi -> Forall id_ok es.
Proof. revert lo. induction es as [|e es IH]; intros lo; cbn; [constructor|]. intros (?&?&?%IH). by constructor. Qed.

Lemma tokens_of_views es : zsum (map v_token_in (map view_of es)) = n_tokens es.
Proof. unfold n_tokens. by rewrite map_map. Qed.

(** With memory available, the window of a session is the list of its
    active entries in chain order, complete; its token total is the sum of
    their costs (modulo the word size) and equals the usage the budget query
    reports, whose headroom is limit minus usage, or zero. *)
Theorem window_budget_agree `{!AiryStringOk} l sid w :
  no_oom -> ledger_inv true l ->
  exists win w' limit room,
    mem_ledger_window (Some l) (Some sid) w = (AIRY_SUCCESS, win, w') /\
    win_entries win = map view_of (List.filter is_active (entries_of l sid)) /\
    win_total win = u64 (zsum (map v_token_in (win_entries win))) /\
    mem_ledger_budget (Some l) (Some sid) = (AIRY_SUCCESS, Some (win_total win, limit, room)) /\
    room = Z.max 0 (limit - win_total win).
Proof.
  intros Ho I. unfold mem_ledger_window, mem_ledger_budget, entries_of.
  destruct (session_find l sid) as [s|] eqn:Hf.
  - pose proof (inv_find _ _ _ _ I Hf) as [_ Si]. destruct (alloc_no_oom w Ho) as [w1 ->]. cbn [negb].
    destruct (collect_no_oom is_active (s_entries s) w1 Ho) as [w2 ->].
    { eapply chain_ids, si_chain, Si. }
    eexists (mkWindow _ _ _), _, _, _. cbn [win_entries win_total]. split_and!; try done.
    + rewrite tokens_of_views. by apply (si_active _ _ _ Si).
    + destruct (s_active s <? s_budget s) eqn:E; bool_cases; lia.
  - exists (mkWindow [] 0 false), w, (default_budget l), (default_budget l). cbn. split_and!; try done.
    pose proof (li_budget _ _ I). lia.
Qed.

(** With memory available, the history of a session is its chain, oldest
    first; with a positive limit, the last [limit] entries of it. *)
Theorem history_tail `{!AiryStringOk} strict l sid limit w :
  no_oom -> ledger_inv strict l -> 0 <= limit ->
  exists w', mem_ledger_history (Some l) (Some sid) limit w =
    (AIRY_SUCCESS,
     map view_of (drop (if decide (limit = 0) then 0%nat
                        else (length (entries_of l sid) - Z.to_nat limit)%nat) (entries_of l sid)),
     w').
Proof.
  intros Ho I Hl. unfold mem_ledger_history, entries_of. destruct (session_find l sid) as [s|] eqn:Hf.
  2:{ exists w. by rewrite drop_nil. }
  pose proof (inv_find _ _ _ _ I Hf) as [_ Si]. set (es := s_entries s).
  set (k := if (0 <? limit) && (limit <? Z.of_nat (length es)) then limit else Z.of_nat (length es)).
  assert (Hk : Z.to_nat (Z.of_nat (length es) - k) =
    if decide (limit = 0) then 0%nat else (length es - Z.to_nat limit)%nat).
  { subst k. destruct (_ && _) eqn:E; destruct (decide _); bool_cases; try lia;
      apply andb_false_iff in E as [E|E]; bool_cases; lia. }
  assert (Hk0 : k <> 0).
  { subst k. pose proof (si_nonempty _ _ _ Si) as Hn. fold es in Hn. destruct es; [done|].
    destruct (_ && _) eqn:E; bool_cases; cbn [length]; lia. }
  rewrite (proj2 (Z.eqb_neq _ _) Hk0). destruct (alloc_no_oom w Ho) as [w1 ->]. cbn [negb].
  destruct (collect_no_oom (fun _ => true) (drop (Z.to_nat (Z.of_nat (length es) - k)) es) w1 Ho) as [w2 ->].
  { apply Forall_drop. eapply chain_ids, si_chain, Si. }
  exists w2. rewrite Hk. do 2 f_equal. f_equal. generalize (if decide (limit = 0) then 0%nat else (length es - Z.to_nat limit)%nat).
  intros n. induction (drop n es); cbn; congruence.
Qed.

(** The entry cap is enforced by append only: a successful mark on a
    ledger that is at the cap pushes the entry count past it by the number of
    status records. *)
Theorem mark_exceeds_cap strict l sid ids st w n l' w' :
  ledger_inv strict l -> entry_count l = max_entries l ->
  mark_call l sid ids st w = (AIRY_SUCCESS, Some n, Some l', w') ->
  l_seq l + 2 * Z.of_nat (length ids) <= UINT64_MAX ->
  entry_count l' = max_entries l' + n.
Proof.
  intros I Hcap Hc Hs. pose proof (mark_cases _ _ _ _ _ _ _ _ _ _ Hc I Hs) as Hm.
  pose proof (inv_counts_u64 _ _ I) as [He _]. pose proof (li_ebound _ _ I) as Hb.
  remember AIRY_SUCCESS as rc eqn:Erc. remember (Some n) as u eqn:Eu.
  destruct Hm as [? [-> | ->] | | s lg s' olds recs Hf M Hle Hset]; try done. injection Eu as <-.
  destruct M as [ML MS MO MC MR MH MQ]. unfold store_session. rewrite ML. cbn. rewrite <- Hcap.
  apply u64_id. ulia.
Qed.
End Ledger.

(** ** Samples *)

Definition toy_in (tokens : Z) : ledger_entry_in_t :=
  mkIn LEDGER_ENTRY_USER (Some "hello world"%string) tokens 0 (Some "gateway"%string) None.

Definition toy_ins : list ledger_entry_in_t := [toy_in 0; toy_in 30].

Section Samples.
Context {W : Type} (E : MemOS W) (w0 : W).

(** A ledger after creation and one append of two entries. *)
Definition sample0 : option (@mem_ledger W E) * W :=
  @mem_ledger_create bounded_copy W E 100 (d_lit 1 2) w0.

Definition sample (d : @mem_ledger W E) : @mem_ledger W E :=
  match @mem_ledger_append bounded_copy W E (fst sample0) (Some "s1"%string) (Some toy_ins) 2
          (snd sample0) with
  | (_, _, Some l, _) => l
  | _ => d
  end.

Definition sample_ids (l : @mem_ledger W E) : list string :=
  map e_id (@entries_of W E l "s1"%string).
End Samples.

Definition empty_ledger {W} {E : MemOS W} (c : @tok_counter W E) (cap : Z) : @mem_ledger W E :=
  @mkLedger W E [] 0 0 0 100 (d_lit 1 2) DEFAULT_MAX_SESSIONS cap c "generic" 0.

Definition toy_empty : @mem_ledger Z toy_mem := @empty_ledger Z toy_mem tt DEFAULT_MAX_ENTRIES.

Definition toy_ledger : @mem_ledger Z toy_mem := sample toy_mem 0 toy_empty.

Lemma toy_create : @mem_ledger_create bounded_copy Z toy_mem 100 (d_lit 1 2) 0 = (Some toy_empty, 0).
Proof. vm_compute. reflexivity. Qed.

Lemma toy_step strict : @ledger_step bounded_copy Z toy_mem strict toy_empty toy_ledger.
Proof.
  eapply (StAppend _ _ "s1"%string toy_ins 0); [vm_compute; reflexivity|vm_compute; discriminate].
Qed.

Lemma toy_inv strict : @ledger_inv Z toy_mem strict toy_ledger.
Proof. eapply step_inv; [apply toy_step|]. eapply create_inv, toy_create. Qed.

Lemma ledger_reachable_inv_witness : @ledger_inv Z toy_mem true toy_ledger.
Proof.
  apply (@ledger_reachable_inv bounded_copy Z toy_mem true toy_ledger).
  eapply ReachStep; [eapply ReachCreate, toy_create|apply toy_step].
Defined.

(** The second entry's allocation fails. *)
Lemma append_atomic_witness :
  let r := @append_call bounded_copy nat tight_mem (@empty_ledger nat tight_mem tt 10) "s1" toy_ins 6%nat in
  fst (fst (fst r)) = AIRY_ERR_OUT_OF_MEMORY /\
  snd (fst (fst r)) = None /\
  exists sq, 0 <= sq /\ snd (fst r) = Some (@set_seq nat tight_mem (@empty_ledger nat tight_mem tt 10) sq).
Proof.
  intros r. split; [vm_compute; reflexivity|].
  apply (@append_atomic bounded_copy nat tight_mem (@empty_ledger nat tight_mem tt 10) "s1" toy_ins 6%nat
           (fst (fst (fst r))) _ _ (snd r)).
  - vm_compute. reflexivity.
  - vm_compute. split; discriminate.
  - vm_compute. discriminate.
  - vm_compute. discriminate.
Defined.

Lemma append_appends_witness :
  exists out l' w', @append_call bounded_copy Z toy_mem toy_ledger "s2" toy_ins 9 =
      (AIRY_SUCCESS, out, Some l', w') /\
    entry_count l' = 4 /\ entry_count l' <= max_entries toy_ledger.
Proof.
  destruct (@append_call bounded_copy Z toy_mem toy_ledger "s2" toy_ins 9) as [[[rc out] ol] w'] eqn:Ec.
  pose proof Ec as Ev. vm_compute in Ev. injection Ev as <- <- <- <-.
  eexists _, _, _. split; [reflexivity|].
  destruct (@append_appends bounded_copy Z toy_mem true toy_ledger "s2" toy_ins 9 _ _ _ (toy_inv true) Ec)
    as (batch & _ & _ & H1 & H2 & _); [discriminate|vm_compute; discriminate|].
  split; [exact H1|exact H2].
Defined.

(** The entry to evict: the first of the session. *)
Definition toy_id : string := match sample_ids toy_mem toy_ledger with i :: _ => i | [] => "" end.

Definition toy_marked :=
  @mark_call Z toy_mem toy_ledger "s1" [toy_id; "nope"] LEDGER_STATUS_EVICTED 20.

Definition ledger_or {W} {E : MemOS W} (d : @mem_ledger W E) (o : option (@mem_ledger W E)) := default d o.

Lemma mark_append_only_witness :
  exists olds recs, length olds = 2%nat /\ length recs = 1%nat /\
    Forall2 (same_but_status LEDGER_STATUS_EVICTED) (entries_of toy_ledger "s1") olds /\
    entries_of (ledger_or toy_ledger (snd (fst toy_marked))) "s1" = olds ++ recs.
Proof.
  destruct (@mark_append_only Z toy_mem true toy_ledger "s1" [toy_id; "nope"] LEDGER_STATUS_EVICTED 20
    AIRY_SUCCESS (Some 1) (ledger_or toy_ledger (snd (fst toy_marked))) (snd toy_marked))
    as (olds & recs & HF & HR & HN & HE & HT & HS).
  - apply toy_inv.
  - vm_compute. reflexivity.
  - vm_compute. discriminate.
  - exists olds, recs. destruct (HS eq_refl) as ([= Hu] & _).
    split; [by rewrite <- (Forall2_length _ _ _ HF)|]. split; [lia|]. split; [exact HF|].
    rewrite (HE "s1"%string). reflexivity.
Defined.

Lemma mark_idempotent_witness :
  @mark_call Z toy_mem (ledger_or toy_ledger (snd (fst toy_marked))) "s1" [toy_id; "nope"]
     LEDGER_STATUS_EVICTED 77 =
  (AIRY_SUCCESS, Some 0, Some (ledger_or toy_ledger (snd (fst toy_marked))), 77).
Proof.
  apply (@mark_idempotent Z toy_mem true toy_ledger "s1" [toy_id; "nope"] LEDGER_STATUS_EVICTED 20
    (Some 1) _ (snd toy_marked)).
  - apply toy_inv.
  - vm_compute. reflexivity.
  - vm_compute. discriminate.
Defined.

Lemma entry_ids_resolve_witness :
  exists e, e_id e = toy_id /\ entry_find_by_id (entries_of toy_ledger "s1") toy_id = Some e.
Proof.
  destruct (entries_of toy_ledger "s1") as [|e es] eqn:Ee; [vm_compute in Ee; discriminate|].
  assert (Hid : e_id e = toy_id).
  { unfold toy_id, sample_ids. rewrite Ee. reflexivity. }
  exists e. split; [exact Hid|]. rewrite <- Ee, <- Hid.
  apply (@entry_ids_resolve Z toy_mem true toy_ledger "s1" e (toy_inv true)).
  - vm_compute. discriminate.
  - rewrite Ee. apply list_elem_of_here.
Defined.

Lemma window_budget_agree_witness :
  exists win w' limit room,
    @mem_ledger_window bounded_copy Z toy_mem (Some toy_ledger) (Some "s1"%string) 5 =
      (AIRY_SUCCESS, win, w') /\
    win_total win = u64 (zsum (map v_token_in (win_entries win))) /\
    mem_ledger_budget (Some toy_ledger) (Some "s1"%string) =
      (AIRY_SUCCESS, Some (win_total win, limit, room)).
Proof.
  destruct (@window_budget_agree bounded_copy Z toy_mem bounded_copy_ok toy_ledger "s1" 5)
    as (win & w' & limit & room & H1 & _ & H2 & H3 & _).
  - intros w. reflexivity.
  - apply toy_inv.
  - exists win, w', limit, room. split; [exact H1|]. split; [exact H2|exact H3].
Defined.

Lemma history_tail_witness :
  exists w', @mem_ledger_history bounded_copy Z toy_mem (Some toy_ledger) (Some "s1"%string) 1 5 =
    (AIRY_SUCCESS, map view_of (drop 1 (entries_of toy_ledger "s1")), w').
Proof.
  destruct (@history_tail bounded_copy Z toy_mem bounded_copy_ok true toy_ledger "s1" 1 5)
    as [w' H]; [intros w; reflexivity|apply toy_inv|lia|]. exists w'. exact H.
Defined.

(** The same ledger with the cap at its two entries. *)
Definition full_ledger : @mem_ledger Z toy_mem :=
  @mkLedger Z toy_mem (sessions toy_ledger) 1 2 33 100 (d_lit 1 2) DEFAULT_MAX_SESSIONS 2 tt "generic" 4.

Lemma full_inv : @ledger_inv Z toy_mem true full_ledger.
Proof. destruct (toy_inv true). by split. Qed.

Lemma mark_exceeds_cap_witness :
  exists l' w', @mark_call Z toy_mem full_ledger "s1" [toy_id] LEDGER_STATUS_EVICTED 20 =
      (AIRY_SUCCESS, Some 1, Some l', w') /\ entry_count l' = max_entries l' + 1.
Proof.
  destruct (@mark_call Z toy_mem full_ledger "s1" [toy_id] LEDGER_STATUS_EVICTED 20) as [[[rc u] ol] w'] eqn:Ec.
  pose proof Ec as Ev. vm_compute in Ev. injection Ev as <- <- <- <-.
  eexists _, _. split; [reflexivity|].
  refine (@mark_exceeds_cap Z toy_mem true full_ledger "s1" [toy_id] LEDGER_STATUS_EVICTED 20 1 _ _ full_inv _ Ec _);
    [reflexivity|vm_compute; discriminate].
Defined.

(** The two-entry ledger (3 and 30 tokens) in the world of bounded memory. *)
Definition tight_ledger : @mem_ledger nat tight_mem :=
  sample tight_mem 100%nat (@empty_ledger nat tight_mem tt 10).

(** A mark request that runs out of memory after its first change
    returns early, before the active-token sum is recomputed: the budget query
    goes on reporting the evicted entry's tokens, while no active entry of the
    chain carries them. *)
Theorem mark_oom_stale_budget :
  let ids := sample_ids tight_mem tight_ledger in
  let r := @mark_call nat tight_mem tight_ledger "s1" ids LEDGER_STATUS_EVICTED 5%nat in
  let l' := ledger_or tight_ledger (snd (fst r)) in
  fst (fst (fst r)) = AIRY_ERR_OUT_OF_MEMORY /\
  mem_ledger_budget (Some l') (Some "s1"%string) = (AIRY_SUCCESS, Some (33, 100, 67)) /\
  active_tokens_of (entries_of l' "s1") = 30.
Proof. vm_compute. split_and!; reflexivity. Qed.
