(* ===== verification/Compress.v ===== *)
(** * Compress

    The prompt compression of mem_d (mem_d/src/engine/compress.c): rule-based
    trimming of a window of ledger entries (old turns dropped, long tool results
    cut in the middle, repeated texts removed), extractive summaries behind a
    gate, the plan of actions and the context put together again.

    The window is a list of cells, one per entry, that join the parallel arrays
    of [cmp_ctx_t] (action, replacement, hash, tokens, turn).  The token counter
    is that of file MemEnv, the word scanner of the commons library a parameter.
    Every allocation asks the world.  A result [None] of the whole operation
    stands for a use of freed memory. *)

From S2P Require Import Prelude Doubles MemEnv Ledger.

Definition COMPRESS_DEFAULT_MAX_TOOL_TOKENS : Z := 1024.
Definition COMPRESS_DEFAULT_MAX_TURNS : Z := 20.
Definition COMPRESS_GATE_MIN_ACR : double := d_lit 95 100.
Definition COMPRESS_GATE_MAX_TTFT_MS : double := d_of_Z 800.

Definition LEDGER_ENTRY_TOOL_DEF : Z := 1.
Definition LEDGER_ENTRY_TOOL_RESULT : Z := 3.
Definition LEDGER_ENTRY_ASSISTANT : Z := 4.

Inductive compress_action_t :=
| COMPRESS_ACTION_NONE
| COMPRESS_ACTION_TRUNCATE
| COMPRESS_ACTION_EXTRACT
| COMPRESS_ACTION_DROP
| COMPRESS_ACTION_DEDUP.

#[export] Instance compress_action_eq_dec : EqDecision compress_action_t.
Proof. solve_decision. Defined.

Record compress_gate_t := mkGate { grayscale_enabled : bool; acr : double; ttft_ms : double }.

Record compress_config_t := mkCfg {
  max_tool_tokens : Z;
  max_turns : Z;
  l1_enabled : bool;
  l2_enabled : bool;
  dedup : bool;
  gate : compress_gate_t
}.

Record compress_entry_in_t := mkEnt {
  ci_id : string;
  ci_type : Z;
  ci_text : option string;
  ci_token_in : Z
}.

Record compress_plan_item_t := mkItem { p_id : option string; p_type : Z; p_action : compress_action_t }.

(** ** Sentences *)

(** The items and the capacity. *)
Record strvec_t := mkVec { items : list string; v_cap : nat }.

Definition is_blank_char (c : ascii) : bool :=
  Ascii.eqb c " " || Ascii.eqb c "009" || Ascii.eqb c "013".

Definition starts_with_utf8 (p seq : string) : bool :=
  match strip_prefix seq p with Some _ => true | None => false end.

Definition CJK_STOP : string := String "227" (String "128" (String "130" "")).
Definition CJK_BANG : string := String "239" (String "188" (String "129" "")).
Definition CJK_ASK : string := String "239" (String "188" (String "159" "")).
Definition CJK_SEMI : string := String "239" (String "188" (String "155" "")).

(** The text from the current position on starts with a separator. *)
Definition is_sep (p : string) : bool :=
  match p with
  | EmptyString => true
  | String c _ => has_char c "!?;." || Ascii.eqb c "010"
  end ||
  starts_with_utf8 p CJK_STOP || starts_with_utf8 p CJK_BANG ||
  starts_with_utf8 p CJK_ASK || starts_with_utf8 p CJK_SEMI.

Section sentences.
  Context {W : Type} `{MemOS W}.

Definition strvec_push (v : strvec_t) (s : string) (w : W) : strvec_t * W :=
    let put v w := let '(d, w) := AIRY_STRDUP s w in
                   (match d with Some d => mkVec (items v ++ [d]) (v_cap v) | None => v end, w) in
    if (length (items v) =? v_cap v)%nat then
      let '(ok, w) := os_alloc w in
      if ok : bool then put (mkVec (items v) (if (v_cap v =? 0)%nat then 8 else v_cap v * 2)) w else (v, w)
    else put v w.

(** A sentence that ends here. *)
Definition sentence_end (cur : string) (v : strvec_t) (w : W) : strvec_t * W :=
    if strcmp_eq cur "" then (v, w)
    else
      let '(ok, w) := os_alloc w in
      if ok && negb (str_forallb is_blank_char cur) then strvec_push v cur w else (v, w).

(** [cur] is the text since [start]; the next sentence starts at the byte behind
    the first byte of a separator. *)
Fixpoint split_loop (p cur : string) (v : strvec_t) (w : W) : strvec_t * W :=
    match p with
    | EmptyString => sentence_end cur v w
    | String c p' =>
        if is_sep p then let '(v, w) := sentence_end cur v w in split_loop p' "" v w
        else split_loop p' (cur +:+ String c "") v w
    end.

Definition split_sentences (text : string) (w : W) : strvec_t * W := split_loop text "" (mkVec [] 0) w.
End sentences.

(** ** Words *)

Definition instruction_words : list string :=
  ["please"; "ensure"; "must"; "always"; "never"; "verify"; "confirm"; "注意"; "确保"; "需要"; "必须"; "请";
   "务必"; "不要"]%string.

Definition is_instruction_word (w : string) : bool := existsb (strcmp_eq w) instruction_words.

Record wordfreq_t := mkWf { freqs : list (string * Z); w_cap : nat }.

Fixpoint freq_incr (l : list (string * Z)) (word : string) : option (list (string * Z)) :=
  match l with
  | [] => None
  | (x, n) :: l' => if strcmp_eq x word then Some ((x, n + 1) :: l') else cons (x, n) <$> freq_incr l' word
  end.

Definition wordfreq_get (wf : wordfreq_t) (word : string) : Z :=
  match find (fun e => strcmp_eq e.1 word) (freqs wf) with Some e => e.2 | None => 0 end.

Section words.
  Context {W : Type} `{MemOS W}.

(** When one of the two arrays moved and the other could not grow, the moved
    one is freed and still used: [None], unless there was no array yet. *)
Definition wordfreq_add (wf : wordfreq_t) (word : string) (w : W) : option wordfreq_t * W :=
    match freq_incr (freqs wf) word with
    | Some l => (Some (mkWf l (w_cap wf)), w)
    | None =>
        let put wf w := let '(d, w) := AIRY_STRDUP word w in
                        (Some match d with Some d => mkWf (freqs wf ++ [(d, 1)]) (w_cap wf) | None => wf end, w) in
        if (length (freqs wf) =? w_cap wf)%nat then
          let '(nw, w) := os_alloc w in
          let '(nf, w) := os_alloc w in
          if nw && nf then put (mkWf (freqs wf) (if (w_cap wf =? 0)%nat then 32 else w_cap wf * 2)) w
          else if (nw || nf) && negb (w_cap wf =? 0)%nat then (None, w)
          else (Some wf, w)
        else put wf w
    end.

Fixpoint wordfreq_all (wf : wordfreq_t) (words : list string) (w : W) : option wordfreq_t * W :=
    match words with
    | [] => (Some wf, w)
    | x :: xs => let '(r, w) := wordfreq_add wf x w in
                 match r with Some wf => wordfreq_all wf xs w | None => (None, w) end
    end.
End words.

(** ** Scores *)

Definition word_weight (x : string) (wf : wordfreq_t) : double :=
  let s := if 1 <? wordfreq_get wf x then dadd d_zero (d_lit 1 10) else d_zero in
  if is_instruction_word x then dadd s (d_lit 5 10) else s.

Definition is_alnum (c : ascii) : bool :=
  let n := nat_of_ascii c in
  (((97 <=? n) && (n <=? 122)) || ((48 <=? n) && (n <=? 57)) || ((65 <=? n) && (n <=? 90)))%nat.

(** [word] is the word so far, cut to 127 characters. *)
Fixpoint score_loop (p word : string) (s : double) (wf : wordfreq_t) : double :=
  let take := if strcmp_eq word "" then s else dadd s (word_weight word wf) in
  match p with
  | EmptyString => take
  | String c p' =>
      if is_alnum c then
        score_loop p' (if strlen word <? 127 then word +:+ String (tolower c) "" else word) s wf
      else score_loop p' "" take wf
  end.

Definition sent_score (text : string) (wf : wordfreq_t) : double := score_loop text "" d_zero wf.

Definition top_k (n : nat) : nat :=
  let k := (n / 2)%nat in if (k <? 2)%nat then 2 else if (3 <? k)%nat then 3 else k.

(** The loop over [i], with the index and the score of the best so far. *)
Fixpoint rest_loop (i : nat) (l : list (double * bool)) (best : option (nat * double)) : option (nat * double) :=
  match l with
  | [] => best
  | (s, picked) :: l' =>
      rest_loop (S i) l'
        (if picked : bool then best
         else match best with
              | None => Some (i, s)
              | Some (_, b) => if dlt b s then Some (i, s) else best
              end)
  end.

Definition top_rest (l : list (double * bool)) : option nat := fst <$> rest_loop 0 l None.

Fixpoint pick_loop (k : nat) (l : list (double * bool)) : list (double * bool) :=
  match k with
  | O => l
  | S k' => pick_loop k' (match top_rest l with
                          | Some b => alter (fun e => (e.1, true)) b l
                          | None => l
                          end)
  end.

Definition sent_scores (sents : list string) (wf : wordfreq_t) : list double :=
  let n := length sents in
  imap (fun i t => dadd (dadd (sent_score t wf) (if (i =? 0)%nat then d_lit 3 10 else d_zero))
                     (if (S i =? n)%nat then d_lit 2 10 else d_zero)) sents.

Definition newline : string := String "010" "".

(** The picked sentences, a line each. *)
Fixpoint picked_text (sents : list string) (l : list (double * bool)) : string :=
  match sents, l with
  | t :: sents', e :: l' => (if e.2 then t +:+ newline else "") +:+ picked_text sents' l'
  | _, _ => ""
  end.

(** The size of the buffer for the picked text, less one. *)
Fixpoint picked_size (sents : list string) (l : list (double * bool)) : Z :=
  match sents, l with
  | t :: sents', e :: l' => (if e.2 then strlen t + 1 else 0) + picked_size sents' l'
  | _, _ => 0
  end.

Definition extract_key_sentences {W} `{MemOS W} (text : string) (wf : wordfreq_t) (w : W) : option string * W :=
  let '(v, w) := split_sentences text w in
  let sents := items v in
  if (length sents <=? 2)%nat then AIRY_STRDUP text w
  else
    let '(ok1, w) := os_alloc w in
    let '(ok2, w) := os_alloc w in
    if negb (ok1 && ok2) then AIRY_STRDUP text w
    else
      let l := pick_loop (top_k (length sents)) (map (fun s => (s, false)) (sent_scores sents wf)) in
      let '(ok, w) := os_alloc w in
      if ok : bool then (Some (picked_text sents l), w) else AIRY_STRDUP text w.

Definition text_hash (s : string) : Z :=
  foldl (fun h c => u64 (Z.lxor h (Z.of_N (N_of_ascii c)) * 1099511628211)) 1469598103934665603
    (String.list_ascii_of_string s).

(** ** The gate *)

Definition mem_compress_gate_pass (g : option compress_gate_t) : bool :=
  match g with
  | None => false
  | Some g =>
      if negb (grayscale_enabled g) then false
      else if negb (dle d_zero (acr g)) || dlt (d_of_Z 1) (acr g) then false
      else if negb (dle d_zero (ttft_ms g)) then false
      else if dlt (acr g) COMPRESS_GATE_MIN_ACR then false
      else if dlt COMPRESS_GATE_MAX_TTFT_MS (ttft_ms g) then false
      else true
  end.

(** ** The window *)

Record cell := mkCell {
  ent : compress_entry_in_t;
  c_tokens : Z;
  turn_of : Z;
  act : compress_action_t;
  repl : option string;
  hash : Z
}.

Definition set_act (a : compress_action_t) (r : option string) (c : cell) : cell :=
  mkCell (ent c) (c_tokens c) (turn_of c) a r (hash c).

Definition set_hash (h : Z) (c : cell) : cell := mkCell (ent c) (c_tokens c) (turn_of c) (act c) (repl c) h.

Definition cmp_defaults : compress_config_t :=
  mkCfg COMPRESS_DEFAULT_MAX_TOOL_TOKENS COMPRESS_DEFAULT_MAX_TURNS true false true
    (mkGate false (d_of_Z (-1)) (d_of_Z (-1))).

Definition cmp_cfg (cfg : option compress_config_t) : compress_config_t :=
  match cfg with
  | None => cmp_defaults
  | Some c =>
      mkCfg (if 0 <? max_tool_tokens c then max_tool_tokens c else max_tool_tokens cmp_defaults)
        (if 0 <? max_turns c then max_turns c else max_turns cmp_defaults)
        (l1_enabled c) (l2_enabled c) (dedup c) (gate c)
  end.

(** The turn of each entry: a user entry starts a turn. *)
Fixpoint turns_loop (cur : Z) (es : list compress_entry_in_t) : list Z * Z :=
  match es with
  | [] => ([], cur)
  | e :: es' =>
      let cur := if ci_type e =? LEDGER_ENTRY_USER then cur + 1 else cur in
      let '(l, n) := turns_loop cur es' in (cur :: l, n)
  end.

Definition entry_tokens (count : string -> Z) (e : compress_entry_in_t) : Z :=
  if 0 <? ci_token_in e then ci_token_in e
  else match ci_text e with Some t => count t | None => 0 end.

(** The index of the last user entry, -1 without one. *)
Fixpoint cur_user_loop (i : nat) (es : list compress_entry_in_t) (cur : Z) : Z :=
  match es with
  | [] => cur
  | e :: es' => cur_user_loop (S i) es' (if ci_type e =? LEDGER_ENTRY_USER then s32 (Z.of_nat i) else cur)
  end.

Definition used_tokens (count : string -> Z) (es : list compress_entry_in_t) : Z :=
  foldl (fun s e => u64 (s + entry_tokens count e)) 0 es.

(** "\n…[truncated %zu tokens]…\n" *)
Definition ELLIPSIS : string := String "226" (String "128" (String "166" "")).

Definition truncated_mark (n : Z) : string :=
  newline +:+ ELLIPSIS +:+ "[truncated " +:+ print_u n +:+ " tokens]" +:+ ELLIPSIS +:+ newline.

Definition substr (s : string) (from len : Z) : string := String.substring (Z.to_nat from) (Z.to_nat len) s.

Section window.
  Context {W : Type} `{MemOS W} (cfg : compress_config_t) (turns cur_user : Z).

Definition cmp_protected (i : nat) (c : cell) : bool :=
    (ci_type (ent c) =? LEDGER_ENTRY_SYSTEM) || (ci_type (ent c) =? LEDGER_ENTRY_TOOL_DEF) ||
    (ci_type (ent c) =? LEDGER_ENTRY_CACHE_HIT) || (s32 (Z.of_nat i) =? cur_user).

(** The first turn that is kept at the end of the window. *)
Definition keep_from : Z :=
    turns - (if 1 <? s32 (max_turns cfg) then s32 (max_turns cfg) - 1 else 0) + 1.

Definition l1_drop_turn (c : cell) (saved : Z) : option (cell * Z) :=
    let ty := ci_type (ent c) in
    if negb (ty =? LEDGER_ENTRY_USER) && negb (ty =? LEDGER_ENTRY_ASSISTANT) && negb (ty =? LEDGER_ENTRY_TOOL_RESULT)
    then None
    else if (turns <=? s32 (max_turns cfg)) || (turn_of c <=? 1) || (keep_from <=? turn_of c) then None
    else Some (set_act COMPRESS_ACTION_DROP (repl c) c, u64 (saved + c_tokens c)).

(** Head, mark and tail of a long text, with the size of its buffer. *)
Definition cut_size (len : Z) : Z := len * 2 / 5.

Definition l1_truncate (c : cell) (saved : Z) (w : W) : cell * Z * W :=
    if negb (ci_type (ent c) =? LEDGER_ENTRY_TOOL_RESULT) || (c_tokens c <=? max_tool_tokens cfg)
    then (c, saved, w)
    else
      match ci_text (ent c) with
      | None => (c, saved, w)
      | Some text =>
          let len := strlen text in
          let head := cut_size len in
          let tail := cut_size len in
          if (len <=? 32) || (len <=? head + tail) then (c, saved, w)
          else
            let nlen := head + tail + 48 in
            let '(ok, w) := os_alloc w in
            if negb ok then (c, saved, w)
            else
              let mark := truncated_mark (c_tokens c - max_tool_tokens cfg) in
              if nlen - head <=? strlen mark then (c, saved, w)
              else
                (set_act COMPRESS_ACTION_TRUNCATE
                   (Some (substr text 0 head +:+ mark +:+ substr text (len - tail) tail)) c,
                 u64 (saved + (c_tokens c - max_tool_tokens cfg)), w)
      end.

(** An earlier entry that has this text and is not dropped. *)
Definition dup_of (text : string) (h : Z) (b : cell) : bool :=
    negb (bool_decide (act b = COMPRESS_ACTION_DROP)) && (hash b =? h) &&
    match ci_text (ent b) with Some t => strcmp_eq t text | None => false end.

Definition l1_dedup (before : list cell) (c : cell) (saved : Z) : bool * cell * Z :=
    match ci_text (ent c) with
    | Some text =>
        if negb (dedup cfg) then (false, c, saved)
        else
          let h := text_hash text in
          if existsb (dup_of text h) before && bool_decide (act c = COMPRESS_ACTION_NONE)
          then (true, set_act COMPRESS_ACTION_DEDUP (repl c) c, u64 (saved + c_tokens c))
          else (false, set_hash h c, saved)
    | None => (false, c, saved)
    end.

(** One turn of the loop of [cmp_l1]. *)
Definition l1_one (before : list cell) (c : cell) (saved : Z) (w : W) : cell * Z * W :=
    let note c := if bool_decide (act c = COMPRESS_ACTION_NONE)
                  then match ci_text (ent c) with Some t => set_hash (text_hash t) c | None => c end
                  else c in
    if cmp_protected (length before) c then (c, saved, w)
    else if l1_enabled cfg then
      match l1_drop_turn c saved with
      | Some (c, saved) => (c, saved, w)
      | None =>
          let '(c, saved, w) := l1_truncate c saved w in
          let '(dup, c, saved) := l1_dedup before c saved in
          (if dup : bool then c else note c, saved, w)
      end
    else (note c, saved, w).

Fixpoint cmp_l1 (before : list cell) (cs : list cell) (saved : Z) (w : W) : list cell * Z * W :=
    match cs with
    | [] => (before, saved, w)
    | c :: cs' => let '(c, saved, w) := l1_one before c saved w in cmp_l1 (before ++ [c]) cs' saved w
    end.

(** ** Summaries *)

Definition l2_extract (count : string -> Z) (wf : wordfreq_t) (i : nat) (c : cell) (saved : Z) (w : W)
      : cell * Z * W :=
    let ty := ci_type (ent c) in
    if negb (bool_decide (act c = COMPRESS_ACTION_NONE)) then (c, saved, w)
    else if negb (ty =? LEDGER_ENTRY_ASSISTANT) && negb (ty =? LEDGER_ENTRY_USER) then (c, saved, w)
    else if s32 (Z.of_nat i) =? cur_user then (c, saved, w)
    else if (turn_of c =? 1) && (ty =? LEDGER_ENTRY_USER) then (c, saved, w)
    else if c_tokens c <? 32 then (c, saved, w)
    else
      match ci_text (ent c) with
      | None => (c, saved, w)
      | Some text =>
          let '(summ, w) := extract_key_sentences text wf w in
          (match summ with
           | Some summ =>
               if negb (strcmp_eq summ text) && (strlen summ <? strlen text) then
                 let new_tok := count summ in
                 if new_tok <? c_tokens c
                 then (set_act COMPRESS_ACTION_EXTRACT (Some summ) c, u64 (saved + (c_tokens c - new_tok)))
                 else (c, saved)
               else (c, saved)
           | None => (c, saved)
           end, w)
      end.

Fixpoint l2_loop (count : string -> Z) (wf : wordfreq_t) (i : nat) (cs : list cell) (saved : Z) (w : W)
      : list cell * Z * W :=
    match cs with
    | [] => ([], saved, w)
    | c :: cs' =>
        let '(c, saved, w) := l2_extract count wf i c saved w in
        let '(cs', saved, w) := l2_loop count wf (S i) cs' saved w in (c :: cs', saved, w)
    end.
End window.

Section plan.
  Context {W : Type} `{MemOS W} (airy_words_scan : string -> list string).

(** Over the budget of the session after the trimming. *)
Definition over_budget (ledger : option mem_ledger) (sid : option string) (used saved : Z) : bool :=
    let budget := match ledger, (mem_ledger_budget ledger sid).2 with
                  | Some _, Some (_, b, _) => b
                  | _, _ => 0
                  end in
    let remaining := if saved <? used then used - saved else 0 in
    let ratio := match ledger with Some _ => mem_ledger_warn_ratio ledger | None => d_lit 8 10 end in
    (0 <? budget) && (d_trunc (dmul (d_of_Z budget) ratio) <=? remaining).

Definition cmp_l2 (cfg : compress_config_t) (turns cur_user : Z) (count : string -> Z) (ledger : option mem_ledger)
      (sid : option string) (used : Z) (cs : list cell) (saved : Z) (w : W) : option (list cell * Z) * W :=
    if l2_enabled cfg && mem_compress_gate_pass (Some (gate cfg)) &&
       (over_budget ledger sid used saved || (s32 (max_turns cfg) <? turns)) then
      let words := concat (map (fun c => match ci_text (ent c) with Some t => airy_words_scan t | None => [] end) cs) in
      let '(wf, w) := wordfreq_all (mkWf [] 0) words w in
      match wf with
      | None => (None, w)
      | Some wf => let '(cs, saved, w) := l2_loop cur_user count wf 0 cs saved w in (Some (cs, saved), w)
      end
    else (Some (cs, saved), w).

(** ** The result *)

Definition left_out (c : cell) : bool :=
    bool_decide (act c = COMPRESS_ACTION_DROP) || bool_decide (act c = COMPRESS_ACTION_DEDUP).

Definition piece (c : cell) : string := match repl c with Some r => r | None => default "" (ci_text (ent c)) end.

(** The size of the buffer of the context. *)
Definition ctx_size (cs : list cell) : Z :=
    foldl (fun n c => if left_out c then n else n + (strlen (piece c) + 1)) 1 cs.

Fixpoint build_loop (cs : list cell) (ctx : string) (plans : list compress_plan_item_t) (w : W)
      : string * list compress_plan_item_t * W :=
    match cs with
    | [] => (ctx, plans, w)
    | c :: cs' =>
        let '(plans, w) :=
          if bool_decide (act c = COMPRESS_ACTION_NONE) then (plans, w)
          else let '(id, w) := AIRY_STRDUP (ci_id (ent c)) w in
               (plans ++ [mkItem id (ci_type (ent c)) (act c)], w) in
        let ctx := if left_out c then ctx
                   else (if strcmp_eq ctx "" then ctx else ctx +:+ newline) +:+ piece c in
        build_loop cs' ctx plans w
    end.

Definition cmp_build (cs : list cell) (w : W) : option (string * list compress_plan_item_t) * W :=
    let '(ok, w) := os_alloc w in
    if negb ok then (None, w)
    else let '(ctx, plans, w) := build_loop cs "" [] w in (Some (ctx, plans), w).

Definition cmp_saved (count : string -> Z) (saved : Z) (ctx : string) (used : Z) : Z :=
    if saved =? 0 then 0
    else let new_tok := count ctx in if new_tok <? used then used - new_tok else saved.

Record plan_out := mkOut {
  out_context : option string; out_saved : Z; out_actions : list compress_plan_item_t }.

Definition no_out : plan_out := mkOut None 0 [].

(** The five arrays and the counter. *)
Definition cmp_bufs (ledger : option mem_ledger) (w : W) : option tok_counter * W :=
    let '(a, w) := os_alloc w in
    let '(b, w) := os_alloc w in
    let '(c, w) := os_alloc w in
    let '(d, w) := os_alloc w in
    let '(e, w) := os_alloc w in
    let '(k, w) := tok_create (mem_ledger_tfam ledger) w in
    (if a && b && c && d && e then k else None, w).

Definition cells_of (count : string -> Z) (es : list compress_entry_in_t) : list cell :=
    zip_with (fun e t => mkCell e (entry_tokens count e) t COMPRESS_ACTION_NONE None 0) es (turns_loop 0 es).1.

(** [None]: memory that was freed is used.  [entries] is never NULL. *)
Definition mem_compress_plan (ledger : option mem_ledger) (sid : option string) (entries : list compress_entry_in_t)
      (cfg : option compress_config_t) (w : W) : option (airy_rc * plan_out) * W :=
    let cfg := cmp_cfg cfg in
    if (length entries =? 0)%nat then (Some (AIRY_SUCCESS, no_out), w)
    else
      let '(k, w) := cmp_bufs ledger w in
      match k with
      | None => (Some (AIRY_ERR_OUT_OF_MEMORY, no_out), w)
      | Some k =>
          let '(ok, w) := os_alloc w in
          if negb ok then (Some (AIRY_ERR_OUT_OF_MEMORY, no_out), w)
          else
            let count := tok_count k in
            let turns := (turns_loop 0 entries).2 in
            let cur_user := cur_user_loop 0 entries (-1) in
            let used := used_tokens count entries in
            let '(cs, saved, w) := cmp_l1 cfg turns cur_user [] (cells_of count entries) 0 w in
            let '(r, w) := cmp_l2 cfg turns cur_user count ledger sid used cs saved w in
            match r with
            | None => (None, w)
            | Some (cs, saved) =>
                let '(b, w) := cmp_build cs w in
                match b with
                | None => (Some (AIRY_ERR_OUT_OF_MEMORY, no_out), w)
                | Some (ctx, plans) =>
                    (Some (AIRY_SUCCESS, mkOut (Some ctx) (cmp_saved count saved ctx used) plans), w)
                end
            end
      end.
End plan.

(** ** What the trimming does *)

Section l1.
  Context {W : Type} `{MemOS W} (cfg : compress_config_t) (turns cur_user : Z).

(** Turns that are dropped: more turns than allowed, this one neither the first
    nor among the last. *)
Definition old_turn (c : cell) : Prop :=
    (ci_type (ent c) = LEDGER_ENTRY_USER \/ ci_type (ent c) = LEDGER_ENTRY_ASSISTANT \/
     ci_type (ent c) = LEDGER_ENTRY_TOOL_RESULT) /\
    s32 (max_turns cfg) < turns /\ 1 < turn_of c < keep_from cfg turns.

Definition cut_text (text : string) (tokens : Z) : string :=
    let n := cut_size (strlen text) in
    substr text 0 n +:+ truncated_mark (tokens - max_tool_tokens cfg) +:+ substr text (strlen text - n) n.

(** The hash of a cell is only set for a cell others may be duplicates of. *)
Definition hash_ok (i : nat) (c : cell) : Prop :=
    hash c = 0 \/
    exists t, ci_text (ent c) = Some t /\ hash c = text_hash t /\ cmp_protected cur_user i c = false /\
              act c <> COMPRESS_ACTION_DROP /\ act c <> COMPRESS_ACTION_DEDUP.

(** The verdict on a cell, given the cells before it. *)
Definition l1_ok (before : list cell) (c : cell) : Prop :=
    let prot := cmp_protected cur_user (length before) c in
    hash_ok (length before) c /\
    (act c = COMPRESS_ACTION_DROP <-> prot = false /\ l1_enabled cfg = true /\ old_turn c) /\
    match act c with
    | COMPRESS_ACTION_NONE | COMPRESS_ACTION_DROP => repl c = None
    | COMPRESS_ACTION_TRUNCATE =>
        prot = false /\ l1_enabled cfg = true /\ ci_type (ent c) = LEDGER_ENTRY_TOOL_RESULT /\
        max_tool_tokens cfg < c_tokens c /\
        exists t, ci_text (ent c) = Some t /\ 32 < strlen t /\ repl c = Some (cut_text t (c_tokens c))
    | COMPRESS_ACTION_DEDUP =>
        repl c = None /\ prot = false /\ l1_enabled cfg = true /\ dedup cfg = true /\
        exists t j b, ci_text (ent c) = Some t /\ before !! j = Some b /\ ci_text (ent b) = Some t /\
                      act b <> COMPRESS_ACTION_DROP /\
                      (text_hash t <> 0 -> act b <> COMPRESS_ACTION_DEDUP /\ cmp_protected cur_user j b = false)
    | COMPRESS_ACTION_EXTRACT => False
    end.

Definition all_ok (cs : list cell) : Prop := forall i c, cs !! i = Some c -> l1_ok (take i cs) c.

(** A cell before its turn. *)
Definition fresh (c : cell) : Prop := act c = COMPRESS_ACTION_NONE /\ repl c = None /\ hash c = 0.

(** What a cell keeps. *)
Definition same_entry (c c' : cell) : Prop :=
    ent c' = ent c /\ c_tokens c' = c_tokens c /\ turn_of c' = turn_of c.

Lemma all_ok_snoc cs c : all_ok cs -> l1_ok cs c -> all_ok (cs ++ [c]).
Proof.
  intros Ha Hc i x Hx. apply lookup_app_Some in Hx as [Hx|[Hl Hx]].
  - pose proof (lookup_lt_Some _ _ _ Hx). rewrite take_app_le by lia. by apply Ha.
  - pose proof (lookup_lt_Some _ _ _ Hx) as Hlt. cbn in Hlt. assert (i = length cs) as -> by lia.
    rewrite Nat.sub_diag in Hx. injection Hx as <-. by rewrite take_app_length.
Qed.

Lemma drop_turn_spec c saved : 
  match l1_drop_turn cfg turns c saved with
  | Some (c', s') => old_turn c /\ c' = set_act COMPRESS_ACTION_DROP (repl c) c /\ s' = u64 (saved + c_tokens c)
  | None => ~ old_turn c
  end.
Proof.
  unfold l1_drop_turn, old_turn. destruct (negb _ && negb _ && negb _) eqn:E1.
  - rewrite !andb_true_iff, !negb_true_iff, !Z.eqb_neq in E1. tauto.
  - assert (Ht : ci_type (ent c) = LEDGER_ENTRY_USER \/ ci_type (ent c) = LEDGER_ENTRY_ASSISTANT \/
      ci_type (ent c) = LEDGER_ENTRY_TOOL_RESULT).
    { rewrite !andb_false_iff, !negb_false_iff, !Z.eqb_eq in E1. tauto. }
    destruct (_ || _) eqn:E2.
    + rewrite !orb_true_iff, !Z.leb_le in E2. lia.
    + rewrite !orb_false_iff, !Z.leb_gt in E2. split_and!; [done|lia..|done|done].
Qed.

(** A cut cell, or the cell as it was. *)
Lemma truncate_spec c saved w c' s' w' :
  l1_truncate cfg c saved w = (c', s', w') -> fresh c ->
  same_entry c c' /\ hash c' = 0 /\
  (c' = c /\ s' = saved \/
   act c' = COMPRESS_ACTION_TRUNCATE /\ ci_type (ent c) = LEDGER_ENTRY_TOOL_RESULT /\
   max_tool_tokens cfg < c_tokens c /\ s' = u64 (saved + (c_tokens c - max_tool_tokens cfg)) /\
   exists t, ci_text (ent c) = Some t /\ 32 < strlen t /\ repl c' = Some (cut_text t (c_tokens c))).
Proof.
  unfold l1_truncate. intros E (Ha & Hr & Hh).
  assert (Hsame : forall (P : Prop) v, (c, saved, v) = (c', s', w') ->
    same_entry c c' /\ hash c' = 0 /\ (c' = c /\ s' = saved \/ P)).
  { intros P v [= <- <- <-]. split_and!; try done. by left. }
  destruct (negb (ci_type (ent c) =? LEDGER_ENTRY_TOOL_RESULT) || (c_tokens c <=? max_tool_tokens cfg)) eqn:E1;
    [by eapply Hsame|].
  rewrite orb_false_iff, negb_false_iff, Z.eqb_eq, Z.leb_gt in E1. destruct E1 as [E1 E2].
  destruct (ci_text (ent c)) as [t|] eqn:Et; [|by eapply Hsame]. cbv zeta in E.
  destruct ((strlen t <=? 32) || _) eqn:El; [by eapply Hsame|]. rewrite orb_false_iff, !Z.leb_gt in El. destruct El as [El _].
  destruct (os_alloc w) as [[] w1]; cbn [negb] in E; [|by eapply Hsame].
  destruct (_ <=? strlen (truncated_mark _)); [by eapply Hsame|].
  injection E as <- <- <-. split_and!; try done. right. split_and!; try done. exists t. by split_and!.
Qed.

(** The end of a turn for a cell that is not a duplicate. *)
Lemma note_ok (before : list cell) c :
  cmp_protected cur_user (length before) c = false ->
  hash_ok (length before) c -> act c <> COMPRESS_ACTION_DEDUP -> act c <> COMPRESS_ACTION_DROP ->
  let c' := (if bool_decide (act c = COMPRESS_ACTION_NONE)
             then match ci_text (ent c) with Some t => set_hash (text_hash t) c | None => c end else c) in
  same_entry c c' /\ act c' = act c /\ repl c' = repl c /\ hash_ok (length before) c'.
Proof.
  intros Hp Hh Hd1 Hd2. cbv zeta. case_bool_decide; [|done].
  destruct (ci_text (ent c)) as [t|] eqn:Et; [|done]. split_and!; try done. right. by exists t.
Qed.

Lemma dup_sound before t h :
  (forall i c, before !! i = Some c -> hash_ok i c) ->
  existsb (dup_of t h) before = true -> h = text_hash t ->
  exists j b, before !! j = Some b /\ ci_text (ent b) = Some t /\ act b <> COMPRESS_ACTION_DROP /\
    (text_hash t <> 0 -> act b <> COMPRESS_ACTION_DEDUP /\ cmp_protected cur_user j b = false).
Proof.
  intros Hh Hx ->. apply existsb_exists in Hx as (b & Hin & Hb). apply list_elem_of_In, list_elem_of_lookup_1 in Hin as (j & Hj).
  unfold dup_of in Hb. rewrite !andb_true_iff, negb_true_iff, bool_decide_eq_false, Z.eqb_eq in Hb.
  destruct Hb as [[Ha Hhb] Hb]. destruct (ci_text (ent b)) as [u|] eqn:Eu; [|done]. apply strcmp_eq_true in Hb as ->.
  exists j, b. split_and!; try done. intros Hne. destruct (Hh j b Hj) as [H0|(v & _ & _ & Hpr & _ & Hd)]; [congruence|done].
Qed.

(** The verdict on a cell and what it adds to the tokens saved. *)
Definition step_ok (before : list cell) (saved : Z) (c c' : cell) (s' : Z) : Prop :=
    l1_ok before c' /\ same_entry c c' /\
    (act c' = COMPRESS_ACTION_NONE /\ s' = saved \/
     exists n, act c' <> COMPRESS_ACTION_NONE /\ s' = u64 (saved + n) /\
               (0 <= max_tool_tokens cfg -> 0 <= c_tokens c -> 0 <= n <= c_tokens c)).

Lemma same_protected c c' i : same_entry c c' -> cmp_protected cur_user i c' = cmp_protected cur_user i c.
Proof. intros (He & _). unfold cmp_protected. by rewrite He. Qed.

Lemma same_old c c' : same_entry c c' -> old_turn c' <-> old_turn c.
Proof. intros (He & _ & Ht). unfold old_turn. by rewrite He, Ht. Qed.

(** Nothing is done. *)
Lemma step_none before saved c c' :
  same_entry c c' -> act c' = COMPRESS_ACTION_NONE -> repl c' = None -> hash_ok (length before) c' ->
  (cmp_protected cur_user (length before) c = true \/ l1_enabled cfg = false \/ ~ old_turn c) ->
  step_ok before saved c c' saved.
Proof.
  intros Hs Ha Hr Hh Hn. split; [|split; [done|by left]]. unfold l1_ok.
  rewrite Ha, (same_protected _ _ _ Hs), (same_old _ _ Hs). split; [done|]. split; [|done]. split; [done|].
  intros (Hx & Hy & Hz). destruct Hn as [?|[?|?]]; [congruence|congruence|tauto].
Qed.

Lemma step_drop before saved c :
  fresh c -> cmp_protected cur_user (length before) c = false -> l1_enabled cfg = true -> old_turn c ->
  step_ok before saved c (set_act COMPRESS_ACTION_DROP (repl c) c) (u64 (saved + c_tokens c)).
Proof.
  intros (Ha & Hr & Hh) Hp Hl Ho. split; [|split; [done|]].
  - unfold l1_ok. split; [by left|]. split; [|done]. done.
  - right. exists (c_tokens c). split; [done|]. split; [done|]. lia.
Qed.

Lemma step_cut before saved c c' t :
  same_entry c c' -> act c' = COMPRESS_ACTION_TRUNCATE -> hash_ok (length before) c' ->
  cmp_protected cur_user (length before) c = false -> l1_enabled cfg = true -> ~ old_turn c ->
  ci_type (ent c) = LEDGER_ENTRY_TOOL_RESULT -> max_tool_tokens cfg < c_tokens c ->
  ci_text (ent c) = Some t -> 32 < strlen t -> repl c' = Some (cut_text t (c_tokens c)) ->
  step_ok before saved c c' (u64 (saved + (c_tokens c - max_tool_tokens cfg))).
Proof.
  intros Hs Ha Hh Hp Hl Ho Hty Htk Ht Hlen Hr. split; [|split; [done|]].
  - unfold l1_ok. rewrite Ha, (same_protected _ _ _ Hs), (same_old _ _ Hs). split; [done|]. split; [split; [done|tauto]|].
    destruct Hs as (-> & -> & _). split_and!; try done. by exists t.
  - right. exists (c_tokens c - max_tool_tokens cfg). rewrite Ha. split; [done|]. split; [done|]. lia.
Qed.

Lemma step_dedup before saved c c' t :
  same_entry c c' -> act c' = COMPRESS_ACTION_DEDUP -> repl c' = None -> hash c' = 0 ->
  cmp_protected cur_user (length before) c = false -> l1_enabled cfg = true -> ~ old_turn c -> dedup cfg = true ->
  ci_text (ent c) = Some t -> (forall i b, before !! i = Some b -> hash_ok i b) ->
  existsb (dup_of t (text_hash t)) before = true ->
  step_ok before saved c c' (u64 (saved + c_tokens c)).
Proof.
  intros Hs Ha Hr Hh Hp Hl Ho Hd Ht Hb Hx. split; [|split; [done|]].
  - unfold l1_ok. rewrite Ha, (same_protected _ _ _ Hs), (same_old _ _ Hs). split; [by left|]. split; [split; [done|tauto]|].
    destruct (dup_sound before t _ Hb Hx eq_refl) as (j & b & ? & ? & ? & ?). destruct Hs as (-> & _).
    split_and!; try done. exists t, j, b. by split_and!.
  - right. exists (c_tokens c). rewrite Ha. split; [done|]. split; [done|]. lia.
Qed.

Lemma all_ok_hash before i b : all_ok before -> before !! i = Some b -> hash_ok i b.
Proof.
  intros Ha Hb. destruct (Ha i b Hb) as [Hh _]. pose proof (lookup_lt_Some _ _ _ Hb).
  by rewrite length_take_le in Hh by lia.
Qed.

Lemma l1_one_ok before c saved w c' s' w' :
  all_ok before -> fresh c -> l1_one cfg turns cur_user before c saved w = (c', s', w') ->
  step_ok before saved c c' s'.
Proof.
  intros Hall Hf E. pose proof Hf as (Ha & Hr & Hh). unfold l1_one in E.
  destruct (cmp_protected cur_user (length before) c) eqn:Ep.
  { injection E as <- <- <-. apply step_none; auto; [done|by left]. }
  destruct (l1_enabled cfg) eqn:El.
  2: { injection E as <- <- <-. destruct (note_ok before c Ep) as (S1 & S2 & S3 & S4); [by left|congruence..|].
       apply step_none; auto; congruence. }
  pose proof (drop_turn_spec c saved) as Hd. destruct (l1_drop_turn cfg turns c saved) as [[c1 s1]|].
  { injection E as <- <- <-. destruct Hd as (Ho & -> & ->). by apply step_drop. }
  destruct (l1_truncate cfg c saved w) as [[c1 s1] w1] eqn:Et.
  destruct (truncate_spec _ _ _ _ _ _ Et Hf) as (Hse & Hh1 & Hcase).
  destruct (l1_dedup cfg before c1 s1) as [[dup c2] s2] eqn:Ed.
  assert (Hc2 : dup = true /\ c2 = set_act COMPRESS_ACTION_DEDUP (repl c1) c1 /\ s2 = u64 (s1 + c_tokens c1) /\
      act c1 = COMPRESS_ACTION_NONE /\ dedup cfg = true /\
      (exists t, ci_text (ent c1) = Some t /\ existsb (dup_of t (text_hash t)) before = true) \/
    dup = false /\ s2 = s1 /\ (c2 = c1 \/ exists t, ci_text (ent c1) = Some t /\ c2 = set_hash (text_hash t) c1)).
  { unfold l1_dedup in Ed. destruct (ci_text (ent c1)) as [t|] eqn:Ect; [|injection Ed as <- <- <-; tauto].
    destruct (dedup cfg) eqn:Edd; cbn [negb] in Ed; [|injection Ed as <- <- <-; tauto].
    destruct (existsb _ before && _) eqn:Ex; injection Ed as <- <- <-.
    - apply andb_true_iff in Ex as [Ex Hn%bool_decide_eq_true]. left. split_and!; try done. by exists t.
    - right. split_and!; try done. right. by exists t. }
  destruct Hc2 as [(-> & -> & -> & Ha1 & Hdd & t & Ht & Hx)|(-> & -> & Hc2)]; injection E as <- <- <-.
  - destruct Hcase as [[-> ->]|(Hc & _)]; [|congruence]. eapply step_dedup; eauto using all_ok_hash; done.
  - assert (Hs2 : same_entry c c2 /\ act c2 = act c1 /\ repl c2 = repl c1 /\ hash_ok (length before) c2).
    { destruct Hc2 as [->|(t & Ht & ->)]; [split_and!; [done..|by left]|]. split_and!; [done..|]. right. exists t.
      rewrite (same_protected c) by done. cbn [set_hash act ent hash]. split_and!; try done; destruct Hcase as [[-> _]|[-> _]]; congruence. }
    destruct Hs2 as (Hs2 & Ha2 & Hr2 & Hh2).
    assert (Hp2 : cmp_protected cur_user (length before) c2 = false) by (by rewrite (same_protected c)).
    destruct (note_ok before c2 Hp2 Hh2) as (S1 & S2 & S3 & S4);
      [rewrite Ha2; destruct Hcase as [[-> _]|[-> _]]; congruence..|].
    set (c3 := if bool_decide _ then _ else _) in *. assert (Hs3 : same_entry c c3) by (unfold same_entry in *; intuition congruence).
    destruct Hcase as [[-> ->]|(Hc1 & Hty & Htk & -> & t & Ht & Hlen & Hre)].
    + apply step_none; auto; congruence.
    + eapply step_cut; eauto; congruence.
Qed.

Lemma cmp_l1_ok cs : forall before saved w r s' w',
  all_ok before -> Forall fresh cs -> cmp_l1 cfg turns cur_user before cs saved w = (r, s', w') ->
  all_ok r /\ exists cs', r = before ++ cs' /\ Forall2 same_entry cs cs'.
Proof.
  induction cs as [|c cs IH]; intros before saved w r s' w' Ha Hf E; cbn [cmp_l1] in E.
  { injection E as <- <- <-. split; [done|]. exists []. by rewrite app_nil_r. }
  destruct (l1_one cfg turns cur_user before c saved w) as [[c1 s1] w1] eqn:E1.
  apply Forall_cons in Hf as [Hc Hf]. destruct (l1_one_ok _ _ _ _ _ _ _ Ha Hc E1) as (H1 & H2 & _).
  destruct (IH _ _ _ _ _ _ (all_ok_snoc _ _ Ha H1) Hf E) as (Hr & cs' & -> & H3). split; [done|].
  exists (c1 :: cs'). rewrite <- app_assoc. split; [done|]. by constructor.
Qed.
End l1.

(** ** What the summaries do *)

Section l2.
  Context {W : Type} `{MemOS W} (cur_user : Z) (count : string -> Z) (wf : wordfreq_t).

(** A cell that got a summary. *)
Definition summed (i : nat) (c c' : cell) : Prop :=
    act c = COMPRESS_ACTION_NONE /\ act c' = COMPRESS_ACTION_EXTRACT /\ s32 (Z.of_nat i) <> cur_user /\
    (ci_type (ent c) = LEDGER_ENTRY_ASSISTANT \/ ci_type (ent c) = LEDGER_ENTRY_USER /\ turn_of c <> 1) /\
    exists t s, ci_text (ent c) = Some t /\ repl c' = Some s /\ strlen s < strlen t /\ count s < c_tokens c.

Definition l2_ok (i : nat) (c c' : cell) : Prop := c' = c \/ same_entry c c' /\ summed i c c'.

Lemma extract_ok i c saved w c' s' w' :
  l2_extract cur_user count wf i c saved w = (c', s', w') ->
  l2_ok i c c' /\
  (c' = c /\ s' = saved \/
   act c = COMPRESS_ACTION_NONE /\ act c' <> COMPRESS_ACTION_NONE /\
   exists n, s' = u64 (saved + n) /\ ((forall t, 0 <= count t) -> 0 <= n <= c_tokens c)).
Proof.
  unfold l2_extract. intros E.
  assert (Hsame : forall (P : Prop) v, (c, saved, v) = (c', s', w') -> l2_ok i c c' /\ (c' = c /\ s' = saved \/ P)).
  { intros P v [= <- <- <-]. split; by left. }
  case_bool_decide as Ha; cbn [negb] in E; [|by eapply Hsame].
  destruct (negb (_ =? LEDGER_ENTRY_ASSISTANT) && _) eqn:Ety; [by eapply Hsame|].
  destruct (s32 (Z.of_nat i) =? cur_user) eqn:Ei; [by eapply Hsame|].
  destruct ((turn_of c =? 1) && _) eqn:Et; [by eapply Hsame|].
  destruct (c_tokens c <? 32); [by eapply Hsame|].
  destruct (ci_text (ent c)) as [t|] eqn:Etx; [|by eapply Hsame].
  destruct (extract_key_sentences t wf w) as [[summ|] w1]; [|by eapply Hsame].
  destruct (negb (strcmp_eq summ t) && (strlen summ <? strlen t)) eqn:Es; [|by eapply Hsame]. cbv zeta in E.
  destruct (count summ <? c_tokens c) eqn:Ec; [|by eapply Hsame]. injection E as <- <- <-.
  apply andb_true_iff in Es as [_ Es]. split.
  - right. split; [done|]. unfold summed. split_and!; try done; [lia| |].
    + rewrite andb_false_iff, !negb_false_iff, !Z.eqb_eq in Ety. rewrite andb_false_iff, !Z.eqb_neq in Et.
      destruct Ety as [?|?]; [by left|]. right. split; [done|]. naive_solver.
    + exists t, summ. split_and!; try done; lia.
  - right. split_and!; try done. exists (c_tokens c - count summ). split; [done|]. intros Hc.
    specialize (Hc summ). lia.
Qed.

Lemma l2_loop_ok cs : forall i saved w r s' w',
  l2_loop cur_user count wf i cs saved w = (r, s', w') ->
  length r = length cs /\ forall j c, cs !! j = Some c -> exists c', r !! j = Some c' /\ l2_ok (i + j) c c'.
Proof.
  induction cs as [|c cs IH]; intros i saved w r s' w' E; cbn [l2_loop] in E.
  { injection E as <- <- <-. done. }
  destruct (l2_extract cur_user count wf i c saved w) as [[c1 s1] w1] eqn:E1.
  destruct (l2_loop cur_user count wf (S i) cs s1 w1) as [[cs2 s2] w2] eqn:E2. injection E as <- <- <-.
  destruct (extract_ok _ _ _ _ _ _ _ E1) as [Hok _]. destruct (IH _ _ _ _ _ _ E2) as [Hl Hc].
  split; [cbn; by rewrite Hl|]. intros [|j] x Hx; cbn in Hx |- *.
  - injection Hx as <-. exists c1. by rewrite Nat.add_0_r.
  - destruct (Hc j x Hx) as (c' & ? & ?). exists c'. rewrite Nat.add_succ_r. done.
Qed.
End l2.

(** ** Tokens saved *)

(** The tokens of the cells with an action. *)
Definition spent (cs : list cell) : Z :=
  zsum (map (fun c => if bool_decide (act c = COMPRESS_ACTION_NONE) then 0 else c_tokens c) cs).

Definition total (cs : list cell) : Z := zsum (map c_tokens cs).

Lemma spent_app a b : spent (a ++ b) = spent a + spent b.
Proof. unfold spent. by rewrite map_app, zsum_app. Qed.

Lemma total_app a b : total (a ++ b) = total a + total b.
Proof. unfold total. by rewrite map_app, zsum_app. Qed.

Lemma spent_total cs : Forall (fun c => 0 <= c_tokens c) cs -> 0 <= spent cs <= total cs.
Proof.
  induction 1 as [|c cs Hc _ IH]; [done|]. unfold spent, total in *. cbn [map zsum]. case_bool_decide; lia.
Qed.

Section saved.
  Context {W : Type} `{MemOS W} (cfg : compress_config_t) (turns cur_user : Z).
  Hypothesis max_nonneg : 0 <= max_tool_tokens cfg.

Lemma same_total cs cs' : Forall2 same_entry cs cs' -> total cs' = total cs.
Proof.
  induction 1 as [|c c' cs cs' (_ & Ht & _) _ IH]; [done|]. unfold total in *. cbn [map zsum]. lia.
Qed.

Lemma same_nonneg cs cs' : Forall2 same_entry cs cs' -> Forall (fun c => 0 <= c_tokens c) cs ->
  Forall (fun c => 0 <= c_tokens c) cs'.
Proof.
  induction 1 as [|c c' cs cs' (_ & Ht & _) _ IH]; intros Hf; [done|]. apply Forall_cons in Hf as [? ?].
  constructor; [lia|auto].
Qed.

Lemma cmp_l1_saved cs : forall before saved w r s' w',
  all_ok cfg turns cur_user before -> Forall fresh cs ->
  Forall (fun c => 0 <= c_tokens c) (before ++ cs) -> total (before ++ cs) <= UINT64_MAX ->
  0 <= saved <= spent before ->
  cmp_l1 cfg turns cur_user before cs saved w = (r, s', w') -> 0 <= s' <= spent r.
Proof.
  induction cs as [|c cs IH]; intros before saved w r s' w' Ha Hf Hn Ht Hs E; cbn [cmp_l1] in E.
  { by injection E as <- <- <-. }
  destruct (l1_one cfg turns cur_user before c saved w) as [[c1 s1] w1] eqn:E1.
  apply Forall_cons in Hf as [Hc Hf]. destruct (l1_one_ok _ _ _ _ _ _ _ _ _ _ Ha Hc E1) as (H1 & H2 & Hx).
  destruct H2 as (_ & Htk & _).
  apply Forall_app in Hn as [Hnb Hnc]. apply Forall_cons in Hnc as [Hc0 Hnc].
  pose proof (spent_total before Hnb) as Hsb. rewrite total_app in Ht.
  change (total (c :: cs)) with (c_tokens c + total cs) in Ht. pose proof (spent_total cs Hnc) as Hsc.
  eapply (IH (before ++ [c1])); [by apply all_ok_snoc|done| | | |exact E].
  - rewrite <- app_assoc. apply Forall_app. split; [done|]. constructor; [lia|done].
  - rewrite <- app_assoc, total_app. change (total ([c1] ++ cs)) with (c_tokens c1 + total cs). lia.
  - rewrite spent_app. change (spent [c1]) with ((if bool_decide (act c1 = COMPRESS_ACTION_NONE) then 0 else c_tokens c1) + 0).
    destruct Hx as [[Hx1 ->]|(n & Hx1 & -> & Hx2)].
    + rewrite bool_decide_true by done. lia.
    + rewrite bool_decide_false by done. specialize (Hx2 max_nonneg Hc0). rewrite u64_id by (unfold is_u64; lia). lia.
Qed.

Lemma l2_loop_saved count wf cs : (forall t, 0 <= count t) -> forall i saved w r s' w' base,
  Forall (fun c => 0 <= c_tokens c) cs -> base + total cs <= UINT64_MAX ->
  0 <= saved <= base + spent cs -> 0 <= base ->
  l2_loop cur_user count wf i cs saved w = (r, s', w') -> 0 <= s' <= base + spent r.
Proof.
  intros Hcount. induction cs as [|c cs IH]; intros i saved w r s' w' base Hn Ht Hs Hb E; cbn [l2_loop] in E.
  { by injection E as <- <- <-. }
  destruct (l2_extract cur_user count wf i c saved w) as [[c1 s1] w1] eqn:E1.
  destruct (l2_loop cur_user count wf (S i) cs s1 w1) as [[cs2 s2] w2] eqn:E2. injection E as <- <- <-.
  destruct (extract_ok _ _ _ _ _ _ _ _ _ _ E1) as [Hok Hx]. apply Forall_cons in Hn as [Hc Hn].
  pose proof (spent_total cs Hn) as Hsc.
  assert (Htk : c_tokens c1 = c_tokens c) by (destruct Hok as [->|[(_ & ? & _) _]]; done).
  change (total (c :: cs)) with (c_tokens c + total cs) in Ht.
  change (spent (c :: cs)) with ((if bool_decide (act c = COMPRESS_ACTION_NONE) then 0 else c_tokens c) + spent cs) in Hs.
  change (spent (c1 :: cs2)) with ((if bool_decide (act c1 = COMPRESS_ACTION_NONE) then 0 else c_tokens c1) + spent cs2).
  set (x := if bool_decide (act c1 = COMPRESS_ACTION_NONE) then 0 else c_tokens c1) in *.
  assert (0 <= x <= c_tokens c) by (unfold x; destruct (bool_decide (act c1 = _)); lia).
  enough (0 <= s2 <= (base + x) + spent cs2) by lia.
  eapply (IH (S i) s1 w1 cs2 s2 w2 (base + x)); [done|lia| |lia|exact E2].
  destruct Hx as [[-> ->]|(Ha & Ha1 & n & -> & Hn2)]; [unfold x; lia|].
  specialize (Hn2 Hcount). unfold x. rewrite bool_decide_false by done. rewrite bool_decide_true in Hs by done.
  rewrite u64_id by (unfold is_u64; lia). lia.
Qed.
End saved.

(** ** The window in terms of the entries *)

Definition is_user (e : compress_entry_in_t) : bool := ci_type e =? LEDGER_ENTRY_USER.

Definition users (es : list compress_entry_in_t) : Z := Z.of_nat (length (filter (fun e => is_user e = true) es)).

(** The turn of the entry at [i]: the user entries up to it. *)
Definition turn (es : list compress_entry_in_t) (i : nat) : Z := users (take (S i) es).

(** The current request. *)
Definition last_user (es : list compress_entry_in_t) (i : nat) : Prop :=
  (exists e, es !! i = Some e /\ is_user e = true) /\
  forall j e, (i < j)%nat -> es !! j = Some e -> is_user e = false.

Definition protected (es : list compress_entry_in_t) (i : nat) (e : compress_entry_in_t) : Prop :=
  ci_type e = LEDGER_ENTRY_SYSTEM \/ ci_type e = LEDGER_ENTRY_TOOL_DEF \/ ci_type e = LEDGER_ENTRY_CACHE_HIT \/
  last_user es i.

Lemma users_cons e es : users (e :: es) = (if is_user e then 1 else 0) + users es.
Proof. unfold users. rewrite filter_cons. destruct (is_user e); [rewrite decide_True by done|rewrite decide_False by done]; cbn [length]; lia. Qed.

Lemma turns_loop_spec es : forall cur,
  (turns_loop cur es).2 = cur + users es /\ length (turns_loop cur es).1 = length es /\
  forall i e, es !! i = Some e -> (turns_loop cur es).1 !! i = Some (cur + turn es i).
Proof.
  induction es as [|e es IH]; intros cur; cbn [turns_loop].
  { split_and!; [cbn [snd]; change (users []) with 0; lia|done|done]. }
  change (ci_type e =? LEDGER_ENTRY_USER) with (is_user e).
  destruct (IH (if is_user e then cur + 1 else cur)) as (H2 & Hl & Hi).
  destruct (turns_loop _ es) as [l n]. cbn [fst snd] in *. split_and!.
  - rewrite users_cons, H2. destruct (is_user e); lia.
  - cbn. by rewrite Hl.
  - intros [|i] x Hx.
    + injection Hx as <-. unfold turn. cbn [take]. rewrite users_cons. change (users []) with 0.
      change ((?a :: l) !! O) with (Some a). apply (f_equal Some). change (users (take 0 es)) with 0. destruct (is_user e); lia.
    + change (es !! i = Some x) in Hx. change ((?a :: l) !! S i) with (l !! i). rewrite (Hi i x Hx). unfold turn. cbn [take]. rewrite users_cons. apply (f_equal Some). destruct (is_user e); lia.
Qed.

Lemma cur_user_cases es : forall i cur,
  cur_user_loop i es cur = cur /\ Forall (fun e => is_user e = false) es \/
  exists j, last_user es j /\ cur_user_loop i es cur = s32 (Z.of_nat (i + j)).
Proof.
  induction es as [|e es IH]; intros i cur; cbn [cur_user_loop]; [by left|].
  change (ci_type e =? LEDGER_ENTRY_USER) with (is_user e).
  destruct (IH (S i) (if is_user e then s32 (Z.of_nat i) else cur)) as [[-> Hn]|(j & [He Hj] & ->)].
  - destruct (is_user e) eqn:Eu; [right; exists O|left; by split; [|constructor]].
    rewrite Nat.add_0_r. split; [|done]. split; [by exists e|]. intros [|j] x Hlt Hx; [lia|].
    rewrite Forall_lookup in Hn. by eapply Hn.
  - right. exists (S j). rewrite Nat.add_succ_r. split; [|done]. split; [done|].
    intros [|k] x Hlt Hx; [lia|]. eapply (Hj k); [lia|done].
Qed.

Lemma last_user_unique es i j : last_user es i -> last_user es j -> i = j.
Proof.
  intros [(e & He & Hu) Hi] [(e' & He' & Hu') Hj]. destruct (Nat.lt_trichotomy i j) as [?|[?|?]]; [|done|].
  - by rewrite (Hi j e') in Hu'.
  - by rewrite (Hj i e) in Hu.
Qed.

Lemma protected_iff es i c : Z.of_nat (length es) < 2147483648 -> es !! i = Some (ent c) ->
  cmp_protected (cur_user_loop 0 es (-1)) i c = true <-> protected es i (ent c).
Proof.
  intros Hl Hi. pose proof (lookup_lt_Some _ _ _ Hi) as Hlt. unfold cmp_protected, protected.
  rewrite !orb_true_iff, !Z.eqb_eq. rewrite s32_small by lia.
  assert (Hu : Z.of_nat i = cur_user_loop 0 es (-1) <-> last_user es i); [|tauto].
  destruct (cur_user_cases es 0 (-1)) as [[-> Hn]|(j & Hj & ->)].
  - split; [lia|]. intros [(e & He & Hu) _]. rewrite Forall_lookup in Hn. specialize (Hn i e He). congruence.
  - assert (Hjl : (j < length es)%nat) by (destruct Hj as [(e & He & _) _]; by eapply lookup_lt_Some).
    rewrite s32_small by (cbn [Nat.add]; lia). cbn [Nat.add]. split.
    + intros E. assert (i = j) as -> by lia. done.
    + intros Hx. by rewrite (last_user_unique es i j Hx Hj).
Qed.

Lemma cells_of_spec count es i c :
  cells_of count es !! i = Some c ->
  es !! i = Some (ent c) /\ c_tokens c = entry_tokens count (ent c) /\ turn_of c = turn es i /\ fresh c.
Proof.
  unfold cells_of. intros Hc. apply lookup_zip_with_Some in Hc as (e & t & -> & He & Ht). cbn [ent c_tokens turn_of].
  destruct (turns_loop_spec es 0) as (_ & _ & Hs). rewrite (Hs i e He) in Ht. injection Ht as <-.
  split_and!; try done.
Qed.

Lemma cells_of_length count es : length (cells_of count es) = length es.
Proof.
  unfold cells_of. destruct (turns_loop_spec es 0) as (_ & Hl & _). rewrite length_zip_with, Hl. lia.
Qed.

(** ** Putting the context together *)

Definition assemble (pieces : list string) : string :=
  foldl (fun ctx p => (if strcmp_eq ctx "" then ctx else ctx +:+ newline) +:+ p) "" pieces.

Definition kept (cs : list cell) : list cell := filter (fun c => left_out c = false) cs.

Definition acted (cs : list cell) : list cell := filter (fun c => act c <> COMPRESS_ACTION_NONE) cs.

(** An item of the plan; the identifier is missing when it could not be
    copied. *)
Definition item_of (c : cell) (p : compress_plan_item_t) : Prop :=
  p_type p = ci_type (ent c) /\ p_action p = act c /\ (p_id p = Some (ci_id (ent c)) \/ p_id p = None).

Lemma build_loop_spec {W} `{MemOS W} cs : forall ctx plans (w : W) ctx' plans' w',
  build_loop cs ctx plans w = (ctx', plans', w') ->
  ctx' = foldl (fun ctx p => (if strcmp_eq ctx "" then ctx else ctx +:+ newline) +:+ p) ctx (map piece (kept cs)) /\
  exists ps, plans' = plans ++ ps /\ Forall2 item_of (acted cs) ps.
Proof.
  induction cs as [|c cs IH]; intros ctx plans w ctx' plans' w' E; cbn [build_loop] in E.
  { injection E as <- <- <-. split; [done|]. exists []. by rewrite app_nil_r. }
  destruct (if bool_decide (act c = COMPRESS_ACTION_NONE) then (plans, w) else _) as [plans1 w1] eqn:E1.
  apply IH in E as [-> (ps & -> & Hps)]. split.
  - unfold kept. rewrite filter_cons. destruct (left_out c); [rewrite decide_False by done|rewrite decide_True by done]; done.
  - unfold acted. rewrite filter_cons. case_bool_decide as Ha.
    + injection E1 as <- <-. rewrite decide_False by tauto. by exists ps.
    + rewrite decide_True by done. unfold AIRY_STRDUP in E1. destruct (os_alloc w) as [[] w2]; injection E1 as <- <-.
      all: eexists (_ :: ps); rewrite <- app_assoc; split; [done|]; constructor; [|done]; unfold item_of; cbn; auto.
Qed.

(** The identifiers are copied while memory lasts. *)
Lemma build_loop_ids {W} `{MemOS W} cs : (forall w : W, (os_alloc w).1 = true) -> forall ctx plans (w : W),
  exists ps, (build_loop cs ctx plans w).1.2 = plans ++ ps /\ map p_id ps = map (fun c => Some (ci_id (ent c))) (acted cs).
Proof.
  intros Hm. induction cs as [|c cs IH]; intros ctx plans w; cbn [build_loop]; [exists []; by rewrite app_nil_r|].
  unfold acted. rewrite filter_cons. case_bool_decide as Ha.
  - rewrite decide_False by tauto. apply IH.
  - rewrite decide_True by done. unfold AIRY_STRDUP. specialize (Hm w). destruct (os_alloc w) as [ok w2]. cbn in Hm. subst ok.
    edestruct IH as (ps & -> & Hps). eexists (_ :: ps). rewrite <- app_assoc. split; [done|]. cbn. by f_equal.
Qed.

(** ** Sizes *)

Lemma dec_aux_strlen f : forall n acc, strlen (dec_aux f n acc) <= Z.of_nat f + strlen acc.
Proof.
  induction f as [|f IH]; intros n acc; cbn [dec_aux]; [lia|]. unfold strlen in *.
  repeat case_match; try (eapply Z.le_trans; [apply IH|]); cbn [String.length]; lia.
Qed.

Lemma strlen_app a b : strlen (a +:+ b) = strlen a + strlen b.
Proof. unfold strlen. rewrite str_length_app. lia. Qed.

Lemma mark_length n : strlen (truncated_mark n) <= 47.
Proof.
  unfold truncated_mark. rewrite !strlen_app. pose proof (dec_aux_strlen 20 n "") as Hd. fold (print_u n) in Hd.
  change (strlen newline) with 1. change (strlen ELLIPSIS) with 3. change (strlen "[truncated ") with 11.
  change (strlen " tokens]") with 8. change (strlen "") with 0 in Hd. lia.
Qed.

Lemma picked_length sents : forall l, strlen (picked_text sents l) = picked_size sents l.
Proof.
  induction sents as [|t sents IH]; intros [|e l]; cbn [picked_text picked_size]; try done.
  rewrite strlen_app, IH. destruct e.2; [|done]. rewrite strlen_app. done.
Qed.

Lemma ctx_size_app cs : forall n, foldl (fun n c => if left_out c then n else n + (strlen (piece c) + 1)) n cs =
  n + foldr (fun c m => if left_out c then m else strlen (piece c) + 1 + m) 0 cs.
Proof. induction cs as [|c cs IH]; intros n; cbn [foldl foldr]; [lia|]. rewrite IH. destruct (left_out c); lia. Qed.

Lemma assemble_size cs : forall ctx,
  strlen (foldl (fun ctx p => (if strcmp_eq ctx "" then ctx else ctx +:+ newline) +:+ p) ctx (map piece (kept cs))) <=
  strlen ctx + foldr (fun c m => if left_out c then m else strlen (piece c) + 1 + m) 0 cs.
Proof.
  induction cs as [|c cs IH]; intros ctx; cbn [foldr]; [cbn; lia|]. unfold kept in *. rewrite filter_cons.
  destruct (left_out c); [rewrite decide_False by done; apply IH|]. rewrite decide_True by done. cbn [map foldl].
  eapply Z.le_trans; [apply IH|]. rewrite strlen_app. destruct (strcmp_eq ctx ""); [lia|]. rewrite strlen_app.
  change (strlen newline) with 1. lia.
Qed.

(** ** The plan *)

Section theorems.
  Context {W : Type} `{MemOS W} (airy_words_scan : string -> list string).

Lemma plan_run ledger sid es cfg w out w' :
  mem_compress_plan airy_words_scan ledger sid es cfg w = (Some (AIRY_SUCCESS, out), w') -> es <> [] ->
  exists k cs1 s1 v1 v2 cs s ctx plans v3,
    let cur := cur_user_loop 0 es (-1) in
    let count := tok_count k in
    cmp_l1 (cmp_cfg cfg) (users es) cur [] (cells_of count es) 0 v1 = (cs1, s1, v2) /\
    (cs = cs1 /\ s = s1 \/
     l2_enabled (cmp_cfg cfg) = true /\ mem_compress_gate_pass (Some (gate (cmp_cfg cfg))) = true /\
     exists wf v v', l2_loop cur count wf 0 cs1 s1 v = (cs, s, v')) /\
    build_loop cs "" [] v3 = (ctx, plans, w') /\
    out = mkOut (Some ctx) (cmp_saved count s ctx (used_tokens count es)) plans.
Proof.
  intros E Hne. unfold mem_compress_plan in E. destruct es as [|e0 es0]; [done|]. set (es := e0 :: es0) in *.
  change (length es =? 0)%nat with false in E. cbv iota in E.
  destruct (cmp_bufs ledger w) as [[k|] w1]; [|by injection E].
  destruct (os_alloc w1) as [[] w2]; cbn [negb] in E; [|by injection E].
  destruct (turns_loop_spec es 0) as (Ht & _). rewrite Ht in E. rewrite Z.add_0_l in E.
  destruct (cmp_l1 _ _ _ _ _ _ _) as [[cs1 s1] w3] eqn:E1.
  destruct (cmp_l2 _ _ _ _ _ _ _ _ _ _ _) as [[[cs s]|] w4] eqn:E2; [|done].
  unfold cmp_build in E. destruct (os_alloc w4) as [[] w5]; cbn [negb] in E; [|by injection E].
  destruct (build_loop cs "" [] w5) as [[ctx plans] w6] eqn:E3. injection E as <- <-.
  eexists k, cs1, s1, _, _, cs, s, ctx, plans, _. cbv zeta. split; [exact E1|]. split; [|by split].
  unfold cmp_l2 in E2. destruct (_ && _ && _) eqn:Ec; [|left; by injection E2 as <- <-].
  rewrite !andb_true_iff in Ec. destruct Ec as [[El Eg] _].
  destruct (wordfreq_all _ _ _) as [[wf|] w7]; [|done].
  destruct (l2_loop _ _ _ _ _ _ _) as [[cs2 s2] w8] eqn:E4. injection E2 as <- <- <-. right. split_and!; eauto.
Qed.

(** The verdict on an entry in the end. *)
Definition verdict (cfg : compress_config_t) (es : list compress_entry_in_t) (count : string -> Z) (cs : list cell)
      (i : nat) (c : cell) : Prop :=
    (protected es i (ent c) -> act c = COMPRESS_ACTION_NONE) /\
    (act c = COMPRESS_ACTION_DROP <->
     ~ protected es i (ent c) /\ l1_enabled cfg = true /\ old_turn cfg (users es) c) /\
    match act c with
    | COMPRESS_ACTION_NONE | COMPRESS_ACTION_DROP => repl c = None
    | COMPRESS_ACTION_TRUNCATE =>
        l1_enabled cfg = true /\ ci_type (ent c) = LEDGER_ENTRY_TOOL_RESULT /\ max_tool_tokens cfg < c_tokens c /\
        exists t, ci_text (ent c) = Some t /\ 32 < strlen t /\ repl c = Some (cut_text cfg t (c_tokens c))
    | COMPRESS_ACTION_DEDUP =>
        repl c = None /\ l1_enabled cfg = true /\ dedup cfg = true /\
        exists t j b, (j < i)%nat /\ cs !! j = Some b /\ ci_text (ent c) = Some t /\ ci_text (ent b) = Some t /\
                      act b <> COMPRESS_ACTION_DROP /\ (text_hash t <> 0 -> act b <> COMPRESS_ACTION_DEDUP)
    | COMPRESS_ACTION_EXTRACT =>
        l2_enabled cfg = true /\ mem_compress_gate_pass (Some (gate cfg)) = true /\
        (ci_type (ent c) = LEDGER_ENTRY_ASSISTANT \/ ci_type (ent c) = LEDGER_ENTRY_USER /\ turn_of c <> 1) /\
        exists t s, ci_text (ent c) = Some t /\ repl c = Some s /\ strlen s < strlen t /\ count s < c_tokens c
    end.

(** The cells after both levels, from the cells after the first. *)
Definition stage2 (cfg : compress_config_t) (cur : Z) (count : string -> Z) (cs1 cs : list cell) : Prop :=
    length cs = length cs1 /\
    forall i c1, cs1 !! i = Some c1 -> exists c, cs !! i = Some c /\
      (c = c1 \/ l2_enabled cfg = true /\ mem_compress_gate_pass (Some (gate cfg)) = true /\
                 same_entry c1 c /\ summed cur count i c1 c).

Lemma stage2_inv cfg cur count cs1 cs i c :
  stage2 cfg cur count cs1 cs -> cs !! i = Some c ->
  exists c1, cs1 !! i = Some c1 /\ same_entry c1 c /\
    (c = c1 \/ l2_enabled cfg = true /\ mem_compress_gate_pass (Some (gate cfg)) = true /\ summed cur count i c1 c).
Proof.
  intros [Hl Hs] Hc. destruct (lookup_lt_is_Some_2 cs1 i) as [c1 Hc1]; [rewrite <- Hl; by eapply lookup_lt_Some|].
  destruct (Hs i c1 Hc1) as (c' & Hc' & Hr). rewrite Hc' in Hc. injection Hc as ->. exists c1. split; [done|].
  destruct Hr as [->|(? & ? & ? & ?)]; [by split; [|left]|]. split; [done|]. right. by split_and!.
Qed.

(** A cell keeps its action or got a summary instead of none. *)
Lemma stage2_act cfg cur count cs1 cs j b1 :
  stage2 cfg cur count cs1 cs -> cs1 !! j = Some b1 -> 
  exists b, cs !! j = Some b /\ ent b = ent b1 /\
    (act b1 <> COMPRESS_ACTION_DROP -> act b <> COMPRESS_ACTION_DROP) /\
    (act b1 <> COMPRESS_ACTION_DEDUP -> act b <> COMPRESS_ACTION_DEDUP).
Proof.
  intros [_ Hs] Hb. destruct (Hs j b1 Hb) as (b & Hb' & Hr). exists b. split; [done|].
  destruct Hr as [->|(_ & _ & (He & _) & _ & Ha & _)]; [done|]. rewrite He, Ha. done.
Qed.

Lemma verdict_of cfg es count cs1 cs i c :
  let cur := cur_user_loop 0 es (-1) in
  Z.of_nat (length es) < 2147483648 -> all_ok cfg (users es) cur cs1 -> stage2 cfg cur count cs1 cs ->
  cs !! i = Some c -> es !! i = Some (ent c) -> verdict cfg es count cs i c.
Proof.
  intros cur Hlen Hok Hst Hc He. destruct (stage2_inv _ _ _ _ _ _ _ Hst Hc) as (c1 & Hc1 & Hs & Hr).
  destruct (Hok i c1 Hc1) as (_ & Hdrop & Hact).
  rewrite length_take_le in Hdrop, Hact by (pose proof (lookup_lt_Some _ _ _ Hc1); lia).
  rewrite <- (same_protected cur c1 c i Hs) in Hdrop, Hact.
  rewrite <- (same_old cfg (users es) c1 c Hs) in Hdrop.
  pose proof (protected_iff es i c Hlen He) as Hp. fold cur in Hp.
  assert (Hnp : cmp_protected cur i c = false <-> ~ protected es i (ent c)).
  { rewrite <- Hp. by destruct (cmp_protected cur i c). }
  rewrite Hnp in Hdrop. destruct Hr as [->|(Hl2 & Hg & Ha1 & Ha & Hi & Hty & Hx)].
  - split; [|split; [done|]].
    + intros Hpr. apply Hp in Hpr. destruct (act c1) eqn:Ea; [done| |done| |].
      * destruct Hact as [? _]. congruence.
      * assert (COMPRESS_ACTION_DROP = COMPRESS_ACTION_DROP) as Hx by done. apply Hdrop in Hx as [Hx _]. tauto.
      * destruct Hact as (_ & ? & _). congruence.
    + destruct (act c1) eqn:Ea; [done| |done|done|].
      * tauto.
      * destruct Hact as (? & _ & ? & ? & t & j & b1 & Ht & Hb1 & Htb & Hd & Hh). split_and!; try done.
        apply lookup_take_Some in Hb1 as [Hb1 Hji]. destruct (stage2_act _ _ _ _ _ _ _ Hst Hb1) as (b & Hb & Heb & Hd1 & Hd2).
        exists t, j, b. rewrite Heb. split_and!; try done; [by apply Hd1|]. intros Hne. apply Hd2. by apply Hh.
  - unfold verdict. rewrite Ha. rewrite Ha1 in Hdrop. split; [|split].
    + intros Hpr. exfalso. apply Hp in Hpr. unfold cmp_protected in Hpr. rewrite !orb_true_iff, !Z.eqb_eq in Hpr.
      destruct Hs as (Hse & _). rewrite Hse in *. unfold LEDGER_ENTRY_SYSTEM, LEDGER_ENTRY_TOOL_DEF, LEDGER_ENTRY_CACHE_HIT,
        LEDGER_ENTRY_ASSISTANT, LEDGER_ENTRY_USER in *. lia.
    + split; [done|]. intros Hx'. apply Hdrop in Hx'. done.
    + destruct Hs as (Hse & Htk & Hto). rewrite Hse, Htk, Hto. split_and!; try done.
Qed.

Lemma plan_cells ledger sid es cfg w out w' :
  mem_compress_plan airy_words_scan ledger sid es cfg w = (Some (AIRY_SUCCESS, out), w') -> es <> [] ->
  exists k cs s ctx plans v3,
    let count := tok_count k in
    (exists cs1, all_ok (cmp_cfg cfg) (users es) (cur_user_loop 0 es (-1)) cs1 /\
                 Forall2 same_entry (cells_of count es) cs1 /\
                 stage2 (cmp_cfg cfg) (cur_user_loop 0 es (-1)) count cs1 cs) /\
    (Forall (fun c => 0 <= c_tokens c) (cells_of count es) -> total (cells_of count es) <= UINT64_MAX ->
     (forall t, 0 <= count t) -> 0 <= max_tool_tokens (cmp_cfg cfg) -> 0 <= s <= spent cs) /\
    build_loop cs "" [] v3 = (ctx, plans, w') /\
    out = mkOut (Some ctx) (cmp_saved count s ctx (used_tokens count es)) plans.
Proof.
  intros E Hne. destruct (plan_run _ _ _ _ _ _ _ E Hne) as (k & cs1 & s1 & v1 & v2 & cs & s & ctx & plans & v3 & E1 & E2 & E3 & ->).
  exists k, cs, s, ctx, plans, v3. cbv zeta in *.
  assert (Hfr : Forall fresh (cells_of (tok_count k) es)).
  { apply Forall_lookup. intros i c Hc. by apply cells_of_spec in Hc as (_ & _ & _ & ?). }
  assert (Hnil : all_ok (cmp_cfg cfg) (users es) (cur_user_loop 0 es (-1)) []) by (intros i c Hc; done).
  destruct (cmp_l1_ok _ _ _ _ _ _ _ _ _ _ Hnil Hfr E1) as (Hok & cs' & -> & Hsame). cbn [app] in *.
  split; [exists cs'; split; [done|]; split; [done|]|split; [|done]].
  - destruct E2 as [[-> _]|(Hl2 & Hg & wf & v & v' & El)].
    + split; [done|]. intros i c1 Hc1. exists c1. by split; [|left].
    + destruct (l2_loop_ok _ _ _ _ _ _ _ _ _ _ El) as [Hl Hc]. split; [done|]. intros i c1 Hc1.
      destruct (Hc i c1 Hc1) as (c & Hcc & Hr). exists c. split; [done|].
      destruct Hr as [->|[? ?]]; [by left|]. right. by split_and!.
  - intros Hn Ht Hcount Hmax.
    pose proof (cmp_l1_saved _ _ _ Hmax _ _ _ _ _ _ _ Hnil Hfr Hn Ht (conj (Z.le_refl 0) (Z.le_refl 0)) E1) as Hs1.
    destruct E2 as [[-> ->]|(_ & _ & wf & v & v' & El)]; [done|].
    eapply (l2_loop_saved _ _ _ _ Hcount 0 s1 v cs s v' 0) in El; [done|by eapply same_nonneg| |done|done].
    by rewrite Z.add_0_l, (same_total _ _ Hsame).
Qed.
End theorems.

(** C33.  What a compression plan may do.  For every window of at least one
    entry and whichever allocations fail, a plan that succeeds comes from one verdict per entry: the plan lists exactly the entries
    with an action, in order, and the context consists of the others together
    with the replacements, in order.  A listed entry has its identifier, or none
    when the copy failed (never while memory lasts).  A system entry, a tool
    definition, a cache hit and the current request are never touched.  An entry
    is dropped exactly when the first level is enabled, it is another user
    request, a reply or a tool result, and its turn is neither the first nor
    among the last of a window with too many turns.  Only a tool result over the
    limit is cut, and keeps head and tail.  A removed duplicate has an earlier
    entry with the same text that is not dropped.  A summary appears only with
    the second level enabled and its gate passed, is shorter than the text and
    counts fewer tokens.  Other entries keep their text. *)
Theorem plan_sound {W} `{MemOS W} (airy_words_scan : string -> list string) (ledger : option mem_ledger)
    (sid : option string) (es : list compress_entry_in_t) (cfg : option compress_config_t) (w : W) out w' :
  mem_compress_plan airy_words_scan ledger sid es cfg w = (Some (AIRY_SUCCESS, out), w') ->
  es <> [] -> Z.of_nat (length es) < 2147483648 ->
  exists k cs,
    length cs = length es /\
    (forall i c, cs !! i = Some c ->
       es !! i = Some (ent c) /\ c_tokens c = entry_tokens (tok_count k) (ent c) /\ turn_of c = turn es i /\
       verdict (cmp_cfg cfg) es (tok_count k) cs i c) /\
    out_context out = Some (assemble (map piece (kept cs))) /\
    Forall2 item_of (acted cs) (out_actions out) /\
    ((forall w : W, (os_alloc w).1 = true) -> map p_id (out_actions out) = map (fun c => Some (ci_id (ent c))) (acted cs)).
Proof.
  intros E Hne Hlen.
  destruct (plan_cells _ _ _ _ _ _ _ _ E Hne) as (k & cs & s & ctx & plans & v3 & (cs1 & Hok & Hs1 & Hst) & _ & Eb & ->).
  exists k, cs. pose proof (Forall2_length _ _ _ Hs1) as Hl1. rewrite cells_of_length in Hl1. pose proof (proj1 Hst) as Hl2.
  split; [lia|]. destruct (build_loop_spec _ _ _ _ _ _ _ Eb) as (-> & ps & -> & Hps).
  split; [|split; [done|split; [done|]]; intros Hm; destruct (build_loop_ids cs Hm "" [] v3) as (ps' & E' & Hi); rewrite Eb in E'; cbn in E'; by subst ps'].
  intros i c Hc. destruct (stage2_inv _ _ _ _ _ _ _ Hst Hc) as (c1 & Hc1 & (Hse & Htk & Hto) & _).
  destruct (Forall2_lookup_r _ _ _ _ _ Hs1 Hc1) as (c0 & Hc0 & (He0 & Ht0 & Hn0)).
  apply cells_of_spec in Hc0 as (He & Htok & Htu & _).
  rewrite <- Hse in He0. rewrite <- He0 in *. split_and!; [done|congruence|congruence|]. by eapply verdict_of.
Qed.

Lemma used_sum count es : forall acc,
  (forall e, In e es -> 0 <= entry_tokens count e) -> 0 <= acc ->
  acc + zsum (map (entry_tokens count) es) <= UINT64_MAX ->
  foldl (fun s e => u64 (s + entry_tokens count e)) acc es = acc + zsum (map (entry_tokens count) es).
Proof.
  induction es as [|e es IH]; intros acc Hn Ha Hm; cbn [foldl map zsum] in *; [lia|].
  assert (0 <= entry_tokens count e) by (apply Hn; by left).
  assert (0 <= zsum (map (entry_tokens count) es)).
  { apply zsum_nonneg, Forall_forall. intros x Hx. apply list_elem_of_In, in_map_iff in Hx as (y & <- & Hy). apply Hn. by right. }
  rewrite u64_id by (unfold is_u64; lia). rewrite IH; [lia|intros; apply Hn; by right|lia|lia].
Qed.

Lemma total_cells count es : total (cells_of count es) = zsum (map (entry_tokens count) es).
Proof.
  unfold total. f_equal. apply list_eq. intros i. rewrite !list_lookup_fmap.
  destruct (cells_of count es !! i) as [c|] eqn:Ec.
  - apply cells_of_spec in Ec as (He & Ht & _). rewrite He. cbn. by rewrite Ht.
  - apply lookup_ge_None in Ec. rewrite cells_of_length in Ec. by rewrite lookup_ge_None_2.
Qed.

(** The tokens a plan claims to save lie between 0 and the tokens of the
    window: for every window whose tokens fit a machine word, every
    configuration, and a counter that is never negative; the sums never wrap. *)
Theorem saved_bounded {W} `{MemOS W} (airy_words_scan : string -> list string) (ledger : option mem_ledger)
    (sid : option string) (es : list compress_entry_in_t) (cfg : option compress_config_t) (w : W) out w' :
  mem_compress_plan airy_words_scan ledger sid es cfg w = (Some (AIRY_SUCCESS, out), w') ->
  es <> [] -> (forall k t, 0 <= tok_count k t) ->
  (forall k, zsum (map (entry_tokens (tok_count k)) es) <= UINT64_MAX) ->
  exists k, 0 <= out_saved out <= zsum (map (entry_tokens (tok_count k)) es).
Proof.
  intros E Hne Hcount Hsum.
  destruct (plan_cells _ _ _ _ _ _ _ _ E Hne) as (k & cs & s & ctx & plans & v3 & (cs1 & Hok & Hs1 & Hst) & Hsv & _ & ->).
  exists k. assert (Hnn : forall e, In e es -> 0 <= entry_tokens (tok_count k) e).
  { intros e _. unfold entry_tokens. destruct (0 <? ci_token_in e) eqn:Et; [lia|]. destruct (ci_text e); [apply Hcount|lia]. }
  assert (Hfn : Forall (fun c => 0 <= c_tokens c) (cells_of (tok_count k) es)).
  { apply Forall_lookup. intros i c Hc. apply cells_of_spec in Hc as (He & -> & _). eapply Hnn, list_elem_of_In, list_elem_of_lookup_2, He. }
  rewrite total_cells in Hsv. specialize (Hsv Hfn (Hsum k) (Hcount k)).
  assert (Hmax : 0 <= max_tool_tokens (cmp_cfg cfg)).
  { unfold cmp_cfg. destruct cfg as [c|]; [|done]. cbn [max_tool_tokens]. destruct (0 <? max_tool_tokens c) eqn:Em; [lia|done]. }
  specialize (Hsv Hmax). cbn [out_saved]. unfold cmp_saved, used_tokens.
  rewrite (used_sum (tok_count k) es 0 Hnn) by (specialize (Hsum k); lia). rewrite Z.add_0_l.
  assert (Htot : spent cs <= zsum (map (entry_tokens (tok_count k)) es)).
  { rewrite <- total_cells, <- (same_total _ _ Hs1).
    assert (Hc : Forall2 same_entry cs1 cs).
    { apply Forall2_same_length_lookup_2; [symmetry; apply Hst|]. intros i x y Hx Hy.
      destruct (stage2_inv _ _ _ _ _ _ _ Hst Hy) as (x' & Hx' & Hs & _). congruence. }
    rewrite <- (same_total _ _ Hc). apply spent_total. eapply same_nonneg; [exact Hc|]. by eapply same_nonneg. }
  specialize (Hcount k ctx). assert (0 <= zsum (map (entry_tokens (tok_count k)) es)) by lia.
  destruct (s =? 0); [lia|]. destruct (_ <? _) eqn:El; lia.
Qed.

(** The three buffers the compression computes sizes for are large
    enough: the mark of a cut text fits the 48 bytes reserved for it with its
    terminator, whatever the number it prints; a summary has exactly the length
    computed for it; and the context with its terminator fits its buffer. *)
Theorem buffers_fit :
  (forall text n, let cut := cut_size (strlen text) in cut + strlen (truncated_mark n) + cut + 1 <= cut + cut + 48) /\
  (forall sents l, strlen (picked_text sents l) = picked_size sents l) /\
  (forall cs, strlen (assemble (map piece (kept cs))) + 1 <= ctx_size cs).
Proof.
  split_and!.
  - intros text n cut. pose proof (mark_length n). lia.
  - apply picked_length.
  - intros cs. unfold ctx_size. rewrite ctx_size_app. pose proof (assemble_size cs "") as Ha.
    change (strlen "") with 0 in Ha. unfold assemble. lia.
Qed.

(** ** Concrete windows *)

#[local] Existing Instance toy_mem.

Definition no_scan (_ : string) : list string := [].

Definition long_text : string := "0123456789012345678901234567890123456789"%string.

(** Three turns where two are allowed, and a long tool result. *)
Definition window3 : list compress_entry_in_t :=
  [mkEnt "s" LEDGER_ENTRY_SYSTEM (Some "rules") 0; mkEnt "u1" LEDGER_ENTRY_USER (Some "one") 0;
   mkEnt "u2" LEDGER_ENTRY_USER (Some "two") 0; mkEnt "a2" LEDGER_ENTRY_ASSISTANT (Some "reply") 0;
   mkEnt "u3" LEDGER_ENTRY_USER (Some "three") 0; mkEnt "t3" LEDGER_ENTRY_TOOL_RESULT (Some long_text) 0;
   mkEnt "a3" LEDGER_ENTRY_ASSISTANT (Some "one") 0]%string.

Definition cfg2 : compress_config_t := mkCfg 4 2 true false true (mkGate false d_zero d_zero).

Lemma plan_sound_witness :
  exists out w', mem_compress_plan no_scan None None window3 (Some cfg2) 0 = (Some (AIRY_SUCCESS, out), w') /\
  map p_action (out_actions out) =
    [COMPRESS_ACTION_DROP; COMPRESS_ACTION_DROP; COMPRESS_ACTION_TRUNCATE; COMPRESS_ACTION_DEDUP] /\
  exists k cs,
    length cs = length window3 /\
    (forall i c, cs !! i = Some c ->
       window3 !! i = Some (ent c) /\ c_tokens c = entry_tokens (tok_count k) (ent c) /\ turn_of c = turn window3 i /\
       verdict (cmp_cfg (Some cfg2)) window3 (tok_count k) cs i c) /\
    out_context out = Some (assemble (map piece (kept cs))) /\
    Forall2 item_of (acted cs) (out_actions out) /\
    ((forall w, (os_alloc w).1 = true) -> map p_id (out_actions out) = map (fun c => Some (ci_id (ent c))) (acted cs)).
Proof.
  eexists _, _. split; [vm_compute; reflexivity|]. split; [reflexivity|].
  eapply (plan_sound no_scan None None window3 (Some cfg2) 0); [vm_compute; reflexivity|done|vm_compute; reflexivity].
Defined.

Lemma saved_bounded_witness :
  exists out w', mem_compress_plan no_scan None None window3 (Some cfg2) 0 = (Some (AIRY_SUCCESS, out), w') /\
  out_saved out = 11 /\ exists k, 0 <= out_saved out <= zsum (map (entry_tokens (tok_count k)) window3).
Proof.
  eexists _, _. split; [vm_compute; reflexivity|]. split; [vm_compute; reflexivity|].
  eapply (saved_bounded no_scan None None window3 (Some cfg2) 0); [vm_compute; reflexivity|done| |].
  - intros [] t. cbn. pose proof (Z.div_pos (strlen t) 4). unfold strlen in *. lia.
  - intros []. vm_compute. discriminate.
Defined.

(** *** Behaviours worth knowing *)

(** A separator of three bytes leaves its last two bytes in front of the next
    sentence. *)
Lemma separator_bytes_left :
  items (split_sentences ("A" +:+ CJK_STOP +:+ "B") 0).1 = ["A"%string; String "128" (String "130" "B")].
Proof. vm_compute. reflexivity. Qed.

(** A text that equals a tool result is removed as its duplicate although the
    tool result is cut: no copy of the text is left. *)
Lemma duplicate_of_cut_text :
  let es := [mkEnt "t" LEDGER_ENTRY_TOOL_RESULT (Some long_text) 0;
             mkEnt "a" LEDGER_ENTRY_ASSISTANT (Some long_text) 0]%string in
  exists out w', mem_compress_plan no_scan None None es (Some cfg2) 0 = (Some (AIRY_SUCCESS, out), w') /\
    map p_action (out_actions out) = [COMPRESS_ACTION_TRUNCATE; COMPRESS_ACTION_DEDUP] /\
    (exists ctx, out_context out = Some ctx /\ strstr long_text ctx = None).
Proof. eexists _, _. split; [vm_compute; reflexivity|]. split; [reflexivity|]. eexists. split; vm_compute; reflexivity. Qed.

(** The two arrays of the word table: one of them moved, the other could not. *)
Lemma word_table_freed {W} `{MemOS W} (wf : wordfreq_t) (word : string) (w w1 w2 : W) :
  freq_incr (freqs wf) word = None -> length (freqs wf) = w_cap wf -> w_cap wf <> O ->
  os_alloc w = (true, w1) -> os_alloc w1 = (false, w2) ->
  wordfreq_add wf word w = (None, w2).
Proof.
  intros Hf Hl Hc H1 H2. unfold wordfreq_add. rewrite Hf, Hl, Nat.eqb_refl, H1, H2. cbn [andb orb].
  by rewrite (proj2 (Nat.eqb_neq _ _) Hc).
Qed.

(** When the context counts at least as many tokens as the window, a saving is
    reported all the same. *)
Lemma saving_reported_anyway count saved ctx used :
  saved <> 0 -> used <= count ctx -> cmp_saved count saved ctx used = saved.
Proof.
  intros Hs Hu. unfold cmp_saved. rewrite (proj2 (Z.eqb_neq _ _) Hs), (proj2 (Z.ltb_ge _ _) Hu). done.
Qed.
