(* ===== verification/Vector.v ===== *)
(** * Vector

    The tokenizer of mem_d's vector search (mem_d/src/engine/vector.c, first
    part): English words in lower case without stop words, Chinese characters and
    the pairs of neighbours among them, counted in a vector without duplicates.

    A text is the string of its bytes, which may hold a NUL; a term is read back as
    a C string.  The frequency of a term is a [float] that is only ever increased
    by one: it is the integer, and stops at 2^24. *)

From S2P Require Import Prelude MemEnv.

Definition MEM_VEC_MAX_WORD_LEN : nat := 63.
Definition MEM_VEC_INIT_CAPACITY : Z := 8.
Definition SIZE_MAX : Z := UINT64_MAX.

(** ** Data *)

Record mem_vec_term_t := mkTerm {
  term : string;
  tf : Z
}.

Record mem_tfidf_vec_t := mkVec {
  terms : list mem_vec_term_t;                 (** [term_count] is its length *)
  term_capacity : Z;
  total_tokens : Z
}.

Definition sizeof_mem_vec_term_t : Z := 16.

Definition mem_stopwords : list string :=
  [ "a"; "am"; "an"; "and"; "are"; "as"; "at"; "be"; "been"; "being";
    "but"; "by"; "can"; "could"; "did"; "do"; "does"; "for"; "from"; "had";
    "has"; "have"; "he"; "her"; "his"; "i"; "if"; "in"; "into"; "is";
    "it"; "its"; "may"; "me"; "might"; "must"; "my"; "no"; "not"; "of";
    "on"; "or"; "our"; "she"; "should"; "so"; "than"; "that"; "the"; "their";
    "them"; "then"; "there"; "these"; "they"; "this"; "those"; "to"; "too"; "us";
    "was"; "we"; "were"; "what"; "when"; "where"; "which"; "who"; "will"; "with";
    "would"; "you"; "your"; "s"; "t"; "m"; "d"; "re"; "ll"; "ve" ]%string.

Definition mem_vec_is_stopword (t : string) : bool :=
  if strcmp_eq t "" then false else existsb (strcmp_eq t) mem_stopwords.

Definition byte (c : ascii) : Z := Z.of_nat (nat_of_ascii c).

Definition mem_utf8_seq_len (c : Z) : nat :=
  if c <? 128 then 1
  else if Z.land c 224 =? 192 then 2
  else if Z.land c 240 =? 224 then 3
  else if Z.land c 248 =? 240 then 4
  else 0.

(** The bits of the bytes [s] of a sequence; continuation bytes are not checked. *)
Definition mem_utf8_decode (s : string) (len : nat) : Z :=
  match len, s with
  | 2%nat, String a (String b _) => Z.lor (Z.shiftl (Z.land (byte a) 31) 6) (Z.land (byte b) 63)
  | 3%nat, String a (String b (String c _)) =>
      Z.lor (Z.lor (Z.shiftl (Z.land (byte a) 15) 12) (Z.shiftl (Z.land (byte b) 63) 6)) (Z.land (byte c) 63)
  | 4%nat, String a (String b (String c (String d _))) =>
      Z.lor (Z.lor (Z.lor (Z.shiftl (Z.land (byte a) 7) 18) (Z.shiftl (Z.land (byte b) 63) 12))
                   (Z.shiftl (Z.land (byte c) 63) 6)) (Z.land (byte d) 63)
  | _, _ => 0
  end.

Definition mem_utf8_is_cjk (cp : Z) : bool :=
  ((13312 <=? cp) && (cp <=? 19903)) || ((19968 <=? cp) && (cp <=? 40959)) ||
  ((63744 <=? cp) && (cp <=? 64255)) || ((131072 <=? cp) && (cp <=? 195103)).

(** What a C string function sees of a buffer. *)
Definition cstr (s : string) : string := (cut_at "000" s).1.

Definition is_alnum (c : ascii) : bool :=
  let c := byte c in
  ((97 <=? c) && (c <=? 122)) || ((65 <=? c) && (c <=? 90)) || ((48 <=? c) && (c <=? 57)).

(** ** The vector *)

Section vec.
  Context {W : Type} `{MemOS W}.

(** The doubling loop; 64 rounds pass [SIZE_MAX]. *)
Fixpoint grow (fuel : nat) (cap need : Z) : Z :=
    match fuel with
    | O => cap
    | S fuel' => if cap <? need then if SIZE_MAX / 2 <? cap then need else grow fuel' (cap * 2) need else cap
    end.

Definition mem_vec_ensure_capacity (v : mem_tfidf_vec_t) (need : Z) (w : W) : airy_rc * mem_tfidf_vec_t * W :=
    if need <=? term_capacity v then (AIRY_SUCCESS, v, w)
    else
      let cap := grow 64 (if term_capacity v =? 0 then MEM_VEC_INIT_CAPACITY else term_capacity v) need in
      if SIZE_MAX / sizeof_mem_vec_term_t <? cap then (AIRY_ERR_OUT_OF_MEMORY, v, w)
      else
        let '(ok, w) := os_alloc w in
        if ok : bool then (AIRY_SUCCESS, mkVec (terms v) cap (total_tokens v), w) else (AIRY_ERR_OUT_OF_MEMORY, v, w).

(** [tf += 1.0f] *)
Definition tf_incr (n : Z) : Z := if n <? 16777216 then n + 1 else n.

(** The loop over the terms: the vector with the term counted once more. *)
Fixpoint bump (l : list mem_vec_term_t) (t : string) : option (list mem_vec_term_t) :=
    match l with
    | [] => None
    | x :: l' => if strcmp_eq (term x) t then Some (mkTerm (term x) (tf_incr (tf x)) :: l') else cons x <$> bump l' t
    end.

(** [t] is the [tlen] bytes of the argument. *)
Definition mem_vec_upsert (v : mem_tfidf_vec_t) (t : string) (w : W) : airy_rc * mem_tfidf_vec_t * W :=
    match bump (terms v) t with
    | Some l => (AIRY_SUCCESS, mkVec l (term_capacity v) (total_tokens v), w)
    | None =>
        let '(rc, v, w) := mem_vec_ensure_capacity v (Z.of_nat (length (terms v)) + 1) w in
        if bool_decide (rc <> AIRY_SUCCESS) then (rc, v, w)
        else
          let '(ok, w) := os_alloc w in
          if ok : bool then (AIRY_SUCCESS, mkVec (terms v ++ [mkTerm (cstr t) 1]) (term_capacity v) (total_tokens v), w)
          else (AIRY_ERR_OUT_OF_MEMORY, v, w)
    end.

(** The variables of [mem_vec_build]: vector, word buffer, previous character,
    number of tokens. *)
Record build := mkBuild {
    out : mem_tfidf_vec_t;
    word : string;
    last_han : string;
    total : Z
  }.

(** [if (mem_vec_upsert(...) == AIRY_SUCCESS) total++] *)
Definition count_token (b : build) (t : string) (w : W) : build * W :=
    let '(rc, v, w) := mem_vec_upsert (out b) t w in
    (mkBuild v (word b) (last_han b) (if bool_decide (rc = AIRY_SUCCESS) then total b + 1 else total b), w).

Definition vec_word_flush (b : build) (w : W) : build * W :=
    if strcmp_eq (word b) "" then (b, w)
    else
      let '(b, w) := if mem_vec_is_stopword (word b) then (b, w) else count_token b (word b) w in
      (mkBuild (out b) "" (last_han b) (total b), w).

(** [buf] is the sequence of the character. *)
Definition vec_han_step (b : build) (buf : string) (w : W) : build * W :=
    let '(b, w) := count_token b buf w in
    let '(b, w) :=
      if strcmp_eq (cstr (last_han b)) "" then (b, w)
      else count_token b (cstr (last_han b) +:+ cstr buf) w in
    (mkBuild (out b) (word b) buf (total b), w).

Definition no_han (b : build) : build := mkBuild (out b) (word b) "" (total b).

(** The loop over the rest of the text; every round consumes a byte at least. *)
Fixpoint build_loop (fuel : nat) (text : string) (b : build) (w : W) : build * W :=
    match fuel, text with
    | S fuel', String c rest =>
        if is_alnum c
        then
          let b := if (String.length (word b) <? MEM_VEC_MAX_WORD_LEN)%nat
                   then mkBuild (out b) (word b +:+ String (tolower c) "") (last_han b) (total b) else b in
          build_loop fuel' rest b w
        else
          let '(b, w) := vec_word_flush b w in
          if byte c <? 128 then build_loop fuel' rest (no_han b) w
          else
            let slen := mem_utf8_seq_len (byte c) in
            if (slen <? 2)%nat || (String.length text <? slen)%nat then build_loop fuel' rest (no_han b) w
            else
              let '(b, w) :=
                if mem_utf8_is_cjk (mem_utf8_decode text slen)
                then vec_han_step b (String.substring 0 slen text) w
                else (no_han b, w) in
              build_loop fuel' (String.substring slen (String.length text - slen) text) b w
    | _, _ => (b, w)
    end.

Definition empty_vec : mem_tfidf_vec_t := mkVec [] 0 0.

(** [text] is [None] for NULL. *)
Definition mem_vec_build (text : option string) (w : W) : airy_rc * mem_tfidf_vec_t * W :=
    match text with
    | None | Some EmptyString => (AIRY_SUCCESS, empty_vec, w)
    | Some text =>
        let '(b, w) := build_loop (String.length text) text (mkBuild empty_vec "" "" 0) w in
        let '(b, w) := vec_word_flush b w in
        (AIRY_SUCCESS, mkVec (terms (out b)) (term_capacity (out b)) (total b), w)
    end.
End vec.

(** ** What the terms of a text are *)

Inductive item := IAlnum (c : ascii) | IHan (s : string) | ISep.

(** The text as letters and digits, Chinese characters, and anything else. *)
Fixpoint items (fuel : nat) (text : string) : list item :=
  match fuel, text with
  | S fuel', String c rest =>
      if is_alnum c then IAlnum c :: items fuel' rest
      else
        let slen := mem_utf8_seq_len (byte c) in
        if (byte c <? 128) || (slen <? 2)%nat || (String.length text <? slen)%nat then ISep :: items fuel' rest
        else (if mem_utf8_is_cjk (mem_utf8_decode text slen) then IHan (String.substring 0 slen text) else ISep)
             :: items fuel' (String.substring slen (String.length text - slen) text)
  | _, _ => []
  end.

(** The maximal runs of letters and digits in lower case ([cur]: the run so far),
    some of them empty. *)
Fixpoint runs (cur : string) (l : list item) : list string :=
  match l with
  | [] => [cur]
  | IAlnum c :: l' => runs (cur +:+ String (tolower c) "") l'
  | _ :: l' => cur :: runs "" l'
  end.

Definition is_word (s : string) : bool := negb (strcmp_eq s "") && negb (mem_vec_is_stopword s).

(** The words: the first 63 bytes of each run, when that is no stop word. *)
Definition words (l : list item) : list string :=
  filter (fun s => is_word s = true) (String.substring 0 MEM_VEC_MAX_WORD_LEN <$> runs "" l).

Definition han (i : item) : option string := match i with IHan s => Some s | _ => None end.

Definition is_alnum_item (i : item) : bool := match i with IAlnum _ => true | _ => false end.

(** Pairs of characters next to each other in a list of items. *)
Fixpoint pairs (last : option string) (l : list item) : list string :=
  match l with
  | [] => []
  | IHan s :: l' => match last with Some a => [a +:+ s] | None => [] end ++ pairs (Some s) l'
  | _ :: l' => pairs None l'
  end.

(** The terms of a text: words, characters, and pairs of characters between which
    there is nothing but letters and digits. *)
Definition tokens (l : list item) : list string :=
  words l ++ omap han l ++ pairs None (filter (fun i => is_alnum_item i = false) l).

(** How often a term is counted. *)
Definition occurrences (t : string) (l : list string) : Z := Z.of_nat (length (filter (fun x => x = t) l)).

Definition tf_of (v : mem_tfidf_vec_t) (t : string) : Z :=
  default 0 (tf <$> find (fun x => strcmp_eq (term x) t) (terms v)).

Definition nul_free (s : string) : Prop := has_char "000" s = false.

(** *** The order in which they are counted *)

Definition flush (cur : string) : list string := if is_word cur then [cur] else [].

Fixpoint emits (cur : string) (last : string) (l : list item) : list string :=
  match l with
  | [] => flush cur
  | IAlnum c :: l' =>
      emits (if (String.length cur <? MEM_VEC_MAX_WORD_LEN)%nat then cur +:+ String (tolower c) "" else cur) last l'
  | IHan s :: l' => flush cur ++ s :: (if strcmp_eq last "" then [] else [last +:+ s]) ++ emits "" s l'
  | ISep :: l' => flush cur ++ emits "" "" l'
  end.

Lemma substring_app n a b :
  String.substring 0 n (a +:+ b) = String.substring 0 n a +:+ String.substring 0 (n - String.length a) b.
Proof.
  revert n. induction a as [|c a IH]; intros n; [by destruct n|]. destruct n as [|n]; [by destruct b|].
  rewrite str_app_cons. cbn [String.substring String.length]. by rewrite str_app_cons, IH.
Qed.

Notation sub63 := (String.substring 0 MEM_VEC_MAX_WORD_LEN).
Notation keep_words := (filter (fun s : string => is_word s = true)).

Lemma keep_words_cons cur l : keep_words (sub63 <$> cur :: l) = flush (sub63 cur) ++ keep_words (sub63 <$> l).
Proof.
  rewrite fmap_cons. unfold flush. destruct (is_word _) eqn:E; [by rewrite filter_cons_True|rewrite filter_cons_False; [done|congruence]].
Qed.

Lemma sub63_snoc full c :
  sub63 (full +:+ String c "") =
  if (String.length (sub63 full) <? MEM_VEC_MAX_WORD_LEN)%nat then sub63 full +:+ String c "" else sub63 full.
Proof.
  rewrite substring_app, substring_size. destruct (Nat.ltb_spec (Nat.min MEM_VEC_MAX_WORD_LEN (String.length full)) MEM_VEC_MAX_WORD_LEN) as [Hl|Hl].
  - f_equal. destruct (MEM_VEC_MAX_WORD_LEN - String.length full)%nat as [|n] eqn:E; [lia|by destruct n].
  - replace (MEM_VEC_MAX_WORD_LEN - String.length full)%nat with 0%nat by lia. apply str_app_nil_r.
Qed.

Definition han_ok (i : item) : Prop := match i with IHan s => s <> "" /\ nul_free s | _ => True end.

(** The terms are counted in another order than the reference lists them. *)
Lemma emits_perm l : forall full last, Forall han_ok l ->
  emits (sub63 full) last l ≡ₚ
  keep_words (sub63 <$> runs full l) ++ omap han l
  ++ pairs (if strcmp_eq last "" then None else Some last) (filter (fun i => is_alnum_item i = false) l).
Proof.
  induction l as [|i l IH]; intros full last Hl; cbn [emits runs].
  - rewrite keep_words_cons. cbn. by rewrite !app_nil_r.
  - apply Forall_cons in Hl as [Hi Hl]. destruct i as [c|s|]; cbn [omap list_omap han].
    + rewrite <- sub63_snoc, IH by done. by rewrite filter_cons_False by done.
    + rewrite keep_words_cons, filter_cons_True by done. cbn [pairs].
      change "" with (sub63 "") at 2. rewrite IH by done. destruct Hi as [Hne _].
      unfold strcmp_eq at 2. rewrite (proj2 (String.eqb_neq s "") Hne). destruct (strcmp_eq last ""); solve_Permutation.
    + rewrite keep_words_cons, filter_cons_True by done. cbn [pairs].
      change (emits "" "" l) with (emits (sub63 "") "" l). rewrite IH by done. cbn [strcmp_eq String.eqb].
      by rewrite <- !app_assoc.
Qed.

(** ** Counting a term *)

Definition tf_in (l : list mem_vec_term_t) (t : string) : Z := default 0 (tf <$> find (fun x => strcmp_eq (term x) t) l).

Lemma tf_in_cons x l t : tf_in (x :: l) t = if decide (term x = t) then tf x else tf_in l t.
Proof.
  unfold tf_in, strcmp_eq. cbn [find]. destruct (String.eqb_spec (term x) t), (decide (term x = t)); done.
Qed.

Lemma tf_in_absent l t : t ∉ term <$> l -> tf_in l t = 0.
Proof.
  induction l as [|x l IH]; intros Hn; [done|]. rewrite fmap_cons, not_elem_of_cons in Hn. destruct Hn as [Hne Hn].
  rewrite tf_in_cons, decide_False by congruence. by apply IH.
Qed.

Lemma tf_in_snoc l t n x : t ∉ term <$> l -> tf_in (l ++ [mkTerm t n]) x = if decide (x = t) then n else tf_in l x.
Proof.
  induction l as [|y l IH]; intros Hn.
  - cbn [app]. rewrite tf_in_cons. cbn [term tf]. repeat case_decide; congruence.
  - rewrite fmap_cons, not_elem_of_cons in Hn. destruct Hn as [Hne Hn]. cbn [app]. rewrite !tf_in_cons, IH by done.
    repeat case_decide; congruence.
Qed.

Lemma bump_spec l t :
  match bump l t with
  | Some l' => term <$> l' = term <$> l /\ t ∈ term <$> l /\ forall x, tf_in l' x = if decide (x = t) then tf_incr (tf_in l t) else tf_in l x
  | None => t ∉ term <$> l
  end.
Proof.
  induction l as [|y l IH]; cbn [bump]; [set_solver|]. unfold strcmp_eq. destruct (String.eqb_spec (term y) t) as [E|E].
  - split_and!; [done|set_solver|]. intros x. rewrite !tf_in_cons. cbn [term tf]. repeat case_decide; congruence.
  - destruct (bump l t) as [l'|]; cbn [fmap option_fmap option_map].
    + destruct IH as (Hf & Hin & Ht). split_and!; [by rewrite !fmap_cons, Hf|set_solver|]. intros x. rewrite !tf_in_cons, Ht. repeat case_decide; congruence.
    + rewrite fmap_cons, not_elem_of_cons. done.
Qed.

(** The terms are as many as the array has room for. *)
Definition fits (v : mem_tfidf_vec_t) : Prop := Z.of_nat (length (terms v)) <= term_capacity v.

Lemma grow_spec need : forall fuel cap,
  1 <= cap -> need <= SIZE_MAX -> 2 ^ 64 <= cap * 2 ^ Z.of_nat fuel ->
  need <= grow fuel cap need /\ (need <= cap \/ grow fuel cap need < 2 * need).
Proof.
  induction fuel as [|fuel IH]; intros cap Hc Hn Hf; cbn [grow].
  - cbn in Hf. unfold SIZE_MAX, UINT64_MAX in Hn. lia.
  - destruct (Z.ltb_spec cap need); [|lia]. destruct (Z.ltb_spec (SIZE_MAX / 2) cap); [lia|].
    destruct (IH (cap * 2)) as [H1 H2]; [lia|done| |].
    + rewrite Nat2Z.inj_succ, Z.pow_succ_r in Hf by lia. lia.
    + split; [done|]. right. destruct H2 as [H2|H2]; [|done]. destruct fuel as [|fuel]; cbn [grow] in *; [lia|].
      case_match; bool_cases; lia.
Qed.

Section upsert.
  Context {W : Type} `{MemOS W}.

Lemma ensure_spec v need (w : W) :
  fits v -> need <= SIZE_MAX ->
  let '(rc, v', _) := mem_vec_ensure_capacity v need w in
  terms v' = terms v /\ fits v' /\ total_tokens v' = total_tokens v
  /\ (rc = AIRY_SUCCESS -> need <= term_capacity v')
  /\ ((os_alloc w).1 = true -> need <= 2 ^ 59 -> rc = AIRY_SUCCESS).
Proof.
  intros Hv Hn. unfold fits, mem_vec_ensure_capacity in *. destruct (Z.leb_spec need (term_capacity v)); [done|].
  set (c0 := if term_capacity v =? 0 then _ else _). assert (1 <= c0) by (unfold c0; case_match; bool_cases; unfold MEM_VEC_INIT_CAPACITY; lia).
  destruct (grow_spec need 64 c0) as [Hg1 Hg2]; [done|done|cbn; lia|].
  destruct (Z.ltb_spec (SIZE_MAX / sizeof_mem_vec_term_t) (grow 64 c0 need)) as [Hg|Hg].
  - split_and!; try done. intros _ Hs. exfalso. destruct Hg2 as [Hg2|Hg2]; [|change (2 ^ 59) with 576460752303423488 in Hs;
      change (SIZE_MAX / sizeof_mem_vec_term_t) with 1152921504606846975 in Hg; lia].
    unfold c0 in *. destruct (Z.eqb_spec (term_capacity v) 0); [|lia]. cbn [grow] in Hg. unfold MEM_VEC_INIT_CAPACITY in *.
    rewrite (proj2 (Z.ltb_ge 8 need)) in Hg by lia. by vm_compute in Hg.
  - destruct (os_alloc w) as [[] w']; cbn [terms term_capacity total_tokens fst]; split_and!; try done; lia.
Qed.

(** Counting a term: one more of it, or nothing happened. *)
Lemma upsert_spec v t (w : W) :
  fits v -> Z.of_nat (length (terms v)) < SIZE_MAX -> nul_free t ->
  let '(rc, v', _) := mem_vec_upsert v t w in
  fits v' /\ (NoDup (term <$> terms v) -> NoDup (term <$> terms v'))
  /\ (length (terms v') <= length (terms v) + 1)%nat
  /\ (rc = AIRY_SUCCESS -> forall x, x ∈ term <$> terms v' <-> x = t \/ x ∈ term <$> terms v)
  /\ (rc = AIRY_SUCCESS -> forall x, tf_in (terms v') x = if decide (x = t) then tf_incr (tf_in (terms v) t) else tf_in (terms v) x)
  /\ (rc <> AIRY_SUCCESS -> terms v' = terms v)
  /\ ((forall w, (os_alloc w).1 = true) -> Z.of_nat (length (terms v)) < 2 ^ 59 -> rc = AIRY_SUCCESS).
Proof.
  intros Hv Hlen Ht. unfold mem_vec_upsert. pose proof (bump_spec (terms v) t) as Hb. destruct (bump (terms v) t) as [l|].
  - destruct Hb as (Hf & Hin & Hx). unfold fits in *. cbn [terms term_capacity]. rewrite Hf.
    assert (length l = length (terms v)) by (apply (f_equal length) in Hf; by rewrite !length_fmap in Hf).
    split_and!; try done; first [lia|set_solver].
  - pose proof (ensure_spec v (Z.of_nat (length (terms v)) + 1) w Hv ltac:(lia)) as He.
    destruct (mem_vec_ensure_capacity _ _ w) as [[rc v1] w1]. destruct He as (Et & Hv1 & _ & Hroom & Hok).
    case_bool_decide as Hrc.
    { split_and!; rewrite ?Et; try done; [lia|]. intros Hm Hl. apply Hok; [done|lia]. }
    specialize (Hroom Hrc). destruct (os_alloc w1) as [[] w2] eqn:Ho; cbn [terms term_capacity].
    + unfold fits. cbn [terms term_capacity]. rewrite Et, length_app. cbn [length]. unfold cstr. rewrite (cut_at_none _ _ Ht). cbn [fst].
      split_and!; try done; [lia| | |].
      * intros Hnd. rewrite fmap_app. apply NoDup_app. split_and!; [done|set_solver|apply NoDup_singleton].
      * intros _ x. rewrite fmap_app. set_solver.
      * intros _ x. rewrite tf_in_snoc, (tf_in_absent _ t) by done. done.
    + split_and!; rewrite ?Et; try done; [lia|]. intros Hm. specialize (Hm w1). by rewrite Ho in Hm.
Qed.
End upsert.

(** ** The loop *)

Lemma nul_free_cons c s : nul_free (String c s) <-> c <> "000"%char /\ nul_free s.
Proof.
  unfold nul_free, has_char. cbn [str_forallb]. destruct (Ascii.eqb_spec c "000"); cbn [negb andb]; naive_solver.
Qed.

Lemma nul_free_app a b : nul_free a -> nul_free b -> nul_free (a +:+ b).
Proof. unfold nul_free. intros Ha Hb. by rewrite has_char_app, Ha, Hb. Qed.

Lemma nul_free_sub s : forall n m, nul_free s -> nul_free (String.substring n m s).
Proof.
  induction s as [|c s IH]; intros n m Hs; [by destruct n, m|]. apply nul_free_cons in Hs as [Hc Hs].
  destruct n as [|n]; [|by apply IH]. destruct m as [|m]; [done|]. cbn [String.substring]. apply nul_free_cons. split; [done|by apply IH].
Qed.

Lemma alnum_nul c : is_alnum c = true -> nul_free (String (tolower c) "").
Proof. destruct c as [[] [] [] [] [] [] [] []]; vm_compute; congruence. Qed.

Lemma nul_free_cstr s : nul_free s -> cstr s = s.
Proof. intros Hs. unfold cstr. by rewrite (cut_at_none _ _ Hs). Qed.

Lemma nul_free_nil : nul_free "".
Proof. done. Qed.

#[local] Hint Resolve nul_free_app nul_free_sub alnum_nul nul_free_nil : vec.

(** Every character is a sequence of at least two bytes. *)
Lemma items_ok : forall fuel text, nul_free text -> Forall han_ok (items fuel text).
Proof.
  induction fuel as [|fuel IH]; intros [|c text] Ht; cbn [items]; [constructor..|]. pose proof Ht as [_ Hr]%nul_free_cons.
  destruct (is_alnum c); [constructor; [done|auto]|]. case_match eqn:E; [constructor; [done|auto]|].
  constructor; [|auto with vec]. case_match; [|done]. split; [|auto with vec].
  apply orb_false_iff in E as [E _]. apply orb_false_iff in E as [_ E]. apply Nat.ltb_ge in E.
  destruct (mem_utf8_seq_len (byte c)); [lia|done].
Qed.

Section loop.
  Context {W : Type} `{MemOS W}.
  Context (P : mem_tfidf_vec_t -> Z -> list string -> Prop).
  Context (Hstep : forall v n toks t w, P v n toks -> nul_free t -> Z.of_nat (length toks) < 2 ^ 58 ->
    let '(rc, v', _) := mem_vec_upsert v t w in P v' (if bool_decide (rc = AIRY_SUCCESS) then n + 1 else n) (toks ++ [t])).

(** What is counted so far is [toks], and what the buffers hold can be a term. *)
Definition inv (b : build) (toks : list string) : Prop := P (out b) (total b) toks /\ nul_free (word b) /\ nul_free (last_han b).

Lemma token_inv b toks t w :
  inv b toks -> nul_free t -> Z.of_nat (length toks) < 2 ^ 58 ->
  let '(b', _) := count_token b t w in inv b' (toks ++ [t]) /\ word b' = word b /\ last_han b' = last_han b.
Proof.
  intros (HP & Hw & Hl) Ht Hn. unfold count_token. pose proof (Hstep (out b) (total b) toks t w HP Ht Hn) as Hs.
  destruct (mem_vec_upsert (out b) t w) as [[rc v] w']. unfold inv. cbn [out word last_han total]. auto.
Qed.

Lemma flush_inv b toks w :
  inv b toks -> Z.of_nat (length toks) < 2 ^ 58 ->
  let '(b', _) := vec_word_flush b w in inv b' (toks ++ flush (word b)) /\ word b' = "" /\ last_han b' = last_han b.
Proof.
  intros Hb Hn. unfold vec_word_flush, flush, is_word. destruct (strcmp_eq (word b) "") eqn:E; cbn [negb andb].
  { apply String.eqb_eq in E. by rewrite app_nil_r. }
  destruct (mem_vec_is_stopword (word b)); cbn [negb].
  { destruct Hb as (HP & _ & Hl). rewrite app_nil_r. unfold inv. cbn [out word last_han total]. auto with vec. }
  pose proof (token_inv b toks (word b) w Hb ltac:(apply Hb) Hn) as Ht. destruct (count_token b (word b) w) as [b1 w1].
  destruct Ht as ((HP & _ & Hl) & _ & El). unfold inv. cbn [out word last_han total]. split_and!; auto with vec.
Qed.

Lemma han_inv b toks s w :
  inv b toks -> nul_free s -> Z.of_nat (length toks) + 1 < 2 ^ 58 ->
  let '(b', _) := vec_han_step b s w in
  inv b' (toks ++ s :: (if strcmp_eq (last_han b) "" then [] else [last_han b +:+ s])) /\ word b' = word b /\ last_han b' = s.
Proof.
  intros Hb Hs Hn. unfold vec_han_step. pose proof (token_inv b toks s w Hb Hs ltac:(lia)) as Ht.
  destruct (count_token b s w) as [b1 w1]. destruct Ht as (Hb1 & Ew & El).
  assert (Hlast : nul_free (last_han b)) by apply Hb. rewrite El, !nul_free_cstr by done.
  destruct (strcmp_eq (last_han b) "").
  - destruct Hb1 as (HP & Hw & _). unfold inv. cbn [out word last_han total]. split_and!; auto with vec.
  - pose proof (token_inv b1 (toks ++ [s]) (last_han b +:+ s) w1 Hb1 ltac:(auto with vec)) as Ht2.
    destruct (count_token b1 _ w1) as [b2 w2]. destruct Ht2 as (Hb2 & Ew2 & El2); [rewrite length_app; cbn; lia|].
    rewrite <- app_assoc in Hb2. destruct Hb2 as (HP & Hw & _). unfold inv. cbn [out word last_han total]. rewrite <- Ew. auto.
Qed.

Lemma no_han_inv b toks : inv b toks -> inv (no_han b) toks.
Proof. intros (HP & Hw & _). done. Qed.

(** After the loop and the last word, everything the text holds was counted. *)
Lemma loop_inv : forall fuel text b toks w,
  inv b toks -> nul_free text -> Z.of_nat (length toks) + 3 * Z.of_nat fuel < 2 ^ 58 ->
  let '(b1, w1) := build_loop fuel text b w in
  let '(b2, _) := vec_word_flush b1 w1 in
  inv b2 (toks ++ emits (word b) (last_han b) (items fuel text)).
Proof.
  assert (Hend : forall b toks w, inv b toks -> Z.of_nat (length toks) < 2 ^ 58 ->
    let '(b2, _) := vec_word_flush b w in inv b2 (toks ++ emits (word b) (last_han b) [])).
  { intros b toks w Hb Hn. pose proof (flush_inv b toks w Hb Hn) as Hf. destruct (vec_word_flush b w). by destruct Hf. }
  induction fuel as [|fuel IH]; intros text b toks w Hb Ht Hn; [apply Hend; [done|lia]|].
  destruct text as [|c text]; [apply Hend; [done|lia]|]. cbn [build_loop items]. pose proof Ht as [_ Hr]%nul_free_cons.
  destruct (is_alnum c) eqn:Hc; cbn [emits].
  { set (b' := if (_ <? _)%nat then _ else _).
    replace (if (_ <? _)%nat then _ else _) with (word b') by (unfold b'; by case_match).
    replace (last_han b) with (last_han b') by (unfold b'; by case_match). apply IH; [|done|lia].
    destruct Hb as (HP & Hw & Hl). unfold b'. case_match; [|done]. unfold inv. cbn [out word last_han total]. auto with vec. }
  pose proof (flush_inv b toks w Hb ltac:(lia)) as Hf. destruct (vec_word_flush b w) as [b1 w1]. destruct Hf as (Hb1 & Ew & El).
  assert (Hlen : (length (flush (word b)) <= 1)%nat) by (unfold flush; case_match; cbn; lia).
  assert (Hsep : forall rest, nul_free rest ->
    let '(b2, w2) := build_loop fuel rest (no_han b1) w1 in
    let '(b3, _) := vec_word_flush b2 w2 in inv b3 (toks ++ flush (word b) ++ emits "" "" (items fuel rest))).
  { intros rest Hrest. rewrite app_assoc. replace (emits "" "") with (emits (word (no_han b1)) (last_han (no_han b1))) by (cbn; by rewrite Ew).
    apply IH; [by apply no_han_inv|done|]. rewrite length_app. lia. }
  destruct (byte c <? 128); cbn [orb emits]; [by apply Hsep|].
  set (slen := mem_utf8_seq_len (byte c)) in *. destruct ((slen <? 2)%nat || _); cbn [emits]; [by apply Hsep|].
  destruct (mem_utf8_is_cjk _); cbn [emits]; [|by apply Hsep; auto with vec].
  pose proof (han_inv b1 _ (String.substring 0 slen (String c text)) w1 Hb1 ltac:(auto with vec)) as Hh.
  destruct (vec_han_step b1 _ w1) as [b2 w2]. rewrite Ew, El in Hh. destruct Hh as (Hb2 & Ew2 & El2); [rewrite length_app; lia|].
  assert (Hroom : Z.of_nat (length ((toks ++ flush (word b)) ++ String.substring 0 slen (String c text) ::
      (if strcmp_eq (last_han b) "" then [] else [last_han b +:+ String.substring 0 slen (String c text)]))) + 3 * Z.of_nat fuel < 2 ^ 58).
  { rewrite !length_app. cbn [length]. case_match; cbn [length]; lia. }
  pose proof (IH (String.substring slen (String.length (String c text) - slen) (String c text)) b2 _ w2 Hb2
    ltac:(auto with vec) Hroom) as HI.
  rewrite Ew2, El2 in HI. by rewrite <- !app_assoc in HI.
Qed.
End loop.

(** ** Theorems *)

Lemma occurrences_snoc x l t : occurrences x (l ++ [t]) = occurrences x l + (if decide (x = t) then 1 else 0).
Proof.
  unfold occurrences. rewrite filter_app, length_app. case_decide as E.
  - subst. rewrite filter_cons_True by done. cbn. lia.
  - rewrite filter_cons_False by congruence. cbn. lia.
Qed.

Lemma occurrences_perm x l l' : l ≡ₚ l' -> occurrences x l = occurrences x l'.
Proof. intros Hl. unfold occurrences. by rewrite Hl. Qed.

Lemma emits_tokens text : nul_free text -> emits "" "" (items (String.length text) text) ≡ₚ tokens (items (String.length text) text).
Proof. intros Ht. apply (emits_perm _ "" ""), items_ok, Ht. Qed.

Section theorems.
  Context {W : Type} `{MemOS W}.

(** No term twice, none counted more often than it occurs; room for all of them. *)
Record sound (v : mem_tfidf_vec_t) (n : Z) (toks : list string) : Prop := mkSound {
    s_fits : fits v;
    s_nodup : NoDup (term <$> terms v);
    s_len : (length (terms v) <= length toks)%nat;
    s_tf : forall t, tf_in (terms v) t <= occurrences t toks;
    s_total : n <= Z.of_nat (length toks)
  }.

(** Every term is counted. *)
Record exact (v : mem_tfidf_vec_t) (n : Z) (toks : list string) : Prop := mkExact {
    x_sound : sound v n toks;
    x_in : forall t, t ∈ term <$> terms v <-> t ∈ toks;
    x_tf : forall t, tf_in (terms v) t = Z.min 16777216 (occurrences t toks);
    x_total : n = Z.of_nat (length toks)
  }.

Lemma sound_step v n toks t (w : W) :
  sound v n toks -> nul_free t -> Z.of_nat (length toks) < 2 ^ 58 ->
  let '(rc, v', _) := mem_vec_upsert v t w in sound v' (if bool_decide (rc = AIRY_SUCCESS) then n + 1 else n) (toks ++ [t]).
Proof.
  intros [Hf Hnd Hl Htf Hn] Ht Hlen. assert (Hmax : Z.of_nat (length (terms v)) < SIZE_MAX).
  { change (2 ^ 58) with 288230376151711744 in Hlen. unfold SIZE_MAX, UINT64_MAX. lia. }
  pose proof (upsert_spec v t w Hf Hmax Ht) as Hu. destruct (mem_vec_upsert v t w) as [[rc v'] w'].
  destruct Hu as (Hf' & Hnd' & Hl' & _ & Hs & Hs' & _). split; [done|auto|rewrite length_app; cbn; lia| |].
  - intros x. rewrite occurrences_snoc. specialize (Htf x). destruct (decide (rc = AIRY_SUCCESS)) as [Hrc|Hrc].
    + rewrite (Hs Hrc). repeat case_decide; [|lia|lia..]. subst. unfold tf_incr. case_match; lia.
    + rewrite (Hs' Hrc). case_decide; lia.
  - rewrite length_app. cbn [length]. case_bool_decide; lia.
Qed.

Lemma exact_step v n toks t (w : W) :
  (forall w : W, (os_alloc w).1 = true) -> exact v n toks -> nul_free t -> Z.of_nat (length toks) < 2 ^ 58 ->
  let '(rc, v', _) := mem_vec_upsert v t w in exact v' (if bool_decide (rc = AIRY_SUCCESS) then n + 1 else n) (toks ++ [t]).
Proof.
  intros Hm [Hsd Hin Htf Hn] Ht Hlen. pose proof (sound_step v n toks t w Hsd Ht Hlen) as Hsd'. destruct Hsd as [Hf Hnd Hl _ _].
  change (2 ^ 58) with 288230376151711744 in Hlen.
  assert (Hmax : Z.of_nat (length (terms v)) < SIZE_MAX) by (unfold SIZE_MAX, UINT64_MAX; lia).
  pose proof (upsert_spec v t w Hf Hmax Ht) as Hu. destruct (mem_vec_upsert v t w) as [[rc v'] w'].
  destruct Hu as (_ & _ & _ & Hin' & Hs & _ & Hok). assert (Hrc : rc = AIRY_SUCCESS).
  { apply Hok; [done|]. change (2 ^ 59) with 576460752303423488. lia. }
  rewrite bool_decide_true in * by done. split; [done| | |rewrite length_app; cbn; lia].
  - intros x. rewrite (Hin' Hrc), Hin. set_solver.
  - intros x. rewrite (Hs Hrc), !Htf, occurrences_snoc. unfold tf_incr. repeat case_decide; subst; [case_match; bool_cases|]; lia.
Qed.

Lemma build_inv (P : mem_tfidf_vec_t -> Z -> list string -> Prop) text (w : W) :
  (forall v n toks t w, P v n toks -> nul_free t -> Z.of_nat (length toks) < 2 ^ 58 ->
    let '(rc, v', _) := mem_vec_upsert v t w in P v' (if bool_decide (rc = AIRY_SUCCESS) then n + 1 else n) (toks ++ [t])) ->
  P empty_vec 0 [] -> nul_free text -> Z.of_nat (String.length text) < 2 ^ 56 ->
  let '(rc, v, _) := mem_vec_build (Some text) w in
  rc = AIRY_SUCCESS /\ exists v0, P v0 (total_tokens v) (emits "" "" (items (String.length text) text))
    /\ terms v = terms v0 /\ term_capacity v = term_capacity v0.
Proof.
  intros Hs H0 Ht Hl. destruct text as [|c text]; [by split; [|exists empty_vec]|].
  unfold mem_vec_build. pose proof (loop_inv P Hs (String.length (String c text)) (String c text) (mkBuild empty_vec "" "" 0) [] w) as Hi.
  destruct (build_loop _ _ _ w) as [b1 w1]. destruct (vec_word_flush b1 w1) as [b2 w2]. split; [done|]. exists (out b2).
  split_and!; [|done..]. apply Hi; [by split_and!|done|]. change (2 ^ 58) with (4 * 2 ^ 56). cbn [length Z.of_nat]. lia.
Qed.

Lemma sound_empty : sound empty_vec 0 [].
Proof. split; [done|apply NoDup_nil_2|done|done|done]. Qed.

(** Whatever the allocator answers, the vector of a text holds no term twice,
    has room in its array for the terms it holds, and counts no term more often
    than it occurs among the words, characters and pairs of the text. *)
Theorem vector_sound (text : string) (w : W) :
  nul_free text -> Z.of_nat (String.length text) < 2 ^ 56 ->
  let '(rc, v, _) := mem_vec_build (Some text) w in
  rc = AIRY_SUCCESS /\ Z.of_nat (length (terms v)) <= term_capacity v /\ NoDup (term <$> terms v)
  /\ forall t, tf_of v t <= occurrences t (tokens (items (String.length text) text)).
Proof.
  intros Ht Hl. pose proof (build_inv sound text w sound_step sound_empty Ht Hl) as Hb.
  destruct (mem_vec_build (Some text) w) as [[rc v] w']. destruct Hb as (Hrc & v0 & [Hf Hnd _ Htf _] & Et & Ec).
  unfold tf_of, fits in *. fold (tf_in (terms v)). rewrite Et, Ec. split_and!; [done..|]. intros t.
  rewrite <- (occurrences_perm t _ _ (emits_tokens text Ht)). apply Htf.
Qed.

(** C32.  When no allocation fails, the vector of a text without NUL bytes and
    shorter than 2^56 bytes holds exactly its terms, each once: the words (runs
    of letters and digits in lower case, the first 63 bytes, no stop words), the
    Chinese characters, and the pairs of Chinese characters between which there
    is nothing but letters and digits, so also pairs across a word, where the
    header file speaks of adjacent characters.  Each term has its number of
    occurrences (up to 2^24, where the [float] stops), and [total_tokens] is the
    number of all of them. *)
Theorem vector_exact (text : string) (w : W) :
  (forall w : W, (os_alloc w).1 = true) -> nul_free text -> Z.of_nat (String.length text) < 2 ^ 56 ->
  let '(rc, v, _) := mem_vec_build (Some text) w in
  let toks := tokens (items (String.length text) text) in
  rc = AIRY_SUCCESS /\ NoDup (term <$> terms v) /\ (forall t, t ∈ term <$> terms v <-> t ∈ toks)
  /\ (forall t, tf_of v t = Z.min 16777216 (occurrences t toks)) /\ total_tokens v = Z.of_nat (length toks).
Proof.
  intros Hm Ht Hl. assert (H0 : exact empty_vec 0 []) by (split; [apply sound_empty|set_solver|done|done]).
  pose proof (build_inv exact text w (fun v n toks t w => exact_step v n toks t w Hm) H0 Ht Hl) as Hb.
  destruct (mem_vec_build (Some text) w) as [[rc v] w']. destruct Hb as (Hrc & v0 & [Hsd Hin Htf Hn] & Et & Ec).
  pose proof (emits_tokens text Ht) as Hp. unfold tf_of. fold (tf_in (terms v)). rewrite Et.
  split_and!; [done|apply Hsd| | |].
  - intros t. by rewrite Hin, Hp.
  - intros t. change (tf_in (terms v0) t = Z.min 16777216 (occurrences t (tokens (items (String.length text) text)))).
    by rewrite Htf, (occurrences_perm t _ _ Hp).
  - by rewrite Hn, Hp.
Qed.
End theorems.

Lemma substring_shorter s : forall n m, (String.length (String.substring n m s) <= String.length s - n)%nat.
Proof.
  induction s as [|c s IH]; intros [|n] [|m]; cbn [String.substring String.length]; try lia; [specialize (IH 0%nat m)|specialize (IH n 0%nat)|specialize (IH n (S m))]; lia.
Qed.

(** More fuel than bytes changes nothing: the items are those of the whole text. *)
Lemma items_fuel : forall n text, (String.length text <= n)%nat -> items n text = items (String.length text) text.
Proof.
  assert (Hg : forall k n m text, (String.length text <= k)%nat -> (String.length text <= n)%nat -> (String.length text <= m)%nat ->
    items n text = items m text).
  { induction k as [|k IH]; intros n m [|c text] Hk Hn Hm; cbn [String.length] in *; try lia; [by destruct n, m..|].
    destruct n as [|n], m as [|m]; try lia. cbn [items].
    assert (Hsub : forall j, (String.length (String.substring (S j) (S (String.length text) - S j) (String c text)) <= String.length text)%nat).
    { intros j. pose proof (substring_shorter (String c text) (S j) (S (String.length text) - S j)). cbn [String.length] in *. lia. }
    destruct (is_alnum c); [f_equal; apply IH; lia|].
    destruct (mem_utf8_seq_len (byte c)) as [|j] eqn:Es; [rewrite orb_true_r; cbn [orb]; f_equal; apply IH; lia|].
    case_match; [f_equal; apply IH; lia|]. f_equal. cbn [String.length]. apply IH; specialize (Hsub j); lia. }
  intros n text Hn. by apply (Hg (String.length text)).
Qed.

(** ** Examples *)

Definition toy_world : MemOS unit := {|
  os_alloc w := (true, w); os_time_ns w := (0, w); os_rand w := (0, w); self_addr := 0; tok_counter := unit;
  tok_create _ w := (Some tt, w); tok_count _ _ := 0; AIRY_TOKEN_MODEL_NAME_DEFAULT := "m"
|}.

(** A byte string. *)
Definition bytes (l : list nat) : string := foldr (fun n s => String (ascii_of_nat n) s) "" l.

Definition zhong : string := bytes [228; 184; 173]%nat.
Definition guo : string := bytes [229; 155; 189]%nat.

Definition sample_text : string := "The cat, a CAT and " +:+ zhong +:+ guo +:+ "!".

Lemma vector_sound_witness :
  let '(rc, v, _) := mem_vec_build (W := unit) (H := toy_world) (Some sample_text) tt in
  rc = AIRY_SUCCESS /\ Z.of_nat (length (terms v)) <= term_capacity v /\ NoDup (term <$> terms v)
  /\ forall t, tf_of v t <= occurrences t (tokens (items (String.length sample_text) sample_text)).
Proof. apply (vector_sound (W := unit) (H := toy_world) sample_text tt); vm_compute; done. Defined.

Lemma vector_exact_witness :
  let '(rc, v, _) := mem_vec_build (W := unit) (H := toy_world) (Some sample_text) tt in
  let toks := tokens (items (String.length sample_text) sample_text) in
  rc = AIRY_SUCCESS /\ NoDup (term <$> terms v) /\ (forall t, t ∈ term <$> terms v <-> t ∈ toks)
  /\ (forall t, tf_of v t = Z.min 16777216 (occurrences t toks)) /\ total_tokens v = Z.of_nat (length toks).
Proof. apply (vector_exact (W := unit) (H := toy_world) sample_text tt); [done|vm_compute; done..]. Defined.

Example sample_terms :
  terms (mem_vec_build (W := unit) (H := toy_world) (Some sample_text) tt).1.2 =
  [mkTerm "cat" 2; mkTerm zhong 1; mkTerm guo 1; mkTerm (zhong +:+ guo) 1].
Proof. reflexivity. Qed.

(** Two characters with a word between them are counted as a pair of neighbours. *)
Lemma pair_across_word :
  terms (mem_vec_build (W := unit) (H := toy_world) (Some (zhong +:+ "x1" +:+ guo)) tt).1.2 =
  [mkTerm zhong 1; mkTerm "x1" 1; mkTerm guo 1; mkTerm (zhong +:+ guo) 1].
Proof. reflexivity. Qed.

(** A sequence that holds a NUL byte becomes a new term every time: the vector has
    a term twice. *)
Lemma duplicate_term :
  let s := bytes [228; 184; 0]%nat in
  terms (mem_vec_build (W := unit) (H := toy_world) (Some (s +:+ "," +:+ s)) tt).1.2 =
  [mkTerm (bytes [228; 184]%nat) 1; mkTerm (bytes [228; 184]%nat) 1].
Proof. reflexivity. Qed.
