(* ===== verification/DfTable.v ===== *)
(** * DfTable

    The document-frequency table of mem_d's vector search
    (mem_d/src/engine/vector.c, second part): a hash table with open addressing
    and tombstones that counts in how many documents each term occurs.

    The table is the array of entries of the source; a probe sequence is the list
    of its positions.  Copying a term asks the world for memory. *)

From stdpp Require Import gmap.
From S2P Require Import Prelude MemEnv Vector.

(** ** Data *)

Inductive df_state := MEM_DF_STATE_FREE | MEM_DF_STATE_USED | MEM_DF_STATE_TOMB.

Record mem_df_entry_t := mkEntry {
  key : string;
  df : Z;
  state : df_state
}.

Record mem_df_table_t := mkTable {
  entries : list mem_df_entry_t;
  capacity : nat;
  count : nat
}.

Definition free_entry : mem_df_entry_t := mkEntry "" 0 MEM_DF_STATE_FREE.

(** The hash on 64-bit words. *)
Fixpoint hash_from (h : Z) (s : string) : Z :=
  match s with
  | EmptyString => h
  | String c s' => hash_from (u64 (u64 (Z.shiftl h 5) + h + Z.of_nat (nat_of_ascii c))) s'
  end.

Definition mem_df_hash_fn (s : string) : Z := hash_from 5381 s.

Definition home (n : nat) (term : string) : nat := Z.to_nat (mem_df_hash_fn term mod Z.of_nat n).

(** [pos = (h + i) % capacity] for [i = 0 ..] *)
Definition probes (n : nat) (term : string) : list nat := (fun i => (home n term + i) mod n)%nat <$> seq 0 n.

Section table.
  Context {W : Type} `{MemOS W}.

(** The result and the table, [None] where it has no entries. *)
Definition mem_df_init (n : nat) (w : W) : airy_rc * option mem_df_table_t * W :=
    if (n =? 0)%nat then (AIRY_ERR_INVALID_PARAM, None, w)
    else let '(ok, w) := os_alloc w in
         if ok : bool then (AIRY_SUCCESS, Some (mkTable (replicate n free_entry) n 0), w) else (AIRY_ERR_OUT_OF_MEMORY, None, w).

(** The position of the term, up to the first free entry. *)
Fixpoint find_loop (es : list mem_df_entry_t) (term : string) (ps : list nat) : option nat :=
    match ps with
    | [] => None
    | p :: ps' =>
        match es !! p with
        | None => None
        | Some e =>
            match state e with
            | MEM_DF_STATE_FREE => None
            | MEM_DF_STATE_USED => if strcmp_eq (key e) term then Some p else find_loop es term ps'
            | MEM_DF_STATE_TOMB => find_loop es term ps'
            end
        end
    end.

Definition mem_df_get (t : mem_df_table_t) (term : string) : Z :=
    if (count t =? 0)%nat then 0
    else match find_loop (entries t) term (probes (capacity t) term) ≫= fun p => entries t !! p with
         | Some e => df e
         | None => 0
         end.

(** The loop of [mem_df_insert]: the term is there already, or the entry to use. *)
Fixpoint slot_loop (es : list mem_df_entry_t) (term : string) (ps : list nat) (tomb : option nat) : unit + option nat :=
    match ps with
    | [] => inr tomb
    | p :: ps' =>
        match es !! p with
        | None => inr tomb
        | Some e =>
            match state e with
            | MEM_DF_STATE_FREE => inr (Some (default p tomb))
            | MEM_DF_STATE_TOMB => slot_loop es term ps' (Some (default p tomb))
            | MEM_DF_STATE_USED => if strcmp_eq (key e) term then inl tt else slot_loop es term ps' tomb
            end
        end
    end.

Definition mem_df_insert (t : mem_df_table_t) (term : string) (w : W) : airy_rc * mem_df_table_t * W :=
    if (capacity t * 3 / 4 <=? count t)%nat then (AIRY_ERR_BUSY, t, w)
    else match slot_loop (entries t) term (probes (capacity t) term) None with
         | inl _ => (AIRY_ERR_ALREADY_EXISTS, t, w)
         | inr None => (AIRY_ERR_BUSY, t, w)
         | inr (Some p) =>
             let '(k, w) := AIRY_STRDUP term w in
             match k with
             | None => (AIRY_ERR_OUT_OF_MEMORY, t, w)
             | Some k => (AIRY_SUCCESS, mkTable (<[p := mkEntry k 1 MEM_DF_STATE_USED]> (entries t)) (capacity t) (count t + 1), w)
             end
         end.

Definition mem_df_add (t : mem_df_table_t) (term : string) (w : W) : airy_rc * mem_df_table_t * W :=
    match find_loop (entries t) term (probes (capacity t) term) with
    | Some p =>
        (AIRY_SUCCESS,
         mkTable (alter (fun e => mkEntry (key e) (u64 (df e + 1)) (state e)) p (entries t)) (capacity t) (count t), w)
    | None => mem_df_insert t term w
    end.

Definition tomb_entry : mem_df_entry_t := mkEntry "" 0 MEM_DF_STATE_TOMB.

Definition mem_df_remove (t : mem_df_table_t) (term : string) : mem_df_table_t :=
    if (count t =? 0)%nat then t
    else match find_loop (entries t) term (probes (capacity t) term) with
         | None => t
         | Some p =>
             match entries t !! p with
             | None => t
             | Some e =>
                 if 1 <? df e
                 then mkTable (<[p := mkEntry (key e) (df e - 1) (state e)]> (entries t)) (capacity t) (count t)
                 else mkTable (<[p := tomb_entry]> (entries t)) (capacity t) (count t - 1)
             end
         end.

(** The loops over the terms of a document. *)
Fixpoint add_terms (t : mem_df_table_t) (l : list string) (w : W) : mem_df_table_t * W :=
    match l with
    | [] => (t, w)
    | x :: l' =>
        let '(rc, t, w) := mem_df_add t x w in
        if bool_decide (rc = AIRY_ERR_OUT_OF_MEMORY) then (t, w) else add_terms t l' w
    end.

Definition mem_df_add_doc (t : mem_df_table_t) (doc : mem_tfidf_vec_t) (w : W) : mem_df_table_t * W :=
    add_terms t (term <$> terms doc) w.

Definition mem_df_remove_doc (t : mem_df_table_t) (doc : mem_tfidf_vec_t) : mem_df_table_t :=
    foldl mem_df_remove t (term <$> terms doc).
End table.

#[export] Instance df_state_eq : EqDecision df_state.
Proof. solve_decision. Defined.

(** ** What a table means *)

(** Position [p] counts the term [k]. *)
Definition used_at (es : list mem_df_entry_t) (p : nat) (k : string) (n : Z) : Prop :=
  es !! p = Some (mkEntry k n MEM_DF_STATE_USED).

(** Position [p] stands at place [i] of the probe sequence of [k]. *)
Definition place (n : nat) (k : string) (i p : nat) : Prop := (i < n)%nat /\ p = ((home n k + i) mod n)%nat.

Definition is_free (es : list mem_df_entry_t) (p : nat) : Prop := exists e, es !! p = Some e /\ state e = MEM_DF_STATE_FREE.

(** The table counts exactly the terms of [m], each once, with as many documents
    as [m] says; on the way from its home to a term there is no free entry. *)
Record df_ok (t : mem_df_table_t) (m : gmap string Z) : Prop := mkDf {
  df_len : length (entries t) = capacity t;
  df_pos : (0 < capacity t)%nat;
  df_count : count t = size m;
  df_map : forall k n, m !! k = Some n <-> exists p, used_at (entries t) p k n;
  df_one : forall p p' k n n', used_at (entries t) p k n -> used_at (entries t) p' k n' -> p = p';
  df_reach : forall p k n i, used_at (entries t) p k n -> place (capacity t) k i p ->
    forall j q, (j < i)%nat -> place (capacity t) k j q -> ~ is_free (entries t) q;
  df_ge : forall k n, m !! k = Some n -> 1 <= n
}.

(** ** Probing *)

Lemma home_lt n k : (0 < n)%nat -> (home n k < n)%nat.
Proof.
  intros Hn. unfold home. assert (0 <= mem_df_hash_fn k mod Z.of_nat n < Z.of_nat n) by (apply Z.mod_pos_bound; lia). lia.
Qed.

Lemma probes_lookup n k i p : probes n k !! i = Some p <-> place n k i p.
Proof.
  unfold probes, place. rewrite list_lookup_fmap_Some. split.
  - intros (x & -> & Hx). apply lookup_seq in Hx as [-> Hi]. by rewrite Nat.add_0_l.
  - intros [Hi ->]. exists i. split; [done|]. by rewrite lookup_seq_lt.
Qed.

Lemma place_lt n k i p : place n k i p -> (p < n)%nat.
Proof. intros [Hi ->]. apply Nat.mod_upper_bound. lia. Qed.

Lemma place_inj n k i j p : place n k i p -> place n k j p -> i = j.
Proof.
  intros [Hi ->] [Hj E]. pose proof (home_lt n k ltac:(lia)) as Hh.
  assert (Hm : forall x, (x < n)%nat -> ((home n k + x) mod n = if decide (home n k + x < n) then home n k + x else home n k + x - n)%nat).
  { intros x Hx. case_decide; [by rewrite Nat.mod_small|].
    replace (home n k + x)%nat with ((home n k + x - n) + 1 * n)%nat at 1 by lia.
    rewrite Nat.Div0.mod_add, Nat.mod_small; lia. }
  rewrite !Hm in E by done. repeat case_decide; lia.
Qed.

(** Every position is on the way of every term. *)
Lemma place_exists n k p : (p < n)%nat -> exists i, place n k i p.
Proof.
  intros Hp. pose proof (home_lt n k ltac:(lia)) as Hh. destruct (decide (home n k <= p)%nat).
  - exists (p - home n k)%nat. split; [lia|]. replace (home n k + (p - home n k))%nat with p by lia. by rewrite Nat.mod_small.
  - exists (p + n - home n k)%nat. split; [lia|]. replace (home n k + (p + n - home n k))%nat with (p + 1 * n)%nat by lia.
    by rewrite Nat.Div0.mod_add, Nat.mod_small.
Qed.

Lemma find_loop_sound es k ps p : find_loop es k ps = Some p -> exists n, used_at es p k n.
Proof.
  induction ps as [|q ps IH]; cbn [find_loop]; [done|]. destruct (es !! q) as [[k' n st]|] eqn:Hq; [|done]. cbn [state key].
  destruct st; [done| |done]. destruct (strcmp_eq k' k) eqn:E; [|done]. intros. simplify_eq. apply String.eqb_eq in E. subst.
  exists n. done.
Qed.

Lemma find_loop_complete es k n p : forall ps i,
  ps !! i = Some p -> used_at es p k n ->
  (forall j q, (j < i)%nat -> ps !! j = Some q -> (q < length es)%nat /\ ~ is_free es q) -> is_Some (find_loop es k ps).
Proof.
  induction ps as [|q ps IH]; intros i Hi Hu Hf; [done|]. cbn [find_loop]. destruct i as [|i].
  - cbn in Hi. simplify_eq. unfold used_at in Hu. rewrite Hu. cbn [state key]. by rewrite strcmp_eq_refl.
  - destruct (Hf 0%nat q ltac:(lia) eq_refl) as [Hlt Hnf]. destruct (lookup_lt_is_Some_2 es q Hlt) as [e He]. rewrite He.
    assert (Hrec : is_Some (find_loop es k ps)).
    { apply (IH i); [done|done|]. intros j x Hj Hx. apply (Hf (S j) x); [lia|done]. }
    destruct (state e) eqn:Es; [exfalso; apply Hnf; by exists e|by case_match|done].
Qed.

Section ok.
  Context (t : mem_df_table_t) (m : gmap string Z) (Hok : df_ok t m).
  Notation es := (entries t).
  Notation cap := (capacity t).

(** The search finds a term exactly when it is counted. *)
Lemma find_exact k :
  match find_loop es k (probes cap k) with
  | Some p => exists n, used_at es p k n /\ m !! k = Some n
  | None => m !! k = None
  end.
Proof.
  destruct Hok as [Hlen Hpos _ Hmap Hone Hreach _]. destruct (find_loop es k (probes cap k)) as [p|] eqn:Hf.
  - destruct (find_loop_sound _ _ _ _ Hf) as [n Hn]. exists n. split; [done|]. apply Hmap. by exists p.
  - destruct (m !! k) as [n|] eqn:Hk; [exfalso|done]. apply Hmap in Hk as [p Hp].
    assert (Hpl : (p < cap)%nat) by (rewrite <- Hlen; by eapply lookup_lt_Some). destruct (place_exists cap k p Hpl) as [i Hi].
    assert (Hs : is_Some (find_loop es k (probes cap k))); [|rewrite Hf in Hs; by destruct Hs].
    apply (find_loop_complete es k n p _ i); [by apply probes_lookup|done|].
    intros j q Hj Hq%probes_lookup. split; [rewrite Hlen; by eapply place_lt|by eapply Hreach].
Qed.

Lemma get_exact k : mem_df_get t k = default 0 (m !! k).
Proof.
  unfold mem_df_get. pose proof (find_exact k) as Hf. destruct (Nat.eqb_spec (count t) 0) as [E|E].
  - rewrite (df_count _ _ Hok) in E. apply map_size_empty_inv in E. by rewrite E, lookup_empty.
  - destruct (find_loop es k (probes cap k)) as [p|]; cbn [mbind option_bind]; [|by rewrite Hf].
    destruct Hf as (n & Hn & ->). unfold used_at in Hn. by rewrite Hn.
Qed.
End ok.

(** ** Updates *)

Lemma used_insert es p e q k n :
  (p < length es)%nat -> used_at (<[p := e]> es) q k n <-> (q = p /\ e = mkEntry k n MEM_DF_STATE_USED) \/ (q <> p /\ used_at es q k n).
Proof.
  intros Hp. unfold used_at. destruct (decide (q = p)) as [->|Hne].
  - rewrite list_lookup_insert_eq by done. naive_solver.
  - rewrite list_lookup_insert_ne by done. naive_solver.
Qed.

Lemma free_insert es p e q : state e <> MEM_DF_STATE_FREE -> is_free (<[p := e]> es) q -> is_free es q.
Proof.
  intros He (x & Hx & Hs). destruct (decide (q = p)) as [->|Hne].
  - destruct (decide (p < length es)%nat) as [Hp|Hp].
    + rewrite list_lookup_insert_eq in Hx by done. by simplify_eq.
    + exists x. by rewrite list_insert_ge in Hx by lia.
  - exists x. by rewrite list_lookup_insert_ne in Hx.
Qed.

(** An entry that is not in use becomes the first of a new term. *)
Lemma put_ok t m p k e i c :
  df_ok t m -> m !! k = None -> entries t !! p = Some e -> state e <> MEM_DF_STATE_USED ->
  place (capacity t) k i p -> (forall j q, (j < i)%nat -> place (capacity t) k j q -> ~ is_free (entries t) q) -> c = S (count t) ->
  df_ok (mkTable (<[p := mkEntry k 1 MEM_DF_STATE_USED]> (entries t)) (capacity t) c) (<[k := 1]> m).
Proof.
  intros [Hlen Hpos Hcnt Hmap Hone Hreach Hge] Hk He Hst Hpl Hway ->. pose proof (lookup_lt_Some _ _ _ He) as Hp.
  assert (Hnp : forall k' n', used_at (entries t) p k' n' -> False) by (intros k' n' Hu; unfold used_at in Hu; by simplify_eq).
  assert (Hnk : forall q n, ~ used_at (entries t) q k n) by (intros q n Hu; assert (m !! k = Some n) by (apply Hmap; by exists q); congruence).
  split; cbn [entries capacity count].
  - by rewrite length_insert.
  - done.
  - rewrite map_size_insert_None by done. lia.
  - intros k' n'. rewrite lookup_insert_Some. split.
    + intros [[<- <-]|[Hne Hm]]; [exists p; apply used_insert; [done|by left]|]. apply Hmap in Hm as [q Hq].
      exists q. apply used_insert; [done|]. right. split; [intros ->; by apply Hnp in Hq|done].
    + intros [q Hq]. apply used_insert in Hq as [[-> E]|[Hne Hq]]; [|..|done]; [left; by simplify_eq|].
      right. split; [intros <-; by apply Hnk in Hq|]. apply Hmap. by exists q.
  - intros q q' k' n' n'' Hq Hq'. apply used_insert in Hq, Hq'; [|done..].
    destruct Hq as [[-> E]|[Hne Hq]], Hq' as [[-> E']|[Hne' Hq']]; simplify_eq; [done|by apply Hnk in Hq'|by apply Hnk in Hq|by eapply Hone].
  - intros q k' n' i' Hq Hpl' j x Hj Hx Hf. apply free_insert in Hf; [|done]. apply used_insert in Hq as [[-> E]|[Hne Hq]]; [| |done].
    + simplify_eq. rewrite (place_inj _ _ _ _ _ Hpl' Hpl) in Hj. by eapply Hway.
    + by eapply Hreach.
  - intros k' n' [[<- <-]|[_ Hm]]%lookup_insert_Some; [lia|by eapply Hge].
Qed.

(** The count of a term changes. *)
Lemma set_ok t m p k n n' :
  df_ok t m -> used_at (entries t) p k n -> 1 <= n' ->
  df_ok (mkTable (<[p := mkEntry k n' MEM_DF_STATE_USED]> (entries t)) (capacity t) (count t)) (<[k := n']> m).
Proof.
  intros [Hlen Hpos Hcnt Hmap Hone Hreach Hge] Hu Hn'. pose proof (lookup_lt_Some _ _ _ Hu) as Hp.
  assert (Hmk : m !! k = Some n) by (apply Hmap; by exists p).
  split; cbn [entries capacity count].
  - by rewrite length_insert.
  - done.
  - rewrite map_size_insert_Some by (by rewrite Hmk). done.
  - intros k' x. rewrite lookup_insert_Some. split.
    + intros [[<- <-]|[Hne Hm]]; [exists p; apply used_insert; [done|by left]|]. apply Hmap in Hm as [q Hq].
      exists q. apply used_insert; [done|]. right. split; [|done]. intros ->. unfold used_at in *. congruence.
    + intros [q Hq]. apply used_insert in Hq as [[-> E]|[Hne Hq]]; [| |done]; [left; by simplify_eq|].
      right. split; [intros <-; by apply Hne, (Hone _ _ k x n)|]. apply Hmap. by exists q.
  - intros q q' k' x x' Hq Hq'. apply used_insert in Hq, Hq'; [|done..].
    destruct Hq as [[-> E]|[Hne Hq]], Hq' as [[-> E']|[Hne' Hq']]; simplify_eq; [done| | |by eapply Hone].
    + by apply (Hone _ _ k' n x').
    + by apply (Hone _ _ k' x n).
  - intros q k' x i' Hq Hpl' j y Hj Hy Hf. apply free_insert in Hf; [|done]. apply used_insert in Hq as [[-> E]|[Hne Hq]]; [| |done].
    + simplify_eq. by eapply Hreach.
    + by eapply Hreach.
  - intros k' x [[<- <-]|[_ Hm]]%lookup_insert_Some; [done|by eapply Hge].
Qed.

(** The last document with the term goes. *)
Lemma del_ok t m p k n c :
  df_ok t m -> used_at (entries t) p k n -> S c = count t ->
  df_ok (mkTable (<[p := tomb_entry]> (entries t)) (capacity t) c) (delete k m).
Proof.
  intros [Hlen Hpos Hcnt Hmap Hone Hreach Hge] Hu Hc. pose proof (lookup_lt_Some _ _ _ Hu) as Hp.
  assert (Hmk : m !! k = Some n) by (apply Hmap; by exists p).
  assert (Hup : forall q k' x, used_at (<[p := tomb_entry]> (entries t)) q k' x <-> q <> p /\ used_at (entries t) q k' x).
  { intros q k' x. rewrite used_insert by done. unfold tomb_entry. naive_solver. }
  split; cbn [entries capacity count].
  - by rewrite length_insert.
  - done.
  - rewrite map_size_delete_Some by (by rewrite Hmk). lia.
  - intros k' x. rewrite lookup_delete_Some. split.
    + intros [Hne Hm]. apply Hmap in Hm as [q Hq]. exists q. apply Hup. split; [|done]. intros ->. unfold used_at in *. congruence.
    + intros [q Hq]. apply Hup in Hq as [Hne Hq]. split; [intros <-; by apply Hne, (Hone _ _ k x n)|]. apply Hmap. by exists q.
  - intros q q' k' x x' [_ Hq]%Hup [_ Hq']%Hup. by eapply Hone.
  - intros q k' x i' [_ Hq]%Hup Hpl' j y Hj Hy Hf. apply free_insert in Hf; [|done]. by eapply Hreach.
  - intros k' x [_ Hm]%lookup_delete_Some. by eapply Hge.
Qed.

(** ** The search of an insertion *)

Definition all_used (es : list mem_df_entry_t) (ps : list nat) : Prop := forall p, p ∈ ps -> exists k n, used_at es p k n.

Lemma slot_loop_tomb es k x : forall ps, (forall p n, ~ used_at es p k n) -> slot_loop es k ps (Some x) = inr (Some x).
Proof.
  induction ps as [|q ps IH]; intros Hn; [done|]. cbn [slot_loop]. destruct (es !! q) as [[k' n st]|] eqn:Hq; [|done]. cbn [state key].
  destruct st; [done| |by apply IH]. destruct (strcmp_eq k' k) eqn:E; [|by apply IH].
  apply String.eqb_eq in E. subst. by apply Hn in Hq.
Qed.

(** A term that is not counted: the first entry on its way that is not in use, or
    every entry is in use. *)
Lemma slot_loop_spec es k : forall ps,
  (forall p n, ~ used_at es p k n) -> Forall (fun p => (p < length es)%nat) ps ->
  match slot_loop es k ps None with
  | inl _ => False
  | inr None => all_used es ps
  | inr (Some p) =>
      exists i e, ps !! i = Some p /\ es !! p = Some e /\ state e <> MEM_DF_STATE_USED
        /\ forall j q, (j < i)%nat -> ps !! j = Some q -> ~ is_free es q
  end.
Proof.
  induction ps as [|q ps IH]; intros Hn Hf; cbn [slot_loop]; [intros p Hp; set_solver|].
  apply Forall_cons in Hf as [Hq Hf]. destruct (lookup_lt_is_Some_2 es q Hq) as [[k' n st] He]. rewrite He. cbn [state key].
  destruct st.
  - exists 0%nat, (mkEntry k' n MEM_DF_STATE_FREE). repeat split; try done. intros; lia.
  - destruct (strcmp_eq k' k) eqn:E; [apply String.eqb_eq in E; subst; by apply Hn in He|]. specialize (IH Hn Hf).
    destruct (slot_loop es k ps None) as [|[p|]]; [done| |].
    + destruct IH as (i & e & Hi & Hp & Hs & Hw). exists (S i), e. repeat split; [done..|]. intros [|j] x Hj Hx.
      * cbn in Hx. simplify_eq. intros (e' & He' & Hs'). by simplify_eq.
      * apply (Hw j); [lia|done].
    + intros p [->|Hp]%elem_of_cons; [by exists k', n|by apply IH].
  - cbn [default]. rewrite slot_loop_tomb by done. exists 0%nat, (mkEntry k' n MEM_DF_STATE_TOMB). repeat split; try done. intros; lia.
Qed.

(** A table whose entries are all in use counts as many terms as it has entries. *)
Lemma full_size t m : df_ok t m -> all_used (entries t) (seq 0 (capacity t)) -> (capacity t <= size m)%nat.
Proof.
  intros Hok Hall. rewrite <- (length_seq (capacity t) 0). set (ps := seq 0 (capacity t)) in *.
  set (keys := (fun p => default "" (key <$> entries t !! p)) <$> ps).
  assert (Hkey : forall p, p ∈ ps -> exists n, used_at (entries t) p (default "" (key <$> entries t !! p)) n).
  { intros p Hp. destruct (Hall p Hp) as (k & n & Hu). exists n. unfold used_at in Hu |- *. by rewrite Hu. }
  assert (Hnd : NoDup keys).
  { apply NoDup_fmap_2_strong; [|apply NoDup_seq]. intros p p' Hp Hp' E.
    destruct (Hkey p Hp) as [n Hn], (Hkey p' Hp') as [n' Hn']. rewrite <- E in Hn'. by eapply (df_one _ _ Hok). }
  replace (length ps) with (length keys) by (unfold keys; by rewrite length_fmap).
  rewrite <- (size_list_to_set (C := gset string)) by done. rewrite <- size_dom. apply subseteq_size.
  intros k Hk. apply elem_of_list_to_set in Hk. apply list_elem_of_fmap in Hk as (p & -> & Hp).
  destruct (Hkey p Hp) as [n Hn]. apply elem_of_dom. exists n. apply (df_map _ _ Hok). by exists p.
Qed.

Lemma probes_all n k p : (p < n)%nat -> p ∈ probes n k.
Proof. intros Hp. destruct (place_exists n k p Hp) as [i Hi]. apply (list_elem_of_lookup_2 _ i). by apply probes_lookup. Qed.

Lemma probes_lt n k : Forall (fun p => (p < n)%nat) (probes n k).
Proof. apply Forall_lookup_2. intros i p Hi. apply probes_lookup in Hi. by eapply place_lt. Qed.

(** ** The operations on the map of counts *)

(** What adding a term does to the counts, when the answer of the allocator is [ok]. *)
Definition spec_add (cap : nat) (m : gmap string Z) (k : string) (ok : bool) : airy_rc * gmap string Z :=
  match m !! k with
  | Some n => (AIRY_SUCCESS, <[k := n + 1]> m)
  | None =>
      if (cap * 3 / 4 <=? size m)%nat then (AIRY_ERR_BUSY, m)
      else if ok then (AIRY_SUCCESS, <[k := 1]> m) else (AIRY_ERR_OUT_OF_MEMORY, m)
  end.

Definition spec_remove (m : gmap string Z) (k : string) : gmap string Z :=
  match m !! k with
  | Some n => if 1 <? n then <[k := n - 1]> m else delete k m
  | None => m
  end.

Section ops.
  Context {W : Type} `{MemOS W}.

Lemma insert_exact t m k w :
  df_ok t m -> m !! k = None ->
  let '(rc, t', _) := mem_df_insert t k w in
  exists ok, (forall w' : W, os_alloc w = (true, w') -> ok = true) /\ rc = (spec_add (capacity t) m k ok).1 /\
    df_ok t' (spec_add (capacity t) m k ok).2 /\ capacity t' = capacity t.
Proof.
  intros Hok Hk. unfold mem_df_insert, spec_add. rewrite Hk, (df_count _ _ Hok). destruct (capacity t * 3 / 4 <=? size m)%nat eqn:Hfull; [by exists true|].
  apply Nat.leb_gt in Hfull.
  assert (Hlt : (size m < capacity t)%nat).
  { eapply Nat.lt_le_trans; [exact Hfull|]. apply Nat.Div0.div_le_upper_bound. lia. }
  pose proof (slot_loop_spec (entries t) k (probes (capacity t) k)) as Hs. rewrite (df_len _ _ Hok) in Hs.
  assert (Hn : forall p n, ~ used_at (entries t) p k n).
  { intros p n Hu. assert (m !! k = Some n) by (apply (df_map _ _ Hok); by exists p). congruence. }
  specialize (Hs Hn (probes_lt _ _)). destruct (slot_loop _ _ _ _) as [|[p|]]; [done| |].
  - destruct Hs as (i & e & Hi & He & Hst & Hw). unfold AIRY_STRDUP. destruct (os_alloc w) as [[] w'].
    + exists true. split_and!; [done|done| |done]. cbn [snd].
      apply (put_ok t m p k e i); [done..|by apply probes_lookup| |rewrite (df_count _ _ Hok); lia].
      intros j q Hj Hq. apply (Hw j q Hj). by apply probes_lookup.
    + exists false. split_and!; [by intros|done..].
  - exfalso. assert (capacity t <= size m)%nat; [|lia]. apply full_size; [done|].
    intros p Hp. apply Hs, probes_all. apply elem_of_seq in Hp. lia.
Qed.

(** Adding a term is the operation on the counts. *)
Lemma add_exact t m k w :
  df_ok t m -> (forall n, m !! k = Some n -> n < UINT64_MAX) ->
  let '(rc, t', _) := mem_df_add t k w in
  exists ok, (forall w' : W, os_alloc w = (true, w') -> ok = true) /\ rc = (spec_add (capacity t) m k ok).1 /\
    df_ok t' (spec_add (capacity t) m k ok).2 /\ capacity t' = capacity t.
Proof.
  intros Hok Hmax. unfold mem_df_add. pose proof (find_exact t m Hok k) as Hf.
  destruct (find_loop _ _ _) as [p|]; [|by apply insert_exact]. destruct Hf as (n & Hu & Hk). exists true.
  unfold spec_add. rewrite Hk. pose proof (df_ge _ _ Hok _ _ Hk). specialize (Hmax n Hk).
  split_and!; [done|done| |done]. cbn [snd]. rewrite (alter_insert _ _ _ _ Hu).
  cbn [key df state]. rewrite u64_id by (unfold is_u64; lia). eapply set_ok; [done|done|lia].
Qed.

(** Removing one too. *)
Lemma remove_exact t m k :
  df_ok t m -> df_ok (mem_df_remove t k) (spec_remove m k) /\ capacity (mem_df_remove t k) = capacity t.
Proof.
  intros Hok. unfold mem_df_remove, spec_remove. pose proof (find_exact t m Hok k) as Hf.
  destruct (Nat.eqb_spec (count t) 0) as [E|E].
  - rewrite (df_count _ _ Hok) in E. apply map_size_empty_inv in E. subst. by rewrite lookup_empty.
  - destruct (find_loop _ _ _) as [p|]; [|by rewrite Hf]. destruct Hf as (n & Hu & Hk). rewrite Hk.
    pose proof Hu as Hu'. unfold used_at in Hu'. rewrite Hu'. cbn [key df state]. case_match; bool_cases; (split; [|done]).
    + eapply set_ok; [done|done|lia].
    + eapply del_ok; [done|done|lia].
Qed.
End ops.

(** ** Documents *)

(** The number of documents a term occurs in. *)
Definition doc_freq (docs : list (list string)) (k : string) : Z := Z.of_nat (length (filter (fun d => k ∈ d) docs)).

(** The different terms of the documents. *)
Definition vocabulary (docs : list (list string)) : gset string := ⋃ (list_to_set <$> docs).

(** The table counts the documents [docs]. *)
Definition counts (t : mem_df_table_t) (docs : list (list string)) : Prop :=
  exists m, df_ok t m /\ forall k, default 0 (m !! k) = doc_freq docs k.

Lemma doc_freq_cons d docs k : doc_freq (d :: docs) k = doc_freq docs k + (if decide (k ∈ d) then 1 else 0).
Proof. unfold doc_freq. rewrite filter_cons. case_decide; cbn [length]; lia. Qed.

Lemma doc_freq_le docs k : 0 <= doc_freq docs k <= Z.of_nat (length docs).
Proof. unfold doc_freq. pose proof (length_filter (fun d => k ∈ d) docs). lia. Qed.

Lemma doc_freq_in docs k : doc_freq docs k <> 0 <-> k ∈ vocabulary docs.
Proof.
  unfold vocabulary. induction docs as [|d docs IH]; [set_solver|]. rewrite doc_freq_cons, fmap_cons, union_list_cons.
  rewrite elem_of_union, elem_of_list_to_set, <- IH. pose proof (doc_freq_le docs k). case_decide; [|naive_solver lia].
  split; [by left|lia].
Qed.

Lemma counts_perm t docs docs' : docs ≡ₚ docs' -> counts t docs -> counts t docs'.
Proof. intros Hp (m & Hok & Hm). exists m. split; [done|]. intros k. rewrite Hm. unfold doc_freq. by rewrite Hp. Qed.

Lemma counts_nil t docs : counts t ([] :: docs) <-> counts t docs.
Proof.
  unfold counts. split; intros (m & Hok & Hm); exists m; (split; [done|]); intros k; specialize (Hm k);
    rewrite doc_freq_cons, decide_False in * by set_solver; lia.
Qed.

(** The counted terms are those of the documents. *)
Lemma counts_dom t m docs : df_ok t m -> (forall k, default 0 (m !! k) = doc_freq docs k) -> dom m = vocabulary docs.
Proof.
  intros Hok Hm. apply set_eq. intros k. rewrite elem_of_dom, <- doc_freq_in, <- Hm. split.
  - intros [n Hn]. rewrite Hn. pose proof (df_ge _ _ Hok _ _ Hn). cbn. lia.
  - destruct (m !! k); [done|]. cbn. lia.
Qed.

Lemma get_counts t docs k : counts t docs -> mem_df_get t k = doc_freq docs k.
Proof. intros (m & Hok & Hm). by rewrite (get_exact t m Hok), Hm. Qed.

Lemma counts_doc t d d' docs : (forall k, k ∈ d <-> k ∈ d') -> counts t (d :: docs) -> counts t (d' :: docs).
Proof.
  intros Hd (m & Hok & Hm). exists m. split; [done|]. intros k. rewrite Hm, !doc_freq_cons. specialize (Hd k).
  repeat case_decide; [done|tauto|tauto|done].
Qed.

Lemma vocabulary_doc d d' docs : (forall k, k ∈ d -> k ∈ d') -> vocabulary (d :: docs) ⊆ vocabulary (d' :: docs).
Proof. intros Hd. unfold vocabulary. rewrite !fmap_cons, !union_list_cons. intros k. rewrite !elem_of_union, !elem_of_list_to_set. naive_solver. Qed.

Section docs.
  Context {W : Type} `{MemOS W}.
  Context (Hmem : forall w : W, (os_alloc w).1 = true).

(** One more term of the document [d]. *)
Lemma add_counts t d docs k (w : W) :
  counts t (d :: docs) -> k ∉ d -> Z.of_nat (length docs) < UINT64_MAX ->
  (size (vocabulary ((k :: d) :: docs)) <= capacity t * 3 / 4)%nat ->
  let '(rc, t', _) := mem_df_add t k w in rc = AIRY_SUCCESS /\ counts t' ((k :: d) :: docs) /\ capacity t' = capacity t.
Proof.
  intros (m & Hok & Hm) Hk Hlen Hroom. pose proof (Hm k) as Hmk. rewrite doc_freq_cons, decide_False in Hmk by done.
  pose proof (doc_freq_le docs k) as Hle. pose proof (add_exact t m k w Hok) as Ha.
  destruct (mem_df_add t k w) as [[rc t'] w']. destruct Ha as (ok & Hal & Hrc & Hok' & Hcap).
  { intros n Hn. rewrite Hn in Hmk. cbn in Hmk. lia. }
  assert (Hal' : ok = true) by (specialize (Hmem w); destruct (os_alloc w) as [[] w1] eqn:E; [by eapply Hal|done]). subst ok.
  assert (Hnew : forall j x, default 0 (<[k := doc_freq docs k + 1]> m !! j) = x -> x = doc_freq ((k :: d) :: docs) j).
  { intros j x <-. rewrite doc_freq_cons. destruct (decide (j = k)) as [->|Hne].
    - rewrite lookup_insert_eq, decide_True by set_solver. done.
    - rewrite lookup_insert_ne, Hm, doc_freq_cons by done. repeat case_decide; set_solver. }
  unfold spec_add in Hrc, Hok'. destruct (m !! k) as [n|] eqn:Emk; cbn [default] in Hmk.
  - replace (doc_freq docs k) with n in Hnew by (cbn in Hmk; lia). split_and!; [done| |done]. exists (<[k := n + 1]> m). naive_solver.
  - assert (Hsz : size (vocabulary ((k :: d) :: docs)) = S (size m)).
    { assert (E : size (<[k := doc_freq docs k + 1]> m) = S (size m)) by by apply map_size_insert_None.
      rewrite <- E, <- size_dom. f_equal. symmetry.
      apply set_eq. intros j. rewrite <- doc_freq_in, <- (Hnew j _ eq_refl), elem_of_dom. split.
      - intros [x Hx]. rewrite Hx. cbn. apply lookup_insert_Some in Hx as [[_ <-]|[_ Hx]]; [lia|]. pose proof (df_ge _ _ Hok _ _ Hx). lia.
      - destruct (<[k := _]> m !! j); [done|cbn; lia]. }
    rewrite (proj2 (Nat.leb_gt _ _)) in Hrc, Hok' by lia. replace (doc_freq docs k) with 0 in Hnew by (cbn in Hmk; lia).
    split_and!; [done| |done]. exists (<[k := 1]> m). naive_solver.
Qed.

Lemma add_terms_counts docs : forall l t d (w : W),
  counts t (d :: docs) -> NoDup l -> (forall x, x ∈ l -> x ∉ d) -> Z.of_nat (length docs) < UINT64_MAX ->
  (size (vocabulary ((l ++ d) :: docs)) <= capacity t * 3 / 4)%nat ->
  let '(t', _) := add_terms t l w in counts t' ((l ++ d) :: docs) /\ capacity t' = capacity t.
Proof.
  induction l as [|x l IH]; intros t d w Hc Hnd Hdis Hlen Hroom; [done|]. apply NoDup_cons in Hnd as [Hx Hnd]. cbn [add_terms].
  pose proof (add_counts t d docs x w Hc (Hdis x ltac:(set_solver)) Hlen) as Ha. destruct (mem_df_add t x w) as [[rc t1] w1].
  destruct Ha as (-> & Hc1 & Hcap1).
  { etrans; [|exact Hroom]. apply subseteq_size, vocabulary_doc. set_solver. }
  rewrite bool_decide_false by done. specialize (IH t1 (x :: d) w1 Hc1 Hnd). destruct (add_terms t1 l w1) as [t2 w2].
  destruct IH as [Hc2 Hcap2]; [set_solver|done| |].
  - rewrite Hcap1. etrans; [|exact Hroom]. apply subseteq_size, vocabulary_doc. set_solver.
  - split; [|congruence]. eapply counts_doc; [|exact Hc2]. set_solver.
Qed.

End docs.

Lemma remove_counts t d docs k : counts t ((k :: d) :: docs) -> k ∉ d -> counts (mem_df_remove t k) (d :: docs).
Proof.
  intros (m & Hok & Hm) Hk. exists (spec_remove m k). split; [by apply remove_exact|]. intros j.
  specialize (Hm j) as Hj. specialize (Hm k). rewrite doc_freq_cons, decide_True in Hm by set_solver. pose proof (doc_freq_le docs k).
  rewrite doc_freq_cons in Hj |- *. unfold spec_remove. destruct (m !! k) as [n|] eqn:Ek; cbn in Hm; [|lia].
  destruct (decide (j = k)) as [->|Hne].
  - rewrite (decide_False (P := k ∈ d)) by done. destruct (Z.ltb_spec 1 n); rewrite ?lookup_insert_eq, ?lookup_delete_eq; cbn; lia.
  - assert (E : (if 1 <? n then <[k := n - 1]> m else delete k m) !! j = m !! j).
    { destruct (1 <? n); [by rewrite lookup_insert_ne|by rewrite lookup_delete_ne]. }
    rewrite E, Hj. repeat case_decide; set_solver.
Qed.

Lemma remove_terms_counts docs : forall l t, counts t (l :: docs) -> NoDup l -> counts (foldl mem_df_remove t l) docs.
Proof.
  induction l as [|x l IH]; intros t Hc Hnd; [by apply counts_nil|]. apply NoDup_cons in Hnd as [Hx Hnd]. cbn [foldl].
  apply IH; [by apply remove_counts|done].
Qed.

Lemma remove_terms_cap : forall l t m, df_ok t m -> capacity (foldl mem_df_remove t l) = capacity t.
Proof.
  induction l as [|x l IH]; intros t m Hok; [done|]. cbn [foldl]. destruct (remove_exact t m x Hok) as [Hok' <-]. by eapply IH.
Qed.

(** ** Histories of the table *)

Inductive df_op := AddDoc (d : mem_tfidf_vec_t) | RemoveDoc (d : mem_tfidf_vec_t).

Definition terms_of (d : mem_tfidf_vec_t) : list string := term <$> terms d.

Fixpoint remove_one (d : list string) (docs : list (list string)) : option (list (list string)) :=
  match docs with
  | [] => None
  | x :: docs' => if decide (x = d) then Some docs' else cons x <$> remove_one d docs'
  end.

Lemma remove_one_perm d : forall docs docs', remove_one d docs = Some docs' -> docs ≡ₚ d :: docs'.
Proof.
  induction docs as [|x docs IH]; intros docs' Hr; cbn [remove_one] in Hr; [done|]. case_decide; [by simplify_eq|].
  apply fmap_Some in Hr as (l & Hl & ->). rewrite (IH l Hl). apply Permutation_swap.
Qed.

(** The documents that are there after a history, for one in which each document
    has different terms, only documents that are there are removed, and the terms
    never fill more than three quarters of the table. *)
Fixpoint live (cap : nat) (ops : list df_op) (docs : list (list string)) : option (list (list string)) :=
  match ops with
  | [] => Some docs
  | AddDoc d :: ops' =>
      if bool_decide (NoDup (terms_of d)) && (size (vocabulary (terms_of d :: docs)) <=? cap * 3 / 4)%nat
      then live cap ops' (terms_of d :: docs) else None
  | RemoveDoc d :: ops' =>
      if bool_decide (NoDup (terms_of d)) then remove_one (terms_of d) docs ≫= live cap ops' else None
  end.

Section history.
  Context {W : Type} `{MemOS W}.

Fixpoint run (ops : list df_op) (t : mem_df_table_t) (w : W) : mem_df_table_t * W :=
    match ops with
    | [] => (t, w)
    | AddDoc d :: ops' => let '(t, w) := mem_df_add_doc t d w in run ops' t w
    | RemoveDoc d :: ops' => run ops' (mem_df_remove_doc t d) w
    end.

Lemma run_counts (Hmem : forall w : W, (os_alloc w).1 = true) cap : forall ops t docs w final,
  counts t docs -> capacity t = cap -> Z.of_nat (length docs) + Z.of_nat (length ops) <= UINT64_MAX ->
  live cap ops docs = Some final -> counts (run ops t w).1 final.
Proof.
  induction ops as [|[d|d] ops IH]; intros t docs w final Hc Hcap Hn Hl; cbn [live run length] in *; [by simplify_eq| |].
  - destruct (bool_decide_reflect (NoDup (terms_of d))) as [Hnd|]; cbn [andb] in Hl; [|done].
    destruct (Nat.leb_spec (size (vocabulary (terms_of d :: docs))) (cap * 3 / 4)) as [Hroom|]; [|done].
    apply counts_nil in Hc. pose proof (add_terms_counts Hmem docs (terms_of d) t [] w Hc Hnd ltac:(set_solver) ltac:(lia)) as Ha.
    unfold mem_df_add_doc. fold (terms_of d). destruct (add_terms t (terms_of d) w) as [t1 w1]. rewrite !app_nil_r in Ha.
    destruct Ha as [Hc1 Hcap1]; [by rewrite Hcap|]. apply (IH t1 (terms_of d :: docs)); [done|congruence|cbn [length]; lia|done].
  - destruct (bool_decide_reflect (NoDup (terms_of d))) as [Hnd|]; [|done].
    destruct (remove_one (terms_of d) docs) as [docs'|] eqn:Hr; [|done]. cbn [mbind option_bind] in Hl.
    apply remove_one_perm in Hr. assert (Hc' : counts t (terms_of d :: docs')) by by eapply counts_perm.
    apply (IH _ docs'); [by apply remove_terms_counts| |apply Permutation_length in Hr; cbn in Hr; lia|done].
    destruct Hc as (m & Hok & _). unfold mem_df_remove_doc. by rewrite (remove_terms_cap _ t m Hok).
Qed.

Lemma init_counts n (w : W) t : (mem_df_init n w).1.2 = Some t -> counts t [] /\ capacity t = n.
Proof.
  unfold mem_df_init. destruct (Nat.eqb_spec n 0); [done|]. destruct (os_alloc w) as [[] w']; [|done]. cbn. intros [= <-].
  assert (Hu : forall p k x, ~ used_at (replicate n free_entry) p k x).
  { intros p k x Hu. unfold used_at in Hu. apply lookup_replicate in Hu as [Hu _]. done. }
  split; [|done]. exists ∅. split; [|intros k; by rewrite lookup_empty]. split; cbn [entries capacity count]; [by rewrite length_replicate|lia|done|..].
  - intros k x. rewrite lookup_empty. split; [done|]. intros [p Hp]. by apply Hu in Hp.
  - intros p p' k x x' Hp. by apply Hu in Hp.
  - intros p k x i Hp. by apply Hu in Hp.
  - intros k x. by rewrite lookup_empty.
Qed.

(** After any history of additions and removals of documents (the documents
    that are there having at most three quarters as many terms as the table has
    entries, and memory being available), the table answers for every term the
    number of documents it occurs in: probing over tombstones loses no term and
    counts none twice. *)
Theorem df_counts (n : nat) (ops : list df_op) (w : W) (t : mem_df_table_t) (docs : list (list string)) (k : string) :
  (forall w : W, (os_alloc w).1 = true) -> (mem_df_init n w).1.2 = Some t ->
  live n ops [] = Some docs -> Z.of_nat (length ops) <= UINT64_MAX ->
  mem_df_get (run ops t w).1 k = doc_freq docs k.
Proof.
  intros Hmem Hi Hl Hn. destruct (init_counts n w t Hi) as [Hc Hcap].
  apply get_counts, (run_counts Hmem n ops t [] w docs); [done|done|cbn [length]; lia|done].
Qed.
End history.

(** ** Examples *)

Definition doc (l : list string) : mem_tfidf_vec_t := mkVec ((fun s => mkTerm s 1) <$> l) 8 (Z.of_nat (length l)).

Definition sample_ops : list df_op :=
  [AddDoc (doc ["a"; "e"]); AddDoc (doc ["e"; "i"]); RemoveDoc (doc ["a"; "e"]); AddDoc (doc ["i"; "q"])]%string.

Lemma df_counts_witness :
  mem_df_get (run (H := toy_world) sample_ops (mkTable (replicate 4 free_entry) 4 0) tt).1 "i" = 2.
Proof.
  rewrite (df_counts (W := unit) (H := toy_world) 4 sample_ops tt (mkTable (replicate 4 free_entry) 4 0) [["i"; "q"]; ["e"; "i"]]%string "i");
    [reflexivity|done|reflexivity|vm_compute; reflexivity|vm_compute; done].
Defined.

(** A full table skips a term of the second document, and takes it off the count
    when that document goes: the count of the third document is lost. *)
Lemma full_table_loses_count :
  let d0 := doc ["a"]%string in
  let d1 := doc ["b"; "c"; "z"]%string in
  let d2 := doc ["z"]%string in
  let ops := [AddDoc d0; AddDoc d1; RemoveDoc d0; AddDoc d2; RemoveDoc d1] in
  mem_df_get (run (H := toy_world) ops (mkTable (replicate 4 free_entry) 4 0) tt).1 "z" = 0
  /\ doc_freq [terms_of d2] "z" = 1.
Proof. by vm_compute. Qed.
