(* ===== verification/Sha256.v ===== *)
(** * Sha256

    The self-contained SHA-256 of the semantic cache (mem_d/src/engine/cache.c):
    block transform, streaming update, final padding and hexadecimal output.
    Words are 32-bit [Z], bytes 8-bit [Z]; the context's buffer is the list of
    the bytes buffered so far ([datalen] is its length). *)

From S2P Require Import Prelude.

Record sha256_ctx_t := mkSha {
  sha_state : list Z;
  sha_bitlen : Z;
  sha_data : list Z
}.

(** Laid out in rows of five, as in the source. *)
Definition SHA256_K : list Z :=
  concat
  [[0x428a2f98; 0x71374491; 0xb5c0fbcf; 0xe9b5dba5; 0x3956c25b];
   [0x59f111f1; 0x923f82a4; 0xab1c5ed5; 0xd807aa98; 0x12835b01];
   [0x243185be; 0x550c7dc3; 0x72be5d74; 0x80deb1fe; 0x9bdc06a7];
   [0xc19bf174; 0xe49b69c1; 0xefbe4786; 0x0fc19dc6; 0x240ca1cc];
   [0x2de92c6f; 0x4a7484aa; 0x5cb0a9dc; 0x76f988da; 0x983e5152];
   [0xa831c66d; 0xb00327c8; 0xbf597fc7; 0xc6e00bf3; 0xd5a79147];
   [0x06ca6351; 0x14292967; 0x27b70a85; 0x2e1b2138; 0x4d2c6dfc];
   [0x53380d13; 0x650a7354; 0x766a0abb; 0x81c2c92e; 0x92722c85];
   [0xa2bfe8a1; 0xa81a664b; 0xc24b8b70; 0xc76c51a3; 0xd192e819];
   [0xd6990624; 0xf40e3585; 0x106aa070; 0x19a4c116; 0x1e376c08];
   [0x2748774c; 0x34b0bcb5; 0x391c0cb3; 0x4ed8aa4a; 0x5b9cca4f];
   [0x682e6ff3; 0x748f82ee; 0x78a5636f; 0x84c87814; 0x8cc70208];
   [0x90befffa; 0xa4506ceb; 0xbef9a3f7; 0xc67178f2]].

Definition ROTR (x n : Z) : Z := Z.lor (Z.shiftr x n) (u32 (Z.shiftl x (32 - n))).

Definition not32 (x : Z) : Z := Z.lxor x 0xffffffff.

(** [a[i]] of an array within bounds. *)
Definition at_ (l : list Z) (i : nat) : Z := nth i l 0.

(** The first sixteen schedule words: big-endian words of the block. *)
Fixpoint be_words (n : nat) (d : list Z) : list Z :=
  match n with
  | O => []
  | S n' =>
      Z.lor (Z.lor (Z.lor (u32 (Z.shiftl (at_ d 0) 24)) (Z.shiftl (at_ d 1) 16))
                   (Z.shiftl (at_ d 2) 8)) (at_ d 3)
      :: be_words n' (drop 4 d)
  end.

(** One more schedule word, at index [i = length w >= 16]. *)
Definition sched_next (w : list Z) : list Z :=
  let i := length w in
  let w15 := at_ w (i - 15) in
  let w2 := at_ w (i - 2) in
  let s0 := Z.lxor (Z.lxor (ROTR w15 7) (ROTR w15 18)) (Z.shiftr w15 3) in
  let s1 := Z.lxor (Z.lxor (ROTR w2 17) (ROTR w2 19)) (Z.shiftr w2 10) in
  w ++ [u32 (at_ w (i - 16) + s0 + at_ w (i - 7) + s1)].

Definition schedule (data : list Z) : list Z := Nat.iter 48 sched_next (be_words 16 data).

(** The working variables [a] to [h]. *)
Definition sha_round (v : list Z) (kw : Z * Z) : list Z :=
  let '(k, w) := kw in
  match v with
  | [a; b; c; d; e; f; g; h] =>
      let S1 := Z.lxor (Z.lxor (ROTR e 6) (ROTR e 11)) (ROTR e 25) in
      let ch := Z.lxor (Z.land e f) (Z.land (not32 e) g) in
      let S0 := Z.lxor (Z.lxor (ROTR a 2) (ROTR a 13)) (ROTR a 22) in
      let maj := Z.lxor (Z.lxor (Z.land a b) (Z.land a c)) (Z.land b c) in
      let t2 := u32 (S0 + maj) in
      let t1 := u32 (h + S1 + ch + k + w) in
      [u32 (t1 + t2); a; b; c; u32 (d + t1); e; f; g]
  | _ => v
  end.

Definition sha256_transform (state data : list Z) : list Z :=
  let v := foldl sha_round state (zip SHA256_K (schedule data)) in
  zip_with (fun s x => u32 (s + x)) state v.

Definition sha256_iv : list Z :=
  [0x6a09e667; 0xbb67ae85; 0x3c6ef372; 0xa54ff53a; 0x510e527f; 0x9b05688c; 0x1f83d9ab; 0x5be0cd19].

Definition sha256_init : sha256_ctx_t := mkSha sha256_iv 0 [].

Definition update_byte (ctx : sha256_ctx_t) (b : Z) : sha256_ctx_t :=
  let data := sha_data ctx ++ [b] in
  if (length data =? 64)%nat
  then mkSha (sha256_transform (sha_state ctx) data) (u64 (sha_bitlen ctx + 512)) []
  else mkSha (sha_state ctx) (sha_bitlen ctx) data.

Definition sha256_update (ctx : sha256_ctx_t) (data : list Z) : sha256_ctx_t :=
  foldl update_byte ctx data.

(** [data[63 - i] = (uint8_t)(bitlen >> (i * 8))] for [i] from 0 to 7. *)
Definition be64 (n : Z) : list Z :=
  map (fun i => u8 (Z.shiftr n (i * 8))) [7; 6; 5; 4; 3; 2; 1; 0].

Definition digest_bytes (state : list Z) : list Z :=
  map (fun i => u8 (Z.shiftr (at_ state (Nat.div i 4)) (24 - (Z.of_nat i mod 4) * 8))) (seq 0 32).

Definition sha256_final (ctx : sha256_ctx_t) : list Z :=
  let bitlen := u64 (sha_bitlen ctx + Z.of_nat (length (sha_data ctx)) * 8) in
  let data := sha_data ctx ++ [0x80] in
  let '(state, data) :=
    if (56 <? length data)%nat
    then (sha256_transform (sha_state ctx) (data ++ replicate (64 - length data) 0), [])
    else (sha_state ctx, data) in
  let data := data ++ replicate (56 - length data) 0 ++ be64 bitlen in
  digest_bytes (sha256_transform state data).

Definition bytes_of (s : string) : list Z :=
  map (fun c => Z.of_nat (nat_of_ascii c)) (String.list_ascii_of_string s).

(** Two hexadecimal digits per byte. *)
Definition hex_byte (b : Z) (rest : string) : string :=
  String (hex_char (Z.shiftr b 4)) (String (hex_char (Z.land b 0x0f)) rest).

Definition sha256_hex (input : string) : string :=
  foldr hex_byte EmptyString (sha256_final (sha256_update sha256_init (bytes_of input))).

Example sha256_abc : sha256_hex "abc" =
  "ba7816bf8f01cfea414140de5dae2223b00361a396177a9cb410ff61f20015ad"%string.
Proof. vm_compute. reflexivity. Qed.

(** Two-block padding. *)
Example sha256_448 : sha256_hex "abcdbcdecdefdefgefghfghighijhijkijkljklmklmnlmnomnopnopq" =
  "248d6a61d20638b8e5c026930c3e6039a33ce45964ff2167f6ecedd419db06c1"%string.
Proof. vm_compute. reflexivity. Qed.

(** ** The standard's description (FIPS 180-4, sections 5.1.1, 5.2.1, 6.2)

    Pad the message with a one bit, zeros and the bit length to a multiple of
    64 bytes, cut it into 64-byte blocks, and fold the block transform over
    them. *)

(** The number of zero bytes: the least that makes the length a multiple of
    64. *)
Definition pad_zeros (n : nat) : nat := Z.to_nat ((55 - Z.of_nat n) mod 64).

Definition sha_pad (msg : list Z) : list Z :=
  msg ++ [0x80] ++ replicate (pad_zeros (length msg)) 0 ++ be64 (8 * Z.of_nat (length msg)).

Fixpoint chunks (fuel : nat) (l : list Z) : list (list Z) :=
  match fuel with
  | O => []
  | S f => match l with [] => [] | _ => take 64 l :: chunks f (drop 64 l) end
  end.

(** The length of the padded message is enough fuel. *)
Definition sha256_ref (msg : list Z) : list Z :=
  let p := sha_pad msg in
  digest_bytes (foldl sha256_transform sha256_iv (chunks (length p) p)).

Definition is_block (b : list Z) : Prop := length b = 64%nat.

Lemma chunks_blocks fuel bs :
  Forall is_block bs -> (length bs <= fuel)%nat -> chunks fuel (concat bs) = bs.
Proof.
  revert fuel. induction bs as [|b bs IH]; intros fuel HF Hl; [by destruct fuel|].
  destruct fuel as [|fuel]; cbn [length] in Hl; [lia|]. apply Forall_cons in HF as [Hb HF].
  unfold is_block in Hb. cbn [concat chunks].
  destruct (b ++ concat bs) eqn:E; [destruct b; done|]. rewrite <- E.
  rewrite take_app_length' by done. rewrite drop_app_length' by done. f_equal. apply IH; [done|lia].
Qed.

Lemma update_app ctx a b : sha256_update ctx (a ++ b) = sha256_update (sha256_update ctx a) b.
Proof. apply foldl_app. Qed.

Lemma update_short m st bl d :
  (length d + length m < 64)%nat ->
  sha256_update (mkSha st bl d) m = mkSha st bl (d ++ m).
Proof.
  revert d. induction m as [|x m IH]; intros d Hl; [by rewrite app_nil_r|].
  cbn [length] in Hl. unfold sha256_update. cbn [foldl].
  fold (sha256_update (update_byte (mkSha st bl d) x) m). unfold update_byte. cbn [sha_data sha_state sha_bitlen].
  rewrite length_app. cbn [length].
  destruct (Nat.eqb_spec (length d + 1) 64) as [E|_]; [lia|].
  rewrite IH by (rewrite length_app; cbn; lia). by rewrite <- app_assoc.
Qed.

(** One full block through the byte loop is one transform. *)
Lemma update_block b st bl :
  is_block b -> sha256_update (mkSha st bl []) b = mkSha (sha256_transform st b) (u64 (bl + 512)) [].
Proof.
  intros Hb. unfold is_block in Hb. destruct (exists_last (l := b)) as (b' & x & ->); [by destruct b|].
  rewrite length_app in Hb. cbn in Hb. rewrite update_app, update_short by (cbn; lia).
  unfold sha256_update. cbn [foldl]. unfold update_byte. cbn [sha_data sha_state sha_bitlen app].
  rewrite length_app. cbn [length]. destruct (Nat.eqb_spec (length b' + 1) 64) as [_|E]; [done|lia].
Qed.

Lemma u64_idemp_l a b : u64 (u64 a + b) = u64 (a + b).
Proof. unfold u64. by rewrite Zplus_mod_idemp_l. Qed.

Lemma update_blocks bs st bl :
  Forall is_block bs -> is_u64 bl ->
  sha256_update (mkSha st bl []) (concat bs) =
    mkSha (foldl sha256_transform st bs) (u64 (bl + 512 * Z.of_nat (length bs))) [].
Proof.
  intros HF. revert st bl. induction HF as [|b bs Hb HF IH]; intros st bl Hbl.
  - cbn. by rewrite Z.add_0_r, u64_id.
  - cbn [concat foldl length]. rewrite update_app, update_block by done.
    rewrite IH by apply u64_range. rewrite u64_idemp_l. f_equal. f_equal. lia.
Qed.

(** Any message is full blocks and a shorter rest. *)
Lemma split_blocks (m : list Z) :
  exists bs r, m = concat bs ++ r /\ Forall is_block bs /\ (length r < 64)%nat.
Proof.
  induction m as [m IH] using (induction_ltof1 _ (@length Z)). unfold ltof in IH.
  destruct (decide (length m < 64)%nat) as [Hs|Hs]; [exists [], m; by split_and!|].
  destruct (IH (drop 64 m)) as (bs & r & E & HF & Hr); [rewrite length_drop; lia|].
  exists (take 64 m :: bs), r. cbn [concat]. split_and!; [|constructor; [|done]|done].
  - rewrite <- app_assoc, <- E. by rewrite take_drop.
  - unfold is_block. rewrite length_take. lia.
Qed.

Lemma concat_length bs : Forall is_block bs -> length (concat bs) = (64 * length bs)%nat.
Proof. induction 1 as [|b bs Hb HF IH]; cbn; [done|]. unfold is_block in Hb. rewrite length_app. lia. Qed.

(** The blocks [sha256_final] processes for the rest [r] of a message. *)
Definition tail_blocks (r : list Z) (bitlen : Z) : list (list Z) :=
  if (56 <? length r + 1)%nat
  then [r ++ [0x80] ++ replicate (63 - length r) 0; replicate 56 0 ++ be64 bitlen]
  else [r ++ [0x80] ++ replicate (55 - length r) 0 ++ be64 bitlen].

Lemma final_tail st bl r :
  sha256_final (mkSha st bl r) =
    digest_bytes (foldl sha256_transform st (tail_blocks r (u64 (bl + Z.of_nat (length r) * 8)))).
Proof.
  unfold sha256_final, tail_blocks. cbn [sha_data sha_state sha_bitlen]. rewrite length_app. cbn [length].
  destruct (_ <? _)%nat.
  - replace (64 - (length r + 1))%nat with (63 - length r)%nat by lia.
    cbn [foldl length app]. by rewrite <- app_assoc.
  - cbn [foldl]. rewrite length_app. cbn [length].
    replace (56 - (length r + 1))%nat with (55 - length r)%nat by lia. by rewrite <- app_assoc.
Qed.

Lemma tail_blocks_ok r n :
  (length r < 64)%nat -> Forall is_block (tail_blocks r n) /\
  concat (tail_blocks r n) = r ++ [0x80] ++ replicate (pad_zeros (length r)) 0 ++ be64 n.
Proof.
  intros Hr. unfold tail_blocks, pad_zeros, is_block. destruct (Nat.ltb_spec 56 (length r + 1)).
  - split; [repeat constructor; unfold be64; rewrite ?length_app; cbn [length app map]; rewrite ?length_app, ?length_replicate; cbn [length]; lia|].
    cbn [concat]. rewrite app_nil_r, <- !app_assoc. do 2 f_equal.
    rewrite app_assoc, <- replicate_add. do 2 f_equal.
    replace ((55 - Z.of_nat (length r)) mod 64) with (119 - Z.of_nat (length r)); [lia|].
    Z.div_mod_to_equations. lia.
  - split; [repeat constructor; unfold be64; rewrite ?length_app; cbn [length app map]; rewrite ?length_app, ?length_replicate; cbn [length]; lia|].
    cbn [concat]. rewrite app_nil_r. do 4 f_equal.
    rewrite Z.mod_small by lia. lia.
Qed.

Lemma be64_u64 n : be64 (u64 n) = be64 n.
Proof.
  unfold be64. apply map_ext_in. intros i Hi. unfold u8, u64.
  rewrite !Z.shiftr_div_pow2 by (cbn in Hi; intuition lia).
  assert (exists j, i * 8 = j /\ (j = 56 \/ j = 48 \/ j = 40 \/ j = 32 \/ j = 24 \/ j = 16 \/ j = 8 \/ j = 0))
    as (j & -> & Hj) by (exists (i * 8); cbn in Hi; intuition lia).
  destruct Hj as [->|[->|[->|[->|[->|[->|[->| ->]]]]]]]; cbn [Z.pow Z.pow_pos Pos.iter Z.mul];
    Z.div_mod_to_equations; lia.
Qed.

Lemma pad_zeros_mod a r : pad_zeros (64 * a + r) = pad_zeros r.
Proof.
  unfold pad_zeros. f_equal. replace (55 - Z.of_nat (64 * a + r)) with (55 - Z.of_nat r + - Z.of_nat a * 64) by lia.
  apply Z.mod_add. lia.
Qed.

(** The streaming implementation computes the standard's function on
    every message: byte-wise buffering, the two padding cases and the running
    bit counter amount to padding the whole message, cutting it into 64-byte
    blocks and folding the transform. *)
Theorem sha256_stream_correct msg :
  sha256_final (sha256_update sha256_init msg) = sha256_ref msg.
Proof.
  destruct (split_blocks msg) as (bs & r & -> & HF & Hr).
  unfold sha256_init. rewrite update_app, update_blocks by done. rewrite update_short by (cbn; lia).
  cbn [app]. rewrite final_tail. set (n := u64 (_ + _)).
  destruct (tail_blocks_ok r n Hr) as [HT Hc]. unfold sha256_ref. f_equal.
  rewrite <- foldl_app. f_equal. symmetry.
  assert (E : sha_pad (concat bs ++ r) = concat (bs ++ tail_blocks r n)).
  { unfold sha_pad. rewrite concat_app, Hc, <- app_assoc. do 3 f_equal.
    rewrite length_app, concat_length, pad_zeros_mod by done. f_equal.
    rewrite <- be64_u64. subst n. f_equal. rewrite u64_idemp_l. f_equal. lia. }
  rewrite E. assert (HA : Forall is_block (bs ++ tail_blocks r n)) by (apply Forall_app; done).
  apply chunks_blocks; [done|]. rewrite (concat_length _ HA). lia.
Qed.

(** The hexadecimal digest has 64 characters, the size of the key buffer. *)
Lemma sha256_hex_length s : String.length (sha256_hex s) = 64%nat.
Proof.
  unfold sha256_hex. destruct (sha256_update sha256_init (bytes_of s)) as [st bl d].
  rewrite final_tail. unfold digest_bytes. set (f := fun i => _). cbn [seq map foldr]. reflexivity.
Qed.
