(* ===== verification/MemCache.v ===== *)
(** * MemCache

    The semantic cache of mem_d (mem_d/src/engine/cache.c): a chained hash
    table of 512 buckets keyed by the SHA-256 of "text|model_id", with a TTL,
    an exact layer, a similarity layer, least-used eviction under an entry and
    a byte cap, and the admission filter.  A chain is a list; a pointer to an
    entry is its bucket and its position in the chain. *)

From S2P Require Import Prelude Doubles MemEnv Sha256.

(** ** Data *)

Definition CACHE_HASH_BUCKETS : Z := 512.
Definition DEFAULT_MAX_ENTRIES : Z := 4096.
Definition DEFAULT_MAX_BYTES : Z := 64 * 1024 * 1024.
Definition DEFAULT_TTL_MS : Z := 3600000.
Definition DEFAULT_THRESHOLD : double := d_lit 85 100.

Record cache_entry := mkCe {
  cache_id : string;
  exact_key : string;
  ce_text : string;
  ce_response : string;
  ce_model : string;
  created_at : Z;
  ttl_ms : Z;
  last_access : Z;
  access_count : Z;
  ce_bytes : Z
}.

Record mem_cache := mkCache {
  buckets : list (list cache_entry);
  count : Z;
  max_entries : Z;
  max_bytes : Z;
  bytes : Z;
  default_ttl_ms : Z;
  semantic_threshold : double;
  hits : Z;
  misses : Z;
  evictions : Z;
  c_seq : Z
}.

(** [buckets] after [calloc]. *)
Definition empty_buckets : list (list cache_entry) := replicate 512 [].

(** The fields the operations change. *)
Definition upd_table (c : mem_cache) (bs : list (list cache_entry)) (n b ev : Z) : mem_cache :=
  mkCache bs n (max_entries c) (max_bytes c) b (default_ttl_ms c) (semantic_threshold c)
          (hits c) (misses c) ev (c_seq c).

Definition upd_stats (c : mem_cache) (h m sq : Z) : mem_cache :=
  mkCache (buckets c) (count c) (max_entries c) (max_bytes c) (bytes c) (default_ttl_ms c)
          (semantic_threshold c) h m (evictions c) sq.

Definition incr_misses (c : mem_cache) : mem_cache :=
  upd_stats c (hits c) (u64 (misses c + 1)) (c_seq c).

(** FNV-1a. *)
Definition cache_hash64 (s : string) : Z :=
  foldl (fun h b => u64 (Z.lxor h b * 1099511628211)) 1469598103934665603 (bytes_of s).

Definition bucket_of (key : string) : nat := Z.to_nat (cache_hash64 key mod CACHE_HASH_BUCKETS).

Definition chain_at (c : mem_cache) (i : nat) : list cache_entry := default [] (buckets c !! i).

(** The position of the first entry with the key, and the entry. *)
Fixpoint find_key (key : string) (ch : list cache_entry) : option (nat * cache_entry) :=
  match ch with
  | [] => None
  | e :: ch' =>
      if strcmp_eq (exact_key e) key then Some (O, e)
      else match find_key key ch' with Some (k, e') => Some (S k, e') | None => None end
  end.

Definition entry_find_exact (c : mem_cache) (key : string) : option (nat * cache_entry) :=
  find_key key (chain_at c (bucket_of key)).

(** [entry_unlink (cache, prev, e)] for the entry at position [k] of chain
    [i]: without predecessor ([k = 0]) the head of the bucket computed from
    the entry's own key is overwritten. *)
Definition entry_unlink (c : mem_cache) (i k : nat) : mem_cache :=
  let ch := chain_at c i in
  match ch !! k with
  | None => c
  | Some e =>
      let bs := match k with
                | O => <[bucket_of (exact_key e) := tail ch]> (buckets c)
                | S _ => <[i := delete k ch]> (buckets c)
                end in
      upd_table c bs (u64 (count c - 1)) (u64 (bytes c - ce_bytes e)) (u64 (evictions c + 1))
  end.

(** [cache_unlink (cache, e)] for the entry [entry_find_exact] returned: the
    walk along the bucket stops at it. *)
Definition cache_unlink (c : mem_cache) (key : string) : mem_cache :=
  match entry_find_exact c key with
  | Some (k, _) => entry_unlink c (bucket_of key) k
  | None => c
  end.

Definition entry_expired (e : cache_entry) (now : Z) : bool :=
  if ttl_ms e =? 0 then false
  else
    let ttl_ns := if UINT64_MAX / 1000000 <? ttl_ms e then UINT64_MAX
                  else u64 (ttl_ms e * 1000000) in
    ttl_ns <=? u64 (now - created_at e).

(** ** Eviction *)

(** The inner loop of the first phase, at position [k] of chain [i]; the fuel
    is the number of entries left to look at. *)
Fixpoint expire_chain (fuel : nat) (now : Z) (c : mem_cache) (i k : nat) : mem_cache :=
  match fuel with
  | O => c
  | S f =>
      match chain_at c i !! k with
      | None => c
      | Some e =>
          if entry_expired e now then expire_chain f now (entry_unlink c i k) i k
          else expire_chain f now c i (S k)
      end
  end.

Definition expire_bucket (now : Z) (c : mem_cache) (i : nat) : mem_cache :=
  expire_chain (length (chain_at c i)) now c i 0.

Definition cand := (nat * nat * cache_entry)%type.

(** [e] is preferred to the victim found so far. *)
Definition less_used (e v : cache_entry) : bool :=
  (access_count e <? access_count v) ||
  (access_count e =? access_count v) && (last_access e <? last_access v).

Fixpoint victim_chain (i k : nat) (ch : list cache_entry) (v : option cand) : option cand :=
  match ch with
  | [] => v
  | e :: ch' =>
      victim_chain i (S k) ch'
        (match v with
         | Some (_, _, ve) => if less_used e ve then Some (i, k, e) else v
         | None => Some (i, k, e)
         end)
  end.

Fixpoint victim_buckets (i : nat) (bs : list (list cache_entry)) (v : option cand) : option cand :=
  match bs with
  | [] => v
  | ch :: bs' => victim_buckets (S i) bs' (victim_chain i 0 ch v)
  end.

Definition over_capacity (c : mem_cache) : bool :=
  (max_entries c <? count c) || (0 <? max_bytes c) && (max_bytes c <? bytes c).

(** The second phase; each round unlinks one entry. *)
Fixpoint evict_loop (fuel : nat) (c : mem_cache) : mem_cache :=
  match fuel with
  | O => c
  | S f =>
      if over_capacity c then
        match victim_buckets 0 (buckets c) None with
        | None => c
        | Some (i, k, _) => evict_loop f (entry_unlink c i k)
        end
      else c
  end.

Definition evict_at (now : Z) (c : mem_cache) : mem_cache :=
  let c := foldl (expire_bucket now) c (seq 0 512) in
  evict_loop (S (length (concat (buckets c)))) c.

(** ** Admission *)

Definition CACHE_DENY_PATHS : list string :=
  ["/home/"; "/users/"; "/root/"; "c:\users\"; "~/"; ".ssh"; ".aws"; ".gnupg"; ".netrc";
   ".kube/config"]%string.

Definition CACHE_DENY_PREFIXES : list string :=
  ["sk-"; "ghp_"; "gho_"; "github_pat_"; "xoxb-"; "xoxp-"; "AKIA"; "-----BEGIN "]%string.

(** Do the characters of [needle] match at the start of [p]? *)
Fixpoint prefix_ci (needle p : string) : bool :=
  match needle, p with
  | EmptyString, _ => true
  | String a n', String b p' => Ascii.eqb (tolower b) (tolower a) && prefix_ci n' p'
  | String _ _, EmptyString => false
  end.

Fixpoint contains_from (needle p : string) : bool :=
  match p with
  | EmptyString => false
  | String _ p' => prefix_ci needle p || contains_from needle p'
  end.

Definition cache_contains_ci (haystack needle : string) : bool :=
  if (strlen needle =? 0) || (strlen haystack <? strlen needle) then false
  else contains_from needle haystack.

(** What the cache uses of commons besides the allocator and the clock: the
    word scanner and the sensitive-text detector. *)
Class CacheLib := {
  airy_words_scan : string -> list string;
  log_contains_sensitive : string -> bool
}.

Section Cache.
Context `{AiryString} `{CacheLib} {W : Type} `{MemOS W}.

Definition mem_cache_admit (text : option string) : bool :=
  match text with
  | None | Some EmptyString => false
  | Some t =>
      if log_contains_sensitive t then false
      else if existsb (cache_contains_ci t) CACHE_DENY_PATHS then false
      else if existsb (fun p => match strstr p t with Some _ => true | None => false end)
                      CACHE_DENY_PREFIXES then false
      else true
  end.

(** ** Similarity *)

(** The set under construction: tokens, capacity, and the full mark. *)
Definition token_fill_visit (s : list string * Z * bool) (token : string) (w : W)
  : list string * Z * bool * W :=
  let '(tokens, cap, full) := s in
  if full : bool then (s, w)
  else
    let '(ok, cap, w) :=
      if Z.of_nat (length tokens) =? cap
      then let '(ok, w) := os_alloc w in (ok, if ok : bool then cap * 2 else cap, w)
      else (true, cap, w) in
    if negb ok then (tokens, cap, true, w)
    else
      let '(d, w) := AIRY_STRDUP token w in
      match d with
      | Some d => (tokens ++ [d], cap, false, w)
      | None => (tokens, cap, false, w)
      end.

Fixpoint fill_tokens (s : list string * Z * bool) (ts : list string) (w : W)
  : list string * Z * bool * W :=
  match ts with
  | [] => (s, w)
  | t :: ts' => let '(s, w) := token_fill_visit s t w in fill_tokens s ts' w
  end.

Definition token_set_build (text : string) (w : W) : list string * W :=
  let '(ok, w) := os_alloc w in
  if ok : bool
  then let '(tokens, _, _, w) := fill_tokens ([], 64, false) (airy_words_scan text) w in (tokens, w)
  else ([], w).

Definition token_contains (set : list string) (tok : string) : bool :=
  existsb (fun t => strcmp_eq t tok) set.

(** The weighted score of two token lists and two text lengths. *)
Definition score_of (sa sb : list string) (la lb : Z) : double :=
  let inter := Z.of_nat (length (List.filter (token_contains sb) sa)) in
  let uni := u64 (Z.of_nat (length sa) + Z.of_nat (length sb) - inter) in
  let jaccard := if 0 <? uni then ddiv (d_of_Z inter) (d_of_Z uni) else d_zero in
  let len_ratio := if la <? lb then ddiv (d_of_Z la) (d_of_Z lb) else ddiv (d_of_Z lb) (d_of_Z la) in
  dadd (dmul (d_lit 8 10) jaccard) (dmul (d_lit 2 10) len_ratio).

Definition semantic_score (a b : string) (w : W) : double * W :=
  let la := strlen a in
  let lb := strlen b in
  if (la =? 0) || (lb =? 0) then (d_zero, w)
  else
    let '(sa, w) := token_set_build a w in
    let '(sb, w) := token_set_build b w in
    if ((length sa =? 0) && (length sb =? 0))%nat then (d_zero, w)
    else if ((length sa =? 0) || (length sb =? 0))%nat then (d_zero, w)
    else (score_of sa sb la lb, w).

(** ** Life cycle *)

Definition mem_cache_create (me mb ttl : Z) (thr : double) (w : W) : option mem_cache * W :=
  let '(ok, w) := os_alloc w in
  if negb ok then (None, w)
  else
    (Some (mkCache empty_buckets 0
             (if 0 <? me then me else DEFAULT_MAX_ENTRIES)
             (if 0 <? mb then mb else DEFAULT_MAX_BYTES) 0
             (if 0 <? ttl then ttl else DEFAULT_TTL_MS)
             (if dlt d_zero thr && dle thr (d_of_Z 1) then thr else DEFAULT_THRESHOLD)
             0 0 0 0), w).

Definition cache_evict (c : mem_cache) (w : W) : mem_cache * W :=
  let '(now, w) := os_time_ns w in (evict_at now c, w).

Definition cache_id_gen (c : mem_cache) (w : W) : string * mem_cache * W :=
  let sq := u64 (c_seq c + 1) in
  let '(id, w) := id_gen sq w in
  (id, upd_stats c (hits c) (misses c) sq, w).

Definition cache_key_build (text model : string) (w : W) : option string * W :=
  let '(ok, w) := os_alloc w in
  (if ok : bool then Some (sha256_hex (text +:+ String "|" model)) else None, w).

(** ** Put *)

Definition put_insert (c : mem_cache) (e : cache_entry) : mem_cache :=
  let h := bucket_of (exact_key e) in
  upd_table c (<[h := e :: chain_at c h]> (buckets c)) (u64 (count c + 1))
            (u64 (bytes c + ce_bytes e)) (evictions c).

(** What [*out_cache_id] receives: the read of [e->cache_id] happens after the
    eviction pass, so the entry may have been freed. *)
Inductive id_read :=
| IdRead (s : option string)
| IdFreed.

(** Keys are unique in the table, so the inserted entry is alive exactly when
    its key is found. *)
Definition read_id (c : mem_cache) (e : cache_entry) (w : W) : id_read * W :=
  match entry_find_exact c (exact_key e) with
  | Some _ => let '(d, w) := AIRY_STRDUP (cache_id e) w in (IdRead d, w)
  | None => (IdFreed, w)
  end.

Definition mem_cache_put (c : mem_cache) (text response model : option string) (ttl : Z) (w : W)
  : airy_rc * id_read * option string * mem_cache * W :=
  match text, response, model with
  | Some text, Some response, Some model =>
      let '(key, w) := cache_key_build text model w in
      match key with
      | None => (AIRY_ERR_OUT_OF_MEMORY, IdRead None, None, c, w)
      | Some key =>
          let c := match entry_find_exact c key with
                   | Some _ => cache_unlink c key
                   | None => c
                   end in
          let '(ok, w) := os_alloc w in
          if negb ok then (AIRY_ERR_OUT_OF_MEMORY, IdRead None, None, c, w)
          else
            let '(t, w) := AIRY_STRDUP text w in
            let '(r, w) := AIRY_STRDUP response w in
            let '(m, w) := AIRY_STRDUP model w in
            match t, r, m with
            | Some t, Some r, Some m =>
                let '(id, c, w) := cache_id_gen c w in
                let '(now, w) := os_time_ns w in
                let e := mkCe id (AIRY_STRNCPY_TERM 65 key) t r m now
                              (if 0 <? ttl then ttl else default_ttl_ms c) now 0
                              (u64 (strlen text + strlen response + strlen model)) in
                let '(c, w) := cache_evict (put_insert c e) w in
                let '(idr, w) := read_id c e w in
                let '(k, w) := AIRY_STRDUP key w in
                (AIRY_SUCCESS, idr, k, c, w)
            | _, _, _ => (AIRY_ERR_OUT_OF_MEMORY, IdRead None, None, c, w)
            end
      end
  | _, _, _ => (AIRY_ERR_INVALID_PARAM, IdRead None, None, c, w)
  end.

(** ** Get *)

Definition touch (now : Z) (e : cache_entry) : cache_entry :=
  mkCe (cache_id e) (exact_key e) (ce_text e) (ce_response e) (ce_model e) (created_at e)
       (ttl_ms e) now (u64 (access_count e + 1)) (ce_bytes e).

(** The four outputs of a get: hit flag, score, cache id, response. *)
Record cache_out_t := mkOut {
  out_hit : bool;
  out_score : double;
  out_cache_id : option string;
  out_response : option string
}.

Definition out_miss : cache_out_t := mkOut false d_zero None None.

(** Hit accounting on the entry at position [k] of bucket [i]. *)
Definition cache_hit (c : mem_cache) (i k : nat) (e : cache_entry) (score : double) (now : Z) (w : W)
  : cache_out_t * mem_cache * W :=
  let c := mkCache (<[i := <[k := touch now e]> (chain_at c i)]> (buckets c)) (count c)
             (max_entries c) (max_bytes c) (bytes c) (default_ttl_ms c) (semantic_threshold c)
             (u64 (hits c + 1)) (misses c) (evictions c) (c_seq c) in
  let '(id, w) := AIRY_STRDUP (cache_id e) w in
  let '(r, w) := AIRY_STRDUP (ce_response e) w in
  (mkOut true score id r, c, w).

Inductive l0_state := CACHE_MISS | CACHE_STALE | CACHE_FOUND (k : nat) (e : cache_entry).

Definition cache_l0 (c : mem_cache) (key : string) (now : Z) : l0_state * mem_cache :=
  match entry_find_exact c key with
  | None => (CACHE_MISS, c)
  | Some (k, e) =>
      if entry_expired e now then (CACHE_STALE, cache_unlink c key)
      else (CACHE_FOUND k e, c)
  end.

(** The best entry so far and its score. *)
Definition l1_best := (option cand * double)%type.

Fixpoint l1_chain (text model : string) (now : Z) (i k : nat) (ch : list cache_entry)
    (b : l1_best) (w : W) : l1_best * W :=
  match ch with
  | [] => (b, w)
  | e :: ch' =>
      if negb (strcmp_eq (ce_model e) model) || entry_expired e now
      then l1_chain text model now i (S k) ch' b w
      else
        let '(s, w) := semantic_score text (ce_text e) w in
        l1_chain text model now i (S k) ch'
          (if dlt (snd b) s then (Some (i, k, e), s) else b) w
  end.

Fixpoint l1_buckets (text model : string) (now : Z) (i : nat) (bs : list (list cache_entry))
    (b : l1_best) (w : W) : l1_best * W :=
  match bs with
  | [] => (b, w)
  | ch :: bs' =>
      let '(b, w) := l1_chain text model now i 0 ch b w in
      l1_buckets text model now (S i) bs' b w
  end.

Definition cache_l1 (c : mem_cache) (text model : string) (now : Z) (thr : double) (w : W)
  : option (cand * double) * W :=
  let '(b, w) := l1_buckets text model now 0 (buckets c) (None, d_zero) w in
  match b with
  | (Some v, best) => (if dlt best thr then None else Some (v, best), w)
  | (None, _) => (None, w)
  end.

Definition mem_cache_get (c : mem_cache) (text model : option string) (threshold : double) (w : W)
  : airy_rc * cache_out_t * mem_cache * W :=
  match text, model with
  | Some text, Some model =>
      let '(now, w) := os_time_ns w in
      let thr := if dlt d_zero threshold && dle threshold (d_of_Z 1) then threshold
                 else semantic_threshold c in
      let '(key, w) := cache_key_build text model w in
      match key with
      | None => (AIRY_ERR_OUT_OF_MEMORY, out_miss, c, w)
      | Some key =>
          match cache_l0 c key now with
          | (CACHE_FOUND k e, c) =>
              let '(o, c, w) := cache_hit c (bucket_of key) k e (d_of_Z 1) now w in
              (AIRY_SUCCESS, o, c, w)
          | (CACHE_STALE, c) => (AIRY_SUCCESS, out_miss, incr_misses c, w)
          | (CACHE_MISS, c) =>
              let '(r, w) := cache_l1 c text model now thr w in
              match r with
              | None => (AIRY_SUCCESS, out_miss, incr_misses c, w)
              | Some ((i, k, e), score) =>
                  let '(o, c, w) := cache_hit c i k e score now w in
                  (AIRY_SUCCESS, o, c, w)
              end
          end
      end
  | _, _ => (AIRY_ERR_INVALID_PARAM, out_miss, incr_misses c, w)
  end.

(** ** Delete and statistics *)

Fixpoint find_id (id : string) (ch : list cache_entry) : option nat :=
  match ch with
  | [] => None
  | e :: ch' => if strcmp_eq (cache_id e) id then Some O
                else match find_id id ch' with Some k => Some (S k) | None => None end
  end.

Fixpoint del_buckets (id : string) (i : nat) (bs : list (list cache_entry)) : option (nat * nat) :=
  match bs with
  | [] => None
  | ch :: bs' => match find_id id ch with
                 | Some k => Some (i, k)
                 | None => del_buckets id (S i) bs'
                 end
  end.

Definition mem_cache_del (c : mem_cache) (id : option string) : airy_rc * bool * mem_cache :=
  match id with
  | None => (AIRY_ERR_INVALID_PARAM, false, c)
  | Some id =>
      match del_buckets id 0 (buckets c) with
      | Some (i, k) => (AIRY_SUCCESS, true, entry_unlink c i k)
      | None => (AIRY_SUCCESS, false, c)
      end
  end.

Record mem_cache_stats_t := mkCStats {
  st_entries : Z;
  st_hits : Z;
  st_misses : Z;
  st_hit_rate : double;
  st_evictions : Z;
  st_bytes : Z
}.

Definition mem_cache_stats (c : mem_cache) : mem_cache_stats_t :=
  mkCStats (count c) (hits c) (misses c)
    (if 0 <? u64 (hits c + misses c)
     then ddiv (d_of_Z (hits c)) (d_of_Z (u64 (hits c + misses c))) else d_of_Z (-1))
    (evictions c)
    (foldl (fun t e => u64 (t + ce_bytes e)) 0 (concat (buckets c))).
End Cache.

(** ** Table invariant *)

Definition entries (c : mem_cache) : list cache_entry := concat (buckets c).

Definition placed (bs : list (list cache_entry)) : Prop :=
  forall i ch e, bs !! i = Some ch -> e ∈ ch -> bucket_of (exact_key e) = i.

Record table_inv (c : mem_cache) : Prop := {
  ti_len : length (buckets c) = 512%nat;
  ti_placed : placed (buckets c);
  ti_keys : NoDup (map exact_key (entries c));
  ti_count : count c = Z.of_nat (length (entries c));
  ti_bytes : bytes c = zsum (map ce_bytes (entries c));
  ti_nonneg : Forall (fun e => 0 <= ce_bytes e) (entries c);
  ti_count64 : is_u64 (count c);
  ti_bytes64 : is_u64 (bytes c);
  ti_max : 0 < max_entries c <= UINT64_MAX /\ 0 < max_bytes c <= UINT64_MAX /\ 0 < default_ttl_ms c
}.

Record cache_inv (c : mem_cache) : Prop := {
  ca_table : table_inv c;
  ca_cap : over_capacity c = false
}.

Lemma bucket_of_lt key : (bucket_of key < 512)%nat.
Proof.
  unfold bucket_of, CACHE_HASH_BUCKETS.
  pose proof (Z.mod_pos_bound (cache_hash64 key) 512). lia.
Qed.

Lemma zsum_perm l l' : l ≡ₚ l' -> zsum l = zsum l'.
Proof. induction 1; cbn; lia. Qed.

Lemma concat_insert {A} (bs : list (list A)) i ch ch' e :
  bs !! i = Some ch -> ch ≡ₚ e :: ch' -> concat bs ≡ₚ e :: concat (<[i := ch']> bs).
Proof.
  intros Hi Hp. rewrite <- (take_drop_middle bs i ch Hi) at 1.
  rewrite insert_take_drop by by eapply lookup_lt_Some.
  rewrite !concat_app. cbn [concat]. rewrite Hp. cbn. symmetry. apply Permutation_middle.
Qed.

Lemma chain_at_lookup c i ch : buckets c !! i = Some ch -> chain_at c i = ch.
Proof. unfold chain_at. by intros ->. Qed.

Lemma chain_lookup c i k e :
  chain_at c i !! k = Some e -> buckets c !! i = Some (chain_at c i).
Proof. unfold chain_at. destruct (buckets c !! i); [done|]. by destruct k. Qed.

Lemma in_entries c i k e : chain_at c i !! k = Some e -> e ∈ entries c.
Proof.
  intros Hk. pose proof (chain_lookup _ _ _ _ Hk) as Hi. unfold entries.
  apply list_elem_of_In, in_concat. exists (chain_at c i).
  split; apply list_elem_of_In; by eapply list_elem_of_lookup_2.
Qed.

Lemma entry_placed c i k e : table_inv c -> chain_at c i !! k = Some e -> bucket_of (exact_key e) = i.
Proof.
  intros I Hk. eapply (ti_placed _ I); [by eapply chain_lookup|]. by eapply list_elem_of_lookup_2.
Qed.

(** The chain an entry sits in. *)
Lemma entries_chain c e :
  table_inv c -> e ∈ entries c -> e ∈ chain_at c (bucket_of (exact_key e)).
Proof.
  intros I He. unfold entries in He. apply list_elem_of_In, in_concat in He as (ch & Hch & He).
  apply list_elem_of_In in Hch, He. apply list_elem_of_lookup in Hch as [i Hi].
  rewrite (ti_placed _ I _ _ _ Hi He). by rewrite (chain_at_lookup _ _ _ Hi).
Qed.

Lemma entry_unlink_eq c i k e :
  table_inv c -> chain_at c i !! k = Some e ->
  entry_unlink c i k = upd_table c (<[i := delete k (chain_at c i)]> (buckets c))
    (u64 (count c - 1)) (u64 (bytes c - ce_bytes e)) (u64 (evictions c + 1)).
Proof.
  intros I Hk. unfold entry_unlink. rewrite Hk. destruct k as [|k]; [|done].
  rewrite (entry_placed _ _ _ _ I Hk). by destruct (chain_at c i).
Qed.

(** [c'] is [c] with the entries [rem] removed. *)
Record shrinks (rem : list cache_entry) (c c' : mem_cache) : Prop := {
  sh_perm : entries c ≡ₚ rem ++ entries c';
  sh_max : max_entries c' = max_entries c /\ max_bytes c' = max_bytes c /\
           default_ttl_ms c' = default_ttl_ms c /\ semantic_threshold c' = semantic_threshold c;
  sh_stats : hits c' = hits c /\ misses c' = misses c /\ c_seq c' = c_seq c
}.

Lemma shrinks_refl c : shrinks [] c c.
Proof. by split. Qed.

Lemma shrinks_trans r1 r2 a b c : shrinks r1 a b -> shrinks r2 b c -> shrinks (r1 ++ r2) a c.
Proof.
  intros [P1 M1 S1] [P2 M2 S2]. split; [|naive_solver congruence..].
  rewrite P1, P2. by rewrite app_assoc.
Qed.

Lemma unlink_spec c i k e :
  table_inv c -> chain_at c i !! k = Some e ->
  table_inv (entry_unlink c i k) /\ shrinks [e] c (entry_unlink c i k).
Proof.
  intros I Hk. rewrite (entry_unlink_eq _ _ _ e) by done. pose proof (chain_lookup _ _ _ _ Hk) as Hi.
  set (c' := upd_table _ _ _ _ _).
  assert (P : entries c ≡ₚ e :: entries c').
  { unfold entries. cbn. eapply concat_insert; [done|]. by apply delete_Permutation. }
  destruct I as [IL IP IK IC IB IN I1 I2 IM]. split; [|by split].
  assert (Hnn : 0 <= zsum (map ce_bytes (entries c'))).
  { rewrite P in IN. apply Forall_cons in IN as [_ IN]. by apply zsum_nonneg, Forall_map. }
  pose proof (Permutation_length P) as Hlen. cbn [length] in Hlen.
  assert (Hsum : zsum (map ce_bytes (entries c)) = ce_bytes e + zsum (map ce_bytes (entries c'))).
  { rewrite (zsum_perm _ _ (Permutation_map ce_bytes P)). done. }
  assert (He : 0 <= ce_bytes e) by (rewrite P in IN; by apply Forall_cons in IN as [? _]).
  split; try done; cbn [count bytes c' upd_table].
  - cbn. by rewrite length_insert.
  - intros j ch x Hj Hx. cbn [buckets c' upd_table] in Hj.
    destruct (decide (i = j)) as [<-|N].
    + rewrite list_lookup_insert_eq in Hj by by eapply lookup_lt_Some. injection Hj as <-.
      eapply IP; [done|]. rewrite (delete_Permutation _ _ _ Hk). by apply list_elem_of_further.
    + rewrite list_lookup_insert_ne in Hj by done. by eapply IP.
  - rewrite P in IK. cbn in IK. by apply NoDup_cons in IK as [_ ?].
  - rewrite u64_id by ulia. lia.
  - rewrite u64_id by ulia. lia.
  - rewrite P in IN. by apply Forall_cons in IN as [_ ?].
  - apply u64_range.
  - apply u64_range.
Qed.

(** ** Lookup *)

Lemma find_key_some key ch k e : find_key key ch = Some (k, e) -> ch !! k = Some e /\ exact_key e = key.
Proof.
  revert k. induction ch as [|x ch IH]; intros k; cbn; [done|].
  destruct (strcmp_eq (exact_key x) key) eqn:E.
  - intros [= <- <-]. bool_cases. done.
  - destruct (find_key key ch) as [[k' e']|]; [|done]. intros [= <- <-]. by apply IH.
Qed.

Lemma find_key_none key ch e : find_key key ch = None -> e ∈ ch -> exact_key e <> key.
Proof.
  induction ch as [|x ch IH]; cbn; [by intros _ ?%elem_of_nil|].
  destruct (strcmp_eq (exact_key x) key) eqn:E; [done|].
  destruct (find_key key ch) as [[]|]; [done|]. bool_cases.
  intros _ [->|He]%elem_of_cons; [done|auto].
Qed.

Lemma keys_inj c e e' :
  table_inv c -> e ∈ entries c -> e' ∈ entries c -> exact_key e = exact_key e' -> e = e'.
Proof.
  intros I He He' E. pose proof (ti_keys _ I) as ND. revert He He' ND.
  generalize (entries c) as l. induction l as [|x l IH]; [by intros ?%elem_of_nil|].
  intros He He'. cbn. intros [Hx ND]%NoDup_cons.
  assert (Hin : forall y, y ∈ l -> exact_key y ∈ map exact_key l).
  { intros y Hy. apply list_elem_of_In, in_map, list_elem_of_In. done. }
  apply elem_of_cons in He as [->|He]; apply elem_of_cons in He' as [->|He']; auto.
  - destruct Hx. rewrite E. by apply Hin.
  - destruct Hx. rewrite <- E. by apply Hin.
Qed.

Lemma find_exact_some c key k e :
  entry_find_exact c key = Some (k, e) ->
  chain_at c (bucket_of key) !! k = Some e /\ exact_key e = key /\ e ∈ entries c.
Proof.
  intros [Hk He]%find_key_some. split_and!; [done..|]. by eapply in_entries.
Qed.

(** An entry of the table is the one its key finds. *)
Lemma find_exact_entry c e :
  table_inv c -> e ∈ entries c -> exists k, entry_find_exact c (exact_key e) = Some (k, e).
Proof.
  intros I He. destruct (entry_find_exact c (exact_key e)) as [[k e']|] eqn:E.
  - destruct (find_exact_some _ _ _ _ E) as (_ & Ek & He'). exists k.
    by rewrite (keys_inj _ _ _ I He' He Ek).
  - exfalso. by apply (find_key_none _ _ e E); [apply entries_chain|].
Qed.

Lemma find_exact_none c key e :
  table_inv c -> entry_find_exact c key = None -> e ∈ entries c -> exact_key e <> key.
Proof.
  intros I Hn He <-. destruct (find_exact_entry _ _ I He) as [k Hk]. congruence.
Qed.

Lemma cache_unlink_spec c key k e :
  table_inv c -> entry_find_exact c key = Some (k, e) ->
  table_inv (cache_unlink c key) /\ shrinks [e] c (cache_unlink c key).
Proof.
  intros I Hf. unfold cache_unlink. rewrite Hf. apply find_exact_some in Hf as (Hk & _).
  by apply unlink_spec.
Qed.

(** ** Expiry phase *)

Definition live (now : Z) (e : cache_entry) : bool := negb (entry_expired e now).

Lemma chain_unlink_same c i k e :
  table_inv c -> chain_at c i !! k = Some e ->
  chain_at (entry_unlink c i k) i = delete k (chain_at c i).
Proof.
  intros I Hk. rewrite (entry_unlink_eq _ _ _ e) by done. apply chain_at_lookup. cbn.
  rewrite list_lookup_insert_eq; [done|]. eapply lookup_lt_Some. by eapply chain_lookup.
Qed.

Lemma chain_unlink_other c i k e j :
  table_inv c -> chain_at c i !! k = Some e -> i <> j -> chain_at (entry_unlink c i k) j = chain_at c j.
Proof.
  intros I Hk N. rewrite (entry_unlink_eq _ _ _ e) by done. unfold chain_at. cbn.
  by rewrite list_lookup_insert_ne.
Qed.

Lemma expire_chain_spec fuel now : forall c i k,
  table_inv c -> (length (chain_at c i) <= k + fuel)%nat -> Forall (fun e => live now e = true) (take k (chain_at c i)) ->
  let c' := expire_chain fuel now c i k in
  table_inv c' /\ Forall (fun e => live now e = true) (chain_at c' i) /\
  (forall j, i <> j -> chain_at c' j = chain_at c j) /\
  exists rem, Forall (fun e => entry_expired e now = true) rem /\ shrinks rem c c'.
Proof.
  induction fuel as [|f IH]; intros c i k I Hl HF; cbn [expire_chain].
  - split_and!; [done| |done|exists []; split; [constructor|apply shrinks_refl]].
    by rewrite take_ge in HF by lia.
  - destruct (chain_at c i !! k) as [e|] eqn:Hk.
    2:{ split_and!; [done| |done|exists []; split; [constructor|apply shrinks_refl]].
        apply lookup_ge_None in Hk. by rewrite take_ge in HF by lia. }
    pose proof (lookup_lt_Some _ _ _ Hk) as Hlt.
    destruct (entry_expired e now) eqn:Ex.
    + destruct (unlink_spec _ _ _ _ I Hk) as [I' S'].
      assert (Ech := chain_unlink_same _ _ _ _ I Hk).
      destruct (IH (entry_unlink c i k) i k I') as (I2 & L2 & O2 & rem & R2 & S2).
      { rewrite Ech, length_delete by (by eexists). lia. }
      { rewrite Ech, delete_take_drop, take_app_length'; [done|]. rewrite length_take. lia. }
      split_and!; [done|done| |].
      * intros j N. rewrite O2 by done. by eapply chain_unlink_other.
      * exists ([e] ++ rem). split; [by constructor|]. by eapply shrinks_trans.
    + apply IH; [done|lia|]. rewrite (take_S_r _ _ _ Hk). apply Forall_app.
      split; [done|]. constructor; [|done]. unfold live. by rewrite Ex.
Qed.

Lemma expire_all_spec now ks : forall c,
  table_inv c -> Forall (fun i => (i < 512)%nat) ks ->
  let c' := foldl (expire_bucket now) c ks in
  table_inv c' /\ (forall i, i ∈ ks -> Forall (fun e => live now e = true) (chain_at c' i)) /\
  (forall i, Forall (fun e => live now e = true) (chain_at c i) ->
             Forall (fun e => live now e = true) (chain_at c' i)) /\
  exists rem, Forall (fun e => entry_expired e now = true) rem /\ shrinks rem c c'.
Proof.
  induction ks as [|i ks IH]; intros c I Hr; cbn [foldl].
  { split_and!; [done|by intros ? ?%elem_of_nil|done|exists []; split; [constructor|apply shrinks_refl]]. }
  apply Forall_cons in Hr as [Hi Hr].
  destruct (expire_chain_spec (length (chain_at c i)) now c i 0 I) as (I1 & L1 & O1 & r1 & R1 & S1);
    [lia|constructor|]. fold (expire_bucket now c i) in *.
  destruct (IH _ I1 Hr) as (I2 & L2 & K2 & r2 & R2 & S2).
  assert (Hkeep : forall j, Forall (fun e => live now e = true) (chain_at c j) ->
    Forall (fun e => live now e = true) (chain_at (expire_bucket now c i) j)).
  { intros j Hj. destruct (decide (i = j)) as [<-|N]; [done|]. by rewrite O1. }
  split_and!; [done| |by eauto|].
  - intros j [->|Hj]%elem_of_cons; [by apply K2|by apply L2].
  - exists (r1 ++ r2). split; [by apply Forall_app|by eapply shrinks_trans].
Qed.

(** ** Capacity phase *)

(** [v] is the least used of [seen], at a position [P] accepts. *)
Definition vgood (P : nat -> nat -> cache_entry -> Prop) (seen : list cache_entry)
    (v : option cand) : Prop :=
  match v with
  | None => seen = []
  | Some (i, k, e) => P i k e /\ Forall (fun x => less_used x e = false) seen
  end.

Lemma less_used_irrefl e : less_used e e = false.
Proof. unfold less_used. by rewrite !Z.ltb_irrefl, andb_false_r. Qed.

Lemma less_used_trans x v e :
  less_used x v = false -> less_used e v = true -> less_used x e = false.
Proof.
  unfold less_used. rewrite !orb_false_iff, !andb_false_iff, orb_true_iff, andb_true_iff,
    !Z.ltb_ge, !Z.ltb_lt, !Z.eqb_neq, !Z.eqb_eq. lia.
Qed.

Lemma victim_chain_spec P i k ch v seen :
  (forall j e, ch !! j = Some e -> P i (k + j)%nat e) -> vgood P seen v ->
  vgood P (seen ++ ch) (victim_chain i k ch v).
Proof.
  revert k v seen. induction ch as [|e ch IH]; intros k v seen HP Hv; cbn [victim_chain].
  { by rewrite app_nil_r. }
  assert (Ea : seen ++ e :: ch = (seen ++ [e]) ++ ch) by (rewrite <- app_assoc; reflexivity). rewrite Ea.
  pose proof (HP O e eq_refl) as Pe. rewrite Nat.add_0_r in Pe.
  apply IH.
  { intros j x Hj. replace (S k + j)%nat with (k + S j)%nat by lia. by apply (HP (S j)). }
  destruct v as [[[vi vk] ve]|]; cbn in *.
  - destruct Hv as [Hp Hs]. destruct (less_used e ve) eqn:E; cbn; (split; [done|]); apply Forall_app; split.
    + eapply Forall_impl; [done|]. intros x Hx. eapply less_used_trans; [exact Hx|exact E].
    + constructor; [apply less_used_irrefl|done].
    + done.
    + by constructor.
  - subst seen. split; [done|]. constructor; [apply less_used_irrefl|done].
Qed.

Lemma victim_buckets_spec P i bs v seen :
  (forall j ch k e, bs !! j = Some ch -> ch !! k = Some e -> P (i + j)%nat k e) -> vgood P seen v ->
  vgood P (seen ++ concat bs) (victim_buckets i bs v).
Proof.
  revert i v seen. induction bs as [|ch bs IH]; intros i v seen HP Hv; cbn [victim_buckets concat].
  { by rewrite app_nil_r. }
  rewrite app_assoc. apply IH.
  - intros j ch' k e Hj Hk. replace (S i + j)%nat with (i + S j)%nat by lia. by eapply HP.
  - apply victim_chain_spec; [|done]. intros k e Hk. cbn.
    pose proof (HP O ch k e eq_refl Hk) as Pe. by rewrite Nat.add_0_r in Pe.
Qed.

Lemma victim_spec c :
  vgood (fun i k e => chain_at c i !! k = Some e) (entries c) (victim_buckets 0 (buckets c) None).
Proof.
  apply (victim_buckets_spec _ 0 (buckets c) None []); [|done].
  intros j ch k e Hj Hk. cbn. by rewrite (chain_at_lookup _ _ _ Hj).
Qed.

Lemma empty_not_over c : table_inv c -> entries c = [] -> over_capacity c = false.
Proof.
  intros I E. pose proof (ti_count _ I) as C. pose proof (ti_bytes _ I) as B. pose proof (ti_max _ I) as M.
  rewrite E in C, B. cbn in C, B. unfold over_capacity. rewrite C, B.
  rewrite orb_false_iff, andb_false_iff, !Z.ltb_ge. lia.
Qed.

Lemma evict_loop_spec fuel : forall c,
  table_inv c -> (length (entries c) < fuel)%nat ->
  let c' := evict_loop fuel c in
  cache_inv c' /\ exists cold, shrinks cold c c' /\
    Forall (fun v => Forall (fun e => less_used e v = false) (entries c')) cold /\
    (over_capacity c = false -> cold = []).
Proof.
  induction fuel as [|f IH]; intros c I Hl; [lia|]. cbn [evict_loop].
  destruct (over_capacity c) eqn:Eo.
  2:{ split; [done|]. exists []. split_and!; [apply shrinks_refl|constructor|done]. }
  pose proof (victim_spec c) as Hv. destruct (victim_buckets 0 (buckets c) None) as [[[i k] e]|].
  2:{ cbn in Hv. by rewrite empty_not_over in Eo. }
  destruct Hv as [Hk Hmin]. destruct (unlink_spec _ _ _ _ I Hk) as [I1 S1].
  pose proof (sh_perm _ _ _ S1) as P1. pose proof (Permutation_length P1) as L1. cbn in L1.
  destruct (IH _ I1) as (I2 & cold & S2 & C2 & _); [lia|].
  split; [done|]. exists ([e] ++ cold). split_and!; [by eapply shrinks_trans| |done].
  constructor; [|done]. pose proof (sh_perm _ _ _ S2) as P2. rewrite P1, P2 in Hmin.
  cbn in Hmin. apply Forall_cons in Hmin as [_ Hmin]. by apply Forall_app in Hmin as [_ ?].
Qed.

Lemma live_true now e : live now e = true <-> entry_expired e now = false.
Proof. unfold live. by rewrite negb_true_iff. Qed.

Lemma all_live now c :
  table_inv c -> (forall i, (i < 512)%nat -> Forall (fun e => live now e = true) (chain_at c i)) ->
  Forall (fun e => live now e = true) (entries c).
Proof.
  intros I Hl. apply Forall_forall. intros e He.
  assert (Hc := entries_chain _ _ I He). pose proof (bucket_of_lt (exact_key e)) as Hb.
  specialize (Hl _ Hb). rewrite Forall_forall in Hl. by apply Hl.
Qed.

Definition fits (c : mem_cache) (l : list cache_entry) : Prop :=
  Z.of_nat (length l) <= max_entries c /\ zsum (map ce_bytes l) <= max_bytes c.

Lemma fits_not_over c : table_inv c -> fits c (entries c) -> over_capacity c = false.
Proof.
  intros I [F1 F2]. rewrite <- (ti_count _ I) in F1. rewrite <- (ti_bytes _ I) in F2.
  unfold over_capacity. rewrite orb_false_iff, andb_false_iff, !Z.ltb_ge. lia.
Qed.

Lemma evict_at_spec now c :
  table_inv c ->
  cache_inv (evict_at now c) /\ exists dead cold, shrinks (dead ++ cold) c (evict_at now c) /\
    Forall (fun e => entry_expired e now = true) dead /\
    Forall (fun e => entry_expired e now = false) (cold ++ entries (evict_at now c)) /\
    Forall (fun v => Forall (fun e => less_used e v = false) (entries (evict_at now c))) cold /\
    (fits c (cold ++ entries (evict_at now c)) -> cold = []).
Proof.
  intros I. unfold evict_at.
  destruct (expire_all_spec now (seq 0 512) c I) as (I1 & L1 & _ & dead & R1 & S1).
  { apply Forall_forall. intros i Hi. apply list_elem_of_In, in_seq in Hi. lia. }
  set (c1 := foldl _ _ _) in *.
  destruct (evict_loop_spec (S (length (concat (buckets c1)))) c1 I1) as (I2 & cold & S2 & C2 & N2).
  { unfold entries. lia. }
  set (c2 := evict_loop _ _) in *. split; [done|]. exists dead, cold.
  pose proof (sh_perm _ _ _ S2) as P2.
  split_and!; [by eapply shrinks_trans|done| |done|].
  - assert (HL : Forall (fun e => live now e = true) (entries c1)).
    { apply all_live; [done|]. intros i Hi. apply L1, list_elem_of_In, in_seq. lia. }
    rewrite P2 in HL. eapply Forall_impl; [exact HL|]. intros e. apply live_true.
  - intros F. apply N2, fits_not_over; [done|]. unfold fits in *.
    destruct (sh_max _ _ _ S1) as (-> & -> & _). rewrite (Permutation_length P2).
    by rewrite (zsum_perm _ _ (Permutation_map ce_bytes P2)).
Qed.

(** ** Insertion and hits keep the table *)

Lemma insert_spec c e :
  table_inv c -> (forall x, x ∈ entries c -> exact_key x <> exact_key e) ->
  0 <= ce_bytes e -> count c + 1 <= UINT64_MAX -> bytes c + ce_bytes e <= UINT64_MAX ->
  table_inv (put_insert c e) /\ entries (put_insert c e) ≡ₚ e :: entries c.
Proof.
  intros I Hn Hb Hc Hy. set (h := bucket_of (exact_key e)).
  assert (Hh : (h < length (buckets c))%nat) by (rewrite (ti_len _ I); apply bucket_of_lt).
  assert (Hch : buckets c !! h = Some (chain_at c h)).
  { destruct (lookup_lt_is_Some_2 _ _ Hh) as [ch E]. by rewrite (chain_at_lookup _ _ _ E), E. }
  assert (P : entries (put_insert c e) ≡ₚ e :: entries c).
  { unfold entries. cbn. fold h.
    rewrite (concat_insert (<[h:=e :: chain_at c h]> (buckets c)) h (e :: chain_at c h) (chain_at c h) e).
    - rewrite list_insert_insert_eq, list_insert_id by done. done.
    - by rewrite list_lookup_insert_eq.
    - done. }
  split; [|done]. destruct I as [IL IP IK IC IB IN I1 I2 IM].
  split; try done; cbn [put_insert upd_table count bytes].
  - cbn. by rewrite length_insert.
  - intros j ch x Hj Hx. cbn [put_insert upd_table buckets] in Hj. fold h in Hj.
    destruct (decide (h = j)) as [<-|N].
    + rewrite list_lookup_insert_eq in Hj by done. injection Hj as <-.
      apply elem_of_cons in Hx as [->|Hx]; [done|]. by eapply IP.
    + rewrite list_lookup_insert_ne in Hj by done. by eapply IP.
  - rewrite P. cbn. apply NoDup_cons. split; [|done].
    intros (x & Ex & Hx)%list_elem_of_In%in_map_iff. apply (Hn x); [by apply list_elem_of_In|done].
  - rewrite (Permutation_length P). cbn [length]. rewrite u64_id by ulia. lia.
  - rewrite (zsum_perm _ _ (Permutation_map ce_bytes P)). cbn. rewrite u64_id by ulia. lia.
  - rewrite P. by constructor.
  - apply u64_range.
  - apply u64_range.
Qed.

(** The table after a hit on the entry at [i], [k]. *)
Definition hit_table (c : mem_cache) (i k : nat) (e : cache_entry) (now : Z) : mem_cache :=
  mkCache (<[i := <[k := touch now e]> (chain_at c i)]> (buckets c)) (count c)
    (max_entries c) (max_bytes c) (bytes c) (default_ttl_ms c) (semantic_threshold c)
    (u64 (hits c + 1)) (misses c) (evictions c) (c_seq c).

(** Overwriting a position with an element of the same image. *)
Lemma map_insert_id {A B} (f : A -> B) (l : list A) i x y :
  l !! i = Some x -> f y = f x -> map f (<[i := y]> l) = map f l.
Proof.
  revert i. induction l as [|a l IH]; intros [|i] Hi Hf; cbn in *; try done.
  - injection Hi as ->. by rewrite Hf.
  - by rewrite IH.
Qed.

Lemma hit_map {A} (f : cache_entry -> A) c i k e now :
  (f (touch now e) = f e) -> chain_at c i !! k = Some e ->
  map f (entries (hit_table c i k e now)) = map f (entries c).
Proof.
  intros Hf Hk. unfold entries. cbn. rewrite !concat_map. f_equal.
  apply (map_insert_id _ _ _ (chain_at c i)); [by eapply chain_lookup|]. by apply (map_insert_id _ _ _ e).
Qed.

Lemma hit_inv c i k e now :
  chain_at c i !! k = Some e -> cache_inv c -> cache_inv (hit_table c i k e now).
Proof.
  intros Hk [[IL IP IK IC IB IN I1 I2 IM] Cap]. pose proof (chain_lookup _ _ _ _ Hk) as Hi.
  split; [|done]. split; try done.
  - cbn. by rewrite length_insert.
  - intros j ch x Hj Hx. cbn in Hj. destruct (decide (i = j)) as [<-|N].
    + rewrite list_lookup_insert_eq in Hj by by eapply lookup_lt_Some. injection Hj as <-.
      apply list_elem_of_lookup in Hx as [q Hq]. destruct (decide (k = q)) as [<-|Nq].
      * rewrite list_lookup_insert_eq in Hq by by eapply lookup_lt_Some. injection Hq as <-. cbn.
        eapply IP; [done|]. by eapply list_elem_of_lookup_2.
      * rewrite list_lookup_insert_ne in Hq by done. eapply IP; [done|]. by eapply list_elem_of_lookup_2.
    + rewrite list_lookup_insert_ne in Hj by done. by eapply IP.
  - by rewrite hit_map.
  - rewrite <- (length_map exact_key), hit_map by done. rewrite length_map. done.
  - by rewrite hit_map.
  - rewrite <- (Forall_map ce_bytes (fun z => 0 <= z)) in *. by rewrite hit_map.
Qed.

(** Keep conversion from unfolding the table passes and the digest. *)
#[local] Strategy 1000 [evict_at sha256_hex entry_find_exact].

Section CacheTheorems.
Context `{AiryString, !AiryStringOk} `{CacheLib} {W : Type} `{MemOS W}.

(** ** Put *)

Lemma cache_strdup_spec s (w : W) r w' : AIRY_STRDUP s w = (r, w') -> r = Some s \/ r = None.
Proof. unfold AIRY_STRDUP. destruct (os_alloc w) as [[] ?]; naive_solver. Qed.

Definition key_of (text model : string) : string := sha256_hex (text +:+ String "|" model).

Lemma key_build_spec t m (w : W) r w' :
  cache_key_build t m w = (r, w') -> r = Some (key_of t m) \/ r = None.
Proof. unfold cache_key_build. destruct (os_alloc w) as [[] ?]; naive_solver. Qed.

(** Removal of the entry with the same key. *)
Definition without (c : mem_cache) (key : string) : mem_cache :=
  match entry_find_exact c key with Some _ => cache_unlink c key | None => c end.

Lemma without_spec c key :
  table_inv c -> table_inv (without c key) /\
  exists old, shrinks old c (without c key) /\
    Forall (fun e => exact_key e = key) old /\
    forall x, x ∈ entries (without c key) -> exact_key x <> key.
Proof.
  intros I. unfold without. destruct (entry_find_exact c key) as [[k e]|] eqn:Ef.
  - destruct (cache_unlink_spec _ _ _ _ I Ef) as [I' S']. split; [done|].
    exists [e]. apply find_exact_some in Ef as (_ & Ek & _). split_and!; [done|by repeat constructor|].
    intros x Hx E. pose proof (ti_keys _ I) as ND. rewrite (sh_perm _ _ _ S') in ND. cbn in ND.
    apply NoDup_cons in ND as [Hn _]. apply Hn.
    replace (exact_key e) with (exact_key x) by congruence. by apply list_elem_of_In, in_map, list_elem_of_In.
  - split; [done|]. exists []. split_and!; [apply shrinks_refl|constructor|].
    intros x. by apply find_exact_none.
Qed.

Lemma under_cap c : cache_inv c -> count c <= max_entries c /\ bytes c <= max_bytes c.
Proof.
  intros [I Hc]. unfold over_capacity in Hc. apply orb_false_iff in Hc as [Hc1 Hc2].
  apply andb_false_iff in Hc2. pose proof (ti_max _ I). rewrite !Z.ltb_ge in *. lia.
Qed.

Lemma shrinks_inv_cap old c c' : table_inv c' -> shrinks old c c' -> cache_inv c -> table_inv c -> cache_inv c'.
Proof.
  intros I' S C I. split; [done|]. apply fits_not_over; [done|]. apply under_cap in C as [C1 C2].
  destruct (sh_max _ _ _ S) as (E1 & E2 & _). unfold fits. rewrite E1, E2.
  rewrite (ti_count _ I), (Permutation_length (sh_perm _ _ _ S)), length_app in C1.
  rewrite (ti_bytes _ I), (zsum_perm _ _ (Permutation_map ce_bytes (sh_perm _ _ _ S))), map_app, zsum_app in C2.
  assert (0 <= zsum (map ce_bytes old)).
  { pose proof (ti_nonneg _ I) as N. rewrite (sh_perm _ _ _ S) in N. apply Forall_app in N as [N _].
    by apply zsum_nonneg, Forall_map. }
  lia.
Qed.

(** The entry a successful put builds. *)
Definition new_entry (c : mem_cache) (t r m : string) (ttl : Z) (e : cache_entry) : Prop :=
  exact_key e = key_of t m /\ ce_text e = t /\ ce_response e = r /\ ce_model e = m /\
  ttl_ms e = (if 0 <? ttl then ttl else default_ttl_ms c) /\
  access_count e = 0 /\ last_access e = created_at e /\
  ce_bytes e = u64 (strlen t + strlen r + strlen m).

Inductive put_result (c : mem_cache) (t r m : string) (ttl : Z)
  : airy_rc -> id_read -> mem_cache -> Prop :=
| PutSame : put_result c t r m ttl AIRY_ERR_OUT_OF_MEMORY (IdRead None) c
| PutLost : put_result c t r m ttl AIRY_ERR_OUT_OF_MEMORY (IdRead None) (without c (key_of t m))
| PutDone e sq now idr :
    new_entry c t r m ttl e ->
    let c1 := without c (key_of t m) in
    let c' := evict_at now (put_insert (upd_stats c1 (hits c1) (misses c1) sq) e) in
    (idr = IdFreed <-> entry_find_exact c' (key_of t m) = None) ->
    put_result c t r m ttl AIRY_SUCCESS idr c'.

Lemma put_cases c t r m ttl (w : W) rc idr k c' w' :
  table_inv c ->
  mem_cache_put c (Some t) (Some r) (Some m) ttl w = (rc, idr, k, c', w') ->
  put_result c t r m ttl rc idr c'.
Proof.
  intros I. unfold mem_cache_put. destruct (cache_key_build t m w) as [key w1] eqn:Ek.
  apply key_build_spec in Ek as [->| ->]; [|intros [= <- <- <- <- <-]; constructor].
  fold (without c (key_of t m)). destruct (os_alloc w1) as [[] w2]; cbn [negb];
    [|intros [= <- <- <- <- <-]; constructor].
  destruct (AIRY_STRDUP t w2) as [ot w3] eqn:E1, (AIRY_STRDUP r w3) as [orr w4] eqn:E2,
    (AIRY_STRDUP m w4) as [om w5] eqn:E3. apply cache_strdup_spec in E1, E2, E3.
  destruct ot as [t'|]; [|intros [= <- <- <- <- <-]; constructor].
  destruct orr as [r'|]; [|intros [= <- <- <- <- <-]; constructor].
  destruct om as [m'|]; [|intros [= <- <- <- <- <-]; constructor].
  destruct E1 as [[= ->]|], E2 as [[= ->]|], E3 as [[= ->]|]; try done.
  unfold cache_id_gen. destruct (id_gen _ w5) as [id w6]. destruct (os_time_ns w6) as [now w7].
  unfold cache_evict. destruct (os_time_ns w7) as [now2 w8].
  rewrite strncpy_term_short by (unfold key_of; rewrite sha256_hex_length; lia).
  set (c1 := without c (key_of t m)). set (e := mkCe _ _ _ _ _ _ _ _ _ _).
  set (c2 := evict_at _ _). destruct (read_id c2 e w8) as [idr' w9] eqn:Er.
  destruct (AIRY_STRDUP (key_of t m) w9) as [k' w10]. intros [= <- <- <- <- <-].
  apply PutDone.
  - unfold new_entry. cbn. split_and!; try done.
    destruct (without_spec c (key_of t m) I) as (_ & old & S & _).
    destruct (sh_max _ _ _ S) as (_ & _ & Et & _). fold c1 in Et. by rewrite Et.
  - unfold read_id in Er. cbn [exact_key e] in Er.
    change (idr' = IdFreed <-> entry_find_exact c2 (key_of t m) = None).
    destruct (entry_find_exact c2 (key_of t m)); [|injection Er as <- <-; by split].
    destruct (AIRY_STRDUP (cache_id e) w8). injection Er as <- <-. by split.
Qed.

(** The table after a completed put: the old entry with the key is gone, the
    new one was inserted, and the eviction pass removed expired and
    least-used entries. *)
Lemma put_done_spec c t r m ttl e sq :
  cache_inv c -> new_entry c t r m ttl e -> max_entries c < UINT64_MAX ->
  bytes c + (strlen t + strlen r + strlen m) <= UINT64_MAX ->
  let c1 := without c (key_of t m) in
  let c2 := put_insert (upd_stats c1 (hits c1) (misses c1) sq) e in
  table_inv c2 /\ entries c2 ≡ₚ e :: entries c1 /\ ce_bytes e = strlen t + strlen r + strlen m.
Proof.
  intros C Hne Hm Hb c1 c2. destruct (without_spec c (key_of t m) (ca_table _ C)) as (I1 & old & S1 & Ho & Hk).
  fold c1 in I1, S1, Hk. pose proof (shrinks_inv_cap _ _ _ I1 S1 C (ca_table _ C)) as C1.
  apply under_cap in C1 as [C1 _]. destruct (sh_max _ _ _ S1) as (Em & _).
  assert (Hb1 : bytes c1 <= bytes c).
  { rewrite (ti_bytes _ (ca_table _ C)), (ti_bytes _ I1).
    rewrite (zsum_perm _ _ (Permutation_map ce_bytes (sh_perm _ _ _ S1))), map_app, zsum_app.
    pose proof (ti_nonneg _ (ca_table _ C)) as N. rewrite (sh_perm _ _ _ S1) in N.
    apply Forall_app in N as [N _]. enough (0 <= zsum (map ce_bytes old)) by lia.
    by apply zsum_nonneg, Forall_map. }
  pose proof (ti_bytes64 _ (ca_table _ C)) as Hc64.
  assert (Eb : ce_bytes e = strlen t + strlen r + strlen m).
  { destruct Hne as (_ & _ & _ & _ & _ & _ & _ & ->). apply u64_id. unfold strlen in *. ulia. }
  destruct (insert_spec (upd_stats c1 (hits c1) (misses c1) sq) e) as [I2 P2]; try done.
  - destruct I1. by split.
  - destruct Hne as [-> _]. done.
  - rewrite Eb. unfold strlen. lia.
  - cbn. lia.
  - cbn. lia.
Qed.

Lemma evict_entries now c e : table_inv c -> e ∈ entries (evict_at now c) -> e ∈ entries c.
Proof.
  intros I He. destruct (evict_at_spec now c I) as (_ & dead & cold & S & _).
  rewrite (sh_perm _ _ _ S). apply elem_of_app. by right.
Qed.

Lemma put_result_inv c t r m ttl rc idr c' :
  put_result c t r m ttl rc idr c' -> cache_inv c -> max_entries c < UINT64_MAX ->
  bytes c + (strlen t + strlen r + strlen m) <= UINT64_MAX -> cache_inv c'.
Proof.
  intros [ | | e sq now idr' Hne c1 c2 _] C Hm Hb; [done| |].
  - destruct (without_spec c (key_of t m) (ca_table _ C)) as (I1 & old & S1 & _).
    eapply shrinks_inv_cap; [done|done|done|apply C].
  - destruct (put_done_spec _ _ _ _ _ _ sq C Hne Hm Hb) as (I2 & _). by apply evict_at_spec.
Qed.

(** A completed put followed by the exact layer of a get: the entry of the
    key, when it survived the eviction pass, is the new one. *)
Lemma put_finds c t r m ttl idr c' :
  put_result c t r m ttl AIRY_SUCCESS idr c' -> idr <> IdFreed -> cache_inv c ->
  max_entries c < UINT64_MAX -> bytes c + (strlen t + strlen r + strlen m) <= UINT64_MAX ->
  exists e k, new_entry c t r m ttl e /\ entry_find_exact c' (key_of t m) = Some (k, e).
Proof.
  intros Hp Hid C Hm Hb. remember AIRY_SUCCESS as rc eqn:Erc.
  destruct Hp as [ | | e sq now idr' Hne c1 c2 Hidr]; [done..|].
  destruct (put_done_spec _ _ _ _ _ _ sq C Hne Hm Hb) as (I2 & P2 & _). fold c1 in I2, P2.
  destruct (without_spec c (key_of t m) (ca_table _ C)) as (_ & old & _ & _ & Hk). fold c1 in Hk.
  destruct (entry_find_exact c2 (key_of t m)) as [[k e']|] eqn:Ef; [|by destruct Hid; apply Hidr].
  exists e, k. split; [done|]. do 2 f_equal.
  destruct (find_exact_some _ _ _ _ Ef) as (_ & Ek & He').
  apply evict_entries in He'; [|done]. rewrite P2 in He'.
  apply elem_of_cons in He' as [->|He']; [done|]. by destruct (Hk _ He').
Qed.

(** ** Get *)

(** The candidate of the similarity scan is an entry of the table, of the
    right model and not expired, and carries its own score. *)
Definition l1_good (P : nat -> nat -> cache_entry -> Prop) (text model : string) (now : Z)
    (b : l1_best) : Prop :=
  match b with
  | (None, _) => True
  | (Some (i, k, e), s) =>
      P i k e /\ ce_model e = model /\ entry_expired e now = false /\
      exists w : W, s = fst (semantic_score text (ce_text e) w)
  end.

Lemma l1_chain_spec P text model now i k ch b w b' w' :
  (forall j e, ch !! j = Some e -> P i (k + j)%nat e) -> l1_good P text model now b ->
  l1_chain text model now i k ch b w = (b', w') -> l1_good P text model now b'.
Proof.
  revert k b w. induction ch as [|e ch IH]; intros k b w HP Hg; cbn [l1_chain].
  { by intros [= <- <-]. }
  pose proof (HP O e eq_refl) as Pe. rewrite Nat.add_0_r in Pe.
  assert (HP' : forall j x, ch !! j = Some x -> P i (S k + j)%nat x).
  { intros j x Hj. replace (S k + j)%nat with (k + S j)%nat by lia. by apply (HP (S j)). }
  destruct (negb _ || _) eqn:E; [by apply IH|]. bool_cases.
  destruct (semantic_score text (ce_text e) w) as [s w1] eqn:Es. apply IH; [done|].
  destruct (dlt (snd b) s); [|done]. cbn. split_and!; [done..|]. exists w. by rewrite Es.
Qed.

Lemma l1_buckets_spec P text model now i bs b w b' w' :
  (forall j ch k e, bs !! j = Some ch -> ch !! k = Some e -> P (i + j)%nat k e) ->
  l1_good P text model now b -> l1_buckets text model now i bs b w = (b', w') ->
  l1_good P text model now b'.
Proof.
  revert i b w. induction bs as [|ch bs IH]; intros i b w HP Hg; cbn [l1_buckets].
  { by intros [= <- <-]. }
  destruct (l1_chain text model now i 0 ch b w) as [b1 w1] eqn:E1. apply IH.
  - intros j ch' k e Hj Hk. replace (S i + j)%nat with (i + S j)%nat by lia. by eapply HP.
  - eapply l1_chain_spec; [|exact Hg|exact E1]. intros k e Hk. cbn.
    pose proof (HP O ch k e eq_refl Hk) as Pe. by rewrite Nat.add_0_r in Pe.
Qed.

Lemma cache_l1_spec c text model now thr w i k e s w' :
  cache_l1 c text model now thr w = (Some ((i, k, e), s), w') ->
  chain_at c i !! k = Some e /\ ce_model e = model /\ entry_expired e now = false /\
  dlt s thr = false /\ exists w : W, s = fst (semantic_score text (ce_text e) w).
Proof.
  unfold cache_l1. destruct (l1_buckets text model now 0 (buckets c) (None, d_zero) w) as [b w1] eqn:E.
  assert (G : l1_good (fun i k e => chain_at c i !! k = Some e) text model now b).
  { refine (l1_buckets_spec _ _ _ _ _ _ _ _ _ _ _ _ E); [|done]. intros j ch q x Hj Hq. cbn.
    by rewrite (chain_at_lookup _ _ _ Hj). }
  destruct b as [[[[vi vk] ve]|] best]; [|done].
  destruct (dlt best thr) eqn:Ed; [done|]. intros [= <- <- <- <- <-].
  destruct G as (?&?&?&?). by split_and!.
Qed.

Lemma cache_hit_eq c i k e s now (w : W) :
  exists w' id r, cache_hit c i k e s now w = (mkOut true s id r, hit_table c i k e now, w') /\
    (r = Some (ce_response e) \/ r = None) /\ (id = Some (cache_id e) \/ id = None).
Proof.
  unfold cache_hit. destruct (AIRY_STRDUP (cache_id e) w) as [id w1] eqn:E1.
  destruct (AIRY_STRDUP (ce_response e) w1) as [r w2] eqn:E2. apply cache_strdup_spec in E1, E2.
  eexists _, _, _. split; [reflexivity|by split].
Qed.

(** The outcomes of a get. *)
Inductive get_result (c : mem_cache) (text model : string) (thr : double) (now : Z)
  : cache_out_t -> mem_cache -> Prop :=
| GetMiss c1 : c1 = c \/ c1 = incr_misses c -> get_result c text model thr now out_miss c1
| GetStale k e :
    entry_find_exact c (key_of text model) = Some (k, e) -> entry_expired e now = true ->
    get_result c text model thr now out_miss (incr_misses (cache_unlink c (key_of text model)))
| GetExact k e id r :
    entry_find_exact c (key_of text model) = Some (k, e) -> entry_expired e now = false ->
    r = Some (ce_response e) \/ r = None ->
    get_result c text model thr now (mkOut true (d_of_Z 1) id r)
      (hit_table c (bucket_of (key_of text model)) k e now)
| GetSimilar i k e s id r :
    entry_find_exact c (key_of text model) = None ->
    chain_at c i !! k = Some e -> ce_model e = model -> entry_expired e now = false ->
    dlt s thr = false -> (exists w : W, s = fst (semantic_score text (ce_text e) w)) ->
    r = Some (ce_response e) \/ r = None ->
    get_result c text model thr now (mkOut true s id r) (hit_table c i k e now).

Definition effective_threshold (c : mem_cache) (threshold : double) : double :=
  if dlt d_zero threshold && dle threshold (d_of_Z 1) then threshold else semantic_threshold c.

Lemma get_cases c text model thr (w : W) rc o c' w' :
  mem_cache_get c (Some text) (Some model) thr w = (rc, o, c', w') ->
  get_result c text model (effective_threshold c thr) (fst (os_time_ns w)) o c'.
Proof.
  unfold mem_cache_get. destruct (os_time_ns w) as [now w1]. cbn [fst].
  destruct (cache_key_build text model w1) as [key w2] eqn:Ek.
  apply key_build_spec in Ek as [->| ->]; [|intros [= <- <- <- <-]; apply GetMiss; by left].
  unfold cache_l0. destruct (entry_find_exact c (key_of text model)) as [[k e]|] eqn:Ef.
  - destruct (entry_expired e now) eqn:Ex; [intros [= <- <- <- <-]; by eapply GetStale|].
    destruct (cache_hit_eq c (bucket_of (key_of text model)) k e (d_of_Z 1) now w2)
      as (w3 & id & r & -> & Hr & _). intros [= <- <- <- <-]. by apply GetExact.
  - fold (effective_threshold c thr).
    destruct (cache_l1 c text model now _ w2) as [[[[[i k] e] s]|] w3] eqn:E1;
      [|intros [= <- <- <- <-]; apply GetMiss; by right].
    apply cache_l1_spec in E1 as (Hk & Hm & Hx & Hd & Hs).
    destruct (cache_hit_eq c i k e s now w3) as (w4 & id & r & -> & Hr & _).
    intros [= <- <- <- <-]. by apply GetSimilar.
Qed.

Lemma get_result_inv c text model thr now o c' :
  get_result c text model thr now o c' -> cache_inv c -> cache_inv c'.
Proof.
  assert (Hi : forall c, cache_inv c -> cache_inv (incr_misses c)).
  { intros x [[] ?]. by split. }
  intros Hg C. destruct Hg as [c1 [->| ->] | k e Hf Hx | k e id r Hf Hx Hr | i k e s id r Hn Hk Hm Hx Hd Hs Hr].
  - done.
  - by apply Hi.
  - apply Hi. destruct (cache_unlink_spec _ _ _ _ (ca_table _ C) Hf) as [I' S'].
    eapply shrinks_inv_cap; [done|done|done|apply C].
  - apply find_exact_some in Hf as (Hk & _). by apply hit_inv.
  - by apply hit_inv.
Qed.

(** ** Reachable caches *)

Lemma create_cache_inv me mb ttl thr (w : W) c w' :
  mem_cache_create me mb ttl thr w = (Some c, w') -> me <= UINT64_MAX -> mb <= UINT64_MAX -> cache_inv c.
Proof.
  unfold mem_cache_create. destruct (os_alloc w) as [[] w1]; cbn [negb]; [|done].
  intros [= <- <-] H1' H2'.
  assert (E : concat empty_buckets = []) by reflexivity.
  set (c := mkCache _ _ _ _ _ _ _ _ _ _ _).
  assert (Hm : 0 < max_entries c <= UINT64_MAX /\ 0 < max_bytes c <= UINT64_MAX /\ 0 < default_ttl_ms c).
  { cbn. split_and!; repeat match goal with |- context [if ?b then _ else _] => destruct b eqn:? end;
      bool_cases; unfold UINT64_MAX, DEFAULT_MAX_ENTRIES, DEFAULT_MAX_BYTES, DEFAULT_TTL_MS in *; lia. }
  assert (T : table_inv c).
  { split; try done; unfold entries; cbn [buckets c]; rewrite ?E; try constructor; try done.
    intros i ch e Hi He. change (empty_buckets !! i = Some ch) in Hi. unfold empty_buckets in Hi.
    apply lookup_replicate in Hi as [-> _]. by apply elem_of_nil in He. }
  split; [done|]. by apply empty_not_over.
Qed.

Lemma find_id_spec id ch k : find_id id ch = Some k -> exists e, ch !! k = Some e /\ cache_id e = id.
Proof.
  revert k. induction ch as [|x ch IH]; intros k; cbn; [done|].
  destruct (strcmp_eq (cache_id x) id) eqn:E; [intros [= <-]; bool_cases; by exists x|].
  destruct (find_id id ch) as [q|]; [|done]. intros [= <-]. by apply IH.
Qed.

Lemma del_buckets_spec id i bs j k :
  del_buckets id i bs = Some (j, k) ->
  exists ch e, bs !! (j - i)%nat = Some ch /\ (i <= j)%nat /\ ch !! k = Some e /\ cache_id e = id.
Proof.
  revert i. induction bs as [|ch bs IH]; intros i; cbn; [done|].
  destruct (find_id id ch) as [q|] eqn:Ef.
  - intros [= <- <-]. rewrite Nat.sub_diag. destruct (find_id_spec _ _ _ Ef) as (e & ? & ?).
    exists ch, e. by split_and!.
  - intros (ch' & e & Hl & Hle & ? & ?)%IH. exists ch', e. split_and!; [|lia|done|done].
    by replace (j - i)%nat with (S (j - S i)) by lia.
Qed.

Lemma del_inv c id : cache_inv c -> cache_inv (snd (mem_cache_del c id)).
Proof.
  intros C. unfold mem_cache_del. destruct id as [id|]; [|done].
  destruct (del_buckets id 0 (buckets c)) as [[i k]|] eqn:E; [|done]. cbn.
  apply del_buckets_spec in E as (ch & e & Hi & _ & Hk & _). rewrite Nat.sub_0_r in Hi.
  assert (Hc : chain_at c i !! k = Some e) by by rewrite (chain_at_lookup _ _ _ Hi).
  destruct (unlink_spec _ _ _ _ (ca_table _ C) Hc) as [I' S'].
  eapply shrinks_inv_cap; [done|done|done|apply C].
Qed.

(** One request; a put's sizes do not overflow the 64-bit byte counter. *)
Inductive cache_step : mem_cache -> mem_cache -> Prop :=
| CPut c t r m ttl (w : W) rc idr k c' w' :
    mem_cache_put c (Some t) (Some r) (Some m) ttl w = (rc, idr, k, c', w') ->
    max_entries c < UINT64_MAX -> bytes c + (strlen t + strlen r + strlen m) <= UINT64_MAX ->
    cache_step c c'
| CGet c t m thr (w : W) rc o c' w' :
    mem_cache_get c (Some t) (Some m) thr w = (rc, o, c', w') -> cache_step c c'
| CDel c id : cache_step c (snd (mem_cache_del c id)).

Inductive cache_reachable : mem_cache -> Prop :=
| CReach0 me mb ttl thr (w : W) c w' :
    mem_cache_create me mb ttl thr w = (Some c, w') -> me <= UINT64_MAX -> mb <= UINT64_MAX ->
    cache_reachable c
| CReachS c c' : cache_reachable c -> cache_step c c' -> cache_reachable c'.

Lemma cache_step_inv c c' : cache_step c c' -> cache_inv c -> cache_inv c'.
Proof.
  intros [? t r m ttl w rc idr k ? w' Hp Hm Hb | ? t m thr w rc o ? w' Hg | ? id] C.
  - eapply put_result_inv; [eapply put_cases; [apply C|exact Hp]|done..].
  - eapply get_result_inv; [by eapply get_cases|done].
  - by apply del_inv.
Qed.

(** C38.  After any sequence of put, get and delete, under any allocator
    behaviour and clock: every entry sits in the bucket of its key, keys are
    unique, the entry and byte counters equal what the chains hold, and
    neither exceeds its configured cap. *)
Theorem cache_reachable_inv c :
  cache_reachable c -> table_inv c /\ count c <= max_entries c /\ bytes c <= max_bytes c.
Proof.
  intros Hr. assert (C : cache_inv c).
  { induction Hr; eauto using create_cache_inv, cache_step_inv. }
  split; [apply C|by apply under_cap].
Qed.

(** The eviction pass removes every expired entry; beyond those it
    removes entries only if the unexpired ones exceed a cap, and then only
    entries that are not used more than any survivor (fewer accesses, ties by
    older last access); afterwards both caps hold. *)
Theorem evict_policy now c :
  table_inv c ->
  let c' := evict_at now c in
  over_capacity c' = false /\ exists dead cold, entries c ≡ₚ dead ++ cold ++ entries c' /\
    Forall (fun e => entry_expired e now = true) dead /\
    Forall (fun e => entry_expired e now = false) (cold ++ entries c') /\
    (forall v e, v ∈ cold -> e ∈ entries c' -> less_used e v = false) /\
    (fits c (cold ++ entries c') -> cold = []).
Proof.
  intros I. destruct (evict_at_spec now c I) as (C & dead & cold & S & HD & HL & HC & HF).
  split; [apply C|]. exists dead, cold. rewrite app_assoc. split_and!; try done.
  - apply S.
  - intros v e Hv He. rewrite Forall_forall in HC. specialize (HC v Hv).
    rewrite Forall_forall in HC. by apply HC.
Qed.

(** Round trip: after a put whose entry survived the eviction pass, a
    get of the same text and model before the entry's deadline hits the exact
    layer with score one and returns the stored response (when its copy can be
    allocated). *)
Theorem put_get_roundtrip c t r m ttl (w w1 w2 w3 : W) id k c' thr rc o c'' :
  cache_inv c -> max_entries c < UINT64_MAX -> bytes c + (strlen t + strlen r + strlen m) <= UINT64_MAX ->
  mem_cache_put c (Some t) (Some r) (Some m) ttl w = (AIRY_SUCCESS, IdRead id, k, c', w1) ->
  mem_cache_get c' (Some t) (Some m) thr w2 = (rc, o, c'', w3) -> rc <> AIRY_ERR_OUT_OF_MEMORY ->
  exists e, e ∈ entries c' /\ ttl_ms e = (if 0 <? ttl then ttl else default_ttl_ms c) /\
    (entry_expired e (fst (os_time_ns w2)) = false ->
     out_hit o = true /\ out_score o = d_of_Z 1 /\ (out_response o = Some r \/ out_response o = None)).
Proof.
  intros C Hm Hb Hp Hg Hrc. pose proof (put_cases _ _ _ _ _ _ _ _ _ _ _ (ca_table _ C) Hp) as Pr.
  destruct (put_finds _ _ _ _ _ _ _ Pr) as (e & q & Hne & Hf); [done..|].
  destruct (find_exact_some _ _ _ _ Hf) as (_ & _ & He). exists e. split; [done|]. split; [apply Hne|].
  intros Hx. revert Hg. unfold mem_cache_get. destruct (os_time_ns w2) as [now w4]. cbn [fst] in Hx.
  destruct (cache_key_build t m w4) as [key w5] eqn:Ek.
  apply key_build_spec in Ek as [->| ->]; [|by intros [= <- <- <- <-]].
  unfold cache_l0. rewrite Hf, Hx.
  destruct (cache_hit_eq c' (bucket_of (key_of t m)) q e (d_of_Z 1) now w5) as (w6 & i & r' & -> & Hr & _).
  intros [= <- <- <- <-]. cbn. destruct Hne as (_ & _ & Er & _). rewrite Er in Hr. done.
Qed.

(** A hit is never stale and never of another text's key and model: the
    answering entry is in the table and unexpired at the time of the request,
    and either its key is the request's key or it has the request's model and
    a score not below the threshold in force. *)
Theorem get_hit_sound c t m thr (w : W) rc o c' w' :
  mem_cache_get c (Some t) (Some m) thr w = (rc, o, c', w') -> out_hit o = true ->
  exists e, e ∈ entries c /\ entry_expired e (fst (os_time_ns w)) = false /\
    (out_response o = Some (ce_response e) \/ out_response o = None) /\
    (exact_key e = key_of t m \/
     ce_model e = m /\ dlt (out_score o) (effective_threshold c thr) = false).
Proof.
  intros Hg Hh. apply get_cases in Hg.
  destruct Hg as [c1 _ | k e Hf Hx | k e id r Hf Hx Hr | i k e s id r Hn Hk Hm Hx Hd Hs Hr]; try done.
  - destruct (find_exact_some _ _ _ _ Hf) as (_ & Ek & He). exists e. split_and!; [done..|by left].
  - exists e. split_and!; [by eapply in_entries|done|done|]. right. done.
Qed.
End CacheTheorems.

(** ** Admission *)

Fixpoint str_lower (s : string) : string :=
  match s with
  | EmptyString => EmptyString
  | String c s' => String (tolower c) (str_lower s')
  end.

(** [p] occurs in [t], up to letter case. *)
Definition occurs_ci (p t : string) : Prop :=
  exists pre mid post, t = pre +:+ mid +:+ post /\ str_lower mid = str_lower p.

Definition occurs (p t : string) : Prop := exists pre post, t = pre +:+ p +:+ post.

Lemma prefix_ci_spec n p :
  prefix_ci n p = true <-> exists mid post, p = mid +:+ post /\ str_lower mid = str_lower n.
Proof.
  revert p. induction n as [|a n IH]; intros p; cbn.
  - split; [|done]. intros _. by exists EmptyString, p.
  - destruct p as [|b p].
    + split; [done|]. intros ([|c mid] & post & E & El); [done|]. by rewrite str_app_cons in E.
    + rewrite andb_true_iff, Ascii.eqb_eq, IH. split.
      * intros (E & mid & post & -> & El). exists (String b mid), post. cbn. by rewrite E, El.
      * intros ([|c mid] & post & E & El); [done|]. rewrite str_app_cons in E. injection E as <- ->.
        cbn in El. injection El as E El. split; [done|]. by exists mid, post.
Qed.

Lemma contains_from_spec n p :
  n <> EmptyString -> contains_from n p = true <-> occurs_ci n p.
Proof.
  intros Hn. induction p as [|b p IH]; cbn.
  - split; [done|]. intros (pre & mid & post & E & El).
    destruct pre; [|by rewrite str_app_cons in E]. destruct mid as [|c mid]; [|by rewrite str_app_cons in E].
    by destruct n.
  - rewrite orb_true_iff, IH. split.
    + intros [(mid & post & E & El)%prefix_ci_spec|(pre & mid & post & -> & El)].
      * by exists EmptyString, mid, post.
      * exists (String b pre), mid, post. by rewrite str_app_cons.
    + intros (pre & mid & post & E & El). destruct pre as [|c pre].
      * left. apply prefix_ci_spec. by exists mid, post.
      * right. rewrite str_app_cons in E. injection E as _ ->. by exists pre, mid, post.
Qed.

Lemma str_lower_length s : String.length (str_lower s) = String.length s.
Proof. induction s; cbn; congruence. Qed.

Lemma contains_ci_spec t n : n <> EmptyString -> cache_contains_ci t n = true <-> occurs_ci n t.
Proof.
  intros Hn. rewrite <- contains_from_spec by done. unfold cache_contains_ci.
  destruct (_ || _) eqn:E; [|done]. split; [done|]. rewrite contains_from_spec by done.
  intros (pre & mid & post & -> & El). apply (f_equal String.length) in El.
  rewrite !str_lower_length in El. exfalso. apply orb_true_iff in E as [E|E]; bool_cases; unfold strlen in E.
  - by destruct n.
  - rewrite !str_length_app in E. lia.
Qed.

Lemma strstr_spec p s : (exists r, strstr p s = Some r) <-> occurs p s.
Proof.
  induction s as [|b s IH].
  - cbn [strstr]. destruct (strip_prefix p "") as [r|] eqn:E.
    + apply strip_prefix_spec in E. split; [|eauto]. intros _. exists EmptyString, r. done.
    + split; [by intros []|]. intros (pre & post & Ep). destruct pre; [|by rewrite str_app_cons in Ep].
      change ("" +:+ p +:+ post) with (p +:+ post) in Ep. apply strip_prefix_spec in Ep. congruence.
  - cbn [strstr]. destruct (strip_prefix p (String b s)) as [r|] eqn:E.
    + apply strip_prefix_spec in E. split; [|eauto]. intros _. exists EmptyString, r. done.
    + rewrite IH. split.
      * intros (pre & post & ->). exists (String b pre), post. by rewrite str_app_cons.
      * intros (pre & post & Ep). destruct pre as [|c pre].
        { change ("" +:+ p +:+ post) with (p +:+ post) in Ep. apply strip_prefix_spec in Ep. congruence. }
        rewrite str_app_cons in Ep. injection Ep as _ ->. by exists pre, post.
Qed.

Lemma existsb_false {A} (f : A -> bool) l : existsb f l = false <-> forall x, x ∈ l -> f x = false.
Proof.
  induction l as [|a l IH]; cbn.
  - split; [by intros _ x ?%elem_of_nil|done].
  - rewrite orb_false_iff, IH. split.
    + intros [Ha Hl] x [->|Hx]%elem_of_cons; auto.
    + intros Hl. split; [apply Hl; left|intros x Hx; apply Hl; by right].
Qed.

Lemma deny_paths_nonempty p : p ∈ CACHE_DENY_PATHS -> p <> EmptyString.
Proof. intros Hp ->. apply list_elem_of_In in Hp. cbn in Hp. naive_solver. Qed.

(** Admission is exact: a text may be cached if and only if it is not
    empty, the commons detector does not flag it, none of the private paths
    occurs in it in any letter case, and none of the key prefixes occurs in it
    anywhere. *)
Theorem admit_iff `{CacheLib} t :
  mem_cache_admit (Some t) = true <->
    t <> EmptyString /\ log_contains_sensitive t = false /\
    (forall p, p ∈ CACHE_DENY_PATHS -> ~ occurs_ci p t) /\
    (forall p, p ∈ CACHE_DENY_PREFIXES -> ~ occurs p t).
Proof.
  assert (Hp : existsb (cache_contains_ci t) CACHE_DENY_PATHS = false <->
    forall p, p ∈ CACHE_DENY_PATHS -> ~ occurs_ci p t).
  { rewrite existsb_false. split; intros Hl p Hin.
    - rewrite <- contains_ci_spec, (Hl p Hin) by by apply deny_paths_nonempty. done.
    - apply not_true_is_false. rewrite contains_ci_spec by by apply deny_paths_nonempty. auto. }
  assert (Hk : existsb (fun p => match strstr p t with Some _ => true | None => false end)
      CACHE_DENY_PREFIXES = false <-> forall p, p ∈ CACHE_DENY_PREFIXES -> ~ occurs p t).
  { rewrite existsb_false. split; intros Hl p Hin.
    - rewrite <- strstr_spec. intros [r Hr]. specialize (Hl p Hin). by rewrite Hr in Hl.
    - destruct (strstr p t) as [r|] eqn:E; [|done]. destruct (Hl p Hin). apply strstr_spec. eauto. }
  destruct t as [|c t]; [cbn; naive_solver|]. unfold mem_cache_admit. rewrite <- Hp, <- Hk.
  destruct (log_contains_sensitive _), (existsb _ CACHE_DENY_PATHS), (existsb _ CACHE_DENY_PREFIXES);
    naive_solver.
Qed.

(** ** Findings *)

(** The exact key is ambiguous: the separator may occur in the text and
    in the model name, so two different requests share one key. *)
Theorem key_ambiguous {W : Type} `{MemOS W} (a b c : string) (w : W) :
  cache_key_build (a +:+ String "|" b) c w = cache_key_build a (b +:+ String "|" c) w.
Proof.
  unfold cache_key_build. destruct (os_alloc w) as [[] w']; [|done].
  by rewrite str_app_assoc, str_app_cons.
Qed.

(** Repeated words are counted once per occurrence on one side only, so
    the similarity exceeds one: "a a a" scores above any threshold against
    "a". *)
Theorem score_exceeds_one :
  dlt (d_of_Z 1) (score_of ["a"; "a"; "a"]%string ["a"]%string 5 1) = true.
Proof. vm_compute. reflexivity. Qed.

(** ** A concrete run *)

(** Words are maximal runs of characters other than the space. *)
Fixpoint split_words (s cur : string) : list string :=
  match s with
  | EmptyString => match cur with EmptyString => [] | _ => [cur] end
  | String c s' =>
      if Ascii.eqb c " " then
        match cur with EmptyString => split_words s' EmptyString | _ => cur :: split_words s' EmptyString end
      else split_words s' (cur +:+ String c EmptyString)
  end.

Definition toy_lib : CacheLib := Build_CacheLib (fun s => split_words s EmptyString) (fun _ => false).

Section ToyRun.
#[local] Existing Instance bounded_copy.
#[local] Existing Instance bounded_copy_ok.
#[local] Existing Instance toy_lib.
#[local] Existing Instance toy_mem.

Definition toy_cache (cap : Z) : mem_cache :=
  mkCache empty_buckets 0 cap DEFAULT_MAX_BYTES 0 DEFAULT_TTL_MS DEFAULT_THRESHOLD 0 0 0 0.

Definition toy_put (c : mem_cache) (t r : string) (w : Z) : airy_rc * id_read * option string * mem_cache * Z :=
  mem_cache_put c (Some t) (Some r) (Some "m"%string) 0 w.

Definition toy_get (c : mem_cache) (t : string) (w : Z) : airy_rc * cache_out_t * mem_cache * Z :=
  mem_cache_get c (Some t) (Some "m"%string) d_zero w.

(** A cache for one entry: put "one", read it once. *)
Definition toy_full : mem_cache :=
  let '(_, _, _, c, w) := toy_put (toy_cache 1) "one" "1" 10 in
  let '(_, _, c, _) := toy_get c "one" w in c.

(** In a full cache whose entries have been read, the eviction pass of a
    put picks the entry just inserted (its access count is zero): the put
    reports success, the new entry is not stored, the old one stays, and the
    identifier handed back is read from the freed entry. *)
Theorem new_entry_freed :
  let '(rc, idr, _, c, _) := toy_put toy_full "two" "2" 20 in
  rc = AIRY_SUCCESS /\ idr = IdFreed /\ map ce_text (entries c) = ["one"%string].
Proof. vm_compute. split_and!; reflexivity. Qed.

Lemma toy_cache_inv : cache_inv (toy_cache 4).
Proof.
  apply (create_cache_inv 4 0 0 d_zero 1 (toy_cache 4) 1); [|done|done]. vm_compute. reflexivity.
Qed.

Definition toy_one : mem_cache := snd (fst (toy_put (toy_cache 4) "one two" "1" 10)).

Lemma toy_one_step : cache_step (toy_cache 4) toy_one.
Proof.
  eapply (CPut _ "one two" "1" "m" 0 10); [vm_compute; reflexivity|done|vm_compute; discriminate].
Qed.

Lemma cache_reachable_inv_witness :
  table_inv toy_one /\ count toy_one <= max_entries toy_one /\ bytes toy_one <= max_bytes toy_one.
Proof.
  apply (cache_reachable_inv toy_one). eapply CReachS; [|exact toy_one_step].
  apply (CReach0 4 0 0 d_zero 1 (toy_cache 4) 1); [vm_compute; reflexivity|done|done].
Defined.

Lemma toy_one_inv : cache_inv toy_one.
Proof. eapply cache_step_inv; [exact toy_one_step|exact toy_cache_inv]. Qed.

Lemma evict_policy_witness :
  over_capacity (evict_at (10 ^ 13) toy_one) = false /\ entries (evict_at (10 ^ 13) toy_one) = [].
Proof.
  split; [|vm_compute; reflexivity].
  apply (evict_policy (10 ^ 13) toy_one). apply toy_one_inv.
Defined.

Lemma put_get_roundtrip_witness :
  exists e, e ∈ entries toy_one /\ ttl_ms e = DEFAULT_TTL_MS /\
    (entry_expired e 50 = false -> out_hit (snd (fst (fst (toy_get toy_one "one two" 50)))) = true).
Proof.
  destruct (put_get_roundtrip (toy_cache 4) "one two" "1" "m" 0 10 13 50 51
    (Some "0000000a000000000000104d00000001"%string)
    (Some (key_of "one two" "m")) toy_one d_zero AIRY_SUCCESS
    (snd (fst (fst (toy_get toy_one "one two" 50)))) (snd (fst (toy_get toy_one "one two" 50))))
    as (e & He & Ht & Hh).
  - exact toy_cache_inv.
  - done.
  - vm_compute. discriminate.
  - vm_compute. reflexivity.
  - vm_compute. reflexivity.
  - discriminate.
  - exists e. split; [exact He|]. split; [exact Ht|]. intros Hx. apply (Hh Hx).
Defined.

(** A similarity hit: the same words in another order. *)
Lemma get_hit_sound_witness :
  exists e, e ∈ entries toy_one /\ entry_expired e 50 = false.
Proof.
  destruct (get_hit_sound toy_one "two one" "m" d_zero 50 AIRY_SUCCESS
    (snd (fst (fst (toy_get toy_one "two one" 50)))) (snd (fst (toy_get toy_one "two one" 50)))
    (snd (toy_get toy_one "two one" 50)))
    as (e & He & Hx & _).
  - vm_compute. reflexivity.
  - vm_compute. reflexivity.
  - exists e. split; [exact He|exact Hx].
Defined.
End ToyRun.
