(* ===== verification/DagGraph.v ===== *)
(** * DagGraph

    Task graphs of sched_d: the data of sched_service_internal.h and
    scheduler_service.h, and the construction of a graph from a submission
    with its checks (sched_d/src/dag/sched_dag_parse.c): unique names, known
    dependencies, no cycle.  The JSON reader is not part of this repository;
    a submission is what its accessors report.  Memory comes from [MemOS], so
    every allocation may fail. *)

From stdpp Require Import relations.
From S2P Require Import Prelude Doubles MemEnv.

(** ** Data *)

Inductive sched_dag_node_status_t :=
| SCHED_DAG_NODE_PENDING
| SCHED_DAG_NODE_READY
| SCHED_DAG_NODE_RUNNING
| SCHED_DAG_NODE_COMPLETED
| SCHED_DAG_NODE_SEMANTIC_FAILED
| SCHED_DAG_NODE_FAILED
| SCHED_DAG_NODE_CANCELED.

#[export] Instance node_status_eq_dec : EqDecision sched_dag_node_status_t.
Proof. solve_decision. Defined.

Inductive sched_dag_status_t :=
| SCHED_DAG_STATUS_ACTIVE
| SCHED_DAG_STATUS_COMPLETED
| SCHED_DAG_STATUS_SEMANTIC_FAILED
| SCHED_DAG_STATUS_FAILED
| SCHED_DAG_STATUS_CANCELED.

#[export] Instance dag_status_eq_dec : EqDecision sched_dag_status_t.
Proof. solve_decision. Defined.

Definition SCHED_DAG_MAX_NODES : nat := 64.
Definition SCHED_DAG_MAX_DEPS : nat := 8.
Definition SCHED_DAG_MAX_DAGS : nat := 32.

(** [depends] is the live prefix of the array, [dep_count] its length. *)
Record sched_dag_node_t := mkNode {
  n_id : string;
  goal : string;
  role : string;
  depends : list string;
  n_status : sched_dag_node_status_t;
  output : option string;
  n_error : option string;
  started_at_ms : Z;
  n_finished_at_ms : Z;
  max_retries : Z;
  retry_delay_ms : Z;
  retry_count : Z;
  retry_at_ms : Z;
  validator_rule_json : option string
}.

(** The four strings of the graph are copied without a test, so they may be
    NULL; the identifier is set on submission. *)
Record sched_dag_t := mkDag {
  dag_id : string;
  d_name : option string;
  d_input : option string;
  workspace_dir : option string;
  nodes : list sched_dag_node_t;
  d_status : sched_dag_status_t;
  created_at_ms : Z;
  d_finished_at_ms : Z;
  retry_budget_ms : Z
}.

(** ** Submissions *)

(** A node object: [None] for a member that is absent or of another type.  A
    dependency that is not a string is [None]; a validator whose printing
    failed is [Some None]. *)
Record node_json := mkNodeJson {
  j_id : option string;
  j_goal : option string;
  j_role : option string;
  j_max_retries : option double;
  j_retry_delay_ms : option double;
  j_validator : option (option string);
  j_depends : option (list (option string))
}.

Record dag_json := mkDagJson {
  j_nodes : option (list node_json);
  j_name : option string;
  j_input : option string;
  j_workspace_dir : option string;
  j_retry_budget_ms : option double
}.

(** ** Look-up *)

Fixpoint find_from (j : nat) (ns : list sched_dag_node_t) (id : string) : option nat :=
  match ns with
  | [] => None
  | n :: ns' => if strcmp_eq (n_id n) id then Some j else find_from (S j) ns' id
  end.

(** The index of the first node with this name. *)
Definition find_index (ns : list sched_dag_node_t) (id : string) : option nat := find_from 0 ns id.

(** ** Construction *)

Definition SIZE_MAX : Z := UINT64_MAX.

Section build.
  Context {W : Type} `{OS : MemOS W} (AGENT_VOCAB_FALLBACK : string).

Definition positive_u32 (v : option double) : option Z :=
    d ← v; if dlt d_zero d then Some (u32 (d_trunc d)) else None.

(** The retry fields: the delay counts only with a retry limit. *)
Definition node_retry (nj : node_json) : Z * Z :=
    match positive_u32 (j_max_retries nj) with
    | Some m => (m, default 0 (positive_u32 (j_retry_delay_ms nj)))
    | None => (0, 0)
    end.

(** [id], [goal] and [role] are the copies, the last three components of the
    result the fields that follow; the printed validator is checked first. *)
Definition node_fields (id : option string) (nj : node_json) (w : W)
      : (airy_rc + (string * string * string * option string)) * W :=
    let '(g, w) := AIRY_STRDUP (default "" (j_goal nj)) w in
    let '(r, w) := AIRY_STRDUP (default AGENT_VOCAB_FALLBACK (j_role nj)) w in
    match j_validator nj, id, g, r with
    | Some None, _, _, _ => (inl AIRY_ERR_OUT_OF_MEMORY, w)
    | v, Some i, Some g', Some r' => (inr (i, g', r', mjoin v), w)
    | _, _, _, _ => (inl AIRY_ERR_OUT_OF_MEMORY, w)
    end.

(** The copies of the dependencies, up to the first failure. *)
Fixpoint deps_loop (ds : list (option string)) (acc : list string) (w : W)
      : (airy_rc + list string) * W :=
    match ds with
    | [] => (inr acc, w)
    | None :: _ => (inl AIRY_ERR_INVALID_PARAM, w)
    | Some d :: ds' =>
        let '(c, w) := AIRY_STRDUP d w in
        match c with
        | None => (inl AIRY_ERR_OUT_OF_MEMORY, w)
        | Some d' => deps_loop ds' (acc ++ [d']) w
        end
    end.

Definition node_deps (nj : node_json) (w : W) : (airy_rc + list string) * W :=
    match j_depends nj with
    | None => (inr [], w)
    | Some ds => if (SCHED_DAG_MAX_DEPS <? length ds)%nat then (inl AIRY_ERR_INVALID_PARAM, w)
                 else deps_loop ds [] w
    end.

(** The body of the loop over the node objects, for a new name. *)
Definition node_build (id : string) (nj : node_json) (w : W)
      : (airy_rc + sched_dag_node_t) * W :=
    let '(ok, w) := os_alloc w in
    if negb ok then (inl AIRY_ERR_OUT_OF_MEMORY, w)
    else
      let '(idc, w) := AIRY_STRDUP id w in
      let '(f, w) := node_fields idc nj w in
      match f with
      | inl e => (inl e, w)
      | inr (i, g, r, v) =>
          let '(ds, w) := node_deps nj w in
          match ds with
          | inl e => (inl e, w)
          | inr ds => let '(mr, rd) := node_retry nj in
                      (inr (mkNode i g r ds SCHED_DAG_NODE_PENDING None None 0 0 mr rd 0 0 v), w)
          end
      end.

Fixpoint nodes_loop (njs : list node_json) (acc : list sched_dag_node_t) (w : W)
      : (airy_rc + list sched_dag_node_t) * W :=
    match njs with
    | [] => (inr acc, w)
    | nj :: rest =>
        match j_id nj with
        | None => (inl AIRY_ERR_INVALID_PARAM, w)
        | Some id =>
            if strcmp_eq id "" then (inl AIRY_ERR_INVALID_PARAM, w)
            else if existsb (fun n => strcmp_eq (n_id n) id) acc
            then (inl AIRY_ERR_INVALID_PARAM, w)
            else
              let '(n, w) := node_build id nj w in
              match n with
              | inl e => (inl e, w)
              | inr n => nodes_loop rest (acc ++ [n]) w
              end
        end
    end.

Definition sched_dag_validate_deps (ns : list sched_dag_node_t) : airy_rc :=
    if forallb (fun n => forallb (fun d => bool_decide (is_Some (find_index ns d))) (depends n)) ns
    then AIRY_SUCCESS else AIRY_ERR_INVALID_PARAM.

(** *** Kahn's algorithm *)

(** The counters before the sweeps: the dependencies that resolve. *)
Definition indeg_init (ns : list sched_dag_node_t) : list Z :=
    map (fun n => Z.of_nat (length (filter (fun d => is_Some (find_index ns d)) (depends n)))) ns.

Definition marked (indeg : list Z) (j : nat) : bool := bool_decide (indeg !! j = Some SIZE_MAX).

Definition all_ok (ns : list sched_dag_node_t) (indeg : list Z) (n : sched_dag_node_t) : bool :=
    forallb (fun d => match find_index ns d with Some j => marked indeg j | None => true end)
      (depends n).

Record kahn_st := mkKahn { k_indeg : list Z; k_processed : nat; k_progressed : bool }.

(** One sweep over the nodes from index [i] on. *)
Fixpoint kahn_sweep (ns : list sched_dag_node_t) (i : nat) (rest : list sched_dag_node_t)
      (st : kahn_st) : kahn_st :=
    match rest with
    | [] => st
    | n :: rest' =>
        if marked (k_indeg st) i then kahn_sweep ns (S i) rest' st
        else if all_ok ns (k_indeg st) n
        then kahn_sweep ns (S i) rest'
               (mkKahn (<[i := SIZE_MAX]> (k_indeg st)) (S (k_processed st)) true)
        else kahn_sweep ns (S i) rest' st
    end.

(** The loop: sweeps until one makes no progress ([kahn_fuel]). *)
Fixpoint kahn_loop (fuel : nat) (ns : list sched_dag_node_t) (st : kahn_st) : option kahn_st :=
    match fuel with
    | O => None
    | S fuel' =>
        let st' := kahn_sweep ns 0 ns (mkKahn (k_indeg st) (k_processed st) false) in
        if k_progressed st' then kahn_loop fuel' ns st' else Some st'
    end.

Definition sched_dag_detect_cycle (ns : list sched_dag_node_t) (w : W) : option airy_rc * W :=
    let '(ok, w) := os_alloc w in
    if negb ok then (Some AIRY_ERR_OUT_OF_MEMORY, w)
    else (st ← kahn_loop (S (length ns)) ns (mkKahn (indeg_init ns) 0 false);
          Some (if decide (k_processed st = length ns) then AIRY_SUCCESS
                else AIRY_ERR_CYCLE_DETECTED), w).

(** The outer [option] is the fuel of the loop; [build_spec] shows that it is
    always enough. *)
Definition sched_dag_validate_and_build (root : dag_json) (w : W)
      : option (airy_rc + sched_dag_t) * W :=
    match j_nodes root with
    | None | Some [] => (Some (inl AIRY_ERR_INVALID_PARAM), w)
    | Some njs =>
        if (SCHED_DAG_MAX_NODES <? length njs)%nat then (Some (inl AIRY_ERR_OVERFLOW), w)
        else
          let '(ok, w) := os_alloc w in
          if negb ok then (Some (inl AIRY_ERR_OUT_OF_MEMORY), w)
          else
            let '(nm, w) := AIRY_STRDUP (default "unnamed_dag" (j_name root)) w in
            let '(inp, w) := AIRY_STRDUP (default "" (j_input root)) w in
            let '(ws, w) := AIRY_STRDUP (default "" (j_workspace_dir root)) w in
            let budget := match j_retry_budget_ms root with
                          | Some d => if dlt d_zero d then u64 (d_trunc d) else 0
                          | None => 0
                          end in
            let '(r, w) := nodes_loop njs [] w in
            match r with
            | inl e => (Some (inl e), w)
            | inr ns =>
                if decide (sched_dag_validate_deps ns = AIRY_SUCCESS) then
                  let '(c, w) := sched_dag_detect_cycle ns w in
                  match c with
                  | None => (None, w)
                  | Some AIRY_SUCCESS =>
                      (Some (inr (mkDag "" nm inp ws ns SCHED_DAG_STATUS_ACTIVE 0 0 budget)), w)
                  | Some e => (Some (inl e), w)
                  end
                else (Some (inl (sched_dag_validate_deps ns)), w)
            end
    end.
End build.

(** ** Dependencies as a relation *)

Lemma find_from_node j ns id k :
  find_from j ns id = Some k ->
  exists i n, k = (j + i)%nat /\ ns !! i = Some n /\ n_id n = id /\
    forall i' n', (i' < i)%nat -> ns !! i' = Some n' -> n_id n' <> id.
Proof.
  revert j. induction ns as [|n ns IH]; intros j; simpl; [done|].
  destruct (strcmp_eq (n_id n) id) eqn:E.
  - intros [= <-]. exists 0%nat, n. bool_cases. repeat split; try done; lia.
  - intros (i & n' & -> & Hl & Hid & Hlt)%IH. exists (S i), n'. split; [lia|]. split; [done|].
    split; [done|]. intros [|i'] m Hi Hm; simpl in *.
    + injection Hm as <-. by apply strcmp_eq_false.
    + eapply Hlt; [|done]. lia.
Qed.

Lemma find_index_Some ns id k :
  find_index ns id = Some k -> exists n, ns !! k = Some n /\ n_id n = id.
Proof. intros (i & n & -> & Hl & Hid & _)%find_from_node. by exists n. Qed.

Lemma find_from_is_Some j ns id :
  is_Some (find_from j ns id) <-> exists n, n ∈ ns /\ n_id n = id.
Proof.
  revert j. induction ns as [|n ns IH]; intros j; simpl.
  { split; [by intros []|]. intros (n & Hn%not_elem_of_nil & _). done. }
  destruct (strcmp_eq (n_id n) id) eqn:E.
  - split; [|by eexists]. intros _. exists n. bool_cases. by split; [left|].
  - rewrite IH. apply strcmp_eq_false in E. split.
    + intros (m & Hm & ?). exists m. by split; [right|].
    + intros (m & [->|Hm]%elem_of_cons & ?); [done|]. by exists m.
Qed.

(** Node [i] waits for node [j]. *)
Definition dep_edge (ns : list sched_dag_node_t) (i j : nat) : Prop :=
  exists n d, ns !! i = Some n /\ d ∈ depends n /\ find_index ns d = Some j.

Definition acyclic (ns : list sched_dag_node_t) : Prop := forall i, ~ tc (dep_edge ns) i i.

Lemma dep_edge_bound ns i j : dep_edge ns i j -> (i < length ns)%nat /\ (j < length ns)%nat.
Proof.
  intros (n & d & Hi & _ & (m & Hj & _)%find_index_Some).
  split; by eapply lookup_lt_Some.
Qed.

Lemma tc_dep_bound ns i j : tc (dep_edge ns) i j -> (j < length ns)%nat.
Proof. induction 1 as [i j H|]; [|done]. by apply dep_edge_bound in H as [_ ?]. Qed.

(** In a finite graph without a cycle every chain of dependencies ends. *)
Lemma acyclic_sn ns i : acyclic ns -> sn (dep_edge ns) i.
Proof.
  intros Ha. apply tc_finite_sn; [exact Ha|]. exists (seq 0 (length ns)).
  intros j Hj%tc_dep_bound. apply elem_of_seq. lia.
Qed.

Lemma sn_acyclic ns : (forall i, (i < length ns)%nat -> sn (dep_edge ns) i) -> acyclic ns.
Proof.
  intros Hsn i Hc. assert (i < length ns)%nat as Hi by (by eapply tc_dep_bound).
  specialize (Hsn i Hi). clear Hi. induction Hsn as [i _ IH].
  inversion Hc as [? ? H|? j ? H Ht]; subst; [by eapply (IH i)|].
  apply (IH j H). by eapply tc_r.
Qed.

(** ** The sweeps *)

(** What the sweeps maintain: one mark per processed node, and a marked node
    depends, directly or not, on no cycle. *)
Record kahn_inv (ns : list sched_dag_node_t) (st : kahn_st) : Prop := {
  ki_len : length (k_indeg st) = length ns;
  ki_count : k_processed st = length (filter (fun v => v = SIZE_MAX) (k_indeg st));
  ki_sn j : marked (k_indeg st) j = true -> sn (dep_edge ns) j
}.

Lemma all_ok_spec ns indeg i n :
  ns !! i = Some n -> all_ok ns indeg n = true <->
  forall j, dep_edge ns i j -> marked indeg j = true.
Proof.
  intros Hi. unfold all_ok. rewrite forallb_forall. split.
  - intros H j (n' & d & Hi' & Hd & Hf). rewrite Hi in Hi'. injection Hi' as <-.
    specialize (H d). rewrite Hf in H. apply H. by apply list_elem_of_In.
  - intros H d Hd%list_elem_of_In. destruct (find_index ns d) as [j|] eqn:E; [|done].
    apply H. by exists n, d.
Qed.

Lemma all_ok_false ns indeg i n :
  ns !! i = Some n -> all_ok ns indeg n = false ->
  exists j, dep_edge ns i j /\ marked indeg j = false.
Proof.
  intros Hi (d & Hd & Hf)%forallb_false. destruct (find_index ns d) as [j|] eqn:E; [|done].
  exists j. split; [|done]. by exists n, d.
Qed.

Lemma count_mark (l : list Z) i v :
  l !! i = Some v -> v <> SIZE_MAX ->
  length (filter (fun v => v = SIZE_MAX) (<[i := SIZE_MAX]> l))
  = S (length (filter (fun v => v = SIZE_MAX) l)).
Proof.
  revert i. induction l as [|x l IH]; intros [|i] Hl Hv; simpl in *; try done.
  - injection Hl as ->. rewrite !filter_cons. by repeat case_decide.
  - rewrite !filter_cons. case_decide; simpl; by rewrite (IH i).
Qed.

Lemma marked_insert l i j :
  (i < length l)%nat -> marked (<[i := SIZE_MAX]> l) j = true <-> j = i \/ marked l j = true.
Proof.
  intros Hi. unfold marked. rewrite !bool_decide_eq_true. destruct (decide (j = i)) as [->|Hne].
  - rewrite list_lookup_insert_eq by done. naive_solver.
  - rewrite list_lookup_insert_ne by done. naive_solver.
Qed.

Lemma kahn_sweep_inv ns i rest st :
  kahn_inv ns st -> drop i ns = rest ->
  let st' := kahn_sweep ns i rest st in
  kahn_inv ns st' /\ (forall j, marked (k_indeg st) j = true -> marked (k_indeg st') j = true) /\
  (k_processed st <= k_processed st')%nat /\
  (k_progressed st = false ->
     if k_progressed st' then (k_processed st < k_processed st')%nat
     else k_indeg st' = k_indeg st /\
          forall j n, (i <= j)%nat -> ns !! j = Some n -> marked (k_indeg st) j = false ->
            all_ok ns (k_indeg st) n = false).
Proof.
  revert i st. induction rest as [|n rest IH]; intros i st Hinv Hd; cbv zeta; simpl.
  { split; [done|]. split; [done|]. split; [done|]. intros ->. split; [done|].
    intros j n Hj Hn. exfalso. apply (f_equal length) in Hd. rewrite length_drop in Hd. simpl in Hd.
    apply lookup_lt_Some in Hn. lia. }
  assert (ns !! i = Some n) as Hi.
  { rewrite <- (Nat.add_0_r i), <- lookup_drop, Hd. done. }
  assert (drop (S i) ns = rest) as Hd'.
  { rewrite <- Nat.add_1_r, <- drop_drop, Hd. done. }
  destruct (marked (k_indeg st) i) eqn:Em; [|destruct (all_ok ns (k_indeg st) n) eqn:Ea].
  - destruct (IH (S i) st Hinv Hd') as (H1 & H2 & H3 & H4). split; [done|]. split; [done|].
    split; [done|]. intros Hp. specialize (H4 Hp). case_match; [done|]. destruct H4 as [? H4].
    split; [done|]. intros j m Hj Hm Hf. destruct (decide (j = i)) as [->|]; [congruence|].
    apply (H4 j m); [lia|done|done].
  - set (st1 := mkKahn _ _ true). assert (i < length (k_indeg st))%nat as Hlt.
    { rewrite (ki_len _ _ Hinv). by eapply lookup_lt_Some. }
    assert (kahn_inv ns st1) as Hinv1.
    { destruct Hinv as [Hl Hc Hs]. destruct (lookup_lt_is_Some_2 _ _ Hlt) as [v Hv].
      assert (v <> SIZE_MAX) as Hne by (unfold marked in Em; apply bool_decide_eq_false in Em; congruence).
      split; simpl.
      - by rewrite length_insert.
      - rewrite (count_mark _ _ v) by done. by rewrite Hc.
      - intros j [->|Hj]%marked_insert; [|by apply Hs|done]. constructor. intros j Hj.
        apply Hs. by eapply all_ok_spec. }
    destruct (IH (S i) st1 Hinv1 Hd') as (H1 & H2 & H3 & _). split; [done|]. split; [|split].
    + intros j Hj. apply H2. simpl. apply marked_insert; [done|by right].
    + simpl in H3. lia.
    + intros _. assert (k_progressed (kahn_sweep ns (S i) rest st1) = true) as ->; [|simpl in H3; lia].
      clear. assert (k_progressed st1 = true) as Hp by done. revert Hp. generalize st1 (S i).
      induction rest as [|m rest IH]; intros st' k Hp; simpl; [done|]. repeat case_match; by apply IH.
  - destruct (IH (S i) st Hinv Hd') as (H1 & H2 & H3 & H4). split; [done|]. split; [done|].
    split; [done|]. intros Hp. specialize (H4 Hp). case_match; [done|]. destruct H4 as [? H4].
    split; [done|]. intros j m Hj Hm Hf. destruct (decide (j = i)) as [->|]; [by simplify_eq|].
    apply (H4 j m); [lia|done|done].
Qed.

Lemma filter_length_all (l : list Z) :
  length (filter (fun v => v = SIZE_MAX) l) = length l -> forall j, (j < length l)%nat -> marked l j = true.
Proof.
  induction l as [|x l IH]; intros Hf j Hj; simpl in *; [lia|].
  rewrite filter_cons in Hf. pose proof (length_filter (fun v => v = SIZE_MAX) l) as Hle.
  case_decide; simpl in Hf; [|lia]. injection Hf as Hf. destruct j as [|j]; simpl.
  - unfold marked. simpl. apply bool_decide_eq_true. congruence.
  - apply (IH Hf). lia.
Qed.

Lemma filter_length_missing (l : list Z) :
  length (filter (fun v => v = SIZE_MAX) l) <> length l ->
  exists j, (j < length l)%nat /\ marked l j = false.
Proof.
  induction l as [|x l IH]; intros Hf; [done|]. rewrite filter_cons in Hf. case_decide; simpl in *.
  - destruct IH as (j & Hj & Hm); [lia|]. exists (S j). split; [lia|done].
  - exists 0%nat. split; [lia|]. unfold marked. apply bool_decide_eq_false. simpl. congruence.
Qed.

(** The loop ends within the fuel, at a state no sweep changes. *)
Lemma kahn_loop_spec fuel ns st :
  kahn_inv ns st -> (length ns < fuel + k_processed st)%nat ->
  exists st', kahn_loop fuel ns st = Some st' /\ kahn_inv ns st' /\
    forall j n, ns !! j = Some n -> marked (k_indeg st') j = false -> all_ok ns (k_indeg st') n = false.
Proof.
  revert st. induction fuel as [|fuel IH]; intros st Hinv Hf.
  { exfalso. pose proof (length_filter (fun v => v = SIZE_MAX) (k_indeg st)).
    rewrite <- (ki_count _ _ Hinv), (ki_len _ _ Hinv) in H. lia. }
  simpl. set (st0 := mkKahn (k_indeg st) (k_processed st) false).
  assert (kahn_inv ns st0) as Hinv0 by (by destruct Hinv).
  destruct (kahn_sweep_inv ns 0 ns st0 Hinv0 eq_refl) as (H1 & _ & _ & H4). specialize (H4 eq_refl).
  destruct (k_progressed (kahn_sweep ns 0 ns st0)).
  - apply IH; [done|]. simpl in H4. lia.
  - eexists. split; [done|]. split; [done|]. destruct H4 as [-> H4]. intros j n. apply H4. lia.
Qed.

Lemma kahn_inv_init ns :
  Forall (fun n => (length (depends n) <= SCHED_DAG_MAX_DEPS)%nat) ns ->
  kahn_inv ns (mkKahn (indeg_init ns) 0 false).
Proof.
  intros Hd. assert (Forall (fun v => v <> SIZE_MAX) (indeg_init ns)) as Hne.
  { unfold indeg_init. apply Forall_map. eapply Forall_impl; [exact Hd|]. intros n Hn. simpl.
    pose proof (length_filter (fun d => is_Some (find_index ns d)) (depends n)).
    unfold SIZE_MAX, UINT64_MAX, SCHED_DAG_MAX_DEPS in *. lia. }
  split; simpl.
  - unfold indeg_init. apply length_map.
  - symmetry. apply length_zero_iff_nil. induction Hne as [|v l Hv _ IH]; [done|].
    by rewrite filter_cons_False.
  - intros j Hj%bool_decide_eq_true. rewrite Forall_lookup in Hne. by apply Hne in Hj.
Qed.

(** The cycle test is exact.  For a node list of any length (within the bound
    on dependencies) the sweeps end, and unless memory runs out they report a
    cycle if and only if some node waits, directly or through others, for
    itself. *)
Lemma detect_cycle_exact {W} `{MemOS W} ns (w : W) :
  Forall (fun n => (length (depends n) <= SCHED_DAG_MAX_DEPS)%nat) ns ->
  exists rc w', sched_dag_detect_cycle ns w = (Some rc, w') /\
    ((os_alloc w).1 = true ->
       (rc = AIRY_SUCCESS <-> acyclic ns) /\ (rc = AIRY_ERR_CYCLE_DETECTED <-> ~ acyclic ns)) /\
    ((os_alloc w).1 = false -> rc = AIRY_ERR_OUT_OF_MEMORY).
Proof.
  intros Hd. unfold sched_dag_detect_cycle. destruct (os_alloc w) as [[] w1]; cbn [negb fst].
  2: { eexists _, _. split; [done|]. by split. }
  destruct (kahn_loop_spec (S (length ns)) ns (mkKahn (indeg_init ns) 0 false)) as (st & -> & [Hl Hc Hs] & Hfix).
  { by apply kahn_inv_init. }
  { simpl. lia. }
  simpl. eexists _, _. split; [done|]. split; [intros _|done].
  destruct (decide (k_processed st = length ns)) as [E|E].
  - assert (acyclic ns) as Ha.
    { apply sn_acyclic. intros i Hi. apply Hs. apply filter_length_all; [|lia]. lia. }
    by split; split.
  - assert (~ acyclic ns) as Hna; [|by split; split].
    intros Ha. destruct (filter_length_missing (k_indeg st)) as (j & Hj & Hm); [lia|].
    rewrite Hl in Hj. pose proof (acyclic_sn ns j Ha) as Hsn. induction Hsn as [j _ IH].
    destruct (lookup_lt_is_Some_2 _ _ Hj) as [n Hn].
    destruct (all_ok_false ns (k_indeg st) j n) as (k & Hk & Hkm); [done|by eapply Hfix|].
    apply (IH k); [done|by apply dep_edge_bound in Hk as [_ ?]|done].
Qed.

(** ** Accepted submissions *)

Section accept.
  Context {W : Type} `{OS : MemOS W} (fallback : string).

(** The node an object describes. *)
Definition node_of (nj : node_json) : sched_dag_node_t :=
    mkNode (default "" (j_id nj)) (default "" (j_goal nj)) (default fallback (j_role nj))
      (omap id (default [] (j_depends nj))) SCHED_DAG_NODE_PENDING None None 0 0
      (node_retry nj).1 (node_retry nj).2 0 0 (mjoin (j_validator nj)).

(** An object that can become a node by itself. *)
Definition node_json_ok (nj : node_json) : Prop :=
    (exists id, j_id nj = Some id /\ id <> "") /\ j_validator nj <> Some None /\
    (length (default [] (j_depends nj)) <= SCHED_DAG_MAX_DEPS)%nat /\
    Forall is_Some (default [] (j_depends nj)).

(** Memory that never runs out. *)
Definition mem_ok : Prop := forall w : W, (os_alloc w).1 = true.

Lemma deps_loop_sound ds acc w r w' :
  deps_loop ds acc w = (inr r, w') -> r = acc ++ omap id ds /\ Forall is_Some ds.
Proof.
  revert acc w. induction ds as [|[d|] ds IH]; intros acc w; simpl.
  - intros [= <- _]. by rewrite app_nil_r.
  - unfold AIRY_STRDUP. destruct (os_alloc w) as [[] w1]; simpl; [|done].
    intros [-> Hd]%IH. rewrite <- app_assoc. split; [done|]. by constructor.
  - done.
Qed.

Lemma deps_loop_complete ds acc w :
  mem_ok -> Forall is_Some ds -> exists r w', deps_loop ds acc w = (inr r, w').
Proof.
  intros Hm Hd. revert acc w. induction Hd as [|? ds [d ->] _ IH]; intros acc w; simpl.
  { by eexists _, _. }
  unfold AIRY_STRDUP. specialize (Hm w). destruct (os_alloc w) as [ok w1]. simpl in Hm. subst. apply IH.
Qed.

Lemma node_deps_sound nj w ds w' :
  node_deps nj w = (inr ds, w') ->
  ds = omap id (default [] (j_depends nj)) /\
  (length (default [] (j_depends nj)) <= SCHED_DAG_MAX_DEPS)%nat /\
  Forall is_Some (default [] (j_depends nj)).
Proof.
  unfold node_deps. destruct (j_depends nj) as [dl|]; simpl.
  - destruct (Nat.ltb_spec SCHED_DAG_MAX_DEPS (length dl)); [done|].
    intros [-> Hs]%deps_loop_sound. done.
  - intros [= <- _]. split; [done|]. split; [lia|constructor].
Qed.

Lemma node_fields_sound idc nj w i g r v w' :
  node_fields fallback idc nj w = (inr (i, g, r, v), w') ->
  idc = Some i /\ g = default "" (j_goal nj) /\ r = default fallback (j_role nj) /\
  v = mjoin (j_validator nj) /\ j_validator nj <> Some None.
Proof.
  unfold node_fields, AIRY_STRDUP. destruct (os_alloc w) as [[] w1], (os_alloc w1) as [[] w2];
    destruct (j_validator nj) as [[]|], idc; intros [=]; by subst.
Qed.

Lemma node_build_sound id nj w n w' :
  j_id nj = Some id -> id <> "" -> node_build fallback id nj w = (inr n, w') ->
  n = node_of nj /\ node_json_ok nj.
Proof.
  intros Hid Hne. unfold node_build, node_of, node_json_ok, AIRY_STRDUP.
  destruct (os_alloc w) as [[] w1]; simpl; [|done].
  destruct (os_alloc w1) as [ok w2]. destruct (node_fields _ _ nj w2) as [[e|[[[i g] r] v]] w3] eqn:Ef; [done|].
  apply node_fields_sound in Ef as (Hi & -> & -> & -> & Hv).
  destruct (node_deps nj w3) as [[e|ds] w4] eqn:Ed; [done|].
  apply node_deps_sound in Ed as (-> & Hl & Hs). rewrite Hid.
  destruct (node_retry nj) as [mr rd], ok; [|done]. injection Hi as <-. intros [= <- _].
  split; [done|]. split; [by exists id|done].
Qed.

Lemma node_build_complete id nj w :
  mem_ok -> node_json_ok nj -> exists n w', node_build fallback id nj w = (inr n, w').
Proof.
  intros Hm (_ & Hv & Hl & Hs). unfold node_build, node_fields, AIRY_STRDUP.
  assert (forall w : W, exists w', os_alloc w = (true, w')) as Ha.
  { intros w0. specialize (Hm w0). destruct (os_alloc w0) as [ok w1]. simpl in Hm. subst. by eexists. }
  destruct (Ha w) as [w1 ->]. simpl. destruct (Ha w1) as [w2 ->]. destruct (Ha w2) as [w3 ->].
  destruct (Ha w3) as [w4 ->].
  assert (exists ds w5, node_deps nj w4 = (inr ds, w5)) as (ds & w5 & Ed).
  { unfold node_deps. destruct (j_depends nj) as [dl|]; [|by eexists _, _]. simpl in *.
    destruct (Nat.ltb_spec SCHED_DAG_MAX_DEPS (length dl)); [lia|]. by apply deps_loop_complete. }
  destruct (node_retry nj) as [mr rd].
  destruct (j_validator nj) as [[v|]|]; [|done|]; rewrite Ed; by eexists _, _.
Qed.

(** What every graph in the table satisfies, whatever the run did to its
    nodes. *)
Record graph_wf (ns : list sched_dag_node_t) : Prop := {
  gw_size : (1 <= length ns <= SCHED_DAG_MAX_NODES)%nat;
  gw_nodup : NoDup (n_id <$> ns);
  gw_named : Forall (fun n => n_id n <> "") ns;
  gw_deps : Forall (fun n => (length (depends n) <= SCHED_DAG_MAX_DEPS)%nat) ns;
  gw_known : Forall (fun n => Forall (fun d => is_Some (find_index ns d)) (depends n)) ns;
  gw_acyclic : acyclic ns
}.

(** What a submission must be to be accepted. *)
Definition submission_ok (root : dag_json) : Prop :=
    exists njs, j_nodes root = Some njs /\ Forall node_json_ok njs /\ graph_wf (map node_of njs).

Lemma named_before_false ns id :
  existsb (fun n => strcmp_eq (n_id n) id) ns = false <-> id ∉ (n_id <$> ns).
Proof.
  rewrite <- not_true_iff_false, existsb_exists, list_elem_of_fmap. split.
  - intros H (n & -> & Hn). apply H. exists n. rewrite strcmp_eq_refl. by rewrite <- list_elem_of_In.
  - intros H (n & Hn%list_elem_of_In & E). bool_cases. apply H. by exists n.
Qed.

Lemma nodes_loop_sound njs acc w ns w' :
  NoDup (n_id <$> acc) -> nodes_loop fallback njs acc w = (inr ns, w') ->
  ns = acc ++ map node_of njs /\ Forall node_json_ok njs /\ NoDup (n_id <$> ns).
Proof.
  revert acc w. induction njs as [|nj njs IH]; intros acc w Hnd; simpl.
  { intros [= <- _]. by rewrite app_nil_r. }
  destruct (j_id nj) as [id|] eqn:Eid; [|done].
  destruct (strcmp_eq id "") eqn:E1; [done|]. apply strcmp_eq_false in E1.
  destruct (existsb _ acc) eqn:E2; [done|]. apply named_before_false in E2.
  destruct (node_build fallback id nj w) as [[e|n] w1] eqn:En; [done|].
  apply node_build_sound in En as [-> Hok]; [|done|done]. intros H.
  apply IH in H as (-> & Hoks & Hns).
  - rewrite <- app_assoc. split; [done|]. split; [by constructor|]. by rewrite <- app_assoc in Hns.
  - rewrite fmap_app. simpl. apply NoDup_app. split; [done|]. split; [|apply NoDup_singleton].
    intros x Hx ->%list_elem_of_singleton. unfold node_of in Hx. simpl in Hx. by rewrite Eid in Hx.
Qed.

Lemma nodes_loop_complete njs acc w :
  mem_ok -> Forall node_json_ok njs -> NoDup (n_id <$> acc ++ map node_of njs) ->
  exists ns w', nodes_loop fallback njs acc w = (inr ns, w').
Proof.
  intros Hm Hok. revert acc w. induction Hok as [|nj njs Hnj _ IH]; intros acc w Hnd; simpl.
  { by eexists _, _. }
  destruct Hnj as [(id & Eid & Hne) Hrest]. rewrite Eid.
  rewrite (proj2 (strcmp_eq_false id "")) by done.
  assert (existsb (fun n => strcmp_eq (n_id n) id) acc = false) as ->.
  { apply named_before_false. rewrite fmap_app in Hnd. apply NoDup_app in Hnd as (_ & Hd & _).
    intros Hin. apply (Hd id Hin). simpl. rewrite Eid. by left. }
  destruct (node_build_complete id nj w Hm) as (n & w1 & En); [by split; [exists id|]|].
  rewrite En. apply node_build_sound in En as [-> _]; [|done|done].
  apply IH. by rewrite <- app_assoc.
Qed.

Lemma deps_loop_error ds acc w e w' : deps_loop ds acc w = (inl e, w') -> e <> AIRY_SUCCESS.
Proof.
  revert acc w. induction ds as [|[d|] ds IH]; intros acc w; simpl; [done| |by intros [= <- _]].
  destruct (AIRY_STRDUP d w) as [[c|] w1]; [apply IH|by intros [= <- _]].
Qed.

Lemma node_build_error id nj w e w' : node_build fallback id nj w = (inl e, w') -> e <> AIRY_SUCCESS.
Proof.
  unfold node_build. destruct (os_alloc w) as [[] w1]; simpl; [|by intros [= <- _]].
  destruct (AIRY_STRDUP id w1) as [idc w2].
  destruct (node_fields fallback idc nj w2) as [[e'|[[[i g] r] v]] w3] eqn:Ef.
  - intros [= <- _]. unfold node_fields in Ef.
    destruct (AIRY_STRDUP _ w2) as [g w4], (AIRY_STRDUP _ w4) as [r w5].
    destruct (j_validator nj) as [[]|], idc, g, r; simpl in Ef; simplify_eq; done.
  - destruct (node_deps nj w3) as [[e'|ds] w4] eqn:Ed; [|by destruct (node_retry nj)].
    intros [= <- _]. unfold node_deps in Ed. destruct (j_depends nj) as [dl|]; [|done].
    destruct (_ <? _)%nat; [by injection Ed as <- _|by apply deps_loop_error in Ed].
Qed.

Lemma nodes_loop_error njs acc w e w' : nodes_loop fallback njs acc w = (inl e, w') -> e <> AIRY_SUCCESS.
Proof.
  revert acc w. induction njs as [|nj njs IH]; intros acc w; simpl; [done|].
  destruct (j_id nj) as [id|]; [|by intros [= <- _]].
  destruct (strcmp_eq id ""); [by intros [= <- _]|]. destruct (existsb _ acc); [by intros [= <- _]|].
  destruct (node_build fallback id nj w) as [[e'|n] w1] eqn:En; [|apply IH].
  intros [= <- _]. by eapply node_build_error.
Qed.

Lemma validate_deps_spec ns :
  sched_dag_validate_deps ns = AIRY_SUCCESS <->
  Forall (fun n => Forall (fun d => is_Some (find_index ns d)) (depends n)) ns.
Proof.
  unfold sched_dag_validate_deps. destruct (forallb _ ns) eqn:E.
  - split; [|done]. intros _. rewrite forallb_forall in E. apply List.Forall_forall. intros n Hn.
    specialize (E n Hn). rewrite forallb_forall in E. apply List.Forall_forall. intros d Hd.
    specialize (E d Hd). by apply bool_decide_eq_true in E.
  - split; [done|]. intros Hf. apply forallb_false in E as (n & Hn & (d & Hd & Hb)%forallb_false).
    apply bool_decide_eq_false in Hb. rewrite Forall_forall in Hf. specialize (Hf n Hn).
    rewrite Forall_forall in Hf. by destruct Hb; apply Hf.
Qed.

Lemma omap_id_length (l : list (option string)) : (length (omap id l) <= length l)%nat.
Proof. induction l as [|[s|] l IH]; csimpl; lia. Qed.

Lemma nodes_of_fields njs :
  Forall node_json_ok njs ->
  Forall (fun n => n_id n <> "") (map node_of njs) /\
  Forall (fun n => (length (depends n) <= SCHED_DAG_MAX_DEPS)%nat) (map node_of njs).
Proof.
  intros Hok. split; apply Forall_map; (eapply Forall_impl; [exact Hok|]);
    intros nj ((id & Hid & Hne) & _ & Hl & _); simpl.
  - by rewrite Hid.
  - pose proof (omap_id_length (default [] (j_depends nj))). lia.
Qed.

(** The graph of an accepted submission. *)
Definition graph_of (root : dag_json) (d : sched_dag_t) : Prop :=
    nodes d = map node_of (default [] (j_nodes root)) /\ d_status d = SCHED_DAG_STATUS_ACTIVE /\
    graph_wf (nodes d).
End accept.

(** Submissions are checked exactly.  Building always ends; a graph that is
    built is the one the submission describes, with every node waiting, and it
    is well formed: between 1 and 64 nodes, distinct non-empty names, at most
    8 dependencies each, all of them nodes of the graph, no cycle.  If memory
    does not run out, every submission that describes such a graph is
    accepted. *)
Lemma build_spec {W} `{MemOS W} (fallback : string) (root : dag_json) (w : W) :
  exists r w', sched_dag_validate_and_build fallback root w = (Some r, w') /\
    (forall d, r = inr d -> submission_ok fallback root /\ graph_of fallback root d) /\
    (forall e, r = inl e -> e <> AIRY_SUCCESS) /\
    (mem_ok (W := W) -> submission_ok fallback root -> exists d, r = inr d).
Proof.
  unfold sched_dag_validate_and_build.
  destruct (j_nodes root) as [[|nj0 njs0]|] eqn:Ej.
  1,3: eexists _, _; split; [done|]; split; [done|]; split; [by intros e [= <-]|]; intros _ (njs & E & _ & [Hs _ _ _ _ _]);
       rewrite Ej in E; simplify_eq; simpl in Hs; lia.
  remember (nj0 :: njs0) as njs eqn:Enj.
  assert (forall l, j_nodes root = Some l -> l = njs) as Hl by congruence.
  destruct (Nat.ltb_spec SCHED_DAG_MAX_NODES (length njs)) as [Hn|Hn].
  { eexists _, _; split; [done|]; split; [done|]; split; [by intros e [= <-]|]; intros _ (l & ->%Hl & _ & [Hs _ _ _ _ _]).
    rewrite length_map in Hs. lia. }
  destruct (os_alloc w) as [ok w1] eqn:Eo. destruct ok; cbn [negb].
  2: { eexists _, _. split; [done|]. split; [done|]. split; [by intros e [= <-]|]. intros Hm. specialize (Hm w). by rewrite Eo in Hm. }
  destruct (AIRY_STRDUP _ w1) as [nm w2], (AIRY_STRDUP _ w2) as [inp w3], (AIRY_STRDUP _ w3) as [ws w4].
  destruct (nodes_loop fallback njs [] w4) as [[e|ns] w5] eqn:En.
  { eexists _, _. split; [done|]. split; [done|].
    split; [intros e' [= <-]; by eapply nodes_loop_error|]. intros Hm (l & ->%Hl & Hok & Hwf).
    destruct (nodes_loop_complete fallback njs [] w4 Hm Hok (gw_nodup _ Hwf)) as (ns & w6 & E). congruence. }
  apply nodes_loop_sound in En as (-> & Hok & Hnd); [|constructor].
  simpl in Hnd |- *. destruct (nodes_of_fields fallback njs Hok) as [Hnm Hdp].
  set (ns := map (node_of fallback) njs) in *. change (map (node_of fallback) _) with ns.
  destruct (decide (sched_dag_validate_deps ns = AIRY_SUCCESS)) as [Hv|Hv].
  2: { eexists _, _. split; [done|]. split; [done|]. split; [by intros e [= <-]|].
       rewrite validate_deps_spec in Hv. intros _ (l & ->%Hl & _ & Hwf). by destruct Hv; apply Hwf. }
  rewrite validate_deps_spec in Hv.
  destruct (detect_cycle_exact ns w5 Hdp) as (rc & w6 & -> & Hc & Ho).
  destruct (os_alloc w5) as [[] w7] eqn:E5; simpl in *.
  - destruct (Hc eq_refl) as [Hc1 Hc2]. destruct (decide (rc = AIRY_SUCCESS)) as [->|Hne].
    + assert (graph_wf ns) as Hwf.
      { split; [|done..|by apply Hc1]. unfold ns. rewrite length_map. subst njs. simpl in *. lia. }
      eexists _, _. split; [done|]. split; [|split; [done|by eexists]]. intros d [= <-]. split; [by exists njs|].
      unfold graph_of. by rewrite Ej.
    + exists (inl rc), w6. split; [by destruct rc|]. split; [done|]. split; [by intros e [= <-]|]. intros _ (l & ->%Hl & _ & Hwf).
      destruct Hne. by apply Hc1, gw_acyclic.
  - rewrite (Ho eq_refl). eexists _, _. split; [done|]. split; [done|].
    split; [by intros e [= <-]|]. intros Hm.
    specialize (Hm w5). by rewrite E5 in Hm.
Qed.
