(* ===== verification/DagEngine.v ===== *)
(** * DagEngine

    The execution engine of sched_d's task graphs
    (sched_d/src/dag/sched_dag_engine.c and sched_dag_internal.h): the input of
    a node with the products of its dependencies, readiness, the grading of a
    node's outcome, the cancellation of nodes that can no longer run and the
    final status of a graph.

    All of it runs under the service lock.  The wall clock and the artifact
    validator belong to the commons library and are operations of [SchedOS];
    memory is [MemOS]. *)

From stdpp Require Import relations.
From S2P Require Import Prelude Doubles MemEnv Failover DagGraph.

(** ** Environment *)

(** A left shift of [1ULL] by 64 or more is undefined in C: [shl_wide] is
    whatever the machine gives. *)
Class SchedOS (W : Type) := {
  sched_mem :: MemOS W;
  airy_time_wall_ms : W -> Z * W;
  time_s : W -> Z * W;                               (** time(NULL) *)
  av_t : Type;                                       (** airy_artifact_validator_t *)
  airy_artifact_validator_from_json : string -> W -> option av_t * W;
  av_fails : av_t -> string -> W -> bool * W;        (** res.verify == AIRY_AV_FAIL *)
  shl_wide : Z -> Z
}.

(** ** Status predicates *)

Definition sched_dag_node_done (st : sched_dag_node_status_t) : bool :=
  bool_decide (st = SCHED_DAG_NODE_COMPLETED \/ st = SCHED_DAG_NODE_SEMANTIC_FAILED \/
               st = SCHED_DAG_NODE_FAILED \/ st = SCHED_DAG_NODE_CANCELED).

Definition sched_dag_dep_broken (st : sched_dag_node_status_t) : bool :=
  bool_decide (st = SCHED_DAG_NODE_SEMANTIC_FAILED \/ st = SCHED_DAG_NODE_FAILED \/
               st = SCHED_DAG_NODE_CANCELED).

Definition blank (c : ascii) : bool :=
  (Ascii.eqb c " " || Ascii.eqb c "009" || Ascii.eqb c "010" || Ascii.eqb c "013")%char.

Definition sched_dag_has_output (output : option string) : bool :=
  match output with
  | None => false
  | Some s => negb (str_forallb blank s)
  end.

(** ** Records *)

(** The fields a run changes; the others are the layout of the graph. *)
Definition node_put (n : sched_dag_node_t) (st : sched_dag_node_status_t) (out err : option string)
    (started finished rc rat : Z) : sched_dag_node_t :=
  mkNode (n_id n) (goal n) (role n) (depends n) st out err started finished
    (max_retries n) (retry_delay_ms n) rc rat (validator_rule_json n).

Definition set_status (st : sched_dag_node_status_t) (n : sched_dag_node_t) : sched_dag_node_t :=
  node_put n st (output n) (n_error n) (started_at_ms n) (n_finished_at_ms n) (retry_count n)
    (retry_at_ms n).

Definition set_error (e : option string) (n : sched_dag_node_t) : sched_dag_node_t :=
  node_put n (n_status n) (output n) e (started_at_ms n) (n_finished_at_ms n) (retry_count n)
    (retry_at_ms n).

Definition set_finished (t : Z) (n : sched_dag_node_t) : sched_dag_node_t :=
  node_put n (n_status n) (output n) (n_error n) (started_at_ms n) t (retry_count n) (retry_at_ms n).

Definition set_started (t : Z) (n : sched_dag_node_t) : sched_dag_node_t :=
  node_put n (n_status n) (output n) (n_error n) t (n_finished_at_ms n) (retry_count n)
    (retry_at_ms n).

Definition set_output (o : option string) (n : sched_dag_node_t) : sched_dag_node_t :=
  node_put n (n_status n) o (n_error n) (started_at_ms n) (n_finished_at_ms n) (retry_count n)
    (retry_at_ms n).

Definition set_retry (rc rat : Z) (n : sched_dag_node_t) : sched_dag_node_t :=
  node_put n (n_status n) (output n) (n_error n) (started_at_ms n) (n_finished_at_ms n) rc rat.

Definition dag_put (d : sched_dag_t) (ns : list sched_dag_node_t) (st : sched_dag_status_t)
    (finished : Z) : sched_dag_t :=
  mkDag (dag_id d) (d_name d) (d_input d) (workspace_dir d) ns st (created_at_ms d) finished
    (retry_budget_ms d).

Definition set_nodes (ns : list sched_dag_node_t) (d : sched_dag_t) : sched_dag_t :=
  dag_put d ns (d_status d) (d_finished_at_ms d).

Definition active (d : sched_dag_t) : bool := bool_decide (d_status d = SCHED_DAG_STATUS_ACTIVE).

(** ** The input of a node *)

Definition nonempty (s : option string) : bool :=
  match s with Some s => negb (strcmp_eq s "") | None => false end.

Definition sched_dag_agent_input (d : sched_dag_t) (n : sched_dag_node_t) : string :=
  if negb (strcmp_eq (goal n) "") && negb (strcmp_eq (goal n) (n_id n)) then goal n
  else default "" (d_input d).

Definition sched_dag_find_node (ns : list sched_dag_node_t) (id : string) : option sched_dag_node_t :=
  j ← find_index ns id; ns !! j.

Definition SCHED_DAG_UPSTREAM_BUDGET : nat := 4096.

(** The dependencies that contribute: completed, with a non-empty product. *)
Definition eligible_deps (ns : list sched_dag_node_t) (n : sched_dag_node_t)
    : list (string * string) :=
  omap (fun id =>
    dep ← sched_dag_find_node ns id;
    if bool_decide (n_status dep = SCHED_DAG_NODE_COMPLETED) && nonempty (output dep)
    then o ← output dep; Some (n_id dep, o) else None)
    (take SCHED_DAG_MAX_DEPS (depends n)).

(** How many bytes of each product are taken: at most an equal share and at
    most what is left of the budget; a dependency without room ends the list. *)
Fixpoint dep_takes (budget share used : nat) (deps : list (string * string))
    : list (string * string * nat) :=
  match deps with
  | [] => []
  | (id, o) :: deps' =>
      let take := Nat.min (Nat.min (String.length o) share) (budget - used) in
      if (take =? 0)%nat then []
      else (id, o, take) :: dep_takes budget share (used + take) deps'
  end.

Definition NL : string := String "010" EmptyString.

Definition upstream_header (id : string) : string :=
  NL +:+ NL +:+ "--- 上游产出 [" +:+ id +:+ "] ---" +:+ NL.

(** The size of the buffer. *)
Fixpoint input_total (base_len : nat) (picks : list (string * string * nat)) : nat :=
  match picks with
  | [] => S base_len
  | (id, _, tk) :: ps => String.length id + tk + 32 + input_total base_len ps
  end.

(** What is appended to the base from offset [off] on; a header that does not
    fit ends the loop. *)
Fixpoint append_upstream (total off : nat) (picks : list (string * string * nat)) : string :=
  match picks with
  | [] => ""
  | (id, o, tk) :: ps =>
      let h := upstream_header id in
      if (total - off <=? String.length h)%nat then ""
      else h +:+ String.substring 0 tk o +:+
             append_upstream total (off + String.length h + tk) ps
  end.

Section engine.
  Context {W : Type} `{OS : SchedOS W} `{EM : ErrModel}.

Definition sched_dag_node_input (d : sched_dag_t) (n : sched_dag_node_t) (budget : nat) (w : W)
      : option string * W :=
    let base := sched_dag_agent_input d n in
    let deps := eligible_deps (nodes d) n in
    match deps with
    | [] => AIRY_STRDUP base w
    | _ =>
        match dep_takes budget (budget / length deps) 0 deps with
        | [] => AIRY_STRDUP base w
        | picks =>
            let total := input_total (String.length base) picks in
            let '(ok, w) := os_alloc w in
            (if ok : bool
             then Some (base +:+ append_upstream total (String.length base) picks) else None, w)
        end
    end.

(** ** Readiness *)

Fixpoint deps_ready (ns : list sched_dag_node_t) (ds : list string) : Z :=
    match ds with
    | [] => 1
    | d :: ds' =>
        match sched_dag_find_node ns d with
        | None => 0
        | Some dep =>
            if bool_decide (n_status dep = SCHED_DAG_NODE_COMPLETED) then deps_ready ns ds'
            else if sched_dag_dep_broken (n_status dep) then -1 else 0
        end
    end.

Definition sched_dag_node_ready (ns : list sched_dag_node_t) (n : sched_dag_node_t) (w : W)
      : Z * W :=
    if bool_decide (n_status n <> SCHED_DAG_NODE_PENDING) then (0, w)
    else if retry_at_ms n =? 0 then (deps_ready ns (depends n), w)
    else let '(now, w) := airy_time_wall_ms w in
         (if now <? retry_at_ms n then 0 else deps_ready ns (depends n), w).

(** The first ready node of a graph, from index [j] on. *)
Fixpoint scan_nodes (ns : list sched_dag_node_t) (j : nat) (rest : list sched_dag_node_t) (w : W)
      : option nat * W :=
    match rest with
    | [] => (None, w)
    | n :: rest' =>
        let '(r, w) := sched_dag_node_ready ns n w in
        if 0 <? r then (Some j, w) else scan_nodes ns (S j) rest' w
    end.

Fixpoint scan_dags (i : nat) (ds : list sched_dag_t) (w : W) : option (nat * nat) * W :=
    match ds with
    | [] => (None, w)
    | d :: ds' =>
        if active d then
          let '(r, w) := scan_nodes (nodes d) 0 (nodes d) w in
          match r with
          | Some j => (Some (i, j), w)
          | None => scan_dags (S i) ds' w
          end
        else scan_dags (S i) ds' w
    end.

(** The graph and node index of the first ready node. *)
Definition sched_dag_find_ready (ds : list sched_dag_t) (w : W) : option (nat * nat) * W :=
    scan_dags 0 ds w.

Definition sched_dag_all_terminal (ns : list sched_dag_node_t) : bool :=
    forallb (fun n => sched_dag_node_done (n_status n)) ns.

(** ** Error classes *)

Definition fatal_codes : list airy_rc :=
    [AIRY_ERR_OUT_OF_MEMORY; AIRY_ERR_SYS_RESOURCE; AIRY_ERR_SYS_THREAD; AIRY_ERR_SYS_MUTEX;
     AIRY_ERR_SYS_SEMAPHORE; AIRY_ERR_SYS_CONDITION; AIRY_ERR_SYS_PIPE; AIRY_ERR_SYS_PROCESS;
     AIRY_ERR_SYS_SOCKET; AIRY_ERR_SYS_FILE].

Definition transient_codes : list airy_rc :=
    [AIRY_ERR_TIMEOUT; AIRY_ERR_EXEC_TIMEOUT; AIRY_ERR_SVC_NOT_READY; AIRY_ERR_SVC_BUSY;
     AIRY_ERR_SVC_STOPPED; AIRY_ERR_LLM_RATE_LIMIT; AIRY_ERR_LLM_PROVIDER_FAIL;
     AIRY_ERR_LLM_PARSE_RESP; AIRY_ERR_LLM_EMPTY_RESP; AIRY_ERR_PARSE_ERROR;
     AIRY_ERR_INTERRUPTED; AIRY_ERR_WOULD_BLOCK].

Definition sched_dag_error_is_fatal (dret : Z) : bool :=
    existsb (fun c => dret =? err_code c) fatal_codes.

Definition sched_dag_error_is_transient (dret : Z) : bool :=
    existsb (fun c => dret =? err_code c) transient_codes.

(** ** Write-back *)

Definition node_err_set (n : sched_dag_node_t) (msg : option string) (w : W)
      : sched_dag_node_t * W :=
    let '(e, w) := strdup_opt msg w in (set_error e n, w).

Definition node_final (n : sched_dag_node_t) (st : sched_dag_node_status_t) (w : W)
      : sched_dag_node_t * W :=
    let '(t, w) := airy_time_wall_ms w in
    (set_finished t (set_retry (retry_count n) 0 (set_status st n)), w).

Fixpoint dag_cascade_cancel (ns : list sched_dag_node_t) (w : W) : list sched_dag_node_t * W :=
    match ns with
    | [] => ([], w)
    | n :: ns' =>
        let '(n', w) :=
          if bool_decide (n_status n = SCHED_DAG_NODE_PENDING \/ n_status n = SCHED_DAG_NODE_READY)
          then node_final n SCHED_DAG_NODE_CANCELED w else (n, w) in
        let '(r, w) := dag_cascade_cancel ns' w in (n' :: r, w)
    end.

(** Only the pass/fail grade matters: the reason goes to the log. *)
Definition node_verify (n : sched_dag_node_t) (out : string) (w : W) : bool * W :=
    if nonempty (validator_rule_json n) then
      let '(v, w) := airy_artifact_validator_from_json (default "" (validator_rule_json n)) w in
      match v with
      | None => (true, w)
      | Some v => let '(f, w) := av_fails v out w in (negb f, w)
      end
    else (true, w).

Definition node_discard (n : sched_dag_node_t) (w : W) : sched_dag_node_t * W :=
    node_final n SCHED_DAG_NODE_CANCELED w.

Definition node_succeed (n : sched_dag_node_t) (out : option string) (w : W)
      : bool * sched_dag_node_t * W :=
    if negb (sched_dag_has_output out) then
      let '(n, w) := node_err_set n (Some "agent produced no artifact") w in
      let '(n, w) := node_final n SCHED_DAG_NODE_SEMANTIC_FAILED w in
      (false, n, w)
    else
      let '(ok, w) := node_verify n (default "" out) w in
      if negb ok then
        let '(n, w) := node_err_set n (Some "artifact verification failed") w in
        let '(n, w) := node_final n SCHED_DAG_NODE_FAILED w in
        (false, n, w)
      else
        let '(n, w) := node_err_set (set_output out n) None w in
        let '(n, w) := node_final n SCHED_DAG_NODE_COMPLETED w in
        (true, n, w).

(** The node at index [j] of the graph fails and takes the graph with it. *)
Definition dag_abort (d : sched_dag_t) (j : nat) (n : sched_dag_node_t) (msg : string) (w : W)
      : sched_dag_t * W :=
    let '(n, w) := node_err_set n (Some msg) w in
    let n := set_status SCHED_DAG_NODE_FAILED n in
    let '(ns, w) := dag_cascade_cancel (<[j := n]> (nodes d)) w in
    (dag_put d ns SCHED_DAG_STATUS_FAILED (d_finished_at_ms d), w).

Definition shl_1ULL (k : Z) : Z := if k <? 64 then Z.shiftl 1 k else u64 (shl_wide k).

Definition node_backoff (d : sched_dag_t) (n : sched_dag_node_t) (dret : Z) (w : W)
      : option sched_dag_node_t * W :=
    if negb (sched_dag_error_is_transient dret) || (max_retries n <=? retry_count n) then (None, w)
    else
      let '(now, w) := airy_time_wall_ms w in
      let deadline := if retry_budget_ms d =? 0 then 0
                      else u64 (created_at_ms d + retry_budget_ms d) in
      if negb (deadline =? 0) && (deadline <=? now) then (None, w)
      else
        let rc := u32 (retry_count n + 1) in
        let backoff := u64 ((if retry_delay_ms n =? 0 then 1000 else retry_delay_ms n)
                            * shl_1ULL (u32 (rc - 1))) in
        let n := set_retry rc (u64 (now + backoff)) n in
        let '(n, w) := node_err_set n (Some "transient failure, retrying with backoff") w in
        (Some (set_finished 0 (set_status SCHED_DAG_NODE_PENDING n)), w).

Definition fail_reason (fatal : bool) (dret : Z) : string :=
    if fatal then "agent dispatch failed (fatal)"
    else if dret =? err_code AIRY_ERR_SVC_NOT_READY then "dag executor not injected"
    else "agent dispatch failed".

Definition sched_dag_write_back_node (dag_fatal_cascade : bool) (d : sched_dag_t) (j : nat)
      (n : sched_dag_node_t) (dret : Z) (out : option string) (w : W) : bool * sched_dag_t * W :=
    if bool_decide (n_status n = SCHED_DAG_NODE_CANCELED \/
                    d_status d = SCHED_DAG_STATUS_CANCELED \/ d_status d = SCHED_DAG_STATUS_FAILED)
    then let '(n, w) := node_discard n w in (false, set_nodes (<[j := n]> (nodes d)) d, w)
    else if dret =? err_code AIRY_SUCCESS
    then let '(r, n, w) := node_succeed n out w in (r, set_nodes (<[j := n]> (nodes d)) d, w)
    else
      let '(t, w) := airy_time_wall_ms w in
      let '(n, w) := node_err_set (set_finished t n) None w in
      let fatal := dag_fatal_cascade && sched_dag_error_is_fatal dret in
      if fatal || negb dag_fatal_cascade then
        let '(d, w) := dag_abort d j n (fail_reason fatal dret) w in (false, d, w)
      else
        let '(b, w) := node_backoff d n dret w in
        match b with
        | Some n => (false, set_nodes (<[j := n]> (nodes d)) d, w)
        | None =>
            let '(n, w) := node_err_set n (Some "agent dispatch failed") w in
            (false, set_nodes (<[j := set_status SCHED_DAG_NODE_FAILED n]> (nodes d)) d, w)
        end.

(** ** Convergence *)

(** The dependencies of the node at [j]: each broken one cancels it. *)
Fixpoint propagate_deps (ns : list sched_dag_node_t) (j : nat) (ds : list string) (changed : bool)
      (w : W) : list sched_dag_node_t * bool * W :=
    match ds with
    | [] => (ns, changed, w)
    | d :: ds' =>
        match sched_dag_find_node ns d, ns !! j with
        | Some dep, Some n =>
            if sched_dag_dep_broken (n_status dep)
            then let '(n', w) := node_final n SCHED_DAG_NODE_CANCELED w in
                 propagate_deps (<[j := n']> ns) j ds' true w
            else propagate_deps ns j ds' changed w
        | _, _ => propagate_deps ns j ds' changed w
        end
    end.

Fixpoint propagate_nodes (ns : list sched_dag_node_t) (js : list nat) (changed : bool) (w : W)
      : list sched_dag_node_t * bool * W :=
    match js with
    | [] => (ns, changed, w)
    | j :: js' =>
        match ns !! j with
        | Some n =>
            if bool_decide (n_status n = SCHED_DAG_NODE_PENDING)
            then let '(ns', ch, w) := propagate_deps ns j (depends n) changed w in
                 propagate_nodes ns' js' ch w
            else propagate_nodes ns js' changed w
        | None => propagate_nodes ns js' changed w
        end
    end.

Fixpoint propagate_dags (ds : list sched_dag_t) (changed : bool) (w : W)
      : list sched_dag_t * bool * W :=
    match ds with
    | [] => ([], changed, w)
    | d :: ds' =>
        if active d then
          let '(ns, ch, w) := propagate_nodes (nodes d) (seq 0 (length (nodes d))) changed w in
          let '(r, ch, w) := propagate_dags ds' ch w in (set_nodes ns d :: r, ch, w)
        else let '(r, ch, w) := propagate_dags ds' changed w in (d :: r, ch, w)
    end.

(** The [do ... while (changed)] loop; [propagate_total] gives the fuel. *)
Fixpoint sched_dag_propagate_unreachable (fuel : nat) (ds : list sched_dag_t) (w : W)
      : option (list sched_dag_t) * W :=
    match fuel with
    | O => (None, w)
    | S fuel' =>
        let '(ds', ch, w) := propagate_dags ds false w in
        if ch : bool then sched_dag_propagate_unreachable fuel' ds' w else (Some ds', w)
    end.

(** The loop with its [break] at the first FAILED node. *)
Fixpoint terminal_flags (ns : list sched_dag_node_t) (has_semantic : bool) : bool * bool :=
    match ns with
    | [] => (false, has_semantic)
    | n :: ns' =>
        if bool_decide (n_status n = SCHED_DAG_NODE_FAILED) then (true, has_semantic)
        else terminal_flags ns'
               (has_semantic || bool_decide (n_status n = SCHED_DAG_NODE_SEMANTIC_FAILED))
    end.

Definition terminal_status (ns : list sched_dag_node_t) : sched_dag_status_t :=
    let '(has_failed, has_semantic) := terminal_flags ns false in
    if has_failed : bool then SCHED_DAG_STATUS_FAILED
    else if has_semantic : bool then SCHED_DAG_STATUS_SEMANTIC_FAILED
    else SCHED_DAG_STATUS_COMPLETED.

Fixpoint sched_dag_finalize_terminal (ds : list sched_dag_t) (w : W) : list sched_dag_t * W :=
    match ds with
    | [] => ([], w)
    | d :: ds' =>
        let '(d', w) :=
          if active d && sched_dag_all_terminal (nodes d)
          then let '(t, w) := airy_time_wall_ms w in
               (dag_put d (nodes d) (terminal_status (nodes d)) t, w)
          else (d, w) in
        let '(r, w) := sched_dag_finalize_terminal ds' w in (d' :: r, w)
    end.

(** ** Backoff wait *)

Definition min_retry_node (now min : Z) (n : sched_dag_node_t) : Z :=
    if bool_decide (n_status n = SCHED_DAG_NODE_PENDING) && (now <? retry_at_ms n) &&
       ((min =? 0) || (retry_at_ms n <? min))
    then retry_at_ms n else min.

Definition min_retry_dag (now min : Z) (d : sched_dag_t) : Z :=
    if active d then fold_left (min_retry_node now) (nodes d) min else min.

Definition sched_dag_min_retry_at (ds : list sched_dag_t) (w : W) : Z * W :=
    let '(now, w) := airy_time_wall_ms w in
    (fold_left (min_retry_dag now) ds 0, w).
End engine.

(** ** Layout *)

(** What no operation of the engine changes. *)
Definition layout (n : sched_dag_node_t) : string * list string * Z :=
  (n_id n, depends n, max_retries n).

Definition same_layout (ns ns' : list sched_dag_node_t) : Prop := layout <$> ns = layout <$> ns'.

#[export] Instance same_layout_equiv : Equivalence same_layout.
Proof.
  split; unfold same_layout; [by intros ?|by intros ? ? ->|by intros ? ? ? -> ->].
Qed.

Lemma find_from_layout j ns ns' id :
  same_layout ns ns' -> find_from j ns id = find_from j ns' id.
Proof.
  unfold same_layout. revert j ns'. induction ns as [|n ns IH]; intros j [|n' ns'] E; try done.
  simpl. injection E as E1 _ _ E. rewrite E1. case_match; [done|by apply IH].
Qed.

#[export] Instance find_index_proper : Proper (same_layout ==> eq ==> eq) find_index.
Proof. intros ns ns' E id ? <-. by apply find_from_layout. Qed.

Lemma same_layout_lookup ns ns' i n :
  same_layout ns ns' -> ns !! i = Some n -> exists n', ns' !! i = Some n' /\ layout n' = layout n.
Proof.
  intros E Hn. assert ((layout <$> ns') !! i = Some (layout n)) as H.
  { rewrite <- E, list_lookup_fmap, Hn. done. }
  rewrite list_lookup_fmap in H. destruct (ns' !! i) as [n'|]; [|done]. simpl in H.
  injection H as H1 H2 H3. exists n'. split; [done|]. unfold layout. congruence.
Qed.

Lemma dep_edge_layout ns ns' i j : same_layout ns ns' -> dep_edge ns i j -> dep_edge ns' i j.
Proof.
  intros E (n & d & Hi & Hd & Hf). destruct (same_layout_lookup _ _ _ _ E Hi) as (n' & Hi' & El).
  exists n', d. split; [done|]. injection El as _ El _. rewrite El.
  by rewrite <- (find_index_proper _ _ E d d eq_refl).
Qed.

#[export] Instance dep_edge_proper : Proper (same_layout ==> eq ==> eq ==> iff) dep_edge.
Proof.
  intros ns ns' E i ? <- j ? <-. split; apply dep_edge_layout; [done|by symmetry].
Qed.

Lemma acyclic_layout ns ns' : same_layout ns ns' -> acyclic ns -> acyclic ns'.
Proof.
  intros E Ha i Hc. apply (Ha i). revert Hc. generalize i at 1 3. intros k Hc.
  induction Hc as [? ? H|? ? ? H _ IH];
    apply (dep_edge_proper _ _ E _ _ eq_refl _ _ eq_refl) in H.
  - by apply tc_once.
  - by eapply tc_l.
Qed.

Lemma Forall_layout (P : string * list string * Z -> Prop) ns ns' :
  same_layout ns ns' -> Forall (fun n => P (layout n)) ns -> Forall (fun n => P (layout n)) ns'.
Proof.
  intros E. rewrite <- (Forall_fmap layout P ns), <- (Forall_fmap layout P ns'). by rewrite E.
Qed.

(** A well-formed graph stays well formed: a run does not touch its layout. *)
Lemma graph_wf_layout ns ns' : same_layout ns ns' -> graph_wf ns -> graph_wf ns'.
Proof.
  intros E [Hs Hn Hnm Hd Hk Ha].
  assert (length ns' = length ns) as El.
  { pose proof (f_equal length E) as H. by rewrite !length_fmap in H. }
  split.
  - by rewrite El.
  - assert (n_id <$> ns' = n_id <$> ns) as ->; [|done].
    assert (forall l : list sched_dag_node_t, n_id <$> l = (fun p : string * list string * Z => p.1.1) <$> (layout <$> l)) as Hl.
    { intros l. by rewrite <- list_fmap_compose. }
    by rewrite !Hl, E.
  - by apply (Forall_layout (fun p => p.1.1 <> "") ns).
  - by apply (Forall_layout (fun p => (length p.1.2 <= SCHED_DAG_MAX_DEPS)%nat) ns).
  - apply (Forall_layout (fun p => Forall (fun d => is_Some (find_index ns' d)) p.1.2) ns); [done|].
    eapply Forall_impl; [exact Hk|]. intros n H. eapply Forall_impl; [exact H|]. intros d.
    cbn beta. by rewrite (find_index_proper _ _ E d d eq_refl).
  - by eapply acyclic_layout.
Qed.

(** ** Evolution *)

(** Everything that happens to a graph's nodes: the layout stays, and a node
    in a final state is not touched again. *)
Definition evolve (ns ns' : list sched_dag_node_t) : Prop :=
  Forall2 (fun n n' => layout n' = layout n /\ (sched_dag_node_done (n_status n) = true -> n' = n))
    ns ns'.

#[export] Instance evolve_preorder : PreOrder evolve.
Proof.
  split.
  - intros ns. apply Forall_Forall2_diag. by apply Forall_true.
  - intros a b c H1. revert c. induction H1 as [|n1 n2 l1 l2 [E1 D1] _ IH]; intros c H2;
      inversion H2 as [|? n3 ? l3 [E2 D2]]; subst; constructor; [|by apply IH].
    split; [congruence|]. intros Hd. pose proof (D1 Hd). subst. by apply D2.
Qed.

#[export] Instance evolve_layout : subrelation evolve same_layout.
Proof.
  intros ns ns' H. induction H as [|n n' ns ns' [E _] _ IH]; [done|].
  unfold same_layout in *. csimpl. by rewrite E, IH.
Qed.

Lemma evolve_lookup ns ns' i n :
  evolve ns ns' -> ns !! i = Some n ->
  exists n', ns' !! i = Some n' /\ layout n' = layout n /\
    (sched_dag_node_done (n_status n) = true -> n' = n).
Proof. intros H Hn. destruct (Forall2_lookup_l _ _ _ _ _ H Hn) as (n' & ? & ? & ?). eauto. Qed.

Lemma evolve_insert ns j n n' :
  ns !! j = Some n -> layout n' = layout n -> sched_dag_node_done (n_status n) = false ->
  evolve ns (<[j := n']> ns).
Proof.
  intros Hj El Hd. apply Forall2_same_length_lookup_2.
  { by rewrite length_insert. }
  intros i x y Hx Hy. destruct (decide (i = j)) as [->|Hne].
  - rewrite list_lookup_insert_eq in Hy by (by eapply lookup_lt_Some). injection Hy as <-.
    assert (x = n) as -> by congruence. split; [done|]. by rewrite Hd.
  - rewrite list_lookup_insert_ne in Hy by done. assert (y = x) as -> by congruence. by split.
Qed.

(** ** Statuses *)

Definition status_at (ns : list sched_dag_node_t) (i : nat) : option sched_dag_node_status_t :=
  n_status <$> ns !! i.

(** Every dependency of node [i] is completed. *)
Definition deps_completed (ns : list sched_dag_node_t) (i : nat) : Prop :=
  forall j, dep_edge ns i j -> status_at ns j = Some SCHED_DAG_NODE_COMPLETED.

(** Some dependency of node [i] is final and unusable. *)
Definition dep_is_broken (ns : list sched_dag_node_t) (i : nat) : Prop :=
  exists j st, dep_edge ns i j /\ status_at ns j = Some st /\ sched_dag_dep_broken st = true.

Lemma broken_done st : sched_dag_dep_broken st = true -> sched_dag_node_done st = true.
Proof. by destruct st. Qed.

Lemma done_cases st :
  sched_dag_node_done st = true <-> st = SCHED_DAG_NODE_COMPLETED \/ sched_dag_dep_broken st = true.
Proof. destruct st; vm_compute; naive_solver. Qed.

#[export] Hint Resolve broken_done : daemon.

Lemma evolve_status ns ns' i st :
  evolve ns ns' -> status_at ns i = Some st -> sched_dag_node_done st = true ->
  status_at ns' i = Some st.
Proof.
  unfold status_at. intros He Hs Hd. destruct (ns !! i) as [n|] eqn:Hn; [|done].
  injection Hs as <-. destruct (evolve_lookup _ _ _ _ He Hn) as (n' & -> & _ & Heq).
  by rewrite Heq.
Qed.

Lemma evolve_deps_completed ns ns' i : evolve ns ns' -> deps_completed ns i -> deps_completed ns' i.
Proof.
  intros He Hd j Hj. eapply evolve_status; [done| |done]. apply Hd.
  by eapply dep_edge_layout; [symmetry; by apply evolve_layout|].
Qed.

Lemma evolve_broken ns ns' i : evolve ns ns' -> dep_is_broken ns i -> dep_is_broken ns' i.
Proof.
  intros He (j & st & Hj & Hs & Hb). exists j, st. split; [|split; [|done]].
  - eapply dep_edge_layout; [by apply evolve_layout|done].
  - eapply evolve_status; [done|done|by apply broken_done].
Qed.

Lemma find_node_index ns id dep :
  sched_dag_find_node ns id = Some dep -> exists j, find_index ns id = Some j /\ ns !! j = Some dep.
Proof. unfold sched_dag_find_node. destruct (find_index ns id); [|done]. simpl. eauto. Qed.

(** The readiness scan of the dependencies. *)
Lemma deps_ready_spec ns i n :
  ns !! i = Some n -> Forall (fun d => is_Some (find_index ns d)) (depends n) ->
  (0 <? deps_ready ns (depends n)) = true <-> deps_completed ns i.
Proof.
  intros Hn Hk. unfold deps_completed.
  trans (forall d j, d ∈ depends n -> find_index ns d = Some j ->
           status_at ns j = Some SCHED_DAG_NODE_COMPLETED).
  2: { split.
       - intros H j (n' & d & Hi & Hd & Hf). simplify_eq. by eapply H.
       - intros H d j Hd Hf. apply H. by exists n, d. }
  induction (depends n) as [|d ds IH]; simpl.
  { split; [|done]. intros _ d j Hd. by apply not_elem_of_nil in Hd. }
  apply Forall_cons in Hk as [[j Hj] Hk]. specialize (IH Hk).
  destruct (find_index_Some _ _ _ Hj) as (dep & Hdep & _).
  unfold sched_dag_find_node at 1. rewrite Hj. simpl. rewrite Hdep.
  case_bool_decide as Ec.
  - rewrite IH. split.
    + intros H d' j' [->|Hd']%elem_of_cons Hf; [|by eapply H]. simplify_eq.
      unfold status_at. by rewrite Hdep, <- Ec.
    + intros H d' j' Hd'. apply H. by right.
  - split.
    + intros H. exfalso. by destruct (sched_dag_dep_broken (n_status dep)).
    + intros H. destruct Ec. specialize (H d j ltac:(by left) Hj). unfold status_at in H.
      rewrite Hdep in H. by injection H.
Qed.

(** ** Cancellation *)

Definition canceled (n n' : sched_dag_node_t) : Prop :=
  exists t, n' = node_put n SCHED_DAG_NODE_CANCELED (output n) (n_error n) (started_at_ms n) t
                   (retry_count n) 0.

Lemma canceled_status n n' : canceled n n' -> n_status n' = SCHED_DAG_NODE_CANCELED.
Proof. by intros [t ->]. Qed.

Lemma canceled_layout n n' : canceled n n' -> layout n' = layout n.
Proof. by intros [t ->]. Qed.

Lemma canceled_again n n1 n2 : canceled n n1 -> canceled n1 n2 -> canceled n n2.
Proof. intros [t ->] [t' ->]. by exists t'. Qed.

#[export] Hint Resolve canceled_status canceled_layout : daemon.

Section cancel.
  Context {W : Type} `{OS : SchedOS W} `{EM : ErrModel}.

Lemma node_final_canceled n (w : W) n' w' :
  node_final n SCHED_DAG_NODE_CANCELED w = (n', w') -> canceled n n'.
Proof.
  unfold node_final. destruct (airy_time_wall_ms w) as [t w1]. intros [= <- _]. by exists t.
Qed.

Lemma cascade_spec ns (w : W) ns' w' :
  dag_cascade_cancel ns w = (ns', w') ->
  Forall2 (fun n n' =>
    if bool_decide (n_status n = SCHED_DAG_NODE_PENDING \/ n_status n = SCHED_DAG_NODE_READY)
    then canceled n n' else n' = n) ns ns'.
Proof.
  revert w ns'. induction ns as [|n ns IH]; intros w ns'; simpl.
  { by intros [= <- _]. }
  destruct (bool_decide _) eqn:E.
  - destruct (node_final n _ w) as [n1 w1] eqn:En. apply node_final_canceled in En.
    destruct (dag_cascade_cancel ns w1) as [r w2] eqn:Er. intros [= <- <-].
    constructor; [by rewrite E|by eapply IH].
  - destruct (dag_cascade_cancel ns w) as [r w2] eqn:Er. intros [= <- <-].
    constructor; [by rewrite E|by eapply IH].
Qed.

(** *** Nodes that can no longer run *)

(** A pending node is doomed when a dependency is broken or itself doomed. *)
Inductive doomed (ns : list sched_dag_node_t) : nat -> Prop :=
| doomed_broken i : status_at ns i = Some SCHED_DAG_NODE_PENDING -> dep_is_broken ns i -> doomed ns i
| doomed_chain i j : status_at ns i = Some SCHED_DAG_NODE_PENDING -> dep_edge ns i j ->
    doomed ns j -> doomed ns i.

Definition broken_in (ns : list sched_dag_node_t) (ds : list string) : Prop :=
  exists d k st, d ∈ ds /\ find_index ns d = Some k /\ status_at ns k = Some st /\
    sched_dag_dep_broken st = true.

Lemma broken_in_depends ns i n :
  ns !! i = Some n -> broken_in ns (depends n) <-> dep_is_broken ns i.
Proof.
  intros Hi. split.
  - intros (d & k & st & Hd & Hk & Hs & Hb). exists k, st. split; [by exists n, d|done].
  - intros (k & st & (n' & d & Hi' & Hd & Hk) & Hs & Hb). simplify_eq. by exists d, k, st.
Qed.

(** After the first hit the remaining dependencies change nothing more. *)
Lemma propagate_deps_after ns j n n1 ds (w : W) ns' ch' w' :
  ns !! j = Some n -> canceled n n1 ->
  propagate_deps (<[j := n1]> ns) j ds true w = (ns', ch', w') ->
  ch' = true /\ exists n2, canceled n n2 /\ ns' = <[j := n2]> ns.
Proof.
  intros Hj. revert n1 w. induction ds as [|d ds IH]; intros n1 w Hc; simpl.
  { intros [= <- <- _]. eauto. }
  rewrite list_lookup_insert_eq by (by eapply lookup_lt_Some).
  destruct (sched_dag_find_node _ d) as [dep|]; [|by apply IH].
  destruct (sched_dag_dep_broken _); [|by apply IH].
  destruct (node_final n1 _ w) as [n2 w2] eqn:En. apply node_final_canceled in En.
  rewrite list_insert_insert_eq. apply IH. by eapply canceled_again.
Qed.

Lemma propagate_deps_spec ns j n ds ch (w : W) ns' ch' w' :
  ns !! j = Some n -> propagate_deps ns j ds ch w = (ns', ch', w') ->
  (ns' = ns /\ ch' = ch /\ ~ broken_in ns ds) \/
  (broken_in ns ds /\ ch' = true /\ exists n', canceled n n' /\ ns' = <[j := n']> ns).
Proof.
  intros Hj. revert w. induction ds as [|d ds IH]; intros w; simpl.
  { intros [= <- <- _]. left. split; [done|]. split; [done|].
    intros (d & k & st & Hd%not_elem_of_nil & _). done. }
  rewrite Hj. intros H.
  assert (broken_in ns (d :: ds) <->
            (exists dep, sched_dag_find_node ns d = Some dep /\ sched_dag_dep_broken (n_status dep) = true)
            \/ broken_in ns ds) as Hcons.
  { split.
    - intros (d' & k & st & [->|Hd]%elem_of_cons & Hk & Hs & Hb); [left|right; by exists d', k, st].
      unfold status_at in Hs. destruct (ns !! k) as [dep|] eqn:Hdep; [|done]. injection Hs as <-.
      exists dep. unfold sched_dag_find_node. by rewrite Hk.
    - intros [(dep & (k & Hk & Hdep)%find_node_index & Hb)|(d' & k & st & Hd & Hr)].
      + exists d, k, (n_status dep). unfold status_at. rewrite Hdep. repeat split; try done. by left.
      + exists d', k, st. split; [by right|done]. }
  destruct (sched_dag_find_node ns d) as [dep|] eqn:Ed; [destruct (sched_dag_dep_broken (n_status dep)) eqn:Eb|].
  - right. destruct (node_final n _ w) as [n1 w1] eqn:En. apply node_final_canceled in En.
    apply propagate_deps_after with (n := n) in H as [-> Hx]; [|done|done].
    split; [apply Hcons; left; eauto|done].
  - destruct (IH _ H) as [(-> & -> & Hn)|(Hb & -> & Hx)].
    + left. split; [done|]. split; [done|]. rewrite Hcons. intros [(x & Hx & ?)|?]; [|done]. congruence.
    + right. split; [by apply Hcons; right|done].
  - destruct (IH _ H) as [(-> & -> & Hn)|(Hb & -> & Hx)].
    + left. split; [done|]. split; [done|]. rewrite Hcons. by intros [(? & ? & ?)|?].
    + right. split; [by apply Hcons; right|done].
Qed.

(** What the sweeps have done to the nodes [ns0] so far. *)
Definition swept (ns0 ns : list sched_dag_node_t) : Prop :=
  length ns = length ns0 /\
  forall i n0 n, ns0 !! i = Some n0 -> ns !! i = Some n ->
    n = n0 \/ (n_status n0 = SCHED_DAG_NODE_PENDING /\ canceled n0 n /\ doomed ns0 i).

Lemma swept_refl ns : swept ns ns.
Proof. split; [done|]. intros i n0 n H1 H2. left. congruence. Qed.

Lemma swept_evolve ns0 ns : swept ns0 ns -> evolve ns0 ns.
Proof.
  intros [Hl Hs]. apply Forall2_same_length_lookup_2; [done|]. intros i n0 n H0 H.
  destruct (Hs i n0 n H0 H) as [->|(Hp & Hc & _)]; [done|]. split; [by apply canceled_layout|].
  by rewrite Hp.
Qed.

Lemma swept_step ns0 ns j n n' :
  swept ns0 ns -> ns !! j = Some n -> n_status n = SCHED_DAG_NODE_PENDING -> dep_is_broken ns j ->
  canceled n n' -> swept ns0 (<[j := n']> ns).
Proof.
  intros Hsw Hj Hp (k & st & Hk & Hst & Hb) Hc. pose proof (swept_evolve _ _ Hsw) as He.
  destruct Hsw as [Hl Hs]. split; [by rewrite length_insert|].
  intros i m0 m Hm0 Hm. destruct (decide (i = j)) as [->|Hne].
  2: { rewrite list_lookup_insert_ne in Hm by done. by eapply Hs. }
  rewrite list_lookup_insert_eq in Hm by (by eapply lookup_lt_Some). injection Hm as <-.
  destruct (Hs j m0 n Hm0 Hj) as [->|(_ & Hc0%canceled_status & _)]; [|congruence].
  right. split; [done|]. split; [done|].
  assert (status_at ns0 j = Some SCHED_DAG_NODE_PENDING) as Hp0 by (unfold status_at; by rewrite Hm0, <- Hp).
  assert (dep_edge ns0 j k) as Hk0.
  { eapply dep_edge_layout; [symmetry; by apply evolve_layout|done]. }
  unfold status_at in Hst. destruct (ns !! k) as [x|] eqn:Hx; [|done]. injection Hst as <-.
  destruct (lookup_lt_is_Some_2 ns0 k) as [x0 Hx0]. { rewrite <- Hl. by eapply lookup_lt_Some. }
  destruct (Hs k x0 x Hx0 Hx) as [->|(_ & _ & Hdm)].
  - apply doomed_broken; [done|]. exists k, (n_status x0). unfold status_at. by rewrite Hx0.
  - by eapply doomed_chain.
Qed.

Definition pending_count (ns : list sched_dag_node_t) : nat :=
  length (filter (fun n => n_status n = SCHED_DAG_NODE_PENDING) ns).

Lemma pending_count_cancel ns j n n' :
  ns !! j = Some n -> n_status n = SCHED_DAG_NODE_PENDING -> canceled n n' ->
  pending_count ns = S (pending_count (<[j := n']> ns)).
Proof.
  unfold pending_count. revert j. induction ns as [|m ns IH]; intros [|j] Hj Hp Hc; simpl in *; try done.
  - injection Hj as ->. rewrite !filter_cons. apply canceled_status in Hc.
    by rewrite decide_True, decide_False by congruence.
  - rewrite !filter_cons. case_decide; simpl; by rewrite (IH j).
Qed.

Lemma propagate_nodes_spec ns0 ns js ch (w : W) ns' ch' w' :
  swept ns0 ns -> propagate_nodes ns js ch w = (ns', ch', w') ->
  swept ns0 ns' /\ (pending_count ns' <= pending_count ns)%nat /\
  (ch = false -> if ch' then (pending_count ns' < pending_count ns)%nat
     else ns' = ns /\ forall j, j ∈ js -> status_at ns j = Some SCHED_DAG_NODE_PENDING ->
            ~ dep_is_broken ns j) /\
  (ch = true -> ch' = true).
Proof.
  revert ns ch w. induction js as [|j js IH]; intros ns ch w Hsw; simpl.
  { intros [= <- <- _]. split; [done|]. split; [done|]. split; [|done]. intros ->. split; [done|].
    by intros j Hj%not_elem_of_nil. }
  assert (propagate_nodes ns js ch w = (ns', ch', w') ->
          (status_at ns j = Some SCHED_DAG_NODE_PENDING -> ~ dep_is_broken ns j) ->
          swept ns0 ns' /\ (pending_count ns' <= pending_count ns)%nat /\
          (ch = false -> if ch' then (pending_count ns' < pending_count ns)%nat
             else ns' = ns /\ forall i, i ∈ j :: js -> status_at ns i = Some SCHED_DAG_NODE_PENDING ->
                    ~ dep_is_broken ns i) /\ (ch = true -> ch' = true)) as Hskip.
  { intros (H1 & H2 & H3 & H4)%IH Hj; [|done]. split; [done|]. split; [done|]. split; [|done].
    intros Hch. specialize (H3 Hch). destruct ch'; [done|]. destruct H3 as [-> H3]. split; [done|].
    intros i [->|Hi]%elem_of_cons; [done|by apply H3]. }
  unfold status_at in Hskip at 1. destruct (ns !! j) as [n|] eqn:Hj; [|intros H; by apply Hskip].
  case_bool_decide as Hp; [|intros H; apply Hskip; [done|]; intros [= ?]; done].
  destruct (propagate_deps ns j (depends n) ch w) as [[ns1 ch1] w1] eqn:Ep.
  eapply propagate_deps_spec in Ep as [(-> & -> & Hn)|(Hb & -> & n' & Hc & ->)]; [| |done].
  - intros H. rewrite (broken_in_depends ns j n) in Hn by done.
    destruct (IH ns ch w1 Hsw H) as (H1 & H2 & H3 & H4). split; [done|]. split; [done|]. split; [|done].
    intros Hch. specialize (H3 Hch). destruct ch'; [done|]. destruct H3 as [-> H3]. split; [done|].
    intros i [->|Hi]%elem_of_cons; [done|by apply H3].
  - intros H. rewrite (broken_in_depends ns j n) in Hb by done.
    pose proof (pending_count_cancel ns j n n' Hj Hp Hc) as Hcount.
    destruct (IH (<[j := n']> ns) true w1) as (H1 & H2 & _ & H4);
      [by eapply swept_step|done|]. rewrite H4 by done. split; [done|].
    split; [lia|]. split; [intros _; lia|done].
Qed.
End cancel.

(** *** All graphs *)

Definition dag_swept (d0 d : sched_dag_t) : Prop :=
  if active d0 then exists ns, d = set_nodes ns d0 /\ swept (nodes d0) ns else d = d0.

Definition settled (ns : list sched_dag_node_t) : Prop :=
  forall j, status_at ns j = Some SCHED_DAG_NODE_PENDING -> ~ dep_is_broken ns j.

Definition active_pending (d : sched_dag_t) : nat :=
  if active d then pending_count (nodes d) else 0.

Definition total_pending (ds : list sched_dag_t) : nat := sum_list_with active_pending ds.

Lemma active_pending_set ns d :
  active d = true -> active_pending (set_nodes ns d) = pending_count ns.
Proof. intros Ha. unfold active_pending. change (active (set_nodes ns d)) with (active d). by rewrite Ha. Qed.

Section propagate.
  Context {W : Type} `{OS : SchedOS W}.

Lemma propagate_dags_spec ds0 ds ch (w : W) ds' ch' w' :
  Forall2 dag_swept ds0 ds -> propagate_dags ds ch w = (ds', ch', w') ->
  Forall2 dag_swept ds0 ds' /\ (total_pending ds' <= total_pending ds)%nat /\
  (ch = false -> if ch' then (total_pending ds' < total_pending ds)%nat
     else ds' = ds /\ Forall (fun d => active d = true -> settled (nodes d)) ds) /\
  (ch = true -> ch' = true).
Proof.
  intros Hf. revert ch w ds'. unfold total_pending.
  induction Hf as [|d0 d ds0 ds Hd _ IH]; intros ch w ds'; simpl.
  { intros [= <- <- _]. split; [done|]. split; [done|]. split; [|done]. by intros ->. }
  unfold dag_swept in Hd. destruct (active d0) eqn:Ea0.
  - destruct Hd as (ns & -> & Hsw). change (active (set_nodes ns d0)) with (active d0). rewrite Ea0.
    cbn [nodes set_nodes dag_put].
    destruct (propagate_nodes ns _ ch w) as [[ns1 ch1] w1] eqn:En.
    destruct (propagate_dags ds ch1 w1) as [[r ch2] w2] eqn:Er. intros [= <- <- <-].
    apply (propagate_nodes_spec (nodes d0)) in En as (S1 & S2 & S3 & S4); [|done].
    destruct (IH _ _ _ Er) as (D1 & D2 & D3 & D4).
    cbn [sum_list_with]. rewrite !active_pending_set by done.
    split. { constructor; [|done]. unfold dag_swept. rewrite Ea0. by exists ns1. }
    split; [lia|]. split; [|by intros ->; apply D4, S4].
    intros ->. specialize (S3 eq_refl). destruct ch1.
    + rewrite D4 by done. lia.
    + destruct S3 as [-> S3]. specialize (D3 eq_refl). destruct ch2; [lia|]. destruct D3 as [-> D3].
      split; [done|]. constructor; [|done]. intros _ j Hj. apply S3; [|done].
      apply elem_of_seq. unfold status_at in Hj. cbn [nodes set_nodes dag_put] in Hj.
      destruct (ns !! j) eqn:E; [|done]. apply lookup_lt_Some in E. lia.
  - subst d. rewrite Ea0. destruct (propagate_dags ds ch w) as [[r ch2] w2] eqn:Er. intros [= <- <- <-].
    destruct (IH _ _ _ Er) as (D1 & D2 & D3 & D4). cbn [sum_list_with].
    split. { constructor; [|done]. unfold dag_swept. by rewrite Ea0. }
    split; [lia|]. split; [|done]. intros Hch. specialize (D3 Hch). destruct ch2; [lia|].
    destruct D3 as [-> D3]. split; [done|]. constructor; [|done]. by rewrite Ea0.
Qed.

(** The loop ends, with no pending node of an active graph left that has a
    broken dependency. *)
Lemma propagate_total fuel ds0 ds (w : W) :
  Forall2 dag_swept ds0 ds -> (total_pending ds < fuel)%nat ->
  exists ds' w', sched_dag_propagate_unreachable fuel ds w = (Some ds', w') /\
    Forall2 dag_swept ds0 ds' /\ Forall (fun d => active d = true -> settled (nodes d)) ds'.
Proof.
  revert ds w. induction fuel as [|fuel IH]; intros ds w Hf Hlt; [lia|].
  cbn [sched_dag_propagate_unreachable].
  destruct (propagate_dags ds false w) as [[ds1 ch] w1] eqn:E.
  apply (propagate_dags_spec ds0) in E as (H1 & _ & H3 & _); [|done]. specialize (H3 eq_refl).
  destruct ch.
  - apply IH; [done|lia].
  - destruct H3 as [-> H3]. by eexists _, _.
Qed.

Lemma dag_swept_refl ds : Forall2 dag_swept ds ds.
Proof.
  apply Forall_Forall2_diag, Forall_true. intros d. unfold dag_swept. destruct (active d); [|done].
  exists (nodes d). split; [by destruct d|apply swept_refl].
Qed.

(** In a settled graph exactly the doomed nodes have been canceled. *)
Lemma swept_settled ns ns' i n :
  swept ns ns' -> settled ns' -> ns !! i = Some n ->
  (doomed ns i /\ exists n', ns' !! i = Some n' /\ canceled n n') \/
  (~ doomed ns i /\ ns' !! i = Some n).
Proof.
  intros Hsw Hset Hn. pose proof (swept_evolve _ _ Hsw) as He. destruct Hsw as [Hl Hs].
  assert (forall i, doomed ns i -> status_at ns' i = Some SCHED_DAG_NODE_CANCELED) as Hdm.
  { clear i n Hn. intros i Hd. induction Hd as [i Hp Hb|i j Hp Hj Hd IH].
    all: unfold status_at in Hp; destruct (ns !! i) as [n|] eqn:Hn; [|done]; injection Hp as Hp.
    all: destruct (evolve_lookup _ _ _ _ He Hn) as (n' & Hn' & _).
    all: destruct (Hs i n n' Hn Hn') as [->|(_ & Hc & _)];
      [|unfold status_at; rewrite Hn'; simpl; by rewrite (canceled_status _ _ Hc)].
    all: destruct (Hset i); [unfold status_at; by rewrite Hn', <- Hp|].
    - by eapply evolve_broken.
    - exists j, SCHED_DAG_NODE_CANCELED. split; [|done].
      eapply dep_edge_layout; [by apply evolve_layout|done]. }
  destruct (evolve_lookup _ _ _ _ He Hn) as (n' & Hn' & _).
  destruct (Hs i n n' Hn Hn') as [->|(Hp & Hc & Hd)]; [|left; eauto].
  right. split; [|done]. intros Hd. pose proof (Hdm i Hd) as Hst. unfold status_at in Hst.
  rewrite Hn' in Hst. injection Hst as Hst.
  assert (status_at ns i = Some SCHED_DAG_NODE_PENDING) as Hp by (by destruct Hd).
  unfold status_at in Hp. rewrite Hn in Hp. simpl in Hp. congruence.
Qed.
End propagate.

(** Convergence is exact.  The propagation loop ends within the number of
    pending nodes; in every active graph it cancels precisely the pending nodes
    that can no longer run (some dependency is broken, or waits for a node that
    can no longer run), and nothing else in any graph changes. *)
Theorem propagate_exact {W} `{SchedOS W} (ds : list sched_dag_t) (w : W) :
  exists ds' w', sched_dag_propagate_unreachable (S (total_pending ds)) ds w = (Some ds', w') /\
    Forall2 (fun d d' =>
      if active d then
        d' = set_nodes (nodes d') d /\
        forall i n, nodes d !! i = Some n ->
          (doomed (nodes d) i /\ exists n', nodes d' !! i = Some n' /\ canceled n n') \/
          (~ doomed (nodes d) i /\ nodes d' !! i = Some n)
      else d' = d) ds ds'.
Proof.
  destruct (propagate_total (S (total_pending ds)) ds ds w) as (ds' & w' & E & Hf & Hset);
    [apply dag_swept_refl|lia|].
  exists ds', w'. split; [done|]. clear E. induction Hf as [|d d' ds ds' Hd _ IH]; [done|].
  apply Forall_cons in Hset as [Hset Hrest]. constructor; [|by apply IH].
  unfold dag_swept in Hd. destruct (active d) eqn:Ea; [|done]. destruct Hd as (ns & -> & Hsw).
  split; [done|]. intros i n Hn. apply swept_settled; [done| |done]. by apply Hset.
Qed.

(** ** The final status of a graph *)

Lemma terminal_flags_spec ns hs f s :
  terminal_flags ns hs = (f, s) ->
  (f = true <-> exists n, n ∈ ns /\ n_status n = SCHED_DAG_NODE_FAILED) /\
  (f = false -> s = true <-> hs = true \/ exists n, n ∈ ns /\ n_status n = SCHED_DAG_NODE_SEMANTIC_FAILED).
Proof.
  revert hs. induction ns as [|n ns IH]; intros hs; simpl.
  { intros [= <- <-]. split; [split; [done|]|]; [intros (? & []%not_elem_of_nil & _)|].
    intros _. split; [by left|]. by intros [?|(? & []%not_elem_of_nil & _)]. }
  case_bool_decide as E.
  - intros [= <- <-]. split; [|done]. split; [|done]. intros _. exists n. by split; [left|].
  - intros [H1 H2]%IH. split.
    + rewrite H1. split; intros (m & Hm & ?).
      * exists m. by split; [right|].
      * apply elem_of_cons in Hm as [->|Hm]; [done|by exists m].
    + intros Hf. rewrite (H2 Hf), orb_true_iff, bool_decide_eq_true. split.
      * intros [[?|?]|(m & ? & ?)]; [by left|right; exists n; by split; [left|]|].
        right. exists m. by split; [right|].
      * intros [?|(m & [->|?]%elem_of_cons & ?)]; [by left; left|by left; right|right; by exists m].
Qed.

Lemma terminal_status_spec ns :
  match terminal_status ns with
  | SCHED_DAG_STATUS_FAILED => exists n, n ∈ ns /\ n_status n = SCHED_DAG_NODE_FAILED
  | SCHED_DAG_STATUS_SEMANTIC_FAILED =>
      (forall n, n ∈ ns -> n_status n <> SCHED_DAG_NODE_FAILED) /\
      exists n, n ∈ ns /\ n_status n = SCHED_DAG_NODE_SEMANTIC_FAILED
  | SCHED_DAG_STATUS_COMPLETED =>
      forall n, n ∈ ns -> n_status n <> SCHED_DAG_NODE_FAILED /\ n_status n <> SCHED_DAG_NODE_SEMANTIC_FAILED
  | _ => False
  end.
Proof.
  unfold terminal_status. destruct (terminal_flags ns false) as [f s] eqn:E.
  apply terminal_flags_spec in E as [H1 H2]. destruct f; [by apply H1|].
  assert (forall n, n ∈ ns -> n_status n <> SCHED_DAG_NODE_FAILED) as Hnf.
  { intros n Hn Hs. enough (false = true) by done. apply H1. eauto. }
  specialize (H2 eq_refl). destruct s.
  - split; [done|]. by destruct (proj1 H2 eq_refl).
  - intros n Hn. split; [by apply Hnf|]. intros Hs. enough (false = true) by done. apply H2. right. eauto.
Qed.

Lemma all_terminal_spec ns :
  sched_dag_all_terminal ns = true <-> forall n, n ∈ ns -> sched_dag_node_done (n_status n) = true.
Proof.
  unfold sched_dag_all_terminal. rewrite forallb_forall. split; intros H n Hn; apply H; by apply list_elem_of_In.
Qed.

(** ** The input of a node, exactly *)

Definition upstream_piece (p : string * string * nat) : string :=
  upstream_header p.1.1 +:+ String.substring 0 p.2 p.1.2.

(** Every contributing dependency with its whole product or its share. *)
Definition fair_picks (share : nat) (deps : list (string * string)) : list (string * string * nat) :=
  map (fun p => (p, Nat.min (String.length p.2) share)) deps.

Lemma dep_takes_fair budget share used deps :
  (0 < share)%nat -> (used + length deps * share <= budget)%nat ->
  Forall (fun p => p.2 <> "") deps -> dep_takes budget share used deps = fair_picks share deps.
Proof.
  intros Hs. revert used. induction deps as [|[id o] deps IH]; intros used Hb Hne; [done|].
  apply Forall_cons in Hne as [Ho Hne]. simpl in *.
  assert (0 < String.length o)%nat as Hl by (destruct o; [done|simpl; lia]).
  replace (Nat.min (Nat.min (String.length o) share) (budget - used)) with (Nat.min (String.length o) share) by lia.
  destruct (Nat.eqb_spec (Nat.min (String.length o) share) 0); [lia|]. f_equal. apply IH; [lia|done].
Qed.

Lemma dep_takes_none budget used deps : dep_takes budget 0 used deps = [].
Proof. destruct deps as [|[id o] deps]; [done|]. simpl. by rewrite Nat.min_0_r. Qed.

Lemma upstream_header_length id : String.length (upstream_header id) = (String.length id + 26)%nat.
Proof. unfold upstream_header. rewrite !str_length_app. simpl. lia. Qed.

Lemma take_length s n : (n <= String.length s)%nat -> String.length (String.substring 0 n s) = n.
Proof.
  revert n. induction s as [|c s IH]; intros [|n] Hn; simpl in *; try done; try lia.
  f_equal. apply IH. lia.
Qed.

Lemma input_total_base base ps : input_total base ps = (base + input_total 0 ps)%nat.
Proof. induction ps as [|[[id o] tk] ps IH]; simpl; lia. Qed.

(** The buffer has room for every header and every product. *)
Lemma append_upstream_fits total off ps :
  (off + input_total 0 ps <= total)%nat ->
  append_upstream total off ps = str_concat (map upstream_piece ps).
Proof.
  revert off. induction ps as [|[[id o] tk] ps IH]; intros off Hl; [done|].
  cbn [append_upstream input_total map str_concat foldr] in *.
  pose proof (upstream_header_length id) as Hh.
  destruct (Nat.leb_spec (total - off) (String.length (upstream_header id))) as [H|H].
  { rewrite input_total_base in Hl. destruct ps as [|[[? ?] ?] ?]; simpl in Hl; lia. }
  unfold upstream_piece at 1. cbn [fst snd]. rewrite str_app_assoc. do 2 f_equal. apply IH. lia.
Qed.

Lemma pieces_length ps :
  Forall (fun p => (p.2 <= String.length p.1.2)%nat) ps ->
  (String.length (str_concat (map upstream_piece ps)) < input_total 0 ps)%nat.
Proof.
  induction 1 as [|[[id o] tk] ps Hp _ IH]; [simpl; lia|].
  cbn [input_total map str_concat foldr fst snd] in *. fold (str_concat (map upstream_piece ps)).
  unfold upstream_piece at 1. cbn [fst snd]. rewrite !str_length_app, upstream_header_length, take_length by done. lia.
Qed.

Lemma eligible_nonempty ns n : Forall (fun p => p.2 <> "") (eligible_deps ns n).
Proof.
  unfold eligible_deps. apply Forall_forall. intros [i o] Hi. simpl.
  apply list_elem_of_omap in Hi as (id & _ & H). destruct (sched_dag_find_node ns id) as [dep|]; [|done].
  simpl in H. destruct (bool_decide _ && nonempty (output dep)) eqn:E; [|done]. bool_cases.
  destruct (output dep) as [x|]; [|done]. injection H as <- <-. simpl in *. by bool_cases.
Qed.

Lemma omap_length {A B} (f : A -> option B) l : (length (omap f l) <= length l)%nat.
Proof. induction l as [|x l IH]; csimpl; [lia|]. destruct (f x); simpl; lia. Qed.

Lemma eligible_length ns n : (length (eligible_deps ns n) <= SCHED_DAG_MAX_DEPS)%nat.
Proof. unfold eligible_deps. etrans; [apply omap_length|]. rewrite length_take. lia. Qed.

(** Without a contributing dependency there is nothing to pick. *)
Lemma node_input_picks {W} `{SchedOS W} (d : sched_dag_t) (n : sched_dag_node_t) budget (w : W) :
  let deps := eligible_deps (nodes d) n in
  let base := sched_dag_agent_input d n in
  let picks := dep_takes budget (budget / length deps) 0 deps in
  (sched_dag_node_input d n budget w).1
  = (if (os_alloc w).1
     then Some (base +:+ append_upstream (input_total (String.length base) picks) (String.length base) picks)
     else None).
Proof.
  unfold sched_dag_node_input, AIRY_STRDUP. cbv zeta.
  destruct (eligible_deps (nodes d) n) as [|p deps]; [|destruct (dep_takes _ _ _ _)];
    destruct (os_alloc w) as [[] w1]; simpl; rewrite ?str_app_nil_r; done.
Qed.

(** Products reach the dependents, and fairly.  Unless memory runs out, the
    input of a node is its own task followed by one section per completed
    dependency with a product, in the order of its dependency list; each
    section has the whole product or, if that is longer, the first [budget / k]
    bytes of it ([k] such dependencies), so a long product never crowds out
    another and together they stay within the budget.  With the engine's
    budget every share is at least 512 bytes.  The header that does not fit and
    the truncation it would cause never happen: the text ends before the
    computed size of the buffer. *)
Theorem node_input_exact {W} `{SchedOS W} (d : sched_dag_t) (n : sched_dag_node_t) (w : W) :
  let base := sched_dag_agent_input d n in
  let deps := eligible_deps (nodes d) n in
  let share := (SCHED_DAG_UPSTREAM_BUDGET / length deps)%nat in
  let picks := fair_picks share deps in
  let text := base +:+ str_concat (map upstream_piece picks) in
  (sched_dag_node_input d n SCHED_DAG_UPSTREAM_BUDGET w).1
    = (if (os_alloc w).1 then Some text else None) /\
  (deps <> [] -> 512 <= share)%nat /\
  (sum_list_with snd picks <= SCHED_DAG_UPSTREAM_BUDGET)%nat /\
  (String.length text < input_total (String.length base) picks)%nat.
Proof.
  cbv zeta. set (base := sched_dag_agent_input d n).
  pose proof (eligible_nonempty (nodes d) n) as Hne. pose proof (eligible_length (nodes d) n) as Hlen.
  rewrite node_input_picks. fold base. set (deps := eligible_deps (nodes d) n) in *.
  set (share := (SCHED_DAG_UPSTREAM_BUDGET / length deps)%nat).
  assert (length deps * share <= SCHED_DAG_UPSTREAM_BUDGET)%nat as Hsh.
  { unfold share. destruct deps; [simpl; lia|]. by apply Nat.Div0.mul_div_le. }
  assert (Forall (fun p => (p.2 <= String.length p.1.2)%nat) (fair_picks share deps)) as Hle.
  { apply Forall_map, Forall_true. intros [id o]. simpl. lia. }
  assert (deps <> [] -> 512 <= share)%nat as H512.
  { intros Hd. unfold share. apply Nat.div_le_lower_bound; [by destruct deps|].
    unfold SCHED_DAG_UPSTREAM_BUDGET, SCHED_DAG_MAX_DEPS in *. lia. }
  split; [|split; [done|split]].
  - f_equal. assert (dep_takes SCHED_DAG_UPSTREAM_BUDGET share 0 deps = fair_picks share deps) as ->.
    { destruct deps as [|p deps'] eqn:Ed; [done|]. specialize (H512 ltac:(done)).
      apply dep_takes_fair; [lia|lia|done]. }
    rewrite append_upstream_fits; [done|]. rewrite (input_total_base (String.length base)). lia.
  - clear -Hsh. revert Hsh. generalize SCHED_DAG_UPSTREAM_BUDGET. intros b Hb. etrans; [|exact Hb].
    clearbody share deps. clear Hb. unfold fair_picks. induction deps as [|[id o] ds IH]; simpl; lia.
  - rewrite str_length_app, (input_total_base (String.length base)). pose proof (pieces_length _ Hle). lia.
Qed.
