(* ===== verification/DagService.v ===== *)
(** * DagService

    The task graphs of the scheduler service: submission and cancellation
    (sched_d/src/dag/sched_dag_impl.c) and the worker thread with its serial
    and parallel dispatch (sched_d/src/dag/sched_dag_worker.c).

    Every operation below runs between a lock and an unlock of the service
    lock, so it is one step of the system; between them the worker, the pool
    threads and the RPC threads interleave freely (file DagSystem).  The second
    half of the file is the invariant of one graph and the proof that every
    operation keeps it.  The agent executor
    and the delegation framework are outside this repository: the result of an
    execution is an argument of the step that takes it over, and the choice of
    an agent does not enter the graphs. *)

From stdpp Require Import relations.
From S2P Require Import Prelude Doubles MemEnv Failover DagGraph DagEngine.

(** ** State *)

(** The part of [struct sched_service] that the graphs use.  [executor],
    [mac] and [dag_pool] say whether the pointer is set. *)
Record sched_service := mkService {
  initialized : bool;
  executor : bool;
  dags : list sched_dag_t;
  dag_seq : Z;
  dag_run : bool;
  mac : bool;
  dag_pool : bool;
  dag_max_parallel : Z;
  dag_batch_size : Z;
  dag_fatal_cascade : bool;
  batch_pending : Z
}.

Definition svc_put (s : sched_service) (ds : list sched_dag_t) (sq bp : Z) : sched_service :=
  mkService (initialized s) (executor s) ds sq (dag_run s) (mac s) (dag_pool s)
    (dag_max_parallel s) (dag_batch_size s) (dag_fatal_cascade s) bp.

Definition set_dags (ds : list sched_dag_t) (s : sched_service) : sched_service :=
  svc_put s ds (dag_seq s) (batch_pending s).

Definition upd_dag (i : nat) (d : sched_dag_t) (s : sched_service) : sched_service :=
  set_dags (<[i := d]> (dags s)) s.

(** The graph part of the constructor: the batch size is never above the size
    of the worker's arrays.  The two booleans say whether the delegation
    framework and the pool could be created. *)
Definition sched_service_create (max_parallel batch : Z) (fatal_cascade mac_ok pool_ok : bool)
    : sched_service :=
  let b := if batch =? 0 then max_parallel else batch in
  let b := if Z.of_nat SCHED_DAG_MAX_NODES <? b then Z.of_nat SCHED_DAG_MAX_NODES else b in
  let par := (0 <? max_parallel) && mac_ok && pool_ok in
  mkService true false [] 0 false par par max_parallel b fatal_cascade 0.

(** ** Public operations *)

Section service.
  Context {W : Type} `{OS : SchedOS W} `{EM : ErrModel} (AGENT_VOCAB_FALLBACK : string).

Fixpoint find_dag_from (i : nat) (ds : list sched_dag_t) (id : string) : option nat :=
    match ds with
    | [] => None
    | d :: ds' => if strcmp_eq (dag_id d) id then Some i else find_dag_from (S i) ds' id
    end.

Definition sched_find_dag (s : sched_service) (id : string) : option nat :=
    find_dag_from 0 (dags s) id.

Definition dag_id_buf (t sq : Z) : string :=
    snprintf_s 64 ("dag_" +:+ print_u t +:+ "_" +:+ print_u sq).

(** The result is the return code, [*out_dag_id] and the service; the outer
    [option] is the fuel of the cycle test, which [build_spec] shows to be
    enough.  [root] is the parsed text. *)
Definition sched_service_submit_dag (s : sched_service) (root : option dag_json) (w : W)
      : option (airy_rc * option string * sched_service) * W :=
    if negb (initialized s) then (Some (AIRY_ERR_INVALID_PARAM, None, s), w)
    else match root with
    | None => (Some (AIRY_ERR_PARSE_ERROR, None, s), w)
    | Some root =>
        let '(b, w) := sched_dag_validate_and_build AGENT_VOCAB_FALLBACK root w in
        match b with
        | None => (None, w)
        | Some (inl e) => (Some (e, None, s), w)
        | Some (inr d) =>
            if (SCHED_DAG_MAX_DAGS <=? length (dags s))%nat
            then (Some (AIRY_ERR_OVERFLOW, None, s), w)
            else
              let '(t, w) := time_s w in
              let id := dag_id_buf (u64 t) (dag_seq s) in
              let s := svc_put s (dags s) (u64 (dag_seq s + 1)) (batch_pending s) in
              let '(idc, w) := AIRY_STRDUP id w in
              match idc with
              | None => (Some (AIRY_ERR_OUT_OF_MEMORY, None, s), w)
              | Some idc =>
                  let '(now, w) := airy_time_wall_ms w in
                  let d := mkDag idc (d_name d) (d_input d) (workspace_dir d) (nodes d)
                             SCHED_DAG_STATUS_ACTIVE now (d_finished_at_ms d) (retry_budget_ms d) in
                  let '(out, w) := AIRY_STRDUP id w in
                  (Some (AIRY_SUCCESS, out, set_dags (dags s ++ [d]) s), w)
              end
        end
    end.

(** The nodes not yet started; a running one is left to its executor. *)
Fixpoint cancel_nodes (ns : list sched_dag_node_t) (w : W) : list sched_dag_node_t * W :=
    match ns with
    | [] => ([], w)
    | n :: ns' =>
        let '(n', w) :=
          if bool_decide (n_status n = SCHED_DAG_NODE_PENDING \/ n_status n = SCHED_DAG_NODE_READY)
          then let '(t, w) := airy_time_wall_ms w in
               let '(e, w) := AIRY_STRDUP "canceled by user" w in
               (set_error e (set_finished t (set_status SCHED_DAG_NODE_CANCELED n)), w)
          else (n, w) in
        let '(r, w) := cancel_nodes ns' w in (n' :: r, w)
    end.

Definition sched_service_cancel_dag (s : sched_service) (id : string) (w : W)
      : airy_rc * sched_service * W :=
    if negb (initialized s) then (AIRY_ERR_INVALID_PARAM, s, w)
    else match i ← sched_find_dag s id; d ← dags s !! i; Some (i, d) with
    | None => (AIRY_ERR_NOT_FOUND, s, w)
    | Some (i, d) =>
        if negb (active d) then (AIRY_ERR_BUSY, s, w)
        else
          let '(t, w) := airy_time_wall_ms w in
          let '(ns, w) := cancel_nodes (nodes d) w in
          (AIRY_SUCCESS, upd_dag i (dag_put d ns SCHED_DAG_STATUS_CANCELED t) s, w)
    end.

(** ** Status reports *)

Definition sched_dag_state_name (st : sched_dag_status_t) : string :=
    match st with
    | SCHED_DAG_STATUS_ACTIVE => "active"
    | SCHED_DAG_STATUS_COMPLETED => "completed"
    | SCHED_DAG_STATUS_SEMANTIC_FAILED => "semantic_failed"
    | SCHED_DAG_STATUS_FAILED => "failed"
    | SCHED_DAG_STATUS_CANCELED => "canceled"
    end.

(** The members of the summary object that are not copied from a field. *)
Record dag_summary := mkSummary {
  sm_dag_id : string; sm_name : string; sm_status : string; sm_node_count : nat; sm_progress : nat;
  sm_created : Z; sm_finished : Z
}.

Definition dag_summary_json (d : sched_dag_t) : dag_summary :=
    mkSummary (dag_id d) (default "" (d_name d)) (sched_dag_state_name (d_status d))
      (length (nodes d)) (length (filter (fun n => sched_dag_node_done (n_status n)) (nodes d)))
      (created_at_ms d) (d_finished_at_ms d).

(** ** The worker *)

Definition node_at (s : sched_service) (ij : nat * nat) : option (sched_dag_t * sched_dag_node_t) :=
    d ← dags s !! ij.1; n ← nodes d !! ij.2; Some (d, n).

(** The node becomes RUNNING. *)
Definition start_node (n : sched_dag_node_t) (w : W) : sched_dag_node_t * W :=
    let '(t, w) := airy_time_wall_ms w in
    (set_started t (set_status SCHED_DAG_NODE_RUNNING n), w).

(** The task text handed to the executor. *)
Definition dispatch_goal (d : sched_dag_t) (n : sched_dag_node_t) (w : W) : string * W :=
    let '(g, w) := sched_dag_node_input d n SCHED_DAG_UPSTREAM_BUDGET w in
    (default (sched_dag_agent_input d n) g, w).

(** [sched_dag_run_one] up to the unlock. *)
Definition run_one_begin (s : sched_service) (w : W)
      : option (nat * nat * string) * sched_service * W :=
    let '(r, w) := sched_dag_find_ready (dags s) w in
    match ij ← r; dn ← node_at s ij; Some (ij, dn) with
    | None => (None, s, w)
    | Some ((i, j), (d, n)) =>
        let '(n, w) := start_node n w in
        let d := set_nodes (<[j := n]> (nodes d)) d in
        let '(g, w) := dispatch_goal d n w in
        (Some (i, j, g), upd_dag i d s, w)
    end.

(** What the executor answered; without one the code and no output. *)
Definition exec_result (s : sched_service) (ans : Z * option string) : Z * option string :=
    if executor s then ans else (err_code AIRY_ERR_SVC_NOT_READY, None).

Definition write_back (s : sched_service) (ij : nat * nat) (ans : Z * option string) (w : W)
      : sched_service * W :=
    match node_at s ij with
    | None => (s, w)
    | Some (d, n) =>
        let '(dret, out) := exec_result s ans in
        let '(_, d, w) := sched_dag_write_back_node (dag_fatal_cascade s) d ij.2 n dret out w in
        (upd_dag ij.1 d s, w)
    end.

Definition converge_fuel (s : sched_service) : nat := S (total_pending (dags s)).

(** [sched_dag_propagate_unreachable] and [sched_dag_finalize_terminal]. *)
Definition converge (s : sched_service) (w : W) : option sched_service * W :=
    let '(r, w) := sched_dag_propagate_unreachable (converge_fuel s) (dags s) w in
    match r with
    | None => (None, w)
    | Some ds => let '(ds, w) := sched_dag_finalize_terminal ds w in (Some (set_dags ds s), w)
    end.

(** [sched_dag_run_one] after the executor has returned. *)
Definition run_one_end (s : sched_service) (ij : nat * nat) (ans : Z * option string) (w : W)
      : option sched_service * W :=
    let '(s, w) := write_back s ij ans w in converge s w.

(** The loop over the nodes of the graph at index [i]; [room] places are left. *)
Fixpoint collect_nodes (i : nat) (ns : list sched_dag_node_t) (js : list nat) (room : nat) (w : W)
      : list (nat * nat) * list sched_dag_node_t * W :=
    match js, room with
    | [], _ | _, O => ([], ns, w)
    | j :: js', S room' =>
        match ns !! j with
        | None => collect_nodes i ns js' room w
        | Some n =>
            let '(r, w) := sched_dag_node_ready ns n w in
            if 0 <? r then
              let '(n, w) := start_node n w in
              let '(out, ns, w) := collect_nodes i (<[j := n]> ns) js' room' w in
              ((i, j) :: out, ns, w)
            else collect_nodes i ns js' room w
        end
    end.

Fixpoint collect_dags (i : nat) (ds : list sched_dag_t) (room : nat) (w : W)
      : list (nat * nat) * list sched_dag_t * W :=
    match ds, room with
    | [], _ | _, O => ([], ds, w)
    | d :: ds', _ =>
        if active d then
          let '(out, ns, w) := collect_nodes i (nodes d) (seq 0 (length (nodes d))) room w in
          let '(out', r, w) := collect_dags (S i) ds' (room - length out) w in
          (out ++ out', set_nodes ns d :: r, w)
        else let '(out', r, w) := collect_dags (S i) ds' room w in (out', d :: r, w)
    end.

Definition sched_dag_collect_ready_batch (s : sched_service) (max : nat) (w : W)
      : list (nat * nat) * sched_service * W :=
    let '(out, ds, w) := collect_dags 0 (dags s) max w in (out, set_dags ds s, w).

(** [sched_dag_run_batch] up to the unlock: the batch and its task texts. *)
Fixpoint batch_goals (s : sched_service) (batch : list (nat * nat)) (w : W) : list string * W :=
    match batch with
    | [] => ([], w)
    | ij :: rest =>
        let '(g, w) := match node_at s ij with
                       | Some (d, n) => dispatch_goal d n w
                       | None => ("", w)
                       end in
        let '(gs, w) := batch_goals s rest w in (g :: gs, w)
    end.

Definition run_batch_begin (s : sched_service) (w : W)
      : list (nat * nat) * list string * sched_service * W :=
    let '(batch, s, w) := sched_dag_collect_ready_batch s (Z.to_nat (dag_batch_size s)) w in
    match batch with
    | [] => ([], [], s, w)
    | _ => let '(gs, w) := batch_goals s batch w in
           (batch, gs, svc_put s (dags s) (dag_seq s) (Z.of_nat (length batch)), w)
    end.

Definition sched_dag_batch_done (s : sched_service) : sched_service :=
    if 0 <? batch_pending s then svc_put s (dags s) (dag_seq s) (batch_pending s - 1) else s.

(** The locked part of [sched_dag_batch_worker]. *)
Definition batch_worker_end (s : sched_service) (ij : nat * nat) (ans : Z * option string) (w : W)
      : sched_service * W :=
    let '(s, w) := write_back s ij ans w in (sched_dag_batch_done s, w).

Definition sched_dag_fail_node (s : sched_service) (ij : nat * nat) (msg : string) (w : W)
      : sched_service * W :=
    match node_at s ij with
    | None => (s, w)
    | Some (d, n) =>
        let '(e, w) := AIRY_STRDUP msg w in
        let '(t, w) := airy_time_wall_ms w in
        let n := set_finished t (set_error e (set_status SCHED_DAG_NODE_FAILED n)) in
        (sched_dag_batch_done (upd_dag ij.1 (set_nodes (<[ij.2 := n]> (nodes d)) d) s), w)
    end.

(** One round of [sched_dag_wait_ready]. *)
Inductive wait_t := Dispatch | WaitSignal | WaitMs (ms : Z) | Stop.

Definition wait_round (s : sched_service) (w : W) : wait_t * W :=
    let '(r, w) := sched_dag_find_ready (dags s) w in
    if bool_decide (r = None) && dag_run s then
      let '(min_retry, w) := sched_dag_min_retry_at (dags s) w in
      if min_retry =? 0 then (WaitSignal, w)
      else let '(now, w) := airy_time_wall_ms w in
           (WaitMs (if now <? min_retry then u32 (min_retry - now) else 1), w)
    else (if dag_run s then Dispatch else Stop, w).

Definition sched_service_set_executor (s : sched_service) : airy_rc * sched_service :=
    if negb (initialized s) then (AIRY_ERR_INVALID_PARAM, s)
    else (AIRY_SUCCESS,
          mkService true true (dags s) (dag_seq s) (dag_run s) (mac s) (dag_pool s)
            (dag_max_parallel s) (dag_batch_size s) (dag_fatal_cascade s) (batch_pending s)).

(** Starting and stopping the worker: the flag it polls. *)
Definition set_dag_run (r : bool) (s : sched_service) : sched_service :=
    mkService (initialized s) (executor s) (dags s) (dag_seq s) r (mac s) (dag_pool s)
      (dag_max_parallel s) (dag_batch_size s) (dag_fatal_cascade s) (batch_pending s).

Definition parallel (s : sched_service) : bool := mac s && dag_pool s && (0 <? dag_max_parallel s).
End service.

(** ** Invariant of a graph *)

Definition started (st : sched_dag_node_status_t) : bool :=
  bool_decide (st = SCHED_DAG_NODE_RUNNING \/ st = SCHED_DAG_NODE_COMPLETED \/
               st = SCHED_DAG_NODE_SEMANTIC_FAILED \/ st = SCHED_DAG_NODE_FAILED).

(** One node by itself: READY is never used; a completed node has a real
    product and no other node has one; the retries stay within the limit. *)
Record node_ok (n : sched_dag_node_t) : Prop := {
  nk_ready : n_status n <> SCHED_DAG_NODE_READY;
  nk_output : if decide (n_status n = SCHED_DAG_NODE_COMPLETED)
              then sched_dag_has_output (output n) = true else output n = None;
  nk_retry : 0 <= retry_count n <= max_retries n;
  nk_max : max_retries n <= UINT32_MAX
}.

Record nodes_inv (ns : list sched_dag_node_t) : Prop := {
  ni_wf : graph_wf ns;
  ni_ok : Forall node_ok ns;
  ni_deps i st : status_at ns i = Some st -> started st = true -> deps_completed ns i
}.

Definition done_or_running (st : sched_dag_node_status_t) : Prop :=
  sched_dag_node_done st = true \/ st = SCHED_DAG_NODE_RUNNING.

(** What the status of a graph says about its nodes. *)
Definition verdict (st : sched_dag_status_t) (ns : list sched_dag_node_t) : Prop :=
  match st with
  | SCHED_DAG_STATUS_ACTIVE =>
      forall i, status_at ns i = Some SCHED_DAG_NODE_CANCELED -> dep_is_broken ns i
  | SCHED_DAG_STATUS_COMPLETED =>
      forall i st, status_at ns i = Some st -> st = SCHED_DAG_NODE_COMPLETED
  | SCHED_DAG_STATUS_SEMANTIC_FAILED =>
      (forall i st, status_at ns i = Some st ->
         sched_dag_node_done st = true /\ st <> SCHED_DAG_NODE_FAILED) /\
      exists i, status_at ns i = Some SCHED_DAG_NODE_SEMANTIC_FAILED
  | SCHED_DAG_STATUS_FAILED =>
      (forall i st, status_at ns i = Some st -> done_or_running st) /\
      exists i, status_at ns i = Some SCHED_DAG_NODE_FAILED
  | SCHED_DAG_STATUS_CANCELED => forall i st, status_at ns i = Some st -> done_or_running st
  end.

Record dag_inv (d : sched_dag_t) : Prop := {
  di_nodes : nodes_inv (nodes d);
  di_verdict : verdict (d_status d) (nodes d)
}.

(** ** Preservation *)

Lemma nodes_inv_evolve ns ns' :
  nodes_inv ns -> evolve ns ns' ->
  (forall i n n', ns !! i = Some n -> ns' !! i = Some n' ->
     n' = n \/ node_ok n' /\ (started (n_status n') = true -> deps_completed ns i)) ->
  nodes_inv ns'.
Proof.
  intros [Hwf Hok Hd] He Hch.
  assert (forall i n', ns' !! i = Some n' -> exists n, ns !! i = Some n) as Hback.
  { intros i n' Hn'. destruct (Forall2_lookup_r _ _ _ _ _ He Hn') as (n & ? & _). eauto. }
  split.
  - eapply graph_wf_layout; [by apply evolve_layout|done].
  - apply Forall_lookup. intros i n' Hn'. destruct (Hback i n' Hn') as [n Hn].
    destruct (Hch i n n' Hn Hn') as [->|[? _]]; [|done]. rewrite Forall_lookup in Hok. by eapply Hok.
  - intros i st Hst Hs. unfold status_at in Hst. destruct (ns' !! i) as [n'|] eqn:Hn'; [|done].
    injection Hst as <-. destruct (Hback i n' Hn') as [n Hn].
    eapply evolve_deps_completed; [done|].
    destruct (Hch i n n' Hn Hn') as [->|[_ H]]; [|by apply H].
    eapply Hd; [|done]. unfold status_at. by rewrite Hn.
Qed.

Lemma lookup_insert_case {A} (l : list A) j n' i x :
  <[j := n']> l !! i = Some x -> i = j /\ x = n' \/ i <> j /\ l !! i = Some x.
Proof.
  destruct (decide (i = j)) as [->|Hne].
  - intros H. pose proof (lookup_lt_Some _ _ _ H) as Hl. rewrite length_insert in Hl.
    rewrite list_lookup_insert_eq in H by done. left. by injection H as <-.
  - rewrite list_lookup_insert_ne by done. by right.
Qed.

Lemma status_insert ns j n n' i st :
  ns !! j = Some n -> status_at (<[j := n']> ns) i = Some st ->
  i = j /\ st = n_status n' \/ i <> j /\ status_at ns i = Some st.
Proof.
  unfold status_at. intros Hj. destruct (<[j := n']> ns !! i) as [x|] eqn:E; [|done].
  intros [= <-]. apply lookup_insert_case in E as [[-> ->]|[Hne ->]]; [by left|by right].
Qed.

Lemma status_insert_eq ns j n n' :
  ns !! j = Some n -> status_at (<[j := n']> ns) j = Some (n_status n').
Proof.
  intros Hj. unfold status_at. by rewrite list_lookup_insert_eq by (by eapply lookup_lt_Some).
Qed.

(** One node that is not final moves on. *)
Lemma nodes_inv_insert ns j n n' :
  nodes_inv ns -> ns !! j = Some n -> sched_dag_node_done (n_status n) = false ->
  layout n' = layout n -> node_ok n' -> (started (n_status n') = true -> deps_completed ns j) ->
  nodes_inv (<[j := n']> ns).
Proof.
  intros Hinv Hj Hd Hl Hok Hs. eapply nodes_inv_evolve; [done|by eapply evolve_insert|].
  intros i x x' Hx [[-> ->]|[Hne Hx']]%lookup_insert_case; [by right|left; congruence].
Qed.

Lemma evolve_active_verdict ns ns' :
  evolve ns ns' -> verdict SCHED_DAG_STATUS_ACTIVE ns ->
  (forall i n n', ns !! i = Some n -> ns' !! i = Some n' ->
     n' = n \/ n_status n' <> SCHED_DAG_NODE_CANCELED \/ dep_is_broken ns' i) ->
  verdict SCHED_DAG_STATUS_ACTIVE ns'.
Proof.
  intros He Hv Hch i Hst. unfold status_at in Hst. destruct (ns' !! i) as [n'|] eqn:Hn'; [|done].
  injection Hst as Hst. destruct (Forall2_lookup_r _ _ _ _ _ He Hn') as (n & Hn & _).
  destruct (Hch i n n' Hn Hn') as [->|[?|?]]; [|done|done].
  eapply evolve_broken; [done|]. apply Hv. unfold status_at. rewrite Hn. simpl. by f_equal.
Qed.

(** A graph whose nodes are final or running: a running one becomes final. *)
Lemma done_or_running_insert ns j n n' :
  (forall i st, status_at ns i = Some st -> done_or_running st) ->
  ns !! j = Some n -> done_or_running (n_status n') ->
  forall i st, status_at (<[j := n']> ns) i = Some st -> done_or_running st.
Proof.
  intros H Hj Hd i st Hst. eapply status_insert in Hst as [[-> ->]|[_ Hst]]; [done| |done]. by eapply H.
Qed.

(** The step of one running node, in a graph of any status.  In an active
    graph the new state is not CANCELED, in another graph it is final. *)
Lemma dag_inv_running d j n n' :
  dag_inv d -> nodes d !! j = Some n -> n_status n = SCHED_DAG_NODE_RUNNING ->
  layout n' = layout n -> node_ok n' ->
  (if active d then n_status n' <> SCHED_DAG_NODE_CANCELED
   else sched_dag_node_done (n_status n') = true) ->
  dag_inv (set_nodes (<[j := n']> (nodes d)) d).
Proof.
  intros [Hi Hv] Hj Hr Hl Hok Hst.
  assert (sched_dag_node_done (n_status n) = false) as Hnd by (by rewrite Hr).
  assert (status_at (nodes d) j = Some SCHED_DAG_NODE_RUNNING) as Hsj by (unfold status_at; by rewrite Hj, <- Hr).
  split; simpl.
  - eapply nodes_inv_insert; try done. intros _. by eapply (ni_deps _ Hi).
  - pose proof (evolve_insert _ _ _ _ Hj Hl Hnd) as He. unfold active in Hst.
    destruct (d_status d) eqn:Es; simpl in Hst.
    + eapply evolve_active_verdict; [done|done|].
      intros i x x' Hx [[-> ->]|[Hne Hx']]%lookup_insert_case; [by right; left|left; congruence].
    + by specialize (Hv j _ Hsj).
    + by destruct (proj1 Hv j _ Hsj).
    + destruct Hv as [Hv [k Hk]]. split.
      { intros i st. eapply done_or_running_insert; [exact Hv|exact Hj|by left]. }
      exists k. by eapply evolve_status.
    + intros i st. eapply done_or_running_insert; [exact Hv|exact Hj|by left].
Qed.

Lemma Forall2_lookup_both {A B} (P : A -> B -> Prop) l l' i x x' :
  Forall2 P l l' -> l !! i = Some x -> l' !! i = Some x' -> P x x'.
Proof. intros H Hx Hx'. destruct (Forall2_lookup_l _ _ _ _ _ H Hx) as (y & Hy & ?). congruence. Qed.

Lemma canceled_ok n n' : node_ok n -> n_status n <> SCHED_DAG_NODE_COMPLETED -> canceled n n' -> node_ok n'.
Proof.
  intros [Hr Ho Hc Hm] Hs [t ->]. rewrite decide_False in Ho by done. by split.
Qed.

(** What happens to a node when its graph ends as a whole: one not yet started
    is canceled. *)
Definition dropped (n n' : sched_dag_node_t) : Prop :=
  if bool_decide (n_status n = SCHED_DAG_NODE_PENDING \/ n_status n = SCHED_DAG_NODE_READY)
  then layout n' = layout n /\ n_status n' = SCHED_DAG_NODE_CANCELED /\ output n' = output n /\
       retry_count n' = retry_count n
  else n' = n.

(** *** Write-back *)

Section write_back.
  Context {W : Type} `{OS : SchedOS W} `{EM : ErrModel}.

(** The state after an outcome that does not end the graph. *)
Definition outcome (n n' : sched_dag_node_t) : Prop :=
    layout n' = layout n /\
    (n_status n' = SCHED_DAG_NODE_COMPLETED /\ sched_dag_has_output (output n') = true /\
       retry_count n' = retry_count n \/
     (n_status n' = SCHED_DAG_NODE_SEMANTIC_FAILED \/ n_status n' = SCHED_DAG_NODE_FAILED) /\
       output n' = output n /\ retry_count n' = retry_count n \/
     n_status n' = SCHED_DAG_NODE_PENDING /\ output n' = output n /\
       retry_count n < max_retries n /\ retry_count n' = u32 (retry_count n + 1)).

Lemma outcome_ok n n' :
  node_ok n -> n_status n = SCHED_DAG_NODE_RUNNING -> outcome n n' -> node_ok n'.
Proof.
  intros [Hr Ho Hc Hm] Hs [Hl H]. rewrite decide_False in Ho by (by rewrite Hs).
  injection Hl as _ _ Hl. unfold UINT32_MAX in *.
  destruct H as [(E & Hout & Hrc)|[([E|E] & Hout & Hrc)|(E & Hout & Hlt & Hrc)]];
    (split; rewrite ?E; [done| | |by rewrite Hl]); try (by rewrite decide_True);
    try (rewrite decide_False by done; congruence); rewrite Hrc, Hl; try lia.
  rewrite u32_id; unfold is_u32, UINT32_MAX; lia.
Qed.

Lemma outcome_not_canceled n n' : outcome n n' -> n_status n' <> SCHED_DAG_NODE_CANCELED.
Proof. intros [_ [(E & _)|[([E|E] & _)|(E & _)]]]; by rewrite E. Qed.

Lemma node_succeed_outcome n out (w : W) r n' w' :
  node_succeed n out w = (r, n', w') -> outcome n n'.
Proof.
  unfold node_succeed, node_err_set, node_final.
  destruct (sched_dag_has_output out) eqn:Eo; simpl.
  - destruct (node_verify n (default "" out) w) as [[] w1]; simpl.
    + destruct (airy_time_wall_ms w1) as [t w2]. intros [= <- <- _]. split; [done|]. by left.
    + destruct (AIRY_STRDUP _ w1) as [e w2]. destruct (airy_time_wall_ms w2) as [t w3].
      intros [= <- <- _]. split; [done|]. right. left. split; [by right|done].
  - destruct (AIRY_STRDUP _ w) as [e w2]. destruct (airy_time_wall_ms w2) as [t w3].
    intros [= <- <- _]. split; [done|]. right. left. split; [by left|done].
Qed.

Lemma node_backoff_outcome d n dret (w : W) n' w' :
  node_backoff d n dret w = (Some n', w') -> outcome n n'.
Proof.
  unfold node_backoff, node_err_set. destruct (_ || _) eqn:E; [done|]. bool_cases.
  destruct (airy_time_wall_ms w) as [now w1]. destruct (negb _ && _); [done|].
  simpl. destruct (AIRY_STRDUP _ w1) as [e w2]. intros [= <- _].
  split; [done|]. right. right. done.
Qed.

(** The whole-graph failure of the node at [j]. *)
Definition aborted (d d' : sched_dag_t) (j : nat) (n : sched_dag_node_t) : Prop :=
    exists n' ns', layout n' = layout n /\ n_status n' = SCHED_DAG_NODE_FAILED /\
      output n' = output n /\ retry_count n' = retry_count n /\
      d' = dag_put d ns' SCHED_DAG_STATUS_FAILED (d_finished_at_ms d) /\
      Forall2 (fun n n' =>
        if bool_decide (n_status n = SCHED_DAG_NODE_PENDING \/ n_status n = SCHED_DAG_NODE_READY)
        then canceled n n' else n' = n) (<[j := n']> (nodes d)) ns'.

Lemma write_back_spec fc d j n dret out (w : W) r d' w' :
  sched_dag_write_back_node fc d j n dret out w = (r, d', w') ->
  n_status n = SCHED_DAG_NODE_RUNNING ->
  (exists n', d' = set_nodes (<[j := n']> (nodes d)) d /\
      if bool_decide (d_status d = SCHED_DAG_STATUS_CANCELED \/ d_status d = SCHED_DAG_STATUS_FAILED)
     then canceled n n' else outcome n n') \/
  (d_status d <> SCHED_DAG_STATUS_CANCELED /\ d_status d <> SCHED_DAG_STATUS_FAILED /\ aborted d d' j n).
Proof.
  intros H Hr. unfold sched_dag_write_back_node in H.
  case_bool_decide as E1.
  { destruct (node_discard n w) as [n1 w1] eqn:En. injection H as <- <- <-. left. exists n1.
    split; [done|]. rewrite bool_decide_eq_true_2 by (rewrite Hr in E1; naive_solver).
    by eapply node_final_canceled. }
  rewrite bool_decide_eq_false_2 by naive_solver.
  destruct (dret =? err_code AIRY_SUCCESS).
  { destruct (node_succeed n out w) as [[r1 n1] w1] eqn:En. injection H as <- <- <-. left. exists n1.
    split; [done|]. by eapply node_succeed_outcome. }
  unfold node_err_set in H. cbn [strdup_opt] in H. destruct (airy_time_wall_ms w) as [t w1].
  set (n0 := set_error None (set_finished t n)) in *.
  destruct (_ || _).
  - right. split; [naive_solver|]. split; [naive_solver|]. unfold dag_abort, node_err_set in H.
    cbn [strdup_opt] in H. destruct (AIRY_STRDUP _ w1) as [e w2].
    destruct (dag_cascade_cancel _ w2) as [ns w3] eqn:Ec. injection H as <- <- <-.
    apply cascade_spec in Ec.
    exists (set_status SCHED_DAG_NODE_FAILED (set_error e n0)), ns. by do 5 (split; [reflexivity|]).
  - left. destruct (node_backoff d n0 dret w1) as [[n1|] w2] eqn:Eb.
    + injection H as <- <- <-. exists n1. split; [done|]. by apply node_backoff_outcome in Eb.
    + cbn [strdup_opt] in H. destruct (AIRY_STRDUP _ w2) as [e w3]. injection H as <- <- <-.
      eexists. split; [done|]. split; [done|]. right. left. split; [by right|done].
Qed.

(** In a graph that ends as a whole every node is final or still running. *)
Lemma cascade_inv ns ns' :
  nodes_inv ns ->
  Forall2 dropped ns ns' ->
  evolve ns ns' /\ nodes_inv ns' /\ (forall i st, status_at ns' i = Some st -> done_or_running st).
Proof.
  intros Hinv Hf.
  assert (evolve ns ns') as He.
  { eapply Forall2_impl; [exact Hf|]. intros n n' H. unfold dropped in H. case_bool_decide as E; [|by subst].
    destruct H as [Hl _]. split; [done|]. by destruct E as [->| ->]. }
  split; [done|]. split.
  - eapply nodes_inv_evolve; [done|done|]. intros i n n' Hn Hn'.
    pose proof (Forall2_lookup_both _ _ _ _ _ _ Hf Hn Hn') as H. unfold dropped in H.
    case_bool_decide as E; [right|by left].
    pose proof (ni_ok _ Hinv) as Hok. rewrite Forall_lookup in Hok.
    destruct (Hok i n Hn) as [H1 H2 H3 H4]. destruct H as (Hl & Hs & Ho & Hrc). injection Hl as _ _ Hm.
    rewrite decide_False in H2 by (destruct E as [->| ->]; done).
    split; [|by rewrite Hs]. split; rewrite ?Hs, ?Hm, ?Hrc; try done.
    rewrite decide_False by done. congruence.
  - intros i st Hst. unfold status_at in Hst. destruct (ns' !! i) as [n'|] eqn:Hn'; [|done].
    injection Hst as <-. destruct (Forall2_lookup_r _ _ _ _ _ Hf Hn') as (n & Hn & H). unfold dropped in H.
    case_bool_decide as E; [left; destruct H as (_ & -> & _); done|]. subst n'.
    unfold done_or_running. destruct (n_status n); vm_compute; naive_solver.
Qed.
End write_back.

(** ** Steps of one graph *)

Definition running_at (d : sched_dag_t) (k : nat) : Prop :=
  status_at (nodes d) k = Some SCHED_DAG_NODE_RUNNING.

(** How many steps a node can still take: two per execution that is left, less
    one while it runs. *)
Definition weight (n : sched_dag_node_t) : nat :=
  let left := Z.to_nat (max_retries n - retry_count n) in
  match n_status n with
  | SCHED_DAG_NODE_PENDING | SCHED_DAG_NODE_READY => 2 * left + 2
  | SCHED_DAG_NODE_RUNNING => 2 * left + 1
  | _ => 0
  end%nat.

Definition dag_work (d : sched_dag_t) : nat := sum_list_with weight (nodes d).

(** A graph only moves forward: final nodes stay, a final status stays, and the
    work left does not grow. *)
Definition dag_next (d d' : sched_dag_t) : Prop :=
  dag_id d' = dag_id d /\ evolve (nodes d) (nodes d') /\
  (active d = false -> d_status d' = d_status d) /\ (dag_work d' <= dag_work d)%nat.

#[export] Instance dag_next_preorder : PreOrder dag_next.
Proof.
  split; [by intros d|]. intros d1 d2 d3 (I1 & E1 & S1 & L1) (I2 & E2 & S2 & L2).
  split; [congruence|]. split; [by etrans|]. split; [|lia]. intros Ha. specialize (S1 Ha). rewrite <- S1.
  apply S2. unfold active in *. by rewrite S1.
Qed.

Lemma sum_insert {A} (f : A -> nat) l i x y :
  l !! i = Some x -> (sum_list_with f (<[i := y]> l) + f x = sum_list_with f l + f y)%nat.
Proof.
  revert i. induction l as [|z l IH]; intros [|i] Hx; simpl in *; try done.
  - injection Hx as ->. lia.
  - specialize (IH i Hx). lia.
Qed.

Lemma sum_Forall2 {A} (f : A -> nat) l l' :
  Forall2 (fun x y => (f y <= f x)%nat) l l' -> (sum_list_with f l' <= sum_list_with f l)%nat.
Proof. induction 1; simpl; lia. Qed.

Lemma canceled_weight n n' : canceled n n' -> weight n' = 0%nat.
Proof. by intros [t ->]. Qed.

Lemma dropped_weight n n' : dropped n n' -> (weight n' <= weight n)%nat.
Proof.
  unfold dropped. case_bool_decide; [|by intros ->]. intros (_ & E & _). unfold weight at 1. rewrite E. lia.
Qed.

Lemma outcome_weight n n' :
  node_ok n -> n_status n = SCHED_DAG_NODE_RUNNING -> outcome n n' -> (weight n' < weight n)%nat.
Proof.
  intros [_ _ Hc Hm] Hr [Hl H]. injection Hl as _ _ Hl. unfold weight. rewrite Hr, Hl.
  destruct H as [(-> & _)|[([->| ->] & _)|(-> & _ & Hlt & ->)]]; try lia.
  rewrite u32_id by (unfold is_u32, UINT32_MAX in *; lia). lia.
Qed.

Lemma running_insert ns j n n' k :
  ns !! j = Some n -> n_status n' <> SCHED_DAG_NODE_RUNNING ->
  status_at (<[j := n']> ns) k = Some SCHED_DAG_NODE_RUNNING <->
  k <> j /\ status_at ns k = Some SCHED_DAG_NODE_RUNNING.
Proof.
  intros Hj Hn. split.
  - intros [[-> E]|[? ?]]%(status_insert _ _ n); [congruence|done|done].
  - intros [Hne H]. unfold status_at in *. by rewrite list_lookup_insert_ne.
Qed.

Lemma dag_inv_node_ok d j n : dag_inv d -> nodes d !! j = Some n -> node_ok n.
Proof. intros [[_ Hok _] _] Hn. rewrite Forall_lookup in Hok. by eapply Hok. Qed.

Section dag_steps.
  Context {W : Type} `{OS : SchedOS W} `{EM : ErrModel}.

Lemma set_nodes_next d j n n' :
  nodes d !! j = Some n -> layout n' = layout n -> sched_dag_node_done (n_status n) = false ->
  (weight n' < weight n)%nat ->
  dag_next d (set_nodes (<[j := n']> (nodes d)) d) /\
  (dag_work (set_nodes (<[j := n']> (nodes d)) d) < dag_work d)%nat.
Proof.
  intros Hj Hl Hd Hw. assert (dag_work (set_nodes (<[j := n']> (nodes d)) d) < dag_work d)%nat as Hlt.
  { unfold dag_work. simpl. pose proof (sum_insert weight (nodes d) j n n' Hj). lia. }
  split; [|done]. split; [done|]. split; [by eapply evolve_insert|]. split; [done|lia].
Qed.

(** A running node becomes FAILED and takes the graph with it. *)
Lemma aborted_step d d' j n :
  dag_inv d -> active d = true -> nodes d !! j = Some n -> n_status n = SCHED_DAG_NODE_RUNNING ->
  aborted d d' j n ->
  dag_inv d' /\ (dag_next d d' /\ (dag_work d' < dag_work d)%nat) /\
  forall k, running_at d' k <-> k <> j /\ running_at d k.
Proof.
  intros Hinv Ha Hj Hr (n' & ns' & Hl & Hs & Ho & Hrc & -> & Hf).
  assert (sched_dag_node_done (n_status n) = false) as Hnd by (by rewrite Hr).
  assert (node_ok n') as Hok.
  { apply (outcome_ok n); [by eapply dag_inv_node_ok|done|]. split; [done|]. right. left.
    split; [by right|done]. }
  assert (nodes_inv (<[j := n']> (nodes d))) as Hi.
  { eapply nodes_inv_insert; try done; [by destruct Hinv|]. intros _.
    eapply (ni_deps _ (di_nodes _ Hinv) j SCHED_DAG_NODE_RUNNING); [|done].
    unfold status_at. by rewrite Hj, <- Hr. }
  assert (evolve (nodes d) (<[j := n']> (nodes d))) as He by (by eapply evolve_insert).
  destruct (cascade_inv _ ns' Hi) as (He' & Hi' & Hd').
  { eapply Forall2_impl; [exact Hf|]. intros m m' Hm. cbn beta in Hm. unfold dropped. case_bool_decide; [|done].
    by destruct Hm as [t ->]. }
  split; [split; [done|]|split].
  - split; [done|]. exists j. eapply evolve_status; [done| |done].
    rewrite (status_insert_eq _ _ n) by done. by rewrite Hs.
  - enough (dag_work (dag_put d ns' SCHED_DAG_STATUS_FAILED (d_finished_at_ms d)) < dag_work d)%nat.
    { split; [|done]. split; [done|]. split; [by etrans|]. split; [by rewrite Ha|lia]. }
    unfold dag_work. simpl. pose proof (sum_insert weight (nodes d) j n n' Hj) as Hsum.
    assert (weight n' < weight n)%nat as Hlt by (unfold weight; rewrite Hs, Hr; lia).
    assert (sum_list_with weight ns' <= sum_list_with weight (<[j := n']> (nodes d)))%nat as Hle; [|lia].
    apply sum_Forall2. eapply Forall2_impl; [exact Hf|]. intros m m' Hm. cbn beta in Hm.
    case_bool_decide; [|by subst]. rewrite (canceled_weight _ _ Hm). lia.
  - intros k. unfold running_at. simpl. rewrite <- (running_insert _ _ n n') by (done || by rewrite Hs).
    unfold status_at. destruct (<[j := n']> (nodes d) !! k) as [x|] eqn:Hx.
    + destruct (Forall2_lookup_l _ _ _ _ _ Hf Hx) as (x' & -> & Hx'). cbn beta in Hx'. simpl.
      case_bool_decide as E; [|by subst]. rewrite (canceled_status _ _ Hx').
      split; [done|]. intros [= E']. rewrite E' in E. by destruct E.
    + destruct (ns' !! k) as [x'|] eqn:Hx'; [|done].
      destruct (Forall2_lookup_r _ _ _ _ _ Hf Hx') as (x & ? & _). congruence.
Qed.

Lemma write_back_dag fc d j n dret out (w : W) r d' w' :
  dag_inv d -> nodes d !! j = Some n -> n_status n = SCHED_DAG_NODE_RUNNING ->
  sched_dag_write_back_node fc d j n dret out w = (r, d', w') ->
  dag_inv d' /\ (dag_next d d' /\ (dag_work d' < dag_work d)%nat) /\
  forall k, running_at d' k <-> k <> j /\ running_at d k.
Proof.
  intros Hinv Hj Hr H. pose proof (dag_inv_node_ok _ _ _ Hinv Hj) as Hok.
  assert (sched_dag_node_done (n_status n) = false) as Hnd by (by rewrite Hr).
  assert (status_at (nodes d) j = Some SCHED_DAG_NODE_RUNNING) as Hst by (unfold status_at; by rewrite Hj, <- Hr).
  apply write_back_spec in H as [(n' & -> & Hn')|(Hc & Hf & Hab)]; [| |done].
  - assert (layout n' = layout n /\ node_ok n' /\ n_status n' <> SCHED_DAG_NODE_RUNNING /\
            (weight n' < weight n)%nat /\
            (if active d then n_status n' <> SCHED_DAG_NODE_CANCELED
             else sched_dag_node_done (n_status n') = true)) as (Hl & Hok' & Hnr & Hwt & Hact).
    { unfold active. destruct (d_status d) eqn:Es; simpl in Hn' |- *.
      1-3: assert (node_ok n') by (by eapply outcome_ok).
      1-3: pose proof (outcome_not_canceled _ _ Hn').
      1-3: assert (weight n' < weight n)%nat by (by apply outcome_weight).
      1-3: assert (n_status n' <> SCHED_DAG_NODE_RUNNING)
             by (destruct Hn' as [_ [(-> & _)|[([->| ->] & _)|(-> & _)]]]; done).
      - by destruct Hn'.
      - destruct Hinv as [_ Hv]. rewrite Es in Hv. by specialize (Hv j _ Hst).
      - destruct Hinv as [_ Hv]. rewrite Es in Hv. by destruct (proj1 Hv j _ Hst).
      - split; [by apply canceled_layout|]. split; [eapply canceled_ok; [done| |done]; by rewrite Hr|].
        rewrite (canceled_weight _ _ Hn'), (canceled_status _ _ Hn'). unfold weight. rewrite Hr.
        split; [done|]. split; [lia|done].
      - split; [by apply canceled_layout|]. split; [eapply canceled_ok; [done| |done]; by rewrite Hr|].
        rewrite (canceled_weight _ _ Hn'), (canceled_status _ _ Hn'). unfold weight. rewrite Hr.
        split; [done|]. split; [lia|done]. }
    split; [by eapply dag_inv_running|]. split; [by eapply set_nodes_next|].
    intros k. by apply (running_insert _ _ n).
  - eapply aborted_step; try done. unfold active. apply bool_decide_eq_true.
    destruct Hinv as [_ Hv]. destruct (d_status d) eqn:Es; try done.
    + by specialize (Hv j _ Hst).
    + by destruct (proj1 Hv j _ Hst).
Qed.

Lemma node_ready_pos ns n (w : W) r w' :
  sched_dag_node_ready ns n w = (r, w') -> (0 <? r) = true ->
  n_status n = SCHED_DAG_NODE_PENDING /\ (0 <? deps_ready ns (depends n)) = true.
Proof.
  unfold sched_dag_node_ready. case_bool_decide as E; [by intros [= <- _]|].
  destruct (_ =? 0); [by intros [= <- _]|].
  destruct (airy_time_wall_ms w) as [now w1]. destruct (_ <? _); [by intros [= <- _]|].
  by intros [= <- _].
Qed.

(** A ready node of an active graph is started. *)
Lemma start_nodes ns j n r (w : W) w1 n' w2 w3 :
  nodes_inv ns -> verdict SCHED_DAG_STATUS_ACTIVE ns -> ns !! j = Some n ->
  sched_dag_node_ready ns n w = (r, w1) -> (0 <? r) = true -> start_node n w2 = (n', w3) ->
  nodes_inv (<[j := n']> ns) /\ verdict SCHED_DAG_STATUS_ACTIVE (<[j := n']> ns) /\
  evolve ns (<[j := n']> ns) /\ n_status n' = SCHED_DAG_NODE_RUNNING /\
  status_at ns j = Some SCHED_DAG_NODE_PENDING.
Proof.
  intros Hinv Hv Hj Hr Hpos Hst. destruct (node_ready_pos _ _ _ _ _ Hr Hpos) as [Hp Hd].
  unfold start_node in Hst. destruct (airy_time_wall_ms w2) as [t w4]. injection Hst as <- <-.
  assert (sched_dag_node_done (n_status n) = false) as Hnd by (by rewrite Hp).
  set (n' := set_started t _).
  assert (evolve ns (<[j := n']> ns)) as He by (by eapply evolve_insert).
  pose proof (ni_ok _ Hinv) as Hok. rewrite Forall_lookup in Hok. destruct (Hok j n Hj) as [H1 H2 H3 H4].
  rewrite decide_False in H2 by (by rewrite Hp).
  split; [|split; [|split; [done|split; [done|]]]].
  - eapply nodes_inv_insert; try done. intros _.
    apply (deps_ready_spec ns j n); [done| |done].
    pose proof (gw_known _ (ni_wf _ Hinv)) as Hk. rewrite Forall_lookup in Hk. by eapply Hk.
  - eapply evolve_active_verdict; [done|done|].
    intros i x x' Hx [[-> ->]|[Hne Hx']]%lookup_insert_case; [by right; left|left; congruence].
  - unfold status_at. by rewrite Hj, <- Hp.
Qed.
End dag_steps.

(** ** Convergence of one graph *)

(** After convergence an active graph is settled and still has work to do. *)
Definition converged (d : sched_dag_t) : Prop :=
  active d = true -> settled (nodes d) /\ sched_dag_all_terminal (nodes d) = false.

Lemma swept_nodes_inv ns ns' :
  nodes_inv ns -> verdict SCHED_DAG_STATUS_ACTIVE ns -> swept ns ns' -> settled ns' ->
  nodes_inv ns' /\ verdict SCHED_DAG_STATUS_ACTIVE ns' /\
  forall k, status_at ns' k = Some SCHED_DAG_NODE_RUNNING <-> status_at ns k = Some SCHED_DAG_NODE_RUNNING.
Proof.
  intros Hinv Hv Hsw Hset. pose proof (swept_evolve _ _ Hsw) as He.
  pose proof (fun i n => swept_settled ns ns' i n Hsw Hset) as Hx.
  pose proof (ni_ok _ Hinv) as Hok. rewrite Forall_lookup in Hok.
  assert (forall i, doomed ns i -> status_at ns' i = Some SCHED_DAG_NODE_CANCELED) as Hdm.
  { intros i Hd. assert (status_at ns i = Some SCHED_DAG_NODE_PENDING) as Hp by (by destruct Hd).
    unfold status_at in *. destruct (ns !! i) as [n|] eqn:Hn; [|done].
    destruct (Hx i n Hn) as [(_ & n' & -> & Hc)|[? _]]; [|done]. simpl. by rewrite (canceled_status _ _ Hc). }
  split; [|split].
  - eapply nodes_inv_evolve; [done|done|]. intros i n n' Hn Hn'.
    destruct (Hx i n Hn) as [(Hd & m & Hm & Hc)|[_ Hm]]; rewrite Hn' in Hm; injection Hm as <-; [right|by left].
    split; [|by rewrite (canceled_status _ _ Hc)]. eapply canceled_ok; [by eapply Hok| |done].
    assert (status_at ns i = Some SCHED_DAG_NODE_PENDING) as Hp by (by destruct Hd).
    unfold status_at in Hp. rewrite Hn in Hp. simpl in Hp. congruence.
  - eapply evolve_active_verdict; [done|done|]. intros i n n' Hn Hn'.
    destruct (Hx i n Hn) as [(Hd & m & Hm & Hc)|[_ Hm]]; rewrite Hn' in Hm; injection Hm as <-; [right; right|by left].
    destruct Hd as [i _ Hb|i j _ Hj Hd]; [by eapply evolve_broken|].
    exists j, SCHED_DAG_NODE_CANCELED. split; [|by split; [apply Hdm|]].
    eapply dep_edge_layout; [by apply evolve_layout|done].
  - intros k. unfold status_at. destruct (ns !! k) as [n|] eqn:Hn.
    + destruct (Hx k n Hn) as [(Hd & m & -> & Hc)|[_ ->]]; [|done]. simpl.
      rewrite (canceled_status _ _ Hc).
      assert (status_at ns k = Some SCHED_DAG_NODE_PENDING) as Hp by (by destruct Hd).
      unfold status_at in Hp. rewrite Hn in Hp. simpl in Hp. split; congruence.
    + destruct (ns' !! k) as [n'|] eqn:Hn'; [|done].
      destruct (Forall2_lookup_r _ _ _ _ _ He Hn') as (x & ? & _). congruence.
Qed.

(** The nodes of a graph that ends without a failure are all completed: a
    canceled one would lead along its dependencies to a failed one. *)
Lemma no_failure_completed ns :
  nodes_inv ns -> verdict SCHED_DAG_STATUS_ACTIVE ns ->
  (forall i st, status_at ns i = Some st -> sched_dag_node_done st = true /\
     st <> SCHED_DAG_NODE_FAILED /\ st <> SCHED_DAG_NODE_SEMANTIC_FAILED) ->
  forall i st, status_at ns i = Some st -> st = SCHED_DAG_NODE_COMPLETED.
Proof.
  intros Hinv Hv Hall i. pose proof (acyclic_sn ns i (gw_acyclic _ (ni_wf _ Hinv))) as Hsn.
  induction Hsn as [i _ IH]. intros st Hst. destruct (Hall i st Hst) as (Hd & Hf & Hs).
  destruct st; try done. destruct (Hv i Hst) as (j & st & Hj & Hsj & Hb).
  specialize (IH j Hj st Hsj). by subst st.
Qed.

Lemma status_elem ns n : n ∈ ns -> exists i, status_at ns i = Some (n_status n).
Proof. intros [i Hi]%list_elem_of_lookup. exists i. unfold status_at. by rewrite Hi. Qed.

Lemma status_elem_inv ns i st : status_at ns i = Some st -> exists n, n ∈ ns /\ n_status n = st.
Proof.
  unfold status_at. destruct (ns !! i) as [n|] eqn:Hn; [|done]. intros [= <-]. exists n.
  split; [|done]. apply list_elem_of_lookup. eauto.
Qed.

(** The final status of a graph whose nodes are all final. *)
Lemma terminal_verdict ns :
  nodes_inv ns -> verdict SCHED_DAG_STATUS_ACTIVE ns -> sched_dag_all_terminal ns = true ->
  verdict (terminal_status ns) ns /\ terminal_status ns <> SCHED_DAG_STATUS_ACTIVE.
Proof.
  intros Hinv Hv Hall. rewrite all_terminal_spec in Hall.
  assert (forall i st, status_at ns i = Some st -> sched_dag_node_done st = true) as Hd.
  { intros i st (n & Hn & <-)%status_elem_inv. by apply Hall. }
  pose proof (terminal_status_spec ns) as Ht. destruct (terminal_status ns); try done; (split; [|done]).
  - refine (no_failure_completed ns Hinv Hv _). intros i st Hst. split; [by eapply Hd|].
    destruct (status_elem_inv _ _ _ Hst) as (n & Hn & <-). by apply Ht.
  - destruct Ht as [Hnf (n & Hn & Hs)]. split.
    + intros i st Hst. split; [by eapply Hd|]. destruct (status_elem_inv _ _ _ Hst) as (m & Hm & <-). by apply Hnf.
    + destruct (status_elem ns n Hn) as [i Hi]. exists i. by rewrite <- Hs.
  - destruct Ht as (n & Hn & Hs). split.
    + intros i st Hst. left. by eapply Hd.
    + destruct (status_elem ns n Hn) as [i Hi]. exists i. by rewrite <- Hs.
Qed.

Section converge.
  Context {W : Type} `{OS : SchedOS W} `{EM : ErrModel}.

Lemma finalize_spec ds (w : W) ds' w' :
  sched_dag_finalize_terminal ds w = (ds', w') ->
  Forall2 (fun d d' =>
    if active d && sched_dag_all_terminal (nodes d)
    then exists t, d' = dag_put d (nodes d) (terminal_status (nodes d)) t else d' = d) ds ds'.
Proof.
  revert w ds'. induction ds as [|d ds IH]; intros w ds'; simpl.
  { by intros [= <- _]. }
  destruct (active d && sched_dag_all_terminal (nodes d)) eqn:E.
  - destruct (airy_time_wall_ms w) as [t w1].
    destruct (sched_dag_finalize_terminal ds w1) as [r w2] eqn:Er. intros [= <- <-].
    constructor; [rewrite E; eauto|by eapply IH].
  - destruct (sched_dag_finalize_terminal ds w) as [r w2] eqn:Er. intros [= <- <-].
    constructor; [by rewrite E|by eapply IH].
Qed.

Lemma swept_weight ns ns' : swept ns ns' -> (sum_list_with weight ns' <= sum_list_with weight ns)%nat.
Proof.
  intros [Hl Hs]. apply sum_Forall2. apply Forall2_same_length_lookup_2; [done|].
  intros i n n' Hn Hn'. destruct (Hs i n n' Hn Hn') as [->|(_ & Hc & _)]; [done|].
  rewrite (canceled_weight _ _ Hc). lia.
Qed.

(** What convergence does to one graph. *)
Lemma converge_dag d d1 d2 :
  dag_inv d -> dag_swept d d1 -> (active d1 = true -> settled (nodes d1)) ->
  (if active d1 && sched_dag_all_terminal (nodes d1)
   then exists t, d2 = dag_put d1 (nodes d1) (terminal_status (nodes d1)) t else d2 = d1) ->
  dag_inv d2 /\ dag_next d d2 /\ converged d2 /\ forall k, running_at d2 k <-> running_at d k.
Proof.
  intros Hinv Hsw Hset Hfin. unfold dag_swept in Hsw. destruct (active d) eqn:Ea.
  - destruct Hsw as (ns & -> & Hsw). change (active (set_nodes ns d)) with (active d) in *.
    rewrite Ea in *. specialize (Hset eq_refl). cbn [nodes set_nodes dag_put andb] in *.
    assert (d_status d = SCHED_DAG_STATUS_ACTIVE) as Es by (by apply bool_decide_eq_true in Ea).
    destruct Hinv as [Hi Hv]. rewrite Es in Hv.
    destruct (swept_nodes_inv _ _ Hi Hv Hsw Hset) as (Hi' & Hv' & Hrun).
    pose proof (swept_evolve _ _ Hsw) as He.
    destruct (sched_dag_all_terminal ns) eqn:Et.
    + destruct Hfin as [t ->]. destruct (terminal_verdict ns Hi' Hv' Et) as [Htv Hta].
      split; [done|].
      split; [split; [done|split; [done|split; [by rewrite Ea|by apply swept_weight]]]|]. split; [|done].
      intros Ha. unfold active in Ha. simpl in Ha. by apply bool_decide_eq_true in Ha.
    + subst d2. split; [split; simpl; [done|by rewrite Es]|].
      split; [split; [done|split; [done|split; [by rewrite Ea|by apply swept_weight]]]|].
      by split; [intros _|].
  - subst d1. rewrite Ea in Hfin. simpl in Hfin. subst d2. split; [done|]. split; [done|].
    split; [|done]. intros Ha. congruence.
Qed.

Lemma converge_total (s : sched_service) (w : W) :
  Forall dag_inv (dags s) ->
  exists s' w', converge s w = (Some s', w') /\ s' = set_dags (dags s') s /\
    Forall2 (fun d d' => dag_inv d' /\ dag_next d d' /\ converged d' /\
      forall k, running_at d' k <-> running_at d k) (dags s) (dags s').
Proof.
  intros Hinv. unfold converge, converge_fuel.
  destruct (propagate_total (S (total_pending (dags s))) (dags s) (dags s) w) as (ds1 & w1 & -> & Hf & Hset);
    [apply dag_swept_refl|lia|].
  destruct (sched_dag_finalize_terminal ds1 w1) as [ds2 w2] eqn:Ef. apply finalize_spec in Ef.
  eexists _, _. split; [done|]. split; [done|]. simpl. revert ds2 Ef.
  induction Hf as [|d d1 ds ds1 Hd _ IH]; intros ds2 Ef; inversion Ef as [|? d2 ? ds2' Hd2 Hr]; subst; constructor.
  - apply Forall_cons in Hinv as [Hinv _]. apply Forall_cons in Hset as [Hset _]. by eapply converge_dag.
  - apply Forall_cons in Hinv as [_ Hinv]. apply Forall_cons in Hset as [_ Hset]. by apply IH.
Qed.

(** *** Collecting a batch *)

Lemma running_start ns j n n' k :
  ns !! j = Some n -> n_status n' = SCHED_DAG_NODE_RUNNING ->
  status_at (<[j := n']> ns) k = Some SCHED_DAG_NODE_RUNNING <->
  k = j \/ status_at ns k = Some SCHED_DAG_NODE_RUNNING.
Proof.
  intros Hj Hn. split.
  - intros [[-> E]|[? ?]]%(status_insert _ _ n); [by left|by right|done].
  - intros [->|H]; [rewrite (status_insert_eq _ _ n) by done; by rewrite Hn|].
    destruct (decide (k = j)) as [->|Hne]; [rewrite (status_insert_eq _ _ n) by done; by rewrite Hn|].
    unfold status_at in *. by rewrite list_lookup_insert_ne.
Qed.

Lemma start_weight n (w : W) n' w' :
  start_node n w = (n', w') -> n_status n = SCHED_DAG_NODE_PENDING -> weight n = S (weight n').
Proof.
  unfold start_node. destruct (airy_time_wall_ms w) as [t w1]. intros [= <- _] Hp. unfold weight.
  rewrite Hp. simpl. lia.
Qed.

Lemma collect_nodes_spec i ns js room (w : W) out ns' w' :
  nodes_inv ns -> verdict SCHED_DAG_STATUS_ACTIVE ns -> NoDup js ->
  collect_nodes i ns js room w = (out, ns', w') ->
  nodes_inv ns' /\ verdict SCHED_DAG_STATUS_ACTIVE ns' /\ evolve ns ns' /\
  (length out <= room)%nat /\ (sum_list_with weight ns' + length out = sum_list_with weight ns)%nat /\
  NoDup out /\
  (forall p, p ∈ out -> p.1 = i /\ p.2 ∈ js /\ status_at ns p.2 = Some SCHED_DAG_NODE_PENDING) /\
  (forall k, status_at ns' k = Some SCHED_DAG_NODE_RUNNING <->
     status_at ns k = Some SCHED_DAG_NODE_RUNNING \/ (i, k) ∈ out).
Proof.
  revert ns room w out. induction js as [|j js IH]; intros ns room w out Hinv Hv Hnd.
  { intros [= <- <- _]. do 3 (split; [done|]). split; [simpl; lia|]. split; [simpl; lia|].
    split; [constructor|]. split; [by intros p Hp%not_elem_of_nil|]. intros k. set_solver. }
  apply NoDup_cons in Hnd as [Hj Hnd]. destruct room as [|room].
  { intros [= <- <- _]. do 3 (split; [done|]). split; [simpl; lia|]. split; [simpl; lia|].
    split; [constructor|]. split; [by intros p Hp%not_elem_of_nil|]. intros k. set_solver. }
  cbn [collect_nodes].
  assert (forall w1, collect_nodes i ns js (S room) w1 = (out, ns', w') ->
     nodes_inv ns' /\ verdict SCHED_DAG_STATUS_ACTIVE ns' /\ evolve ns ns' /\
     (length out <= S room)%nat /\ (sum_list_with weight ns' + length out = sum_list_with weight ns)%nat /\
     NoDup out /\
     (forall p, p ∈ out -> p.1 = i /\ p.2 ∈ j :: js /\ status_at ns p.2 = Some SCHED_DAG_NODE_PENDING) /\
     (forall k, status_at ns' k = Some SCHED_DAG_NODE_RUNNING <->
        status_at ns k = Some SCHED_DAG_NODE_RUNNING \/ (i, k) ∈ out)) as Hskip.
  { intros w1 (H1 & H2 & H3 & H4 & Hw & H5 & H6 & H7)%IH; try done. do 6 (split; [done|]). split; [|done].
    intros p (E1 & E2 & E3)%H6. split; [done|]. split; [by right|done]. }
  destruct (ns !! j) as [n|] eqn:Hn; [|by apply Hskip].
  destruct (sched_dag_node_ready ns n w) as [r w1] eqn:Er. destruct (0 <? r) eqn:Epos; [|by apply Hskip].
  destruct (start_node n w1) as [n' w2] eqn:Es.
  destruct (collect_nodes i (<[j := n']> ns) js room w2) as [[out1 ns1] w3] eqn:Ec. intros [= <- <- <-].
  destruct (start_nodes _ _ _ _ _ _ _ _ _ Hinv Hv Hn Er Epos Es) as (Hi & Hv' & He & Hrn & Hp).
  destruct (IH _ _ _ _ Hi Hv' Hnd Ec) as (H1 & H2 & H3 & H4 & Hw & H5 & H6 & H7).
  pose proof (sum_insert weight ns j n n' Hn) as Hsum.
  pose proof (start_weight _ _ _ _ Es ltac:(by unfold status_at in Hp; rewrite Hn in Hp; injection Hp)) as Hsw.
  do 2 (split; [done|]). split; [by etrans|]. split; [simpl; lia|]. split; [simpl; lia|]. split; [|split].
  - constructor; [|done]. intros (_ & Hin & _)%H6. done.
  - intros p [->|Hin]%elem_of_cons; [by split; [|split; [left|]]|].
    destruct (H6 p Hin) as (E1 & E2 & E3). split; [done|]. split; [by right|].
    eapply status_insert in E3 as [[E3 _]|[_ E3]]; [|done|done]. rewrite E3 in E2. done.
  - intros k. rewrite H7, (running_start _ _ n n') by done. rewrite elem_of_cons. naive_solver.
Qed.

Lemma collect_dags_spec i ds room (w : W) out ds' w' :
  Forall dag_inv ds -> collect_dags i ds room w = (out, ds', w') ->
  Forall2 (fun d d' => dag_inv d' /\ dag_next d d') ds ds' /\ (length out <= room)%nat /\
  (sum_list_with dag_work ds' + length out = sum_list_with dag_work ds)%nat /\ NoDup out /\
  (forall p, p ∈ out -> (i <= p.1)%nat /\ exists d, ds !! (p.1 - i)%nat = Some d /\ active d = true /\
     status_at (nodes d) p.2 = Some SCHED_DAG_NODE_PENDING) /\
  (forall m k d d', ds !! m = Some d -> ds' !! m = Some d' ->
     running_at d' k <-> running_at d k \/ ((i + m)%nat, k) ∈ out).
Proof.
  revert i room w out ds'. induction ds as [|d ds IH]; intros i room w out ds' Hinv.
  { intros [= <- <- _]. split; [constructor|]. split; [simpl; lia|]. split; [done|]. split; [constructor|].
    split; [by intros p Hp%not_elem_of_nil|done]. }
  apply Forall_cons in Hinv as [Hd Hinv]. destruct room as [|room].
  { intros [= <- <- _]. split; [apply Forall_Forall2_diag; constructor; [done|]|].
    { eapply Forall_impl; [exact Hinv|]. done. }
    split; [simpl; lia|]. split; [simpl; lia|]. split; [constructor|].
    split; [by intros p Hp%not_elem_of_nil|].
    intros m k x x' Hx Hx'. assert (x' = x) as -> by congruence. set_solver. }
  cbn [collect_dags]. destruct (active d) eqn:Ea.
  - assert (d_status d = SCHED_DAG_STATUS_ACTIVE) as Es by (by apply bool_decide_eq_true in Ea).
    destruct (collect_nodes i (nodes d) _ (S room) w) as [[o1 ns1] w1] eqn:Ec.
    destruct (collect_dags (S i) ds _ w1) as [[o2 r] w2] eqn:Er. intros [= <- <- <-].
    pose proof Hd as [Hi Hv]. rewrite Es in Hv.
    destruct (collect_nodes_spec _ _ _ _ _ _ _ _ Hi Hv (NoDup_seq _ _) Ec) as (N1 & N2 & N3 & N4 & Nw & N5 & N6 & N7).
    destruct (IH _ _ _ _ _ Hinv Er) as (D1 & D2 & Dw & D3 & D4 & D5).
    assert (dag_work (set_nodes ns1 d) + length o1 = dag_work d)%nat as Hdw by done.
    split; [|split; [|split; [|split; [|split]]]].
    + constructor; [|done]. split; [split; simpl; [done|by rewrite Es]|].
      split; [done|]. split; [done|]. split; [by rewrite Ea|lia].
    + rewrite length_app. lia.
    + rewrite length_app. cbn [sum_list_with]. lia.
    + apply NoDup_app. split; [done|]. split; [|done]. intros p (E1 & _)%N6 (E2 & _)%D4. lia.
    + intros p [Hp|Hp]%elem_of_app.
      * destruct (N6 p Hp) as (-> & _ & Hs). split; [lia|]. exists d. by rewrite Nat.sub_diag.
      * destruct (D4 p Hp) as (Hle & x & Hx & Hs). split; [lia|]. exists x.
        by replace (p.1 - i)%nat with (S (p.1 - S i)) by lia.
    + intros [|m] k x x' Hx Hx'; simpl in Hx, Hx'.
      * injection Hx as <-. injection Hx' as <-. rewrite Nat.add_0_r. unfold running_at. simpl.
        rewrite N7, elem_of_app. split; [naive_solver|]. intros [?|[?|(E & _)%D4]]; [by left|by right|simpl in E; lia].
      * rewrite (D5 m k x x') by done. rewrite elem_of_app, Nat.add_succ_r. simpl. split; [naive_solver|].
        intros [?|[(E & _)%N6|?]]; [by left|simpl in E; lia|by right].
  - destruct (collect_dags (S i) ds _ w) as [[o2 r] w2] eqn:Er. intros [= <- <- <-].
    destruct (IH _ _ _ _ _ Hinv Er) as (D1 & D2 & Dw & D3 & D4 & D5).
    split; [by constructor|]. split; [done|]. split; [cbn [sum_list_with]; lia|]. split; [done|]. split.
    + intros p Hp. destruct (D4 p Hp) as (Hle & x & Hx & Hs). split; [lia|]. exists x.
      by replace (p.1 - i)%nat with (S (p.1 - S i)) by lia.
    + intros [|m] k x x' Hx Hx'; simpl in Hx, Hx'.
      * assert (x' = x) as -> by congruence. rewrite Nat.add_0_r. split; [by left|].
        intros [?|(E & _)%D4]; [done|simpl in E; lia].
      * rewrite Nat.add_succ_r. by apply D5.
Qed.
End converge.

(** ** Submission and cancellation *)

Lemma node_retry_range nj : 0 <= (node_retry nj).1 <= UINT32_MAX.
Proof.
  unfold node_retry. destruct (positive_u32 (j_max_retries nj)) as [m|] eqn:E; simpl; [|unfold UINT32_MAX; lia].
  unfold positive_u32 in E. destruct (j_max_retries nj) as [x|]; [|done]. simpl in E.
  destruct (dlt d_zero x); [|done]. injection E as <-. apply u32_range.
Qed.

Section public.
  Context {W : Type} `{OS : SchedOS W} `{EM : ErrModel} (fallback : string).

(** A graph as it enters the table. *)
Lemma fresh_dag_inv root d : graph_of fallback root d -> dag_inv d /\ converged d /\ forall k, ~ running_at d k.
Proof.
  intros (Hn & Hs & Hwf).
  assert (forall n, n ∈ nodes d -> exists nj, n = node_of fallback nj) as Hall.
  { rewrite Hn. intros n (nj & -> & _)%list_elem_of_fmap. by exists nj. }
  assert (forall i st, status_at (nodes d) i = Some st -> st = SCHED_DAG_NODE_PENDING) as Hp.
  { intros i st (n & Hin & <-)%status_elem_inv. by destruct (Hall n Hin) as [nj ->]. }
  split; [split; [split|]|split].
  - done.
  - apply Forall_forall. intros n Hin. destruct (Hall n Hin) as [nj ->].
    pose proof (node_retry_range nj). split; simpl; [done|done|lia|lia].
  - intros i st Hst. by rewrite (Hp i st Hst).
  - rewrite Hs. intros i Hst. by specialize (Hp i _ Hst).
  - intros _. split.
    + intros j _ (k & st & _ & Hst & Hb). by rewrite (Hp k st Hst) in Hb.
    + destruct (nodes d) as [|n ns] eqn:E; [destruct Hwf as [? _]; simpl in *; lia|].
      destruct (Hall n) as [nj ->]; [by left|]. done.
  - intros k Hk. by specialize (Hp k _ Hk).
Qed.

(** Submission is total, and leaves the table alone unless it succeeds. *)
Lemma submit_spec (s : sched_service) root (w : W) :
  exists rc out s' w', sched_service_submit_dag fallback s root w = (Some (rc, out, s'), w') /\
    (rc = AIRY_SUCCESS -> (length (dags s) < SCHED_DAG_MAX_DAGS)%nat /\
       exists r d, root = Some r /\ submission_ok fallback r /\ graph_of fallback r d /\
         s' = set_dags (dags s ++ [d]) (svc_put s (dags s) (u64 (dag_seq s + 1)) (batch_pending s))) /\
    (rc <> AIRY_SUCCESS -> s' = svc_put s (dags s) (dag_seq s') (batch_pending s)) /\
    (forall r, mem_ok (W := W) -> initialized s = true -> root = Some r -> submission_ok fallback r ->
       (length (dags s) < SCHED_DAG_MAX_DAGS)%nat -> rc = AIRY_SUCCESS).
Proof.
  unfold sched_service_submit_dag.
  assert (s = svc_put s (dags s) (dag_seq s) (batch_pending s)) as Hs by (by destruct s).
  destruct (initialized s) eqn:Ei; cbn [negb].
  2: { eexists _, _, _, _. split; [done|]. done. }
  destruct root as [root|]; [|by eexists _, _, _, _].
  destruct (build_spec fallback root w) as (r & w1 & -> & Hsnd & Herr & Hcmp). destruct r as [e|d].
  { exists e, None, s, w1. split; [done|]. specialize (Herr e eq_refl).
    split; [done|]. split; [done|]. intros r Hm _ [= <-] Hok _. by destruct (Hcmp Hm Hok). }
  destruct (Hsnd d eq_refl) as [Hok (Hn & Hst & Hwf)].
  destruct (Nat.leb_spec SCHED_DAG_MAX_DAGS (length (dags s))) as [Hl|Hl].
  { eexists _, _, _, _. split; [done|]. split; [done|]. split; [done|]. intros. lia. }
  destruct (time_s w1) as [t w2]. unfold AIRY_STRDUP.
  destruct (os_alloc w2) as [[] w3] eqn:E2.
  2: { eexists _, _, _, _. split; [done|]. split; [done|]. split; [done|].
       intros r Hm. specialize (Hm w2). by rewrite E2 in Hm. }
  destruct (airy_time_wall_ms w3) as [now w4]. destruct (os_alloc w4) as [ok w5].
  eexists _, _, _, _. split; [done|]. split; [|done]. intros _. split; [done|].
  eexists root, _. split; [done|]. split; [done|]. split; [|done]. by split; [|split].
Qed.

(** Cancellation of an active graph. *)
Lemma cancel_nodes_spec ns (w : W) ns' w' :
  cancel_nodes ns w = (ns', w') ->
  Forall2 dropped ns ns'.
Proof.
  revert w ns'. induction ns as [|n ns IH]; intros w ns'; simpl.
  { by intros [= <- _]. }
  destruct (bool_decide _) eqn:E.
  - destruct (airy_time_wall_ms w) as [t w1]. destruct (AIRY_STRDUP _ w1) as [e w2].
    destruct (cancel_nodes ns w2) as [r w3] eqn:Er. intros [= <- <-].
    constructor; [unfold dropped; by rewrite E|by eapply IH].
  - destruct (cancel_nodes ns w) as [r w3] eqn:Er. intros [= <- <-].
    constructor; [unfold dropped; by rewrite E|by eapply IH].
Qed.

Lemma cancel_running ns ns' k :
  Forall2 dropped ns ns' ->
  status_at ns' k = Some SCHED_DAG_NODE_RUNNING <-> status_at ns k = Some SCHED_DAG_NODE_RUNNING.
Proof.
  intros Hf. unfold status_at. destruct (ns !! k) as [n|] eqn:Hn.
  - destruct (Forall2_lookup_l _ _ _ _ _ Hf Hn) as (n' & -> & H). simpl. unfold dropped in H.
    case_bool_decide as E; [|by subst]. destruct H as (_ & -> & _).
    split; [done|]. intros [= E']. rewrite E' in E. by destruct E.
  - destruct (ns' !! k) as [n'|] eqn:Hn'; [|done].
    destruct (Forall2_lookup_r _ _ _ _ _ Hf Hn') as (x & ? & _). congruence.
Qed.

Lemma cancel_spec (s : sched_service) id (w : W) rc s' w' :
  sched_service_cancel_dag s id w = (rc, s', w') ->
  s' = s \/
  rc = AIRY_SUCCESS /\ exists i d ns t, dags s !! i = Some d /\ dag_id d = id /\ active d = true /\
    s' = upd_dag i (dag_put d ns SCHED_DAG_STATUS_CANCELED t) s /\
    Forall2 dropped (nodes d) ns.
Proof.
  unfold sched_service_cancel_dag. destruct (initialized s); simpl; [|intros [= <- <- _]; by left].
  destruct (sched_find_dag s id) as [i|] eqn:Ef; simpl; [|intros [= <- <- _]; by left].
  destruct (dags s !! i) as [d|] eqn:Ed; simpl; [|intros [= <- <- _]; by left].
  destruct (active d) eqn:Ea; simpl; [|intros [= <- <- _]; by left].
  destruct (airy_time_wall_ms w) as [t w1]. destruct (cancel_nodes (nodes d) w1) as [ns w2] eqn:Ec.
  intros [= <- <- _]. right. split; [done|]. exists i, d, ns, t. split; [done|].
  split; [|split; [done|split; [done|by eapply cancel_nodes_spec]]].
  enough (forall j ds, find_dag_from j ds id = Some i -> exists d', ds !! (i - j)%nat = Some d' /\ (j <= i)%nat /\ dag_id d' = id) as H.
  { destruct (H 0%nat _ Ef) as (d' & Hd' & _ & <-). rewrite Nat.sub_0_r in Hd'. congruence. }
  clear. intros j ds. revert j. induction ds as [|d ds IH]; intros j; simpl; [done|].
  destruct (strcmp_eq (dag_id d) id) eqn:E; bool_cases.
  - intros [= ->]. exists d. rewrite Nat.sub_diag. done.
  - intros (d' & Hd' & Hle & Hid)%IH. exists d'. replace (i - j)%nat with (S (i - S j)) by lia.
    split; [done|]. split; [lia|done].
Qed.

Lemma canceled_dag d ns t :
  dag_inv d -> active d = true ->
  Forall2 dropped (nodes d) ns ->
  let d' := dag_put d ns SCHED_DAG_STATUS_CANCELED t in
  dag_inv d' /\ dag_next d d' /\ converged d' /\ forall k, running_at d' k <-> running_at d k.
Proof.
  intros [Hi Hv] Ha Hf. destruct (cascade_inv _ _ Hi Hf) as (He & Hi' & Hd). cbv zeta.
  split; [by split|].
  split; [split; [done|split; [done|split; [by rewrite Ha|]]]|].
  { apply sum_Forall2. eapply Forall2_impl; [exact Hf|]. intros n n'. apply dropped_weight. }
  split; [done|]. intros k. by apply cancel_running.
Qed.
End public.

(** C39.  Submissions are checked exactly.  Submitting always ends; what is accepted
    is put at the end of the table as the graph the submission describes, with
    every node waiting, and it is well formed: between 1 and 64 nodes, distinct
    non-empty names, at most 8 dependencies each, all of them nodes of the
    graph, no cycle.  A rejected submission changes no graph.  Every submission
    that describes such a graph is accepted if the table has room and memory
    does not run out. *)
Theorem submit_exact {W} `{SchedOS W} (fallback : string) (s : sched_service) root (w : W) :
  exists rc out s' w', sched_service_submit_dag fallback s (Some root) w = (Some (rc, out, s'), w') /\
    (rc = AIRY_SUCCESS -> (length (dags s) < SCHED_DAG_MAX_DAGS)%nat /\ submission_ok fallback root /\
       exists d, dags s' = dags s ++ [d] /\ graph_of fallback root d) /\
    (rc <> AIRY_SUCCESS -> dags s' = dags s) /\
    (mem_ok (W := W) -> initialized s = true -> (length (dags s) < SCHED_DAG_MAX_DAGS)%nat ->
       submission_ok fallback root -> rc = AIRY_SUCCESS).
Proof.
  destruct (submit_spec fallback s (Some root) w) as (rc & out & s' & w' & E & Hok & Hno & Hcmp).
  exists rc, out, s', w'. split; [done|]. split; [|split].
  - intros Hrc. destruct (Hok Hrc) as (Hl & r & d & [= <-] & Hsub & Hg & ->). split; [done|]. split; [done|].
    by exists d.
  - intros Hne. by rewrite (Hno Hne).
  - intros Hm Hi Hl Hsub. by apply (Hcmp root).
Qed.
