(* ===== verification/DagSystem.v ===== *)
(** * DagSystem

    The scheduler as a whole: the requests, the worker thread and the pool
    threads of DagService as a transition system over the service state, the
    position of the worker and the set of executions in flight.  The theorems
    hold for every interleaving: the invariant of the table and of the running
    nodes, the finality of results, progress and termination, and what a
    submission does. *)

From stdpp Require Import relations.
From S2P Require Import Prelude Doubles MemEnv Failover DagGraph DagEngine DagService.

(** ** The system *)

(** The worker thread is waiting or dispatching, or has released the lock while
    the executor runs one node, or waits at the barrier of a batch.  [flight]
    lists the batch items whose result has not been taken over. *)
Inductive worker_t := WIdle | WOne (ij : nat * nat) | WBatch.

Record sys := mkSys { svc : sched_service; worker : worker_t; flight : list (nat * nat) }.

(** The nodes some executor is working on. *)
Definition inflight (y : sys) : list (nat * nat) :=
  match worker y with WOne ij => ij :: flight y | _ => flight y end.

Definition running (s : sched_service) (ij : nat * nat) : Prop :=
  exists d, dags s !! ij.1 = Some d /\ running_at d ij.2.

Definition svc_work (s : sched_service) : nat := sum_list_with dag_work (dags s).

Section system.
  Context {W : Type} `{OS : SchedOS W} `{EM : ErrModel} (fallback : string).

(** The RPC threads. *)
Inductive rpc_step : sys -> sys -> Prop :=
| rpc_submit s k f root (w : W) rc out s' w' :
    sched_service_submit_dag fallback s root w = (Some (rc, out, s'), w') ->
    rpc_step (mkSys s k f) (mkSys s' k f)
| rpc_cancel s k f id (w : W) rc s' w' :
    sched_service_cancel_dag s id w = (rc, s', w') -> rpc_step (mkSys s k f) (mkSys s' k f)
| rpc_executor s k f : rpc_step (mkSys s k f) (mkSys (sched_service_set_executor s).2 k f)
| rpc_run s k f r : rpc_step (mkSys s k f) (mkSys (set_dag_run r s) k f).

(** The worker thread and the pool threads.  An executor may answer anything at
    any time; the worker passes the barrier when [batch_pending] is 0. *)
Inductive work_step : sys -> sys -> Prop :=
| work_one s f (w : W) i j g s' w' :
    parallel s = false -> run_one_begin s w = (Some (i, j, g), s', w') ->
    work_step (mkSys s WIdle f) (mkSys s' (WOne (i, j)) f)
| work_one_end s f ij ans (w : W) s' w' :
    run_one_end s ij ans w = (Some s', w') -> work_step (mkSys s (WOne ij) f) (mkSys s' WIdle f)
| work_batch s f (w : W) batch gs s' w' :
    parallel s = true -> run_batch_begin s w = (batch, gs, s', w') -> batch <> [] ->
    work_step (mkSys s WIdle f) (mkSys s' WBatch (f ++ batch))
| work_item s k f1 ij f2 ans (w : W) s' w' :
    batch_worker_end s ij ans w = (s', w') ->
    work_step (mkSys s k (f1 ++ ij :: f2)) (mkSys s' k (f1 ++ f2))
| work_item_fail s k f1 ij f2 msg (w : W) s' w' :
    sched_dag_fail_node s ij msg w = (s', w') ->
    work_step (mkSys s k (f1 ++ ij :: f2)) (mkSys s' k (f1 ++ f2))
| work_batch_end s f (w : W) s' w' :
    batch_pending s = 0 -> converge s w = (Some s', w') ->
    work_step (mkSys s WBatch f) (mkSys s' WIdle f).

Definition step (y y' : sys) : Prop := rpc_step y y' \/ work_step y y'.

Definition initial (mp batch : Z) (fc mac_ok pool_ok : bool) : sys :=
    mkSys (sched_service_create mp batch fc mac_ok pool_ok) WIdle [].

(** *** Invariant *)

Record sys_inv (y : sys) : Prop := {
  si_dags : Forall dag_inv (dags (svc y));
  si_size : (length (dags (svc y)) <= SCHED_DAG_MAX_DAGS)%nat;
  si_nodup : NoDup (inflight y);
  si_running ij : running (svc y) ij <-> ij ∈ inflight y;
  si_pending : match worker y with
               | WBatch => batch_pending (svc y) = Z.of_nat (length (flight y))
               | _ => flight y = [] /\ batch_pending (svc y) = 0
               end;
  si_batch : 0 <= dag_batch_size (svc y) <= Z.of_nat SCHED_DAG_MAX_NODES;
  si_idle : worker y = WIdle -> Forall converged (dags (svc y))
}.

(** Every graph of the table moves forward; new ones are appended. *)
Definition svc_next (s s' : sched_service) : Prop :=
    forall i d, dags s !! i = Some d -> exists d', dags s' !! i = Some d' /\ dag_next d d'.

Lemma svc_next_Forall2 s s' (P : sched_dag_t -> sched_dag_t -> Prop) :
  Forall2 P (dags s) (dags s') -> (forall d d', P d d' -> dag_next d d') -> svc_next s s'.
Proof.
  intros Hf HP i d Hd. destruct (Forall2_lookup_l _ _ _ _ _ Hf Hd) as (d' & Hd' & H). eauto.
Qed.

Lemma running_upd s i d d' (P : nat -> Prop) ij :
  dags s !! i = Some d -> (forall k, running_at d' k <-> P k) ->
  running (upd_dag i d' s) ij <-> if decide (ij.1 = i) then P ij.2 else running s ij.
Proof.
  intros Hd HP. unfold running, upd_dag. simpl. destruct ij as [i' k]. simpl. case_decide as E.
  - subst. rewrite list_lookup_insert_eq by (by eapply lookup_lt_Some). split.
    + intros (x & [= <-] & H). by apply HP.
    + intros H. eexists. split; [done|]. by apply HP.
  - by rewrite list_lookup_insert_ne.
Qed.

Lemma running_minus s i j d d' :
  dags s !! i = Some d -> (forall k, running_at d' k <-> k <> j /\ running_at d k) ->
  forall p, running (upd_dag i d' s) p <-> p <> (i, j) /\ running s p.
Proof.
  intros Hd Hrun [i' k]. rewrite (running_upd s i d d' _ _ Hd Hrun). simpl. case_decide as E; [subst i'|].
  - split; [intros [Hk ?]; split; [congruence|by exists d]|].
    intros [Hk (x & Hx & Hxr)]. simpl in Hx, Hxr. assert (x = d) as -> by congruence.
    split; [congruence|done].
  - split; [intros ?; split; [congruence|done]|by intros [_ ?]].
Qed.

Lemma running_same s s' :
  Forall2 (fun d d' => forall k, running_at d' k <-> running_at d k) (dags s) (dags s') ->
  forall ij, running s' ij <-> running s ij.
Proof.
  intros Hf [i k]. unfold running. simpl. split; intros (d & Hd & Hr).
  - destruct (Forall2_lookup_r _ _ _ _ _ Hf Hd) as (d' & Hd' & H). exists d'. split; [done|]. by apply H.
  - destruct (Forall2_lookup_l _ _ _ _ _ Hf Hd) as (d' & Hd' & H). exists d'. split; [done|]. by apply H.
Qed.

Lemma upd_dag_inv s i d : Forall dag_inv (dags s) -> dag_inv d -> Forall dag_inv (dags (upd_dag i d s)).
Proof. intros Hf Hd. simpl. by apply Forall_insert. Qed.

Lemma upd_dag_next s i d d' : dags s !! i = Some d -> dag_next d d' -> svc_next s (upd_dag i d' s).
Proof.
  intros Hd Hn m x Hx. simpl. destruct (decide (m = i)) as [->|Hne].
  - rewrite list_lookup_insert_eq by (by eapply lookup_lt_Some). exists d'. by simplify_eq.
  - rewrite list_lookup_insert_ne by done. by exists x.
Qed.

Lemma upd_dag_work s i d d' :
  dags s !! i = Some d -> (dag_work d' < dag_work d)%nat -> (svc_work (upd_dag i d' s) < svc_work s)%nat.
Proof. intros Hd Hw. unfold svc_work. simpl. pose proof (sum_insert dag_work (dags s) i d d' Hd). lia. Qed.

(** No graph is added: the work of the service does not grow. *)
Lemma svc_next_work s s' :
  svc_next s s' -> length (dags s') = length (dags s) -> (svc_work s' <= svc_work s)%nat.
Proof.
  intros Hn Hl. apply sum_Forall2. apply Forall2_same_length_lookup_2; [done|].
  intros i d d' Hd Hd'. destruct (Hn i d Hd) as (x & Hx & _ & _ & _ & Hw).
  by assert (x = d') as -> by congruence.
Qed.

(** Taking over the result of a node in flight. *)
Lemma write_back_step s ij ans (w : W) s' w' :
  Forall dag_inv (dags s) -> running s ij -> write_back s ij ans w = (s', w') ->
  exists ds, s' = set_dags ds s /\ length ds = length (dags s) /\ Forall dag_inv ds /\ svc_next s s' /\
    (svc_work s' < svc_work s)%nat /\ forall p, running s' p <-> p <> ij /\ running s p.
Proof.
  intros Hinv (d & Hd & Hr) H. destruct ij as [i j]. unfold write_back, node_at in H. simpl in *.
  rewrite Hd in H. simpl in H. unfold running_at, status_at in Hr.
  destruct (nodes d !! j) as [n|] eqn:Hn; [|done]. injection Hr as Hr. simpl in H.
  destruct (exec_result s ans) as [dret out].
  destruct (sched_dag_write_back_node _ d j n dret out w) as [[r d'] w1] eqn:Ew. injection H as <- <-.
  assert (dag_inv d) as Hid by (rewrite Forall_lookup in Hinv; by eapply Hinv).
  destruct (write_back_dag _ _ _ _ _ _ _ _ _ _ Hid Hn Hr Ew) as (Hi' & [Hnx Hwk] & Hrun).
  eexists. split; [done|]. split; [by rewrite length_insert|]. split; [by apply (upd_dag_inv s)|].
  split; [by eapply upd_dag_next|]. split; [by apply (upd_dag_work s i d)|]. by apply (running_minus s i j d).
Qed.

Lemma fail_node_step s ij msg (w : W) s' w' :
  Forall dag_inv (dags s) -> running s ij -> sched_dag_fail_node s ij msg w = (s', w') ->
  exists ds, s' = sched_dag_batch_done (set_dags ds s) /\ length ds = length (dags s) /\
    Forall dag_inv ds /\ svc_next s (set_dags ds s) /\ (svc_work (set_dags ds s) < svc_work s)%nat /\
    forall p, running (set_dags ds s) p <-> p <> ij /\ running s p.
Proof.
  intros Hinv (d & Hd & Hr) H. destruct ij as [i j]. unfold sched_dag_fail_node, node_at in H. simpl in *.
  rewrite Hd in H. simpl in H. unfold running_at, status_at in Hr.
  destruct (nodes d !! j) as [n|] eqn:Hn; [|done]. injection Hr as Hr. simpl in H.
  destruct (AIRY_STRDUP msg w) as [e w1]. destruct (airy_time_wall_ms w1) as [t w2]. injection H as <- <-.
  set (n' := set_finished t _). set (d' := set_nodes _ d).
  assert (dag_inv d) as Hid by (rewrite Forall_lookup in Hinv; by eapply Hinv).
  assert (dag_inv d') as Hi'.
  { eapply dag_inv_running; try done.
    - apply (outcome_ok n); [by eapply dag_inv_node_ok|done|]. split; [done|]. right. left. split; [by right|done].
    - by destruct (active d). }
  assert (dag_next d d' /\ (dag_work d' < dag_work d)%nat) as [Hnx Hwk].
  { apply (set_nodes_next d j n); [done|done|by rewrite Hr|]. unfold weight. simpl. rewrite Hr. lia. }
  assert (forall k, running_at d' k <-> k <> j /\ running_at d k) as Hrun.
  { intros k. by apply (running_insert _ _ n). }
  exists (<[i := d']> (dags s)). split; [done|]. split; [by rewrite length_insert|].
  split; [by apply (upd_dag_inv s)|]. split; [by apply (upd_dag_next s i d)|].
  split; [by apply (upd_dag_work s i d)|]. by apply (running_minus s i j d).
Qed.

Lemma converge_step s (w : W) s' w' :
  Forall dag_inv (dags s) -> converge s w = (Some s', w') ->
  exists ds, s' = set_dags ds s /\ length ds = length (dags s) /\ Forall dag_inv ds /\
    Forall converged ds /\ svc_next s s' /\ forall p, running s' p <-> running s p.
Proof.
  intros Hinv H. destruct (converge_total s w Hinv) as (s1 & w1 & E & Es & Hf).
  rewrite E in H. injection H as <- <-. exists (dags s1). split; [done|].
  split; [symmetry; by eapply Forall2_length|].
  split; [by eapply Forall2_Forall_r; [exact Hf|]; apply Forall_true; naive_solver|].
  split; [by eapply Forall2_Forall_r; [exact Hf|]; apply Forall_true; naive_solver|].
  split; [eapply svc_next_Forall2; [exact Hf|]; naive_solver|].
  apply running_same. eapply Forall2_impl; [exact Hf|]. naive_solver.
Qed.
End system.

(** ** Dispatch *)

Section dispatch.
  Context {W : Type} `{OS : SchedOS W} `{EM : ErrModel} (fallback : string).

Lemma scan_nodes_some ns i rest (w : W) j w' :
  scan_nodes ns i rest w = (Some j, w') ->
  exists n r w1 w2, (i <= j)%nat /\ rest !! (j - i)%nat = Some n /\
    sched_dag_node_ready ns n w1 = (r, w2) /\ (0 <? r) = true.
Proof.
  revert i w. induction rest as [|n rest IH]; intros i w; simpl; [done|].
  destruct (sched_dag_node_ready ns n w) as [r w1] eqn:Er. destruct (0 <? r) eqn:Ep.
  - intros [= -> <-]. exists n, r, w, w1. rewrite Nat.sub_diag. done.
  - intros (m & r' & w2 & w3 & Hle & Hm & Hr)%IH. exists m, r', w2, w3. split; [lia|].
    by replace (j - i)%nat with (S (j - S i)) by lia.
Qed.

Lemma scan_dags_some i ds (w : W) m j w' :
  scan_dags i ds w = (Some (m, j), w') ->
  exists d n r w1 w2, (i <= m)%nat /\ ds !! (m - i)%nat = Some d /\ active d = true /\
    nodes d !! j = Some n /\ sched_dag_node_ready (nodes d) n w1 = (r, w2) /\ (0 <? r) = true.
Proof.
  revert i w. induction ds as [|d ds IH]; intros i w; simpl; [done|].
  assert (forall w1, scan_dags (S i) ds w1 = (Some (m, j), w') ->
    exists d' n r w1 w2, (i <= m)%nat /\ (d :: ds) !! (m - i)%nat = Some d' /\ active d' = true /\
    nodes d' !! j = Some n /\ sched_dag_node_ready (nodes d') n w1 = (r, w2) /\ (0 <? r) = true) as Hrest.
  { intros w1 (d' & n & r & w2 & w3 & Hle & Hd & Hr)%IH. exists d', n, r, w2, w3. split; [lia|].
    by replace (m - i)%nat with (S (m - S i)) by lia. }
  destruct (active d) eqn:Ea; [|by apply Hrest].
  destruct (scan_nodes (nodes d) 0 (nodes d) w) as [[k|] w1] eqn:Es; [|by apply Hrest].
  intros [= <- <- <-]. apply scan_nodes_some in Es as (n & r & w2 & w3 & _ & Hn & Hr).
  rewrite Nat.sub_0_r in Hn. exists d, n, r, w2, w3. by rewrite Nat.sub_diag.
Qed.

Lemma run_one_begin_step s (w : W) i j g s' w' :
  Forall dag_inv (dags s) -> run_one_begin s w = (Some (i, j, g), s', w') ->
  exists ds, s' = set_dags ds s /\ length ds = length (dags s) /\ Forall dag_inv ds /\ svc_next s s' /\
    (svc_work s' < svc_work s)%nat /\
    ~ running s (i, j) /\ forall p, running s' p <-> p = (i, j) \/ running s p.
Proof.
  intros Hinv. unfold run_one_begin. destruct (sched_dag_find_ready (dags s) w) as [[[i0 j0]|] w1] eqn:Ef; [|done].
  apply scan_dags_some in Ef as (d & n & r & w2 & w3 & _ & Hd & Ha & Hn & Hr & Hp).
  rewrite Nat.sub_0_r in Hd. unfold node_at. simpl. rewrite Hd. simpl. rewrite Hn. simpl.
  destruct (start_node n w1) as [n' w4] eqn:Es. destruct (dispatch_goal _ n' w4) as [g' w5].
  intros [= <- <- <- <- <-].
  assert (dag_inv d) as Hid by (rewrite Forall_lookup in Hinv; by eapply Hinv).
  assert (d_status d = SCHED_DAG_STATUS_ACTIVE) as Est by (by apply bool_decide_eq_true in Ha).
  pose proof Hid as [Hi Hv]. rewrite Est in Hv.
  destruct (start_nodes _ _ _ _ _ _ _ _ _ Hi Hv Hn Hr Hp Es) as (Hi' & Hv' & He & Hrn & Hpd).
  set (d' := set_nodes _ d).
  assert (dag_work d' < dag_work d)%nat as Hwk.
  { unfold dag_work. simpl. pose proof (sum_insert weight (nodes d) j0 n n' Hn).
    pose proof (start_weight _ _ _ _ Es (proj1 (node_ready_pos _ _ _ _ _ Hr Hp))). lia. }
  assert (dag_next d d') as Hnx by (split; [done|split; [done|split; [by rewrite Ha|lia]]]).
  assert (forall k, running_at d' k <-> k = j0 \/ running_at d k) as Hrun.
  { intros k. by apply (running_start _ _ n). }
  eexists. split; [done|]. split; [by rewrite length_insert|].
  split; [apply (upd_dag_inv s); [done|split; simpl; [done|by rewrite Est]]|].
  split; [by eapply upd_dag_next|]. split; [by apply (upd_dag_work s i0 d)|]. split.
  - intros (x & Hx & Hxr). simpl in Hx, Hxr. assert (x = d) as -> by congruence.
    unfold running_at in Hxr. congruence.
  - intros [i' k]. rewrite (running_upd s i0 d d' _ _ Hd Hrun). simpl. case_decide as E; [subst i'|].
    + split; [intros [->|?]; [by left|right; by exists d]|].
      intros [E|(x & Hx & Hxr)]; [left; congruence|right]. simpl in Hx, Hxr. assert (x = d) as -> by congruence. done.
    + split; [by right|]. intros [[= ? ?]|?]; [congruence|done].
Qed.

Lemma run_batch_begin_step s (w : W) batch gs s' w' :
  Forall dag_inv (dags s) -> run_batch_begin s w = (batch, gs, s', w') -> batch <> [] ->
  exists ds, s' = svc_put s ds (dag_seq s) (Z.of_nat (length batch)) /\ length ds = length (dags s) /\
    Forall dag_inv ds /\ svc_next s s' /\ NoDup batch /\
    (length batch <= Z.to_nat (dag_batch_size s))%nat /\ (svc_work s' + length batch <= svc_work s)%nat /\
    (forall p, p ∈ batch -> ~ running s p) /\
    forall p, running s' p <-> p ∈ batch \/ running s p.
Proof.
  intros Hinv. unfold run_batch_begin, sched_dag_collect_ready_batch.
  destruct (collect_dags 0 (dags s) (Z.to_nat (dag_batch_size s)) w) as [[b ds] w1] eqn:Ec.
  destruct b as [|p0 b0] eqn:Eb; [by intros [= <- _ _ _]|]. rewrite <- Eb in *.
  destruct (batch_goals _ b w1) as [gs1 w2]. intros [= <- <- <- <-] _.
  destruct (collect_dags_spec _ _ _ _ _ _ _ Hinv Ec) as (Hf & Hl & Hwk & Hnd & Hp & Hrun).
  exists ds. split; [done|]. split; [symmetry; by eapply Forall2_length|].
  split; [by eapply Forall2_Forall_r; [exact Hf|]; apply Forall_true; naive_solver|].
  split; [eapply svc_next_Forall2; [exact Hf|]; naive_solver|].
  split; [done|]. split; [done|].
  split; [unfold svc_work; simpl; lia|]. split.
  - intros p Hin (x & Hx & Hxr). destruct (Hp p Hin) as (_ & d & Hd & _ & Hst). rewrite Nat.sub_0_r in Hd.
    assert (x = d) as -> by congruence. unfold running_at in Hxr. congruence.
  - intros [i k]. unfold running. simpl. split.
    + intros (d' & Hd' & Hr). destruct (Forall2_lookup_r _ _ _ _ _ Hf Hd') as (d & Hd & _).
      destruct (proj1 (Hrun i k d d' Hd Hd') Hr); [right; by exists d|by left].
    + intros [Hin|(d & Hd & Hr)].
      * destruct (Hp _ Hin) as (_ & d & Hd & _). simpl in Hd. rewrite Nat.sub_0_r in Hd.
        destruct (Forall2_lookup_l _ _ _ _ _ Hf Hd) as (d' & Hd' & _). exists d'. split; [done|].
        apply (Hrun i k d d' Hd Hd'). by right.
      * destruct (Forall2_lookup_l _ _ _ _ _ Hf Hd) as (d' & Hd' & _). exists d'. split; [done|].
        apply (Hrun i k d d' Hd Hd'). by left.
Qed.

(** ** The invariant is inductive *)

Lemma inflight_idle y : sys_inv y -> worker y = WIdle -> inflight y = [].
Proof. intros H E. pose proof (si_pending _ H) as Hp. unfold inflight. rewrite E in *. by destruct Hp. Qed.

(** A step that keeps the set of running nodes. *)
Lemma quiet_step s s' k f :
  sys_inv (mkSys s k f) -> Forall dag_inv (dags s') -> (length (dags s') <= SCHED_DAG_MAX_DAGS)%nat ->
  (forall ij, running s' ij <-> running s ij) -> batch_pending s' = batch_pending s ->
  dag_batch_size s' = dag_batch_size s -> (k = WIdle -> Forall converged (dags s')) ->
  sys_inv (mkSys s' k f).
Proof.
  intros [H1 H2 H3 H4 H5 H6 H7] Hd Hl Hr Hb Hs Hc. simpl in *. split; simpl; try done.
  - intros ij. rewrite Hr. apply H4.
  - by destruct k; rewrite Hb.
  - by rewrite Hs.
Qed.

Lemma rpc_step_inv y y' : sys_inv y -> rpc_step (W := W) fallback y y' -> sys_inv y' /\ svc_next (svc y) (svc y').
Proof.
  intros Hinv Hst. pose proof Hinv as [H1 H2 H3 H4 H5 H6 H7].
  destruct Hst as [s k f root w rc out s' w' E|s k f id w rc s' w' E|s k f|s k f r]; simpl in *.
  - destruct (submit_spec fallback s root w) as (rc1 & out1 & s1 & w1 & E1 & Hok & Hno & _).
    rewrite E in E1. injection E1 as <- <- <- <-.
    destruct (decide (rc = AIRY_SUCCESS)) as [->|Hne].
    + destruct (Hok eq_refl) as (Hl & r & d & _ & _ & Hg & ->).
      destruct (fresh_dag_inv fallback r d Hg) as (Hd & Hc & Hr). split.
      * apply (quiet_step s); simpl; try done.
        -- apply Forall_app. split; [done|by apply Forall_singleton].
        -- rewrite length_app. simpl. lia.
        -- intros [i j]. unfold running. simpl. split; intros (x & Hx & Hxr); [|by exists x; split; [apply lookup_app_l_Some|]].
           apply lookup_app_Some in Hx as [Hx|[_ Hx]]; [by exists x|].
           apply list_lookup_singleton_Some in Hx as [_ <-]. by destruct (Hr j).
        -- intros Hk. apply Forall_app. split; [by apply H7|by apply Forall_singleton].
      * intros i x Hx. exists x. split; [by apply lookup_app_l_Some|done].
    + rewrite (Hno Hne). split; [|intros i x Hx; by exists x]. by apply (quiet_step s).
  - apply cancel_spec in E as [->|(_ & i & d & ns & t & Hd & _ & Ha & -> & Hf)].
    { split; [done|]. intros i x Hx. by exists x. }
    assert (dag_inv d) as Hid by (rewrite Forall_lookup in H1; by eapply H1).
    destruct (canceled_dag d ns t Hid Ha Hf) as (Hi' & Hnx & Hc & Hrun). split; [|by eapply upd_dag_next].
    apply (quiet_step s); simpl; try done.
    + by apply (upd_dag_inv s).
    + by rewrite length_insert.
    + intros [i' k']. rewrite (running_upd s i d _ _ _ Hd Hrun). simpl. case_decide as E; [subst i'|done].
      split; [intros ?; by exists d|]. intros (x & Hx & Hxr). simpl in *. assert (x = d) as -> by congruence. done.
    + intros Hk. apply Forall_insert; [by apply H7|done].
  - unfold sched_service_set_executor. destruct (initialized s); simpl;
      (split; [|intros i x Hx; by exists x]); [by apply (quiet_step s)|done].
  - split; [by apply (quiet_step s)|]. intros i x Hx. by exists x.
Qed.
End dispatch.

Section invariant.
  Context {W : Type} `{OS : SchedOS W} `{EM : ErrModel} (fallback : string).

Lemma inflight_mid s k f1 (ij : nat * nat) f2 :
  inflight (mkSys s k (f1 ++ ij :: f2)) ≡ₚ ij :: inflight (mkSys s k (f1 ++ f2)).
Proof. unfold inflight. simpl. destruct k; simpl; solve_Permutation. Qed.

(** An item that leaves the flight: its node is no longer running. *)
Lemma item_step s k f1 ij f2 ds :
  sys_inv (mkSys s k (f1 ++ ij :: f2)) -> length ds = length (dags s) -> Forall dag_inv ds ->
  (forall p, running (set_dags ds s) p <-> p <> ij /\ running s p) ->
  sys_inv (mkSys (sched_dag_batch_done (set_dags ds s)) k (f1 ++ f2)).
Proof.
  intros [H1 H2 H3 H4 H5 H6 H7] Hl Hd Hr. simpl in *.
  assert (k = WBatch) as ->.
  { destruct k as [|p|]; [| |done]; destruct H5 as [E _]; by destruct f1. }
  assert (0 < batch_pending s) as Hp by (rewrite H5, length_app; simpl; lia).
  unfold sched_dag_batch_done. simpl. rewrite (proj2 (Z.ltb_lt 0 (batch_pending s)) Hp).
  rewrite inflight_mid in H3. apply NoDup_cons in H3 as [Hni Hnd].
  split; simpl; try done.
  - by rewrite Hl.
  - intros p. change (running _ p) with (running (set_dags ds s) p). rewrite Hr, H4, inflight_mid, elem_of_cons.
    split; [naive_solver|]. intros Hin. split; [|by right]. intros ->. done.
  - rewrite H5, !length_app. simpl. lia.
Qed.

(** Convergence at the end of a round. *)
Lemma round_end s ds :
  Forall dag_inv ds -> Forall converged ds -> (length ds <= SCHED_DAG_MAX_DAGS)%nat ->
  batch_pending s = 0 -> (forall p, ~ running (set_dags ds s) p) ->
  0 <= dag_batch_size s <= Z.of_nat SCHED_DAG_MAX_NODES -> sys_inv (mkSys (set_dags ds s) WIdle []).
Proof.
  intros Hd Hc Hl Hb Hr Hs. split; simpl; try done.
  - constructor.
  - intros p. split; [by intros ?%Hr|]. by intros Hp%not_elem_of_nil.
Qed.

Lemma work_step_inv y y' : sys_inv y -> work_step (W := W) y y' -> sys_inv y' /\ svc_next (svc y) (svc y').
Proof.
  intros Hinv Hst. pose proof Hinv as [H1 H2 H3 H4 H5 H6 H7].
  destruct Hst as [s f w i j g s' w' Hpar E|s f ij ans w s' w' E|s f w batch gs s' w' Hpar E Hne
    |s k f1 ij f2 ans w s' w' E|s k f1 ij f2 msg w s' w' E|s f w s' w' Hb E]; simpl in *.
  - destruct H5 as [-> Hb].
    destruct (run_one_begin_step _ _ _ _ _ _ _ H1 E) as (ds & -> & Hl & Hd & Hnx & _ & _ & Hr).
    split; [|done]. split; simpl; try done.
    + by rewrite Hl.
    + apply NoDup_singleton.
    + intros p. rewrite Hr, H4. unfold inflight. simpl. set_solver.
  - destruct H5 as [-> Hb]. unfold run_one_end in E. destruct (write_back s ij ans w) as [s1 w1] eqn:Ew.
    assert (running s ij) as Hrij by (apply H4; by left).
    destruct (write_back_step _ _ _ _ _ _ H1 Hrij Ew) as (ds & -> & Hl & Hd & Hnx & _ & Hr).
    destruct (converge_step (set_dags ds s) _ _ _ Hd E) as (ds2 & -> & Hl2 & Hd2 & Hc & Hnx2 & Hr2). split.
    + apply round_end; try done; [simpl in *; lia|]. intros p Hp.
      change (running (set_dags ds2 (set_dags ds s)) p) in Hp. apply Hr2, Hr in Hp as [Hne Hp].
      apply H4 in Hp. unfold inflight in Hp. simpl in Hp. set_solver.
    + intros i d Hi. destruct (Hnx i d Hi) as (d1 & Hd1 & ?). destruct (Hnx2 i d1 Hd1) as (d2 & Hd2' & ?).
      exists d2. split; [done|]. by etrans.
  - destruct H5 as [-> Hb].
    destruct (run_batch_begin_step _ _ _ _ _ _ H1 E Hne) as (ds & -> & Hl & Hd & Hnx & Hnd & _ & _ & _ & Hr).
    split; [|done]. split; simpl; try done.
    + by rewrite Hl.
    + intros p. rewrite Hr, H4. unfold inflight. simpl. set_solver.
  - unfold batch_worker_end in E. destruct (write_back s ij ans w) as [s1 w1] eqn:Ew. injection E as <- <-.
    assert (running s ij) as Hrij by (apply H4; rewrite inflight_mid; by left).
    destruct (write_back_step _ _ _ _ _ _ H1 Hrij Ew) as (ds & -> & Hl & Hd & Hnx & _ & Hr).
    split; [by eapply item_step|]. intros i d Hi. destruct (Hnx i d Hi) as (d1 & Hd1 & ?). exists d1.
    split; [|done]. unfold sched_dag_batch_done. by destruct (_ <? _).
  - assert (running s ij) as Hrij by (apply H4; rewrite inflight_mid; by left).
    destruct (fail_node_step _ _ _ _ _ _ H1 Hrij E) as (ds & -> & Hl & Hd & Hnx & _ & Hr).
    split; [by eapply item_step|]. intros i d Hi. destruct (Hnx i d Hi) as (d1 & Hd1 & ?). exists d1.
    split; [|done]. unfold sched_dag_batch_done. by destruct (_ <? _).
  - destruct (converge_step _ _ _ _ H1 E) as (ds & -> & Hl & Hd & Hc & Hnx & Hr). split; [|done].
    assert (f = []) as -> by (destruct f; [done|]; rewrite Hb in H5; simpl in H5; lia).
    apply round_end; try done; [lia|]. intros p Hp%Hr%H4. unfold inflight in Hp. simpl in Hp. set_solver.
Qed.

Lemma sys_step_inv y y' : sys_inv y -> step (W := W) fallback y y' -> sys_inv y' /\ svc_next (svc y) (svc y').
Proof. intros Hinv [H|H]; [by eapply rpc_step_inv|by eapply work_step_inv]. Qed.

Lemma initial_inv mp batch fc mac_ok pool_ok :
  0 <= mp -> 0 <= batch -> sys_inv (initial mp batch fc mac_ok pool_ok).
Proof.
  intros Hm Hb. split; simpl; try done.
  - lia.
  - constructor.
  - intros p. split; [by intros (d & Hd & _)|]. by intros Hp%not_elem_of_nil.
  - unfold SCHED_DAG_MAX_NODES. repeat case_match; bool_cases; lia.
Qed.

Lemma reachable_inv y mp batch fc mac_ok pool_ok :
  0 <= mp -> 0 <= batch -> rtc (step (W := W) fallback) (initial mp batch fc mac_ok pool_ok) y -> sys_inv y.
Proof.
  intros Hm Hb Hr. assert (sys_inv (initial mp batch fc mac_ok pool_ok)) as Hi by (by apply initial_inv).
  induction Hr as [|y1 y2 y3 Hs _ IH]; [done|]. apply IH. by eapply sys_step_inv.
Qed.

(** *** Progress *)

(** Along the dependencies of an unfinished node of a settled graph without
    running nodes there is one whose dependencies are all completed. *)
Lemma frontier ns i :
  nodes_inv ns -> settled ns -> (forall k, status_at ns k <> Some SCHED_DAG_NODE_RUNNING) ->
  status_at ns i = Some SCHED_DAG_NODE_PENDING ->
  exists j, status_at ns j = Some SCHED_DAG_NODE_PENDING /\ deps_completed ns j.
Proof.
  intros Hinv Hset Hnr. pose proof (acyclic_sn ns i (gw_acyclic _ (ni_wf _ Hinv))) as Hsn.
  induction Hsn as [i _ IH]. intros Hp. pose proof Hp as Hp'. unfold status_at in Hp'.
  destruct (ns !! i) as [n|] eqn:Hn; [|done]. clear Hp'.
  destruct (forallb (fun d => match find_index ns d with
                              | Some j => bool_decide (status_at ns j = Some SCHED_DAG_NODE_COMPLETED)
                              | None => true
                              end) (depends n)) eqn:E.
  - exists i. split; [done|]. intros j (n' & d & Hn' & Hd & Hj). assert (n' = n) as -> by congruence.
    rewrite forallb_forall in E. specialize (E d ltac:(by apply list_elem_of_In)). rewrite Hj in E.
    by apply bool_decide_eq_true in E.
  - apply forallb_false in E as (d & Hd & E). destruct (find_index ns d) as [j|] eqn:Hj; [|done].
    apply bool_decide_eq_false in E. destruct (find_index_Some _ _ _ Hj) as (m & Hm & _).
    assert (dep_edge ns i j) as He by (by exists n, d).
    assert (status_at ns j = Some (n_status m)) as Hst by (unfold status_at; by rewrite Hm).
    destruct (sched_dag_dep_broken (n_status m)) eqn:Eb.
    { destruct (Hset i Hp). by exists j, (n_status m). }
    destruct (n_status m) eqn:Em; try done.
    + by apply (IH j).
    + pose proof (ni_ok _ Hinv) as Hok. rewrite Forall_lookup in Hok. by destruct (nk_ready _ (Hok j m Hm)).
    + by destruct (Hnr j).
Qed.
End invariant.

(** What a caller of the scheduler sees. *)

(** C4.  The scheduler's state stays consistent.  From a fresh service, whatever
    requests arrive, however the executors answer and however the threads
    interleave: every graph keeps its submitted shape; a node runs or has run
    only after all its dependencies completed with a real product; a node is
    handed to at most one executor at a time; the retries stay within the
    node's limit; the status of a graph is justified by its nodes (COMPLETED
    means that every node completed, FAILED that some node failed, and in an
    active graph a node is canceled only for a broken dependency); and when the
    worker passes the barrier of a batch no item of it is still running. *)
Theorem dag_reachable_inv {W} `{SchedOS W} `{ErrModel} (fallback : string) (y : sys)
    mp batch fc mac_ok pool_ok :
  0 <= mp -> 0 <= batch ->
  rtc (step (W := W) fallback) (initial mp batch fc mac_ok pool_ok) y -> sys_inv y.
Proof. apply reachable_inv. Qed.

(** C7.  Nothing that has ended is reopened.  Across any number of steps a graph
    stays at its place in the table under its name, with the same layout; a
    node that is completed, failed or canceled is never changed again (so its
    product is what every later reader sees), and a graph that is no longer
    active keeps its status. *)
Theorem dag_final {W} `{SchedOS W} `{ErrModel} (fallback : string) (y y' : sys) i d :
  sys_inv y -> rtc (step (W := W) fallback) y y' -> dags (svc y) !! i = Some d ->
  exists d', dags (svc y') !! i = Some d' /\ dag_next d d'.
Proof.
  intros Hinv Hr. revert d. induction Hr as [y|y1 y2 y3 Hs _ IH]; intros d Hd.
  { by exists d. }
  destruct (sys_step_inv fallback _ _ Hinv Hs) as [Hinv2 Hnx]. destruct (Hnx i d Hd) as (d2 & Hd2 & Hn).
  destruct (IH Hinv2 d2 Hd2) as (d3 & Hd3 & Hn3). exists d3. split; [done|]. by etrans.
Qed.

(** C5.  No graph gets stuck.  Whenever the worker is between two rounds, every
    active graph has a pending node whose dependencies are all completed: once
    its backoff has passed (or at once, if it has none) the readiness test
    accepts it. *)
Theorem dag_no_deadlock {W} `{SchedOS W} (y : sys) i d :
  sys_inv y -> worker y = WIdle -> dags (svc y) !! i = Some d -> active d = true ->
  exists j n, nodes d !! j = Some n /\ n_status n = SCHED_DAG_NODE_PENDING /\ deps_completed (nodes d) j /\
    forall w : W, (retry_at_ms n = 0 \/ retry_at_ms n <= (airy_time_wall_ms w).1) ->
      0 < (sched_dag_node_ready (nodes d) n w).1.
Proof.
  intros Hinv Hw Hd Ha. pose proof (si_idle _ Hinv Hw) as Hc. rewrite Forall_lookup in Hc.
  destruct (Hc i d Hd Ha) as [Hset Hnt].
  pose proof (si_dags _ Hinv) as Hdi. rewrite Forall_lookup in Hdi. destruct (Hdi i d Hd) as [Hi Hv].
  assert (forall k, status_at (nodes d) k <> Some SCHED_DAG_NODE_RUNNING) as Hnr.
  { intros k Hk. assert ((i, k) ∈ inflight y) as Hin by (apply (si_running _ Hinv); by exists d).
    rewrite (inflight_idle _ Hinv Hw) in Hin. by apply not_elem_of_nil in Hin. }
  apply forallb_false in Hnt as (m & [k Hk]%list_elem_of_lookup & Hm).
  destruct (frontier (nodes d) k Hi Hset Hnr) as (j & Hj & Hdc).
  { unfold status_at. rewrite Hk. simpl. pose proof (ni_ok _ Hi) as Hok. rewrite Forall_lookup in Hok.
    pose proof (nk_ready _ (Hok k m Hk)). specialize (Hnr k). unfold status_at in Hnr. rewrite Hk in Hnr.
    simpl in Hnr. by destruct (n_status m). }
  unfold status_at in Hj. destruct (nodes d !! j) as [n|] eqn:Hn; [|done]. injection Hj as Hj.
  exists j, n. split; [done|]. split; [done|]. split; [done|]. intros w Hret.
  assert (0 < deps_ready (nodes d) (depends n)) as Hdr.
  { apply Z.ltb_lt, (deps_ready_spec (nodes d) j n); [done| |done].
    pose proof (gw_known _ (ni_wf _ Hi)) as Hkn. rewrite Forall_lookup in Hkn. by eapply Hkn. }
  unfold sched_dag_node_ready. rewrite bool_decide_eq_false_2 by (intros Hx; by apply Hx).
  destruct (Z.eqb_spec (retry_at_ms n) 0); [done|]. destruct (airy_time_wall_ms w) as [now w1]. simpl in *.
  destruct (Z.ltb_spec now (retry_at_ms n)); [lia|done].
Qed.

(** ** Termination *)

Section bounded.
  Context {W : Type} `{OS : SchedOS W} `{EM : ErrModel} (fallback : string).

(** How many executions end in a step: what was in flight and no longer is. *)
Definition ended (y y' : sys) : nat := length (inflight y) - length (inflight y').

(** A run in which [k] executions end and the worker and the pool take [n] steps,
    between requests that add no graph. *)
Inductive run : nat -> nat -> sys -> sys -> Prop :=
| run_nil y : run 0 0 y y
| run_work k n y1 y2 y3 : work_step (W := W) y1 y2 -> run k n y2 y3 -> run (ended y1 y2 + k) (S n) y1 y3
| run_rpc k n y1 y2 y3 : rpc_step (W := W) fallback y1 y2 -> length (dags (svc y2)) = length (dags (svc y1)) ->
    run k n y2 y3 -> run k n y1 y3.

(** The executions a node may still end: the one that is due or running, and one
    for every retry that is left. *)
Definition node_execs (n : sched_dag_node_t) : nat :=
    match n_status n with
    | SCHED_DAG_NODE_PENDING | SCHED_DAG_NODE_READY | SCHED_DAG_NODE_RUNNING => S (Z.to_nat (max_retries n - retry_count n))
    | _ => 0
    end.

Definition execs_left (y : sys) : nat := sum_list_with (fun d => sum_list_with node_execs (nodes d)) (dags (svc y)).

(** Two per step a node can still take, and one for the barrier. *)
Definition measure (y : sys) : nat :=
    2 * svc_work (svc y) + match worker y with WBatch => 1 | _ => 0 end.

Lemma batch_done_work s ds : svc_work (sched_dag_batch_done (set_dags ds s)) = svc_work (set_dags ds s).
Proof. unfold sched_dag_batch_done. by destruct (_ <? _). Qed.

Lemma inflight_svc s s' k f : inflight (mkSys s k f) = inflight (mkSys s' k f).
Proof. done. Qed.

Lemma work_step_measure y y' : sys_inv y -> work_step (W := W) y y' -> (S (measure y') <= measure y)%nat.
Proof.
  intros [H1 H2 H3 H4 H5 H6 H7] Hst. unfold measure.
  destruct Hst as [s f w i j g s' w' Hpar E|s f ij ans w s' w' E|s f w batch gs s' w' Hpar E Hne
    |s k f1 ij f2 ans w s' w' E|s k f1 ij f2 msg w s' w' E|s f w s' w' Hb E]; simpl in *.
  - destruct (run_one_begin_step _ _ _ _ _ _ _ H1 E) as (ds & _ & _ & _ & _ & Hw & _). lia.
  - unfold run_one_end in E. destruct (write_back s ij ans w) as [s1 w1] eqn:Ew.
    assert (running s ij) as Hrij by (apply H4; by left).
    destruct (write_back_step _ _ _ _ _ _ H1 Hrij Ew) as (ds & -> & _ & Hd & _ & Hw & _).
    destruct (converge_step (set_dags ds s) _ _ _ Hd E) as (ds2 & -> & Hl2 & _ & _ & Hnx & _).
    pose proof (svc_next_work _ _ Hnx Hl2). lia.
  - destruct (run_batch_begin_step _ _ _ _ _ _ H1 E Hne) as (ds & _ & _ & _ & _ & _ & _ & Hw & _).
    destruct batch; [done|simpl in Hw; lia].
  - unfold batch_worker_end in E. destruct (write_back s ij ans w) as [s1 w1] eqn:Ew. injection E as <- <-.
    assert (running s ij) as Hrij by (apply H4; rewrite inflight_mid; by left).
    destruct (write_back_step _ _ _ _ _ _ H1 Hrij Ew) as (ds & -> & _ & _ & _ & Hw & _).
    rewrite batch_done_work. lia.
  - assert (running s ij) as Hrij by (apply H4; rewrite inflight_mid; by left).
    destruct (fail_node_step _ _ _ _ _ _ H1 Hrij E) as (ds & -> & _ & _ & _ & Hw & _).
    rewrite batch_done_work. lia.
  - destruct (converge_step _ _ _ _ H1 E) as (ds & -> & Hl & _ & _ & Hnx & _).
    pose proof (svc_next_work _ _ Hnx Hl). lia.
Qed.

(** The nodes that run, in the order of the table. *)
Definition run_of (i : nat) (ns : list sched_dag_node_t) (o : nat) : list (nat * nat) :=
    mjoin (imap (fun j n => if bool_decide (n_status n = SCHED_DAG_NODE_RUNNING) then [(i, (o + j)%nat)] else []) ns).

Definition all_running (s : sched_service) (o : nat) : list (nat * nat) :=
    mjoin (imap (fun i d => run_of (o + i) (nodes d) 0) (dags s)).

Lemma node_weight n :
  (weight n + (if bool_decide (n_status n = SCHED_DAG_NODE_RUNNING) then 1 else 0) <= 2 * node_execs n)%nat.
Proof. unfold weight, node_execs. cbv zeta. case_bool_decide as E; destruct (n_status n); try done; lia. Qed.

Lemma run_of_weight i ns : forall o, (sum_list_with weight ns + length (run_of i ns o) <= 2 * sum_list_with node_execs ns)%nat.
Proof.
  induction ns as [|n ns IH]; intros o; [done|]. unfold run_of. cbn [imap mjoin list_join sum_list_with].
  rewrite length_app, (imap_ext _ (fun j n => if bool_decide (n_status n = SCHED_DAG_NODE_RUNNING) then [(i, (S o + j)%nat)] else [])).
  - specialize (IH (S o)). unfold run_of in IH. pose proof (node_weight n) as Hn. unfold mjoin in *. case_bool_decide; cbn [length]; lia.
  - intros j x _. cbn. by replace (o + S j)%nat with (S o + j)%nat by lia.
Qed.

Lemma all_running_weight ds : forall o,
  (sum_list_with dag_work ds + length (mjoin (imap (fun i d => run_of (o + i) (nodes d) 0) ds))
   <= 2 * sum_list_with (fun d => sum_list_with node_execs (nodes d)) ds)%nat.
Proof.
  induction ds as [|d ds IH]; intros o; [done|]. cbn [imap mjoin list_join sum_list_with]. rewrite length_app.
  rewrite (imap_ext _ (fun i d => run_of (S o + i) (nodes d) 0)).
  - specialize (IH (S o)). pose proof (run_of_weight (o + 0) (nodes d) 0). unfold mjoin in *. change (dag_work d) with (sum_list_with weight (nodes d)). lia.
  - intros j x _. cbn. by replace (o + S j)%nat with (S o + j)%nat by lia.
Qed.

Lemma all_running_spec s ij : running s ij -> ij ∈ all_running s 0.
Proof.
  intros (d & Hd & Hr). destruct ij as [i j]. cbn in *. unfold all_running. apply list_elem_of_join. exists (run_of i (nodes d) 0).
  split.
  - unfold running_at, status_at in Hr. destruct (nodes d !! j) as [n|] eqn:Hn; [|done]. cbn in Hr. injection Hr as Hr.
    unfold run_of. apply list_elem_of_join. exists [(i, j)]. split; [by left|]. apply elem_of_lookup_imap. exists j, n.
    split; [|done]. by rewrite bool_decide_eq_true_2.
  - apply elem_of_lookup_imap. by exists i, d.
Qed.

Lemma flight_execs y : sys_inv y -> (svc_work (svc y) + length (inflight y) <= 2 * execs_left y)%nat.
Proof.
  intros Hinv. pose proof (all_running_weight (dags (svc y)) 0) as Hw. unfold execs_left, svc_work.
  assert (length (inflight y) <= length (all_running (svc y) 0))%nat; [|unfold all_running in *; lia].
  apply submseteq_length, NoDup_submseteq; [apply Hinv|]. intros ij Hij. apply all_running_spec. by apply (si_running _ Hinv).
Qed.

(** Starting does not change work and flight together; an end takes two. *)
Lemma work_step_flight y y' :
  sys_inv y -> work_step (W := W) y y' ->
  (svc_work (svc y') + length (inflight y') + 2 * ended y y' <= svc_work (svc y) + length (inflight y))%nat.
Proof.
  intros [H1 H2 H3 H4 H5 H6 H7] Hst. unfold ended.
  destruct Hst as [s f w i j g s' w' Hpar E|s f ij ans w s' w' E|s f w batch gs s' w' Hpar E Hne
    |s k f1 ij f2 ans w s' w' E|s k f1 ij f2 msg w s' w' E|s f w s' w' Hb E]; simpl in *.
  - destruct (run_one_begin_step _ _ _ _ _ _ _ H1 E) as (ds & _ & _ & _ & _ & Hw & _). unfold inflight. simpl. lia.
  - unfold run_one_end in E. destruct (write_back s ij ans w) as [s1 w1] eqn:Ew.
    assert (running s ij) as Hrij by (apply H4; by left).
    destruct (write_back_step _ _ _ _ _ _ H1 Hrij Ew) as (ds & -> & _ & Hd & _ & Hw & _).
    destruct (converge_step (set_dags ds s) _ _ _ Hd E) as (ds2 & -> & Hl2 & _ & _ & Hnx & _).
    pose proof (svc_next_work _ _ Hnx Hl2). unfold inflight. simpl. lia.
  - destruct (run_batch_begin_step _ _ _ _ _ _ H1 E Hne) as (ds & _ & _ & _ & _ & _ & _ & Hw & _). unfold inflight. simpl.
    rewrite length_app. lia.
  - unfold batch_worker_end in E. destruct (write_back s ij ans w) as [s1 w1] eqn:Ew. injection E as <- <-.
    assert (running s ij) as Hrij by (apply H4; rewrite inflight_mid; by left).
    destruct (write_back_step _ _ _ _ _ _ H1 Hrij Ew) as (ds & -> & _ & _ & _ & Hw & _).
    rewrite batch_done_work, (Permutation_length (inflight_mid _ _ _ _ _)), (inflight_svc _ s). simpl. lia.
  - assert (running s ij) as Hrij by (apply H4; rewrite inflight_mid; by left).
    destruct (fail_node_step _ _ _ _ _ _ H1 Hrij E) as (ds & -> & _ & _ & _ & Hw & _).
    rewrite batch_done_work, (Permutation_length (inflight_mid _ _ _ _ _)), (inflight_svc _ s). simpl. lia.
  - destruct (converge_step _ _ _ _ H1 E) as (ds & -> & Hl & _ & _ & Hnx & _).
    pose proof (svc_next_work _ _ Hnx Hl). unfold inflight. simpl. lia.
Qed.

Lemma rpc_step_flight y y' : rpc_step (W := W) fallback y y' -> inflight y' = inflight y.
Proof. by intros []. Qed.

Lemma rpc_step_worker y y' : rpc_step (W := W) fallback y y' -> worker y' = worker y.
Proof. by intros []. Qed.
End bounded.

(** C6.  Graphs do not run forever.  Between two submissions, whatever the
    executors answer and whatever is canceled, every node is executed at most
    once and once more per retry that is left to it, and the worker and the pool
    take at most four steps per such execution and one more: the number of
    executions that end is at most the sum of [1 + max_retries - retry_count]
    over the unfinished nodes. *)
Theorem dag_run_bounded {W} `{SchedOS W} `{ErrModel} (fallback : string) k n (y y' : sys) :
  sys_inv y -> run (W := W) fallback k n y y' -> (k <= execs_left y)%nat /\ (n <= 4 * execs_left y + 1)%nat.
Proof.
  intros Hinv Hr. pose proof (flight_execs y Hinv) as Hf.
  assert ((2 * k <= svc_work (svc y) + length (inflight y))%nat /\ (n <= measure y)%nat) as [Hk Hn].
  { clear Hf. induction Hr as [y|k n y1 y2 y3 Hs _ IH|k n y1 y2 y3 Hs Hl _ IH]; [lia| |].
    - pose proof (work_step_measure _ _ Hinv Hs). pose proof (work_step_flight _ _ Hinv Hs).
      destruct (work_step_inv _ _ Hinv Hs) as [Hinv2 _]. specialize (IH Hinv2). lia.
    - destruct (rpc_step_inv fallback _ _ Hinv Hs) as [Hinv2 Hnx]. specialize (IH Hinv2).
      pose proof (svc_next_work _ _ Hnx Hl). unfold measure in *.
      rewrite (rpc_step_worker fallback _ _ Hs), (rpc_step_flight fallback _ _ Hs) in IH. lia. }
  split; [lia|]. unfold measure in Hn. destruct (worker y); lia.
Qed.

(** ** A run *)

(** A world that is the list of the wall-clock readings to come; memory never
    runs out. *)
#[export] Instance toy_sched_mem : MemOS (list Z) := {|
  os_alloc w := (true, w); os_time_ns w := (0, w); os_rand w := (0, w); self_addr := 0;
  tok_counter := unit; tok_create _ w := (Some tt, w); tok_count _ _ := 0;
  AIRY_TOKEN_MODEL_NAME_DEFAULT := "m"
|}.

#[export] Instance toy_sched : SchedOS (list Z) := {|
  sched_mem := toy_sched_mem;
  airy_time_wall_ms w := match w with t :: w' => (t, w') | [] => (0, []) end;
  time_s w := (7, w);
  av_t := unit; airy_artifact_validator_from_json _ w := (None, w); av_fails _ _ w := (false, w);
  shl_wide _ := 0
|}.

#[local] Existing Instance SampleErr.sample_err.

Definition toy_node (id : string) (retries : option double) (deps : list string) : node_json :=
  mkNodeJson (Some id) (Some ("do " +:+ id)) None retries None None (Some (map Some deps)).

(** "b" waits for "a"; "a" may be retried once. *)
Definition toy_graph : dag_json :=
  mkDagJson (Some [toy_node "a" (Some (d_of_Z 1)) []; toy_node "b" None ["a"%string]]) None None None None.

Definition toy_y0 : sys := initial 0 0 true false false.

Definition toy_submit (y : sys) (w : list Z) : sys :=
  match (sched_service_submit_dag "coding" (svc y) (Some toy_graph) w).1 with
  | Some (_, _, s) => mkSys s (worker y) (flight y)
  | None => y
  end.

Definition toy_begin (y : sys) (w : list Z) : sys :=
  match run_one_begin (svc y) w with
  | (Some (i, j, _), s, _) => mkSys s (WOne (i, j)) (flight y)
  | _ => y
  end.

Definition toy_end (y : sys) (ans : Z * option string) (w : list Z) : sys :=
  match worker y with
  | WOne ij => match (run_one_end (svc y) ij ans w).1 with Some s => mkSys s WIdle (flight y) | None => y end
  | _ => y
  end.

Definition toy_y1 : sys := toy_submit (mkSys (set_dag_run true (sched_service_set_executor (svc toy_y0)).2) WIdle []) [10].
Definition toy_y2 : sys := toy_begin toy_y1 [20].
Definition toy_y3 : sys := toy_end toy_y2 (err_code AIRY_ERR_TIMEOUT, None) [30; 30].
Definition toy_y4 : sys := toy_begin toy_y3 [1030; 1030].
Definition toy_y5 : sys := toy_end toy_y4 (0, Some "product"%string) [1040].

(** The first graph of the table. *)
Definition toy_dag (y : sys) : sched_dag_t :=
  hd (mkDag "" None None None [] SCHED_DAG_STATUS_ACTIVE 0 0 0) (dags (svc y)).

Definition toy_step : sys -> sys -> Prop := step (W := list Z) "coding".

Lemma toy_submit_step y w :
  is_Some (sched_service_submit_dag "coding" (svc y) (Some toy_graph) w).1 -> toy_step y (toy_submit y w).
Proof.
  destruct y as [s k f]. unfold toy_submit. simpl.
  destruct (sched_service_submit_dag "coding" s (Some toy_graph) w) as [[[[rc out] s']|] w'] eqn:E; [|by intros []].
  intros _. left. by eapply rpc_submit.
Qed.

Lemma toy_begin_step y w :
  worker y = WIdle -> parallel (svc y) = false -> is_Some (run_one_begin (svc y) w).1.1 ->
  work_step (W := list Z) y (toy_begin y w).
Proof.
  destruct y as [s k f]. unfold toy_begin. simpl. intros -> Hp Hs.
  destruct (run_one_begin s w) as [[[[[i j] g]|] s'] w'] eqn:E; [|by destruct Hs].
  by eapply work_one.
Qed.

Lemma toy_end_step y ij ans w :
  worker y = WOne ij -> is_Some (run_one_end (svc y) ij ans w).1 ->
  work_step (W := list Z) y (toy_end y ans w).
Proof.
  destruct y as [s k f]. unfold toy_end. simpl. intros -> Hs.
  destruct (run_one_end s ij ans w) as [[s'|] w'] eqn:E; [|by destruct Hs]. by eapply work_one_end.
Qed.

Ltac toy_eval := vm_compute; first [reflexivity | eexists; reflexivity].

Lemma toy_reach1 : rtc toy_step toy_y0 toy_y1.
Proof.
  eapply rtc_l; [left; exact (rpc_executor "coding" _ _ _)|].
  eapply rtc_l; [left; exact (rpc_run "coding" _ _ _ true)|].
  apply rtc_once. apply toy_submit_step. toy_eval.
Qed.

Lemma toy_reach3 : rtc toy_step toy_y1 toy_y3.
Proof.
  eapply rtc_l; [right; apply (toy_begin_step _ [20]); toy_eval|].
  apply rtc_once. right. apply (toy_end_step _ (0, 0)%nat); toy_eval.
Qed.

Lemma toy_inv1 : sys_inv toy_y1.
Proof. by apply (reachable_inv "coding" _ 0 0 true false false); [..|apply toy_reach1]. Qed.

Lemma dag_reachable_inv_witness : sys_inv toy_y1.
Proof.
  refine (dag_reachable_inv (W := list Z) "coding" toy_y1 0 0 true false false _ _ _);
    [lia|lia|exact toy_reach1].
Defined.

Lemma dag_final_witness :
  exists d', dags (svc toy_y3) !! 0%nat = Some d' /\ dag_next (toy_dag toy_y1) d'.
Proof.
  refine (dag_final (W := list Z) "coding" toy_y1 toy_y3 0 _ toy_inv1 toy_reach3 _). vm_compute. reflexivity.
Defined.

Lemma dag_run_bounded_witness : (1 <= execs_left toy_y1)%nat /\ (2 <= 4 * execs_left toy_y1 + 1)%nat.
Proof.
  refine (dag_run_bounded (W := list Z) "coding" (ended toy_y1 toy_y2 + (ended toy_y2 toy_y3 + 0)) 2 toy_y1 toy_y3 toy_inv1 _).
  apply (run_work _ _ _ _ toy_y2); [apply (toy_begin_step _ [20]); toy_eval|].
  apply (run_work _ _ _ _ toy_y3); [apply (toy_end_step _ (0, 0)%nat); toy_eval|apply run_nil].
Defined.

Lemma dag_no_deadlock_witness :
  exists d j n, dags (svc toy_y1) !! 0%nat = Some d /\ nodes d !! j = Some n /\
    n_status n = SCHED_DAG_NODE_PENDING /\ deps_completed (nodes d) j.
Proof.
  eexists. destruct (dag_no_deadlock (W := list Z) toy_y1 0 (toy_dag toy_y1) toy_inv1) as (j & n & Hn & Hp & Hd & _);
    [vm_compute; reflexivity..|].
  exists j, n. split; [vm_compute; reflexivity|]. split; [exact Hn|]. split; [exact Hp|exact Hd].
Defined.

(** The retry and the hand-over of the product, evaluated: after the transient
    failure "a" waits for one second, is run again, and "b" gets its product. *)
Example toy_outcome :
  map (fun n => (n_status n, retry_count n, retry_at_ms n)) (nodes (toy_dag toy_y3))
  = [(SCHED_DAG_NODE_PENDING, 1, 1030); (SCHED_DAG_NODE_PENDING, 0, 0)] /\
  (run_one_begin (svc toy_y5) [1050]).1.1
  = Some (0%nat, 1%nat, "do b" +:+ upstream_header "a" +:+ "product").
Proof. split; vm_compute; reflexivity. Qed.

(** A backoff can be missed.  The waiting loop reads the clock twice: if the
    backoff of the only waiting node passes between the two readings, the first
    finds no ready node and the second no node in backoff, so the worker waits
    for a signal, without a time limit, although a node is ready. *)
Theorem backoff_wakeup_lost :
  exists y w w', rtc (step (W := list Z) "coding") toy_y0 y /\ worker y = WIdle /\
    wait_round (svc y) w = (WaitSignal, w') /\ (sched_dag_find_ready (dags (svc y)) w').1 = Some (0, 0)%nat.
Proof.
  exists toy_y3, [1029; 1030; 1031], [1031]. split; [|split; [|split]].
  - etrans; [apply toy_reach1|apply toy_reach3].
  - vm_compute. reflexivity.
  - vm_compute. reflexivity.
  - vm_compute. reflexivity.
Qed.
