(* ===== verification/Swap.v ===== *)
(** * Swap

    The drain gate of a configuration hot swap (common/src/svc/svc_swap.c): a
    request takes a generation number and gives it back, a reload closes the
    gate, waits for the requests inside and opens the next generation.

    Every operation runs under the gate's lock except the wait inside
    [svc_swap_begin], which releases it: that call is split at the wait
    ([swap_begin_enter], then rounds of [swap_begin_round]). *)

From S2P Require Import Prelude.

Definition SVC_SWAP_DRAIN_MS : Z := 30000.

Record svc_swap_t := mkSwap {
  gen : Z;
  inflight : Z;
  drain_ms : Z;
  draining : bool;
  swapped : Z;
  mismatch : Z;
  drain_tmo : Z
}.

(** [lock_ok] and [cv_ok]: the two primitives could be created. *)
Definition svc_swap_init (drain : Z) (lock_ok cv_ok : bool) : airy_rc * svc_swap_t :=
  let s := mkSwap 1 0 (if drain =? 0 then SVC_SWAP_DRAIN_MS else drain) false 0 0 0 in
  (if lock_ok && cv_ok then AIRY_SUCCESS else AIRY_ERR_STATE_ERROR, s).

(** The number handed out, or busy. *)
Definition svc_swap_enter (s : svc_swap_t) : (airy_rc + Z) * svc_swap_t :=
  if draining s then (inl AIRY_ERR_BUSY, s)
  else (inr (gen s),
        mkSwap (gen s) (u32 (inflight s + 1)) (drain_ms s) (draining s) (swapped s) (mismatch s)
          (drain_tmo s)).

(** Is the result still valid? *)
Definition svc_swap_leave (s : svc_swap_t) (g : Z) : bool * svc_swap_t :=
  let ok := negb (g =? 0) && (g =? gen s) in
  (ok, mkSwap (gen s) (if 0 <? inflight s then inflight s - 1 else inflight s) (drain_ms s)
         (draining s) (swapped s) (if ok then mismatch s else u64 (mismatch s + 1)) (drain_tmo s)).

(** The entry of [svc_swap_begin]: the deadline of the drain, or busy. *)
Definition swap_begin_enter (s : svc_swap_t) (now : Z) : (airy_rc + Z) * svc_swap_t :=
  if draining s then (inl AIRY_ERR_BUSY, s)
  else (inr (u64 (now + drain_ms s)),
        mkSwap (gen s) (inflight s) (drain_ms s) true (swapped s) (mismatch s) (drain_tmo s)).

(** One round of the wait: [Some 0] drained, [Some 1] timed out, [None] wait
    again. *)
Definition swap_begin_round (s : svc_swap_t) (deadline now : Z) : option Z * svc_swap_t :=
  if 0 <? inflight s then
    if deadline <=? now
    then (Some 1, mkSwap (gen s) (inflight s) (drain_ms s) (draining s) (swapped s) (mismatch s)
                    (u64 (drain_tmo s + 1)))
    else (None, s)
  else (Some 0, s).

(** The generations skip 0. *)
Definition gen_next (g : Z) : Z := if u32 (g + 1) =? 0 then 1 else u32 (g + 1).

Definition svc_swap_commit (s : svc_swap_t) : airy_rc * svc_swap_t :=
  if draining s
  then (AIRY_SUCCESS,
        mkSwap (gen_next (gen s)) (inflight s) (drain_ms s) false (u32 (swapped s + 1)) (mismatch s)
          (drain_tmo s))
  else (AIRY_ERR_STATE_ERROR, s).

Definition svc_swap_abort (s : svc_swap_t) : svc_swap_t :=
  mkSwap (gen s) (inflight s) (drain_ms s) false (swapped s) (mismatch s) (drain_tmo s).

Definition svc_swap_stat (s : svc_swap_t) : Z * Z * Z * Z * Z :=
  (gen s, inflight s, swapped s, mismatch s, drain_tmo s).

(** ** Generations *)

(** How many generations there are before a number comes back. *)
Definition GEN_CYCLE : Z := UINT32_MAX.

Lemma gen_next_cycle c : 0 <= c -> gen_next (1 + c mod GEN_CYCLE) = 1 + (c + 1) mod GEN_CYCLE.
Proof.
  intros Hc. unfold gen_next, GEN_CYCLE, UINT32_MAX.
  pose proof (Z.mod_pos_bound c 4294967295 ltac:(lia)) as Hb.
  destruct (decide (c mod 4294967295 = 4294967294)) as [E|E].
  - rewrite E. change (u32 (1 + 4294967294 + 1)) with 0. simpl.
    assert (c + 1 = (c / 4294967295 + 1) * 4294967295) as ->; [|by rewrite Z.mod_mul].
    pose proof (Z.div_mod c 4294967295 ltac:(lia)) as Hd. rewrite E in Hd. clear -Hd.
    remember (c / 4294967295) as q eqn:Eq. clear Eq. lia.
  - rewrite u32_id by (unfold is_u32, UINT32_MAX; lia).
    destruct (Z.eqb_spec (1 + c mod 4294967295 + 1) 0); [lia|].
    rewrite (Zplus_mod c 1), (Z.mod_small 1 4294967295), (Z.mod_small (c mod 4294967295 + 1)) by lia. lia.
Qed.

(** Two positions in the sequence of generations have the same number exactly
    when a whole number of cycles lies between them. *)
Lemma gen_same a b :
  0 <= a <= b -> 1 + a mod GEN_CYCLE = 1 + b mod GEN_CYCLE <-> (b - a) mod GEN_CYCLE = 0.
Proof.
  intros Hab. assert (0 < GEN_CYCLE) as Hg by (vm_compute; reflexivity). split.
  - intros H. rewrite Zminus_mod. replace (b mod GEN_CYCLE) with (a mod GEN_CYCLE) by lia.
    by rewrite Z.sub_diag, Z.mod_0_l by lia.
  - intros H. f_equal. replace b with (a + (b - a)) by lia.
    rewrite Zplus_mod, H, Z.add_0_r. symmetry. by apply Z.mod_mod; lia.
Qed.
