(* ===== verification/Reload.v ===== *)
(** * Reload

    The hot reload of llm_d (llm_d/src/rpc/service_reload.c and the request
    entry of service_request.c) on top of the drain gate of file Swap: a reload
    reads a new configuration, drains the requests, switches the tables, opens
    the next generation and disposes of the old configuration; after a drain
    that timed out the old one is parked for a grace period.

    A configuration (provider registry with its price rules) is a number; it is
    live until it is destroyed.  Any number of requests and reloads run
    concurrently ([rstep]). *)

From stdpp Require Import relations.
From S2P Require Import Prelude Swap.

Definition LLM_RETIRED_MAX : nat := 4.
Definition LLM_RETIRED_GRACE_MS : Z := 600000.
Definition LLM_RELOAD_BACKOFF_MS : Z := 30000.

Record llm_retired_t := mkRetired { rt_config : nat; retire_ms : Z }.

(** The fields of the service a reload uses; [cfg_path] says whether the path
    is set. *)
Record reload_svc := mkRSvc {
  swap : svc_swap_t;
  registry : nat;
  cfg_path : bool;
  reload_next_ms : Z;
  reload_ok : Z;
  reload_fail : Z;
  retired : list llm_retired_t
}.

(** ** Operations *)

(** The entries within their grace period, and the configurations destroyed. *)
Fixpoint retire_reap (l : list llm_retired_t) (now : Z) : list llm_retired_t * list nat :=
  match l with
  | [] => ([], [])
  | r :: l' =>
      let '(keep, gone) := retire_reap l' now in
      if u64 (now - retire_ms r) <? LLM_RETIRED_GRACE_MS then (r :: keep, gone)
      else (keep, rt_config r :: gone)
  end.

Definition retire_push (l : list llm_retired_t) (c : nat) (now : Z)
    : list llm_retired_t * list nat :=
  let '(l, gone) := retire_reap l now in
  let '(l, gone) :=
    if (LLM_RETIRED_MAX <=? length l)%nat
    then (drop 1 l, gone ++ map rt_config (take 1 l)) else (l, gone) in
  (l ++ [mkRetired c now], gone).

(** The fate of the old configuration. *)
Definition old_dispose (l : list llm_retired_t) (c : nat) (forced : bool) (now : Z)
    : list llm_retired_t * list nat :=
  if forced then retire_push l c now else (l, [c]).

Inductive read_t := ReadSkip | ReadFail | ReadStaged.

(** The first part of [llm_service_reload], under [reload_lock]: [load_ok] is
    the outcome of reading the files and building the registry. *)
Definition reload_read (s : reload_svc) (now : Z) (load_ok : bool) : read_t * reload_svc :=
  if negb (cfg_path s) || negb (reload_next_ms s =? 0) && (now <? reload_next_ms s)
  then (ReadSkip, s)
  else if load_ok then (ReadStaged, s)
  else (ReadFail, mkRSvc (swap s) (registry s) (cfg_path s) (u64 (now + LLM_RELOAD_BACKOFF_MS))
                    (reload_ok s) (u32 (reload_fail s + 1)) (retired s)).

Definition set_swap (w : svc_swap_t) (s : reload_svc) : reload_svc :=
  mkRSvc w (registry s) (cfg_path s) (reload_next_ms s) (reload_ok s) (reload_fail s) (retired s).

Definition set_registry (c : nat) (s : reload_svc) : reload_svc :=
  mkRSvc (swap s) c (cfg_path s) (reload_next_ms s) (reload_ok s) (reload_fail s) (retired s).

(** The commit with the branch that gives the gate up. *)
Definition reload_commit (w : svc_swap_t) : bool * svc_swap_t :=
  let '(rc, w') := svc_swap_commit w in
  if decide (rc = AIRY_SUCCESS) then (true, w') else (false, svc_swap_abort w').

Definition reload_finish (s : reload_svc) (l : list llm_retired_t) : reload_svc :=
  mkRSvc (swap s) (registry s) (cfg_path s) 0 (u32 (reload_ok s + 1)) (reload_fail s) l.

(** ** The system *)

(** A reload: its configuration is read in; it waits for the drain; the drain
    is over (by time-out or not); the tables are switched; the generation is
    committed and the old configuration is to be disposed of. *)
Inductive reloader :=
| RStaged (n : nat)
| RDrain (n : nat) (deadline : Z)
| RSwitch (n : nat) (forced : bool)
| RSwapped (old : nat) (forced : bool)
| RDispose (old : nat) (forced : bool).

(** A request inside the gate: its number, the number of commits when it
    entered, the configurations it has looked up. *)
Record req := mkReq { rq_gen : Z; rq_at : Z; rq_held : list nat }.

(** [destroyed], [commits] and [fresh] are the history: what was destroyed,
    how often a generation was opened, the next unused configuration. *)
Record rsys := mkR {
  rsvc : reload_svc;
  reqs : list req;
  reloads : list reloader;
  destroyed : list nat;
  commits : Z;
  fresh : nat
}.

Inductive rstep : rsys -> rsys -> Prop :=
| r_enter s q l x c f g w :
    Z.of_nat (length q) < UINT32_MAX -> svc_swap_enter (swap s) = (inr g, w) ->
    rstep (mkR s q l x c f) (mkR (set_swap w s) (mkReq g c [] :: q) l x c f)
| r_lookup s q1 r q2 l x c f :
    rstep (mkR s (q1 ++ r :: q2) l x c f)
          (mkR s (q1 ++ mkReq (rq_gen r) (rq_at r) (registry s :: rq_held r) :: q2) l x c f)
| r_leave s q1 r q2 l x c f ok w :
    svc_swap_leave (swap s) (rq_gen r) = (ok, w) ->
    rstep (mkR s (q1 ++ r :: q2) l x c f) (mkR (set_swap w s) (q1 ++ q2) l x c f)
| r_read s q l x c f now s' :
    reload_read s now true = (ReadStaged, s') ->
    rstep (mkR s q l x c f) (mkR s' q (RStaged f :: l) x c (S f))
| r_read_fail s q l x c f now ok o s' :
    reload_read s now ok = (o, s') -> o <> ReadStaged ->
    rstep (mkR s q l x c f) (mkR s' q l x c f)
| r_begin s q l1 n l2 x c f now dl w :
    swap_begin_enter (swap s) now = (inr dl, w) ->
    rstep (mkR s q (l1 ++ RStaged n :: l2) x c f)
          (mkR (set_swap w s) q (l1 ++ RDrain n dl :: l2) x c f)
| r_busy s q l1 n l2 x c f now e w :
    swap_begin_enter (swap s) now = (inl e, w) ->
    rstep (mkR s q (l1 ++ RStaged n :: l2) x c f) (mkR (set_swap w s) q (l1 ++ l2) (n :: x) c f)
| r_round s q l1 n dl l2 x c f now b w :
    swap_begin_round (swap s) dl now = (Some b, w) ->
    rstep (mkR s q (l1 ++ RDrain n dl :: l2) x c f)
          (mkR (set_swap w s) q (l1 ++ RSwitch n (b =? 1) :: l2) x c f)
| r_switch s q l1 n b l2 x c f :
    rstep (mkR s q (l1 ++ RSwitch n b :: l2) x c f)
          (mkR (set_registry n s) q (l1 ++ RSwapped (registry s) b :: l2) x c f)
| r_commit s q l1 o b l2 x c f ok w :
    reload_commit (swap s) = (ok, w) ->
    rstep (mkR s q (l1 ++ RSwapped o b :: l2) x c f)
          (mkR (set_swap w s) q (l1 ++ RDispose o b :: l2) x (if ok then c + 1 else c) f)
| r_dispose s q l1 o b l2 x c f now l gone :
    old_dispose (retired s) o b now = (l, gone) ->
    rstep (mkR s q (l1 ++ RDispose o b :: l2) x c f)
          (mkR (reload_finish s l) q (l1 ++ l2) (gone ++ x) c f).

Definition rinit (drain : Z) (path : bool) : rsys :=
  mkR (mkRSvc (svc_swap_init drain true true).2 0 path 0 0 0 []) [] [] [] 0 1.

(** ** Invariant *)

(** The reload that has closed the gate. *)
Definition critical (r : reloader) : bool :=
  match r with RDrain _ _ | RSwitch _ _ | RSwapped _ _ => true | _ => false end.

(** The configuration a reload owns. *)
Definition owned (r : reloader) : nat :=
  match r with
  | RStaged n | RDrain n _ | RSwitch n _ | RSwapped n _ | RDispose n _ => n
  end.

(** The drain was complete: nobody is inside until the gate opens. *)
Definition drained (r : reloader) : bool :=
  match r with RSwitch _ false | RSwapped _ false => true | _ => false end.

(** Every configuration and who answers for it. *)
Definition ownership (y : rsys) : list nat :=
  registry (rsvc y) :: map rt_config (retired (rsvc y)) ++ map owned (reloads y) ++ destroyed y.

Definition swapped_out (l : list reloader) (c : nat) : Prop := exists b, RSwapped c b ∈ l.

Record rinv (y : rsys) : Prop := {
  ri_inflight : inflight (swap (rsvc y)) = Z.of_nat (length (reqs y));
  ri_reqs : Z.of_nat (length (reqs y)) <= UINT32_MAX;
  ri_commits : 0 <= commits y;
  ri_gen : gen (swap (rsvc y)) = 1 + commits y mod GEN_CYCLE;
  ri_req r : r ∈ reqs y -> 0 <= rq_at r <= commits y /\ rq_gen r = 1 + rq_at r mod GEN_CYCLE;
  ri_critical : length (filter (fun r => critical r = true) (reloads y))
                = if draining (swap (rsvc y)) then 1%nat else 0%nat;
  ri_drained r : r ∈ reloads y -> drained r = true -> reqs y = [];
  ri_owner : NoDup (ownership y);
  ri_fresh c : c ∈ ownership y -> (c < fresh y)%nat;
  ri_dispose o r : RDispose o false ∈ reloads y -> r ∈ reqs y -> o ∉ rq_held r;
  ri_held r c : r ∈ reqs y -> rq_at r = commits y -> c ∈ rq_held r ->
     c = registry (rsvc y) \/ swapped_out (reloads y) c;
  ri_retired : (length (retired (rsvc y)) <= LLM_RETIRED_MAX)%nat
}.

(** *** Ownership *)

Lemma reap_perm l now :
  let '(keep, gone) := retire_reap l now in
  map rt_config l ≡ₚ map rt_config keep ++ gone /\ (length keep <= length l)%nat.
Proof.
  induction l as [|r l IH]; simpl; [done|]. destruct (retire_reap l now) as [keep gone].
  destruct IH as [IH Hl]. destruct (_ <? _); simpl; rewrite IH.
  - split; [done|lia].
  - split; [by rewrite Permutation_middle|lia].
Qed.

Lemma push_perm l c now :
  (length l <= LLM_RETIRED_MAX)%nat ->
  let '(l', gone) := retire_push l c now in
  c :: map rt_config l ≡ₚ map rt_config l' ++ gone /\ (length l' <= LLM_RETIRED_MAX)%nat.
Proof.
  intros Hl. unfold retire_push. pose proof (reap_perm l now) as Hr.
  destruct (retire_reap l now) as [keep gone]. destruct Hr as [Hr Hk].
  destruct (Nat.leb_spec LLM_RETIRED_MAX (length keep)) as [Hf|Hf].
  - destruct keep as [|r keep]; [simpl in Hf; unfold LLM_RETIRED_MAX in Hf; lia|].
    cbn [drop take map length] in *. rewrite map_app, Hr, length_app. cbn [map length app]. rewrite drop_0.
    split; [solve_Permutation|lia].
  - rewrite map_app, Hr, length_app. simpl. split; [solve_Permutation|lia].
Qed.

Lemma dispose_perm l c b now l' gone :
  (length l <= LLM_RETIRED_MAX)%nat -> old_dispose l c b now = (l', gone) ->
  c :: map rt_config l ≡ₚ map rt_config l' ++ gone /\ (length l' <= LLM_RETIRED_MAX)%nat.
Proof.
  intros Hl. unfold old_dispose. destruct b.
  - pose proof (push_perm l c now Hl) as H. destruct (retire_push l c now) as [l1 g1]. by intros [= <- <-].
  - intros [= <- <-]. split; [solve_Permutation|done].
Qed.

(** *** Moves *)

Lemma filter_mid l1 (a : reloader) l2 :
  length (filter (fun r => critical r = true) (l1 ++ a :: l2))
  = ((if critical a then 1 else 0) + length (filter (fun r => critical r = true) (l1 ++ l2)))%nat.
Proof.
  rewrite !filter_app, !length_app, filter_cons.
  destruct (critical a); [rewrite decide_True by done|rewrite decide_False by done]; simpl; lia.
Qed.

(** Two different reloads cannot both have closed the gate. *)
Lemma critical_once y l1 a l2 r :
  rinv y -> reloads y = l1 ++ a :: l2 -> critical a = true -> critical r = true -> r ∈ l1 ++ l2 -> False.
Proof.
  intros Hi Hl Ha Hr Hin. pose proof (ri_critical _ Hi) as Hc. rewrite Hl, filter_mid, Ha in Hc.
  assert (r ∈ filter (fun r => critical r = true) (l1 ++ l2)) as Hf by (apply list_elem_of_filter; done).
  destruct (filter _ (l1 ++ l2)); [by apply not_elem_of_nil in Hf|].
  destruct (draining (swap (rsvc y))); simpl in Hc; lia.
Qed.

Lemma elem_mid {A} (l1 l2 : list A) (a b : A) : b ∈ l1 ++ a :: l2 <-> b = a \/ b ∈ l1 ++ l2.
Proof. rewrite !elem_of_app, elem_of_cons. naive_solver. Qed.

(** What a step of one reload must provide; the requests stay. *)
Lemma reload_move y y' l1 a l2 bs :
  rinv y -> reloads y = l1 ++ a :: l2 -> reloads y' = l1 ++ bs ++ l2 -> (length bs <= 1)%nat ->
  reqs y' = reqs y -> fresh y' = fresh y -> commits y' = commits y ->
  inflight (swap (rsvc y')) = inflight (swap (rsvc y)) ->
  gen (swap (rsvc y')) = gen (swap (rsvc y)) ->
  ownership y' ≡ₚ ownership y ->
  (length (filter (fun r => critical r = true) bs) + length (filter (fun r => critical r = true) (l1 ++ l2))
   = if draining (swap (rsvc y')) then 1 else 0)%nat ->
  (forall r, r ∈ bs -> drained r = true -> reqs y = []) ->
  (forall o r, RDispose o false ∈ bs -> r ∈ reqs y -> o ∉ rq_held r) ->
  (forall r c, r ∈ reqs y -> rq_at r = commits y -> c ∈ rq_held r ->
     c = registry (rsvc y') \/ swapped_out (l1 ++ bs ++ l2) c) ->
  (length (retired (rsvc y')) <= LLM_RETIRED_MAX)%nat -> rinv y'.
Proof.
  intros Hi Hl Hl' Hb Hq Hf Hc Hin Hg Ho Hcr Hd Hdi Hh Hr.
  pose proof Hi as [I1 I2 I3 I4 I5 I6 I7 I8 I9 I10 I11 I12]. split.
  - by rewrite Hin, Hq.
  - by rewrite Hq.
  - by rewrite Hc.
  - by rewrite Hg, Hc.
  - intros r. rewrite Hq, Hc. apply I5.
  - rewrite Hl', <- Hcr, !filter_app, !length_app. lia.
  - intros r. rewrite Hl', Hq, !elem_of_app. intros [H|[H|H]] Hdr; [|by eapply Hd|];
      (eapply I7; [|exact Hdr]); rewrite Hl, elem_of_app, elem_of_cons; naive_solver.
  - by rewrite Ho.
  - intros c. rewrite Ho, Hf. apply I9.
  - intros o r. rewrite Hl', Hq, !elem_of_app. intros [H|[H|H]] Hr'; [|by eapply Hdi|];
      (eapply I10; [|exact Hr']); rewrite Hl, elem_of_app, elem_of_cons; naive_solver.
  - intros r c. rewrite Hq, Hc, Hl'. apply Hh.
  - done.
Qed.

(** A request moves: the reloads stay. *)
Lemma req_move y y' :
  rinv y -> reloads y' = reloads y -> fresh y' = fresh y -> commits y' = commits y ->
  ownership y' ≡ₚ ownership y -> registry (rsvc y') = registry (rsvc y) ->
  retired (rsvc y') = retired (rsvc y) ->
  gen (swap (rsvc y')) = gen (swap (rsvc y)) ->
  draining (swap (rsvc y')) = draining (swap (rsvc y)) ->
  inflight (swap (rsvc y')) = Z.of_nat (length (reqs y')) ->
  Z.of_nat (length (reqs y')) <= UINT32_MAX ->
  (reqs y = [] -> draining (swap (rsvc y)) = true -> reqs y' = []) ->
  (forall r, r ∈ reqs y' -> r ∈ reqs y \/ r = mkReq (gen (swap (rsvc y))) (commits y) [] \/
     exists r0, r0 ∈ reqs y /\ r = mkReq (rq_gen r0) (rq_at r0) (registry (rsvc y) :: rq_held r0)) ->
  rinv y'.
Proof.
  intros Hi Hl Hf Hc Ho Hrg Hrt Hg Hdr Hin Hq Hem Hr.
  pose proof Hi as [I1 I2 I3 I4 I5 I6 I7 I8 I9 I10 I11 I12]. split.
  - done.
  - done.
  - by rewrite Hc.
  - by rewrite Hg, Hc.
  - intros r [H|[->|(r0 & H0 & ->)]]%Hr; rewrite Hc; [by apply I5| |by apply (I5 r0)]. simpl. split; [lia|done].
  - by rewrite Hl, Hdr.
  - intros r. rewrite Hl. intros Hin' Hd. apply Hem; [by eapply I7|].
    assert (critical r = true) as Hcr by (by destruct r as [| |? []|? []|]).
    pose proof I6 as I6'. destruct (draining (swap (rsvc y))); [done|].
    assert (r ∈ filter (fun r => critical r = true) (reloads y)) as Hfl by (apply list_elem_of_filter; done).
    destruct (filter _ (reloads y)); [by apply not_elem_of_nil in Hfl|done].
  - by rewrite Ho.
  - intros c. rewrite Ho, Hf. apply I9.
  - intros o r. rewrite Hl. intros Hd [H|[->|(r0 & H0 & ->)]]%Hr; [by eapply I10|apply not_elem_of_nil|].
    simpl. rewrite not_elem_of_cons. split; [|by eapply I10]. intros ->. revert I8.
    unfold ownership. rewrite NoDup_cons. intros [Hni _]. apply Hni. rewrite !elem_of_app. right. left.
    apply list_elem_of_In, in_map_iff. exists (RDispose (registry (rsvc y)) false). split; [done|].
    by apply list_elem_of_In.
  - intros r c. rewrite Hl, Hrg, Hc. intros [H|[->|(r0 & H0 & ->)]]%Hr Ha Hin'; [by eapply I11| |].
    + by apply not_elem_of_nil in Hin'.
    + simpl in *. apply elem_of_cons in Hin' as [->|Hin']; [by left|]. by eapply I11.
  - by rewrite Hrt.
Qed.

(** *** The invariant is inductive *)

Lemma not_draining y : rinv y -> draining (swap (rsvc y)) = false ->
  forall r, r ∈ reloads y -> critical r = false.
Proof.
  intros Hi Hd r Hin. pose proof (ri_critical _ Hi) as Hc. rewrite Hd in Hc.
  destruct (critical r) eqn:E; [|done].
  assert (r ∈ filter (fun r => critical r = true) (reloads y)) as Hf by (apply list_elem_of_filter; done).
  destruct (filter _ (reloads y)); [by apply not_elem_of_nil in Hf|done].
Qed.

Lemma is_draining y l1 a l2 :
  rinv y -> reloads y = l1 ++ a :: l2 -> critical a = true ->
  draining (swap (rsvc y)) = true /\ length (filter (fun r => critical r = true) (l1 ++ l2)) = 0%nat.
Proof.
  intros Hi Hl Ha. pose proof (ri_critical _ Hi) as Hc. rewrite Hl, filter_mid, Ha in Hc.
  destruct (draining (swap (rsvc y))); simpl in Hc; [split; [done|lia]|lia].
Qed.

Lemma held_mid l1 a bs l2 c r :
  (forall o b, a <> RSwapped o b) ->
  c = r \/ swapped_out (l1 ++ a :: l2) c -> c = r \/ swapped_out (l1 ++ bs ++ l2) c.
Proof.
  intros Ha [->|(b & Hb)]; [by left|]. right. exists b. apply elem_mid in Hb as [<-|Hb]; [by destruct (Ha c b)|].
  rewrite !elem_of_app in *. naive_solver.
Qed.

Lemma owner_mid s l1 a b l2 x q c f c' f' s' q' :
  registry s' = registry s -> retired s' = retired s -> owned b = owned a ->
  ownership (mkR s' q' (l1 ++ b :: l2) x c' f') ≡ₚ ownership (mkR s q (l1 ++ a :: l2) x c f).
Proof. intros Hr Ht Ho. unfold ownership. simpl. by rewrite Hr, Ht, !map_app, !map_cons, Ho. Qed.

Lemma owner_new s q n l x c f c' f' s' q' :
  registry s' = registry s -> retired s' = retired s ->
  ownership (mkR s' q' (n :: l) x c' f') ≡ₚ owned n :: ownership (mkR s q l x c f).
Proof. intros Hr Ht. unfold ownership. simpl. rewrite Hr, Ht. solve_Permutation. Qed.

Lemma rstep_inv y y' : rinv y -> rstep y y' -> rinv y'.
Proof.
  intros Hi Hs. pose proof Hi as [I1 I2 I3 I4 I5 I6 I7 I8 I9 I10 I11 I12].
  destruct Hs as [s q l x c f g w Hn E|s q1 r q2 l x c f|s q1 r q2 l x c f ok w E|s q l x c f now s' E
    |s q l x c f now ok o s' E Ho|s q l1 n l2 x c f now dl w E|s q l1 n l2 x c f now e w E
    |s q l1 n dl l2 x c f now b w E|s q l1 n b l2 x c f|s q l1 o b l2 x c f ok w E
    |s q l1 o b l2 x c f now l gone E].
  - unfold svc_swap_enter in E. simpl in *. destruct (draining (swap s)) eqn:Ed; [done|].
    injection E as <- <-. apply (req_move _ _ Hi); try done; simpl in *.
    + rewrite u32_id; [lia|]. unfold is_u32, UINT32_MAX in *. lia.
    + lia.
    + by rewrite Ed.
    + intros r [->|Hr]%elem_of_cons; [by right; left|by left].
  - apply (req_move _ _ Hi); try done; simpl in *.
    + rewrite I1, !length_app. done.
    + rewrite !length_app in *. done.
    + intros Hq. by destruct q1.
    + intros r' [->|Hr]%elem_mid; [right; right; exists r; split; [apply elem_mid; by left|done]|].
      left. apply elem_mid. by right.
  - unfold svc_swap_leave in E. injection E as _ <-. apply (req_move _ _ Hi); try done; simpl in *.
    + rewrite I1, !length_app. simpl. rewrite (proj2 (Z.ltb_lt _ _)) by lia. lia.
    + rewrite !length_app in *. simpl in *. lia.
    + intros Hq. by destruct q1.
    + intros r' Hr. left. apply elem_mid. by right.
  - unfold reload_read in E. destruct (_ || _); [done|]. injection E as <-. simpl in *.
    pose proof (owner_new s q (RStaged f) l x c f c (S f) s q eq_refl eq_refl) as Hp. split; simpl; try done.
    + intros r [->|Hr]%elem_of_cons Hd; [done|by eapply I7].
    + rewrite Hp. constructor; [|done]. intros Hc%I9. simpl in Hc. lia.
    + intros c'. rewrite Hp, elem_of_cons. intros [->|Hc]; [simpl; lia|]. specialize (I9 c' Hc). lia.
    + intros o r [?|Hr]%elem_of_cons Hq; [done|by eapply I10].
    + intros r c' Hq Ha Hh. destruct (I11 r c' Hq Ha Hh) as [?|[b Hb]]; [by left|right]. exists b. by right.
  - unfold reload_read in E. destruct (_ || _); [injection E as <- <-; done|].
    destruct ok; injection E as <- <-; [done|]. by apply (req_move _ _ Hi); simpl; [..|intros r Hr; left].
  - unfold swap_begin_enter in E. simpl in *. destruct (draining (swap s)) eqn:Ed; [done|]. injection E as <- <-.
    eapply (reload_move _ _ l1 (RStaged n) l2 [RDrain n _] Hi); try done; simpl.
    + by apply owner_mid.
    + rewrite filter_mid in I6. simpl in I6. lia.
    + by intros r ->%list_elem_of_singleton.
    + by intros o r ?%list_elem_of_singleton.
    + intros r c' Hq Ha Hh. by eapply (held_mid l1 (RStaged n) [_]); [|by eapply I11].
  - unfold swap_begin_enter in E. simpl in *. destruct (draining (swap s)) eqn:Ed; [|done]. injection E as <- <-.
    eapply (reload_move _ _ l1 (RStaged n) l2 [] Hi); try done; simpl.
    + lia.
    + unfold ownership. simpl. rewrite !map_app. simpl. solve_Permutation.
    + rewrite filter_mid in I6. simpl in I6. rewrite Ed. done.
    + by intros r ?%not_elem_of_nil.
    + by intros o r ?%not_elem_of_nil.
    + intros r c' Hq Ha Hh. by eapply (held_mid l1 (RStaged n) []); [|by eapply I11].
  - destruct (is_draining _ l1 (RDrain n dl) l2 Hi eq_refl eq_refl) as [Hd Hc0]. simpl in *.
    unfold swap_begin_round in E. rewrite I1 in E.
    assert (inflight w = inflight (swap s) /\ gen w = gen (swap s) /\ draining w = true /\
            ((b =? 1) = false -> q = [])) as (Hw1 & Hw2 & Hw3 & Hw4).
    { destruct (Z.ltb_spec 0 (Z.of_nat (length q))).
      - destruct (_ <=? _); [|done]. by injection E as <- <-.
      - injection E as <- <-. split; [done|]. split; [done|]. split; [done|]. intros _. destruct q; [done|simpl in *; lia]. }
    eapply (reload_move _ _ l1 (RDrain n dl) l2 [RSwitch n (b =? 1)] Hi); try done; simpl.
    + by apply owner_mid.
    + by rewrite Hc0, Hw3.
    + intros r ->%list_elem_of_singleton. simpl. destruct (b =? 1); [done|]. intros _. by apply Hw4.
    + by intros o r ?%list_elem_of_singleton.
    + intros r c' Hq Ha Hh. by eapply (held_mid l1 (RDrain n dl) [_]); [|by eapply I11].
  - destruct (is_draining _ l1 (RSwitch n b) l2 Hi eq_refl eq_refl) as [Hd Hc0]. simpl in *.
    eapply (reload_move _ _ l1 (RSwitch n b) l2 [RSwapped _ b] Hi); try done; simpl.
    + unfold ownership. simpl. rewrite !map_app. simpl. solve_Permutation.
    + by rewrite Hc0, Hd.
    + intros r ->%list_elem_of_singleton Hdr. eapply (I7 (RSwitch n b)); [apply elem_mid; by left|]. by destruct b.
    + by intros o r ?%list_elem_of_singleton.
    + intros r c' Hq Ha Hh. right. destruct (I11 r c' Hq Ha Hh) as [->|(b' & Hb')].
      * exists b. apply elem_mid. by left.
      * exists b'. apply elem_mid in Hb' as [?|?]; [done|]. apply elem_mid. by right.
  - destruct (is_draining _ l1 (RSwapped o b) l2 Hi eq_refl eq_refl) as [Hd Hc0]. simpl in *.
    unfold reload_commit, svc_swap_commit in E. rewrite Hd in E. cbn in E. injection E as <- <-.
    split; simpl; try done.
    + lia.
    + rewrite I4. by apply gen_next_cycle.
    + intros r Hr. destruct (I5 r Hr) as [? ?]. split; [lia|done].
    + by rewrite filter_mid, Hc0.
    + intros r [->|Hr]%elem_mid Hdr; [done|]. eapply I7; [|exact Hdr]. apply elem_mid. by right.
    + by rewrite (owner_mid s l1 (RSwapped o b) (RDispose o b) l2 x q c f).
    + intros c'. rewrite (owner_mid s l1 (RSwapped o b) (RDispose o b) l2 x q c f) by done. apply I9.
    + intros o' r [[= -> <-]|Hr]%elem_mid Hq.
      * rewrite (I7 (RSwapped o false)) in Hq; [by apply not_elem_of_nil in Hq|apply elem_mid; by left|done].
      * eapply I10; [|exact Hq]. apply elem_mid. by right.
    + intros r c' Hq Ha. destruct (I5 r Hq) as [? _]. lia.
  - simpl in *. destruct (dispose_perm _ _ _ _ _ _ I12 E) as [Hp Hl].
    eapply (reload_move _ _ l1 (RDispose o b) l2 [] Hi); try done; simpl.
    + lia.
    + unfold ownership. simpl. rewrite !map_app. simpl.
      trans (registry s :: (map rt_config l ++ gone) ++ (map owned l1 ++ map owned l2) ++ x);
        [solve_Permutation|]. rewrite <- Hp. solve_Permutation.
    + rewrite filter_mid in I6. done.
    + by intros r ?%not_elem_of_nil.
    + by intros o' r ?%not_elem_of_nil.
    + intros r c' Hq Ha Hh. by eapply (held_mid l1 (RDispose o b) []); [|by eapply I11].
Qed.

Lemma rinit_inv drain path : rinv (rinit drain path).
Proof.
  split; simpl; try done; try (by intros ? ?%not_elem_of_nil); try (by intros ? ? ?%not_elem_of_nil).
  - apply NoDup_singleton.
  - intros c ->%list_elem_of_singleton. simpl. lia.
  - unfold LLM_RETIRED_MAX. lia.
Qed.

Lemma rreach_inv drain path y : rtc rstep (rinit drain path) y -> rinv y.
Proof.
  intros Hr. pose proof (rinit_inv drain path) as Hi. revert Hi.
  induction Hr as [|y1 y2 y3 Hs _ IH]; [done|]. intros Hi. apply IH. by eapply rstep_inv.
Qed.

(** ** What requests and reloads can rely on *)

(** What a request of the current generation has looked up is the current
    configuration; or the tables were switched after a drain that timed out, the
    commit is still to come, and it is the current one or the one before. *)
Lemma held_cases y r :
  rinv y -> r ∈ reqs y -> rq_at r = commits y ->
  (forall c, c ∈ rq_held r -> c = registry (rsvc y))
  \/ exists old, RSwapped old true ∈ reloads y /\ forall c, c ∈ rq_held r -> c = registry (rsvc y) \/ c = old.
Proof.
  intros Hr Hq Ha. destruct (existsb (fun a => match a with RSwapped _ _ => true | _ => false end) (reloads y)) eqn:E.
  - apply existsb_exists in E as (a & Hin%list_elem_of_In & Ea). destruct a as [| | |old b|]; try done.
    assert (b = true) as ->.
    { destruct b; [done|]. pose proof (ri_drained _ Hr (RSwapped old false) Hin eq_refl) as E. rewrite E in Hq. by apply not_elem_of_nil in Hq. }
    right. exists old. split; [done|]. intros c Hc. destruct (ri_held _ Hr r c Hq Ha Hc) as [->|(b & Hb)]; [by left|right].
    apply list_elem_of_split in Hin as (l1 & l2 & El). rewrite El in Hb. apply elem_mid in Hb as [[= <- _]|Hb]; [done|].
    by destruct (critical_once y l1 (RSwapped old true) l2 (RSwapped c b) Hr El eq_refl eq_refl Hb).
  - left. intros c Hc. destruct (ri_held _ Hr r c Hq Ha Hc) as [->|(b & Hb)]; [done|]. exfalso.
    assert (existsb (fun a => match a with RSwapped _ _ => true | _ => false end) (reloads y) = true); [|congruence].
    apply existsb_exists. exists (RSwapped c b). split; [by apply list_elem_of_In|done].
Qed.

(** C12.  Which results are kept, and what they were made with.  Whatever requests
    and reloads do concurrently: the verdict on a finished request is "valid"
    exactly when no generation was opened since it entered (up to a whole cycle of
    2^32-1 generations, after which a number comes back).  Everything a request of
    the current generation has looked up is live; and it is one configuration, the
    current one, except in one window: when a drain timed out and the tables are
    switched but the new generation is not committed yet, it is that one or the
    one before it. *)
Theorem reload_no_mix drain path y r ok w :
  rtc rstep (rinit drain path) y -> r ∈ reqs y ->
  svc_swap_leave (swap (rsvc y)) (rq_gen r) = (ok, w) ->
  (ok = true <-> (commits y - rq_at r) mod GEN_CYCLE = 0) /\
  (rq_at r = commits y -> ok = true /\ (forall c, c ∈ rq_held r -> c ∉ destroyed y) /\
     ((forall c, c ∈ rq_held r -> c = registry (rsvc y))
      \/ exists old, RSwapped old true ∈ reloads y /\ forall c, c ∈ rq_held r -> c = registry (rsvc y) \/ c = old)).
Proof.
  intros Hr%rreach_inv Hq E. destruct (ri_req _ Hr r Hq) as [Hat Hg].
  assert (ok = true <-> (commits y - rq_at r) mod GEN_CYCLE = 0) as Hok.
  { rewrite <- (gen_same (rq_at r) (commits y)) by lia. rewrite <- Hg, <- (ri_gen _ Hr).
    unfold svc_swap_leave in E. injection E as <- _. rewrite andb_true_iff, negb_true_iff, Z.eqb_eq, Z.eqb_neq.
    split; [tauto|]. intros Heq. split; [|done]. rewrite Hg. unfold GEN_CYCLE, UINT32_MAX.
    pose proof (Z.mod_pos_bound (rq_at r) 4294967295 ltac:(lia)). lia. }
  split; [done|]. intros Hc. split_and!; [apply Hok; rewrite Hc, Z.sub_diag; done| |by apply held_cases].
  intros c Hh Hd. pose proof (ri_owner _ Hr) as Ho. unfold ownership in Ho.
  destruct (ri_held _ Hr r c Hq Hc Hh) as [->|(b & Hb)].
  - apply NoDup_cons in Ho as [Ho _]. apply Ho. rewrite !elem_of_app. by right; right.
  - apply NoDup_cons in Ho as [_ Ho]. apply NoDup_app in Ho as (_ & _ & Ho). apply NoDup_app in Ho as (_ & Ho & _).
    apply (Ho c); [|done]. apply list_elem_of_In, in_map_iff. exists (RSwapped c b). split; [done|].
    by apply list_elem_of_In.
Qed.

(** A reload whose drain was complete has the service to itself.  From the end
    of the drain to the commit no request is inside; the commit of a reload is
    never refused, at most one reload has the gate closed at a time; the old
    configuration is destroyed only when no request holds it; and no
    configuration is ever destroyed twice, nor while it is the current one or
    parked. *)
Theorem reload_exclusive drain path y :
  rtc rstep (rinit drain path) y ->
  (forall l1 a l2, reloads y = l1 ++ a :: l2 -> drained a = true -> reqs y = []) /\
  (forall l1 o b l2, reloads y = l1 ++ RSwapped o b :: l2 -> (reload_commit (swap (rsvc y))).1 = true) /\
  (forall l1 a l2 b, reloads y = l1 ++ a :: l2 -> critical a = true -> b ∈ l1 ++ l2 -> critical b = false) /\
  (forall o r, RDispose o false ∈ reloads y -> r ∈ reqs y -> o ∉ rq_held r) /\
  NoDup (ownership y) /\ (length (retired (rsvc y)) <= LLM_RETIRED_MAX)%nat.
Proof.
  intros Hr%rreach_inv. split; [|split; [|split; [|split; [|split]]]].
  - intros l1 a l2 Hl. apply (ri_drained _ Hr). rewrite Hl. apply elem_mid. by left.
  - intros l1 o b l2 Hl. destruct (is_draining _ _ _ _ Hr Hl eq_refl) as [Hd _].
    unfold reload_commit, svc_swap_commit. by rewrite Hd.
  - intros l1 a l2 b Hl Ha Hb. destruct (critical b) eqn:E; [|done].
    by destruct (critical_once _ _ _ _ b Hr Hl Ha E Hb).
  - apply (ri_dispose _ Hr).
  - apply (ri_owner _ Hr).
  - apply (ri_retired _ Hr).
Qed.

(** After a drain that timed out the old configuration is kept for its grace
    period: what a reap destroys was parked at least that long ago. *)
Lemma reap_grace l now c :
  c ∈ (retire_reap l now).2 ->
  exists r, r ∈ l /\ rt_config r = c /\ LLM_RETIRED_GRACE_MS <= u64 (now - retire_ms r).
Proof.
  induction l as [|r l IH]; simpl; [by intros ?%not_elem_of_nil|].
  destruct (retire_reap l now) as [keep gone]. destruct (Z.ltb_spec (u64 (now - retire_ms r)) LLM_RETIRED_GRACE_MS); simpl.
  - intros (r' & Hr' & ?)%IH. exists r'. by split; [right|].
  - intros [->|(r' & Hr' & ?)%IH]%elem_of_cons; [exists r; by split; [left|]|].
    exists r'. by split; [right|].
Qed.

(** ** Runs *)

Definition toy_s0 : reload_svc := rsvc (rinit 0 true).
Definition toy_w1 : svc_swap_t := (svc_swap_enter (swap toy_s0)).2.
Definition toy_inside : rsys := mkR (set_swap toy_w1 toy_s0) [mkReq 1 0 [0%nat]] [] [] 0 1.

Lemma toy_inside_reach : rtc rstep (rinit 0 true) toy_inside.
Proof.
  eapply rtc_l; [eapply r_enter; [done|reflexivity]|].
  eapply rtc_l; [apply (r_lookup _ [] _ [])|]. apply rtc_refl.
Qed.

Lemma reload_no_mix_witness :
  (svc_swap_leave (swap (rsvc toy_inside)) 1).1 = true /\ 0%nat ∉ destroyed toy_inside.
Proof.
  destruct (reload_no_mix 0 true toy_inside (mkReq 1 0 [0%nat]) true
              (svc_swap_leave (swap (rsvc toy_inside)) 1).2 toy_inside_reach) as [_ H].
  - apply list_elem_of_singleton. reflexivity.
  - reflexivity.
  - split; [reflexivity|]. destruct (H eq_refl) as (_ & Hl & _). apply Hl. apply list_elem_of_singleton. reflexivity.
Defined.

Lemma reload_exclusive_witness : NoDup (ownership toy_inside).
Proof. apply (reload_exclusive 0 true toy_inside toy_inside_reach). Defined.

(** One forced reload of the configuration [old] by [n], from the state after
    its reading, with the drain from [t] on. *)
Lemma forced_reload s q x c f t l gone :
  cfg_path s = true -> reload_next_ms s = 0 -> draining (swap s) = false -> drain_ms (swap s) = 30000 ->
  0 < inflight (swap s) -> 0 <= t < 10000000 -> retire_push (retired s) (registry s) (t + 30000) = (l, gone) ->
  rtc rstep (mkR s q [] x c f)
    (mkR (mkRSvc (mkSwap (gen_next (gen (swap s))) (inflight (swap s)) 30000 false
                    (u32 (swapped (swap s) + 1)) (mismatch (swap s)) (u64 (drain_tmo (swap s) + 1)))
            f true 0 (u32 (reload_ok s + 1)) (reload_fail s) l) q [] (gone ++ x) (c + 1) (S f)).
Proof.
  intros Hp Hn Hd Hm Hi Ht Hl.
  eapply rtc_l; [eapply (r_read s q [] x c f t s); unfold reload_read; by rewrite Hp, Hn|].
  eapply rtc_l; [apply (r_begin s q [] f [] x c (S f) t (t + 30000)); unfold swap_begin_enter;
    rewrite Hd, Hm, u64_id by (unfold is_u64, UINT64_MAX; lia); reflexivity|].
  eapply rtc_l; [apply (r_round _ q [] f (t + 30000) [] x c (S f) (t + 30000) 1); unfold swap_begin_round; simpl;
    rewrite (proj2 (Z.ltb_lt _ _) Hi), Z.leb_refl; reflexivity|].
  eapply rtc_l; [apply (r_switch _ q [] f true [])|].
  eapply rtc_l; [apply (r_commit _ q [] _ true []); reflexivity|].
  eapply rtc_l; [apply (r_dispose _ q [] _ true [] _ _ _ (t + 30000)); exact Hl|].
  simpl. unfold reload_finish, set_swap, set_registry. simpl. rewrite ?Hm, ?Hp. apply rtc_refl.
Qed.

(** The window is real: a request that is still inside when the drain times out
    looks up the old and the new configuration, leaves before the commit, and its
    result is declared valid. *)
Theorem forced_switch_mixes :
  exists y r, rtc rstep (rinit 0 true) y /\ r ∈ reqs y /\ rq_held r = [1%nat; 0%nat]
    /\ (svc_swap_leave (swap (rsvc y)) (rq_gen r)).1 = true.
Proof.
  eexists _, (mkReq 1 0 [1%nat; 0%nat]). split.
  - etrans; [apply toy_inside_reach|]. unfold toy_inside.
    eapply rtc_l; [eapply (r_read _ _ [] _ _ _ 0); reflexivity|].
    eapply rtc_l; [eapply (r_begin _ _ [] _ [] _ _ _ 0); reflexivity|].
    eapply rtc_l; [eapply (r_round _ _ [] _ _ [] _ _ _ 30000 1); reflexivity|].
    eapply rtc_l; [apply (r_switch _ _ [] _ _ [])|].
    eapply rtc_l; [apply (r_lookup _ [] _ [])|]. apply rtc_refl.
  - split_and!; [apply list_elem_of_singleton; reflexivity|reflexivity|vm_compute; reflexivity].
Qed.

(** The grace period is the limit of the protection: a request that stays
    inside for longer than it, across two reloads whose drain timed out, holds
    a configuration that has been destroyed. *)
Theorem grace_frees_held :
  exists y r c, rtc rstep (rinit 0 true) y /\ r ∈ reqs y /\ c ∈ rq_held r /\ c ∈ destroyed y.
Proof.
  eexists _, (mkReq 1 0 [0%nat]), 0%nat. split; [|split; [|split]].
  - etrans; [apply toy_inside_reach|]. unfold toy_inside.
    etrans; [apply (forced_reload _ _ _ _ _ 0); done|].
    apply (forced_reload _ _ _ _ _ 700000); done.
  - apply list_elem_of_singleton. reflexivity.
  - apply list_elem_of_singleton. reflexivity.
  - vm_compute. by left.
Qed.
