(* ===== verification/Security.v ===== *)
(** * Security

    The permission and sanitising core shared by the daemons
    (common/src/security/daemon_security.c, daemon_security_acl.c and
    daemon_security_audit.c): start-up and shut-down of the security context,
    the access-control table with its rule file, the permission check, the
    filter for text that is shown or logged, the audit record.

    Every section under the mutex of the module is one step on the global
    context; start-up releases the mutex before it loads the rule file, so each
    rule of a file is a step of its own.  The YAML reader, the vault provider and the file system are
    outside this repository: what they report is an argument. *)

From stdpp Require Import gmap relations.
From S2P Require Import Prelude.

Definition MAX_ACL_ENTRIES : nat := 256.
Definition MAX_AUDIT_LOG_SIZE : nat := 1024.
Definition AGENT_ID_SIZE : nat := 64.
Definition RESOURCE_SIZE : nat := 128.


Record acl_entry_t := mkAcl {
  agent_id : string;
  resource : string;
  operations : Z;
  allowed : bool
}.

(** [acl_table] is the live prefix of the array; [vault] and [audit_fp] say
    whether the pointer is set. *)
Record daemon_security_ctx_t := mkCtx {
  initialized : bool;
  current_sanitize_level : Z;
  permission_enabled : bool;
  vault_enabled : bool;
  audit_enabled : bool;
  vault : bool;
  acl_table : list acl_entry_t;
  audit_fp : bool;
  audit_log_path : string
}.

(** [g_security_ctx = {0}] *)
Definition ctx_zero : daemon_security_ctx_t := mkCtx false 0 false false false false [] false "".

(** ** The rule table *)

Fixpoint acl_find (l : list acl_entry_t) (agent tool : string) : option nat :=
  match l with
  | [] => None
  | e :: l' =>
      if strcmp_eq (agent_id e) agent && strcmp_eq (resource e) tool then Some O
      else S <$> acl_find l' agent tool
  end.

(** The action is a parameter of the code that only enters the log. *)
Definition daemon_check_tool_permission (c : daemon_security_ctx_t)
    (agent tool action : option string) : airy_rc :=
  match agent, tool, action with
  | Some agent, Some tool, Some _ =>
      if negb (initialized c) then AIRY_EPERM
      else if negb (permission_enabled c) then AIRY_EPERM
      else match i ← acl_find (acl_table c) agent tool; acl_table c !! i with
           | Some e => if allowed e then AIRY_SUCCESS else AIRY_ERR_PERMISSION_DENIED
           | None => AIRY_ERR_PERMISSION_DENIED
           end
  | _, _, _ => AIRY_ERR_INVALID_PARAM
  end.

Definition set_acl (l : list acl_entry_t) (c : daemon_security_ctx_t) : daemon_security_ctx_t :=
  mkCtx (initialized c) (current_sanitize_level c) (permission_enabled c) (vault_enabled c)
    (audit_enabled c) (vault c) l (audit_fp c) (audit_log_path c).

Definition daemon_security_add_acl_rule (c : daemon_security_ctx_t)
    (agent res : option string) (allow : bool) : airy_rc * daemon_security_ctx_t :=
  match agent, res with
  | Some agent, Some res =>
      if strcmp_eq agent "" || strcmp_eq res "" then (AIRY_ERR_INVALID_PARAM, c)
      else if (AGENT_ID_SIZE <=? String.length agent)%nat || (RESOURCE_SIZE <=? String.length res)%nat
      then (AIRY_ERR_INVALID_PARAM, c)
      else if negb (initialized c) then (AIRY_ERR_STATE_ERROR, c)
      else match i ← acl_find (acl_table c) agent res; e ← acl_table c !! i; Some (i, e) with
           | Some (i, e) =>
               (AIRY_SUCCESS,
                set_acl (<[i := mkAcl (agent_id e) (resource e) (operations e) allow]> (acl_table c)) c)
           | None =>
               if (MAX_ACL_ENTRIES <=? length (acl_table c))%nat then (AIRY_ERR_OUT_OF_MEMORY, c)
               else (AIRY_SUCCESS,
                     set_acl (acl_table c ++
                       [mkAcl (snprintf_s AGENT_ID_SIZE agent) (snprintf_s RESOURCE_SIZE res)
                          UINT32_MAX allow]) c)
           end
  | _, _ => (AIRY_ERR_INVALID_PARAM, c)
  end.

(** ** The rule file *)

(** An item of the list: its members as strings, [None] if absent. *)
Record rule_item := mkRule { ru_agent : option string; ru_tool : option string; ru_effect : option string }.

(** What the reader found at the path. *)
Inductive rules_file :=
| NoFile | NoMemory | BadYaml | NoRules
| Rules (items : list (option rule_item)).

Definition load_one (c : daemon_security_ctx_t) (r : option rule_item) : daemon_security_ctx_t :=
  match r with
  | None => c
  | Some r =>
      match ru_agent r, ru_tool r with
      | Some a, Some t =>
          if strcmp_eq a "" || strcmp_eq t "" then c
          else (daemon_security_add_acl_rule c (Some a) (Some t)
                  (strcmp_eq (default "deny" (ru_effect r)) "allow")).2
      | _, _ => c
      end
  end.

Definition daemon_security_load_rules_file (c : daemon_security_ctx_t) (path : option string)
    (f : rules_file) : airy_rc * daemon_security_ctx_t :=
  match path with
  | None => (AIRY_ERR_INVALID_PARAM, c)
  | Some p =>
      if strcmp_eq p "" then (AIRY_ERR_INVALID_PARAM, c)
      else match f with
           | NoFile => (AIRY_ERR_NOT_FOUND, c)
           | NoMemory => (AIRY_ERR_OUT_OF_MEMORY, c)
           | BadYaml | NoRules => (AIRY_ERR_PARSE_ERROR, c)
           | Rules items => (AIRY_SUCCESS, fold_left load_one items c)
           end
  end.

(** ** Life cycle *)

(** [vault_open]: no provider, or whether its [open] succeeded. *)
Record security_config := mkSecCfg {
  sanitize_level : Z;
  enable_permission_cache : bool;
  enable_vault : bool;
  vault_open : option bool;
  enable_audit_logging : bool;
  audit_log_dir : option string;
  permission_rules_path : option string
}.

Definition audit_path (dir : string) : string := snprintf_s 256 (dir +:+ "/daemon_audit.log").

(** The section of start-up under the mutex: [log_dir] is the default directory,
    [log_ok] whether the file could be opened; [SANITIZE_LEVEL_HIGH] is a
    constant of the commons library. *)
Definition security_init_locked (SANITIZE_LEVEL_HIGH : Z) (c : daemon_security_ctx_t)
    (cfg : option security_config) (log_dir : string) (log_ok : bool) : daemon_security_ctx_t :=
  if initialized c then c
  else
    let level := match cfg with Some k => sanitize_level k | None => SANITIZE_LEVEL_HIGH end in
    let perm := match cfg with Some k => enable_permission_cache k | None => true end in
    let vlt := match cfg with Some k => enable_vault k | None => true end in
    let aud := match cfg with Some k => enable_audit_logging k | None => true end in
    let dir := match cfg with Some k => default "" (audit_log_dir k) | None => "" end in
    let path := if strcmp_eq dir "" then "" else audit_path dir in
    let path := if aud && strcmp_eq path "" then audit_path log_dir else path in
    let opened := match cfg with Some k => vault_open k | None => None end in
    let ok := vlt && default false opened in
    mkCtx true level perm ok aud ok [] (aud && log_ok) path.

Definition daemon_security_init (SANITIZE_LEVEL_HIGH : Z) (c : daemon_security_ctx_t)
    (cfg : option security_config) (f : rules_file) (log_dir : string) (log_ok : bool)
    : daemon_security_ctx_t :=
  if initialized c then c
  else
    let c := security_init_locked SANITIZE_LEVEL_HIGH c cfg log_dir log_ok in
    match cfg with
    | Some k => if strcmp_eq (default "" (permission_rules_path k)) "" then c
                else (daemon_security_load_rules_file c (permission_rules_path k) f).2
    | None => c
    end.

Definition daemon_security_shutdown (c : daemon_security_ctx_t) : daemon_security_ctx_t :=
  if initialized c
  then mkCtx false (current_sanitize_level c) false false false false [] false (audit_log_path c)
  else c.

(** ** Sanitising *)

Definition isprint (c : ascii) : bool :=
  ((32 <=? nat_of_ascii c) && (nat_of_ascii c <=? 126))%nat.

Definition clean (c : ascii) : bool :=
  isprint c && negb (Ascii.eqb c "\") && negb (Ascii.eqb c "010") && negb (Ascii.eqb c "013") &&
  negb (Ascii.eqb c "009").

(** The loop, with room for [room] more characters. *)
Fixpoint sanitize_loop (input : string) (room : nat) : string :=
  match input, room with
  | EmptyString, _ | _, O => EmptyString
  | String c rest, S room' =>
      if clean c then String c (sanitize_loop rest room') else sanitize_loop rest room
  end.

(** [None]: the buffer is left as it is. *)
Definition sanitize_string (input : string) (max_len : nat) : option string :=
  if (max_len =? 0)%nat then None else Some (sanitize_loop input (max_len - 1)).

(** The outputs are the sizes of the two buffers, [None] for a missing one. *)
Definition daemon_sanitize_tool_params (tool params : option string) (tool_buf param_buf : option nat)
    : airy_rc * option string * option string :=
  match tool, params, tool_buf, param_buf with
  | Some t, Some p, Some tn, Some pn => (AIRY_SUCCESS, sanitize_string t tn, sanitize_string p pn)
  | _, _, _, _ => (AIRY_ERR_INVALID_PARAM, None, None)
  end.

(** ** Audit *)

Definition audit_line (timestamp service op : string) (res : option string) (result : Z)
    (agent : option string) : string :=
  let r := if result =? 0 then "SUCCESS" else "FAILED" in
  snprintf_s MAX_AUDIT_LOG_SIZE
    ("[" +:+ timestamp +:+ "] [" +:+ r +:+ "] service=" +:+ service +:+ " operation=" +:+ op +:+
     " resource=" +:+ default "N/A" res +:+ " agent=" +:+ default "system" agent +:+ " result=" +:+
     r +:+ String "010" EmptyString).

(** The code and the text written to the audit file. *)
Definition daemon_audit_log_event (c : daemon_security_ctx_t) (timestamp : string)
    (service op res : option string) (result : Z) (agent : option string) : airy_rc * option string :=
  match service, op with
  | Some s, Some o =>
      if negb (initialized c) then (AIRY_ERR_STATE_ERROR, None)
      else if negb (audit_enabled c) then (AIRY_SUCCESS, None)
      else (AIRY_SUCCESS,
            if audit_fp c then Some (audit_line timestamp s o res result agent) else None)
  | _, _ => (AIRY_ERR_INVALID_PARAM, None)
  end.

(** ** The policy *)

(** What the table means: a partial map from pairs (agent, tool) to verdicts,
    behind two switches. *)
Record policy := mkPolicy {
  p_on : bool;
  p_enabled : bool;
  p_rules : gmap (string * string) bool
}.

Definition policy_allows (p : policy) (a t : string) : Prop :=
  p_on p = true /\ p_enabled p = true /\ p_rules p !! (a, t) = Some true.

Definition key_ok (a t : string) : bool :=
  negb (strcmp_eq a "" || strcmp_eq t "") &&
  negb ((AGENT_ID_SIZE <=? String.length a)%nat || (RESOURCE_SIZE <=? String.length t)%nat).

(** A rule is accepted if its names fit and there is room for it. *)
Definition policy_add (p : policy) (a t : string) (b : bool) : option policy :=
  if key_ok a t && p_on p &&
     bool_decide (is_Some (p_rules p !! (a, t)) \/ (size (p_rules p) < MAX_ACL_ENTRIES)%nat)
  then Some (mkPolicy (p_on p) (p_enabled p) (<[(a, t) := b]> (p_rules p))) else None.

Definition acl_key (e : acl_entry_t) : string * string := (agent_id e, resource e).

Definition acl_map (l : list acl_entry_t) : gmap (string * string) bool :=
  list_to_map ((fun e => (acl_key e, allowed e)) <$> l).

Definition abs (c : daemon_security_ctx_t) : policy :=
  mkPolicy (initialized c) (permission_enabled c) (acl_map (acl_table c)).

Record sec_inv (c : daemon_security_ctx_t) : Prop := {
  sv_keys : NoDup (acl_key <$> acl_table c);
  sv_size : (length (acl_table c) <= MAX_ACL_ENTRIES)%nat;
  sv_off : initialized c = false -> acl_table c = [] /\ permission_enabled c = false
}.

(** ** The table implements the policy *)

Lemma acl_find_map l a t :
  (i ← acl_find l a t; l !! i) ≫= (fun e => Some (allowed e)) = acl_map l !! (a, t).
Proof.
  unfold acl_map. induction l as [|e l IH]; csimpl; [by rewrite lookup_empty|].
  destruct (strcmp_eq (agent_id e) a && strcmp_eq (resource e) t) eqn:E.
  - bool_cases. subst. simpl. by rewrite lookup_insert_eq.
  - rewrite lookup_insert_ne.
    + rewrite <- IH. by destruct (acl_find l a t).
    + unfold acl_key. intros [= <- <-]. by rewrite !strcmp_eq_refl in E.
Qed.

Lemma acl_find_lt l a t i : acl_find l a t = Some i -> exists e, l !! i = Some e /\ acl_key e = (a, t).
Proof.
  revert i. induction l as [|e l IH]; intros i; simpl; [done|].
  destruct (strcmp_eq (agent_id e) a && strcmp_eq (resource e) t) eqn:E.
  - intros [= <-]. bool_cases. subst. by exists e.
  - destruct (acl_find l a t) as [k|]; [|done]. intros [= <-]. by apply IH.
Qed.

Lemma acl_find_none l a t : acl_find l a t = None -> acl_map l !! (a, t) = None.
Proof. intros H. rewrite <- acl_find_map, H. done. Qed.

Lemma acl_find_keys l a t : acl_find l a t = None -> (a, t) ∉ acl_key <$> l.
Proof.
  induction l as [|e l IH]; csimpl; [intros _; apply not_elem_of_nil|].
  destruct (strcmp_eq (agent_id e) a && strcmp_eq (resource e) t) eqn:E; [done|].
  destruct (acl_find l a t); [done|]. intros _. rewrite not_elem_of_cons. split; [|by apply IH].
  unfold acl_key. intros [= -> ->]. by rewrite !strcmp_eq_refl in E.
Qed.

(** Overwriting the verdict of the entry found. *)
Lemma acl_map_update l a t i e b :
  acl_find l a t = Some i -> l !! i = Some e ->
  acl_map (<[i := mkAcl (agent_id e) (resource e) (operations e) b]> l) = <[(a, t) := b]> (acl_map l) /\
  acl_key <$> <[i := mkAcl (agent_id e) (resource e) (operations e) b]> l = acl_key <$> l.
Proof.
  unfold acl_map. revert i. induction l as [|x l IH]; intros i; simpl; [done|].
  destruct (strcmp_eq (agent_id x) a && strcmp_eq (resource x) t) eqn:E.
  - intros [= <-] [= <-]. bool_cases. subst. csimpl. unfold acl_key. simpl. by rewrite insert_insert_eq.
  - destruct (acl_find l a t) as [k|] eqn:Ek; [|done]. intros [= <-] He. simpl in He.
    destruct (IH k eq_refl He) as [H1 H2]. csimpl. rewrite H1, H2. split; [|done].
    apply insert_insert_ne. unfold acl_key. intros [= <- <-]. by rewrite !strcmp_eq_refl in E.
Qed.

Lemma acl_map_snoc l e :
  acl_key e ∉ acl_key <$> l -> acl_map (l ++ [e]) = <[acl_key e := allowed e]> (acl_map l).
Proof.
  intros Hk. unfold acl_map. rewrite fmap_app. simpl. apply list_to_map_snoc.
  by rewrite <- list_fmap_compose.
Qed.

Lemma acl_map_size l : NoDup (acl_key <$> l) -> size (acl_map l) = length l.
Proof.
  induction l as [|e l IH]; csimpl; [done|]. intros [Hk Hn]%NoDup_cons. unfold acl_map in *. csimpl.
  rewrite map_size_insert_None; [by rewrite IH|].
  apply not_elem_of_list_to_map. by rewrite <- list_fmap_compose.
Qed.

Lemma check_spec c a t x :
  daemon_check_tool_permission c (Some a) (Some t) (Some x) = AIRY_SUCCESS <-> policy_allows (abs c) a t.
Proof.
  unfold daemon_check_tool_permission, policy_allows, abs. simpl. rewrite <- acl_find_map.
  destruct (initialized c), (permission_enabled c); simpl; try (split; [done|naive_solver]).
  destruct (acl_find (acl_table c) a t ≫= _) as [e|]; simpl; [|naive_solver].
  destruct (allowed e); naive_solver.
Qed.

Lemma add_spec c a t b :
  sec_inv c ->
  let '(rc, c') := daemon_security_add_acl_rule c (Some a) (Some t) b in
  sec_inv c' /\
  match policy_add (abs c) a t b with
  | Some p => rc = AIRY_SUCCESS /\ abs c' = p
  | None => rc <> AIRY_SUCCESS /\ c' = c
  end.
Proof.
  intros Hi. pose proof Hi as [Hk Hs Ho]. unfold daemon_security_add_acl_rule, policy_add, key_ok.
  destruct (strcmp_eq a "" || strcmp_eq t ""); [by split|].
  destruct (_ || _) eqn:E2; [by split|]. apply orb_false_iff in E2 as [H1%Nat.leb_gt H2%Nat.leb_gt].
  cbn [negb andb abs p_on p_enabled p_rules].
  destruct (initialized c) eqn:Ei; cbn [negb]; [|by split]. rewrite acl_map_size by done.
  destruct (acl_find (acl_table c) a t) as [i|] eqn:Ef.
  - destruct (acl_find_lt _ _ _ _ Ef) as (e & He & Hkey).
    cbn [mbind option_bind]. rewrite He.
    destruct (acl_map_update _ _ _ _ _ b Ef He) as [Hm Hks].
    rewrite bool_decide_eq_true_2 by (left; rewrite <- acl_find_map, Ef; simpl; rewrite He; by eexists).
    cbn [mbind option_bind andb].
    split; [split; simpl; [by rewrite Hks|by rewrite length_insert|congruence]|].
    split; [done|]. unfold abs. simpl. by rewrite Ei, Hm.
  - rewrite (acl_find_none _ _ _ Ef).
    destruct (Nat.leb_spec MAX_ACL_ENTRIES (length (acl_table c))) as [Hl|Hl].
    + rewrite bool_decide_eq_false_2 by (intros [[? ?]|?]; [done|lia]). by split.
    + rewrite bool_decide_eq_true_2 by (right; lia). rewrite !(@strncpy_term_short bounded_copy bounded_copy_ok) by done.
      pose proof (acl_find_keys _ _ _ Ef) as Hni. set (e := mkAcl a t _ b).
      split; [split; simpl|].
      * rewrite fmap_app. apply NoDup_app. split; [done|]. split; [|apply NoDup_singleton].
        by intros k Hin ->%list_elem_of_singleton.
      * rewrite length_app. simpl. lia.
      * congruence.
      * split; [done|]. unfold abs. simpl. by rewrite Ei, (acl_map_snoc _ e).
Qed.

(** ** Histories *)

Section history.
  Context (SANITIZE_LEVEL_HIGH : Z).

Inductive sec_op :=
| OpInit (cfg : option security_config) (log_dir : string) (log_ok : bool)
| OpRule (r : option rule_item)
| OpShutdown
| OpAdd (agent res : option string) (allow : bool).

Definition sec_step (c : daemon_security_ctx_t) (o : sec_op) : daemon_security_ctx_t :=
    match o with
    | OpInit cfg dir ok => security_init_locked SANITIZE_LEVEL_HIGH c cfg dir ok
    | OpRule r => load_one c r
    | OpShutdown => daemon_security_shutdown c
    | OpAdd a r b => (daemon_security_add_acl_rule c a r b).2
    end.

(** The same operations on the policy. *)
Definition policy_add_or (p : policy) (a t : string) (b : bool) : policy :=
    default p (policy_add p a t b).

Definition policy_rule (p : policy) (r : option rule_item) : policy :=
    match r with
    | Some (mkRule (Some a) (Some t) e) =>
        policy_add_or p a t (strcmp_eq (default "deny" e) "allow")
    | _ => p
    end.

Definition policy_step (p : policy) (o : sec_op) : policy :=
    match o with
    | OpInit cfg _ _ =>
        if p_on p then p
        else mkPolicy true (match cfg with Some k => enable_permission_cache k | None => true end) ∅
    | OpRule r => policy_rule p r
    | OpShutdown => if p_on p then mkPolicy false false ∅ else p
    | OpAdd (Some a) (Some t) b => policy_add_or p a t b
    | OpAdd _ _ _ => p
    end.

Lemma load_one_spec c r :
  sec_inv c -> sec_inv (load_one c r) /\ abs (load_one c r) = policy_rule (abs c) r.
Proof.
  intros Hi. destruct r as [[[a|] [t|] e]|]; try done. cbn [load_one policy_rule ru_agent ru_tool ru_effect].
  destruct (strcmp_eq a "" || strcmp_eq t "") eqn:E.
  - split; [done|]. unfold policy_add_or, policy_add, key_ok. by rewrite E.
  - pose proof (add_spec c a t (strcmp_eq (default "deny" e) "allow") Hi) as H.
    destruct (daemon_security_add_acl_rule c (Some a) (Some t) _) as [rc c']. destruct H as [Hi' H].
    split; [done|]. unfold policy_add_or. simpl. destruct (policy_add _ a t _); [by destruct H|].
    by destruct H as [_ ->].
Qed.

(** The whole of start-up as such steps. *)
Definition init_ops (c : daemon_security_ctx_t) (cfg : option security_config) (f : rules_file)
    (log_dir : string) (log_ok : bool) : list sec_op :=
    OpInit cfg log_dir log_ok ::
    match cfg, f with
    | Some k, Rules items =>
        if initialized c || strcmp_eq (default "" (permission_rules_path k)) "" then [] else OpRule <$> items
    | _, _ => []
    end.

Lemma load_steps items c : fold_left sec_step (OpRule <$> items) c = fold_left load_one items c.
Proof. revert c. induction items as [|r items IH]; intros c; csimpl; [done|apply IH]. Qed.

Lemma init_steps c cfg f dir ok :
  fold_left sec_step (init_ops c cfg f dir ok) c = daemon_security_init SANITIZE_LEVEL_HIGH c cfg f dir ok.
Proof.
  unfold daemon_security_init, init_ops, security_init_locked. cbn [fold_left sec_step].
  unfold security_init_locked. destruct (initialized c); [by destruct cfg, f|].
  destruct cfg as [k|]; [|done]. cbn [orb].
  destruct (strcmp_eq (default "" (permission_rules_path k)) "") eqn:Ep; [by destruct f|].
  destruct (permission_rules_path k) as [p|]; [|done]. cbn [default] in Ep.
  unfold daemon_security_load_rules_file. simpl in Ep. rewrite Ep.
  destruct f; try done. apply load_steps.
Qed.

Lemma sec_step_spec c o :
  sec_inv c -> sec_inv (sec_step c o) /\ abs (sec_step c o) = policy_step (abs c) o.
Proof.
  intros Hi. destruct o as [cfg dir ok|r| |a r b]; cbn [sec_step policy_step].
  - unfold security_init_locked, abs. simpl. destruct (initialized c) eqn:Ei; [by rewrite Ei|].
    split; [|done]. split; simpl; [constructor|unfold MAX_ACL_ENTRIES; lia|done].
  - by apply load_one_spec.
  - unfold daemon_security_shutdown, abs. simpl. destruct (initialized c) eqn:Ei; [|by rewrite Ei].
    split; [|done]. split; simpl; [constructor|unfold MAX_ACL_ENTRIES; lia|done].
  - destruct a as [a|]; [|done]. destruct r as [t|]; [|done].
    pose proof (add_spec c a t b Hi) as H. destruct (daemon_security_add_acl_rule c (Some a) (Some t) b) as [rc c'].
    destruct H as [Hi' H]. split; [exact Hi'|]. unfold policy_add_or. cbn [snd].
    destruct (policy_add _ a t b); [by destruct H|]. by destruct H as [_ ->].
Qed.

Lemma sec_trace_spec ops c p :
  sec_inv c -> abs c = p ->
  sec_inv (fold_left sec_step ops c) /\ abs (fold_left sec_step ops c) = fold_left policy_step ops p.
Proof.
  revert c p. induction ops as [|o ops IH]; intros c p Hi <-; simpl; [done|].
  destruct (sec_step_spec c o Hi) as [Hi' Ha]. by apply IH.
Qed.

Lemma ctx_zero_inv : sec_inv ctx_zero.
Proof. split; simpl; [constructor|unfold MAX_ACL_ENTRIES; lia|done]. Qed.

(** The events of a history that speak for a pair. *)
Definition item_allows (a t : string) (r : option rule_item) : Prop :=
    r = Some (mkRule (Some a) (Some t) (Some "allow"%string)).

Definition op_allows (a t : string) (o : sec_op) : Prop :=
    match o with
    | OpRule r => item_allows a t r
    | OpAdd (Some a') (Some t') true => a' = a /\ t' = t
    | _ => False
    end.

Lemma policy_add_true p a t b a' t' :
  p_rules (policy_add_or p a t b) !! (a', t') = Some true ->
  p_rules p !! (a', t') = Some true \/ a = a' /\ t = t' /\ b = true.
Proof.
  unfold policy_add_or, policy_add. destruct (_ && _ && _); simpl; [|by left].
  rewrite lookup_insert_Some. naive_solver.
Qed.

Lemma policy_rule_true r p a t :
  p_rules (policy_rule p r) !! (a, t) = Some true ->
  p_rules p !! (a, t) = Some true \/ item_allows a t r.
Proof.
  destruct r as [[[a'|] [t'|] e]|]; simpl; try (by left).
  intros [H|(-> & -> & He)]%policy_add_true; [by left|]. right. destruct e as [e|]; [|done].
  simpl in He. bool_cases. by subst.
Qed.

Lemma policy_trace_true ops p a t :
  p_rules (fold_left policy_step ops p) !! (a, t) = Some true ->
  p_rules p !! (a, t) = Some true \/ exists o, o ∈ ops /\ op_allows a t o.
Proof.
  revert p. induction ops as [|o ops IH]; intros p; simpl; [by left|].
  intros [H|(o' & Ho' & ?)]%IH; [|right; exists o'; by split; [right|]].
  destruct o as [cfg dir ok|r| |a' r b]; simpl in H.
  - destruct (p_on p); [by left|]. simpl in H. by rewrite lookup_empty in H.
  - apply policy_rule_true in H as [H|H]; [by left|]. right. eexists. split; [by left|done].
  - destruct (p_on p); [simpl in H; by rewrite lookup_empty in H|by left].
  - destruct a' as [a'|], r as [r|]; try (by left). apply policy_add_true in H as [H|(-> & -> & ->)]; [by left|].
    right. eexists. split; [by left|done].
Qed.
End history.

(** C13.  The access-control table implements its policy.  After any history of
    starts, stops, rule files and added rules, a permission check succeeds
    exactly when the policy computed by the abstract operations on a finite map
    allows the pair; the table has no duplicate key and at most 256 entries. *)
Theorem acl_refines (level : Z) (ops : list sec_op) (a t x : string) :
  let c := fold_left (sec_step level) ops ctx_zero in
  let p := fold_left policy_step ops (mkPolicy false false ∅) in
  (daemon_check_tool_permission c (Some a) (Some t) (Some x) = AIRY_SUCCESS <-> policy_allows p a t) /\
  NoDup (acl_key <$> acl_table c) /\ (length (acl_table c) <= MAX_ACL_ENTRIES)%nat.
Proof.
  cbv zeta. destruct (sec_trace_spec level ops ctx_zero (mkPolicy false false ∅) ctx_zero_inv eq_refl) as [[Hk Hs _] Ha].
  split; [|by split]. etrans; [apply check_spec|]. by rewrite Ha.
Qed.

(** Deny by default.  Whatever the history, a permission is granted only if the
    module is running with its permission checks on, and an explicit allow rule
    for exactly this agent and this tool was added or loaded. *)
Theorem permission_needs_rule (level : Z) (ops : list sec_op) (a t x : string) :
  let c := fold_left (sec_step level) ops ctx_zero in
  daemon_check_tool_permission c (Some a) (Some t) (Some x) = AIRY_SUCCESS ->
  initialized c = true /\ permission_enabled c = true /\ exists o, o ∈ ops /\ op_allows a t o.
Proof.
  cbv zeta. destruct (sec_trace_spec level ops ctx_zero (mkPolicy false false ∅) ctx_zero_inv eq_refl) as [_ Ha].
  intros Hc%check_spec. destruct Hc as (H1 & H2 & H3). split; [done|]. split; [done|].
  rewrite Ha in H3. apply policy_trace_true in H3 as [H3|H3]; [done|done].
Qed.

Lemma permission_needs_rule_witness :
  let ops := [OpInit None "" true; OpAdd (Some "coding"%string) (Some "fs_read"%string) true] in
  daemon_check_tool_permission (fold_left (sec_step 0) ops ctx_zero) (Some "coding"%string) (Some "fs_read"%string)
    (Some "execute"%string) = AIRY_SUCCESS /\
  initialized (fold_left (sec_step 0) ops ctx_zero) = true.
Proof.
  cbv zeta. split; [vm_compute; reflexivity|].
  apply (permission_needs_rule 0 [OpInit None "" true; OpAdd (Some "coding"%string) (Some "fs_read"%string) true]
           "coding" "fs_read" "execute").
  vm_compute. reflexivity.
Defined.

(** An effect other than "allow" or "deny" is not skipped: it revokes the rule
    that was there. *)
Lemma unknown_effect_denies :
  let item e := Some (mkRule (Some "coding"%string) (Some "fs_read"%string) (Some e)) in
  let c f := daemon_security_init 0 ctx_zero
               (Some (mkSecCfg 0 true false None false None (Some "rules.yaml"%string))) f "" true in
  daemon_check_tool_permission (c (Rules [item "allow"%string])) (Some "coding"%string) (Some "fs_read"%string) (Some ""%string)
  = AIRY_SUCCESS /\
  daemon_check_tool_permission (c (Rules [item "allow"%string; item "Allow"%string])) (Some "coding"%string) (Some "fs_read"%string) (Some ""%string)
  = AIRY_ERR_PERMISSION_DENIED.
Proof. split; vm_compute; reflexivity. Qed.

(** ** Sanitising, exactly *)

Fixpoint str_filter (p : ascii -> bool) (s : string) : string :=
  match s with
  | EmptyString => EmptyString
  | String c s' => if p c then String c (str_filter p s') else str_filter p s'
  end.

Lemma sanitize_loop_spec s n : sanitize_loop s n = String.substring 0 n (str_filter clean s).
Proof.
  revert n. induction s as [|c s IH]; intros n; simpl; [by destruct n|].
  destruct n as [|n]; [by destruct (if clean c then _ else _)|]. destruct (clean c); [simpl; by rewrite IH|].
  apply IH.
Qed.

Lemma substring_forallb p n s : str_forallb p s = true -> str_forallb p (String.substring 0 n s) = true.
Proof.
  revert n. induction s as [|c s IH]; intros [|n] H; simpl in *; try done. bool_cases.
  apply andb_true_iff. split; [done|by apply IH].
Qed.

Lemma str_filter_forallb p s : str_forallb p (str_filter p s) = true.
Proof. induction s as [|c s IH]; simpl; [done|]. destruct (p c) eqn:E; [simpl; by rewrite E, IH|done]. Qed.

Lemma str_filter_id p s : str_forallb p s = true -> str_filter p s = s.
Proof. induction s as [|c s IH]; simpl; [done|]. intros [-> H]%andb_true_iff. by rewrite IH. Qed.

(** The filter is exact.  With a buffer of [n + 1] bytes the result is the first
    [n] characters of the input that are printable and not a backslash, in
    their order; it fits, contains no other character, and filtering it again
    changes nothing. *)
Theorem sanitize_exact (input : string) (n : nat) :
  exists out, sanitize_string input (S n) = Some out /\
    out = String.substring 0 n (str_filter clean input) /\ (String.length out < S n)%nat /\
    str_forallb clean out = true /\ sanitize_string out (S n) = Some out.
Proof.
  unfold sanitize_string. simpl. rewrite Nat.sub_0_r, sanitize_loop_spec. eexists. split; [done|].
  assert (str_forallb clean (String.substring 0 n (str_filter clean input)) = true) as Hc.
  { apply substring_forallb, str_filter_forallb. }
  pose proof (substring_short n (str_filter clean input)) as Hl.
  split; [done|]. split; [lia|]. split; [done|].
  by rewrite sanitize_loop_spec, (str_filter_id _ _ Hc), substring_all.
Qed.

(** ** Audit *)

(** A record that does not fit loses its line end, so the next record
    continues the same line of the file. *)
Lemma audit_line_joined :
  let long := Some (String.concat "" (repeat "0123456789"%string 100)) in
  exists l, audit_line "t" "s" "o" long 0 None = l /\ String.length l = 1023%nat /\
    has_char "010" l = false.
Proof. eexists. split; [done|]. split; vm_compute; reflexivity. Qed.
