(* ===== verification/Approval.v ===== *)
(** * Approval

    The approval gate of tool_d (tool_d/src/approval: gate.c, tool_approval.c,
    safety_guard_bridge.c): whether an agent may
    execute a tool.  The static check runs the guard chain (permission, rate,
    content, sanitizing, quota, audit) or, without it, the access list alone; a
    static refusal may be overruled by a user who is asked.

    The access list, the sanitizer and the audit record are those of file
    Security.  The quota and audit services of the commons library, the clock,
    the environment variables and the allocator are a class of operations on a
    world. *)

From stdpp Require Import gmap.
From S2P Require Import Prelude Security.

Class ApprovalOS (W : Type) := {
  ap_alloc : W -> bool * W;
  ap_time_ms : W -> Z * W;
  ap_wall_ms : W -> Z * W;
  ap_getenv : string -> option string;
  ap_timestamp : W -> string;
  ap_guard_create : W -> bool * W;                   (** safety_guard_create *)
  ap_mutex_init : W -> bool * W;
  ap_check_quota : string -> W -> (Z * bool) * W;    (** code and answer *)
  ap_consume_quota : string -> W -> W;
  ap_record_audit : string -> string -> option string -> W -> W
}.

(** ** State *)

Record safety_guard_bridge_config_t := mkBc {
  enable_permission_guard : bool;
  enable_rate_limit_guard : bool;
  enable_content_filter : bool;
  enable_input_sanitization : bool;
  enable_resource_quota : bool;
  enable_audit_guard : bool;
  rate_limit_per_minute : Z;
  max_params_size : Z;
  denied_patterns : option string;
  bc_agent : option string
}.

Definition sgb_cfg_defaults : safety_guard_bridge_config_t :=
  mkBc true true true true true true 0 0 None (Some "unknown"%string).

Record bridge := mkBridge {
  b_cfg : safety_guard_bridge_config_t;
  guard_ctx : bool;
  b_agent : string;
  rate_limit_window_start : Z;
  rate_limit_call_count : Z;
  b_total : Z;
  b_denied : Z;
  b_limited : Z
}.

Record safety_guard_bridge_result_t := mkBr {
  permission_passed : bool;
  rate_limit_passed : bool;
  content_filter_passed : bool;
  input_sanitized : bool;
  resource_quota_passed : bool;
  audit_recorded : bool;
  denial_reason : string;
  sanitized_params : string;
  guard_chain_length : Z;
  guards_executed : Z
}.

Definition br_zero : safety_guard_bridge_result_t := mkBr false false false false false false "" "" 0 0.

Inductive tool_approval_decision := TOOL_APPROVAL_DENIED | TOOL_APPROVAL_ALLOWED | TOOL_APPROVAL_SANITIZED.

Record tool_approval_detail_t := mkDetail {
  decision : tool_approval_decision;
  dt_permission : bool;
  dt_guard : bool;
  dt_sanitized : bool;
  dt_reason : string;
  dt_params : string
}.

Definition detail_zero : tool_approval_detail_t := mkDetail TOOL_APPROVAL_DENIED false false false "" "".

(** [cfg_agent] is the configuration's pointer, [ctx_agent] the copy. *)
Record tool_approval_ctx := mkAp {
  cfg_agent : option string;
  enable_safety_guard_chain : bool;
  enable_audit_logging : bool;
  ctx_agent : string;
  total_checks : Z;
  denied_count : Z;
  sanitized_count : Z;
  ap_bridge_of : option bridge
}.

(** Everything a check reads and writes: the access list, the context, the
    lines of the audit file, the world. *)
Record ap_state (W : Type) := mkS {
  sec : daemon_security_ctx_t;
  ctx : tool_approval_ctx;
  audit_file : list string;
  world : W
}.
Arguments mkS {W}. Arguments sec {W}. Arguments ctx {W}. Arguments audit_file {W}. Arguments world {W}.

(** ** The guard chain *)

(** [sgb_chk_t] without the bridge. *)
Record sgb_chk_t := mkChk {
  ck_agent : string;
  ck_tool : string;
  ck_params : option string;
  ck_res : safety_guard_bridge_result_t;
  chain_len : Z;
  executed : Z
}.

Definition REASON_SIZE : nat := 256.
Definition PARAMS_SIZE : nat := 4096.

Definition set_res (r : safety_guard_bridge_result_t) (c : sgb_chk_t) : sgb_chk_t :=
  mkChk (ck_agent c) (ck_tool c) (ck_params c) r (chain_len c) (executed c).

Definition enter_guard (c : sgb_chk_t) : sgb_chk_t :=
  mkChk (ck_agent c) (ck_tool c) (ck_params c) (ck_res c) (chain_len c + 1) (executed c).

Definition set_reason (m : string) (r : safety_guard_bridge_result_t) : safety_guard_bridge_result_t :=
  mkBr (permission_passed r) (rate_limit_passed r) (content_filter_passed r) (input_sanitized r)
    (resource_quota_passed r) (audit_recorded r) m (sanitized_params r) (guard_chain_length r) (guards_executed r).

(** [sgb_pass] with the member of the guard. *)
Definition sgb_pass (mark : safety_guard_bridge_result_t -> safety_guard_bridge_result_t) (c : sgb_chk_t) : sgb_chk_t :=
  mkChk (ck_agent c) (ck_tool c) (ck_params c) (mark (ck_res c)) (chain_len c) (executed c + 1).

Definition mark_perm (r : safety_guard_bridge_result_t) : safety_guard_bridge_result_t :=
  mkBr true (rate_limit_passed r) (content_filter_passed r) (input_sanitized r) (resource_quota_passed r)
    (audit_recorded r) (denial_reason r) (sanitized_params r) (guard_chain_length r) (guards_executed r).
Definition mark_rate (r : safety_guard_bridge_result_t) : safety_guard_bridge_result_t :=
  mkBr (permission_passed r) true (content_filter_passed r) (input_sanitized r) (resource_quota_passed r)
    (audit_recorded r) (denial_reason r) (sanitized_params r) (guard_chain_length r) (guards_executed r).
Definition mark_filter (r : safety_guard_bridge_result_t) : safety_guard_bridge_result_t :=
  mkBr (permission_passed r) (rate_limit_passed r) true (input_sanitized r) (resource_quota_passed r)
    (audit_recorded r) (denial_reason r) (sanitized_params r) (guard_chain_length r) (guards_executed r).
Definition mark_input (s : string) (r : safety_guard_bridge_result_t) : safety_guard_bridge_result_t :=
  mkBr (permission_passed r) (rate_limit_passed r) (content_filter_passed r) true (resource_quota_passed r)
    (audit_recorded r) (denial_reason r) s (guard_chain_length r) (guards_executed r).
Definition mark_quota (r : safety_guard_bridge_result_t) : safety_guard_bridge_result_t :=
  mkBr (permission_passed r) (rate_limit_passed r) (content_filter_passed r) (input_sanitized r) true
    (audit_recorded r) (denial_reason r) (sanitized_params r) (guard_chain_length r) (guards_executed r).
Definition mark_audit (r : safety_guard_bridge_result_t) : safety_guard_bridge_result_t :=
  mkBr (permission_passed r) (rate_limit_passed r) (content_filter_passed r) (input_sanitized r)
    (resource_quota_passed r) true (denial_reason r) (sanitized_params r) (guard_chain_length r) (guards_executed r).

Section chain.
  Context {W : Type} `{ApprovalOS W}.

Definition guard := bridge -> sgb_chk_t -> ap_state W -> airy_rc * bridge * sgb_chk_t * ap_state W.

Definition set_world (w : W) (s : ap_state W) : ap_state W := mkS (sec s) (ctx s) (audit_file s) w.

Definition bridge_denied (b : bridge) : bridge :=
    mkBridge (b_cfg b) (guard_ctx b) (b_agent b) (rate_limit_window_start b) (rate_limit_call_count b) (b_total b)
      (u64 (b_denied b + 1)) (b_limited b).

Definition sgb_deny (code : airy_rc) (msg : string) (b : bridge) (c : sgb_chk_t) (s : ap_state W)
      : airy_rc * bridge * sgb_chk_t * ap_state W :=
    (code, bridge_denied b, set_res (set_reason (snprintf_s REASON_SIZE msg) (ck_res c)) c, s).

Definition sgb_perm : guard := fun b c s =>
    if negb (enable_permission_guard (b_cfg b)) then (AIRY_SUCCESS, b, c, s)
    else
      let c := enter_guard c in
      if bool_decide (daemon_check_tool_permission (sec s) (Some (ck_agent c)) (Some (ck_tool c)) (Some "execute"%string)
                      = AIRY_SUCCESS)
      then (AIRY_SUCCESS, b, sgb_pass mark_perm c, s)
      else sgb_deny AIRY_ERR_PERMISSION_DENIED
             ("Permission denied: agent '" +:+ ck_agent c +:+ "' cannot execute '" +:+ ck_tool c +:+ "'") b c s.

(** The window and the count after a call at [now]. *)
Definition rate_window (b : bridge) (now : Z) : Z * Z :=
    let start := if rate_limit_window_start b =? 0 then now else rate_limit_window_start b in
    if 60000 <=? u64 (now - start) then (now, 1) else (start, u64 (rate_limit_call_count b + 1)).

Definition sgb_rate : guard := fun b c s =>
    if negb (enable_rate_limit_guard (b_cfg b)) then (AIRY_SUCCESS, b, c, s)
    else if rate_limit_per_minute (b_cfg b) =? 0 then (AIRY_SUCCESS, b, set_res (mark_rate (ck_res c)) c, s)
    else
      let c := enter_guard c in
      let '(now, w) := ap_time_ms (world s) in
      let '(start, calls) := rate_window b now in
      let s := set_world w s in
      let ok := calls <=? rate_limit_per_minute (b_cfg b) in
      let b := mkBridge (b_cfg b) (guard_ctx b) (b_agent b) start calls (b_total b) (b_denied b)
                 (if ok then b_limited b else u64 (b_limited b + 1)) in
      if ok then (AIRY_SUCCESS, b, sgb_pass mark_rate c, s)
      else sgb_deny AIRY_ERR_BUSY
             ("Rate limit exceeded: " +:+ print_u (rate_limit_per_minute (b_cfg b)) +:+ "/min for tool '" +:+ ck_tool c
              +:+ "' (" +:+ print_u calls +:+ " calls)") b c s.

(** [strtok_r (s, ",")] *)
Fixpoint comma_split (s cur : string) : list string :=
    match s with
    | EmptyString => if strcmp_eq cur "" then [] else [cur]
    | String c s' =>
        if Ascii.eqb c "," then (if strcmp_eq cur "" then comma_split s' "" else cur :: comma_split s' "")
        else comma_split s' (cur +:+ String c "")
    end.

Definition is_sp (c : ascii) : bool := Ascii.eqb c " ".

(** The words of the list, without leading spaces, that are not empty. *)
Definition patterns (denied : string) : list string :=
    filter (fun t => strcmp_eq t "" = false) (map (skip_while is_sp) (comma_split denied "")).

Definition occurs (params t : string) : bool := match strstr t params with Some _ => true | None => false end.

(** The first pattern that occurs in the parameters. *)
Definition sgb_scan (denied params : string) : option string := find (occurs params) (patterns denied).

Definition sgb_filter : guard := fun b c s =>
    match ck_params c with
    | None => (AIRY_SUCCESS, b, c, s)
    | Some params =>
        if negb (enable_content_filter (b_cfg b)) then (AIRY_SUCCESS, b, c, s)
        else
          let c := enter_guard c in
          let '(hit, w) := match denied_patterns (b_cfg b) with
                           | Some d => if strcmp_eq d "" then (None, world s)
                                       else let '(ok, w) := ap_alloc (world s) in
                                            (if ok : bool then sgb_scan d params else None, w)
                           | None => (None, world s)
                           end in
          let s := set_world w s in
          match hit with
          | Some tok => sgb_deny AIRY_ERR_SEC_VIOLATION
                          ("Content filter: denied pattern '" +:+ tok +:+ "' found in tool '" +:+ ck_tool c +:+ "' params")
                          b c s
          | None =>
              if (0 <? max_params_size (b_cfg b)) && (max_params_size (b_cfg b) <? strlen params)
              then sgb_deny AIRY_ERR_SEC_VIOLATION
                     ("Content filter: params size " +:+ print_u (strlen params) +:+ " exceeds max " +:+
                      print_u (max_params_size (b_cfg b)) +:+ " for tool '" +:+ ck_tool c +:+ "'") b c s
              else (AIRY_SUCCESS, b, sgb_pass mark_filter c, s)
          end
    end.

Definition sgb_input : guard := fun b c s =>
    match ck_params c with
    | None => (AIRY_SUCCESS, b, c, s)
    | Some params =>
        if negb (enable_input_sanitization (b_cfg b)) then (AIRY_SUCCESS, b, c, s)
        else
          let c := enter_guard c in
          let '(rc, _, san) := daemon_sanitize_tool_params (Some (ck_tool c)) (Some params) (Some 128%nat)
                                 (Some PARAMS_SIZE) in
          if bool_decide (rc = AIRY_SUCCESS) then
            let san := default "" san in
            (AIRY_SUCCESS, b,
             sgb_pass (fun r => mark_input (if strcmp_eq params san then sanitized_params r
                                            else snprintf_s PARAMS_SIZE san) r) c, s)
          else (AIRY_SUCCESS, b, c, s)
    end.

Definition sgb_quota : guard := fun b c s =>
    if negb (enable_resource_quota (b_cfg b)) || negb (guard_ctx b) then (AIRY_SUCCESS, b, c, s)
    else
      let c := enter_guard c in
      let '((ret, allowed), w) := ap_check_quota (ck_tool c) (world s) in
      if (ret =? 0) && negb allowed
      then sgb_deny AIRY_ERR_SEC_QUOTA ("Resource quota exceeded for tool '" +:+ ck_tool c +:+ "'") b c (set_world w s)
      else
        let w := if (ret =? 0) && allowed then ap_consume_quota (ck_tool c) w else w in
        (AIRY_SUCCESS, b, sgb_pass mark_quota c, set_world w s).

(** A line for the audit file. *)
Definition audit (op : string) (tool : string) (result : Z) (agent : string) (s : ap_state W) : ap_state W :=
    let '(_, line) := daemon_audit_log_event (sec s) (ap_timestamp (world s)) (Some "tool_d"%string) (Some op) (Some tool)
                        result (Some agent) in
    mkS (sec s) (ctx s) (audit_file s ++ option_list line) (world s).

Definition sgb_audit : guard := fun b c s =>
    if negb (enable_audit_guard (b_cfg b)) then (AIRY_SUCCESS, b, c, s)
    else
      let c := enter_guard c in
      let s := if guard_ctx b then set_world (ap_record_audit (ck_tool c) (ck_agent c) (ck_params c) (world s)) s else s in
      (AIRY_SUCCESS, b, sgb_pass mark_audit c, audit "tool_execute_safety_guard" (ck_tool c) 0 (ck_agent c) s).

Definition stages : list guard := [sgb_perm; sgb_rate; sgb_filter; sgb_input; sgb_quota; sgb_audit].

Fixpoint run_stages (gs : list guard) (b : bridge) (c : sgb_chk_t) (s : ap_state W)
      : airy_rc * bridge * sgb_chk_t * ap_state W :=
    match gs with
    | [] => (AIRY_SUCCESS, b, c, s)
    | g :: gs' =>
        let '(rc, b, c, s) := g b c s in
        if bool_decide (rc = AIRY_SUCCESS) then run_stages gs' b c s else (rc, b, c, s)
    end.

(** [name] is the name of the tool, which may be missing. *)
Definition safety_guard_bridge_check_for_agent (b : bridge) (agent : option string) (name params : option string)
      (s : ap_state W) : airy_rc * bridge * safety_guard_bridge_result_t * ap_state W :=
    let subject := match agent with Some a => if strcmp_eq a "" then b_agent b else a | None => b_agent b end in
    let b := mkBridge (b_cfg b) (guard_ctx b) (b_agent b) (rate_limit_window_start b) (rate_limit_call_count b)
               (u64 (b_total b + 1)) (b_denied b) (b_limited b) in
    let '(rc, b, c, s) := run_stages stages b (mkChk subject (default "unknown"%string name) params br_zero 0 0) s in
    let r := ck_res c in
    (rc, b, mkBr (permission_passed r) (rate_limit_passed r) (content_filter_passed r) (input_sanitized r)
              (resource_quota_passed r) (audit_recorded r) (denial_reason r) (sanitized_params r) (chain_len c) (executed c), s).
End chain.

(** ** The static check *)

Section approval.
  Context {W : Type} `{ApprovalOS W}.
  (** The sizes of two members of a structure of the commons library. *)
  Context (DETAIL_REASON DETAIL_PARAMS : nat).

Definition with_ctx (f : tool_approval_ctx -> tool_approval_ctx) (s : ap_state W) : ap_state W :=
    mkS (sec s) (f (ctx s)) (audit_file s) (world s).

Definition count_check (c : tool_approval_ctx) : tool_approval_ctx :=
    mkAp (cfg_agent c) (enable_safety_guard_chain c) (enable_audit_logging c) (ctx_agent c) (u64 (total_checks c + 1))
      (denied_count c) (sanitized_count c) (ap_bridge_of c).
Definition count_denied (c : tool_approval_ctx) : tool_approval_ctx :=
    mkAp (cfg_agent c) (enable_safety_guard_chain c) (enable_audit_logging c) (ctx_agent c) (total_checks c)
      (u64 (denied_count c + 1)) (sanitized_count c) (ap_bridge_of c).
Definition count_sanitized (c : tool_approval_ctx) : tool_approval_ctx :=
    mkAp (cfg_agent c) (enable_safety_guard_chain c) (enable_audit_logging c) (ctx_agent c) (total_checks c)
      (denied_count c) (u64 (sanitized_count c + 1)) (ap_bridge_of c).
Definition set_bridge (b : option bridge) (c : tool_approval_ctx) : tool_approval_ctx :=
    mkAp (cfg_agent c) (enable_safety_guard_chain c) (enable_audit_logging c) (ctx_agent c) (total_checks c)
      (denied_count c) (sanitized_count c) b.

(** The sanitized parameters, and the count when they differ. *)
Definition tool_approval_sanitize_params (tool params : string) (s : ap_state W) : airy_rc * string * ap_state W :=
    let '(rc, _, san) := daemon_sanitize_tool_params (Some tool) (Some params) (Some 256%nat) (Some PARAMS_SIZE) in
    let san := default "" san in
    (rc, san, if bool_decide (rc = AIRY_SUCCESS) && negb (strcmp_eq params san) then with_ctx count_sanitized s else s).

Definition ap_take_san (d : tool_approval_detail_t) (ok : bool) (san : string) : tool_approval_detail_t :=
    if ok && negb (strcmp_eq san "")
    then mkDetail (decision d) (dt_permission d) (dt_guard d) (dt_sanitized d) (dt_reason d)
           (snprintf_s DETAIL_PARAMS san)
    else d.

Definition ap_deny (agent tool : string) (s : ap_state W) : airy_rc * ap_state W :=
    let s := with_ctx count_denied s in
    (AIRY_ERR_PERMISSION_DENIED,
     if enable_audit_logging (ctx s) then audit "tool_execute_denied" tool 0 agent s else s).

Definition ap_sanitize (tool : string) (params : option string) (d : tool_approval_detail_t) (s : ap_state W)
      : tool_approval_detail_t * ap_state W :=
    match params with
    | None => (d, s)
    | Some params =>
        if strcmp_eq params "" then (d, s)
        else
          let '(rc, san, s) := tool_approval_sanitize_params tool params s in
          if negb (bool_decide (rc = AIRY_SUCCESS)) || strcmp_eq params san then (d, s)
          else (ap_take_san (mkDetail (decision d) (dt_permission d) (dt_guard d) true (dt_reason d) (dt_params d)) true san, s)
    end.

Definition ap_bridge_deny (d : tool_approval_detail_t) (br : safety_guard_bridge_result_t) : tool_approval_detail_t :=
    ap_take_san
      (mkDetail (decision d) (permission_passed br) false (input_sanitized br)
         (snprintf_s DETAIL_REASON
            (if strcmp_eq (denial_reason br) "" then "Denied by SafetyGuard chain" else denial_reason br)) (dt_params d))
      (input_sanitized br) (sanitized_params br).

Definition ap_bridge_allow (d : tool_approval_detail_t) (br : safety_guard_bridge_result_t) (tool : string)
      : tool_approval_detail_t :=
    let d := ap_take_san
               (mkDetail (if input_sanitized br then TOOL_APPROVAL_SANITIZED else TOOL_APPROVAL_ALLOWED)
                  (permission_passed br) true (input_sanitized br) (dt_reason d) (dt_params d))
               (input_sanitized br) (sanitized_params br) in
    mkDetail (decision d) (dt_permission d) (dt_guard d) (dt_sanitized d)
      (snprintf_s DETAIL_REASON
         ("Approved by SafetyGuard chain (" +:+ print_d (guards_executed br) +:+ "/" +:+ print_d (guard_chain_length br)
          +:+ " guards) for tool '" +:+ tool +:+ "'")) (dt_params d).

Definition ap_bridge (b : bridge) (agent : string) (name params : option string) (tool : string)
      (d : tool_approval_detail_t) (s : ap_state W) : airy_rc * tool_approval_detail_t * ap_state W :=
    let '(rc, b, br, s) := safety_guard_bridge_check_for_agent b (Some agent) name params s in
    let s := with_ctx (set_bridge (Some b)) s in
    if bool_decide (rc = AIRY_SUCCESS) then (AIRY_SUCCESS, ap_bridge_allow d br tool, s)
    else let '(rc, s) := ap_deny agent tool s in (rc, ap_bridge_deny d br, s).

Definition ap_local (agent tool : string) (params : option string) (d : tool_approval_detail_t) (s : ap_state W)
      : airy_rc * tool_approval_detail_t * ap_state W :=
    let '(d, s) := ap_sanitize tool params d s in
    let perm := daemon_check_tool_permission (sec s) (Some agent) (Some tool) (Some "execute"%string) in
    if negb (bool_decide (perm = AIRY_SUCCESS)) then
      let d := mkDetail (decision d) false (dt_guard d) (dt_sanitized d)
                 (snprintf_s DETAIL_REASON
                    ("Permission denied: agent '" +:+ agent +:+ "' cannot execute tool '" +:+ tool +:+ "'")) (dt_params d) in
      let '(rc, s) := ap_deny agent tool s in (rc, d, s)
    else
      let s := if enable_audit_logging (ctx s) then audit "tool_execute" tool 1 agent s else s in
      (AIRY_SUCCESS,
       mkDetail (if dt_sanitized d then TOOL_APPROVAL_SANITIZED else TOOL_APPROVAL_ALLOWED) true
         (if enable_safety_guard_chain (ctx s) then true else dt_guard d) (dt_sanitized d)
         (snprintf_s DETAIL_REASON
            ((if dt_sanitized d then "Approved with sanitized params for tool '" else "Approved for tool '") +:+ tool +:+ "'"))
         (dt_params d), s).

Definition approval_check_as (subject : string) (name params : option string) (s : ap_state W)
      : airy_rc * tool_approval_detail_t * ap_state W :=
    let s := with_ctx count_check s in
    let tool := default "unknown"%string name in
    match ap_bridge_of (ctx s) with
    | Some b => ap_bridge b subject name params tool detail_zero s
    | None => ap_local subject tool params detail_zero s
    end.

Definition tool_approval_check (name params : option string) (s : ap_state W)
      : airy_rc * tool_approval_detail_t * ap_state W :=
    approval_check_as (default "unknown"%string (cfg_agent (ctx s))) name params s.

Definition tool_approval_check_for_agent (agent : option string) (name params : option string) (s : ap_state W)
      : airy_rc * tool_approval_detail_t * ap_state W :=
    match agent with
    | Some a => if strcmp_eq a "" then tool_approval_check name params s else approval_check_as a name params s
    | None => tool_approval_check name params s
    end.

(** ** The gate *)

Inductive airy_approval_outcome_t := AIRY_APPROVAL_DENIED | AIRY_APPROVAL_ALLOWED | AIRY_APPROVAL_ALWAYS.

Inductive interactive_step_t := INTERACTIVE_CONTINUE | INTERACTIVE_ALLOWED | INTERACTIVE_DENIED.

Inductive approval_gate_verdict_t := APPROVAL_GATE_DENIED | APPROVAL_GATE_ALLOWED.

(** The answer of the user to a request (tool, agent, parameters); file
    Interactive says which answers the request manager gives. *)
  Context (block : string -> string -> option string -> W -> airy_approval_outcome_t * W).

(** [enabled]: the interactive manager exists and is enabled. *)
Definition ask_via_interactive (enabled : bool) (agent : option string) (name params : option string)
      (s : ap_state W) : interactive_step_t * option string * ap_state W :=
    if negb enabled then (INTERACTIVE_CONTINUE, None, s)
    else
      let agent := match agent with Some a => a | None => ctx_agent (ctx s) end in
      let '(outcome, w) := block (default "?"%string name) agent params (world s) in
      let s := set_world w s in
      match outcome with
      | AIRY_APPROVAL_ALLOWED => (INTERACTIVE_ALLOWED, None, s)
      | AIRY_APPROVAL_ALWAYS =>
          (INTERACTIVE_ALLOWED, None,
           match name with
           | Some name => mkS (daemon_security_add_acl_rule (sec s) (Some agent) (Some name) true).2 (ctx s) (audit_file s) (world s)
           | None => s
           end)
      | AIRY_APPROVAL_DENIED =>
          let '(ok, w) := ap_alloc (world s) in
          (INTERACTIVE_DENIED, if ok : bool then Some "User denied tool execution"%string else None, set_world w s)
      end.

(** [meta]: the tool's description, [Some name] with the name it has. *)
Definition gate_ask (enabled : bool) (agent : option string) (meta : option (option string)) (params : option string)
      (s : ap_state W) : approval_gate_verdict_t * option string * ap_state W :=
    match meta with
    | None => (APPROVAL_GATE_DENIED, None, s)
    | Some name =>
        let '(rc, detail, s) := tool_approval_check_for_agent agent name params s in
        if bool_decide (rc = AIRY_SUCCESS) then (APPROVAL_GATE_ALLOWED, None, s)
        else
          let '(step, reason, s) := ask_via_interactive enabled agent name params s in
          match step with
          | INTERACTIVE_ALLOWED => (APPROVAL_GATE_ALLOWED, reason, s)
          | INTERACTIVE_DENIED => (APPROVAL_GATE_DENIED, reason, s)
          | INTERACTIVE_CONTINUE =>
              if strcmp_eq (dt_reason detail) "" then (APPROVAL_GATE_DENIED, reason, s)
              else let '(ok, w) := ap_alloc (world s) in
                   (APPROVAL_GATE_DENIED, if ok : bool then Some (dt_reason detail) else None, set_world w s)
          end
    end.

(** ** Creation *)

Definition safety_guard_bridge_create (cfg : safety_guard_bridge_config_t) (w : W) : option bridge * W :=
    let '(ok, w) := ap_alloc w in
    if negb ok then (None, w)
    else
      let '(g, w) := ap_guard_create w in
      let '(m, w) := ap_mutex_init w in
      (if m : bool
       then Some (mkBridge cfg g (snprintf_s 128 (default "unknown"%string (bc_agent cfg))) 0 0 0 0 0)
       else None, w).

(** [cfg]: agent, guard chain, audit. *)
Definition tool_approval_create (cfg : option (option string * bool * bool)) (w : W) : option tool_approval_ctx * W :=
    let '(ok, w) := ap_alloc w in
    (if negb ok then None
     else match cfg with
          | Some (agent, chain, log) =>
              Some (mkAp agent chain log (match agent with Some a => snprintf_s 128 a | None => ""%string end) 0 0 0 None)
          | None => Some (mkAp (Some "unknown"%string) false true "unknown" 0 0 0 None)
          end, w).

Definition gate_attach_bridge (c : tool_approval_ctx) (w : W) : tool_approval_ctx * W :=
    let d := sgb_cfg_defaults in
    let cfg := mkBc (enable_permission_guard d) (enable_rate_limit_guard d) (enable_content_filter d)
                 (enable_input_sanitization d) (enable_resource_quota d) (enable_audit_guard d)
                 (rate_limit_per_minute d) (max_params_size d) (denied_patterns d) (Some "tool_d"%string) in
    let '(b, w) := safety_guard_bridge_create cfg w in (set_bridge b c, w).

(** The context of the gate; the request manager is created separately. *)
Definition gate_create (cfg : option (option string * bool * bool)) (w : W) : option tool_approval_ctx * W :=
    match cfg with
    | None => (None, w)
    | Some _ =>
        let '(ok, w) := ap_alloc w in
        if negb ok then (None, w)
        else
          let '(c, w) := tool_approval_create cfg w in
          match c with
          | None => (None, w)
          | Some c => let '(c, w) := gate_attach_bridge c w in (Some c, w)
          end
    end.

Definition gate_create_default (w : W) : option tool_approval_ctx * W :=
    gate_create (Some (Some "tool_d"%string, true, true)) w.
End approval.

(** ** What the guards promise *)

(** Text without a comma. *)
Definition comma_free (s : string) : Prop := str_forallb (fun a => negb (Ascii.eqb a ",")) s = true.

(** A denied word: the list is cut at its commas, and what is left of a part
    without its leading spaces is a word, unless it is empty. *)
Definition denied_word (d t : string) : Prop :=
  exists parts spaces,
    d = String.concat "," parts /\ Forall comma_free parts /\ (spaces +:+ t)%string ∈ parts /\
    str_forallb (fun a => Ascii.eqb a " ") spaces = true /\ t <> ""%string /\
    (forall r, t <> String " " r).

Definition substring_of (t p : string) : Prop := exists a b, p = (a +:+ t +:+ b)%string.

(** The calls counted before [now] in its minute: those of the window, unless it
    was opened 60 seconds ago or more. *)
Definition used_before (b : bridge) (now : Z) : Z :=
  if bool_decide (rate_limit_window_start b <> 0 /\ 60000 <= (now - rate_limit_window_start b) mod 2 ^ 64)
  then 0 else rate_limit_call_count b.

Lemma rate_window_used b now : (rate_window b now).2 = (used_before b now + 1) mod 2 ^ 64.
Proof.
  unfold rate_window, used_before. change (2 ^ 64) with 18446744073709551616. destruct (rate_limit_window_start b =? 0) eqn:E.
  - rewrite bool_decide_false by lia. by rewrite Z.sub_diag.
  - unfold u64. destruct (60000 <=? _) eqn:E2; case_bool_decide as Hd; cbn [snd]; try done; exfalso; lia.
Qed.

Lemma occurs_spec p t : occurs p t = true <-> substring_of t p.
Proof.
  unfold occurs, substring_of. induction p as [|c p IH]; cbn [strstr];
    (destruct (strip_prefix t _) as [r|] eqn:E;
      [apply strip_prefix_spec in E; split; [intros _; by exists ""%string, r|done]|]).
  - split; [done|]. intros (a & b & Hp). destruct a; [|done].
    apply (strip_prefix_spec t) in Hp. congruence.
  - rewrite IH. split.
    + intros (a & b & ->). by exists (String c a), b.
    + intros (a & b & Hp). destruct a as [|c' a]; [apply (strip_prefix_spec t) in Hp; congruence|].
      injection Hp as -> ->. by exists a, b.
Qed.

Lemma split_part x : forall r cur, comma_free x -> comma_split (x +:+ r) cur = comma_split r (cur +:+ x).
Proof.
  unfold comma_free. induction x as [|c x IH]; intros r cur Hx; [by rewrite str_app_nil_r|].
  cbn [str_forallb] in Hx. apply andb_true_iff in Hx as [Hc Hx]. rewrite str_app_cons. cbn [comma_split].
  destruct (Ascii.eqb c ","); [done|]. rewrite (IH r _ Hx). by rewrite str_app_assoc.
Qed.

Lemma split_commas parts : forall x, comma_free x -> Forall comma_free parts ->
  comma_split (String.concat "," (x :: parts)) "" = filter (fun t => t <> ""%string) (x :: parts).
Proof.
  induction parts as [|y parts IH]; intros x Hx Hp.
  - change (String.concat "," [x]) with x. rewrite <- (str_app_nil_r x) at 1. rewrite (split_part x "" "" Hx). cbn [comma_split].
    change ("" +:+ x)%string with x. rewrite filter_cons, filter_nil. destruct (strcmp_eq x "") eqn:E; bool_cases; case_decide; congruence.
  - apply Forall_cons in Hp as [Hy Hp].
    change (String.concat "," (x :: y :: parts)) with (x +:+ (String "," (String.concat "," (y :: parts))))%string.
    rewrite (split_part x _ "" Hx). change ("" +:+ x)%string with x. cbn [comma_split Ascii.eqb Bool.eqb].
    rewrite (IH y Hy Hp). rewrite (filter_cons _ x). destruct (strcmp_eq x "") eqn:E; bool_cases; case_decide; congruence.
Qed.

(** Every list has its parts. *)
Lemma parts_exist d : exists x parts, d = String.concat "," (x :: parts) /\ comma_free x /\ Forall comma_free parts.
Proof.
  induction d as [|c d (x & parts & -> & Hx & Hp)]; [by exists ""%string, []|].
  destruct (Ascii.eqb_spec c ",") as [->|Hc].
  - exists ""%string, (x :: parts). by rewrite Forall_cons.
  - exists (String c x), parts. split_and!; [by destruct parts| |done].
    unfold comma_free in *. cbn [str_forallb]. rewrite Hx. apply Ascii.eqb_neq in Hc. by rewrite Hc.
Qed.

(** The spaces at the front of a text. *)
Lemma skip_spaces x : exists sp, x = (sp +:+ skip_while is_sp x)%string /\
  str_forallb (fun a => Ascii.eqb a " ") sp = true /\ forall r, skip_while is_sp x <> String " " r.
Proof. destruct (skip_while_split is_sp x) as (sp & E & Hs & Hr). exists sp. split_and!; [done|done|]. by intros r ?%Hr. Qed.

Lemma skip_all sp t : str_forallb (fun a => Ascii.eqb a " ") sp = true -> (forall r, t <> String " " r) ->
  skip_while is_sp (sp +:+ t) = t.
Proof.
  intros Hs Ht. induction sp as [|c sp IH].
  - destruct t as [|c t]; [done|]. change ("" +:+ String c t)%string with (String c t). cbn [skip_while]. unfold is_sp at 1. destruct (Ascii.eqb_spec c " ") as [->|]; [by destruct (Ht t)|done].
  - cbn [str_forallb] in Hs. apply andb_true_iff in Hs as [Hc Hs]. rewrite str_app_cons. cbn [skip_while]. unfold is_sp at 1. rewrite Hc. by apply IH.
Qed.

Lemma patterns_spec d t : t ∈ patterns d <-> denied_word d t.
Proof.
  unfold patterns. rewrite list_elem_of_filter, strcmp_eq_false, list_elem_of_fmap. split.
  - intros (Hne & x & -> & Hx). destruct (parts_exist d) as (y & parts & -> & Hy & Hp).
    rewrite (split_commas parts y Hy Hp) in Hx. apply list_elem_of_filter in Hx as [_ Hx].
    destruct (skip_spaces x) as (sp & Ex & Hs & Hr). exists (y :: parts), sp. rewrite <- Ex. rewrite Forall_cons. done.
  - intros (parts & sp & -> & Hp & Hx & Hs & Hne & Hr). split; [done|]. exists (sp +:+ t)%string.
    split; [by rewrite skip_all|]. destruct parts as [|y parts]; [by apply elem_of_nil in Hx|].
    apply Forall_cons in Hp as [Hy Hp]. rewrite (split_commas parts y Hy Hp). apply list_elem_of_filter. split; [|done].
    destruct sp; [done|done].
Qed.

(** ** What the chain checks *)

Section exact.
  Context {W : Type} `{ApprovalOS W}.

(** The worlds in which the later guards ask. *)
Definition rate_on (b : bridge) : bool := enable_rate_limit_guard (b_cfg b) && negb (rate_limit_per_minute (b_cfg b) =? 0).

Definition after_rate (b : bridge) (w : W) : W := if rate_on b then (ap_time_ms w).2 else w.

Definition scan_list (b : bridge) (params : option string) : option (string * string) :=
    match params, denied_patterns (b_cfg b) with
    | Some p, Some d => if enable_content_filter (b_cfg b) && negb (strcmp_eq d "") then Some (d, p) else None
    | _, _ => None
    end.

Definition after_filter (b : bridge) (params : option string) (w : W) : W :=
    match scan_list b params with Some _ => (ap_alloc w).2 | None => w end.

Definition perm_ok (b : bridge) (c : daemon_security_ctx_t) (agent tool : string) : Prop :=
    enable_permission_guard (b_cfg b) = true -> policy_allows (abs c) agent tool.

Definition rate_ok (b : bridge) (w : W) : Prop :=
    rate_on b = true -> (used_before b (ap_time_ms w).1 + 1) mod 2 ^ 64 <= rate_limit_per_minute (b_cfg b).

(** The words are tested only when the copy of the list is allocated: without
    memory the filter lets every text pass. *)
Definition filter_ok (b : bridge) (params : option string) (w : W) : Prop :=
    (forall d p, scan_list b params = Some (d, p) -> (ap_alloc w).1 = true ->
                 forall t, denied_word d t -> ~ substring_of t p) /\
    (forall p, params = Some p -> enable_content_filter (b_cfg b) = true -> 0 < max_params_size (b_cfg b) ->
               strlen p <= max_params_size (b_cfg b)).

(** The quota is judged only when the service answers: with an error code the
    guard lets the call pass. *)
Definition quota_ok (b : bridge) (tool : string) (w : W) : Prop :=
    enable_resource_quota (b_cfg b) = true -> guard_ctx b = true ->
    (ap_check_quota tool w).1.1 = 0 -> (ap_check_quota tool w).1.2 = true.

Definition chain_ok (b : bridge) (agent tool : string) (params : option string) (s : ap_state W) : Prop :=
    let w1 := after_rate b (world s) in
    let w2 := after_filter b params w1 in
    perm_ok b (sec s) agent tool /\ rate_ok b (world s) /\ filter_ok b params w1 /\ quota_ok b tool w2.

(** One guard: it refuses with an error code or passes the request on; only the
    last ones change more than the bridge's counters and the world. *)
Definition kept (b b' : bridge) (c c' : sgb_chk_t) (s s' : ap_state W) : Prop :=
    b_cfg b' = b_cfg b /\ guard_ctx b' = guard_ctx b /\ b_agent b' = b_agent b /\
    ck_agent c' = ck_agent c /\ ck_tool c' = ck_tool c /\ ck_params c' = ck_params c /\
    sec s' = sec s /\ ctx s' = ctx s.

Lemma kept_trans b1 b2 b3 c1 c2 c3 s1 s2 s3 :
  kept b1 b2 c1 c2 s1 s2 -> kept b2 b3 c2 c3 s2 s3 -> kept b1 b3 c1 c3 s1 s3.
Proof. unfold kept. intuition congruence. Qed.

Lemma perm_spec b c s :
  let '(rc, b', c', s') := sgb_perm b c s in
  kept b b' c c' s s' /\ world s' = world s /\
  (rc = AIRY_SUCCESS <-> perm_ok b (sec s) (ck_agent c) (ck_tool c)) /\ (rc = AIRY_SUCCESS -> b' = b).
Proof.
  unfold sgb_perm, perm_ok. destruct (enable_permission_guard (b_cfg b)); cbn [negb]; [|by repeat split].
  pose proof (check_spec (sec s) (ck_agent c) (ck_tool c) "execute") as Hc. cbn [ck_agent ck_tool enter_guard].
  case_bool_decide as Hd; unfold kept; cbn; split_and!; try done.
  - split; [intros _ _; by apply Hc|done].
  - split; [done|]. intros Hx. exfalso. by apply Hd, Hc, Hx.
Qed.

Lemma rate_spec b c s :
  let '(rc, b', c', s') := sgb_rate b c s in
  kept b b' c c' s s' /\ world s' = after_rate b (world s) /\ (rc = AIRY_SUCCESS <-> rate_ok b (world s)).
Proof.
  unfold sgb_rate, rate_ok, after_rate, rate_on. destruct (enable_rate_limit_guard (b_cfg b)); cbn [negb andb]; [|by repeat split].
  destruct (rate_limit_per_minute (b_cfg b) =? 0); cbn [negb]; [by repeat split|].
  destruct (ap_time_ms (world s)) as [now w]. cbn [fst snd]. rewrite <- (rate_window_used b now).
  destruct (rate_window b now) as [start calls]. cbn [snd].
  destruct (calls <=? rate_limit_per_minute (b_cfg b)) eqn:E; repeat split; try done; lia.
Qed.

Lemma scan_none d p : sgb_scan d p = None <-> forall t, denied_word d t -> ~ substring_of t p.
Proof.
  transitivity (Forall (fun t => occurs p t = false) (patterns d)).
  2: { rewrite Forall_forall. apply forall_proper. intros t. rewrite <- patterns_spec, <- occurs_spec.
       rewrite not_true_iff_false. done. }
  unfold sgb_scan. induction (patterns d) as [|t l IH]; cbn [find]; [done|].
  rewrite Forall_cons. destruct (occurs p t) eqn:E; [|rewrite IH; tauto]. split; [done|]. by intros [? _].
Qed.

Lemma filter_spec b c s :
  let '(rc, b', c', s') := sgb_filter b c s in
  kept b b' c c' s s' /\ world s' = after_filter b (ck_params c) (world s) /\
  (rc = AIRY_SUCCESS <-> filter_ok b (ck_params c) (world s)).
Proof.
  unfold sgb_filter, filter_ok, after_filter, scan_list.
  destruct (ck_params c) as [p|] eqn:Ep; [|by repeat split].
  destruct (enable_content_filter (b_cfg b)); cbn [negb andb].
  2: { destruct (denied_patterns (b_cfg b)); by repeat split. }
  assert (Hsz : (0 <? max_params_size (b_cfg b)) && (max_params_size (b_cfg b) <? strlen p) = false <->
    (forall p0, Some p = Some p0 -> true = true -> 0 < max_params_size (b_cfg b) -> strlen p0 <= max_params_size (b_cfg b))).
  { split; [intros Hs p0 [= <-] _; lia|]. intros Hs. specialize (Hs p eq_refl eq_refl). lia. }
  set (big := (0 <? max_params_size (b_cfg b)) && (max_params_size (b_cfg b) <? strlen p)) in *. clearbody big.
  assert (Hbig : forall P : Prop, big = true -> P /\ (forall p0, Some p = Some p0 -> true = true ->
    0 < max_params_size (b_cfg b) -> strlen p0 <= max_params_size (b_cfg b)) -> False).
  { intros P -> [_ Hx]. apply Hsz in Hx. done. }
  destruct (denied_patterns (b_cfg b)) as [d|]; [destruct (strcmp_eq d ""); cbn [negb];
    [|destruct (ap_alloc (world s)) as [[] w]; cbn [fst snd]; [destruct (sgb_scan d p) as [t|] eqn:Es|]]|].
  2: { unfold kept. cbn. split_and!; try done. split; [done|]. intros [Hf _]. specialize (Hf d p eq_refl eq_refl).
       apply (proj2 (scan_none d p)) in Hf. congruence. }
  2: pose proof (proj1 (scan_none d p) Es).
  all: destruct big; unfold kept; cbn; split_and!; try done.
  all: split; [|done] || (split; [done|]; intros Hx; exfalso; by eapply Hbig).
  all: intros _; split; [|by apply Hsz]; try done. intros d0 p0 [= <- <-] _. done.
Qed.

Lemma input_spec b c s :
  let '(rc, b', c', s') := sgb_input b c s in
  rc = AIRY_SUCCESS /\ kept b b' c c' s s' /\ world s' = world s.
Proof.
  unfold sgb_input. destruct (ck_params c) as [p|] eqn:Ep; [|by repeat split].
  destruct (enable_input_sanitization (b_cfg b)); cbn [negb]; [|by repeat split]. cbn. by repeat split.
Qed.

Lemma quota_spec b c s :
  let '(rc, b', c', s') := sgb_quota b c s in
  kept b b' c c' s s' /\ (rc = AIRY_SUCCESS <-> quota_ok b (ck_tool c) (world s)).
Proof.
  unfold sgb_quota, quota_ok. destruct (enable_resource_quota (b_cfg b)); cbn [negb orb]; [|by repeat split].
  destruct (guard_ctx b) eqn:Eg; cbn [negb]; [|by repeat split].
  cbn [enter_guard ck_tool]. destruct (ap_check_quota (ck_tool c) (world s)) as [[ret al] w]. cbn [fst snd].
  destruct (ret =? 0) eqn:E, al; cbn [negb andb]; unfold kept; cbn; split_and!; try done; split; try done; try lia.
Qed.

Lemma audit_spec b c s :
  let '(rc, b', c', s') := sgb_audit b c s in rc = AIRY_SUCCESS /\ kept b b' c c' s s'.
Proof.
  unfold sgb_audit, audit. destruct (enable_audit_guard (b_cfg b)); cbn [negb]; [|by repeat split].
  cbn [enter_guard ck_tool ck_agent ck_params]. destruct (guard_ctx b); destruct (daemon_audit_log_event _ _ _ _ _ _ _); by repeat split.
Qed.

Lemma chain_exact b c s :
  let '(rc, b', c', s') := run_stages stages b c s in
  sec s' = sec s /\ ctx s' = ctx s /\
  (rc = AIRY_SUCCESS <-> chain_ok b (ck_agent c) (ck_tool c) (ck_params c) s).
Proof.
  cbn [stages run_stages]. unfold chain_ok.
  pose proof (perm_spec b c s) as P1. destruct (sgb_perm b c s) as [[[rc1 b1] c1] s1]. destruct P1 as (K1 & W1 & I1 & Hb1).
  case_bool_decide as D1; [|destruct K1 as (_ & _ & _ & _ & _ & _ & ? & ?); split_and!; [done|done|tauto]].
  rewrite (Hb1 D1) in *. apply I1 in D1.
  pose proof (rate_spec b c1 s1) as P2. destruct (sgb_rate b c1 s1) as [[[rc2 b2] c2] s2]. destruct P2 as (K2 & W2 & I2).
  rewrite W1 in I2, W2. pose proof (kept_trans _ _ _ _ _ _ _ _ _ K1 K2) as K12.
  case_bool_decide as D2; [|destruct K12 as (_ & _ & _ & _ & _ & _ & ? & ?); split_and!; [done|done|tauto]]. apply I2 in D2.
  pose proof (filter_spec b2 c2 s2) as P3. destruct (sgb_filter b2 c2 s2) as [[[rc3 b3] c3] s3]. destruct P3 as (K3 & W3 & I3).
  rewrite W2 in I3, W3. pose proof (kept_trans _ _ _ _ _ _ _ _ _ K12 K3) as K13.
  assert (Hf : filter_ok b2 (ck_params c2) (after_rate b (world s)) <-> filter_ok b (ck_params c) (after_rate b (world s))).
  { destruct K12 as (Hc & _ & _ & _ & _ & Hp & _). unfold filter_ok, scan_list. by rewrite Hc, Hp. }
  assert (Haf : after_filter b2 (ck_params c2) (after_rate b (world s)) = after_filter b (ck_params c) (after_rate b (world s))).
  { destruct K12 as (Hc & _ & _ & _ & _ & Hp & _). unfold after_filter, scan_list. by rewrite Hc, Hp. }
  rewrite Hf in I3. rewrite Haf in W3.
  case_bool_decide as D3; [|destruct K13 as (_ & _ & _ & _ & _ & _ & ? & ?); split_and!; [done|done|tauto]]. apply I3 in D3.
  pose proof (input_spec b3 c3 s3) as P4. destruct (sgb_input b3 c3 s3) as [[[rc4 b4] c4] s4]. destruct P4 as (-> & K4 & W4).
  rewrite bool_decide_true by done. pose proof (kept_trans _ _ _ _ _ _ _ _ _ K13 K4) as K14.
  pose proof (quota_spec b4 c4 s4) as P5. destruct (sgb_quota b4 c4 s4) as [[[rc5 b5] c5] s5]. destruct P5 as (K5 & I5).
  pose proof (kept_trans _ _ _ _ _ _ _ _ _ K14 K5) as K15.
  assert (Hq : quota_ok b4 (ck_tool c4) (world s4) <->
    quota_ok b (ck_tool c) (after_filter b (ck_params c) (after_rate b (world s)))).
  { destruct K14 as (Hc & Hg & _ & _ & Ht & _). unfold quota_ok. by rewrite Hc, Hg, Ht, W4, W3. }
  rewrite Hq in I5.
  case_bool_decide as D5; [|destruct K15 as (_ & _ & _ & _ & _ & _ & ? & ?); split_and!; [done|done|tauto]]. apply I5 in D5.
  pose proof (audit_spec b5 c5 s5) as P6. destruct (sgb_audit b5 c5 s5) as [[[rc6 b6] c6] s6]. destruct P6 as (-> & K6).
  rewrite bool_decide_true by done. pose proof (kept_trans _ _ _ _ _ _ _ _ _ K15 K6) as K16.
  destruct K16 as (_ & _ & _ & _ & _ & _ & ? & ?). split_and!; [done|done|]. tauto.
Qed.
End exact.

(** ** The gate *)

Section gate.
  Context {W : Type} `{ApprovalOS W} (DETAIL_REASON DETAIL_PARAMS : nat).
  Notation check := (tool_approval_check_for_agent DETAIL_REASON DETAIL_PARAMS).

(** Who a request is judged as. *)
Definition subject_of (agent : option string) (s : ap_state W) : string :=
    match agent with
    | Some a => if strcmp_eq a "" then default "unknown"%string (cfg_agent (ctx s)) else a
    | None => default "unknown"%string (cfg_agent (ctx s))
    end.

Definition tool_of (name : option string) : string := default "unknown"%string name.

(** The static check passes: every enabled guard, or the access list alone. *)
Definition static_ok (agent name params : option string) (s : ap_state W) : Prop :=
    let subject := subject_of agent s in
    match ap_bridge_of (ctx s) with
    | Some b => chain_ok b (if strcmp_eq subject "" then b_agent b else subject) (tool_of name) params s
    | None => policy_allows (abs (sec s)) subject (tool_of name)
    end.

Lemma deny_sec agent tool (s : ap_state W) :
  (ap_deny agent tool s).1 = AIRY_ERR_PERMISSION_DENIED /\ sec (ap_deny agent tool s).2 = sec s.
Proof.
  unfold ap_deny, audit. destruct (enable_audit_logging _); [|done]. by destruct (daemon_audit_log_event _ _ _ _ _ _ _).
Qed.

Lemma sanitize_sec tool params d (s : ap_state W) :
  sec (ap_sanitize DETAIL_PARAMS tool params d s).2 = sec s.
Proof.
  unfold ap_sanitize, tool_approval_sanitize_params. destruct params as [p|]; [|done]. destruct (strcmp_eq p ""); [done|].
  cbn [daemon_sanitize_tool_params]. destruct (_ && _); destruct (_ || _); done.
Qed.

Lemma check_as_spec subject name params (s : ap_state W) :
  let '(rc, d, s') := approval_check_as DETAIL_REASON DETAIL_PARAMS subject name params s in
  sec s' = sec s /\
  (rc = AIRY_SUCCESS <->
   match ap_bridge_of (ctx s) with
   | Some b => chain_ok b (if strcmp_eq subject "" then b_agent b else subject) (tool_of name) params s
   | None => policy_allows (abs (sec s)) subject (tool_of name)
   end).
Proof.
  unfold approval_check_as. cbn [with_ctx ctx count_check ap_bridge_of]. destruct (ap_bridge_of (ctx s)) as [b|].
  - unfold ap_bridge, safety_guard_bridge_check_for_agent.
    match goal with |- context[run_stages stages ?b0 ?c0 ?s0] => pose proof (chain_exact b0 c0 s0) as Hx;
      destruct (run_stages stages b0 c0 s0) as [[[rc b'] c'] s'] end. destruct Hx as (Hs & _ & Hi).
    cbn [ck_agent ck_tool ck_params sec with_ctx] in *.
    assert (Hco : rc = AIRY_SUCCESS <-> chain_ok b (if strcmp_eq subject "" then b_agent b else subject) (tool_of name) params s)
      by exact Hi.
    case_bool_decide as Hd; [split; [done|]; tauto|].
    destruct (deny_sec subject (default "unknown"%string name)
      (with_ctx (set_bridge (Some b')) s')) as [Hrc Hsec].
    destruct (ap_deny subject _ _) as [rc2 s2]. cbn [fst snd] in *. subst rc2. split; [by rewrite Hsec|]. split; [done|]. tauto.
  - unfold ap_local. fold (tool_of name).
    pose proof (sanitize_sec (tool_of name) params detail_zero (with_ctx count_check s)) as Hs.
    destruct (ap_sanitize DETAIL_PARAMS (tool_of name) params detail_zero (with_ctx count_check s)) as [d s1].
    cbn [snd with_ctx sec] in Hs. rewrite Hs.
    pose proof (check_spec (sec s) subject (tool_of name) "execute") as Hc.
    case_bool_decide as Hd; cbn [negb].
    + split; [|tauto]. unfold audit. destruct (enable_audit_logging (ctx s1)); [|done].
      by destruct (daemon_audit_log_event _ _ _ _ _ _ _).
    + destruct (deny_sec subject (tool_of name) s1) as [Hrc Hsec]. destruct (ap_deny subject _ s1) as [rc2 s2].
      cbn [fst snd] in *. subst rc2. split; [congruence|]. split; [done|]. tauto.
Qed.

Lemma check_static agent name params (s : ap_state W) :
  let '(rc, d, s') := check agent name params s in
  sec s' = sec s /\ (rc = AIRY_SUCCESS <-> static_ok agent name params s).
Proof.
  unfold tool_approval_check_for_agent, tool_approval_check, static_ok, subject_of.
  destruct agent as [a|]; [destruct (strcmp_eq a "") eqn:E|]; apply check_as_spec.
Qed.
End gate.

(** The verdict of the gate and what becomes of the access list. *)
Lemma gate_spec {W} `{ApprovalOS W} (rsz psz : nat)
    (block : string -> string -> option string -> W -> airy_approval_outcome_t * W)
    (enabled : bool) (agent : option string) (meta : option (option string)) (params : option string) (s : ap_state W) :
  let '(v, reason, s') := gate_ask rsz psz block enabled agent meta params s in
  match meta with
  | None => v = APPROVAL_GATE_DENIED /\ s' = s
  | Some name =>
      let '(_, _, s1) := tool_approval_check_for_agent rsz psz agent name params s in
      let answer := (block (default "?"%string name) (default (ctx_agent (ctx s1)) agent) params (world s1)).1 in
      (v = APPROVAL_GATE_ALLOWED <->
       static_ok agent name params s \/ enabled = true /\ answer <> AIRY_APPROVAL_DENIED) /\
      (sec s' = sec s \/
       ~ static_ok agent name params s /\ enabled = true /\ answer = AIRY_APPROVAL_ALWAYS /\
       exists t, name = Some t /\
         sec s' = (daemon_security_add_acl_rule (sec s) (Some (default (ctx_agent (ctx s1)) agent)) (Some t) true).2)
  end.
Proof.
  destruct meta as [name|]; [|done]. unfold gate_ask.
  pose proof (check_static rsz psz agent name params s) as Hc.
  destruct (tool_approval_check_for_agent rsz psz agent name params s) as [[rc d] s1]. destruct Hc as [Hsec Hrc].
  case_bool_decide as Hd.
  { split; [|by left]. split; [|done]. left. by apply Hrc. }
  assert (Hns : ~ static_ok agent name params s) by tauto. unfold ask_via_interactive.
  destruct enabled; cbn [negb].
  2: { destruct (strcmp_eq (dt_reason d) ""); [|destruct (ap_alloc (world s1)) as [ok w]];
         (split; [split; [done|by intros [?|[? _]]]|by left]). }
  replace (match agent with Some a => a | None => ctx_agent (ctx s1) end) with (default (ctx_agent (ctx s1)) agent)
    by (by destruct agent).
  destruct (block _ _ params (world s1)) as [o w]. cbn [fst]. destruct o.
  - cbn [set_world world]. destruct (ap_alloc w) as [ok w2]. split; [|by left]. split; [done|]. intros [?|[_ ?]]; done.
  - split; [split; [by right|done]|by left].
  - split; [split; [by right|done]|]. destruct name as [t|]; [|by left]. right. split_and!; try done. exists t. split; [done|].
    cbn [sec set_world]. by rewrite Hsec.
Qed.

(** C14.  The verdict of the approval gate, in full.  For every access list,
    configuration of the guard chain, environment and user: a request for a tool
    is allowed exactly when the static check passes, or interactive approval is
    enabled and the user, asked after the refusal, did not deny it; a request
    without a tool is denied.  Without a guard chain the static check passes
    exactly when the access list allows the subject the tool.  With a chain,
    exactly when of the enabled guards: the access list allows it; with this call
    the calls of the current minute's window are at most the limit; no word of
    the denied list (cut at commas, leading spaces dropped) is a substring of the
    parameters, or the copy of the list could not be allocated, and the
    parameters are not too long; the quota service did not refuse, where a
    service that reports an error does not refuse.  The access list changes only
    when the user answers [always]. *)
Theorem gate_exact {W} `{ApprovalOS W} (rsz psz : nat)
    (block : string -> string -> option string -> W -> airy_approval_outcome_t * W)
    (enabled : bool) (agent : option string) (meta : option (option string)) (params : option string) (s : ap_state W) :
  let '(v, reason, s') := gate_ask rsz psz block enabled agent meta params s in
  match meta with
  | None => v = APPROVAL_GATE_DENIED /\ s' = s
  | Some name =>
      let '(_, _, s1) := tool_approval_check_for_agent rsz psz agent name params s in
      let answer := (block (default "?"%string name) (default (ctx_agent (ctx s1)) agent) params (world s1)).1 in
      (v = APPROVAL_GATE_ALLOWED <->
       static_ok agent name params s \/ enabled = true /\ answer <> AIRY_APPROVAL_DENIED) /\
      (sec s' = sec s \/
       ~ static_ok agent name params s /\ enabled = true /\ answer = AIRY_APPROVAL_ALWAYS /\
       exists t, name = Some t /\
         sec s' = (daemon_security_add_acl_rule (sec s) (Some (default (ctx_agent (ctx s1)) agent)) (Some t) true).2)
  end.
Proof. exact (gate_spec rsz psz block enabled agent meta params s). Qed.

Section always.
  Context {W : Type} `{ApprovalOS W} (rsz psz : nat).
  Context (block : string -> string -> option string -> W -> airy_approval_outcome_t * W).
  Hypothesis always : forall x a p w, (block x a p w).1 = AIRY_APPROVAL_ALWAYS.

(** The answer [always] lets the call through and adds a rule. *)
Lemma always_adds (agent t : string) (params : option string) (s : ap_state W) :
  ~ static_ok (Some agent) (Some t) params s ->
  let '(v, _, s') := gate_ask rsz psz block true (Some agent) (Some (Some t)) params s in
  v = APPROVAL_GATE_ALLOWED /\ sec s' = (daemon_security_add_acl_rule (sec s) (Some agent) (Some t) true).2.
Proof.
  intros Hns. unfold gate_ask. pose proof (check_static rsz psz (Some agent) (Some t) params s) as Hc.
  destruct (tool_approval_check_for_agent rsz psz (Some agent) (Some t) params s) as [[rc d] s1]. destruct Hc as [Hsec Hrc].
  case_bool_decide as Hd; [tauto|]. unfold ask_via_interactive. cbn [negb default].
  specialize (always (default "?"%string (Some t)) agent params (world s1)).
  destruct (block _ _ params (world s1)) as [o w]. cbn [fst] in always. subst o. split; [done|].
  cbn [sec set_world]. by rewrite Hsec.
Qed.

(** A user's [always] lasts: with a table that has room, the agent has the rule
    from then on. *)
Theorem consent_recorded (agent t : string) (params : option string) (s : ap_state W) :
  sec_inv (sec s) -> p_on (abs (sec s)) = true -> p_enabled (abs (sec s)) = true -> key_ok agent t = true ->
  (size (p_rules (abs (sec s))) < MAX_ACL_ENTRIES)%nat -> ~ static_ok (Some agent) (Some t) params s ->
  let '(v, _, s') := gate_ask rsz psz block true (Some agent) (Some (Some t)) params s in
  v = APPROVAL_GATE_ALLOWED /\ policy_allows (abs (sec s')) agent t.
Proof.
  intros Hi Hon Hen Hk Hroom Hns. pose proof (always_adds agent t params s Hns) as Ha.
  destruct (gate_ask _ _ _ _ _ _ _ _) as [[v r] s']. destruct Ha as [-> ->]. split; [done|].
  pose proof (add_spec (sec s) agent t true Hi) as Hadd.
  destruct (daemon_security_add_acl_rule _ _ _ _) as [rc2 c']. destruct Hadd as [_ Hadd]. unfold policy_add in Hadd.
  rewrite Hk, Hon in Hadd. cbn [andb] in Hadd. rewrite bool_decide_true in Hadd by (by right). destruct Hadd as [_ Hadd].
  cbn [snd]. rewrite Hadd. split_and!; [done|done|]. cbn [p_rules]. by rewrite lookup_insert_eq.
Qed.

(** An empty agent name is judged as the daemon's own, but the user's [always]
    is recorded for the empty name, which the access list refuses: nothing is
    kept. *)
Lemma always_lost (t : string) (params : option string) (s : ap_state W) :
  sec_inv (sec s) -> ~ static_ok (Some ""%string) (Some t) params s ->
  let '(v, _, s') := gate_ask rsz psz block true (Some ""%string) (Some (Some t)) params s in
  v = APPROVAL_GATE_ALLOWED /\ sec s' = sec s.
Proof.
  intros Hi Hns. pose proof (always_adds "" t params s Hns) as Ha.
  destruct (gate_ask _ _ _ _ _ _ _ _) as [[v r] s']. destruct Ha as [-> ->]. split; [done|].
  pose proof (add_spec (sec s) "" t true Hi) as Hadd.
  destruct (daemon_security_add_acl_rule _ _ _ _) as [rc2 c']. destruct Hadd as [_ Hadd]. by destruct Hadd as [_ ->].
Qed.
End always.

(** ** The rate *)

(** A call at [now]: the bridge after it, and whether it is within the limit. *)
Definition rate_call (b : bridge) (now : Z) : bridge * bool :=
  let '(start, calls) := rate_window b now in
  (mkBridge (b_cfg b) (guard_ctx b) (b_agent b) start calls (b_total b) (b_denied b) (b_limited b),
   calls <=? rate_limit_per_minute (b_cfg b)).

(** The calls allowed from [x] on for one minute. *)
Fixpoint allowed_in (x : Z) (b : bridge) (times : list Z) : Z :=
  match times with
  | [] => 0
  | t :: ts =>
      let '(b', ok) := rate_call b t in
      (if ok && (x <=? t) && (t <? x + 60000) then 1 else 0) + allowed_in x b' ts
  end.

(** Times in order, from [l] on. *)
Fixpoint ordered (l : Z) (times : list Z) : Prop :=
  match times with
  | [] => True
  | t :: ts => l <= t /\ t <= UINT64_MAX /\ ordered t ts
  end.

Definition limit_of (b : bridge) : Z := rate_limit_per_minute (b_cfg b).

(** The calls left in the window. *)
Definition left_in (b : bridge) : Z := Z.max 0 (limit_of b - rate_limit_call_count b).

(** The guard of the chain makes this call. *)
Lemma rate_guard_call {W} `{ApprovalOS W} b c (s : ap_state W) :
  rate_on b = true ->
  let '(rc, b', _, _) := sgb_rate b c s in
  let '(b2, ok) := rate_call b (ap_time_ms (world s)).1 in
  (rc = AIRY_SUCCESS <-> ok = true) /\
  rate_limit_window_start b' = rate_limit_window_start b2 /\ rate_limit_call_count b' = rate_limit_call_count b2.
Proof.
  unfold rate_on, sgb_rate, rate_call. destruct (enable_rate_limit_guard (b_cfg b)); [|done]. cbn [negb andb].
  destruct (rate_limit_per_minute (b_cfg b) =? 0); [done|]. intros _. destruct (ap_time_ms (world s)) as [now w].
  cbn [fst]. destruct (rate_window b now) as [start calls]. by destruct (calls <=? _).
Qed.

(** A window that is open at [l]: its start, and the count in range. *)
Definition open_at (b : bridge) (l : Z) : Prop :=
  0 < rate_limit_window_start b <= l /\ 0 <= rate_limit_call_count b.

Lemma rate_call_spec b t l :
  open_at b l -> l <= t <= UINT64_MAX -> rate_limit_call_count b < UINT64_MAX ->
  let '(b', ok) := rate_call b t in
  b_cfg b' = b_cfg b /\ open_at b' t /\ rate_limit_call_count b' <= rate_limit_call_count b + 1 /\
  (rate_limit_window_start b' = rate_limit_window_start b /\ rate_limit_call_count b' = rate_limit_call_count b + 1 \/
   rate_limit_window_start b + 60000 <= t /\ rate_limit_window_start b' = t /\ rate_limit_call_count b' = 1) /\
  (ok = true -> rate_limit_call_count b' <= limit_of b).
Proof.
  intros [Hs Hc] Ht Hm. unfold rate_call, rate_window, open_at.
  rewrite (proj2 (Z.eqb_neq (rate_limit_window_start b) 0)) by lia.
  rewrite u64_id by (unfold is_u64; lia).
  destruct (60000 <=? t - rate_limit_window_start b) eqn:E; cbn [b_cfg rate_limit_window_start rate_limit_call_count].
  - split_and!; first [done | lia | right; lia | unfold limit_of; lia].
  - rewrite u64_id by (unfold is_u64; lia). split_and!; first [done | lia | left; lia | unfold limit_of; lia].
Qed.

Lemma allowed_late x times : forall b l, ordered l times -> x + 60000 <= l -> allowed_in x b times = 0.
Proof.
  induction times as [|t ts IH]; intros b l Hord Hl; cbn [allowed_in]; [done|]. destruct Hord as (Hlt & _ & Hord).
  destruct (rate_call b t) as [b' ok]. rewrite (IH b' t) by (done || lia). rewrite (proj2 (Z.ltb_ge t (x + 60000))) by lia.
  by rewrite andb_false_r.
Qed.

(** The calls a window may still let through before [x + 60000]. *)
Definition budget (x : Z) (b : bridge) (l : Z) : Z :=
  if x <=? rate_limit_window_start b then left_in b
  else if l <? x then 2 * limit_of b else left_in b + limit_of b.

Lemma allowed_bound x times : forall b l,
  0 < limit_of b -> open_at b l -> ordered l times -> rate_limit_call_count b + Z.of_nat (length times) < UINT64_MAX ->
  allowed_in x b times <= budget x b l.
Proof.
  induction times as [|t ts IH]; intros b l Hn Ho Hord Hm; cbn [allowed_in].
  { unfold budget, left_in. destruct (x <=? _), (l <? x); lia. }
  cbn [length] in Hm. destruct Hord as (Hlt & Htm & Hord).
  pose proof (rate_call_spec b t l Ho ltac:(lia) ltac:(lia)) as Hr. destruct (rate_call b t) as [b' ok].
  destruct Hr as (Hcfg & Ho' & Hcc & Hcase & Hok).
  assert (Hlim : limit_of b' = limit_of b) by (unfold limit_of; by rewrite Hcfg).
  pose proof (allowed_late x ts b' t Hord) as Hlate.
  specialize (IH b' t ltac:(lia) Ho' Hord ltac:(lia)). unfold budget, left_in in *. rewrite Hlim in IH.
  destruct Ho as [Hs Hc]. destruct Ho' as [Hs' Hc'].
  assert (Hy : ok && (x <=? t) && (t <? x + 60000) = true -> rate_limit_call_count b' <= limit_of b /\ x <= t < x + 60000).
  { intros Hb. rewrite !andb_true_iff in Hb. destruct Hb as [[Hb1 Hb2] Hb3]. specialize (Hok Hb1). lia. }
  destruct Hcase as [[Hw Hcnt]|(Hw1 & Hw & Hcnt)]; rewrite Hw, Hcnt in *;
    (destruct (ok && (x <=? t) && (t <? x + 60000)); [specialize (Hy eq_refl)|]);
    destruct (Z.leb_spec x (rate_limit_window_start b)); destruct (Z.ltb_spec l x); destruct (Z.leb_spec x t);
    destruct (Z.ltb_spec t x); lia.
Qed.

(** A new bridge: no window yet. *)
Definition fresh (b : bridge) : Prop := rate_limit_window_start b = 0 /\ rate_limit_call_count b = 0.

Lemma fresh_call b t :
  fresh b -> 0 < t <= UINT64_MAX -> 0 < limit_of b ->
  let '(b', ok) := rate_call b t in
  ok = true /\ open_at b' t /\ limit_of b' = limit_of b /\ rate_limit_window_start b' = t /\ rate_limit_call_count b' = 1.
Proof.
  intros [Hs Hc] Ht Hl. unfold rate_call, rate_window, open_at. rewrite Hs, Hc. cbn [Z.eqb].
  rewrite Z.sub_diag. change (60000 <=? u64 0) with false.
  change (u64 (0 + 1)) with 1. cbn [rate_limit_window_start rate_limit_call_count]. unfold limit_of in *. cbn [b_cfg].
  split_and!; lia.
Qed.

(** The rate guard bounds the calls of every minute: whatever the calls of
    a new bridge, at most twice the limit are let through in any 60 seconds (the
    window is a fixed one, so a burst at its end may meet one of the next). *)
Theorem rate_minute (x : Z) (b : bridge) (times : list Z) :
  fresh b -> 0 < rate_limit_per_minute (b_cfg b) -> ordered 1 times -> Z.of_nat (length times) < UINT64_MAX - 1 ->
  allowed_in x b times <= 2 * rate_limit_per_minute (b_cfg b).
Proof.
  intros Hf Hl Hord Hm. destruct times as [|t ts]; cbn [allowed_in]; [lia|].
  destruct Hord as (Ht & Htm & Hord). cbn [length] in Hm.
  pose proof (fresh_call b t Hf ltac:(lia) Hl) as Hc. destruct (rate_call b t) as [b' ok].
  destruct Hc as (-> & Ho & Hlim & Hw & Hcnt).
  pose proof (allowed_bound x ts b' t ltac:(unfold limit_of in *; lia) Ho Hord ltac:(lia)) as Hb.
  unfold budget, left_in in Hb. rewrite Hlim, Hw, Hcnt in Hb. unfold limit_of in Hb.
  destruct (Z.leb_spec x t); destruct (Z.ltb_spec t x); destruct (Z.ltb_spec t (x + 60000)); cbn [andb]; lia.
Qed.

Definition two_a_minute : bridge :=
  mkBridge (mkBc true true true true true true 2 0 None None) false "tool_d" 0 0 0 0 0.

(** Twice the limit is reached, and a call more is refused. *)
Lemma rate_minute_witness :
  allowed_in 59000 two_a_minute [1; 59000; 59500; 60001; 60002; 60003] <= 2 * 2 /\
  allowed_in 50000 two_a_minute [1; 50000; 59500; 60001; 60002; 60003] = 3.
Proof.
  split; [|vm_compute; reflexivity].
  apply (rate_minute 59000 two_a_minute [1; 59000; 59500; 60001; 60002; 60003]);
    vm_compute; repeat split; discriminate.
Defined.

(** ** What the checks record *)

(** The line of the audit file for a result. *)
Definition line_of {W} `{ApprovalOS W} (op tool agent : string) (result : Z) (s : ap_state W) : string :=
  audit_line (ap_timestamp (world s)) "tool_d" op (Some tool) result (Some agent).

(** The audit file says the opposite of what was decided: of a call that the
    access list refuses it records SUCCESS, of one that it grants FAILED. *)
Lemma audit_inverted {W} `{ApprovalOS W} (rsz psz : nat) (agent tool : string) (d : tool_approval_detail_t)
    (s : ap_state W) :
  initialized (sec s) = true -> audit_enabled (sec s) = true -> audit_fp (sec s) = true ->
  enable_audit_logging (ctx s) = true ->
  let '(rc, _, s') := ap_local rsz psz agent tool None d s in
  (rc = AIRY_SUCCESS -> audit_file s' = audit_file s ++ [line_of "tool_execute" tool agent 1 s]) /\
  (rc <> AIRY_SUCCESS -> audit_file s' = audit_file s ++ [line_of "tool_execute_denied" tool agent 0 s]).
Proof.
  intros Hi Ha Hf Hl. unfold ap_local, ap_sanitize, ap_deny, audit, daemon_audit_log_event.
  case_bool_decide; cbn [negb]; [|cbn [with_ctx count_denied ctx sec enable_audit_logging world audit_file]];
    rewrite Hl, Hi, Ha, Hf; cbn [negb option_list audit_file]; by split.
Qed.

(** A chain in which the sanitizer ran reports sanitized parameters, also when
    it changed nothing. *)
Lemma sanitized_unchanged (rsz psz : nat) (d : tool_approval_detail_t) (br : safety_guard_bridge_result_t) (tool : string) :
  input_sanitized br = true -> decision (ap_bridge_allow rsz psz d br tool) = TOOL_APPROVAL_SANITIZED.
Proof. intros E. unfold ap_bridge_allow, ap_take_san. rewrite E. cbn [andb]. by destruct (negb _). Qed.
