(* ===== verification/Interactive.v ===== *)
(** * Interactive

    The request manager of the interactive approval
    (tool_d/src/approval/tool_interactive_approval.c): a worker whose call was
    refused statically puts a request into a list and waits until somebody
    decides it or its time is over.  Workers and deciders run concurrently; what
    each does between two waits is done under the lock, so a run is a sequence of
    such sections. *)

From stdpp Require Import gmap.
From S2P Require Import Prelude RouterState Security Approval.

#[export] Instance outcome_eq : EqDecision airy_approval_outcome_t.
Proof. solve_decision. Defined.

(** ** The manager *)

(** [ptr] is the address of the request; [request_id] is [None] when the copy of
    the identifier failed. *)
Record interactive_pending_req := mkReq {
  ptr : positive;
  request_id : option string;
  rq_tool : option string;
  rq_agent : option string;
  rq_params : option string;
  created_at : Z;
  rq_outcome : airy_approval_outcome_t;
  resolved : bool
}.

Record interactive_approval := mkMgr {
  enabled : bool;
  timeout_ms : Z;
  head : list interactive_pending_req;
  seq : Z
}.

Definition AIRY_APPROVAL_DEFAULT_TIMEOUT_MS : Z := 120000.

Definition approval_timeout_ms (env : option string) : Z :=
  match env with
  | Some s => if negb (strcmp_eq s "") && (0 <? (strtol s).1) then u64 (strtol s).1 else AIRY_APPROVAL_DEFAULT_TIMEOUT_MS
  | None => AIRY_APPROVAL_DEFAULT_TIMEOUT_MS
  end.

(** [made]: the memory, the lock and the condition were created. *)
Definition interactive_approval_create (mode timeout : option string) (made : bool)
    : option interactive_approval :=
  if made
  then Some (mkMgr (match mode with Some m => strcmp_eq m "interactive" | None => false end)
               (approval_timeout_ms timeout) [] 0)
  else None.

Definition interactive_approval_is_enabled (mgr : option interactive_approval) : bool :=
  match mgr with Some m => enabled m | None => false end.

Definition request_name (now k : Z) : string :=
  snprintf_s 72 ("req_" +:+ print_u now +:+ "_" +:+ print_u k).

(** [interactive_approval_block] up to its first wait: [p] is the new request,
    [a1 .. a4] whether its four strings could be copied. *)
Definition block_enter (mgr : interactive_approval) (p : positive) (tool : string) (agent params : option string)
    (now : Z) (a1 a2 a3 a4 : bool) : interactive_approval :=
  let dup (ok : bool) (s : string) := if ok then Some s else None in
  let req := mkReq p (dup a1 (request_name now (seq mgr))) (dup a2 tool) (dup a3 (default "unknown"%string agent))
               (dup a4 (default ""%string params)) now AIRY_APPROVAL_DENIED false in
  mkMgr (enabled mgr) (timeout_ms mgr) (head mgr ++ [req]) (u64 (seq mgr + 1)).

Definition deadline_of (mgr : interactive_approval) (now_ms : Z) : Z := u64 (now_ms + timeout_ms mgr).

(** One turn of the loop: whether the worker waits again. *)
Definition waits (req : interactive_pending_req) (deadline now_ms : Z) : bool :=
  negb (resolved req) && (now_ms <? deadline).

Fixpoint unlink (p : positive) (l : list interactive_pending_req) : list interactive_pending_req :=
  match l with
  | [] => []
  | r :: l' => if bool_decide (ptr r = p) then l' else r :: unlink p l'
  end.

(** The end of [interactive_approval_block]. *)
Definition block_leave (mgr : interactive_approval) (req : interactive_pending_req)
    : airy_approval_outcome_t * interactive_approval :=
  (rq_outcome req, mkMgr (enabled mgr) (timeout_ms mgr) (unlink (ptr req) (head mgr)) (seq mgr)).

Definition decision_of (d : string) : option airy_approval_outcome_t :=
  if strcmp_eq d "allow" then Some AIRY_APPROVAL_ALLOWED
  else if strcmp_eq d "always" then Some AIRY_APPROVAL_ALWAYS
  else if strcmp_eq d "deny" then Some AIRY_APPROVAL_DENIED else None.

Definition decide_req (o : airy_approval_outcome_t) (r : interactive_pending_req) : interactive_pending_req :=
  mkReq (ptr r) (request_id r) (rq_tool r) (rq_agent r) (rq_params r) (created_at r) o true.

(** The walk over the list; [None] where [strcmp] reads a missing identifier. *)
Fixpoint resolve_in (id : string) (o : airy_approval_outcome_t) (l : list interactive_pending_req)
    : option (airy_rc * list interactive_pending_req) :=
  match l with
  | [] => Some (AIRY_ERR_NOT_FOUND, [])
  | r :: l' =>
      match request_id r with
      | None => None
      | Some i =>
          if strcmp_eq i id then
            if resolved r then Some (AIRY_ERR_STATE_ERROR, r :: l') else Some (AIRY_SUCCESS, decide_req o r :: l')
          else match resolve_in id o l' with
               | Some (rc, l'') => Some (rc, r :: l'')
               | None => None
               end
      end
  end.

Definition interactive_approval_resolve (mgr : interactive_approval) (id decision : option string)
    : option (airy_rc * interactive_approval) :=
  match id, decision with
  | Some id, Some d =>
      match decision_of d with
      | None => Some (AIRY_ERR_INVALID_PARAM, mgr)
      | Some o =>
          match resolve_in id o (head mgr) with
          | Some (rc, l) => Some (rc, mkMgr (enabled mgr) (timeout_ms mgr) l (seq mgr))
          | None => None
          end
      end
  | _, _ => Some (AIRY_ERR_INVALID_PARAM, mgr)
  end.

(** The list shown to the deciders: identifier, tool, agent, parameters, time. *)
Definition interactive_approval_pending_list (mgr : interactive_approval)
    : list (option string * option string * option string * option string * Z) :=
  map (fun r => (request_id r, rq_tool r, rq_agent r, rq_params r, created_at r)) (head mgr).

(** ** Runs *)

(** The manager and the workers that wait: for each request its deadline. *)
Record sys := mkSys {
  mgr : interactive_approval;
  waiting : gmap positive Z
}.

Definition find_req (p : positive) (l : list interactive_pending_req) : option interactive_pending_req :=
  find (fun r => bool_decide (ptr r = p)) l.

(** A request is named by its identifier, when it has one. *)
Inductive label :=
| LEnter (id : option string)
| LSleep (id : option string)
| LLeave (id : option string) (o : airy_approval_outcome_t)
| LResolve (id decision : option string) (rc : airy_rc).

(** A section under the lock.  Each of the four copies of an entry may fail; a
    worker in the loop goes to sleep or leaves; one that was woken by an error of
    the wait leaves in any case.  A decision that reads a missing identifier has
    no step. *)
Inductive step : sys -> label -> sys -> Prop :=
| step_enter m w p tool agent params now now_ms (a1 a2 a3 a4 : bool) :
    enabled m = true -> w !! p = None -> find_req p (head m) = None -> is_u64 now ->
    step (mkSys m w) (LEnter (if a1 then Some (request_name now (seq m)) else None))
      (mkSys (block_enter m p tool agent params now a1 a2 a3 a4) (<[p := deadline_of m now_ms]> w))
| step_sleep m w p r d now_ms :
    w !! p = Some d -> find_req p (head m) = Some r -> waits r d now_ms = true ->
    step (mkSys m w) (LSleep (request_id r)) (mkSys m w)
| step_leave m w p r d now_ms (wait_failed : bool) :
    w !! p = Some d -> find_req p (head m) = Some r -> waits r d now_ms = false \/ wait_failed = true ->
    step (mkSys m w) (LLeave (request_id r) (block_leave m r).1) (mkSys (block_leave m r).2 (delete p w))
| step_resolve m w id d rc m' :
    interactive_approval_resolve m id d = Some (rc, m') ->
    step (mkSys m w) (LResolve id d rc) (mkSys m' w).

Inductive run : sys -> list label -> sys -> Prop :=
| run_nil s : run s [] s
| run_snoc s tr s1 l s2 : run s tr s1 -> step s1 l s2 -> run s (tr ++ [l]) s2.

(** ** Identifiers *)

Lemma digits_sep a b : forall a' b',
  str_forallb is_digit a = true -> str_forallb is_digit a' = true ->
  a +:+ String "_" b = a' +:+ String "_" b' -> a = a' /\ b = b'.
Proof.
  induction a as [|c a IH]; intros [|c' a'] b' Ha Ha' E; cbn [String.append str_forallb] in *;
    injection E as; subst; try done.
  apply andb_true_iff in Ha as [_ Ha]. apply andb_true_iff in Ha' as [_ Ha'].
  destruct (IH a' b' Ha Ha') as [-> ->]; done.
Qed.

Lemma print_u_digits n : 0 <= n -> str_forallb is_digit (print_u n) = true.
Proof. intros Hn. unfold print_u. by rewrite dec_aux_digits. Qed.

Lemma print_u_inj n m : is_u64 n -> is_u64 m -> print_u n = print_u m -> n = m.
Proof.
  intros Hn Hm E. assert (Hp : forall x, is_u64 x -> dec_from 0 (print_u x) = x).
  { intros x [Hx Hx']. unfold print_u. rewrite dec_aux_value; [done|lia|]. unfold UINT64_MAX in Hx'.
    change (10 ^ Z.of_nat 20) with 100000000000000000000. lia. }
  by rewrite <- (Hp n), <- (Hp m), E.
Qed.

Lemma print_u64_length n : is_u64 n -> (String.length (print_u n) <= 20)%nat.
Proof.
  intros [H1 H2]. apply print_u_length; [lia|]. unfold UINT64_MAX in H2.
  change (10 ^ Z.of_nat 20) with 100000000000000000000. lia.
Qed.

(** The name fits its buffer. *)
Lemma request_name_whole now k :
  is_u64 now -> is_u64 k -> request_name now k = "req_" +:+ print_u now +:+ "_" +:+ print_u k.
Proof.
  intros Hn Hk. unfold request_name, snprintf_s. apply substring_all.
  pose proof (print_u64_length now Hn). pose proof (print_u64_length k Hk).
  rewrite !str_length_app. cbn [String.length]. lia.
Qed.

Lemma request_name_inj n k n' k' :
  is_u64 n -> is_u64 k -> is_u64 n' -> is_u64 k' -> request_name n k = request_name n' k' -> k = k'.
Proof.
  intros Hn Hk Hn' Hk'. rewrite !request_name_whole by done. intros E. cbn in E. simplify_eq.
  apply digits_sep in E as [_ E]; [|apply print_u_digits; unfold is_u64 in *; lia..]. by apply print_u_inj.
Qed.

(** ** The specification *)

Notation decision_map := (gmap string (option airy_approval_outcome_t)).

(** Requests by identifier, each with its decision once it is made, and the
    number of those without an identifier, which nobody can decide. *)
Notation desk := (decision_map * nat)%type.

Definition desk_step (k : desk) (l : label) : option desk :=
  let '(pend, anon) := k in
  match l with
  | LEnter (Some id) => match pend !! id with None => Some (<[id := None]> pend, anon) | Some _ => None end
  | LEnter None => Some (pend, S anon)
  | LSleep (Some id) => if bool_decide (pend !! id = Some None) then Some k else None
  | LSleep None => if bool_decide (anon = 0)%nat then None else Some k
  | LLeave (Some id) o =>
      match pend !! id with
      | Some d => if bool_decide (o = default AIRY_APPROVAL_DENIED d) then Some (delete id pend, anon) else None
      | None => None
      end
  | LLeave None o =>
      match anon with
      | O => None
      | S n => if bool_decide (o = AIRY_APPROVAL_DENIED) then Some (pend, n) else None
      end
  | LResolve id d rc =>
      match id, d ≫= decision_of with
      | Some id, Some o =>
          match pend !! id with
          | None => if bool_decide (rc = AIRY_ERR_NOT_FOUND) then Some k else None
          | Some (Some _) => if bool_decide (rc = AIRY_ERR_STATE_ERROR) then Some k else None
          | Some None => if bool_decide (rc = AIRY_SUCCESS) then Some (<[id := Some o]> pend, anon) else None
          end
      | _, _ => if bool_decide (rc = AIRY_ERR_INVALID_PARAM) then Some k else None
      end
  end.

Fixpoint desk_run (k : desk) (tr : list label) : option desk :=
  match tr with
  | [] => Some k
  | l :: tr' => match desk_step k l with Some k' => desk_run k' tr' | None => None end
  end.

Lemma desk_run_snoc pend tr l :
  desk_run pend (tr ++ [l]) = desk_run pend tr ≫= fun p => desk_step p l.
Proof.
  revert pend. induction tr as [|l' tr IH]; intros pend; cbn; [by destruct (desk_step pend l)|].
  by destruct (desk_step pend l').
Qed.

(** ** The refinement *)

Definition entry (r : interactive_pending_req) : option (string * option airy_approval_outcome_t) :=
  (fun i => (i, if resolved r then Some (rq_outcome r) else None)) <$> request_id r.

Definition ids (l : list interactive_pending_req) : list string := omap request_id l.

Definition pend_of (l : list interactive_pending_req) : decision_map := list_to_map (omap entry l).

Definition nameless (l : list interactive_pending_req) : nat := length (filter (fun r => request_id r = None) l).

Definition desk_of (m : interactive_approval) : desk := (pend_of (head m), nameless (head m)).

Definition req_ok (n : Z) (r : interactive_pending_req) : Prop :=
  (resolved r = false -> rq_outcome r = AIRY_APPROVAL_DENIED) /\
  match request_id r with
  | Some i => exists c k, i = request_name c k /\ is_u64 c /\ 0 <= k < n
  | None => resolved r = false
  end.

(** The requests of the list after [n] entries. *)
Definition mgr_ok (n : Z) (m : interactive_approval) : Prop :=
  seq m = n /\ Forall (req_ok n) (head m) /\ NoDup (ids (head m)).

Lemma pend_fst l : (omap entry l).*1 = ids l.
Proof.
  induction l as [|r l IH]; [done|]. unfold ids. cbn. unfold entry at 1. destruct (request_id r); cbn; [by f_equal|done].
Qed.

Lemma pend_none l id : id ∉ ids l -> pend_of l !! id = None.
Proof. intros Hi. apply not_elem_of_list_to_map_1. by rewrite pend_fst. Qed.

Lemma ids_cons r l : ids (r :: l) = match request_id r with Some i => i :: ids l | None => ids l end.
Proof. done. Qed.

Lemma ids_app l1 l2 : ids (l1 ++ l2) = ids l1 ++ ids l2.
Proof. apply omap_app. Qed.

Lemma pend_cons r l :
  pend_of (r :: l) = match request_id r with
                     | Some i => <[i := if resolved r then Some (rq_outcome r) else None]> (pend_of l)
                     | None => pend_of l
                     end.
Proof. unfold pend_of. cbn. unfold entry at 1. by destruct (request_id r). Qed.

Lemma nameless_cons r l :
  nameless (r :: l) = match request_id r with Some _ => nameless l | None => S (nameless l) end.
Proof. unfold nameless. rewrite filter_cons. destruct (request_id r); by case_decide. Qed.

Lemma pend_snoc l r :
  Forall (fun i => i ∉ ids l) (ids [r]) ->
  pend_of (l ++ [r]) = match request_id r with
                       | Some i => <[i := if resolved r then Some (rq_outcome r) else None]> (pend_of l)
                       | None => pend_of l
                       end.
Proof.
  rewrite ids_cons. induction l as [|x l IH]; intros Hi; [exact (pend_cons r [])|].
  change ((x :: l) ++ [r]) with (x :: (l ++ [r])). rewrite !pend_cons. rewrite ids_cons in Hi.
  rewrite IH; [|eapply Forall_impl; [done|]; intros i Hni; cbv beta in Hni |- *; destruct (request_id x); [by apply not_elem_of_cons in Hni as [_ Hni]|done]].
  destruct (request_id r) as [i|], (request_id x) as [j|]; try done.
  apply Forall_cons in Hi as [Hi _]. apply not_elem_of_cons in Hi as [Hne _]. by apply (insert_insert_ne (M:=gmap string)).
Qed.

Lemma nameless_app l1 l2 : nameless (l1 ++ l2) = (nameless l1 + nameless l2)%nat.
Proof. unfold nameless. by rewrite filter_app, length_app. Qed.

Lemma resolve_in_spec n id o l :
  Forall (req_ok n) l -> NoDup (ids l) ->
  match resolve_in id o l with
  | None => (0 < nameless l)%nat
  | Some (rc, l') =>
      ids l' = ids l /\ nameless l' = nameless l /\ Forall (req_ok n) l' /\
      match pend_of l !! id with
      | None => rc = AIRY_ERR_NOT_FOUND /\ pend_of l' = pend_of l
      | Some (Some _) => rc = AIRY_ERR_STATE_ERROR /\ pend_of l' = pend_of l
      | Some None => rc = AIRY_SUCCESS /\ pend_of l' = <[id := Some o]> (pend_of l)
      end
  end.
Proof.
  induction l as [|r l IH]; intros Hf Hnd; cbn [resolve_in]; [done|].
  apply Forall_cons in Hf as [Hr Hf]. rewrite pend_cons, nameless_cons. rewrite ids_cons in Hnd |- *.
  pose proof Hr as [Hden Hid].
  destruct (request_id r) as [i|] eqn:Ei; [|lia].
  apply NoDup_cons in Hnd as [Hni Hnd]. specialize (IH Hf Hnd). unfold strcmp_eq.
  destruct (String.eqb_spec i id) as [<-|Hne].
  - rewrite lookup_insert_eq. destruct (resolved r) eqn:Er; rewrite ids_cons, nameless_cons, pend_cons;
      cbn [decide_req request_id resolved rq_outcome]; rewrite Ei, ?Er; split_and!; try done; try (by apply Forall_cons).
    + apply Forall_cons. split; [|done]. split; [done|]. cbn. by rewrite Ei.
    + symmetry. apply (insert_insert_eq (M:=gmap string)).
  - destruct (resolve_in id o l) as [[rc l']|]; [|done]. destruct IH as (Hids & Hnl & Hf' & Hm).
    rewrite ids_cons, nameless_cons, pend_cons, Ei, Hids, Hnl. split_and!; [done|done|by apply Forall_cons|].
    rewrite lookup_insert_ne by done.
    destruct (pend_of l !! id) as [[d|]|]; destruct Hm as [-> Hm]; split; try done; rewrite Hm; try done.
    by apply (insert_insert_ne (M:=gmap string)).
Qed.

Lemma find_req_in p l r : find_req p l = Some r -> r ∈ l /\ ptr r = p.
Proof.
  intros Hf. apply find_some in Hf as [Hin Hb]. apply bool_decide_eq_true in Hb. split; [by apply list_elem_of_In|done].
Qed.

Lemma unlink_in p l r : r ∈ unlink p l -> r ∈ l.
Proof.
  induction l as [|x l IH]; cbn [unlink]; [done|]. case_bool_decide; [by right|].
  intros [->|Hr]%elem_of_cons; [by left|right; by apply IH].
Qed.

Lemma id_in r l i : r ∈ l -> request_id r = Some i -> i ∈ ids l.
Proof. intros Hr Hi. apply list_elem_of_omap. by exists r. Qed.

(** Taking a request off the list. *)
Lemma unlink_req_spec p r l :
  NoDup (ids l) -> find_req p l = Some r ->
  NoDup (ids (unlink p l)) /\
  match request_id r with
  | Some i => pend_of l !! i = Some (if resolved r then Some (rq_outcome r) else None) /\
              pend_of (unlink p l) = delete i (pend_of l) /\ nameless (unlink p l) = nameless l
  | None => pend_of (unlink p l) = pend_of l /\ nameless l = S (nameless (unlink p l))
  end.
Proof.
  induction l as [|x l IH]; intros Hnd Hfi; [done|]. rewrite ids_cons in Hnd. cbn [unlink].
  unfold find_req in Hfi. cbn [find] in Hfi. case_bool_decide as Hp.
  - injection Hfi as ->. rewrite pend_cons, nameless_cons. destruct (request_id r) as [i|]; [|done].
    apply NoDup_cons in Hnd as [Hni Hnd]. rewrite lookup_insert_eq, delete_insert_eq, delete_id by (by apply pend_none). done.
  - assert (Hnd' : NoDup (ids l)) by (destruct (request_id x); [by apply NoDup_cons in Hnd as [_ ?]|done]).
    destruct (IH Hnd' Hfi) as [Hu Hm]. destruct (find_req_in p l r Hfi) as [Hin _].
    rewrite ids_cons, !pend_cons, !nameless_cons. destruct (request_id x) as [j|].
    + apply NoDup_cons in Hnd as [Hni _]. split.
      * apply NoDup_cons. split; [|done]. intros (y & Hy & Ey)%list_elem_of_omap. apply Hni. by eapply id_in; [eapply unlink_in|].
      * destruct (request_id r) as [i|] eqn:Ei; [|by destruct Hm as [-> ?]].
        assert (Hne : j <> i) by (intros ->; apply Hni; by eapply id_in). destruct Hm as (H1 & -> & H3).
        by rewrite lookup_insert_ne, delete_insert_ne by done.
    + split; [done|]. destruct (request_id r) as [i|]; [|destruct Hm as [-> ->]; done].
      destruct Hm as (-> & -> & ->). done.
Qed.

Lemma req_ok_mono n n' r : n <= n' -> req_ok n r -> req_ok n' r.
Proof.
  intros Hn [Hd Hi]. split; [done|]. destruct (request_id r); [|done]. destruct Hi as (c & k & -> & Hc & Hk).
  exists c, k. split_and!; [done|done|lia|lia].
Qed.

Lemma enter_ok n m p tool agent params now a1 a2 a3 a4 :
  mgr_ok n m -> 0 <= n < UINT64_MAX -> is_u64 now ->
  let m' := block_enter m p tool agent params now a1 a2 a3 a4 in
  mgr_ok (n + 1) m' /\
  desk_step (desk_of m) (LEnter (if a1 then Some (request_name now (seq m)) else None)) = Some (desk_of m').
Proof.
  intros (Hs & Hf & Hnd) Hn Hnow m'. subst m'.
  assert (Hni : request_name now (seq m) ∉ ids (head m)).
  { intros (r & Hr & E)%list_elem_of_omap. rewrite Forall_forall in Hf. destruct (Hf r Hr) as [_ Hid]. rewrite E in Hid.
    destruct Hid as (c & k & E2 & Hc & Hk). apply request_name_inj in E2; [|unfold is_u64 in *; lia..]. lia. }
  split.
  - unfold mgr_ok. cbn [block_enter seq head]. split_and!.
    + rewrite Hs. apply u64_id. unfold is_u64. lia.
    + apply Forall_app. split; [eapply Forall_impl; [done|]; intros r; apply req_ok_mono; lia|].
      apply Forall_singleton. split; [done|]. destruct a1; [|done]. exists now, (seq m). split_and!; [done|done|lia|lia].
    + rewrite ids_app. apply NoDup_app. rewrite ids_cons. cbn [request_id].
      destruct a1; split_and!; try done; [|by apply NoDup_singleton|by intros ? _ ?%elem_of_nil|by apply NoDup_nil].
      intros i Hi Hi'. apply list_elem_of_singleton in Hi'. by subst.
  - unfold desk_of. cbn [block_enter head]. rewrite nameless_app, pend_snoc, nameless_cons; cbn [request_id resolved].
    + destruct a1; cbn [desk_step].
      * rewrite pend_none by done. repeat f_equal. unfold nameless. cbn. lia.
      * repeat f_equal. unfold nameless. cbn. lia.
    + rewrite ids_cons. cbn [request_id]. destruct a1; [by apply Forall_singleton|by apply Forall_nil].
Qed.

Lemma resolve_ok n m id d rc m' :
  mgr_ok n m -> interactive_approval_resolve m id d = Some (rc, m') ->
  mgr_ok n m' /\ desk_step (desk_of m) (LResolve id d rc) = Some (desk_of m').
Proof.
  intros (Hs & Hf & Hnd) E. unfold interactive_approval_resolve in E. unfold desk_of. cbn [desk_step].
  destruct id as [id|]; [|by simplify_eq]. destruct d as [d|]; [|by simplify_eq]. cbn [mbind option_bind] in *.
  destruct (decision_of d) as [o|]; [|by simplify_eq].
  pose proof (resolve_in_spec n id o (head m) Hf Hnd) as Hr. destruct (resolve_in id o (head m)) as [[rc' l']|]; [|done].
  destruct Hr as (Hids & Hnl & Hf' & Hm). simplify_eq.
  cbn [head]. split; [split_and!; [done|done|by cbn [head]; rewrite Hids]|]. rewrite Hnl.
  destruct (pend_of (head m) !! id) as [[x|]|]; destruct Hm as [-> ->]; by rewrite bool_decide_true.
Qed.

(** A decision reads through a null pointer only where a request has no
    identifier. *)
Lemma resolve_fault n m id d :
  mgr_ok n m -> interactive_approval_resolve m id d = None -> (0 < nameless (head m))%nat.
Proof.
  intros (_ & Hf & Hnd) E. unfold interactive_approval_resolve in E. destruct id as [id|]; [|done]. destruct d as [d|]; [|done].
  destruct (decision_of d) as [o|]; [|done]. pose proof (resolve_in_spec n id o (head m) Hf Hnd) as Hr.
  by destruct (resolve_in id o (head m)) as [[rc' l']|].
Qed.

Lemma req_ok_in n l p r : Forall (req_ok n) l -> find_req p l = Some r -> req_ok n r.
Proof. intros Hf Hr. apply find_req_in in Hr as [Hr _]. rewrite Forall_forall in Hf. by apply Hf. Qed.

Lemma leave_ok n m p r :
  mgr_ok n m -> find_req p (head m) = Some r ->
  mgr_ok n (block_leave m r).2 /\
  desk_step (desk_of m) (LLeave (request_id r) (block_leave m r).1) = Some (desk_of (block_leave m r).2).
Proof.
  intros (Hs & Hf & Hnd) Hr. pose proof (unlink_req_spec p r _ Hnd Hr) as [Hnd' Hm].
  pose proof (req_ok_in n _ p r Hf Hr) as [Hden Hid]. pose proof (find_req_in p _ r Hr) as [_ <-].
  split.
  { split_and!; [done| |done]. cbn. apply Forall_forall. intros x Hx. rewrite Forall_forall in Hf. apply Hf. by eapply unlink_in. }
  unfold desk_of. cbn [desk_step block_leave fst snd head]. destruct (request_id r) as [i|].
  - destruct Hm as (-> & -> & ->). rewrite bool_decide_true; [done|]. destruct (resolved r); [done|by apply Hden].
  - destruct Hm as (-> & ->). rewrite bool_decide_true; [done|]. by apply Hden.
Qed.

Lemma sleep_ok n m p r d now_ms :
  mgr_ok n m -> find_req p (head m) = Some r -> waits r d now_ms = true ->
  desk_step (desk_of m) (LSleep (request_id r)) = Some (desk_of m).
Proof.
  intros (_ & _ & Hnd) Hr Hw. pose proof (unlink_req_spec p r _ Hnd Hr) as [_ Hm]. unfold waits in Hw. unfold desk_of.
  cbn [desk_step]. destruct (request_id r) as [i|].
  - destruct Hm as (-> & _). destruct (resolved r); [done|]. by rewrite bool_decide_true.
  - destruct Hm as (_ & ->). by rewrite bool_decide_false.
Qed.

Lemma step_desk n s l s' :
  mgr_ok n (mgr s) -> 0 <= n < UINT64_MAX -> step s l s' ->
  exists n', n <= n' <= n + 1 /\ mgr_ok n' (mgr s') /\ desk_step (desk_of (mgr s)) l = Some (desk_of (mgr s')).
Proof.
  intros Hok Hn Hst. destruct Hst as [m w p tool agent params now now_ms a1 a2 a3 a4 He Hw Hp Hu|m w p r d now_ms Hw Hr Hwt
    |m w p r d now_ms wf Hw Hr Hc|m w id d rc m' E]; cbn [mgr] in *.
  - exists (n + 1). split; [lia|]. by apply enter_ok.
  - exists n. split; [lia|]. split; [done|]. by apply (sleep_ok n m p r d now_ms).
  - exists n. split; [lia|]. by apply leave_ok with p.
  - exists n. split; [lia|]. by apply resolve_ok.
Qed.

(** A manager of [interactive_approval_create]: no requests. *)
Definition start (timeout : Z) : sys := mkSys (mkMgr true timeout [] 0) ∅.

Lemma run_desk timeout tr s :
  run (start timeout) tr s -> Z.of_nat (length tr) <= UINT64_MAX ->
  (exists n, 0 <= n <= Z.of_nat (length tr) /\ mgr_ok n (mgr s)) /\ desk_run (∅, O) tr = Some (desk_of (mgr s)).
Proof.
  intros Hrun. remember (start timeout) as s0 eqn:E0. induction Hrun as [s|s tr s1 l s2 Hrun IH Hst]; intros Hlen.
  { subst. split; [|done]. exists 0. split; [done|]. split_and!; [done|apply Forall_nil; done|apply NoDup_nil; done]. }
  rewrite length_app in *. cbn [length] in *. destruct (IH E0 ltac:(lia)) as [(n & Hn & Hok) Hd].
  destruct (step_desk n s1 l s2 Hok ltac:(lia) Hst) as (n' & Hn' & Hok' & Hd').
  split; [exists n'; split; [lia|done]|]. rewrite desk_run_snoc, Hd. exact Hd'.
Qed.

(** C15.  Whatever the interleaving of workers and deciders, and whichever of the
    copies of a request fail, the manager behaves as a desk of requests with
    distinct identifiers, each decided at most once: a decision succeeds exactly
    for an identifier that is pending and undecided, a worker sleeps only while
    its request is undecided, and it returns the one decision that was made for
    its own identifier, or a denial when none was.  A request whose identifier
    could not be copied is never decided and its worker is denied; as long as no
    such request is pending every decision returns (with one pending, a decision
    may compare its missing identifier). *)
Theorem manager_refines (timeout : Z) (tr : list label) (s : sys) :
  run (start timeout) tr s -> Z.of_nat (length tr) <= UINT64_MAX ->
  exists pend anon, desk_run (∅, O) tr = Some (pend, anon) /\ pend = pend_of (head (mgr s)) /\
    (anon = O -> forall id d, interactive_approval_resolve (mgr s) id d <> None).
Proof.
  intros Hr Hl. destruct (run_desk timeout tr s Hr Hl) as [(n & _ & Hok) Hd].
  exists (pend_of (head (mgr s))), (nameless (head (mgr s))). split_and!; [done|done|].
  intros Ha id d E. pose proof (resolve_fault n _ id d Hok E). lia.
Qed.

(** On the desk, an answer that is not a denial was given. *)
Lemma desk_consent tr : forall k k' id o,
  desk_run k (tr ++ [LLeave id o]) = Some k' -> o <> AIRY_APPROVAL_DENIED ->
  exists i, id = Some i /\
    (k.1 !! i = Some (Some o) \/ exists d, LResolve (Some i) (Some d) AIRY_SUCCESS ∈ tr /\ decision_of d = Some o).
Proof.
  induction tr as [|l tr IH]; intros [pend anon] k' id o E Ho.
  { cbn in E. destruct id as [i|]; [|destruct anon; [done|]; by case_bool_decide]. exists i. split; [done|]. left. cbn.
    destruct (pend !! i) as [d|]; [|done]. case_bool_decide as Hb; [|done]. destruct d; cbn in Hb; by subst. }
  change ((l :: tr) ++ [LLeave id o]) with (l :: (tr ++ [LLeave id o])) in E. cbn [desk_run] in E.
  destruct (desk_step (pend, anon) l) as [[pend1 anon1]|] eqn:El; [|done].
  destruct (IH _ _ _ _ E Ho) as (i & -> & [Hp|(d & Hin & Hd)]); exists i; (split; [done|]);
    [|right; exists d; split; [by right|done]].
  cbn [fst] in *.
  destruct l as [[j|]|[j|]|[j|] o'|[j|] [d|] rc]; cbn in El; repeat case_match; simplify_eq; try (by left);
    try (destruct (decide (j = i)) as [->|Hne];
         [rewrite ?lookup_insert_eq, ?lookup_delete_eq in Hp; simplify_eq
         |rewrite ?lookup_insert_ne, ?lookup_delete_ne in Hp by done; by left]).
  case_bool_decide; [|done]. subst. right. exists d. split; [by left|done].
Qed.

(** A worker is let through only when somebody decided so, with the very
    identifier of its request. *)
Theorem no_consent_no_answer (timeout : Z) (tr : list label) (s s' : sys) (id : option string) (o : airy_approval_outcome_t) :
  run (start timeout) tr s -> Z.of_nat (length tr) < UINT64_MAX -> step s (LLeave id o) s' -> o <> AIRY_APPROVAL_DENIED ->
  exists i d, id = Some i /\ LResolve (Some i) (Some d) AIRY_SUCCESS ∈ tr /\ decision_of d = Some o.
Proof.
  intros Hr Hl Hst Ho. assert (Hr' : run (start timeout) (tr ++ [LLeave id o]) s') by (by eapply run_snoc).
  destruct (run_desk timeout _ s' Hr') as [_ Hd]; [rewrite length_app; cbn [length]; lia|].
  destruct (desk_consent tr _ _ _ _ Hd Ho) as (i & -> & [Hp|(d & Hx)]); [by cbn [fst] in Hp; rewrite lookup_empty in Hp|]. by exists i, d.
Qed.

(** ** Progress *)

Lemma find_req_Some p l : is_Some (find_req p l) <-> p ∈ (ptr <$> l).
Proof.
  unfold find_req. induction l as [|r l IH]; cbn; [by rewrite elem_of_nil; split; [intros [? ?]|]|].
  rewrite elem_of_cons, <- IH. case_bool_decide as Hp; [subst; split; [by left|intros _; by eexists]|].
  split; [by right|]. intros [->|?]; done.
Qed.

Lemma unlink_ptrs p q l : NoDup (ptr <$> l) -> q ∈ (ptr <$> unlink p l) <-> q <> p /\ q ∈ (ptr <$> l).
Proof.
  induction l as [|r l IH]; cbn; intros Hnd; [by rewrite elem_of_nil; tauto|]. apply NoDup_cons in Hnd as [Hni Hnd].
  rewrite elem_of_cons. case_bool_decide as Hp; [subst|cbn; rewrite elem_of_cons, (IH Hnd)].
  - split; [intros Hq; split; [intros ->; done|by right]|]. intros [Hne [->|Hq]]; done.
  - split; [intros [->|[? ?]]; tauto|tauto].
Qed.

Lemma unlink_nodup p l : NoDup (ptr <$> l) -> NoDup (ptr <$> unlink p l).
Proof.
  induction l as [|r l IH]; cbn; intros Hnd; [done|]. pose proof Hnd as [Hni Hnd']%NoDup_cons.
  case_bool_decide; [done|]. cbn. apply NoDup_cons. split; [|by apply IH]. rewrite unlink_ptrs by done. tauto.
Qed.

Lemma resolve_in_ptrs id o l rc l' : resolve_in id o l = Some (rc, l') -> (ptr <$> l') = (ptr <$> l).
Proof.
  revert l'. induction l as [|r l IH]; cbn; intros l' E; [by simplify_eq|].
  destruct (request_id r); [|done]. destruct (strcmp_eq _ _); [destruct (resolved r); by simplify_eq|].
  destruct (resolve_in id o l) as [[rc0 l0]|]; [|done]. simplify_eq. cbn. f_equal. by apply IH.
Qed.

(** The workers that wait are those with a request in the list. *)
Definition workers_ok (s : sys) : Prop :=
  NoDup (ptr <$> head (mgr s)) /\ forall p, is_Some (waiting s !! p) <-> p ∈ (ptr <$> head (mgr s)).

Lemma step_workers s l s' : workers_ok s -> step s l s' -> workers_ok s'.
Proof.
  intros [Hnd Hw] Hst. destruct Hst as [m w p tool agent params now now_ms a1 a2 a3 a4 He Hwp Hp Hu|m w p r d now_ms Hwp Hr Hwt
    |m w p r d now_ms wf Hwp Hr Hc|m w id d rc m' E]; unfold workers_ok in *; cbn [mgr waiting] in *.
  - cbn [block_enter head]. rewrite fmap_app. cbn. split.
    + apply NoDup_app. split_and!; [done| |by apply NoDup_singleton]. intros x Hx ->%list_elem_of_singleton.
      apply find_req_Some in Hx as [? ?]. by simplify_eq.
    + intros q. rewrite elem_of_app, list_elem_of_singleton, <- Hw. cbn.
      destruct (decide (q = p)) as [->|Hne]; [rewrite lookup_insert_eq|rewrite lookup_insert_ne by done]; naive_solver.
  - done.
  - unfold find_req in Hr. apply find_some in Hr as [Hin Hb]. apply bool_decide_eq_true in Hb. subst p.
    cbn [block_leave snd head]. split; [by apply unlink_nodup|]. intros q. rewrite unlink_ptrs, <- Hw by done.
    destruct (decide (q = ptr r)) as [->|Hne]; [rewrite lookup_delete_eq|rewrite lookup_delete_ne by done]; [|tauto].
    split; [intros [? ?]; done|tauto].
  - unfold interactive_approval_resolve in E. destruct id as [id|]; [|by simplify_eq]. destruct d as [d|]; [|by simplify_eq].
    destruct (decision_of d); [|by simplify_eq]. destruct (resolve_in id _ (head m)) as [[rc' l']|] eqn:Er; [|done].
    simplify_eq. cbn [head]. by rewrite (resolve_in_ptrs _ _ _ _ _ Er).
Qed.

(** A worker never hangs past its time: whatever happened before, one that waits
    has its request in the list, and once that is decided, or the deadline has
    come, it leaves at its next turn. *)
Theorem worker_leaves (timeout : Z) (tr : list label) (s : sys) (p : positive) (deadline : Z) :
  run (start timeout) tr s -> waiting s !! p = Some deadline ->
  exists r, find_req p (head (mgr s)) = Some r /\
    forall now, resolved r = true \/ deadline <= now ->
      step s (LLeave (request_id r) (rq_outcome r)) (mkSys (block_leave (mgr s) r).2 (delete p (waiting s))).
Proof.
  intros Hrun Hp. assert (Hok : workers_ok s).
  { clear Hp. remember (start timeout) as s0 eqn:E0. induction Hrun as [s|s tr s1 l s2 Hrun IH Hst].
    - subst. split; [by apply NoDup_nil|]. intros q. cbn. rewrite lookup_empty, elem_of_nil. by split; [intros [? ?]|].
    - eapply step_workers; [|done]. auto. }
  destruct Hok as [_ Hw]. destruct (proj2 (find_req_Some p (head (mgr s)))) as [r Hr]; [apply Hw; by eexists|].
  exists r. split; [done|]. intros now Hc. destruct s as [m w]. cbn [mgr waiting] in *.
  apply (step_leave m w p r deadline now false Hp Hr). left. unfold waits.
  destruct Hc as [->|Hc]; [done|]. rewrite (proj2 (Z.ltb_ge now deadline)) by lia. by rewrite andb_false_r.
Qed.

(** ** Two workers *)

(** Two requests in the same millisecond; the second is allowed, and the first
    runs out of time. *)
Definition two_requests : list label :=
  [LEnter (Some "req_5_0"%string); LEnter (Some "req_5_1"%string); LResolve (Some "req_5_1"%string) (Some "allow"%string) AIRY_SUCCESS;
   LResolve (Some "req_5_1"%string) (Some "deny"%string) AIRY_ERR_STATE_ERROR;
   LLeave (Some "req_5_0"%string) AIRY_APPROVAL_DENIED; LLeave (Some "req_5_1"%string) AIRY_APPROVAL_ALLOWED].

Definition two_left : sys := mkSys (mkMgr true 100 [] 2) ∅.

Lemma two_requests_run : run (start 100) two_requests two_left.
Proof.
  pose (q0 := mkReq 1 (Some "req_5_0"%string) (Some "rm"%string) (Some "a"%string) (Some ""%string) 5 AIRY_APPROVAL_DENIED false).
  pose (q1 := mkReq 2 (Some "req_5_1"%string) (Some "ls"%string) (Some "a"%string) (Some ""%string) 5 AIRY_APPROVAL_DENIED false).
  pose (q1' := decide_req AIRY_APPROVAL_ALLOWED q1).
  pose (w2 := <[2%positive := 107]> (<[1%positive := 106]> (∅ : gmap positive Z))).
  change two_requests with ((((((([] ++ [LEnter (Some "req_5_0"%string)]) ++ [LEnter (Some "req_5_1"%string)]) ++
    [LResolve (Some "req_5_1"%string) (Some "allow"%string) AIRY_SUCCESS]) ++
    [LResolve (Some "req_5_1"%string) (Some "deny"%string) AIRY_ERR_STATE_ERROR]) ++
    [LLeave (Some "req_5_0"%string) AIRY_APPROVAL_DENIED]) ++ [LLeave (Some "req_5_1"%string) AIRY_APPROVAL_ALLOWED])).
  apply run_snoc with (mkSys (mkMgr true 100 [q1'] 2) (delete 1%positive w2)); [apply run_snoc with (mkSys (mkMgr true 100 [q0; q1'] 2) w2);
    [apply run_snoc with (mkSys (mkMgr true 100 [q0; q1'] 2) w2); [apply run_snoc with (mkSys (mkMgr true 100 [q0; q1] 2) w2);
    [apply run_snoc with (mkSys (mkMgr true 100 [q0] 1) (<[1%positive := 106]> ∅)); [apply run_snoc with (start 100); [apply run_nil|]|]|]|]|]|].
  - exact (step_enter (mkMgr true 100 [] 0) ∅ 1 "rm" (Some "a"%string) None 5 6 true true true true eq_refl eq_refl eq_refl ltac:(done)).
  - exact (step_enter (mkMgr true 100 [q0] 1) (<[1%positive := 106]> ∅) 2 "ls" (Some "a"%string) None 5 7 true true true true eq_refl eq_refl eq_refl ltac:(done)).
  - apply step_resolve. done.
  - apply step_resolve. done.
  - exact (step_leave (mkMgr true 100 [q0; q1'] 2) w2 1 q0 106 106 false eq_refl eq_refl (or_introl eq_refl)).
  - exact (step_leave (mkMgr true 100 [q1'] 2) (delete 1%positive w2) 2 q1' 107 50 false eq_refl eq_refl (or_introl eq_refl)).
Qed.

(** The refinement at this run. *)
Lemma manager_refines_witness :
  exists pend anon, desk_run (∅, O) two_requests = Some (pend, anon) /\ pend = ∅ /\
    (anon = O -> forall id d, interactive_approval_resolve (mgr two_left) id d <> None).
Proof. apply (manager_refines 100 two_requests two_left); [exact two_requests_run|vm_compute; discriminate]. Defined.

(** A request whose identifier could not be copied makes the next decision read
    through a null pointer. *)
Lemma missing_identifier (m : interactive_approval) p tool agent params now id d :
  head m = [] -> decision_of d <> None ->
  interactive_approval_resolve (block_enter m p tool agent params now false true true true) (Some id) (Some d) = None.
Proof.
  intros Hh Hd. unfold interactive_approval_resolve. destruct (decision_of d); [|done]. cbn [block_enter head]. by rewrite Hh.
Qed.
