(* ===== verification/Expr.v ===== *)
(** * Expr

    The expression evaluator of maths_d (maths_d/src/expr/expr_eval.c): a
    recursive-descent parser that computes while it reads.  Arithmetic is
    binary64; the functions of the mathematical library whose values the C
    standard leaves to the implementation are operations of the class [Libm].

    The functions of the parser call each other; each is a definition over the
    functions it calls ([self], indexed by [nt]) and [eval_parse] closes the
    recursion with fuel.  A failing parser reports its message and every caller
    returns at once, so the message is the result.  [eval_exact] says what the
    evaluator computes: the grammar [derives] and the value [denote]. *)

From Stdlib Require Import SpecFloat.
From S2P Require Import Prelude Doubles.

Definition MATHS_MAX_EXPR_LEN : nat := 4096.
Definition MATHS_MAX_DEPTH : Z := 64.

(** ** Numbers *)

Inductive fn1 :=
| FnSqrt | FnSin | FnCos | FnTan | FnAsin | FnAcos | FnAtan | FnExp | FnLog | FnLog10 | FnLog2
| FnAbs | FnFloor | FnCeil | FnRound | FnSign | FnSinh | FnCosh | FnTanh | FnCbrt.

Class Libm := {
  libm1 : fn1 -> double -> double;
  d_pow : double -> double -> double;
  d_atan2 : double -> double -> double;
  d_fmod : double -> double -> double;
  d_remainder : double -> double -> double
}.

(** [m * 10^k], correctly rounded. *)
Definition dec_value (m k : Z) : double :=
  match m with
  | Zpos p =>
      if 0 <=? k then d_of_Z (m * 10 ^ k)
      else SFdiv 53 1024 (S754_finite false p 0) (S754_finite false (Z.to_pos (10 ^ (- k))) 0)
  | _ => d_zero
  end.

Definition d_pi : double := dec_value 314159265358979323846 (-20).
Definition d_e : double := dec_value 271828182845904523536 (-20).

Definition maths_sign (x : double) : double :=
  if dlt x d_zero then d_of_Z (-1) else if dlt d_zero x then d_of_Z 1 else d_zero.

Definition is_finite (x : double) : bool :=
  match x with S754_nan | S754_infinity _ => false | _ => true end.

(** ** Characters and literals *)

Definition isalpha (c : ascii) : bool :=
  let n := nat_of_ascii c in
  ((65 <=? n) && (n <=? 90) || (97 <=? n) && (n <=? 122))%nat.

Definition isalnum (c : ascii) : bool := isalpha c || is_dec c.

Definition maths_is_ident_start (c : ascii) : bool := isalpha c || Ascii.eqb c "_".
Definition maths_is_ident_char (c : ascii) : bool := isalnum c || Ascii.eqb c "_".
Definition maths_is_digit_char (c : ascii) : bool := is_dec c || Ascii.eqb c ".".

Definition maths_char_ok (c : ascii) : bool :=
  isalnum c || has_char c ("+-*/%^!(),._ " +:+ String "009" EmptyString).

Definition maths_charset_ok (expr : string) : bool :=
  negb (strcmp_eq expr "") && str_forallb maths_char_ok expr &&
  (String.length expr <=? MATHS_MAX_EXPR_LEN)%nat.

(** The longest prefix of characters in a class, and the rest. *)
Fixpoint span (p : ascii -> bool) (s : string) : string * string :=
  match s with
  | EmptyString => (EmptyString, EmptyString)
  | String c r => if p c then let '(a, b) := span p r in (String c a, b) else (EmptyString, s)
  end.

Definition is_ws (c : ascii) : bool := Ascii.eqb c " " || Ascii.eqb c "009".

(** Does the text start with the character?  Then what follows it. *)
Definition take_char (c : ascii) (s : string) : option string :=
  match s with String x r => if Ascii.eqb x c then Some r else None | EmptyString => None end.

(** A literal: digits, a fraction, an exponent with its letter, sign and digits. *)
Record num_lit := mkLit {
  l_int : string;
  l_frac : option string;
  l_exp : option (ascii * string * string)
}.

Definition lit_text (l : num_lit) : string :=
  l_int l +:+ match l_frac l with Some d => String "." d | None => EmptyString end +:+
  match l_exp l with Some (c, sg, d) => String c (sg +:+ d) | None => EmptyString end.

Definition digits_value (s : string) : Z := (dec_run s 0).1.

(** The value [strtod] gives to the text of a literal. *)
Definition lit_value (l : num_lit) : double :=
  let f := default "" (l_frac l) in
  let e := match l_exp l with
           | Some (_, sg, d) => if strcmp_eq sg "-" then - digits_value d else digits_value d
           | None => 0
           end in
  dec_value (digits_value (l_int l +:+ f)) (e - strlen f).

Definition scan_frac (s : string) : option string * string :=
  match take_char "." s with
  | Some r => let '(d, r) := span is_dec r in (Some d, r)
  | None => (None, s)
  end.

Definition is_exp (c : ascii) : bool := Ascii.eqb c "e" || Ascii.eqb c "E".
Definition is_sign (c : ascii) : bool := Ascii.eqb c "+" || Ascii.eqb c "-".

Definition scan_sign (s : string) : string * string :=
  match s with
  | String c r => if is_sign c then (String c EmptyString, r) else (EmptyString, s)
  | EmptyString => (EmptyString, s)
  end.

Definition scan_exp (s : string) : option (ascii * string * string) * string :=
  match s with
  | String c r =>
      if is_exp c then
        let '(sg, r1) := scan_sign r in
        let '(d, r2) := span is_dec r1 in
        if strcmp_eq d "" then (None, s) else (Some (c, sg, d), r2)
      else (None, s)
  | EmptyString => (None, s)
  end.

Definition scan_number (s : string) : num_lit * string :=
  let '(i, r) := span is_dec s in
  let '(f, r) := scan_frac r in
  let '(e, r) := scan_exp r in
  (mkLit i f e, r).

Definition has_digit (l : num_lit) : bool :=
  negb (strcmp_eq (l_int l) "") || negb (strcmp_eq (default "" (l_frac l)) "").

(** ** The state and the results of a parser *)

Record eval_ctx_t := mkEval { e_s : string; e_depth : Z; e_var : option string; e_var_val : double }.

Definition set_s (s : string) (c : eval_ctx_t) : eval_ctx_t :=
  mkEval s (e_depth c) (e_var c) (e_var_val c).

Definition set_depth (d : Z) (c : eval_ctx_t) : eval_ctx_t :=
  mkEval (e_s c) d (e_var c) (e_var_val c).

Inductive eval_res := Done (v : double) (c : eval_ctx_t) | Fail (msg : string) | NoFuel.

Definition res_bind (r : eval_res) (k : double -> eval_ctx_t -> eval_res) : eval_res :=
  match r with Done v c => k v c | Fail m => Fail m | NoFuel => NoFuel end.

Notation "'let*' v , c := r 'in' k" := (res_bind r (fun v c => k))
  (at level 200, v name, c name, r at level 100, k at level 200).

Definition eval_skip_ws (c : eval_ctx_t) : eval_ctx_t := set_s (skip_while is_ws (e_s c)) c.

Definition eval_parse_number (c : eval_ctx_t) : eval_res :=
  let '(l, r) := scan_number (e_s c) in
  if negb (has_digit l) || (64 <=? String.length (lit_text l))%nat then Fail "invalid number"
  else Done (lit_value l) (set_s r c).

Definition eval_take_rp (v : double) (c : eval_ctx_t) (msg : string) : eval_res :=
  let c := eval_skip_ws c in
  match take_char ")" (e_s c) with
  | Some r => Done v (set_s r c)
  | None => Fail msg
  end.

(** ** Functions *)

Section libm.
  Context `{Libm}.

Definition fn1_value (f : fn1) (x : double) : double :=
    match f with
    | FnSqrt => SFsqrt 53 1024 x
    | FnAbs => SFabs x
    | FnSign => maths_sign x
    | f => libm1 f x
    end.

Definition tbl1 : list (string * fn1) :=
    [("sqrt", FnSqrt); ("sin", FnSin); ("cos", FnCos); ("tan", FnTan); ("asin", FnAsin);
     ("acos", FnAcos); ("atan", FnAtan); ("exp", FnExp); ("ln", FnLog); ("log10", FnLog10);
     ("log2", FnLog2); ("abs", FnAbs); ("floor", FnFloor); ("ceil", FnCeil); ("round", FnRound);
     ("sign", FnSign); ("sinh", FnSinh); ("cosh", FnCosh); ("tanh", FnTanh); ("cbrt", FnCbrt)]%string.

Definition tbl2 : list (string * Z) :=
    [("min", 2); ("max", 2); ("pow", 2); ("log", -2); ("atan2", 2); ("mod", 2); ("remainder", 2);
     ("factorial", 1)]%string.

Definition tbl_find {A} (name : string) (t : list (string * A)) : option A :=
    snd <$> find (fun e => strcmp_eq e.1 name) t.

(** The function, [None] for the special ones, and the arity. *)
Definition eval_lookup_func (name : string) : option (option fn1 * Z) :=
    match tbl_find name tbl1 with
    | Some f => Some (Some f, 1)
    | None => match tbl_find name tbl2 with Some n => Some (None, n) | None => None end
    end.

(** [long double] is the 64-bit mantissa format of x86-64. *)
Definition ld_mul : spec_float -> spec_float -> spec_float := SFmul 64 16384.
Definition ld_of_Z (n : Z) : spec_float := binary_normalize 64 16384 n 0 false.

Definition d_of_ld (x : spec_float) : double :=
    match x with
    | S754_finite s m e => binary_normalize 53 1024 (if s then Zneg m else Zpos m) e s
    | x => x
    end.

Fixpoint fact_loop (k : nat) (i : Z) (acc : spec_float) : spec_float :=
    match k with O => acc | S k' => fact_loop k' (i + 1) (ld_mul acc (ld_of_Z i)) end.

(** The conversion of NaN to an integer is undefined in C; any result passes
    the test that follows, and [d_trunc] gives 0. *)
Definition eval_fact (arg : double) : string + double :=
    if dlt arg d_zero || dlt (d_of_Z 170) arg then inl "factorial out of range"%string
    else
      let n := d_trunc (dadd arg (dec_value 1 (-9))) in
      if dlt (dec_value 1 (-6)) (SFabs (dsub arg (d_of_Z n)))
      then inl "factorial requires integer"%string
      else inr (d_of_ld (fact_loop (Z.to_nat (n - 1)) 2 (ld_of_Z 1))).

Definition lift (r : string + double) (c : eval_ctx_t) : eval_res :=
    match r with inl m => Fail m | inr v => Done v c end.

Definition call1_value (name : string) (fn : option fn1) (arg : double) : string + double :=
    match fn with
    | Some f => inr (fn1_value f arg)
    | None =>
        if strcmp_eq name "factorial" then eval_fact arg else inl "unsupported function"%string
    end.

Definition log_value (a b : double) : double :=
    if dlt d_zero b && negb (deq b (d_of_Z 1)) then ddiv (libm1 FnLog a) (libm1 FnLog b)
    else libm1 FnLog a.

Definition call2_value (name : string) (arity : Z) (a b : double) : string + double :=
    if negb (arity =? 2) then inl "unsupported function arity"%string
    else inr (if strcmp_eq name "min" then if dlt a b then a else b
              else if strcmp_eq name "max" then if dlt b a then a else b
              else if strcmp_eq name "pow" then d_pow a b
              else if strcmp_eq name "atan2" then d_atan2 a b
              else if strcmp_eq name "mod" then d_fmod a b
              else if strcmp_eq name "remainder" then d_remainder a b
              else d_zero).

(** ** The parser *)

(** The functions that are called recursively; the two loops carry the value
    computed so far. *)
Inductive nt := NExpr | NExprLoop (acc : double) | NTerm | NTermLoop (acc : double) | NUnary | NPower.

Section body.
    Context (self : nt -> eval_ctx_t -> eval_res).

Definition eval_call1 (c : eval_ctx_t) (name : string) (fn : option fn1) : eval_res :=
      let* arg, c := self NExpr c in
      let* arg, c := eval_take_rp arg c "missing ')' in function call" in
      lift (call1_value name fn arg) c.

Definition eval_call_log (c : eval_ctx_t) : eval_res :=
      let* a, c := self NExpr c in
      let c := eval_skip_ws c in
      match take_char "," (e_s c) with
      | Some r =>
          let* b, c := self NExpr (set_s r c) in
          let* b, c := eval_take_rp b c "missing ')' in log()" in
          Done (log_value a b) c
      | None =>
          let* a, c := eval_take_rp a c "missing ')' in log()" in
          Done (log_value a d_zero) c
      end.

Definition eval_call2 (c : eval_ctx_t) (name : string) (arity : Z) : eval_res :=
      let* a, c := self NExpr c in
      let c := eval_skip_ws c in
      match take_char "," (e_s c) with
      | None => Fail "missing ',' in function call"
      | Some r =>
          let* b, c := self NExpr (set_s r c) in
          let* b, c := eval_take_rp b c "missing ')' in function call" in
          lift (call2_value name arity a b) c
      end.

Definition eval_parse_call (c : eval_ctx_t) (name : string) : eval_res :=
      let c := eval_skip_ws c in
      match take_char "(" (e_s c) with
      | None => Fail "unknown identifier"
      | Some r =>
          match eval_lookup_func name with
          | None => Fail "unknown function"
          | Some (fn, arity) =>
              let c := set_s r c in
              if arity =? 1 then eval_call1 c name fn
              else if arity =? -2 then eval_call_log c
              else eval_call2 c name arity
          end
      end.

Definition is_var (c : eval_ctx_t) (name : string) : bool :=
      match e_var c with Some v => strcmp_eq name v | None => false end.

Definition eval_parse_ident (c : eval_ctx_t) : eval_res :=
      let '(name, r) := span maths_is_ident_char (e_s c) in
      let c := set_s r c in
      if strcmp_eq name "pi" then Done d_pi c
      else if strcmp_eq name "e" then Done d_e c
      else if is_var c name then Done (e_var_val c) c
      else eval_parse_call c name.

Definition eval_parse_paren (c : eval_ctx_t) (r : string) : eval_res :=
      let* v, c := self NExpr (set_s r c) in eval_take_rp v c "missing ')'".

Definition eval_parse_primary (c : eval_ctx_t) : eval_res :=
      let c := eval_skip_ws c in
      let c := set_depth (e_depth c + 1) c in
      if MATHS_MAX_DEPTH <? e_depth c then Fail "expression too deep"
      else
        let r := match e_s c with
                 | String ch r =>
                     if Ascii.eqb ch "(" then eval_parse_paren c r
                     else if maths_is_ident_start ch then eval_parse_ident c
                     else if maths_is_digit_char ch then eval_parse_number c
                     else Fail "unexpected token"
                 | EmptyString => Fail "unexpected token"
                 end in
        let* v, c := r in Done v (set_depth (e_depth c - 1) c).

Definition eval_parse_power (c : eval_ctx_t) : eval_res :=
      let* v, c := eval_parse_primary c in
      let c := eval_skip_ws c in
      match take_char "^" (e_s c) with
      | Some r => let* rhs, c := self NPower (set_s r c) in Done (d_pow v rhs) c
      | None =>
          match take_char "!" (e_s c) with
          | Some r => lift (eval_fact v) (set_s r c)
          | None => Done v c
          end
      end.

Definition eval_parse_unary (c : eval_ctx_t) : eval_res :=
      let c := eval_skip_ws c in
      match take_char "-" (e_s c) with
      | Some r => let* v, c := self NUnary (set_s r c) in Done (SFopp v) c
      | None =>
          match take_char "+" (e_s c) with
          | Some r => self NUnary (set_s r c)
          | None => self NPower c
          end
      end.

Definition eval_term_loop (acc : double) (c : eval_ctx_t) : eval_res :=
      let c := eval_skip_ws c in
      match take_char "*" (e_s c) with
      | Some r => let* rhs, c := self NUnary (set_s r c) in self (NTermLoop (dmul acc rhs)) c
      | None =>
          match take_char "/" (e_s c) with
          | Some r =>
              let* rhs, c := self NUnary (set_s r c) in
              if deq rhs d_zero then Fail "division by zero" else self (NTermLoop (ddiv acc rhs)) c
          | None =>
              match take_char "%" (e_s c) with
              | Some r =>
                  let* rhs, c := self NUnary (set_s r c) in
                  if deq rhs d_zero then Fail "modulo by zero" else self (NTermLoop (d_fmod acc rhs)) c
              | None => Done acc c
              end
          end
      end.

Definition eval_parse_term (c : eval_ctx_t) : eval_res :=
      let* v, c := self NUnary c in self (NTermLoop v) c.

Definition eval_expr_loop (acc : double) (c : eval_ctx_t) : eval_res :=
      let c := eval_skip_ws c in
      match take_char "+" (e_s c) with
      | Some r => let* rhs, c := self NTerm (set_s r c) in self (NExprLoop (dadd acc rhs)) c
      | None =>
          match take_char "-" (e_s c) with
          | Some r => let* rhs, c := self NTerm (set_s r c) in self (NExprLoop (dsub acc rhs)) c
          | None => Done acc c
          end
      end.

Definition eval_parse_expr (c : eval_ctx_t) : eval_res :=
      let* v, c := self NTerm c in self (NExprLoop v) c.
End body.

Fixpoint eval_parse (fuel : nat) (n : nt) (c : eval_ctx_t) : eval_res :=
    match fuel with
    | O => NoFuel
    | S fuel' =>
        let self := eval_parse fuel' in
        match n with
        | NExpr => eval_parse_expr self c
        | NExprLoop acc => eval_expr_loop self acc c
        | NTerm => eval_parse_term self c
        | NTermLoop acc => eval_term_loop self acc c
        | NUnary => eval_parse_unary self c
        | NPower => eval_parse_power self c
        end
    end.

(** ** The entry points *)

Inductive eval_out := EvalOk (v : double) | EvalErr (msg : string) | EvalArgs | EvalFuel.

Definition eval_fuel (s : string) : nat := 8 * String.length s + 8.

(** [outs]: the result and message buffers are given. *)
Definition maths_d_eval_at (expr : option string) (var_name : option string) (var_value : double)
      (outs : bool) (err_msg_size : nat) : eval_out :=
    match expr with
    | None => EvalArgs
    | Some expr =>
        if negb outs || (err_msg_size =? 0)%nat then EvalArgs
        else
          let err m := EvalErr (snprintf_s err_msg_size m) in
          if negb (maths_charset_ok expr) then err "expression contains invalid characters"%string
          else
            match eval_parse (eval_fuel expr) NExpr (mkEval expr 0 var_name var_value) with
            | NoFuel => EvalFuel
            | Fail m => err m
            | Done v c =>
                let c := eval_skip_ws c in
                if negb (strcmp_eq (e_s c) "")
                then err ("unexpected trailing input at '" +:+ e_s c +:+ "'")%string
                else if negb (is_finite v) then err "result is not finite (NaN/Inf)"%string
                else EvalOk v
            end
    end.

Definition maths_d_eval (expr : option string) (outs : bool) (err_msg_size : nat) : eval_out :=
    maths_d_eval_at expr None d_zero outs err_msg_size.
End libm.

(** A library to run the evaluator with. *)
Definition toy_libm : Libm := {|
  libm1 := fun _ x => x; d_pow := dmul; d_atan2 := ddiv; d_fmod := dsub; d_remainder := dsub |}.

Example pi_value : d_pi = S754_finite false 7074237752028440 (-51).
Proof. vm_compute. reflexivity. Qed.

Example eval_seven : @maths_d_eval toy_libm (Some " 1 + 2*3"%string) true 64 = EvalOk (d_of_Z 7).
Proof. vm_compute. reflexivity. Qed.

Example eval_fact_five : @maths_d_eval toy_libm (Some "factorial(5) - 3!*10.5e+0/ 2"%string) true 64
  = EvalOk (dec_value 885 (-1)).
Proof. vm_compute. reflexivity. Qed.

(** ** The language *)

Inductive ast :=
| ENum (l : num_lit) | EPi | EE | EVar
| EParen (a : ast)
| ECall1 (name : string) (a : ast)
| ELog1 (a : ast) | ELog2 (a b : ast)
| ECall2 (name : string) (a b : ast)
| EPow (a b : ast) | EFact (a : ast)
| ENeg (a : ast) | EPos (a : ast)
| EMul (a b : ast) | EDiv (a b : ast) | EMod (a b : ast)
| EAdd (a b : ast) | ESub (a b : ast).

(** How deeply primary expressions are nested. *)
Fixpoint nest (a : ast) : Z :=
  match a with
  | ENum _ | EPi | EE | EVar => 1
  | EParen a | ECall1 _ a | ELog1 a => 1 + nest a
  | ELog2 a b | ECall2 _ a b => 1 + Z.max (nest a) (nest b)
  | EPow a b | EMul a b | EDiv a b | EMod a b | EAdd a b | ESub a b => Z.max (nest a) (nest b)
  | EFact a | ENeg a | EPos a => nest a
  end.

Definition right (r : string + double) : option double :=
  match r with inr v => Some v | inl _ => None end.

(** The categories; the two tails carry the expression on their left. *)
Inductive cat := CExpr | CExprTail (a : ast) | CTerm | CTermTail (a : ast) | CUnary | CPower | CPrim.

Definition blank (w : string) : Prop := str_forallb is_ws w = true.

Record lit_ok (l : num_lit) : Prop := {
  lo_int : str_forallb is_dec (l_int l) = true;
  lo_frac : str_forallb is_dec (default "" (l_frac l)) = true;
  lo_exp : match l_exp l with
           | Some (c, sg, d) =>
               is_exp c = true /\ (sg = "" \/ sg = "+" \/ sg = "-")%string /\
               str_forallb is_dec d = true /\ d <> ""%string
           | None => True
           end;
  lo_some : has_digit l = true;
  lo_len : (String.length (lit_text l) < 64)%nat
}.

Definition ident_ok (name : string) : Prop :=
  str_forallb maths_is_ident_char name = true /\
  exists c r, name = String c r /\ maths_is_ident_start c = true.

Section language.
  Context `{Libm} (var : option string) (x : double).

Fixpoint denote (a : ast) : option double :=
    match a with
    | ENum l => Some (lit_value l)
    | EPi => Some d_pi
    | EE => Some d_e
    | EVar => Some x
    | EParen a | EPos a => denote a
    | ECall1 name a =>
        v ← denote a;
        match eval_lookup_func name with Some (fn, _) => right (call1_value name fn v) | None => None end
    | ELog1 a => v ← denote a; Some (log_value v d_zero)
    | ELog2 a b => v ← denote a; w ← denote b; Some (log_value v w)
    | ECall2 name a b =>
        v ← denote a; w ← denote b;
        match eval_lookup_func name with Some (_, n) => right (call2_value name n v w) | None => None end
    | EPow a b => v ← denote a; w ← denote b; Some (d_pow v w)
    | EFact a => v ← denote a; right (eval_fact v)
    | ENeg a => v ← denote a; Some (SFopp v)
    | EMul a b => v ← denote a; w ← denote b; Some (dmul v w)
    | EDiv a b => v ← denote a; w ← denote b; if deq w d_zero then None else Some (ddiv v w)
    | EMod a b => v ← denote a; w ← denote b; if deq w d_zero then None else Some (d_fmod v w)
    | EAdd a b => v ← denote a; w ← denote b; Some (dadd v w)
    | ESub a b => v ← denote a; w ← denote b; Some (dsub v w)
    end.

Definition free_name (name : string) : Prop :=
    ident_ok name /\ name <> "pi"%string /\ name <> "e"%string /\ var <> Some name.

(** [derives c s a]: the text [s] is an expression of category [c], read as [a]. *)
Inductive derives : cat -> string -> ast -> Prop :=
| d_num w l : blank w -> lit_ok l -> derives CPrim (w +:+ lit_text l) (ENum l)
| d_const_pi w : blank w -> derives CPrim (w +:+ "pi") EPi
| d_const_e w : blank w -> derives CPrim (w +:+ "e") EE
| d_var w name : blank w -> ident_ok name -> name <> "pi"%string -> name <> "e"%string ->
    var = Some name -> derives CPrim (w +:+ name) EVar
| d_paren w s a w' : blank w -> derives CExpr s a -> blank w' ->
    derives CPrim (w +:+ String "(" (s +:+ w' +:+ ")")) (EParen a)
| d_call1 w name fn w1 s a w2 : blank w -> free_name name -> eval_lookup_func name = Some (fn, 1) ->
    blank w1 -> derives CExpr s a -> blank w2 ->
    derives CPrim (w +:+ name +:+ w1 +:+ String "(" (s +:+ w2 +:+ ")")) (ECall1 name a)
| d_log1 w w1 s a w2 : blank w -> free_name "log" -> blank w1 -> derives CExpr s a -> blank w2 ->
    derives CPrim (w +:+ "log" +:+ w1 +:+ String "(" (s +:+ w2 +:+ ")")) (ELog1 a)
| d_log2 w w1 s a w2 t b w3 : blank w -> free_name "log" -> blank w1 -> derives CExpr s a ->
    blank w2 -> derives CExpr t b -> blank w3 ->
    derives CPrim (w +:+ "log" +:+ w1 +:+ String "(" (s +:+ w2 +:+ String "," (t +:+ w3 +:+ ")"))) (ELog2 a b)
| d_call2 w name fn w1 s a w2 t b w3 : blank w -> free_name name ->
    eval_lookup_func name = Some (fn, 2) -> blank w1 -> derives CExpr s a -> blank w2 ->
    derives CExpr t b -> blank w3 ->
    derives CPrim (w +:+ name +:+ w1 +:+ String "(" (s +:+ w2 +:+ String "," (t +:+ w3 +:+ ")"))) (ECall2 name a b)
| d_power s a w : derives CPrim s a -> blank w -> derives CPower (s +:+ w) a
| d_caret s a w t b : derives CPrim s a -> blank w -> derives CPower t b ->
    derives CPower (s +:+ w +:+ String "^" t) (EPow a b)
| d_bang s a w : derives CPrim s a -> blank w -> derives CPower (s +:+ w +:+ "!") (EFact a)
| d_unary s a : derives CPower s a -> derives CUnary s a
| d_neg w s a : blank w -> derives CUnary s a -> derives CUnary (w +:+ String "-" s) (ENeg a)
| d_pos w s a : blank w -> derives CUnary s a -> derives CUnary (w +:+ String "+" s) (EPos a)
| d_term s a t e : derives CUnary s a -> derives (CTermTail a) t e -> derives CTerm (s +:+ t) e
| d_term_end a w : blank w -> derives (CTermTail a) w a
| d_mul a w s b t e : blank w -> derives CUnary s b -> derives (CTermTail (EMul a b)) t e ->
    derives (CTermTail a) (w +:+ String "*" (s +:+ t)) e
| d_div a w s b t e : blank w -> derives CUnary s b -> derives (CTermTail (EDiv a b)) t e ->
    derives (CTermTail a) (w +:+ String "/" (s +:+ t)) e
| d_mod a w s b t e : blank w -> derives CUnary s b -> derives (CTermTail (EMod a b)) t e ->
    derives (CTermTail a) (w +:+ String "%" (s +:+ t)) e
| d_expr s a t e : derives CTerm s a -> derives (CExprTail a) t e -> derives CExpr (s +:+ t) e
| d_expr_end a w : blank w -> derives (CExprTail a) w a
| d_add a w s b t e : blank w -> derives CTerm s b -> derives (CExprTail (EAdd a b)) t e ->
    derives (CExprTail a) (w +:+ String "+" (s +:+ t)) e
| d_sub a w s b t e : blank w -> derives CTerm s b -> derives (CExprTail (ESub a b)) t e ->
    derives (CExprTail a) (w +:+ String "-" (s +:+ t)) e.
End language.

(** ** Scanning *)

Lemma span_app p s : (span p s).1 +:+ (span p s).2 = s.
Proof. induction s as [|c s IH]; simpl; [done|]. destruct (p c); [|done]. destruct (span p s) as [u v]. cbn [fst snd] in *. by rewrite str_app_cons, IH. Qed.

Lemma span_forallb p s : str_forallb p (span p s).1 = true.
Proof.
  induction s as [|c s IH]; simpl; [done|]. destruct (p c) eqn:E; [|done]. destruct (span p s). simpl in *.
  by rewrite E.
Qed.

(** The text does not start with a character of the class. *)
Definition starts (p : ascii -> bool) (s : string) : bool :=
  match s with String c _ => p c | EmptyString => false end.

Lemma span_exact p a b : str_forallb p a = true -> starts p b = false -> span p (a +:+ b) = (a, b).
Proof.
  induction a as [|c a IH]; simpl; intros Ha Hb.
  - destruct b as [|c b]; simpl in *; [done|]. by rewrite Hb.
  - apply andb_true_iff in Ha as [-> Ha]. by rewrite IH.
Qed.

Lemma skip_span p s : skip_while p s = (span p s).2.
Proof. induction s as [|c s IH]; simpl; [done|]. destruct (p c); [|done]. rewrite IH. by destruct (span p s). Qed.

Lemma skip_app p a b : str_forallb p a = true -> skip_while p (a +:+ b) = skip_while p b.
Proof. induction a as [|c a IH]; simpl; [done|]. intros [-> Ha]%andb_true_iff. by apply IH. Qed.

Lemma skip_stop p s : starts p s = false -> skip_while p s = s.
Proof. destruct s as [|c s]; simpl; [done|]. by intros ->. Qed.

Lemma skip_idem p s : skip_while p (skip_while p s) = skip_while p s.
Proof. induction s as [|c s IH]; simpl; [done|]. destruct (p c) eqn:E; [done|]. simpl. by rewrite E. Qed.

Lemma skip_split s : exists w, blank w /\ s = w +:+ skip_while is_ws s.
Proof. exists (span is_ws s).1. split; [apply span_forallb|]. by rewrite skip_span, span_app. Qed.

Lemma take_char_Some c s r : take_char c s = Some r <-> s = String c r.
Proof.
  unfold take_char. destruct s as [|x s]; [done|]. destruct (Ascii.eqb_spec x c); split; intros [= <-]; congruence.
Qed.

Lemma take_char_other c x s : Ascii.eqb x c = false -> take_char c (String x s) = None.
Proof. intros E. simpl. by rewrite E. Qed.

Definition ext_char (c : ascii) : bool := maths_is_ident_char c || Ascii.eqb c ".".

Lemma ident_start_char c : maths_is_ident_start c = true -> maths_is_ident_char c = true.
Proof.
  unfold maths_is_ident_start, maths_is_ident_char, isalnum. destruct (isalpha c); [done|]. simpl.
  intros ->. apply orb_true_r.
Qed.

Lemma ext_dec s : starts ext_char s = false -> starts is_dec s = false.
Proof.
  destruct s as [|c s]; simpl; [done|]. unfold ext_char, maths_is_ident_char, isalnum.
  destruct (is_dec c); [|done]. by rewrite orb_true_r.
Qed.

Lemma ext_dot s : starts ext_char s = false -> take_char "." s = None.
Proof.
  destruct s as [|c s]; simpl; [done|]. unfold ext_char. destruct (Ascii.eqb c "."); [|done].
  by rewrite orb_true_r.
Qed.

Lemma is_exp_alpha c : is_exp c = true -> isalpha c = true.
Proof. unfold is_exp. intros [->%Ascii.eqb_eq| ->%Ascii.eqb_eq]%orb_true_iff; reflexivity. Qed.

Lemma ext_exp s : starts ext_char s = false -> scan_exp s = (None, s).
Proof.
  destruct s as [|c s]; simpl; [done|]. unfold ext_char, maths_is_ident_char, isalnum.
  destruct (is_exp c) eqn:E; [|done]. by rewrite (is_exp_alpha _ E).
Qed.

Lemma scan_exp_sound s :
  let '(e, r) := scan_exp s in
  s = match e with Some (c, sg, d) => String c (sg +:+ d) | None => EmptyString end +:+ r /\
  match e with
  | Some (c, sg, d) => is_exp c = true /\ (sg = "" \/ sg = "+" \/ sg = "-")%string /\
                       str_forallb is_dec d = true /\ d <> ""%string
  | None => True
  end.
Proof.
  unfold scan_exp. destruct s as [|c s]; [done|]. destruct (is_exp c) eqn:E; [|done].
  assert (forall sg r1, scan_sign s = (sg, r1) -> s = sg +:+ r1 /\ (sg = "" \/ sg = "+" \/ sg = "-")%string) as Hs.
  { intros sg r1. unfold scan_sign, is_sign. destruct s as [|x s]; [intros [= <- <-]; auto|].
    destruct (Ascii.eqb_spec x "+") as [->|]; [intros [= <- <-]; auto|].
    destruct (Ascii.eqb_spec x "-") as [->|]; [intros [= <- <-]; auto|]. intros [= <- <-]. auto. }
  destruct (scan_sign s) as [sg r1]. destruct (Hs _ _ eq_refl) as [-> Hsg].
  pose proof (span_app is_dec r1) as H1. pose proof (span_forallb is_dec r1) as H2.
  destruct (span is_dec r1) as [d r2]. cbn [fst snd] in *. destruct (strcmp_eq d "") eqn:Ed; [done|].
  apply strcmp_eq_false in Ed. split; [by rewrite str_app_cons, <- H1, str_app_assoc|done].
Qed.

Lemma scan_exp_exact c sg d r :
  is_exp c = true -> (sg = "" \/ sg = "+" \/ sg = "-")%string -> str_forallb is_dec d = true ->
  d <> ""%string -> starts is_dec r = false ->
  scan_exp (String c (sg +:+ d) +:+ r) = (Some (c, sg, d), r).
Proof.
  intros Hc Hsg Hd Hne Hr. rewrite str_app_cons. unfold scan_exp. rewrite Hc, str_app_assoc.
  assert (scan_sign (sg +:+ d +:+ r) = (sg, d +:+ r)) as ->.
  { destruct Hsg as [->|[->| ->]]; try done. destruct d as [|x d]; [done|]. simpl in Hd. bool_cases.
    change ("" +:+ ?s) with s. rewrite str_app_cons. simpl.
    assert (is_sign x = false) as ->; [|done]. unfold is_sign.
    destruct (Ascii.eqb_spec x "+") as [->|]; [done|]. by destruct (Ascii.eqb_spec x "-") as [->|]. }
  rewrite span_exact by done. by rewrite (proj2 (strcmp_eq_false d "") Hne).
Qed.

Lemma scan_sound s l r :
  scan_number s = (l, r) -> has_digit l = true -> (String.length (lit_text l) < 64)%nat ->
  s = lit_text l +:+ r /\ lit_ok l.
Proof.
  unfold scan_number. pose proof (span_app is_dec s) as H1. pose proof (span_forallb is_dec s) as H2.
  destruct (span is_dec s) as [i r1]. cbn [fst snd] in *.
  assert (exists f r2, scan_frac r1 = (f, r2) /\ str_forallb is_dec (default "" f) = true /\
            r1 = match f with Some d => String "." d | None => EmptyString end +:+ r2) as (f & r2 & -> & Hf & Hr1).
  { unfold scan_frac. destruct (take_char "." r1) as [q|] eqn:Eq; [|by eexists None, r1].
    apply take_char_Some in Eq as ->. pose proof (span_app is_dec q) as Ha. pose proof (span_forallb is_dec q) as Hb.
    destruct (span is_dec q) as [d r2]. eexists (Some d), r2. cbn [fst snd] in *.
    by rewrite str_app_cons, Ha. }
  pose proof (scan_exp_sound r2) as He. destruct (scan_exp r2) as [e r3]. destruct He as [Hr2 He].
  intros [= <- <-] Hd Hl. split; [|by split]. unfold lit_text. cbn [l_int l_frac l_exp].
  rewrite !str_app_assoc. rewrite <- Hr2, <- Hr1. done.
Qed.

Lemma scan_exact l r : lit_ok l -> starts ext_char r = false -> scan_number (lit_text l +:+ r) = (l, r).
Proof.
  intros [Hi Hf He Hd _] Hr. destruct l as [i f e]. unfold lit_text, scan_number. cbn [l_int l_frac l_exp] in *.
  set (te := match e with Some (c, sg, d) => String c (sg +:+ d) | None => EmptyString end) in *.
  assert (scan_exp (te +:+ r) = (e, r)) as Hse.
  { subst te. destruct e as [[[c sg] d]|]; [|by apply ext_exp]. destruct He as (? & ? & ? & ?).
    by apply scan_exp_exact; [..|apply ext_dec]. }
  assert (starts is_dec (te +:+ r) = false /\ take_char "." (te +:+ r) = None) as [Hs1 Hs2].
  { subst te. destruct e as [[[c sg] d]|].
    - rewrite str_app_cons. destruct He as (Hc & _). unfold is_exp in Hc.
      apply orb_true_iff in Hc as [->%Ascii.eqb_eq| ->%Ascii.eqb_eq]; done.
    - change ("" +:+ r) with r. split; [by apply ext_dec|by apply ext_dot]. }
  rewrite !str_app_assoc. destruct f as [f|]; cbn [default] in Hf.
  - rewrite span_exact; [|done|done]. rewrite str_app_cons. unfold scan_frac. simpl. rewrite span_exact by done.
    by rewrite Hse.
  - change ("" +:+ ?s) with s. rewrite span_exact by done. unfold scan_frac. rewrite Hs2. by rewrite Hse.
Qed.

(** ** Termination *)

(** A result that leaves at most [b] characters. *)
Definition leaves (b : nat) (r : eval_res) : Prop :=
  match r with NoFuel => False | Fail _ => True | Done _ c => (String.length (e_s c) <= b)%nat end.

Lemma leaves_bind b b' r k :
  leaves b r -> (forall v c, (String.length (e_s c) <= b)%nat -> leaves b' (k v c)) -> leaves b' (res_bind r k).
Proof. destruct r; simpl; auto. Qed.

Lemma leaves_mono b b' r : leaves b r -> (b <= b')%nat -> leaves b' r.
Proof. destruct r; simpl; auto. lia. Qed.

Lemma skip_length p s : (String.length (skip_while p s) <= String.length s)%nat.
Proof. induction s as [|c s IH]; simpl; [done|]. destruct (p c); simpl; lia. Qed.

Lemma take_char_length c s r : take_char c s = Some r -> String.length s = S (String.length r).
Proof. by intros ->%take_char_Some. Qed.

Lemma scan_number_length s l r :
  scan_number s = (l, r) -> has_digit l = true -> (String.length (lit_text l) < 64)%nat ->
  (S (String.length r) <= String.length s)%nat.
Proof.
  intros H1 H2 H3. destruct (scan_sound _ _ _ H1 H2 H3) as [-> Hl]. rewrite str_length_app.
  assert (String.length (lit_text l) <> 0%nat); [|lia]. unfold lit_text. rewrite !str_length_app.
  unfold has_digit in H2. apply orb_true_iff in H2 as [E|E]; apply negb_true_iff, strcmp_eq_false in E.
  - by destruct (l_int l).
  - destruct (l_frac l); [simpl; lia|done].
Qed.

Definition rank (n : nt) : nat :=
  match n with NExpr => 5 | NTerm => 4 | NUnary => 3 | NPower => 2 | _ => 1 end.

Definition eats (n : nt) : nat := match n with NExprLoop _ | NTermLoop _ => 0 | _ => 1 end.

Section termination.
  Context `{Libm} (self : nt -> eval_ctx_t -> eval_res) (fuel : nat).
  Context (Hself : forall n c, (8 * String.length (e_s c) + rank n <= fuel)%nat ->
             leaves (String.length (e_s c) - eats n) (self n c)).

Lemma take_rp_leaves v c m b : (String.length (e_s c) <= b)%nat -> leaves b (eval_take_rp v c m).
Proof.
  intros Hb. unfold eval_take_rp. simpl. pose proof (skip_length is_ws (e_s c)).
  destruct (take_char ")" _) as [r|] eqn:E; simpl; [|done]. apply take_char_length in E. lia.
Qed.

Lemma expr_leaves c b :
  (String.length (e_s c) <= b)%nat -> (8 * b + 5 <= fuel)%nat -> leaves b (self NExpr c).
Proof. intros H1 H2. eapply leaves_mono; [apply Hself; simpl; lia|simpl; lia]. Qed.

Lemma lift_leaves r c b : (String.length (e_s c) <= b)%nat -> leaves b (lift r c).
Proof. by destruct r. Qed.

(** Everything that starts behind an opening parenthesis. *)
Lemma call_leaves c name b :
  (String.length (e_s c) <= S b)%nat -> (8 * b + 5 <= fuel)%nat -> leaves b (eval_parse_call self c name).
Proof.
  intros Hb Hf. unfold eval_parse_call. pose proof (skip_length is_ws (e_s c)) as Hk.
  destruct (take_char "(" _) as [r|] eqn:E; simpl; [|done]. apply take_char_length in E. simpl in E.
  destruct (eval_lookup_func name) as [[fn arity]|]; [|done].
  assert (leaves b (self NExpr (set_s r (eval_skip_ws c)))) as H1 by (apply expr_leaves; simpl; lia).
  destruct (arity =? 1); [|destruct (arity =? -2)];
    unfold eval_call1, eval_call_log, eval_call2; cbv zeta.
  - eapply leaves_bind; [exact H1|]. intros v c1 H2. eapply leaves_bind; [by apply take_rp_leaves|].
    intros. by apply lift_leaves.
  - eapply leaves_bind; [exact H1|]. intros v c1 H2. pose proof (skip_length is_ws (e_s c1)).
    destruct (take_char "," (e_s (eval_skip_ws c1))) as [r1|] eqn:E1.
    + apply take_char_length in E1. simpl in E1. eapply leaves_bind; [apply (expr_leaves _ b); simpl; lia|]. intros w c2 H3.
      eapply leaves_bind; [by apply take_rp_leaves|]. done.
    + eapply leaves_bind; [apply (take_rp_leaves _ _ _ b); simpl; lia|]. done.
  - eapply leaves_bind; [exact H1|]. intros v c1 H2. pose proof (skip_length is_ws (e_s c1)).
    destruct (take_char "," (e_s (eval_skip_ws c1))) as [r1|] eqn:E1; [|done]. apply take_char_length in E1. simpl in E1.
    eapply leaves_bind; [apply (expr_leaves _ b); simpl; lia|]. intros w c2 H3.
    eapply leaves_bind; [by apply take_rp_leaves|]. intros. by apply lift_leaves.
Qed.

Lemma primary_leaves c :
  (8 * String.length (e_s c) <= fuel)%nat -> leaves (String.length (e_s c) - 1) (eval_parse_primary self c).
Proof.
  intros Hf. unfold eval_parse_primary. destruct (MATHS_MAX_DEPTH <? _); [done|]. simpl.
  pose proof (skip_length is_ws (e_s c)) as Hk. destruct (skip_while is_ws (e_s c)) as [|ch r] eqn:Es; [done|].
  simpl in Hk. eapply leaves_bind; [|intros v c1 H1; exact H1].
  destruct (Ascii.eqb ch "("); [|destruct (maths_is_ident_start ch) eqn:Ei; [|destruct (maths_is_digit_char ch); [|done]]].
  - eapply leaves_bind; [apply (expr_leaves _ (String.length (e_s c) - 1)); simpl; lia|].
    intros. by apply take_rp_leaves.
  - unfold eval_parse_ident. cbn [e_s set_depth eval_skip_ws set_s]. rewrite Es.
    pose proof (span_app maths_is_ident_char (String ch r)) as Hs. simpl in Hs.
    pose proof (ident_start_char _ Ei) as Hc.
    cbn [span]. rewrite Hc in *. destruct (span maths_is_ident_char r) as [a q]. cbn [fst snd] in Hs.
    rewrite str_app_cons in Hs. injection Hs as Hs. assert (String.length q <= String.length r)%nat as Hq.
    { rewrite <- Hs, str_length_app. lia. }
    cbv zeta. destruct (strcmp_eq (String ch a) "pi"); [simpl; lia|].
    destruct (strcmp_eq (String ch a) "e"); [simpl; lia|].
    destruct (is_var _ (String ch a)); [simpl; lia|]. apply call_leaves; simpl; lia.
  - unfold eval_parse_number. cbn [e_s set_depth eval_skip_ws set_s]. rewrite Es. destruct (scan_number _) as [l q] eqn:El.
    destruct (negb (has_digit l) || _) eqn:Eh; [done|]. apply orb_false_iff in Eh as [H1%negb_false_iff H2%Nat.leb_gt].
    pose proof (scan_number_length _ _ _ El H1 H2). simpl in *. lia.
Qed.
End termination.

Lemma eval_parse_ends `{Libm} fuel n c :
  (8 * String.length (e_s c) + rank n <= fuel)%nat ->
  leaves (String.length (e_s c) - eats n) (eval_parse fuel n c).
Proof.
  revert n c. induction fuel as [|fuel IH]; intros n c Hf; [destruct n; simpl in Hf; lia|].
  pose proof (skip_length is_ws (e_s c)) as Hk.
  destruct n; cbn [eval_parse rank eats] in *.
  - eapply leaves_bind; [apply IH; simpl; lia|]. intros v c1 H1. simpl in H1.
    eapply leaves_mono; [apply IH; simpl; lia|simpl; lia].
  - unfold eval_expr_loop. cbv zeta. simpl.
    destruct (take_char "+" _) as [r|] eqn:E; [|destruct (take_char "-" _) as [r|] eqn:E2; [|simpl; lia]].
    + apply take_char_length in E. eapply leaves_bind; [apply IH; simpl; lia|]. intros v c1 H1. simpl in H1.
      eapply leaves_mono; [apply IH; simpl; lia|simpl; lia].
    + apply take_char_length in E2. eapply leaves_bind; [apply IH; simpl; lia|]. intros v c1 H1. simpl in H1.
      eapply leaves_mono; [apply IH; simpl; lia|simpl; lia].
  - eapply leaves_bind; [apply IH; simpl; lia|]. intros v c1 H1. simpl in H1.
    eapply leaves_mono; [apply IH; simpl; lia|simpl; lia].
  - unfold eval_term_loop. cbv zeta. simpl.
    destruct (take_char "*" _) as [r|] eqn:E; [|destruct (take_char "/" _) as [r|] eqn:E2;
      [|destruct (take_char "%" _) as [r|] eqn:E3; [|simpl; lia]]].
    + apply take_char_length in E. eapply leaves_bind; [apply IH; simpl; lia|]. intros v c1 H1. simpl in H1.
      eapply leaves_mono; [apply IH; simpl; lia|simpl; lia].
    + apply take_char_length in E2. eapply leaves_bind; [apply IH; simpl; lia|]. intros v c1 H1. simpl in H1.
      destruct (deq v d_zero); [done|]. eapply leaves_mono; [apply IH; simpl; lia|simpl; lia].
    + apply take_char_length in E3. eapply leaves_bind; [apply IH; simpl; lia|]. intros v c1 H1. simpl in H1.
      destruct (deq v d_zero); [done|]. eapply leaves_mono; [apply IH; simpl; lia|simpl; lia].
  - unfold eval_parse_unary. cbv zeta. simpl.
    destruct (take_char "-" _) as [r|] eqn:E; [|destruct (take_char "+" _) as [r|] eqn:E2].
    + apply take_char_length in E. eapply leaves_bind; [apply IH; simpl; lia|]. intros v c1 H1. simpl in *. lia.
    + apply take_char_length in E2. eapply leaves_mono; [apply IH; simpl; lia|simpl; lia].
    + eapply leaves_mono; [apply IH; simpl; lia|simpl; lia].
  - eapply leaves_bind; [apply (primary_leaves _ fuel IH); lia|]. intros v c1 H1. cbv zeta.
    pose proof (skip_length is_ws (e_s c1)). simpl.
    destruct (take_char "^" _) as [r|] eqn:E; [|destruct (take_char "!" _) as [r|] eqn:E2; [|simpl; lia]].
    + apply take_char_length in E. eapply leaves_bind; [apply IH; simpl; lia|]. intros w c2 H2. simpl in *. lia.
    + apply take_char_length in E2. apply lift_leaves. simpl. lia.
Qed.

(** ** Soundness *)

Lemma str_app_nil_l s : "" +:+ s = s.
Proof. done. Qed.

Ltac strs := repeat first [rewrite str_app_assoc | rewrite str_app_cons | rewrite str_app_nil_l].

Lemma bind_done r k v c :
  res_bind r k = Done v c -> exists v1 c1, r = Done v1 c1 /\ k v1 c1 = Done v c.
Proof. destruct r as [v1 c1| |]; simpl; [|done..]. eauto. Qed.

Lemma done_inj v c v' c' : Done v c = Done v' c' -> v = v' /\ c = c'.
Proof. by intros [= -> ->]. Qed.

Lemma lift_done r c v c' : lift r c = Done v c' -> right r = Some v /\ c' = c.
Proof. destruct r; simpl; [done|]. by intros [= -> ->]. Qed.

Lemma skip_ctx c : exists w, blank w /\ e_s c = w +:+ e_s (eval_skip_ws c).
Proof. apply skip_split. Qed.

Lemma take_rp_done v c m v' c' :
  eval_take_rp v c m = Done v' c' ->
  v' = v /\ c' = set_s (e_s c') c /\ exists w, blank w /\ e_s c = w +:+ String ")" (e_s c').
Proof.
  unfold eval_take_rp. destruct (skip_ctx c) as (w & Hw & Hs).
  destruct (take_char ")" _) as [r|] eqn:E; [|done]. apply take_char_Some in E. intros [<- <-]%done_inj.
  split; [done|]. split; [done|]. exists w. split; [done|]. by rewrite Hs, E.
Qed.

Lemma tbl_find_in {A} name (t : list (string * A)) a : tbl_find name t = Some a -> In (name, a) t.
Proof.
  unfold tbl_find. intros ([n b] & Hf & ->)%fmap_Some. apply find_some in Hf as [Hin Hn]. simpl in *.
  apply strcmp_eq_true in Hn as <-. exact Hin.
Qed.

Lemma lookup_log name fn : eval_lookup_func name = Some (fn, -2) -> name = "log"%string.
Proof.
  unfold eval_lookup_func. destruct (tbl_find name tbl1); [done|].
  destruct (tbl_find name tbl2) as [n|] eqn:E; [|done]. intros [= _ ->]. apply tbl_find_in in E.
  simpl in E. intuition congruence.
Qed.

Section soundness.
  Context `{Libm}.

(** The parser read an expression of category [k] and computed its value. *)
Definition reads (k : cat) (c : eval_ctx_t) (v : double) (c' : eval_ctx_t) : Prop :=
    c' = set_s (e_s c') c /\
    exists s a, e_s c = s +:+ e_s c' /\ derives (e_var c) k s a /\
      denote (e_var_val c) a = Some v /\ nest a + e_depth c <= MATHS_MAX_DEPTH.

Definition acc_ok (c : eval_ctx_t) (a : ast) (v : double) : Prop :=
    denote (e_var_val c) a = Some v /\ nest a + e_depth c <= MATHS_MAX_DEPTH.

Definition sound_for (n : nt) (c : eval_ctx_t) (v : double) (c' : eval_ctx_t) : Prop :=
    match n with
    | NExpr => reads CExpr c v c'
    | NExprLoop va => forall a, acc_ok c a va -> reads (CExprTail a) c v c'
    | NTerm => reads CTerm c v c'
    | NTermLoop va => forall a, acc_ok c a va -> reads (CTermTail a) c v c'
    | NUnary => reads CUnary c v c'
    | NPower => reads CPower c v c'
    end.

  Context (self : nt -> eval_ctx_t -> eval_res).
  Context (Hself : forall n c v c', self n c = Done v c' -> sound_for n c v c').

(** The argument list of a call with one argument. *)
Lemma arg1_sound c v c1 m v' c' :
  self NExpr c = Done v c1 -> eval_take_rp v c1 m = Done v' c' ->
  v' = v /\ c' = set_s (e_s c') c /\
  exists s a w, e_s c = s +:+ w +:+ String ")" (e_s c') /\ blank w /\
    derives (e_var c) CExpr s a /\ denote (e_var_val c) a = Some v /\ nest a + e_depth c <= MATHS_MAX_DEPTH.
Proof.
  intros [Hc (s & a & Hs & Hd & Hv & Hn)]%Hself (-> & Hc' & w & Hw & Hs1)%take_rp_done.
  split; [done|]. split; [by rewrite Hc', Hc|]. exists s, a, w. by rewrite Hs, Hs1.
Qed.

(** The argument list of a call with two arguments. *)
Lemma arg2_sound c v1 c1 r v2 c2 m v' c' :
  self NExpr c = Done v1 c1 -> take_char "," (e_s (eval_skip_ws c1)) = Some r ->
  self NExpr (set_s r (eval_skip_ws c1)) = Done v2 c2 -> eval_take_rp v2 c2 m = Done v' c' ->
  v' = v2 /\ c' = set_s (e_s c') c /\
  exists s a w t b w', e_s c = s +:+ w +:+ String "," (t +:+ w' +:+ String ")" (e_s c')) /\
    blank w /\ blank w' /\ derives (e_var c) CExpr s a /\ derives (e_var c) CExpr t b /\
    denote (e_var_val c) a = Some v1 /\ denote (e_var_val c) b = Some v2 /\
    Z.max (nest a) (nest b) + e_depth c <= MATHS_MAX_DEPTH.
Proof.
  intros [Hc (s & a & Hs & Hd & Hv & Hn)]%Hself Er%take_char_Some Hb Hr.
  destruct (arg1_sound _ _ _ _ _ _ Hb Hr) as (-> & Hc' & t & b & w' & Ht & Hw' & Hd2 & Hv2 & Hn2).
  rewrite Hc in Hc', Hd2, Hv2, Hn2. destruct (skip_ctx c1) as (w & Hw & Hs1). simpl in *.
  split; [done|]. split; [done|]. exists s, a, w, t, b, w'.
  rewrite Hs, Hs1, Er, Ht.
  repeat (split; [done|]). lia.
Qed.

Lemma call_sound c w name v c' :
  blank w -> free_name (e_var c) name -> eval_parse_call self c name = Done v c' ->
  c' = set_s (e_s c') c /\
  exists s a, w +:+ name +:+ e_s c = s +:+ e_s c' /\ derives (e_var c) CPrim s a /\
    denote (e_var_val c) a = Some v /\ nest a + e_depth c <= 1 + MATHS_MAX_DEPTH.
Proof.
  intros Hw Hf. unfold eval_parse_call. cbv zeta. destruct (skip_ctx c) as (w1 & Hw1 & Hs).
  destruct (take_char "(" _) as [r|] eqn:Er; [|done]. apply take_char_Some in Er.
  destruct (eval_lookup_func name) as [[fn arity]|] eqn:El; [|done].
  destruct (Z.eqb_spec arity 1) as [->|N1]; [|destruct (Z.eqb_spec arity (-2)) as [->|N2]].
  - unfold eval_call1. intros (v1 & c1 & H1 & (v2 & c2 & H2 & H3)%bind_done)%bind_done.
    apply lift_done in H3 as [H3 ->].
    destruct (arg1_sound _ _ _ _ _ _ H1 H2) as (-> & Hc & s & a & w2 & Ht & Hw2 & Hd & Hv & Hn).
    simpl in *. split; [done|].
    exists (w +:+ name +:+ w1 +:+ String "(" (s +:+ w2 +:+ ")")), (ECall1 name a).
    split; [rewrite Hs, Er, Ht; by strs|]. split; [by eapply d_call1|].
    split; [simpl; by rewrite Hv, El|]. simpl. lia.
  - assert (name = "log"%string) as ->.
    { by eapply lookup_log. }
    unfold eval_call_log. intros (v1 & c1 & H1 & H2)%bind_done.
    destruct (take_char "," _) as [r1|] eqn:E1.
    + apply bind_done in H2 as (v2 & c2 & H2 & (v3 & c3 & H3 & [= <- <-])%bind_done).
      destruct (arg2_sound _ _ _ _ _ _ _ _ _ H1 E1 H2 H3)
        as (-> & Hc & s & a & w2 & t & b & w3 & Ht & Hw2 & Hw3 & Hd & Hd2 & Hv & Hv2 & Hn).
      simpl in *. split; [done|].
      exists (w +:+ "log" +:+ w1 +:+ String "(" (s +:+ w2 +:+ String "," (t +:+ w3 +:+ ")"))), (ELog2 a b).
      split; [rewrite Hs, Er, Ht; by strs|]. split; [by eapply d_log2|].
      split; [simpl; by rewrite Hv, Hv2|]. simpl. lia.
    + apply bind_done in H2 as (v2 & c2 & H2 & [= <- <-]).
      assert (eval_take_rp v1 c1 "missing ')' in log()" = Done v2 c2) as H2'.
      { revert H2. unfold eval_take_rp, eval_skip_ws. simpl. by rewrite skip_idem. }
      destruct (arg1_sound _ _ _ _ _ _ H1 H2') as (-> & Hc & s & a & w2 & Ht & Hw2 & Hd & Hv & Hn).
      simpl in *. split; [done|].
      exists (w +:+ "log" +:+ w1 +:+ String "(" (s +:+ w2 +:+ ")")), (ELog1 a).
      split; [rewrite Hs, Er, Ht; by strs|]. split; [by eapply d_log1|].
      split; [simpl; by rewrite Hv|]. simpl. lia.
  - unfold eval_call2. intros (v1 & c1 & H1 & H2)%bind_done.
    destruct (take_char "," _) as [r1|] eqn:E1; [|done].
    apply bind_done in H2 as (v2 & c2 & H2 & (v3 & c3 & H3 & H4)%bind_done).
    apply lift_done in H4 as [H4 ->].
    destruct (arg2_sound _ _ _ _ _ _ _ _ _ H1 E1 H2 H3)
      as (-> & Hc & s & a & w2 & t & b & w3 & Ht & Hw2 & Hw3 & Hd & Hd2 & Hv & Hv2 & Hn).
    assert (arity = 2) as ->.
    { revert H4. unfold call2_value. destruct (Z.eqb_spec arity 2); [done|]. done. }
    simpl in *. split; [done|].
    exists (w +:+ name +:+ w1 +:+ String "(" (s +:+ w2 +:+ String "," (t +:+ w3 +:+ ")"))), (ECall2 name a b).
    split; [rewrite Hs, Er, Ht; by strs|]. split; [by eapply d_call2|].
    split; [simpl; by rewrite Hv, Hv2, El|]. simpl. lia.
Qed.

Lemma ident_sound c w ch r v c' :
  blank w -> e_s c = String ch r -> maths_is_ident_start ch = true -> e_depth c <= MATHS_MAX_DEPTH ->
  eval_parse_ident self c = Done v c' ->
  c' = set_s (e_s c') c /\
  exists s a, w +:+ e_s c = s +:+ e_s c' /\ derives (e_var c) CPrim s a /\
    denote (e_var_val c) a = Some v /\ nest a + e_depth c <= 1 + MATHS_MAX_DEPTH.
Proof.
  intros Hw Es Ei Hd. unfold eval_parse_ident. rewrite Es.
  pose proof (span_app maths_is_ident_char (String ch r)) as Ha.
  pose proof (span_forallb maths_is_ident_char (String ch r)) as Hb.
  cbn [span] in *. rewrite (ident_start_char _ Ei) in *.
  destruct (span maths_is_ident_char r) as [n q]. cbn [fst snd] in *. cbv zeta. set (name := String ch n) in *.
  assert (ident_ok name) as Hid by (split; [done|]; by exists ch, n). rewrite <- Ha.
  destruct (strcmp_eq name "pi") eqn:E1; [|destruct (strcmp_eq name "e") eqn:E2];
    [| |destruct (is_var _ name) eqn:E3].
  - intros [<- <-]%done_inj. apply strcmp_eq_true in E1 as ->. split; [done|].
    exists (w +:+ "pi"), EPi. split; [by strs|]. split; [by apply d_const_pi|]. split; [done|]. simpl. lia.
  - intros [<- <-]%done_inj. apply strcmp_eq_true in E2 as ->. split; [done|].
    exists (w +:+ "e"), EE. split; [by strs|]. split; [by apply d_const_e|]. split; [done|]. simpl. lia.
  - intros [<- <-]%done_inj. split; [done|]. exists (w +:+ name), EVar. split; [by strs|].
    split; [|split; [done|simpl; lia]]. apply strcmp_eq_false in E1, E2. unfold is_var in E3.
    change (e_var (set_s q c)) with (e_var c) in E3.
    destruct (e_var c) as [x|] eqn:Ex; [|done]. apply strcmp_eq_true in E3 as ->. by apply d_var.
  - intros H1. apply strcmp_eq_false in E1, E2. unfold is_var in E3.
    change (e_var (set_s q c)) with (e_var c) in E3.
    apply (call_sound _ w) in H1 as (Hc & s & a & Hq & Hd2 & Hv & Hn); [by split; [|exists s, a]|done|].
    split; [done|]. split; [done|]. split; [done|]. simpl. intros Ex. rewrite Ex in E3.
    by rewrite strcmp_eq_refl in E3.
Qed.

Lemma primary_sound c v c' : eval_parse_primary self c = Done v c' -> reads CPrim c v c'.
Proof.
  unfold eval_parse_primary. cbv zeta. destruct (skip_ctx c) as (w & Hw & Hs).
  set (c0 := set_depth _ _). destruct (Z.ltb_spec MATHS_MAX_DEPTH (e_depth c0)) as [|Hd]; [done|].
  intros (v1 & c1 & H1 & [= -> <-])%bind_done. simpl in Hd.
  assert (c1 = set_s (e_s c1) c0 /\
    exists s a, e_s c = s +:+ e_s c1 /\ derives (e_var c) CPrim s a /\
      denote (e_var_val c) a = Some v /\ nest a + e_depth c <= MATHS_MAX_DEPTH) as [Hc Hr].
  { revert H1. change (e_s c0) with (e_s (eval_skip_ws c)).
    destruct (e_s (eval_skip_ws c)) as [|ch r] eqn:Es; [done|]. destruct (Ascii.eqb_spec ch "(") as [->|_];
    [|destruct (maths_is_ident_start ch) eqn:Ei; [|destruct (maths_is_digit_char ch); [|done]]].
    - intros (v2 & c2 & H2 & H3)%bind_done.
      destruct (arg1_sound _ _ _ _ _ _ H2 H3) as (-> & Hc & s & a & w2 & Ht & Hw2 & Hd2 & Hv & Hn).
      simpl in *. split; [done|]. exists (w +:+ String "(" (s +:+ w2 +:+ ")")), (EParen a).
      split; [rewrite Hs, Ht; by strs|]. split; [by apply d_paren|]. split; [done|]. simpl. lia.
    - intros H1. apply (ident_sound _ w ch r) in H1 as (Hc & s & a & Hq & Hd2 & Hv & Hn); [|done..].
      simpl in *. split; [done|]. exists s, a. split; [by rewrite Hs, <- Es|]. split; [done|]. split; [done|]. lia.
    - unfold eval_parse_number. change (e_s c0) with (e_s (eval_skip_ws c)). rewrite Es.
      destruct (scan_number _) as [l q] eqn:El. destruct (negb (has_digit l) || _) eqn:Eh; [done|].
      apply orb_false_iff in Eh as [H1%negb_false_iff H2%Nat.leb_gt]. intros [<- <-]%done_inj.
      destruct (scan_sound _ _ _ El H1 H2) as [Hq Hl]. split; [done|]. exists (w +:+ lit_text l), (ENum l).
      split; [rewrite Hs, Hq; by strs|]. split; [by apply d_num|]. split; [done|]. simpl. lia. }
  split; [|exact Hr]. rewrite Hc. subst c0. unfold set_depth, set_s. simpl. f_equal. lia.
Qed.

(** One more operand of a loop. *)
Lemma loop_sound (mk : ast -> ast -> ast) (next : ast -> cat) k c w op r v1 c1 a v c' :
  (forall x s t b e, blank x -> derives (e_var c) k s b -> derives (e_var c) (next (mk a b)) t e ->
     derives (e_var c) (next a) (x +:+ String op (s +:+ t)) e) ->
  (forall b, nest (mk a b) = Z.max (nest a) (nest b)) ->
  blank w -> e_s c = w +:+ String op r -> nest a + e_depth c <= MATHS_MAX_DEPTH ->
  reads k (set_s r (eval_skip_ws c)) v1 c1 ->
  (forall b, denote (e_var_val c) b = Some v1 -> nest (mk a b) + e_depth c <= MATHS_MAX_DEPTH ->
     reads (next (mk a b)) c1 v c') ->
  reads (next a) c v c'.
Proof.
  intros Hmk Hn Hw Hs Ha [Hc1 (s & b & Hr & Hd & Hv & Hnb)] Hk. simpl in *.
  destruct (Hk b Hv) as [Hc2 (t & e & Ht & Hde & Hve & Hne)]; [rewrite Hn; lia|].
  rewrite Hc1 in Hc2, Hde, Hve, Hne. simpl in *.
  split; [done|]. exists (w +:+ String op (s +:+ t)), e. split; [rewrite Hs, Hr, Ht; by strs|].
  split; [by eapply Hmk|done].
Qed.
End soundness.

Lemma derives_blank `{Libm} var k s a w :
  derives var k s a -> blank w -> k = CPrim \/ k = CPower -> derives var k (w +:+ s) a.
Proof.
  intros Hd Hw Hk. assert (forall w1, blank w1 -> blank (w +:+ w1)) as Hb.
  { intros w1 H1. unfold blank. by rewrite str_forallb_app, Hw, H1. }
  revert Hk. induction Hd; intros [?|?]; simplify_eq;
    try (rewrite <- str_app_assoc; econstructor; eauto; fail);
    try (rewrite <- str_app_assoc; econstructor; eauto using derives; fail).
Qed.

(** [H1] reads one more operand, [H2] runs the loop on the new value. *)
Ltac loop_case IH Hs E H1 H2 Ha mk next k :=
  let Hn := fresh in let Hc1 := fresh in let Hb := fresh in
  destruct Ha as [Ha Hn]; apply take_char_Some in E; rewrite E in Hs;
  apply IH in H1; pose proof (proj1 H1) as Hc1;
  eapply (loop_sound mk next k); [|done|done|exact Hs|done|exact H1|]; [intros; by econstructor|];
  intros ? Hb ?; apply IH in H2; apply H2; rewrite Hc1; split; [|done]; simpl; rewrite Ha, Hb; simpl;
  repeat match goal with H : deq _ _ = false |- _ => rewrite H end; done.

Lemma eval_parse_sound `{Libm} fuel n c v c' : eval_parse fuel n c = Done v c' -> sound_for n c v c'.
Proof.
  revert n c v c'. induction fuel as [|fuel IH]; intros n c v c'; [done|].
  destruct (skip_ctx c) as (w & Hw & Hs). destruct n; cbn [eval_parse sound_for].
  - intros (v1 & c1 & [Hc (s & a & Hr & Hd & Hv & Hn)]%IH & H2%IH)%bind_done.
    destruct (H2 a) as [Hc2 (t & e & Ht & Hde & Hve & Hne)]; [by rewrite Hc|].
    rewrite Hc in Hc2, Hde, Hve, Hne. split; [done|]. exists (s +:+ t), e.
    split; [rewrite Hr, Ht; by strs|]. split; [by eapply d_expr|done].
  - intros He a Ha. revert He. unfold eval_expr_loop. cbv zeta.
    destruct (take_char "+" _) as [r|] eqn:E; [|clear E; destruct (take_char "-" _) as [r|] eqn:E].
    + intros (v1 & c1 & H1 & H2)%bind_done. loop_case IH Hs E H1 H2 Ha EAdd CExprTail CTerm.
    + intros (v1 & c1 & H1 & H2)%bind_done. loop_case IH Hs E H1 H2 Ha ESub CExprTail CTerm.
    + intros [<- <-]%done_inj. split; [done|]. exists w, a. split; [done|]. split; [by constructor|done].
  - intros (v1 & c1 & [Hc (s & a & Hr & Hd & Hv & Hn)]%IH & H2%IH)%bind_done.
    destruct (H2 a) as [Hc2 (t & e & Ht & Hde & Hve & Hne)]; [by rewrite Hc|].
    rewrite Hc in Hc2, Hde, Hve, Hne. split; [done|]. exists (s +:+ t), e.
    split; [rewrite Hr, Ht; by strs|]. split; [by eapply d_term|done].
  - intros He a Ha. revert He. unfold eval_term_loop. cbv zeta.
    destruct (take_char "*" _) as [r|] eqn:E; [|clear E; destruct (take_char "/" _) as [r|] eqn:E;
      [|clear E; destruct (take_char "%" _) as [r|] eqn:E]].
    + intros (v1 & c1 & H1 & H2)%bind_done. loop_case IH Hs E H1 H2 Ha EMul CTermTail CUnary.
    + intros (v1 & c1 & H1 & H2)%bind_done. destruct (deq v1 d_zero) eqn:Ez; [done|].
      loop_case IH Hs E H1 H2 Ha EDiv CTermTail CUnary.
    + intros (v1 & c1 & H1 & H2)%bind_done. destruct (deq v1 d_zero) eqn:Ez; [done|].
      loop_case IH Hs E H1 H2 Ha EMod CTermTail CUnary.
    + intros [<- <-]%done_inj. split; [done|]. exists w, a. split; [done|]. split; [by constructor|done].
  - unfold eval_parse_unary. cbv zeta.
    destruct (take_char "-" _) as [r|] eqn:E; [|clear E; destruct (take_char "+" _) as [r|] eqn:E].
    + apply take_char_Some in E.
      intros (v1 & c1 & [Hc (s & a & Hr & Hd & Hv & Hn)]%IH & [<- <-]%done_inj)%bind_done.
      split; [done|]. exists (w +:+ String "-" s), (ENeg a). cbn [e_s set_s] in Hr. simpl in Hv.
      rewrite Hs, E, Hr.
      split; [by strs|]. split; [by constructor|]. split; [simpl; by rewrite Hv|done].
    + apply take_char_Some in E. intros [Hc (s & a & Hr & Hd & Hv & Hn)]%IH.
      split; [done|]. exists (w +:+ String "+" s), (EPos a). cbn [e_s set_s] in Hr. simpl in Hv.
      rewrite Hs, E, Hr.
      split; [by strs|]. split; [by constructor|done].
    + intros [Hc (s & a & Hr & Hd & Hv & Hn)]%IH. split; [done|]. exists (w +:+ s), a. rewrite Hs, Hr.
      split; [by strs|]. split; [constructor; apply derives_blank; auto|done].
  - intros (v1 & c1 & H1 & H2)%bind_done.
    apply (primary_sound _ IH) in H1 as [Hc (s & a & Hr & Hd & Hv & Hn)].
    destruct (skip_ctx c1) as (w1 & Hw1 & Hs1). unfold reads. rewrite Hr, Hs1. cbv zeta in H2.
    destruct (take_char "^" _) as [r|] eqn:E; [|clear E; destruct (take_char "!" _) as [r|] eqn:E].
    + apply take_char_Some in E. rewrite E.
      apply bind_done in H2 as (v2 & c2 & [Hc2 (t & b & Ht & Hd2 & Hv2 & Hn2)]%IH & [<- <-]%done_inj).
      rewrite Hc in Hc2, Hd2, Hv2, Hn2. simpl in *. split; [done|].
      exists (s +:+ w1 +:+ String "^" t), (EPow a b). rewrite Ht. split; [by strs|].
      split; [by constructor|]. split; [simpl; by rewrite Hv, Hv2|simpl; lia].
    + apply take_char_Some in E. rewrite E. apply lift_done in H2 as [H2 ->]. split; [by rewrite Hc|].
      exists (s +:+ w1 +:+ "!"), (EFact a). split; [by strs|]. split; [by constructor|].
      split; [simpl; by rewrite Hv|done].
    + apply done_inj in H2 as [-> <-]. split; [by rewrite Hc|]. exists (s +:+ w1), a. split; [by strs|].
      split; [by constructor|done].
Qed.

(** ** Completeness *)

Definition caret_bang (c : ascii) : bool := Ascii.eqb c "^" || Ascii.eqb c "!".
Definition mul_op (c : ascii) : bool := Ascii.eqb c "*" || Ascii.eqb c "/" || Ascii.eqb c "%".

(** The operators that would continue an expression of a category. *)
Definition op_char (k : cat) (c : ascii) : bool :=
  match k with
  | CPrim => false
  | CPower | CUnary => caret_bang c
  | CTerm | CTermTail _ => caret_bang c || mul_op c
  | CExpr | CExprTail _ => caret_bang c || mul_op c || is_sign c
  end.

Definition follow (k : cat) (rest : string) : Prop :=
  starts ext_char rest = false /\ starts (op_char k) (skip_while is_ws rest) = false.

(** What may stand between an expression and the rest. *)
Definition stop_char (c : ascii) : bool := negb (ext_char c) && negb (is_ws c).

Lemma ws_not_ext c : is_ws c = true -> ext_char c = false.
Proof. unfold is_ws. by intros [->%Ascii.eqb_eq| ->%Ascii.eqb_eq]%orb_true_iff. Qed.

Lemma follow_blank k w c r :
  blank w -> stop_char c = true -> op_char k c = false -> follow k (w +:+ String c r).
Proof.
  intros Hw [Hc1 Hc2]%andb_true_iff Hk. apply negb_true_iff in Hc1, Hc2. split.
  - destruct w as [|x w]; strs; simpl; [done|]. apply ws_not_ext. unfold blank in Hw. simpl in Hw. by bool_cases.
  - rewrite skip_app by done. simpl. rewrite Hc2. simpl. done.
Qed.

Lemma follow_skip k w r : blank w -> follow k r -> follow k (w +:+ r).
Proof.
  intros Hw [H1 H2]. split; [|by rewrite skip_app].
  destruct w as [|x w]; strs; simpl; [done|]. apply ws_not_ext. unfold blank in Hw. simpl in Hw. by bool_cases.
Qed.

Lemma follow_weaken k k' r : (forall c, op_char k c = false -> op_char k' c = false) -> follow k r -> follow k' r.
Proof.
  intros Hk [H1 H2]. split; [done|]. destruct (skip_while is_ws r) as [|c s]; simpl in *; [done|]. by apply Hk.
Qed.

Section completeness.
  Context `{Libm} (var : option string) (x : double).

Lemma tail_sub k s e v :
  derives var k s e -> denote x e = Some v ->
  match k with
  | CExprTail a | CTermTail a => (exists va, denote x a = Some va) /\ nest a <= nest e
  | _ => True
  end.
Proof.
  intros Hd. revert v. induction Hd; intros v Hv; try done; try (split; [by eauto|lia]);
    edestruct IHHd2 as [[va Hva] Hn]; try done; simpl in *;
    (destruct (denote x a); [|done]); (split; [by eauto|lia]).
Qed.

(** The parser stops with the value, up to blanks, unless the fuel runs out. *)
Definition reaches (d : Z) (v : double) (rest : string) (r : eval_res) : Prop :=
    r = NoFuel \/ exists s', r = Done v (mkEval s' d var x) /\ skip_while is_ws s' = skip_while is_ws rest.

Definition complete_for (k : cat) (e : ast) (s0 : string) (d : Z) (v : double) (rest : string) : Prop :=
    match k with
    | CExpr => forall fuel, reaches d v rest (eval_parse fuel NExpr (mkEval s0 d var x))
    | CExprTail a => forall fuel va, denote x a = Some va ->
        reaches d v rest (eval_parse fuel (NExprLoop va) (mkEval s0 d var x))
    | CTerm => forall fuel, reaches d v rest (eval_parse fuel NTerm (mkEval s0 d var x))
    | CTermTail a => forall fuel va, denote x a = Some va ->
        reaches d v rest (eval_parse fuel (NTermLoop va) (mkEval s0 d var x))
    | CUnary => forall fuel, reaches d v rest (eval_parse fuel NUnary (mkEval s0 d var x))
    | CPower => forall fuel, reaches d v rest (eval_parse fuel NPower (mkEval s0 d var x))
    | CPrim => forall fuel, eval_parse_primary (eval_parse fuel) (mkEval s0 d var x) = NoFuel \/
        eval_parse_primary (eval_parse fuel) (mkEval s0 d var x) = Done v (mkEval rest d var x)
    end.

Definition complete (k : cat) (s : string) (e : ast) : Prop :=
    forall s0 d rest v, skip_while is_ws s0 = skip_while is_ws (s +:+ rest) -> follow k rest ->
      denote x e = Some v -> nest e + d <= MATHS_MAX_DEPTH -> complete_for k e s0 d v rest.

Lemma take_rp_ok v s' d m w rest :
  blank w -> skip_while is_ws s' = skip_while is_ws (w +:+ String ")" rest) ->
  eval_take_rp v (mkEval s' d var x) m = Done v (mkEval rest d var x).
Proof. intros Hw Hs. unfold eval_take_rp. simpl. by rewrite Hs, skip_app by done. Qed.

(** An argument followed by blanks and a closing character. *)
Lemma arg_ok s e w c rest d v fuel :
  complete CExpr s e -> blank w -> stop_char c = true -> op_char CExpr c = false ->
  denote x e = Some v -> nest e + d <= MATHS_MAX_DEPTH ->
  eval_parse fuel NExpr (mkEval (s +:+ w +:+ String c rest) d var x) = NoFuel \/
  exists s', eval_parse fuel NExpr (mkEval (s +:+ w +:+ String c rest) d var x) = Done v (mkEval s' d var x) /\
    skip_while is_ws s' = String c rest.
Proof.
  intros Hc Hw H1 H2 Hv Hn. assert (is_ws c = false) as Hc0.
  { apply andb_true_iff in H1 as [_ H1]. by apply negb_true_iff. }
  destruct (Hc (s +:+ w +:+ String c rest) d (w +:+ String c rest) v eq_refl) with (fuel := fuel)
    as [?|(s' & ? & Hs')]; [by apply follow_blank|done|done|by left|].
  right. exists s'. split; [done|]. rewrite Hs', skip_app by done. simpl. by rewrite Hc0.
Qed.

(** Entering a primary expression. *)
Lemma primary_enter fuel s0 d w ch r :
  skip_while is_ws s0 = skip_while is_ws (w +:+ String ch r) -> blank w -> is_ws ch = false ->
  1 + d <= MATHS_MAX_DEPTH ->
  eval_parse_primary (eval_parse fuel) (mkEval s0 d var x) =
  let c := mkEval (String ch r) (d + 1) var x in
  res_bind
    (if Ascii.eqb ch "(" then eval_parse_paren (eval_parse fuel) c r
     else if maths_is_ident_start ch then eval_parse_ident (eval_parse fuel) c
     else if maths_is_digit_char ch then eval_parse_number c else Fail "unexpected token")
    (fun v c => Done v (set_depth (e_depth c - 1) c)).
Proof.
  intros Hs Hw Hc Hd. unfold eval_parse_primary, eval_skip_ws. simpl. rewrite Hs, skip_app by done. simpl. rewrite Hc.
  destruct (Z.ltb_spec MATHS_MAX_DEPTH (d + 1)); [lia|done].
Qed.

Lemma leave_depth v s d : Done v (set_depth (e_depth (mkEval s (d + 1) var x) - 1) (mkEval s (d + 1) var x)) =
  Done v (mkEval s d var x).
Proof. unfold set_depth. simpl. do 2 f_equal. lia. Qed.

Lemma num_complete w l : blank w -> lit_ok l -> complete CPrim (w +:+ lit_text l) (ENum l).
Proof.
  intros Hw Hl s0 d rest v Hs [Hf _] [= <-] Hn fuel. right.
  assert (exists ch r, lit_text l = String ch r /\ is_ws ch = false /\ Ascii.eqb ch "(" = false /\
            maths_is_ident_start ch = false /\ maths_is_digit_char ch = true) as (ch & r & Et & H1 & H2 & H3 & H4).
  { destruct Hl as [Hi Hfr _ Hd _]. unfold lit_text, has_digit in *. destruct (l_int l) as [|ch i].
    - destruct (l_frac l) as [f|]; [|done]. by eexists "."%char, _.
    - simpl in Hi. apply andb_true_iff in Hi as [Hi _]. exists ch, (i +:+
        match l_frac l with Some d => String "." d | None => EmptyString end +:+
        match l_exp l with Some (c, sg, d) => String c (sg +:+ d) | None => EmptyString end).
      split; [by strs|]. unfold maths_is_digit_char. rewrite Hi. clear -Hi.
      destruct ch as [[] [] [] [] [] [] [] []]; try done. }
  rewrite str_app_assoc, Et, str_app_cons in Hs. rewrite (primary_enter fuel _ _ _ _ _ Hs Hw H1) by (simpl in Hn; lia).
  cbv zeta. rewrite H2, H3, H4. unfold eval_parse_number. cbn [e_s]. rewrite <- str_app_cons, <- Et.
  rewrite scan_exact by done. destruct Hl as [_ _ _ -> Hlen]. cbn [negb orb].
  destruct (Nat.leb_spec 64 (String.length (lit_text l))); [lia|]. cbn [res_bind]. apply leave_depth.
Qed.

(** A name at the start of a primary expression. *)
Lemma ident_enter fuel s0 d w name r :
  skip_while is_ws s0 = skip_while is_ws (w +:+ name +:+ r) -> blank w -> ident_ok name ->
  starts maths_is_ident_char r = false -> 1 + d <= MATHS_MAX_DEPTH ->
  eval_parse_primary (eval_parse fuel) (mkEval s0 d var x) =
  let c := mkEval r (d + 1) var x in
  res_bind
    (if strcmp_eq name "pi" then Done d_pi c
     else if strcmp_eq name "e" then Done d_e c
     else if is_var c name then Done x c else eval_parse_call (eval_parse fuel) c name)
    (fun v c => Done v (set_depth (e_depth c - 1) c)).
Proof.
  intros Hs Hw [Hid (ch & n & -> & Hc)] Hr Hd.
  assert (is_ws ch = false /\ Ascii.eqb ch "(" = false) as [H1 H2].
  { clear -Hc. destruct ch as [[] [] [] [] [] [] [] []]; done. }
  rewrite str_app_cons in Hs. rewrite (primary_enter fuel _ _ _ _ _ Hs Hw H1 Hd). cbv zeta. rewrite H2, Hc.
  unfold eval_parse_ident. cbn [e_s]. rewrite <- str_app_cons, span_exact by done. done.
Qed.

Lemma ext_ident r : starts ext_char r = false -> starts maths_is_ident_char r = false.
Proof. destruct r as [|c r]; simpl; [done|]. unfold ext_char. by intros [-> _]%orb_false_iff. Qed.

Lemma open_not_ident w r : blank w -> starts maths_is_ident_char (w +:+ String "(" r) = false.
Proof. intros Hw. apply ext_ident. by apply (follow_blank CExpr). Qed.

(** A call up to its opening parenthesis. *)
Lemma call_enter fuel s0 d w name w1 r fn arity :
  skip_while is_ws s0 = skip_while is_ws (w +:+ name +:+ w1 +:+ String "(" r) -> blank w ->
  free_name var name -> blank w1 -> 1 + d <= MATHS_MAX_DEPTH ->
  eval_lookup_func name = Some (fn, arity) ->
  eval_parse_primary (eval_parse fuel) (mkEval s0 d var x) =
  let c := mkEval r (d + 1) var x in
  res_bind
    (if arity =? 1 then eval_call1 (eval_parse fuel) c name fn
     else if arity =? -2 then eval_call_log (eval_parse fuel) c
     else eval_call2 (eval_parse fuel) c name arity)
    (fun v c => Done v (set_depth (e_depth c - 1) c)).
Proof.
  intros Hs Hw (Hid & H1 & H2 & H3) Hw1 Hd Hl.
  rewrite (ident_enter fuel _ _ _ _ _ Hs Hw Hid (open_not_ident w1 r Hw1) Hd). cbv zeta.
  rewrite (proj2 (strcmp_eq_false name "pi") H1), (proj2 (strcmp_eq_false name "e") H2).
  assert (is_var (mkEval (w1 +:+ String "(" r) (d + 1) var x) name = false) as ->.
  { unfold is_var. simpl. destruct var as [y|]; [|done]. apply strcmp_eq_false. congruence. }
  unfold eval_parse_call, eval_skip_ws. cbn [e_s set_s]. rewrite skip_app by done. simpl. by rewrite Hl.
Qed.

Lemma right_lift r v c : right r = Some v -> lift r c = Done v c.
Proof. destruct r; simpl; congruence. Qed.
End completeness.

Lemma nest_pos a : 1 <= nest a.
Proof. induction a; simpl; lia. Qed.

Section calls.
  Context `{Libm} (var : option string) (x : double).
  Notation complete := (complete var x).

(** Runs the parser on an argument [s] of value [v], or out of fuel. *)
Ltac run_arg IH :=
    match goal with
    | Hv : denote x ?e = Some ?v
      |- context [eval_parse ?fuel NExpr (mkEval (?s +:+ ?w +:+ String ?c ?rest) ?d _ _)] =>
        let s' := fresh "s'" in let Hr := fresh "Hr" in
        destruct (arg_ok var x s e w c rest d v fuel IH) as [->|(s' & -> & Hr)];
          [done|reflexivity|reflexivity|exact Hv|lia|by left|]; cbn [res_bind]; cbv zeta
    end.

Lemma paren_complete w s a w' :
  blank w -> complete CExpr s a -> blank w' ->
  complete CPrim (w +:+ String "(" (s +:+ w' +:+ ")")) (EParen a).
Proof.
  intros Hw IH Hw' s0 d rest v Hs _ Hv Hn fuel. simpl in Hv, Hn.
  pose proof (nest_pos a) as Hp. assert (1 + d <= MATHS_MAX_DEPTH) as Hd by lia. revert Hs. strs. intros Hs.
  rewrite (primary_enter var x fuel _ _ _ _ _ Hs Hw) by (done || lia). cbv zeta.
  unfold eval_parse_paren, set_s. simpl Ascii.eqb. cbv iota. cbn [e_depth e_var e_var_val].
  run_arg IH. rewrite (take_rp_ok _ _ _ _ _ _ ("") rest) by done. cbn [res_bind]. right. apply leave_depth.
Qed.

Lemma call1_complete w name fn w1 s a w2 :
  blank w -> free_name var name -> eval_lookup_func name = Some (fn, 1) -> blank w1 ->
  complete CExpr s a -> blank w2 ->
  complete CPrim (w +:+ name +:+ w1 +:+ String "(" (s +:+ w2 +:+ ")")) (ECall1 name a).
Proof.
  intros Hw Hf Hl Hw1 IH Hw2 s0 d rest v Hs _ Hv Hn fuel. simpl in Hv, Hn.
  pose proof (nest_pos a) as Hp. assert (1 + d <= MATHS_MAX_DEPTH) as Hd by lia. revert Hs. strs. intros Hs.
  destruct (denote x a) as [va|] eqn:Ea; [|done]. simpl in Hv. rewrite Hl in Hv.
  rewrite (call_enter var x fuel _ _ _ _ _ _ _ _ Hs Hw Hf Hw1 Hd Hl). cbv zeta.
  change (1 =? 1) with true. cbv iota. unfold eval_call1.
  run_arg IH. rewrite (take_rp_ok _ _ _ _ _ _ ("") rest) by done. cbn [res_bind].
  rewrite (right_lift _ _ _ Hv). cbn [res_bind]. right. apply leave_depth.
Qed.

Lemma log1_complete w w1 s a w2 :
  blank w -> free_name var "log" -> blank w1 -> complete CExpr s a -> blank w2 ->
  complete CPrim (w +:+ "log" +:+ w1 +:+ String "(" (s +:+ w2 +:+ ")")) (ELog1 a).
Proof.
  intros Hw Hf Hw1 IH Hw2 s0 d rest v Hs _ Hv Hn fuel. simpl in Hv, Hn.
  pose proof (nest_pos a) as Hp. assert (1 + d <= MATHS_MAX_DEPTH) as Hd by lia. revert Hs.
  rewrite !str_app_assoc, str_app_cons. strs. intros Hs.
  destruct (denote x a) as [va|] eqn:Ea; [|done]. simpl in Hv. injection Hv as <-.
  rewrite (call_enter var x fuel _ _ _ "log" _ _ None (-2) Hs Hw Hf Hw1) by (done || lia). cbv zeta.
  change (-2 =? 1) with false. change (-2 =? -2) with true. cbv iota. unfold eval_call_log.
  run_arg IH. unfold eval_skip_ws, set_s. cbn [e_s e_depth e_var e_var_val]. rewrite Hr.
  change (take_char "," (String ")" rest)) with (@None string). cbv iota.
  rewrite (take_rp_ok _ _ _ _ _ _ ("") rest) by done. cbn [res_bind]. right. apply leave_depth.
Qed.

Lemma log2_complete w w1 s a w2 t b w3 :
  blank w -> free_name var "log" -> blank w1 -> complete CExpr s a -> blank w2 -> complete CExpr t b ->
  blank w3 ->
  complete CPrim (w +:+ "log" +:+ w1 +:+ String "(" (s +:+ w2 +:+ String "," (t +:+ w3 +:+ ")"))) (ELog2 a b).
Proof.
  intros Hw Hf Hw1 IH Hw2 IH2 Hw3 s0 d rest v Hs _ Hv Hn fuel. simpl in Hv, Hn.
  pose proof (nest_pos a) as Hp. assert (1 + d <= MATHS_MAX_DEPTH) as Hd by lia. revert Hs. strs. intros Hs.
  destruct (denote x a) as [va|] eqn:Ea; [|done]. destruct (denote x b) as [vb|] eqn:Eb; [|done].
  simpl in Hv. injection Hv as <-.
  rewrite (call_enter var x fuel _ _ _ "log" _ _ None (-2) Hs Hw Hf Hw1) by (done || lia). cbv zeta.
  change (-2 =? 1) with false. change (-2 =? -2) with true. cbv iota. unfold eval_call_log.
  run_arg IH. unfold eval_skip_ws, set_s. cbn [e_s e_depth e_var e_var_val]. rewrite Hr.
  change (take_char "," (String "," ?r)) with (Some r). cbv iota.
  run_arg IH2. rewrite (take_rp_ok _ _ _ _ _ _ ("") rest) by done. cbn [res_bind]. right. apply leave_depth.
Qed.

Lemma call2_complete w name fn w1 s a w2 t b w3 :
  blank w -> free_name var name -> eval_lookup_func name = Some (fn, 2) -> blank w1 ->
  complete CExpr s a -> blank w2 -> complete CExpr t b -> blank w3 ->
  complete CPrim (w +:+ name +:+ w1 +:+ String "(" (s +:+ w2 +:+ String "," (t +:+ w3 +:+ ")"))) (ECall2 name a b).
Proof.
  intros Hw Hf Hl Hw1 IH Hw2 IH2 Hw3 s0 d rest v Hs _ Hv Hn fuel. simpl in Hv, Hn.
  pose proof (nest_pos a) as Hp. assert (1 + d <= MATHS_MAX_DEPTH) as Hd by lia. revert Hs. strs. intros Hs.
  destruct (denote x a) as [va|] eqn:Ea; [|done]. destruct (denote x b) as [vb|] eqn:Eb; [|done].
  simpl in Hv. rewrite Hl in Hv.
  rewrite (call_enter var x fuel _ _ _ _ _ _ _ _ Hs Hw Hf Hw1 Hd Hl). cbv zeta.
  change (2 =? 1) with false. change (2 =? -2) with false. cbv iota. unfold eval_call2.
  run_arg IH. unfold eval_skip_ws, set_s. cbn [e_s e_depth e_var e_var_val]. rewrite Hr.
  change (take_char "," (String "," ?r)) with (Some r). cbv iota.
  run_arg IH2. rewrite (take_rp_ok _ _ _ _ _ _ ("") rest) by done. cbn [res_bind].
  rewrite (right_lift _ _ _ Hv). cbn [res_bind]. right. apply leave_depth.
Qed.
End calls.

Section complete.
  Context `{Libm} (var : option string) (x : double).

Lemma follow_take k rest c : follow k rest -> op_char k c = true -> take_char c (skip_while is_ws rest) = None.
Proof.
  intros [_ Hs] Hc. destruct (skip_while is_ws rest) as [|y s]; [done|]. simpl in *.
  destruct (Ascii.eqb_spec y c); [congruence|done].
Qed.

Lemma tail_follow k t e rest :
  derives var k t e -> follow k rest ->
  match k with
  | CTermTail _ => follow CUnary (t +:+ rest)
  | CExprTail _ => follow CTerm (t +:+ rest)
  | _ => True
  end.
Proof.
  intros Hd Hf. destruct Hd; try done; try (strs; by apply follow_blank);
    (apply follow_skip; [done|]); (eapply follow_weaken; [|exact Hf]); intros c; simpl; by intros [-> _]%orb_false_iff.
Qed.

(** An expression does not start with a sign unless it is a signed one. *)
Lemma power_head k s a rest :
  derives var k s a -> k = CPrim \/ k = CPower ->
  exists ch r, skip_while is_ws (s +:+ rest) = String ch r /\ is_sign ch = false.
Proof.
  assert (forall w ch r, blank w -> is_ws ch = false ->
            skip_while is_ws (w +:+ String ch r) = String ch r) as Hk.
  { intros w ch r Hw Hc. rewrite skip_app by done. simpl. by rewrite Hc. }
  assert (forall name, ident_ok name -> exists ch r, name = String ch r /\ is_ws ch = false /\ is_sign ch = false) as Hid.
  { intros name [_ (ch & r & -> & Hc)]. exists ch, r. split; [done|]. clear -Hc.
    destruct ch as [[] [] [] [] [] [] [] []]; done. }
  assert (forall l, lit_ok l -> exists ch r, lit_text l = String ch r /\ is_ws ch = false /\ is_sign ch = false) as Hl.
  { intros l [Hi Hfr _ Hd _]. unfold lit_text, has_digit in *. destruct (l_int l) as [|ch i].
    - destruct (l_frac l) as [f|]; [|done]. by eexists "."%char, _.
    - simpl in Hi. apply andb_true_iff in Hi as [Hi _]. eexists ch, _. split; [by strs|]. clear -Hi.
      destruct ch as [[] [] [] [] [] [] [] []]; done. }
  intros Hd. revert rest. induction Hd; intros rest [?|?]; simplify_eq; strs;
    try (by apply IHHd; left); try (by apply IHHd1; left);
    try (eexists _, _; split; [by apply Hk|done]);
    try (destruct (Hl l) as (ch & r & -> & Hx1 & Hx2); [done|]; strs; exists ch, (r +:+ rest); split; [by apply Hk|done]);
    match goal with
    | Hf : free_name _ ?n |- _ => destruct Hf as [Hf _]; destruct (Hid n Hf) as (ch & r & -> & H1' & H2')
    | Hf : ident_ok ?n |- _ => destruct (Hid n Hf) as (ch & r & -> & H1' & H2')
    | _ => idtac
    end; strs; eexists ch, _; (split; [by apply Hk|done]).
Qed.

Ltac out_of_fuel fuel := destruct fuel as [|fuel]; [by left|]; cbn [eval_parse].

Lemma power_complete s a w :
  derives var CPrim s a -> complete var x CPrim s a -> blank w -> complete var x CPower (s +:+ w) a.
Proof.
  intros Hd IH Hw s0 d rest v Hs Hf Hv Hn fuel. out_of_fuel fuel. rewrite str_app_assoc in Hs.
  assert (follow CPrim (w +:+ rest)) as Hf' by (apply follow_skip; [done|]; by eapply follow_weaken; [|exact Hf]).
  unfold eval_parse_power. destruct (IH s0 d (w +:+ rest) v Hs Hf' Hv Hn fuel) as [->| ->]; [by left|].
  cbn [res_bind]. unfold eval_skip_ws, set_s. cbn [e_s e_depth e_var e_var_val]. rewrite skip_app by done.
  rewrite !(follow_take _ _ _ Hf) by done. right. eexists. split; [done|]. apply skip_idem.
Qed.

Lemma caret_complete s a w t b :
  complete var x CPrim s a -> blank w -> complete var x CPower t b ->
  complete var x CPower (s +:+ w +:+ String "^" t) (EPow a b).
Proof.
  intros IH Hw IH2 s0 d rest v Hs Hf Hv Hn fuel. out_of_fuel fuel. revert Hs. strs. intros Hs. simpl in Hv, Hn.
  destruct (denote x a) as [va|] eqn:Ea; [|done]. destruct (denote x b) as [vb|] eqn:Eb; [|done].
  injection Hv as <-. unfold eval_parse_power.
  destruct (IH s0 d _ va Hs ltac:(by apply follow_blank) Ea ltac:(lia) fuel) as [->| ->]; [by left|].
  cbn [res_bind]. unfold eval_skip_ws, set_s. cbn [e_s e_depth e_var e_var_val]. rewrite skip_app by done.
  simpl. destruct (IH2 (t +:+ rest) d rest vb eq_refl Hf Eb ltac:(lia) fuel) as [->|(s' & -> & Hr)]; [by left|].
  right. by exists s'.
Qed.

Lemma bang_complete s a w :
  complete var x CPrim s a -> blank w -> complete var x CPower (s +:+ w +:+ "!") (EFact a).
Proof.
  intros IH Hw s0 d rest v Hs Hf Hv Hn fuel. out_of_fuel fuel. revert Hs. strs. intros Hs. simpl in Hv, Hn.
  destruct (denote x a) as [va|] eqn:Ea; [|done]. unfold eval_parse_power.
  destruct (IH s0 d _ va Hs ltac:(by apply follow_blank) Ea ltac:(lia) fuel) as [->| ->]; [by left|].
  cbn [res_bind]. unfold eval_skip_ws, set_s. cbn [e_s e_depth e_var e_var_val]. rewrite skip_app by done.
  simpl. rewrite (right_lift _ _ _ Hv). right. by exists rest.
Qed.

Lemma unary_complete s a :
  derives var CPower s a -> complete var x CPower s a -> complete var x CUnary s a.
Proof.
  intros Hd IH s0 d rest v Hs Hf Hv Hn fuel. out_of_fuel fuel.
  destruct (power_head _ _ _ rest Hd ltac:(by right)) as (ch & r & Hh & Hc).
  unfold eval_parse_unary, eval_skip_ws, set_s. cbn [e_s e_depth e_var e_var_val]. rewrite Hs, Hh.
  unfold is_sign in Hc. apply orb_false_iff in Hc as [Hc1 Hc2]. simpl. rewrite Hc1, Hc2.
  rewrite <- Hh. by apply IH; [rewrite skip_idem|..].
Qed.

Lemma sign_complete (op : ascii) w s a mk :
  op = "-"%char /\ mk = ENeg \/ op = "+"%char /\ mk = EPos ->
  blank w -> complete var x CUnary s a -> complete var x CUnary (w +:+ String op s) (mk a).
Proof.
  intros Hop Hw IH s0 d rest v Hs Hf Hv Hn fuel. out_of_fuel fuel. revert Hs. strs. rewrite skip_app by done.
  unfold eval_parse_unary, eval_skip_ws, set_s. cbn [e_s e_depth e_var e_var_val].
  destruct Hop as [[-> ->]|[-> ->]]; simpl in Hv, Hn |- *; intros ->; simpl.
  - destruct (denote x a) as [va|] eqn:Ea; [|done]. injection Hv as <-.
    destruct (IH (s +:+ rest) d rest va eq_refl Hf Ea Hn fuel) as [->|(s' & -> & Hr)]; [by left|].
    right. by exists s'.
  - by apply IH.
Qed.

(** An operand [b], then the tail behind [a]. *)
Lemma seq_complete (kt : ast -> cat) k1 n1 (loop : double -> nt) s b a t e s0 d rest v fuel va vb f :
  (k1 = CUnary /\ kt = CTermTail /\ n1 = NUnary /\ loop = NTermLoop \/
   k1 = CTerm /\ kt = CExprTail /\ n1 = NTerm /\ loop = NExprLoop) ->
  complete var x k1 s b -> derives var (kt a) t e -> complete var x (kt a) t e ->
  skip_while is_ws s0 = skip_while is_ws (s +:+ t +:+ rest) -> follow (kt a) rest ->
  denote x e = Some v -> nest e + d <= MATHS_MAX_DEPTH ->
  denote x b = Some vb -> denote x a = Some va -> nest b <= nest a ->
  (forall c, f vb c = eval_parse fuel (loop va) c) ->
  reaches var x d v rest (res_bind (eval_parse fuel n1 (mkEval s0 d var x)) f).
Proof.
  intros Hk IH Hd IHt Hs Hf Hv Hn Hvb Hva Hba Hff.
  assert (nest a <= nest e) as Hle.
  { pose proof (tail_sub _ _ _ _ _ _ Hd Hv). destruct Hk as [(_ & -> & _)|(_ & -> & _)]; tauto. }
  assert (follow k1 (t +:+ rest)) as Hf1.
  { pose proof (tail_follow _ _ _ rest Hd Hf). by destruct Hk as [(-> & -> & _)|(-> & -> & _)]. }
  assert (reaches var x d vb (t +:+ rest) (eval_parse fuel n1 (mkEval s0 d var x))) as [->|(s' & -> & Hr)]; [|by left|].
  { specialize (IH s0 d (t +:+ rest) vb Hs Hf1 Hvb ltac:(lia)).
    destruct Hk as [(-> & _ & -> & _)|(-> & _ & -> & _)]; apply IH. }
  simpl. rewrite Hff. specialize (IHt s' d rest v Hr Hf Hv Hn).
  destruct Hk as [(_ & -> & _ & ->)|(_ & -> & _ & ->)]; by apply IHt.
Qed.

(** The value of a binary operation comes from its operands. *)
Lemma tail_value (kt : ast -> cat) mk a b t e v :
  kt = CTermTail /\ (mk = EMul \/ mk = EDiv \/ mk = EMod) \/ kt = CExprTail /\ (mk = EAdd \/ mk = ESub) ->
  derives var (kt (mk a b)) t e -> denote x e = Some v ->
  exists va vb vr, denote x a = Some va /\ denote x b = Some vb /\ denote x (mk a b) = Some vr.
Proof.
  intros Hk Hd Hv. pose proof (tail_sub _ _ _ _ _ _ Hd Hv) as Ht.
  assert (exists vr, denote x (mk a b) = Some vr) as [vr Hr] by (destruct Hk as [[-> _]|[-> _]]; tauto).
  assert (denote x (mk a b) = None \/ exists va vb, denote x a = Some va /\ denote x b = Some vb) as Hab.
  { destruct Hk as [[_ [->|[->| ->]]]|[_ [->| ->]]]; simpl;
      (destruct (denote x a); [|by left]); (destruct (denote x b); [|by left]); right; eauto. }
  destruct Hab as [?|(va & vb & ? & ?)]; [congruence|]. eauto 8.
Qed.

Ltac tail_op IH1 IH2 Hd2 kt mk :=
  intros s0 d rest v Hs Hf Hv Hn fuel va Hva; out_of_fuel fuel; revert Hs; strs; rewrite skip_app by done; intros Hs;
  destruct (tail_value kt mk _ _ _ _ _ ltac:(tauto) Hd2 Hv) as (va' & vb & vr & Ha & Hb & Hr);
  rewrite Hva in Ha; injection Ha as <-;
  unfold eval_term_loop, eval_expr_loop, eval_skip_ws, set_s; cbn [e_s e_depth e_var e_var_val];
  rewrite Hs; simpl;
  eapply (seq_complete kt); [tauto|exact IH1|exact Hd2|exact IH2|done|exact Hf|exact Hv|exact Hn|exact Hb|exact Hr|simpl; lia|];
  simpl in Hr; rewrite Hva, Hb in Hr; simpl in Hr; intros c';
  first [destruct (deq vb d_zero); [done|]; injection Hr as <-|injection Hr as <-]; done.

(** A constant or the variable. *)
Lemma name_complete w name e v0 :
  blank w -> ident_ok name -> denote x e = Some v0 -> nest e = 1 ->
  (forall c self, e_var c = var ->
     (if strcmp_eq name "pi" then Done d_pi c
      else if strcmp_eq name "e" then Done d_e c
      else if is_var c name then Done x c else eval_parse_call self c name) = Done v0 c) ->
  complete var x CPrim (w +:+ name) e.
Proof.
  intros Hw Hid He Hne Hc s0 d rest v Hs [Hf _] Hv Hn fuel. right. rewrite str_app_assoc in Hs.
  rewrite He in Hv. injection Hv as <-.
  rewrite (ident_enter var x fuel _ _ _ name _ Hs Hw Hid) by (by apply ext_ident || lia). cbv zeta.
  rewrite Hc by done. apply leave_depth.
Qed.

Lemma derives_complete k s e : derives var k s e -> complete var x k s e.
Proof.
  induction 1 as [w l Hw Hl|w Hw|w Hw|w name Hw Hid H1 H2 H3|w s a w' Hw Hd IH Hw'|
    w name fn w1 s a w2 Hw Hf Hl Hw1 Hd IH Hw2|w w1 s a w2 Hw Hf Hw1 Hd IH Hw2|
    w w1 s a w2 t b w3 Hw Hf Hw1 Hd IH Hw2 Hd2 IH2 Hw3|
    w name fn w1 s a w2 t b w3 Hw Hf Hl Hw1 Hd IH Hw2 Hd2 IH2 Hw3|
    s a w Hd IH Hw|s a w t b Hd IH Hw Hd2 IH2|s a w Hd IH Hw|s a Hd IH|w s a Hw Hd IH|w s a Hw Hd IH|
    s a t e Hd IH Hd2 IH2|a w Hw|a w s b t e Hw Hd IH Hd2 IH2|a w s b t e Hw Hd IH Hd2 IH2|
    a w s b t e Hw Hd IH Hd2 IH2|s a t e Hd IH Hd2 IH2|a w Hw|
    a w s b t e Hw Hd IH Hd2 IH2|a w s b t e Hw Hd IH Hd2 IH2].
  - by apply num_complete.
  - by apply (name_complete _ _ _ d_pi); [|split; [|eexists _, _]|..].
  - by apply (name_complete _ _ _ d_e); [|split; [|eexists _, _]|..].
  - apply (name_complete _ _ _ x); [done..|]. intros c self Hc.
    rewrite (proj2 (strcmp_eq_false name "pi") H1), (proj2 (strcmp_eq_false name "e") H2).
    unfold is_var. by rewrite Hc, H3, strcmp_eq_refl.
  - by apply paren_complete.
  - by eapply call1_complete.
  - by apply log1_complete.
  - by apply log2_complete.
  - by eapply call2_complete.
  - by apply power_complete.
  - by apply caret_complete.
  - by apply bang_complete.
  - by apply unary_complete.
  - by apply (sign_complete _ _ _ _ ENeg); [left|..].
  - by apply (sign_complete _ _ _ _ EPos); [right|..].
  - intros s0 d rest v Hs Hf Hv Hn fuel. out_of_fuel fuel. rewrite str_app_assoc in Hs.
    destruct (proj1 (tail_sub _ _ _ _ _ _ Hd2 Hv)) as [va Hva]. unfold eval_parse_term.
    eapply (seq_complete CTermTail); [left; repeat split|done..|]; done.
  - intros s0 d rest v Hs Hf Hv Hn fuel va Hva. out_of_fuel fuel. rewrite skip_app in Hs by done.
    unfold eval_term_loop, eval_skip_ws, set_s. cbn [e_s e_depth e_var e_var_val]. rewrite Hs.
    rewrite !(follow_take _ _ _ Hf) by done. assert (va = v) as -> by congruence.
    right. eexists. split; [done|]. apply skip_idem.
  - tail_op IH IH2 Hd2 CTermTail EMul.
  - tail_op IH IH2 Hd2 CTermTail EDiv.
  - tail_op IH IH2 Hd2 CTermTail EMod.
  - intros s0 d rest v Hs Hf Hv Hn fuel. out_of_fuel fuel. rewrite str_app_assoc in Hs.
    destruct (proj1 (tail_sub _ _ _ _ _ _ Hd2 Hv)) as [va Hva]. unfold eval_parse_expr.
    eapply (seq_complete CExprTail); [right; repeat split|done..|]; done.
  - intros s0 d rest v Hs Hf Hv Hn fuel va Hva. out_of_fuel fuel. rewrite skip_app in Hs by done.
    unfold eval_expr_loop, eval_skip_ws, set_s. cbn [e_s e_depth e_var e_var_val]. rewrite Hs.
    rewrite !(follow_take _ _ _ Hf) by done. assert (va = v) as -> by congruence.
    right. eexists. split; [done|]. apply skip_idem.
  - tail_op IH IH2 Hd2 CExprTail EAdd.
  - tail_op IH IH2 Hd2 CExprTail ESub.
Qed.
End complete.

(** ** The evaluator *)

Lemma eval_ends `{Libm} expr var x : leaves (String.length expr) (eval_parse (eval_fuel expr) NExpr (mkEval expr 0 var x)).
Proof.
  eapply leaves_mono; [apply eval_parse_ends; unfold eval_fuel; simpl; lia|simpl; lia].
Qed.

(** The text is an expression of value [v]. *)
Definition in_language `{Libm} (var : option string) (x : double) (expr : string) (v : double) : Prop :=
  exists s w a, expr = s +:+ w /\ blank w /\ derives var CExpr s a /\
    nest a <= MATHS_MAX_DEPTH /\ denote x a = Some v.

Lemma eval_complete `{Libm} expr var x v :
  in_language var x expr v ->
  exists c, eval_parse (eval_fuel expr) NExpr (mkEval expr 0 var x) = Done v c /\ e_s (eval_skip_ws c) = ""%string.
Proof.
  intros (s & w & a & -> & Hw & Hd & Hn & Hv). pose proof (eval_ends (s +:+ w) var x) as Hl.
  destruct (derives_complete var x _ _ _ Hd (s +:+ w) 0 w v) with (fuel := eval_fuel (s +:+ w))
    as [E|(s' & E & Hs)]; [done| |done|lia|by rewrite E in Hl|].
  - rewrite <- (str_app_nil_r w). by apply follow_skip.
  - eexists. split; [exact E|]. unfold eval_skip_ws. cbn [e_s set_s].
    by rewrite Hs, <- (str_app_nil_r w), skip_app.
Qed.

(** C23.  What the evaluator computes.  With its buffers given it always returns, and
    it returns the value [v] exactly when the text has at most 4096 characters,
    all of the permitted kind, and is an expression of the grammar - products
    before sums, both from the left, powers from the right, signs weaker than
    powers - followed by blanks, that nests primary expressions at most 64 deep
    and whose value is defined (no division by zero, no bad factorial) and is
    the finite number [v]; in every other case the result is a message. *)
Theorem eval_exact `{Libm} (expr : string) (var : option string) (x : double) (size : nat) :
  let r := maths_d_eval_at (Some expr) var x true (S size) in
  ((exists v, r = EvalOk v) \/ (exists m, r = EvalErr m)) /\
  forall v, r = EvalOk v <->
    maths_charset_ok expr = true /\ in_language var x expr v /\ is_finite v = true.
Proof.
  cbv zeta. unfold maths_d_eval_at. cbn [negb orb Nat.eqb].
  destruct (maths_charset_ok expr); cbn [negb]; [|split; [eauto|]; intros v; split; [done|by intros [? _]]].
  pose proof (eval_ends expr var x) as Hl. pose proof (eval_complete expr var x) as Hcp.
  destruct (eval_parse _ NExpr _) as [v c|m|] eqn:E; [| |destruct Hl].
  - assert (forall v', in_language var x expr v' -> v = v' /\ strcmp_eq (e_s (eval_skip_ws c)) "" = true) as Huniq.
    { intros v' (c' & Hc & He)%Hcp. apply done_inj in Hc as [-> ->]. split; [done|]. by apply strcmp_eq_true. }
    pose proof (eval_parse_sound _ _ _ _ _ E) as [Hc (s & a & Hs & Hd & Hv & Hn)]. simpl in Hs, Hd, Hv, Hn.
    destruct (skip_ctx c) as (w & Hw & Hsc). cbv zeta.
    destruct (strcmp_eq (e_s (eval_skip_ws c)) "") eqn:Ee; cbn [negb];
      [destruct (is_finite v) eqn:Ef; cbn [negb]|]; (split; [eauto|]); intros v'; (split; [try done|]);
      try (intros (_ & [<- ?]%Huniq & Hf); congruence).
    apply strcmp_eq_true in Ee. rewrite Ee, str_app_nil_r in Hsc. rewrite Hsc in Hs.
    intros [= <-]. split; [done|]. split; [|done]. exists s, w, a. repeat (split; [done|]). split; [lia|done].
  - split; [eauto|]. intros v'. split; [done|]. by intros (_ & (c' & ? & He)%Hcp & Hf).
Qed.

(** The evaluator at work: a value, and therefore a reading of the text. *)
Lemma eval_exact_witness :
  @in_language toy_libm None d_zero " 1 + 2*3" (d_of_Z 7).
Proof.
  apply (@eval_exact toy_libm " 1 + 2*3" None d_zero 63). vm_compute. reflexivity.
Defined.

(** A sign behind a caret is refused, although the grammar at the head of the
    source allows a signed exponent. *)
Lemma caret_refuses_sign :
  @maths_d_eval toy_libm (Some "2^-1"%string) true 64 = EvalErr "unexpected token".
Proof. vm_compute. reflexivity. Qed.

(** NaN passes both tests of the factorial, which then returns 1. *)
Lemma nan_factorial_is_one :
  @maths_d_eval toy_libm (Some "sqrt(-1)"%string) true 64 = EvalErr "result is not finite (NaN/Inf)" /\
  @maths_d_eval toy_libm (Some "sqrt(-1)!"%string) true 64 = EvalOk (d_of_Z 1).
Proof. split; vm_compute; reflexivity. Qed.

Fixpoint dashes (n : nat) (s : string) : string :=
  match n with O => s | S n' => String "-" (dashes n' s) end.

(** Signs are not counted by the limit on the depth of the recursion: the
    parser calls itself once for each of them. *)
Lemma signs_not_limited :
  @maths_d_eval toy_libm (Some (dashes 1000 "1")) true 64 = EvalOk (d_of_Z 1).
Proof. vm_compute. reflexivity. Qed.
