(* ===== verification/Sse.v ===== *)
(** * Sse

    The server-sent-event framing of the llm_d providers
    (llm_d/src/providers/core/sse.c): the state machine that cuts the bytes of a
    streamed response into lines and hands the payload of each [data:] line to
    a callback, in its two modes (lines, named events), and the streaming
    request around it on the retry loop of file Retry.

    Bytes are characters of a string; the length of a buffer is the length of
    its string.  A world [W] stands for everything outside: the allocator, the
    callback, the transfers.  libcurl hands a transfer to the write callback
    piece by piece and fails with [CURLE_WRITE_ERROR] when the callback takes
    less than it was given. *)

From S2P Require Import Prelude Doubles Retry.

Class Alloc (W : Type) := os_malloc : W -> bool * W.

(** ** Buffers *)

(** Doubling until the size fits; 64 turns exceed every size. *)
Fixpoint grow (turns : nat) (cap needed : Z) : Z :=
  match turns with
  | O => cap
  | S t => if cap <? needed then grow t (cap * 2) needed else cap
  end.

Section buffer.
  Context {W : Type} `{Alloc W}.

(** The buffer and its capacity, or [None] when it could not be enlarged. *)
Definition prov_buf_add (buf : string) (cap : Z) (data : string) (w : W) : option (string * Z) * W :=
    if strcmp_eq data "" then (Some (buf, cap), w)
    else
      let needed := strlen buf + strlen data + 1 in
      if cap <? needed then
        let '(ok, w) := os_malloc w in
        (if ok : bool then Some (buf +:+ data, grow 64 (if 0 <? cap then cap else 4096) needed) else None, w)
      else (Some (buf +:+ data, cap), w).
End buffer.

(** ** The framing *)

(** The callback: for lines, or for named events (an event without a name is
    passed as [None]). *)
Inductive sse_cb (W : Type) :=
| OnChunk (f : string -> W -> Z * W)
| OnEvent (f : option string -> string -> W -> Z * W).
Arguments OnChunk {W}.
Arguments OnEvent {W}.

(** [raw_buf] is [None] when it could not be allocated. *)
Record sse_stream_ctx_t := mkSse {
  line_buf : string;
  line_cap : Z;
  raw_buf : option (string * Z);
  event_name : string;
  cancelled : bool;
  done_ : bool
}.

Definition EVENT_NAME_SIZE : nat := 64.

Definition set_line (b : string) (cap : Z) (s : sse_stream_ctx_t) : sse_stream_ctx_t :=
  mkSse b cap (raw_buf s) (event_name s) (cancelled s) (done_ s).

Definition set_event (e : string) (s : sse_stream_ctx_t) : sse_stream_ctx_t :=
  mkSse (line_buf s) (line_cap s) (raw_buf s) e (cancelled s) (done_ s).

Definition set_cancelled (s : sse_stream_ctx_t) : sse_stream_ctx_t :=
  mkSse (line_buf s) (line_cap s) (raw_buf s) (event_name s) true (done_ s).

Definition set_done (s : sse_stream_ctx_t) : sse_stream_ctx_t :=
  mkSse (line_buf s) (line_cap s) (raw_buf s) (event_name s) (cancelled s) true.

Definition is_blank (c : ascii) : bool := Ascii.eqb c " " || Ascii.eqb c "009".

(** [rest] is the line behind "event:". *)
Definition event_take (s : sse_stream_ctx_t) (rest : string) : sse_stream_ctx_t :=
  set_event (snprintf_s EVENT_NAME_SIZE (skip_while is_blank rest)) s.

(** [event_name[0] ? event_name : NULL] *)
Definition event_arg (e : string) : option string :=
  match e with
  | EmptyString => None
  | String c _ => if Ascii.eqb c "000" then None else Some e
  end.

Definition is_event {W} (cb : sse_cb W) : bool := match cb with OnEvent _ => true | OnChunk _ => false end.

Section sse.
  Context {W : Type} `{Alloc W} (cb : sse_cb W).

(** Without memory for the copy the payload is dropped. *)
Definition data_deliver (s : sse_stream_ctx_t) (data : string) (w : W) : Z * W :=
    let '(ok, w) := os_malloc w in
    if negb ok then (0, w)
    else match cb with
         | OnEvent f => f (event_arg (event_name s)) data w
         | OnChunk f => f data w
         end.

Definition sse_feed_line (s : sse_stream_ctx_t) (line : string) (w : W) : Z * sse_stream_ctx_t * W :=
    let data_field :=
      match strip_prefix "data:" line with
      | None => (0, s, w)
      | Some rest =>
          let start := skip_while is_blank rest in
          match strip_prefix "[DONE]" start with
          | Some _ => (0, set_done s, w)
          | None =>
              let '(ret, w) := data_deliver s start w in
              (ret, if ret =? 0 then s else set_cancelled s, w)
          end
      end in
    if strcmp_eq line "" then (0, s, w)
    else if is_event cb then
      match strip_prefix "event:" line with
      | Some rest => (0, event_take s rest, w)
      | None => data_field
      end
    else data_field.

(** A line without the carriage return at its end. *)
Fixpoint strip_cr (l : string) : string :=
    match l with
    | EmptyString => EmptyString
    | String c EmptyString => if Ascii.eqb c "013" then EmptyString else l
    | String c l' => String c (strip_cr l')
    end.

(** One line of the buffer: [true] when the scan stops. *)
Definition sse_line (s : sse_stream_ctx_t) (l : string) (w : W) : bool * sse_stream_ctx_t * W :=
    let line := strip_cr l in
    if strcmp_eq line "" then (false, if is_event cb then set_event "" s else s, w)
    else
      let '(r, s, w) := sse_feed_line s line w in (negb (r =? 0) || cancelled s, s, w).

(** The scan from [p]: what is left behind the last complete line, or [None]
    when a callback stopped it.  Each turn consumes a line end. *)
Fixpoint process_loop (fuel : nat) (p : string) (s : sse_stream_ctx_t) (w : W)
      : option string * sse_stream_ctx_t * W :=
    match fuel with
    | O => (Some p, s, w)
    | S fuel' =>
        match cut_at "010" p with
        | (_, None) => (Some p, s, w)
        | (l, Some rest) =>
            let '(stop, s, w) := sse_line s l w in
            if stop : bool then (None, s, w) else process_loop fuel' rest s w
        end
    end.

(** When a callback stops the scan the buffer is left as it was. *)
Definition sse_process_buffer (s : sse_stream_ctx_t) (w : W) : sse_stream_ctx_t * W :=
    if strcmp_eq (line_buf s) "" then (s, w)
    else
      let '(p, s', w) := process_loop (S (String.length (line_buf s))) (line_buf s) s w in
      (match p with Some p => set_line p (line_cap s') s' | None => s' end, w).

Definition sse_raw_append (s : sse_stream_ctx_t) (data : string) (w : W) : sse_stream_ctx_t * W :=
    match raw_buf s with
    | None => (s, w)
    | Some (b, cap) =>
        let '(r, w) := prov_buf_add b cap data w in
        (match r with
         | Some b' => mkSse (line_buf s) (line_cap s) (Some b') (event_name s) (cancelled s) (done_ s)
         | None => s
         end, w)
    end.

(** [true]: the whole piece was taken. *)
Definition sse_write_callback (s : sse_stream_ctx_t) (contents : string) (w : W)
      : bool * sse_stream_ctx_t * W :=
    if cancelled s then (strcmp_eq contents "", s, w)
    else
      let '(g, w) := prov_buf_add (line_buf s) (line_cap s) contents w in
      match g with
      | None => (false, s, w)
      | Some (b, cap) =>
          let '(s, w) := sse_raw_append (set_line b cap s) contents w in
          let '(s, w) := sse_process_buffer s w in
          (negb (cancelled s) || strcmp_eq contents "", s, w)
      end.

(** libcurl: the pieces in order until one is refused. *)
Fixpoint write_chunks (s : sse_stream_ctx_t) (chunks : list string) (w : W)
      : bool * sse_stream_ctx_t * W :=
    match chunks with
    | [] => (true, s, w)
    | c :: chunks' =>
        let '(ok, s, w) := sse_write_callback s c w in
        if ok : bool then write_chunks s chunks' w else (false, s, w)
    end.
End sse.

(** ** The request *)

Definition CURLE_WRITE_ERROR : CURLcode := CURLE_OTHER 23.

(** What libcurl reports for a streamed transfer. *)
Record stream_out := mkSO {
  so_handle : bool;
  so_chunks : list string;
  so_res : CURLcode;           (** unless the write callback refuses a piece *)
  so_code : Z;
  so_connect : double;
  so_total : double
}.

Definition so_curl (o : stream_out) : curl_out :=
  mkCurl (so_handle o) (so_res o) (so_code o) "" (so_connect o) (so_total o).

Definition raw_len (s : sse_stream_ctx_t) : Z :=
  match raw_buf s with Some (b, _) => strlen b | None => 0 end.

Section request.
  Context {W : Type} `{Alloc W} `{Platform W} (cb : sse_cb W).
  Context (curl_stream : double -> W -> stream_out * W).

Definition sse_try (tsec : double) (retry : Z) (left_sec : double) (ws : W * sse_stream_ctx_t)
      : attempt_out * (W * sse_stream_ctx_t) :=
    let budget := if retry =? 0 then tsec else left_sec in
    let '(w, s) := ws in
    let '(o, w) := curl_stream budget w in
    if negb (so_handle o) then (mkOut PROVIDER_TRY_FATAL CURLE_OK None PROV_TMO_KIND_N, (w, s))
    else
      let '(ok, s, w) := write_chunks cb s (so_chunks o) w in
      let res := if ok : bool then so_res o else CURLE_WRITE_ERROR in
      let tmo := if bool_decide (res = CURLE_OPERATION_TIMEDOUT)
                 then provider_tmo_class (so_curl o) budget else PROV_TMO_KIND_N in
      (mkOut (if bool_decide (res = CURLE_OK) then PROVIDER_TRY_DONE else PROVIDER_TRY_FAILED)
         res (Some (so_code o)) tmo, (w, s)).

Definition sse_gate (res : CURLcode) (http : Z) (ws : W * sse_stream_ctx_t) : bool * (W * sse_stream_ctx_t) :=
    ((http =? 0) && (raw_len ws.2 =? 0), ws).

Definition sse_reset (ws : W * sse_stream_ctx_t) : W * sse_stream_ctx_t :=
    (ws.1, mkSse "" (line_cap ws.2) ((fun bc => (""%string, bc.2)) <$> raw_buf ws.2) "" false false).

Definition curl_fail (res : CURLcode) (tmo : prov_tmo_t) : airy_rc :=
    if bool_decide (res = CURLE_OPERATION_TIMEDOUT) then
      match tmo with
      | PROV_TMO_STALL => AIRY_ERR_LLM_STREAM_STALL
      | PROV_TMO_TOTAL => AIRY_ETIMEDOUT
      | _ => AIRY_ERR_IO
      end
    else AIRY_ERR_IO.

Definition http_fail (http : Z) : airy_rc :=
    if (http =? 400) || (http =? 422) then AIRY_ERR_LLM_BAD_REQUEST else AIRY_ERR_IO.

(** The code and the HTTP status written through the out parameter. *)
Definition provider_stream_post (tsec : double) (maxr : Z) (cls : provider_retry_class_t) (idem : bool)
      (s : sse_stream_ctx_t) (w : W) : airy_rc * option Z * W :=
    let cfg := mkCfg tsec maxr cls idem (sse_try tsec) (Some sse_gate) (Some sse_reset) in
    let '(rc, out, (w, s)) := provider_retry_run (Some cfg) (w, s) in
    match rc, out with
    | AIRY_SUCCESS, Some (res, http, tmo) =>
        let '(s, w) := sse_process_buffer cb s w in
        let rc := if negb (bool_decide (res = CURLE_OK)) then curl_fail res tmo
                  else if 400 <=? http then http_fail http
                  else if negb (is_event cb) && negb (done_ s) && negb (cancelled s)
                  then AIRY_ERR_LLM_STREAM_UNDONE
                  else AIRY_SUCCESS in
        (rc, Some http, w)
    | _, _ => (rc, None, w)
    end.

Definition sse_ctx_init (w : W) : option sse_stream_ctx_t * W :=
    let '(ok1, w) := os_malloc w in
    let '(ok2, w) := os_malloc w in
    (if ok1 : bool
     then Some (mkSse "" 4096 (if ok2 : bool then Some (""%string, 4096) else None) "" false false)
     else None, w).

(** [args_ok]: url, body and the out parameter are given. *)
Definition stream_entry (args_ok : bool) (tsec : double) (maxr : Z) (cls : provider_retry_class_t)
      (idem : bool) (w : W) : airy_rc * option Z * W :=
    if negb args_ok then (AIRY_ERR_INVALID_PARAM, None, w)
    else
      let maxr := if maxr <? 0 then 0 else maxr in
      let '(s, w) := sse_ctx_init w in
      match s with
      | None => (AIRY_ERR_OUT_OF_MEMORY, None, w)
      | Some s => provider_stream_post tsec maxr cls idem s w
      end.
End request.

(** ** What the framing computes *)

(** The complete lines of a text and what follows the last line end. *)
Fixpoint split_lines (s : string) : list string * string :=
  match s with
  | EmptyString => ([], EmptyString)
  | String c s' =>
      let '(ls, t) := split_lines s' in
      if Ascii.eqb c "010" then (EmptyString :: ls, t)
      else match ls with
           | [] => ([], String c t)
           | l :: ls' => (String c l :: ls', t)
           end
  end.

(** The lines in order until a callback stops. *)
Fixpoint feed_lines {W} `{Alloc W} (cb : sse_cb W) (s : sse_stream_ctx_t) (ls : list string) (w : W)
    : bool * sse_stream_ctx_t * W :=
  match ls with
  | [] => (false, s, w)
  | l :: ls' =>
      let '(stop, s, w) := sse_line cb s l w in
      if stop : bool then (true, s, w) else feed_lines cb s ls' w
  end.

Lemma split_tail s : has_char "010" (split_lines s).2 = false.
Proof.
  induction s as [|c s IH]; simpl; [done|]. destruct (split_lines s) as [ls t]. simpl in IH.
  destruct (Ascii.eqb c "010") eqn:E; [done|]. destruct ls; [|done]. simpl. unfold has_char in *. simpl. by rewrite E.
Qed.

Lemma split_cut s :
  split_lines s = match cut_at "010" s with
                  | (_, None) => ([], s)
                  | (l, Some r) => (l :: (split_lines r).1, (split_lines r).2)
                  end.
Proof.
  induction s as [|c s IH]; simpl; [done|]. destruct (Ascii.eqb c "010") eqn:E; [by destruct (split_lines s)|].
  rewrite IH. by destruct (cut_at "010" s) as [l [r|]].
Qed.

Lemma split_app a b :
  split_lines (a +:+ b) =
  ((split_lines a).1 ++ (split_lines ((split_lines a).2 +:+ b)).1, (split_lines ((split_lines a).2 +:+ b)).2).
Proof.
  induction a as [|c a IH]; [change ("" +:+ b) with b; simpl; change ("" +:+ b) with b; by destruct (split_lines b)|].
  rewrite str_app_cons. cbn [split_lines]. rewrite IH. destruct (split_lines a) as [la ta]. cbn [fst snd].
  destruct (Ascii.eqb c "010") eqn:E; [done|]. destruct la as [|l la]; [|done]. cbn [fst snd app].
  rewrite str_app_cons. cbn [split_lines]. destruct (split_lines (ta +:+ b)) as [lb tb]. rewrite E.
  by destruct lb.
Qed.

Lemma split_none s : has_char "010" s = false -> split_lines s = ([], s).
Proof. intros H. by rewrite split_cut, (cut_at_none _ _ H). Qed.

Lemma cut_at_length c s l r : cut_at c s = (l, Some r) -> (String.length r < String.length s)%nat.
Proof.
  revert l. induction s as [|a s IH]; intros l; simpl; [done|]. destruct (Ascii.eqb a c); [intros [= _ ->]; lia|].
  destruct (cut_at c s) as [h t]. intros [= _ ->]. specialize (IH h eq_refl). lia.
Qed.

Section framing.
  Context {W : Type} `{Alloc W} (cb : sse_cb W).

(** The buffers do not matter to the lines. *)
Definition frame (b : string) (cap : Z) (raw : option (string * Z)) (s : sse_stream_ctx_t) : sse_stream_ctx_t :=
    mkSse b cap raw (event_name s) (cancelled s) (done_ s).

Lemma sse_line_frame b cap raw s l w :
  sse_line cb (frame b cap raw s) l w =
  let '(stop, s', w') := sse_line cb s l w in (stop, frame b cap raw s', w').
Proof.
  unfold sse_line, sse_feed_line. set (line := strip_cr l). cbv zeta.
  change (data_deliver cb (frame b cap raw s)) with (data_deliver cb s).
  destruct (strcmp_eq line ""); [by destruct (is_event cb)|].
  generalize (strip_prefix "event:" line) as ev, (strip_prefix "data:" line) as da.
  intros ev [rest|]; [generalize (strip_prefix "[DONE]" (skip_while is_blank rest)) as dn; intros dn;
    destruct (data_deliver cb s (skip_while is_blank rest) w) as [ret w'], (is_event cb), ev, dn, (ret =? 0); done|].
  destruct (is_event cb), ev; done.
Qed.

Lemma feed_lines_frame b cap raw ls s w :
  feed_lines cb (frame b cap raw s) ls w =
  let '(stop, s', w') := feed_lines cb s ls w in (stop, frame b cap raw s', w').
Proof.
  revert s w. induction ls as [|l ls IH]; intros s w; simpl; [done|]. rewrite sse_line_frame.
  destruct (sse_line cb s l w) as [[stop s'] w']. destruct stop; [done|]. apply IH.
Qed.

(** The lines leave the buffers alone, and stop exactly by cancelling. *)
Lemma sse_line_keeps s l w :
  cancelled s = false ->
  let '(stop, s', _) := sse_line cb s l w in
  s' = frame (line_buf s) (line_cap s) (raw_buf s) s' /\ cancelled s' = stop.
Proof.
  intros Hc. unfold sse_line, sse_feed_line. set (line := strip_cr l). cbv zeta.
  destruct (strcmp_eq line ""); [destruct (is_event cb), s; by simpl in *; subst|].
  generalize (strip_prefix "event:" line) as ev, (strip_prefix "data:" line) as da. destruct s as [b c r e x d].
  simpl in Hc. subst x.
  intros ev [rest|]; [generalize (strip_prefix "[DONE]" (skip_while is_blank rest)) as dn; intros dn;
    destruct (data_deliver cb _ (skip_while is_blank rest) w) as [ret w'], (is_event cb), ev, dn, (ret =? 0) eqn:E;
    simpl; rewrite ?E; done|].
  destruct (is_event cb), ev; done.
Qed.

Lemma feed_lines_keeps ls s w :
  cancelled s = false ->
  let '(stop, s', _) := feed_lines cb s ls w in
  s' = frame (line_buf s) (line_cap s) (raw_buf s) s' /\ cancelled s' = stop.
Proof.
  revert s w. induction ls as [|l ls IH]; intros s w Hc; simpl; [by destruct s|].
  pose proof (sse_line_keeps s l w Hc) as Hk. destruct (sse_line cb s l w) as [[stop s'] w']. destruct Hk as [Hs Hc'].
  destruct stop; [done|]. specialize (IH s' w' Hc'). destruct (feed_lines cb s' ls w') as [[stop s''] w''].
  destruct IH as [IH Hc'']. split; [|done]. rewrite IH, Hs. done.
Qed.

Lemma feed_lines_app l1 l2 s w :
  feed_lines cb s (l1 ++ l2) w =
  let '(stop, s', w') := feed_lines cb s l1 w in
  if stop : bool then (true, s', w') else feed_lines cb s' l2 w'.
Proof.
  revert s w. induction l1 as [|l l1 IH]; intros s w; simpl; [done|].
  destruct (sse_line cb s l w) as [[stop s'] w']. destruct stop; [done|]. apply IH.
Qed.

Lemma process_loop_spec fuel p s w :
  (String.length p < fuel)%nat ->
  process_loop cb fuel p s w =
  let '(stop, s', w') := feed_lines cb s (split_lines p).1 w in
  (if stop : bool then None else Some (split_lines p).2, s', w').
Proof.
  revert p s w. induction fuel as [|fuel IH]; intros p s w Hf; [lia|]. cbn [process_loop].
  rewrite (split_cut p). destruct (cut_at "010" p) as [l [r|]] eqn:Ec; [|done]. cbn [fst snd feed_lines].
  destruct (sse_line cb s l w) as [[stop s'] w']. destruct stop; [done|]. apply IH.
  pose proof (cut_at_length _ _ _ _ Ec). lia.
Qed.
End framing.

(** An allocator that never fails (and is not otherwise observable). *)
Class AllocOk (W : Type) `{Alloc W} : Prop := malloc_ok : forall w, os_malloc w = (true, w).

Section chunks.
  Context {W : Type} `{AllocOk W} (cb : sse_cb W).

Lemma buf_add_ok b cap data w : exists cap', prov_buf_add b cap data w = (Some (b +:+ data, cap'), w).
Proof.
  unfold prov_buf_add. destruct (strcmp_eq data "") eqn:E.
  - apply strcmp_eq_true in E as ->. rewrite str_app_nil_r. by eexists.
  - destruct (cap <? _); [rewrite malloc_ok|]; by eexists.
Qed.

Lemma raw_append_ok s data w :
  exists raw, sse_raw_append s data w = (frame (line_buf s) (line_cap s) raw s, w) /\
    fst <$> raw = (fun r => r.1 +:+ data) <$> raw_buf s.
Proof.
  unfold sse_raw_append. destruct s as [b c r e x d]. simpl. destruct r as [[rb rc]|]; [|by eexists].
  destruct (buf_add_ok rb rc data w) as [cap' ->]. by eexists.
Qed.

Lemma process_ok s w :
  cancelled s = false ->
  let '(stop, s', w') := feed_lines cb s (split_lines (line_buf s)).1 w in
  sse_process_buffer cb s w =
  (frame (if stop : bool then line_buf s else (split_lines (line_buf s)).2) (line_cap s) (raw_buf s) s', w').
Proof.
  intros Hc. unfold sse_process_buffer. rewrite process_loop_spec by lia.
  pose proof (feed_lines_keeps cb (split_lines (line_buf s)).1 s w Hc) as Hk.
  destruct (strcmp_eq (line_buf s) "") eqn:E.
  - apply strcmp_eq_true in E. rewrite E. simpl. by destruct s; simpl in *; subst.
  - destruct (feed_lines cb s _ w) as [[stop s'] w']. destruct Hk as [Hs _]. rewrite Hs. by destruct stop.
Qed.

Lemma write_ok s c w :
  cancelled s = false -> has_char "010" (line_buf s) = false ->
  let '(stop, s', w') := feed_lines cb s (split_lines (line_buf s +:+ c)).1 w in
  exists cap raw,
    sse_write_callback cb s c w =
    (negb stop, frame (if stop : bool then line_buf s +:+ c else (split_lines (line_buf s +:+ c)).2) cap raw s', w') /\
    fst <$> raw = (fun r => r.1 +:+ c) <$> raw_buf s.
Proof.
  intros Hc Hn. unfold sse_write_callback. rewrite Hc.
  destruct (buf_add_ok (line_buf s) (line_cap s) c w) as [cap ->].
  destruct (raw_append_ok (set_line (line_buf s +:+ c) cap s) c w) as (raw & -> & Hraw).
  cbn [line_buf line_cap set_line]. change (frame _ cap raw (set_line _ _ s)) with (frame (line_buf s +:+ c) cap raw s).
  pose proof (process_ok (frame (line_buf s +:+ c) cap raw s) w Hc) as Hp. rewrite feed_lines_frame in Hp.
  cbn [line_buf frame] in Hp.
  pose proof (feed_lines_keeps cb (split_lines (line_buf s +:+ c)).1 s w Hc) as Hk.
  destruct (feed_lines cb s (split_lines (line_buf s +:+ c)).1 w) as [[stop s'] w'] eqn:Ef.
  destruct Hk as [_ Hcs]. rewrite Hp. exists cap, raw. split; [|exact Hraw]. simpl. rewrite Hcs.
  assert (negb stop || strcmp_eq c "" = negb stop) as ->; [|done].
  destruct (strcmp_eq c "") eqn:Ec; [|by rewrite orb_false_r]. apply strcmp_eq_true in Ec as ->.
  rewrite str_app_nil_r, (split_none _ Hn) in Ef. by injection Ef as <- _ _.
Qed.

(** However the pieces are cut: the lines of all bytes, in order. *)
Lemma write_chunks_ok chunks s w :
  cancelled s = false -> has_char "010" (line_buf s) = false ->
  let bytes := line_buf s +:+ str_concat chunks in
  let '(stop, s', w') := feed_lines cb s (split_lines bytes).1 w in
  exists b cap raw,
    write_chunks cb s chunks w = (negb stop, frame b cap raw s', w') /\
    (stop = false -> b = (split_lines bytes).2).
Proof.
  revert s w. induction chunks as [|c chunks IH]; intros s w Hc Hn; cbv zeta.
  - simpl. rewrite str_app_nil_r, (split_none _ Hn). simpl. exists (line_buf s), (line_cap s), (raw_buf s).
    split; [by destruct s|done].
  - change (str_concat (c :: chunks)) with (c +:+ str_concat chunks). rewrite <- str_app_assoc.
    pose proof (write_ok s c w Hc Hn) as Hw. pose proof (feed_lines_keeps cb (split_lines (line_buf s +:+ c)).1 s w Hc) as Hk.
    rewrite split_app. cbn [fst snd write_chunks]. rewrite feed_lines_app.
    destruct (feed_lines cb s (split_lines (line_buf s +:+ c)).1 w) as [[stop s1] w1].
    destruct Hw as (cap & raw & -> & _). destruct Hk as [_ Hc1]. destruct stop; simpl.
    + by eexists _, _, _.
    + set (t := (split_lines (line_buf s +:+ c)).2).
      specialize (IH (frame t cap raw s1) w1 Hc1 (split_tail _)). cbv zeta in IH.
      change (line_buf (frame t cap raw s1)) with t in IH. rewrite feed_lines_frame in IH.
      destruct (feed_lines cb s1 (split_lines (t +:+ str_concat chunks)).1 w1) as [[stop s2] w2].
      destruct IH as (b & cap2 & raw2 & -> & Hb). by exists b, cap2, raw2.
Qed.

Definition raw_some (s : sse_stream_ctx_t) : Prop := exists a, fst <$> raw_buf s = Some a /\ a <> ""%string.

Lemma raw_some_len s : raw_some s -> raw_len s <> 0.
Proof.
  intros (a & Ha & Hne). unfold raw_len. destruct (raw_buf s) as [[b ?]|]; [|done]. simplify_eq/=.
  unfold strlen. destruct a; simpl; [done|lia].
Qed.

Lemma write_kept chunks s w ok s' w' :
  cancelled s = false -> has_char "010" (line_buf s) = false -> raw_some s ->
  write_chunks cb s chunks w = (ok, s', w') -> raw_some s'.
Proof.
  revert s w. induction chunks as [|c chunks IH]; intros s w Hc Hn Hr; simpl; [by intros [= _ <- _]|].
  pose proof (write_ok s c w Hc Hn) as Hw. pose proof (feed_lines_keeps cb (split_lines (line_buf s +:+ c)).1 s w Hc) as Hk.
  destruct (feed_lines cb s _ w) as [[stop s1] w1]. destruct Hw as (cap & raw & -> & Hraw). destruct Hk as [_ Hk].
  set (b := if stop then _ else _). assert (raw_some (frame b cap raw s1)) as Hr1.
  { destruct Hr as (a & Ha & Hne). exists (a +:+ c). simpl. rewrite Hraw. destruct (raw_buf s) as [[? ?]|]; simplify_eq/=.
    split; [done|]. by destruct a. }
  destruct stop; simpl; [by intros [= _ <- _]|]. apply IH; [done|apply split_tail|done].
Qed.

(** A transfer of which no byte was kept called nobody. *)
Lemma write_silent chunks s w ok s' w' :
  cancelled s = false -> line_buf s = ""%string -> fst <$> raw_buf s = Some ""%string ->
  write_chunks cb s chunks w = (ok, s', w') -> raw_len s' = 0 ->
  w' = w /\ fst <$> raw_buf s' = Some ""%string.
Proof.
  revert s w. induction chunks as [|c chunks IH]; intros s w Hc Hb Hr; simpl; [by intros [= _ <- <-]|].
  pose proof (write_ok s c w Hc) as Hw. rewrite Hb in Hw. specialize (Hw eq_refl). change ("" +:+ c) with c in Hw.
  destruct (decide (c = ""%string)) as [->|Hne].
  - simpl in Hw. destruct Hw as (cap & raw & -> & Hraw). simpl. intros He Hl. eapply IH; [| | |exact He|done]; try done.
    simpl. rewrite Hraw. by destruct (raw_buf s) as [[? ?]|]; simplify_eq/=.
  - pose proof (feed_lines_keeps cb (split_lines c).1 s w Hc) as Hk.
    destruct (feed_lines cb s _ w) as [[stop s1] w1]. destruct Hw as (cap & raw & -> & Hraw). destruct Hk as [_ Hk].
    set (b := if stop then _ else _). assert (raw_some (frame b cap raw s1)) as Hr1.
    { exists c. simpl. rewrite Hraw. by destruct (raw_buf s) as [[? ?]|]; simplify_eq/=. }
    destruct stop; simpl; [intros [= _ <- _] Hl; by apply raw_some_len in Hr1|].
    intros He Hl. eapply write_kept, raw_some_len in He; [done|done|apply split_tail|done].
Qed.
End chunks.

(** ** The protocol of the stream

    What a response means, without the buffers: it is a sequence of lines, each
    ended by a line feed, and each line is one of five fields. *)

Definition CR : string := String "013" EmptyString.
Definition LF : string := String "010" EmptyString.

(** [x] is the line [l] without the carriage return at its end. *)
Definition bare (l x : string) : Prop := l = x +:+ CR \/ l = x /\ forall y, l <> y +:+ CR.

Definition blanks (sp : string) : Prop := str_forallb (fun c => Ascii.eqb c " " || Ascii.eqb c "009") sp = true.

Definition no_blank (d : string) : Prop := forall c r, d = String c r -> c <> " "%char /\ c <> "009"%char.

Inductive field := FBlank | FEvent (name : string) | FDone | FData (payload : string) | FOther.

(** [ev]: named events are wanted. *)
Inductive means (ev : bool) (l : string) : field -> Prop :=
| m_blank : bare l "" -> means ev l FBlank
| m_event sp name : ev = true -> bare l ("event:" +:+ sp +:+ name) -> blanks sp -> no_blank name -> means ev l (FEvent name)
| m_done sp tl : bare l ("data:" +:+ sp +:+ "[DONE]" +:+ tl) -> blanks sp -> means ev l FDone
| m_data sp d : bare l ("data:" +:+ sp +:+ d) -> blanks sp -> no_blank d -> (forall tl, d <> "[DONE]" +:+ tl) ->
    means ev l (FData d)
| m_other x : bare l x -> x <> "" -> (ev = true -> forall r, x <> "event:" +:+ r) -> (forall r, x <> "data:" +:+ r) ->
    means ev l FOther.

(** The name handed over with a payload: none when there is none. *)
Definition named (name : string) (arg : option string) : Prop :=
  (name = "" \/ exists r, name = String "000" r) /\ arg = None \/
  name <> "" /\ (forall r, name <> String "000" r) /\ arg = Some name.

(** A payload handed to the callback. *)
Definition calls {W} (cb : sse_cb W) (name d : string) (w : W) (out : Z * W) : Prop :=
  match cb with
  | OnChunk f => f d w = out
  | OnEvent f => exists arg, named name arg /\ f arg d w = out
  end.

(** The fields of the lines in order: the state is the current name, whether the
    stream has ended, and the world; [true] when the callback asked to stop. *)
Inductive protocol {W} (cb : sse_cb W) : list string -> string * bool * W -> bool * string * bool * W -> Prop :=
| p_end name dn w : protocol cb [] (name, dn, w) (false, name, dn, w)
| p_blank l ls name dn w out : means (is_event cb) l FBlank ->
    protocol cb ls (if is_event cb then "" else name, dn, w) out -> protocol cb (l :: ls) (name, dn, w) out
| p_event l ls n name dn w out : means (is_event cb) l (FEvent n) ->
    protocol cb ls (String.substring 0 63 n, dn, w) out -> protocol cb (l :: ls) (name, dn, w) out
| p_done l ls name dn w out : means (is_event cb) l FDone ->
    protocol cb ls (name, true, w) out -> protocol cb (l :: ls) (name, dn, w) out
| p_data l ls d name dn w w' out : means (is_event cb) l (FData d) -> calls cb name d w (0, w') ->
    protocol cb ls (name, dn, w') out -> protocol cb (l :: ls) (name, dn, w) out
| p_stop l ls d name dn w ret w' : means (is_event cb) l (FData d) -> calls cb name d w (ret, w') -> ret <> 0 ->
    protocol cb (l :: ls) (name, dn, w) (true, name, dn, w')
| p_other l ls name dn w out : means (is_event cb) l FOther ->
    protocol cb ls (name, dn, w) out -> protocol cb (l :: ls) (name, dn, w) out.

(** The lines of a text and what follows the last line feed. *)
Definition lines_of (text : string) (ls : list string) (rest : string) : Prop :=
  text = str_concat (map (fun l => l +:+ LF) ls) +:+ rest /\
  Forall (fun l => has_char "010" l = false) ls /\ has_char "010" rest = false.

Lemma cut_lf s l r : cut_at "010" s = (l, Some r) -> s = l +:+ LF +:+ r /\ has_char "010" l = false.
Proof.
  revert l. induction s as [|c s IH]; intros l; simpl; [done|]. destruct (Ascii.eqb c "010") eqn:E.
  - intros [= <- <-]. apply Ascii.eqb_eq in E as ->. done.
  - destruct (cut_at "010" s) as [h t]. intros [= <- ->]. destruct (IH h eq_refl) as [-> Hh]. split; [done|].
    unfold has_char in *. simpl. by rewrite E.
Qed.

Lemma lines_of_split : forall n s, (String.length s < n)%nat -> lines_of s (split_lines s).1 (split_lines s).2.
Proof.
  induction n as [|n IH]; intros s Hn; [lia|]. pose proof (split_tail s) as Ht. rewrite split_cut in *.
  destruct (cut_at "010" s) as [l [r|]] eqn:E; [|by repeat split].
  destruct (cut_lf _ _ _ E) as [-> Hl]. apply cut_at_length in E. destruct (IH r ltac:(lia)) as (Er & Hf & Hr).
  split; [|split; [by constructor|done]]. cbn [map fst snd str_concat foldr]. rewrite !str_app_assoc. do 2 f_equal. exact Er.
Qed.

Lemma strip_cr_bare l : bare l (strip_cr l).
Proof.
  induction l as [|c l IH]; [right; split; [done|]; by intros [|? ?]|]. cbn [strip_cr]. destruct l as [|c' l].
  - destruct (Ascii.eqb_spec c "013") as [->|Hn]; [by left|]. right. split; [done|]. intros [|a y]; [by intros [= ->]|].
    intros [= _ Hy]. by destruct y.
  - destruct IH as [IH|[IH Hy]].
    + left. rewrite str_app_cons. by f_equal.
    + right. split; [by f_equal|]. intros [|a y]; [done|]. rewrite str_app_cons. intros [= _ E]. by apply (Hy y).
Qed.

Lemma blank_stop x : exists sp, x = sp +:+ skip_while is_blank x /\ blanks sp /\ no_blank (skip_while is_blank x).
Proof.
  destruct (skip_while_split is_blank x) as (sp & E & Hs & Hr). exists sp. split; [done|]. split; [done|].
  intros c r Hc. apply Hr in Hc. unfold is_blank in Hc. apply orb_false_iff in Hc as [H1 H2].
  by apply Ascii.eqb_neq in H1, H2.
Qed.

Lemma not_prefix p x : strip_prefix p x = None -> forall r, x <> p +:+ r.
Proof. intros E r Hr. apply strip_prefix_spec in Hr. congruence. Qed.

Lemma event_arg_named e : named e (event_arg e).
Proof.
  unfold named, event_arg. destruct e as [|c e]; [left; split; [by left|done]|].
  destruct (Ascii.eqb_spec c "000") as [->|Hn]; [left; split; [right; by exists e|done]|].
  right. split; [done|]. split; [|done]. by intros r [= -> _].
Qed.

(** One line of the code is one step of the protocol. *)
Lemma sse_line_protocol {W} `{AllocOk W} (cb : sse_cb W) s l w ls out :
  cancelled s = false ->
  (let '(stop, s', w') := sse_line cb s l w in
   if stop : bool then out = (true, event_name s', done_ s', w') else protocol cb ls (event_name s', done_ s', w') out) ->
  protocol cb (l :: ls) (event_name s, done_ s, w) out.
Proof.
  intros Hc. pose proof (strip_cr_bare l) as Hb. unfold sse_line, sse_feed_line. revert Hb. generalize (strip_cr l). intros x Hb.
  destruct (strcmp_eq x "") eqn:E0.
  { apply strcmp_eq_true in E0 as ->. intros P. apply p_blank; [by constructor|]. by destruct (is_event cb). }
  apply strcmp_eq_false in E0. set (field := match strip_prefix "data:" x with None => _ | Some r => _ end).
  assert (Hother : (is_event cb = true -> forall r, x <> "event:" +:+ r) ->
    (let '(stop, s', w') := (let '(r, s', w') := field in (negb (r =? 0) || cancelled s', s', w')) in
     (if stop : bool then out = (true, event_name s', done_ s', w') else protocol cb ls (event_name s', done_ s', w') out)) ->
    protocol cb (l :: ls) (event_name s, done_ s, w) out).
  { intros Hev. subst field. destruct (strip_prefix "data:" x) as [rest|] eqn:E1.
    2: { rewrite Hc. cbn. intros P. apply p_other; [|done]. by eapply m_other; [| | |apply not_prefix]. }
    apply strip_prefix_spec in E1. destruct (blank_stop rest) as (sp & Er & Hsp & Hnb).
    destruct (strip_prefix "[DONE]" (skip_while is_blank rest)) as [tl|] eqn:E2.
    - apply strip_prefix_spec in E2. cbn. rewrite Hc. intros P. apply p_done; [|done].
      apply m_done with sp tl; [|done]. by rewrite <- E2, <- Er, <- E1.
    - assert (Hd : means (is_event cb) l (FData (skip_while is_blank rest))).
      { apply m_data with sp; [by rewrite <- Er, <- E1|done|done|by apply not_prefix]. }
      assert (Hcall : calls cb (event_name s) (skip_while is_blank rest) w (data_deliver cb s (skip_while is_blank rest) w)).
      { unfold data_deliver. rewrite malloc_ok. cbn [negb]. destruct cb as [f|f]; [done|]. exists (event_arg (event_name s)).
        split; [apply event_arg_named|done]. }
      destruct (data_deliver cb s (skip_while is_blank rest) w) as [ret w']. destruct (Z.eqb_spec ret 0) as [->|Hn]; cbn.
      + rewrite Hc. intros P. by eapply p_data.
      + intros ->. by eapply p_stop. }
  destruct (is_event cb) eqn:Eev; [|by apply Hother].
  destruct (strip_prefix "event:" x) as [rest|] eqn:E1; [|apply Hother; intros _; by apply not_prefix].
  apply strip_prefix_spec in E1. destruct (blank_stop rest) as (sp & Er & Hsp & Hnb). cbn. rewrite Hc. intros P.
  eapply p_event; [|exact P]. rewrite Eev. apply m_event with sp; [done|by rewrite <- Er, <- E1|done|done].
Qed.

Lemma feed_protocol {W} `{AllocOk W} (cb : sse_cb W) ls s w :
  cancelled s = false ->
  let '(stop, s', w') := feed_lines cb s ls w in
  protocol cb ls (event_name s, done_ s, w) (stop, event_name s', done_ s', w').
Proof.
  revert s w. induction ls as [|l ls IH]; intros s w Hc; cbn [feed_lines]; [constructor|].
  pose proof (sse_line_keeps cb s l w Hc) as Hk.
  pose proof (fun out => sse_line_protocol cb s l w ls out Hc) as Hl.
  destruct (sse_line cb s l w) as [[stop s1] w1]. destruct Hk as [_ Hc1]. destruct stop; [by apply Hl|].
  specialize (IH s1 w1 Hc1). destruct (feed_lines cb s1 ls w1) as [[stop s2] w2]. by apply Hl.
Qed.

(** C26.  The framing delivers what the protocol says, however the transfer is
    cut into pieces.  While the allocator does not fail, feeding the pieces of a
    response one by one into a fresh buffer has the effect of the protocol on the
    lines of the whole response, in order: a trailing carriage return is
    dropped; the callback is called for a [data:] line with the text behind the
    blanks, and for no other line; [data: [DONE]] only marks the end of the
    stream; with named events an [event:] line sets the name that is handed over
    (63 bytes at most) and an empty line clears it; comments and other fields
    have no effect.  A callback that asks to stop is the last one called, the
    piece is refused, and only then; otherwise the bytes behind the last line
    feed are what remains in the buffer. *)
Theorem sse_framing {W} `{AllocOk W} (cb : sse_cb W) (s : sse_stream_ctx_t) (chunks : list string) (w : W) :
  cancelled s = false -> line_buf s = ""%string ->
  let '(ok, s1, w1) := write_chunks cb s chunks w in
  exists ls rest, lines_of (str_concat chunks) ls rest /\
    protocol cb ls (event_name s, done_ s, w) (cancelled s1, event_name s1, done_ s1, w1) /\
    ok = negb (cancelled s1) /\ (cancelled s1 = false -> line_buf s1 = rest).
Proof.
  intros Hc Hb. pose proof (write_chunks_ok cb chunks s w Hc) as Hw. rewrite Hb in Hw. specialize (Hw eq_refl).
  pose proof (feed_lines_keeps cb (split_lines (str_concat chunks)).1 s w Hc) as Hk. cbv zeta in Hw.
  pose proof (feed_protocol cb (split_lines (str_concat chunks)).1 s w Hc) as Hp.
  change ("" +:+ str_concat chunks) with (str_concat chunks) in Hw.
  destruct (feed_lines cb s (split_lines (str_concat chunks)).1 w) as [[stop s2] w2].
  destruct Hw as (b & cap & raw & -> & Hr). destruct Hk as [_ Hcs].
  exists (split_lines (str_concat chunks)).1, (split_lines (str_concat chunks)).2.
  cbn [frame cancelled event_name done_ line_buf]. rewrite Hcs.
  split; [apply (lines_of_split (S (String.length (str_concat chunks)))); lia|]. by repeat split.
Qed.

(** ** The request *)

Definition fresh_ctx (s : sse_stream_ctx_t) : Prop :=
  line_buf s = ""%string /\ event_name s = ""%string /\ cancelled s = false /\ done_ s = false /\
  fst <$> raw_buf s = Some ""%string.

(** A part [G] of the world that only the callback changes: the clock, the
    sleep, the random source and the transfers do not. *)
Record callback_only {W A} `{Platform W} (curl_stream : double -> W -> stream_out * W) (G : W -> A) : Prop := {
  co_time : forall w, G (airy_time_ms w).2 = G w;
  co_sleep : forall d w, G (airy_sleep_ms d w) = G w;
  co_rand : forall lo hi w, G (airy_random_uint32 lo hi w).2 = G w;
  co_transfer : forall b w, G (curl_stream b w).2 = G w
}.

(** The line that ends a stream. *)
Definition done_line (l : string) : Prop :=
  exists rest tl, strip_prefix "data:" (strip_cr l) = Some rest /\
    strip_prefix "[DONE]" (skip_while is_blank rest) = Some tl.

Section stream.
  Context {W : Type} `{AllocOk W} `{Platform W} (cb : sse_cb W) (curl_stream : double -> W -> stream_out * W).
  Context {A : Type} (G : W -> A) (HG : callback_only curl_stream G).

Notation ctx := (W * sse_stream_ctx_t)%type.

Lemma pair_left tsec st (ws : ctx) :
  let '(_, ws') := provider_left_sec tsec st ws in G ws'.1 = G ws.1 /\ ws'.2 = ws.2.
Proof.
  unfold provider_left_sec. destruct ws as [w s]. simpl. pose proof (co_time _ _ HG w) as Ht.
  by destruct (airy_time_ms w).
Qed.

Notation sse_cfg tsec mr cls idem :=
  (mkCfg tsec mr cls idem (sse_try cb curl_stream tsec) (Some sse_gate) (Some sse_reset)).

Lemma wait_fresh tsec mr cls idem st n local (ws ws' : ctx) :
  fst <$> raw_buf ws.2 = Some ""%string ->
  retry_wait (sse_cfg tsec mr cls idem) st n local ws = (true, ws') -> fresh_ctx ws'.2 /\ G ws'.1 = G ws.1.
Proof.
  intros Hr. unfold retry_wait, provider_retry_budget_ok.
  assert (exists d ws1, (if local then (PROVIDER_RETRY_LOCAL_MS, ws) else provider_backoff_ms n ws) = (d, ws1) /\
            G ws1.1 = G ws.1 /\ ws1.2 = ws.2) as (d & ws1 & -> & HG1 & Hs1).
  { destruct local; [by eexists _, _|]. unfold provider_backoff_ms. destruct (backoff_jitter n =? 0); [by eexists _, _|].
    destruct ws as [w s]. simpl. pose proof (co_rand _ _ HG 0 (u32 (backoff_jitter n * 2)) w) as Ht.
    destruct (airy_random_uint32 0 _ w). by eexists _, _. }
  pose proof (pair_left tsec st ws1) as Hl. cbn [timeout_sec].
  destruct (provider_left_sec tsec st ws1) as [l ws2]. destruct Hl as [HG2 Hs2].
  destruct (negb _); [done|]. intros [= <-]. destruct ws2 as [w2 s2]. cbn [fst snd] in *. rewrite Hs1 in Hs2. subst s2. split.
  - repeat split. simpl. by destruct (raw_buf ws.2) as [[? ?]|].
  - change (G (airy_sleep_ms d w2) = G ws.1). rewrite (co_sleep _ _ HG). congruence.
Qed.

(** A transfer that ended well is the last attempt, on a fresh context, and
    nothing was delivered before it. *)
Definition last_attempt (a : A) (code : Z) (w : W) (s : sse_stream_ctx_t) : Prop :=
    exists budget w0 o w1 s0, curl_stream budget w0 = (o, w1) /\ so_handle o = true /\ so_res o = CURLE_OK /\
      so_code o = code /\ G w1 = a /\ fresh_ctx s0 /\ write_chunks cb s0 (so_chunks o) w1 = (true, s, w).

Lemma stream_loop_last turns tsec mr maxr cls idem st n local res http tmo (ws : ctx) code t w' s' :
  fresh_ctx ws.2 -> turns <> O \/ res <> CURLE_OK ->
  retry_loop turns (sse_cfg tsec mr cls idem) maxr st n local res http tmo ws = (Some (CURLE_OK, code, t), (w', s')) ->
  last_attempt (G ws.1) code w' s'.
Proof.
  revert n res http tmo ws. induction turns as [|turns IH]; intros n res http tmo ws Hf Ht; cbn [retry_loop].
  { destruct Ht as [?|Ht]; [done|]. intros [= -> _ _ _]. done. }
  pose proof (pair_left tsec st ws) as Hl. cbn [timeout_sec].
  destruct (provider_left_sec tsec st ws) as [remain [w1 s1]]. simpl in Hl. destruct Hl as [HG1 ->]. cbn [attempt].
  unfold sse_try at 1. pose proof (co_transfer _ _ HG (if n =? 0 then tsec else remain) w1) as HG2.
  destruct (curl_stream _ w1) as [o w2] eqn:Eo. simpl in HG2.
  destruct (so_handle o) eqn:Eh; simpl; [|done].
  destruct (write_chunks cb ws.2 (so_chunks o) w2) as [[ok s2] w3] eqn:Ew.
  destruct (bool_decide_reflect ((if ok then so_res o else CURLE_WRITE_ERROR) = CURLE_OK)) as [Er|Er]; simpl.
  - intros [= Hr <- _ <- <-]. destruct ok; [|done]. exists (if n =? 0 then tsec else remain), w1, o, w2, ws.2.
    split; [exact Eo|]. split; [done|]. split; [done|]. split; [done|]. split; [congruence|]. by split.
  - match goal with |- context [if ?b then _ else _] => destruct b end; [intros [= Hr _ _ _ _]; done|].
    destruct ((so_code o =? 0) && _) eqn:Eg; simpl; [|intros [= Hr _ _ _ _]; done].
    apply andb_true_iff in Eg as [_ Eg%Z.eqb_eq]. pose proof Hf as (Hb & _ & Hc & _ & Hr).
    destruct (write_silent cb _ _ _ _ _ _ Hc Hb Hr Ew Eg) as [-> Hr2].
    destruct (retry_wait _ _ _ _ _) as [go ws4] eqn:Ewt.
    destruct go; simpl; [|intros [= Hr' _ _ _]; done]. apply wait_fresh in Ewt as [Hf4 HG4]; [|done].
    intros Hx%IH; [|done|by right]. simpl in HG4. by rewrite HG4, HG2, HG1 in Hx.
Qed.

Lemma run_has_result {V} `{Platform V} (cfg : provider_retry_cfg_t V) v v' :
  provider_retry_run (Some cfg) v <> (AIRY_SUCCESS, None, v').
Proof.
  unfold provider_retry_run. destruct (airy_time_ms v). by destruct (retry_loop _ _ _ _ _ _ _ _ _ _) as [[?|] ?].
Qed.

Lemma run_last tsec mr cls idem w s rc code t w' s' :
  fresh_ctx s -> provider_retry_run (Some (sse_cfg tsec mr cls idem)) (w, s) = (rc, Some (CURLE_OK, code, t), (w', s')) ->
  last_attempt (G w) code w' s'.
Proof.
  intros Hf. unfold provider_retry_run. cbn [max_retries retry_class]. simpl airy_time_ms.
  pose proof (co_time _ _ HG w) as Ht. destruct (airy_time_ms w) as [st w1]. simpl in Ht.
  set (maxr := if 0 <? mr then mr else 0). assert (0 <= maxr) as Hm by (subst maxr; destruct (Z.ltb_spec 0 mr); lia).
  destruct (retry_loop _ _ _ _ _ _ _ _ _ _) as [[[[res http] tmo]|] w2] eqn:E; [|done].
  intros [= _ -> -> -> ->]. rewrite <- Ht. eapply stream_loop_last in E; [exact E|done|left; lia].
Qed.
End stream.

Section success.
  Context {W : Type} {HA : Alloc W} {HO : AllocOk W}.

Lemma sse_line_done cb s l w :
  let '(_, s1, _) := sse_line cb s l w in done_ s1 = true -> done_ s = true \/ done_line l.
Proof.
  unfold sse_line. destruct (strcmp_eq (strip_cr l) "") eqn:E0; [destruct (is_event cb); by left|].
  unfold sse_feed_line. rewrite E0. cbv zeta. set (field := match strip_prefix "data:" _ with None => _ | Some r => _ end).
  assert (done_ field.1.2 = true -> done_ s = true \/ done_line l) as Hf.
  { subst field. destruct (strip_prefix "data:" (strip_cr l)) as [rest|] eqn:E1; [|by left].
    destruct (strip_prefix "[DONE]" (skip_while is_blank rest)) as [tl|] eqn:E2; [intros _; right; by exists rest, tl|].
    destruct (data_deliver cb s _ w) as [ret w']. simpl. destruct (ret =? 0); by left. }
  destruct (is_event cb); [destruct (strip_prefix "event:" _); [by left|]|];
    destruct field as [[r s1] w1]; exact Hf.
Qed.

Lemma feed_done cb ls s w stop s' w' :
  feed_lines cb s ls w = (stop, s', w') -> done_ s' = true -> done_ s = true \/ Exists done_line ls.
Proof.
  revert s w. induction ls as [|l ls IH]; intros s w; simpl; [intros [= _ -> _]; by left|].
  destruct (sse_line cb s l w) as [[st s1] w1] eqn:El. intros Hf Hd.
  pose proof (sse_line_done cb s l w) as Hl. rewrite El in Hl.
  destruct st; [injection Hf as <- <- <-|apply IH in Hf as [Hf|Hf]; [|by right; right|done]];
    destruct Hl as [Hl|Hl]; try done; [by left|by right; left|by left|by right; left].
Qed.

(** A transfer taken to its end on a fresh context: the lines went through, and
    processing what is left does nothing. *)
Lemma last_lines cb s chunks w s1 w1 :
  fresh_ctx s -> write_chunks cb s chunks w = (true, s1, w1) ->
  exists s', feed_lines cb s (split_lines (str_concat chunks)).1 w = (false, s', w1) /\ cancelled s' = false /\
    exists b cap raw, s1 = frame b cap raw s' /\ sse_process_buffer cb s1 w1 = (s1, w1).
Proof.
  intros (Hb & _ & Hc & _) Hw. pose proof (write_chunks_ok cb chunks s w Hc) as Hwc. rewrite Hb in Hwc.
  specialize (Hwc eq_refl). cbv zeta in Hwc. change ("" +:+ str_concat chunks) with (str_concat chunks) in Hwc.
  pose proof (feed_lines_keeps cb (split_lines (str_concat chunks)).1 s w Hc) as Hk.
  destruct (feed_lines cb s _ w) as [[stop s'] w4] eqn:Ef.
  destruct Hwc as (b & cap & raw & Hw' & Hbuf). rewrite Hw in Hw'. injection Hw' as Hst -> ->.
  destruct stop; [done|]. specialize (Hbuf eq_refl). destruct Hk as [_ Hcs].
  exists s'. split; [done|]. split; [done|]. exists b, cap, raw. split; [done|].
  pose proof (process_ok cb (frame b cap raw s') w4 Hcs) as Hpo. cbn [line_buf frame] in Hpo.
  rewrite Hbuf, (split_none _ (split_tail _)) in Hpo. simpl in Hpo. by rewrite Hbuf, Hpo.
Qed.
End success.

(** A streaming request that succeeds delivered one complete response.  While
    the allocator does not fail, success of a request in line mode means: there
    was a transfer that libcurl reported as complete, with a status below 400,
    whose bytes contain the line that ends a stream; the callback was called for
    the complete lines of exactly that transfer, each once and in order, and
    never asked to stop; and before it nothing had been delivered: what only the
    callback can change was unchanged when the transfer began, however many
    attempts failed before. *)
Theorem stream_success_complete {W A} `{AllocOk W} `{Platform W} (f : string -> W -> Z * W)
    (curl_stream : double -> W -> stream_out * W) (G : W -> A) args tsec maxr cls idem w http w' :
  callback_only curl_stream G ->
  stream_entry (OnChunk f) curl_stream args tsec maxr cls idem w = (AIRY_SUCCESS, http, w') ->
  exists budget w0 o w1 s0 s', curl_stream budget w0 = (o, w1) /\ so_res o = CURLE_OK /\
    http = Some (so_code o) /\ so_code o < 400 /\ G w1 = G w /\ fresh_ctx s0 /\
    feed_lines (OnChunk f) s0 (split_lines (str_concat (so_chunks o))).1 w1 = (false, s', w') /\
    Exists done_line (split_lines (str_concat (so_chunks o))).1.
Proof.
  intros HG. unfold stream_entry. destruct args; [|done]. cbn [negb]. unfold sse_ctx_init. rewrite !malloc_ok.
  unfold provider_stream_post. set (s0 := mkSse _ _ _ _ _ _).
  destruct (provider_retry_run _ (w, s0)) as [[rc out] [w1 s1]] eqn:Er.
  destruct rc; try done. destruct out as [[[res code] tmo]|]; [|by apply run_has_result in Er].
  destruct (sse_process_buffer (OnChunk f) s1 w1) as [s2 w2] eqn:Ep. intros Hrc.
  destruct (bool_decide_reflect (res = CURLE_OK)) as [->|]; [|simpl in Hrc; by unfold curl_fail in Hrc; repeat case_match].
  cbn [negb] in Hrc. destruct (Z.leb_spec 400 code); [by unfold http_fail in Hrc; repeat case_match|].
  apply (run_last _ _ G HG) in Er as (budget & w0 & o & w3 & s3 & Eo & Hh & Hres & Hcode & HGw & Hfr & Hw); [|done].
  destruct (last_lines _ _ _ _ _ _ Hfr Hw) as (s' & Ef & Hcs & b & cap & raw & -> & Hpo).
  rewrite Hpo in Ep. injection Ep as <- <-. simpl in Hrc. rewrite Hcs in Hrc.
  destruct (done_ s') eqn:Ed; simpl in Hrc; [|done]. injection Hrc as <- <-.
  exists budget, w0, o, w3, s3, s'. repeat (split; [by subst|]).
  destruct (feed_done _ _ _ _ _ _ _ Ef Ed) as [Hd|?]; [|done]. destruct Hfr as (_ & _ & _ & Hfd & _). congruence.
Qed.

(** ** A concrete world *)

(** The texts delivered so far (newest first) and a script of transfers. *)
Record sse_toy := mkSt { st_got : list string; st_script : list stream_out }.

#[export] Instance sse_toy_alloc : Alloc sse_toy := fun w => (true, w).

#[export] Instance sse_toy_alloc_ok : AllocOk sse_toy.
Proof. done. Qed.

#[export] Instance sse_toy_platform : Platform sse_toy := {
  airy_time_ms w := (0, w); airy_sleep_ms _ w := w; airy_random_uint32 lo _ w := (lo, w) }.

Definition toy_stream (_ : double) (w : sse_toy) : stream_out * sse_toy :=
  (default (mkSO true [] CURLE_COULDNT_CONNECT 0 d_zero d_zero) (head (st_script w)),
   mkSt (st_got w) (tail (st_script w))).

(** A callback that keeps what it gets and asks to stop at the text "stop". *)
Definition keep (t : string) (w : sse_toy) : Z * sse_toy :=
  (if strcmp_eq t "stop" then -1 else 0, mkSt (t :: st_got w) (st_script w)).

Definition toy_sse0 : sse_stream_ctx_t := mkSse "" 4096 (Some (""%string, 4096)) "" false false.

Definition nl : string := String "010" EmptyString.

Lemma toy_callback_only : callback_only toy_stream st_got.
Proof. by split. Qed.

Lemma sse_framing_witness :
  let chunks := ["da"; "ta: a" +:+ nl +:+ "da"; "ta:b" +:+ nl +:+ "x"]%string in
  let '(ok, s1, w1) := write_chunks (OnChunk keep) toy_sse0 chunks (mkSt [] []) in
  ok = true /\ st_got w1 = ["b"; "a"]%string /\
  exists ls rest, lines_of (str_concat chunks) ls rest /\ line_buf s1 = rest /\ rest = "x"%string.
Proof.
  pose proof (sse_framing (OnChunk keep) toy_sse0 ["da"; "ta: a" +:+ nl +:+ "da"; "ta:b" +:+ nl +:+ "x"]%string
    (mkSt [] []) eq_refl eq_refl) as Hf.
  cbv zeta. vm_compute write_chunks in Hf. vm_compute write_chunks. destruct Hf as (ls & rest & Hl & _ & _ & Hb).
  split; [reflexivity|]. split; [reflexivity|]. exists ls, rest. split; [exact Hl|]. split; [apply Hb; reflexivity|].
  symmetry. apply Hb. reflexivity.
Defined.

Definition toy_run : sse_toy :=
  mkSt [] [mkSO true [] CURLE_COULDNT_CONNECT 0 d_zero d_zero;
           mkSO true ["data: hello" +:+ nl; "data: [DONE]" +:+ nl]%string CURLE_OK 200 d_zero d_zero].

Lemma stream_success_complete_witness :
  stream_entry (OnChunk keep) toy_stream true (d_of_Z 60) 2 PROVIDER_RETRY_DEFAULT false toy_run
  = (AIRY_SUCCESS, Some 200, mkSt ["hello"%string] []) /\
  exists o : stream_out, so_code o < 400 /\ Exists done_line (split_lines (str_concat (so_chunks o))).1.
Proof.
  assert (stream_entry (OnChunk keep) toy_stream true (d_of_Z 60) 2 PROVIDER_RETRY_DEFAULT false toy_run
          = (AIRY_SUCCESS, Some 200, mkSt ["hello"%string] [])) as E by (vm_compute; reflexivity).
  split; [exact E|]. apply (stream_success_complete _ _ st_got) in E; [|exact toy_callback_only].
  destruct E as (b & w0 & o & w1 & s0 & s' & _ & _ & _ & Hc & _ & _ & _ & Hd). exists o. by split.
Defined.

(** ** Where the code departs from its intent *)

(** When the callback asks to stop, the lines before it stay in the buffer, and
    the first of them is delivered again after the transfer has ended. *)
Lemma cancel_redelivers :
  let t := mkSO true ["data: a" +:+ nl +:+ "data: stop" +:+ nl]%string CURLE_OK 200 d_zero d_zero in
  (stream_entry (OnChunk keep) toy_stream true (d_of_Z 60) 0 PROVIDER_RETRY_DEFAULT false (mkSt [] [t])).1.1
  = AIRY_ERR_IO /\
  st_got (stream_entry (OnChunk keep) toy_stream true (d_of_Z 60) 0 PROVIDER_RETRY_DEFAULT false (mkSt [] [t])).2
  = ["a"; "stop"; "a"]%string.
Proof. split; vm_compute; reflexivity. Qed.

(** The last line of a response is lost when no line end follows it, the line
    that ends the stream included. *)
Lemma unterminated_done_lost :
  let t := mkSO true ["data: a" +:+ nl +:+ "data: [DONE]"]%string CURLE_OK 200 d_zero d_zero in
  (stream_entry (OnChunk keep) toy_stream true (d_of_Z 60) 0 PROVIDER_RETRY_DEFAULT false (mkSt [] [t])).1.1
  = AIRY_ERR_LLM_STREAM_UNDONE.
Proof. vm_compute. reflexivity. Qed.
