(* ===== verification/Cjson.v ===== *)
(** * Cjson

    What the daemons use of the cJSON library: the accessors of a parsed value
    and the values the code builds and prints.  The library is not part of this
    repository; its parser, its accessors and its printer are operations of a
    class.  [cJSON_str], [cJSON_num] and [cJSON_items] join a type test with the
    value it guards ([cJSON_IsString(v) && v->valuestring], ...). *)

From S2P Require Import Prelude Doubles.

(** A value built by the code. *)
Inductive jtree :=
| JStr (s : string)
| JNum (n : Z)                                 (** an integer *)
| JReal (d : double)
| JBool (b : bool)
| JObj (members : list (string * jtree))
| JArr (items : list jtree).

Class Cjson := {
  cJSON : Type;
  cJSON_Parse : string -> option cJSON;
  cJSON_GetObjectItem : cJSON -> string -> option cJSON;
  cJSON_IsObject : cJSON -> bool;
  cJSON_str : cJSON -> option string;
  cJSON_num : cJSON -> option double;
  cJSON_int : cJSON -> Z;
  cJSON_items : cJSON -> option (list cJSON);
  cJSON_PrintUnformatted : jtree -> string
}.

Section access.
  Context `{Cjson}.

(** [cJSON_GetObjectItem] of a value that may be missing. *)
Definition cj_get (v : option cJSON) (key : string) : option cJSON := v ≫= fun v => cJSON_GetObjectItem v key.

Definition cj_str (v : option cJSON) : option string := v ≫= cJSON_str.

Definition cj_num (v : option cJSON) : option double := v ≫= cJSON_num.

Definition cj_is_object (v : option cJSON) : bool := match v with Some v => cJSON_IsObject v | None => false end.

Definition cj_items (v : option cJSON) : option (list cJSON) := v ≫= cJSON_items.
End access.

(** A concrete library: values as trees, parsed by a table; used to run the
    models that take the library as a parameter. *)
Inductive jval :=
| VStr (s : string) | VNum (d : double) | VArr (l : list jval) | VObj (l : list (string * jval)).

Fixpoint jtree_text (t : jtree) : string :=
  match t with
  | JStr s => String "034" (s +:+ String "034" EmptyString)
  | JNum n => print_d n
  | JReal d => print_d (d_trunc d)
  | JBool b => if b then "true" else "false"
  | JArr l => "[" +:+ String.concat "," (map jtree_text l) +:+ "]"
  | JObj l => "{" +:+ String.concat ","
                (map (fun kv => String "034" (kv.1 +:+ String "034" (String ":" (jtree_text kv.2)))) l) +:+ "}"
  end.

Definition toy_cjson (docs : list (string * jval)) : Cjson := {|
  cJSON := jval;
  cJSON_Parse s := snd <$> find (fun e => strcmp_eq e.1 s) docs;
  cJSON_GetObjectItem v k :=
    match v with VObj l => snd <$> find (fun e => strcmp_eq e.1 k) l | _ => None end;
  cJSON_IsObject v := match v with VObj _ => true | _ => false end;
  cJSON_str v := match v with VStr s => Some s | _ => None end;
  cJSON_num v := match v with VNum d => Some d | _ => None end;
  cJSON_int v := match v with VNum d => d_trunc d | _ => 0 end;
  cJSON_items v := match v with VArr l => Some l | _ => None end;
  cJSON_PrintUnformatted := jtree_text
|}.
