(* ===== verification/ToolStream.v ===== *)
(** * ToolStream

    The assembly of a streamed response in llm_d
    (llm_d/src/providers/core/toolstream.c, with the usage and timing readers
    of provider_envelope.h and the control frames of sse.c): tool-call slots
    filled from fragments, the accumulator of text, reasoning, identity and
    usage, the response handed out at the end.

    The user's callback, the allocator and the worlds they act on are as in file
    Sse; cJSON is the class of file Cjson; the normalisation of finish reasons
    and the control characters belong to the commons library and are
    parameters. *)

From S2P Require Import Prelude Doubles Retry Sse Cjson.

Definition PROVIDER_TOOL_MAX : nat := 16.
Definition PROVIDER_TOOL_STR_MAX : nat := 128.

(** ** Tool-call slots *)

(** [args] is [None] until the first fragment. *)
Record provider_tool_slot_t := mkSlot {
  index : Z;
  t_id : string;
  t_name : string;
  t_args : option string;
  args_cap : Z
}.

(** The live slots: their number is [count]. *)
Notation provider_tool_acc_t := (list provider_tool_slot_t).

Fixpoint slot_find (acc : provider_tool_acc_t) (i : Z) : option nat :=
  match acc with
  | [] => None
  | s :: acc' => if index s =? i then Some O else S <$> slot_find acc' i
  end.

(** The position of the slot for an index, created when there is room. *)
Definition tool_slot (acc : provider_tool_acc_t) (i : Z) : option nat * provider_tool_acc_t :=
  match slot_find acc i with
  | Some k => (Some k, acc)
  | None =>
      if (PROVIDER_TOOL_MAX <=? length acc)%nat then (None, acc)
      else (Some (length acc), acc ++ [mkSlot i "" "" None 0])
  end.

Section alloc.
  Context {W : Type} `{Alloc W}.

Definition tool_args_append (s : provider_tool_slot_t) (frag : string) (w : W) : provider_tool_slot_t * W :=
    if strcmp_eq frag "" then (s, w)
    else
      let old := default "" (t_args s) in
      let need := strlen old + strlen frag + 1 in
      let put cap := mkSlot (index s) (t_id s) (t_name s) (Some (old +:+ frag)) cap in
      if args_cap s <? need then
        let '(ok, w) := os_malloc w in
        (if ok : bool then put (grow 64 (if args_cap s =? 0 then 256 else args_cap s) need) else s, w)
      else (put (args_cap s), w).

(** A field keeps its first non-empty value. *)
Definition tool_str_first (dst : string) (cap : nat) (src : option string) : string :=
    match src with
    | Some src => if strcmp_eq src "" || negb (strcmp_eq dst "") then dst else snprintf_s cap src
    | None => dst
    end.

(** [None] when the slots are used up. *)
Definition provider_tool_begin (acc : provider_tool_acc_t) (i : Z) (id name : option string)
      : option nat * provider_tool_acc_t :=
    let '(k, acc) := tool_slot acc i in
    match k with
    | None => (None, acc)
    | Some k =>
        (Some k, alter (fun s => mkSlot (index s) (tool_str_first (t_id s) PROVIDER_TOOL_STR_MAX id)
                    (tool_str_first (t_name s) PROVIDER_TOOL_STR_MAX name) (t_args s) (args_cap s)) k acc)
    end.

Definition provider_tool_args_add (acc : provider_tool_acc_t) (i : Z) (frag : option string) (w : W)
      : provider_tool_acc_t * W :=
    match frag with
    | None => (acc, w)
    | Some frag =>
        let '(k, acc) := tool_slot acc i in
        match k ≫= fun k => s ← acc !! k; Some (k, s) with
        | None => (acc, w)
        | Some (k, s) => let '(s, w) := tool_args_append s frag w in (<[k := s]> acc, w)
        end
    end.
End alloc.

Section json.
  Context `{Cjson} {W : Type} `{Alloc W}.

(** One element of [tool_calls]; without an index the next free one is meant. *)
Definition tool_delta_one (acc : provider_tool_acc_t) (tc : cJSON) (w : W) : provider_tool_acc_t * W :=
    let tc := Some tc in
    let fn := cj_get tc "function" in
    let field k := if cj_is_object fn then cj_str (cj_get fn k) else None in
    let i := match cj_num (cj_get tc "index") with
             | Some d => d_trunc d
             | None => Z.of_nat (length acc)
             end in
    let '(k, acc) := provider_tool_begin acc i (cj_str (cj_get tc "id")) (field "name"%string) in
    match k with
    | None => (acc, w)
    | Some _ => provider_tool_args_add acc i (field "arguments"%string) w
    end.

Fixpoint tool_delta_loop (acc : provider_tool_acc_t) (tcs : list cJSON) (w : W) : provider_tool_acc_t * W :=
    match tcs with
    | [] => (acc, w)
    | tc :: tcs' => let '(acc, w) := tool_delta_one acc tc w in tool_delta_loop acc tcs' w
    end.

Definition provider_tool_delta (acc : provider_tool_acc_t) (delta : option cJSON) (w : W)
      : provider_tool_acc_t * W :=
    match cj_items (cj_get delta "tool_calls") with
    | None => (acc, w)
    | Some tcs => tool_delta_loop acc tcs w
    end.

Definition tool_tree (s : provider_tool_slot_t) : jtree :=
    JObj [("id", JStr (if strcmp_eq (t_id s) "" then "call_unknown" else t_id s));
          ("type", JStr "function");
          ("function", JObj ((if strcmp_eq (t_name s) "" then [] else [("name", JStr (t_name s))]) ++
                             [("arguments", JStr (default "" (t_args s)))]))]%string.

(** [build_ok]: cJSON had memory for the tree. *)
Definition provider_tool_json (acc : provider_tool_acc_t) (build_ok : bool) : option string :=
    if build_ok then Some (cJSON_PrintUnformatted (JArr (map tool_tree acc))) else None.
End json.

(** ** Control frames *)

(** The characters of the frame protocol (commons/include/airy_llm_stream.h). *)
Class StreamProto := {
  AIRY_LLM_STREAM_RS : ascii;
  AIRY_LLM_STREAM_TAG_TOOL : ascii;
  AIRY_LLM_STREAM_TAG_REASON : ascii;
  AIRY_LLM_STREAM_TAG_USAGE : ascii;
  AIRY_LLM_STREAM_TAG_ERROR : ascii;
  AIRY_LLM_STREAM_FRAME_MAX : Z;
  AIRY_LLM_STREAM_FRAME_CAP : Z
}.

Definition str1 (c : ascii) : string := String c EmptyString.

Section frames.
  Context `{StreamProto} {W : Type}.

(** The user's callback, [None] for NULL. *)
Definition user_cb_t := option (string -> W -> W).

Definition emit_frame (cb : string -> W -> W) (tag : ascii) (body : string) (w : W) : W :=
    cb (str1 AIRY_LLM_STREAM_RS) (cb body (cb (String AIRY_LLM_STREAM_RS (str1 tag)) w)).

Definition provider_emit_tool_frame (cb : user_cb_t) (tc_json : option string) (w : W) : W :=
    match cb, tc_json with
    | Some cb, Some js => emit_frame cb AIRY_LLM_STREAM_TAG_TOOL js w
    | _, _ => w
    end.

Definition provider_emit_reasoning_frame (cb : user_cb_t) (reasoning : option string) (w : W) : W :=
    match cb, reasoning with
    | Some cb, Some r => if strcmp_eq r "" then w else emit_frame cb AIRY_LLM_STREAM_TAG_REASON r w
    | _, _ => w
    end.
End frames.
Arguments user_cb_t : clear implicits.

(** ** The accumulator *)

Record llm_timings_t := mkTimings {
  prefill_tokens : Z; decode_tokens : Z; kv_cache_tokens : Z; prefill_ms : double; decode_ms : double }.

Record usage_t := mkUsage {
  prompt_tokens : Z; completion_tokens : Z; total_tokens : Z; reasoning_tokens : Z; cached_tokens : Z }.

(** Pointers are options; a buffer comes with its capacity. *)
Record provider_stream_acc_t := mkAcc {
  acc_content : option string;
  acc_cap : Z;
  acc_reasoning : option string;
  acc_reasoning_cap : Z;
  resp_id : option string;
  resp_model : option string;
  resp_created : Z;
  finish_reason : option string;
  usage : usage_t;
  timings : llm_timings_t;
  tools : provider_tool_acc_t
}.

Definition acc_zero : provider_stream_acc_t :=
  mkAcc None 0 None 0 None None 0 None (mkUsage 0 0 0 0 0) (mkTimings 0 0 0 d_zero d_zero) [].

(** The result of an append: the buffer, no memory, or a write through the
    null pointer (the buffer is NULL and the capacity is large enough). *)
Inductive append_t := AppDone (buf : option string) (cap : Z) | AppNoMem | AppNull.

Section acc.
  Context `{Cjson} `{StreamProto} {W : Type} `{Alloc W}.
  Context (llm_finish_reason_norm : string -> string).

Definition provider_buf_append (buf : option string) (cap : Z) (text : string) (w : W) : append_t * W :=
    if strcmp_eq text "" then (AppDone buf cap, w)
    else
      let needed := strlen (default "" buf) + strlen text + 1 in
      if cap <? needed then
        let '(r, w) := prov_buf_add (default "" buf) cap text w in
        (match r with Some (b, cap) => AppDone (Some b) cap | None => AppNoMem end, w)
      else match buf with
           | Some b => (AppDone (Some (b +:+ text)) cap, w)
           | None => (AppNull, w)
           end.

Definition set_content (b : option string) (cap : Z) (a : provider_stream_acc_t) : provider_stream_acc_t :=
    mkAcc b cap (acc_reasoning a) (acc_reasoning_cap a) (resp_id a) (resp_model a) (resp_created a)
      (finish_reason a) (usage a) (timings a) (tools a).

Definition set_reasoning (b : option string) (cap : Z) (a : provider_stream_acc_t) : provider_stream_acc_t :=
    mkAcc (acc_content a) (acc_cap a) b cap (resp_id a) (resp_model a) (resp_created a)
      (finish_reason a) (usage a) (timings a) (tools a).

Definition set_tools (t : provider_tool_acc_t) (a : provider_stream_acc_t) : provider_stream_acc_t :=
    mkAcc (acc_content a) (acc_cap a) (acc_reasoning a) (acc_reasoning_cap a) (resp_id a) (resp_model a)
      (resp_created a) (finish_reason a) (usage a) (timings a) t.

Definition provider_stream_acc_init (w : W) : provider_stream_acc_t * W :=
    let '(ok, w) := os_malloc w in
    (set_content (if ok : bool then Some ""%string else None) 4096 acc_zero, w).

(** [None]: the process dies on a null pointer. *)
Definition provider_stream_text_push (cb : user_cb_t W) (a : provider_stream_acc_t) (text : option string) (w : W)
      : option (provider_stream_acc_t * W) :=
    match text with
    | None => Some (a, w)
    | Some text =>
        let w := match cb with Some cb => cb text w | None => w end in
        let '(r, w) := provider_buf_append (acc_content a) (acc_cap a) text w in
        match r with
        | AppDone b cap => Some (set_content b cap a, w)
        | AppNoMem => Some (a, w)
        | AppNull => None
        end
    end.

Definition strdup_w (s : string) (w : W) : option string * W :=
    let '(ok, w) := os_malloc w in (if ok : bool then Some s else None, w).

(** [if (!dst) dst = strdup(src)] for a string member. *)
Definition take_first (dst : option string) (src : option string) (w : W) : option string * W :=
    match dst, src with
    | None, Some s => strdup_w s w
    | _, _ => (dst, w)
    end.

Definition ident_take (a : provider_stream_acc_t) (root : cJSON) (w : W) : provider_stream_acc_t * W :=
    let '(id, w) := take_first (resp_id a) (cj_str (cj_get (Some root) "id")) w in
    let '(model, w) := take_first (resp_model a) (cj_str (cj_get (Some root) "model")) w in
    let created := match cj_num (cj_get (Some root) "created") with
                   | Some d => if resp_created a =? 0 then d_trunc d else resp_created a
                   | None => resp_created a
                   end in
    (mkAcc (acc_content a) (acc_cap a) (acc_reasoning a) (acc_reasoning_cap a) id model created
       (finish_reason a) (usage a) (timings a) (tools a), w).

Definition delta_take (cb : user_cb_t W) (a : provider_stream_acc_t) (delta : cJSON) (w : W)
      : option (provider_stream_acc_t * W) :=
    let delta := Some delta in
    '(a, w) ← provider_stream_text_push cb a (cj_str (cj_get delta "content")) w;
    '(a, w) ← match cj_str (cj_get delta "reasoning_content") with
              | None => Some (a, w)
              | Some r =>
                  let w := provider_emit_reasoning_frame cb (Some r) w in
                  let '(o, w) := provider_buf_append (acc_reasoning a) (acc_reasoning_cap a) r w in
                  match o with
                  | AppDone b cap => Some (set_reasoning b cap a, w)
                  | AppNoMem => Some (a, w)
                  | AppNull => None
                  end
              end;
    let '(t, w) := provider_tool_delta (tools a) delta w in Some (set_tools t a, w).

Definition set_finish (f : option string) (a : provider_stream_acc_t) : provider_stream_acc_t :=
    mkAcc (acc_content a) (acc_cap a) (acc_reasoning a) (acc_reasoning_cap a) (resp_id a) (resp_model a)
      (resp_created a) f (usage a) (timings a) (tools a).

Definition choice_take (cb : user_cb_t W) (a : provider_stream_acc_t) (choice : cJSON) (w : W)
      : option (provider_stream_acc_t * W) :=
    '(a, w) ← match cj_get (Some choice) "delta" with
              | Some delta => delta_take cb a delta w
              | None => Some (a, w)
              end;
    match cj_str (cj_get (Some choice) "finish_reason") with
    | Some fr =>
        if strcmp_eq fr "null" then Some (a, w)
        else let '(f, w) := strdup_w (llm_finish_reason_norm fr) w in Some (set_finish f a, w)
    | None => Some (a, w)
    end.

(** A number of the code's 32-bit fields; [old] when it is missing. *)
Definition u32_or (old : Z) (v : option cJSON) : Z :=
    match cj_num v with Some d => u32 (d_trunc d) | None => old end.

Definition provider_usage_load (u : option cJSON) (s : usage_t) : usage_t :=
    if negb (cj_is_object u) then s
    else
      let reasoning := match cj_num (cj_get u "reasoning_tokens") with
                       | Some d => u32 (d_trunc d)
                       | None => u32_or (reasoning_tokens s)
                                   (cj_get (cj_get u "completion_tokens_details") "reasoning_tokens")
                       end in
      let n := match cj_num (cj_get (cj_get u "prompt_tokens_details") "cached_tokens") with
               | Some d => d_trunc d
               | None => -1
               end in
      mkUsage (u32_or (prompt_tokens s) (cj_get u "prompt_tokens"))
        (u32_or (completion_tokens s) (cj_get u "completion_tokens"))
        (u32_or (total_tokens s) (cj_get u "total_tokens"))
        reasoning (if 0 <=? n then u32 n else cached_tokens s).

Definition provider_timings_load (t : option cJSON) (s : llm_timings_t) : llm_timings_t :=
    if negb (cj_is_object t) then s
    else
      let f64 k := default d_zero (cj_num (cj_get t k)) in
      mkTimings (u32_or 0 (cj_get t "prompt_n")) (u32_or 0 (cj_get t "predicted_n"))
        (u32_or 0 (cj_get t "cache_n")) (f64 "prompt_ms"%string) (f64 "predicted_ms"%string).

(** The callback of a line-mode stream; the result 0 of the code is implied. *)
Definition prov_stream_chunk (cb : user_cb_t W) (json_line : string) (a : provider_stream_acc_t) (w : W)
      : option (provider_stream_acc_t * W) :=
    match cJSON_Parse json_line with
    | None => Some (a, w)
    | Some root =>
        let '(a, w) := ident_take a root w in
        '(a, w) ← match cj_items (cj_get (Some root) "choices") with
                  | Some (choice :: _) => choice_take cb a choice w
                  | _ => Some (a, w)
                  end;
        Some (mkAcc (acc_content a) (acc_cap a) (acc_reasoning a) (acc_reasoning_cap a) (resp_id a)
                (resp_model a) (resp_created a) (finish_reason a)
                (provider_usage_load (cj_get (Some root) "usage") (usage a))
                (provider_timings_load (cj_get (Some root) "timings") (timings a)) (tools a), w)
    end.

(** ** The response *)

Record llm_message_t := mkMsg {
  m_role : option string; m_content : option string; m_reasoning : option string;
  m_tool_calls : option string }.

Record llm_response_t := mkResp {
  r_id : option string;
  r_model : option string;
  r_created : Z;
  r_choice : option llm_message_t;
  r_finish : option string;
  r_usage : usage_t;
  r_timings : llm_timings_t
}.

(** [None] without memory for the response; else the response and the
    accumulator without the buffers that moved. *)
Definition provider_stream_take (a : provider_stream_acc_t) (w : W)
      : option llm_response_t * provider_stream_acc_t * W :=
    let '(ok, w) := os_malloc w in
    if negb ok then (None, a, w)
    else
      let '(id, w) := match resp_id a with Some i => (Some i, w) | None => strdup_w "" w end in
      let '(model, w) := match resp_model a with Some m => (Some m, w) | None => strdup_w "unknown" w end in
      let '(ok, w) := os_malloc w in
      let '(role, w) := if ok : bool then strdup_w "assistant" w else (None, w) in
      let choice := if ok : bool then Some (mkMsg role (acc_content a) (acc_reasoning a) None) else None in
      (Some (mkResp id model (resp_created a) choice (finish_reason a) (usage a) (timings a)),
       mkAcc (if ok : bool then None else acc_content a) (acc_cap a)
         (if ok : bool then None else acc_reasoning a) (acc_reasoning_cap a) None None (resp_created a) None
         (usage a) (timings a) (tools a), w).

(** The frame with the collected calls, and their place in the response. *)
Definition provider_tool_flush (acc : provider_tool_acc_t) (resp : option llm_response_t) (cb : user_cb_t W)
      (build_ok : bool) (w : W) : option llm_response_t * W :=
    match acc with
    | [] => (resp, w)
    | _ =>
        match provider_tool_json acc build_ok with
        | None => (resp, w)
        | Some js =>
            let w := provider_emit_tool_frame cb (Some js) w in
            (match resp with
             | Some r =>
                 Some (match r_choice r with
                       | Some m =>
                           match m_tool_calls m with
                           | None => mkResp (r_id r) (r_model r) (r_created r)
                                       (Some (mkMsg (m_role m) (m_content m) (m_reasoning m) (Some js)))
                                       (r_finish r) (r_usage r) (r_timings r)
                           | Some _ => r
                           end
                       | None => r
                       end)
             | None => None
             end, w)
        end
    end.
End acc.

(** ** What the slots hold *)

(** The calls the adapters make on the slots. *)
Inductive tool_ev :=
| EvBegin (i : Z) (id name : option string)
| EvArgs (i : Z) (frag : option string).

Definition tool_step {W} `{Alloc W} (acc : provider_tool_acc_t) (e : tool_ev) (w : W) : provider_tool_acc_t * W :=
  match e with
  | EvBegin i id name => ((provider_tool_begin acc i id name).2, w)
  | EvArgs i frag => provider_tool_args_add acc i frag w
  end.

Fixpoint tool_run {W} `{Alloc W} (acc : provider_tool_acc_t) (es : list tool_ev) (w : W)
    : provider_tool_acc_t * W :=
  match es with
  | [] => (acc, w)
  | e :: es' => let '(acc, w) := tool_step acc e w in tool_run acc es' w
  end.

(** The index an event is about; a fragment that is NULL is about none. *)
Definition ev_index (e : tool_ev) : option Z :=
  match e with
  | EvBegin i _ _ => Some i
  | EvArgs i frag => if frag is Some _ then Some i else None
  end.

(** The elements of a list in the order of their first occurrence. *)
Fixpoint firsts (l : list Z) : list Z :=
  match l with
  | [] => []
  | x :: l' => x :: filter (fun y => y <> x) (firsts l')
  end.

(** The first value that is not empty. *)
Fixpoint first_value (l : list (option string)) : string :=
  match l with
  | [] => ""
  | Some s :: l' => if strcmp_eq s "" then first_value l' else s
  | None :: l' => first_value l'
  end.

Definition of_index (i : Z) (es : list tool_ev) : list tool_ev := filter (fun e => ev_index e = Some i) es.

Definition ev_id (e : tool_ev) : option string := if e is EvBegin _ id _ then id else None.
Definition ev_name (e : tool_ev) : option string := if e is EvBegin _ _ name then name else None.
Definition ev_frag (e : tool_ev) : string := if e is EvArgs _ (Some frag) then frag else "".

Definition nonempty (s : string) : option string := if strcmp_eq s "" then None else Some s.

(** A call as the events describe it, and as a slot holds it. *)
Definition call_of (es : list tool_ev) (i : Z) : Z * string * string * option string :=
  let es := of_index i es in
  (i, snprintf_s PROVIDER_TOOL_STR_MAX (first_value (map ev_id es)),
   snprintf_s PROVIDER_TOOL_STR_MAX (first_value (map ev_name es)),
   nonempty (str_concat (map ev_frag es))).

Definition slot_view (s : provider_tool_slot_t) : Z * string * string * option string :=
  (index s, t_id s, t_name s, t_args s).

(** *** Lemmas *)

Lemma firsts_elem l x : x ∈ firsts l <-> x ∈ l.
Proof.
  induction l as [|y l IH]; [done|]. cbn [firsts].
  rewrite !elem_of_cons, list_elem_of_filter, IH. destruct (decide (x = y)); naive_solver.
Qed.

Lemma firsts_nodup l : NoDup (firsts l).
Proof.
  induction l as [|y l IH]; [constructor|]. cbn [firsts]. constructor.
  - rewrite list_elem_of_filter. naive_solver.
  - by apply NoDup_filter.
Qed.

Lemma firsts_snoc l x : firsts (l ++ [x]) = if decide (x ∈ l) then firsts l else firsts l ++ [x].
Proof.
  induction l as [|y l IH]; [done|]. cbn [firsts app]. rewrite IH.
  repeat case_decide; rewrite ?elem_of_cons in *; try naive_solver.
  - destruct H0; [subst|done]. rewrite filter_app. cbn. case_decide; [done|]. by rewrite app_nil_r.
  - rewrite filter_app. cbn. case_decide; [done|]. naive_solver.
Qed.

Lemma first_value_snoc l s :
  first_value (l ++ [s]) = if strcmp_eq (first_value l) "" then default "" s else first_value l.
Proof.
  induction l as [|[t|] l IH]; cbn [first_value app]; [| |done].
  - destruct s as [s|]; [|done]. cbn. destruct (strcmp_eq s "") eqn:E; [|done]. by apply strcmp_eq_true in E.
  - destruct (strcmp_eq t "") eqn:E; [done|]. by rewrite E.
Qed.

Lemma str_concat_snoc l s : str_concat (l ++ [s]) = str_concat l +:+ s.
Proof.
  unfold str_concat. induction l as [|t l IH]; cbn [foldr app]; [by rewrite str_app_nil_r|].
  by rewrite IH, str_app_assoc.
Qed.

Lemma snprintf_empty n s : (1 < n)%nat -> strcmp_eq (snprintf_s n s) "" = strcmp_eq s "".
Proof. destruct n as [|[|n]]; [lia..|]. by destruct s. Qed.

Lemma tool_str_first_spec l s :
  tool_str_first (snprintf_s PROVIDER_TOOL_STR_MAX (first_value l)) PROVIDER_TOOL_STR_MAX s =
  snprintf_s PROVIDER_TOOL_STR_MAX (first_value (l ++ [s])).
Proof.
  rewrite first_value_snoc. unfold tool_str_first. destruct s as [s|]; cbn [default].
  - rewrite snprintf_empty by (unfold PROVIDER_TOOL_STR_MAX; lia).
    destruct (strcmp_eq (first_value l) "") eqn:E1, (strcmp_eq s "") eqn:E2; try done.
    apply strcmp_eq_true in E1, E2. by rewrite E1, E2.
  - destruct (strcmp_eq (first_value l) "") eqn:E1; [|done]. apply strcmp_eq_true in E1. by rewrite E1.
Qed.

Lemma of_index_snoc i es e :
  of_index i (es ++ [e]) = if decide (ev_index e = Some i) then of_index i es ++ [e] else of_index i es.
Proof. unfold of_index. rewrite filter_app. cbn. case_decide; [done|]. by rewrite app_nil_r. Qed.

Lemma call_of_other es e i : ev_index e <> Some i -> call_of (es ++ [e]) i = call_of es i.
Proof. intros Hn. unfold call_of. rewrite of_index_snoc. by case_decide. Qed.

Lemma call_of_fresh es i : i ∉ omap ev_index es -> call_of es i = (i, "", "", None).
Proof.
  intros Hn. unfold call_of. replace (of_index i es) with (@nil tool_ev); [done|].
  induction es as [|e es IH]; [done|]. unfold of_index in *. rewrite filter_cons.
  cbn [omap] in Hn. case_decide as Hi.
  - destruct Hn. apply list_elem_of_omap. exists e. split; [left|done].
  - apply IH. intros Hin. apply Hn. apply list_elem_of_omap in Hin as (e' & He' & Hi').
    apply list_elem_of_omap. exists e'. split; [by right|done].
Qed.

Lemma slot_find_spec acc i :
  match slot_find acc i with
  | Some k => exists s, acc !! k = Some s /\ index s = i
  | None => i ∉ map index acc
  end.
Proof.
  induction acc as [|s acc IH]; cbn; [by apply not_elem_of_nil|].
  destruct (index s =? i) eqn:E; [exists s; split; [done|lia]|].
  destruct (slot_find acc i) as [k|]; cbn; [done|]. rewrite not_elem_of_cons. split; [lia|done].
Qed.

Definition slots_of (acc : provider_tool_acc_t) (es : list tool_ev) (l : list Z) : Prop :=
  map slot_view acc = map (call_of es) l.

Definition indices (es : list tool_ev) : list Z := take PROVIDER_TOOL_MAX (firsts (omap ev_index es)).

Lemma slots_of_index acc es l : slots_of acc es l -> map index acc = l.
Proof.
  unfold slots_of. intros E. apply (f_equal (map (fun v => v.1.1.1))) in E. rewrite !map_map in E.
  change (map index acc = map (fun x => x) l) in E. by rewrite map_id in E.
Qed.

Lemma indices_nodup es : NoDup (indices es).
Proof.
  unfold indices. pose proof (firsts_nodup (omap ev_index es)) as Hn.
  rewrite <- (take_drop PROVIDER_TOOL_MAX (firsts _)) in Hn. by apply NoDup_app in Hn as [Hn _].
Qed.

(** The slot of an index: the one there is, a new one behind the others, or
    none when 16 other indices came first. *)
Lemma tool_slot_spec acc es e i k acc' :
  ev_index e = Some i ->
  slots_of acc es (indices es) ->
  tool_slot acc i = (k, acc') ->
  slots_of acc' es (indices (es ++ [e])) /\
  match k with
  | Some k => exists s, acc' !! k = Some s /\ index s = i
  | None => i ∉ indices (es ++ [e])
  end.
Proof.
  intros He Hs. pose proof (slots_of_index _ _ _ Hs) as Hi. unfold tool_slot.
  assert (Hl : length acc = length (indices es)) by (rewrite <- Hi; by rewrite length_map).
  assert (Hx : indices (es ++ [e]) = take PROVIDER_TOOL_MAX (if decide (i ∈ omap ev_index es)
            then firsts (omap ev_index es) else firsts (omap ev_index es) ++ [i])).
  { unfold indices. rewrite omap_app. cbn. rewrite He. by rewrite firsts_snoc. }
  pose proof (slot_find_spec acc i) as Hf. destruct (slot_find acc i) as [j|].
  - intros [= <- <-]. destruct Hf as (s & Hj & Hsi). rewrite Hx.
    assert (Hin : i ∈ firsts (omap ev_index es)).
    { assert (map index acc !! j = Some i) as Hm by (rewrite list_lookup_fmap, Hj; cbn; congruence).
      rewrite Hi in Hm. apply lookup_take_Some in Hm as [Hm _]. by eapply list_elem_of_lookup_2. }
    rewrite decide_True by (by apply firsts_elem). split; [done|eauto].
  - rewrite Hi in Hf. destruct (PROVIDER_TOOL_MAX <=? length acc)%nat eqn:Eb; intros [= <- <-].
    + apply Nat.leb_le in Eb. rewrite Hl in Eb. unfold indices in Eb. rewrite length_take in Eb.
      assert (Ht : take PROVIDER_TOOL_MAX (if decide (i ∈ omap ev_index es)
                 then firsts (omap ev_index es) else firsts (omap ev_index es) ++ [i]) = indices es).
      { case_decide; [done|]. unfold indices. rewrite take_app_le by lia. done. }
      rewrite Hx, Ht. done.
    + apply Nat.leb_gt in Eb. rewrite Hl in Eb. unfold indices in Eb. rewrite length_take in Eb.
      assert (Hall : indices es = firsts (omap ev_index es)) by (apply take_ge; lia).
      assert (Hni : i ∉ omap ev_index es) by (rewrite <- firsts_elem, <- Hall; done).
      rewrite Hx, decide_False, take_ge by (done || rewrite length_app; cbn; lia). split.
      * unfold slots_of in *. rewrite !map_app, Hs, Hall. cbn. by rewrite call_of_fresh.
      * exists (mkSlot i "" "" None 0). split; [|done]. by apply list_lookup_middle.
Qed.

(** An event changes the slot of its index only. *)
Lemma slots_of_update acc acc' es e i k s' :
  ev_index e = Some i ->
  slots_of acc es (indices (es ++ [e])) ->
  (exists s, acc !! k = Some s /\ index s = i) ->
  slot_view s' = call_of (es ++ [e]) i ->
  acc' = <[k := s']> acc ->
  slots_of acc' (es ++ [e]) (indices (es ++ [e])).
Proof.
  intros He Hs (s & Hk & Hsi) Hv ->. pose proof (slots_of_index _ _ _ Hs) as Hi.
  pose proof (indices_nodup (es ++ [e])) as Hn. unfold slots_of in *.
  assert (HL : indices (es ++ [e]) !! k = Some i).
  { rewrite <- Hi. rewrite list_lookup_fmap, Hk. cbn. congruence. }
  apply list_eq. intros j. rewrite !list_lookup_fmap.
  apply (f_equal (fun l => l !! j)) in Hs. rewrite !list_lookup_fmap in Hs.
  destruct (decide (j = k)) as [->|Hj].
  - rewrite list_lookup_insert_eq, HL by eauto using lookup_lt_Some. cbn. by rewrite Hv.
  - rewrite list_lookup_insert_ne by done. rewrite Hs.
    destruct (indices (es ++ [e]) !! j) as [i'|] eqn:Ej; [|done]. cbn. rewrite call_of_other; [done|].
    rewrite He. intros [= ->]. apply Hj. by eapply NoDup_lookup.
Qed.

Lemma call_of_begin es i id name s :
  slot_view s = call_of es i ->
  slot_view (mkSlot (index s) (tool_str_first (t_id s) PROVIDER_TOOL_STR_MAX id)
               (tool_str_first (t_name s) PROVIDER_TOOL_STR_MAX name) (t_args s) (args_cap s)) =
  call_of (es ++ [EvBegin i id name]) i.
Proof.
  unfold slot_view, call_of. intros [= -> -> -> ->]. rewrite of_index_snoc, decide_True by done. cbn [index t_id t_name t_args].
  rewrite !map_app. cbn [map ev_id ev_name ev_frag]. rewrite !tool_str_first_spec, str_concat_snoc, str_app_nil_r. done.
Qed.

Lemma nonempty_app a b : strcmp_eq b "" = false -> nonempty (a +:+ b) = Some (a +:+ b).
Proof. intros Hb. unfold nonempty. destruct a; [|done]. change ("" +:+ b) with b. by rewrite Hb. Qed.

Lemma default_nonempty s : default "" (nonempty s) = s.
Proof. unfold nonempty. destruct (strcmp_eq s "") eqn:E; [|done]. by apply strcmp_eq_true in E. Qed.

Section exact.
  Context {W : Type} `{AllocOk W}.

Lemma call_of_args es i frag s w :
  slot_view s = call_of es i ->
  slot_view (tool_args_append s frag w).1 = call_of (es ++ [EvArgs i (Some frag)]) i.
Proof.
  unfold slot_view, call_of. intros [= Ei Eid En Ea].
  rewrite of_index_snoc, decide_True by done. rewrite !map_app. cbn [map ev_id ev_name ev_frag].
  rewrite !first_value_snoc, str_concat_snoc. cbn [default].
  assert (forall l, (if strcmp_eq (first_value l) "" then "" else first_value l) = first_value l) as Hd.
  { intros l. destruct (strcmp_eq (first_value l) "") eqn:E; [|done]. by apply strcmp_eq_true in E. }
  rewrite !Hd. unfold tool_args_append. destruct (strcmp_eq frag "") eqn:Ef.
  - apply strcmp_eq_true in Ef as ->. cbn. by rewrite str_app_nil_r, Ei, Eid, En, Ea.
  - rewrite malloc_ok. rewrite nonempty_app by done.
    case_match; cbn [index t_id t_name t_args fst]; by rewrite Ei, Eid, En, Ea, default_nonempty.
Qed.

Lemma slot_view_at acc es l k s : slots_of acc es l -> acc !! k = Some s -> slot_view s = call_of es (index s).
Proof.
  intros Hs Hk. pose proof (slots_of_index _ _ _ Hs) as Hi. unfold slots_of in Hs.
  apply (f_equal (fun l => l !! k)) in Hs, Hi. rewrite !list_lookup_fmap, Hk in Hs. rewrite list_lookup_fmap, Hk in Hi.
  cbn in *. rewrite <- Hi in Hs. cbn in Hs. congruence.
Qed.

Lemma tool_step_exact acc es e w :
  slots_of acc es (indices es) -> slots_of (tool_step acc e w).1 (es ++ [e]) (indices (es ++ [e])).
Proof.
  intros Hs. assert (Hnone : forall acc' i, ev_index e = Some i -> slots_of acc' es (indices (es ++ [e])) ->
    i ∉ indices (es ++ [e]) -> slots_of acc' (es ++ [e]) (indices (es ++ [e]))).
  { intros acc' i He Ha Hni. unfold slots_of in *. rewrite Ha. apply map_ext_in. intros j Hj.
    symmetry. apply call_of_other. rewrite He. intros [= ->]. by apply Hni, list_elem_of_In. }
  destruct e as [i id name|i [frag|]]; cbn [tool_step].
  - unfold provider_tool_begin. destruct (tool_slot acc i) as [k acc'] eqn:Et.
    eapply (tool_slot_spec _ _ (EvBegin i id name)) in Et as [Ha Hk]; [|done..].
    destruct k as [k|]; cbn [snd]; [|by eapply Hnone].
    destruct Hk as (s & Hk & Hi). eapply slots_of_update; eauto using alter_insert.
    apply call_of_begin. subst i. by eapply slot_view_at.
  - unfold provider_tool_args_add. destruct (tool_slot acc i) as [k acc'] eqn:Et.
    eapply (tool_slot_spec _ _ (EvArgs i (Some frag))) in Et as [Ha Hk]; [|done..].
    destruct k as [k|]; cbn [mbind option_bind]; [|by eapply Hnone].
    destruct Hk as (s & Hk & Hi). rewrite Hk. cbn [mbind option_bind]. pose proof (call_of_args es i frag s w) as Hc.
    destruct (tool_args_append s frag w) as [s' w']. cbn [fst] in *.
    apply (slots_of_update acc' _ es (EvArgs i (Some frag)) i k s'); [done|done|by exists s| |done]. apply Hc. subst i. by eapply slot_view_at.
  - replace (indices (es ++ [EvArgs i None])) with (indices es).
    + cbn. unfold slots_of in *. rewrite Hs. apply map_ext. intros j. by rewrite call_of_other.
    + unfold indices. rewrite omap_app. cbn. by rewrite app_nil_r.
Qed.

Lemma tool_run_exact es2 : forall acc es1 w,
  slots_of acc es1 (indices es1) -> slots_of (tool_run acc es2 w).1 (es1 ++ es2) (indices (es1 ++ es2)).
Proof.
  induction es2 as [|e es2 IH]; intros acc es1 w Hs; cbn [tool_run]; [by rewrite app_nil_r|].
  pose proof (tool_step_exact acc es1 e w Hs) as Hn. destruct (tool_step acc e w) as [acc' w'].
  rewrite cons_middle, app_assoc. by apply IH.
Qed.
End exact.

(** Tool calls put together from fragments, in full.  For every sequence
    of the two calls the adapters make (a call begins with an identity, an
    argument fragment arrives), in any interleaving of calls and with
    allocations succeeding: the slots are, in order, the first 16 distinct
    indices of the sequence; a slot has the first identifier and the first
    name that are not empty among the events of its index, cut to 127
    characters, and its argument text is the concatenation, in order, of the
    fragments of its index and of no other (NULL when they are all empty). *)
Theorem tool_acc_exact {W} `{AllocOk W} (es : list tool_ev) (w : W) :
  map slot_view (tool_run [] es w).1 =
  map (call_of es) (take PROVIDER_TOOL_MAX (firsts (omap ev_index es))).
Proof. exact (tool_run_exact es [] [] w eq_refl). Qed.

Definition two_calls : list tool_ev :=
  [EvBegin 0 (Some "call_a") (Some "ls"); EvArgs 0 (Some "{p"); EvBegin 1 (Some "call_b") None;
   EvArgs 1 (Some "[]"); EvBegin 0 (Some "late") (Some "rm"); EvArgs 0 (Some "}")]%string.

Lemma tool_acc_exact_witness :
  map slot_view (tool_run (W := sse_toy) [] two_calls (mkSt [] [])).1 =
  [(0, "call_a", "ls", Some "{p}"); (1, "call_b", "", Some "[]")]%string.
Proof. rewrite (tool_acc_exact (W := sse_toy)). vm_compute. reflexivity. Defined.

(** ** The text of a stream *)

Section text.
  Context `{Cjson} `{StreamProto} {W : Type} `{Alloc W}.
  Context (llm_finish_reason_norm : string -> string) (cb : user_cb_t W).

(** The callback of the transport, applied to the payloads of a stream. *)
Fixpoint chunks_run (lines : list string) (a : provider_stream_acc_t) (w : W) : option (provider_stream_acc_t * W) :=
    match lines with
    | [] => Some (a, w)
    | l :: ls => '(a, w) ← prov_stream_chunk llm_finish_reason_norm cb l a w; chunks_run ls a w
    end.

(** The delta of the first choice of a payload, and its two texts. *)
Definition chunk_delta (line : string) : option cJSON :=
    root ← cJSON_Parse line;
    choices ← cj_items (cj_get (Some root) "choices");
    choice ← head choices;
    cj_get (Some choice) "delta".

Definition chunk_text (line : string) : option string := cj_str (cj_get (chunk_delta line) "content").
Definition chunk_reason (line : string) : option string := cj_str (cj_get (chunk_delta line) "reasoning_content").

(** What the user's callback gets for a payload. *)
Definition chunk_emit (line : string) (w : W) : W :=
    let w := match cb, chunk_text line with Some cb, Some t => cb t w | _, _ => w end in
    provider_emit_reasoning_frame cb (chunk_reason line) w.

(** A buffer the append may be applied to: NULL comes with capacity 0. *)
Definition buf_safe (buf : option string) (cap : Z) : Prop := buf = None -> cap <= 0.

Definition acc_safe (a : provider_stream_acc_t) : Prop :=
    buf_safe (acc_content a) (acc_cap a) /\ buf_safe (acc_reasoning a) (acc_reasoning_cap a).

Lemma buf_append_safe buf cap t w r w' :
  provider_buf_append buf cap t w = (r, w') -> buf_safe buf cap ->
  match r with
  | AppDone b c => buf_safe b c /\ default "" b = default "" buf +:+ t /\ (is_Some buf -> is_Some b)
  | AppNoMem => True
  | AppNull => False
  end.
Proof.
  unfold provider_buf_append, prov_buf_add, buf_safe. destruct (strcmp_eq t "") eqn:Et.
  - apply strcmp_eq_true in Et as ->. intros [= <- <-]. by rewrite str_app_nil_r.
  - match goal with |- context[grow 64 ?a ?b] => generalize (grow 64 a b) end.
    intros g E Hs. destruct (cap <? _) eqn:Ec.
    + destruct (os_malloc w) as [[] ?]; injection E as <- <-; [|done].
      split; [discriminate|]. split; [done|]. intros _. by eexists.
    + destruct buf as [b|]; injection E as <- <-; [split; [discriminate|]; split; [done|by eexists]|].
      specialize (Hs eq_refl). exfalso. apply Z.ltb_ge in Ec. unfold strlen in Ec. lia.
Qed.

(** From a safe accumulator no payload makes the code write through a null
    pointer, whatever the allocator does. *)
Lemma text_push_safe a t w :
  acc_safe a -> exists a' w', provider_stream_text_push cb a t w = Some (a', w') /\ acc_safe a'.
Proof.
  intros [Hc Hr]. unfold provider_stream_text_push. destruct t as [t|]; [|by eexists _, _].
  destruct (provider_buf_append _ _ _ _) as [r w'] eqn:E. apply buf_append_safe in E; [|done].
  destruct r; [|by eexists _, _|done]. eexists _, _. split; [done|]. split; [apply E|done].
Qed.
End text.

Section text_ok.
  Context `{Cjson} `{StreamProto} {W : Type} `{AllocOk W}.
  Context (llm_finish_reason_norm : string -> string) (cb : user_cb_t W).

(** The texts of an accumulator after [t] more text and [r] more reasoning. *)
Definition grown (a a' : provider_stream_acc_t) (t r : string) : Prop :=
    acc_safe a' /\ default "" (acc_content a') = default "" (acc_content a) +:+ t /\
    default "" (acc_reasoning a') = default "" (acc_reasoning a) +:+ r /\
    (is_Some (acc_content a) -> is_Some (acc_content a')).

Lemma buf_append_ok buf cap t (w : W) :
  exists r, provider_buf_append buf cap t w = (r, w) /\ r <> AppNoMem.
Proof.
  unfold provider_buf_append, prov_buf_add. rewrite malloc_ok.
  match goal with |- context[grow 64 ?a ?b] => generalize (grow 64 a b) end. intros g.
  destruct (strcmp_eq t ""); [by eexists|]. destruct (cap <? _); [by eexists|]. destruct buf; by eexists.
Qed.

Lemma text_push_ok a t (w : W) :
  acc_safe a ->
  exists a', provider_stream_text_push cb a t w =
             Some (a', match cb, t with Some cb, Some t => cb t w | _, _ => w end) /\
             grown a a' (default "" t) "".
Proof.
  intros [Hc Hr]. unfold provider_stream_text_push, grown. destruct t as [t|].
  2: { exists a. rewrite !str_app_nil_r. destruct cb; done. }
  match goal with |- context[provider_buf_append ?b ?c t ?v] =>
    destruct (buf_append_ok b c t v) as (r & E & Hr'); rewrite E; apply buf_append_safe in E; [|done] end.
  destruct r as [b c| |]; [|done..]. eexists. split; [by destruct cb|]. destruct E as (? & ? & ?).
  unfold acc_safe. cbn [set_content acc_content acc_cap acc_reasoning acc_reasoning_cap].
  rewrite str_app_nil_r. done.
Qed.

(** With memory the slots leave the world alone. *)
Lemma tool_args_add_world acc i frag (w : W) : (provider_tool_args_add acc i frag w).2 = w.
Proof.
  unfold provider_tool_args_add, tool_args_append. destruct frag; [|done].
  destruct (tool_slot acc i) as [k acc']. destruct (k ≫= _) as [[k' sl]|]; [|done]. rewrite malloc_ok.
  match goal with |- context[grow 64 ?a ?b] => generalize (grow 64 a b) end. intros g.
  by destruct (strcmp_eq _ _); [|destruct (_ <? _)].
Qed.

Lemma tool_delta_world acc delta (w : W) : (provider_tool_delta acc delta w).2 = w.
Proof.
  unfold provider_tool_delta. destruct (cj_items _) as [l|]; [|done]. revert acc.
  induction l as [|tc l IH]; intros acc; cbn [tool_delta_loop]; [done|].
  assert ((tool_delta_one acc tc w).2 = w) as Hw.
  { unfold tool_delta_one. destruct (provider_tool_begin _ _ _ _) as [[k|] ?]; [apply tool_args_add_world|done]. }
  destruct (tool_delta_one acc tc w) as [acc' w']. cbn in Hw. subst w'. apply IH.
Qed.

Lemma delta_take_ok a delta (w : W) :
  acc_safe a ->
  let t := cj_str (cj_get (Some delta) "content") in
  let r := cj_str (cj_get (Some delta) "reasoning_content") in
  exists a', delta_take cb a delta w =
             Some (a', provider_emit_reasoning_frame cb r
                         match cb, t with Some cb, Some t => cb t w | _, _ => w end) /\
             grown a a' (default "" t) (default "" r).
Proof.
  intros Hs t r. unfold delta_take. fold t. fold r. destruct (text_push_ok a t w Hs) as (a1 & E1 & G1). rewrite E1.
  cbn [mbind option_bind]. destruct G1 as ((Hc & Hr) & Gt & Gr & Gs). rewrite str_app_nil_r in Gr.
  destruct r as [r|].
  - match goal with |- context[provider_buf_append ?b ?c r ?v] =>
      destruct (buf_append_ok b c r v) as (o & E & Ho); rewrite E; apply buf_append_safe in E; [|done] end.
    destruct o as [b c| |]; [|done..]. cbn [mbind option_bind].
    match goal with |- context[provider_tool_delta ?b ?c ?v] =>
      pose proof (tool_delta_world b c v) as Hw; destruct (provider_tool_delta b c v) as [tl w'] end.
    cbn in Hw. subst w'. eexists. split; [done|]. destruct E as (Hb & E & _).
    unfold grown, acc_safe. cbn [set_tools set_reasoning acc_content acc_cap acc_reasoning acc_reasoning_cap].
    by rewrite E, Gr.
  - cbn [mbind option_bind]. match goal with |- context[provider_tool_delta ?b ?c ?v] =>
      pose proof (tool_delta_world b c v) as Hw; destruct (provider_tool_delta b c v) as [tl w'] end.
    cbn [snd] in Hw. subst w'. eexists. split; [by destruct cb|].
    unfold grown, acc_safe. cbn [set_tools acc_content acc_cap acc_reasoning acc_reasoning_cap default].
    by rewrite str_app_nil_r.
Qed.
End text_ok.

Section text_stream.
  Context `{Cjson} `{StreamProto} {W : Type} `{AllocOk W}.
  Context (llm_finish_reason_norm : string -> string) (cb : user_cb_t W).

Lemma take_first_world (dst src : option string) (w : W) : (take_first dst src w).2 = w.
Proof. unfold take_first, strdup_w. rewrite malloc_ok. by destruct dst, src. Qed.

Lemma grown_refl a : acc_safe a -> grown a a "" "".
Proof. intros Hs. unfold grown. by rewrite !str_app_nil_r. Qed.

(** Two accumulators with the same text buffers. *)
Definition same_text (a b : provider_stream_acc_t) : Prop :=
    acc_content a = acc_content b /\ acc_cap a = acc_cap b /\
    acc_reasoning a = acc_reasoning b /\ acc_reasoning_cap a = acc_reasoning_cap b.

Lemma grown_same a a' b b' t r : same_text a b -> same_text a' b' -> grown a a' t r -> grown b b' t r.
Proof.
  unfold same_text, grown, acc_safe. intros (E1 & E2 & E3 & E4) (F1 & F2 & F3 & F4).
  by rewrite E1, E3, F1, F2, F3, F4.
Qed.

Lemma same_safe a b : same_text a b -> acc_safe a -> acc_safe b.
Proof. unfold same_text, acc_safe. intros (<- & <- & <- & <-). done. Qed.

Lemma ident_take_ok a root (w : W) : exists b, ident_take a root w = (b, w) /\ same_text a b.
Proof.
  unfold ident_take.
  pose proof (take_first_world (resp_id a) (cj_str (cj_get (Some root) "id")) w) as Hw.
  destruct (take_first (resp_id a) _ w) as [id w1]. cbn in Hw. subst w1.
  pose proof (take_first_world (resp_model a) (cj_str (cj_get (Some root) "model")) w) as Hw.
  destruct (take_first (resp_model a) _ w) as [md w1]. cbn in Hw. subst w1. by eexists.
Qed.

Lemma choice_take_ok a choice (w : W) :
  acc_safe a ->
  let d := cj_get (Some choice) "delta" in
  let t := cj_str (cj_get d "content") in
  let r := cj_str (cj_get d "reasoning_content") in
  exists a', choice_take llm_finish_reason_norm cb a choice w =
             Some (a', provider_emit_reasoning_frame cb r
                         match cb, t with Some cb, Some t => cb t w | _, _ => w end) /\
             grown a a' (default "" t) (default "" r).
Proof.
  intros Hs d t r. unfold choice_take. fold d.
  assert (exists a', match d with Some delta => delta_take cb a delta w | None => Some (a, w) end =
            Some (a', provider_emit_reasoning_frame cb r match cb, t with Some cb, Some t => cb t w | _, _ => w end)
          /\ grown a a' (default "" t) (default "" r)) as (a' & E & G).
  { unfold t, r. destruct d as [delta|]; [by apply delta_take_ok|]. exists a.
    split; [by destruct cb|by apply grown_refl]. }
  rewrite E. cbn [mbind option_bind]. unfold strdup_w. rewrite malloc_ok.
  destruct (cj_str (cj_get (Some choice) "finish_reason")) as [fr|]; [|by eexists].
  destruct (strcmp_eq fr "null"); [by eexists|]. eexists. split; [done|].
  by eapply grown_same; [..|exact G].
Qed.

Lemma stream_chunk_ok a line (w : W) :
  acc_safe a ->
  exists a', prov_stream_chunk llm_finish_reason_norm cb line a w = Some (a', chunk_emit cb line w) /\
             grown a a' (default "" (chunk_text line)) (default "" (chunk_reason line)).
Proof.
  intros Hs. unfold prov_stream_chunk, chunk_emit, chunk_text, chunk_reason, chunk_delta.
  assert (Hn : provider_emit_reasoning_frame cb None match cb with Some _ | _ => w end = w) by (by destruct cb).
  destruct (cJSON_Parse line) as [root|]; cbn [mbind option_bind].
  2: { exists a. split; [by destruct cb|by apply grown_refl]. }
  destruct (ident_take_ok a root w) as (b & E & Sb). rewrite E. apply (same_safe _ _ Sb) in Hs.
  destruct (cj_items _) as [[|choice ?]|]; cbn [mbind option_bind head].
  2: { destruct (choice_take_ok b choice w Hs) as (a' & Ec & G). rewrite Ec. cbn [mbind option_bind].
       eexists. split; [done|]. eapply grown_same; [..|exact G]; [|done]. unfold same_text in *. naive_solver. }
  all: eexists; split; [by destruct cb|]; eapply grown_same; [..|exact (grown_refl b Hs)]; [|done].
  all: unfold same_text in *; naive_solver.
Qed.

Definition cat (f : string -> option string) (lines : list string) : string :=
    str_concat (map (fun l => default "" (f l)) lines).

Lemma chunks_run_ok lines : forall a (w : W),
  acc_safe a ->
  exists a', chunks_run llm_finish_reason_norm cb lines a w =
             Some (a', fold_left (fun w l => chunk_emit cb l w) lines w) /\
             grown a a' (cat chunk_text lines) (cat chunk_reason lines).
Proof.
  induction lines as [|l ls IH]; intros a w Hs; cbn [chunks_run fold_left].
  { exists a. split; [done|]. by apply grown_refl. }
  destruct (stream_chunk_ok a l w Hs) as (a1 & E1 & G1). rewrite E1. cbn [mbind option_bind].
  destruct G1 as (Hs1 & Gt & Gr & Gp). destruct (IH a1 (chunk_emit cb l w) Hs1) as (a2 & E2 & G2).
  exists a2. split; [done|]. destruct G2 as (Hs2 & Ht & Hr & Hp). unfold grown, cat, str_concat in *.
  cbn [map foldr]. rewrite Ht, Hr, Gt, Gr, !str_app_assoc. naive_solver.
Qed.
End text_stream.

(** A streamed answer in full.  For every sequence of payloads, whatever
    they contain, and allocations succeeding: from a fresh accumulator no
    payload makes the code fail; the user's callback has received, in the order
    of the payloads, the text of each delta as it is and the reasoning of each
    delta as a reasoning frame, and nothing else; and the message of the
    response has as content the concatenation of the texts and as reasoning the
    concatenation of the reasonings, so what was streamed and what is returned
    agree. *)
Theorem stream_text_exact `{Cjson} `{StreamProto} {W} `{AllocOk W} (norm : string -> string) (cb : user_cb_t W)
    (lines : list string) (w : W) :
  exists a m r a',
    chunks_run norm cb lines (provider_stream_acc_init w).1 w =
      Some (a, fold_left (fun w l => chunk_emit cb l w) lines w) /\
    provider_stream_take a w = (Some r, a', w) /\ r_choice r = Some m /\
    m_role m = Some "assistant"%string /\
    m_content m = Some (cat chunk_text lines) /\
    default "" (m_reasoning m) = cat chunk_reason lines.
Proof.
  destruct (chunks_run_ok norm cb lines (provider_stream_acc_init w).1 w) as (a & E & _ & Gt & Gr & Gp).
  { unfold provider_stream_acc_init. rewrite malloc_ok. by split. }
  unfold provider_stream_acc_init in Gt, Gr, Gp. rewrite malloc_ok in Gt, Gr, Gp. cbn in Gt, Gr, Gp.
  destruct Gp as [c Hc]; [by eexists|]. rewrite Hc in Gt. cbn in Gt.
  exists a. unfold provider_stream_take, strdup_w.
  destruct (resp_id a), (resp_model a); eexists _, _, _; (split; [exact E|]);
    (split; [repeat (rewrite malloc_ok; cbn [negb]); reflexivity|]); repeat (split; [done|]); cbn [m_content m_reasoning]; rewrite Hc, Gt, Gr; done.
Qed.

(** Two payloads with text and reasoning, one with a tool call. *)
Definition toy_docs : list (string * jval) :=
  let payload d := VObj [("choices", VArr [VObj [("delta", VObj d)]])] in
  [("a", payload [("content", VStr "Hel")]);
   ("b", payload [("reasoning_content", VStr "why"); ("content", VStr "lo")]);
   ("c", payload [("tool_calls", VArr [VObj [("id", VStr "x");
            ("function", VObj [("name", VStr "ls"); ("arguments", VStr "{}")])]])])]%string.

#[local] Instance toy_lib : Cjson := toy_cjson toy_docs.

(** A frame character and tags like those of the protocol header. *)
Definition toy_proto : StreamProto := {|
  AIRY_LLM_STREAM_RS := "030"; AIRY_LLM_STREAM_TAG_TOOL := "T"; AIRY_LLM_STREAM_TAG_REASON := "R";
  AIRY_LLM_STREAM_TAG_USAGE := "U"; AIRY_LLM_STREAM_TAG_ERROR := "E";
  AIRY_LLM_STREAM_FRAME_MAX := 65536; AIRY_LLM_STREAM_FRAME_CAP := 1024 |}.

Definition got (t : string) (w : sse_toy) : sse_toy := mkSt (st_got w ++ [t]) (st_script w).

Lemma stream_text_exact_witness : exists a m r a',
  chunks_run (H0 := toy_proto) (fun s => s) (Some got) ["a"; "b"; "c"]%string
    (provider_stream_acc_init (mkSt [] [])).1 (mkSt [] []) =
    Some (a, mkSt ["Hel"; "lo"; String "030" "R"; "why"; String "030" ""]%string []) /\
  provider_stream_take a (mkSt [] []) = (Some r, a', mkSt [] []) /\ r_choice r = Some m /\
  m_role m = Some "assistant"%string /\ m_content m = Some "Hello"%string /\
  default "" (m_reasoning m) = "why"%string.
Proof.
  exact (stream_text_exact (H0 := toy_proto) (fun s => s) (Some got) ["a"; "b"; "c"]%string (mkSt [] [])).
Defined.

(** ** Without memory for the first buffer *)

(** The capacity is set although the allocation failed, so the first text is
    copied through the null pointer. *)
Lemma init_oom_crashes `{StreamProto} {W} `{Alloc W} (cb : user_cb_t W) w w1 t :
  os_malloc w = (false, w1) ->
  strcmp_eq t "" = false -> strlen t < 4096 ->
  provider_stream_text_push cb (provider_stream_acc_init w).1 (Some t) w1 = None.
Proof.
  intros Hm Ht Hl. unfold provider_stream_text_push, provider_stream_acc_init. rewrite Hm.
  cbn [fst set_content acc_content acc_cap acc_zero]. unfold provider_buf_append. rewrite Ht.
  change (strlen (default "" None)) with 0. rewrite (proj2 (Z.ltb_ge _ _)) by lia. done.
Qed.
