(* ===== verification/AgentStream.v ===== *)
(** * AgentStream

    The demultiplexer of agent_d (agent_d/src/run/agent_run_stream.c): the bytes
    of a streamed answer of llm_d arrive in payloads of any size; text is
    collected and pushed on in whole UTF-8 characters, the control frames
    RS tag body RS give tool calls, reasoning, usage and errors.

    The protocol constants and the tag test come from the commons library
    (airy_llm_stream.h) and are parameters; the laws the code relies on are the
    class [TagsOk].  Bytes are characters of a string. *)

From S2P Require Import Prelude Doubles Sse Cjson ToolStream.

Class TagTest := AIRY_LLM_STREAM_IS_TAG : ascii -> bool.

(** The protocol header: RS is 0x1e, the four tags are tags and differ, RS and
    NUL are no tags. *)
Class TagsOk `{StreamProto} `{TagTest} : Prop := {
  rs_code : AIRY_LLM_STREAM_RS = "030"%char;
  rs_no_tag : AIRY_LLM_STREAM_IS_TAG AIRY_LLM_STREAM_RS = false;
  nul_no_tag : AIRY_LLM_STREAM_IS_TAG "000" = false;
  tags_are : Forall (fun t => AIRY_LLM_STREAM_IS_TAG t = true)
               [AIRY_LLM_STREAM_TAG_TOOL; AIRY_LLM_STREAM_TAG_REASON; AIRY_LLM_STREAM_TAG_USAGE;
                AIRY_LLM_STREAM_TAG_ERROR];
  tags_differ : NoDup [AIRY_LLM_STREAM_TAG_TOOL; AIRY_LLM_STREAM_TAG_REASON; AIRY_LLM_STREAM_TAG_USAGE;
                       AIRY_LLM_STREAM_TAG_ERROR]
}.

Definition AGENT_STREAM_ERR_LEN : nat := 256.

(** A buffer with its capacity; NULL has capacity 0. *)
Notation abuf := (option (string * Z)).

Definition bytes (b : abuf) : string := default "" (fst <$> b).

(** ** The state *)

Section state.
  Context `{Cjson}.

Record agent_stream_t := mkAs {
  text : abuf;
  text_sent : nat;
  reason : abuf;
  frame : abuf;
  frame_tag : ascii;
  frame_dropped : Z;
  prev_rs : bool;
  as_tools : option cJSON;
  tokens : Z;
  cost : double;
  error_code : Z;
  error_msg : string
}.

Definition agent_stream_init : agent_stream_t :=
    mkAs None 0 None None "000" 0 false None 0 d_zero 0 "".

Definition set_text (b : abuf) (sent : nat) (s : agent_stream_t) : agent_stream_t :=
    mkAs b sent (reason s) (frame s) (frame_tag s) (frame_dropped s) (prev_rs s) (as_tools s) (tokens s)
      (cost s) (error_code s) (error_msg s).

Definition set_reason (b : abuf) (s : agent_stream_t) : agent_stream_t :=
    mkAs (text s) (text_sent s) b (frame s) (frame_tag s) (frame_dropped s) (prev_rs s) (as_tools s) (tokens s)
      (cost s) (error_code s) (error_msg s).

Definition set_frame (b : abuf) (tag : ascii) (dropped : Z) (s : agent_stream_t) : agent_stream_t :=
    mkAs (text s) (text_sent s) (reason s) b tag dropped (prev_rs s) (as_tools s) (tokens s)
      (cost s) (error_code s) (error_msg s).

Definition set_prev_rs (b : bool) (s : agent_stream_t) : agent_stream_t :=
    mkAs (text s) (text_sent s) (reason s) (frame s) (frame_tag s) (frame_dropped s) b (as_tools s) (tokens s)
      (cost s) (error_code s) (error_msg s).

Definition set_astools (t : option cJSON) (s : agent_stream_t) : agent_stream_t :=
    mkAs (text s) (text_sent s) (reason s) (frame s) (frame_tag s) (frame_dropped s) (prev_rs s) t (tokens s)
      (cost s) (error_code s) (error_msg s).

Definition set_usage (n : Z) (c : double) (s : agent_stream_t) : agent_stream_t :=
    mkAs (text s) (text_sent s) (reason s) (frame s) (frame_tag s) (frame_dropped s) (prev_rs s) (as_tools s) n
      c (error_code s) (error_msg s).

(** A frame is being received. *)
Definition in_frame (s : agent_stream_t) : bool := negb (Ascii.eqb (frame_tag s) "000").
End state.

(** The bytes of a buffer as a C string. *)
Definition c_str (s : string) : string := (cut_at "000" s).1.

(** ** UTF-8 *)

Definition utf8_cont (c : ascii) : bool := Z.land (Z.of_N (N_of_ascii c)) 192 =? 128.

Definition utf8_need (c : ascii) : nat :=
  let c := Z.of_N (N_of_ascii c) in
  if Z.land c 224 =? 192 then 2
  else if Z.land c 240 =? 224 then 3
  else if Z.land c 248 =? 240 then 4
  else 1.

(** From the last byte backwards. *)
Fixpoint utf8_back (turns : nat) (rest : list ascii) (cont : nat) : nat :=
  match turns, rest with
  | S t, c :: rest' =>
      if utf8_cont c then utf8_back t rest' (S cont)
      else if (S cont <? utf8_need c)%nat then S cont else 0
  | _, _ => cont
  end.

Definition run_utf8_tail (s : string) : nat := utf8_back 4 (reverse (String.list_ascii_of_string s)) 0.

(** ** Text *)

Section stream.
  Context `{Cjson} `{StreamProto} `{TagTest} {W : Type} `{Alloc W}.
  Context (on_text : option (string -> W -> W)).

(** [None] when there is no memory; the buffer is then as before. *)
Definition run_buf_add (b : abuf) (data : string) (w : W) : option abuf * W :=
    if strcmp_eq data "" then (Some b, w)
    else
      let cap := default 0 (snd <$> b) in
      let need := strlen (bytes b) + strlen data + 1 in
      if cap <? need then
        let '(ok, w) := os_malloc w in
        (if ok : bool then Some (Some (bytes b +:+ data, grow 64 (if cap =? 0 then 4096 else cap) need)) else None, w)
      else (Some (Some (bytes b +:+ data, cap)), w).

Definition run_emit_text (s : agent_stream_t) (data : string) (w : W) : agent_stream_t * W :=
    if strcmp_eq data "" then (s, w)
    else
      let '(b, w) := run_buf_add (text s) data w in
      match b with
      | None => (s, w)
      | Some b =>
          let t := bytes b in
          let safe := (String.length t - run_utf8_tail t)%nat in
          if (safe <=? text_sent s)%nat then (set_text b (text_sent s) s, w)
          else
            let delta := String.substring (text_sent s) (safe - text_sent s) t in
            (set_text b safe s, match on_text with Some f => f delta w | None => w end)
      end.

(** ** Frames *)

Definition run_take_tools (s : agent_stream_t) : agent_stream_t :=
    match cJSON_Parse (c_str (bytes (frame s))) with
    | Some arr => match cJSON_items arr with Some _ => set_astools (Some arr) s | None => s end
    | None => s
    end.

(** [cJSON_IsNumber(v) && v->valuedouble > 0], converted. *)
Definition pos_num (v : option cJSON) : Z :=
    match cj_num v with Some d => if dlt d_zero d then u64 (d_trunc d) else 0 | None => 0 end.

Definition run_take_usage (s : agent_stream_t) : agent_stream_t :=
    match cJSON_Parse (c_str (bytes (frame s))) with
    | None => s
    | Some u =>
        let u := Some u in
        let total := pos_num (cj_get u "total_tokens") in
        let total := if total =? 0
                     then u64 (pos_num (cj_get u "prompt_tokens") + pos_num (cj_get u "completion_tokens"))
                     else total in
        set_usage (if 0 <? total then total else tokens s)
          (default (cost s) (cj_num (cj_get u "cost_usd"))) s
    end.

Definition run_take_error (s : agent_stream_t) : agent_stream_t :=
    let err := cj_get (cJSON_Parse (c_str (bytes (frame s)))) "error" in
    let code := cj_get err "code" in
    mkAs None 0 None (frame s) (frame_tag s) (frame_dropped s) (prev_rs s) None (tokens s) (cost s)
      (match code, cj_num code with Some v, Some _ => cJSON_int v | _, _ => -32602 end)
      (snprintf_s AGENT_STREAM_ERR_LEN (default "LLM stream error"%string (cj_str (cj_get err "message")))).

Definition run_frame_dispatch (s : agent_stream_t) (w : W) : agent_stream_t * W :=
    let '(s, w) :=
      if 0 <? frame_dropped s then (s, w)
      else if strcmp_eq (bytes (frame s)) "" then (s, w)
      else if Ascii.eqb (frame_tag s) AIRY_LLM_STREAM_TAG_TOOL then (run_take_tools s, w)
      else if Ascii.eqb (frame_tag s) AIRY_LLM_STREAM_TAG_REASON then
        let '(b, w) := run_buf_add (reason s) (bytes (frame s)) w in
        (match b with Some b => set_reason b s | None => s end, w)
      else if Ascii.eqb (frame_tag s) AIRY_LLM_STREAM_TAG_USAGE then (run_take_usage s, w)
      else if Ascii.eqb (frame_tag s) AIRY_LLM_STREAM_TAG_ERROR then (run_take_error s, w)
      else (s, w) in
    (set_frame ((fun b => ("", b.2)) <$> frame s) "000" 0 s, w).

(** One byte of a frame body: stored, or counted as dropped. *)
Definition frame_byte (s : agent_stream_t) (c : ascii) (w : W) : agent_stream_t * W :=
    let len := strlen (bytes (frame s)) in
    if (frame_dropped s =? 0) && (len + 1 <? AIRY_LLM_STREAM_FRAME_MAX) then
      let cap := default 0 (snd <$> frame s) in
      let put cap := set_frame (Some (bytes (frame s) +:+ str1 c, cap)) (frame_tag s) 0 s in
      if cap <? len + 2 then
        let '(ok, w) := os_malloc w in
        (if ok : bool then put (grow 64 (if cap =? 0 then AIRY_LLM_STREAM_FRAME_CAP else cap) (len + 2))
         else set_frame ((fun b => ("", b.2)) <$> frame s) (frame_tag s) 2 s, w)
      else (put cap, w)
    else (set_frame (frame s) (frame_tag s) (frame_dropped s + 1) s, w).

(** The rest of the payload behind the frame. *)
Fixpoint run_frame_drain (s : agent_stream_t) (data : string) (w : W) : agent_stream_t * string * W :=
    match data with
    | EmptyString => (s, data, w)
    | String c data' =>
        if in_frame s then
          let '(s, w) := if Ascii.eqb c AIRY_LLM_STREAM_RS then run_frame_dispatch s w else frame_byte s c w in
          run_frame_drain s data' w
        else (s, data, w)
    end.

(** ** Payloads *)

Definition RS_TEXT : string := str1 "030".

(** The loop over a payload; [pend] is the text from [start] up to here.  The
    data gets shorter in every turn: a turn per character and one to see the
    end. *)
Fixpoint feed_loop (turns : nat) (s : agent_stream_t) (pend data : string) (w : W) : agent_stream_t * W :=
    match turns with
    | O => (s, w)
    | S turns' =>
        match data with
        | EmptyString => run_emit_text s pend w
        | String c data' =>
            if negb (Ascii.eqb c AIRY_LLM_STREAM_RS) then feed_loop turns' s (pend +:+ str1 c) data' w
            else
              let '(s, w) := run_emit_text s pend w in
              match data' with
              | EmptyString => (set_prev_rs true s, w)
              | String t rest =>
                  if AIRY_LLM_STREAM_IS_TAG t then
                    let s := set_frame (frame s) t (frame_dropped s) s in
                    match rest with
                    | EmptyString => (s, w)
                    | _ =>
                        let '(s, rest, w) := run_frame_drain s rest w in
                        if in_frame s then (s, w) else feed_loop turns' s "" rest w
                    end
                  else
                    let '(s, w) := run_emit_text s (String c (str1 t)) w in
                    feed_loop turns' s "" rest w
              end
        end
    end.

(** The part of the code behind the completion of a half frame. *)
Definition feed_open (s : agent_stream_t) (data : string) (w : W) : agent_stream_t * W :=
    let loop s data w := feed_loop (S (String.length data)) s "" data w in
    match data with
    | EmptyString => (s, w)
    | String c data' =>
        if prev_rs s then
          let s := set_prev_rs false s in
          if AIRY_LLM_STREAM_IS_TAG c then
            let s := set_frame (frame s) c (frame_dropped s) s in
            let '(s, rest, w) := run_frame_drain s data' w in
            if in_frame s || strcmp_eq rest "" then (s, w) else loop s rest w
          else
            let '(s, w) := run_emit_text s RS_TEXT w in loop s data w
        else loop s data w
    end.

Definition agent_stream_feed (s : agent_stream_t) (data : string) (w : W) : agent_stream_t * W :=
    if strcmp_eq data "" then (s, w)
    else if in_frame s then
      let '(s, rest, w) := run_frame_drain s data w in
      if in_frame s || strcmp_eq rest "" then (s, w) else feed_open s rest w
    else feed_open s data w.

Fixpoint feed_all (s : agent_stream_t) (payloads : list string) (w : W) : agent_stream_t * W :=
    match payloads with
    | [] => (s, w)
    | p :: ps => let '(s, w) := agent_stream_feed s p w in feed_all s ps w
    end.

Definition agent_stream_finish (s : agent_stream_t) (w : W) : agent_stream_t * W :=
    let s := if in_frame s then set_frame ((fun b => ("", b.2)) <$> frame s) "000" 0 s else s in
    let '(s, w) := if prev_rs s then run_emit_text (set_prev_rs false s) RS_TEXT w else (s, w) in
    let t := bytes (text s) in
    if (text_sent s <? String.length t)%nat then
      let delta := String.substring (text_sent s) (String.length t - text_sent s) t in
      (set_text (text s) (String.length t) s, match on_text with Some f => f delta w | None => w end)
    else (s, w).

(** ** The result *)

Record agent_stream_result_t := mkAr {
  ar_text : option string;
  ar_reason : option string;
  ar_tools : option cJSON;
  ar_tokens : Z;
  ar_cost : double;
  ar_error_code : Z;
  ar_error_msg : string
}.

Definition agent_stream_take (s : agent_stream_t) (w : W) : agent_stream_result_t * agent_stream_t * W :=
    let '(t, w) := match text s with
                   | Some b => (Some b.1, w)
                   | None => let '(ok, w) := os_malloc w in (if ok : bool then Some ""%string else None, w)
                   end in
    (mkAr t (fst <$> reason s) (as_tools s) (tokens s) (cost s) (error_code s) (error_msg s),
     set_astools None (set_reason None (set_text None 0 s)), w).

(** Reading a stream from its first payload to the result
    ([run_llm_round] of agent_run_loop.c). *)
Definition read_stream (payloads : list string) (w : W) : agent_stream_result_t * W :=
    let '(s, w) := feed_all agent_stream_init payloads w in
    let '(s, w) := agent_stream_finish s w in
    let '(r, _, w) := agent_stream_take s w in (r, w).
End stream.

(** ** The decoder, byte by byte *)

Inductive dmode := MText | MRs | MFrame (tag : ascii) (body : string) (dropped : Z).

Section decoder.
  Context `{Cjson} `{StreamProto} `{TagTest}.

Record decoder := mkDec {
  d_text : string;
  d_reason : string;
  d_tools : option cJSON;
  d_tokens : Z;
  d_cost : double;
  d_error : Z * string;
  d_mode : dmode
}.

Definition dec_init : decoder := mkDec "" "" None 0 d_zero (0, ""%string) MText.

Definition with_mode (m : dmode) (d : decoder) : decoder :=
    mkDec (d_text d) (d_reason d) (d_tools d) (d_tokens d) (d_cost d) (d_error d) m.

Definition with_text (t : string) (d : decoder) : decoder :=
    mkDec t (d_reason d) (d_tools d) (d_tokens d) (d_cost d) (d_error d) (d_mode d).

(** The decoder's content of a state of the code, without the mode. *)
Definition content (s : agent_stream_t) (m : dmode) : decoder :=
    mkDec (bytes (text s)) (bytes (reason s)) (as_tools s) (tokens s) (cost s) (error_code s, error_msg s) m.

Definition mode_of (s : agent_stream_t) : dmode :=
    if in_frame s then MFrame (frame_tag s) (bytes (frame s)) (frame_dropped s)
    else if prev_rs s then MRs else MText.

Definition abs (s : agent_stream_t) : decoder := content s (mode_of s).

(** The state of the code that has a decoder's content and the frame [body]. *)
Definition concrete (d : decoder) (body : string) : agent_stream_t :=
    mkAs (Some (d_text d, 0)) 0 (Some (d_reason d, 0)) (Some (body, 0)) "000" 0 false (d_tools d) (d_tokens d)
      (d_cost d) (d_error d).1 (d_error d).2.

(** What the end of a complete frame means. *)
Definition take_frame (tag : ascii) (body : string) (d : decoder) : decoder :=
    if Ascii.eqb tag AIRY_LLM_STREAM_TAG_TOOL then content (run_take_tools (concrete d body)) (d_mode d)
    else if Ascii.eqb tag AIRY_LLM_STREAM_TAG_REASON then
      mkDec (d_text d) (d_reason d +:+ body) (d_tools d) (d_tokens d) (d_cost d) (d_error d) (d_mode d)
    else if Ascii.eqb tag AIRY_LLM_STREAM_TAG_USAGE then content (run_take_usage (concrete d body)) (d_mode d)
    else if Ascii.eqb tag AIRY_LLM_STREAM_TAG_ERROR then content (run_take_error (concrete d body)) (d_mode d)
    else d.

Definition complete (body : string) (dropped : Z) : bool := negb (0 <? dropped) && negb (strcmp_eq body "").

Definition dstep (d : decoder) (c : ascii) : decoder :=
    match d_mode d with
    | MText =>
        if Ascii.eqb c AIRY_LLM_STREAM_RS then with_mode MRs d else with_text (d_text d +:+ str1 c) d
    | MRs =>
        if AIRY_LLM_STREAM_IS_TAG c then with_mode (MFrame c "" 0) d
        else with_mode MText (with_text (d_text d +:+ String AIRY_LLM_STREAM_RS (str1 c)) d)
    | MFrame tag body dropped =>
        if Ascii.eqb c AIRY_LLM_STREAM_RS
        then with_mode MText (if complete body dropped then take_frame tag body d else d)
        else if (dropped =? 0) && (strlen body + 1 <? AIRY_LLM_STREAM_FRAME_MAX)
        then with_mode (MFrame tag (body +:+ str1 c) 0) d
        else with_mode (MFrame tag body (dropped + 1)) d
    end.

Fixpoint decode (d : decoder) (s : string) : decoder :=
    match s with EmptyString => d | String c s' => decode (dstep d c) s' end.

(** A test that holds at every byte of a run. *)
Fixpoint always (p : decoder -> ascii -> bool) (d : decoder) (s : string) : bool :=
    match s with EmptyString => true | String c s' => p d c && always p (dstep d c) s' end.

(** RS is not followed by RS, frames apart. *)
Definition single_rs (d : decoder) (c : ascii) : bool :=
    match d_mode d with MRs => negb (Ascii.eqb c AIRY_LLM_STREAM_RS) | _ => true end.

(** No error frame ends. *)
Definition no_error (d : decoder) (c : ascii) : bool :=
    match d_mode d with
    | MFrame tag body dropped =>
        negb (Ascii.eqb c AIRY_LLM_STREAM_RS && Ascii.eqb tag AIRY_LLM_STREAM_TAG_ERROR && complete body dropped)
    | _ => true
    end.

(** The end of the stream: a pending RS is text, a half frame is dropped. *)
Definition decode_end (d : decoder) : decoder :=
    match d_mode d with
    | MText => d
    | MRs => with_mode MText (with_text (d_text d +:+ str1 AIRY_LLM_STREAM_RS) d)
    | MFrame _ _ _ => with_mode MText d
    end.

Lemma decode_app a : forall b d, decode d (a +:+ b) = decode (decode d a) b.
Proof. induction a as [|c a IH]; intros b d; [done|]. rewrite str_app_cons. apply IH. Qed.

Lemma always_app p a : forall b d, always p d (a +:+ b) = always p d a && always p (decode d a) b.
Proof.
  induction a as [|c a IH]; intros b d; [done|]. rewrite str_app_cons. cbn. by rewrite IH, andb_assoc.
Qed.

(** Text without RS. *)
Lemma decode_plain t : forall d,
  d_mode d = MText -> has_char AIRY_LLM_STREAM_RS t = false ->
  decode d t = with_text (d_text d +:+ t) d /\ always no_error d t = true.
Proof.
  induction t as [|c t IH]; intros d Hm Ht; cbn [decode always].
  - rewrite str_app_nil_r. by destruct d.
  - apply has_char_false in Ht. cbn [str_forallb] in Ht. apply andb_true_iff in Ht as [Hc Ht].
    apply negb_true_iff in Hc. assert (Hs : dstep d c = with_text (d_text d +:+ str1 c) d).
    { unfold dstep. by rewrite Hm, Hc. }
    rewrite Hs. destruct (IH (with_text (d_text d +:+ str1 c) d)) as [-> ->]; [done|by apply has_char_false|].
    split; [|unfold no_error; by rewrite Hm]. cbn [with_text d_text]. unfold with_text. cbn. by rewrite str_app_assoc.
Qed.
End decoder.

(** ** The code runs the decoder *)

Section refine.
  Context `{Cjson} `{StreamProto} `{TagTest} `{!TagsOk} {W : Type} `{AllocOk W}.
  Context (on_text : option (string -> W -> W)).

Definition wf (s : agent_stream_t) : Prop :=
    0 <= frame_dropped s /\ (text_sent s <= String.length (bytes (text s)))%nat /\
    if in_frame s then prev_rs s = false else bytes (frame s) = ""%string /\ frame_dropped s = 0.

Definition push (w : W) (t : string) : W := match on_text with Some f => f t w | None => w end.

(** The text handed to [on_text] so far. *)
Definition sent (s : agent_stream_t) : string := String.substring 0 (text_sent s) (bytes (text s)).

(** From [s] to [s'] over the bytes [data]. *)
Definition ran (s : agent_stream_t) (w : W) (data : string) (r : agent_stream_t * W) : Prop :=
    abs r.1 = decode (abs s) data /\ wf r.1 /\
    (always no_error (abs s) data = true ->
     exists incs, r.2 = fold_left push incs w /\ sent r.1 = sent s +:+ str_concat incs).

Lemma str_concat_app l1 l2 : str_concat (l1 ++ l2) = str_concat l1 +:+ str_concat l2.
Proof.
  unfold str_concat. induction l1 as [|x l1 IH]; cbn [foldr app]; [done|]. by rewrite IH, str_app_assoc.
Qed.

Lemma ran_trans s w a s1 w1 b r : ran s w a (s1, w1) -> ran s1 w1 b r -> ran s w (a +:+ b) r.
Proof.
  intros (A1 & _ & P1) (A2 & W2 & P2). cbn [fst snd] in *. unfold ran. rewrite decode_app, <- A1, always_app, <- A1.
  split; [done|]. split; [done|]. intros [Ha Hb]%andb_true_iff.
  destruct (P1 Ha) as (i1 & -> & E1), (P2 Hb) as (i2 & -> & E2). exists (i1 ++ i2).
  by rewrite fold_left_app, str_concat_app, E2, E1, str_app_assoc.
Qed.

(** A step that pushes nothing and keeps what was sent. *)
Lemma ran_quiet s w data s' : abs s' = decode (abs s) data -> wf s' ->
  (always no_error (abs s) data = true -> sent s' = sent s) -> ran s w data (s', w).
Proof.
  intros Ha Hw Hs. split; [done|]. split; [done|]. intros Hn. exists [].
  split; [done|]. cbn. change (str_concat []) with ""%string. by rewrite str_app_nil_r, Hs.
Qed.

Lemma ran_refl s w : wf s -> ran s w "" (s, w).
Proof. intros Hw. by apply ran_quiet. Qed.

Lemma run_buf_add_ok b data (w : W) : exists b', run_buf_add b data w = (Some b', w) /\ bytes b' = bytes b +:+ data.
Proof.
  unfold run_buf_add. rewrite malloc_ok. match goal with |- context[grow 64 ?a ?b] => generalize (grow 64 a b) end.
  intros g. destruct (strcmp_eq data "") eqn:E.
  - apply strcmp_eq_true in E as ->. exists b. by rewrite str_app_nil_r.
  - destruct (_ <? _); by eexists.
Qed.

Lemma substring_split n m (t : string) :
  (n <= m)%nat -> String.substring 0 m t = String.substring 0 n t +:+ String.substring n (m - n) t.
Proof.
  revert n m. induction t as [|c t IH]; intros n m Hn; [by destruct n, m|].
  destruct n as [|n]; [by rewrite Nat.sub_0_r|]. destruct m as [|m]; [lia|]. cbn [String.substring].
  rewrite (IH n m) by lia. by rewrite str_app_cons.
Qed.

Lemma substring_prefix n (a b : string) :
  (n <= String.length a)%nat -> String.substring 0 n (a +:+ b) = String.substring 0 n a.
Proof.
  revert n. induction a as [|c a IH]; intros [|n] Hn; cbn [String.length] in Hn; try lia; rewrite ?str_app_cons.
  - by destruct b.
  - done.
  - cbn [String.substring]. by rewrite IH by lia.
Qed.

(** Pushing text: the buffer grows by the text, the increment is what was not
    sent yet. *)
Lemma emit_text_ok s data w : wf s ->
  exists b n incs, run_emit_text on_text s data w = (set_text b n s, fold_left push incs w) /\
    bytes b = bytes (text s) +:+ data /\ (n <= String.length (bytes b))%nat /\
    String.substring 0 n (bytes b) = sent s +:+ str_concat incs.
Proof.
  intros (_ & Hl & _). unfold run_emit_text. destruct (strcmp_eq data "") eqn:E.
  { apply strcmp_eq_true in E as ->. exists (text s), (text_sent s), [].
    change (str_concat []) with ""%string. rewrite !str_app_nil_r. by destruct s. }
  destruct (run_buf_add_ok (text s) data w) as (b & Eb & Hb). rewrite Eb. cbv zeta.
  assert (Hp : String.substring 0 (text_sent s) (bytes b) = sent s) by (rewrite Hb; by apply substring_prefix).
  destruct (_ <=? text_sent s)%nat eqn:El.
  - exists b, (text_sent s), []. change (str_concat []) with ""%string. rewrite str_app_nil_r.
    split; [done|]. split; [done|]. split; [|done]. rewrite Hb, str_length_app. lia.
  - apply Nat.leb_gt in El. set (safe := (_ - _)%nat) in *.
    eexists b, safe, [_]. split; [reflexivity|]. split; [done|]. split; [lia|].
    cbn [str_concat foldr]. rewrite (substring_split (text_sent s) safe) by lia. by rewrite Hp, str_app_nil_r.
Qed.
End refine.

(** Projections of updated states, nothing else. *)
Ltac asimp :=
  cbn [set_text set_frame set_prev_rs set_reason set_astools set_usage text text_sent reason frame frame_tag
       frame_dropped prev_rs as_tools tokens cost error_code error_msg with_mode with_text d_text d_reason d_tools
       d_tokens d_cost d_error d_mode fst snd].

Section refine2.
  Context `{Cjson} `{StreamProto} `{TagTest} `{!TagsOk} {W : Type} `{AllocOk W}.
  Context (on_text : option (string -> W -> W)).
  Notation ran := (ran on_text).
  Notation push := (push on_text).

Lemma wf_text s b n : wf s -> (n <= String.length (bytes b))%nat -> wf (set_text b n s).
Proof. unfold wf, in_frame. asimp. tauto. Qed.

(** Text between frames. *)
Lemma emit_ran s data w : wf s -> mode_of s = MText -> has_char AIRY_LLM_STREAM_RS data = false ->
  ran s w data (run_emit_text on_text s data w).
Proof.
  intros Hw Hm Hd. destruct (emit_text_ok on_text s data w Hw) as (b & n & incs & E & Hb & Hn & Hs). rewrite E.
  destruct (decode_plain data (abs s) Hm Hd) as [Hdec _].
  split; [|split; [by apply wf_text|eauto]]. rewrite Hdec. unfold abs, content, mode_of. asimp. by rewrite Hb.
Qed.

Lemma rs_not_tag t : AIRY_LLM_STREAM_IS_TAG t = true -> Ascii.eqb t AIRY_LLM_STREAM_RS = false.
Proof. intros Ht. apply Ascii.eqb_neq. intros ->. pose proof rs_no_tag. congruence. Qed.

Lemma tag_not_nul t : AIRY_LLM_STREAM_IS_TAG t = true -> Ascii.eqb t "000" = false.
Proof. intros Ht. apply Ascii.eqb_neq. intros ->. pose proof nul_no_tag. congruence. Qed.

(** RS and a byte that is no tag are text. *)
Lemma emit_pair_ran s t w : wf s -> mode_of s = MText -> AIRY_LLM_STREAM_IS_TAG t = false ->
  ran s w (String AIRY_LLM_STREAM_RS (str1 t)) (run_emit_text on_text s (String AIRY_LLM_STREAM_RS (str1 t)) w).
Proof.
  intros Hw Hm Ht. destruct (emit_text_ok on_text s (String AIRY_LLM_STREAM_RS (str1 t)) w Hw)
    as (b & n & incs & E & Hb & Hn & Hs). rewrite E.
  split; [|split; [by apply wf_text|eauto]].
  cbn [decode str1]. unfold dstep at 2. cbn [abs content d_mode]. rewrite Hm, Ascii.eqb_refl.
  unfold dstep. cbn [with_mode d_mode]. rewrite Ht. unfold abs, content, with_mode, with_text. asimp. 
  unfold mode_of in *. asimp. change (in_frame (set_text b n s)) with (in_frame s). by rewrite Hb, Hm.
Qed.

Lemma mode_text s : mode_of s = MText -> in_frame s = false /\ prev_rs s = false.
Proof. unfold mode_of. by destruct (in_frame s), (prev_rs s). Qed.

Lemma mode_rs s : mode_of s = MRs -> in_frame s = false /\ prev_rs s = true.
Proof. unfold mode_of. by destruct (in_frame s), (prev_rs s). Qed.

Lemma dstep_rs d : d_mode d = MText -> dstep d AIRY_LLM_STREAM_RS = with_mode MRs d.
Proof. intros Hm. unfold dstep. by rewrite Hm, Ascii.eqb_refl. Qed.

Lemma dstep_tag d t : d_mode d = MRs -> AIRY_LLM_STREAM_IS_TAG t = true -> dstep d t = with_mode (MFrame t "" 0) d.
Proof. intros Hm Ht. unfold dstep. by rewrite Hm, Ht. Qed.

Lemma set_prev_same s : prev_rs s = false -> set_prev_rs false s = s.
Proof. destruct s. cbn. by intros ->. Qed.

Lemma opened s t : wf s -> in_frame s = false -> AIRY_LLM_STREAM_IS_TAG t = true ->
  let s' := set_frame (frame s) t (frame_dropped s) (set_prev_rs false s) in
  wf s' /\ in_frame s' = true /\ abs s' = content s (MFrame t "" 0).
Proof.
  intros (Hw1 & Hw2 & Hw3) Hf Ht. rewrite Hf in Hw3. destruct Hw3 as [Hb Hd]. cbv zeta.
  unfold wf, abs, mode_of, in_frame. asimp. rewrite (tag_not_nul t Ht), Hb, Hd. asimp. done.
Qed.

(** The two bytes that open a frame; with RS from an earlier payload, the second. *)
Lemma open_ran s t w : wf s -> mode_of s = MText -> AIRY_LLM_STREAM_IS_TAG t = true ->
  let s' := set_frame (frame s) t (frame_dropped s) s in
  ran s w (String AIRY_LLM_STREAM_RS (str1 t)) (s', w) /\ in_frame s' = true.
Proof.
  intros Hw Hm Ht s'. destruct (mode_text s Hm) as [Hf Hp]. destruct (opened s t Hw Hf Ht) as (Hw' & Hf' & Ha).
  rewrite (set_prev_same s Hp) in *.
  split; [|done]. apply ran_quiet; [|done|done]. cbn [decode str1]. unfold s'. rewrite Ha, (dstep_rs (abs s) Hm).
  by rewrite dstep_tag.
Qed.

Lemma open_late_ran s t w : wf s -> mode_of s = MRs -> AIRY_LLM_STREAM_IS_TAG t = true ->
  let s' := set_frame (frame s) t (frame_dropped s) (set_prev_rs false s) in
  ran s w (str1 t) (s', w) /\ in_frame s' = true.
Proof.
  intros Hw Hm Ht s'. destruct (mode_rs s Hm) as [Hf Hp]. destruct (opened s t Hw Hf Ht) as (Hw' & Hf' & Ha).
  split; [|done]. apply ran_quiet; [|done|done]. cbn [decode str1]. unfold s'. rewrite Ha.
  by rewrite (dstep_tag (abs s) t Hm Ht).
Qed.

Lemma set_prev_ran s w : wf s -> mode_of s = MText ->
  ran s w (str1 AIRY_LLM_STREAM_RS) (set_prev_rs true s, w).
Proof.
  intros (Hw1 & Hw2 & Hw3) Hm. destruct (mode_text s Hm) as [Hf Hp]. rewrite Hf in Hw3.
  apply ran_quiet; [|unfold wf|done].
  - cbn [decode str1]. rewrite (dstep_rs (abs s) Hm). unfold abs, mode_of.
    change (in_frame (set_prev_rs true s)) with (in_frame s). by rewrite Hf.
  - change (in_frame (set_prev_rs true s)) with (in_frame s). by rewrite Hf.
Qed.

Lemma frame_byte_ran s c w : wf s -> in_frame s = true -> Ascii.eqb c AIRY_LLM_STREAM_RS = false ->
  ran s w (str1 c) (frame_byte s c w) /\ in_frame (frame_byte s c w).1 = true.
Proof.
  intros (Hw1 & Hw2 & Hw3) Hf Hc. rewrite Hf in Hw3. unfold frame_byte. rewrite malloc_ok.
  match goal with |- context[grow 64 ?a ?b] => generalize (grow 64 a b) end. intros g.
  assert (Hm : mode_of s = MFrame (frame_tag s) (bytes (frame s)) (frame_dropped s)) by (unfold mode_of; by rewrite Hf).
  destruct ((frame_dropped s =? 0) && (strlen (bytes (frame s)) + 1 <? AIRY_LLM_STREAM_FRAME_MAX)) eqn:Eg.
  - assert (forall cap, let s' := set_frame (Some (bytes (frame s) +:+ str1 c, cap)) (frame_tag s) 0 s in
      ran s w (str1 c) (s', w) /\ in_frame s' = true) as Hput.
    { intros cap. cbv zeta. unfold in_frame in Hf. split; [|done].
      apply ran_quiet; [|unfold wf, in_frame; asimp; by rewrite Hf|done].
      cbn [decode str1]. unfold dstep. cbn [abs content d_mode]. rewrite Hm, Hc, Eg.
      unfold abs, content, with_mode, mode_of, in_frame. asimp. by rewrite Hf. }
    destruct (_ <? strlen _ + 2); apply Hput.
  - unfold in_frame in Hf. split; [|done]. apply ran_quiet; [|unfold wf, in_frame; asimp; rewrite Hf; split; [lia|done]|done].
    cbn [decode str1]. unfold dstep. cbn [abs content d_mode]. rewrite Hm, Hc, Eg.
    unfold abs, content, with_mode, mode_of, in_frame. asimp. by rewrite Hf.
Qed.

(** The end of a frame: what it means for the decoder's content. *)
Lemma take_frame_content s tag m :
  Ascii.eqb tag AIRY_LLM_STREAM_TAG_REASON = false ->
  content (if Ascii.eqb tag AIRY_LLM_STREAM_TAG_TOOL then run_take_tools s
           else if Ascii.eqb tag AIRY_LLM_STREAM_TAG_USAGE then run_take_usage s
           else if Ascii.eqb tag AIRY_LLM_STREAM_TAG_ERROR then run_take_error s else s) m =
  with_mode m (take_frame tag (bytes (frame s)) (content s m)).
Proof.
  intros Hr. unfold take_frame. rewrite Hr.
  destruct (Ascii.eqb tag AIRY_LLM_STREAM_TAG_TOOL); [|destruct (Ascii.eqb tag AIRY_LLM_STREAM_TAG_USAGE);
    [|by destruct (Ascii.eqb tag AIRY_LLM_STREAM_TAG_ERROR)]].
  - unfold run_take_tools. change (bytes (frame (concrete (content s m) (bytes (frame s))))) with (bytes (frame s)).
    destruct (cJSON_Parse _) as [v|]; [|done]. by destruct (cJSON_items v).
  - unfold run_take_usage. change (bytes (frame (concrete (content s m) (bytes (frame s))))) with (bytes (frame s)).
    by destruct (cJSON_Parse _).
Qed.

(** Resetting the frame. *)
Definition frame_reset (s : agent_stream_t) : agent_stream_t :=
    set_frame ((fun b => (""%string, b.2)) <$> frame s) "000" 0 s.

Lemma frame_reset_wf s : prev_rs s = false -> (text_sent s <= String.length (bytes (text s)))%nat ->
  wf (frame_reset s) /\ mode_of (frame_reset s) = MText.
Proof. unfold wf, mode_of, frame_reset. asimp. intros -> Hl. cbn [in_frame]. by destruct (frame s). Qed.

(** Only an error frame touches the text. *)
Lemma take_keeps_text s tag :
  Ascii.eqb tag AIRY_LLM_STREAM_TAG_ERROR = false ->
  let s' := (if Ascii.eqb tag AIRY_LLM_STREAM_TAG_TOOL then run_take_tools s
             else if Ascii.eqb tag AIRY_LLM_STREAM_TAG_USAGE then run_take_usage s
             else if Ascii.eqb tag AIRY_LLM_STREAM_TAG_ERROR then run_take_error s else s) in
  text s' = text s /\ text_sent s' = text_sent s.
Proof.
  intros ->. cbv zeta. destruct (Ascii.eqb tag _); [|destruct (Ascii.eqb tag _); [|done]].
  - unfold run_take_tools. destruct (cJSON_Parse _) as [v|]; [|done]. by destruct (cJSON_items v).
  - unfold run_take_usage. by destruct (cJSON_Parse _).
Qed.

Lemma take_keeps_frame s tag :
  let s' := (if Ascii.eqb tag AIRY_LLM_STREAM_TAG_TOOL then run_take_tools s
             else if Ascii.eqb tag AIRY_LLM_STREAM_TAG_USAGE then run_take_usage s
             else if Ascii.eqb tag AIRY_LLM_STREAM_TAG_ERROR then run_take_error s else s) in
  prev_rs s' = prev_rs s /\ frame s' = frame s /\
  ((text_sent s <= String.length (bytes (text s)))%nat -> (text_sent s' <= String.length (bytes (text s')))%nat).
Proof.
  cbv zeta. repeat destruct (Ascii.eqb tag _); try done.
  - unfold run_take_tools. destruct (cJSON_Parse _) as [v|]; [|done]. by destruct (cJSON_items v).
  - unfold run_take_usage. by destruct (cJSON_Parse _).
Qed.

(** The dispatch, with the cases of the switch gathered. *)
Lemma dispatch_eq s w :
  exists s', run_frame_dispatch s w = (frame_reset s', w) /\ prev_rs s' = prev_rs s /\ frame s' = frame s /\
    ((text_sent s <= String.length (bytes (text s)))%nat -> (text_sent s' <= String.length (bytes (text s')))%nat) /\
    (forall m, content s' m =
       if complete (bytes (frame s)) (frame_dropped s)
       then with_mode m (take_frame (frame_tag s) (bytes (frame s)) (content s m)) else content s m) /\
    (Ascii.eqb (frame_tag s) AIRY_LLM_STREAM_TAG_ERROR && complete (bytes (frame s)) (frame_dropped s) = false ->
     sent s' = sent s).
Proof.
  unfold run_frame_dispatch, complete. destruct (0 <? frame_dropped s).
  { exists s. cbn [negb andb]. by split_and!. }
  destruct (strcmp_eq (bytes (frame s)) ""); [exists s; cbn [negb andb]; by split_and!|]. cbn [negb andb].
  destruct (Ascii.eqb (frame_tag s) AIRY_LLM_STREAM_TAG_REASON) eqn:Er.
  - pose proof tags_differ as Hd. apply Ascii.eqb_eq in Er. rewrite Er.
    assert (Ht : Ascii.eqb AIRY_LLM_STREAM_TAG_REASON AIRY_LLM_STREAM_TAG_TOOL = false).
    { apply Ascii.eqb_neq. intros E. rewrite E in Hd. apply NoDup_cons in Hd as [Hd _]. by apply Hd; left. }
    rewrite Ht. destruct (run_buf_add_ok (reason s) (bytes (frame s)) w) as (b & Eb & Hb). rewrite Eb.
    exists (set_reason b s). split_and!; try done. intros m. unfold take_frame. rewrite Ht, Ascii.eqb_refl.
    unfold content, with_mode. asimp. by rewrite Hb.
  - eexists. split; [|destruct (take_keeps_frame s (frame_tag s)) as (Hp & Hf & Hl); split; [exact Hp|];
      split; [exact Hf|]; split; [exact Hl|]; split; [intros m; by apply take_frame_content|]].
    + destruct (Ascii.eqb (frame_tag s) AIRY_LLM_STREAM_TAG_TOOL); [|destruct (Ascii.eqb (frame_tag s) AIRY_LLM_STREAM_TAG_USAGE);
        [|destruct (Ascii.eqb (frame_tag s) AIRY_LLM_STREAM_TAG_ERROR)]]; done.
    + rewrite andb_true_r. intros He. unfold sent. by destruct (take_keeps_text s (frame_tag s) He) as [-> ->].
Qed.
End refine2.

Section refine3.
  Context `{Cjson} `{StreamProto} `{TagTest} `{!TagsOk} {W : Type} `{AllocOk W}.
  Context (on_text : option (string -> W -> W)).
  Notation ran := (ran on_text).

Lemma dispatch_ran s w : wf s -> in_frame s = true ->
  ran s w (str1 AIRY_LLM_STREAM_RS) (run_frame_dispatch s w) /\ mode_of (run_frame_dispatch s w).1 = MText.
Proof.
  intros (Hw1 & Hw2 & Hw3) Hf. rewrite Hf in Hw3.
  destruct (dispatch_eq s w) as (s' & E & Hp & Hfr & Hl & Hc & Hs). rewrite E.
  destruct (frame_reset_wf s') as [Hw Hm]; [congruence|auto|]. cbn [fst]. split; [|done].
  assert (Hms : mode_of s = MFrame (frame_tag s) (bytes (frame s)) (frame_dropped s)) by (unfold mode_of; by rewrite Hf).
  apply ran_quiet; [|done|].
  - cbn [decode str1]. unfold dstep. cbn [abs content d_mode]. rewrite Hms, Ascii.eqb_refl.
    unfold abs at 1. rewrite Hm. change (content (frame_reset s') MText) with (with_mode MText (content s' (mode_of s))).
    rewrite Hc. unfold abs. by destruct (complete _ _).
  - intros Hn. change (sent (frame_reset s')) with (sent s'). apply Hs.
    cbn [always str1] in Hn. unfold no_error in Hn. cbn [abs content d_mode] in Hn.
    rewrite Hms, Ascii.eqb_refl in Hn. cbn [andb] in Hn. by destruct (_ && complete _ _).
Qed.

(** A frame body: up to its end, or up to the end of the payload. *)
Lemma drain_ran data : forall s w, wf s -> in_frame s = true ->
  let r := run_frame_drain s data w in
  exists pre, data = pre +:+ r.1.2 /\ ran s w pre (r.1.1, r.2) /\
    if in_frame r.1.1 then r.1.2 = ""%string else mode_of r.1.1 = MText.
Proof.
  induction data as [|c data IH]; intros s w Hw Hf; cbn [run_frame_drain].
  - exists "". cbn. rewrite Hf. split; [done|]. split; [by apply ran_refl|done].
  - rewrite Hf. destruct (Ascii.eqb c AIRY_LLM_STREAM_RS) eqn:Ec.
    + apply Ascii.eqb_eq in Ec as ->. destruct (dispatch_ran s w Hw Hf) as [Hr Hm].
      destruct (run_frame_dispatch s w) as [s1 w1]. cbn [fst] in Hm. destruct (mode_text s1 Hm) as [Hf1 _].
      exists (str1 AIRY_LLM_STREAM_RS). destruct data; cbn [run_frame_drain]; rewrite ?Hf1; cbn [fst snd]; rewrite Hf1; done.
    + destruct (frame_byte_ran on_text s c w Hw Hf Ec) as [Hr Hf1].
      destruct (frame_byte s c w) as [s1 w1]. cbn [fst] in Hf1.
      destruct (IH s1 w1) as (pre & Hd & Hr2 & Hend); [apply Hr|done|].
      exists (String c pre). split; [by rewrite str_app_cons, <- Hd|]. split; [|done].
      change (String c pre) with (str1 c +:+ pre). by eapply ran_trans.
Qed.

Lemma substring_len (a b : string) : (String.length b <= String.length (a +:+ b))%nat.
Proof. rewrite str_length_app. lia. Qed.

Lemma has_char_snoc c (a : ascii) p : has_char c p = false -> Ascii.eqb a c = false -> has_char c (p +:+ str1 a) = false.
Proof. intros Hp Ha. rewrite has_char_app, Hp. unfold has_char. cbn. by rewrite Ha. Qed.

Lemma feed_loop_ran turns : forall s pend data w,
  (String.length data < turns)%nat -> wf s -> mode_of s = MText -> has_char AIRY_LLM_STREAM_RS pend = false ->
  ran s w (pend +:+ data) (feed_loop on_text turns s pend data w).
Proof.
  induction turns as [|turns IH]; intros s pend data w Hl Hw Hm Hp; [lia|]. cbn [feed_loop].
  destruct data as [|c data]; [rewrite str_app_nil_r; by apply emit_ran|]. cbn [String.length] in Hl.
  destruct (Ascii.eqb c AIRY_LLM_STREAM_RS) eqn:Ec; cbn [negb].
  2: { replace (pend +:+ String c data) with ((pend +:+ str1 c) +:+ data) by (by rewrite str_app_assoc).
       apply IH; [lia|done|done|by apply has_char_snoc]. }
  apply Ascii.eqb_eq in Ec as ->. pose proof (emit_ran on_text s pend w Hw Hm Hp) as R1.
  assert (Hm1 : mode_of (run_emit_text on_text s pend w).1 = MText).
  { destruct (emit_text_ok on_text s pend w Hw) as (b & n & incs & E & _). by rewrite E. }
  destruct (run_emit_text on_text s pend w) as [s1 w1]. cbn [fst] in Hm1. assert (Hw1 : wf s1) by apply R1.
  eapply ran_trans; [exact R1|]. destruct data as [|t rest]; [by apply set_prev_ran|]. cbn [String.length] in Hl.
  change (String AIRY_LLM_STREAM_RS (String t rest)) with (String AIRY_LLM_STREAM_RS (str1 t) +:+ rest).
  destruct (AIRY_LLM_STREAM_IS_TAG t) eqn:Et.
  - destruct (open_ran on_text s1 t w1 Hw1 Hm1 Et) as [R2 Hf2]. eapply ran_trans; [exact R2|].
    assert (Hw2 : wf (set_frame (frame s1) t (frame_dropped s1) s1)) by apply R2.
    destruct rest as [|u rest']; [by apply ran_refl|]. remember (String u rest') as rest eqn:Er. clear Er.
    destruct (drain_ran rest _ w1 Hw2 Hf2) as (pre & Hd & R3 & Hend).
    destruct (run_frame_drain _ rest w1) as [[s3 rest3] w3]. cbn [fst snd] in *. rewrite Hd.
    eapply ran_trans; [exact R3|]. assert (Hw3 : wf s3) by apply R3.
    destruct (in_frame s3); [subst rest3; by apply ran_refl|].
    change rest3 with ("" +:+ rest3). apply IH; [|done..].
    pose proof (substring_len pre rest3) as Hx. rewrite <- Hd in Hx. change (""%string +:+ rest3) with rest3. lia.
  - pose proof (emit_pair_ran on_text s1 t w1 Hw1 Hm1 Et) as R2.
    assert (Hm2 : mode_of (run_emit_text on_text s1 (String AIRY_LLM_STREAM_RS (str1 t)) w1).1 = MText).
    { destruct (emit_text_ok on_text s1 (String AIRY_LLM_STREAM_RS (str1 t)) w1 Hw1) as (b & n & incs & E & _). by rewrite E. }
    destruct (run_emit_text on_text s1 _ w1) as [s2 w2]. cbn [fst] in Hm2. assert (Hw2 : wf s2) by apply R2.
    eapply ran_trans; [exact R2|]. change rest with ("" +:+ rest). apply IH; [|done..].
    change (""%string +:+ rest) with rest. lia.
Qed.

Lemma feed_open_ran s data w : wf s -> in_frame s = false -> always single_rs (abs s) data = true ->
  ran s w data (feed_open on_text s data w).
Proof.
  intros Hw Hf Hc. destruct data as [|c data]; [by apply ran_refl|]. unfold feed_open.
  destruct (prev_rs s) eqn:Ep.
  2: { change (String c data) with ("" +:+ String c data) at 1. apply feed_loop_ran; [lia|done| |done].
       unfold mode_of. by rewrite Hf, Ep. }
  assert (Hm : mode_of s = MRs) by (unfold mode_of; by rewrite Hf, Ep).
  destruct (AIRY_LLM_STREAM_IS_TAG c) eqn:Et.
  - destruct (open_late_ran on_text s c w Hw Hm Et) as [R1 Hf1]. cbv zeta in R1, Hf1.
    set (s1 := set_frame _ _ _ _) in *. assert (Hw1 : wf s1) by apply R1.
    destruct (drain_ran data s1 w Hw1 Hf1) as (pre & Hd & R2 & Hend).
    change (frame (set_prev_rs false s)) with (frame s).
    change (frame_dropped (set_prev_rs false s)) with (frame_dropped s). fold s1.
    destruct (run_frame_drain s1 data w) as [[s2 rest] w2]. cbn [fst snd] in *. rewrite Hd.
    change (String c (pre +:+ rest)) with (str1 c +:+ (pre +:+ rest)).
    eapply ran_trans; [exact R1|]. eapply ran_trans; [exact R2|]. assert (Hw2 : wf s2) by apply R2.
    destruct (in_frame s2); cbn [orb]; [subst rest; by apply ran_refl|].
    destruct (strcmp_eq rest "") eqn:Er; [apply strcmp_eq_true in Er as ->; by apply ran_refl|].
    change rest with ("" +:+ rest) at 1. apply feed_loop_ran; [lia|done..].
  - assert (Hw0 : wf (set_prev_rs false s)).
    { destruct Hw as (? & ? & Hw). unfold wf. change (in_frame (set_prev_rs false s)) with (in_frame s).
      by rewrite Hf in *. }
    destruct (emit_text_ok on_text _ RS_TEXT w Hw0) as (b & n & incs & E & Hb & Hn & Hs). rewrite E.
    set (s1 := set_text b n (set_prev_rs false s)) in *.
    assert (Hm1 : mode_of s1 = MText) by (unfold mode_of; change (in_frame s1) with (in_frame s); by rewrite Hf).
    assert (R : ran s1 (fold_left (push on_text) incs w) ("" +:+ String c data)
                  (feed_loop on_text (S (String.length (String c data))) s1 "" (String c data)
                     (fold_left (push on_text) incs w))).
    { apply feed_loop_ran; [lia|by apply wf_text|done|done]. }
    change ("" +:+ String c data) with (String c data) in R.
    cbn [always] in Hc. apply andb_true_iff in Hc as [Hc _]. unfold single_rs in Hc.
    cbn [abs content d_mode] in Hc. rewrite Hm in Hc. apply negb_true_iff in Hc.
    assert (Hst : dstep (abs s1) c = dstep (abs s) c).
    { unfold dstep. cbn [abs content d_mode]. rewrite Hm1, Hm, Hc, Et. unfold with_mode, with_text, abs, content. asimp.
      rewrite Hm1. unfold s1. asimp. rewrite Hb. change (text (set_prev_rs false s)) with (text s).
      rewrite str_app_assoc. unfold RS_TEXT. by rewrite rs_code. }
    destruct R as (RA & RW & RP). split; [cbn [decode] in *; congruence|]. split; [done|]. intros Hne.
    destruct RP as (i2 & E2 & S2).
    { cbn [always] in *. rewrite Hst. apply andb_true_iff in Hne as [_ ->]. rewrite andb_true_r.
      unfold no_error. cbn [abs content d_mode]. by rewrite Hm1. }
    exists (incs ++ i2). rewrite E2, S2, fold_left_app, str_concat_app, <- str_app_assoc. split; [done|].
    f_equal. exact Hs.
Qed.

Lemma feed_ran s data w : wf s -> always single_rs (abs s) data = true ->
  ran s w data (agent_stream_feed on_text s data w).
Proof.
  intros Hw Hc. unfold agent_stream_feed. destruct (strcmp_eq data "") eqn:E.
  { apply strcmp_eq_true in E as ->. by apply ran_refl. }
  destruct (in_frame s) eqn:Hf; [|by apply feed_open_ran].
  destruct (drain_ran data s w Hw Hf) as (pre & Hd & R & Hend).
  destruct (run_frame_drain s data w) as [[s1 rest] w1]. cbn [fst snd] in *. subst data.
  eapply ran_trans; [exact R|]. assert (Hw1 : wf s1) by apply R.
  destruct (in_frame s1) eqn:Hf1; cbn [orb]; [subst rest; by apply ran_refl|].
  destruct (strcmp_eq rest "") eqn:Er; [apply strcmp_eq_true in Er as ->; by apply ran_refl|].
  apply feed_open_ran; [done|done|]. rewrite always_app in Hc. apply andb_true_iff in Hc as [_ Hc].
  destruct R as (RA & _). cbn [fst] in RA. by rewrite RA.
Qed.

Lemma feed_all_ran ps : forall s w, wf s -> always single_rs (abs s) (str_concat ps) = true ->
  ran s w (str_concat ps) (feed_all on_text s ps w).
Proof.
  induction ps as [|p ps IH]; intros s w Hw Hc; [by apply ran_refl|].
  change (str_concat (p :: ps)) with (p +:+ str_concat ps) in *. cbn [feed_all].
  rewrite always_app in Hc. apply andb_true_iff in Hc as [Hp Hc].
  pose proof (feed_ran s p w Hw Hp) as R. destruct (agent_stream_feed on_text s p w) as [s1 w1].
  eapply ran_trans; [exact R|]. destruct R as (RA & RW & _). cbn [fst] in *. apply IH; [done|]. by rewrite RA.
Qed.

Lemma substring_whole (t : string) : String.substring 0 (String.length t) t = t.
Proof. induction t as [|c t IH]; [done|]. cbn. by rewrite IH. Qed.

(** The end of a stream pushes what was held back. *)
Lemma finish_ok s w : wf s ->
  let r := agent_stream_finish on_text s w in
  content r.1 MText = decode_end (abs s) /\
  exists incs, r.2 = fold_left (push on_text) incs w /\ bytes (text r.1) = sent s +:+ str_concat incs.
Proof.
  intros Hw. unfold agent_stream_finish.
  set (s0 := if in_frame s then _ else s).
  assert (HA0 : wf s0 /\ content s0 MText = content s MText /\ sent s0 = sent s /\ in_frame s0 = false /\
    prev_rs s0 = prev_rs s /\ (in_frame s = true -> prev_rs s = false)).
  { destruct Hw as (Hw1 & Hw2 & Hw3). unfold s0. destruct (in_frame s) eqn:Hf.
    - fold (frame_reset s). destruct (frame_reset_wf s Hw3 Hw2) as [Hr _]. by split_and!.
    - split_and!; try done. unfold wf. by rewrite Hf. }
  destruct HA0 as (Hw0 & Hc0 & Hs0 & Hf0 & Hp0 & Hpf). clearbody s0.
  assert (HA1 : exists s1 i1, (if prev_rs s0 then run_emit_text on_text (set_prev_rs false s0) RS_TEXT w else (s0, w)) =
     (s1, fold_left (push on_text) i1 w) /\ content s1 MText = decode_end (abs s) /\ wf s1 /\
     sent s1 = sent s +:+ str_concat i1).
  { destruct (prev_rs s0) eqn:Ep.
    - assert (Hwp : wf (set_prev_rs false s0)).
      { destruct Hw0 as (? & ? & Hw0). unfold wf. change (in_frame (set_prev_rs false s0)) with (in_frame s0).
        by rewrite Hf0 in *. }
      destruct (emit_text_ok on_text _ RS_TEXT w Hwp) as (b & n & incs & E & Hb & Hn & Hs). rewrite E.
      eexists _, incs. split; [done|]. split; [|split; [by apply wf_text|by rewrite <- Hs0]].
      assert (Hm : mode_of s = MRs).
      { unfold mode_of. destruct (in_frame s); [rewrite Hpf in Hp0; done|]. by rewrite <- Hp0. }
      unfold decode_end. cbn [abs content d_mode]. rewrite Hm. unfold content in *. asimp. rewrite Hb.
      injection Hc0 as E1 E2 E3 E4 E5 E6 E7. unfold with_mode, with_text, abs, content. asimp.
      unfold RS_TEXT. rewrite rs_code. change (text (set_prev_rs false s0)) with (text s0). congruence.
    - exists s0, []. split; [done|]. change (str_concat []) with ""%string. rewrite str_app_nil_r.
      split; [|done]. rewrite Hc0. unfold decode_end, abs. cbn [content d_mode]. unfold mode_of. rewrite <- Hp0.
      by destruct (in_frame s). }
  destruct HA1 as (s1 & i1 & E & Hc1 & Hw1 & Hs1). rewrite E. cbv zeta.
  destruct (text_sent s1 <? String.length (bytes (text s1)))%nat eqn:El; cbn [fst snd].
  - split; [done|]. eexists (i1 ++ [_]). split; [by rewrite fold_left_app|].
    rewrite str_concat_snoc, <- str_app_assoc, <- Hs1. asimp. unfold sent.
    rewrite <- substring_split by (apply Nat.ltb_lt in El; lia). by rewrite substring_whole.
  - split; [done|]. exists i1. split; [done|]. rewrite <- Hs1. unfold sent. apply Nat.ltb_ge in El.
    destruct Hw1 as (_ & Hl & _). replace (text_sent s1) with (String.length (bytes (text s1))) by lia.
    by rewrite substring_whole.
Qed.
End refine3.

(** C25.  The demultiplexer against a decoder that reads one byte at a time.
    However the transport cuts the stream into payloads, with allocations
    succeeding and no RS directly behind an RS outside frames: the result is
    that of the decoder on the concatenated bytes (text, reasoning, tool calls,
    usage and error alike), so it does not depend on the cuts; a frame cut by
    the end of the stream is dropped and a last RS is text.  If moreover no
    error frame ends, the increments handed to [on_text], concatenated, are the
    final text byte for byte. *)
Theorem stream_refines_decoder `{Cjson} `{StreamProto} `{TagTest} `{!TagsOk} {W} `{AllocOk W}
    (on_text : option (string -> W -> W)) (payloads : list string) (w : W) :
  always single_rs dec_init (str_concat payloads) = true ->
  let d := decode_end (decode dec_init (str_concat payloads)) in
  exists r w',
    read_stream on_text payloads w = (r, w') /\
    ar_text r = Some (d_text d) /\ default "" (ar_reason r) = d_reason d /\ ar_tools r = d_tools d /\
    ar_tokens r = d_tokens d /\ ar_cost r = d_cost d /\ (ar_error_code r, ar_error_msg r) = d_error d /\
    (always no_error dec_init (str_concat payloads) = true ->
     exists incs, w' = fold_left (fun w t => match on_text with Some f => f t w | None => w end) incs w /\
                  str_concat incs = d_text d).
Proof.
  intros Hc d. unfold read_stream.
  destruct (feed_all_ran on_text payloads agent_stream_init w) as (RA & RW & RP); [by split|done|].
  destruct (feed_all on_text agent_stream_init payloads w) as [s1 w1]. cbn [fst snd] in *.
  destruct (finish_ok on_text s1 w1 RW) as (FC & incs & FW & FT).
  destruct (agent_stream_finish on_text s1 w1) as [s2 w2]. cbn [fst snd] in *.
  assert (Hd : d = content s2 MText) by (rewrite FC, RA; done). rewrite Hd.
  unfold agent_stream_take. destruct (text s2) as [b|] eqn:Et; [|rewrite malloc_ok].
  all: eexists _, w2; split; [done|]; unfold content; cbn; rewrite ?Et; repeat (split; [first [done|by destruct (reason s2)]|]).
  all: intros Hn; destruct (RP Hn) as (i1 & E1 & S1); exists (i1 ++ incs).
  all: split; [rewrite FW, E1; symmetry; exact (fold_left_app (push on_text) i1 incs w)|].
  all: rewrite str_concat_app, S1 in *; unfold bytes in FT; rewrite ?Et in FT; symmetry; exact FT.
Qed.

(** ** From llm_d to agent_d *)

Section round.
  Context `{Cjson} `{StreamProto} `{TagTest} `{!TagsOk}.

Definition calm (d : decoder) (c : ascii) : bool := single_rs d c && no_error d c.

Lemma always_calm s : forall d, always calm d s = true -> always single_rs d s = true /\ always no_error d s = true.
Proof.
  induction s as [|c s IH]; intros d Hs; [done|]. cbn [always] in *. unfold calm in Hs at 1.
  apply andb_true_iff in Hs as [[Ha Hb]%andb_true_iff Hs]. destruct (IH _ Hs) as [-> ->]. by rewrite Ha, Hb.
Qed.

(** A run that leaves the decoder [d'] and has neither a double RS nor an error. *)
Definition goes (d : decoder) (s : string) (d' : decoder) : Prop := decode d s = d' /\ always calm d s = true.

Lemma goes_trans d a d1 b d2 : goes d a d1 -> goes d1 b d2 -> goes d (a +:+ b) d2.
Proof. intros [E1 C1] [E2 C2]. unfold goes. by rewrite decode_app, always_app, E1, C1. Qed.

Lemma goes_text t : forall d, d_mode d = MText -> has_char AIRY_LLM_STREAM_RS t = false ->
  goes d t (with_text (d_text d +:+ t) d).
Proof.
  intros d Hm Ht. split; [by apply decode_plain|]. revert d Hm. induction t as [|c t IH]; intros d Hm; [done|].
  apply has_char_false in Ht. cbn [str_forallb] in Ht. apply andb_true_iff in Ht as [Hc Ht].
  apply negb_true_iff in Hc. apply has_char_false in Ht. cbn [always].
  unfold calm at 1, single_rs, no_error. rewrite Hm. cbn [andb]. apply IH; [done|].
  unfold dstep. by rewrite Hm, Hc.
Qed.

Lemma goes_body tag body : forall d b, d_mode d = MFrame tag b 0 -> has_char AIRY_LLM_STREAM_RS body = false ->
  strlen b + strlen body < AIRY_LLM_STREAM_FRAME_MAX ->
  goes d body (with_mode (MFrame tag (b +:+ body) 0) d).
Proof.
  induction body as [|c body IH]; intros d b Hm Hb Hl.
  { split; [|done]. rewrite str_app_nil_r, <- Hm. by destruct d. }
  apply has_char_false in Hb. cbn [str_forallb] in Hb. apply andb_true_iff in Hb as [Hc Hb].
  apply negb_true_iff in Hc. apply has_char_false in Hb. unfold strlen in Hl. cbn [String.length] in Hl.
  assert (Hs : dstep d c = with_mode (MFrame tag (b +:+ str1 c) 0) d).
  { unfold dstep. rewrite Hm, Hc. cbn [Z.eqb]. unfold strlen. by rewrite (proj2 (Z.ltb_lt _ _)) by lia. }
  destruct (IH (dstep d c) (b +:+ str1 c)) as [E C]; [by rewrite Hs|done|unfold strlen; rewrite str_length_app; cbn; lia|].
  unfold goes. cbn [decode always]. rewrite E, C, Hs, andb_true_r. split.
  - unfold with_mode. asimp. by rewrite str_app_assoc.
  - unfold calm, single_rs, no_error. by rewrite Hm, Hc.
Qed.

(** A frame as llm_d sends it. *)
Definition frame_bytes (tag : ascii) (body : string) : string :=
    String AIRY_LLM_STREAM_RS (str1 tag) +:+ (body +:+ str1 AIRY_LLM_STREAM_RS).

Lemma goes_frame tag body d : d_mode d = MText -> AIRY_LLM_STREAM_IS_TAG tag = true ->
  Ascii.eqb tag AIRY_LLM_STREAM_TAG_ERROR = false ->
  has_char AIRY_LLM_STREAM_RS body = false -> strlen body < AIRY_LLM_STREAM_FRAME_MAX ->
  goes d (frame_bytes tag body)
    (with_mode MText (if strcmp_eq body "" then d else take_frame tag body (with_mode (MFrame tag body 0) d))).
Proof.
  intros Hm Ht He Hb Hl. unfold frame_bytes.
  assert (G1 : goes d (String AIRY_LLM_STREAM_RS (str1 tag)) (with_mode (MFrame tag "" 0) d)).
  { unfold goes. cbn [decode always str1]. rewrite (dstep_rs d Hm), dstep_tag by done. split; [done|].
    unfold calm, single_rs, no_error. rewrite Hm. asimp. by rewrite (rs_not_tag tag Ht). }
  eapply goes_trans; [exact G1|].
  eapply goes_trans; [apply (goes_body tag); [done|done|]|].
  { change (strlen "") with 0. lia. }
  change ("" +:+ body) with body. unfold goes. cbn [decode always str1].
  unfold dstep, calm, single_rs, no_error. asimp. rewrite Ascii.eqb_refl, He. unfold complete. cbn [Z.ltb negb andb].
  cbn [Z.compare negb andb]. split; [|done]. by destruct (strcmp_eq body "").
Qed.

(** More text and reasoning. *)
Definition plus (d : decoder) (t r : string) : decoder :=
    mkDec (d_text d +:+ t) (d_reason d +:+ r) (d_tools d) (d_tokens d) (d_cost d) (d_error d) (d_mode d).

Lemma reason_no_tool : Ascii.eqb AIRY_LLM_STREAM_TAG_REASON AIRY_LLM_STREAM_TAG_TOOL = false.
Proof.
  apply Ascii.eqb_neq. intros E. pose proof tags_differ as Hd. rewrite E in Hd.
  apply NoDup_cons in Hd as [Hd _]. apply Hd. by left.
Qed.

Lemma tool_no_error : Ascii.eqb AIRY_LLM_STREAM_TAG_TOOL AIRY_LLM_STREAM_TAG_ERROR = false.
Proof.
  apply Ascii.eqb_neq. intros E. pose proof tags_differ as Hd. rewrite E in Hd.
  apply NoDup_cons in Hd as [Hd _]. apply Hd. by right; right; left.
Qed.

Lemma reason_no_error : Ascii.eqb AIRY_LLM_STREAM_TAG_REASON AIRY_LLM_STREAM_TAG_ERROR = false.
Proof.
  apply Ascii.eqb_neq. intros E. pose proof tags_differ as Hd. rewrite E in Hd.
  apply NoDup_cons in Hd as [_ Hd]. apply NoDup_cons in Hd as [Hd _]. apply Hd. by right; left.
Qed.

Lemma tag_ok : AIRY_LLM_STREAM_IS_TAG AIRY_LLM_STREAM_TAG_TOOL = true /\
  AIRY_LLM_STREAM_IS_TAG AIRY_LLM_STREAM_TAG_REASON = true.
Proof. pose proof tags_are as Ht. rewrite !Forall_cons in Ht. tauto. Qed.

(** The bytes llm_d sends for a payload of the provider. *)
Definition line_bytes (line : string) : string :=
    default "" (chunk_text line) +:+
    match nonempty (default "" (chunk_reason line)) with
    | Some r => frame_bytes AIRY_LLM_STREAM_TAG_REASON r
    | None => ""
    end.

(** Texts without RS, and reasoning that fits a frame. *)
Definition plain (line : string) : Prop :=
    has_char AIRY_LLM_STREAM_RS (default "" (chunk_text line)) = false /\
    has_char AIRY_LLM_STREAM_RS (default "" (chunk_reason line)) = false /\
    strlen (default "" (chunk_reason line)) < AIRY_LLM_STREAM_FRAME_MAX.

Lemma goes_line line d : d_mode d = MText -> plain line ->
  goes d (line_bytes line) (plus d (default "" (chunk_text line)) (default "" (chunk_reason line))).
Proof.
  intros Hm (Ht & Hr & Hl). unfold line_bytes. eapply goes_trans; [by apply goes_text|].
  unfold nonempty. destruct (strcmp_eq _ "") eqn:E.
  - apply strcmp_eq_true in E as ->. split; [|done]. unfold plus, with_text. by rewrite str_app_nil_r.
  - destruct tag_ok as [_ Htag]. 
    destruct (goes_frame AIRY_LLM_STREAM_TAG_REASON (default "" (chunk_reason line))
      (with_text (d_text d +:+ default "" (chunk_text line)) d)) as [E1 C1]; try done; [apply reason_no_error|].
    split; [|done]. rewrite E1, E. unfold take_frame. rewrite reason_no_tool, Ascii.eqb_refl.
    unfold plus, with_mode, with_text. asimp. by rewrite <- Hm.
Qed.

Lemma goes_lines lines : forall d, d_mode d = MText -> Forall plain lines ->
  goes d (str_concat (map line_bytes lines)) (plus d (cat chunk_text lines) (cat chunk_reason lines)).
Proof.
  induction lines as [|l ls IH]; intros d Hm Hp.
  { split; [|done]. unfold plus. rewrite !str_app_nil_r. by destruct d. }
  apply Forall_cons in Hp as [Hl Hp]. cbn [map]. change (str_concat (?a :: ?b)) with (a +:+ str_concat b).
  eapply goes_trans; [by apply goes_line|].
  destruct (IH (plus d (default "" (chunk_text l)) (default "" (chunk_reason l)))) as [E C]; [done|done|].
  split; [|done]. rewrite E. unfold plus, cat. asimp. cbn [map].
  change (str_concat (?a :: ?b)) with (a +:+ str_concat b). by rewrite !str_app_assoc.
Qed.

Lemma goes_tools js v d : d_mode d = MText -> has_char AIRY_LLM_STREAM_RS js = false ->
  has_char "000" js = false -> strlen js < AIRY_LLM_STREAM_FRAME_MAX ->
  cJSON_Parse js = Some v -> is_Some (cJSON_items v) -> js <> ""%string ->
  goes d (frame_bytes AIRY_LLM_STREAM_TAG_TOOL js)
    (mkDec (d_text d) (d_reason d) (Some v) (d_tokens d) (d_cost d) (d_error d) MText).
Proof.
  intros Hm Hr Hn Hl Hp [items Hi] Hne. destruct tag_ok as [Htag _].
  destruct (goes_frame AIRY_LLM_STREAM_TAG_TOOL js d) as [E C]; try done; [apply tool_no_error|].
  split; [|done]. rewrite E. rewrite (proj2 (strcmp_eq_false js "") Hne). unfold take_frame. rewrite Ascii.eqb_refl.
  unfold run_take_tools. change (bytes (frame (concrete ?x js))) with js. unfold c_str.
  rewrite (cut_at_none _ _ Hn). cbn [fst]. rewrite Hp, Hi. by destruct d as [? ? ? ? ? [? ?] ?].
Qed.
End round.

Section sender.
  Context `{Cjson} `{StreamProto} {W : Type} (f : string -> W -> W) (out : W -> string).

(** A callback that puts its text on the wire. *)
Definition sends : Prop := forall t w, out (f t w) = out w +:+ t.

Lemma emit_frame_out tag body w : sends -> out (emit_frame f tag body w) = out w +:+ frame_bytes tag body.
Proof. intros Hs. unfold emit_frame, frame_bytes. by rewrite !Hs, !str_app_assoc. Qed.

Lemma chunk_emit_out line w : sends -> out (chunk_emit (Some f) line w) = out w +:+ line_bytes line.
Proof.
  intros Hs. unfold chunk_emit, line_bytes, provider_emit_reasoning_frame, nonempty.
  assert (Hx : out (match chunk_text line with Some t => f t w | None => w end) = out w +:+ default "" (chunk_text line)).
  { destruct (chunk_text line); [apply Hs|]. by rewrite str_app_nil_r. }
  destruct (chunk_reason line) as [r|]; cbn [from_option id];
    [destruct (strcmp_eq r "")|change (strcmp_eq "" "") with true; cbv iota].
  all: rewrite ?emit_frame_out, Hx by done; rewrite ?str_app_assoc, ?str_app_nil_r; done.
Qed.

Lemma chunks_out lines : sends -> forall w,
  out (fold_left (fun w l => chunk_emit (Some f) l w) lines w) = out w +:+ str_concat (map line_bytes lines).
Proof.
  intros Hs. induction lines as [|l ls IH]; intros w; cbn [fold_left map]; [by rewrite str_app_nil_r|].
  change (str_concat (?a :: ?b)) with (a +:+ str_concat b). by rewrite IH, chunk_emit_out, str_app_assoc.
Qed.
End sender.

(** A text that may be the body of a tool frame, with its value. *)
Definition tool_body `{Cjson} `{StreamProto} (js : string) : Prop :=
  has_char AIRY_LLM_STREAM_RS js = false /\ has_char "000" js = false /\
  strlen js < AIRY_LLM_STREAM_FRAME_MAX /\ js <> ""%string /\
  exists v, cJSON_Parse js = Some v /\ is_Some (cJSON_items v).

(** C24.  From the provider's payloads to the result in agent_d, across the two
    daemons.  llm_d runs its stream accumulator over the payloads of a provider
    with a callback that puts its text on the wire, then flushes the collected
    tool calls; the wire is cut into payloads in any way and read by agent_d.
    With allocations succeeding, provided that the texts of the provider contain
    no RS, that each reasoning fragment fits a frame and that the printed tool
    calls are a JSON array that fits one: agent_d's text is the concatenation of
    the text deltas, its reasoning that of the reasoning deltas, its tool calls
    are those llm_d printed, and no error is reported. *)
Theorem stream_roundtrip `{Cjson} `{StreamProto} `{TagTest} `{!TagsOk} {W1 W2} `{AllocOk W1} `{AllocOk W2}
    (norm : string -> string) (f : string -> W1 -> W1) (out : W1 -> string) (on_text : option (string -> W2 -> W2))
    (lines : list string) (w : W1) :
  sends f out -> out w = ""%string -> Forall plain lines ->
  exists a w1,
    chunks_run norm (Some f) lines (provider_stream_acc_init w).1 w = Some (a, w1) /\
    let js := cJSON_PrintUnformatted (JArr (map tool_tree (tools a))) in
    ((tools a = [] -> False) -> tool_body js) ->
    forall payloads v,
      str_concat payloads = out (provider_tool_flush (tools a) None (Some f) true w1).2 ->
      exists r v',
        read_stream on_text payloads v = (r, v') /\
        ar_text r = Some (cat chunk_text lines) /\ default "" (ar_reason r) = cat chunk_reason lines /\
        ar_tools r = match tools a with [] => None | _ => cJSON_Parse js end /\ ar_error_code r = 0.
Proof.
  intros Hs Ho Hp. destruct (chunks_run_ok norm (Some f) lines (provider_stream_acc_init w).1 w) as (a & E & _).
  { unfold provider_stream_acc_init. rewrite malloc_ok. by split. }
  eexists a, _. split; [exact E|]. intros js Hjs payloads v Hpl.
  destruct (goes_lines lines dec_init eq_refl Hp) as [D1 C1].
  assert (exists d, goes dec_init (str_concat payloads) d /\ d_mode d = MText /\ d_text d = cat chunk_text lines /\
    d_reason d = cat chunk_reason lines /\ d_tools d = match tools a with [] => None | _ => cJSON_Parse js end /\
    d_error d = (0, ""%string)) as (d & G & Hm & Ht & Hr & Htl & He).
  { rewrite Hpl. unfold provider_tool_flush, provider_tool_json. destruct (tools a) as [|s0 ts] eqn:Et.
    - cbn [snd]. rewrite (chunks_out f out lines Hs), Ho. eexists. split; [by split|]. by split_and!.
    - fold js. cbn [snd provider_emit_tool_frame]. rewrite (emit_frame_out f out _ _ _ Hs), (chunks_out f out lines Hs), Ho.
      destruct Hjs as (Hj1 & Hj2 & Hj3 & Hj4 & vj & Hj5 & Hj6); [done|].
      eexists. split; [eapply goes_trans; [by split|by apply (goes_tools js vj)]|]. by split_and!. }
  destruct G as [Gd Gc]. destruct (always_calm _ _ Gc) as [Gs Gn].
  destruct (feed_all_ran on_text payloads agent_stream_init v) as (RA & RW & _); [by split|done|].
  unfold read_stream. destruct (feed_all on_text agent_stream_init payloads v) as [s1 w1]. cbn [fst snd] in *.
  destruct (finish_ok on_text s1 w1 RW) as (FC & _).
  destruct (agent_stream_finish on_text s1 w1) as [s2 w2]. cbn [fst snd] in *.
  change (abs agent_stream_init) with dec_init in RA. rewrite Gd in RA. rewrite RA in FC.
  unfold decode_end in FC. rewrite Hm in FC.
  assert (Hx : content s2 MText = d) by done. rewrite <- Hx in *. cbn [content d_text d_reason d_tools d_error] in *.
  injection He as He1 He2.
  unfold agent_stream_take. unfold bytes in Ht. destruct (text s2) as [b|] eqn:Etx; [|rewrite malloc_ok].
  all: eexists _, _; split; [done|]; cbn [ar_text ar_reason ar_tools ar_error_code]; split; [rewrite <- Ht; done|].
  all: split; [rewrite <- Hr; by destruct (reason s2)|]; by split.
Qed.

(** ** Concrete streams *)

#[local] Existing Instance toy_proto.

#[local] Instance toy_tags : TagTest := fun t => has_char t "TRUE".

#[local] Instance toy_tags_ok : TagsOk.
Proof.
  split; try reflexivity; apply (bool_decide_eq_true_1 _); vm_compute; reflexivity.
Qed.

Definition RS1 : string := str1 "030".

Definition toy_slot : provider_tool_slot_t := mkSlot 0 "x" "ls" (Some "{}"%string) 256.

Definition toy_calls : string := jtree_text (JArr [tool_tree toy_slot]).

#[local] Instance toy_lib2 : Cjson :=
  toy_cjson ((toy_calls, VArr [VStr "call"]) :: ("[]"%string, VArr []) :: toy_docs).

Definition cuts : list string := ["Hel"; "lo" +:+ RS1; "Rwh"; "y" +:+ RS1 +:+ "!"].

Lemma stream_refines_decoder_witness :
  always single_rs dec_init (str_concat cuts) = true /\
  exists r w',
    read_stream (Some got) cuts (mkSt [] []) = (r, w') /\
    ar_text r = Some "Hello!"%string /\ default "" (ar_reason r) = "why"%string /\ ar_tools r = None /\
    (ar_error_code r, ar_error_msg r) = (0, ""%string) /\
    exists incs, w' = fold_left (fun w t => got t w) incs (mkSt [] []) /\ str_concat incs = "Hello!"%string.
Proof.
  assert (Hc : always single_rs dec_init (str_concat cuts) = true) by (vm_compute; reflexivity).
  split; [exact Hc|].
  destruct (stream_refines_decoder (Some got) cuts (mkSt [] []) Hc) as (r & w' & E & Ht & Hr & Htl & _ & _ & He & Hi).
  exists r, w'. rewrite Ht, Hr, Htl, He. split; [exact E|].
  split; [vm_compute; reflexivity|]. split; [vm_compute; reflexivity|]. split; [vm_compute; reflexivity|].
  split; [vm_compute; reflexivity|]. destruct Hi as (incs & Hw & Hs); [vm_compute; reflexivity|].
  exists incs. rewrite Hs. split; [exact Hw|vm_compute; reflexivity].
Defined.

Lemma got_sends : sends got (fun w => str_concat (st_got w)).
Proof. intros t w. cbn [got st_got]. apply str_concat_snoc. Qed.

(** The wire of the three payloads of file ToolStream, cut in the middle of the
    tool frame. *)
Definition wire : list string :=
  ["Hello" +:+ RS1; "Rwhy" +:+ RS1 +:+ RS1 +:+ "T" +:+ String.substring 0 10 toy_calls;
   String.substring 10 200 toy_calls +:+ RS1].

Lemma stream_roundtrip_witness : exists r v',
  read_stream (Some got) wire (mkSt [] []) = (r, v') /\
  ar_text r = Some "Hello"%string /\ default "" (ar_reason r) = "why"%string /\
  ar_tools r = Some (VArr [VStr "call"]) /\ ar_error_code r = 0.
Proof.
  destruct (stream_roundtrip (W2 := sse_toy) (fun s => s) got (fun w => str_concat (st_got w)) (Some got)
    ["a"; "b"; "c"]%string (mkSt [] []) got_sends eq_refl) as (a & w1 & E & R).
  { repeat (constructor; [split_and!; vm_compute; reflexivity|]). constructor. }
  vm_compute in E. injection E as <- <-. apply R; [|vm_compute; reflexivity].
  intros _. split_and!; try (vm_compute; (reflexivity || discriminate)). eexists. split; vm_compute; [reflexivity|by eexists].
Defined.

(** *** Where the cut matters *)

(** Two RS and a tool frame's tag: in one payload both RS are text and the tag
    is text, cut behind the first RS the second one opens a frame. *)
Lemma double_rs_depends_on_cut :
  ar_tools (read_stream (Some got) [RS1 +:+ RS1 +:+ "T[]" +:+ RS1] (mkSt [] [])).1 = None /\
  ar_tools (read_stream (Some got) [RS1; RS1 +:+ "T[]" +:+ RS1] (mkSt [] [])).1 = Some (VArr []).
Proof. split; vm_compute; reflexivity. Qed.

(** A text delta that contains the bytes of a tool frame is read as tool calls:
    llm_d passes the text of the model on as it is. *)
Lemma text_forges_tools :
  let forged := RS1 +:+ "T[]" +:+ RS1 in
  let '(r, _) := read_stream (Some got) ["Hi " +:+ forged +:+ "!"] (mkSt [] []) in
  ar_text r = Some "Hi !"%string /\ ar_tools r = Some (VArr []).
Proof. vm_compute. by split. Qed.

(** Four continuation bytes: four bytes are held back. *)
Lemma utf8_tail_four :
  run_utf8_tail (String "128" (String "128" (String "128" (String "128" EmptyString)))) = 4%nat.
Proof. vm_compute. reflexivity. Qed.
