(* ===== verification/Agents.v ===== *)
(** * Agents

    The agent registry of sched_d and the choice of an agent for a task
    (sched_d/src/service/sched_service_agent.c): registration with refresh,
    removal, four scoring strategies, the selection loop, statistics and the
    health verdict.  Scores are binary32 numbers.

    The delegation framework that is told about every agent belongs to the
    commons library and is a class of operations on a world. *)

From Stdlib Require Import SpecFloat.
From stdpp Require Import gmap.
From S2P Require Import Prelude Doubles MemEnv.

(** ** Numbers of type float *)

Notation float := spec_float.

Definition fsub : float -> float -> float := SFsub 24 128.
Definition fmul : float -> float -> float := SFmul 24 128.
Definition fdiv : float -> float -> float := SFdiv 24 128.
Definition f_of_Z (n : Z) : float := binary_normalize 24 128 n 0 false.
Definition f_lit (n d : Z) : float := fdiv (f_of_Z n) (f_of_Z d).
Definition fgt (x y : float) : bool := dlt y x.

(** ** Data *)

Inductive sched_strategy_t :=
| SCHED_STRATEGY_ROUND_ROBIN
| SCHED_STRATEGY_WEIGHTED
| SCHED_STRATEGY_ML_BASED
| SCHED_STRATEGY_PRIORITY_BASED
| SCHED_STRATEGY_COUNT.

#[export] Instance strategy_eq : EqDecision sched_strategy_t.
Proof. solve_decision. Defined.

(** Task priorities: LOW, NORMAL, HIGH, URGENT. *)
Definition TASK_PRIORITY_NORMAL : Z := 1.
Definition TASK_PRIORITY_HIGH : Z := 2.
Definition TASK_PRIORITY_URGENT : Z := 3.

Record agent_info_t := mkAgent {
  agent_id : string;
  agent_name : string;
  load_factor : float;
  success_rate : float;
  avg_response_time_ms : Z;
  is_available : bool;
  weight : float
}.

(** What a caller passes to [sched_service_register_agent]. *)
Record agent_arg := mkAgentArg {
  arg_id : option string;
  arg_name : option string;
  arg_load : float;
  arg_success : float;
  arg_response : Z;
  arg_available : bool;
  arg_weight : float
}.

Record mac_agent_info_t := mkMac {
  mac_id : string;
  mac_name : string;
  performance_score : float;
  reliability_score : float;
  max_concurrent_tasks : Z;
  mac_available : bool
}.

Record sched_result_t := mkResult {
  selected_agent_id : option string;
  confidence : float;
  estimated_time_ms : Z
}.

(** The part of [struct sched_service] that the registry uses. *)
Record registry := mkReg {
  strategy : sched_strategy_t;
  agents : list agent_info_t;
  total_tasks_scheduled : Z;
  total_success : Z;
  reg_mac : bool;
  reg_max_parallel : Z
}.

Definition set_agents (l : list agent_info_t) (r : registry) : registry :=
  mkReg (strategy r) l (total_tasks_scheduled r) (total_success r) (reg_mac r) (reg_max_parallel r).

Class MacOS (W : Type) := {
  mac_mem :: MemOS W;
  mac_framework_unregister_agent : string -> W -> W;
  mac_framework_register_agent : mac_agent_info_t -> W -> W
}.

Section registry.
  Context {W : Type} `{MacOS W} `{AiryString}.
  (** Capacity of the table and sizes of two arrays of the delegation framework. *)
  Context (AIRY_CAP_MAX_AGENTS MAC_ID MAC_NAME : nat).

Definition sched_mac_sync_agent (r : registry) (a : agent_info_t) (w : W) : W :=
    if negb (reg_mac r) then w
    else
      let ma := mkMac (String.substring 0 (MAC_ID - 1) (AIRY_STRNCPY_TERM MAC_ID (agent_id a)))
                  (String.substring 0 (MAC_NAME - 1) (AIRY_STRNCPY_TERM MAC_NAME (agent_name a))) (weight a) (success_rate a)
                  (s32 (reg_max_parallel r)) (is_available a) in
      mac_framework_register_agent ma (mac_framework_unregister_agent (mac_id ma) w).

Definition refreshed (a : agent_info_t) (i : agent_arg) : agent_info_t :=
    mkAgent (agent_id a) (agent_name a) (arg_load i) (arg_success i) (arg_response i) (arg_available i) (arg_weight i).

(** The agent found and refreshed with the new list; the outer [None] is a
    comparison with a null pointer. *)
Fixpoint refresh_in (l : list agent_info_t) (i : agent_arg) : option (option (agent_info_t * list agent_info_t)) :=
    match l with
    | [] => Some None
    | a :: l' =>
        match arg_id i with
        | None => None
        | Some id =>
            if strcmp_eq (agent_id a) id then let a' := refreshed a i in Some (Some (a', a' :: l'))
            else match refresh_in l' i with
                 | None => None
                 | Some None => Some None
                 | Some (Some (a', l'')) => Some (Some (a', a :: l''))
                 end
        end
    end.

Definition sched_refresh (r : registry) (i : agent_arg) (w : W) : option (bool * registry * W) :=
    match refresh_in (agents r) i with
    | None => None
    | Some None => Some (false, r, w)
    | Some (Some (a, l)) => let r := set_agents l r in Some (true, r, sched_mac_sync_agent r a w)
    end.

Definition sched_service_register_agent (r : registry) (info : option agent_arg) (w : W)
      : option (airy_rc * registry * W) :=
    match info with
    | None => Some (AIRY_ERR_INVALID_PARAM, r, w)
    | Some i =>
        if (AIRY_CAP_MAX_AGENTS <=? length (agents r))%nat then Some (AIRY_ERR_OVERFLOW, r, w)
        else
          match sched_refresh r i w with
          | None => None
          | Some (true, r, w) => Some (AIRY_SUCCESS, r, w)
          | Some (false, r, w) =>
              let '(ok, w) := os_alloc w in
              if negb ok then Some (AIRY_ERR_OUT_OF_MEMORY, r, w)
              else
                match arg_id i with
                | None => Some (AIRY_ERR_INVALID_PARAM, r, w)
                | Some id =>
                    let '(id', w) := AIRY_STRDUP id w in
                    let '(name', w) := AIRY_STRDUP (default ""%string (arg_name i)) w in
                    match id', name' with
                    | Some id', Some name' =>
                        let a := mkAgent id' name' (arg_load i) (arg_success i) (arg_response i) (arg_available i)
                                   (arg_weight i) in
                        let r := set_agents (agents r ++ [a]) r in
                        Some (AIRY_SUCCESS, r, sched_mac_sync_agent r a w)
                    | _, _ => Some (AIRY_ERR_OUT_OF_MEMORY, r, w)
                    end
                end
          end
    end.

Fixpoint remove_agent (id : string) (l : list agent_info_t) : option (list agent_info_t) :=
    match l with
    | [] => None
    | a :: l' => if strcmp_eq (agent_id a) id then Some l' else cons a <$> remove_agent id l'
    end.

Definition sched_service_unregister_agent (r : registry) (id : option string) (w : W) : airy_rc * registry * W :=
    match id with
    | None => (AIRY_ERR_INVALID_PARAM, r, w)
    | Some id =>
        match remove_agent id (agents r) with
        | Some l => (AIRY_SUCCESS, set_agents l r, if reg_mac r then mac_framework_unregister_agent id w else w)
        | None => (AIRY_ERR_NOT_FOUND, r, w)
        end
    end.

(** ** Scores *)

Definition f_one : float := f_of_Z 1.

Definition sched_score_weighted (r : registry) (prio : Z) (a : agent_info_t) (i : nat) : float :=
    fmul (fmul (weight a) (success_rate a)) (fsub f_one (load_factor a)).

Definition sched_score_rr (r : registry) (prio : Z) (a : agent_info_t) (i : nat) : float :=
    if (length (agents r) =? 0)%nat then d_zero
    else if total_tasks_scheduled r mod Z.of_nat (length (agents r)) =? Z.of_nat i then f_of_Z 100 else d_zero.

Definition sched_score_ml_based (r : registry) (prio : Z) (a : agent_info_t) (i : nat) : float :=
    fmul (success_rate a) (fsub f_one (load_factor a)).

Definition priority_factor (prio : Z) : float :=
    if TASK_PRIORITY_URGENT <=? prio then f_of_Z 4
    else if TASK_PRIORITY_HIGH <=? prio then f_of_Z 2
    else if TASK_PRIORITY_NORMAL <=? prio then f_lit 3 2 else f_one.

Definition sched_score_priority (r : registry) (prio : Z) (a : agent_info_t) (i : nat) : float :=
    fmul (fmul (fmul (weight a) (success_rate a)) (fsub f_one (load_factor a))) (priority_factor prio).

Definition sched_score_default (r : registry) (prio : Z) (a : agent_info_t) (i : nat) : float := weight a.

Definition sched_score_fn := registry -> Z -> agent_info_t -> nat -> float.

Definition SCHED_STRATEGY_TABLE : list (sched_strategy_t * sched_score_fn) :=
    [(SCHED_STRATEGY_WEIGHTED, sched_score_weighted); (SCHED_STRATEGY_ROUND_ROBIN, sched_score_rr);
     (SCHED_STRATEGY_ML_BASED, sched_score_ml_based); (SCHED_STRATEGY_PRIORITY_BASED, sched_score_priority)].

Definition sched_strategy_score (s : sched_strategy_t) : sched_score_fn :=
    match find (fun e => bool_decide (e.1 = s)) SCHED_STRATEGY_TABLE with
    | Some e => e.2
    | None => sched_score_default
    end.

(** ** The choice *)

Definition f_minus_one : float := f_of_Z (-1).

(** The loop over the agents: the best one so far and its score. *)
Fixpoint pick (score : agent_info_t -> nat -> float) (i : nat) (l : list agent_info_t)
      (best : option agent_info_t * float) : option agent_info_t * float :=
    match l with
    | [] => best
    | a :: l' =>
        let best := if negb (is_available a) then best
                    else let s := score a i in if fgt s best.2 then (Some a, s) else best in
        pick score (S i) l' best
    end.

Definition best_agent (r : registry) (prio : Z) : option agent_info_t * float :=
    pick (sched_strategy_score (strategy r) r prio) 0 (agents r) (None, f_minus_one).

Definition confidence_of (score : float) : float :=
    if fgt score d_zero then (if fgt score f_one then f_one else score) else f_lit 1 2.

Definition sched_service_schedule_task (r : registry) (prio : Z) (w : W)
      : airy_rc * option sched_result_t * registry * W :=
    let '(ok, w) := os_alloc w in
    if negb ok then (AIRY_ERR_OUT_OF_MEMORY, None, r, w)
    else
      let '(best, score) := best_agent r prio in
      let n := u64 (total_tasks_scheduled r + 1) in
      match best with
      | Some a =>
          let '(id, w) := AIRY_STRDUP (agent_id a) w in
          (AIRY_SUCCESS, Some (mkResult id (confidence_of score) (avg_response_time_ms a)),
           mkReg (strategy r) (agents r) n (u64 (total_success r + 1)) (reg_mac r) (reg_max_parallel r), w)
      | None =>
          (AIRY_SUCCESS, Some (mkResult None d_zero 0),
           mkReg (strategy r) (agents r) n (total_success r) (reg_mac r) (reg_max_parallel r), w)
      end.

Definition sched_service_health_check (r : registry) : bool :=
    forallb (fun a => negb (fgt (load_factor a) (f_lit 95 100))) (agents r).
End registry.

(** ** The choice is the best *)

(** [a], at position [j], is the first of the best agents that are available and
    beat the score [s0]. *)
Definition first_best (score : agent_info_t -> nat -> float) (i : nat) (l : list agent_info_t) (s0 : float)
    (j : nat) (a : agent_info_t) : Prop :=
  l !! j = Some a /\ is_available a = true /\ fgt (score a (i + j)%nat) s0 = true /\
  (forall k c, l !! k = Some c -> is_available c = true -> fgt (score c (i + k)%nat) (score a (i + j)%nat) = false) /\
  (forall k c, (k < j)%nat -> l !! k = Some c -> is_available c = true -> is_nan (score c (i + k)%nat) = false ->
     fgt (score a (i + j)%nat) (score c (i + k)%nat) = true).

Definition none_better (score : agent_info_t -> nat -> float) (i : nat) (l : list agent_info_t) (s0 : float) : Prop :=
  forall k c, l !! k = Some c -> is_available c = true -> fgt (score c (i + k)%nat) s0 = false.

(** Two scores that a third separates. *)
Lemma fgt_below x y z : fgt x z = true -> fgt y z = false -> is_nan y = false -> fgt x y = true.
Proof.
  unfold fgt. intros H1 H2 Hy. destruct (dlt_cotrans z y x Hy H1) as [E|E]; [by rewrite E in H2|done].
Qed.

Lemma fgt_false_trans x y z : fgt z y = false -> fgt x y = true -> fgt z x = false.
Proof.
  unfold fgt. intros H1 H2. destruct (dlt x z) eqn:E; [|done]. by rewrite (dlt_trans _ _ _ H2 E) in H1.
Qed.

Lemma none_better_cons score i a l s0 :
  (is_available a = true -> fgt (score a i) s0 = false) -> none_better score (S i) l s0 -> none_better score i (a :: l) s0.
Proof.
  intros Ha Hl [|k] c Hc Hav; cbn in Hc; simplify_eq; [rewrite Nat.add_0_r; auto|].
  rewrite Nat.add_succ_r. by apply (Hl k).
Qed.

Lemma first_best_head score i a l s0 :
  is_available a = true -> fgt (score a i) s0 = true -> none_better score (S i) l (score a i) ->
  first_best score i (a :: l) s0 0 a.
Proof.
  intros Ha Hg Hl. unfold first_best. rewrite Nat.add_0_r. split_and!; [done..| |intros k c Hk; lia].
  apply none_better_cons; [|done]. intros _. apply dlt_irrefl.
Qed.

Lemma first_best_tail score i a l s0 s1 j c :
  first_best score (S i) l s1 j c -> fgt (score c (S i + j)%nat) s0 = true ->
  (is_available a = true -> fgt (score a i) (score c (S i + j)%nat) = false /\
     (is_nan (score a i) = false -> fgt (score c (S i + j)%nat) (score a i) = true)) ->
  first_best score i (a :: l) s0 (S j) c.
Proof.
  intros (H1 & H2 & _ & H4 & H5) Hg Ha. unfold first_best. rewrite (Nat.add_succ_r i j). split_and!; [done..| |].
  - apply none_better_cons; [|exact H4]. intros Hav. exact (proj1 (Ha Hav)).
  - intros [|k] c' Hk Hc Hav Hnan; cbn in Hc; simplify_eq; [rewrite Nat.add_0_r in *; by apply Ha|].
    rewrite (Nat.add_succ_r i k) in *. apply (H5 k); (done || lia).
Qed.

Lemma pick_spec score l : forall i b s0,
  let '(b', s') := pick score i l (b, s0) in
  (b' = b /\ s' = s0 /\ none_better score i l s0) \/
  (exists j a, first_best score i l s0 j a /\ b' = Some a /\ s' = score a (i + j)%nat).
Proof.
  induction l as [|a l IH]; intros i b s0; cbn [pick]; [left; by split_and!|].
  set (best := if negb (is_available a) then _ else _).
  assert (Hb : best = (Some a, score a i) /\ is_available a = true /\ fgt (score a i) s0 = true \/
               best = (b, s0) /\ (is_available a = true -> fgt (score a i) s0 = false)).
  { subst best. destruct (is_available a); cbn [negb snd]; [destruct (fgt (score a i) s0) eqn:E|]; [left|right|right]; by split_and!. }
  destruct Hb as [(-> & Ha & Hg)|(-> & Ha)].
  - specialize (IH (S i) (Some a) (score a i)). destruct (pick score (S i) l _) as [b' s']. right.
    destruct IH as [(-> & -> & Hn)|(j & c & Hf & -> & ->)].
    + exists 0%nat, a. rewrite Nat.add_0_r. split_and!; [by apply first_best_head|done..].
    + exists (S j), c. rewrite Nat.add_succ_r. split_and!; [|done..]. pose proof Hf as (_ & _ & Hgc & _).
      apply (first_best_tail _ _ _ _ _ _ _ _ Hf); [by apply (dlt_trans _ _ _ Hg)|]. intros _. split; [by apply dlt_asym|done].
  - specialize (IH (S i) b s0). destruct (pick score (S i) l _) as [b' s'].
    destruct IH as [(-> & -> & Hn)|(j & c & Hf & -> & ->)]; [left|right].
    + split_and!; [done..|]. by apply none_better_cons.
    + exists (S j), c. rewrite Nat.add_succ_r. split_and!; [|done..]. pose proof Hf as (_ & _ & Hgc & _).
      apply (first_best_tail _ _ _ _ _ _ _ _ Hf Hgc). intros Hav. specialize (Ha Hav).
      split; [by apply (fgt_false_trans _ s0)|]. intros Hn. by apply (fgt_below _ _ s0).
Qed.

(** The task goes to the first of the available agents with the best score, and
    to none only when no available agent scores above -1; the counters and the
    table are otherwise untouched. *)
Theorem schedule_exact {W} `{MacOS W} (r : registry) (prio : Z) (w : W) :
  let score := sched_strategy_score (strategy r) r prio in
  let '(rc, res, r', _) := sched_service_schedule_task r prio w in
  agents r' = agents r /\
  match rc with
  | AIRY_SUCCESS =>
      (exists j a id, first_best score 0 (agents r) f_minus_one j a /\ (id = None \/ id = Some (agent_id a)) /\
         res = Some (mkResult id (confidence_of (score a j)) (avg_response_time_ms a))) \/
      (none_better score 0 (agents r) f_minus_one /\ res = Some (mkResult None d_zero 0))
  | _ => rc = AIRY_ERR_OUT_OF_MEMORY /\ res = None /\ r' = r
  end.
Proof.
  intros score. unfold sched_service_schedule_task. destruct (os_alloc w) as [[] w1]; cbn [negb]; [|done].
  unfold best_agent. fold score. pose proof (pick_spec score (agents r) 0 None f_minus_one) as Hp.
  destruct (pick score 0 (agents r) (None, f_minus_one)) as [b s]. destruct Hp as [(-> & -> & Hn)|(j & a & Hf & -> & ->)].
  - split; [done|]. by right.
  - unfold AIRY_STRDUP. destruct (os_alloc w1) as [ok w2]. split; [done|]. left. exists j, a, (if ok then Some (agent_id a) else None).
    split_and!; [done| |done]. destruct ok; auto.
Qed.

(** ** Round robin *)

Definition slot (r : registry) : nat := Z.to_nat (total_tasks_scheduled r mod Z.of_nat (length (agents r))).

Lemma slot_lt r : agents r <> [] -> (slot r < length (agents r))%nat.
Proof.
  intros Hne. unfold slot. destruct (agents r) as [|a l]; [done|]. set (n := length (a :: l)).
  assert (Hn : 0 < Z.of_nat n) by (subst n; cbn; lia). pose proof (Z.mod_pos_bound (total_tasks_scheduled r) _ Hn). lia.
Qed.

Lemma score_rr r prio a i :
  agents r <> [] -> sched_score_rr r prio a i = if (i =? slot r)%nat then f_of_Z 100 else d_zero.
Proof.
  intros Hne. unfold sched_score_rr, slot. destruct (agents r) as [|x l]; [done|]. set (n := length (x :: l)).
  assert (Hn : 0 < Z.of_nat n) by (subst n; cbn; lia). pose proof (Z.mod_pos_bound (total_tasks_scheduled r) _ Hn).
  replace (n =? 0)%nat with false by (subst n; done).
  destruct (Z.eqb_spec (total_tasks_scheduled r mod Z.of_nat n) (Z.of_nat i)) as [E|E];
    destruct (Nat.eqb_spec i (Z.to_nat (total_tasks_scheduled r mod Z.of_nat n))); done || lia.
Qed.

(** The strategy as it runs: the agent of the slot when it is available,
    otherwise the first agent that is. *)
Theorem rr_choice (r : registry) (prio : Z) (a : agent_info_t) :
  strategy r = SCHED_STRATEGY_ROUND_ROBIN -> agents r !! slot r = Some a ->
  (is_available a = true -> (best_agent r prio).1 = Some a) /\
  (is_available a = false -> (best_agent r prio).1 = find is_available (agents r)).
Proof.
  intros Hs Ha. assert (Hne : agents r <> []) by (intros E; by rewrite E in Ha).
  unfold best_agent. rewrite Hs. change (sched_strategy_score SCHED_STRATEGY_ROUND_ROBIN) with sched_score_rr.
  pose proof (pick_spec (sched_score_rr r prio) (agents r) 0 None f_minus_one) as Hp.
  destruct (pick _ 0 (agents r) _) as [b s]. cbn [fst]. split; intros Hav.
  - destruct Hp as [(-> & _ & Hn)|(j & c & (Hj & _ & _ & Hmax & _) & -> & _)].
    + specialize (Hn _ _ Ha Hav). cbn in Hn. by rewrite score_rr, Nat.eqb_refl in Hn.
    + specialize (Hmax _ _ Ha Hav). cbn in Hmax. rewrite !score_rr, Nat.eqb_refl in Hmax by done.
      destruct (Nat.eqb_spec j (slot r)) as [->|Hne2]; [by simplify_eq|by vm_compute in Hmax].
  - destruct Hp as [(-> & _ & Hn)|(j & c & (Hj & Hjav & _ & _ & Hfirst) & -> & _)].
    + symmetry. destruct (find is_available (agents r)) as [c|] eqn:Ef; [|done]. exfalso.
      apply find_some in Ef as [Hin Hc]. apply list_elem_of_In, list_elem_of_lookup in Hin as [k Hk].
      specialize (Hn _ _ Hk Hc). cbn in Hn. rewrite score_rr in Hn by done. destruct (k =? slot r)%nat; by vm_compute in Hn.
    + symmetry. assert (Hkl : forall k c', (k < j)%nat -> agents r !! k = Some c' -> is_available c' = false).
      { intros k c' Hk Hc. destruct (is_available c') eqn:Ec; [|done]. exfalso.
        assert (Hks : (k =? slot r)%nat = false) by (apply Nat.eqb_neq; intros ->; congruence).
        assert (Hjs : (j =? slot r)%nat = false) by (apply Nat.eqb_neq; intros ->; congruence).
        specialize (Hfirst k c' Hk Hc Ec). cbn in Hfirst. rewrite !score_rr, Hks, Hjs in Hfirst by done.
        by specialize (Hfirst eq_refl). }
      clear -Hj Hjav Hkl. revert j Hj Hkl. induction (agents r) as [|x l IH]; intros [|j] Hj Hkl; cbn in *; simplify_eq.
      * by rewrite Hjav.
      * rewrite (Hkl 0%nat x) by (done || lia). apply (IH j Hj). intros k c' Hk Hc. apply (Hkl (S k)); (done || lia).
Qed.

(** ** The registry *)

(** What a table means: the agents by name. *)
Definition by_name (l : list agent_info_t) : gmap string agent_info_t := list_to_map ((fun a => (agent_id a, a)) <$> l).

Lemma by_name_cons a l : by_name (a :: l) = <[agent_id a := a]> (by_name l).
Proof. done. Qed.

Lemma by_name_fst l : ((fun a => (agent_id a, a)) <$> l).*1 = (agent_id <$> l).
Proof. by induction l as [|a l IH]; cbn; f_equal. Qed.

Lemma by_name_none l id : id ∉ (agent_id <$> l) -> by_name l !! id = None.
Proof. intros Hi. apply not_elem_of_list_to_map_1. by rewrite by_name_fst. Qed.

Lemma by_name_none_inv l id : by_name l !! id = None -> id ∉ (agent_id <$> l).
Proof. intros E. rewrite <- by_name_fst. by apply not_elem_of_list_to_map_2. Qed.

Lemma by_name_snoc l a : agent_id a ∉ (agent_id <$> l) -> by_name (l ++ [a]) = <[agent_id a := a]> (by_name l).
Proof.
  induction l as [|x l IH]; intros Hi; [done|]. cbn in Hi. apply not_elem_of_cons in Hi as [Hne Hi].
  change ((x :: l) ++ [a]) with (x :: (l ++ [a])). rewrite !by_name_cons, IH by done. by rewrite insert_insert_ne.
Qed.

Lemma refresh_in_spec i id l :
  arg_id i = Some id -> NoDup (agent_id <$> l) ->
  match by_name l !! id with
  | Some a => exists l', refresh_in l i = Some (Some (refreshed a i, l')) /\ (agent_id <$> l') = (agent_id <$> l) /\
                agent_id a = id /\ by_name l' = <[id := refreshed a i]> (by_name l)
  | None => refresh_in l i = Some None
  end.
Proof.
  intros Hid. induction l as [|x l IH]; intros Hnd; cbn [refresh_in]; [done|]. cbn in Hnd. apply NoDup_cons in Hnd as [Hni Hnd].
  specialize (IH Hnd). rewrite Hid, by_name_cons. unfold strcmp_eq. destruct (String.eqb_spec (agent_id x) id) as [<-|Hne].
  - rewrite lookup_insert_eq. eexists. split_and!; [done|done|done|].
    rewrite by_name_cons. change (agent_id (refreshed x i)) with (agent_id x). by rewrite insert_insert_eq.
  - rewrite lookup_insert_ne by done. destruct (by_name l !! id) as [a|]; [|by rewrite IH].
    destruct IH as (l' & -> & Hids & Ha & Hm). eexists. split_and!; [done|cbn; by rewrite Hids|done|].
    rewrite by_name_cons, Hm. by rewrite insert_insert_ne.
Qed.

Lemma remove_agent_spec id l :
  NoDup (agent_id <$> l) ->
  match by_name l !! id with
  | Some _ => exists l', remove_agent id l = Some l' /\ NoDup (agent_id <$> l') /\ (length l' < length l)%nat /\
                (forall x, x ∈ (agent_id <$> l') -> x ∈ (agent_id <$> l)) /\ by_name l' = delete id (by_name l)
  | None => remove_agent id l = None
  end.
Proof.
  induction l as [|x l IH]; intros Hnd; cbn [remove_agent]; [done|]. cbn in Hnd. apply NoDup_cons in Hnd as [Hni Hnd].
  specialize (IH Hnd). rewrite by_name_cons. unfold strcmp_eq. destruct (String.eqb_spec (agent_id x) id) as [<-|Hne].
  - rewrite lookup_insert_eq. exists l. split_and!; [done|done|cbn; lia|intros y Hy; by right|].
    by rewrite delete_insert_eq, delete_id by (by apply by_name_none).
  - rewrite lookup_insert_ne by done. destruct (by_name l !! id) as [a|]; [|by rewrite IH].
    destruct IH as (l' & -> & Hnd' & Hlen & Hsub & Hm). exists (x :: l'). split_and!; [done| |cbn; lia| |].
    + cbn. apply NoDup_cons. split; [intros Hx; by apply Hni, Hsub|done].
    + intros y Hy. cbn in *. apply elem_of_cons in Hy as [->|Hy]; [by left|right; by apply Hsub].
    + rewrite by_name_cons, Hm. by rewrite delete_insert_ne.
Qed.

Section table.
  Context {W : Type} `{MacOS W} `{AiryString} (cap mid mname : nat).

Definition reg_ok (r : registry) : Prop := NoDup (agent_id <$> agents r) /\ (length (agents r) <= cap)%nat.

(** The agent that a registration describes; a known agent keeps its display name. *)
Definition described (old : option agent_info_t) (id : string) (i : agent_arg) : agent_info_t :=
    mkAgent id (match old with Some a => agent_name a | None => default ""%string (arg_name i) end)
      (arg_load i) (arg_success i) (arg_response i) (arg_available i) (arg_weight i).

(** The table is a bounded map from names to agents: a registration that
    succeeds stores the agent described under its name, a removal that succeeds
    deletes it, a removal fails exactly for an unknown name, and a failure leaves
    every agent as it was. *)
Theorem registry_exact (r : registry) (id : string) (i : agent_arg) (w : W) :
  reg_ok r -> arg_id i = Some id ->
  (exists rc r' w', sched_service_register_agent cap mid mname r (Some i) w = Some (rc, r', w') /\ reg_ok r' /\
     match rc with
     | AIRY_SUCCESS => by_name (agents r') = <[id := described (by_name (agents r) !! id) id i]> (by_name (agents r))
     | _ => agents r' = agents r
     end) /\
  (let '(rc, r', _) := sched_service_unregister_agent r (Some id) w in
   reg_ok r' /\ (rc = AIRY_SUCCESS <-> is_Some (by_name (agents r) !! id)) /\
   by_name (agents r') = delete id (by_name (agents r))).
Proof.
  intros [Hnd Hlen] Hid. split.
  - unfold sched_service_register_agent, sched_refresh.
    destruct (Nat.leb_spec cap (length (agents r))) as [Hfull|Hroom]; [by repeat eexists|].
    pose proof (refresh_in_spec i id (agents r) Hid Hnd) as Hr. destruct (by_name (agents r) !! id) as [a|] eqn:El.
    + destruct Hr as (l' & -> & Hids & <- & Hm). eexists _, _, _. split; [done|].
      split; [|exact Hm]. split; cbn [set_agents agents]; [by rewrite Hids|].
      rewrite <- (length_fmap agent_id), Hids, length_fmap. lia.
    + rewrite Hr. destruct (os_alloc w) as [ok1 w1]. destruct ok1; cbn [negb]; [|by repeat eexists].
      rewrite Hid. unfold AIRY_STRDUP. destruct (os_alloc w1) as [ok2 w2], (os_alloc w2) as [ok3 w3].
      destruct ok2, ok3; try (by repeat eexists). eexists _, _, _. split; [done|].
      apply by_name_none_inv in El. split; [|exact (by_name_snoc (agents r) (described None id i) El)].
      split; cbn [set_agents agents]; [|rewrite length_app; cbn [length]; lia].
      rewrite fmap_app. cbn. apply NoDup_app. split_and!; [done| |by apply NoDup_singleton].
      intros x Hx ->%list_elem_of_singleton. done.
  - unfold sched_service_unregister_agent. pose proof (remove_agent_spec id (agents r) Hnd) as Hr.
    destruct (by_name (agents r) !! id) as [a|] eqn:El.
    + destruct Hr as (l' & -> & Hnd' & Hlen' & _ & Hm). split_and!; [split; [done|cbn [set_agents agents]; lia]|done|done].
    + rewrite Hr. split_and!; [done|split; [done|intros [? ?]; done]|by rewrite delete_id].
Qed.
End table.

(** ** Divergences *)

(** With a full table an agent that is registered already cannot report its new
    load: the test for room comes first. *)
Lemma full_table_no_refresh {W} `{MacOS W} `{AiryString} cap mid mname (r : registry) (i : agent_arg) (w : W) :
  length (agents r) = cap -> sched_service_register_agent cap mid mname r (Some i) w = Some (AIRY_ERR_OVERFLOW, r, w).
Proof. intros <-. unfold sched_service_register_agent. by rewrite Nat.leb_refl. Qed.

(** A registration without a name is compared with the first agent. *)
Lemma null_name_compared {W} `{MacOS W} `{AiryString} cap mid mname (r : registry) (i : agent_arg) (w : W) :
  arg_id i = None -> (0 < length (agents r) < cap)%nat ->
  sched_service_register_agent cap mid mname r (Some i) w = None.
Proof.
  intros Hi Hl. unfold sched_service_register_agent, sched_refresh. destruct (Nat.leb_spec cap (length (agents r))); [lia|].
  destruct (agents r) as [|a l]; [cbn in Hl; lia|]. cbn [refresh_in]. by rewrite Hi.
Qed.
