(* ===== verification/TaskQueue.v ===== *)
(** * TaskQueue

    The task queue of sched_d (sched_d/src/service/sched_service_task.c and
    sched_service_worker.c): submission, cancellation, look-up, and the worker
    thread that takes the most urgent task, has an agent chosen (file Agents),
    runs it and writes the outcome back.

    A task record is allocated once and lives until the service is destroyed, so
    a pointer to one is its index in the table.  The queue is the ring of 256
    pointers of the source.  What happens under the service lock is one step of
    the system; the worker releases the lock between taking a task and writing
    it back.  The executor is the callback that the daemon installs. *)

From stdpp Require Import relations.
From S2P Require Import Prelude Doubles MemEnv RouterState Security Agents.

(** ** Data *)

Definition AIRY_CAP_MAX_TASKS : nat := 256.

Inductive task_status_t :=
| SCHED_TASK_STATUS_PENDING
| SCHED_TASK_STATUS_RUNNING
| SCHED_TASK_STATUS_COMPLETED
| SCHED_TASK_STATUS_FAILED
| SCHED_TASK_STATUS_CANCELED.

#[export] Instance task_status_eq : EqDecision task_status_t.
Proof. solve_decision. Defined.

(** [sched_task_info_t] of a caller. *)
Record task_info_t := mkInfo {
  info_id : option string;
  info_description : option string;
  info_priority : Z;
  info_timeout : Z
}.

Record task_record_t := mkTask {
  task_id : string;
  task_description : string;
  priority : Z;
  timeout_ms : Z;
  status : task_status_t;
  t_agent : option string;
  output : option string;
  error : option string;
  created_at_ms : Z;
  finished_at_ms : Z
}.

(** The part of [struct sched_service] for tasks. *)
Record task_queue := mkQ {
  tasks : list task_record_t;
  queue : list (option nat);
  queue_head : nat;
  queue_tail : nat;
  task_seq : Z
}.

(** A progress or result event for the event stream. *)
Inductive hall_event :=
| HProgress (event : string) (prio : Z)
| HResult (st : string) (agent : option string) (elapsed_ms : Z) (output_len : option Z) (err : option string).

Class TaskOS (W : Type) := {
  task_mac :: MacOS W;
  task_wall_ms : W -> Z * W;
  task_time : W -> Z * W;
  hall_evt_write : string -> hall_event -> W -> W
}.

Section tasks.
  Context {W : Type} `{TaskOS W}.

Definition C : nat := AIRY_CAP_MAX_TASKS.

Definition next (i : nat) : nat := (i + 1) mod C.

(** ** Events *)

Definition sched_hall_progress (id event : string) (prio : Z) (w : W) : W :=
    if strcmp_eq id "" then w else hall_evt_write id (HProgress event prio) w.

Definition nonempty (s : option string) : option string :=
    match s with Some x => if strcmp_eq x "" then None else Some x | None => None end.

Definition sched_hall_result (id : string) (agent : option string) (st : string) (elapsed : Z) (out err : option string)
      (w : W) : W :=
    if strcmp_eq id "" then w
    else hall_evt_write id (HResult st (nonempty agent) elapsed (strlen <$> nonempty out) (nonempty err)) w.

(** ** Requests *)

Fixpoint find_task_from (i : nat) (l : list task_record_t) (id : string) : option nat :=
    match l with
    | [] => None
    | t :: l' => if strcmp_eq (task_id t) id then Some i else find_task_from (S i) l' id
    end.

Definition find_task (s : task_queue) (id : string) : option nat := find_task_from 0 (tasks s) id.

Definition qlen (s : task_queue) : nat := (queue_tail s + C - queue_head s) mod C.

Definition id_buf (info : task_info_t) (t sq : Z) : string :=
    match nonempty (info_id info) with
    | Some id => snprintf_s 64 id
    | None => snprintf_s 64 ("task_" +:+ print_u t +:+ "_" +:+ print_u sq)
    end.

Definition new_task (id : string) (info : task_info_t) (desc : string) (now : Z) : task_record_t :=
    mkTask id desc (info_priority info) (info_timeout info) SCHED_TASK_STATUS_PENDING None None None now 0.

(** The code, [*out_task_id] and the table. *)
Definition sched_service_submit_task (s : task_queue) (info : option task_info_t) (w : W)
      : airy_rc * option string * task_queue * W :=
    match info with
    | None => (AIRY_ERR_INVALID_PARAM, None, s, w)
    | Some info =>
        let gen := match nonempty (info_id info) with Some _ => false | None => true end in
        let '(t, w) := if gen : bool then task_time w else (0, w) in
        let id := id_buf info t (task_seq s) in
        let sq := if gen : bool then u64 (task_seq s + 1) else task_seq s in
        let s := mkQ (tasks s) (queue s) (queue_head s) (queue_tail s) sq in
        match find_task s id with
        | Some _ => (AIRY_ERR_ALREADY_EXISTS, None, s, w)
        | None =>
            if (C - 1 <=? qlen s)%nat || (C <=? length (tasks s))%nat then (AIRY_ERR_OVERFLOW, None, s, w)
            else
              let '(ok, w) := os_alloc w in
              if negb ok then (AIRY_ERR_OUT_OF_MEMORY, None, s, w)
              else
                let '(id', w) := AIRY_STRDUP id w in
                let '(desc, w) := AIRY_STRDUP (default ""%string (info_description info)) w in
                match id', desc with
                | Some _, Some desc =>
                    let '(now, w) := task_wall_ms w in
                    let i := length (tasks s) in
                    let s := mkQ (tasks s ++ [new_task id info desc now]) (<[queue_tail s := Some i]> (queue s))
                               (queue_head s) (next (queue_tail s)) (task_seq s) in
                    let '(out, w) := AIRY_STRDUP id w in
                    (AIRY_SUCCESS, out, s, sched_hall_progress id "task_queued" (info_priority info) w)
                | _, _ => (AIRY_ERR_OUT_OF_MEMORY, None, s, w)
                end
        end
    end.

Definition sched_service_get_task (s : task_queue) (id : option string) : airy_rc * option task_record_t :=
    match id with
    | None => (AIRY_ERR_INVALID_PARAM, None)
    | Some id =>
        match find_task s id with
        | Some i => (AIRY_SUCCESS, tasks s !! i)
        | None => (AIRY_ERR_NOT_FOUND, None)
        end
    end.

(** The slot of a task, from [qi] on. *)
Fixpoint find_slot (fuel : nat) (q : list (option nat)) (qi tail i : nat) : option nat :=
    match fuel with
    | O => None
    | S f => if (qi =? tail)%nat then None
             else if bool_decide (q !! qi = Some (Some i)) then Some qi else find_slot f q (next qi) tail i
    end.

(** The entries behind a slot move up. *)
Fixpoint compact (fuel : nat) (q : list (option nat)) (dst src tail : nat) : list (option nat) :=
    match fuel with
    | O => q
    | S f => if (src =? tail)%nat then q
             else compact f (<[dst := default None (q !! src)]> q) (next dst) (next src) tail
    end.

Definition drop_slot (s : task_queue) (qi : nat) : task_queue :=
    mkQ (tasks s) (compact C (queue s) qi (next qi) (queue_tail s)) (queue_head s) ((queue_tail s + C - 1) mod C) (task_seq s).

Definition set_task (i : nat) (t : task_record_t) (s : task_queue) : task_queue :=
    mkQ (<[i := t]> (tasks s)) (queue s) (queue_head s) (queue_tail s) (task_seq s).

Definition canceled (t : task_record_t) (now : Z) (err : option string) : task_record_t :=
    mkTask (task_id t) (task_description t) (priority t) (timeout_ms t) SCHED_TASK_STATUS_CANCELED (t_agent t) (output t) err
      (created_at_ms t) now.

Definition clear_slot (qi : nat) (s : task_queue) : task_queue :=
    mkQ (tasks s) (<[qi := None]> (queue s)) (queue_head s) (queue_tail s) (task_seq s).

Definition sched_service_cancel_task (s : task_queue) (id : option string) (w : W) : airy_rc * task_queue * W :=
    match id with
    | None => (AIRY_ERR_INVALID_PARAM, s, w)
    | Some id =>
        match find_task s id with
        | None => (AIRY_ERR_NOT_FOUND, s, w)
        | Some i =>
            match tasks s !! i with
            | None => (AIRY_ERR_NOT_FOUND, s, w)
            | Some t =>
                if negb (bool_decide (status t = SCHED_TASK_STATUS_PENDING)) then (AIRY_ERR_BUSY, s, w)
                else
                  let s := match find_slot C (queue s) (queue_head s) (queue_tail s) i with
                           | Some qi => drop_slot (clear_slot qi s) qi
                           | None => s
                           end in
                  let '(now, w) := task_wall_ms w in
                  let '(err, w) := AIRY_STRDUP "canceled by user" w in
                  (AIRY_SUCCESS, set_task i (canceled t now err) s, sched_hall_progress id "task_canceled" 0 w)
            end
        end
    end.

(** ** The worker *)

(** The slot of the most urgent task; [None] where a slot or a record is missing. *)
Fixpoint best_slot (fuel : nat) (s : task_queue) (qi best : nat) (best_p : Z) : option nat :=
    match fuel with
    | O => None
    | S f =>
        if (qi =? queue_tail s)%nat then Some best
        else match mjoin (queue s !! qi) ≫= fun i => tasks s !! i with
             | None => None
             | Some t => if best_p <? priority t then best_slot f s (next qi) qi (priority t)
                         else best_slot f s (next qi) best best_p
             end
    end.

(** The outer [None] is a use of a missing slot; the inner one an empty queue. *)
Definition sched_queue_take_highest (s : task_queue) : option (option nat * task_queue) :=
    if (queue_head s =? queue_tail s)%nat then Some (None, s)
    else match mjoin (queue s !! queue_head s) ≫= fun i => tasks s !! i with
         | None => None
         | Some t0 =>
             match best_slot C s (queue_head s) (queue_head s) (priority t0) with
             | None => None
             | Some best =>
                 match mjoin (queue s !! best) with
                 | None => None
                 | Some i => Some (Some i, drop_slot s best)
                 end
             end
         end.

Definition set_status (st : task_status_t) (t : task_record_t) : task_record_t :=
    mkTask (task_id t) (task_description t) (priority t) (timeout_ms t) st (t_agent t) (output t) (error t) (created_at_ms t)
      (finished_at_ms t).

(** The worker's first section: the task it takes is running from then on. *)
Definition worker_take (s : task_queue) : option (option nat * task_queue) :=
    match sched_queue_take_highest s with
    | None => None
    | Some (None, s) => Some (None, s)
    | Some (Some i, s) =>
        match tasks s !! i with
        | None => None
        | Some t => Some (Some i, set_task i (set_status SCHED_TASK_STATUS_RUNNING t) s)
        end
    end.

(** Outside the queue: the choice of an agent.  The result is the code, the agent,
    the copy of its name for the record and the error text. *)
Definition worker_select (r : registry) (t : task_record_t) (w : W)
      : airy_rc * option string * option string * option string * registry * W :=
    let '(rc, res, r, w) := sched_service_schedule_task r (priority t) w in
    match rc, res ≫= selected_agent_id with
    | AIRY_SUCCESS, Some a => let '(sel, w) := AIRY_STRDUP a w in (rc, Some a, sel, None, r, w)
    | _, _ => let '(e, w) := AIRY_STRDUP "no available agent registered" w in (rc, None, None, e, r, w)
    end.

(** The executor callback: code and output. *)
Definition executor_t := string -> string -> W -> (airy_rc * option string) * W.

(** Outside the lock: the execution with agent [a]. *)
Definition worker_exec (executor : option executor_t) (t : task_record_t) (a : string) (w : W)
      : airy_rc * option string * option string * W :=
    match executor with
    | None => let '(e, w) := AIRY_STRDUP "task executor not injected" w in (AIRY_ERR_SVC_NOT_READY, None, e, w)
    | Some ex =>
        let w := sched_hall_progress (task_id t) "task_started" (priority t) w in
        let '((rc, out), w) := ex a (task_description t) w in
        match rc, out with
        | AIRY_SUCCESS, Some _ => (rc, out, None, w)
        | _, _ => let '(e, w) := AIRY_STRDUP "agent dispatch failed" w in (rc, out, e, w)
        end
    end.

(** The worker's last section: the outcome in the record. *)
Definition finished (t : task_record_t) (sret : airy_rc) (sel out err : option string) (elapsed now : Z)
      (timeout_text : option string) : task_record_t :=
    let put st o e := mkTask (task_id t) (task_description t) (priority t) (timeout_ms t) st sel o e (created_at_ms t) now in
    match sret, out with
    | AIRY_SUCCESS, Some o =>
        if (0 <? timeout_ms t) && (timeout_ms t <? elapsed)
        then put SCHED_TASK_STATUS_FAILED (output t) timeout_text
        else put SCHED_TASK_STATUS_COMPLETED (Some o) (error t)
    | _, _ => put SCHED_TASK_STATUS_FAILED (output t) err
    end.

Definition status_name (st : task_status_t) : string :=
    match st with
    | SCHED_TASK_STATUS_PENDING => "pending" | SCHED_TASK_STATUS_RUNNING => "running"
    | SCHED_TASK_STATUS_COMPLETED => "completed" | SCHED_TASK_STATUS_FAILED => "failed"
    | SCHED_TASK_STATUS_CANCELED => "canceled"
    end.

Definition times_out (t : task_record_t) (sret : airy_rc) (out : option string) (elapsed : Z) : bool :=
    match sret, out with
    | AIRY_SUCCESS, Some _ => (0 <? timeout_ms t) && (timeout_ms t <? elapsed)
    | _, _ => false
    end.

Definition worker_finish (s : task_queue) (i : nat) (t0 : Z) (sret : airy_rc) (sel out err : option string) (w : W)
      : task_queue * W :=
    match tasks s !! i with
    | None => (s, w)
    | Some t =>
        let '(t1, w) := task_wall_ms w in
        let elapsed := u64 (t1 - t0) in
        let '(now, w) := task_wall_ms w in
        let '(txt, w) := if times_out t sret out elapsed then AIRY_STRDUP "task timed out" w else (None, w) in
        let t' := finished t sret sel out err elapsed now txt in
        (set_task i t' s,
         sched_hall_result (task_id t') (t_agent t') (status_name (status t')) elapsed (output t') (error t') w)
    end.
End tasks.

(** ** The ring *)

(** Linear arithmetic with remainders: each is replaced by its equation. *)
Ltac mod_eq a :=
  pose proof (Nat.div_mod_eq a 256); pose proof (Nat.mod_upper_bound a 256 ltac:(discriminate));
  let q := fresh "q" in let r := fresh "r" in
  set (q := (a / 256)%nat) in *; set (r := (a mod 256)%nat) in *; clearbody q r.

Ltac ring_lia :=
  intros; unfold next, C, AIRY_CAP_MAX_TASKS in *;
  repeat match goal with
  | |- context [(?a mod 256)%nat] => mod_eq a
  | H : context [(?a mod 256)%nat] |- _ => mod_eq a
  end; lia.

Lemma slot_inj h j k : (j < C)%nat -> (k < C)%nat -> ((h + j) mod C)%nat = ((h + k) mod C)%nat -> j = k.
Proof. ring_lia. Qed.

Lemma next_slot h k : next ((h + k) mod C) = ((h + S k) mod C)%nat.
Proof. ring_lia. Qed.

Lemma slot_lt_C n : (n mod C < C)%nat.
Proof. ring_lia. Qed.

(** The ring [q] from [h] to [t] holds the tasks [L]. *)
Definition ring (q : list (option nat)) (h t : nat) (L : list nat) : Prop :=
  length q = C /\ (h < C)%nat /\ (length L < C)%nat /\ t = ((h + length L) mod C)%nat /\
  forall k i, L !! k = Some i -> q !! ((h + k) mod C)%nat = Some (Some i).

Lemma ring_qlen s L : ring (queue s) (queue_head s) (queue_tail s) L -> qlen s = length L.
Proof. intros (_ & Hh & Hl & Ht & _). unfold qlen. rewrite Ht. ring_lia. Qed.

Lemma ring_empty q h t L : ring q h t L -> (h =? t)%nat = bool_decide (L = []).
Proof.
  intros (_ & Hh & Hl & Ht & _). destruct L as [|i L]; cbn [length] in *.
  - rewrite bool_decide_true by done. apply Nat.eqb_eq. subst t. ring_lia.
  - rewrite bool_decide_false by done. apply Nat.eqb_neq. subst t. ring_lia.
Qed.

Lemma ring_push q h t L i : ring q h t L -> (length L < C - 1)%nat -> ring (<[t := Some i]> q) h (next t) (L ++ [i]).
Proof.
  intros (Hq & Hh & Hl & Ht & Hk) Hroom. unfold ring. rewrite length_insert, length_app. cbn [length]. split_and!; try done.
  - ring_lia.
  - subst t. rewrite next_slot. f_equal. lia.
  - intros k x Hx. apply lookup_app_Some in Hx as [Hx|[Hge Hx]].
    + pose proof (lookup_lt_Some _ _ _ Hx). rewrite list_lookup_insert_ne; [by apply Hk|]. subst t. intros E.
      apply slot_inj in E; lia.
    + destruct (k - length L)%nat as [|m] eqn:Em; [|done]. cbn in Hx. simplify_eq.
      replace k with (length L) by lia. rewrite list_lookup_insert_eq; [done|]. rewrite Hq. apply slot_lt_C.
Qed.

Lemma find_slot_gen q h t L i fuel : ring q h t L -> forall k,
  (length L - k < fuel)%nat -> (k <= length L)%nat ->
  match find_slot fuel q ((h + k) mod C) t i with
  | Some qi => exists j, qi = ((h + j) mod C)%nat /\ L !! j = Some i
  | None => i ∉ drop k L
  end.
Proof.
  intros (Hq & Hh & Hl & Ht & Hk). induction fuel as [|f IH]; intros k Hf Hkl; [lia|]. cbn [find_slot].
  destruct (Nat.eqb_spec ((h + k) mod C) t) as [E|E].
  { rewrite Ht in E. apply slot_inj in E; [|lia..]. rewrite drop_ge by lia. apply not_elem_of_nil. }
  assert (Hlt : (k < length L)%nat) by (destruct (decide (k = length L)) as [->|]; [by rewrite Ht in E|lia]).
  destruct (lookup_lt_is_Some_2 L k Hlt) as [x Hx]. rewrite (Hk k x Hx). case_bool_decide as Hb.
  - simplify_eq. by exists k.
  - rewrite next_slot. specialize (IH (S k) ltac:(lia) ltac:(lia)).
    destruct (find_slot f q _ t i); [done|]. rewrite (drop_S _ _ _ Hx). apply not_elem_of_cons. split; [congruence|done].
Qed.

Lemma ring_find q h t L i :
  ring q h t L -> match find_slot C q h t i with
                  | Some qi => exists j, qi = ((h + j) mod C)%nat /\ L !! j = Some i
                  | None => i ∉ L
                  end.
Proof.
  intros Hr. pose proof Hr as (_ & Hh & Hl & _). pose proof (find_slot_gen q h t L i C Hr 0 ltac:(lia) ltac:(lia)) as Hf.
  rewrite Nat.add_0_r, Nat.mod_small in Hf by done. exact Hf.
Qed.

(** The loop of [compact] from entry [k] on, with [n] entries in the ring. *)
Lemma compact_gen h n fuel : (n < C)%nat -> forall q k,
  length q = C -> (k < n)%nat -> (n - k <= fuel)%nat ->
  let q' := compact fuel q ((h + k) mod C) ((h + S k) mod C) ((h + n) mod C) in
  length q' = C /\
  forall j, (j < n - 1)%nat ->
    q' !! ((h + j) mod C)%nat = if (j <? k)%nat then q !! ((h + j) mod C)%nat else q !! ((h + S j) mod C)%nat.
Proof.
  intros Hn. induction fuel as [|f IH]; intros q k Hq Hk Hf q'; [lia|]. subst q'. cbn [compact].
  destruct (Nat.eqb_spec ((h + S k) mod C) ((h + n) mod C)) as [E|E].
  { split; [done|]. intros j Hj. assert (S k = n \/ S k = C \/ False) as Hs.
    { destruct (decide (S k = C)); [lia|]. left. apply slot_inj in E; lia. }
    destruct (Nat.ltb_spec j k); [done|]. lia. }
  assert (Hlt : (S k < n)%nat) by (destruct (decide (S k = n)) as [<-|]; [done|lia]).
  rewrite !next_slot. destruct (IH (<[((h + k) mod C)%nat := default None (q !! ((h + S k) mod C)%nat)]> q) (S k))
    as [Hl Hq']; [by rewrite length_insert|lia|lia|]. split; [done|]. intros j Hj. rewrite (Hq' j Hj).
  assert (Hsome : forall m, is_Some (q !! (m mod C)%nat)) by (intros m; apply lookup_lt_is_Some_2; rewrite Hq; apply slot_lt_C).
  destruct (Nat.ltb_spec j (S k)), (Nat.ltb_spec j k); try lia.
  - rewrite list_lookup_insert_ne; [done|]. intros E'. apply slot_inj in E'; lia.
  - assert (j = k) as -> by lia. rewrite list_lookup_insert_eq by (rewrite Hq; apply slot_lt_C).
    by destruct (Hsome (h + S k)%nat) as [x ->].
  - rewrite list_lookup_insert_ne; [done|]. intros E'. apply slot_inj in E'; lia.
Qed.

(** Removing entry [k], whatever its slot holds. *)
Lemma ring_drop q h t L k v :
  ring q h t L -> (k < length L)%nat ->
  ring (compact C (<[((h + k) mod C)%nat := v]> q) ((h + k) mod C) (next ((h + k) mod C)) t) h ((t + C - 1) mod C)
    (delete k L).
Proof.
  intros (Hq & Hh & Hl & Ht & Hk) Hlt. rewrite next_slot, Ht.
  destruct (compact_gen h (length L) C Hl (<[((h + k) mod C)%nat := v]> q) k) as [Hlen Hc];
    [by rewrite length_insert|done|lia|].
  assert (Hdl : length (delete k L) = (length L - 1)%nat).
  { rewrite length_delete; [lia|]. by apply lookup_lt_is_Some_2. }
  unfold ring. rewrite Hdl. split_and!; [done|done|lia| |].
  - subst t. ring_lia.
  - intros j i Hj. assert (Hjl : (j < length L - 1)%nat) by (rewrite <- Hdl; by eapply lookup_lt_Some).
    rewrite (Hc j Hjl). destruct (Nat.ltb_spec j k).
    + rewrite list_lookup_delete_lt in Hj by done. rewrite list_lookup_insert_ne; [by apply Hk|].
      intros E. apply slot_inj in E; lia.
    + rewrite list_lookup_delete_ge in Hj by done. rewrite list_lookup_insert_ne; [by apply Hk|].
      intros E. apply slot_inj in E; lia.
Qed.

(** ** The most urgent task *)

Definition prio_of (s : task_queue) (i : nat) : Z := from_option priority 0 (tasks s !! i).

(** Entry [b] of the queue holds [i], the first of the most urgent ones. *)
Definition most_urgent (s : task_queue) (L : list nat) (b i : nat) : Prop :=
  L !! b = Some i /\ (forall j x, L !! j = Some x -> prio_of s x <= prio_of s i) /\
  (forall j x, (j < b)%nat -> L !! j = Some x -> prio_of s x < prio_of s i).

Section urgent.
  Context (s : task_queue) (L : list nat).
  Hypothesis Hring : ring (queue s) (queue_head s) (queue_tail s) L.
  Hypothesis Hrec : forall i, i ∈ L -> is_Some (tasks s !! i).

Lemma slot_task k i : L !! k = Some i ->
  exists t, mjoin (queue s !! ((queue_head s + k) mod C)%nat) ≫= (fun i => tasks s !! i) = Some t /\
    priority t = prio_of s i /\ mjoin (queue s !! ((queue_head s + k) mod C)%nat) = Some i.
Proof.
  intros Hk. destruct Hring as (_ & _ & _ & _ & Hs). rewrite (Hs k i Hk). cbn.
  destruct (Hrec i) as [t Ht]; [by eapply list_elem_of_lookup_2|]. exists t. unfold prio_of. by rewrite Ht.
Qed.

(** After [k] entries, entry [b] is the most urgent of those read. *)
Lemma best_slot_gen fuel : forall k b i,
  (length L - k < fuel)%nat -> (k <= length L)%nat -> most_urgent s (take k L) b i ->
  exists b' i', best_slot fuel s ((queue_head s + k) mod C) ((queue_head s + b) mod C) (prio_of s i)
                = Some ((queue_head s + b') mod C)%nat /\ most_urgent s L b' i'.
Proof.
  pose proof Hring as (Hq & Hh & Hl & Ht & _). induction fuel as [|f IH]; intros k b i Hf Hk (Hb & Hmax & Hfirst); [lia|].
  cbn [best_slot]. destruct (Nat.eqb_spec ((queue_head s + k) mod C) (queue_tail s)) as [E|E].
  { rewrite Ht in E. apply slot_inj in E; [|lia..]. rewrite take_ge in Hb, Hmax, Hfirst by lia. by exists b, i. }
  assert (Hlt : (k < length L)%nat) by (destruct (decide (k = length L)) as [->|]; [by rewrite Ht in E|lia]).
  destruct (lookup_lt_is_Some_2 L k Hlt) as [x Hx]. destruct (slot_task k x Hx) as (t & -> & Hp & _).
  rewrite Hp, next_slot. assert (Hts : take (S k) L = take k L ++ [x]) by (by apply take_S_r).
  destruct (Z.ltb_spec (prio_of s i) (prio_of s x)).
  - apply (IH (S k) k x); [lia|lia|]. rewrite Hts. split_and!.
    + rewrite lookup_app_r, length_take_le by (rewrite ?length_take_le; lia). by rewrite Nat.sub_diag.
    + intros j y [Hy|[_ Hy]]%lookup_app_Some; [specialize (Hmax j y Hy); lia|].
      apply list_lookup_singleton_Some in Hy as [_ <-]. lia.
    + intros j y Hj [Hy|[Hge Hy]]%lookup_app_Some; [specialize (Hmax j y Hy); lia|]. rewrite length_take_le in Hge; lia.
  - apply (IH (S k) b i); [lia|lia|]. rewrite Hts. split_and!.
    + by apply lookup_app_l_Some.
    + intros j y [Hy|[_ Hy]]%lookup_app_Some; [by apply (Hmax j)|]. apply list_lookup_singleton_Some in Hy as [_ <-]. lia.
    + intros j y Hj [Hy|[Hge Hy]]%lookup_app_Some; [by apply (Hfirst j)|]. apply lookup_lt_Some in Hb. lia.
Qed.

(** The first round compares the first entry with itself. *)
Lemma best_slot_start fuel x :
  L !! 0%nat = Some x -> (length L < fuel)%nat ->
  exists b i, best_slot fuel s (queue_head s) (queue_head s) (prio_of s x) = Some ((queue_head s + b) mod C)%nat /\
    most_urgent s L b i.
Proof.
  intros Hx Hf. pose proof Hring as (Hq & Hh & Hl & Ht & _). assert (Hlen : (0 < length L)%nat) by (by apply lookup_lt_Some in Hx).
  assert (Hh0 : ((queue_head s + 0) mod C)%nat = queue_head s) by (rewrite Nat.add_0_r; by apply Nat.mod_small).
  destruct fuel as [|f]; [lia|]. cbn [best_slot].
  rewrite (ring_empty _ _ _ _ Hring), bool_decide_false by (intros ->; done).
  destruct (slot_task 0 x Hx) as (t & Hst & Hp & _). rewrite Hh0 in Hst. rewrite Hst, Hp, Z.ltb_irrefl.
  destruct (best_slot_gen f 1 0 x) as (b & i & Hbest & Hu); [lia|lia| |].
  { destruct L as [|y L']; [done|]. cbn in Hx. simplify_eq. cbn. rewrite take_0. split_and!; [done| |intros j y Hj; lia].
    intros [|j] y Hy; cbn in Hy; simplify_eq. lia. }
  rewrite Hh0 in Hbest. exists b, i. by split.
Qed.

(** The worker takes the most urgent task, the oldest of them when there are
    several, and keeps the order of the others. *)
Lemma take_highest_spec : L <> [] ->
  exists b i, most_urgent s L b i /\
    sched_queue_take_highest s = Some (Some i, drop_slot s ((queue_head s + b) mod C)).
Proof.
  intros Hne. pose proof Hring as (Hq & Hh & Hl & Ht & _).
  unfold sched_queue_take_highest. rewrite (ring_empty _ _ _ _ Hring), bool_decide_false by done.
  destruct (L !! 0%nat) as [x|] eqn:Hx; [|destruct L; done].
  destruct (slot_task 0 x Hx) as (t & Hst & Hp & _). rewrite Nat.add_0_r, Nat.mod_small in Hst by done. rewrite Hst, Hp.
  destruct (best_slot_start C x Hx Hl) as (b & i & -> & Hu). exists b, i. split; [done|].
  destruct (slot_task b i (proj1 Hu)) as (_ & _ & _ & ->). done.
Qed.
End urgent.

(** ** The invariant of the table *)

Definition pending (s : task_queue) (i : nat) : Prop :=
  exists t, tasks s !! i = Some t /\ status t = SCHED_TASK_STATUS_PENDING.

(** The queue holds the pending tasks in the order of their submission. *)
Record queue_inv (s : task_queue) (L : list nat) : Prop := mkInv {
  inv_ring : ring (queue s) (queue_head s) (queue_tail s) L;
  inv_sorted : StronglySorted lt L;
  inv_pending : forall i, i ∈ L <-> pending s i;
  inv_ids : NoDup (task_id <$> tasks s);
  inv_cap : (length (tasks s) <= C)%nat
}.

Lemma pending_lt s i : pending s i -> (i < length (tasks s))%nat.
Proof. intros (t & Ht & _). by eapply lookup_lt_Some. Qed.

Lemma find_task_from_spec l id : forall i,
  match find_task_from i l id with
  | Some j => exists t, (i <= j)%nat /\ l !! (j - i)%nat = Some t /\ task_id t = id
  | None => id ∉ (task_id <$> l)
  end.
Proof.
  induction l as [|t l IH]; intros i; cbn [find_task_from]; [apply not_elem_of_nil|].
  unfold strcmp_eq. destruct (String.eqb_spec (task_id t) id) as [<-|Hne].
  - exists t. rewrite Nat.sub_diag. split_and!; [lia|done|done].
  - specialize (IH (S i)). destruct (find_task_from (S i) l id) as [j|].
    + destruct IH as (u & Hj & Hu & Hid). exists u. replace (j - i)%nat with (S (j - S i)) by lia. split_and!; [lia|done|done].
    + cbn. apply not_elem_of_cons. split; [congruence|done].
Qed.

Lemma find_task_spec s id :
  match find_task s id with
  | Some i => exists t, tasks s !! i = Some t /\ task_id t = id
  | None => id ∉ (task_id <$> tasks s)
  end.
Proof.
  unfold find_task. pose proof (find_task_from_spec (tasks s) id 0) as Hf. destruct (find_task_from 0 (tasks s) id) as [i|]; [|done].
  destruct Hf as (t & _ & Ht & Hid). rewrite Nat.sub_0_r in Ht. by exists t.
Qed.

Lemma pending_set s i t j :
  (i < length (tasks s))%nat ->
  pending (set_task i t s) j <-> (j <> i /\ pending s j) \/ (j = i /\ status t = SCHED_TASK_STATUS_PENDING).
Proof.
  intros Hi. unfold pending. cbn [set_task tasks]. destruct (decide (j = i)) as [->|Hne].
  - rewrite list_lookup_insert_eq by done. naive_solver.
  - rewrite list_lookup_insert_ne by done. naive_solver.
Qed.

Lemma set_task_ids s i t t' :
  tasks s !! i = Some t -> task_id t' = task_id t -> (task_id <$> tasks (set_task i t' s)) = (task_id <$> tasks s).
Proof.
  intros Ht Hid. cbn [set_task tasks]. rewrite list_fmap_insert, Hid. apply list_insert_id. by rewrite list_lookup_fmap, Ht.
Qed.

Lemma sorted_lt_app (l1 l2 : list nat) x :
  StronglySorted lt (l1 ++ x :: l2) -> StronglySorted lt (l1 ++ l2) /\ x ∉ l1 ++ l2.
Proof.
  intros Hs. apply StronglySorted_app in Hs as (H12 & H1 & H2). apply StronglySorted_cons in H2 as [Hx H2].
  rewrite Forall_forall in Hx. split.
  - apply StronglySorted_app. split_and!; [|done|done]. intros a b Ha Hb. apply H12; [done|by right].
  - intros [Hin|Hin]%elem_of_app; [specialize (H12 x x Hin ltac:(by left)); lia|specialize (Hx x Hin); lia].
Qed.

Lemma delete_sorted (L : list nat) k i :
  L !! k = Some i -> StronglySorted lt L ->
  StronglySorted lt (delete k L) /\ forall j, j ∈ delete k L <-> j <> i /\ j ∈ L.
Proof.
  intros Hk Hs. rewrite delete_take_drop.
  assert (HL : L = take k L ++ i :: drop (S k) L) by (by rewrite take_drop_middle).
  rewrite HL in Hs. apply sorted_lt_app in Hs as [Hs Hni]. split; [done|]. intros j.
  rewrite HL at 3. rewrite !elem_of_app, elem_of_cons in *. destruct (decide (j = i)) as [->|]; tauto.
Qed.

(** Taking entry [k] out of the queue and its task out of the pending ones. *)
Lemma drop_inv s L k i t t' v :
  queue_inv s L -> L !! k = Some i -> tasks s !! i = Some t -> task_id t' = task_id t -> status t' <> SCHED_TASK_STATUS_PENDING ->
  let qi := ((queue_head s + k) mod C)%nat in
  queue_inv (set_task i t' (drop_slot (mkQ (tasks s) (<[qi := v]> (queue s)) (queue_head s) (queue_tail s) (task_seq s)) qi))
    (delete k L).
Proof.
  intros [Hr Hs Hp Hid Hc] Hk Ht Hid' Hst qi. destruct (delete_sorted L k i Hk Hs) as [Hs' Hin].
  pose proof (lookup_lt_Some _ _ _ Ht) as Hil.
  split; [|done| |by rewrite (set_task_ids _ i t)|by cbn; rewrite length_insert].
  - cbn [set_task drop_slot queue queue_head queue_tail]. apply ring_drop; [done|]. by eapply lookup_lt_Some.
  - intros j. rewrite Hin, Hp. rewrite pending_set by done.
    change (pending (drop_slot _ qi) j) with (pending s j). tauto.
Qed.

Lemma insert_self {A} (l : list A) k x : l !! k = Some x -> <[k := x]> l = l.
Proof. apply list_insert_id. Qed.

(** The worker's section: nothing when the queue is empty, otherwise the most
    urgent pending task, the oldest of them, is running afterwards. *)
Lemma worker_take_spec s L :
  queue_inv s L ->
  (L = [] /\ worker_take s = Some (None, s)) \/
  (exists k i t s', L !! k = Some i /\ tasks s !! i = Some t /\ status t = SCHED_TASK_STATUS_PENDING /\
     worker_take s = Some (Some i, s') /\ tasks s' = <[i := set_status SCHED_TASK_STATUS_RUNNING t]> (tasks s) /\
     queue_inv s' (delete k L) /\
     forall j, pending s j -> prio_of s j < prio_of s i \/ prio_of s j = prio_of s i /\ (i <= j)%nat).
Proof.
  intros Hinv. pose proof Hinv as [Hr Hs Hp Hid Hc]. destruct (decide (L = [])) as [->|Hne]; [left; split; [done|]|right].
  { unfold worker_take, sched_queue_take_highest. by rewrite (ring_empty _ _ _ _ Hr), bool_decide_true. }
  destruct (take_highest_spec s L Hr) as (b & i & (Hb & Hmax & Hfirst) & Htake); [|done|].
  { intros i Hi. apply Hp in Hi as (t & -> & _). done. }
  assert (Hi : i ∈ L) by (by eapply list_elem_of_lookup_2). apply Hp in Hi as (t & Ht & Hpend).
  unfold worker_take. rewrite Htake. cbn [drop_slot tasks]. rewrite Ht. eexists b, i, t, _.
  split_and!; [done..| |].
  - pose proof Hr as (_ & _ & _ & _ & Hcell). specialize (Hcell b i Hb).
    pose proof (drop_inv s L b i t (set_status SCHED_TASK_STATUS_RUNNING t) (Some i) Hinv Hb Ht eq_refl ltac:(done)) as Hd.
    cbn zeta in Hd. rewrite (insert_self _ _ _ Hcell) in Hd. by destruct s.
  - intros j Hj. apply Hp in Hj. apply list_elem_of_lookup in Hj as [kj Hj]. specialize (Hmax kj j Hj).
    destruct (decide (prio_of s j = prio_of s i)) as [E|]; [right|left; lia]. split; [done|].
    destruct (decide (kj < b)%nat) as [Hlt|Hge]; [specialize (Hfirst kj j Hlt Hj); lia|].
    destruct (decide (kj = b)) as [->|]; [simplify_eq; lia|]. apply Nat.lt_le_incl.
    assert (HL : L = take (S b) L ++ drop (S b) L) by (by rewrite take_drop). rewrite HL in Hs.
    apply (StronglySorted_app_1_elem_of lt _ _ _ _ Hs).
    + apply list_elem_of_lookup. exists b. rewrite lookup_take_lt; [done|lia].
    + apply list_elem_of_lookup. exists (kj - S b)%nat. rewrite lookup_drop. by replace (S b + (kj - S b))%nat with kj by lia.
Qed.

Section requests.
  Context {W : Type} `{TaskOS W}.

Lemma set_seq_inv s L sq : queue_inv s L -> queue_inv (mkQ (tasks s) (queue s) (queue_head s) (queue_tail s) sq) L.
Proof. intros [Hr Hs Hp Hid Hc]. by split. Qed.

Lemma push_inv s L t sq :
  queue_inv s L -> (qlen s < C - 1)%nat -> (length (tasks s) < C)%nat -> task_id t ∉ (task_id <$> tasks s) ->
  status t = SCHED_TASK_STATUS_PENDING ->
  queue_inv (mkQ (tasks s ++ [t]) (<[queue_tail s := Some (length (tasks s))]> (queue s)) (queue_head s)
               (next (queue_tail s)) sq) (L ++ [length (tasks s)]).
Proof.
  intros [Hr Hs Hp Hid Hc] Hroom Hcap Hni Hst. rewrite (ring_qlen _ _ Hr) in Hroom.
  assert (Hlt : forall i, i ∈ L -> (i < length (tasks s))%nat) by (intros i Hi; by apply pending_lt, Hp).
  split; cbn [queue queue_head queue_tail tasks].
  - by apply ring_push.
  - apply StronglySorted_app. split_and!; [|done|by repeat constructor]. intros a b Ha ->%list_elem_of_singleton. by apply Hlt.
  - intros i. rewrite elem_of_app, list_elem_of_singleton. unfold pending. cbn [tasks]. split.
    + intros [Hi| ->].
      * apply Hp in Hi as (u & Hu & Hus). exists u. split; [by apply lookup_app_l_Some|done].
      * exists t. split; [|done]. rewrite lookup_app_r by lia. by rewrite Nat.sub_diag.
    + intros (u & Hu & Hus). apply lookup_app_Some in Hu as [Hu|[Hge Hu]]; [left; apply Hp; by exists u|right].
      apply list_lookup_singleton_Some in Hu as [? _]. lia.
  - rewrite fmap_app. cbn. apply NoDup_app. split_and!; [done| |by apply NoDup_singleton].
    intros x Hx ->%list_elem_of_singleton. done.
  - rewrite length_app. cbn [length]. lia.
Qed.

(** A submission appends a pending task under a new name or changes no record. *)
Lemma submit_task_spec s L info w :
  queue_inv s L ->
  let '(rc, out, s', _) := sched_service_submit_task s info w in
  (exists L', queue_inv s' L') /\
  ((rc = AIRY_SUCCESS /\ exists t, tasks s' = tasks s ++ [t] /\ status t = SCHED_TASK_STATUS_PENDING /\
      task_id t ∉ (task_id <$> tasks s) /\ (out = None \/ out = Some (task_id t))) \/
   (rc <> AIRY_SUCCESS /\ tasks s' = tasks s /\ out = None)).
Proof.
  intros Hinv. unfold sched_service_submit_task. destruct info as [info|]; [|split; [by exists L|by right]].
  destruct (if match nonempty (info_id info) with Some _ => false | None => true end then task_time w else (0, w)) as [t w1].
  set (id := id_buf info t (task_seq s)). set (sq := if match nonempty (info_id info) with Some _ => false | None => true end then _ else _).
  set (s1 := mkQ (tasks s) (queue s) (queue_head s) (queue_tail s) sq).
  assert (H1 : queue_inv s1 L) by (by apply set_seq_inv). pose proof (find_task_spec s1 id) as Hf.
  destruct (find_task s1 id) as [i|]; [split; [by exists L|by right]|].
  destruct (_ || _) eqn:Ef; [split; [by exists L|by right]|]. apply orb_false_iff in Ef as [Ef1%Nat.leb_gt Ef2%Nat.leb_gt].
  destruct (os_alloc w1) as [[] w2]; cbn [negb]; [|split; [by exists L|by right]].
  unfold AIRY_STRDUP. destruct (os_alloc w2) as [ok1 w3], (os_alloc w3) as [ok2 w4].
  destruct ok1, ok2; try (by split; [exists L|right]).
  destruct (task_wall_ms w4) as [now w5], (os_alloc w5) as [ok3 w6]. split.
  - eexists. by apply push_inv.
  - left. split; [done|]. eexists. split_and!; [done|done|done|]. destruct ok3; auto.
Qed.

(** A cancellation succeeds exactly for a pending task. *)
Lemma cancel_task_spec s L id w :
  queue_inv s L ->
  let '(rc, s', _) := sched_service_cancel_task s (Some id) w in
  (exists L', queue_inv s' L') /\
  ((rc = AIRY_SUCCESS /\ exists i t now err, tasks s !! i = Some t /\ task_id t = id /\
      status t = SCHED_TASK_STATUS_PENDING /\ tasks s' = <[i := canceled t now err]> (tasks s)) \/
   (rc <> AIRY_SUCCESS /\ s' = s /\ forall i t, tasks s !! i = Some t -> task_id t = id -> status t <> SCHED_TASK_STATUS_PENDING)).
Proof.
  intros Hinv. unfold sched_service_cancel_task. pose proof (find_task_spec s id) as Hf. pose proof Hinv as [Hr Hs Hp Hid Hc].
  destruct (find_task s id) as [i|].
  2:{ split; [by exists L|right]. split_and!; [done|done|]. intros i t Ht <-. exfalso. apply Hf.
      apply list_elem_of_fmap. exists t. split; [done|]. by eapply list_elem_of_lookup_2. }
  destruct Hf as (t & Ht & Htid). rewrite Ht. case_bool_decide as Hb; cbn [negb].
  2:{ split; [by exists L|right]. split_and!; [done|done|]. intros j u Hu Hju.
      assert (j = i) as ->; [|by simplify_eq]. eapply (NoDup_lookup (task_id <$> tasks s)); [done| |].
      - rewrite list_lookup_fmap, Hu. cbn. by rewrite Hju.
      - rewrite list_lookup_fmap, Ht. cbn. by rewrite Htid. }
  assert (HiL : i ∈ L) by (apply Hp; by exists t). pose proof (ring_find _ _ _ _ i Hr) as Hslot.
  destruct (find_slot C (queue s) (queue_head s) (queue_tail s) i) as [qi|]; [|done]. destruct Hslot as (k & -> & Hk).
  destruct (task_wall_ms w) as [now w1], (AIRY_STRDUP "canceled by user" w1) as [err w2]. split.
  - exists (delete k L). by apply (drop_inv s L k i t (canceled t now err) None).
  - left. split; [done|]. by exists i, t, now, err.
Qed.
End requests.

(** ** The system *)

(** Where the worker is: before its first section, and after it with the task it
    holds and what it has found out so far. *)
Inductive phase :=
| WIdle
| WTaken (i : nat)
| WChosen (i : nat) (t0 : Z) (rc : airy_rc) (agent sel err : option string)
| WRan (i : nat) (t0 : Z) (rc : airy_rc) (sel out err : option string).

Definition in_hand (p : phase) : option nat :=
  match p with WIdle => None | WTaken i | WChosen i _ _ _ _ _ | WRan i _ _ _ _ _ => Some i end.

Record sys (W : Type) := mkSys {
  sq : task_queue;
  sreg : registry;
  worker : phase;
  worker_run : bool;
  sworld : W
}.
Arguments mkSys {W}. Arguments sq {W}. Arguments sreg {W}. Arguments worker {W}. Arguments worker_run {W}. Arguments sworld {W}.

Inductive label :=
| LSubmit (rc : airy_rc) (out : option string)
| LCancel (id : string) (rc : airy_rc)
| LAgents
| LSwitch
| LTake (i : nat)
| LChoose (i : nat)
| LExec (i : nat) (agent : string)
| LSkip (i : nat)
| LFinish (i : nat).

Section system.
  Context {W : Type} `{TaskOS W} `{AiryString} (cap mid mname : nat) (executor : option (executor_t (W := W))).

Inductive step : sys W -> label -> sys W -> Prop :=
| st_submit q r p b w info rc out q' w' :
    sched_service_submit_task q info w = (rc, out, q', w') -> step (mkSys q r p b w) (LSubmit rc out) (mkSys q' r p b w')
| st_cancel q r p b w id rc q' w' :
    sched_service_cancel_task q (Some id) w = (rc, q', w') -> step (mkSys q r p b w) (LCancel id rc) (mkSys q' r p b w')
| st_register q r p b w id i rc r' w' :
    arg_id i = Some id -> sched_service_register_agent cap mid mname r (Some i) w = Some (rc, r', w') ->
    step (mkSys q r p b w) LAgents (mkSys q r' p b w')
| st_unregister q r p b w id rc r' w' :
    sched_service_unregister_agent r (Some id) w = (rc, r', w') -> step (mkSys q r p b w) LAgents (mkSys q r' p b w')
| st_switch q r p b w b' : (b' = true -> p = WIdle) -> step (mkSys q r p b w) LSwitch (mkSys q r p b' w)
| st_take q r w i q' :
    worker_take q = Some (Some i, q') -> step (mkSys q r WIdle true w) (LTake i) (mkSys q' r (WTaken i) true w)
| st_choose q r b w i t t0 w1 rc agent sel err r' w' :
    tasks q !! i = Some t -> task_wall_ms w = (t0, w1) -> worker_select r t w1 = (rc, agent, sel, err, r', w') ->
    step (mkSys q r (WTaken i) b w) (LChoose i) (mkSys q r' (WChosen i t0 rc agent sel err) b w')
| st_exec q r b w i t t0 rc a sel err rc' out err' w' :
    tasks q !! i = Some t -> worker_exec executor t a w = (rc', out, err', w') ->
    step (mkSys q r (WChosen i t0 rc (Some a) sel err) b w) (LExec i a) (mkSys q r (WRan i t0 rc' sel out err') b w')
| st_skip q r b w i t0 rc sel err :
    step (mkSys q r (WChosen i t0 rc None sel err) b w) (LSkip i) (mkSys q r (WRan i t0 rc sel None err) b w)
| st_finish q r b w i t0 rc sel out err q' w' :
    worker_finish q i t0 rc sel out err w = (q', w') ->
    step (mkSys q r (WRan i t0 rc sel out err) b w) (LFinish i) (mkSys q' r WIdle b w').

Inductive run : sys W -> list label -> sys W -> Prop :=
| run_nil s : run s [] s
| run_snoc s tr s1 l s2 : run s tr s1 -> step s1 l s2 -> run s (tr ++ [l]) s2.

(** The service of [sched_service_create]. *)
Definition start (r : registry) (w : W) : sys W := mkSys (mkQ [] (replicate C None) 0 0 0) r WIdle false w.

(** ** Invariant *)

Definition running (q : task_queue) (i : nat) : Prop :=
    exists t, tasks q !! i = Some t /\ status t = SCHED_TASK_STATUS_RUNNING.

Record sys_ok (s : sys W) : Prop := mkOk {
  ok_queue : exists L, queue_inv (sq s) L;
  ok_hand : forall i, running (sq s) i <-> in_hand (worker s) = Some i;
  ok_reg : reg_ok cap (sreg s)
}.

Lemma finished_facts t rc sel out err el now txt :
  task_id (finished t rc sel out err el now txt) = task_id t /\
  status (finished t rc sel out err el now txt) ∈ [SCHED_TASK_STATUS_COMPLETED; SCHED_TASK_STATUS_FAILED].
Proof.
  unfold finished. destruct rc; try (by split; [|right; left]). destruct out; [|by split; [|right; left]].
  destruct (_ && _); (split; [done|]); [right; by left|by left].
Qed.

Lemma running_set q i t j :
  (i < length (tasks q))%nat ->
  running (set_task i t q) j <-> (j <> i /\ running q j) \/ (j = i /\ status t = SCHED_TASK_STATUS_RUNNING).
Proof.
  intros Hi. unfold running. cbn [set_task tasks]. destruct (decide (j = i)) as [->|Hne].
  - rewrite list_lookup_insert_eq by done. naive_solver.
  - rewrite list_lookup_insert_ne by done. naive_solver.
Qed.

(** A record that is not pending before and after may change without touching the queue. *)
Lemma set_inv q L i t t' :
  queue_inv q L -> tasks q !! i = Some t -> status t <> SCHED_TASK_STATUS_PENDING -> task_id t' = task_id t ->
  status t' <> SCHED_TASK_STATUS_PENDING -> queue_inv (set_task i t' q) L.
Proof.
  intros [Hr Hs Hp Hid Hc] Ht Hst Hid' Hst'. pose proof (lookup_lt_Some _ _ _ Ht).
  split; [done|done| |by rewrite (set_task_ids _ i t)|by cbn; rewrite length_insert].
  intros j. rewrite Hp, pending_set by done. split; [|tauto].
  intros Hj. left. split; [|done]. intros ->. destruct Hj as (u & Hu & Hus). by simplify_eq.
Qed.

Lemma hand_running s i : sys_ok s -> in_hand (worker s) = Some i ->
  exists t, tasks (sq s) !! i = Some t /\ status t = SCHED_TASK_STATUS_RUNNING.
Proof. intros Hok Hi. by apply (ok_hand s Hok). Qed.

(** A request does not change what is running. *)
Lemma running_app q q' i t :
  tasks q' = tasks q ++ [t] -> status t = SCHED_TASK_STATUS_PENDING -> running q' i <-> running q i.
Proof.
  intros E Ht. unfold running. rewrite E. split.
  - intros (u & Hu & Hus). exists u. split; [|done]. apply lookup_app_Some in Hu as [Hu|[_ Hu]]; [done|].
    apply list_lookup_singleton_Some in Hu as [_ <-]. by rewrite Ht in Hus.
  - intros (u & Hu & Hus). exists u. split; [by apply lookup_app_l_Some|done].
Qed.

Lemma running_task_insert q q' i t t' j :
  tasks q' = <[i := t']> (tasks q) -> tasks q !! i = Some t ->
  running q' j <-> (j <> i /\ running q j) \/ (j = i /\ status t' = SCHED_TASK_STATUS_RUNNING).
Proof.
  intros E Ht. rewrite <- (running_set q i t' j) by (by eapply lookup_lt_Some). unfold running. by rewrite E.
Qed.

Lemma step_ok s l s' : sys_ok s -> step s l s' -> sys_ok s'.
Proof.
  intros Hok Hst. pose proof Hok as [[L HL] Hh Hr].
  destruct Hst as [q r p b w info rc out q' w' E|q r p b w id rc q' w' E|q r p b w id i rc r' w' Hid E|q r p b w id rc r' w' E
    |q r p b w b' Hb|q r w i q' E|q r b w i t t0 w1 rc agent sel err r' w' Ht Et E|q r b w i t t0 rc a sel err rc' out err' w' Ht E
    |q r b w i t0 rc sel err|q r b w i t0 rc sel out err q' w' E]; cbn [sq sreg worker] in *.
  - pose proof (submit_task_spec q L info w HL) as Hs. rewrite E in Hs. destruct Hs as [HL' [(_ & t & Ht & Hp & _)|(_ & Ht & _)]].
    + split; cbn; [done| |done]. intros i. by rewrite (running_app q q' i t).
    + split; cbn; [done| |done]. intros i. unfold running. rewrite Ht. apply Hh.
  - pose proof (cancel_task_spec q L id w HL) as Hs. rewrite E in Hs.
    destruct Hs as [HL' [(_ & i & t & now & err & Ht & _ & Hp & Hq)|(_ & -> & _)]]; [|done].
    split; cbn; [done| |done]. intros j. rewrite (running_task_insert q q' i t (canceled t now err) j Hq Ht), <- Hh. split.
    + intros [[_ Hj]|[_ Hj]]; done.
    + intros Hj. left. split; [|done]. intros ->. destruct Hj as (u & Hu & Hus). simplify_eq. by rewrite Hp in Hus.
  - destruct (registry_exact cap mid mname r id i w Hr Hid) as [(rc1 & r1 & w2 & E1 & Hr1 & _) _]. rewrite E1 in E. simplify_eq.
    by split; [exists L|..].
  - pose proof (registry_exact cap mid mname r id (mkAgentArg (Some id) None d_zero d_zero 0 false d_zero) w Hr eq_refl) as [_ Hu].
    rewrite E in Hu. destruct Hu as [Hr' _]. by split; [exists L|..].
  - by split; [exists L|..].
  - destruct (worker_take_spec q L HL) as [[_ E']|(k & j & t & s' & Hk & Ht & Hp & E' & Hq & HL' & _)]; rewrite E' in E; simplify_eq.
    split; cbn; [by exists (delete k L)| |done]. intros j. rewrite (running_task_insert q q' i t _ j Hq Ht), Hh. cbn. naive_solver.
  - destruct (sched_service_schedule_task r (priority t) w1) as [[[rc1 res] r1] w2] eqn:Es.
    pose proof (schedule_exact r (priority t) w1) as Hx. rewrite Es in Hx. destruct Hx as [Hag _].
    assert (r' = r1) as ->.
    { unfold worker_select in E. rewrite Es in E. destruct rc1, (res ≫= selected_agent_id);
        destruct (AIRY_STRDUP _ w2); by simplify_eq. }
    split; cbn; [by exists L|done|]. unfold reg_ok. by rewrite Hag.
  - by split; [exists L|..].
  - by split; [exists L|..].
  - destruct (hand_running _ i Hok eq_refl) as (t & Ht & Hst). cbn [sq] in Ht. unfold worker_finish in E. rewrite Ht in E.
    destruct (task_wall_ms w) as [t1 w1], (task_wall_ms w1) as [now w2].
    destruct (if times_out t rc out _ then _ else _) as [txt w3]. simplify_eq.
    destruct (finished_facts t rc sel out err (u64 (t1 - t0)) now txt) as [Hid Hfin].
    assert (Hnp : status (finished t rc sel out err (u64 (t1 - t0)) now txt) <> SCHED_TASK_STATUS_PENDING /\
                  status (finished t rc sel out err (u64 (t1 - t0)) now txt) <> SCHED_TASK_STATUS_RUNNING).
    { split; intros Ec; rewrite Ec in Hfin; set_solver. }
    split; cbn; [| |done].
    + exists L. apply (set_inv q L i t); try done; [by rewrite Hst|apply Hnp].
    + intros j. rewrite running_set, Hh by (by eapply lookup_lt_Some). cbn. destruct Hnp. naive_solver.
Qed.

Lemma start_ok r w : reg_ok cap r -> sys_ok (start r w).
Proof.
  intros Hr. split; [|intros i; split; [intros (t & Ht & _); done|done]|done].
  exists []. split; cbn [start sq tasks queue queue_head queue_tail].
  - unfold ring. rewrite length_replicate. split_and!; [done|apply Nat.ltb_lt; done|apply Nat.ltb_lt; done|done|done].
  - constructor.
  - intros i. split; [by intros ?%elem_of_nil|]. intros (t & Ht & _). done.
  - by apply NoDup_nil.
  - apply Nat.le_0_l.
Qed.

Lemma run_ok r w tr s : reg_ok cap r -> run (start r w) tr s -> sys_ok s.
Proof.
  intros Hr Hrun. remember (start r w) as s0 eqn:E0. induction Hrun as [s|s tr s1 l s2 Hrun IH Hst].
  - subst. by apply start_ok.
  - eapply step_ok; [|done]. auto.
Qed.

(** ** What a step does to a record *)

Definition final (t : task_record_t) : Prop :=
    status t ∈ [SCHED_TASK_STATUS_COMPLETED; SCHED_TASK_STATUS_FAILED; SCHED_TASK_STATUS_CANCELED].

(** The life of a task: the record is untouched, or it is taken, canceled or finished. *)
Definition evolves (l : label) (i : nat) (t t' : task_record_t) : Prop :=
    t' = t \/
    (l = LTake i /\ status t = SCHED_TASK_STATUS_PENDING /\ status t' = SCHED_TASK_STATUS_RUNNING) \/
    (l = LCancel (task_id t) AIRY_SUCCESS /\ status t = SCHED_TASK_STATUS_PENDING /\ status t' = SCHED_TASK_STATUS_CANCELED) \/
    (l = LFinish i /\ status t = SCHED_TASK_STATUS_RUNNING /\
     status t' ∈ [SCHED_TASK_STATUS_COMPLETED; SCHED_TASK_STATUS_FAILED]).

Lemma evolves_insert l j (ts : list task_record_t) (u u' : task_record_t) i t :
  ts !! j = Some u -> evolves l j u u' -> ts !! i = Some t -> exists t', <[j := u']> ts !! i = Some t' /\ evolves l i t t'.
Proof.
  intros Hu He Ht. destruct (decide (i = j)) as [->|Hne].
  - simplify_eq. exists u'. split; [|done]. apply list_lookup_insert_eq. by eapply lookup_lt_Some.
  - exists t. rewrite list_lookup_insert_ne by done. by split; [|left].
Qed.

Lemma step_evolves s l s' i t :
  sys_ok s -> step s l s' -> tasks (sq s) !! i = Some t -> exists t', tasks (sq s') !! i = Some t' /\ evolves l i t t'.
Proof.
  intros Hok Hst Hi. pose proof Hok as [[L HL] Hh Hr].
  assert (Hsame : forall t0, t0 = t -> evolves l i t t0) by (intros ? ->; by left).
  destruct Hst as [q r p b w info rc out q' w' E|q r p b w id rc q' w' E|q r p b w id j rc r' w' Hid E|q r p b w id rc r' w' E
    |q r p b w b' Hb|q r w j q' E|q r b w j u t0 w1 rc agent sel err r' w' Hu Et E|q r b w j u t0 rc a sel err rc' out err' w' Hu E
    |q r b w j t0 rc sel err|q r b w j t0 rc sel out err q' w' E]; cbn [sq] in *; try (by exists t; auto).
  - pose proof (submit_task_spec q L info w HL) as Hs. rewrite E in Hs. exists t. split; [|auto].
    destruct Hs as [_ [(_ & u & -> & _)|(_ & -> & _)]]; [by apply lookup_app_l_Some|done].
  - pose proof (cancel_task_spec q L id w HL) as Hs. rewrite E in Hs.
    destruct Hs as [_ [(-> & j & u & now & err & Hu & Hid & Hp & ->)|(_ & -> & _)]]; [|by exists t; auto].
    apply (evolves_insert _ j _ u); [done| |done]. subst id. right. right. left. by split_and!.
  - destruct (worker_take_spec q L HL) as [[_ E']|(k & j' & u & s' & Hk & Hu & Hp & E' & Hq & _)]; rewrite E' in E; simplify_eq.
    rewrite Hq. apply (evolves_insert _ j _ u); [done| |done]. right. left. by split_and!.
  - destruct (hand_running _ j Hok eq_refl) as (u & Hu & Hus). cbn [sq] in Hu. unfold worker_finish in E. rewrite Hu in E.
    destruct (task_wall_ms w) as [t1 w1], (task_wall_ms w1) as [now w2].
    destruct (if times_out u rc out _ then _ else _) as [txt w3]. simplify_eq. cbn [set_task tasks].
    apply (evolves_insert _ j _ u); [done| |done]. right. right. right. split_and!; [done|done|]. apply finished_facts.
Qed.

(** A task that is over stays as it is. *)
Lemma final_stays s l s' i t : sys_ok s -> step s l s' -> tasks (sq s) !! i = Some t -> final t -> tasks (sq s') !! i = Some t.
Proof.
  intros Hok Hst Hi Hf. destruct (step_evolves s l s' i t Hok Hst Hi) as (t' & Ht' & He). unfold final in Hf.
  destruct He as [->|[(_ & Hp & _)|[(_ & Hp & _)|(_ & Hp & _)]]]; [done|rewrite Hp in Hf; set_solver..].
Qed.

(** ** Executions *)

Definition is_exec (i : nat) (l : label) : bool := match l with LExec j _ => (i =? j)%nat | _ => false end.

Definition execs (i : nat) (tr : list label) : nat := length (filter (fun l => is_exec i l = true) tr).

(** How many executions a task may have had, and whether one is still due. *)
Definition allowance (q : task_queue) (i : nat) : nat :=
    match tasks q !! i with
    | Some t => match status t with
                | SCHED_TASK_STATUS_PENDING | SCHED_TASK_STATUS_CANCELED => 0
                | _ => 1
                end
    | None => 0
    end.

Definition due (p : phase) (i : nat) : nat :=
    match p with WTaken j | WChosen j _ _ _ _ _ => if (i =? j)%nat then 1 else 0 | _ => 0 end.

Lemma execs_snoc i tr l : execs i (tr ++ [l]) = (execs i tr + if is_exec i l then 1 else 0)%nat.
Proof.
  unfold execs. rewrite filter_app, length_app. f_equal. destruct (is_exec i l) eqn:E.
  - by rewrite filter_cons_True.
  - by rewrite filter_cons_False by (by rewrite E).
Qed.

Lemma allowance_evolves q q' l i :
  (forall t, tasks q !! i = Some t -> exists t', tasks q' !! i = Some t' /\ evolves l i t t') ->
  (allowance q i <= allowance q' i)%nat /\ (l = LTake i -> pending q i -> tasks q !! i <> tasks q' !! i -> (allowance q i + 1 <= allowance q' i)%nat).
Proof.
  intros Hev. unfold allowance, pending. destruct (tasks q !! i) as [t|]; [|split; [lia|intros _ (? & ? & _); done]].
  destruct (Hev t eq_refl) as (t' & -> & He).
  destruct He as [->|[(-> & Hp & Hp')|[(-> & Hp & Hp')|(-> & Hp & Hp')]]].
  - split; [lia|]. done.
  - rewrite Hp, Hp'. split; [lia|lia].
  - rewrite Hp, Hp'. split; [lia|done].
  - rewrite Hp. split; [|done]. assert (status t' = SCHED_TASK_STATUS_COMPLETED \/ status t' = SCHED_TASK_STATUS_FAILED) as [-> | ->]
      by set_solver; lia.
Qed.

(** One execution of each task is paid for by taking it. *)
Lemma step_execs s l s' i :
  sys_ok s -> step s l s' ->
  ((if is_exec i l then 1 else 0) + due (worker s') i + allowance (sq s) i <= due (worker s) i + allowance (sq s') i)%nat.
Proof.
  intros Hok Hst. destruct (allowance_evolves (sq s) (sq s') l i) as [Hle Htake].
  { intros t Ht. by apply (step_evolves s). }
  pose proof Hok as [[L HL] _ _].
  destruct Hst as [q r p b w info rc out q' w' E|q r p b w id rc q' w' E|q r p b w id j rc r' w' Hid E|q r p b w id rc r' w' E
    |q r p b w b' Hb|q r w j q' E|q r b w j u t0 w1 rc agent sel err r' w' Hu Et E|q r b w j u t0 rc a sel err rc' out err' w' Hu E
    |q r b w j t0 rc sel err|q r b w j t0 rc sel out err q' w' E]; cbn [sq worker is_exec due] in *; try lia.
  destruct (worker_take_spec q L HL) as [[_ E']|(k & j' & u & s' & Hk & Hu & Hp & E' & Hq & _)]; rewrite E' in E; simplify_eq.
    destruct (Nat.eqb_spec i j) as [->|Hne]; [|lia]. enough (allowance q j + 1 <= allowance q' j)%nat by lia.
    apply Htake; [done|by exists u|]. rewrite Hq, list_lookup_insert_eq by (by eapply lookup_lt_Some).
    rewrite Hu. intros Ec. simplify_eq. apply (f_equal status) in Ec. cbn in Ec. by rewrite Hp in Ec.
Qed.

Lemma run_execs r w tr s i :
  reg_ok cap r -> run (start r w) tr s -> (execs i tr + due (worker s) i <= allowance (sq s) i)%nat.
Proof.
  intros Hr Hrun. remember (start r w) as s0 eqn:E0. induction Hrun as [s|s tr s1 l s2 Hrun IH Hst].
  - subst. cbn. lia.
  - specialize (IH E0). subst. pose proof (step_execs s1 l s2 i (run_ok r w tr s1 Hr Hrun) Hst). rewrite execs_snoc. lia.
Qed.

(** ** Theorems *)

(** C8.  Whatever the interleaving of submissions, cancellations, agent changes
    and the worker: the ring of the queue holds exactly the pending tasks, in the
    order of their submission; the only task that is running is the one in the
    worker's hand; task names are unique and the table never overflows. *)
Theorem queue_reachable_inv (r : registry) (w : W) (tr : list label) (s : sys W) :
  reg_ok cap r -> run (start r w) tr s ->
  exists L, ring (queue (sq s)) (queue_head (sq s)) (queue_tail (sq s)) L /\ StronglySorted lt L /\
    (forall i, i ∈ L <-> pending (sq s) i) /\ (forall i, running (sq s) i <-> in_hand (worker s) = Some i) /\
    NoDup (task_id <$> tasks (sq s)) /\ (length (tasks (sq s)) <= AIRY_CAP_MAX_TASKS)%nat.
Proof.
  intros Hr Hrun. destruct (run_ok r w tr s Hr Hrun) as [[L [H1 H2 H3 H4 H5]] Hh _]. by exists L.
Qed.

(** A cancellation that succeeded has left its mark. *)
Lemma cancel_marks r w tr s id :
  reg_ok cap r -> run (start r w) tr s -> LCancel id AIRY_SUCCESS ∈ tr ->
  exists j t, tasks (sq s) !! j = Some t /\ task_id t = id /\ status t = SCHED_TASK_STATUS_CANCELED.
Proof.
  intros Hr Hrun. remember (start r w) as s0 eqn:E0. induction Hrun as [s|s tr s1 l s2 Hrun IH Hst]; [by intros ?%elem_of_nil|].
  specialize (IH E0). subst. pose proof (run_ok r w tr s1 Hr Hrun) as Hok. rewrite elem_of_app, list_elem_of_singleton. intros [Hin|Hl].
  - destruct (IH Hin) as (j & t & Ht & Hid & Hc). exists j, t. split; [|done].
    apply (final_stays s1 l s2); [done..|]. unfold final. rewrite Hc. set_solver.
  - subst l. pose proof Hok as [[L HL] _ _]. inversion Hst as [|q rg p b w0 id' rc q' w' E| | | | | | | |]; subst. cbn [sq] in *.
    pose proof (cancel_task_spec q L id w0 HL) as Hs. rewrite E in Hs.
    destruct Hs as [_ [(_ & j & t & now & err & Ht & Hid & _ & Hq)|(Hne & _)]]; [|by destruct Hne].
    exists j, (canceled t now err). rewrite Hq, list_lookup_insert_eq by (by eapply lookup_lt_Some). done.
Qed.

(** C9.  A task is executed at most once, whatever happens around it.  When
    [sched_service_cancel_task] has answered success for a name, the task of that
    name is there, is CANCELED, and no task of that name was ever executed or is
    executed by the next step.  The worker always takes the most urgent pending
    task, the oldest among equals. *)
Theorem task_run_once (r : registry) (w : W) (tr : list label) (s s' : sys W) (i : nat) (l : label) :
  reg_ok cap r -> run (start r w) tr s -> step s l s' ->
  (execs i tr <= 1)%nat /\
  (forall id, LCancel id AIRY_SUCCESS ∈ tr ->
     (exists j t, tasks (sq s) !! j = Some t /\ task_id t = id /\ status t = SCHED_TASK_STATUS_CANCELED) /\
     forall j t, tasks (sq s) !! j = Some t -> task_id t = id -> execs j tr = 0%nat /\ is_exec j l = false) /\
  (l = LTake i -> pending (sq s) i /\
     forall j, pending (sq s) j -> prio_of (sq s) j < prio_of (sq s) i \/ prio_of (sq s) j = prio_of (sq s) i /\ (i <= j)%nat).
Proof.
  intros Hr Hrun Hst. pose proof (run_ok r w tr s Hr Hrun) as Hok. split_and!.
  - pose proof (run_execs r w tr s i Hr Hrun). enough (allowance (sq s) i <= 1)%nat by lia. unfold allowance. repeat case_match; lia.
  - intros id Hc. pose proof (cancel_marks r w tr s id Hr Hrun Hc) as (j0 & t0 & Ht0 & Hid0 & Hs0). split; [by exists j0, t0|].
    intros j t Ht Hid. assert (j = j0) as ->.
    { destruct Hok as [[L [_ _ _ Hnd _]] _ _]. apply (NoDup_lookup _ j j0 id Hnd); rewrite list_lookup_fmap; [rewrite Ht|rewrite Ht0]; cbn; congruence. }
    simplify_eq. assert (Hf : final t0) by (unfold final; rewrite Hs0; set_solver).
    pose proof (final_stays s l s' j0 t0 Hok Hst Ht0 Hf) as Ht'.
    pose proof (run_execs r w tr s j0 Hr Hrun) as He. pose proof (run_execs r w _ s' j0 Hr (run_snoc _ _ _ _ _ Hrun Hst)) as He'.
    rewrite execs_snoc in He'. unfold allowance in He, He'. rewrite Ht0, Hs0 in He. rewrite Ht', Hs0 in He'. destruct (is_exec j0 l); lia.
  - intros ->. destruct Hok as [[L HL] _ _]. inversion Hst as [| | | | |q r0 w0 j q' E| | | |]; subst. cbn [sq].
    destruct (worker_take_spec q L HL) as [[_ E']|(k & j' & u & s2 & Hk & Hu & Hp & E' & Hq & _ & Hmax)]; rewrite E' in E; simplify_eq.
    split; [by exists u|done].
Qed.

(** What is over stays over: the record of a completed, failed or canceled task
    is never written again. *)
Theorem task_final (r : registry) (w : W) (tr tr' : list label) (s s' : sys W) (i : nat) (t : task_record_t) :
  reg_ok cap r -> run (start r w) tr s -> run s tr' s' -> tasks (sq s) !! i = Some t -> final t -> tasks (sq s') !! i = Some t.
Proof.
  intros Hr Hrun Hrun' Ht Hf. enough (sys_ok s' /\ tasks (sq s') !! i = Some t) by tauto.
  pose proof (run_ok r w tr s Hr Hrun) as Hok. clear Hrun. induction Hrun' as [s|s tr1 s1 l s2 Hrun' IH Hst]; [done|].
  destruct (IH Ht Hok) as [Hok1 Ht1]. split; [by eapply step_ok|by eapply final_stays].
Qed.

(** The worker is never stuck: switched on with a pending task, or holding one,
    it has a step to make. *)
Theorem worker_progress (r : registry) (w : W) (tr : list label) (s : sys W) :
  reg_ok cap r -> run (start r w) tr s ->
  (worker s = WIdle -> worker_run s = true -> (exists i, pending (sq s) i) -> exists i s', step s (LTake i) s') /\
  (forall i, in_hand (worker s) = Some i -> exists l s', step s l s' /\ (l = LChoose i \/ l = LSkip i \/ l = LFinish i \/ exists a, l = LExec i a)).
Proof.
  intros Hr Hrun. pose proof (run_ok r w tr s Hr Hrun) as Hok. destruct s as [q rg p b wd]. cbn [sq worker worker_run] in *. split.
  - intros -> -> [i Hi]. pose proof Hok as [[L HL] _ _].
    destruct (worker_take_spec q L HL) as [[-> _]|(k & j & t & s' & _ & _ & _ & E & _)].
    + destruct HL as [_ _ Hp _ _]. apply Hp in Hi. by apply elem_of_nil in Hi.
    + exists j, (mkSys s' rg (WTaken j) true wd). by apply st_take.
  - intros i Hi. destruct (hand_running _ i Hok Hi) as (t & Ht & _). cbn [sq] in Ht.
    destruct p as [|j|j t0 rc agent sel err|j t0 rc sel out err]; cbn in Hi; simplify_eq.
    + destruct (task_wall_ms wd) as [t0 w1] eqn:Et, (worker_select rg t w1) as [[[[[rc agent] sel] err] r'] w'] eqn:E.
      eexists _, _. split; [by eapply st_choose|by left].
    + destruct agent as [a|].
      * destruct (worker_exec executor t a wd) as [[[rc' out] err'] w'] eqn:E. eexists _, _.
        split; [by eapply st_exec|]. right. right. right. by exists a.
      * eexists _, _. split; [by apply st_skip|]. right. by left.
    + destruct (worker_finish q i t0 rc sel out err wd) as [q' w'] eqn:E. eexists _, _. split; [by eapply st_finish|]. right. right. by left.
Qed.
End system.

(** ** Divergences *)

(** Records are never released: once the table has been filled, no task is
    accepted any more, even when all of them are over. *)
Lemma table_exhausted {W} `{TaskOS W} (s : task_queue) (info : task_info_t) (w : W) :
  length (tasks s) = AIRY_CAP_MAX_TASKS ->
  (sched_service_submit_task s (Some info) w).1.1.1 ∈ [AIRY_ERR_OVERFLOW; AIRY_ERR_ALREADY_EXISTS].
Proof.
  intros Hl. unfold sched_service_submit_task.
  destruct (if match nonempty (info_id info) with Some _ => false | None => true end then task_time w else (0, w)) as [t w1].
  destruct (find_task _ _); [right; by left|]. cbn [tasks]. rewrite Hl. change (C <=? AIRY_CAP_MAX_TASKS)%nat with true.
  rewrite orb_true_r. by left.
Qed.

(** A longer name is stored cut to 63 characters, and the name the client gave
    finds nothing. *)
Lemma long_name_lost (s : task_queue) (id : string) :
  (forall t, t ∈ tasks s -> (String.length (task_id t) <= 63)%nat) -> (63 < String.length id)%nat ->
  sched_service_get_task s (Some id) = (AIRY_ERR_NOT_FOUND, None).
Proof.
  intros Hall Hl. unfold sched_service_get_task. pose proof (find_task_spec s id) as Hf.
  destruct (find_task s id) as [i|]; [|done]. destruct Hf as (t & Ht & <-).
  assert (Hin : t ∈ tasks s) by (by eapply list_elem_of_lookup_2). specialize (Hall t Hin). lia.
Qed.

(** ** A run *)

#[export] Instance toy_mem : MemOS unit := {|
  os_alloc w := (true, w); os_time_ns w := (0, w); os_rand w := (0, w); self_addr := 0; tok_counter := unit;
  tok_create _ w := (Some tt, w); tok_count _ _ := 0; AIRY_TOKEN_MODEL_NAME_DEFAULT := ""%string |}.

#[export] Instance toy_mac : MacOS unit := {|
  mac_framework_unregister_agent _ w := w; mac_framework_register_agent _ w := w |}.

#[export] Instance toy_task : TaskOS unit := {|
  task_wall_ms w := (5, w); task_time w := (5, w); hall_evt_write _ _ w := w |}.

Definition toy_reg : registry := mkReg SCHED_STRATEGY_WEIGHTED [] 0 0 false 0.

Definition toy_q0 : task_queue := mkQ [] (replicate C None) 0 0 0.
Definition toy_q1 : task_queue := (sched_service_submit_task toy_q0 (Some (mkInfo (Some "a"%string) None 0 0)) tt).1.2.
Definition toy_q2 : task_queue := (sched_service_submit_task toy_q1 (Some (mkInfo None None 3 0)) tt).1.2.
Definition toy_q3 : task_queue := match worker_take toy_q2 with Some (_, q) => q | None => toy_q2 end.

Definition toy_trace : list label :=
  [LSwitch; LSubmit AIRY_SUCCESS (Some "a"%string); LSubmit AIRY_SUCCESS (Some "task_5_0"%string)].

Lemma toy_run : run (H0 := snprintf_s) 8 64 64 None (start toy_reg tt) toy_trace
  (mkSys toy_q2 toy_reg WIdle true tt).
Proof.
  change toy_trace with ((([] ++ [LSwitch]) ++ [LSubmit AIRY_SUCCESS (Some "a"%string)]) ++
    [LSubmit AIRY_SUCCESS (Some "task_5_0"%string)]).
  apply run_snoc with (mkSys toy_q1 toy_reg WIdle true tt); [apply run_snoc with (mkSys toy_q0 toy_reg WIdle true tt);
    [apply run_snoc with (start toy_reg tt); [apply run_nil|by apply st_switch]|]|].
  - apply st_submit with (Some (mkInfo (Some "a"%string) None 0 0)). vm_compute. reflexivity.
  - apply st_submit with (Some (mkInfo None None 3 0)). vm_compute. reflexivity.
Qed.

Lemma toy_take : step (H0 := snprintf_s) 8 64 64 None (mkSys toy_q2 toy_reg WIdle true tt) (LTake 1)
  (mkSys toy_q3 toy_reg (WTaken 1) true tt).
Proof. apply st_take. vm_compute. reflexivity. Qed.

Lemma toy_reg_ok : reg_ok 8 toy_reg.
Proof. split; [by apply NoDup_nil|cbn; lia]. Qed.

(** Two tasks wait and nothing runs. *)
Lemma queue_reachable_inv_witness :
  NoDup (task_id <$> tasks toy_q2) /\ (task_id <$> tasks toy_q2) = ["a"%string; "task_5_0"%string].
Proof.
  split; [|vm_compute; reflexivity].
  pose proof (queue_reachable_inv (H0 := snprintf_s) 8 64 64 None toy_reg tt toy_trace _ toy_reg_ok toy_run) as (L & _ & _ & _ & _ & Hnd & _).
  exact Hnd.
Defined.

(** The urgent task is taken first, although it came second. *)
Lemma task_run_once_witness : (execs 1 toy_trace <= 1)%nat /\ prio_of toy_q2 0 < prio_of toy_q2 1.
Proof.
  split; [|vm_compute; reflexivity].
  pose proof (task_run_once (H0 := snprintf_s) 8 64 64 None toy_reg tt toy_trace _ _ 1 (LTake 1) toy_reg_ok toy_run toy_take) as (H1 & _).
  exact H1.
Defined.
