(* ===== verification/Executor.v ===== *)
(** * Executor

    The tool executor of tool_d (tool_d/src/core/executor.c, with the dispatch of
    builtin tools in tool_d/src/builtin/builtin.c): a call is admitted by the
    approval gate of file Approval, then run as a builtin tool or as a process in
    the sandbox, and its outcome is classified.

    The builtin tools, the sandbox with the process it starts and the event
    stream are operations of a class. *)

From stdpp Require Import relations.
From S2P Require Import Prelude Security Approval.

(** ** Data *)

Inductive tool_result_class_t :=
| TOOL_RESULT_CLASS_SUCCESS
| TOOL_RESULT_CLASS_NORMAL_FAIL
| TOOL_RESULT_CLASS_RESPOND_TO_MODEL
| TOOL_RESULT_CLASS_FATAL.

Record tool_metadata_t := mkMeta {
  meta_id : option string;
  meta_name : option string;
  meta_executable : option string;
  meta_timeout_sec : Z
}.

Record tool_result_t := mkRes {
  success : bool;
  res_output : option string;
  res_error : option string;
  exit_code : Z;
  duration_ms : Z;
  failure_class : tool_result_class_t
}.

(** [AIRY_CALLOC] of a result. *)
Definition res_zero : tool_result_t := mkRes false None None 0 0 TOOL_RESULT_CLASS_SUCCESS.

Record tool_executor := mkExec {
  timeout_sec : Z;
  max_workers : Z;
  total_executions : Z;
  success_count : Z;
  has_gate : bool;
  has_sandbox : bool
}.

Class ToolOS (W : Type) := {
  tool_approval_os :: ApprovalOS W;
  tool_time : W -> Z * W;
  (** One builtin tool: parameters and budget; code and result. *)
  builtin_fn : string -> option (option string -> Z -> tool_result_t -> W -> (airy_rc * tool_result_t) * W);
  (** The sandbox: executable, second argument, budget; its code, the exit value and the captured text. *)
  sandbox_invoke : string -> option string -> Z -> W -> (airy_rc * Z * string) * W;
  tool_hall_write : string -> option string -> tool_result_t -> W -> W
}.

(** ** Creation *)

(** [sb]: the sandbox could be created; [None] without memory or lock. *)
Definition tool_executor_create (cfg : option (Z * Z)) (mem lock sb : bool) : option tool_executor :=
  let '(t, m) := default (30, 0) cfg in
  if mem && lock then Some (mkExec (if t =? 0 then 30 else t) m 0 0 false sb) else None.

Definition exec_set_gate (e : tool_executor) (g : bool) : tool_executor :=
  mkExec (timeout_sec e) (max_workers e) (total_executions e) (success_count e) g (has_sandbox e).

Definition executor_timeout_sec (e : tool_executor) : Z := if 0 <? timeout_sec e then timeout_sec e else 30.

Definition executor_budget_ms (e : tool_executor) (meta : tool_metadata_t) : Z :=
  let per_tool := if 0 <? meta_timeout_sec meta then meta_timeout_sec meta else 0 in
  u32 (u32 (if 0 <? per_tool then per_tool else executor_timeout_sec e) * 1000).

Definition executor_max_workers (e : tool_executor) : Z := max_workers e.

Section run.
  Context {W : Type} `{ToolOS W} (rsz psz : nat).
  Context (block : string -> string -> option string -> W -> airy_approval_outcome_t * W).

Definition strdup (s : string) (w : W) : option string * W :=
    let '(ok, w) := ap_alloc w in (if ok : bool then Some s else None, w).

(** [msg] is the text handed over. *)
Definition tool_fail (r : tool_result_t) (msg : option string) (cls : tool_result_class_t) (err : airy_rc) (w : W)
      : airy_rc * tool_result_t * W :=
    let '(out, w) := strdup "" w in (err, mkRes false out msg (-1) (duration_ms r) cls, w).

Definition count_success (e : tool_executor) : tool_executor :=
    mkExec (timeout_sec e) (max_workers e) (total_executions e) (u64 (success_count e + 1)) (has_gate e) (has_sandbox e).

Definition count_run (e : tool_executor) : tool_executor :=
    mkExec (timeout_sec e) (max_workers e) (u64 (total_executions e + 1)) (success_count e) (has_gate e) (has_sandbox e).

(** The exit value on the record: 0 success, -1 not started, -2 out of time,
    below a signal. *)
Definition tool_set_exit (e : tool_executor) (r : tool_result_t) (ret : Z) (w : W) : tool_executor * tool_result_t * W :=
    if ret =? 0 then (count_success e, mkRes true (res_output r) (res_error r) 0 (duration_ms r) TOOL_RESULT_CLASS_SUCCESS, w)
    else if ret =? -1 then
      let '(m, w) := strdup "Failed to execute command: execvp failed" w in
      (e, mkRes false (res_output r) m ret (duration_ms r) TOOL_RESULT_CLASS_RESPOND_TO_MODEL, w)
    else if ret =? -2 then
      let '(m, w) := strdup "Command timed out" w in
      (e, mkRes false (res_output r) m (-1) (duration_ms r) TOOL_RESULT_CLASS_NORMAL_FAIL, w)
    else
      let text := if 0 <? ret then "Command exited with code " +:+ print_d ret else "Command killed by signal " +:+ print_d (- ret) in
      let '(m, w) := strdup (snprintf_s 256 text) w in
      (e, mkRes false (res_output r) m ret (duration_ms r) TOOL_RESULT_CLASS_NORMAL_FAIL, w).

Definition set_duration (d : Z) (r : tool_result_t) : tool_result_t :=
    mkRes (success r) (res_output r) (res_error r) (exit_code r) d (failure_class r).

Definition set_class (c : tool_result_class_t) (r : tool_result_t) : tool_result_t :=
    mkRes (success r) (res_output r) (res_error r) (exit_code r) (duration_ms r) c.

(** [(uint32_t)((time(NULL) - start) * 1000)] *)
Definition since (start : Z) (w : W) : Z * W := let '(now, w) := tool_time w in (u32 ((now - start) * 1000), w).

Definition tool_builtin_is_builtin (executable : string) : bool :=
    match strip_prefix "builtin:" executable with Some _ => true | None => false end.

Definition tool_builtin_run (id params : option string) (budget : Z) (r : tool_result_t) (w : W)
      : (airy_rc * tool_result_t) * W :=
    match id with
    | None => ((AIRY_ERR_INVALID_PARAM, r), w)
    | Some id =>
        match builtin_fn id with
        | Some fn => fn params budget r w
        | None =>
            let '(m, w) := strdup "Unknown builtin tool" w in
            ((AIRY_ERR_EXEC_NOT_FOUND, mkRes (success r) (res_output r) m (exit_code r) (duration_ms r) (failure_class r)), w)
        end
    end.

Definition tool_builtin_exec (e : tool_executor) (meta : tool_metadata_t) (params : option string) (r : tool_result_t)
      (start : Z) (w : W) : airy_rc * tool_executor * tool_result_t * W :=
    let '((rc, r), w) := tool_builtin_run (meta_id meta) params (executor_budget_ms e meta) r w in
    let '(d, w) := since start w in
    let r := set_duration d r in
    if bool_decide (rc = AIRY_SUCCESS) && success r
    then (rc, count_success e, set_class TOOL_RESULT_CLASS_SUCCESS r, w)
    else (rc, e, set_class TOOL_RESULT_CLASS_NORMAL_FAIL r, w).

Definition nonempty (s : option string) : option string :=
    match s with Some x => if strcmp_eq x "" then None else Some x | None => None end.

Definition tool_hall_emit_result (meta : tool_metadata_t) (caller : option string) (r : tool_result_t) (w : W) : W :=
    let task := match nonempty caller with Some c => c | None => default "tools"%string (nonempty (meta_id meta)) end in
    tool_hall_write task (meta_id meta) r w.

(** What [tool_executor_run] does before it starts anything: a refusal, or the
    executable with the state after the gate.  [interactive]: the gate's request
    manager is enabled. *)
Definition executor_admit (e : tool_executor) (interactive : bool) (meta : tool_metadata_t) (params caller : option string)
      (s : ap_state W) : (airy_rc * tool_result_t * ap_state W) + (string * ap_state W) :=
    let refuse msg cls err :=
      let '(m, w) := strdup msg (world s) in
      let '(rc, r, w) := tool_fail res_zero m cls err w in inl (rc, r, set_world w s) in
    match nonempty (meta_executable meta) with
    | None => refuse "No executable specified in tool metadata"%string TOOL_RESULT_CLASS_RESPOND_TO_MODEL AIRY_ERR_INVALID_PARAM
    | Some exe =>
        if negb (has_gate e)
        then refuse "Safety approval system not configured (approval gate is NULL)"%string TOOL_RESULT_CLASS_FATAL AIRY_EPERM
        else
          let '(v, reason, s) := gate_ask rsz psz block interactive caller (Some (meta_name meta)) params s in
          match v with
          | APPROVAL_GATE_ALLOWED => inr (exe, s)
          | APPROVAL_GATE_DENIED =>
              let '(m, w) := match reason with
                             | Some r => (Some r, world s)
                             | None => strdup "Tool execution denied by safety guard" (world s)
                             end in
              let '(rc, r, w) := tool_fail res_zero m TOOL_RESULT_CLASS_RESPOND_TO_MODEL AIRY_EPERM w in
              inl (rc, r, set_world w s)
          end
    end.

(** The tool itself. *)
Definition executor_start (e : tool_executor) (exe : string) (meta : tool_metadata_t) (params caller : option string)
      (start : Z) (w : W) : airy_rc * tool_executor * tool_result_t * W :=
    if tool_builtin_is_builtin exe then
      let '(rc, e, r, w) := tool_builtin_exec e meta params res_zero start w in
      (rc, e, r, tool_hall_emit_result meta caller r w)
    else
      let '(ok, w) := ap_alloc w in
      if negb ok then
        let '(d, w) := since start w in
        let '(m, w) := strdup "Memory allocation failed for output buffer" w in
        let '(rc, r, w) := tool_fail (set_duration d res_zero) m TOOL_RESULT_CLASS_FATAL AIRY_ERR_OUT_OF_MEMORY w in (rc, e, r, w)
      else if negb (has_sandbox e) then
        let '(d, w) := since start w in
        let '(m, w) := strdup "Sandbox not configured (initialization failed)" w in
        let '(rc, r, w) := tool_fail (set_duration d res_zero) m TOOL_RESULT_CLASS_FATAL AIRY_EPERM w in (rc, e, r, w)
      else
        let '((sb, ret, out), w) := sandbox_invoke exe (nonempty params) (executor_budget_ms e meta) w in
        if negb (bool_decide (sb = AIRY_SUCCESS)) then
          let '(d, w) := since start w in
          let '(m, w) := strdup "Tool execution denied by sandbox (permission/quota/state)" w in
          let '(rc, r, w) := tool_fail (set_duration d res_zero) m TOOL_RESULT_CLASS_FATAL AIRY_EPERM w in (rc, e, r, w)
        else
          let r := mkRes (success res_zero) (Some out) None (exit_code res_zero) (duration_ms res_zero) (failure_class res_zero) in
          let '(e, r, w) := tool_set_exit e r ret w in
          let '(d, w) := since start w in
          let r := set_duration d r in
          (AIRY_SUCCESS, e, r, tool_hall_emit_result meta caller r w).

(** The result is missing when there is no memory for it. *)
Definition tool_executor_run (e : tool_executor) (interactive : bool) (meta : option tool_metadata_t)
      (params agent : option string) (s : ap_state W) : airy_rc * option tool_result_t * tool_executor * ap_state W :=
    match meta with
    | None => (AIRY_ERR_INVALID_PARAM, None, e, s)
    | Some meta =>
        let caller := nonempty agent in
        let '(ok, w) := ap_alloc (world s) in
        if negb ok then (AIRY_ERR_OUT_OF_MEMORY, None, e, set_world w s)
        else
          let e := count_run e in
          let '(start, w) := tool_time w in
          match executor_admit e interactive meta params caller (set_world w s) with
          | inl (rc, r, s) => (rc, Some r, e, s)
          | inr (exe, s) =>
              let '(rc, e, r, w) := executor_start e exe meta params caller start (world s) in (rc, Some r, e, set_world w s)
          end
    end.
End run.

(** ** Admission *)

Section admission.
  Context {W : Type} `{ToolOS W} (rsz psz : nat).
  Context (block : string -> string -> option string -> W -> airy_approval_outcome_t * W).
  Notation run := (tool_executor_run rsz psz block).
  Notation admission_of := (executor_admit rsz psz block).
  Notation ask := (gate_ask rsz psz block).

(** A world after allocations only. *)
Definition only_allocs : W -> W -> Prop := rtc (fun w w' => w' = (ap_alloc w).2).

Lemma strdup_allocs s (w : W) : only_allocs w (strdup s w).2.
Proof. unfold strdup. destruct (ap_alloc w) as [ok w'] eqn:E. apply rtc_once. by rewrite E. Qed.

Lemma fail_spec (w0 w : W) r m cls err :
  only_allocs w0 w -> err <> AIRY_SUCCESS ->
  let '(rc, r, w') := tool_fail r m cls err w in rc <> AIRY_SUCCESS /\ success r = false /\ only_allocs w0 w'.
Proof.
  intros Hw He. unfold tool_fail. pose proof (strdup_allocs "" w) as Hs. destruct (strdup "" w). split_and!; [done|done|by etrans].
Qed.

(** Who consents to a call of [exe]: the static check, or the user. *)
Definition consented (interactive : bool) (name params caller : option string) (s : ap_state W) : Prop :=
    let '(_, _, s1) := tool_approval_check_for_agent rsz psz caller name params s in
    static_ok caller name params s \/
    interactive = true /\
    (block (default "?"%string name) (default (ctx_agent (ctx s1)) caller) params (world s1)).1 <> AIRY_APPROVAL_DENIED.

Lemma ask_consented interactive name params caller s :
  (ask interactive caller (Some name) params s).1.1 = APPROVAL_GATE_ALLOWED <-> consented interactive name params caller s.
Proof.
  pose proof (gate_spec rsz psz block interactive caller (Some name) params s) as Hg. unfold consented.
  destruct (ask interactive caller (Some name) params s) as [[v r] s']. cbn [fst].
  destruct (tool_approval_check_for_agent rsz psz caller name params s) as [[rc d] s1]. by destruct Hg as [Hg _].
Qed.

(** A call is admitted exactly when there is something to execute, a gate, and
    consent; a refusal names a code other than success and has done nothing but
    ask the gate and allocate. *)
Lemma admit_exact e interactive meta params caller s :
  match admission_of e interactive meta params caller s with
  | inr (exe, s') => nonempty (meta_executable meta) = Some exe /\ has_gate e = true /\
      consented interactive (meta_name meta) params caller s /\
      s' = (ask interactive caller (Some (meta_name meta)) params s).2
  | inl (rc, r, s') =>
      rc <> AIRY_SUCCESS /\ success r = false /\
      (nonempty (meta_executable meta) = None \/ has_gate e = false \/ ~ consented interactive (meta_name meta) params caller s) /\
      (only_allocs (world s) (world s') \/
       only_allocs (world (ask interactive caller (Some (meta_name meta)) params s).2) (world s'))
  end.
Proof.
  unfold executor_admit. destruct (nonempty (meta_executable meta)) as [exe|]; [destruct (has_gate e)|]; cbn [negb].
  - pose proof (ask_consented interactive (meta_name meta) params caller s) as Hc.
    destruct (ask interactive caller (Some (meta_name meta)) params s) as [[v reason] sg]. cbn [fst snd] in *.
    destruct v; [|by split_and!; try done; apply Hc].
    set (dup := match reason with Some r => _ | None => _ end).
    assert (Hd : only_allocs (world sg) dup.2) by (subst dup; destruct reason; [apply rtc_refl|apply strdup_allocs]).
    destruct dup as [m w]. cbn [snd] in Hd.
    pose proof (fail_spec (world sg) w res_zero m TOOL_RESULT_CLASS_RESPOND_TO_MODEL AIRY_EPERM Hd ltac:(done)) as Hf.
    destruct (tool_fail _ _ _ _ w) as [[rc r] w']. destruct Hf as (? & ? & ?).
    split_and!; [done|done|right; right; by intros ?%Hc|by right].
  - pose proof (strdup_allocs "Safety approval system not configured (approval gate is NULL)" (world s)) as Hd.
    destruct (strdup _ (world s)) as [m w].
    pose proof (fail_spec (world s) w res_zero m TOOL_RESULT_CLASS_FATAL AIRY_EPERM Hd ltac:(done)) as Hf.
    destruct (tool_fail _ _ _ _ w) as [[rc r] w']. destruct Hf as (? & ? & ?). split_and!; [done|done|auto|by left].
  - pose proof (strdup_allocs "No executable specified in tool metadata" (world s)) as Hd.
    destruct (strdup _ (world s)) as [m w].
    pose proof (fail_spec (world s) w res_zero m TOOL_RESULT_CLASS_RESPOND_TO_MODEL AIRY_ERR_INVALID_PARAM Hd ltac:(done)) as Hf.
    destruct (tool_fail _ _ _ _ w) as [[rc r] w']. destruct Hf as (? & ? & ?). split_and!; [done|done|auto|by left].
Qed.

(** A world after allocations and readings of the clock only. *)
Definition idle : W -> W -> Prop := rtc (fun w w' => w' = (ap_alloc w).2 \/ w' = (tool_time w).2).

Lemma idle_alloc (w : W) : idle w (ap_alloc w).2.
Proof. apply rtc_once. by left. Qed.

Lemma strdup_idle s (w : W) : idle w (strdup s w).2.
Proof. unfold strdup. pose proof (idle_alloc w). by destruct (ap_alloc w). Qed.

Lemma since_idle start (w : W) : idle w (since start w).2.
Proof. unfold since. destruct (tool_time w) as [t w'] eqn:E. apply rtc_once. right. by rewrite E. Qed.

(** The way out of a tool that was not started. *)
Lemma not_started_spec start msg cls err (w : W) :
  err <> AIRY_SUCCESS ->
  let '(d, w1) := since start w in
  let '(m, w2) := strdup msg w1 in
  let '(rc, r, w3) := tool_fail (set_duration d res_zero) m cls err w2 in
  rc = err /\ success r = false /\ idle w w3.
Proof.
  intros He. pose proof (since_idle start w) as H1. destruct (since start w) as [d w1].
  pose proof (strdup_idle msg w1) as H2. destruct (strdup msg w1) as [m w2]. unfold tool_fail.
  pose proof (strdup_idle "" w2) as H3. destruct (strdup "" w2) as [o w3]. cbn [snd] in *.
  split_and!; [done|done|]. by etrans; [|etrans].
Qed.

(** What becomes of an admitted call of [exe] in world [w]: which tool it
    starts, with which parameters, and the answer that follows. *)
Definition outcome_of (e : tool_executor) (exe : string) (meta : tool_metadata_t) (params : option string) (w : W)
      (rc : airy_rc) (r : tool_result_t) (w' : W) : Prop :=
    let budget := executor_budget_ms e meta in
    match strip_prefix "builtin:" exe with
    | Some _ =>
        match meta_id meta ≫= builtin_fn with
        | Some fn => let '((code, r0), _) := fn params budget res_zero w in rc = code /\ success r = success r0
        | None => rc <> AIRY_SUCCESS /\ success r = false
        end
    | None =>
        let '(ok, w1) := ap_alloc w in
        if ok && has_sandbox e then
          let '((sb, ret, _), _) := sandbox_invoke exe (nonempty params) budget w1 in
          if bool_decide (sb = AIRY_SUCCESS) then rc = AIRY_SUCCESS /\ (success r = true <-> ret = 0)
          else rc = AIRY_EPERM /\ success r = false
        else rc <> AIRY_SUCCESS /\ success r = false /\ idle w w'
    end.

Lemma set_exit_success e r ret (w : W) : success (tool_set_exit e r ret w).1.2 = true <-> ret = 0.
Proof.
  unfold tool_set_exit. destruct (Z.eqb_spec ret 0) as [->|Hn]; [done|].
  destruct (ret =? -1); [|destruct (ret =? -2)]; destruct (strdup _ w) as [m w']; done.
Qed.

Lemma sandbox_outcome e meta params caller exe start w (out : (airy_rc * Z * string) * W) :
  sandbox_invoke exe (nonempty params) (executor_budget_ms e meta) (ap_alloc w).2 = out -> (ap_alloc w).1 = true ->
  has_sandbox e = true -> strip_prefix "builtin:" exe = None ->
  let '(rc, e', r, w') := executor_start e exe meta params caller start w in
  if bool_decide (out.1.1.1 = AIRY_SUCCESS) then rc = AIRY_SUCCESS /\ (success r = true <-> out.1.1.2 = 0)
  else rc = AIRY_EPERM /\ success r = false.
Proof.
  intros Ho Ha Hs Hb. unfold executor_start, tool_builtin_is_builtin. rewrite Hb. destruct (ap_alloc w) as [ok w1].
  cbn [fst snd] in *. subst ok. rewrite Hs. cbn [negb]. rewrite Ho. destruct out as [[[sb ret] text] w2]. cbn [fst snd].
  case_bool_decide as Hd; cbn [negb].
  - match goal with |- context[tool_set_exit ?a ?b ?c ?d] => pose proof (set_exit_success a b c d) as Hx;
      destruct (tool_set_exit a b c d) as [[e2 r2] w3] end.
    cbn [fst snd] in Hx. destruct (since start w3) as [t w4]. split; [done|]. exact Hx.
  - pose proof (not_started_spec start "Tool execution denied by sandbox (permission/quota/state)" TOOL_RESULT_CLASS_FATAL
      AIRY_EPERM w2 ltac:(done)) as Hg.
    destruct (since start w2) as [t w3]. destruct (strdup _ w3) as [m w4]. destruct (tool_fail _ _ _ _ w4) as [[rc r] w5].
    by destruct Hg as (? & ? & _).
Qed.

Lemma start_outcome e exe meta params caller start w :
  let '(rc, e', r, w') := executor_start e exe meta params caller start w in
  outcome_of e exe meta params w rc r w'.
Proof.
  unfold outcome_of. destruct (strip_prefix "builtin:" exe) eqn:Eb.
  - unfold executor_start, tool_builtin_is_builtin, tool_builtin_exec, tool_builtin_run. rewrite Eb.
    destruct (meta_id meta) as [id|]; cbn [mbind option_bind].
    2: { destruct (since start w) as [d w1]. by cbn. }
    destruct (builtin_fn id) as [fn|].
    + destruct (fn params _ res_zero w) as [[code r0] w1]. destruct (since start w1) as [d w2].
      by destruct (bool_decide (code = AIRY_SUCCESS) && success (set_duration d r0)).
    + destruct (strdup _ w) as [m w1]. destruct (since start w1) as [d w2]. by cbn.
  - destruct (ap_alloc w) as [ok w1] eqn:Ea. destruct (ok && has_sandbox e) eqn:Eg.
    + apply andb_true_iff in Eg as [-> Hs].
      pose proof (sandbox_outcome e meta params caller exe start w _ eq_refl ltac:(by rewrite Ea) Hs Eb) as Hx.
      rewrite Ea in Hx. cbn [snd] in Hx. destruct (executor_start e exe meta params caller start w) as [[[rc e'] r] w'].
      by destruct (sandbox_invoke _ _ _ w1) as [[[sb ret] text] w2].
    + pose proof (idle_alloc w) as H1. rewrite Ea in H1. cbn [snd] in H1.
      unfold executor_start, tool_builtin_is_builtin. rewrite Eb, Ea. destruct ok; cbn [negb andb] in *; [rewrite Eg; cbn [negb]|].
      * pose proof (not_started_spec start "Sandbox not configured (initialization failed)" TOOL_RESULT_CLASS_FATAL AIRY_EPERM w1
          ltac:(done)) as Hg. destruct (since start w1) as [t w3]. destruct (strdup _ w3) as [m w4].
        destruct (tool_fail _ _ _ _ w4) as [[rc r] w5]. destruct Hg as (-> & ? & ?). split_and!; [done|done|by etrans].
      * pose proof (not_started_spec start "Memory allocation failed for output buffer" TOOL_RESULT_CLASS_FATAL
          AIRY_ERR_OUT_OF_MEMORY w1 ltac:(done)) as Hg. destruct (since start w1) as [t w3]. destruct (strdup _ w3) as [m w4].
        destruct (tool_fail _ _ _ _ w4) as [[rc r] w5]. destruct Hg as (-> & ? & ?). split_and!; [done|done|by etrans].
Qed.

(** C16.  No tool runs without consent.  When the metadata name nothing to
    execute, or no gate is attached, or the gate does not consent (statically or
    through the user), the call ends with an error and has done nothing but ask
    the gate and allocate memory: no builtin tool, no process in the sandbox, no
    event.  An admitted call runs the builtin function of the tool's identifier
    with the caller's parameters and the tool's budget and returns its code and
    its success, whether or not there is a sandbox; any other executable is
    handed to the sandbox with the caller's parameters (none when they are
    empty), succeeds exactly when the sandbox admits it and its exit value is 0,
    and without a sandbox or memory for its output is not started at all. *)
Theorem no_unapproved_run (e : tool_executor) (interactive : bool) (meta : tool_metadata_t) (params agent : option string)
    (s : ap_state W) :
  let caller := nonempty agent in
  let '(ok, w0) := ap_alloc (world s) in
  let '(start, w1) := tool_time w0 in
  let s1 := set_world w1 s in
  let sg := (ask interactive caller (Some (meta_name meta)) params s1).2 in
  let '(rc, res, e', s') := run e interactive (Some meta) params agent s in
  let go := ok = true /\ is_Some (nonempty (meta_executable meta)) /\ has_gate e = true /\
            consented interactive (meta_name meta) params caller s1 in
  (~ go -> rc <> AIRY_SUCCESS /\ success_count e' = success_count e /\
     (s' = set_world w0 s \/ only_allocs w1 (world s') \/ only_allocs (world sg) (world s'))) /\
  (forall exe, go -> nonempty (meta_executable meta) = Some exe ->
     exists r, res = Some r /\ outcome_of e exe meta params (world sg) rc r (world s')).
Proof.
  intros caller. unfold tool_executor_run. destruct (ap_alloc (world s)) as [ok w0]. destruct (tool_time w0) as [start w1].
  cbn zeta. destruct ok; cbn [negb]; [|split; [intros _; auto|by intros exe (? & _)]]. fold caller.
  pose proof (admit_exact (count_run e) interactive meta params caller (set_world w1 s)) as Ha.
  destruct (admission_of (count_run e) interactive meta params caller (set_world w1 s)) as [[[rc r] s']|[exe s']].
  - destruct Ha as (Hrc & Hsucc & Hwhy & Hw). split; [intros _; split_and!; [done|done|by right]|].
    intros exe (_ & [x Hx] & Hg & Hc) Hexe. destruct Hwhy as [Hn|[Hn|Hn]]; [by rewrite Hexe in Hn|cbn in Hn; by rewrite Hg in Hn|done].
  - destruct Ha as (Hexe & Hg & Hc & ->).
    pose proof (start_outcome (count_run e) exe meta params caller start
      (world (ask interactive caller (Some (meta_name meta)) params (set_world w1 s)).2)) as Ho.
    destruct (executor_start (count_run e) exe meta params caller start _) as [[[rc e1] r] w] eqn:E. split.
    + intros Hn. exfalso. apply Hn. split_and!; [done|by rewrite Hexe|done|done].
    + intros exe' _ Hexe'. simplify_eq. exists r. split; [done|]. exact Ho.
Qed.
End admission.

(** ** Divergences *)

(** A budget of more than 4294967 seconds wraps around. *)
Lemma budget_wraps : executor_budget_ms (mkExec 30 2 0 0 true true) (mkMeta None None None 4294968) = 704.
Proof. vm_compute. reflexivity. Qed.
