(* ===== verification/ExecPool.v ===== *)
(** * ExecPool

    The worker pool of tool_d (tool_d/src/core/executor_pool.c): callers put a
    job into a bounded queue and wait for it with a deadline; workers take jobs
    and run them.  A job belongs to the caller that waits for it, or, after the
    caller gave up, to the worker that finishes it.

    Everything between a lock and an unlock is one step; releasing a job happens
    outside the lock and is a step of its own.  A job is its address; the heap
    holds the jobs that are allocated, so a step that touches a job which is not
    there is a use after free. *)

From stdpp Require Import gmap.
From S2P Require Import Prelude Executor.

(** ** Data *)

Definition POOL_QUEUE_CAP : nat := 64.
Definition POOL_WORKER_MAX : Z := 8.
Definition POOL_WORKER_DEFAULT : Z := 2.
Definition WAIT_SLACK_MS : Z := 2000.

Record pool_job := mkJob {
  job_meta : tool_metadata_t;
  job_params : option string;
  job_agent : option string;
  job_result : option tool_result_t;
  job_ret : airy_rc;
  done : bool;
  detached : bool
}.

Record executor_pool := mkPool {
  queue : list (option positive);
  head : nat;
  tail : nat;
  count : nat;
  running : nat;
  shutdown : bool
}.

(** ** Sizes and budgets *)

(** The number of workers: environment, configuration, default. *)
Definition pool_workers (e : tool_executor) (env : option string) : Z :=
  let w := executor_max_workers e in
  let w := if (w <? 1) || (POOL_WORKER_MAX <? w) then POOL_WORKER_DEFAULT else w in
  match env with
  | Some s => if strcmp_eq s "" then w
              else let v := (strtol s).1 in if (1 <=? v) && (v <=? POOL_WORKER_MAX) then v else w
  | None => w
  end.

(** [interactive_ms]: the ceiling of the interactive approval. *)
Definition wait_budget_ms (e : tool_executor) (meta : tool_metadata_t) (interactive_ms : Z) (env : option string) : Z :=
  let normal := u64 (u64 (executor_budget_ms e meta + WAIT_SLACK_MS) + interactive_ms) in
  match env with
  | Some s => if strcmp_eq s "" then normal else let v := (strtol s).1 in if 0 <? v then u64 v else normal
  | None => normal
  end.

(** ** The queue *)

Definition new_job (meta : tool_metadata_t) (params agent : option string) : pool_job :=
  mkJob meta params agent None AIRY_SUCCESS false false.

Definition pool_push (p : executor_pool) (j : positive) : executor_pool :=
  mkPool (<[tail p := Some j]> (queue p)) (head p) ((tail p + 1) mod POOL_QUEUE_CAP) (count p + 1) (running p) (shutdown p).

(** [executor_pool_run] up to its first wait: [None] when the job is queued. *)
Definition pool_submit (p : executor_pool) (j : positive) : option airy_rc * executor_pool :=
  if shutdown p then (Some AIRY_ERR_CANCELED, p)
  else if (POOL_QUEUE_CAP <=? count p)%nat then (Some AIRY_ERR_BUSY, p)
  else (None, pool_push p j).

(** A worker's first section: the job at the head. *)
Definition pool_pop (p : executor_pool) : option positive * executor_pool :=
  if (count p =? 0)%nat then (None, p)
  else (mjoin (queue p !! head p),
        mkPool (queue p) ((head p + 1) mod POOL_QUEUE_CAP) (tail p) (count p - 1) (running p + 1) (shutdown p)).

Definition job_done (j : pool_job) (ret : airy_rc) (res : option tool_result_t) : pool_job :=
  mkJob (job_meta j) (job_params j) (job_agent j) res ret true (detached j).

Definition job_detach (j : pool_job) : pool_job :=
  mkJob (job_meta j) (job_params j) (job_agent j) (job_result j) (job_ret j) (done j) true.

Definition pool_ran (p : executor_pool) : executor_pool :=
  mkPool (queue p) (head p) (tail p) (count p) (running p - 1) (shutdown p).

(** ** The system *)

(** A worker runs a job, or has finished a detached one and will release it. *)
Inductive worker_at := WIdle | WRun (j : positive) | WFree (j : positive).

(** A caller waits for its job until a deadline, or has its result and will
    release the job. *)
Inductive caller_at := CWait (deadline : Z) | CFree.

Record sys := mkSys {
  pool : executor_pool;
  heap : gmap positive pool_job;
  workers : gmap positive worker_at;
  callers : gmap positive caller_at     (** by the job each waits for *)
}.

Inductive label :=
| LSubmit (j : positive)
| LReject (rc : airy_rc)
| LPop (w j : positive)
| LFinish (w j : positive) (ret : airy_rc) (res : option tool_result_t)
| LRelease (j : positive)
| LReturn (j : positive) (ret : airy_rc) (res : option tool_result_t)
| LGiveUp (j : positive).

(** The steps of callers and workers.  A step that finds a job missing from the
    heap leads nowhere; the theorems show that this does not happen. *)
Definition with_job (j : positive) (s : sys) (k : pool_job -> sys) : option sys := k <$> heap s !! j.

Definition do_finish (w j : positive) (ret : airy_rc) (res : option tool_result_t) (s : sys) : option sys :=
  with_job j s (fun job =>
    mkSys (pool_ran (pool s)) (<[j := job_done job ret res]> (heap s))
      (<[w := if detached job then WFree j else WIdle]> (workers s)) (callers s)).

Definition do_return (j : positive) (s : sys) : option (pool_job * sys) :=
  (fun job => (job, mkSys (pool s) (heap s) (workers s) (<[j := CFree]> (callers s)))) <$> heap s !! j.

Definition do_give_up (j : positive) (s : sys) : option sys :=
  with_job j s (fun job => mkSys (pool s) (<[j := job_detach job]> (heap s)) (workers s) (delete j (callers s))).

Inductive step : sys -> label -> sys -> Prop :=
| st_submit s j meta params agent deadline p' :
    heap s !! j = None -> pool_submit (pool s) j = (None, p') ->
    step s (LSubmit j) (mkSys p' (<[j := new_job meta params agent]> (heap s)) (workers s) (<[j := CWait deadline]> (callers s)))
| st_reject s j rc p' : pool_submit (pool s) j = (Some rc, p') -> step s (LReject rc) s
| st_pop s w j p' :
    workers s !! w = Some WIdle -> pool_pop (pool s) = (Some j, p') ->
    step s (LPop w j) (mkSys p' (heap s) (<[w := WRun j]> (workers s)) (callers s))
| st_finish s w j ret res s' :
    workers s !! w = Some (WRun j) -> do_finish w j ret res s = Some s' -> step s (LFinish w j ret res) s'
| st_free_w s w j :
    workers s !! w = Some (WFree j) -> is_Some (heap s !! j) ->
    step s (LRelease j) (mkSys (pool s) (delete j (heap s)) (<[w := WIdle]> (workers s)) (callers s))
| st_return s j deadline job s' :
    callers s !! j = Some (CWait deadline) -> do_return j s = Some (job, s') -> done job = true ->
    step s (LReturn j (job_ret job) (job_result job)) s'
| st_free_c s j :
    callers s !! j = Some CFree -> is_Some (heap s !! j) ->
    step s (LRelease j) (mkSys (pool s) (delete j (heap s)) (workers s) (delete j (callers s)))
| st_give_up s j deadline now job s' :
    callers s !! j = Some (CWait deadline) -> heap s !! j = Some job -> done job = false -> deadline <= now ->
    do_give_up j s = Some s' -> step s (LGiveUp j) s'.

Inductive run : sys -> list label -> sys -> Prop :=
| run_nil s : run s [] s
| run_snoc s tr s1 l s2 : run s tr s1 -> step s1 l s2 -> run s (tr ++ [l]) s2.

(** A pool with idle workers [ws]. *)
Definition start (ws : gmap positive worker_at) : sys :=
  mkSys (mkPool (replicate POOL_QUEUE_CAP None) 0 0 0 0 false) ∅ ws ∅.

(** ** The ring *)

Definition N : nat := POOL_QUEUE_CAP.

Lemma pslot_inj h j k : (j < N)%nat -> (k < N)%nat -> ((h + j) mod N)%nat = ((h + k) mod N)%nat -> j = k.
Proof.
  unfold N, POOL_QUEUE_CAP. intros Hj Hk E. pose proof (Nat.div_mod_eq (h + j) 64). pose proof (Nat.div_mod_eq (h + k) 64). lia.
Qed.

Lemma pslot_next h k : (((h + k) mod N + 1) mod N)%nat = ((h + S k) mod N)%nat.
Proof. unfold N. rewrite Nat.Div0.add_mod_idemp_l. f_equal. lia. Qed.

Lemma pslot_lt n : (n mod N < N)%nat.
Proof. by apply Nat.mod_upper_bound. Qed.

(** The queue of the pool holds the jobs [Q]. *)
Definition pool_ring (p : executor_pool) (Q : list positive) : Prop :=
  length (queue p) = N /\ (head p < N)%nat /\ count p = length Q /\ (length Q <= N)%nat /\
  tail p = ((head p + length Q) mod N)%nat /\
  forall k j, Q !! k = Some j -> queue p !! ((head p + k) mod N)%nat = Some (Some j).

Lemma submit_ring p Q j p' :
  pool_ring p Q -> pool_submit p j = (None, p') -> pool_ring p' (Q ++ [j]) /\ running p' = running p /\ shutdown p' = shutdown p.
Proof.
  intros (Hq & Hh & Hc & Hl & Ht & Hk) E. unfold pool_submit in E. destruct (shutdown p) eqn:Es; [done|].
  destruct (Nat.leb_spec POOL_QUEUE_CAP (count p)) as [|Hroom]; [done|]. simplify_eq. fold N in Hroom. rewrite Hc in Hroom.
  split; [|by cbn]. unfold pool_ring, pool_push. cbn [queue head tail count]. rewrite length_insert, length_app. cbn [length].
  fold N. split_and!; [done|done|lia|lia| |].
  - rewrite Ht, pslot_next. f_equal. lia.
  - intros k x [Hx|[Hge Hx]]%lookup_app_Some.
    + pose proof (lookup_lt_Some _ _ _ Hx). rewrite list_lookup_insert_ne; [by apply Hk|]. rewrite Ht. intros E.
      apply pslot_inj in E; lia.
    + apply list_lookup_singleton_Some in Hx as [Hx <-]. replace k with (length Q) by lia. rewrite <- Ht.
      apply list_lookup_insert_eq. rewrite Hq, Ht. apply pslot_lt.
Qed.

Lemma pop_ring p Q :
  pool_ring p Q ->
  match Q with
  | [] => pool_pop p = (None, p)
  | j :: Q' => exists p', pool_pop p = (Some j, p') /\ pool_ring p' Q' /\ shutdown p' = shutdown p
  end.
Proof.
  intros (Hq & Hh & Hc & Hl & Ht & Hk). unfold pool_pop. rewrite Hc. destruct Q as [|j Q']; [done|]. cbn [length Nat.eqb] in *.
  pose proof (Hk 0%nat j eq_refl) as H0. rewrite Nat.add_0_r, Nat.mod_small in H0 by done. rewrite H0. cbn [mjoin option_join].
  eexists. split; [done|]. split; [|done]. unfold pool_ring. cbn [queue head tail count]. fold N. split_and!.
  - done.
  - apply pslot_lt.
  - lia.
  - lia.
  - rewrite Ht, Nat.Div0.add_mod_idemp_l. f_equal. lia.
  - intros k x Hx. rewrite Nat.Div0.add_mod_idemp_l, <- Nat.add_assoc. apply (Hk (S k) x Hx).
Qed.

(** ** The invariant *)

(** The worker has its hands on the job. *)
Definition held (s : sys) (w j : positive) : Prop := workers s !! w = Some (WRun j) \/ workers s !! w = Some (WFree j).

Record pool_inv (s : sys) (Q : list positive) : Prop := mkPInv {
  pi_ring : pool_ring (pool s) Q;
  pi_nodup : NoDup Q;
  pi_queued : forall j, j ∈ Q -> (exists job, heap s !! j = Some job /\ done job = false) /\ forall w, ~ held s w j;
  pi_run : forall w j, workers s !! w = Some (WRun j) -> exists job, heap s !! j = Some job /\ done job = false;
  pi_wfree : forall w j, workers s !! w = Some (WFree j) -> exists job, heap s !! j = Some job /\ done job = true /\ detached job = true;
  pi_one : forall w w' j, held s w j -> held s w' j -> w = w';
  pi_wait : forall j d, callers s !! j = Some (CWait d) -> exists job, heap s !! j = Some job /\ detached job = false;
  pi_cfree : forall j, callers s !! j = Some CFree -> exists job, heap s !! j = Some job /\ detached job = false /\ done job = true;
  pi_heap : forall j job, heap s !! j = Some job ->
    (detached job = false -> is_Some (callers s !! j)) /\
    (done job = false -> j ∈ Q \/ exists w, workers s !! w = Some (WRun j)) /\
    (done job = true -> detached job = true -> exists w, workers s !! w = Some (WFree j))
}.

Ltac maps :=
  cbn [heap workers callers pool] in *;
  repeat match goal with
  | H : <[_ := _]> _ !! _ = Some _ |- _ => apply lookup_insert_Some in H as [[? ?]|[? ?]]
  | H : delete _ _ !! _ = Some _ |- _ => apply lookup_delete_Some in H as [? ?]
  end; simplify_eq.

(** Two maps of workers with the same holders of jobs. *)
Lemma held_same s s' w j : workers s' = workers s -> held s' w j <-> held s w j.
Proof. intros E. unfold held. by rewrite E. Qed.

Lemma fresh_not_held s Q w j : pool_inv s Q -> heap s !! j = None -> ~ held s w j /\ j ∉ Q /\ callers s !! j = None.
Proof.
  intros Hi Hn. split_and!.
  - intros [Hh|Hh]; [destruct (pi_run s Q Hi _ _ Hh) as (? & ? & _)|destruct (pi_wfree s Q Hi _ _ Hh) as (? & ? & _)]; congruence.
  - intros Hq. destruct (pi_queued s Q Hi _ Hq) as [(? & ? & _) _]. congruence.
  - destruct (callers s !! j) as [[d|]|] eqn:E; [|..|done].
    + destruct (pi_wait s Q Hi _ _ E) as (? & ? & _). congruence.
    + destruct (pi_cfree s Q Hi _ E) as (? & ? & _). congruence.
Qed.

Lemma submit_inv s Q j job d p' :
  pool_inv s Q -> heap s !! j = None -> done job = false -> detached job = false ->
  pool_ring p' (Q ++ [j]) ->
  pool_inv (mkSys p' (<[j := job]> (heap s)) (workers s) (<[j := CWait d]> (callers s))) (Q ++ [j]).
Proof.
  intros Hi Hn Hd Hdet Hr. assert (Hf : forall w, ~ held s w j) by (intros w; by eapply fresh_not_held).
  destruct (fresh_not_held s Q j j Hi Hn) as (_ & Hq & Hc).
  destruct Hi as [_ H2 H3 H4 H5 H6 H7 H8 H9]. split; cbn [pool].
  - done.
  - apply NoDup_app. split_and!; [done|intros x Hx ->%list_elem_of_singleton; done|by apply NoDup_singleton].
  - intros x [Hx|Hx%list_elem_of_singleton]%elem_of_app.
    + destruct (H3 x Hx) as [(jb & E & Ed) Hh]. split; [|exact Hh]. exists jb. cbn. by rewrite lookup_insert_ne by congruence.
    + subst x. split; [|exact Hf]. exists job. cbn. by rewrite lookup_insert_eq.
  - intros w x Hx. maps. destruct (H4 w x Hx) as (jb & E & Ed). exists jb. by rewrite lookup_insert_ne by congruence.
  - intros w x Hx. maps. destruct (H5 w x Hx) as (jb & E & Ed). exists jb. by rewrite lookup_insert_ne by congruence.
  - exact H6.
  - intros x d' Hx. maps; [exists job; by rewrite lookup_insert_eq|].
    destruct (H7 x d' ltac:(done)) as (jb & E & Ed). exists jb. by rewrite lookup_insert_ne.
  - intros x Hx. maps. destruct (H8 x ltac:(done)) as (jb & E & Ed). exists jb. by rewrite lookup_insert_ne.
  - intros x jb Hx. maps.
    + split_and!; [intros _; by rewrite lookup_insert_eq|intros _; left; apply elem_of_app; right; by left|congruence].
    + destruct (H9 x jb ltac:(done)) as (A & B & D). split_and!; [intros Hdx; rewrite lookup_insert_ne by done; by apply A| |exact D].
      intros Hdx. destruct (B Hdx) as [Hin|Hin]; [left; apply elem_of_app; by left|by right].
Qed.

Lemma pop_inv s j Q w p' :
  pool_inv s (j :: Q) -> workers s !! w = Some WIdle -> pool_ring p' Q ->
  pool_inv (mkSys p' (heap s) (<[w := WRun j]> (workers s)) (callers s)) Q.
Proof.
  intros Hi Hw Hr. destruct Hi as [_ H2 H3 H4 H5 H6 H7 H8 H9]. apply NoDup_cons in H2 as [Hni H2].
  destruct (H3 j) as [Hj Hjh]; [by left|].
  assert (Hheld : forall w' x, held (mkSys p' (heap s) (<[w := WRun j]> (workers s)) (callers s)) w' x ->
                  (w' = w /\ x = j) \/ (w' <> w /\ held s w' x)).
  { intros w' x [Hx|Hx]; maps; auto; right; (split; [congruence|]); [by left|by right]. }
  split; cbn [pool]; [done|done| | | | |exact H7|exact H8|].
  - intros x Hx. destruct (H3 x ltac:(by right)) as [Hjob Hh]. split; [done|]. intros w' Hw'.
    apply Hheld in Hw' as [[-> ->]|[_ Hw']]; [done|by apply (Hh w')].
  - intros w' x Hx. maps; [done|by apply (H4 w')].
  - intros w' x Hx. maps. by apply (H5 w').
  - intros w1 w2 x Hx1 Hx2. apply Hheld in Hx1, Hx2.
    destruct Hx1 as [[-> ->]|[_ Hx1]], Hx2 as [[-> Ex]|[_ Hx2]]; [done|by apply Hjh in Hx2|subst; by apply Hjh in Hx1|by apply (H6 _ _ x)].
  - intros x jb Hx. destruct (H9 x jb Hx) as (A & B & D). split_and!; [exact A| |].
    + intros Hd. destruct (B Hd) as [Hin|[w' Hw']].
      * apply elem_of_cons in Hin as [->|Hin]; [right; exists w; cbn; by rewrite lookup_insert_eq|by left].
      * right. exists w'. cbn. rewrite lookup_insert_ne; [done|]. intros ->. congruence.
    + intros Hd Hdet. destruct (D Hd Hdet) as [w' Hw']. exists w'. cbn. rewrite lookup_insert_ne; [done|]. intros ->. congruence.
Qed.

Lemma finish_inv s Q w j job ret res :
  pool_inv s Q -> workers s !! w = Some (WRun j) -> heap s !! j = Some job ->
  pool_inv (mkSys (pool_ran (pool s)) (<[j := job_done job ret res]> (heap s))
             (<[w := if detached job then WFree j else WIdle]> (workers s)) (callers s)) Q.
Proof.
  intros Hi Hw Hj. destruct Hi as [H1 H2 H3 H4 H5 H6 H7 H8 H9].
  assert (Hwj : held s w j) by (by left). assert (Hjq : j ∉ Q) by (intros Hq; by apply (proj2 (H3 j Hq) w)).
  set (s' := mkSys _ _ _ _).
  assert (Hheld : forall w' x, held s' w' x -> held s w' x).
  { intros w' x [Hx|Hx]; subst s'; maps; try (destruct (detached job)); simplify_eq; first [done | by left | by right]. }
  assert (Hother : forall x jb, x <> j -> heap s !! x = Some jb -> heap s' !! x = Some jb) by (intros; subst s'; cbn; by rewrite lookup_insert_ne).
  assert (Hrun : forall w' x, workers s' !! w' = Some (WRun x) -> w' <> w /\ workers s !! w' = Some (WRun x)).
  { intros w' x Hx. subst s'. maps; [by destruct (detached job)|done]. }
  assert (Hxj : forall w' x, w' <> w -> held s w' x -> x <> j) by (intros w' x Hne Hx ->; by apply Hne, (H6 _ _ j)).
  split; try done.
  - intros x Hx. destruct (H3 x Hx) as [(jb & E & Ed) Hh]. split; [|intros w' Hw'; by apply (Hh w'), Hheld].
    exists jb. split; [apply Hother; [congruence|done]|done].
  - intros w' x Hx. apply Hrun in Hx as [Hne Hx]. destruct (H4 w' x Hx) as (jb & E & Ed). exists jb. split; [|done].
    apply Hother; [|done]. apply (Hxj w'); [done|by left].
  - intros w' x Hx. subst s'. maps.
    + destruct (detached job) eqn:Ed; [|done]. simplify_eq. eexists. rewrite lookup_insert_eq. by split_and!.
    + destruct (H5 w' x ltac:(done)) as (jb & E & Ed). exists jb. split; [|done]. apply Hother; [|done].
      apply (Hxj w'); [done|by right].
  - intros w1 w2 x Hx1%Hheld Hx2%Hheld. by apply (H6 _ _ x).
  - intros x d Hx. destruct (H7 x d Hx) as (jb & E & Ed). destruct (decide (x = j)) as [->|Hne].
    + simplify_eq. eexists. subst s'. cbn. rewrite lookup_insert_eq. by split.
    + exists jb. split; [by apply Hother|done].
  - intros x Hx. destruct (H8 x Hx) as (jb & E & Ed & Edn). destruct (decide (x = j)) as [->|Hne].
    + simplify_eq. eexists. subst s'. cbn. rewrite lookup_insert_eq. by split_and!.
    + exists jb. split; [by apply Hother|done].
  - intros x jb Hx. destruct (decide (x = j)) as [->|Hne]; subst s'; cbn [heap callers workers] in *.
    + rewrite lookup_insert_eq in Hx. simplify_eq. destruct (H9 j job Hj) as (A & B & D). split_and!; [exact A|done|].
      intros _ Hd. cbn in Hd. exists w. rewrite Hd. by rewrite lookup_insert_eq.
    + rewrite lookup_insert_ne in Hx by done. destruct (H9 x jb Hx) as (A & B & D). split_and!; [exact A| |].
      * intros Hd. destruct (B Hd) as [Hin|[w' Hw']]; [by left|right]. exists w'. rewrite lookup_insert_ne; [done|]. intros ->. congruence.
      * intros Hd Hdet. destruct (D Hd Hdet) as [w' Hw']. exists w'. rewrite lookup_insert_ne; [done|]. intros ->. congruence.
Qed.

(** A worker releases a job nobody waits for. *)
Lemma wfree_inv s Q w j :
  pool_inv s Q -> workers s !! w = Some (WFree j) ->
  pool_inv (mkSys (pool s) (delete j (heap s)) (<[w := WIdle]> (workers s)) (callers s)) Q.
Proof.
  intros Hi Hw. destruct Hi as [H1 H2 H3 H4 H5 H6 H7 H8 H9]. destruct (H5 w j Hw) as (job & Hj & Hd & Hdet).
  set (s' := mkSys _ _ _ _).
  assert (Hw' : forall w' a, a <> WIdle -> workers s' !! w' = Some a <-> w' <> w /\ workers s !! w' = Some a).
  { intros w' a Ha. subst s'. cbn. rewrite lookup_insert_Some. naive_solver. }
  assert (Hheld : forall w' x, held s' w' x -> w' <> w /\ held s w' x).
  { intros w' x [Hx|Hx]; apply Hw' in Hx as [? ?]; try done; (split; [done|]); [by left|by right]. }
  assert (Hkeep : forall x jb, heap s !! x = Some jb -> (done jb = false \/ detached jb = false) -> heap s' !! x = Some jb).
  { intros x jb Hx Hor. subst s'. cbn. rewrite lookup_delete_ne; [done|]. intros ->. destruct Hor; congruence. }
  split; try done.
  - intros x Hx. destruct (H3 x Hx) as [(jb & E & Ed) Hh]. split; [exists jb; by auto|]. intros w' Hx'. by apply Hheld in Hx' as [_ ?%Hh].
  - intros w' x Hx. apply Hw' in Hx as [_ Hx]; [|done]. destruct (H4 w' x Hx) as (jb & E & Ed). exists jb. auto.
  - intros w' x Hx. apply Hw' in Hx as [Hne Hx]; [|done]. destruct (H5 w' x Hx) as (jb & E & Ed). exists jb. split; [|done].
    subst s'. cbn. rewrite lookup_delete_ne; [done|]. intros ->. apply Hne, (H6 _ _ x); [by right|by right].
  - intros w1 w2 x [_ Hx1]%Hheld [_ Hx2]%Hheld. by apply (H6 _ _ x).
  - intros x d Hx. destruct (H7 x d Hx) as (jb & E & Ed). exists jb. auto.
  - intros x Hx. destruct (H8 x Hx) as (jb & E & Ed & Edn). exists jb. auto.
  - intros x jb Hx. subst s'. cbn [heap] in Hx. apply lookup_delete_Some in Hx as [Hne Hx]. destruct (H9 x jb Hx) as (A & B & D).
    split_and!; [exact A| |].
    + intros Hdx. destruct (B Hdx) as [Hin|[w' Hx']]; [by left|right]. exists w'. apply Hw'; [done|]. split; [intros ->; congruence|done].
    + intros Hdx Hdetx. destruct (D Hdx Hdetx) as [w' Hx']. exists w'. apply Hw'; [done|]. split; [intros ->; congruence|done].
Qed.

(** The caller takes the result: from now on the job is its to release. *)
Lemma return_inv s Q j d job :
  pool_inv s Q -> callers s !! j = Some (CWait d) -> heap s !! j = Some job -> done job = true ->
  pool_inv (mkSys (pool s) (heap s) (workers s) (<[j := CFree]> (callers s))) Q.
Proof.
  intros Hi Hc Hj Hd. destruct Hi as [H1 H2 H3 H4 H5 H6 H7 H8 H9]. destruct (H7 j d Hc) as (jb & Hj' & Hdet). simplify_eq.
  split; try done.
  - intros x d' Hx. maps. by apply (H7 x d').
  - intros x Hx. maps; [by exists job|by apply H8].
  - intros x jb Hx. destruct (H9 x jb Hx) as (A & B & D). split_and!; [|exact B|exact D]. intros Hdx. cbn.
    destruct (decide (x = j)) as [->|]; [by rewrite lookup_insert_eq|rewrite lookup_insert_ne by done; by apply A].
Qed.

Lemma cfree_inv s Q j :
  pool_inv s Q -> callers s !! j = Some CFree ->
  pool_inv (mkSys (pool s) (delete j (heap s)) (workers s) (delete j (callers s))) Q.
Proof.
  intros Hi Hc. destruct Hi as [H1 H2 H3 H4 H5 H6 H7 H8 H9]. destruct (H8 j Hc) as (job & Hj & Hdet & Hd).
  set (s' := mkSys _ _ _ _).
  assert (Hkeep : forall x jb, x <> j -> heap s !! x = Some jb -> heap s' !! x = Some jb).
  { intros x jb Hx Hne. subst s'. cbn. by rewrite lookup_delete_ne. }
  split; try done.
  - intros x Hx. destruct (H3 x Hx) as [(jb & E & Ed) Hh]. split; [|done]. exists jb. split; [|done]. apply Hkeep; [congruence|done].
  - intros w x Hx. destruct (H4 w x Hx) as (jb & E & Ed). exists jb. split; [|done]. apply Hkeep; [congruence|done].
  - intros w x Hx. destruct (H5 w x Hx) as (jb & E & Ed & Edt). exists jb. split; [|done]. apply Hkeep; [congruence|done].
  - intros x d Hx. subst s'. cbn [callers] in Hx. apply lookup_delete_Some in Hx as [Hne Hx].
    destruct (H7 x d Hx) as (jb & E & Ed). exists jb. split; [by apply Hkeep|done].
  - intros x Hx. subst s'. cbn [callers] in Hx. apply lookup_delete_Some in Hx as [Hne Hx].
    destruct (H8 x Hx) as (jb & E & Ed). exists jb. split; [by apply Hkeep|done].
  - intros x jb Hx. subst s'. cbn [heap] in Hx. apply lookup_delete_Some in Hx as [Hne Hx]. destruct (H9 x jb Hx) as (A & B & D).
    split_and!; [|exact B|exact D]. intros Hdx. cbn. rewrite lookup_delete_ne by done. by apply A.
Qed.

(** The caller gives up: the job goes to whoever finishes it. *)
Lemma give_up_inv s Q j d job :
  pool_inv s Q -> callers s !! j = Some (CWait d) -> heap s !! j = Some job -> done job = false ->
  pool_inv (mkSys (pool s) (<[j := job_detach job]> (heap s)) (workers s) (delete j (callers s))) Q.
Proof.
  intros Hi Hc Hj Hd. destruct Hi as [H1 H2 H3 H4 H5 H6 H7 H8 H9]. set (s' := mkSys _ _ _ _).
  assert (Hkeep : forall x jb, heap s !! x = Some jb -> exists jb', heap s' !! x = Some jb' /\ done jb' = done jb /\
                    (x <> j -> detached jb' = detached jb)).
  { intros x jb Hx. destruct (decide (x = j)) as [->|Hne]; subst s'; cbn.
    - simplify_eq. rewrite lookup_insert_eq. by eexists.
    - rewrite lookup_insert_ne by done. by exists jb. }
  split; try done.
  - intros x Hx. destruct (H3 x Hx) as [(jb & E & Ed) Hh]. split; [|done].
    destruct (Hkeep x jb E) as (jb' & E' & Ed' & _). exists jb'. by rewrite Ed'.
  - intros w x Hx. destruct (H4 w x Hx) as (jb & E & Ed). destruct (Hkeep x jb E) as (jb' & E' & Ed' & _). exists jb'. by rewrite Ed'.
  - intros w x Hx. destruct (H5 w x Hx) as (jb & E & Ed & Edt). destruct (Hkeep x jb E) as (jb' & E' & Ed' & Edt').
    exists jb'. rewrite Ed', Edt' by congruence. done.
  - intros x d' Hx. subst s'. cbn [callers] in Hx. apply lookup_delete_Some in Hx as [Hne Hx].
    destruct (H7 x d' Hx) as (jb & E & Ed). destruct (Hkeep x jb E) as (jb' & E' & _ & Edt'). exists jb'. by rewrite Edt'.
  - intros x Hx. subst s'. cbn [callers] in Hx. apply lookup_delete_Some in Hx as [Hne Hx].
    destruct (H8 x Hx) as (jb & E & Edt & Ed). destruct (Hkeep x jb E) as (jb' & E' & Ed' & Edt'). exists jb'. by rewrite Ed', Edt'.
  - intros x jb Hx. destruct (decide (x = j)) as [->|Hne]; subst s'; cbn [heap callers workers] in *.
    + rewrite lookup_insert_eq in Hx. simplify_eq. destruct (H9 j job Hj) as (A & B & D). cbn [detached done job_detach].
      split_and!; [done|exact B|congruence].
    + rewrite lookup_insert_ne in Hx by done. rewrite lookup_delete_ne by done. by apply H9.
Qed.

Lemma pool_step_inv s l s' Q : pool_inv s Q -> step s l s' -> exists Q', pool_inv s' Q'.
Proof.
  intros Hi Hst. destruct Hst as [s j meta params agent d p' Hn E|s j rc p' E|s w j p' Hw E|s w j ret res s' Hw E|s w j Hw Hj
    |s j d job s' Hc E Hd|s j Hc Hj|s j d now job s' Hc Hj Hd Hnow E].
  - destruct (submit_ring _ _ _ _ (pi_ring s Q Hi) E) as [Hr _]. eexists. by apply submit_inv.
  - by exists Q.
  - pose proof (pop_ring _ _ (pi_ring s Q Hi)) as Hp. destruct Q as [|x Q]; [by rewrite Hp in E|].
    destruct Hp as (p1 & E1 & Hr & _). rewrite E1 in E. simplify_eq. exists Q. by apply pop_inv.
  - unfold do_finish, with_job in E. destruct (heap s !! j) as [job|] eqn:Hj; [|done]. cbn in E. simplify_eq. exists Q. by apply finish_inv.
  - exists Q. by apply wfree_inv.
  - unfold do_return in E. destruct (heap s !! j) as [jb|] eqn:Hj; [|done]. cbn in E. simplify_eq. exists Q. by eapply return_inv.
  - exists Q. by apply cfree_inv.
  - unfold do_give_up, with_job in E. rewrite Hj in E. cbn in E. simplify_eq. exists Q. by eapply give_up_inv.
Qed.

(** ** Runs *)

Definition idle_pool (ws : gmap positive worker_at) : Prop := forall w a, ws !! w = Some a -> a = WIdle.

Lemma start_pool_inv ws : idle_pool ws -> pool_inv (start ws) [].
Proof.
  intros Hw. split; cbn [start pool heap workers callers].
  - unfold pool_ring. cbn [queue head tail count]. rewrite length_replicate. by split_and!; try (apply Nat.ltb_lt); try (apply Nat.le_0_l).
  - by apply NoDup_nil.
  - intros j Hj. by apply elem_of_nil in Hj.
  - intros w j Hj. by apply Hw in Hj.
  - intros w j Hj. by apply Hw in Hj.
  - intros w w' j [Hj|Hj]; by apply Hw in Hj.
  - intros j d Hj. by rewrite lookup_empty in Hj.
  - intros j Hj. by rewrite lookup_empty in Hj.
  - intros j job Hj. by rewrite lookup_empty in Hj.
Qed.

Lemma run_pool_inv ws tr s : idle_pool ws -> run (start ws) tr s -> exists Q, pool_inv s Q.
Proof.
  intros Hw Hrun. remember (start ws) as s0 eqn:E0. induction Hrun as [s|s tr s1 l s2 Hrun IH Hst].
  - subst. exists []. by apply start_pool_inv.
  - destruct (IH E0) as [Q HQ]. by apply (pool_step_inv s1 l s2 Q).
Qed.

(** What happened since the job at this address was submitted. *)
Definition is_submit (j : positive) (l : label) : bool := match l with LSubmit x => bool_decide (x = j) | _ => false end.

Definition life (j : positive) (tr : list label) : list label :=
  foldl (fun acc l => if is_submit j l then [] else acc ++ [l]) [] tr.

Lemma life_snoc j tr l : life j (tr ++ [l]) = if is_submit j l then [] else life j tr ++ [l].
Proof. unfold life. by rewrite foldl_app. Qed.

(** Every finished job was finished by a worker that ran it, with this outcome. *)
Definition outcomes_ok (s : sys) (tr : list label) : Prop :=
  forall j job, heap s !! j = Some job -> done job = true -> exists w, LFinish w j (job_ret job) (job_result job) ∈ life j tr.

Lemma outcomes_keep s tr l s' :
  outcomes_ok s tr ->
  (forall j job, heap s' !! j = Some job -> done job = true ->
     (exists w, l = LFinish w j (job_ret job) (job_result job)) \/
     is_submit j l = false /\ exists jb, heap s !! j = Some jb /\ done jb = true /\ job_ret jb = job_ret job /\ job_result jb = job_result job) ->
  outcomes_ok s' (tr ++ [l]).
Proof.
  intros Ho Hk j job Hj Hd. rewrite life_snoc. destruct (Hk j job Hj Hd) as [[w ->]|(-> & jb & Hjb & Hdb & <- & <-)].
  - exists w. cbn [is_submit]. apply elem_of_app. right. by left.
  - destruct (Ho j jb Hjb Hdb) as [w Hw]. exists w. apply elem_of_app. by left.
Qed.

Lemma step_outcomes s tr l s' : outcomes_ok s tr -> step s l s' -> outcomes_ok s' (tr ++ [l]).
Proof.
  intros Ho Hst. apply (outcomes_keep s); [done|].
  destruct Hst as [s j meta params agent d p' Hn E|s j rc p' E|s w j p' Hw E|s w j ret res s' Hw E|s w j Hw Hj
    |s j d job s' Hc E Hd|s j Hc Hj|s j d now job s' Hc Hj Hd Hnow E]; intros x jb Hx Hdx; cbn [heap is_submit] in *.
  - apply lookup_insert_Some in Hx as [[<- <-]|[Hne Hx]]; [done|]. right. rewrite bool_decide_false by congruence. by split; [|exists jb].
  - right. by split; [|exists jb].
  - right. by split; [|exists jb].
  - unfold do_finish, with_job in E. destruct (heap s !! j) as [job|] eqn:Hj; [|done]. cbn in E. simplify_eq. cbn [heap] in Hx.
    apply lookup_insert_Some in Hx as [[<- <-]|[Hne Hx]]; [left; by exists w|right; by split; [|exists jb]].
  - apply lookup_delete_Some in Hx as [_ Hx]. right. by split; [|exists jb].
  - unfold do_return in E. destruct (heap s !! j) as [job'|] eqn:Hj; [|done]. cbn in E. simplify_eq. right. by split; [|exists jb].
  - apply lookup_delete_Some in Hx as [_ Hx]. right. by split; [|exists jb].
  - unfold do_give_up, with_job in E. rewrite Hj in E. cbn in E. simplify_eq. cbn [heap] in Hx.
    apply lookup_insert_Some in Hx as [[<- <-]|[Hne Hx]]; [cbn in Hdx; congruence|right; by split; [|exists jb]].
Qed.

Lemma run_outcomes ws tr s : run (start ws) tr s -> outcomes_ok s tr.
Proof.
  intros Hrun. remember (start ws) as s0 eqn:E0. induction Hrun as [s|s tr s1 l s2 Hrun IH Hst].
  - subst. intros j job Hj. cbn [start heap] in Hj. by rewrite lookup_empty in Hj.
  - apply (step_outcomes s1); auto.
Qed.

(** C17.  Jobs are shared safely.  For every interleaving of callers and workers:
    whatever job a worker runs, finishes or releases, and whatever job a caller
    waits for or releases, is still allocated at that moment (no use after free,
    no double free); and once every caller has returned, every worker is idle
    and the queue is empty, no job is left behind. *)
Theorem pool_memory_safe (ws : gmap positive worker_at) (tr : list label) (s : sys) :
  idle_pool ws -> run (start ws) tr s ->
  (forall w j, held s w j -> is_Some (heap s !! j)) /\
  (forall j c, callers s !! j = Some c -> is_Some (heap s !! j)) /\
  (forall w j p', pool_pop (pool s) = (Some j, p') -> is_Some (heap s !! j) /\ ~ held s w j) /\
  ((forall w a, workers s !! w = Some a -> a = WIdle) -> callers s = ∅ -> count (pool s) = 0%nat -> heap s = ∅).
Proof.
  intros Hw Hrun. destruct (run_pool_inv ws tr s Hw Hrun) as [Q HQ]. pose proof HQ as [H1 H2 H3 H4 H5 H6 H7 H8 H9]. split_and!.
  - intros w j [Hj|Hj]; [destruct (H4 w j Hj) as (jb & -> & _)|destruct (H5 w j Hj) as (jb & -> & _)]; done.
  - intros j [d|] Hc; [destruct (H7 j d Hc) as (jb & -> & _)|destruct (H8 j Hc) as (jb & -> & _)]; done.
  - intros w j p' E. pose proof (pop_ring _ _ H1) as Hp. destruct Q as [|x Q]; [by rewrite Hp in E|].
    destruct Hp as (p1 & E1 & _). rewrite E1 in E. simplify_eq. destruct (H3 j ltac:(by left)) as [(jb & -> & _) Hh]. split; [done|apply Hh].
  - intros Hidle Hnoc Hcnt. apply map_empty. intros j. destruct (heap s !! j) as [job|] eqn:Hj; [exfalso|done].
    destruct H1 as (_ & _ & Hc & _). destruct Q as [|x Q]; [|cbn in Hc; lia]. destruct (H9 j job Hj) as (A & B & D).
    destruct (detached job) eqn:Edt.
    + destruct (done job) eqn:Ed; [destruct (D eq_refl eq_refl) as [w Hw']; by apply Hidle in Hw'|].
      destruct (B eq_refl) as [Hin|[w Hw']]; [by apply elem_of_nil in Hin|by apply Hidle in Hw'].
    + destruct (A eq_refl) as [c Hcj]. by rewrite Hnoc, lookup_empty in Hcj.
Qed.

(** A caller that returns with a result returns that of its own job: a worker ran
    the job after it was submitted and finished it with this code and result. *)
Theorem pool_own_result (ws : gmap positive worker_at) (tr : list label) (s s' : sys) (j : positive) (ret : airy_rc)
    (res : option tool_result_t) :
  run (start ws) tr s -> step s (LReturn j ret res) s' -> exists w, LFinish w j ret res ∈ life j tr.
Proof.
  intros Hrun Hst. pose proof (run_outcomes ws tr s Hrun) as Ho. inversion Hst as [| | | | |? ? d job ? Hc E Hd| |]; subst.
  unfold do_return in E. destruct (heap s !! j) as [jb|] eqn:Hj; [|done]. cbn in E. simplify_eq. by apply (Ho j job).
Qed.

(** A caller whose deadline has passed is never kept: it returns at its next turn. *)
Theorem caller_returns (ws : gmap positive worker_at) (tr : list label) (s : sys) (j : positive) (deadline now : Z) :
  idle_pool ws -> run (start ws) tr s -> callers s !! j = Some (CWait deadline) -> deadline <= now ->
  exists l s', step s l s' /\ (l = LGiveUp j \/ exists ret res, l = LReturn j ret res).
Proof.
  intros Hw Hrun Hc Hd. destruct (run_pool_inv ws tr s Hw Hrun) as [Q [_ _ _ _ _ _ H7 _ _]].
  destruct (H7 j deadline Hc) as (job & Hj & _). destruct (done job) eqn:Ed.
  - eexists _, _. split; [eapply (st_return s j deadline job); [done|unfold do_return; by rewrite Hj|done]|]. right. by eexists _, _.
  - eexists _, _. split; [eapply (st_give_up s j deadline now job); [done|done|done|done|unfold do_give_up, with_job; by rewrite Hj]|by left].
Qed.

(** ** Shutting down *)

(** [synth_cancel_result] with its two copies. *)
Definition synth_cancel_result (o1 o2 : bool) : tool_result_t :=
  mkRes false (if o1 then Some ""%string else None)
    (if o2 then Some "Tool execution canceled (deadline exceeded)"%string else None) (-1) 0 TOOL_RESULT_CLASS_NORMAL_FAIL.

(** The first part of [executor_pool_free]: the jobs that are still queued are
    done, with a canceled result, and the queue is empty. *)
Definition pool_close (Q : list positive) (res : option tool_result_t) (s : sys) : sys :=
  mkSys (mkPool (queue (pool s)) 0 0 0 (running (pool s)) true)
    (foldr (fun j h => match h !! j with
                       | Some job => if done job then h else <[j := job_done job AIRY_ERR_CANCELED res]> h
                       | None => h
                       end) (heap s) Q)
    (workers s) (callers s).

Definition one_worker : gmap positive worker_at := {[1%positive := WIdle]}.
Definition some_meta : tool_metadata_t := mkMeta (Some "t"%string) (Some "t"%string) (Some "/bin/t"%string) 1.

Definition given_up : sys :=
  mkSys (pool_push (pool (start one_worker)) 7) {[7%positive := job_detach (new_job some_meta None None)]} one_worker ∅.

Lemma given_up_reached : run (start one_worker) [LSubmit 7; LGiveUp 7] given_up.
Proof.
  change [LSubmit 7; LGiveUp 7] with (([] ++ [LSubmit 7]) ++ [LGiveUp 7]).
  apply run_snoc with (mkSys (pool_push (pool (start one_worker)) 7) {[7%positive := new_job some_meta None None]} one_worker
                         {[7%positive := CWait 10]}).
  - apply run_snoc with (start one_worker); [apply run_nil|].
    apply (st_submit (start one_worker) 7 some_meta None None 10); [done|vm_compute; reflexivity].
  - eapply (st_give_up _ 7 10 10 (new_job some_meta None None)); [done|done|done|lia|]. vm_compute. reflexivity.
Qed.

(** A call that was reported as canceled while its job was still queued is
    executed all the same. *)
Lemma canceled_job_runs : exists s', step given_up (LPop 1 7) s'.
Proof. eexists. apply st_pop; [done|vm_compute; reflexivity]. Qed.

(** Closing the pool then leaves that job without anybody to release it. *)
Lemma close_leaks :
  let s := pool_close [7%positive] None given_up in
  is_Some (heap s !! 7%positive) /\ callers s = ∅ /\ count (pool s) = 0%nat /\ workers s = one_worker.
Proof. cbn zeta. split_and!; [vm_compute; by eexists|done..]. Qed.

(** The safety theorem at this run. *)
Lemma pool_memory_safe_witness :
  is_Some (heap given_up !! 7%positive) /\ (pool_pop (pool given_up)).1 = Some 7%positive.
Proof.
  split; [|vm_compute; reflexivity].
  pose proof (pool_memory_safe one_worker [LSubmit 7; LGiveUp 7] given_up) as Hs.
  destruct Hs as (_ & _ & Hpop & _); [|exact given_up_reached|].
  - intros w a Ha. unfold one_worker in Ha. apply lookup_singleton_Some in Ha as [_ <-]. reflexivity.
  - apply (Hpop 1%positive 7%positive (pool_pop (pool given_up)).2). vm_compute. reflexivity.
Defined.
