(* ===== verification/RecFile.v ===== *)
(** * RecFile

    The file of mem_d's memory records (mem_d/src/engine/mem_persist.c, writing):
    the JSON escape, the line of a record, appending a line, and replacing the
    whole file through a temporary one.

    A disk is the files by name together with every state it went through, newest
    first: a crash leaves one of them.  What is printed to a stream reaches the
    disk when the stream is flushed or closed.  Every call of the C library asks
    the world whether it succeeds, and how many bytes it wrote before it failed. *)

From stdpp Require Import gmap.
From S2P Require Import Prelude Doubles MemEnv Vector.

(** ** Data *)

(** A record that is in use: identifier and contents are not NULL; [len] is the
    number of bytes of [data]. *)
Record mem_record_entry_t := mkRec {
  record_id : string;
  data : string;
  metadata : option string;
  created_at : Z;
  vec : mem_tfidf_vec_t;
  emb : option (list double)                   (** [float]s; [emb_dim] is its length *)
}.

Record disk := mkDisk {
  now : gmap string string;
  past : list (gmap string string)
}.

Definition set_disk (f : gmap string string) (d : disk) : disk := mkDisk f (f :: past d).

(** A [FILE *] open for writing: its name and what was printed and not flushed. *)
Record stream := mkStream {
  s_path : string;
  s_buf : string
}.

Class FileOS (W : Type) := {
  io : W -> option nat * W                     (** [None]: the call succeeds *)
}.

(** ** The C library *)

Section clib.
  Context {W : Type} `{FileOS W}.

(** [fprintf]: true when it did not fail. *)
Definition fprintf (f : stream) (s : string) (w : W) : bool * stream * W :=
    let '(r, w) := io w in
    match r with
    | None => (true, mkStream (s_path f) (s_buf f +:+ s), w)
    | Some n => (false, mkStream (s_path f) (s_buf f +:+ String.substring 0 n s), w)
    end.

Definition append_file (p s : string) (f : gmap string string) : gmap string string := <[p := default "" (f !! p) +:+ s]> f.

Definition fflush (f : stream) (d : disk) (w : W) : bool * stream * disk * W :=
    let '(r, w) := io w in
    match r with
    | None => (true, mkStream (s_path f) "", set_disk (append_file (s_path f) (s_buf f) (now d)) d, w)
    | Some n =>
        (false, mkStream (s_path f) (String.substring n (String.length (s_buf f) - n) (s_buf f)),
         set_disk (append_file (s_path f) (String.substring 0 n (s_buf f)) (now d)) d, w)
    end.

Definition fclose (f : stream) (d : disk) (w : W) : bool * disk * W :=
    let '(ok, _, d, w) := fflush f d w in (ok, d, w).

(** [fopen] for appending, and for writing from the start. *)
Definition fopen_a (p : string) (d : disk) (w : W) : option stream * disk * W :=
    let '(r, w) := io w in
    match r with
    | None => (Some (mkStream p ""), set_disk (append_file p "" (now d)) d, w)
    | Some _ => (None, d, w)
    end.

Definition fopen_wb (p : string) (d : disk) (w : W) : option stream * disk * W :=
    let '(r, w) := io w in
    match r with
    | None => (Some (mkStream p ""), set_disk (<[p := ""]> (now d)) d, w)
    | Some _ => (None, d, w)
    end.

Definition call (w : W) : bool * W := let '(r, w) := io w in (bool_decide (r = None), w).

Definition remove_file (p : string) (d : disk) (w : W) : disk * W :=
    let '(ok, w) := call w in (if ok then set_disk (delete p (now d)) d else d, w).

Definition airy_file_rename (p q : string) (d : disk) (w : W) : bool * disk * W :=
    let '(ok, w) := call w in
    if ok then match now d !! p with
               | Some s => (true, set_disk (<[q := s]> (delete p (now d))) d, w)
               | None => (false, d, w)
               end
    else (false, d, w).
End clib.

(** ** Lines *)

Definition bs : ascii := "\".
Definition dq : ascii := "034".

(** One byte of the text in the literal. *)
Definition esc_char (c : ascii) : string :=
  let n := nat_of_ascii c in
  if (n =? 34)%nat then String bs (String dq "")
  else if (n =? 92)%nat then String bs (String bs "")
  else if (n =? 10)%nat then String bs "n"
  else if (n =? 9)%nat then String bs "t"
  else if (n =? 13)%nat then String bs "r"
  else if (n =? 8)%nat then String bs "b"
  else if (n =? 12)%nat then String bs "f"
  else if (n <? 32)%nat then String bs (String "u" (hexn 4 (Z.of_nat n)))
  else String c "".

Fixpoint esc_text (s : string) : string :=
  match s with
  | EmptyString => EmptyString
  | String c s' => esc_char c +:+ esc_text s'
  end.

Definition quoted (s : string) : string := String dq (s +:+ String dq "").

Definition newline : string := String "010" "".

(** The line of a record whose text is escaped. *)
Definition jsonl_line (id esc meta : string) (created len : Z) : string :=
  "{" +:+ quoted "record_id" +:+ ":" +:+ quoted id +:+ "," +:+ quoted "data" +:+ ":" +:+ quoted esc +:+ ","
  +:+ quoted "metadata" +:+ ":" +:+ meta +:+ "," +:+ quoted "created_at" +:+ ":" +:+ print_u created +:+ ","
  +:+ quoted "len" +:+ ":" +:+ print_u len +:+ "}" +:+ newline.

Definition rec_line (r : mem_record_entry_t) : string :=
  jsonl_line (record_id r) (esc_text (data r)) (default "null" (metadata r)) (created_at r) (strlen (data r)).

(** ** Writing *)

Section persist.
  Context {W : Type} `{MemOS W} `{FileOS W}.

(** The buffer of [6 len + 1] bytes, [None] when there is no memory. *)
Definition mem_json_escape (s : string) (w : W) : option string * W :=
    let '(ok, w) := os_alloc w in (if ok : bool then Some (esc_text s) else None, w).

Definition mem_jsonl_emit (f : stream) (r : mem_record_entry_t) (w : W) : bool * stream * W :=
    let '(esc, w) := mem_json_escape (data r) w in
    match esc with
    | None => (true, f, w)
    | Some esc =>
        fprintf f (jsonl_line (record_id r) esc (default "null" (metadata r)) (created_at r) (strlen (data r))) w
    end.

Fixpoint mem_sink_jsonl (f : stream) (rs : list mem_record_entry_t) (w : W) : bool * stream * W :=
    match rs with
    | [] => (true, f, w)
    | r :: rs' =>
        let '(ok, f, w) := mem_jsonl_emit f r w in
        if ok : bool then mem_sink_jsonl f rs' w else (false, f, w)
    end.

Definition mem_atomic_write (path : string) (rs : list mem_record_entry_t) (d : disk) (w : W) : bool * disk * W :=
    let tmppath := path +:+ ".tmp" in
    if 4096 <=? strlen tmppath then (false, d, w)
    else
      let '(f, d, w) := fopen_wb tmppath d w in
      match f with
      | None => (false, d, w)
      | Some f =>
          let '(ok, f, w) := mem_sink_jsonl f rs w in
          let '(ok, f, d, w) := if ok : bool then fflush f d w else (false, f, d, w) in
          let '(ok, w) := if ok : bool then call w else (false, w) in
          let '(closed, d, w) := fclose f d w in
          if negb (ok && closed) then let '(d, w) := remove_file tmppath d w in (false, d, w)
          else
            let '(renamed, d, w) := airy_file_rename tmppath path d w in
            if renamed : bool then (true, d, w)
            else let '(d, w) := remove_file tmppath d w in (false, d, w)
      end.

(** The stream for appending, kept open between calls, and the disk. *)
Definition mem_persist_append_record (path : option string) (fp : option stream) (r : mem_record_entry_t) (d : disk) (w : W)
    : option stream * disk * W :=
    match path with
    | None => (fp, d, w)
    | Some path =>
        let '(f, d, w) := match fp with Some f => (Some f, d, w) | None => fopen_a path d w end in
        match f with
        | None => (None, d, w)
        | Some f =>
            let '(ok, f, w) := mem_jsonl_emit f r w in
            if ok : bool then let '(_, f, d, w) := fflush f d w in (Some f, d, w) else (Some f, d, w)
        end
    end.

Definition mem_persist_rewrite_all (path : option string) (fp : option stream) (rs : list mem_record_entry_t) (d : disk) (w : W)
    : option stream * disk * W :=
    match path with
    | None => (fp, d, w)
    | Some path =>
        let '(d, w) := match fp with Some f => let '(_, d, w) := fclose f d w in (d, w) | None => (d, w) end in
        let '(_, d, w) := mem_atomic_write path rs d w in
        (None, d, w)
    end.
End persist.

(** ** Replacing the file *)

Definition file_text (rs : list mem_record_entry_t) : string := str_concat (rec_line <$> rs).

(** From [d] to [d'], file [p] has the contents [v] all the time. *)
Definition keeps (p : string) (v : option string) (d d' : disk) : Prop :=
  now d' !! p = v /\ exists l, past d' = l ++ past d /\ Forall (fun f => f !! p = v) l.

Lemma keeps_refl p v d : now d !! p = v -> keeps p v d d.
Proof. intros Hv. split; [done|]. by exists []. Qed.

Lemma keeps_trans p v d1 d2 d3 : keeps p v d1 d2 -> keeps p v d2 d3 -> keeps p v d1 d3.
Proof.
  intros (_ & l1 & E1 & F1) (H2 & l2 & E2 & F2). split; [done|]. exists (l2 ++ l1).
  rewrite E2, E1, app_assoc. split; [done|]. by apply Forall_app.
Qed.

Lemma keeps_set p v d f : f !! p = v -> keeps p v d (set_disk f d).
Proof. intros Hf. split; [done|]. exists [f]. split; [done|]. by constructor. Qed.

Lemma append_file_ne p q s f : p <> q -> append_file q s f !! p = f !! p.
Proof. intros Hpq. unfold append_file. by rewrite lookup_insert_ne. Qed.

Lemma tmp_ne (p : string) : p <> p +:+ ".tmp".
Proof. intros E. apply (f_equal String.length) in E. rewrite str_length_app in E. cbn in E. lia. Qed.

Section replace.
  Context {W : Type} `{MemOS W} `{FileOS W}.

Lemma fflush_keeps p v f d (w : W) :
  s_path f <> p -> now d !! p = v ->
  let '(ok, f', d', _) := fflush f d w in
  keeps p v d d' /\ s_path f' = s_path f
  /\ (ok = true -> s_buf f' = "" /\ now d' !! s_path f = Some (default "" (now d !! s_path f) +:+ s_buf f)).
Proof.
  intros Hp Hv. unfold fflush. destruct (io w) as [[n|] w']; cbn [s_path s_buf].
  - split_and!; [|done|done]. apply keeps_set. by rewrite append_file_ne.
  - split_and!; [|done|]; [apply keeps_set; by rewrite append_file_ne|]. intros _. split; [done|].
    cbn. unfold append_file. by rewrite lookup_insert_eq.
Qed.

Lemma remove_keeps p q v d (w : W) : q <> p -> now d !! p = v -> let '(d', _) := remove_file q d w in keeps p v d d'.
Proof.
  intros Hq Hv. unfold remove_file. destruct (call w) as [[] w']; [|by apply keeps_refl].
  apply keeps_set. by rewrite lookup_delete_ne.
Qed.

(** What was printed are the lines of the records, of all of them when memory is
    available. *)
Lemma sink_spec : forall rs f (w : W),
  let '(ok, f', _) := mem_sink_jsonl f rs w in
  s_path f' = s_path f /\
  (ok = true -> exists rs', rs' `sublist_of` rs /\ s_buf f' = s_buf f +:+ file_text rs'
    /\ ((forall w : W, (os_alloc w).1 = true) -> rs' = rs)).
Proof.
  induction rs as [|r rs IH]; intros f w; cbn [mem_sink_jsonl].
  - split; [done|]. intros _. exists []. split_and!; [done| |done]. unfold file_text. cbn. by rewrite str_app_nil_r.
  - unfold mem_jsonl_emit, mem_json_escape. destruct (os_alloc w) as [[] w1] eqn:Ea.
    + unfold fprintf. destruct (io w1) as [[n|] w2]; [done|]. fold (rec_line r).
      specialize (IH (mkStream (s_path f) (s_buf f +:+ rec_line r)) w2). destruct (mem_sink_jsonl _ rs w2) as [[ok f'] w3].
      destruct IH as [Hp Hs]. split; [done|]. intros Hok. destruct (Hs Hok) as (rs' & Hsub & Hb & Hm).
      exists (r :: rs'). split_and!; [by constructor| |by intros Ha; rewrite (Hm Ha)].
      rewrite Hb. cbn [s_buf]. unfold file_text. cbn. by rewrite str_app_assoc.
    + specialize (IH f w1). destruct (mem_sink_jsonl f rs w1) as [[ok f'] w3]. destruct IH as [Hp Hs]. split; [done|].
      intros Hok. destruct (Hs Hok) as (rs' & Hsub & Hb & Hm). exists rs'. split_and!; [by constructor|done|].
      intros Ha. specialize (Ha w). by rewrite Ea in Ha.
Qed.

(** A replacement either leaves the file as it was at every moment, or ends with
    the new contents there and nothing else in between. *)
Lemma atomic_write_spec path rs d (w : W) :
  let '(ok, d', _) := mem_atomic_write path rs d w in
  if ok : bool
  then exists rs' d0, rs' `sublist_of` rs /\ keeps path (now d !! path) d d0
    /\ now d' !! path = Some (file_text rs') /\ past d' = now d' :: past d0
    /\ ((forall w : W, (os_alloc w).1 = true) -> rs' = rs)
  else keeps path (now d !! path) d d'.
Proof.
  unfold mem_atomic_write. destruct (4096 <=? _); [by apply keeps_refl|]. pose proof (not_eq_sym (tmp_ne path)) as Hne.
  unfold fopen_wb. destruct (io w) as [[n|] w1]; [by apply keeps_refl|].
  set (tmp := path +:+ ".tmp") in *. set (d1 := set_disk _ d).
  assert (K1 : keeps path (now d !! path) d d1) by (apply keeps_set; by rewrite lookup_insert_ne).
  assert (T1 : now d1 !! tmp = Some "") by (cbn; by rewrite lookup_insert_eq).
  pose proof (sink_spec rs (mkStream tmp "") w1) as Hs. destruct (mem_sink_jsonl _ rs w1) as [[ok f] w2]. destruct Hs as [Hp Hs].
  cbn [s_path s_buf] in Hp, Hs.
  assert (Hfl : exists ok2 f2 d2 w3, (if ok then fflush f d1 w2 else (false, f, d1, w2)) = (ok2, f2, d2, w3)
    /\ keeps path (now d !! path) d d2 /\ s_path f2 = tmp
    /\ (ok2 = true -> ok = true /\ s_buf f2 = "" /\ now d2 !! tmp = Some (s_buf f))).
  { destruct ok; [|by eexists _, _, _, _].
    pose proof (fflush_keeps path _ f d1 w2 ltac:(congruence) (proj1 K1)) as Hf.
    destruct (fflush f d1 w2) as [[[ok2 f2] d2] w3]. destruct Hf as (K & Ep & Hb). eexists _, _, _, _. split; [done|].
    split_and!; [by eapply keeps_trans|congruence|]. intros Ho. destruct (Hb Ho) as [Hb1 Hb2]. split_and!; [done..|].
    rewrite Hp, T1 in Hb2. done. }
  destruct Hfl as (ok2 & f2 & d2 & w3 & -> & K2 & Ep2 & Hb2).
  assert (Hc : exists ok3 w4, (if ok2 then call w3 else (false, w3)) = (ok3, w4) /\ (ok3 = true -> ok2 = true)).
  { destruct ok2; [destruct (call w3) as [b w4]; by eexists _, _|by eexists _, _]. }
  destruct Hc as (ok3 & w4 & -> & Hok3). unfold fclose.
  pose proof (fflush_keeps path _ f2 d2 w4 ltac:(congruence) (proj1 K2)) as Hf.
  destruct (fflush f2 d2 w4) as [[[ok4 f4] d3] w5]. destruct Hf as (K3 & _ & Hb3).
  assert (K : keeps path (now d !! path) d d3) by by eapply keeps_trans.
  assert (Hrm : forall d4 (w6 : W), keeps path (now d !! path) d d4 ->
    let '(ok', d', _) := (let '(d5, w7) := remove_file tmp d4 w6 in (false, d5, w7)) in
    (if ok' : bool then False else keeps path (now d !! path) d d')).
  { intros d4 w6 K4. pose proof (remove_keeps path tmp _ d4 w6 Hne (proj1 K4)) as Hr.
    destruct (remove_file tmp d4 w6) as [d5 w7]. by eapply keeps_trans. }
  destruct ok3, ok4; cbn [andb negb].
  2-4: specialize (Hrm d3 w5 K); by destruct (remove_file tmp d3 w5) as [d5 w7].
  destruct (Hb2 (Hok3 eq_refl)) as (Ho & Hbuf & Ht). destruct (Hb3 eq_refl) as [_ Hb4].
  rewrite Ep2, Ht, Hbuf in Hb4. cbn [default] in Hb4. rewrite str_app_nil_r in Hb4.
  unfold airy_file_rename. destruct (call w5) as [[] w6]; [|specialize (Hrm d3 w6 K); by destruct (remove_file tmp d3 w6)].
  rewrite Hb4. destruct (Hs Ho) as (rs' & Hsub & Hbf & Hm). exists rs', d3. split_and!; [done|done| |done|done].
  cbn. rewrite lookup_insert_eq, Hbf. done.
Qed.
End replace.

(** ** The escape *)

(** [json_body b s]: the body [b] of a JSON string literal stands for the bytes [s]
    (the escapes that name one byte). *)
Inductive json_body : string -> string -> Prop :=
| jb_nil : json_body "" ""
| jb_plain c b s : (32 <= nat_of_ascii c)%nat -> c <> dq -> c <> bs -> json_body b s -> json_body (String c b) (String c s)
| jb_short e c b s :
    (e, c) ∈ [(dq, dq); (bs, bs); ("/"%char, "/"%char); ("n"%char, "010"%char); ("t"%char, "009"%char); ("r"%char, "013"%char);
              ("b"%char, "008"%char); ("f"%char, "012"%char)] ->
    json_body b s -> json_body (String bs (String e b)) (String c s)
| jb_unicode n b s : (n < 128)%nat -> json_body b s ->
    json_body (String bs (String "u" (hexn 4 (Z.of_nat n) +:+ b))) (String (ascii_of_nat n) s).

(** The escaped text is a literal of the text. *)
Lemma esc_char_body c b s : json_body b s -> json_body (esc_char c +:+ b) (String c s).
Proof.
  intros Hb. assert (Hc : c = ascii_of_nat (nat_of_ascii c)) by by rewrite ascii_nat_embedding.
  assert (Hs : forall e m, (nat_of_ascii c = m)%nat -> (e, ascii_of_nat m) ∈
      [(dq, dq); (bs, bs); ("/"%char, "/"%char); ("n"%char, "010"%char); ("t"%char, "009"%char); ("r"%char, "013"%char);
       ("b"%char, "008"%char); ("f"%char, "012"%char)] -> json_body (String bs (String e b)) (String c s)).
  { intros e m E Hin. rewrite <- E, <- Hc in Hin. by apply jb_short. }
  unfold esc_char. cbn zeta.
  repeat match goal with
  | |- context [(nat_of_ascii c =? ?k)%nat] =>
      destruct (Nat.eqb_spec (nat_of_ascii c) k) as [E|?];
      [rewrite !str_app_cons; apply (Hs _ _ E); repeat first [apply list_elem_of_here | apply list_elem_of_further]|]
  end.
  destruct (Nat.ltb_spec (nat_of_ascii c) 32) as [Hl|Hl].
  - rewrite !str_app_cons. rewrite Hc at 2. apply jb_unicode; [lia|done].
  - rewrite str_app_cons. apply jb_plain; [done|intros ->; done|intros ->; done|done].
Qed.

Lemma esc_text_body s : json_body (esc_text s) s.
Proof. induction s as [|c s IH]; [constructor|]. by apply esc_char_body. Qed.

(** What needs no byte below 32 has no line break. *)
Definition printable (s : string) : Prop := str_forallb (fun c => (32 <=? nat_of_ascii c)%nat) s = true.

Lemma printable_app a b : printable a -> printable b -> printable (a +:+ b).
Proof. unfold printable. intros Ha Hb. by rewrite str_forallb_app, Ha, Hb. Qed.

Lemma printable_cons c s : (32 <= nat_of_ascii c)%nat -> printable s -> printable (String c s).
Proof. intros Hc Hs. unfold printable. cbn [str_forallb]. by rewrite (proj2 (Nat.leb_le _ _) Hc). Qed.

Lemma hex_char_printable n : 0 <= n < 16 -> (32 <= nat_of_ascii (hex_char n))%nat.
Proof. intros Hn. unfold hex_char. case_match; rewrite nat_ascii_embedding; bool_cases; lia. Qed.

Lemma hexn_printable k : forall n, printable (hexn k n).
Proof.
  induction k as [|k IH]; intros n; [done|]. cbn [hexn]. apply printable_app; [done|].
  apply printable_cons; [apply hex_char_printable, Z.mod_pos_bound; lia|done].
Qed.

Lemma digits_printable fuel : forall n acc, printable acc -> printable (dec_aux fuel n acc).
Proof.
  induction fuel as [|fuel IH]; intros n acc Ha; cbn [dec_aux]; [done|]. 
  assert (Hd : printable (String (digit_char (n mod 10)) acc)).
  { apply printable_cons; [|done]. unfold digit_char. pose proof (Z.mod_pos_bound n 10). rewrite nat_ascii_embedding; lia. }
  case_match; auto.
Qed.

Lemma esc_printable s : printable (esc_text s).
Proof.
  induction s as [|c s IH]; [done|]. cbn [esc_text]. apply printable_app; [|done]. unfold esc_char.
  repeat (case_match; [done|]). destruct (Nat.ltb_spec (nat_of_ascii c) 32).
  - do 2 (apply printable_cons; [vm_compute; lia|]). apply hexn_printable.
  - by apply printable_cons.
Qed.

#[export] Hint Resolve printable_app printable_cons hexn_printable esc_printable : recfile.

(** The line of a record ends at its only line break. *)
Definition line_body (r : mem_record_entry_t) : string :=
  "{" +:+ quoted "record_id" +:+ ":" +:+ quoted (record_id r) +:+ "," +:+ quoted "data" +:+ ":" +:+ quoted (esc_text (data r)) +:+ ","
  +:+ quoted "metadata" +:+ ":" +:+ default "null" (metadata r) +:+ "," +:+ quoted "created_at" +:+ ":" +:+ print_u (created_at r) +:+ ","
  +:+ quoted "len" +:+ ":" +:+ print_u (strlen (data r)) +:+ "}".

Lemma rec_line_body r : rec_line r = line_body r +:+ newline.
Proof. unfold rec_line, jsonl_line, line_body. by rewrite !str_app_assoc. Qed.

Lemma quoted_printable s : printable s -> printable (quoted s).
Proof. intros Hs. unfold quoted. apply printable_cons; [vm_compute; lia|]. by apply printable_app. Qed.

Lemma line_printable r : printable (record_id r) -> printable (default "null" (metadata r)) -> printable (line_body r).
Proof.
  intros Hi Hm. unfold line_body. repeat first [apply printable_app | apply quoted_printable | done | apply esc_printable].
  - by apply digits_printable.
  - by apply digits_printable.
Qed.
