(* ===== verification/Records.v ===== *)
(** * Records

    The record store of mem_d (mem_d/src/core/service.c without the search), its
    knowledge bases (mem_d/src/engine/kb.c) and loading the file of records
    (mem_d/src/engine/mem_persist.c, reading).

    The hash index of commons, its identifiers, its UTF-8 repair and cJSON are
    parameters.  The array of records is the list of the records in use; the disk
    the service writes to is part of its state.  Every operation runs under the
    lock and is one step; the embedding of a new record arrives in a step of its
    own. *)

From stdpp Require Import gmap.
From S2P Require Import Prelude Doubles MemEnv Vector DfTable Cjson RecFile.

Definition MEM_DEFAULT_MAX_RECORDS : nat := 1024.
Definition MEM_HASH_LOAD_FACTOR : nat := 4.
Definition MEM_RECENT_DEFAULT_LIMIT : nat := 10.
Definition MEM_KB_DEFAULT_CHUNK_SIZE : nat := 512.
Definition MEM_KB_ID_MAX : nat := 256.

(** ** The parameters *)

Class RecOS (W : Type) := {
  rec_time : W -> Z * W;                       (** [time(NULL)] *)
  rec_oid : W -> string * W                    (** [airy_oid_str(airy_oid_gen())] *)
}.

(** The hash index of commons: from names to places. *)
Class HIndex (W : Type) := {
  hindex_t : Type;
  hindex_init : nat -> W -> option hindex_t * W;
  hindex_get : hindex_t -> string -> option nat;
  hindex_put : hindex_t -> string -> nat -> W -> airy_rc * hindex_t * W;
  hindex_del : hindex_t -> string -> hindex_t
}.

(** What the store relies on: a put that succeeds sets the place of the name and
    one that fails changes nothing, a name that is there can be put again, and
    deleting forgets one name. *)
Class HIndexLaws (W : Type) `{HIndex W} := {
  hi_init : forall n w h w', hindex_init n w = (Some h, w') -> forall k, hindex_get h k = None;
  hi_put : forall h k i w h' w', hindex_put h k i w = (AIRY_SUCCESS, h', w') ->
    forall k', hindex_get h' k' = if decide (k' = k) then Some i else hindex_get h k';
  hi_fail : forall h k i w rc h' w', hindex_put h k i w = (rc, h', w') -> rc <> AIRY_SUCCESS ->
    forall k', hindex_get h' k' = hindex_get h k';
  hi_again : forall h k i w rc h' w', hindex_put h k i w = (rc, h', w') -> is_Some (hindex_get h k) -> rc = AIRY_SUCCESS;
  hi_del : forall h k k', hindex_get (hindex_del h k) k' = if decide (k' = k) then None else hindex_get h k'
}.

(** More of cJSON: the null value, and printing what was parsed. *)
Class CjsonMore `{Cjson} := {
  cJSON_IsNull : cJSON -> bool;
  cJSON_Print : cJSON -> string
}.

(** ** Data *)

Section store.
  Context {W : Type} `{MemOS W} `{FileOS W} `{RecOS W} `{HIndex W} `{CJ : Cjson} `{!CjsonMore}.

Record mem_service_t := mkSvc {
    records : list mem_record_entry_t;           (** [record_count] is its length *)
    max_records : nat;
    record_index : hindex_t;
    df_table : mem_df_table_t;
    jsonl_path : option string;
    jsonl_append_fp : option stream;
    dsk : disk
  }.

Record mem_record_t := mkOut {
    o_data : string;
    o_metadata : option string
  }.

Record mem_recent_item_t := mkItem {
    i_id : option string;
    i_data : string;
    i_metadata : option string;
    i_created : Z
  }.

(** ** Records *)

(** The copy of [len] bytes, [None] for NULL. *)
Definition mem_dup_data (s : string) (w : W) : option string * W := AIRY_STRDUP s w.

Definition mem_rec_copy_out (r : mem_record_entry_t) (w : W) : option mem_record_t * W :=
    let '(d, w) := mem_dup_data (data r) w in
    match d with
    | None => (None, w)
    | Some d => let '(m, w) := strdup_opt (metadata r) w in (Some (mkOut d m), w)
    end.

Definition mem_rec_find (svc : mem_service_t) (id : string) : option nat :=
    match hindex_get (record_index svc) id with
    | Some i => if (i <? length (records svc))%nat then Some i else None
    | None => None
    end.

(** The vector of a record, counted in the table. *)
Definition mem_record_build_vector (t : mem_df_table_t) (text : string) (w : W) : mem_tfidf_vec_t * mem_df_table_t * W :=
    let '(_, v, w) := mem_vec_build (Some text) w in
    let '(t, w) := mem_df_add_doc t v w in
    (v, t, w).

(** The locked part of a write: result, identifier for the caller, service.  [text]
    is [None] for NULL. *)
Definition mem_service_write (svc : mem_service_t) (text meta : option string) (w : W)
    : airy_rc * option string * mem_service_t * W :=
    match text with
    | None | Some EmptyString => (AIRY_ERR_INVALID_PARAM, None, svc, w)
    | Some text =>
        if (max_records svc <=? length (records svc))%nat then (AIRY_ERR_OUT_OF_MEMORY, None, svc, w)
        else
          let '(oid, w) := rec_oid w in
          let '(id, w) := AIRY_STRDUP oid w in
          let '(dat, w) := mem_dup_data text w in
          match id, dat with
          | Some id, Some dat =>
              let '(m, w) := strdup_opt meta w in
              let '(created, w) := rec_time w in
              let '(v, df, w) := mem_record_build_vector (df_table svc) dat w in
              let '(rc, h, w) := hindex_put (record_index svc) id (length (records svc)) w in
              if bool_decide (rc <> AIRY_SUCCESS)
              then (rc, None,
                    mkSvc (records svc) (max_records svc) h df (jsonl_path svc) (jsonl_append_fp svc) (dsk svc), w)
              else
                let '(out, w) := AIRY_STRDUP id w in
                let r := mkRec id dat m (u64 created) v None in
                let '(fp, d, w) := mem_persist_append_record (jsonl_path svc) (jsonl_append_fp svc) r (dsk svc) w in
                (AIRY_SUCCESS, out, mkSvc (records svc ++ [r]) (max_records svc) h df (jsonl_path svc) fp d, w)
          | _, _ => (AIRY_ERR_OUT_OF_MEMORY, None, svc, w)
          end
    end.

Definition set_emb (e : list double) (r : mem_record_entry_t) : mem_record_entry_t :=
    mkRec (record_id r) (data r) (metadata r) (created_at r) (vec r) (Some e).

(** The locked part of [mem_rec_embed]: the record is looked up again. *)
Definition mem_rec_embed_attach (svc : mem_service_t) (id : string) (e : list double) : mem_service_t :=
    match mem_rec_find svc id with
    | Some i =>
        mkSvc (alter (set_emb e) i (records svc)) (max_records svc) (record_index svc) (df_table svc) (jsonl_path svc)
              (jsonl_append_fp svc) (dsk svc)
    | None => svc
    end.

Definition mem_service_get (svc : mem_service_t) (id : string) (w : W) : airy_rc * option mem_record_t * W :=
    match mem_rec_find svc id ≫= fun i => records svc !! i with
    | None => (AIRY_ERR_NOT_FOUND, None, w)
    | Some r =>
        let '(out, w) := mem_rec_copy_out r w in
        match out with
        | None => (AIRY_ERR_OUT_OF_MEMORY, None, w)
        | Some out => (AIRY_SUCCESS, Some out, w)
        end
    end.

(** The last record moves into the place of the one that goes. *)
Definition mem_remove_record_at (svc : mem_service_t) (idx : nat) (w : W) : mem_service_t * W :=
    match records svc !! idx, last (records svc) with
    | Some r, Some l =>
        let h := hindex_del (record_index svc) (record_id r) in
        let df := mem_df_remove_doc (df_table svc) (vec r) in
        let lst := (length (records svc) - 1)%nat in
        let '(rs, h, w) :=
          if (idx =? lst)%nat then (records svc, h, w)
          else let '(_, h, w) := hindex_put h (record_id l) idx w in (<[idx := l]> (records svc), h, w) in
        (mkSvc (take lst rs) (max_records svc) h df (jsonl_path svc) (jsonl_append_fp svc) (dsk svc), w)
    | _, _ => (svc, w)
    end.

(** [mem_persist_rewrite_all(svc)] *)
Definition rewrite_file (svc : mem_service_t) (w : W) : mem_service_t * W :=
    let '(fp, d, w) := mem_persist_rewrite_all (jsonl_path svc) (jsonl_append_fp svc) (records svc) (dsk svc) w in
    (mkSvc (records svc) (max_records svc) (record_index svc) (df_table svc) (jsonl_path svc) fp d, w).

Definition mem_service_delete (svc : mem_service_t) (id : string) (w : W) : airy_rc * mem_service_t * W :=
    match mem_rec_find svc id with
    | None => (AIRY_ERR_NOT_FOUND, svc, w)
    | Some i =>
        let '(svc, w) := mem_remove_record_at svc i w in
        let '(svc, w) := rewrite_file svc w in
        (AIRY_SUCCESS, svc, w)
    end.

Definition mem_service_count (svc : mem_service_t) : nat := length (records svc).

(** The copies of the records [rs]. *)
Fixpoint recent_loop (rs : list mem_record_entry_t) (w : W) : list mem_recent_item_t * W :=
    match rs with
    | [] => ([], w)
    | r :: rs' =>
        let '(id, w) := AIRY_STRDUP (record_id r) w in
        let '(out, w) := mem_rec_copy_out r w in
        let '(items, w) := recent_loop rs' w in
        (match out with Some o => mkItem id (o_data o) (o_metadata o) (created_at r) :: items | None => items end, w)
    end.

Definition mem_service_recent (svc : mem_service_t) (limit : nat) (w : W) : airy_rc * list mem_recent_item_t * W :=
    let limit := if (limit =? 0)%nat then MEM_RECENT_DEFAULT_LIMIT else limit in
    if (length (records svc) =? 0)%nat then (AIRY_SUCCESS, [], w)
    else
      let '(ok, w) := os_alloc w in
      if negb ok then (AIRY_ERR_OUT_OF_MEMORY, [], w)
      else let '(items, w) := recent_loop (take limit (reverse (records svc))) w in (AIRY_SUCCESS, items, w).
End store.
Arguments mem_service_t W {_}.

(** ** Knowledge bases *)

Section kb.
  Context {W : Type} `{MemOS W} `{FileOS W} `{RecOS W} `{HIndex W} `{CJ : Cjson}.
  Implicit Types svc : mem_service_t W.

Definition mem_rec_kb_id (r : mem_record_entry_t) : option string :=
    match metadata r with
    | None | Some EmptyString => None
    | Some m => snprintf_s MEM_KB_ID_MAX <$> cj_str (cj_get (cJSON_Parse m) "kb_id")
    end.

Definition mem_rec_in_kb (r : mem_record_entry_t) (kb_id : string) : bool :=
    match mem_rec_kb_id r with Some id => strcmp_eq id kb_id | None => false end.

Definition is_cont (c : ascii) : bool := Z.land (byte c) 192 =? 128.

(** [while (p > off && ...) p--] on the rest of the text. *)
Fixpoint back (rest : string) (p : nat) : nat :=
    match p with
    | O => O
    | S p' => if default false (is_cont <$> String.get p rest) then back rest p' else p
    end.

(** The length of the next piece of the rest of the text. *)
Definition mem_kb_chunk_len (rest : string) (chunk_size : nat) : nat :=
    if (String.length rest <=? chunk_size)%nat then String.length rest else back rest chunk_size.

Definition mem_kb_build_meta (kb_id : string) (doc_id : option string) (chunk : nat) (w : W) : airy_rc * option string * W :=
    let '(ok, w) := os_alloc w in
    if ok : bool
    then (AIRY_SUCCESS,
          Some (cJSON_PrintUnformatted
                  (JObj [("kb_id", JStr kb_id); ("doc_id", JStr (default "" doc_id)); ("chunk", JNum (Z.of_nat chunk))]%string)), w)
    else (AIRY_ERR_OUT_OF_MEMORY, None, w).

(** The loop over the rest of the text; [n] pieces are written.  Every round
    consumes a byte at least. *)
Fixpoint ingest_loop (fuel : nat) (kb_id : string) (doc_id : option string) (chunk_size : nat) (rest : string) (n : nat) svc (w : W)
    : airy_rc * nat * mem_service_t W * W :=
    match fuel, rest with
    | S fuel', String _ _ =>
        let clen := mem_kb_chunk_len rest chunk_size in
        if (clen =? 0)%nat then (AIRY_SUCCESS, n, svc, w)
        else
          let '(rc, meta, w) := mem_kb_build_meta kb_id doc_id n w in
          if bool_decide (rc <> AIRY_SUCCESS) then (rc, n, svc, w)
          else
            let '(rc, _, svc, w) := mem_service_write svc (Some (String.substring 0 clen rest)) meta w in
            if bool_decide (rc <> AIRY_SUCCESS) then (rc, n, svc, w)
            else ingest_loop fuel' kb_id doc_id chunk_size
                   (String.substring clen (String.length rest - clen) rest) (n + 1) svc w
    | _, _ => (AIRY_SUCCESS, n, svc, w)
    end.

Definition mem_service_kb_ingest svc (kb_id : string) (doc_id : option string) (text : string) (chunk_size : nat) (w : W)
    : airy_rc * nat * mem_service_t W * W :=
    if strcmp_eq kb_id "" || strcmp_eq text "" then (AIRY_ERR_INVALID_PARAM, 0%nat, svc, w)
    else ingest_loop (String.length text) kb_id doc_id
           (if (chunk_size =? 0)%nat then MEM_KB_DEFAULT_CHUNK_SIZE else chunk_size) text 0 svc w.

(** The loop from place [i]; every round deletes a record or moves on. *)
Fixpoint kb_delete_loop (fuel : nat) (i : nat) (kb_id : string) svc (n : nat) (w : W) : mem_service_t W * nat * W :=
    match fuel with
    | O => (svc, n, w)
    | S fuel' =>
        match records svc !! i with
        | None => (svc, n, w)
        | Some r =>
            if mem_rec_in_kb r kb_id
            then let '(svc, w) := mem_remove_record_at svc i w in kb_delete_loop fuel' i kb_id svc (n + 1) w
            else kb_delete_loop fuel' (i + 1) kb_id svc n w
        end
    end.

Definition mem_service_kb_delete svc (kb_id : string) (w : W) : airy_rc * nat * mem_service_t W * W :=
    if strcmp_eq kb_id "" then (AIRY_ERR_INVALID_PARAM, 0%nat, svc, w)
    else
      let '(svc, n, w) := kb_delete_loop (length (records svc)) 0 kb_id svc 0 w in
      let '(svc, w) := if (0 <? n)%nat then rewrite_file svc w else (svc, w) in
      (AIRY_SUCCESS, n, svc, w).

(** [None]: out of memory. *)
Fixpoint kb_list_loop (rs : list mem_record_entry_t) (ids : list string) (w : W) : option (list string) * W :=
    match rs with
    | [] => (Some ids, w)
    | r :: rs' =>
        match mem_rec_kb_id r with
        | None => kb_list_loop rs' ids w
        | Some kb =>
            if existsb (fun id => strcmp_eq id kb) ids then kb_list_loop rs' ids w
            else
              let '(ok, w) := os_alloc w in
              if negb ok then (None, w)
              else
                let '(id, w) := AIRY_STRDUP kb w in
                match id with Some id => kb_list_loop rs' (ids ++ [id]) w | None => (None, w) end
        end
    end.

Definition mem_service_kb_list svc (w : W) : airy_rc * list string * W :=
    let '(ids, w) := kb_list_loop (records svc) [] w in
    match ids with Some ids => (AIRY_SUCCESS, ids, w) | None => (AIRY_ERR_OUT_OF_MEMORY, [], w) end.
End kb.

(** ** Loading the file *)

Section load.
  Context {W : Type} `{MemOS W} `{FileOS W} `{RecOS W} `{HIndex W} `{CJ : Cjson} `{!CjsonMore}.
  Context (utf8_sanitize : string -> string).
  Implicit Types svc : mem_service_t W.

(** [(size_t)x]; [None] where the conversion is undefined. *)
Definition size_of_double (x : double) : option Z :=
    if dlt (d_of_Z (-1)) x && dlt x (d_of_Z (UINT64_MAX + 1)) then Some (d_trunc x) else None.

(** Metadata and time; [None] for a time that is no [uint64_t]. *)
Definition mem_record_meta (root : cJSON) (w : W) : option (option string * Z) * W :=
    let '(m, w) :=
      match cJSON_GetObjectItem root "metadata" with
      | None => (None, w)
      | Some v =>
          if cJSON_IsNull v then (None, w)
          else let '(s, w) := AIRY_STRDUP (cJSON_Print v) w in
               match s with Some s => AIRY_STRDUP s w | None => (None, w) end
      end in
    match cj_num (cJSON_GetObjectItem root "created_at") with
    | Some x => ((fun t => (m, t)) <$> size_of_double x, w)
    | None => let '(t, w) := rec_time w in (Some (m, u64 t), w)
    end.

(** The bytes to copy: the length of the line, or that of the text. *)
Definition data_len (root : cJSON) (text : string) : option Z :=
    let n := match cj_num (cJSON_GetObjectItem root "len") with
             | Some x => size_of_double x
             | None => Some (strlen (cstr text))
             end in
    (fun n => if n =? 0 then strlen (cstr text) else n) <$> n.

(** [memcpy] of [n] bytes of a decoded text and its terminator; [None]: it reads
    past them. *)
Definition copy_text (text : string) (n : Z) : option string :=
    if n <=? strlen text then Some (String.substring 0 (Z.to_nat n) text)
    else if n =? strlen text + 1 then Some (text +:+ String "000" "")
    else None.

(** [None]: undefined behaviour.  The result tells whether a record was added. *)
Definition mem_record_decode svc (root : cJSON) (w : W) : option (bool * mem_service_t W * W) :=
    match cj_str (cJSON_GetObjectItem root "record_id"), cj_str (cJSON_GetObjectItem root "data") with
    | Some rid, Some text =>
        if (max_records svc <=? length (records svc))%nat then Some (false, svc, w)
        else
          n ← data_len root text;
          let '(id, w) := AIRY_STRDUP (cstr rid) w in
          let '(ok, w) := os_alloc w in
          match id, (ok : bool) with
          | Some id, true =>
              dat ← copy_text text n;
              let '(m, w) := mem_record_meta root w in
              '(meta, created) ← m;
              let '(rc, h, w) := hindex_put (record_index svc) id (length (records svc)) w in
              if bool_decide (rc <> AIRY_SUCCESS)
              then Some (false, mkSvc (records svc) (max_records svc) h (df_table svc) (jsonl_path svc) (jsonl_append_fp svc) (dsk svc), w)
              else
                let '(v, df, w) := mem_record_build_vector (df_table svc) dat w in
                Some (true, mkSvc (records svc ++ [mkRec id dat meta created v None]) (max_records svc) h df
                                  (jsonl_path svc) (jsonl_append_fp svc) (dsk svc), w)
          | _, _ => Some (false, svc, w)
          end
    | _, _ => Some (false, svc, w)
    end.

(** The lines of the contents, the last one after the last line break too. *)
Fixpoint split_lines (s : string) : list string :=
    match s with
    | EmptyString => [EmptyString]
    | String c s' =>
        if Ascii.eqb c "010" then EmptyString :: split_lines s'
        else match split_lines s' with
             | l :: ls => String c l :: ls
             | [] => [String c EmptyString]
             end
    end.

(** Carriage returns at the end of a line go. *)
Fixpoint strip_cr (s : string) : string :=
    match s with
    | EmptyString => EmptyString
    | String c s' =>
        match strip_cr s' with
        | EmptyString => if Ascii.eqb c "013" then EmptyString else String c EmptyString
        | t => String c t
        end
    end.

Fixpoint mem_load_lines svc (lines : list string) (w : W) : option (mem_service_t W * W) :=
    match lines with
    | [] => Some (svc, w)
    | l :: ls =>
        let l := strip_cr (cstr l) in
        if strcmp_eq l "" then mem_load_lines svc ls w
        else match cJSON_Parse l with
             | None => mem_load_lines svc ls w
             | Some root => '(_, svc, w) ← mem_record_decode svc root w; mem_load_lines svc ls w
             end
    end.

(** [airy_io_write_file] of commons. *)
Definition write_file (p s : string) svc (w : W) : bool * mem_service_t W * W :=
    let '(ok, w) := call w in
    if ok then (true, mkSvc (records svc) (max_records svc) (record_index svc) (df_table svc) (jsonl_path svc) (jsonl_append_fp svc)
                            (set_disk (<[p := s]> (now (dsk svc))) (dsk svc)), w)
    else (false, svc, w).

(** The contents to load. *)
Definition mem_persist_repair_utf8 svc (path content : string) (w : W) : string * mem_service_t W * W :=
    if (SIZE_MAX - 1) / 3 <? strlen content then (content, svc, w)
    else
      let '(ok, w) := os_alloc w in
      if negb ok then (content, svc, w)
      else
        let clean := utf8_sanitize content in
        if strcmp_eq clean content || (4096 <=? strlen (path +:+ ".bak")) then (content, svc, w)
        else
          let '(ok, svc, w) := write_file (path +:+ ".bak") content svc w in
          if negb ok then (content, svc, w)
          else let '(ok, svc, w) := write_file path clean svc w in ((if ok : bool then clean else content), svc, w).

Definition mem_persist_load_existing svc (w : W) : option (mem_service_t W * W) :=
    match jsonl_path svc with
    | None => Some (svc, w)
    | Some path =>
        let '(ok, w) := call w in
        match (if ok then now (dsk svc) !! path else None) with
        | None | Some EmptyString => Some (svc, w)
        | Some content =>
            let '(content, svc, w) := mem_persist_repair_utf8 svc path content w in
            mem_load_lines svc (split_lines content) w
        end
    end.

(** [path] is what [mem_jsonl_path_resolve] found; the outer [None] is undefined
    behaviour. *)
Definition mem_service_create (n : nat) (path : option string) (d : disk) (w : W) : option (option (mem_service_t W) * W) :=
    let n := if (n =? 0)%nat then MEM_DEFAULT_MAX_RECORDS else n in
    let '(ok1, w) := os_alloc w in
    if negb ok1 then Some (None, w)
    else
      let '(ok2, w) := os_alloc w in
      if negb ok2 then Some (None, w)
      else
        let '(h, w) := hindex_init (n * MEM_HASH_LOAD_FACTOR) w in
        match h with
        | None => Some (None, w)
        | Some h =>
            let '(_, t, w) := mem_df_init (n * 64) w in
            match t with
            | None => Some (None, w)
            | Some t => '(svc, w) ← mem_persist_load_existing (mkSvc [] n h t path None d) w; Some (Some svc, w)
            end
        end.
End load.

(** ** Invariant *)

Definition ids {W} `{HIndex W} (svc : mem_service_t W) : list string := record_id <$> records svc.

(** No identifier twice, no more records than there is room for, and the index
    knows exactly the places of the records. *)
Record store_ok {W} `{HIndex W} (svc : mem_service_t W) : Prop := mkOk {
  so_nodup : NoDup (ids svc);
  so_max : (length (records svc) <= max_records svc)%nat;
  so_index : forall id i, hindex_get (record_index svc) id = Some i <-> ids svc !! i = Some id
}.

(** Taking a place of an array by moving the last element there. *)
Definition swap_remove {A} (l : list A) (i : nat) (x : A) : list A :=
  take (length l - 1) (if (i =? length l - 1)%nat then l else <[i := x]> l).

Lemma swap_remove_app {A} (l : list A) i r x :
  l !! i = Some r -> last l = Some x ->
  (l = take i l ++ [r] /\ swap_remove l i x = take i l)
  \/ exists m, l = take i l ++ r :: m ++ [x] /\ swap_remove l i x = take i l ++ x :: m.
Proof.
  intros Hi Hl. apply last_Some in Hl as [l' ->]. unfold swap_remove. rewrite length_app. cbn [length].
  replace (length l' + 1 - 1)%nat with (length l') by lia. destruct (Nat.eqb_spec i (length l')) as [->|Hne].
  - left. rewrite lookup_app_r, Nat.sub_diag in Hi by done. cbn in Hi. simplify_eq. by rewrite take_app_length.
  - right. assert (Hlt : (i < length l')%nat).
    { apply lookup_lt_Some in Hi. rewrite length_app in Hi. cbn in Hi. lia. }
    rewrite lookup_app_l in Hi by done. exists (drop (S i) l').
    rewrite take_app_le by lia. rewrite insert_app_l by done. rewrite take_app_le by (by rewrite length_insert).
    rewrite (take_ge (<[i := x]> l')) by (by rewrite length_insert). rewrite insert_take_drop by done. split; [|done].
    rewrite <- (take_drop_middle l' i r Hi) at 1. by rewrite <- app_assoc.
Qed.

Lemma swap_out_perm {A} (l : list A) i r x : l !! i = Some r -> last l = Some x -> l ≡ₚ r :: swap_remove l i x.
Proof.
  intros Hi Hl. destruct (swap_remove_app l i r x Hi Hl) as [[El ->]|(m & El & ->)]; rewrite El at 1; solve_Permutation.
Qed.

Lemma swap_remove_lookup {A} (l : list A) i x j :
  last l = Some x -> (i < length l)%nat ->
  swap_remove l i x !! j = if decide (j < length l - 1)%nat then if decide (j = i) then Some x else l !! j else None.
Proof.
  intros Hl Hi. unfold swap_remove. case_decide as Hj.
  - rewrite lookup_take_lt by done. case_decide as Hji.
    + subst j. destruct (Nat.eqb_spec i (length l - 1)); [lia|]. by rewrite list_lookup_insert_eq.
    + case_match; [done|]. by rewrite list_lookup_insert_ne.
  - rewrite lookup_take_ge; [done|lia].
Qed.

Lemma swap_remove_fmap {A B} (f : A -> B) (l : list A) i x : f <$> swap_remove l i x = swap_remove (f <$> l) i (f x).
Proof. unfold swap_remove. rewrite length_fmap, fmap_take. f_equal. case_match; [done|]. by rewrite list_fmap_insert. Qed.

Lemma last_place {A} (l : list A) x : last l = Some x -> l !! (length l - 1)%nat = Some x.
Proof. rewrite last_lookup. by replace (Nat.pred (length l)) with (length l - 1)%nat by lia. Qed.

(** In a list without duplicates: [r] is gone and [x] has its place. *)
Lemma swap_places (l : list string) i r x id j :
  NoDup l -> l !! i = Some r -> last l = Some x ->
  swap_remove l i x !! j = Some id <-> id <> r /\ if decide (id = x) then j = i else l !! j = Some id.
Proof.
  intros Hnd Hi Hl. pose proof (last_place _ _ Hl) as Hx. pose proof (lookup_lt_Some _ _ _ Hi) as Hlt.
  assert (Hinj : forall a b y, l !! a = Some y -> l !! b = Some y -> a = b) by (intros a b y; by apply NoDup_lookup).
  rewrite swap_remove_lookup by done. destruct (decide (j < length l - 1)%nat) as [Hj|Hj].
  - destruct (decide (j = i)) as [->|Hji].
    + split.
      * intros [= <-]. rewrite decide_True by done. split; [|done]. intros ->. pose proof (Hinj _ _ _ Hx Hi). lia.
      * intros [Hne Hd]. destruct (decide (id = x)); congruence.
    + split.
      * intros Hjd. split; [intros ->; apply Hji; by eapply Hinj|]. destruct (decide (id = x)) as [->|]; [|done].
        pose proof (Hinj _ _ _ Hjd Hx). lia.
      * intros [Hne Hd]. destruct (decide (id = x)); [done|done].
  - split; [done|]. intros [Hne Hd]. exfalso. destruct (decide (id = x)) as [->|Hidx].
    + subst j. assert (i = (length l - 1)%nat) by lia. congruence.
    + pose proof (lookup_lt_Some _ _ _ Hd). replace j with (length l - 1)%nat in Hd by lia. congruence.
Qed.

Lemma filter_all {A} (P : A -> Prop) `{!forall x, Decision (P x)} (l : list A) : Forall P l -> filter P l = l.
Proof. induction 1 as [|x l Hx _ IH]; [done|]. by rewrite filter_cons_True, IH. Qed.

Section inv.
  Context {W : Type} `{MemOS W} `{FileOS W} `{RecOS W} `{HIndex W} `{!HIndexLaws W} `{CJ : Cjson}.
  Implicit Types svc : mem_service_t W.

Lemma find_ids svc id i : store_ok svc -> mem_rec_find svc id = Some i <-> ids svc !! i = Some id.
Proof.
  intros [_ _ Hi]. unfold mem_rec_find. specialize (Hi id). destruct (hindex_get (record_index svc) id) as [j|].
  - assert (Hj : ids svc !! j = Some id) by by apply Hi.
    pose proof (lookup_lt_Some _ _ _ Hj) as Hl. unfold ids in Hl. rewrite length_fmap in Hl.
    rewrite (proj2 (Nat.ltb_lt _ _) Hl). apply Hi.
  - split; [done|]. intros Hx. by apply Hi in Hx.
Qed.

Lemma find_record svc id i :
  store_ok svc -> mem_rec_find svc id = Some i -> exists r, records svc !! i = Some r /\ record_id r = id.
Proof.
  intros Hok Hf. apply find_ids in Hf; [|done]. unfold ids in Hf. apply list_lookup_fmap_Some in Hf as (r & Hid & Hr). by exists r.
Qed.

(** Removing a record. *)
Lemma remove_at_ok svc i r (w : W) :
  store_ok svc -> records svc !! i = Some r ->
  let '(svc', _) := mem_remove_record_at svc i w in
  store_ok svc' /\ records svc ≡ₚ r :: records svc' /\ take i (records svc') = take i (records svc)
  /\ max_records svc' = max_records svc /\ df_table svc' = mem_df_remove_doc (df_table svc) (vec r)
  /\ jsonl_path svc' = jsonl_path svc /\ jsonl_append_fp svc' = jsonl_append_fp svc /\ dsk svc' = dsk svc.
Proof.
  intros [Hnd Hmax Hidx] Hr. unfold mem_remove_record_at. rewrite Hr.
  destruct (last (records svc)) as [l|] eqn:Hl; [|apply last_None in Hl; by rewrite Hl in Hr].
  pose proof (swap_out_perm _ _ _ _ Hr Hl) as Hp. set (rs := swap_remove (records svc) i l) in *.
  assert (Htake : take i rs = take i (records svc)).
  { pose proof (lookup_lt_Some _ _ _ Hr). unfold rs. destruct (swap_remove_app _ _ _ _ Hr Hl) as [[_ E]|(m & _ & E)]; rewrite E.
    - by rewrite take_take, Nat.min_id.
    - rewrite take_app_le, take_take, Nat.min_id by (rewrite length_take; lia). done. }
  assert (Hri : ids svc !! i = Some (record_id r)) by (unfold ids; by rewrite list_lookup_fmap, Hr).
  assert (Hli : last (ids svc) = Some (record_id l)) by (unfold ids; by rewrite fmap_last, Hl).
  assert (Hfin : forall h', (forall k, hindex_get h' k =
      if decide (k = record_id r) then None else if decide (k = record_id l) then Some i else hindex_get (record_index svc) k) ->
    store_ok (mkSvc rs (max_records svc) h' (mem_df_remove_doc (df_table svc) (vec r)) (jsonl_path svc) (jsonl_append_fp svc) (dsk svc))).
  { intros h' Hh. split; unfold ids in *; cbn [records max_records record_index].
    - rewrite Hp, fmap_cons in Hnd. by apply NoDup_cons in Hnd as [_ ?].
    - apply Permutation_length in Hp. cbn in Hp. lia.
    - intros id j. unfold rs. rewrite swap_remove_fmap, (swap_places _ _ (record_id r)), Hh by done.
      repeat case_decide; [naive_solver..|]. rewrite Hidx. naive_solver. }
  change (take (length (records svc) - 1) (if (i =? length (records svc) - 1)%nat then records svc else <[i := l]> (records svc)))
    with rs in *.
  destruct (Nat.eqb_spec i (length (records svc) - 1)) as [E|E].
  - assert (r = l) as -> by (apply last_place in Hl; rewrite <- E, Hr in Hl; congruence).
    replace (take _ (records svc)) with rs by (unfold rs, swap_remove; by rewrite (proj2 (Nat.eqb_eq _ _) E)).
    split_and!; [|done..]. apply Hfin. intros k. rewrite hi_del. by repeat case_decide.
  - destruct (hindex_put _ (record_id l) i w) as [[rc h'] w'] eqn:Hput.
    replace (take _ (<[i := l]> (records svc))) with rs by (unfold rs, swap_remove; by rewrite (proj2 (Nat.eqb_neq _ _) E)).
    split_and!; [|done..]. apply Hfin. assert (Hne : record_id l <> record_id r).
    { intros Ex. apply last_place in Hli. rewrite (length_fmap record_id (records svc) : length (ids svc) = _), Ex in Hli.
      apply E. by apply (NoDup_lookup (ids svc) _ _ (record_id r)). }
    assert (Hrc : rc = AIRY_SUCCESS).
    { apply (hi_again _ _ _ _ _ _ _ Hput). rewrite hi_del, decide_False by done. exists (length (ids svc) - 1)%nat.
      by apply Hidx, last_place. }
    subst rc. intros k. rewrite (hi_put _ _ _ _ _ _ Hput), hi_del. repeat case_decide; congruence.
Qed.

Lemma strdup_opt_out m (w : W) : (strdup_opt m w).1 = m \/ (strdup_opt m w).1 = None.
Proof. destruct m as [m|]; [|by left]. unfold strdup_opt, AIRY_STRDUP. destruct (os_alloc w) as [[] ?]; auto. Qed.

(** What a write does: a new record at the end, or nothing. *)
Lemma write_shape svc text meta (w : W) :
  let '(rc, out, svc', _) := mem_service_write svc text meta w in
  max_records svc' = max_records svc /\
  (if decide (rc = AIRY_SUCCESS)
   then (length (records svc) < max_records svc)%nat /\ exists s r, text = Some s /\ s <> ""%string /\ records svc' = records svc ++ [r]
     /\ record_id r = (rec_oid w).1 /\ data r = s /\ (metadata r = meta \/ metadata r = None)
     /\ (out = Some (record_id r) \/ out = None)
     /\ forall k, hindex_get (record_index svc') k = if decide (k = record_id r) then Some (length (records svc)) else hindex_get (record_index svc) k
   else records svc' = records svc /\ out = None /\ (forall k, hindex_get (record_index svc') k = hindex_get (record_index svc) k) /\
     match text with
     | None | Some EmptyString => rc = AIRY_ERR_INVALID_PARAM
     | Some _ => (max_records svc <= length (records svc))%nat -> rc = AIRY_ERR_OUT_OF_MEMORY
     end).
Proof.
  unfold mem_service_write. destruct text as [[|c text]|]; [done| |done].
  destruct (Nat.leb_spec (max_records svc) (length (records svc))) as [Hm|Hm]; [done|]. destruct (rec_oid w) as [oid w1]. cbn [fst].
  unfold AIRY_STRDUP at 1. destruct (os_alloc w1) as [[] w2]; unfold mem_dup_data, AIRY_STRDUP at 1; destruct (os_alloc w2) as [[] w3];
    try (by rewrite decide_False by done).
  pose proof (strdup_opt_out meta w3) as Hmeta. destruct (strdup_opt meta w3) as [m w4]. cbn [fst] in Hmeta. destruct (rec_time w4) as [t w5].
  destruct (mem_record_build_vector _ _ w5) as [[v df] w6].
  destruct (hindex_put (record_index svc) oid _ w6) as [[rc h] w7] eqn:Hput. case_bool_decide as Hrc.
  { rewrite decide_False by done. split_and!; [done..|apply (hi_fail _ _ _ _ _ _ _ Hput Hrc)|intros; lia]. }
  subst rc. unfold AIRY_STRDUP. destruct (os_alloc w7) as [ok w8]. destruct (mem_persist_append_record _ _ _ _ w8) as [[fp d] w9].
  rewrite decide_True by done. split_and!; [done|done|]. eexists _, _. split_and!; [done..| |apply (hi_put _ _ _ _ _ _ Hput)].
  destruct ok; auto.
Qed.

(** The invariant after a write. *)
Lemma store_write svc text meta (w : W) :
  store_ok svc -> (rec_oid w).1 ∉ ids svc -> store_ok (mem_service_write svc text meta w).1.2.
Proof.
  intros [Hnd Hmax Hidx] Hfresh. pose proof (write_shape svc text meta w) as Hw.
  destruct (mem_service_write svc text meta w) as [[[rc out] svc'] w']. cbn [fst snd]. destruct Hw as [Hm Hw]. case_decide as Hrc.
  - destruct Hw as (Hlt & s & r & _ & _ & Hrs & Hid & _ & _ & _ & Hh). rewrite <- Hid in Hfresh.
    assert (Hlen : length (ids svc) = length (records svc)) by apply length_fmap.
    split; unfold ids; rewrite Hrs, ?fmap_app; fold (ids svc); cbn [fmap list_fmap].
    + apply NoDup_app. split_and!; [done| |apply NoDup_singleton]. intros x Hx Hy. apply Hfresh. set_solver.
    + rewrite length_app. cbn. lia.
    + intros id i. rewrite Hh, lookup_app_Some, list_lookup_singleton_Some. case_decide as Hk.
      * subst id. split; [intros [= <-]; right; split_and!; [lia|lia|done]|].
        intros [Hin|(? & ? & _)]; [exfalso; apply Hfresh; by eapply list_elem_of_lookup_2|f_equal; lia].
      * rewrite Hidx. naive_solver.
  - destruct Hw as (Hrs & _ & Hh & _). split; unfold ids; rewrite ?Hrs; [done|by rewrite Hm|]. intros id i. rewrite Hh. apply Hidx.
Qed.

(** An embedding changes nothing else. *)
Lemma embed_keeps {B} svc id e (f : mem_record_entry_t -> B) :
  (forall r, f (set_emb e r) = f r) -> f <$> records (mem_rec_embed_attach svc id e) = f <$> records svc.
Proof.
  intros Hf. unfold mem_rec_embed_attach. destruct (mem_rec_find svc id) as [i|]; [|done]. cbn [records].
  apply list_eq. intros j. rewrite !list_lookup_fmap. destruct (decide (j = i)) as [->|].
  - rewrite list_lookup_alter_eq. destruct (records svc !! i); cbn; [by rewrite Hf|done].
  - by rewrite list_lookup_alter_ne.
Qed.

Lemma embed_ok svc id e : store_ok svc -> store_ok (mem_rec_embed_attach svc id e).
Proof.
  intros [Hnd Hmax Hidx]. pose proof (embed_keeps svc id e record_id ltac:(done)) as Hf.
  split; unfold ids in *; rewrite ?Hf; unfold mem_rec_embed_attach; destruct (mem_rec_find svc id) as [i|]; try done.
  cbn [records max_records]. by rewrite length_alter.
Qed.

Lemma rewrite_file_ok svc (w : W) :
  store_ok svc -> let '(svc', _) := rewrite_file svc w in
  store_ok svc' /\ records svc' = records svc /\ max_records svc' = max_records svc /\ df_table svc' = df_table svc.
Proof.
  intros [Hnd Hmax Hidx]. unfold rewrite_file. destruct (mem_persist_rewrite_all _ _ _ _ w) as [[fp d] w']. done.
Qed.

Lemma delete_ok svc id (w : W) :
  store_ok svc ->
  let '(rc, svc', _) := mem_service_delete svc id w in
  store_ok svc' /\ max_records svc' = max_records svc /\
  ((rc = AIRY_SUCCESS /\ exists r, record_id r = id /\ records svc ≡ₚ r :: records svc'
      /\ df_table svc' = mem_df_remove_doc (df_table svc) (vec r))
   \/ (rc = AIRY_ERR_NOT_FOUND /\ id ∉ ids svc /\ svc' = svc)).
Proof.
  intros Hok. unfold mem_service_delete. destruct (mem_rec_find svc id) as [i|] eqn:Hf.
  - destruct (find_record svc id i Hok Hf) as (r & Hr & Hid). pose proof (remove_at_ok svc i r w Hok Hr) as Hrm.
    destruct (mem_remove_record_at svc i w) as [svc1 w1]. destruct Hrm as (Hok1 & Hp & _ & Hm & Hdf & _).
    pose proof (rewrite_file_ok svc1 w1 Hok1) as Hw. destruct (rewrite_file svc1 w1) as [svc2 w2]. destruct Hw as (Hok2 & Er & Em & Ed).
    split_and!; [done|congruence|]. left. split; [done|]. exists r. rewrite Er, Ed. done.
  - split_and!; [done..|]. right. split_and!; [done| |done]. intros Hin. apply list_elem_of_lookup in Hin as [i Hi].
    apply find_ids in Hi; [|done]. congruence.
Qed.

(** Deleting a knowledge base keeps the records outside it. *)
Lemma kb_loop_ok kb : forall fuel i svc n (w : W),
  store_ok svc -> (length (records svc) <= i + fuel)%nat -> Forall (fun r => mem_rec_in_kb r kb = false) (take i (records svc)) ->
  let '(svc', n', _) := kb_delete_loop fuel i kb svc n w in
  store_ok svc' /\ max_records svc' = max_records svc /\
  records svc' ≡ₚ filter (fun r => mem_rec_in_kb r kb = false) (records svc) /\
  (n' = n + (length (records svc) - length (records svc')))%nat /\ (length (records svc') <= length (records svc))%nat.
Proof.
  assert (Hdone : forall svc i, (length (records svc) <= i)%nat -> Forall (fun r => mem_rec_in_kb r kb = false) (take i (records svc)) ->
    records svc ≡ₚ filter (fun r => mem_rec_in_kb r kb = false) (records svc)).
  { intros svc i Hl Ha. rewrite take_ge in Ha by done. by rewrite filter_all. }
  induction fuel as [|fuel IH]; intros i svc n w Hok Hl Ha; cbn [kb_delete_loop].
  { split_and!; [done|done|by apply (Hdone svc i); [lia|]|lia|done]. }
  destruct (records svc !! i) as [r|] eqn:Hr.
  2: { apply lookup_ge_None in Hr. split_and!; [done|done|by apply (Hdone svc i)|lia|done]. }
  destruct (mem_rec_in_kb r kb) eqn:Hkb.
  - pose proof (remove_at_ok svc i r w Hok Hr) as Hrm. destruct (mem_remove_record_at svc i w) as [svc1 w1].
    destruct Hrm as (Hok1 & Hp & Ht & Hm & _). pose proof (Permutation_length Hp) as Hlen. cbn [length] in Hlen.
    specialize (IH i svc1 (n + 1)%nat w1 Hok1 ltac:(lia) ltac:(by rewrite Ht)).
    destruct (kb_delete_loop fuel i kb svc1 (n + 1) w1) as [[svc2 n2] w2]. destruct IH as (Hok2 & Hm2 & Hp2 & Hn & Hle).
    split_and!; [done|congruence| |lia|lia]. rewrite Hp2, Hp, filter_cons_False; [done|congruence].
  - apply IH; [done|lia|]. rewrite Nat.add_1_r, (take_S_r _ _ _ Hr). apply Forall_app. split; [done|by constructor].
Qed.
End inv.

(** ** The store as a map *)

(** Contents, metadata and time by identifier. *)
Definition content : Type := string * option string * Z.

Definition entry_of (r : mem_record_entry_t) : string * content := (record_id r, (data r, metadata r, created_at r)).

Definition abs {W} `{HIndex W} (svc : mem_service_t W) : gmap string content := list_to_map (entry_of <$> records svc).

Inductive cmd := CWrite (text meta : option string) | CGet (id : string) | CDelete (id : string) | CEmbed (id : string) (e : list double)
  | CKbDelete (kb : string) | CCount.

Inductive resp := RWrite (rc : airy_rc) (out : option string) | RGet (rc : airy_rc) (out : option mem_record_t) | RDelete (rc : airy_rc)
  | RKbDelete (rc : airy_rc) (n : nat) | RCount (n : nat) | RNone.

(** The knowledge base of metadata. *)
Definition kb_of `{Cjson} (md : option string) : option string := mem_rec_kb_id (mkRec "" "" md 0 empty_vec None).

Definition outside `{Cjson} (kb : string) (x : content) : Prop := kb_of x.1.2 <> Some kb.

#[export] Instance outside_dec `{Cjson} kb x : Decision (outside kb x).
Proof. unfold outside. apply _. Defined.

(** What a store of at most [max] records may answer and do; [lossy]: memory may
    be missing. *)
Inductive spec_step `{Cjson} (lossy : bool) (max : nat) (m : gmap string content) : cmd -> resp -> gmap string content -> Prop :=
| sp_write text md md' t id out :
    text <> ""%string -> (size m < max)%nat -> m !! id = None -> (md' = md \/ lossy = true /\ md' = None) ->
    (out = Some id \/ lossy = true /\ out = None) ->
    spec_step lossy max m (CWrite (Some text) md) (RWrite AIRY_SUCCESS out) (<[id := (text, md', t)]> m)
| sp_write_invalid text md : text = None \/ text = Some ""%string -> spec_step lossy max m (CWrite text md) (RWrite AIRY_ERR_INVALID_PARAM None) m
| sp_write_full text md : text <> ""%string -> (max <= size m)%nat -> spec_step lossy max m (CWrite (Some text) md) (RWrite AIRY_ERR_OUT_OF_MEMORY None) m
| sp_write_fail text md rc :
    lossy = true -> text <> ""%string -> (size m < max)%nat -> rc <> AIRY_SUCCESS ->
    spec_step lossy max m (CWrite (Some text) md) (RWrite rc None) m
| sp_get id d md md' t :
    m !! id = Some (d, md, t) -> (md' = md \/ lossy = true /\ md' = None) ->
    spec_step lossy max m (CGet id) (RGet AIRY_SUCCESS (Some (mkOut d md'))) m
| sp_get_nomem id x : lossy = true -> m !! id = Some x -> spec_step lossy max m (CGet id) (RGet AIRY_ERR_OUT_OF_MEMORY None) m
| sp_get_none id : m !! id = None -> spec_step lossy max m (CGet id) (RGet AIRY_ERR_NOT_FOUND None) m
| sp_delete id x : m !! id = Some x -> spec_step lossy max m (CDelete id) (RDelete AIRY_SUCCESS) (delete id m)
| sp_delete_none id : m !! id = None -> spec_step lossy max m (CDelete id) (RDelete AIRY_ERR_NOT_FOUND) m
| sp_embed id e : spec_step lossy max m (CEmbed id e) RNone m
| sp_kb_delete kb :
    kb <> ""%string ->
    let m' := filter (fun kv => outside kb kv.2) m in
    spec_step lossy max m (CKbDelete kb) (RKbDelete AIRY_SUCCESS (size m - size m')) m'
| sp_kb_invalid : spec_step lossy max m (CKbDelete "") (RKbDelete AIRY_ERR_INVALID_PARAM 0) m
| sp_count : spec_step lossy max m CCount (RCount (size m)) m.

Inductive spec_run `{Cjson} (lossy : bool) (max : nat) : gmap string content -> list (cmd * resp) -> gmap string content -> Prop :=
| run_nil m : spec_run lossy max m [] m
| run_cons m c r m' tr m'' : spec_step lossy max m c r m' -> spec_run lossy max m' tr m'' -> spec_run lossy max m ((c, r) :: tr) m''.

Section refine.
  Context {W : Type} `{MemOS W} `{FileOS W} `{RecOS W} `{HIndex W} `{!HIndexLaws W} `{CJ : Cjson}.
  Implicit Types svc : mem_service_t W.

Definition exec (c : cmd) svc (w : W) : resp * mem_service_t W * W :=
    match c with
    | CWrite text meta => let '(rc, out, svc, w) := mem_service_write svc text meta w in (RWrite rc out, svc, w)
    | CGet id => let '(rc, out, w) := mem_service_get svc id w in (RGet rc out, svc, w)
    | CDelete id => let '(rc, svc, w) := mem_service_delete svc id w in (RDelete rc, svc, w)
    | CEmbed id e => (RNone, mem_rec_embed_attach svc id e, w)
    | CKbDelete kb => let '(rc, n, svc, w) := mem_service_kb_delete svc kb w in (RKbDelete rc n, svc, w)
    | CCount => (RCount (mem_service_count svc), svc, w)
    end.

(** Commands one after the other, each of them one that [allowed] admits; an
    identifier that is in use is not issued again. *)
Inductive execs (allowed : cmd -> mem_service_t W -> Prop) : mem_service_t W -> W -> list (cmd * resp) -> mem_service_t W -> W -> Prop :=
| ex_nil svc w : execs allowed svc w [] svc w
| ex_cons svc w c r svc1 w1 tr svc2 w2 :
    allowed c svc -> (rec_oid w).1 ∉ ids svc -> exec c svc w = (r, svc1, w1) -> execs allowed svc1 w1 tr svc2 w2 ->
    execs allowed svc w ((c, r) :: tr) svc2 w2.

(** Memory enough: no allocation fails, nor an insertion into the index. *)
Definition plenty : Prop :=
    (forall w : W, (os_alloc w).1 = true) /\ (forall h k v (w : W), (hindex_put h k v w).1.1 = AIRY_SUCCESS).

Lemma strdup_plenty t (w : W) : plenty -> (AIRY_STRDUP t w).1 = Some t.
Proof. intros [Ha _]. unfold AIRY_STRDUP. specialize (Ha w). destruct (os_alloc w) as [ok w']. cbn in *. by subst. Qed.

Lemma strdup_opt_plenty m (w : W) : plenty -> (strdup_opt m w).1 = m.
Proof. intros Hp. destruct m as [m|]; [|done]. by apply strdup_plenty. Qed.

(** With memory enough a write below the limit succeeds. *)
Lemma write_plenty svc c text meta (w : W) :
  plenty -> (length (records svc) < max_records svc)%nat ->
  let '(rc, out, svc', _) := mem_service_write svc (Some (String c text)) meta w in
  rc = AIRY_SUCCESS /\ forall r, records svc' = records svc ++ [r] -> metadata r = meta /\ out = Some (record_id r).
Proof.
  intros Hp Hl. unfold mem_service_write. destruct (Nat.leb_spec (max_records svc) (length (records svc))) as [|_]; [lia|].
  destruct (rec_oid w) as [oid w1]. pose proof (strdup_plenty oid w1 Hp) as E1. destruct (AIRY_STRDUP oid w1) as [id w2].
  unfold mem_dup_data. pose proof (strdup_plenty (String c text) w2 Hp) as E2. destruct (AIRY_STRDUP (String c text) w2) as [dat w3].
  cbn [fst] in E1, E2. subst id dat. pose proof (strdup_opt_plenty meta w3 Hp) as E3. destruct (strdup_opt meta w3) as [m w4].
  cbn [fst] in E3. subst m. destruct (rec_time w4) as [t w5]. destruct (mem_record_build_vector _ _ w5) as [[v df] w6].
  pose proof (proj2 Hp (record_index svc) oid (length (records svc)) w6) as E4.
  destruct (hindex_put (record_index svc) oid _ w6) as [[rc h] w7]. cbn [fst] in E4. subst rc. rewrite bool_decide_false by (by intros []).
  pose proof (strdup_plenty oid w7 Hp) as E5. destruct (AIRY_STRDUP oid w7) as [out w8]. cbn [fst] in E5. subst out.
  destruct (mem_persist_append_record _ _ _ _ w8) as [[fp d] w9]. split; [done|]. intros r E. cbn in E.
  apply app_inj_2 in E as [_ E]; [|done]. by injection E as <-.
Qed.

Lemma entry_ids svc : (entry_of <$> records svc).*1 = ids svc.
Proof. unfold ids. by rewrite <- list_fmap_compose. Qed.

Lemma abs_lookup svc id x : store_ok svc -> abs svc !! id = Some x <-> exists r, r ∈ records svc /\ entry_of r = (id, x).
Proof.
  intros Hok. unfold abs. rewrite <- elem_of_list_to_map by (rewrite entry_ids; apply Hok). rewrite list_elem_of_fmap. naive_solver.
Qed.

Lemma abs_none svc id : abs svc !! id = None <-> id ∉ ids svc.
Proof. unfold abs. rewrite <- not_elem_of_list_to_map, entry_ids. done. Qed.

Lemma abs_size svc : store_ok svc -> size (abs svc) = length (records svc).
Proof.
  intros Hok. unfold abs. rewrite <- size_dom, dom_list_to_map_L, entry_ids, size_list_to_set by apply Hok. apply length_fmap.
Qed.

(** Two stores with the same records in another order are the same map. *)
Lemma abs_perm svc rs : store_ok svc -> records svc ≡ₚ rs -> abs svc = list_to_map (entry_of <$> rs).
Proof.
  intros Hok Hp. unfold abs. apply list_to_map_proper; [rewrite entry_ids; apply Hok|by rewrite Hp].
Qed.

Lemma kb_of_rec r : kb_of (metadata r) = mem_rec_kb_id r.
Proof. done. Qed.

Lemma in_kb_spec r kb : mem_rec_in_kb r kb = false <-> outside kb (entry_of r).2.
Proof.
  unfold outside, mem_rec_in_kb. cbn. rewrite kb_of_rec. destruct (mem_rec_kb_id r) as [id|]; [|done].
  unfold strcmp_eq. rewrite String.eqb_neq. naive_solver.
Qed.

Lemma get_step lossy svc id (w : W) :
  (lossy = false -> plenty) -> store_ok svc -> let '(rc, out, _) := mem_service_get svc id w in spec_step lossy (max_records svc) (abs svc) (CGet id) (RGet rc out) (abs svc).
Proof.
  intros Hpl Hok. unfold mem_service_get. destruct (mem_rec_find svc id) as [i|] eqn:Hf; cbn [mbind option_bind].
  - destruct (find_record svc id i Hok Hf) as (r & Hr & Hid). rewrite Hr.
    assert (Ha : abs svc !! id = Some (data r, metadata r, created_at r)).
    { apply abs_lookup; [done|]. exists r. split; [by eapply list_elem_of_lookup_2|]. unfold entry_of. by rewrite Hid. }
    unfold mem_rec_copy_out, mem_dup_data. pose proof (fun E => strdup_plenty (data r) w (Hpl E)) as Hcp.
    unfold AIRY_STRDUP in *. destruct (os_alloc w) as [[] w1].
    2: { eapply sp_get_nomem; [|done]. destruct lossy; [done|]. by specialize (Hcp eq_refl). }
    pose proof (strdup_opt_out (metadata r) w1) as Hmeta. pose proof (fun E => strdup_opt_plenty (metadata r) w1 (Hpl E)) as Hmp.
    destruct (strdup_opt (metadata r) w1) as [m w2]. cbn [fst] in *. eapply sp_get; [done|].
    destruct lossy; [tauto|]. left. by apply Hmp.
  - apply sp_get_none, abs_none. intros Hin. apply list_elem_of_lookup in Hin as [i Hi]. apply find_ids in Hi; [|done]. congruence.
Qed.

Lemma abs_cons svc svc' r :
  store_ok svc -> store_ok svc' -> records svc ≡ₚ r :: records svc' -> abs svc = <[record_id r := (entry_of r).2]> (abs svc').
Proof. intros Hok Hok' Hp. by rewrite (abs_perm svc _ Hok Hp). Qed.

Lemma delete_step lossy svc id (w : W) :
  store_ok svc -> let '(rc, svc', _) := mem_service_delete svc id w in
  store_ok svc' /\ max_records svc' = max_records svc /\ spec_step lossy (max_records svc) (abs svc) (CDelete id) (RDelete rc) (abs svc').
Proof.
  intros Hok. pose proof (delete_ok svc id w Hok) as Hd. destruct (mem_service_delete svc id w) as [[rc svc'] w'].
  destruct Hd as (Hok' & Hm & [(-> & r & Hid & Hp & _)|(-> & Hin & ->)]); split_and!; try done.
  - pose proof (abs_cons svc svc' r Hok Hok' Hp) as Ha. rewrite Hid in Ha.
    assert (Hn : abs svc' !! id = None).
    { apply abs_none. intros Hin. pose proof (so_nodup svc Hok) as Hnd. unfold ids in Hnd, Hin. rewrite Hp, fmap_cons, Hid in Hnd.
      by apply NoDup_cons in Hnd as [? _]. }
    replace (abs svc') with (delete id (abs svc)) by (rewrite Ha; by apply delete_insert_id).
    eapply sp_delete. by rewrite Ha, lookup_insert_eq.
  - by apply sp_delete_none, abs_none.
Qed.

Lemma write_step lossy svc text meta (w : W) :
  (lossy = false -> plenty) -> store_ok svc -> (rec_oid w).1 ∉ ids svc -> let '(rc, out, svc', _) := mem_service_write svc text meta w in
  store_ok svc' /\ max_records svc' = max_records svc /\ spec_step lossy (max_records svc) (abs svc) (CWrite text meta) (RWrite rc out) (abs svc').
Proof.
  intros Hpl Hok Hfr. pose proof (store_write svc text meta w Hok Hfr) as Hok'. pose proof (write_shape svc text meta w) as Hw.
  pose proof (fun c t (E : text = Some (String c t)) Hl Hx => write_plenty svc c t meta w (Hpl Hl) Hx) as Hfull.
  assert (Hfull' : forall c t, text = Some (String c t) -> lossy = false -> (length (records svc) < max_records svc)%nat ->
    let '(rc, out, svc', _) := mem_service_write svc text meta w in
    rc = AIRY_SUCCESS /\ forall r, records svc' = records svc ++ [r] -> metadata r = meta /\ out = Some (record_id r)).
  { intros c t E Hl Hx. rewrite E. by apply (Hfull c t). }
  clear Hfull.
  destruct (mem_service_write svc text meta w) as [[[rc out] svc'] w']. destruct Hw as (Hm & Hw). split_and!; [done..|].
  pose proof (abs_size svc Hok) as Hsz. case_decide as Hrc.
  - destruct Hw as (Hlt & s & r & -> & Hne & Hrs & Hid & Hd & Hmd & Hout & _). subst rc. cbn [fst snd] in Hok'.
    rewrite (abs_cons svc' svc r Hok' Hok) by (rewrite Hrs; solve_Permutation). unfold entry_of. cbn [snd]. rewrite Hd.
    assert (Hx : lossy = false -> metadata r = meta /\ out = Some (record_id r)).
    { intros E. destruct s as [|c s]; [done|]. by apply (Hfull' c s). }
    apply sp_write; [done|lia| |destruct lossy; [tauto|left; by apply Hx]..]. apply abs_none. by rewrite Hid.
  - destruct Hw as (Hrs & -> & _ & Ht). replace (abs svc') with (abs svc) by (unfold abs; by rewrite Hrs).
    destruct text as [[|c text]|]; [subst; apply sp_write_invalid; auto| |subst; apply sp_write_invalid; auto].
    destruct (decide (max_records svc <= length (records svc))%nat) as [Hx|Hx].
    + rewrite (Ht Hx). apply sp_write_full; [done|lia].
    + apply sp_write_fail; [|done|lia|done]. destruct lossy; [done|]. exfalso. apply Hrc. by apply (Hfull' c text); [..|lia].
Qed.

Lemma kb_delete_step lossy svc kb (w : W) :
  store_ok svc -> let '(rc, n, svc', _) := mem_service_kb_delete svc kb w in
  store_ok svc' /\ max_records svc' = max_records svc /\ spec_step lossy (max_records svc) (abs svc) (CKbDelete kb) (RKbDelete rc n) (abs svc').
Proof.
  intros Hok. unfold mem_service_kb_delete. destruct (strcmp_eq kb "") eqn:Hkb.
  { apply String.eqb_eq in Hkb as ->. split_and!; [done..|constructor]. }
  apply String.eqb_neq in Hkb.
  pose proof (kb_loop_ok kb (length (records svc)) 0 svc 0 w Hok ltac:(lia) ltac:(by rewrite take_0)) as Hl.
  destruct (kb_delete_loop _ 0 kb svc 0 w) as [[svc1 n] w1]. destruct Hl as (Hok1 & Hm1 & Hp & Hn & Hle).
  assert (Hw : exists svc2 w2, (if (0 <? n)%nat then rewrite_file svc1 w1 else (svc1, w1)) = (svc2, w2)
    /\ store_ok svc2 /\ records svc2 = records svc1 /\ max_records svc2 = max_records svc1).
  { destruct (0 <? n)%nat; [|by eexists _, _]. pose proof (rewrite_file_ok svc1 w1 Hok1) as Hr.
    destruct (rewrite_file svc1 w1) as [svc2 w2]. destruct Hr as (? & ? & ? & _). by eexists _, _. }
  destruct Hw as (svc2 & w2 & -> & Hok2 & Er & Em). split_and!; [done|congruence|].
  assert (Ha : abs svc2 = filter (fun kv => outside kb kv.2) (abs svc)).
  { apply map_eq. intros id. apply option_eq. intros x. rewrite abs_lookup, map_lookup_filter_Some, abs_lookup by done.
    rewrite Er. setoid_rewrite Hp. setoid_rewrite list_elem_of_filter. split.
    - intros (r & [Hin Hr] & E). split; [by exists r|]. apply in_kb_spec in Hin. by rewrite E in Hin.
    - intros [(r & Hr & E) Hout]. exists r. split_and!; [|done|done]. apply in_kb_spec. by rewrite E. }
  replace n with (size (abs svc) - size (abs svc2))%nat by (rewrite !abs_size, Er by done; lia).
  rewrite Ha. by apply sp_kb_delete.
Qed.

Lemma exec_step lossy c svc (w : W) :
  (lossy = false -> plenty) -> store_ok svc -> (rec_oid w).1 ∉ ids svc -> let '(r, svc', _) := exec c svc w in
  store_ok svc' /\ max_records svc' = max_records svc /\ spec_step lossy (max_records svc) (abs svc) c r (abs svc').
Proof.
  intros Hpl Hok Hfr. destruct c as [text md|id|id|id e|kb|]; cbn [exec].
  - pose proof (write_step lossy svc text md w Hpl Hok Hfr). by destruct (mem_service_write svc text md w) as [[[? ?] ?] ?].
  - pose proof (get_step lossy svc id w Hpl Hok). destruct (mem_service_get svc id w) as [[? ?] ?]. done.
  - pose proof (delete_step lossy svc id w Hok). by destruct (mem_service_delete svc id w) as [[? ?] ?].
  - split_and!; [by apply embed_ok|unfold mem_rec_embed_attach; by case_match|].
    replace (abs (mem_rec_embed_attach svc id e)) with (abs svc); [constructor|]. unfold abs. f_equal. symmetry. by apply embed_keeps.
  - pose proof (kb_delete_step lossy svc kb w Hok). by destruct (mem_service_kb_delete svc kb w) as [[[? ?] ?] ?].
  - split_and!; [done..|]. unfold mem_service_count. rewrite <- abs_size by done. constructor.
Qed.

Lemma execs_refine lossy svc (w : W) tr svc' w' :
  (lossy = false -> plenty) -> store_ok svc -> execs (fun _ _ => True) svc w tr svc' w' ->
  store_ok svc' /\ spec_run lossy (max_records svc) (abs svc) tr (abs svc').
Proof.
  intros Hpl Hok Hex. induction Hex as [svc w|svc w c r svc1 w1 tr svc2 w2 _ Hfr He _ IH]; [by split; [|constructor]|].
  pose proof (exec_step lossy c svc w Hpl Hok Hfr) as Hs. rewrite He in Hs. destruct Hs as (Hok1 & Hm & Hs).
  destruct (IH Hok1) as [Hok2 Hr]. split; [done|]. rewrite Hm in Hr. by econstructor.
Qed.

(** C29.  The record store is a bounded map from identifiers to contents.  For
    every sequence of writes, reads, deletions, deletions of a knowledge base,
    arrivals of embeddings and counts in which no new identifier is one in use,
    every answer is one the map allows: the contents written under the
    identifier, not found exactly when it is not there, a write at the limit
    always refused.  While no allocation and no insertion into the index fails,
    a write of a text below the limit always succeeds and returns its
    identifier, a read returns contents and metadata, and a write is refused
    exactly at the limit or for an empty text; without memory a write below the
    limit may also fail, leaving the map as it is, and metadata may be dropped.
    The records in the array, in whatever order, are the entries of the map;
    identifiers stay unique and the index stays exact. *)
Theorem store_refines svc (w : W) tr svc' w' :
  store_ok svc -> execs (fun _ _ => True) svc w tr svc' w' ->
  store_ok svc' /\ spec_run true (max_records svc) (abs svc) tr (abs svc') /\
  (plenty -> spec_run false (max_records svc) (abs svc) tr (abs svc')).
Proof.
  intros Hok Hex. destruct (execs_refine true svc w tr svc' w' ltac:(done) Hok Hex) as [Hok' Hr]. split_and!; [done|done|].
  intros Hpl. by apply (execs_refine false svc w tr svc' w').
Qed.
End refine.

(** ** The document frequencies of the store *)

Definition tokens_of (text : string) : list string := tokens (items (String.length text) text).

Definition texts {W} `{HIndex W} (svc : mem_service_t W) : list (list string) := tokens_of ∘ data <$> records svc.

Definition same_terms (d d' : list string) : Prop := forall k, k ∈ d <-> k ∈ d'.

Lemma counts_ext t docs docs' : Forall2 same_terms docs docs' -> counts t docs -> counts t docs'.
Proof.
  intros Hd (m & Hok & Hm). exists m. split; [done|]. intros k. rewrite Hm. clear Hm.
  induction Hd as [|d d' docs docs' Hdd _ IH]; [done|]. rewrite !doc_freq_cons, IH. specialize (Hdd k). repeat case_decide; tauto.
Qed.

(** The vector of every record is the one of its text, and the table counts them. *)
Record df_inv {W} `{HIndex W} (cap : nat) (svc : mem_service_t W) : Prop := mkDfInv {
  di_vec : Forall (fun r => NoDup (terms_of (vec r)) /\ same_terms (terms_of (vec r)) (tokens_of (data r))) (records svc);
  di_cap : capacity (df_table svc) = cap;
  di_counts : counts (df_table svc) (texts svc)
}.

(** The terms of the records fill at most three quarters of the table. *)
Definition roomy {W} `{HIndex W} (c : cmd) (svc : mem_service_t W) : Prop :=
  match c with
  | CWrite (Some text) _ =>
      nul_free text /\ Z.of_nat (String.length text) < 2 ^ 56
      /\ (size (vocabulary (tokens_of text :: texts svc)) <= capacity (df_table svc) * 3 / 4)%nat
  | _ => True
  end.

Section frequencies.
  Context {W : Type} `{MemOS W} `{FileOS W} `{RecOS W} `{HIndex W} `{!HIndexLaws W} `{CJ : Cjson}.
  Context (Hmem : forall w : W, (os_alloc w).1 = true).
  Context (Hidx : forall h k i (w : W), (hindex_put h k i w).1.1 = AIRY_SUCCESS).
  Implicit Types svc : mem_service_t W.

Lemma strdup_mem s (w : W) : exists w', AIRY_STRDUP s w = (Some s, w').
Proof. unfold AIRY_STRDUP. specialize (Hmem w). destruct (os_alloc w) as [[] w']; [by exists w'|done]. Qed.

(** A removal in the table. *)
Lemma remove_df cap svc svc' r :
  df_inv cap svc -> records svc ≡ₚ r :: records svc' -> df_table svc' = mem_df_remove_doc (df_table svc) (vec r) -> df_inv cap svc'.
Proof.
  intros [Hv Hc Hn] Hp Hd. rewrite Hp in Hv. apply Forall_cons in Hv as [[Hnd Hs] Hv]. split; [done| |].
  - rewrite Hd. destruct Hn as (m & Hok & _). unfold mem_df_remove_doc. by rewrite (remove_terms_cap _ _ m Hok).
  - rewrite Hd. unfold mem_df_remove_doc. apply remove_terms_counts; [|done].
    apply (counts_ext _ (tokens_of (data r) :: texts svc')).
    + constructor; [intros k; symmetry; apply Hs|]. clear. induction (texts svc'); constructor; [done|done].
    + eapply counts_perm; [|exact Hn]. unfold texts. by rewrite Hp.
Qed.

(** A write in the table. *)
Lemma write_df cap svc text meta (w : W) :
  df_inv cap svc -> store_ok svc -> Z.of_nat (max_records svc) < UINT64_MAX -> roomy (CWrite text meta) svc ->
  let '(_, _, svc', _) := mem_service_write svc text meta w in df_inv cap svc'.
Proof.
  intros Hinv Hok Hmax Hroom. unfold mem_service_write. destruct text as [[|c text]|]; [done| |done].
  destruct (Nat.leb_spec (max_records svc) (length (records svc))) as [Hm|Hm]; [done|]. destruct (rec_oid w) as [oid w1].
  destruct (strdup_mem oid w1) as [w2 ->]. unfold mem_dup_data. destruct (strdup_mem (String c text) w2) as [w3 ->].
  destruct (strdup_opt meta w3) as [m w4]. destruct (rec_time w4) as [t w5]. destruct Hroom as (Hnul & Hlen & Hvoc).
  destruct Hinv as [Hv Hc Hn]. unfold mem_record_build_vector. set (txt := String c text) in *.
  pose proof (vector_exact txt w5 Hmem Hnul Hlen) as Hx. destruct (mem_vec_build (Some txt) w5) as [[rc v] w6].
  destruct Hx as (_ & Hnd & Hin & _). unfold mem_df_add_doc. fold (terms_of v) in Hnd, Hin |- *.
  assert (Hvoc' : (size (vocabulary ((terms_of v ++ []) :: texts svc)) <= capacity (df_table svc) * 3 / 4)%nat).
  { rewrite app_nil_r. etrans; [|exact Hvoc]. apply subseteq_size, vocabulary_doc. intros k. apply Hin. }
  pose proof (add_terms_counts Hmem (texts svc) (terms_of v) (df_table svc) [] w6 (proj2 (counts_nil _ _) Hn) Hnd ltac:(set_solver)) as Ha.
  destruct (add_terms (df_table svc) (terms_of v) w6) as [df w7]. rewrite app_nil_r in Ha.
  destruct Ha as [Hc1 Hcap]; [unfold texts; rewrite length_fmap; lia|by rewrite app_nil_r in Hvoc'|].
  specialize (Hidx (record_index svc) oid (length (records svc)) w7). destruct (hindex_put _ oid _ w7) as [[rc' h] w8]. cbn in Hidx. subst rc'.
  rewrite bool_decide_false by tauto. destruct (AIRY_STRDUP oid w8) as [o w9]. destruct (mem_persist_append_record _ _ _ _ w9) as [[fp d] w10].
  split; cbn [records df_table]; [apply Forall_app; split; [done|by constructor]|congruence|].
  unfold texts. cbn [records]. rewrite fmap_app. cbn [fmap list_fmap compose data].
  apply (counts_perm _ (tokens_of txt :: texts svc)); [unfold texts; solve_Permutation|].
  eapply counts_ext; [|exact Hc1]. constructor; [exact Hin|]. clear. induction (texts svc); constructor; [done|done].
Qed.

Lemma df_inv_eq cap svc svc' : records svc' = records svc -> df_table svc' = df_table svc -> df_inv cap svc -> df_inv cap svc'.
Proof. intros Er Ed [Hv Hc Hn]. split; rewrite ?Er, ?Ed; [done|done|]. unfold texts. by rewrite Er. Qed.

Lemma kb_loop_df cap kb : forall fuel i svc n (w : W),
  store_ok svc -> df_inv cap svc -> df_inv cap (kb_delete_loop fuel i kb svc n w).1.1.
Proof.
  induction fuel as [|fuel IH]; intros i svc n w Hok Hi; cbn [kb_delete_loop]; [done|].
  destruct (records svc !! i) as [r|] eqn:Hr; [|done]. destruct (mem_rec_in_kb r kb); [|by apply IH].
  pose proof (remove_at_ok svc i r w Hok Hr) as Hrm. destruct (mem_remove_record_at svc i w) as [svc1 w1].
  destruct Hrm as (Hok1 & Hp & _ & _ & Hd & _). apply IH; [done|]. by eapply remove_df.
Qed.

Lemma rewrite_file_eq svc (w : W) : records (rewrite_file svc w).1 = records svc /\ df_table (rewrite_file svc w).1 = df_table svc.
Proof. unfold rewrite_file. by destruct (mem_persist_rewrite_all _ _ _ _ w) as [[fp d] w']. Qed.

Lemma embed_df cap svc id e : df_inv cap svc -> df_inv cap (mem_rec_embed_attach svc id e).
Proof.
  intros [Hv Hc Hn]. assert (Ed : df_table (mem_rec_embed_attach svc id e) = df_table svc) by (unfold mem_rec_embed_attach; by case_match).
  pose proof (embed_keeps svc id e (fun r => (data r, vec r)) ltac:(done)) as Hf. split; rewrite ?Ed; [|done|].
  - set (Q := fun x : string * mem_tfidf_vec_t => NoDup (terms_of x.2) /\ same_terms (terms_of x.2) (tokens_of x.1)).
    change (Forall (Q ∘ (fun r => (data r, vec r))) (records (mem_rec_embed_attach svc id e))). rewrite <- Forall_fmap, Hf. by apply Forall_fmap.
  - unfold texts. by rewrite (embed_keeps svc id e (tokens_of ∘ data)).
Qed.

Lemma exec_df cap c svc (w : W) :
  store_ok svc -> df_inv cap svc -> Z.of_nat (max_records svc) < UINT64_MAX -> roomy c svc -> df_inv cap (exec c svc w).1.2.
Proof.
  intros Hok Hi Hmax Hroom. destruct c as [text md|id|id|id e|kb|]; cbn [exec].
  - pose proof (write_df cap svc text md w Hi Hok Hmax Hroom). by destruct (mem_service_write svc text md w) as [[[? ?] ?] ?].
  - by destruct (mem_service_get svc id w) as [[? ?] ?].
  - pose proof (delete_ok svc id w Hok) as Hd. destruct (mem_service_delete svc id w) as [[rc svc'] w'].
    destruct Hd as (_ & _ & [(_ & r & _ & Hp & Hd)|(_ & _ & ->)]); [by eapply remove_df|done].
  - by apply embed_df.
  - unfold mem_service_kb_delete. destruct (strcmp_eq kb ""); [done|]. pose proof (kb_loop_df cap kb (length (records svc)) 0 svc 0 w Hok Hi) as Hl.
    destruct (kb_delete_loop _ 0 kb svc 0 w) as [[svc1 n] w1]. cbn [fst] in Hl. destruct (0 <? n)%nat; [|done].
    destruct (rewrite_file_eq svc1 w1) as [Er Ed]. destruct (rewrite_file svc1 w1) as [svc2 w2]. by eapply df_inv_eq.
  - done.
Qed.

(** While memory and the index have room and the terms of the records fill at
    most three quarters of the table, the frequency the store has for a term is,
    after any sequence of operations, the number of records whose text has that
    term: tokenizer, table and swap deletion agree. *)
Theorem store_frequencies cap svc (w : W) tr svc' w' k :
  store_ok svc -> df_inv cap svc -> Z.of_nat (max_records svc) < UINT64_MAX -> execs roomy svc w tr svc' w' ->
  mem_df_get (df_table svc') k = Z.of_nat (length (filter (fun r => k ∈ tokens_of (data r)) (records svc'))).
Proof.
  intros Hok Hi Hmax Hex. assert (Hfin : df_inv cap svc').
  { induction Hex as [svc w|svc w c r svc1 w1 tr svc2 w2 Hroom Hfr He _ IH]; [done|].
    pose proof (exec_step true c svc w ltac:(done) Hok Hfr) as Hs. pose proof (exec_df cap c svc w Hok Hi Hmax Hroom) as Hd. rewrite He in Hs, Hd.
    destruct Hs as (Hok1 & Hm & _). apply IH; [done|done|by rewrite Hm]. }
  rewrite (get_counts _ _ k (di_counts _ _ Hfin)). unfold doc_freq, texts. f_equal. clear.
  induction (records svc') as [|r rs IH]; [done|]. rewrite fmap_cons, !filter_cons. cbn [compose]. repeat case_decide; cbn [length]; first [done|lia|tauto].
Qed.
End frequencies.

(** ** Documents of a knowledge base *)

(** At most [m] continuation bytes one after the other, [cur] of them so far; in
    UTF-8 there are at most three. *)
Fixpoint short_runs (m cur : nat) (s : string) : bool :=
  match s with
  | EmptyString => true
  | String c s' => if is_cont c then (S cur <=? m)%nat && short_runs m (S cur) s' else short_runs m 0 s'
  end.

Definition starts_char (s : string) : Prop := match s with String c _ => is_cont c = false | EmptyString => True end.

Lemma short_runs_mono m s : forall cur cur', (cur' <= cur)%nat -> short_runs m cur s = true -> short_runs m cur' s = true.
Proof.
  induction s as [|c s IH]; intros cur cur' Hc Hs; [done|]. cbn [short_runs] in *. destruct (is_cont c); [|done].
  apply andb_true_iff in Hs as [Hm Hs]. apply Nat.leb_le in Hm. apply andb_true_iff. split; [apply Nat.leb_le; lia|].
  eapply IH; [|exact Hs]. lia.
Qed.

Lemma short_runs_suffix m : forall k s n, short_runs m 0 s = true -> short_runs m 0 (String.substring k n s) = true.
Proof.
  assert (Hpre : forall s cur n, short_runs m cur s = true -> short_runs m cur (String.substring 0 n s) = true).
  { induction s as [|c s IH]; intros cur [|n] Hs; cbn [String.substring short_runs] in *; try done.
    destruct (is_cont c); [|by apply IH]. apply andb_true_iff in Hs as [? ?]. apply andb_true_iff. auto. }
  induction k as [|k IH]; intros s n Hs; [by apply Hpre|]. destruct s as [|c s]; [by destruct n|]. cbn [String.substring]. apply IH.
  cbn [short_runs] in Hs. destruct (is_cont c); [|done]. apply andb_true_iff in Hs as [_ Hs]. eapply short_runs_mono; [|exact Hs]. lia.
Qed.

(** Going back from [p] stops at a byte that starts a character, or at 0 when all
    the bytes passed are continuation bytes. *)
Lemma back_spec rest p :
  (back rest p <= p)%nat /\
  match back rest p with
  | O => forall j, (1 <= j <= p)%nat -> exists c, String.get j rest = Some c /\ is_cont c = true
  | S _ => default false (is_cont <$> String.get (back rest p) rest) = false
  end.
Proof.
  induction p as [|p IH]; cbn [back]; [split; [done|intros; lia]|].
  destruct (default false (is_cont <$> String.get (S p) rest)) eqn:Hd; [|by split]. destruct IH as [Hle IH]. split; [lia|]. destruct (back rest p); [|done].
  intros j Hj. destruct (decide (j = S p)) as [->|]; [|apply IH; lia].
  destruct (String.get (S p) rest) as [c|]; [by exists c|done].
Qed.

Lemma run_too_long m : forall n s cur,
  short_runs m cur s = true -> (forall j, (j < n)%nat -> exists c, String.get j s = Some c /\ is_cont c = true) -> (cur + n <= m)%nat \/ n = 0%nat.
Proof.
  induction n as [|n IH]; intros s cur Hs Hall; [by right|]. left. destruct (Hall 0%nat ltac:(lia)) as (c & Hc & Hcont).
  destruct s as [|c' s]; [done|]. cbn in Hc. simplify_eq. cbn [short_runs] in Hs. rewrite Hcont in Hs.
  apply andb_true_iff in Hs as [Hm Hs]. apply Nat.leb_le in Hm.
  destruct (IH s (S cur) Hs) as [Hx|Hx]; [|lia|lia]. intros j Hj. destruct (Hall (S j) ltac:(lia)) as (x & Hx & ?). by exists x.
Qed.

(** A piece is never empty for text in UTF-8 and pieces of four bytes or more. *)
Lemma chunk_pos c s chunk :
  short_runs 3 0 (String c s) = true -> (4 <= chunk)%nat -> (0 < mem_kb_chunk_len (String c s) chunk)%nat.
Proof.
  intros Hs Hc. unfold mem_kb_chunk_len. destruct (Nat.leb_spec (String.length (String c s)) chunk); [cbn; lia|].
  pose proof (back_spec (String c s) chunk) as [_ Hb]. destruct (back (String c s) chunk); [|lia]. exfalso.
  assert (Hrun : short_runs 3 0 s = true).
  { cbn [short_runs] in Hs. destruct (is_cont c); [|done]. apply andb_true_iff in Hs as [_ Hs]. eapply short_runs_mono; [|exact Hs]. lia. }
  destruct (run_too_long 3 chunk s 0 Hrun) as [?|?]; [|lia|lia]. intros j Hj. apply (Hb (S j)). lia.
Qed.

Lemma chunk_le rest chunk : (mem_kb_chunk_len rest chunk <= String.length rest)%nat /\ (mem_kb_chunk_len rest chunk <= chunk)%nat.
Proof.
  unfold mem_kb_chunk_len. destruct (Nat.leb_spec (String.length rest) chunk); [lia|].
  pose proof (back_spec rest chunk) as [Hb _]. lia.
Qed.

Lemma substring_cut : forall n s, (n <= String.length s)%nat -> s = String.substring 0 n s +:+ String.substring n (String.length s - n) s.
Proof.
  induction n as [|n IH]; intros [|c s] Hn; cbn [String.length] in *; try lia; [done| |].
  - rewrite Nat.sub_0_r. by rewrite (substring_all (S (String.length s)) (String c s)).
  - cbn [String.substring]. rewrite str_app_cons, Nat.sub_succ. f_equal. apply IH. lia.
Qed.

(** The rest after a piece starts a character. *)
Lemma chunk_boundary rest chunk :
  (0 < mem_kb_chunk_len rest chunk)%nat ->
  starts_char (String.substring (mem_kb_chunk_len rest chunk) (String.length rest - mem_kb_chunk_len rest chunk) rest).
Proof.
  intros Hpos. set (n := mem_kb_chunk_len rest chunk) in *.
  destruct (String.substring n (String.length rest - n) rest) as [|c s'] eqn:Es; [done|]. cbn [starts_char].
  assert (Hg : String.get 0 (String.substring n (String.length rest - n) rest) = Some c) by by rewrite Es.
  destruct (decide (n < String.length rest)%nat) as [Hn|Hn].
  - rewrite String.substring_correct1 in Hg by lia. rewrite Nat.add_0_l in Hg. revert Hn Hpos Hg. unfold n, mem_kb_chunk_len.
    destruct (Nat.leb_spec (String.length rest) chunk); [lia|]. intros _ Hpos Hg. pose proof (back_spec rest chunk) as [_ Hb].
    destruct (back rest chunk) eqn:E; [lia|]. rewrite Hg in Hb. done.
  - pose proof (substring_shorter rest n (String.length rest - n)) as Hl. rewrite Es in Hl. cbn in Hl. lia.
Qed.

Section ingest.
  Context {W : Type} `{MemOS W} `{FileOS W} `{RecOS W} `{HIndex W} `{!HIndexLaws W} `{CJ : Cjson}.
  Implicit Types svc : mem_service_t W.

(** Pieces of a text: not empty, not too long, and every piece but the first at the
    start of a character. *)
Definition pieces_of (chunk : nat) (text : string) (l : list string) : Prop :=
  str_concat l = text /\ Forall (fun p => p <> ""%string /\ (String.length p <= chunk)%nat) l /\ Forall starts_char (tail l).

Lemma ingest_loop_ok kb doc chunk : forall fuel rest n svc (w : W),
  (String.length rest <= fuel)%nat -> short_runs 3 0 rest = true -> (4 <= chunk)%nat ->
  let '(rc, n', svc', _) := ingest_loop fuel kb doc chunk rest n svc w in
  exists rs, records svc' = records svc ++ rs /\ n' = (n + length rs)%nat
    /\ Forall (fun p => p <> ""%string /\ (String.length p <= chunk)%nat) (data <$> rs) /\ (starts_char rest -> Forall starts_char (data <$> rs))
    /\ Forall starts_char (tail (data <$> rs))
    /\ (rc = AIRY_SUCCESS -> str_concat (data <$> rs) = rest).
Proof.
  induction fuel as [|fuel IH]; intros rest n svc w Hf Hs Hc; cbn [ingest_loop].
  { destruct rest; [|cbn in Hf; lia]. exists []. rewrite app_nil_r. split_and!; try done; cbn; lia. }
  destruct rest as [|c rest]; [exists []; rewrite app_nil_r; split_and!; try done; cbn; lia|]. set (txt := String c rest) in *.
  pose proof (chunk_pos c rest chunk Hs Hc) as Hpos. pose proof (chunk_le txt chunk) as [Hle1 Hle2]. fold txt in Hpos.
  pose proof (chunk_boundary txt chunk Hpos) as Hbd. set (k := mem_kb_chunk_len txt chunk) in *.
  destruct (Nat.eqb_spec k 0) as [E|_]; [lia|].
  assert (Hnone : forall rc, rc <> AIRY_SUCCESS -> exists rs, records svc = records svc ++ rs /\ n = (n + length rs)%nat
    /\ Forall (fun p => p <> ""%string /\ (String.length p <= chunk)%nat) (data <$> rs) /\ (starts_char txt -> Forall starts_char (data <$> rs))
    /\ Forall starts_char (tail (data <$> rs)) /\ (rc = AIRY_SUCCESS -> str_concat (data <$> rs) = txt)).
  { intros rc Hrc. exists []. rewrite app_nil_r. split_and!; try done; cbn; lia. }
  destruct (mem_kb_build_meta kb doc n w) as [[rc meta] w1]. case_bool_decide as Hrc; [by apply Hnone|].
  pose proof (write_shape svc (Some (String.substring 0 k txt)) meta w1) as Hw.
  destruct (mem_service_write svc _ meta w1) as [[[rc2 o] svc2] w2]. destruct Hw as [_ Hw]. case_bool_decide as Hrc2.
  { rewrite decide_False in Hw by done. destruct Hw as [-> _]. by apply Hnone. }
  rewrite decide_True in Hw by done. destruct Hw as (_ & s & r & Hd0 & _ & Hrs & _ & Hd1 & _).
  assert (Hd : String.substring 0 k txt = data r) by congruence. clear Hd0 Hd1.
  assert (Hlen : (String.length (String.substring k (String.length txt - k) txt) <= fuel)%nat).
  { pose proof (substring_shorter txt k (String.length txt - k)). unfold txt in *. cbn [String.length] in *. lia. }
  specialize (IH (String.substring k (String.length txt - k) txt) (n + 1)%nat svc2 w2 Hlen (short_runs_suffix 3 _ _ _ Hs) Hc).
  destruct (ingest_loop fuel kb doc chunk _ (n + 1) svc2 w2) as [[[rc3 n3] svc3] w3].
  destruct IH as (rs & Hr3 & Hn & Hall & Hst & _ & Hcat). exists (r :: rs). rewrite Hr3, Hrs, <- app_assoc.
  assert (Hsz : String.length (data r) = k) by (rewrite <- Hd, substring_size; lia).
  split_and!; [done|cbn; lia| | | |].
  - rewrite fmap_cons. constructor; [|done]. split; [intros Ez; rewrite Ez in Hsz; cbn in Hsz; lia|lia].
  - intros Ht. rewrite fmap_cons. constructor; [|by apply Hst]. rewrite <- Hd. unfold txt. destruct k; [done|]. exact Ht.
  - rewrite fmap_cons. cbn [tail]. by apply Hst.
  - intros Hok. rewrite fmap_cons. cbn [str_concat foldr]. fold (str_concat (data <$> rs)). rewrite (Hcat Hok), <- Hd.
    symmetry. by apply substring_cut.
Qed.

(** Ingesting a document in UTF-8 with pieces of at least four bytes: when it
    reports success, the contents of the records it added are the document cut
    into pieces (none empty, none longer than asked, every cut at the start of a
    character), and the count it reports is their number; when it fails on the
    way, the records added so far are such pieces too. *)
Theorem ingest_complete svc kb doc text chunk (w : W) :
  short_runs 3 0 text = true -> (4 <= chunk)%nat ->
  let '(rc, n, svc', _) := mem_service_kb_ingest svc kb doc text chunk w in
  exists rs, records svc' = records svc ++ rs /\ n = length rs
    /\ Forall (fun p => p <> ""%string /\ (String.length p <= chunk)%nat) (data <$> rs) /\ Forall starts_char (tail (data <$> rs))
    /\ (rc = AIRY_SUCCESS -> pieces_of chunk text (data <$> rs)).
Proof.
  intros Hs Hc. unfold mem_service_kb_ingest. destruct (strcmp_eq kb "" || strcmp_eq text "").
  { exists []. rewrite app_nil_r. by split_and!. }
  destruct (Nat.eqb_spec chunk 0) as [->|_]; [lia|].
  pose proof (ingest_loop_ok kb doc chunk (String.length text) text 0 svc w ltac:(lia) Hs Hc) as Hl.
  destruct (ingest_loop _ kb doc chunk text 0 svc w) as [[[rc n] svc'] w'].
  destruct Hl as (rs & Hr & Hn & Hall & _ & Ht & Hcat). exists rs. split_and!; [done|done|done|done|].
  intros Hok. split_and!; [by apply Hcat|done|done].
Qed.
End ingest.

(** ** Examples *)

Definition count_mem : MemOS nat := {|
  os_alloc w := (true, w); os_time_ns w := (0, w); os_rand w := (0, w); self_addr := 0; tok_counter := unit;
  tok_create _ w := (Some tt, w); tok_count _ _ := 0; AIRY_TOKEN_MODEL_NAME_DEFAULT := "m"
|}.

Definition count_file : FileOS nat := {| io w := (None, w) |}.

(** The world is the number of identifiers issued. *)
Definition count_rec : RecOS nat := {| rec_time w := (1000, w); rec_oid w := (String "r" (print_u (Z.of_nat w)), S w) |}.

Definition map_index : HIndex nat := {|
  hindex_t := gmap string nat;
  hindex_init _ w := (Some ∅, w);
  hindex_get h k := h !! k;
  hindex_put h k i w := (AIRY_SUCCESS, <[k := i]> h, w);
  hindex_del h k := delete k h
|}.

#[local] Existing Instances count_mem count_file count_rec map_index.

Lemma map_index_laws : HIndexLaws nat.
Proof.
  split; cbn; intros.
  - simplify_eq. apply lookup_empty.
  - simplify_eq. rewrite lookup_insert. repeat case_decide; congruence.
  - by simplify_eq.
  - by simplify_eq.
  - rewrite lookup_delete. repeat case_decide; congruence.
Qed.

#[local] Existing Instance map_index_laws.

Definition store0 : mem_service_t nat :=
  mkSvc [] 8 (∅ : gmap string nat) (mkTable (replicate 32 free_entry) 32 0) (Some "mem.jsonl"%string) None (mkDisk ∅ []).

Lemma store0_ok : store_ok store0.
Proof. split; [apply NoDup_nil_2|cbn; lia|]. intros id i. cbn. rewrite lookup_empty. done. Qed.

Section run.
  Context `{CJ : Cjson}.

Fixpoint run_cmds (cs : list cmd) (svc : mem_service_t nat) (w : nat) : list (cmd * resp) * mem_service_t nat * nat :=
  match cs with
  | [] => ([], svc, w)
  | c :: cs' => let '(r, svc, w) := exec c svc w in let '(tr, svc, w) := run_cmds cs' svc w in ((c, r) :: tr, svc, w)
  end.

(** Every command is allowed and no identifier is in use. *)
Fixpoint fresh_run (allowed : cmd -> mem_service_t nat -> Prop) (cs : list cmd) (svc : mem_service_t nat) (w : nat) : Prop :=
  match cs with
  | [] => True
  | c :: cs' => allowed c svc /\ ((rec_oid w).1 ∉ ids svc) /\ fresh_run allowed cs' (exec c svc w).1.2 (exec c svc w).2
  end.

Lemma cmds_execs allowed cs : forall svc w, fresh_run allowed cs svc w ->
  execs allowed svc w (run_cmds cs svc w).1.1 (run_cmds cs svc w).1.2 (run_cmds cs svc w).2.
Proof.
  induction cs as [|c cs IH]; intros svc w Hf; cbn [run_cmds fresh_run] in *; [constructor|]. destruct Hf as (Ha & Hfr & Hf).
  destruct (exec c svc w) as [[r svc1] w1] eqn:He. cbn [fst snd] in Hf. specialize (IH svc1 w1 Hf).
  destruct (run_cmds cs svc1 w1) as [[tr svc2] w2]. by econstructor.
Qed.
End run.


#[local] Instance no_docs : Cjson := toy_cjson [].

Definition demo : list cmd :=
  [CWrite (Some "a cat"%string) None; CWrite (Some "the dog"%string) None; CDelete "r0"; CGet "r1"; CGet "r0"; CCount].

Example demo_answers :
  (run_cmds demo store0 0).1.1.*2 =
  [RWrite AIRY_SUCCESS (Some "r0"%string); RWrite AIRY_SUCCESS (Some "r1"%string); RDelete AIRY_SUCCESS;
   RGet AIRY_SUCCESS (Some (mkOut "the dog"%string None)); RGet AIRY_ERR_NOT_FOUND None; RCount 1].
Proof. vm_compute. reflexivity. Qed.

Lemma store_refines_witness :
  store_ok (run_cmds demo store0 0).1.2 /\ spec_run false 8 (abs store0) (run_cmds demo store0 0).1.1 (abs (run_cmds demo store0 0).1.2).
Proof.
  destruct (store_refines store0 0%nat (run_cmds demo store0 0).1.1 (run_cmds demo store0 0).1.2 (run_cmds demo store0 0).2 store0_ok)
    as (H1 & _ & H2); [apply cmds_execs; vm_compute; repeat split; set_solver|].
  split; [exact H1|]. apply H2. split; [reflexivity|]. intros h k v w. reflexivity.
Defined.

Lemma store0_df : df_inv 32 store0.
Proof.
  split; [constructor|done|]. unfold texts. cbn [records store0 fmap list_fmap].
  apply (init_counts (H := count_mem) 32 0%nat). reflexivity.
Qed.

Lemma store_frequencies_witness :
  mem_df_get (df_table (run_cmds demo store0 0).1.2) "dog" =
  Z.of_nat (length (filter (fun r => "dog"%string ∈ tokens_of (data r)) (records (run_cmds demo store0 0).1.2))).
Proof.
  apply (store_frequencies (W := nat) ltac:(done) ltac:(done) 32 store0 0%nat (run_cmds demo store0 0).1.1 _ (run_cmds demo store0 0).2);
    [apply store0_ok|apply store0_df|vm_compute; reflexivity|].
  apply cmds_execs. vm_compute. repeat split; first [done|lia|set_solver].
Defined.

Lemma ingest_complete_witness :
  let '(rc, n, svc', _) := mem_service_kb_ingest store0 "k" None ("abcdef" +:+ zhong) 4 0%nat in
  exists rs, records svc' = records store0 ++ rs /\ n = length rs
    /\ Forall (fun p => p <> ""%string /\ (String.length p <= 4)%nat) (data <$> rs) /\ Forall starts_char (tail (data <$> rs))
    /\ (rc = AIRY_SUCCESS -> pieces_of 4 ("abcdef" +:+ zhong) (data <$> rs)).
Proof. apply (ingest_complete (W := nat) store0 "k" None ("abcdef" +:+ zhong) 4 0%nat); [reflexivity|lia]. Defined.

(** With pieces shorter than a character nothing is written and success is
    reported. *)
Lemma small_piece_lost :
  let '(rc, n, svc', _) := mem_service_kb_ingest store0 "k" None (zhong +:+ "x") 2 0%nat in
  rc = AIRY_SUCCESS /\ n = 0%nat /\ records svc' = [].
Proof. vm_compute. done. Qed.

(** The most recent record is not the last one written once a record was deleted:
    the last one moved to the place of the deleted one. *)
Lemma recent_after_delete :
  let cs := [CWrite (Some "one"%string) None; CWrite (Some "two"%string) None; CWrite (Some "three"%string) None; CDelete "r0"] in
  (mem_service_recent (run_cmds cs store0 0).1.2 1 0%nat).1.2 = [mkItem (Some "r1"%string) "two" None 1000].
Proof. vm_compute. reflexivity. Qed.

(** An index that has no room. *)
Definition full_index : HIndex nat := {|
  hindex_t := gmap string nat;
  hindex_init _ w := (Some ∅, w);
  hindex_get h k := h !! k;
  hindex_put h k i w := (AIRY_ERR_BUSY, h, w);
  hindex_del h k := delete k h
|}.

(** A write the index refuses leaves the terms of the text in the table. *)
Lemma refused_write_counted :
  let svc : @mem_service_t nat full_index :=
    @mkSvc nat full_index [] 8 (∅ : gmap string nat) (mkTable (replicate 32 free_entry) 32 0) None None (mkDisk ∅ []) in
  let '(rc, _, svc', _) := @mem_service_write nat count_mem count_file count_rec full_index svc (Some "cat"%string) None 0%nat in
  rc = AIRY_ERR_BUSY /\ @records nat full_index svc' = [] /\ mem_df_get (@df_table nat full_index svc') "cat" = 1.
Proof. vm_compute. done. Qed.
