(* ===== verification/RecLoad.v ===== *)
(** * RecLoad

    Records survive a restart: what the record store has on disk (file RecFile)
    after any sequence of operations (file Records) is loaded again as the same
    store.  cJSON is a parameter; what is assumed of it is how it reads an object
    with string, number and other members, and a small reader that satisfies the
    assumption is given at the end. *)

From stdpp Require Import gmap.
From S2P Require Import Prelude Doubles MemEnv Vector DfTable Cjson RecFile Records.

(** ** The file of a running store *)

(** The file holds the lines of the records, and nothing waits in the stream. *)
Record file_inv {W} `{HIndex W} (p : string) (svc : mem_service_t W) : Prop := mkFile {
  fi_path : jsonl_path svc = Some p;
  fi_text : default "" (now (dsk svc) !! p) = file_text (records svc);
  fi_fp : match jsonl_append_fp svc with Some f => f = mkStream p "" | None => True end
}.

Lemma file_text_app a b : file_text (a ++ b) = file_text a +:+ file_text b.
Proof.
  unfold file_text. rewrite fmap_app. induction (rec_line <$> a) as [|x l IH]; [done|]. cbn [app str_concat foldr] in *.
  unfold str_concat in IH. by rewrite IH, str_app_assoc.
Qed.

Section saved.
  Context {W : Type} `{MemOS W} `{FileOS W} `{RecOS W} `{HIndex W} `{!HIndexLaws W} `{CJ : Cjson}.
  Context (Hmem : forall w : W, (os_alloc w).1 = true) (Hio : forall w : W, (io w).1 = None).
  Implicit Types svc : mem_service_t W.

Lemma io_ok (w : W) : exists w', io w = (None, w').
Proof. specialize (Hio w). destruct (io w) as [[n|] w']; [done|by exists w']. Qed.

Lemma emit_ok f r (w : W) : exists w', mem_jsonl_emit f r w = (true, mkStream (s_path f) (s_buf f +:+ rec_line r), w').
Proof.
  unfold mem_jsonl_emit, mem_json_escape. specialize (Hmem w). destruct (os_alloc w) as [[] w1]; [|done]. unfold fprintf.
  destruct (io_ok w1) as [w2 ->]. by exists w2.
Qed.

Lemma flush_ok f d (w : W) :
  exists w', fflush f d w = (true, mkStream (s_path f) "", set_disk (append_file (s_path f) (s_buf f) (now d)) d, w').
Proof. unfold fflush. destruct (io_ok w) as [w' ->]. by exists w'. Qed.

Lemma append_ok p fp r d (w : W) :
  match fp with Some f => f = mkStream p "" | None => True end ->
  let '(fp', d', _) := mem_persist_append_record (Some p) fp r d w in
  fp' = Some (mkStream p "") /\ now d' !! p = Some (default "" (now d !! p) +:+ rec_line r).
Proof.
  intros Hfp. unfold mem_persist_append_record.
  assert (Ho : exists d1 w1, match fp with Some f => (Some f, d, w) | None => fopen_a p d w end = (Some (mkStream p ""), d1, w1)
    /\ default "" (now d1 !! p) = default "" (now d !! p)).
  { destruct fp as [f|]; [subst f; by eexists _, _|]. unfold fopen_a. destruct (io_ok w) as [w1 ->]. eexists _, _. split; [done|].
    cbn. unfold append_file. rewrite lookup_insert_eq. cbn. by rewrite str_app_nil_r. }
  destruct Ho as (d1 & w1 & -> & Hd). destruct (emit_ok (mkStream p "") r w1) as [w2 ->]. cbn [s_path s_buf].
  destruct (flush_ok (mkStream p (""%string +:+ rec_line r)) d1 w2) as [w3 ->]. split; [done|]. cbn. unfold append_file.
  by rewrite lookup_insert_eq, Hd.
Qed.

Lemma sink_ok : forall rs f (w : W), exists w', mem_sink_jsonl f rs w = (true, mkStream (s_path f) (s_buf f +:+ file_text rs), w').
Proof.
  induction rs as [|r rs IH]; intros f w; cbn [mem_sink_jsonl].
  - exists w. destruct f. cbn. unfold file_text. cbn. by rewrite str_app_nil_r.
  - destruct (emit_ok f r w) as [w1 ->]. destruct (IH (mkStream (s_path f) (s_buf f +:+ rec_line r)) w1) as [w2 ->]. exists w2.
    cbn [s_path s_buf]. unfold file_text. cbn. by rewrite str_app_assoc.
Qed.

Lemma replace_ok p rs d (w : W) :
  strlen (p +:+ ".tmp") < 4096 -> let '(ok, d', _) := mem_atomic_write p rs d w in ok = true /\ now d' !! p = Some (file_text rs).
Proof.
  intros Hp. pose proof (atomic_write_spec p rs d w) as Hs. assert (Hok : (mem_atomic_write p rs d w).1.1 = true).
  { unfold mem_atomic_write. rewrite (proj2 (Z.leb_gt _ _)) by done. unfold fopen_wb. destruct (io_ok w) as [w1 ->].
    destruct (sink_ok rs (mkStream (p +:+ ".tmp") "") w1) as [w2 ->]. set (f := mkStream _ _). set (d1 := set_disk _ d).
    destruct (flush_ok f d1 w2) as [w3 ->]. unfold call. destruct (io_ok w3) as [w4 ->]. rewrite bool_decide_true by done. unfold fclose.
    set (f2 := mkStream _ _). set (d2 := set_disk _ d1). destruct (flush_ok f2 d2 w4) as [w5 ->]. cbn [andb negb].
    unfold airy_file_rename, call. destruct (io_ok w5) as [w6 ->]. rewrite bool_decide_true by done. cbn. unfold append_file.
    by rewrite lookup_insert_eq. }
  destruct (mem_atomic_write p rs d w) as [[ok d'] w']. cbn in Hok. subst ok. destruct Hs as (rs' & d0 & _ & _ & Hn & _ & Hm).
  by rewrite (Hm Hmem) in Hn.
Qed.

Lemma rewrite_saves p svc (w : W) :
  strlen (p +:+ ".tmp") < 4096 -> jsonl_path svc = Some p -> file_inv p (rewrite_file svc w).1.
Proof.
  intros Hp Hpath. unfold rewrite_file, mem_persist_rewrite_all. rewrite Hpath.
  destruct (match jsonl_append_fp svc with Some f => _ | None => _ end) as [d1 w1].
  pose proof (replace_ok p (records svc) d1 w1 Hp) as Hr. destruct (mem_atomic_write p (records svc) d1 w1) as [[ok d2] w2].
  destruct Hr as [_ Hr]. split; [done| |done]. cbn. by rewrite Hr.
Qed.

Lemma write_saves p svc text meta (w : W) : file_inv p svc -> file_inv p (mem_service_write svc text meta w).1.2.
Proof.
  intros [Hpath Htext Hfp]. unfold mem_service_write. destruct text as [[|c text]|]; [done| |done].
  destruct (max_records svc <=? _)%nat; [done|]. destruct (rec_oid w) as [oid w1].
  destruct (AIRY_STRDUP oid w1) as [[id|] w2], (mem_dup_data (String c text) w2) as [[dat|] w3]; try done.
  destruct (strdup_opt meta w3) as [m w4]. destruct (rec_time w4) as [t w5]. destruct (mem_record_build_vector _ _ w5) as [[v df] w6].
  destruct (hindex_put _ id _ w6) as [[rc h] w7]. case_bool_decide; [done|]. destruct (AIRY_STRDUP id w7) as [o w8].
  rewrite Hpath. pose proof (append_ok p (jsonl_append_fp svc) (mkRec id dat m (u64 t) v None) (dsk svc) w8 Hfp) as Ha.
  destruct (mem_persist_append_record _ _ _ _ w8) as [[fp d] w9]. destruct Ha as [-> Ha]. split; [done| |done].
  cbn [dsk records fst snd]. rewrite Ha, file_text_app, Htext. cbn [default]. f_equal. unfold file_text. cbn. by rewrite str_app_nil_r.
Qed.

Lemma kb_loop_path kb : forall fuel i svc n (w : W), store_ok svc ->
  let svc' := (kb_delete_loop fuel i kb svc n w).1.1 in
  jsonl_path svc' = jsonl_path svc /\ ((kb_delete_loop fuel i kb svc n w).1.2 = n -> svc' = svc) /\ (n <= (kb_delete_loop fuel i kb svc n w).1.2)%nat.
Proof.
  induction fuel as [|fuel IH]; intros i svc n w Hok; cbn [kb_delete_loop]; [done|].
  destruct (records svc !! i) as [r|] eqn:Hr; [|done]. destruct (mem_rec_in_kb r kb); [|by apply IH].
  pose proof (remove_at_ok svc i r w Hok Hr) as Hrm. destruct (mem_remove_record_at svc i w) as [svc1 w1].
  destruct Hrm as (Hok1 & _ & _ & _ & _ & Hp & _). destruct (IH i svc1 (n + 1)%nat w1 Hok1) as (Hp2 & _ & Hn). cbn zeta in *.
  split_and!; [congruence|intros E; lia|lia].
Qed.

(** Every operation leaves the file in step with the records. *)
Lemma exec_saves p c svc (w : W) :
  strlen (p +:+ ".tmp") < 4096 -> store_ok svc -> file_inv p svc -> file_inv p (exec c svc w).1.2.
Proof.
  intros Hp Hok Hf. destruct c as [text md|id|id|id e|kb|]; cbn [exec].
  - pose proof (write_saves p svc text md w Hf). by destruct (mem_service_write svc text md w) as [[[? ?] ?] ?].
  - by destruct (mem_service_get svc id w) as [[? ?] ?].
  - unfold mem_service_delete. destruct (mem_rec_find svc id) as [i|] eqn:Hi; [|done].
    destruct (find_record svc id i Hok Hi) as (r & Hr & _). pose proof (remove_at_ok svc i r w Hok Hr) as Hrm.
    destruct (mem_remove_record_at svc i w) as [svc1 w1]. destruct Hrm as (_ & _ & _ & _ & _ & Hp1 & _).
    pose proof (rewrite_saves p svc1 w1 Hp) as Hw. destruct (rewrite_file svc1 w1) as [svc2 w2]. apply Hw. rewrite Hp1. apply Hf.
  - destruct Hf as [Hpath Htext Hfp]. cbn [fst snd].
    assert (Hk : file_text (records (mem_rec_embed_attach svc id e)) = file_text (records svc)).
    { unfold file_text. by rewrite (embed_keeps svc id e rec_line). }
    unfold mem_rec_embed_attach in *. destruct (mem_rec_find svc id); [|done]. split; [done| |done]. rewrite Hk. done.
  - unfold mem_service_kb_delete. destruct (strcmp_eq kb ""); [done|].
    destruct (kb_loop_path kb (length (records svc)) 0 svc 0 w Hok) as (Hpath & Hsame & _). cbn zeta in *.
    destruct (kb_delete_loop _ 0 kb svc 0 w) as [[svc1 n] w1]. cbn [fst snd] in *. destruct (Nat.ltb_spec 0 n).
    + pose proof (rewrite_saves p svc1 w1 Hp) as Hw. destruct (rewrite_file svc1 w1) as [svc2 w2]. apply Hw. rewrite Hpath. apply Hf.
    + rewrite Hsame by lia. done.
  - done.
Qed.
End saved.

(** ** Reading it back *)

Definition object_text (id esc meta : string) (created len : Z) : string :=
  "{" +:+ quoted "record_id" +:+ ":" +:+ quoted id +:+ "," +:+ quoted "data" +:+ ":" +:+ quoted esc +:+ ","
  +:+ quoted "metadata" +:+ ":" +:+ meta +:+ "," +:+ quoted "created_at" +:+ ":" +:+ print_u created +:+ ","
  +:+ quoted "len" +:+ ":" +:+ print_u len +:+ "}".

(** A number that is read as the integer [n]. *)
Definition reads_as (v : option double) (n : Z) : Prop := exists x, v = Some x /\ size_of_double x = Some n.

(** How cJSON reads the object of a line: a literal as the text it stands for, a
    number below 2^53 exactly, any other value as what its text denotes. *)
Class CjsonLaws `{CjsonMore} := {
  denotes : string -> cJSON -> Prop;
  cj_null : exists v, denotes "null" v /\ cJSON_IsNull v = true;
  cj_object : forall ib id esc s meta mv created len,
    json_body ib id -> json_body esc s -> denotes meta mv -> 0 <= created <= 2 ^ 53 -> 0 <= len <= 2 ^ 53 ->
    exists v, cJSON_Parse (object_text ib esc meta created len) = Some v
      /\ cj_str (cJSON_GetObjectItem v "record_id") = Some id /\ cj_str (cJSON_GetObjectItem v "data") = Some s
      /\ cJSON_GetObjectItem v "metadata" = Some mv
      /\ reads_as (cj_num (cJSON_GetObjectItem v "created_at")) created /\ reads_as (cj_num (cJSON_GetObjectItem v "len")) len
}.

(** A record the file can carry: an identifier that needs no escape, metadata as
    cJSON prints them, and integers below 2^53. *)
Record loadable `{CjsonLaws} (r : mem_record_entry_t) : Prop := mkLoadable {
  lo_id : json_body (record_id r) (record_id r) /\ printable (record_id r);
  lo_data : data r <> ""%string /\ strlen (data r) <= 2 ^ 53;
  lo_meta : match metadata r with
            | None => True
            | Some m => printable m /\ exists mv, denotes m mv /\ cJSON_IsNull mv = false /\ cJSON_Print mv = m
            end;
  lo_created : 0 <= created_at r <= 2 ^ 53
}.

Lemma split_line l rest : has_char "010" l = false -> split_lines (l +:+ newline +:+ rest) = l :: split_lines rest.
Proof.
  induction l as [|c l IH]; intros Hl; [done|]. unfold has_char in *. cbn [str_forallb] in Hl.
  rewrite str_app_cons. cbn [split_lines]. destruct (Ascii.eqb c "010") eqn:E; [done|]. rewrite IH by done. done.
Qed.

Lemma printable_char a s : printable s -> (nat_of_ascii a < 32)%nat -> has_char a s = false.
Proof.
  unfold printable, has_char. intros Hs Ha. induction s as [|c s IH]; [done|]. cbn [str_forallb] in *. apply andb_true_iff in Hs as [Hc Hs].
  apply Nat.leb_le in Hc. destruct (Ascii.eqb_spec c a) as [->|]; [lia|]. by apply IH.
Qed.

Lemma strip_printable s : printable s -> strip_cr s = s.
Proof.
  unfold printable. induction s as [|c s IH]; intros Hs; [done|]. cbn [str_forallb strip_cr] in *. apply andb_true_iff in Hs as [Hc Hs].
  rewrite IH by done. apply Nat.leb_le in Hc. destruct s; [|done]. destruct (Ascii.eqb_spec c "013") as [->|]; [vm_compute in Hc; lia|done].
Qed.

Lemma cstr_printable s : printable s -> cstr s = s.
Proof. intros Hs. apply nul_free_cstr, printable_char; [done|vm_compute; lia]. Qed.

Lemma split_file `{CjsonLaws} rs : Forall loadable rs -> split_lines (file_text rs) = (line_body <$> rs) ++ [""%string].
Proof.
  induction 1 as [|r rs Hr _ IH]; [done|]. unfold file_text. cbn. rewrite rec_line_body, str_app_assoc, split_line; [by f_equal|].
  apply printable_char; [|vm_compute; lia]. apply line_printable; [apply Hr|]. pose proof (lo_meta _ Hr). destruct (metadata r); [naive_solver|done].
Qed.

Section load.
  Context {W : Type} `{MemOS W} `{FileOS W} `{RecOS W} `{HIndex W} `{!HIndexLaws W} `{LAWS : CjsonLaws}.
  Context (Hmem : forall w : W, (os_alloc w).1 = true) (Hio : forall w : W, (io w).1 = None).
  Context (Hput : forall h k i (w : W), (hindex_put h k i w).1.1 = AIRY_SUCCESS) (Hinit : forall n (w : W), is_Some (hindex_init n w).1).
  Context (utf8_sanitize : string -> string).
  Implicit Types svc : mem_service_t W.

Lemma copy_whole s : copy_text s (strlen s) = Some s.
Proof. unfold copy_text. rewrite Z.leb_refl. unfold strlen. rewrite Nat2Z.id. by rewrite substring_all. Qed.

Lemma meta_load r v (w : W) mv :
  loadable r -> cJSON_GetObjectItem v "metadata" = Some mv -> denotes (default "null" (metadata r)) mv ->
  (match metadata r with None => cJSON_IsNull mv = true | Some m => cJSON_IsNull mv = false /\ cJSON_Print mv = m end) ->
  reads_as (cj_num (cJSON_GetObjectItem v "created_at")) (created_at r) ->
  exists w', mem_record_meta v w = (Some (metadata r, created_at r), w').
Proof.
  intros Hr Hm _ Hnull (x & Hx & Hs). unfold mem_record_meta. rewrite Hm, Hx, Hs. destruct (metadata r) as [m|].
  - destruct Hnull as [-> ->]. destruct (strdup_mem Hmem m w) as [w1 ->]. destruct (strdup_mem Hmem m w1) as [w2 ->]. by eexists.
  - rewrite Hnull. by eexists.
Qed.

(** One line adds the record. *)
Lemma decode_line svc r (w : W) :
  loadable r -> (length (records svc) < max_records svc)%nat ->
  exists v svc' w', cJSON_Parse (line_body r) = Some v /\ mem_record_decode svc v w = Some (true, svc', w')
    /\ entry_of <$> records svc' = (entry_of <$> records svc) ++ [entry_of r] /\ max_records svc' = max_records svc.
Proof.
  intros Hr Hlt. assert (Hmv : exists mv, denotes (default "null" (metadata r)) mv /\
    match metadata r with None => cJSON_IsNull mv = true | Some m => cJSON_IsNull mv = false /\ cJSON_Print mv = m end).
  { pose proof (lo_meta _ Hr) as Hm. destruct (metadata r) as [m|]; [naive_solver|]. destruct cj_null as (v & ? & ?). by exists v. }
  destruct Hmv as (mv & Hden & Hnull). destruct (lo_data _ Hr) as [Hne Hlen]. destruct (lo_id _ Hr) as [Hid Hpr].
  assert (Hl0 : 0 <= strlen (data r) <= 2 ^ 53) by (unfold strlen in *; lia).
  destruct (cj_object _ _ _ _ _ mv _ _ Hid (esc_text_body (data r)) Hden (lo_created _ Hr) Hl0)
    as (v & Hp & Hrid & Hdat & Hmeta & Hcr & (x & Hx & Hs)).
  exists v. unfold mem_record_decode. rewrite Hrid, Hdat, (proj2 (Nat.leb_gt _ _) Hlt). unfold data_len. rewrite Hx, Hs. cbn [fmap option_fmap option_map mbind option_bind].
  destruct (Z.eqb_spec (strlen (data r)) 0) as [E|_].
  { exfalso. apply Hne. unfold strlen in E. destruct (data r); [done|cbn in E; lia]. }
  rewrite cstr_printable by done. destruct (strdup_mem Hmem (record_id r) w) as [w1 ->]. specialize (Hmem w1) as Hm1. destruct (os_alloc w1) as [[] w2]; [|done].
  rewrite copy_whole. cbn [mbind option_bind]. destruct (meta_load r v w2 mv Hr Hmeta Hden Hnull Hcr) as [w3 ->]. cbn [mbind option_bind].
  specialize (Hput (record_index svc) (record_id r) (length (records svc)) w3). destruct (hindex_put _ _ _ w3) as [[rc h] w4]. cbn in Hput. subst rc.
  rewrite bool_decide_false by tauto. destruct (mem_record_build_vector _ _ w4) as [[vv df] w5]. eexists _, _. split_and!; [done|done| |done].
  cbn [records]. by rewrite fmap_app.
Qed.

Lemma load_lines_all : forall rs svc (w : W),
  Forall loadable rs -> (length (records svc) + length rs <= max_records svc)%nat ->
  exists svc' w', mem_load_lines svc ((line_body <$> rs) ++ [""%string]) w = Some (svc', w')
    /\ entry_of <$> records svc' = (entry_of <$> records svc) ++ (entry_of <$> rs).
Proof.
  induction rs as [|r rs IH]; intros svc w Hl Hn; cbn [length] in Hn.
  - exists svc, w. split; [done|]. by rewrite app_nil_r.
  - apply Forall_cons in Hl as [Hr Hl]. destruct (decode_line svc r w Hr ltac:(lia)) as (v & svc1 & w1 & Hp & Hd & He & Hm).
    assert (Hpr : printable (line_body r)).
    { apply line_printable; [apply Hr|]. pose proof (lo_meta _ Hr). destruct (metadata r); [naive_solver|done]. }
    cbn [fmap list_fmap app mem_load_lines]. rewrite cstr_printable, strip_printable by done.
    destruct (strcmp_eq (line_body r) "") eqn:E; [by apply String.eqb_eq in E|]. rewrite Hp, Hd. cbn [mbind option_bind].
    assert (Hlen : length (records svc1) = S (length (records svc))).
    { apply (f_equal length) in He. rewrite length_app, !length_fmap in He. cbn in He. lia. }
    destruct (IH svc1 w1 Hl ltac:(lia)) as (svc2 & w2 & Hx & He2). exists svc2, w2. split; [done|].
    by rewrite He2, He, <- app_assoc.
Qed.

Lemma load_file p svc rs (w : W) :
  jsonl_path svc = Some p -> default "" (now (dsk svc) !! p) = file_text rs -> records svc = [] -> (length rs <= max_records svc)%nat ->
  Forall loadable rs -> utf8_sanitize (file_text rs) = file_text rs ->
  exists svc' w', mem_persist_load_existing utf8_sanitize svc w = Some (svc', w') /\ entry_of <$> records svc' = entry_of <$> rs.
Proof.
  intros Hp Ht Hnil Hn Hl Hutf. unfold mem_persist_load_existing. rewrite Hp. unfold call. destruct (io_ok Hio w) as [w1 ->].
  rewrite bool_decide_true by done. destruct (now (dsk svc) !! p) as [[|c content]|] eqn:Hf; cbn [default] in Ht.
  - destruct rs as [|r rs]; [by exists svc, w1; rewrite Hnil|]. by unfold file_text, rec_line, jsonl_line in Ht.
  - change (String c content = file_text rs) in Ht. unfold mem_persist_repair_utf8. destruct (_ <? strlen _).
    + rewrite Ht, (split_file rs Hl). destruct (load_lines_all rs svc w1 Hl) as (svc' & w' & E & He); [rewrite Hnil; cbn; lia|].
      exists svc', w'. split; [done|]. by rewrite He, Hnil.
    + specialize (Hmem w1) as Hm. destruct (os_alloc w1) as [[] w2]; [|done]. cbn [negb]. rewrite Ht, Hutf, strcmp_eq_refl. cbn [orb].
      rewrite (split_file rs Hl). destruct (load_lines_all rs svc w2 Hl) as (svc' & w' & E & He); [rewrite Hnil; cbn; lia|].
      exists svc', w'. split; [done|]. by rewrite He, Hnil.
  - destruct rs as [|r rs]; [by exists svc, w1; rewrite Hnil|]. by unfold file_text, rec_line, jsonl_line in Ht.
Qed.

(** C30.  A restart restores the store.  After any sequence of operations of a store
    whose file was in step at the start, creating the service again from the disk
    gives the same records in the same order (identifier, contents, metadata and
    time), hence the same map; this is the case when the calls of the C library
    and the allocator succeed, the records are such that a line can carry them and
    the file is valid UTF-8. *)
Theorem restart_restores p svc0 (w0 : W) tr svc w n (w1 : W) :
  strlen (p +:+ ".tmp") < 4096 -> store_ok svc0 -> file_inv p svc0 -> execs (fun _ _ => True) svc0 w0 tr svc w ->
  Forall loadable (records svc) -> utf8_sanitize (file_text (records svc)) = file_text (records svc) ->
  (0 < n)%nat -> (length (records svc) <= n)%nat ->
  exists svc' w', mem_service_create utf8_sanitize n (Some p) (dsk svc) w1 = Some (Some svc', w')
    /\ entry_of <$> records svc' = entry_of <$> records svc /\ abs svc' = abs svc.
Proof.
  intros Hp Hok Hf Hex Hl Hutf Hpos Hn. assert (Hfin : file_inv p svc).
  { induction Hex as [svc w|svc w c r svc1 w2 tr svc2 w3 _ Hfr He _ IH]; [done|]. pose proof (exec_step true c svc w ltac:(done) Hok Hfr) as Hs.
    pose proof (exec_saves Hmem Hio p c svc w Hp Hok Hf) as Hd. rewrite He in Hs, Hd. destruct Hs as (Hok1 & _). by apply IH. }
  unfold mem_service_create. rewrite (proj2 (Nat.eqb_neq n 0)) by lia.
  specialize (Hmem w1) as Hm1. destruct (os_alloc w1) as [[] w2]; [|done]. specialize (Hmem w2) as Hm2. destruct (os_alloc w2) as [[] w3]; [|done].
  cbn [negb]. specialize (Hinit (n * MEM_HASH_LOAD_FACTOR)%nat w3). destruct (hindex_init _ w3) as [[h|] w4]; [|by destruct Hinit].
  unfold mem_df_init. rewrite (proj2 (Nat.eqb_neq (n * 64) 0)) by lia. specialize (Hmem w4) as Hm4. destruct (os_alloc w4) as [[] w5]; [|done].
  destruct (load_file p (mkSvc [] n h (mkTable (replicate (n * 64) free_entry) (n * 64) 0) (Some p) None (dsk svc)) (records svc) w5)
    as (svc' & w' & E & He); [done|apply Hfin|done|done|done|done|].
  rewrite E. cbn [mbind option_bind]. exists svc', w'. split_and!; [done|done|]. unfold abs. by rewrite He.
Qed.
End load.

(** ** A reader that satisfies the assumption *)

Definition hex_val (c : ascii) : nat := let n := nat_of_ascii c in if (n <? 58)%nat then (n - 48)%nat else (n - 87)%nat.

Definition short_escape (e : ascii) : option ascii :=
  snd <$> find (fun p => Ascii.eqb p.1 e)
    [(dq, dq); (bs, bs); ("/"%char, "/"%char); ("n"%char, "010"%char); ("t"%char, "009"%char); ("r"%char, "013"%char);
     ("b"%char, "008"%char); ("f"%char, "012"%char)].

(** A literal up to its closing quote: the text and the rest. *)
Fixpoint scan (s : string) : option (string * string) :=
  match s with
  | EmptyString => None
  | String c s' =>
      if Ascii.eqb c dq then Some (EmptyString, s')
      else if Ascii.eqb c bs
      then match s' with
           | EmptyString => None
           | String e s'' =>
               match (if Ascii.eqb e "u" then None else short_escape e) with
               | Some a => '(t, r) ← scan s''; Some (String a t, r)
               | None =>
                   match s'' with
                   | String h3 (String h2 (String h1 (String h0 s3))) =>
                       '(t, r) ← scan s3;
                       Some (String (ascii_of_nat (((hex_val h3 * 16 + hex_val h2) * 16 + hex_val h1) * 16 + hex_val h0)) t, r)
                   | _ => None
                   end
               end
           end
      else '(t, r) ← scan s'; Some (String c t, r)
  end.

Lemma scan_body b s rest : json_body b s -> scan (b +:+ String dq rest) = Some (s, rest).
Proof.
  induction 1 as [|c b s Hc Hq Hb _ IH|e c b s He _ IH|n b s Hn _ IH].
  - done.
  - rewrite str_app_cons. cbn [scan]. destruct (Ascii.eqb_spec c dq); [done|]. destruct (Ascii.eqb_spec c bs); [done|]. by rewrite IH.
  - rewrite !str_app_cons. cbn [scan]. change (Ascii.eqb bs dq) with false. change (Ascii.eqb bs bs) with true. cbv iota.
    assert (Hs : (if Ascii.eqb e "u" then None else short_escape e) = Some c).
    { repeat (apply elem_of_cons in He as [He|He]; [by injection He as -> ->|]). by apply elem_of_nil in He. }
    rewrite Hs, IH. done.
  - rewrite !str_app_cons, str_app_assoc. cbn [scan]. change (Ascii.eqb bs dq) with false. change (Ascii.eqb bs bs) with true. cbv iota.
    change (Ascii.eqb "u" "u") with true. cbv iota.
    assert (Hh : exists a b c d, hexn 4 (Z.of_nat n) = String a (String b (String c (String d ""))) /\
      (((hex_val a * 16 + hex_val b) * 16 + hex_val c) * 16 + hex_val d)%nat = n).
    { clear IH. do 128 (destruct n as [|n]; [by eexists _, _, _, _|]). lia. }
    destruct Hh as (h3 & h2 & h1 & h0 & -> & Hv). rewrite !str_app_cons. change (""%string +:+ (b +:+ String dq rest)) with (b +:+ String dq rest). rewrite IH. cbn [mbind option_bind]. by rewrite Hv.
Qed.

Lemma strip_prefix_app p s : strip_prefix p (p +:+ s) = Some s.
Proof. induction p as [|c p IH]; [done|]. rewrite str_app_cons. cbn [strip_prefix]. by rewrite Ascii.eqb_refl. Qed.

Lemma dec_aux_app fuel : forall n acc rest, dec_aux fuel n acc +:+ rest = dec_aux fuel n (acc +:+ rest).
Proof.
  induction fuel as [|fuel IH]; intros n acc rest; [done|]. cbn [dec_aux]. case_match; [by rewrite str_app_cons|]. by rewrite IH, str_app_cons.
Qed.

Lemma digit_char_run d acc v : 0 <= d < 10 -> dec_run (String (digit_char d) acc) v = dec_run acc (v * 10 + d).
Proof.
  intros Hd. cbn [dec_run]. unfold is_dec, digit_char. rewrite nat_ascii_embedding by lia.
  rewrite (proj2 (Nat.leb_le _ _)), (proj2 (Nat.leb_le _ _)) by lia. cbn [andb]. f_equal. lia.
Qed.

Lemma dec_run_aux fuel : forall n acc, 0 <= n < 10 ^ Z.of_nat fuel -> (0 < fuel)%nat -> dec_run (dec_aux fuel n acc) 0 = dec_run acc n.
Proof.
  induction fuel as [|fuel IH]; intros n acc Hn Hf; [lia|]. cbn [dec_aux]. rewrite Nat2Z.inj_succ, Z.pow_succ_r in Hn by lia.
  pose proof (Z.mod_pos_bound n 10). pose proof (Z.div_mod n 10). destruct (Z.ltb_spec n 10).
  - rewrite digit_char_run, Z.mod_small by lia. done.
  - destruct fuel as [|fuel]; [cbn in Hn; lia|]. rewrite IH; [|lia|lia]. rewrite digit_char_run by lia. f_equal. lia.
Qed.

(** A number of a line, up to a character that is no digit. *)
Lemma dec_run_print n c rest : 0 <= n <= 2 ^ 53 -> is_dec c = false -> dec_run (print_u n +:+ String c rest) 0 = (n, String c rest).
Proof.
  intros Hn Hc. unfold print_u. rewrite dec_aux_app, dec_run_aux; [|split; [lia|]|lia].
  - change (""%string +:+ String c rest) with (String c rest). cbn [dec_run]. by rewrite Hc.
  - change (Z.of_nat 20) with 20. change (2 ^ 53) with 9007199254740992 in Hn. change (10 ^ 20) with 100000000000000000000. lia.
Qed.

Inductive jv := JvLine (id text : string) (created len : Z) | JvStr (s : string) | JvNum (n : Z) | JvNull.

Definition double_of (n : Z) : double := match n with Z.pos p => SpecFloat.S754_finite false p 0 | _ => SpecFloat.S754_zero false end.

Definition key_text (k : string) : string := quoted k +:+ ":".

Definition parse_line (s : string) : option jv :=
  s ← strip_prefix ("{" +:+ key_text "record_id" +:+ String dq "") s;
  '(id, s) ← scan s;
  s ← strip_prefix ("," +:+ key_text "data" +:+ String dq "") s;
  '(text, s) ← scan s;
  s ← strip_prefix ("," +:+ key_text "metadata" +:+ "null," +:+ key_text "created_at") s;
  let '(created, s) := dec_run s 0 in
  s ← strip_prefix ("," +:+ key_text "len") s;
  let '(len, s) := dec_run s 0 in
  if strcmp_eq s "}" then Some (JvLine id text created len) else None.

Definition p_id : string := "{" +:+ key_text "record_id" +:+ String dq "".
Definition p_data : string := "," +:+ key_text "data" +:+ String dq "".
Definition p_meta : string := "," +:+ key_text "metadata" +:+ "null," +:+ key_text "created_at".
Definition p_len : string := "," +:+ key_text "len".

Lemma object_shape ib esc created len :
  object_text ib esc "null" created len =
  p_id +:+ (ib +:+ String dq (p_data +:+ (esc +:+ String dq (p_meta +:+ (print_u created +:+ (p_len +:+ (print_u len +:+ "}"))))))).
Proof.
  unfold object_text. generalize (print_u created) (print_u len). intros a b. unfold quoted at 2 4.
  rewrite !str_app_cons, !str_app_assoc, !str_app_cons. reflexivity.
Qed.

Lemma parse_object ib id esc s created len :
  json_body ib id -> json_body esc s -> 0 <= created <= 2 ^ 53 -> 0 <= len <= 2 ^ 53 ->
  parse_line (object_text ib esc "null" created len) = Some (JvLine id s created len).
Proof.
  intros Hi He Hc Hl. rewrite object_shape. unfold parse_line. fold p_id p_data p_meta p_len. rewrite strip_prefix_app. cbn [mbind option_bind].
  rewrite (scan_body _ _ _ Hi). cbn [mbind option_bind]. rewrite strip_prefix_app. cbn [mbind option_bind].
  rewrite (scan_body _ _ _ He). cbn [mbind option_bind]. rewrite strip_prefix_app. cbn [mbind option_bind].
  change (p_len +:+ (print_u len +:+ "}")) with (String "," (key_text "len" +:+ (print_u len +:+ "}"))).
  rewrite dec_run_print by done. change (String "," (key_text "len" +:+ (print_u len +:+ "}"))) with (p_len +:+ (print_u len +:+ "}")).
  rewrite strip_prefix_app. cbn [mbind option_bind]. by rewrite dec_run_print.
Qed.

#[local] Instance line_cjson : Cjson := {|
  cJSON := jv;
  cJSON_Parse := parse_line;
  cJSON_GetObjectItem v k :=
    match v with
    | JvLine id text created len =>
        snd <$> find (fun e => strcmp_eq e.1 k)
          [("record_id", JvStr id); ("data", JvStr text); ("metadata", JvNull); ("created_at", JvNum created); ("len", JvNum len)]%string
    | _ => None
    end;
  cJSON_IsObject v := match v with JvLine _ _ _ _ => true | _ => false end;
  cJSON_str v := match v with JvStr s => Some s | _ => None end;
  cJSON_num v := match v with JvNum n => Some (double_of n) | _ => None end;
  cJSON_int v := match v with JvNum n => n | _ => 0 end;
  cJSON_items _ := None;
  cJSON_PrintUnformatted := jtree_text
|}.

#[local] Instance line_more : CjsonMore := {| cJSON_IsNull v := match v with JvNull => true | _ => false end; cJSON_Print _ := ""%string |}.

Lemma size_double_of n : 0 <= n <= 2 ^ 53 -> size_of_double (double_of n) = Some n.
Proof.
  intros Hn. unfold size_of_double. assert (Hlt : dlt (d_of_Z (-1)) (double_of n) = true /\ dlt (double_of n) (d_of_Z (UINT64_MAX + 1)) = true).
  { assert (E1 : d_of_Z (-1) = SpecFloat.S754_finite true 4503599627370496 (-52)) by (vm_compute; reflexivity).
    assert (E2 : d_of_Z (UINT64_MAX + 1) = SpecFloat.S754_finite false 4503599627370496 12) by (vm_compute; reflexivity).
    rewrite E1, E2. destruct n as [|p|p]; [done|done|lia]. }
  destruct Hlt as [-> ->]. cbn [andb]. destruct n as [|p|p]; [done|done|lia].
Qed.

#[local] Instance line_laws : @CjsonLaws line_cjson line_more.
Proof.
  refine (@Build_CjsonLaws line_cjson line_more (fun (t : string) (v : jv) => t = "null"%string /\ v = JvNull) _ _).
  - by exists JvNull.
  - intros ib id esc s meta mv created len Hi He [-> ->] Hc Hl. exists (JvLine id s created len).
    split_and!; [by apply parse_object|done|done|done| |].
    + exists (double_of created). split; [done|by apply size_double_of].
    + exists (double_of len). split; [done|by apply size_double_of].
Defined.

(** ** Example *)

#[local] Existing Instances count_mem count_file count_rec map_index map_index_laws.

Definition sample_cmds : list cmd :=
  [CWrite (Some ("say " +:+ String dq "" +:+ "hi" +:+ newline)) None; CWrite (Some "old"%string) None; CDelete "r1"].

Definition sample_end : list (cmd * resp) * mem_service_t nat * nat := run_cmds sample_cmds store0 0.

Lemma sample_execs : execs (fun _ _ => True) store0 0%nat sample_end.1.1 sample_end.1.2 sample_end.2.
Proof. apply cmds_execs; vm_compute; repeat split; set_solver. Qed.

Definition sample_records : list mem_record_entry_t := Eval vm_compute in records sample_end.1.2.

Lemma sample_loadable : Forall loadable (records sample_end.1.2).
Proof.
  assert (E : records sample_end.1.2 = sample_records) by (vm_compute; reflexivity). rewrite E. unfold sample_records.
  constructor; [|constructor]. split; cbn [record_id data metadata created_at]; [|split; [done|vm_compute; done]|done|lia].
  split; [|done]. repeat (apply jb_plain; [vm_compute; lia|done|done|]). constructor.
Qed.

Lemma restart_restores_witness :
  exists svc' w', mem_service_create (fun s => s) 8 (Some "mem.jsonl"%string) (dsk sample_end.1.2) 0%nat = Some (Some svc', w')
    /\ entry_of <$> records svc' = entry_of <$> records sample_end.1.2 /\ abs svc' = abs sample_end.1.2.
Proof.
  apply (restart_restores (W := nat) ltac:(done) ltac:(done) ltac:(done) ltac:(by eexists) (fun s => s) "mem.jsonl" store0 0%nat
    sample_end.1.1 sample_end.1.2 sample_end.2 8 0%nat);
    [vm_compute; done|apply store0_ok|split; vm_compute; done|apply sample_execs|apply sample_loadable|done|lia|vm_compute; lia].
Defined.

(** Of the two records written one was deleted. *)
Example sample_contents : (fun r => (record_id r, data r)) <$> records sample_end.1.2 = [("r0"%string, ("say " +:+ String dq "" +:+ "hi" +:+ newline))].
Proof. vm_compute. reflexivity. Qed.

(** A line whose length is larger than its text makes the loader read past the
    text. *)
Lemma length_trusted : mem_record_decode store0 (JvLine "r" "ab" 0 100) 0%nat = None.
Proof. vm_compute. reflexivity. Qed.

(** The repair of a byte that is not UTF-8 writes three bytes for it; the length of
    the line still counts one, so the last two bytes of the text are cut off. *)
Lemma repaired_text_cut :
  let fffd := bytes [239; 191; 189]%nat in
  (fun x => data <$> records x.1.2) <$> mem_record_decode store0 (JvLine "r" (fffd +:+ "end") 0 4) 0%nat = Some [fffd +:+ "e"].
Proof. vm_compute. reflexivity. Qed.
