(* ===== verification/MemSearch.v ===== *)
(** * MemSearch

    The search of mem_d (mem_d/src/core/service.c, search; the similarities of
    mem_d/src/engine/vector.c and mem_d/src/engine/emb_client.c): scoring every
    record, keeping the positive scores, sorting them and cutting the list.

    [double] and [float] are IEEE numbers (precision 53 and 24); [log] of libm is a
    parameter.  The embedding of the query is an argument: it arrives from a
    network call before the lock is taken. *)

From Stdlib Require Import SpecFloat.
From S2P Require Import Prelude Doubles MemEnv Vector DfTable Cjson RecFile Records.

(** ** Single precision *)

Definition fadd : double -> double -> double := SFadd 24 128.
Definition fsub : double -> double -> double := SFsub 24 128.
Definition fmul : double -> double -> double := SFmul 24 128.
Definition fdiv : double -> double -> double := SFdiv 24 128.
Definition f_of_Z (n : Z) : double := binary_normalize 24 128 n 0 false.
Definition f_one : double := f_of_Z 1.
Definition d_one : double := d_of_Z 1.
Definition dsqrt : double -> double := SFsqrt 53 1024.

(** [(float)x] *)
Definition f_of_d (x : double) : double :=
  match x with S754_finite s m e => binary_round 24 128 s m e | _ => x end.

(** ** Similarities *)

(** The places where the query starts in the text. *)
Fixpoint matches (fuel : nat) (text query : string) : nat :=
  match fuel with
  | O => 0
  | S fuel' =>
      if (String.length query <=? String.length text)%nat
      then ((if strcmp_eq (String.substring 0 (String.length query) text) query then 1 else 0)
            + matches fuel' (String.substring 1 (String.length text - 1) text) query)%nat
      else 0%nat
  end.

Definition mem_compute_score (text query : string) : double :=
  if strcmp_eq text "" || strcmp_eq query "" then d_zero
  else
    let n := matches (S (String.length text)) text query in
    if (n =? 0)%nat then d_zero
    else
      let density := fdiv (fmul (f_of_Z (Z.of_nat n)) (f_of_Z (strlen query))) (f_of_Z (strlen text)) in
      if dlt f_one density then f_one else density.

(** A cosine cut to the interval from 0 to 1. *)
Definition clamp01 (x : double) : double :=
  let x := if dlt x d_zero then d_zero else x in if dlt d_one x then d_one else x.

Section cosine.
  Context (log : double -> double).

Definition mem_idf (df doc_count : Z) : double :=
    if doc_count =? 0 then d_zero
    else dadd (log (ddiv (dadd (d_of_Z doc_count) d_one) (dadd (d_of_Z df) d_one))) d_one.

Definition weight (t : mem_df_table_t) (doc_count : Z) (x : mem_vec_term_t) : double * double :=
    let idf := mem_idf (mem_df_get t (term x)) doc_count in (idf, dmul (d_of_Z (tf x)) idf).

(** The loop over the terms of the query: scalar product and square of the norm. *)
Fixpoint dot_loop (t : mem_df_table_t) (n : Z) (doc : list mem_vec_term_t) (qs : list mem_vec_term_t) (dot qn : double) : double * double :=
    match qs with
    | [] => (dot, qn)
    | q :: qs' =>
        let '(idf, wq) := weight t n q in
        let qn := dadd qn (dmul wq wq) in
        let dot := match find (fun d => strcmp_eq (term q) (term d)) doc with
                   | Some d => dadd dot (dmul wq (dmul (d_of_Z (tf d)) idf))
                   | None => dot
                   end in
        dot_loop t n doc qs' dot qn
    end.

Definition norm (t : mem_df_table_t) (n : Z) (doc : list mem_vec_term_t) : double :=
    foldl (fun a d => let '(_, wd) := weight t n d in dadd a (dmul wd wd)) d_zero doc.

Definition mem_vec_cosine (query doc : mem_tfidf_vec_t) (t : mem_df_table_t) (doc_count : Z) : double :=
    if (length (terms query) =? 0)%nat || (length (terms doc) =? 0)%nat then d_zero
    else
      let '(dot, qn) := dot_loop t doc_count (terms doc) (terms query) d_zero d_zero in
      if deq qn d_zero || dle dot d_zero then d_zero
      else
        let dn := norm t doc_count (terms doc) in
        if deq dn d_zero then d_zero else f_of_d (clamp01 (ddiv dot (dmul (dsqrt qn) (dsqrt dn)))).

(** The three sums of two embeddings. *)
Fixpoint emb_loop (a b : list double) (dot na nb : double) : double * double * double :=
    match a, b with
    | x :: a', y :: b' => emb_loop a' b' (dadd dot (dmul x y)) (dadd na (dmul x x)) (dadd nb (dmul y y))
    | _, _ => (dot, na, nb)
    end.

Definition mem_emb_cosine (a b : list double) : double :=
    if (length a =? 0)%nat then d_zero
    else
      let '(dot, na, nb) := emb_loop a b d_zero d_zero d_zero in
      if deq na d_zero || deq nb d_zero then d_zero else f_of_d (clamp01 (ddiv dot (dmul (dsqrt na) (dsqrt nb)))).
End cosine.

(** ** The search *)

Record mem_search_hit_t := mkHit {
  h_id : option string;
  score : double
}.

(** The input of a search: query, its vector, its embedding when there is one. *)
Record mem_rank_t := mkRank {
  query : string;
  qvec : mem_tfidf_vec_t;
  qemb : option (list double)
}.

(** One pass of the sort over the first [k + 1] elements. *)
Fixpoint pass (k : nat) (l : list mem_search_hit_t) : list mem_search_hit_t :=
  match k, l with
  | S k', a :: b :: l' => if dlt (score a) (score b) then b :: pass k' (a :: l') else a :: pass k' (b :: l')
  | _, _ => l
  end.

Fixpoint bubble (k : nat) (l : list mem_search_hit_t) : list mem_search_hit_t :=
  match k with
  | O => l
  | S k' => bubble k' (pass k l)
  end.

Definition mem_hits_trim (hits : list mem_search_hit_t) (limit : nat) : list mem_search_hit_t :=
  let hits := bubble (length hits - 1) hits in
  if (length hits <=? limit)%nat then hits else take limit hits.

Section search.
  Context {W : Type} `{MemOS W} `{HIndex W} `{CJ : Cjson}.
  Context (log : double -> double) (tfidf_weight : double).
  Implicit Types svc : mem_service_t W.

(** [emb] is the answer of the embedding backend. *)
Definition mem_rank_open (q : string) (emb : option (list double)) (w : W) : mem_rank_t * W :=
    let '(_, v, w) := mem_vec_build (Some q) w in
    (mkRank q v (match emb with Some (_ :: _) => emb | _ => None end), w).

Definition mem_rec_vec_score svc (r : mem_rank_t) (rec : mem_record_entry_t) : double :=
    match qemb r, emb rec with
    | Some a, Some b =>
        if (length b =? length a)%nat then mem_emb_cosine a b
        else if (0 <? length (terms (vec rec)))%nat then mem_vec_cosine log (qvec r) (vec rec) (df_table svc) (Z.of_nat (length (records svc)))
        else d_zero
    | _, _ =>
        if (0 <? length (terms (vec rec)))%nat then mem_vec_cosine log (qvec r) (vec rec) (df_table svc) (Z.of_nat (length (records svc)))
        else d_zero
    end.

(** [w * vector + (1.0f - w) * substring] *)
Definition rec_score svc (r : mem_rank_t) (rec : mem_record_entry_t) : double :=
    fadd (fmul tfidf_weight (mem_rec_vec_score svc r rec))
         (fmul (fsub f_one tfidf_weight) (mem_compute_score (data rec) (query r))).

Definition mem_hit_take svc (r : mem_rank_t) (rec : mem_record_entry_t) (w : W) : option mem_search_hit_t * W :=
    let s := rec_score svc r rec in
    if dle s d_zero then (None, w)
    else let '(id, w) := AIRY_STRDUP (record_id rec) w in (Some (mkHit id s), w).

(** [kb_id] is [None] for a search in all records. *)
Fixpoint mem_hits_collect svc (r : mem_rank_t) (kb_id : option string) (recs : list mem_record_entry_t) (w : W)
    : list mem_search_hit_t * W :=
    match recs with
    | [] => ([], w)
    | rec :: recs' =>
        if (match kb_id with Some kb => negb (mem_rec_in_kb rec kb) | None => false end) then mem_hits_collect svc r kb_id recs' w
        else
          let '(h, w) := mem_hit_take svc r rec w in
          let '(hs, w) := mem_hits_collect svc r kb_id recs' w in
          (match h with Some h => h :: hs | None => hs end, w)
    end.

Definition mem_service_search_filtered svc (kb_id : option string) (q : string) (emb : option (list double)) (limit : nat) (w : W)
    : airy_rc * list mem_search_hit_t * W :=
    let limit := if (limit =? 0)%nat then 10%nat else limit in
    let '(r, w) := mem_rank_open q emb w in
    let '(ok, w) := if (0 <? length (records svc))%nat then os_alloc w else (true, w) in
    if negb ok then (AIRY_ERR_OUT_OF_MEMORY, [], w)
    else
      let '(hits, w) := mem_hits_collect svc r kb_id (records svc) w in
      (AIRY_SUCCESS, mem_hits_trim hits limit, w).

Definition mem_service_search svc := mem_service_search_filtered svc None.

Definition mem_service_kb_search svc (kb_id : string) := mem_service_search_filtered svc (Some kb_id).
End search.

(** ** Sorting *)

(** [a] may stand before [b]. *)
Definition ranks (a b : mem_search_hit_t) : Prop := dlt (score a) (score b) = false.

Definition numbers (l : list mem_search_hit_t) : Prop := Forall (fun h => is_nan (score h) = false) l.

Lemma ranks_trans a b c : is_nan (score b) = false -> ranks a b -> ranks b c -> ranks a c.
Proof.
  unfold ranks. intros Hb Hab Hbc. destruct (dlt (score a) (score c)) eqn:E; [|done].
  destruct (dlt_cotrans _ _ _ Hb E); congruence.
Qed.

(** A pass moves the smallest of the first elements behind them. *)
Lemma pass_spec k : forall a s, length a = S k -> numbers a ->
  exists a' m, pass k (a ++ s) = a' ++ m :: s /\ a ≡ₚ m :: a' /\ Forall (fun x => ranks x m) a'.
Proof.
  induction k as [|k IH]; intros a s Hl Hn.
  - destruct a as [|m [|? ?]]; try done. exists [], m. split_and!; [|done|constructor]. by destruct s.
  - destruct a as [|x [|y a]]; try done. apply Forall_cons in Hn as [Hx Hn]. pose proof Hn as Hn'. apply Forall_cons in Hn' as [Hy Ha].
    cbn [pass app]. destruct (dlt (score x) (score y)) eqn:E.
    + destruct (IH (x :: a) s ltac:(cbn in *; lia) ltac:(by constructor)) as (a' & m & Hp & Hperm & Hr). cbn [app] in Hp. rewrite Hp.
      exists (y :: a'), m. split_and!; [done|rewrite Permutation_swap, Hperm; apply Permutation_swap|]. constructor; [|done].
      assert (Hin : x ∈ m :: a') by (rewrite <- Hperm; left). apply dlt_asym in E.
      apply elem_of_cons in Hin as [->|Hin]; [done|]. rewrite Forall_forall in Hr. by apply (ranks_trans _ x); [|done|apply Hr].
    + destruct (IH (y :: a) s ltac:(cbn in *; lia) Hn) as (a' & m & Hp & Hperm & Hr). cbn [app] in Hp. rewrite Hp.
      exists (x :: a'), m. split_and!; [done|rewrite Hperm; apply Permutation_swap|]. constructor; [|done].
      assert (Hin : y ∈ m :: a') by (rewrite <- Hperm; left).
      apply elem_of_cons in Hin as [->|Hin]; [done|]. rewrite Forall_forall in Hr. by apply (ranks_trans _ y); [|done|apply Hr].
Qed.

Lemma bubble_spec k : forall a s, length a = S k -> numbers a -> StronglySorted ranks s -> (forall x y, x ∈ a -> y ∈ s -> ranks x y) ->
  StronglySorted ranks (bubble k (a ++ s)) /\ bubble k (a ++ s) ≡ₚ a ++ s.
Proof.
  induction k as [|k IH]; intros a s Hl Hn Hs Has; cbn [bubble].
  - destruct a as [|x [|? ?]]; try done. split; [|done]. constructor; [done|]. apply Forall_forall. intros y Hy. apply Has; [left|done].
  - destruct (pass_spec (S k) a s Hl Hn) as (a' & m & Hp & Hperm & Hr). rewrite Hp. change (a' ++ m :: s) with (a' ++ (m :: s)).
    rewrite Forall_forall in Hr. assert (Hn' : numbers (m :: a')) by (unfold numbers; by rewrite <- Hperm). apply Forall_cons in Hn' as [_ Hn'].
    destruct (IH a' (m :: s)) as [Hsort Hp2]; [apply Permutation_length in Hperm; cbn in Hperm; lia|done| | |].
    + constructor; [done|]. apply Forall_forall. intros y Hy. apply Has; [rewrite Hperm; left|done].
    + intros x y Hx Hy. apply elem_of_cons in Hy as [->|Hy]; [by apply Hr|]. apply Has; [rewrite Hperm; by right|done].
    + split; [done|]. rewrite Hp2, Hperm. solve_Permutation.
Qed.

(** The cut list: sorted, and nothing that was cut off ranks above what was kept. *)
Lemma trim_spec hits limit :
  numbers hits ->
  exists cut, mem_hits_trim hits limit ++ cut ≡ₚ hits /\ StronglySorted ranks (mem_hits_trim hits limit)
    /\ length (mem_hits_trim hits limit) = Nat.min limit (length hits)
    /\ forall x y, x ∈ mem_hits_trim hits limit -> y ∈ cut -> ranks x y.
Proof.
  intros Hn. assert (Hb : StronglySorted ranks (bubble (length hits - 1) hits) /\ bubble (length hits - 1) hits ≡ₚ hits).
  { destruct hits as [|h hs]; [by split; [constructor|]|].
    destruct (bubble_spec (length hs) (h :: hs) []) as [Hs Hp]; [done|done|constructor|set_solver|].
    rewrite app_nil_r in Hs, Hp. cbn [length]. by replace (S (length hs) - 1)%nat with (length hs) by lia. }
  destruct Hb as [Hs Hp]. unfold mem_hits_trim. set (l := bubble (length hits - 1) hits) in *. cbv zeta.
  pose proof (Permutation_length Hp) as Hlen. destruct (Nat.leb_spec (length l) limit).
  - exists []. rewrite app_nil_r. split_and!; [done|done|lia|set_solver].
  - exists (drop limit l). rewrite take_drop. split_and!; [done| |rewrite length_take; lia|].
    + rewrite <- (take_drop limit l) in Hs. by apply StronglySorted_app in Hs as (_ & ? & _).
    + rewrite <- (take_drop limit l) in Hs. apply StronglySorted_app in Hs as (Hx & _ & _). intros x y Hi Hj. by apply Hx.
Qed.

(** ** What a search finds *)

Section found.
  Context {W : Type} `{MemOS W} `{HIndex W} `{CJ : Cjson}.
  Context (log : double -> double) (tfidf_weight : double).
  Context (Hmem : forall w : W, (os_alloc w).1 = true).
  Implicit Types svc : mem_service_t W.

(** The record is in the knowledge base, and its score is above 0. *)
Definition relevant svc (r : mem_rank_t) (kb_id : option string) (rec : mem_record_entry_t) : Prop :=
    match kb_id with Some kb => mem_rec_in_kb rec kb = true | None => True end
    /\ dle (rec_score log tfidf_weight svc r rec) d_zero = false.

#[export] Instance relevant_dec svc r kb_id rec : Decision (relevant svc r kb_id rec).
Proof. unfold relevant. destruct kb_id; apply _. Defined.

Definition hit_of svc (r : mem_rank_t) (rec : mem_record_entry_t) : mem_search_hit_t :=
    mkHit (Some (record_id rec)) (rec_score log tfidf_weight svc r rec).

Lemma collect_spec svc r kb_id : forall recs (w : W),
  (mem_hits_collect log tfidf_weight svc r kb_id recs w).1 = hit_of svc r <$> filter (relevant svc r kb_id) recs.
Proof.
  induction recs as [|rec recs IH]; intros w; [done|]. cbn [mem_hits_collect].
  destruct (match kb_id with Some kb => negb (mem_rec_in_kb rec kb) | None => false end) eqn:Hkb.
  { rewrite filter_cons_False; [apply IH|]. intros [Hin _]. destruct kb_id as [kb|]; [|done]. by rewrite Hin in Hkb. }
  unfold mem_hit_take. destruct (dle (rec_score log tfidf_weight svc r rec) d_zero) eqn:Hs.
  - rewrite filter_cons_False; [|intros [_ ?]; congruence]. specialize (IH w). by destruct (mem_hits_collect _ _ _ _ _ recs w).
  - rewrite filter_cons_True, fmap_cons.
    + unfold AIRY_STRDUP. specialize (Hmem w). destruct (os_alloc w) as [[] w1]; [|done]. specialize (IH w1).
      destruct (mem_hits_collect _ _ _ _ _ recs w1) as [hs w2]. cbn [fst] in IH |- *. by rewrite IH.
    + split; [|done]. destruct kb_id as [kb|]; [|done]. by destruct (mem_rec_in_kb rec kb).
Qed.

(** C31.  A search returns the best records.  When no allocation fails and no
    score is NaN: the hits are records of the knowledge base (all records, when
    none is named) with a score above 0, each at most once, in order of
    descending score; as many as the limit allows (10 when it is 0), and no
    record that is left out has a higher score than one that is returned.  (With
    a NaN score the order may break, see [nan_breaks_order].) *)
Theorem search_top svc kb_id q emb limit (w : W) :
  let r := (mem_rank_open q emb w).1 in
  (forall rec, rec ∈ records svc -> is_nan (rec_score log tfidf_weight svc r rec) = false) ->
  let '(rc, hits, _) := mem_service_search_filtered log tfidf_weight svc kb_id q emb limit w in
  rc = AIRY_SUCCESS /\
  exists cut, hits ++ cut ≡ₚ hit_of svc r <$> filter (relevant svc r kb_id) (records svc)
    /\ StronglySorted (fun a b => dlt (score a) (score b) = false) hits
    /\ length hits = Nat.min (if (limit =? 0)%nat then 10 else limit) (length (filter (relevant svc r kb_id) (records svc)))
    /\ forall a b, a ∈ hits -> b ∈ cut -> dlt (score a) (score b) = false.
Proof.
  cbv zeta. unfold mem_service_search_filtered. destruct (mem_rank_open q emb w) as [r w1]. cbn [fst]. intros Hnan.
  assert (Hok : exists w2, (if (0 <? length (records svc))%nat then os_alloc w1 else (true, w1)) = (true, w2)).
  { destruct (0 <? _)%nat; [|by eexists]. specialize (Hmem w1). destruct (os_alloc w1) as [[] w2]; [by eexists|done]. }
  destruct Hok as [w2 ->]. cbn [negb]. pose proof (collect_spec svc r kb_id (records svc) w2) as Hc.
  destruct (mem_hits_collect _ _ _ _ _ (records svc) w2) as [hits w3]. cbn [fst] in Hc. split; [done|].
  destruct (trim_spec hits (if (limit =? 0)%nat then 10 else limit)) as (cut & Hp & Hs & Hl & Hr).
  { rewrite Hc. unfold numbers. apply Forall_fmap, Forall_forall. intros rec Hin. apply list_elem_of_filter in Hin as [_ Hin]. by apply Hnan. }
  exists cut. rewrite Hl. rewrite Hc in *. rewrite length_fmap. done.
Qed.
End found.

(** ** Examples *)

#[local] Existing Instances count_mem count_file count_rec map_index no_docs.

Definition demo_store : mem_service_t nat := (run_cmds demo store0 0).1.2.

(** A weight of 0: only the substring counts. *)
Lemma search_top_witness :
  let r := (mem_rank_open "dog" None 0%nat).1 in
  let '(rc, hits, _) := mem_service_search_filtered (fun x => x) d_zero demo_store None "dog" None 5 0%nat in
  rc = AIRY_SUCCESS /\
  exists cut, hits ++ cut ≡ₚ hit_of (fun x => x) d_zero demo_store r <$> filter (relevant (fun x => x) d_zero demo_store r None) (records demo_store)
    /\ StronglySorted (fun a b => dlt (score a) (score b) = false) hits
    /\ length hits = Nat.min 5 (length (filter (relevant (fun x => x) d_zero demo_store r None) (records demo_store)))
    /\ forall a b, a ∈ hits -> b ∈ cut -> dlt (score a) (score b) = false.
Proof.
  apply (search_top (W := nat) (H := count_mem) (fun x => x) d_zero (fun w => eq_refl) demo_store None "dog" None 5 0%nat).
  assert (Hb : forallb (fun rec => negb (is_nan (rec_score (fun x => x) d_zero demo_store (mem_rank_open (H := count_mem) "dog" None 0%nat).1 rec))) (records demo_store) = true)
    by (vm_compute; reflexivity).
  intros rec Hin. apply list_elem_of_In in Hin. rewrite forallb_forall in Hb. apply negb_true_iff, Hb, Hin.
Defined.

(** A cosine that is a number lies between 0 and 1 before it is rounded. *)
Lemma clamp01_range x : is_nan x = false -> dlt (clamp01 x) d_zero = false /\ dlt d_one (clamp01 x) = false.
Proof.
  intros Hx. unfold clamp01. destruct (dlt x d_zero) eqn:E0.
  - split; [vm_compute; done|]. destruct (dlt d_one d_zero) eqn:E; [by vm_compute in E|]. done.
  - destruct (dlt d_one x) eqn:E1; [split; vm_compute; done|done].
Qed.

(** A score that is no number is a hit, and the sort leaves a better hit behind a
    worse one. *)
Lemma nan_breaks_order :
  score <$> mem_hits_trim [mkHit None (f_of_Z 1); mkHit None S754_nan; mkHit None (f_of_Z 2)] 10 = [f_of_Z 1; S754_nan; f_of_Z 2].
Proof. vm_compute. reflexivity. Qed.
