(* ===== verification/Embed.v ===== *)
(** * Embed

    The client of the optional embedding backend (mem_d/src/engine/emb_client.c):
    configuration from the environment, request, answer, and the cooldown after a
    failure.  libcurl and cJSON are parameters; the environment variables are
    arguments. *)

From S2P Require Import Prelude Doubles MemEnv Cjson MemSearch.

Definition MEM_EMB_RETRY_AFTER_MS : Z := 60000.
Definition MEM_EMB_MODEL : string := "text-embedding-3-small".

(** What a transfer ends with: no handle, an error of libcurl, or a response. *)
Inductive emb_answer := EMB_NO_HANDLE | EMB_CURL_ERROR | EMB_HTTP (code : Z) (body : option string).

Class EmbOS (W : Type) := {
  emb_time_ms : W -> Z * W;                                        (** [airy_time_ms] *)
  emb_post : string -> option string -> string -> W -> emb_answer * W   (** url, key, body *)
}.

Record mem_emb_client_t := mkEmb {
  e_url : option string;
  e_key : option string;
  e_enabled : bool;
  healthy : bool;
  last_fail_time : Z;
  retry_after_ms : Z
}.

Definition emb_off (retry : Z) : mem_emb_client_t := mkEmb None None false false 0 retry.

Section client.
  Context {W : Type} `{MemOS W} `{EmbOS W} `{CJ : Cjson}.

(** The variables AIRY_MEM_EMBEDDING_URL, AIRY_MEM_EMBEDDING_KEY and
    AIRY_MEM_EMB_RETRY_SECONDS. *)
Definition mem_emb_client_init (url key rs : option string) (w : W) : airy_rc * mem_emb_client_t * W :=
    match url with
    | None | Some EmptyString => (AIRY_SUCCESS, emb_off MEM_EMB_RETRY_AFTER_MS, w)
    | Some url =>
        let key := match key with Some EmptyString => None | k => k end in
        let '(u, w) := AIRY_STRDUP url w in
        let '(k, w) := strdup_opt key w in
        match u, k, key with
        | None, _, _ | _, None, Some _ => (AIRY_ERR_OUT_OF_MEMORY, emb_off 0, w)
        | Some u, k, _ =>
            let retry := match rs with
                         | None | Some EmptyString => MEM_EMB_RETRY_AFTER_MS
                         | Some rs => let '(v, _) := strtol rs in if 0 <? v then u64 (v * 1000) else MEM_EMB_RETRY_AFTER_MS
                         end in
            (AIRY_SUCCESS, mkEmb (Some u) k true true 0 retry, w)
        end
    end.

Definition mem_emb_client_destroy (c : mem_emb_client_t) : mem_emb_client_t :=
    mkEmb None None false (healthy c) (last_fail_time c) (retry_after_ms c).

Definition mem_emb_should_try (c : mem_emb_client_t) (w : W) : bool * W :=
    if negb (e_enabled c) then (false, w)
    else if healthy c then (true, w)
    else let '(now, w) := emb_time_ms w in
         if now <? last_fail_time c then (false, w) else (retry_after_ms c <=? now - last_fail_time c, w).

Definition mem_emb_mark_fail (c : mem_emb_client_t) (w : W) : mem_emb_client_t * W :=
    let '(now, w) := emb_time_ms w in (mkEmb (e_url c) (e_key c) (e_enabled c) false now (retry_after_ms c), w).

Definition emb_req_build (c : mem_emb_client_t) (text : string) (w : W) : option (string * string) * W :=
    let '(ok1, w) := os_alloc w in
    if negb ok1 then (None, w)
    else
      let '(ok2, w) := os_alloc w in
      if negb ok2 then (None, w)
      else (Some (cJSON_PrintUnformatted (JObj [("model", JStr MEM_EMB_MODEL); ("input", JArr [JStr text])]%string),
                  default "" (e_url c) +:+ "/embeddings"), w).

Definition emb_vec_parse (payload : string) (w : W) : (airy_rc + list double) * W :=
    match cJSON_Parse payload with
    | None => (inl AIRY_ERR_LLM_PARSE_RESP, w)
    | Some r =>
        let first := cj_items (cJSON_GetObjectItem r "data") ≫= head in
        match cj_items (cj_get first "embedding") with
        | None => (inl AIRY_ERR_LLM_PARSE_RESP, w)
        | Some [] => (inl AIRY_ERR_LLM_EMPTY_RESP, w)
        | Some l =>
            let '(ok, w) := os_alloc w in
            if ok : bool then (inr ((fun it => default d_zero (f_of_d <$> cJSON_num it)) <$> l), w) else (inl AIRY_ERR_OUT_OF_MEMORY, w)
        end
    end.

Definition mem_emb_embed (c : mem_emb_client_t) (text : string) (w : W) : (airy_rc + list double) * mem_emb_client_t * W :=
    if negb (e_enabled c) then (inl AIRY_ERR_INVALID_PARAM, c, w)
    else
      let '(req, w) := emb_req_build c text w in
      match req with
      | None => (inl AIRY_ERR_OUT_OF_MEMORY, c, w)
      | Some (body, url) =>
          let '(a, w) := emb_post url (e_key c) body w in
          match a with
          | EMB_NO_HANDLE => let '(c, w) := mem_emb_mark_fail c w in (inl AIRY_ERR_SYS_RESOURCE, c, w)
          | EMB_CURL_ERROR => let '(c, w) := mem_emb_mark_fail c w in (inl AIRY_ERR_LLM_PROVIDER_FAIL, c, w)
          | EMB_HTTP code resp =>
              match (if code =? 200 then resp else None) with
              | None => let '(c, w) := mem_emb_mark_fail c w in (inl AIRY_ERR_LLM_PROVIDER_FAIL, c, w)
              | Some resp =>
                  let '(v, w) := emb_vec_parse resp w in
                  match v with
                  | inl rc => let '(c, w) := mem_emb_mark_fail c w in (inl rc, c, w)
                  | inr v => (inr v, mkEmb (e_url c) (e_key c) (e_enabled c) true (last_fail_time c) (retry_after_ms c), w)
                  end
              end
          end
      end.
End client.

(** ** The cooldown *)

Section cooldown.
  Context {W : Type} `{MemOS W} `{EmbOS W} `{CJ : Cjson}.

(** An attempt is made when the client is healthy, or when the cooldown is over. *)
Lemma should_try_exact c (w : W) :
  (mem_emb_should_try c w).1 = true <->
  e_enabled c = true /\ (healthy c = true \/ last_fail_time c <= (emb_time_ms w).1 /\ last_fail_time c + retry_after_ms c <= (emb_time_ms w).1).
Proof.
  unfold mem_emb_should_try. destruct (e_enabled c); cbn [negb]; [|naive_solver]. destruct (healthy c); [naive_solver|].
  destruct (emb_time_ms w) as [now w']. cbn [fst]. destruct (Z.ltb_spec now (last_fail_time c)); cbn [fst].
  - split; [done|]. intros [_ [?|[? _]]]; [done|lia].
  - rewrite Z.leb_le. split; [intros; split; [done|right; lia]|]. intros [_ [?|?]]; [done|lia].
Qed.

(** An answer is a vector that is not empty exactly when the client is healthy
    after an attempt that reached the backend; otherwise the failure is noted. *)
Lemma embed_outcome c text (w : W) :
  e_enabled c = true ->
  let '(v, c', _) := mem_emb_embed c text w in
  e_enabled c' = true /\ retry_after_ms c' = retry_after_ms c /\
  match v with
  | inr v => healthy c' = true /\ v <> []
  | inl rc => c' = c \/ (healthy c' = false /\ exists w1, last_fail_time c' = (emb_time_ms w1).1)
  end.
Proof.
  intros He. unfold mem_emb_embed. rewrite He. cbn [negb]. destruct (emb_req_build c text w) as [[[body url]|] w1]; [|by split_and!; [..|left]].
  assert (Hfail : forall rc (w2 : W), let '(v, c', _) := (let '(c1, w3) := mem_emb_mark_fail c w2 in (inl rc : airy_rc + list double, c1, w3)) in
    e_enabled c' = true /\ retry_after_ms c' = retry_after_ms c /\
    match v with inr v => healthy c' = true /\ v <> [] | inl rc => c' = c \/ (healthy c' = false /\ exists w1, last_fail_time c' = (emb_time_ms w1).1) end).
  { intros rc w2. unfold mem_emb_mark_fail. destruct (emb_time_ms w2) as [t w3] eqn:Ht. split_and!; [done|done|]. right. split; [done|].
    exists w2. by rewrite Ht. }
  destruct (emb_post url (e_key c) body w1) as [[| |code resp] w2]; [apply Hfail|apply Hfail|].
  destruct (if code =? 200 then resp else None) as [resp'|]; [|apply Hfail]. destruct (emb_vec_parse resp' w2) as [[rc|v] w3] eqn:Hp; [apply Hfail|].
  split_and!; [done|done|done|]. unfold emb_vec_parse in Hp. destruct (cJSON_Parse resp'); [|done].
  destruct (cj_items _) as [[|x l]|]; [done| |done]. destruct (os_alloc w2) as [[] w4]; [|done]. by simplify_eq.
Qed.
End cooldown.
