(* ===== verification/WebSocket.v ===== *)
(** * WebSocket

    The WebSocket part of notify_d: the handshake with its own SHA-1 and Base64
    (notify_d/src/net/net.c) and the frames of a text message
    (notify_d/src/service/notify_service.c).  Words are 32-bit [Z], bytes 8-bit
    [Z].  The references are the standard's SHA-1 (FIPS 180-4), a Base64 decoder
    (RFC 4648) and a frame reader (RFC 6455).

    The socket layer belongs to the commons library and is a class of operations
    on a world. *)

From S2P Require Import Prelude MemEnv Sha256.

Class SockOS (W : Type) := {
  sock_mem :: MemOS W;
  airy_sock_send : Z -> string -> W -> Z * W;
  airy_sock_close : Z -> W -> W
}.

(** The invalid descriptor of the POSIX platform layer. *)
Definition AIRY_INVALID_SOCKET : Z := -1.

(** ** SHA-1 *)

Definition ROTL (n x : Z) : Z := Z.lor (u32 (Z.shiftl x n)) (Z.shiftr x (32 - n)).

(** One more schedule word, at index [i = length w >= 16]. *)
Definition w_next (w : list Z) : list Z :=
  let i := length w in
  let x := Z.lxor (Z.lxor (Z.lxor (at_ w (i - 3)) (at_ w (i - 8))) (at_ w (i - 14))) (at_ w (i - 16)) in
  w ++ [Z.lor (u32 (Z.shiftl x 1)) (Z.shiftr x 31)].

Definition w_schedule (block : list Z) : list Z := Nat.iter 64 w_next (be_words 16 block).

(** [f] and [k] of round [i]. *)
Definition round_fk (i : nat) (b c d : Z) : Z * Z :=
  if (i <? 20)%nat then (Z.lor (Z.land b c) (Z.land (not32 b) d), 0x5A827999)
  else if (i <? 40)%nat then (Z.lxor (Z.lxor b c) d, 0x6ED9EBA1)
  else if (i <? 60)%nat then (Z.lor (Z.lor (Z.land b c) (Z.land b d)) (Z.land c d), 0x8F1BBCDC)
  else (Z.lxor (Z.lxor b c) d, 0xCA62C1D6).

(** The working variables [a] to [e]. *)
Definition sha1_round (w v : list Z) (i : nat) : list Z :=
  match v with
  | [a; b; c; d; e] =>
      let '(f, k) := round_fk i b c d in
      let temp := u32 (Z.lor (u32 (Z.shiftl a 5)) (Z.shiftr a 27) + f + e + k + at_ w i) in
      [temp; a; Z.lor (u32 (Z.shiftl b 30)) (Z.shiftr b 2); c; d]
  | _ => v
  end.

Definition sha1_block (h block : list Z) : list Z :=
  let w := w_schedule block in
  zip_with (fun s x => u32 (s + x)) h (foldl (sha1_round w) h (seq 0 80)).

Definition sha1_iv : list Z := [0x67452301; 0xEFCDAB89; 0x98BADCFE; 0x10325476; 0xC3D2E1F0].

Definition padded_len (msg_len : nat) : nat := ((msg_len + 8) / 64 + 1) * 64.

(** The zeroed buffer with the message, the byte 0x80 and the bit length. *)
Definition padded (msg : list Z) : list Z :=
  msg ++ 0x80 :: replicate (padded_len (length msg) - 8 - length msg - 1) 0 ++ be64 (u64 (Z.of_nat (length msg) * 8)).

(** [for (off = 0; off < padded_len; off += 64)] *)
Fixpoint block_loop (fuel off : nat) (p h : list Z) : list Z :=
  match fuel with
  | O => h
  | S f => if (off <? length p)%nat then block_loop f (off + 64) p (sha1_block h (take 64 (drop off p))) else h
  end.

Definition sha1_out (h : list Z) : list Z :=
  map (fun i => u8 (Z.shiftr (at_ h (Nat.div i 4)) (24 - (Z.of_nat i mod 4) * 8))) (seq 0 20).

Definition sha1 (msg : list Z) : list Z :=
  let p := padded msg in sha1_out (block_loop (length p) 0 p sha1_iv).

(** ** Base64 of the digest *)

Definition b64 : string := "ABCDEFGHIJKLMNOPQRSTUVWXYZabcdefghijklmnopqrstuvwxyz0123456789+/".

Definition b64_at (n : Z) : ascii := default "000"%char (String.get (Z.to_nat n) b64).

Definition b64_group (x y z : Z) : string :=
  let val := Z.lor (Z.lor (Z.shiftl x 16) (Z.shiftl y 8)) z in
  String (b64_at (Z.land (Z.shiftr val 18) 0x3F))
    (String (b64_at (Z.land (Z.shiftr val 12) 0x3F))
       (String (b64_at (Z.land (Z.shiftr val 6) 0x3F)) (String (b64_at (Z.land val 0x3F)) EmptyString))).

Definition b64_last (x y : Z) : string :=
  let val := Z.lor (Z.shiftl x 16) (Z.shiftl y 8) in
  String (b64_at (Z.land (Z.shiftr val 18) 0x3F))
    (String (b64_at (Z.land (Z.shiftr val 12) 0x3F))
       (String (b64_at (Z.land (Z.shiftr val 6) 0x3F)) (String "=" EmptyString))).

(** [for (i = 0; i < 18 && off + 4 <= out_size; i += 3)]; [off] is the length
    of the text written so far. *)
Fixpoint b64_loop (fuel i : nat) (d : list Z) (out_size : nat) (out : string) : string :=
  match fuel with
  | O => out
  | S f =>
      if ((i <? 18) && (String.length out + 4 <=? out_size))%nat
      then b64_loop f (i + 3) d out_size (out +:+ b64_group (at_ d i) (at_ d (i + 1)) (at_ d (i + 2)))
      else out
  end.

Definition b64_digest (d : list Z) (out_size : nat) : string :=
  let out := b64_loop 6 0 d out_size EmptyString in
  if (String.length out + 4 <=? out_size)%nat then out +:+ b64_last (at_ d 18) (at_ d 19) else out.

Definition NOTIFY_D_WS_GUID : string := "258EAFA5-E914-47DA-95CA-C5AB0DC85B11".

(** The string [combined] of [notify_ws_accept_key]. *)
Definition combined (client_key : string) : string := snprintf_s 256 (client_key +:+ NOTIFY_D_WS_GUID).

Section handshake.
  Context {W : Type} `{SockOS W}.

Definition notify_ws_accept_key (client_key : string) (out_size : nat) (w : W) : airy_rc * string * W :=
    if (out_size <? 64)%nat then (AIRY_ERR_INVALID_PARAM, EmptyString, w)
    else
      let '(ok, w) := os_alloc w in
      if negb ok then (AIRY_ERR_OUT_OF_MEMORY, EmptyString, w)
      else (AIRY_SUCCESS, b64_digest (sha1 (bytes_of (combined client_key))) out_size, w).

Definition CRLF : string := String "013" (String "010" EmptyString).

(** The text between the end of [tag] and the next line end. *)
Definition header_value (req tag : string) : option string :=
    match strstr tag req with
    | None => None
    | Some h =>
        let s := String.substring (String.length tag) (String.length h - String.length tag) h in
        match strstr CRLF s with
        | None => None
        | Some e => Some (String.substring 0 (String.length s - String.length e) s)
        end
    end.

Definition switching (accept_key : string) : string :=
    "HTTP/1.1 101 Switching Protocols" +:+ CRLF +:+ "Upgrade: websocket" +:+ CRLF +:+ "Connection: Upgrade" +:+ CRLF +:+
    "Sec-WebSocket-Accept: " +:+ accept_key +:+ CRLF +:+ CRLF.

(** [AIRY_SUCCESS] where the client becomes a WebSocket client with the
    handshake done. *)
Definition notify_d_ws_upgrade (fd : Z) (request : string) (w : W) : airy_rc * W :=
    match header_value request "Sec-WebSocket-Key: " with
    | None => (AIRY_ERR_UNKNOWN, w)
    | Some client_key =>
        if (256 <=? String.length client_key)%nat then (AIRY_ERR_UNKNOWN, w)
        else
          let '(rc, accept_key, w) := notify_ws_accept_key client_key 64 w in
          if negb (bool_decide (rc = AIRY_SUCCESS)) then (AIRY_ERR_UNKNOWN, w)
          else
            let '(n, w) := airy_sock_send fd (switching accept_key) w in
            if n <=? 0 then (AIRY_ERR_UNKNOWN, w) else (AIRY_SUCCESS, w)
    end.

(** ** Frames *)

Definition string_of_bytes (l : list Z) : string :=
    foldr (fun b s => String (ascii_of_nat (Z.to_nat b)) s) EmptyString l.

(** The first two, four or ten bytes of [frame]. *)
Definition ws_header (payload_len : Z) : list Z :=
    if payload_len <=? 125 then [0x81; u8 payload_len]
    else if payload_len <=? 65535 then [0x81; 126; u8 (Z.shiftr payload_len 8); u8 (Z.land payload_len 0xFF)]
    else [0x81; 127] ++ map (fun i => u8 (Z.shiftr payload_len (56 - 8 * i))) [0; 1; 2; 3; 4; 5; 6; 7].

Definition notify_d_send_ws_frame (fd : Z) (payload : string) (w : W) : airy_rc * W :=
    if fd =? AIRY_INVALID_SOCKET then (AIRY_ERR_INVALID_PARAM, w)
    else
      let '(n, w) := airy_sock_send fd (string_of_bytes (ws_header (strlen payload))) w in
      if n <=? 0 then (AIRY_ERR_UNKNOWN, w)
      else
        let '(n, w) := airy_sock_send fd payload w in
        if n <=? 0 then (AIRY_ERR_UNKNOWN, w) else (AIRY_SUCCESS, w).
End handshake.

(** The example of RFC 6455, section 1.3. *)
Example rfc_accept_key :
  b64_digest (sha1 (bytes_of (combined "dGhlIHNhbXBsZSBub25jZQ=="))) 64 = "s3pPLMBiTxaQ9kYGzzhZRbK+xOo="%string.
Proof. vm_compute. reflexivity. Qed.

(** ** Arithmetic of shifts *)

Lemma small_bit x k n : 0 <= x < 2 ^ k -> 0 <= k <= n -> Z.testbit x n = false.
Proof.
  intros Hx Hn. apply Z.testbit_false; [lia|]. rewrite Z.div_small; [done|].
  split; [lia|]. apply Z.lt_le_trans with (2 ^ k); [lia|]. apply Z.pow_le_mono_r; lia.
Qed.

Lemma lor_shiftl hi lo k : 0 <= k -> 0 <= lo < 2 ^ k -> Z.lor (Z.shiftl hi k) lo = hi * 2 ^ k + lo.
Proof.
  intros Hk Hl. rewrite <- Z.shiftl_mul_pow2 by done. symmetry.
  assert (D : Z.land (Z.shiftl hi k) lo = 0).
  { apply Z.bits_inj'. intros n Hn. rewrite Z.land_spec, Z.bits_0, Z.shiftl_spec by done.
    destruct (Z.ltb_spec n k); [by rewrite Z.testbit_neg_r by lia|].
    rewrite (small_bit lo k n) by lia. apply andb_false_r. }
  rewrite <- Z.lxor_lor by done. by apply Z.add_nocarry_lxor.
Qed.

Lemma land_63 x : Z.land x 0x3F = x mod 64.
Proof. exact (Z.land_ones x 6 ltac:(lia)). Qed.

Lemma lor_u32 a b : is_u32 a -> is_u32 b -> is_u32 (Z.lor a b).
Proof.
  intros Ha Hb. assert (0 <= Z.lor a b) by (apply Z.lor_nonneg; ulia). split; [done|].
  destruct (decide (Z.lor a b = 0)) as [->|N]; [ulia|].
  assert (Z.log2 (Z.lor a b) < 32).
  { rewrite Z.log2_lor by ulia. apply Z.max_lub_lt; destruct (decide (a = 0)) as [->|]; destruct (decide (b = 0)) as [->|];
      try (cbn; lia); apply Z.log2_lt_pow2; ulia. }
  assert (Z.lor a b < 2 ^ 32) by (apply Z.log2_lt_pow2; lia). ulia.
Qed.

Lemma rotl_u32 n x : is_u32 x -> 0 <= n <= 32 -> is_u32 (ROTL n x).
Proof.
  intros Hx Hn. unfold ROTL. apply lor_u32; [apply u32_range|]. rewrite Z.shiftr_div_pow2 by lia.
  assert (0 < 2 ^ (32 - n)) by (apply Z.pow_pos_nonneg; lia).
  split; [apply Z.div_pos; ulia|]. apply Z.le_trans with x; [|ulia]. apply Z.div_le_upper_bound; [done|]. ulia; nia.
Qed.

(** ** The standard's SHA-1 (FIPS 180-4, sections 4.1.1, 4.2.1, 6.1.2) *)

Definition Ch (x y z : Z) : Z := Z.lxor (Z.land x y) (Z.land (not32 x) z).
Definition Parity (x y z : Z) : Z := Z.lxor (Z.lxor x y) z.
Definition Maj (x y z : Z) : Z := Z.lxor (Z.lxor (Z.land x y) (Z.land x z)) (Z.land y z).

Definition f_std (t : nat) : Z -> Z -> Z -> Z :=
  if (t <=? 19)%nat then Ch else if (t <=? 39)%nat then Parity else if (t <=? 59)%nat then Maj else Parity.

Definition K_std (t : nat) : Z :=
  if (t <=? 19)%nat then 0x5a827999 else if (t <=? 39)%nat then 0x6ed9eba1
  else if (t <=? 59)%nat then 0x8f1bbcdc else 0xca62c1d6.

Record words := mkWords { wa : Z; wb : Z; wc : Z; wd : Z; we : Z }.

(** [W_t]: a word of the block, then the rotation of four earlier words. *)
Fixpoint W_std (fuel : nat) (block : list Z) (t : nat) : Z :=
  match fuel with
  | O => 0
  | S f =>
      if (t <? 16)%nat then foldl (fun x b => 256 * x + b) 0 (take 4 (drop (4 * t) block))
      else ROTL 1 (Z.lxor (Z.lxor (Z.lxor (W_std f block (t - 3)) (W_std f block (t - 8))) (W_std f block (t - 14)))
                     (W_std f block (t - 16)))
  end.

Definition round_std (block : list Z) (v : words) (t : nat) : words :=
  mkWords (u32 (ROTL 5 (wa v) + f_std t (wb v) (wc v) (wd v) + we v + K_std t + W_std 80 block t))
    (wa v) (ROTL 30 (wb v)) (wc v) (wd v).

Definition block_std (h : words) (block : list Z) : words :=
  let v := foldl (round_std block) h (seq 0 80) in
  mkWords (u32 (wa h + wa v)) (u32 (wb h + wb v)) (u32 (wc h + wc v)) (u32 (wd h + wd v)) (u32 (we h + we v)).

(** A word as four bytes, most significant first. *)
Definition be32 (x : Z) : list Z := [x / 2 ^ 24 mod 256; x / 2 ^ 16 mod 256; x / 2 ^ 8 mod 256; x mod 256].

Definition sha1_std (msg : list Z) : list Z :=
  let p := sha_pad msg in
  let h := foldl block_std (mkWords 0x67452301 0xefcdab89 0x98badcfe 0x10325476 0xc3d2e1f0) (chunks (length p) p) in
  be32 (wa h) ++ be32 (wb h) ++ be32 (wc h) ++ be32 (wd h) ++ be32 (we h).

Lemma not32_bit x n : is_u32 x -> 0 <= n -> Z.testbit (not32 x) n = (n <? 32) && negb (Z.testbit x n).
Proof.
  intros Hx Hn. unfold not32. change 0xffffffff with (Z.ones 32). rewrite Z.lxor_spec, (Z.testbit_ones_nonneg 32 n) by lia.
  destruct (Z.ltb_spec n 32); [apply xorb_true_r|]. rewrite (small_bit x 32 n) by ulia. done.
Qed.

(** The disjunctions of the code are the exclusive ones of the standard. *)
Lemma round_fk_std i b c d : is_u32 b -> round_fk i b c d = (f_std i b c d, K_std i).
Proof.
  intros Hb. unfold round_fk, f_std, K_std.
  change (i <=? 19)%nat with (i <? 20)%nat. change (i <=? 39)%nat with (i <? 40)%nat. change (i <=? 59)%nat with (i <? 60)%nat.
  repeat case_match; [| done | | done]; f_equal; apply Z.bits_inj'; intros n Hn; unfold Ch, Maj;
    rewrite ?Z.lor_spec, ?Z.lxor_spec, ?Z.land_spec, ?not32_bit by done;
    destruct (Z.testbit b n), (Z.testbit c n), (Z.testbit d n), (n <? 32); done.
Qed.

(** The five words as the list the code's variables are. *)
Definition wlist (v : words) : list Z := [wa v; wb v; wc v; wd v; we v].

Definition in_range (v : words) : Prop :=
  is_u32 (wa v) /\ is_u32 (wb v) /\ is_u32 (wc v) /\ is_u32 (wd v) /\ is_u32 (we v).

(** ** Schedule *)

Lemma W_std_fuel block f f' t : (t < f)%nat -> (t < f')%nat -> W_std f block t = W_std f' block t.
Proof.
  revert f' t. induction f as [|f IH]; intros [|f'] t H H'; [lia..|]. cbn [W_std].
  destruct (Nat.ltb_spec t 16); [done|]. do 2 f_equal; [f_equal; [f_equal|]|]; apply IH; lia.
Qed.

Lemma W_std_first block f t : (t < 16)%nat -> (t < f)%nat ->
  W_std f block t = foldl (fun x b => 256 * x + b) 0 (take 4 (drop (4 * t) block)).
Proof. intros H16 Ht. destruct f as [|f]; [lia|]. cbn [W_std]. destruct (Nat.ltb_spec t 16); [done|lia]. Qed.

Lemma W_std_next block f t : (16 <= t < f)%nat ->
  W_std f block t = ROTL 1 (Z.lxor (Z.lxor (Z.lxor (W_std f block (t - 3)) (W_std f block (t - 8)))
                              (W_std f block (t - 14))) (W_std f block (t - 16))).
Proof.
  intros Ht. destruct f as [|f]; [lia|]. rewrite (W_std_fuel block (S f) (S (S f)) t) by lia.
  cbn [W_std]. fold (W_std (S f)). destruct (Nat.ltb_spec t 16); [lia|done].
Qed.

#[local] Opaque W_std.

Lemma be_word a b c d : is_u8 a -> is_u8 b -> is_u8 c -> is_u8 d ->
  Z.lor (Z.lor (Z.lor (u32 (Z.shiftl a 24)) (Z.shiftl b 16)) (Z.shiftl c 8)) d = 256 * (256 * (256 * a + b) + c) + d.
Proof.
  unfold is_u8, UINT8_MAX. intros Ha Hb Hc Hd. rewrite u32_id by (rewrite Z.shiftl_mul_pow2; ulia).
  replace (Z.shiftl a 24) with (Z.shiftl (Z.shiftl a 8) 16) by (by rewrite Z.shiftl_shiftl by lia).
  rewrite <- Z.shiftl_lor, (lor_shiftl a b 8) by lia.
  replace (Z.shiftl (a * 2 ^ 8 + b) 16) with (Z.shiftl (Z.shiftl (a * 2 ^ 8 + b) 8) 8) by (by rewrite Z.shiftl_shiftl by lia).
  rewrite <- Z.shiftl_lor, (lor_shiftl _ c 8), (lor_shiftl _ d 8) by lia. lia.
Qed.

Lemma be_words_at n t : forall d, (t < n)%nat -> (4 * n <= length d)%nat -> Forall is_u8 d ->
  at_ (be_words n d) t = foldl (fun x b => 256 * x + b) 0 (take 4 (drop (4 * t) d)).
Proof.
  revert t. induction n as [|n IH]; intros t d Ht Hl HF; [lia|].
  destruct d as [|a [|b [|c [|e d]]]]; cbn [length] in Hl; try lia.
  inversion_clear HF as [|?? Ha HF1]. inversion_clear HF1 as [|?? Hb HF2]. inversion_clear HF2 as [|?? Hc HF3].
  inversion_clear HF3 as [|?? He HF4].
  destruct t as [|t].
  - cbn [be_words at_ nth take drop foldl Nat.mul]. unfold at_. cbn [nth]. rewrite be_word by done. cbn -[Z.mul Z.add]. rewrite take_0. cbn [foldl]. lia.
  - replace (4 * S t)%nat with (4 + 4 * t)%nat by lia. cbn [be_words drop Nat.add]. unfold at_. cbn [nth].
    apply (IH t d); [lia|lia|done].
Qed.

Lemma be_words_length n d : length (be_words n d) = n.
Proof. revert d. induction n as [|n IH]; intros d; [done|]. cbn. by rewrite IH. Qed.

Lemma at_app_l l1 l2 i : (i < length l1)%nat -> at_ (l1 ++ l2) i = at_ l1 i.
Proof. intros Hi. unfold at_. by apply app_nth1. Qed.

Lemma at_last l x : at_ (l ++ [x]) (length l) = x.
Proof. unfold at_. rewrite app_nth2 by lia. by rewrite Nat.sub_diag. Qed.

Lemma schedule_std block n : is_block block -> Forall is_u8 block ->
  length (Nat.iter n w_next (be_words 16 block)) = (16 + n)%nat /\
  forall t, (t < 16 + n)%nat -> at_ (Nat.iter n w_next (be_words 16 block)) t = W_std (16 + n) block t.
Proof.
  intros Hb HF. unfold is_block in Hb. induction n as [|n [IHl IH]]; [change (Nat.iter 0 w_next (be_words 16 block)) with (be_words 16 block)|
    change (Nat.iter (S n) w_next (be_words 16 block)) with (w_next (Nat.iter n w_next (be_words 16 block)))].
  - split; [apply be_words_length|]. intros t Ht. rewrite be_words_at by (done || lia).
    by rewrite W_std_first by lia.
  - set (w := Nat.iter n w_next (be_words 16 block)) in *. unfold w_next. rewrite IHl.
    split; [rewrite length_app; cbn [length]; lia|]. intros t Ht.
    assert (IH' : forall u, (u < 16 + n)%nat -> at_ w u = W_std (16 + S n) block u).
    { intros u Hu. rewrite IH by done. apply W_std_fuel; lia. }
    clear IH. destruct (decide (t < 16 + n)%nat) as [Hl|Hl]; [rewrite at_app_l by lia; by apply IH'|].
    replace t with (length w) by lia. rewrite at_last, IHl, !IH' by lia.
    pose proof (W_std_next block (16 + S n) (16 + n) ltac:(lia)) as N. revert N.
    generalize (W_std (16 + S n) block). intros f ->. done.
Qed.

(** ** Rounds and blocks *)

Lemma round_std_range block v t : in_range v -> in_range (round_std block v t).
Proof.
  intros (Ha & Hb & Hc & Hd & He). unfold in_range, round_std. cbn [wa wb wc wd we].
  split_and!; [apply u32_range|done|apply rotl_u32; [done|lia]|done|done].
Qed.

Lemma rounds_std block ts : is_block block -> Forall is_u8 block -> Forall (fun t => (t < 80)%nat) ts ->
  forall v, in_range v ->
  foldl (sha1_round (w_schedule block)) (wlist v) ts = wlist (foldl (round_std block) v ts) /\
  in_range (foldl (round_std block) v ts).
Proof.
  intros Hb HF. induction 1 as [|t ts Ht Hts IH]; intros v Hv; [done|]. cbn [foldl].
  assert (E : sha1_round (w_schedule block) (wlist v) t = wlist (round_std block v t)).
  { unfold sha1_round, wlist, round_std. rewrite round_fk_std by apply Hv. destruct (schedule_std block 64 Hb HF) as [_ S].
    unfold w_schedule. rewrite S by lia. done. }
  rewrite E. by apply IH, round_std_range.
Qed.

Lemma block_std_eq h block : is_block block -> Forall is_u8 block -> in_range h ->
  sha1_block (wlist h) block = wlist (block_std h block) /\ in_range (block_std h block).
Proof.
  intros Hb HF Hh. unfold sha1_block.
  destruct (rounds_std block (seq 0 80) Hb HF) with (v := h) as [E _]; [|done|].
  { apply Forall_forall. intros t Ht. apply elem_of_seq in Ht. lia. }
  rewrite E. split; [done|]. unfold in_range, block_std. cbn [wa wb wc wd we]. split_and!; apply u32_range.
Qed.

Lemma block_loop_chunks fuel : forall off p h, block_loop fuel off p h = foldl sha1_block h (chunks fuel (drop off p)).
Proof.
  induction fuel as [|f IH]; intros off p h; [done|]. cbn [block_loop chunks].
  destruct (Nat.ltb_spec off (length p)) as [Hl|Hl].
  - destruct (drop off p) eqn:E; [apply (f_equal length) in E; rewrite length_drop in E; cbn in E; lia|].
    rewrite <- E. cbn [foldl]. by rewrite IH, drop_drop.
  - by rewrite drop_ge.
Qed.

Lemma padded_std msg : padded msg = sha_pad msg.
Proof.
  unfold padded, sha_pad. do 2 f_equal. rewrite be64_u64, Z.mul_comm. cbn [app]. f_equal. f_equal.
  f_equal. unfold padded_len, pad_zeros.
  set (m := length msg). pose proof (Nat.div_mod_eq (m + 8) 64) as D. pose proof (Nat.mod_upper_bound (m + 8) 64 ltac:(lia)) as B.
  set (q := ((m + 8) / 64)%nat) in *. set (r := ((m + 8) mod 64)%nat) in *.
  replace ((55 - Z.of_nat m) mod 64) with (63 - Z.of_nat r); [lia|].
  apply Z.mod_unique with (- Z.of_nat q); lia.
Qed.

Lemma be64_bytes n : Forall is_u8 (be64 n).
Proof. apply Forall_map, Forall_forall. intros i _. unfold is_u8, u8, UINT8_MAX. pose proof (Z.mod_pos_bound (Z.shiftr n (i * 8)) 256). lia. Qed.

Lemma pad_blocks msg : Forall is_u8 msg ->
  exists bs, sha_pad msg = concat bs /\ Forall is_block bs /\ Forall (Forall is_u8) bs.
Proof.
  intros HF. assert (HP : Forall is_u8 (sha_pad msg)).
  { unfold sha_pad. rewrite !Forall_app. split_and!; [done|by repeat constructor|apply Forall_replicate; done|apply be64_bytes]. }
  destruct (split_blocks (sha_pad msg)) as (bs & r & E & HB & Hr). exists bs.
  assert (r = []) as ->.
  { assert (L : length (sha_pad msg) = (64 * length bs + length r)%nat) by by rewrite E, length_app, concat_length.
    unfold sha_pad in L. rewrite !length_app, length_replicate in L. cbn in L. unfold pad_zeros in L.
    apply length_zero_iff_nil. zify. Z.div_mod_to_equations. lia. }
  rewrite app_nil_r in E. split_and!; [done|done|]. rewrite E in HP. clear E HB. induction bs as [|b bs IH]; [done|].
  cbn in HP. apply Forall_app in HP as [? ?]. constructor; [done|by apply IH].
Qed.

Lemma blocks_std bs : Forall is_block bs -> Forall (Forall is_u8) bs -> forall h, in_range h ->
  foldl sha1_block (wlist h) bs = wlist (foldl block_std h bs) /\ in_range (foldl block_std h bs).
Proof.
  induction 1 as [|b bs Hb HB IH]; intros HF h Hh; [done|]. apply Forall_cons in HF as [Hf HF]. cbn [foldl].
  destruct (block_std_eq h b Hb Hf Hh) as [-> Hr]. by apply IH.
Qed.

Lemma be32_shifts x : [u8 (Z.shiftr x 24); u8 (Z.shiftr x 16); u8 (Z.shiftr x 8); u8 (Z.shiftr x 0)] = be32 x.
Proof. unfold be32, u8. by rewrite !Z.shiftr_div_pow2, Z.div_1_r by lia. Qed.

Lemma sha1_out_std v :
  sha1_out (wlist v) = be32 (wa v) ++ be32 (wb v) ++ be32 (wc v) ++ be32 (wd v) ++ be32 (we v).
Proof. by rewrite <- !be32_shifts. Qed.

Lemma sha1_correct msg : Forall is_u8 msg -> sha1 msg = sha1_std msg.
Proof.
  intros HF. unfold sha1, sha1_std. rewrite padded_std, block_loop_chunks, drop_0.
  destruct (pad_blocks msg HF) as (bs & E & HB & HU).
  rewrite E, chunks_blocks by (done || (rewrite concat_length by done; lia)).
  change sha1_iv with (wlist (mkWords 0x67452301 0xefcdab89 0x98badcfe 0x10325476 0xc3d2e1f0)).
  destruct (blocks_std bs HB HU (mkWords 0x67452301 0xefcdab89 0x98badcfe 0x10325476 0xc3d2e1f0)) as [-> Hr];
    [unfold in_range; cbn [wa wb wc wd we]; ulia|].
  apply sha1_out_std.
Qed.

(** ** Base64 (RFC 4648, section 4) *)

Fixpoint index_in (c : ascii) (tbl : string) (i : Z) : option Z :=
  match tbl with
  | EmptyString => None
  | String a t => if Ascii.eqb a c then Some i else index_in c t (i + 1)
  end.

Definition b64_val (c : ascii) : option Z := index_in c b64 0.

Fixpoint b64_decode (s : string) : option (list Z) :=
  match s with
  | EmptyString => Some []
  | String a (String b (String c (String d r))) =>
      va ← b64_val a; vb ← b64_val b;
      if Ascii.eqb d "=" then
        match r with
        | EmptyString =>
            if Ascii.eqb c "=" then Some [va * 4 + vb / 16]
            else vc ← b64_val c; Some [va * 4 + vb / 16; vb mod 16 * 16 + vc / 4]
        | _ => None
        end
      else
        vc ← b64_val c; vd ← b64_val d; rest ← b64_decode r;
        Some (va * 4 + vb / 16 :: vb mod 16 * 16 + vc / 4 :: vc mod 4 * 64 + vd :: rest)
  | _ => None
  end.

Lemma b64_val_at n : 0 <= n < 64 -> b64_val (b64_at n) = Some n.
Proof.
  intros Hn. assert (A : forallb (fun i => bool_decide (b64_val (b64_at (Z.of_nat i)) = Some (Z.of_nat i))) (seq 0 64) = true)
    by (vm_compute; reflexivity).
  rewrite forallb_forall in A. specialize (A (Z.to_nat n)). rewrite Z2Nat.id in A by lia.
  apply bool_decide_eq_true in A; [done|]. apply in_seq. lia.
Qed.

Lemma b64_at_pad n : 0 <= n < 64 -> Ascii.eqb (b64_at n) "=" = false.
Proof.
  intros Hn. destruct (Ascii.eqb_spec (b64_at n) "=") as [E|]; [|done].
  pose proof (b64_val_at n Hn) as V. rewrite E in V. discriminate V.
Qed.

Lemma three_bytes x y z : is_u8 x -> is_u8 y -> is_u8 z ->
  Z.lor (Z.lor (Z.shiftl x 16) (Z.shiftl y 8)) z = x * 65536 + y * 256 + z.
Proof.
  unfold is_u8, UINT8_MAX. intros Hx Hy Hz.
  replace (Z.shiftl x 16) with (Z.shiftl (Z.shiftl x 8) 8) by (by rewrite Z.shiftl_shiftl by lia).
  rewrite <- Z.shiftl_lor, !lor_shiftl by lia. lia.
Qed.

Ltac sextets :=
  rewrite ?three_bytes by done; rewrite ?land_63, ?Z.shiftr_div_pow2 by lia; cbn [Z.pow Z.pow_pos Pos.iter Z.mul Pos.mul].

Lemma b64_decode_group x y z r : is_u8 x -> is_u8 y -> is_u8 z ->
  b64_decode (b64_group x y z +:+ r) = (rest ← b64_decode r; Some (x :: y :: z :: rest)).
Proof.
  intros Hx Hy Hz. unfold b64_group. sextets. rewrite !str_app_cons. change ("" +:+ r) with r. cbn [b64_decode].
  rewrite !b64_val_at by (apply Z.mod_pos_bound; lia). cbn [mbind option_bind].
  rewrite b64_at_pad by (apply Z.mod_pos_bound; lia).
  destruct (b64_decode r) as [rest|]; [|done]. cbn [mbind option_bind]. unfold is_u8, UINT8_MAX in *.
  do 2 f_equal; [|f_equal; [|f_equal]]; Z.div_mod_to_equations; lia.
Qed.

Lemma b64_decode_last x y : is_u8 x -> is_u8 y -> b64_decode (b64_last x y) = Some [x; y].
Proof.
  intros Hx Hy. unfold b64_last. cbv zeta. rewrite <- (Z.lor_0_r (Z.lor (Z.shiftl x 16) (Z.shiftl y 8))).
  rewrite (three_bytes x y 0) by (done || (unfold is_u8, UINT8_MAX; lia)). sextets. cbn [b64_decode].
  rewrite !b64_val_at by (apply Z.mod_pos_bound; lia). cbn [mbind option_bind]. change (Ascii.eqb "=" "=") with true. cbn iota.
  rewrite b64_at_pad by (apply Z.mod_pos_bound; lia). cbn [mbind option_bind]. unfold is_u8, UINT8_MAX in *.
  do 2 f_equal; [|f_equal]; Z.div_mod_to_equations; lia.
Qed.

(** Where the buffer has room, the digest is written as six groups and a last
    one. *)
Lemma b64_digest_text d n : (28 <= n)%nat -> length d = 20%nat -> Forall is_u8 d ->
  b64_decode (b64_digest d n) = Some d /\ String.length (b64_digest d n) = 28%nat.
Proof.
  intros Hn Hl HF.
  assert (E : b64_digest d n = b64_group (at_ d 0) (at_ d 1) (at_ d 2) +:+ b64_group (at_ d 3) (at_ d 4) (at_ d 5) +:+
    b64_group (at_ d 6) (at_ d 7) (at_ d 8) +:+ b64_group (at_ d 9) (at_ d 10) (at_ d 11) +:+
    b64_group (at_ d 12) (at_ d 13) (at_ d 14) +:+ b64_group (at_ d 15) (at_ d 16) (at_ d 17) +:+ b64_last (at_ d 18) (at_ d 19)).
  { do 28 (destruct n as [|n]; [lia|]). reflexivity. }
  rewrite E. split; [|reflexivity].
  do 20 (destruct d as [|? d]; [discriminate Hl|]). destruct d; [|discriminate Hl].
  rewrite !Forall_cons in HF. cbv [at_ nth].
  rewrite !b64_decode_group, b64_decode_last by tauto. reflexivity.
Qed.

Lemma bytes_of_u8 s : Forall is_u8 (bytes_of s).
Proof.
  apply Forall_map, Forall_forall. intros c _. unfold is_u8, UINT8_MAX. pose proof (nat_ascii_bounded c). lia.
Qed.

Lemma be32_bytes x : Forall is_u8 (be32 x).
Proof.
  unfold be32, is_u8, UINT8_MAX. rewrite !Forall_cons. split_and!; try apply Z.mod_pos_bound; try done;
    match goal with |- ?x mod 256 <= _ => pose proof (Z.mod_pos_bound x 256); lia end.
Qed.

Lemma sha1_std_bytes msg : length (sha1_std msg) = 20%nat /\ Forall is_u8 (sha1_std msg).
Proof. split; [done|]. unfold sha1_std. rewrite !Forall_app. split_and!; apply be32_bytes. Qed.

(** C27.  The accept key of the handshake is the one that RFC 6455 asks for.
    For a client key of at most 219 bytes the function succeeds where memory
    can be had, writes 28 characters into the buffer, and these are the Base64
    form of the standard's SHA-1 of the client key followed by the protocol's
    identifier: the home-grown padding, rounds and encoding compute the
    standard functions. *)
Theorem ws_accept_correct {W} `{SockOS W} (client_key : string) (out_size : nat) (w w' : W) :
  (String.length client_key <= 219)%nat -> (64 <= out_size)%nat -> os_alloc w = (true, w') ->
  exists out, notify_ws_accept_key client_key out_size w = (AIRY_SUCCESS, out, w') /\
    String.length out = 28%nat /\
    b64_decode out = Some (sha1_std (bytes_of (client_key +:+ NOTIFY_D_WS_GUID))).
Proof.
  intros Hk Ho Hw. eexists. unfold notify_ws_accept_key.
  destruct (Nat.ltb_spec out_size 64); [lia|]. rewrite Hw. cbn [negb]. split; [reflexivity|].
  assert (combined client_key = client_key +:+ NOTIFY_D_WS_GUID) as ->.
  { apply substring_all. rewrite str_length_app. change (String.length NOTIFY_D_WS_GUID) with 36%nat. lia. }
  rewrite sha1_correct by apply bytes_of_u8.
  destruct (sha1_std_bytes (bytes_of (client_key +:+ NOTIFY_D_WS_GUID))) as [Hl Hb].
  destruct (b64_digest_text _ out_size ltac:(lia) Hl Hb). done.
Qed.

(** The handshake takes keys of up to 255 bytes, but the joined text has room
    for 219: the rest of the identifier is cut off. *)
Lemma long_key_cut (client_key : string) :
  (219 < String.length client_key < 256)%nat -> combined client_key <> client_key +:+ NOTIFY_D_WS_GUID.
Proof.
  intros Hk E. apply (f_equal String.length) in E. unfold combined, snprintf_s in E.
  rewrite substring_size, str_length_app in E. change (String.length NOTIFY_D_WS_GUID) with 36%nat in E. lia.
Qed.

(** ** Reading frames (RFC 6455, section 5.2) *)

Fixpoint be_value (l : list Z) (acc : Z) : Z :=
  match l with [] => acc | b :: l' => be_value l' (acc * 256 + b) end.

(** The length of an unmasked text frame and what follows its header: the
    shortest of the three encodings must be used. *)
Definition ws_length (s : list Z) : option (Z * list Z) :=
  match s with
  | 0x81 :: l7 :: r =>
      if l7 <=? 125 then Some (l7, r)
      else if l7 =? 126 then
        let n := be_value (take 2 r) 0 in
        if (2 <=? length r)%nat && (125 <? n) then Some (n, drop 2 r) else None
      else if l7 =? 127 then
        let n := be_value (take 8 r) 0 in
        if (8 <=? length r)%nat && (65535 <? n) && (n <? 2 ^ 63) then Some (n, drop 8 r) else None
      else None
  | _ => None
  end.

Definition ws_read (s : list Z) : option (list Z * list Z) :=
  '(n, r) ← ws_length s;
  if Z.of_nat (length r) <? n then None else Some (take (Z.to_nat n) r, drop (Z.to_nat n) r).

(** All the messages of a stream; every frame takes at least one byte. *)
Fixpoint ws_messages (fuel : nat) (s : list Z) : option (list (list Z)) :=
  match s, fuel with
  | [], _ => Some []
  | _, O => None
  | _, S f => '(m, r) ← ws_read s; rest ← ws_messages f r; Some (m :: rest)
  end.

Definition ws_frame (payload : string) : list Z := ws_header (strlen payload) ++ bytes_of payload.

Lemma bytes_of_length s : length (bytes_of s) = String.length s.
Proof. unfold bytes_of. rewrite length_map. induction s as [|c s IH]; [done|]. cbn. by rewrite IH. Qed.

Lemma be_value_app l1 : forall l2 acc, be_value (l1 ++ l2) acc = be_value l2 (be_value l1 acc).
Proof. induction l1 as [|b l1 IH]; intros l2 acc; [done|]. apply IH. Qed.

(** The digits of [n] in base 256, most significant first. *)
Lemma be_value_digits k n : 0 <= n ->
  be_value (map (fun i => u8 (Z.shiftr n (8 * Z.of_nat i))) (rev (seq 0 k))) 0 = n mod 256 ^ Z.of_nat k.
Proof.
  intros Hn. revert n Hn. induction k as [|k IH]; intros n Hn; [by rewrite Z.mod_1_r|].
  cbn [seq rev]. rewrite map_app, be_value_app. rewrite <- seq_shift, <- map_rev, map_map.
  rewrite (map_ext (fun i => u8 (Z.shiftr n (8 * Z.of_nat (S i)))) (fun i => u8 (Z.shiftr (Z.shiftr n 8) (8 * Z.of_nat i)))).
  2: { intros i. rewrite Z.shiftr_shiftr by lia. rewrite Nat2Z.inj_succ. repeat f_equal. lia. }
  rewrite IH by by apply Z.shiftr_nonneg. cbn [map be_value]. unfold u8. change (8 * Z.of_nat 0) with 0.
  rewrite Z.shiftr_0_r, Z.shiftr_div_pow2, Nat2Z.inj_succ, Z.pow_succ_r by lia.
  rewrite Z.rem_mul_r by (try lia; apply Z.pow_pos_nonneg; lia). change (2 ^ 8) with 256. lia.
Qed.

Lemma be64_value n r : 0 <= n < 2 ^ 63 ->
  be_value (take 8 (map (fun i => u8 (Z.shiftr n (56 - 8 * i))) [0; 1; 2; 3; 4; 5; 6; 7] ++ r)) 0 = n.
Proof.
  intros Hn. change (take 8 _) with (map (fun i => u8 (Z.shiftr n (8 * Z.of_nat i))) (rev (seq 0 8))).
  rewrite be_value_digits by lia. apply Z.mod_small. lia.
Qed.

Lemma ws_length_header n r : 0 <= n < 2 ^ 63 -> ws_length (ws_header n ++ r) = Some (n, r).
Proof.
  intros Hn. unfold ws_header. destruct (Z.leb_spec n 125); [|destruct (Z.leb_spec n 65535)].
  - cbn [app ws_length]. unfold u8. rewrite Z.mod_small by lia. destruct (Z.leb_spec n 125); [done|lia].
  - cbn [app ws_length Z.leb Z.compare Pos.compare Pos.compare_cont Z.eqb Pos.eqb take be_value drop length Nat.leb].
    replace (be_value _ _) with n; [destruct (Z.ltb_spec 125 n); [done|lia]|].
    cbn [take be_value]. unfold u8. change 0xFF with (Z.ones 8). rewrite Z.shiftr_div_pow2, (Z.land_ones n 8) by lia. change (2 ^ 8) with 256. rewrite take_0. cbn [be_value]. Z.div_mod_to_equations; lia.
  - rewrite <- app_assoc. cbn [app]. unfold ws_length. cbn [Z.leb Z.compare Pos.compare Pos.compare_cont Z.eqb Pos.eqb].
    rewrite be64_value by done. destruct (Z.ltb_spec 65535 n); [|lia]. destruct (Z.ltb_spec n (2 ^ 63)); [|lia].
    done.
Qed.

Lemma ws_read_frame m r : strlen m < 2 ^ 63 -> ws_read (ws_frame m ++ r) = Some (bytes_of m, r).
Proof.
  intros Hm. unfold ws_read, ws_frame. rewrite <- app_assoc, ws_length_header by (unfold strlen in *; lia).
  cbn [mbind option_bind]. unfold strlen in *. rewrite length_app, bytes_of_length, Nat2Z.id.
  destruct (Z.ltb_spec (Z.of_nat (String.length m + length r)) (Z.of_nat (String.length m))); [lia|].
  by rewrite take_app_length', drop_app_length' by (symmetry; apply bytes_of_length).
Qed.

Lemma ws_header_two n : exists x y l, ws_header n = x :: y :: l.
Proof. unfold ws_header. repeat case_match; eauto. Qed.

(** A reader of the connection gets the messages back, one frame each, in the
    order they were written. *)
Lemma ws_stream ms fuel : (length ms <= fuel)%nat -> Forall (fun m => strlen m < 2 ^ 63) ms ->
  ws_messages fuel (concat (map ws_frame ms)) = Some (map bytes_of ms).
Proof.
  intros Hf HF. revert fuel Hf. induction HF as [|m ms Hm HF IH]; intros fuel Hf; [by destruct fuel|].
  destruct fuel as [|f]; cbn [length] in Hf; [lia|]. cbn [map concat].
  pose proof (ws_read_frame m (concat (map ws_frame ms)) Hm) as R.
  destruct (ws_frame m ++ concat (map ws_frame ms)) as [|x l] eqn:E.
  - unfold ws_frame in E. destruct (ws_header_two (strlen m)) as (?&?&?&Q). by rewrite Q in E.
  - cbn [ws_messages]. rewrite R. cbn [mbind option_bind]. rewrite IH by lia. done.
Qed.

Lemma ws_accept_correct_witness :
  exists out, notify_ws_accept_key (W := nat) (H := Build_SockOS nat tight_mem (fun _ b w => (strlen b, w)) (fun _ w => w))
                "dGhlIHNhbXBsZSBub25jZQ==" 64 1%nat = (AIRY_SUCCESS, out, 0%nat) /\
    String.length out = 28%nat /\
    b64_decode out = Some (sha1_std (bytes_of ("dGhlIHNhbXBsZSBub25jZQ==" +:+ NOTIFY_D_WS_GUID))).
Proof.
  apply (ws_accept_correct (H := Build_SockOS nat tight_mem (fun _ b w => (strlen b, w)) (fun _ w => w)));
    [cbn; lia|lia|reflexivity].
Defined.
