(* ===== verification/Notify.v ===== *)
(** * Notify

    The notification daemon: the ring of waiting events, the subscription
    registry, the broadcast to sockets, WebSocket and event-stream clients, the
    heartbeat (notify_d/src/service/notify_service.c), the registration of
    connections (notify_d/src/net/net.c) and the event loop with its stop
    (notify_d/src/svc.c).

    An event is allocated once, so a pointer to one is its number in the order
    of allocation; the table keeps [None] for a freed one.  What happens under
    the service lock is one step; the event loop broadcasts without the lock,
    client by client.  An outer [None] is undefined behaviour: an access outside
    an array, a null pointer, a freed event, or a [send] of more bytes than the
    buffer has. *)

From stdpp Require Import gmap.
From S2P Require Import Prelude Doubles MemEnv Cjson Sha256 WebSocket.

Definition NOTIFY_D_MAX_BUFFER : nat := Z.to_nat 65536.
Definition NOTIFY_D_MAX_PENDING : nat := 1024.
Definition NOTIFY_D_MAX_CLIENTS : nat := 128.
Definition NOTIFY_D_MAX_SUBSCRIPTIONS : nat := 512.
Definition NOTIFY_D_SSE_PING_INTERVAL : Z := 25.

(** ** Data *)

Inductive notify_client_type_t := NOTIFY_CLIENT_SOCKET | NOTIFY_CLIENT_WEBSOCKET | NOTIFY_CLIENT_SSE.

#[export] Instance client_type_eq : EqDecision notify_client_type_t.
Proof. solve_decision. Defined.

Record notify_client_t := mkClient {
  fd : Z;
  type : notify_client_type_t;
  c_topic : option string;
  c_client_id : option string;
  connected_at : Z;
  last_activity : Z;
  messages_sent : Z;
  c_active : bool;
  handshake_done : bool
}.

Record notify_event_t := mkEvent {
  message : option string;
  e_topic : option string;
  event_type : option string;
  timestamp : Z
}.

Record notify_subscription_t := mkSub {
  s_client_id : option string;
  s_topic : option string;
  s_active : bool
}.

(** The ring of [notify_d_service_t] and the table of events. *)
Record ring_t := mkRing {
  pending : list (option nat);
  pending_head : nat;
  pending_tail : nat;
  pending_count : nat;
  events : list (option notify_event_t)
}.

(** Its subscriptions. *)
Record subs_t := mkSubs {
  subscriptions : list notify_subscription_t;
  subscription_count : nat
}.

Record notify_d_service_t := mkSvc {
  clients : list notify_client_t;
  client_count : nat;
  ring : ring_t;
  subs : subs_t;
  notified_count : Z;
  error_count : Z;
  start_time : Z;
  last_sse_ping : Z;
  running : bool;
  event_running : bool;
  force_stop : bool;
  server_fd : Z
}.

Definition set_clients (l : list notify_client_t) (s : notify_d_service_t) : notify_d_service_t :=
  mkSvc l (client_count s) (ring s) (subs s) (notified_count s) (error_count s) (start_time s) (last_sse_ping s)
    (running s) (event_running s) (force_stop s) (server_fd s).
Definition set_count (n : nat) (s : notify_d_service_t) : notify_d_service_t :=
  mkSvc (clients s) n (ring s) (subs s) (notified_count s) (error_count s) (start_time s) (last_sse_ping s)
    (running s) (event_running s) (force_stop s) (server_fd s).
Definition set_ring (r : ring_t) (s : notify_d_service_t) : notify_d_service_t :=
  mkSvc (clients s) (client_count s) r (subs s) (notified_count s) (error_count s) (start_time s) (last_sse_ping s)
    (running s) (event_running s) (force_stop s) (server_fd s).
Definition set_subs (r : subs_t) (s : notify_d_service_t) : notify_d_service_t :=
  mkSvc (clients s) (client_count s) (ring s) r (notified_count s) (error_count s) (start_time s) (last_sse_ping s)
    (running s) (event_running s) (force_stop s) (server_fd s).
Definition set_counters (n e : Z) (s : notify_d_service_t) : notify_d_service_t :=
  mkSvc (clients s) (client_count s) (ring s) (subs s) n e (start_time s) (last_sse_ping s)
    (running s) (event_running s) (force_stop s) (server_fd s).
Definition set_ping (p : Z) (s : notify_d_service_t) : notify_d_service_t :=
  mkSvc (clients s) (client_count s) (ring s) (subs s) (notified_count s) (error_count s) (start_time s) p
    (running s) (event_running s) (force_stop s) (server_fd s).

Definition zero_client : notify_client_t := mkClient 0 NOTIFY_CLIENT_SOCKET None None 0 0 0 false false.
Definition zero_sub : notify_subscription_t := mkSub None None false.

Definition set_active (b : bool) (c : notify_client_t) : notify_client_t :=
  mkClient (fd c) (type c) (c_topic c) (c_client_id c) (connected_at c) (last_activity c) (messages_sent c) b (handshake_done c).

Definition set_fd (f : Z) (c : notify_client_t) : notify_client_t :=
  mkClient f (type c) (c_topic c) (c_client_id c) (connected_at c) (last_activity c) (messages_sent c) (c_active c)
    (handshake_done c).

(** [client->messages_sent++] *)
Definition count_sent (c : notify_client_t) : notify_client_t :=
  mkClient (fd c) (type c) (c_topic c) (c_client_id c) (connected_at c) (last_activity c) (u64 (messages_sent c + 1))
    (c_active c) (handshake_done c).

Class NotifyOS (W : Type) := {
  ntf_sock :: SockOS W;
  ntf_time : W -> Z * W
}.

Definition is_empty (s : string) : bool := strcmp_eq s "".

(** ** The event ring *)

Section ops.
  Context {W : Type} `{NotifyOS W}.

Definition MAXP : nat := NOTIFY_D_MAX_PENDING.

Definition notify_d_enqueue (q : ring_t) (msg topic ev : option string) (w : W) : airy_rc * ring_t * W :=
    match msg with
    | None => (AIRY_ERR_INVALID_PARAM, q, w)
    | Some msg =>
        if (MAXP <=? pending_count q)%nat then (AIRY_ERR_UNKNOWN, q, w)
        else
          let '(ok, w) := os_alloc w in
          if negb ok then (AIRY_ERR_OUT_OF_MEMORY, q, w)
          else
            let '(m, w) := AIRY_STRDUP msg w in
            let '(t, w) := AIRY_STRDUP (default "default"%string topic) w in
            let '(y, w) := AIRY_STRDUP (default "message"%string ev) w in
            let '(now, w) := ntf_time w in
            (AIRY_SUCCESS,
             mkRing (<[pending_tail q := Some (length (events q))]> (pending q)) (pending_head q)
               ((pending_tail q + 1) mod MAXP) (S (pending_count q)) (events q ++ [Some (mkEvent m t y (u64 now))]), w)
    end.

(** The event loop's side: the first event leaves the ring. *)
Definition ring_pop (q : ring_t) : option (nat * ring_t) :=
    match pending q !! pending_head q with
    | Some (Some p) =>
        Some (p, mkRing (pending q) ((pending_head q + 1) mod MAXP) (pending_tail q) (pending_count q - 1) (events q))
    | _ => None
    end.

(** [AIRY_FREE] of the event and of its texts. *)
Definition event_free (p : nat) (q : ring_t) : option ring_t :=
    match events q !! p with
    | Some (Some _) =>
        Some (mkRing (pending q) (pending_head q) (pending_tail q) (pending_count q) (<[p := None]> (events q)))
    | _ => None
    end.

Definition set_pending (l : list (option nat)) (q : ring_t) : ring_t :=
    mkRing l (pending_head q) (pending_tail q) (pending_count q) (events q).

Fixpoint drain_loop (n i : nat) (q : ring_t) : option ring_t :=
    match n with
    | O => Some q
    | S n' =>
        let idx := ((pending_head q + i) mod MAXP)%nat in
        match pending q !! idx with
        | None => None
        | Some e =>
            match (match e with Some p => event_free p q | None => Some q end) with
            | None => None
            | Some q => drain_loop n' (S i) (set_pending (<[idx := None]> (pending q)) q)
            end
        end
    end.

Definition notify_d_drain (q : ring_t) : option ring_t :=
    match drain_loop (pending_count q) 0 q with
    | None => None
    | Some q => Some (mkRing (pending q) 0 0 0 (events q))
    end.

(** ** Subscriptions *)

(** The loops run from [i] for [n] rounds. *)
Fixpoint find_sub (n i : nat) (l : list notify_subscription_t) (topic client_id : string) : option (option nat) :=
    match n with
    | O => Some None
    | S n' =>
        match l !! i with
        | None => None
        | Some s =>
            if negb (s_active s) then find_sub n' (S i) l topic client_id
            else
              match s_topic s with
              | None => None
              | Some t =>
                  if negb (strcmp_eq t topic) then find_sub n' (S i) l topic client_id
                  else
                    match s_client_id s with
                    | None => None
                    | Some c =>
                        if strcmp_eq c client_id then Some (Some i) else find_sub n' (S i) l topic client_id
                    end
              end
        end
    end.

Definition notify_d_find_subscription (r : subs_t) (topic client_id : string) : option (option nat) :=
    find_sub (subscription_count r) 0 (subscriptions r) topic client_id.

Fixpoint free_slot (n i : nat) (l : list notify_subscription_t) : option (option nat) :=
    match n with
    | O => Some None
    | S n' =>
        match l !! i with
        | None => None
        | Some s => if negb (s_active s) then Some (Some i) else free_slot n' (S i) l
        end
    end.

Definition bad_name (s : option string) : bool := match s with Some s => is_empty s | None => true end.

Definition notify_d_subscribe (r : subs_t) (topic client_id : option string) (w : W) : option (airy_rc * subs_t * W) :=
    match topic, client_id with
    | Some t, Some c =>
        if is_empty t || is_empty c then Some (AIRY_ERR_INVALID_PARAM, r, w)
        else
          found ← notify_d_find_subscription r t c;
          match found with
          | Some _ => Some (AIRY_SUCCESS, r, w)
          | None =>
              free ← free_slot (subscription_count r) 0 (subscriptions r);
              let slot := match free with
                          | Some i => Some i
                          | None => if (subscription_count r <? NOTIFY_D_MAX_SUBSCRIPTIONS)%nat
                                    then Some (subscription_count r) else None
                          end in
              match slot with
              | None => Some (AIRY_ERR_UNKNOWN, r, w)
              | Some i =>
                  let '(c', w) := AIRY_STRDUP c w in
                  let '(t', w) := AIRY_STRDUP t w in
                  match c', t' with
                  | Some c', Some t' =>
                      Some (AIRY_SUCCESS,
                            mkSubs (<[i := mkSub (Some c') (Some t') true]> (subscriptions r))
                              (if (subscription_count r <=? i)%nat then S i else subscription_count r), w)
                  | _, _ => Some (AIRY_ERR_OUT_OF_MEMORY,
                                  mkSubs (<[i := mkSub None None false]> (subscriptions r)) (subscription_count r), w)
                  end
              end
          end
    | _, _ => Some (AIRY_ERR_INVALID_PARAM, r, w)
    end.

Definition notify_d_unsubscribe (r : subs_t) (topic client_id : option string) : option (airy_rc * subs_t) :=
    match topic, client_id with
    | Some t, Some c =>
        if is_empty t || is_empty c then Some (AIRY_ERR_INVALID_PARAM, r)
        else
          found ← notify_d_find_subscription r t c;
          match found with
          | Some i => Some (AIRY_SUCCESS, mkSubs (<[i := mkSub None None false]> (subscriptions r)) (subscription_count r))
          | None => Some (AIRY_SUCCESS, r)
          end
    | _, _ => Some (AIRY_ERR_INVALID_PARAM, r)
    end.

Definition notify_d_has_subscription (r : subs_t) (topic client_id : option string) : option bool :=
    match topic, client_id with
    | Some t, Some c =>
        found ← notify_d_find_subscription r t c;
        Some (match found with Some _ => true | None => false end)
    | _, _ => Some false
    end.

Fixpoint count_subs (n i : nat) (l : list notify_subscription_t) (topic : string) (count : nat) : option nat :=
    match n with
    | O => Some count
    | S n' =>
        match l !! i with
        | None => None
        | Some s =>
            if negb (s_active s) then count_subs n' (S i) l topic count
            else
              match s_topic s with
              | None => None
              | Some t => count_subs n' (S i) l topic (if strcmp_eq t topic then S count else count)
              end
        end
    end.

Definition notify_d_subscription_count (r : subs_t) (topic : option string) : option nat :=
    match topic with
    | None => Some O
    | Some t => count_subs (subscription_count r) 0 (subscriptions r) t 0
    end.

(** ** Broadcast *)

Definition QT : ascii := "034".
Definition quoted (s : string) : string := String QT (s +:+ String QT EmptyString).

(** The text that [snprintf] prints of an event: nothing is escaped. *)
Definition event_text (e : notify_event_t) : string :=
    "{" +:+ quoted "event" +:+ ":" +:+ quoted (default "message"%string (event_type e)) +:+ "," +:+
    quoted "topic" +:+ ":" +:+ quoted (default "default"%string (e_topic e)) +:+ "," +:+
    quoted "message" +:+ ":" +:+ quoted (default ""%string (message e)) +:+ "," +:+
    quoted "timestamp" +:+ ":" +:+ print_u (timestamp e) +:+ "}".

Definition json_size : nat := Z.to_nat 8192.
Definition sse_size : nat := Z.to_nat 8448.

(** [snprintf] of [text] into a buffer of [size] bytes, and the [send] of as
    many bytes as it returned: beyond the buffer's end there is no value. *)
Definition printed (size : nat) (text : string) : option string :=
    let n := String.length text in
    if (n <? size)%nat then Some text
    else if (n =? size)%nat then Some (String.substring 0 (size - 1) text +:+ String "000" EmptyString)
    else None.

Definition LF : string := String "010" EmptyString.

(** "event: %s\ndata: %s\n\n"; [json_msg] holds the text that fitted. *)
Definition sse_text (e : notify_event_t) : string :=
    "event: " +:+ default "message"%string (event_type e) +:+ LF +:+ "data: " +:+ snprintf_s json_size (event_text e) +:+ LF +:+ LF.

Definition subscribed (r : subs_t) (e : notify_event_t) (c : notify_client_t) : option bool :=
    match e_topic e, c_topic c with
    | Some t, Some ct =>
        if strcmp_eq t "broadcast" || strcmp_eq ct t then Some true
        else match c_client_id c with
             | Some _ => notify_d_has_subscription r (Some t) (c_client_id c)
             | None => Some false
             end
    | _, _ => Some true
    end.

(** What one round of the broadcast does to a client: whether it is counted. *)
Definition bcast_one (r : subs_t) (e : notify_event_t) (c : notify_client_t) (w : W) : option (bool * notify_client_t * W) :=
    if negb (c_active c) then Some (false, c, w)
    else
      sub ← subscribed r e c;
      if negb sub then Some (false, c, w)
      else
        match type c with
        | NOTIFY_CLIENT_WEBSOCKET =>
            if handshake_done c
            then payload ← printed json_size (event_text e);
                 Some (true, count_sent c, (notify_d_send_ws_frame (fd c) payload w).2)
            else Some (false, c, w)
        | NOTIFY_CLIENT_SOCKET =>
            payload ← printed json_size (event_text e);
            Some (true, count_sent c, (airy_sock_send (fd c) payload w).2)
        | NOTIFY_CLIENT_SSE =>
            payload ← printed sse_size (sse_text e);
            Some (true, count_sent c, (airy_sock_send (fd c) payload w).2)
        end.

(** Rounds [i] to [i + n - 1]. *)
Fixpoint bcast_loop (n i count : nat) (r : subs_t) (e : notify_event_t) (l : list notify_client_t) (w : W)
      : option (nat * list notify_client_t * W) :=
    match n with
    | O => Some (count, l, w)
    | S n' =>
        c ← l !! i;
        '(hit, c, w) ← bcast_one r e c w;
        bcast_loop n' (S i) (if hit : bool then S count else count) r e (<[i := c]> l) w
    end.

Definition notify_d_broadcast_event (s : notify_d_service_t) (e : notify_event_t) (w : W)
      : option (nat * notify_d_service_t * W) :=
    '(count, l, w) ← bcast_loop (client_count s) 0 0 (subs s) e (clients s) w;
    Some (count, set_clients l s, w).

Definition ping_text : string := ": ping" +:+ LF +:+ LF.

Definition beats (c : notify_client_t) : bool :=
    c_active c && bool_decide (type c = NOTIFY_CLIENT_SSE) && handshake_done c.

Fixpoint beat_loop (n i : nat) (l : list notify_client_t) (w : W) : option (list notify_client_t * W) :=
    match n with
    | O => Some (l, w)
    | S n' =>
        c ← l !! i;
        if negb (beats c) then beat_loop n' (S i) l w
        else
          let '(k, w) := airy_sock_send (fd c) ping_text w in
          beat_loop n' (S i) (if 0 <? k then <[i := count_sent c]> l else l) w
    end.

Definition notify_d_sse_heartbeat (s : notify_d_service_t) (w : W) : option (notify_d_service_t * W) :=
    '(l, w) ← beat_loop (client_count s) 0 (clients s) w;
    Some (set_clients l s, w).

(** ** Connections *)

(** A copy of a header's value: none where it is missing, empty or too long. *)
Definition notify_d_hdr_take (req tag : string) (lim : nat) (w : W) : option string * W :=
    match header_value req tag with
    | None => (None, w)
    | Some v => if is_empty v || (lim <=? String.length v)%nat then (None, w) else AIRY_STRDUP v w
    end.

Fixpoint inactive_from (i : nat) (l : list notify_client_t) : option nat :=
    match l with
    | [] => None
    | c :: l' => if negb (c_active c) then Some i else inactive_from (S i) l'
    end.

Definition notify_d_find_client_slot (s : notify_d_service_t) : option nat :=
    match inactive_from 0 (clients s) with
    | Some i => Some i
    | None => if (client_count s <? NOTIFY_D_MAX_CLIENTS)%nat then Some (client_count s) else None
    end.

Definition contains (needle hay : string) : bool := match strstr needle hay with Some _ => true | None => false end.

Definition is_upgrade (buffer : string) : bool :=
    contains "Upgrade: websocket" buffer || contains "Upgrade: WebSocket" buffer.
Definition is_sse (buffer : string) : bool := contains "Accept: text/event-stream" buffer.

Definition sse_headers : string :=
    "HTTP/1.1 200 OK" +:+ CRLF +:+ "Content-Type: text/event-stream" +:+ CRLF +:+ "Cache-Control: no-cache" +:+ CRLF +:+
    "Connection: keep-alive" +:+ CRLF +:+ CRLF.

Definition busy_text : string := "{" +:+ quoted "error" +:+ ":" +:+ quoted "max_clients_reached" +:+ "}".

(** The slot of the new client and the service. *)
Definition notify_d_register (s : notify_d_service_t) (f : Z) (buffer : string) (w : W)
      : option nat * notify_d_service_t * W :=
    match notify_d_find_client_slot s with
    | None => let '(_, w) := airy_sock_send f busy_text w in (None, s, airy_sock_close f w)
    | Some i =>
        let '(now, w) := ntf_time w in
        let now := u64 now in
        let '(id, w) := notify_d_hdr_take buffer "X-Client-Id: " 256 w in
        let client t tp hs := mkClient f t tp id now now 0 true hs in
        if is_sse buffer then
          let '(_, w) := airy_sock_send f sse_headers w in
          (Some i, set_count (S (client_count s)) (set_clients (<[i := client NOTIFY_CLIENT_SSE None true]> (clients s)) s), w)
        else if is_upgrade buffer then
          let '(rc, w) := notify_d_ws_upgrade f buffer w in
          if bool_decide (rc = AIRY_SUCCESS)
          then (Some i, set_count (S (client_count s))
                          (set_clients (<[i := client NOTIFY_CLIENT_WEBSOCKET None true]> (clients s)) s), w)
          else (None, set_clients (<[i := set_active false (client NOTIFY_CLIENT_WEBSOCKET None false)]> (clients s)) s,
                airy_sock_close f w)
        else
          let '(t, w) := notify_d_hdr_take buffer "X-Topic: " NOTIFY_D_MAX_BUFFER w in
          let '(t, w) := match t with Some t => (Some t, w) | None => AIRY_STRDUP "inbound" w end in
          let s := set_count (S (client_count s)) (set_clients (<[i := client NOTIFY_CLIENT_SOCKET t false]> (clients s)) s) in
          let '(rc, q, w) := notify_d_enqueue (ring s) (Some buffer) t None w in
          let s := set_ring q s in
          (Some i, if bool_decide (rc = AIRY_SUCCESS) then set_counters (u64 (notified_count s + 1)) (error_count s) s
                   else set_counters (notified_count s) (u64 (error_count s + 1)) s, w)
    end.

Fixpoint count_active (n i : nat) (l : list notify_client_t) (k : nat) : option nat :=
    match n with
    | O => Some k
    | S n' => c ← l !! i; count_active n' (S i) l (if c_active c then S k else k)
    end.

Definition notify_d_healthcheck (s : notify_d_service_t) : option bool :=
    let healthy := running s && event_running s in
    _ ← count_active (client_count s) 0 (clients s) 0;
    let healthy := if (MAXP <=? pending_count (ring s))%nat then false else healthy in
    Some (if (notified_count s / 2 <? error_count s) && (10 <? notified_count s) then false else healthy).

Definition stats_text (notified depth active uptime : Z) (degraded healthy : bool) : string :=
    "{" +:+ quoted "service" +:+ ":" +:+ quoted "notify_d" +:+ "," +:+
    quoted "status" +:+ ":" +:+ quoted (if degraded then "degraded" else "ok")%string +:+ "," +:+
    quoted "queued" +:+ ":" +:+ print_u notified +:+ "," +:+ quoted "pending" +:+ ":" +:+ print_u depth +:+ "," +:+
    quoted "active_clients" +:+ ":" +:+ print_u active +:+ "," +:+ quoted "uptime_sec" +:+ ":" +:+ print_u uptime +:+ "," +:+
    quoted "healthy" +:+ ":" +:+ (if healthy then "true" else "false")%string +:+ "}".

(** The first half of [notify_d_reply_stats], under the lock that the
    registration left: none for a client that stays; else what is reported. *)
Definition reply_begin (s : notify_d_service_t) (i : nat) (w : W) : option (option (Z * Z * nat * nat * Z) * W) :=
    c ← clients s !! i;
    match type c with
    | NOTIFY_CLIENT_SOCKET =>
        let '(now, w) := ntf_time w in
        active ← count_active (client_count s) 0 (clients s) 0;
        Some (Some (u64 (now - start_time s), notified_count s, pending_count (ring s), active, error_count s), w)
    | _ => Some (None, w)
    end.

(** The reply, sent without the lock after the health check. *)
Definition reply_send (s : notify_d_service_t) (v : Z * Z * nat * nat * Z) (f : Z) (w : W) : option W :=
    let '(uptime, notified, depth, active, errs) := v in
    healthy ← notify_d_healthcheck s;
    let text := snprintf_s 4096 (stats_text notified (Z.of_nat depth) (Z.of_nat active) uptime (notified / 2 <? errs) healthy) in
    let '(_, w) := airy_sock_send f text w in
    Some (airy_sock_close f w).

(** Its last lines. *)
Definition reply_end (s : notify_d_service_t) (i : nat) : option notify_d_service_t :=
    c ← clients s !! i;
    Some (set_clients (<[i := set_fd AIRY_INVALID_SOCKET (set_active false c)]> (clients s)) s).

(** ** Start, stop and destruction *)

Definition notify_d_service_init (w : W) : notify_d_service_t * W :=
    let '(now, w) := ntf_time w in
    (mkSvc (replicate NOTIFY_D_MAX_CLIENTS zero_client) 0 (mkRing (replicate MAXP None) 0 0 0 [])
       (mkSubs (replicate NOTIFY_D_MAX_SUBSCRIPTIONS zero_sub) 0) 0 0 (u64 now) 0 false false false 0, w).

(** The flags that [notify_d_start] sets once the socket is there. *)
Definition started (f : Z) (s : notify_d_service_t) : notify_d_service_t :=
    mkSvc (clients s) (client_count s) (ring s) (subs s) (notified_count s) (error_count s) (start_time s) (last_sse_ping s)
      true true false f.

(** The flags of [notify_d_stop]: first the two that end the loops. *)
Definition stop_flags (force : bool) (s : notify_d_service_t) : notify_d_service_t :=
    mkSvc (clients s) (client_count s) (ring s) (subs s) (notified_count s) (error_count s) (start_time s) (last_sse_ping s)
      false false (if force then true else force_stop s) (server_fd s).

Fixpoint close_loop (n i : nat) (l : list notify_client_t) (w : W) : option (list notify_client_t * W) :=
    match n with
    | O => Some (l, w)
    | S n' =>
        c ← l !! i;
        if c_active c && negb (fd c =? AIRY_INVALID_SOCKET)
        then close_loop n' (S i) (<[i := set_active false (set_fd AIRY_INVALID_SOCKET c)]> l) (airy_sock_close (fd c) w)
        else close_loop n' (S i) l w
    end.

(** The section under the lock after the flags: with [force] every client is
    closed and the ring drained. *)
Definition stop_clean (force : bool) (s : notify_d_service_t) (w : W) : option (notify_d_service_t * W) :=
    if negb force then Some (s, w)
    else
      '(l, w) ← close_loop (client_count s) 0 (clients s) w;
      q ← notify_d_drain (ring s);
      Some (set_ring q (set_clients l s), w).

Definition clear_sub (n : nat) (l : list notify_subscription_t) : list notify_subscription_t :=
    map (fun s => if s_active s then zero_sub else s) (take n l) ++ drop n l.

Definition clear_names (c : notify_client_t) : notify_client_t :=
    mkClient (fd c) (type c) None None (connected_at c) (last_activity c) (messages_sent c) (c_active c) (handshake_done c).

Definition notify_d_service_destroy (s : notify_d_service_t) : option notify_d_service_t :=
    q ← notify_d_drain (ring s);
    Some (set_count 0 (set_ring q (set_subs (mkSubs (clear_sub (subscription_count (subs s)) (subscriptions (subs s))) 0)
           (set_clients (map clear_names (take (client_count s) (clients s)) ++ drop (client_count s) (clients s)) s)))).
End ops.

(** ** Methods *)

Class JsonRpc `{Cjson} := {
  jsonrpc_get_string_param : option cJSON -> string -> option string -> option string;
  jsonrpc_build_error : Z -> string -> Z -> option string;
  jsonrpc_build_success : jtree -> Z -> option string
}.

(** Error codes of JSON-RPC 2.0. *)
Definition JSONRPC_INVALID_PARAMS : Z := -32602.
Definition JSONRPC_INTERNAL_ERROR : Z := -32603.

Definition NOTIFY_D_METHOD_NOT_RPC : Z := 0.
Definition NOTIFY_D_METHOD_HANDLED : Z := 1.
Definition NOTIFY_D_METHOD_SHUTDOWN : Z := 2.

(** Where a topic that [ntf_list] points to is kept: the slot of a client or of a
    subscription. *)
Inductive place := PClient (i : nat) | PSub (i : nat).

#[export] Instance place_eq : EqDecision place.
Proof. solve_decision. Defined.

(** What the other threads do between two sections of a method under the lock:
    the service afterwards, and the places whose topic they freed. *)
Class Others (W : Type) := others : notify_d_service_t -> W -> notify_d_service_t * list place * W.

(** [c->err] and [c->result]: the error's text is built by the handler. *)
Definition ntf_answer : Type := option string + jtree.

Section rpc.
  Context {W : Type} `{NotifyOS W} `{JsonRpc} `{Others W}.

Definition ntf_publish (s : notify_d_service_t) (req : cJSON) (rid : Z) (w : W)
      : option (notify_d_service_t * ntf_answer * W) :=
    let params := cJSON_GetObjectItem req "params" in
    let topic := jsonrpc_get_string_param params "topic" (Some "default"%string) in
    let message := jsonrpc_get_string_param params "message" None in
    let message := if bad_name message then jsonrpc_get_string_param params "payload" None else message in
    let event_type := jsonrpc_get_string_param params "event" (Some "message"%string) in
    if bad_name message
    then Some (s, inl (jsonrpc_build_error JSONRPC_INVALID_PARAMS "message (or payload) is required" rid), w)
    else
      let '(rc, q, w) := notify_d_enqueue (ring s) message topic event_type w in
      let s := set_ring q s in
      if negb (bool_decide (rc = AIRY_SUCCESS))
      then Some (s, inl (jsonrpc_build_error JSONRPC_INTERNAL_ERROR
                           (if bool_decide (rc = AIRY_ERR_OUT_OF_MEMORY) then "out of memory" else "pending queue full") rid), w)
      else
        let '(s, _, w) := others s w in
        n ← notify_d_subscription_count (subs s) topic;
        Some (s, inr (JObj [("queued", JBool true); ("topic", JStr (default ""%string topic));
                            ("event", JStr (default ""%string event_type)); ("pending", JNum (Z.of_nat (pending_count q)));
                            ("subscribers", JNum (Z.of_nat n))]%string), w).

Definition ntf_member (s : notify_d_service_t) (req : cJSON) (rid : Z) (w : W)
      : option (notify_d_service_t * ntf_answer * W) :=
    let params := cJSON_GetObjectItem req "params" in
    let topic := jsonrpc_get_string_param params "topic" None in
    let client_id := jsonrpc_get_string_param params "client_id" None in
    let on := match cj_str (cJSON_GetObjectItem req "method") with Some m => strcmp_eq m "subscribe" | None => false end in
    if bad_name topic || bad_name client_id
    then Some (s, inl (jsonrpc_build_error JSONRPC_INVALID_PARAMS "topic and client_id are required" rid), w)
    else
      '(rc, r, w) ← (if on then notify_d_subscribe (subs s) topic client_id w
                     else '(rc, r) ← notify_d_unsubscribe (subs s) topic client_id; Some (rc, r, w));
      let s := set_subs r s in
      if negb (bool_decide (rc = AIRY_SUCCESS))
      then Some (s, inl (jsonrpc_build_error JSONRPC_INTERNAL_ERROR
                           (if on then "failed to subscribe" else "failed to unsubscribe") rid), w)
      else
        let '(s, _, w) := others s w in
        n ← notify_d_subscription_count (subs s) topic;
        Some (s, inr (JObj [("status", JStr (if on then "subscribed" else "unsubscribed")); ("topic", JStr (default ""%string topic));
                            ("client_id", JStr (default ""%string client_id)); ("subscribers", JNum (Z.of_nat n))]%string), w).

Definition MAX_TOPICS : nat := NOTIFY_D_MAX_SUBSCRIPTIONS + NOTIFY_D_MAX_CLIENTS.

(** [names[count++] = topic], a write outside the array having no value. *)
Definition topics_put (t : list (place * string)) (x : place * string) : option (list (place * string)) :=
    if (length t <? MAX_TOPICS)%nat then Some (t ++ [x]) else None.

Definition ntf_take (t : list (place * string)) (p : place) (topic : option string) : option (list (place * string)) :=
    match topic with
    | None => Some t
    | Some x =>
        if is_empty x then Some t
        else if existsb (fun y => strcmp_eq x y.2) t then Some t
        else if (length t <? MAX_TOPICS)%nat then topics_put t (p, x) else Some t
    end.

(** The topics of the active clients, then those of the subscriptions, with the
    number of each. *)
Fixpoint take_clients (n i : nat) (l : list notify_client_t) (t : list (place * string)) (k : nat)
      : option (list (place * string) * nat) :=
    match n with
    | O => Some (t, k)
    | S n' =>
        c ← l !! i;
        if c_active c then t ← ntf_take t (PClient i) (c_topic c); take_clients n' (S i) l t (S k)
        else take_clients n' (S i) l t k
    end.

Fixpoint take_subs (n i : nat) (l : list notify_subscription_t) (t : list (place * string)) (k : nat)
      : option (list (place * string) * nat) :=
    match n with
    | O => Some (t, k)
    | S n' =>
        s ← l !! i;
        if s_active s then t ← ntf_take t (PSub i) (s_topic s); take_subs n' (S i) l t (S k)
        else take_subs n' (S i) l t k
    end.

Fixpoint clients_of (n i : nat) (l : list notify_client_t) (name : string) (k : nat) : option nat :=
    match n with
    | O => Some k
    | S n' =>
        c ← l !! i;
        clients_of n' (S i) l name
          (if c_active c && match c_topic c with Some t => strcmp_eq t name | None => false end then S k else k)
    end.

(** The text behind a collected pointer, unless it was freed since. *)
Definition deref (freed : list place) (x : place * string) : option string :=
    if bool_decide (x.1 ∈ freed) then None else Some x.2.

(** The loop over the collected topics: two sections each, the other threads
    running before them; [freed] are the topics freed since the collection. *)
Fixpoint list_items (names : list (place * string)) (freed : list place) (s : notify_d_service_t) (w : W)
      : option (list jtree * notify_d_service_t * W) :=
    match names with
    | [] => Some ([], s, w)
    | x :: names' =>
        let '(s, f, w) := others s w in
        let freed := f ++ freed in
        name ← deref freed x;
        active ← clients_of (client_count s) 0 (clients s) name 0;
        let '(s, f, w) := others s w in
        let freed := f ++ freed in
        name ← deref freed x;
        n ← notify_d_subscription_count (subs s) (Some name);
        '(rest, s, w) ← list_items names' freed s w;
        Some (JObj [("topic", JStr name); ("subscribers", JNum (Z.of_nat n));
                    ("active_clients", JNum (Z.of_nat active))]%string :: rest, s, w)
    end.

(** The section that collects the topics, then the loop. *)
Definition ntf_list (s : notify_d_service_t) (w : W) : option (notify_d_service_t * ntf_answer * W) :=
    '(t, nclients) ← take_clients (client_count s) 0 (clients s) [] 0;
    '(t, nsubs) ← take_subs (subscription_count (subs s)) 0 (subscriptions (subs s)) t 0;
    '(items, s, w) ← list_items t [] s w;
    Some (s, inr (JObj [("clients", JNum (Z.of_nat nclients)); ("subscriptions", JNum (Z.of_nat nsubs));
                        ("topics", JArr items)]%string), w).

Fixpoint active_subs (n i : nat) (l : list notify_subscription_t) (k : nat) : option nat :=
    match n with
    | O => Some k
    | S n' => s ← l !! i; active_subs n' (S i) l (if s_active s then S k else k)
    end.

Definition ntf_health (s : notify_d_service_t) (w : W) : option (notify_d_service_t * ntf_answer * W) :=
    let pend := pending_count (ring s) in
    act ← count_active (client_count s) 0 (clients s) 0;
    nsubs ← active_subs (subscription_count (subs s)) 0 (subscriptions (subs s)) 0;
    let '(now, w) := ntf_time w in
    Some (s, inr (JObj [("status", JStr (if negb (event_running s) || (MAXP <=? pend)%nat then "degraded" else "ok"));
                        ("service", JStr "notify_d"); ("queue_pending", JNum (Z.of_nat pend));
                        ("queue_capacity", JNum (Z.of_nat MAXP));
                        ("queue_occupancy", JReal (ddiv (d_of_Z (Z.of_nat pend)) (d_of_Z (Z.of_nat MAXP))));
                        ("consumer_running", JBool (event_running s)); ("active_clients", JNum (Z.of_nat act));
                        ("subscriptions", JNum (Z.of_nat nsubs)); ("notified", JNum (notified_count s));
                        ("errors", JNum (error_count s)); ("uptime_s", JNum (u64 (now - start_time s)))]%string), w).

Definition ntf_shutdown (s : notify_d_service_t) (w : W) : option (notify_d_service_t * ntf_answer * W) :=
    Some (s, inr (JObj [("status", JStr "shutting_down")]%string), w).

Definition ntf_stats (s : notify_d_service_t) (w : W) : option (notify_d_service_t * ntf_answer * W) :=
    let '(now, w) := ntf_time w in
    Some (s, inr (JObj [("daemon", JStr "notify_d"); ("uptime_s", JNum (u64 (now - start_time s)));
                        ("notified", JNum (notified_count s)); ("errors", JNum (error_count s));
                        ("clients", JNum (Z.of_nat (client_count s)));
                        ("pending", JNum (Z.of_nat (pending_count (ring s))))]%string), w).

Definition ntf_ping (s : notify_d_service_t) (w : W) : option (notify_d_service_t * ntf_answer * W) :=
    let '(now, w) := ntf_time w in
    let '(now', w) := ntf_time w in
    Some (s, inr (JObj [("status", JStr "ok"); ("service", JStr "notify_d"); ("uptime_s", JNum (u64 (now - start_time s)));
                        ("timestamp", JReal (dmul (d_of_Z now') (d_of_Z 1000)))]%string), w).

Definition ntf_methods : list (string * (notify_d_service_t -> cJSON -> Z -> W -> option (notify_d_service_t * ntf_answer * W)) * Z) :=
    [("publish"%string, ntf_publish, NOTIFY_D_METHOD_HANDLED);
     ("subscribe"%string, ntf_member, NOTIFY_D_METHOD_HANDLED);
     ("unsubscribe"%string, ntf_member, NOTIFY_D_METHOD_HANDLED);
     ("list"%string, fun s _ _ w => ntf_list s w, NOTIFY_D_METHOD_HANDLED);
     ("health"%string, fun s _ _ w => ntf_health s w, NOTIFY_D_METHOD_HANDLED);
     ("shutdown"%string, fun s _ _ w => ntf_shutdown s w, NOTIFY_D_METHOD_SHUTDOWN);
     ("get_stats"%string, fun s _ _ w => ntf_stats s w, NOTIFY_D_METHOD_HANDLED);
     ("health_check"%string, fun s _ _ w => ntf_ping s w, NOTIFY_D_METHOD_HANDLED)].

Definition ntf_lookup (name : string) := find (fun m => strcmp_eq m.1.1 name) ntf_methods.

(** The status, the text left in [response] where one was written, and the
    service. *)
Definition notify_d_dispatch_jsonrpc (s : notify_d_service_t) (request : string) (response_size : nat) (w : W)
      : option (Z * option string * notify_d_service_t * W) :=
    if (response_size =? 0)%nat then Some (NOTIFY_D_METHOD_NOT_RPC, None, s, w)
    else
      match cJSON_Parse request with
      | None => Some (NOTIFY_D_METHOD_NOT_RPC, None, s, w)
      | Some req =>
          match cj_str (cJSON_GetObjectItem req "method"), cJSON_GetObjectItem req "id" with
          | Some m, Some idj =>
              match ntf_lookup m with
              | None => Some (NOTIFY_D_METHOD_NOT_RPC, None, s, w)
              | Some (_, fn, status) =>
                  let rid := match cJSON_num idj with Some _ => cJSON_int idj | None => 0 end in
                  '(s, answer, w) ← fn s req rid w;
                  let text := match answer with
                              | inl err => err
                              | inr result =>
                                  match jsonrpc_build_success result rid with
                                  | Some t => Some t
                                  | None => jsonrpc_build_error JSONRPC_INTERNAL_ERROR "internal error" rid
                                  end
                              end in
                  Some (status, snprintf_s response_size <$> text, s, w)
              end
          | _, _ => Some (NOTIFY_D_METHOD_NOT_RPC, None, s, w)
          end
      end.
End rpc.

(** ** The ring as a queue

    Events are numbered in the order in which they are accepted.  The ring
    holds the last [pending_count] of them, oldest first. *)

Definition oldest (q : ring_t) : nat := length (events q) - pending_count q.

Record ring_ok (q : ring_t) : Prop := {
  rk_size : length (pending q) = MAXP;
  rk_head : (pending_head q < MAXP)%nat;
  rk_tail : pending_tail q = ((pending_head q + pending_count q) mod MAXP)%nat;
  rk_count : (pending_count q <= MAXP)%nat;
  rk_events : (pending_count q <= length (events q))%nat;
  rk_slots : forall k, (k < pending_count q)%nat ->
    pending q !! ((pending_head q + k) mod MAXP)%nat = Some (Some (oldest q + k)%nat)
}.

(** The events that are not freed are the waiting ones and the one in [hand]. *)
Definition owned (q : ring_t) (hand : option nat) : Prop :=
  (forall p, hand = Some p -> (p < oldest q)%nat) /\
  forall p, is_Some (mjoin (events q !! p)) <-> (oldest q <= p < length (events q))%nat \/ hand = Some p.

Lemma MAXP_pos : (0 < MAXP)%nat.
Proof. unfold MAXP, NOTIFY_D_MAX_PENDING. lia. Qed.

#[local] Opaque MAXP.

Lemma ntf_slot_lt n : (n mod MAXP < MAXP)%nat.
Proof. apply Nat.mod_upper_bound. pose proof MAXP_pos. lia. Qed.

Lemma slot_distinct h j k : (j < MAXP)%nat -> (k < MAXP)%nat -> ((h + j) mod MAXP)%nat = ((h + k) mod MAXP)%nat -> j = k.
Proof.
  intros Hj Hk E. pose proof MAXP_pos as P.
  pose proof (Nat.div_mod_eq (h + j) MAXP). pose proof (Nat.div_mod_eq (h + k) MAXP).
  set (a := ((h + j) / MAXP)%nat) in *. set (b := ((h + k) / MAXP)%nat) in *.
  assert (a = b) by nia. subst. nia.
Qed.

Lemma slot_add h k : ((h mod MAXP + k) mod MAXP = (h + k) mod MAXP)%nat.
Proof. apply Nat.Div0.add_mod_idemp_l. Qed.

Lemma push_ok q e :
  ring_ok q -> (pending_count q < MAXP)%nat ->
  ring_ok (mkRing (<[pending_tail q := Some (length (events q))]> (pending q)) (pending_head q)
             ((pending_tail q + 1) mod MAXP) (S (pending_count q)) (events q ++ [e])).
Proof.
  intros [R1 R2 R3 R4 R5 R6] Hc. split; unfold oldest in *; cbn -[Nat.modulo]; rewrite ?length_app, ?length_insert;
    cbn [length]; try lia.
  - rewrite R3, slot_add. f_equal. lia.
  - intros k Hk. replace (length (events q) + 1 - S (pending_count q))%nat with (length (events q) - pending_count q)%nat by lia.
    destruct (decide (k = pending_count q)) as [->|N].
    + rewrite R3, list_lookup_insert_eq by (rewrite R1; apply ntf_slot_lt). do 2 f_equal. lia.
    + rewrite list_lookup_insert_ne; [apply R6; lia|]. rewrite R3. intros E. apply slot_distinct in E; lia.
Qed.

(** An event is accepted exactly where there is room and memory; it is then the
    newest one. *)
Lemma enqueue_spec {W} `{NotifyOS W} q msg topic ev (w : W) rc q' w' hand :
  ring_ok q -> owned q hand -> notify_d_enqueue q (Some msg) topic ev w = (rc, q', w') ->
  if bool_decide (rc = AIRY_SUCCESS)
  then (pending_count q < MAXP)%nat /\ ring_ok q' /\ owned q' hand /\ oldest q' = oldest q /\
       exists e, events q' = events q ++ [Some e]
  else q' = q.
Proof.
  intros R [O1 O2] E. unfold notify_d_enqueue in E. destruct (Nat.leb_spec MAXP (pending_count q)); simplify_eq; [done|].
  destruct (os_alloc w) as [[|] w1]; cbn [negb] in E; [|by simplify_eq].
  destruct (AIRY_STRDUP msg w1) as [o w2], (AIRY_STRDUP _ w2) as [o0 w3], (AIRY_STRDUP _ w3) as [o1 w4], (ntf_time w4) as [z w5].
  simplify_eq. rewrite bool_decide_true by done.
  assert (oldest (mkRing (<[pending_tail q := Some (length (events q))]> (pending q)) (pending_head q)
             ((pending_tail q + 1) mod MAXP) (S (pending_count q)) (events q ++ [Some (mkEvent o o0 o1 (u64 z))])) = oldest q) as Ho.
  { unfold oldest. cbn -[Nat.modulo]. rewrite length_app. cbn. lia. }
  split_and!; [done|by apply push_ok| |done|by eexists]. split; rewrite Ho; [done|].
  intros p. cbn [events]. rewrite length_app. cbn [length].
  destruct (decide (p = length (events q))) as [->|N].
  - rewrite list_lookup_middle by done. split; [intros _; left; unfold oldest; lia|by eexists].
  - destruct (decide (p < length (events q))%nat).
    + rewrite lookup_app_l by done. rewrite O2. split; (intros [?|?]; [left; lia|by right]).
    + rewrite lookup_ge_None_2 by (rewrite length_app; cbn; lia). split; [by intros [? ?]|].
      intros [?|?%O1]; [lia|]. unfold oldest in *. lia.
Qed.

(** The event loop takes the oldest event. *)
Lemma pop_spec q : ring_ok q -> owned q None -> (0 < pending_count q)%nat ->
  exists q', ring_pop q = Some (oldest q, q') /\ ring_ok q' /\ owned q' (Some (oldest q)) /\
    oldest q' = S (oldest q) /\ events q' = events q.
Proof.
  intros [R1 R2 R3 R4 R5 R6] [O1 O2] Hc. unfold ring_pop.
  pose proof (R6 0%nat Hc) as E. rewrite !Nat.add_0_r, Nat.mod_small in E by lia. rewrite E.
  eexists. split; [done|].
  assert (Ho : oldest (mkRing (pending q) ((pending_head q + 1) mod MAXP) (pending_tail q) (pending_count q - 1) (events q)) = S (oldest q)).
  { unfold oldest. cbn -[Nat.modulo]. lia. }
  split_and!; [| |done|done].
  - split; cbn -[Nat.modulo oldest]; try lia; [apply ntf_slot_lt| |].
    + rewrite R3, slot_add. f_equal. lia.
    + intros k Hk. rewrite slot_add, Ho, <- Nat.add_assoc. rewrite (R6 (1 + k)%nat) by lia. do 2 f_equal. lia.
  - split; rewrite Ho; [intros p [= <-]; lia|]. intros p. cbn [events]. rewrite O2. split.
    + intros [?|?]; [|done]. destruct (decide (p = oldest q)) as [->|]; [by right|left; lia].
    + intros [?|[= <-]]; [left; lia|]. left. unfold oldest. lia.
Qed.

Lemma free_spec q p : ring_ok q -> owned q (Some p) ->
  exists q', event_free p q = Some q' /\ ring_ok q' /\ owned q' None /\ oldest q' = oldest q /\
    length (events q') = length (events q) /\ pending_count q' = pending_count q.
Proof.
  intros [R1 R2 R3 R4 R5 R6] [O1 O2]. specialize (O1 p eq_refl). unfold event_free.
  destruct (O2 p) as [_ L]. destruct (L (or_intror eq_refl)) as [e E].
  destruct (events q !! p) as [[?|]|] eqn:Ep; [|done..]. eexists. split; [done|].
  assert (Ho : forall l, length l = length (events q) ->
    oldest (mkRing (pending q) (pending_head q) (pending_tail q) (pending_count q) l) = oldest q).
  { intros l Hl. unfold oldest. cbn. by rewrite Hl. }
  assert (Hl : length (<[p := None]> (events q)) = length (events q)) by apply length_insert.
  split_and!; [| | by apply Ho | done | done].
  - split; cbn -[oldest Nat.modulo]; rewrite ?Hl, ?Ho by done; done.
  - split; rewrite Ho by done; [done|]. intros u. cbn [events]. rewrite Hl.
    destruct (decide (u = p)) as [->|N].
    + rewrite list_lookup_insert_eq by (apply lookup_lt_Some in Ep; done). split; [by intros [? ?]|].
      intros [?|?]; [lia|done].
    + rewrite list_lookup_insert_ne by done. rewrite O2. split; (intros [?|?]; [by left|congruence]).
Qed.

Lemma drain_loop_spec b n : forall i q,
  length (pending q) = MAXP -> (i + n <= MAXP)%nat ->
  (forall k, (i <= k < i + n)%nat -> pending q !! ((pending_head q + k) mod MAXP)%nat = Some (Some (b + k)%nat)) ->
  (forall p, (b + i <= p < b + i + n)%nat -> is_Some (mjoin (events q !! p))) ->
  exists q', drain_loop n i q = Some q' /\ length (pending q') = MAXP /\ length (events q') = length (events q) /\
    forall p, events q' !! p = if decide (b + i <= p < b + i + n)%nat then Some None else events q !! p.
Proof.
  induction n as [|n IH]; intros i q Hl Hn Hs Hv.
  - exists q. split_and!; [done..|]. intros p. by rewrite decide_False by lia.
  - cbn [drain_loop]. rewrite (Hs i) by lia. unfold event_free.
    destruct (Hv (b + i)%nat ltac:(lia)) as [e E]. destruct (events q !! (b + i)%nat) as [[?|]|] eqn:Ep; [|done..].
    cbn [pending pending_head pending_tail pending_count events set_pending].
    match goal with |- context [drain_loop n (S i) ?x] => set (q1 := x) end.
    destruct (IH (S i) q1) as (q' & E' & L1 & L2 & Ev); unfold q1; cbn -[Nat.modulo].
    + by rewrite length_insert.
    + lia.
    + intros k Hk. rewrite list_lookup_insert_ne; [apply Hs; lia|]. intros D. apply slot_distinct in D; lia.
    + intros p Hp. rewrite list_lookup_insert_ne by lia. apply Hv. lia.
    + exists q'. split_and!; [done|done|rewrite L2; apply length_insert|]. intros p. rewrite Ev. unfold q1. cbn [events set_pending].
      destruct (decide (b + S i <= p < b + S i + n)%nat); [by rewrite decide_True by lia|].
      destruct (decide (p = b + i)%nat) as [->|]; [|rewrite decide_False by lia; by rewrite list_lookup_insert_ne by lia].
      rewrite decide_True by lia. apply lookup_lt_Some in Ep. by rewrite list_lookup_insert_eq.
Qed.

(** Draining frees the waiting events, and only them. *)
Lemma drain_spec q hand : ring_ok q -> owned q hand ->
  exists q', notify_d_drain q = Some q' /\ ring_ok q' /\ owned q' hand /\ pending_count q' = 0%nat /\
    length (events q') = length (events q).
Proof.
  intros [R1 R2 R3 R4 R5 R6] [O1 O2].
  destruct (drain_loop_spec (oldest q) (pending_count q) 0 q) as (q' & E & L1 & L2 & Ev); [done|lia| | |].
  { intros k Hk. apply R6. lia. }
  { intros p Hp. apply O2. left. unfold oldest in *. lia. }
  unfold notify_d_drain. rewrite E. eexists. split; [done|]. split_and!; [| |done|done].
  - pose proof MAXP_pos. split; cbn -[Nat.modulo]; try lia. by rewrite Nat.Div0.mod_0_l.
  - unfold owned, oldest in *. cbn [events pending_count]. rewrite L2. split; [intros p Hp; specialize (O1 p Hp); lia|].
    intros p. rewrite Ev. destruct (decide _) as [D|D].
    + split; [by intros [? ?]|]. intros [?|Hp]; [lia|]. specialize (O1 p Hp). lia.
    + rewrite O2. split; (intros [?|?]; [exfalso; lia|by right]).
Qed.

(** ** The registry as a set of pairs (topic, client) *)

Definition entry (s : notify_subscription_t) : option (string * string) :=
  if s_active s then t ← s_topic s; c ← s_client_id s; Some (t, c) else None.

Definition pairs (r : subs_t) : list (string * string) := omap entry (subscriptions r).

Definition subs_of (r : subs_t) : gset (string * string) := list_to_set (pairs r).

Record subs_ok (r : subs_t) : Prop := {
  sk_size : length (subscriptions r) = NOTIFY_D_MAX_SUBSCRIPTIONS;
  sk_count : (subscription_count r <= NOTIFY_D_MAX_SUBSCRIPTIONS)%nat;
  sk_active : forall i s, subscriptions r !! i = Some s -> s_active s = true ->
    is_Some (entry s) /\ (i < subscription_count r)%nat;
  sk_nodup : NoDup (pairs r)
}.

Lemma omap_insert_perm {A B} (f : A -> option B) (l : list A) i x y :
  l !! i = Some x -> f x = None -> omap f (<[i := y]> l) ≡ₚ option_list (f y) ++ omap f l.
Proof.
  intros E Hx. rewrite <- (take_drop_middle l i x E) at 2.
  rewrite insert_take_drop by (by eapply lookup_lt_Some). rewrite !omap_app. cbn [omap list_omap].
  rewrite Hx. destruct (f y); cbn; [|done]. by rewrite Permutation_middle.
Qed.

(** Putting back: the list with the slot emptied. *)
Lemma omap_clear_perm {A B} (f : A -> option B) (l : list A) i x y p :
  l !! i = Some x -> f x = Some p -> f y = None -> omap f l ≡ₚ p :: omap f (<[i := y]> l).
Proof.
  intros E Hx Hy. assert (E' : <[i := y]> l !! i = Some y) by (apply list_lookup_insert_eq; by eapply lookup_lt_Some).
  pose proof (omap_insert_perm f (<[i := y]> l) i y x E' Hy) as P. rewrite list_insert_insert_eq, Hx in P.
  rewrite list_insert_id in P by done. done.
Qed.

Lemma length_omap_le {A B} (f : A -> option B) (l : list A) : (length (omap f l) <= length l)%nat.
Proof. induction l as [|x l IH]; [done|]. cbn. destruct (f x); cbn; lia. Qed.

Lemma elem_of_pairs r p : p ∈ subs_of r <-> exists i s, subscriptions r !! i = Some s /\ entry s = Some p.
Proof.
  unfold subs_of, pairs. rewrite elem_of_list_to_set, list_elem_of_omap. split.
  - intros (s & Hs & E). apply list_elem_of_lookup in Hs as [i Hi]. eauto.
  - intros (i & s & Hi & E). exists s. split; [by eapply list_elem_of_lookup_2|done].
Qed.

Section subs_proofs.
  Context (r : subs_t) (R : subs_ok r).

Lemma sub_lookup i : (i < subscription_count r)%nat -> is_Some (subscriptions r !! i).
Proof. intros Hi. apply lookup_lt_is_Some. rewrite (sk_size _ R). pose proof (sk_count _ R). lia. Qed.

(** [s] holds the pair. *)
Lemma entry_spec s t c : entry s = Some (t, c) -> s_active s = true /\ s_topic s = Some t /\ s_client_id s = Some c.
Proof. unfold entry. destruct (s_active s), (s_topic s), (s_client_id s); cbn; intros [=]; by subst. Qed.

Lemma find_sub_spec t c n : forall i, (i + n)%nat = subscription_count r ->
    match find_sub n i (subscriptions r) t c with
    | Some (Some j) => (i <= j)%nat /\ exists s, subscriptions r !! j = Some s /\ entry s = Some (t, c)
    | Some None => forall j s, (i <= j)%nat -> subscriptions r !! j = Some s -> entry s <> Some (t, c)
    | None => False
    end.
Proof.
    induction n as [|n IH]; intros i Hi; cbn [find_sub].
    - intros j s Hj Hs E. apply entry_spec in E as [Ha _]. destruct (sk_active _ R j s Hs Ha). lia.
    - destruct (sub_lookup i ltac:(lia)) as [s Es]. rewrite Es.
      assert (Next : entry s <> Some (t, c) ->
        match find_sub n (S i) (subscriptions r) t c with
        | Some (Some j) => (i <= j)%nat /\ exists s, subscriptions r !! j = Some s /\ entry s = Some (t, c)
        | Some None => forall j s, (i <= j)%nat -> subscriptions r !! j = Some s -> entry s <> Some (t, c)
        | None => False
        end).
      { intros Ne. specialize (IH (S i) ltac:(lia)). destruct (find_sub n (S i) _ t c) as [[j|]|]; [|..|done].
        - destruct IH as [? ?]. split; [lia|done].
        - intros j s' Hj Hs'. destruct (decide (j = i)) as [->|]; [congruence|]. apply (IH j s'); [lia|done]. }
      destruct (s_active s) eqn:Ha; cbn [negb].
      + destruct (sk_active _ R i s Es Ha) as [[[t' c'] E] _]. pose proof E as E'. apply entry_spec in E' as (_ & -> & ->).
        destruct (strcmp_eq t' t) eqn:Et; cbn [negb].
        * apply strcmp_eq_true in Et as ->. destruct (strcmp_eq c' c) eqn:Ec.
          -- apply strcmp_eq_true in Ec as ->. split; [lia|by exists s].
          -- apply Next. rewrite E. apply strcmp_eq_false in Ec. congruence.
        * apply Next. rewrite E. apply strcmp_eq_false in Et. congruence.
      + apply Next. unfold entry. by rewrite Ha.
Qed.

Lemma find_subscription_spec t c :
    match notify_d_find_subscription r t c with
    | Some (Some j) => (t, c) ∈ subs_of r /\ exists s, subscriptions r !! j = Some s /\ entry s = Some (t, c)
    | Some None => (t, c) ∉ subs_of r
    | None => False
    end.
Proof.
    unfold notify_d_find_subscription. pose proof (find_sub_spec t c (subscription_count r) 0 eq_refl) as F.
    destruct (find_sub _ 0 _ t c) as [[j|]|]; [| |done].
    - destruct F as [_ (s & Hs & E)]. split; [apply elem_of_pairs; eauto|eauto].
    - rewrite elem_of_pairs. intros (i & s & Hi & E). by apply (F i s (Nat.le_0_l i) Hi).
Qed.

Lemma free_slot_spec n : forall i, (i + n)%nat = subscription_count r ->
    (forall j s, (j < i)%nat -> subscriptions r !! j = Some s -> s_active s = true) ->
    match free_slot n i (subscriptions r) with
    | Some (Some j) => (j < subscription_count r)%nat /\ exists s, subscriptions r !! j = Some s /\ entry s = None
    | Some None => forall j s, (j < subscription_count r)%nat -> subscriptions r !! j = Some s -> s_active s = true
    | None => False
    end.
Proof.
    induction n as [|n IH]; intros i Hi Hp; cbn [free_slot].
    - intros j s Hj. apply Hp. lia.
    - destruct (sub_lookup i ltac:(lia)) as [s Es]. rewrite Es. destruct (s_active s) eqn:Ha; cbn [negb].
      + apply IH; [lia|]. intros j s' Hj Hs'. destruct (decide (j = i)) as [->|]; [congruence|]. apply (Hp j); [lia|done].
      + split; [lia|]. exists s. split; [done|]. unfold entry. by rewrite Ha.
Qed.

Lemma size_subs_of : size (subs_of r) = length (pairs r).
Proof. unfold subs_of. apply size_list_to_set, R. Qed.

(** With no free slot the set has 512 pairs. *)
Lemma no_slot_full :
    (forall j s, (j < subscription_count r)%nat -> subscriptions r !! j = Some s -> s_active s = true) ->
    subscription_count r = NOTIFY_D_MAX_SUBSCRIPTIONS -> size (subs_of r) = NOTIFY_D_MAX_SUBSCRIPTIONS.
Proof.
    intros Ha Hc. rewrite size_subs_of. unfold pairs. rewrite <- (sk_size _ R).
    assert (HF : Forall (fun s => is_Some (entry s)) (subscriptions r)).
    { apply Forall_lookup. intros i s Hi. apply (sk_active _ R i s Hi). apply (Ha i s); [|done].
      rewrite Hc, <- (sk_size _ R). by eapply lookup_lt_Some. }
    revert HF. generalize (subscriptions r). intros l HF. induction HF as [|s l [p Hp] HF IH]; [done|]. cbn. rewrite Hp. cbn. by rewrite IH.
Qed.

Lemma free_slot_room j s : subscriptions r !! j = Some s -> entry s = None ->
    (size (subs_of r) < NOTIFY_D_MAX_SUBSCRIPTIONS)%nat.
Proof.
    intros Hj He. rewrite size_subs_of. unfold pairs. rewrite <- (sk_size _ R). revert Hj. generalize (subscriptions r). intros l Hj.
    rewrite <- (take_drop_middle l j s Hj), omap_app, !length_app. cbn. rewrite He. 
    pose proof (length_omap_le entry (take j l)). pose proof (length_omap_le entry (drop (S j) l)). lia.
Qed.

Lemma insert_ok i s t c : subscriptions r !! i = Some s -> entry s = None -> (t, c) ∉ subs_of r ->
    (i <= subscription_count r)%nat ->
    let r' := mkSubs (<[i := mkSub (Some c) (Some t) true]> (subscriptions r))
                (if (subscription_count r <=? i)%nat then S i else subscription_count r) in
    subs_ok r' /\ subs_of r' = {[(t, c)]} ∪ subs_of r.
Proof.
    intros Hi He Hn Hc r'.
    assert (P : pairs r' ≡ₚ (t, c) :: pairs r) by exact (omap_insert_perm entry _ i s (mkSub (Some c) (Some t) true) Hi He).
    assert (D : NoDup (pairs r')).
    { rewrite P. apply NoDup_cons. split; [|apply R]. unfold subs_of in Hn. by rewrite elem_of_list_to_set in Hn. }
    split.
    - pose proof (lookup_lt_Some _ _ _ Hi) as L. rewrite (sk_size _ R) in L.
      pose proof (sk_count _ R) as Q. split; unfold r'; cbn [subscriptions subscription_count].
      + rewrite length_insert. apply R.
      + destruct (Nat.leb_spec (subscription_count r) i); lia.
      + intros j s' Hj Ha. destruct (decide (i = j)) as [<-|N].
        * rewrite list_lookup_insert_eq in Hj by (by eapply lookup_lt_Some). simplify_eq. split; [by eexists|].
          destruct (Nat.leb_spec (subscription_count r) i); lia.
        * rewrite list_lookup_insert_ne in Hj by done. destruct (sk_active _ R j s' Hj Ha). split; [done|].
          destruct (Nat.leb_spec (subscription_count r) i); lia.
      + exact D.
    - unfold subs_of. apply leibniz_equiv. rewrite P. by rewrite list_to_set_cons.
Qed.

Lemma clear_ok i s p : subscriptions r !! i = Some s -> entry s = Some p ->
    let r' := mkSubs (<[i := mkSub None None false]> (subscriptions r)) (subscription_count r) in
    subs_ok r' /\ subs_of r' = subs_of r ∖ {[p]}.
Proof.
    intros Hi He r'.
    assert (P : pairs r ≡ₚ p :: pairs r') by exact (omap_clear_perm entry _ i s (mkSub None None false) p Hi He eq_refl).
    pose proof (sk_nodup _ R) as D. rewrite P in D. apply NoDup_cons in D as [Dp D]. split.
    - split; unfold r'; cbn [subscriptions subscription_count]; [rewrite length_insert; apply R|apply R| |exact D].
      intros j s' Hj Ha. destruct (decide (i = j)) as [<-|N].
      + rewrite list_lookup_insert_eq in Hj by (by eapply lookup_lt_Some). by simplify_eq.
      + rewrite list_lookup_insert_ne in Hj by done. by apply R.
    - unfold subs_of. apply leibniz_equiv. rewrite P, list_to_set_cons. rewrite <- (elem_of_list_to_set (C := gset (string * string))) in Dp. set_solver.
Qed.

Lemma clear_free i s : subscriptions r !! i = Some s -> entry s = None ->
    let r' := mkSubs (<[i := mkSub None None false]> (subscriptions r)) (subscription_count r) in
    subs_ok r' /\ subs_of r' = subs_of r.
Proof.
    intros Hi He r'.
    assert (P : pairs r' ≡ₚ pairs r) by exact (omap_insert_perm entry _ i s (mkSub None None false) Hi He).
    assert (D : NoDup (pairs r')) by (rewrite P; apply R). split.
    - split; unfold r'; cbn [subscriptions subscription_count]; [rewrite length_insert; apply R|apply R| |exact D].
      intros j s' Hj Ha. destruct (decide (i = j)) as [<-|N].
      + rewrite list_lookup_insert_eq in Hj by (by eapply lookup_lt_Some). by simplify_eq.
      + rewrite list_lookup_insert_ne in Hj by done. by apply R.
    - unfold subs_of. apply leibniz_equiv. by rewrite P.
Qed.
End subs_proofs.

Definition of_topic (t : string) (p : string * string) : Prop := p.1 = t.

#[local] Instance of_topic_dec t p : Decision (of_topic t p).
Proof. unfold of_topic. solve_decision. Defined.

Lemma count_subs_spec r t n : subs_ok r -> forall i k, (i + n)%nat = subscription_count r ->
  count_subs n i (subscriptions r) t k = Some (k + length (filter (of_topic t) (omap entry (drop i (subscriptions r)))))%nat.
Proof.
  intros R. induction n as [|n IH]; intros i k Hi; cbn [count_subs].
  - assert (omap entry (drop i (subscriptions r)) = []) as ->.
    { assert (HF : Forall (fun s => entry s = None) (drop i (subscriptions r))).
      { apply Forall_lookup. intros j s Hj. rewrite lookup_drop in Hj. unfold entry. destruct (s_active s) eqn:Ha; [|done].
        destruct (sk_active _ R _ s Hj Ha). lia. }
      induction HF as [|s l Hs HF IH]; [done|]. cbn. by rewrite Hs. }
    cbn. f_equal. lia.
  - destruct (sub_lookup r R i ltac:(lia)) as [s Es]. rewrite Es. rewrite (drop_S _ s i Es). cbn [omap list_omap].
    destruct (s_active s) eqn:Ha; cbn [negb].
    + destruct (sk_active _ R i s Es Ha) as [[[t' c'] E] _]. rewrite E. apply entry_spec in E as (_ & -> & _).
      rewrite IH by lia. rewrite filter_cons. unfold of_topic at 2. cbn [fst].
      destruct (strcmp_eq t' t) eqn:Et.
      * apply strcmp_eq_true in Et. rewrite decide_True by done. cbn [length]. f_equal. lia.
      * apply strcmp_eq_false in Et. by rewrite decide_False by done.
    + assert (entry s = None) as -> by (unfold entry; by rewrite Ha). by rewrite IH by lia.
Qed.

(** A request to the registry and its answer. *)
Inductive sub_req :=
| RSub (topic client_id : option string)
| RUnsub (topic client_id : option string)
| RHas (topic client_id : option string)
| RCount (topic : option string).

Inductive sub_ans := ARc (rc : airy_rc) | ABool (b : bool) | ANat (n : nat).

Definition sub_run {W} `{NotifyOS W} (r : subs_t) (q : sub_req) (w : W) : option (sub_ans * subs_t * W) :=
  match q with
  | RSub t c => '(rc, r, w) ← notify_d_subscribe r t c w; Some (ARc rc, r, w)
  | RUnsub t c => '(rc, r) ← notify_d_unsubscribe r t c; Some (ARc rc, r, w)
  | RHas t c => b ← notify_d_has_subscription r t c; Some (ABool b, r, w)
  | RCount t => n ← notify_d_subscription_count r t; Some (ANat n, r, w)
  end.

Fixpoint sub_runs {W} `{NotifyOS W} (r : subs_t) (l : list sub_req) (w : W) : option (list sub_ans * subs_t * W) :=
  match l with
  | [] => Some ([], r, w)
  | q :: l' => '(a, r, w) ← sub_run r q w; '(al, r, w) ← sub_runs r l' w; Some (a :: al, r, w)
  end.

(** The abstract registry: a set of at most 512 pairs.  Only memory is left
    open. *)
Inductive set_step (X : gset (string * string)) : sub_req -> sub_ans -> gset (string * string) -> Prop :=
| st_sub_bad t c : bad_name t || bad_name c = true -> set_step X (RSub t c) (ARc AIRY_ERR_INVALID_PARAM) X
| st_sub_old t c : bad_name (Some t) || bad_name (Some c) = false -> (t, c) ∈ X ->
    set_step X (RSub (Some t) (Some c)) (ARc AIRY_SUCCESS) X
| st_sub_full t c : bad_name (Some t) || bad_name (Some c) = false -> (t, c) ∉ X -> size X = NOTIFY_D_MAX_SUBSCRIPTIONS ->
    set_step X (RSub (Some t) (Some c)) (ARc AIRY_ERR_UNKNOWN) X
| st_sub_new t c : bad_name (Some t) || bad_name (Some c) = false -> (t, c) ∉ X -> (size X < NOTIFY_D_MAX_SUBSCRIPTIONS)%nat ->
    set_step X (RSub (Some t) (Some c)) (ARc AIRY_SUCCESS) ({[(t, c)]} ∪ X)
| st_sub_oom t c : bad_name (Some t) || bad_name (Some c) = false -> (t, c) ∉ X -> (size X < NOTIFY_D_MAX_SUBSCRIPTIONS)%nat ->
    set_step X (RSub (Some t) (Some c)) (ARc AIRY_ERR_OUT_OF_MEMORY) X
| st_unsub_bad t c : bad_name t || bad_name c = true -> set_step X (RUnsub t c) (ARc AIRY_ERR_INVALID_PARAM) X
| st_unsub t c : bad_name (Some t) || bad_name (Some c) = false ->
    set_step X (RUnsub (Some t) (Some c)) (ARc AIRY_SUCCESS) (X ∖ {[(t, c)]})
| st_has t c : set_step X (RHas (Some t) (Some c)) (ABool (bool_decide ((t, c) ∈ X))) X
| st_has_null t c : t = None \/ c = None -> set_step X (RHas t c) (ABool false) X
| st_count t : set_step X (RCount (Some t)) (ANat (size (filter (of_topic t) X))) X
| st_count_null : set_step X (RCount None) (ANat 0) X.

Inductive set_steps : gset (string * string) -> list sub_req -> list sub_ans -> gset (string * string) -> Prop :=
| ss_nil X : set_steps X [] [] X
| ss_cons X q a Y l al Z : set_step X q a Y -> set_steps Y l al Z -> set_steps X (q :: l) (a :: al) Z.

Section refine.
  Context {W : Type} `{NotifyOS W}.

Lemma subscribe_refines r t c (w : W) : subs_ok r ->
    exists rc r' w', notify_d_subscribe r t c w = Some (rc, r', w') /\ subs_ok r' /\ set_step (subs_of r) (RSub t c) (ARc rc) (subs_of r').
Proof.
    intros R. unfold notify_d_subscribe. destruct t as [t|], c as [c|];
      [|do 3 eexists; split_and!; [done|done|constructor; cbn; try done; apply orb_true_r]..].
    destruct (is_empty t || is_empty c) eqn:B; [do 3 eexists; split_and!; [done|done|by constructor]|].
    pose proof (find_subscription_spec r R t c) as F.
    destruct (notify_d_find_subscription r t c) as [[j|]|]; cbn [mbind option_bind]; [| |done].
    { do 3 eexists. split_and!; [done|done|]. apply st_sub_old; [done|apply F]. }
    pose proof (free_slot_spec r R (subscription_count r) 0 eq_refl ltac:(lia)) as Fr.
    destruct (free_slot _ 0 _) as [[i|]|]; cbn [mbind option_bind]; [| |done].
    - destruct Fr as [Hi (s & Hs & He)]. pose proof (free_slot_room r R i s Hs He).
      destruct (AIRY_STRDUP c w) as [c' w1] eqn:Ec, (AIRY_STRDUP t w1) as [t' w2] eqn:Et.
      unfold AIRY_STRDUP in Ec, Et. destruct (os_alloc w) as [[|] ?], (os_alloc w1) as [[|] ?]; simplify_eq; do 3 eexists;
        (split; [reflexivity|]).
      1: destruct (insert_ok r R i s t c Hs He F ltac:(lia)) as [? ->].
      2-4: destruct (clear_free r R i s Hs He) as [? ->].
      all: split; [done|by constructor].
    - destruct (Nat.ltb_spec (subscription_count r) NOTIFY_D_MAX_SUBSCRIPTIONS) as [Hlt|Hge].
      + destruct (lookup_lt_is_Some_2 (subscriptions r) (subscription_count r)) as [s Hs]; [rewrite (sk_size _ R); done|].
        assert (He : entry s = None).
        { unfold entry. destruct (s_active s) eqn:Ha; [|done]. destruct (sk_active _ R _ s Hs Ha). lia. }
        pose proof (free_slot_room r R _ s Hs He).
        destruct (AIRY_STRDUP c w) as [c' w1] eqn:Ec, (AIRY_STRDUP t w1) as [t' w2] eqn:Et.
        unfold AIRY_STRDUP in Ec, Et. destruct (os_alloc w) as [[|] ?], (os_alloc w1) as [[|] ?]; simplify_eq; do 3 eexists;
          (split; [reflexivity|]).
        1: destruct (insert_ok r R _ s t c Hs He F ltac:(lia)) as [? ->].
        2-4: destruct (clear_free r R _ s Hs He) as [? ->].
        all: split; [done|by constructor].
      + pose proof (sk_count _ R). do 3 eexists. split_and!; [done|done|]. apply st_sub_full; [done..|].
        apply no_slot_full; [done|done|lia].
Qed.

Lemma sub_run_refines r q (w : W) : subs_ok r ->
    exists a r' w', sub_run r q w = Some (a, r', w') /\ subs_ok r' /\ set_step (subs_of r) q a (subs_of r').
Proof.
    intros R. destruct q as [t c|t c|t c|t]; cbn [sub_run].
    - destruct (subscribe_refines r t c w R) as (rc & r' & w' & -> & ? & ?). cbn. do 3 eexists. by split_and!.
    - unfold notify_d_unsubscribe. destruct t as [t|], c as [c|];
        [|do 3 eexists; split_and!; [done|done|constructor; cbn; try done; apply orb_true_r]..].
      destruct (is_empty t || is_empty c) eqn:B; [do 3 eexists; split_and!; [done|done|by constructor]|].
      pose proof (find_subscription_spec r R t c) as F.
      destruct (notify_d_find_subscription r t c) as [[j|]|]; cbn [mbind option_bind]; [| |done]; do 3 eexists; (split; [done|]).
      + destruct F as [_ (s & Hs & He)]. destruct (clear_ok r R j s (t, c) Hs He) as [? ->]. split; [done|by constructor].
      + split; [done|]. replace (subs_of r) with (subs_of r ∖ {[(t, c)]}) at 2 by set_solver. by constructor.
    - unfold notify_d_has_subscription. destruct t as [t|], c as [c|]; [|do 3 eexists; split_and!; [done|done|constructor; tauto]..].
      pose proof (find_subscription_spec r R t c) as F.
      destruct (notify_d_find_subscription r t c) as [[j|]|]; cbn [mbind option_bind]; [| |done]; do 3 eexists;
        (split_and!; [done|done|]).
      + destruct F as [F _]. pose proof (st_has (subs_of r) t c) as S. by rewrite bool_decide_true in S.
      + pose proof (st_has (subs_of r) t c) as S. by rewrite bool_decide_false in S.
    - unfold notify_d_subscription_count. destruct t as [t|]; [|do 3 eexists; split_and!; [done|done|constructor]].
      rewrite (count_subs_spec r t _ R 0 0 eq_refl). cbn [mbind option_bind Nat.add]. do 3 eexists. split_and!; [done|done|].
      rewrite drop_0. pose proof (st_count (subs_of r) t) as S.
      replace (size (filter (of_topic t) (subs_of r))) with (length (filter (of_topic t) (pairs r))) in S; [done|].
      rewrite <- (size_list_to_set (C := gset (string * string))) by (apply NoDup_filter, R). f_equal. unfold subs_of. apply leibniz_equiv.
      intros p. rewrite elem_of_filter, !elem_of_list_to_set. by rewrite list_elem_of_filter.
Qed.
End refine.

Definition empty_subs : subs_t := mkSubs (replicate NOTIFY_D_MAX_SUBSCRIPTIONS zero_sub) 0.

Lemma empty_subs_ok : subs_ok empty_subs /\ subs_of empty_subs = ∅.
Proof.
  assert (P : pairs empty_subs = []) by (vm_compute; reflexivity).
  split; [|unfold subs_of; by rewrite P]. split; [done|cbn; lia| |rewrite P; constructor].
  intros i s Hs Ha. apply lookup_replicate in Hs as [-> _]. discriminate Ha.
Qed.

(** C20.  The subscription registry is a set of pairs of a topic and a client,
    of at most 512 pairs.  For any sequence of requests on the fresh registry
    every loop stays inside the array and no null name is compared; subscribing
    twice changes nothing, subscribing to a full registry is refused exactly
    when the pair is new and 512 pairs are there (slots that were given up are
    used again), unsubscribing removes the pair, a look-up answers membership
    and a count is the number of clients of the topic. *)
Theorem registry_refines {W} `{NotifyOS W} (l : list sub_req) (w : W) :
  exists al r w', sub_runs empty_subs l w = Some (al, r, w') /\ subs_ok r /\ set_steps ∅ l al (subs_of r).
Proof.
  destruct empty_subs_ok as [R <-]. revert R. generalize empty_subs. revert w.
  induction l as [|q l IH]; intros w r R; [do 3 eexists; split_and!; [done|done|constructor]|].
  destruct (sub_run_refines r q w R) as (a & r1 & w1 & E & R1 & S). destruct (IH w1 r1 R1) as (al & r2 & w2 & E2 & R2 & S2).
  exists (a :: al), r2, w2. cbn [sub_runs]. rewrite E. cbn. rewrite E2. cbn. split_and!; [done|done|by econstructor].
Qed.

(** ** Delivery *)

(** A record of the calls of [send]: socket, bytes and returned value.  Nothing
    is assumed of the value: a call may fail or take a part. *)
Class SendLog (W : Type) `{SockOS W} := {
  sent : W -> list (Z * string * Z);
  send_logged : forall f b w, sent (airy_sock_send f b w).2 = sent w ++ [(f, b, (airy_sock_send f b w).1)]
}.

(** Who is meant to get an event, with the registry as a set. *)
Definition wanted (X : gset (string * string)) (e : notify_event_t) (c : notify_client_t) : Prop :=
  match e_topic e, c_topic c with
  | Some t, Some ct => t = "broadcast"%string \/ ct = t \/ exists id, c_client_id c = Some id /\ (t, id) ∈ X
  | _, _ => True
  end.

#[local] Instance wanted_dec X e c : Decision (wanted X e c).
Proof.
  unfold wanted. destruct (e_topic e) as [t|]; [|exact (left I)]. destruct (c_topic c) as [ct|]; [|exact (left I)].
  destruct (c_client_id c) as [id|].
  - destruct (decide (t = "broadcast"%string \/ ct = t \/ (t, id) ∈ X)) as [D|D]; [left|right].
    + destruct D as [?|[?|?]]; [by left|by right; left|right; right; by eexists].
    + intros [?|[?|(? & [= <-] & ?)]]; apply D; tauto.
  - destruct (decide (t = "broadcast"%string \/ ct = t)) as [D|D]; [left; tauto|right].
    intros [?|[?|(? & ? & _)]]; [tauto..|done].
Defined.

Definition receives (X : gset (string * string)) (e : notify_event_t) (c : notify_client_t) : Prop :=
  c_active c = true /\ wanted X e c /\ (type c = NOTIFY_CLIENT_WEBSOCKET -> handshake_done c = true).

#[local] Instance receives_dec X e c : Decision (receives X e c).
Proof. unfold receives. solve_decision. Defined.

(** The calls that carry the event to a client, one or, for a frame, two: the
    text only after a header that was taken. *)
Definition calls (e : notify_event_t) (c : notify_client_t) (log : list (Z * string * Z)) : Prop :=
  match type c with
  | NOTIFY_CLIENT_WEBSOCKET =>
      if fd c =? AIRY_INVALID_SOCKET then log = []
      else exists n m, log = (fd c, string_of_bytes (ws_header (strlen (event_text e))), n) ::
                             (if 0 <? n then [(fd c, event_text e, m)] else [])
  | NOTIFY_CLIENT_SOCKET => exists n, log = [(fd c, event_text e, n)]
  | NOTIFY_CLIENT_SSE => exists n, log = [(fd c, sse_text e, n)]
  end.

(** Both texts fit their buffers. *)
Definition fits (e : notify_event_t) : Prop :=
  (String.length (event_text e) < json_size)%nat /\ (String.length (sse_text e) < sse_size)%nat.

Definition after (X : gset (string * string)) (e : notify_event_t) (c : notify_client_t) : notify_client_t :=
  if decide (receives X e c) then count_sent c else c.

Lemma bytes_of_bytes l : Forall is_u8 l -> bytes_of (string_of_bytes l) = l.
Proof.
  induction 1 as [|b l Hb HF IH]; [done|]. change (bytes_of (string_of_bytes (b :: l))) with
    (Z.of_nat (nat_of_ascii (ascii_of_nat (Z.to_nat b))) :: bytes_of (string_of_bytes l)).
  rewrite IH. f_equal. unfold is_u8, UINT8_MAX in Hb. rewrite nat_ascii_embedding by lia. lia.
Qed.

Lemma bytes_header n : bytes_of (string_of_bytes (ws_header n)) = ws_header n.
Proof.
  apply bytes_of_bytes. assert (U : forall x, is_u8 (u8 x)).
  { intros x. unfold is_u8, u8, UINT8_MAX. pose proof (Z.mod_pos_bound x 256). lia. }
  unfold ws_header. repeat case_match; cbn [app map]; rewrite !Forall_cons; split_and!; try apply U; try done.
Qed.

Section delivery.
  Context {W : Type} `{NotifyOS W} `{!SendLog W}.

Lemma subscribed_iff r e c : subs_ok r -> exists b, subscribed r e c = Some b /\ (b = true <-> wanted (subs_of r) e c).
Proof.
    intros R. unfold subscribed, wanted. destruct (e_topic e) as [t|]; [|by exists true].
    destruct (c_topic c) as [ct|]; [|by exists true].
    destruct (strcmp_eq t "broadcast") eqn:E1; [apply strcmp_eq_true in E1; exists true; tauto|].
    destruct (strcmp_eq ct t) eqn:E2; [apply strcmp_eq_true in E2; exists true; tauto|].
    apply strcmp_eq_false in E1, E2. cbn [orb]. destruct (c_client_id c) as [id|].
    - unfold notify_d_has_subscription. pose proof (find_subscription_spec r R t id) as F.
      destruct (notify_d_find_subscription r t id) as [[j|]|]; cbn [mbind option_bind]; [| |done]; eexists; (split; [done|]).
      + split; [|done]. intros _. right; right. exists id. split; [done|apply F].
      + split; [done|]. intros [?|[?|(? & [= <-] & ?)]]; tauto.
    - exists false. split; [done|]. split; [done|]. intros [?|[?|(? & ? & _)]]; tauto || done.
Qed.

Lemma subscribed_spec r e c : subs_ok r -> subscribed r e c = Some (bool_decide (wanted (subs_of r) e c)).
Proof.
    intros R. destruct (subscribed_iff r e c R) as (b & -> & B). f_equal. apply eq_bool_prop_intro.
    rewrite bool_decide_spec. destruct b; cbn; tauto || (split; [done|intros ?%B; done]).
Qed.

Lemma ws_frame_sent f payload (w : W) :
    exists log, sent (notify_d_send_ws_frame f payload w).2 = sent w ++ log /\
      if f =? AIRY_INVALID_SOCKET then log = []
      else exists n m, log = (f, string_of_bytes (ws_header (strlen payload)), n) :: (if 0 <? n then [(f, payload, m)] else []).
Proof.
    unfold notify_d_send_ws_frame. destruct (f =? AIRY_INVALID_SOCKET); [exists []; by rewrite app_nil_r|].
    pose proof (send_logged f (string_of_bytes (ws_header (strlen payload))) w) as L1.
    destruct (airy_sock_send f _ w) as [n w1]. cbn [fst snd] in *. destruct (Z.leb_spec n 0) as [Hn|Hn]; cbn [snd].
    - eexists. split; [exact L1|]. exists n, 0. by rewrite (proj2 (Z.ltb_ge 0 n)).
    - pose proof (send_logged f payload w1) as L2. destruct (airy_sock_send f payload w1) as [m w2]. cbn [fst snd] in *.
      rewrite L1, <- app_assoc in L2. exists [(f, string_of_bytes (ws_header (strlen payload)), n); (f, payload, m)].
      split; [by destruct (m <=? 0)|]. exists n, m. by rewrite (proj2 (Z.ltb_lt 0 n)).
Qed.

Lemma printed_fits size text : (String.length text < size)%nat -> printed size text = Some text.
Proof. intros Hl. unfold printed. by destruct (Nat.ltb_spec (String.length text) size); [|lia]. Qed.

Lemma bcast_one_spec r e c (w : W) : subs_ok r -> fits e ->
    exists w' log, bcast_one r e c w = Some (bool_decide (receives (subs_of r) e c), after (subs_of r) e c, w') /\
      sent w' = sent w ++ log /\ (if decide (receives (subs_of r) e c) then calls e c log else log = []).
Proof.
    intros R [F1 F2]. unfold bcast_one, after.
    assert (Hno : ~ receives (subs_of r) e c -> exists w' log,
      Some (false, c, w) = Some (bool_decide (receives (subs_of r) e c), if decide (receives (subs_of r) e c) then count_sent c else c, w') /\
      sent w' = sent w ++ log /\ (if decide (receives (subs_of r) e c) then calls e c log else log = [])).
    { intros D. exists w, []. rewrite bool_decide_false, !decide_False, app_nil_r by done. done. }
    assert (Hyes : forall w1 log, receives (subs_of r) e c -> sent w1 = sent w ++ log -> calls e c log -> exists w' log,
      Some (true, count_sent c, w1) = Some (bool_decide (receives (subs_of r) e c), if decide (receives (subs_of r) e c) then count_sent c else c, w') /\
      sent w' = sent w ++ log /\ (if decide (receives (subs_of r) e c) then calls e c log else log = [])).
    { intros w1 log D L C. exists w1, log. rewrite bool_decide_true, !decide_True by done. done. }
    destruct (c_active c) eqn:Ha; cbn [negb]; [|apply Hno; intros [? _]; congruence].
    rewrite subscribed_spec by done. cbn [mbind option_bind].
    destruct (decide (wanted (subs_of r) e c)) as [D|D].
    2: { rewrite (bool_decide_false (wanted _ _ _)) by done. apply Hno. by intros (_ & ? & _). }
    rewrite (bool_decide_true (wanted _ _ _)) by done. cbn [negb].
    destruct (type c) eqn:Et.
    - rewrite printed_fits by done. cbn [mbind option_bind]. eapply Hyes; [split_and!; congruence|apply send_logged|].
      unfold calls. rewrite Et. by eexists.
    - destruct (handshake_done c) eqn:Eh; [|apply Hno; intros (_ & _ & Q); specialize (Q Et); congruence].
      rewrite printed_fits by done. cbn [mbind option_bind]. destruct (ws_frame_sent (fd c) (event_text e) w) as (log & L & C).
      eapply Hyes; [split_and!; congruence|exact L|]. unfold calls. by rewrite Et.
    - rewrite printed_fits by done. cbn [mbind option_bind]. eapply Hyes; [split_and!; congruence|apply send_logged|].
      unfold calls. rewrite Et. by eexists.
Qed.

Lemma bcast_loop_spec r e : subs_ok r -> fits e -> forall n i k l (w : W), (i + n <= length l)%nat ->
    exists w' logs, bcast_loop n i k r e l w =
        Some (k + length (filter (receives (subs_of r) e) (take n (drop i l))),
              take i l ++ map (after (subs_of r) e) (take n (drop i l)) ++ drop (i + n) l, w')%nat /\
      sent w' = sent w ++ concat logs /\ Forall2 (calls e) (filter (receives (subs_of r) e) (take n (drop i l))) logs.
Proof.
    intros R F. induction n as [|n IH]; intros i k l w Hl; cbn [bcast_loop].
    - exists w, []. rewrite take_0. cbn. rewrite app_nil_r, !Nat.add_0_r, take_drop. done.
    - destruct (lookup_lt_is_Some_2 l i ltac:(lia)) as [c Ec]. rewrite Ec. cbn [mbind option_bind].
      destruct (bcast_one_spec r e c w R F) as (w1 & log & -> & L1 & C1). cbn [mbind option_bind].
      set (c' := after (subs_of r) e c).
      destruct (IH (S i) (if bool_decide (receives (subs_of r) e c) then S k else k) (<[i := c']> l) w1) as (w2 & logs & -> & L2 & C2);
        [rewrite length_insert; lia|].
      assert (Ei : (i < length l)%nat) by lia.
      assert (E1 : drop (S i) (<[i := c']> l) = drop (S i) l) by (apply drop_insert_lt; lia).
      assert (E2 : take (S i) (<[i := c']> l) = take i l ++ [c']).
      { rewrite (take_S_r _ _ c') by (by apply list_lookup_insert_eq). by rewrite take_insert_ge by lia. }
      assert (E3 : drop (S i + n) (<[i := c']> l) = drop (i + S n) l).
      { rewrite drop_insert_lt by lia. f_equal. lia. }
      rewrite E1 in C2 |- *. rewrite E2, E3. rewrite (drop_S l c i Ec). cbn [take map]. rewrite filter_cons.
      rewrite L1, <- app_assoc in L2. rewrite <- !app_assoc. cbn [app].
      destruct (decide (receives (subs_of r) e c)) as [D|D].
      + exists w2, (log :: logs). rewrite bool_decide_true by done. split_and!; [do 3 f_equal; cbn [length]; lia|done|by constructor].
      + exists w2, logs. rewrite bool_decide_false by done. subst log. done.
Qed.
End delivery.

(** C19.  Who is sent an event, and what.  While the number of clients is within
    the array and the two texts fit their buffers, a broadcast reads inside the
    array and calls [send] for exactly the clients that are to get the event, in
    the order of their slots: those that are active and either have no topic,
    or the topic of the event, or a subscription to it in the registry (an event
    without topic and one on "broadcast" are for all), a WebSocket client only
    once its handshake is done.  A socket is sent the text, an event-stream
    client the event form, both with one call; a WebSocket client a frame header
    and, if that call took something, the text, and the two together are one
    frame that a reader decodes to the text.  Nothing is assumed of what [send]
    returns: a failed or partial call is not repeated.  The count and the
    per-client counters are those of the clients that were to get the event,
    failed calls included; nobody else's record changes. *)
Theorem delivery_exact {W} `{NotifyOS W} `{!SendLog W} (s : notify_d_service_t) (e : notify_event_t) (w : W) :
  (client_count s <= length (clients s))%nat -> subs_ok (subs s) -> fits e ->
  let seen := take (client_count s) (clients s) in
  let X := subs_of (subs s) in
  exists w' logs, notify_d_broadcast_event s e w =
      Some (length (filter (receives X e) seen), set_clients (map (after X e) seen ++ drop (client_count s) (clients s)) s, w') /\
    sent w' = sent w ++ concat logs /\ Forall2 (calls e) (filter (receives X e) seen) logs /\
    ws_messages 1 (ws_header (strlen (event_text e)) ++ bytes_of (event_text e)) = Some [bytes_of (event_text e)].
Proof.
  intros Hc R F. cbv zeta.
  destruct (bcast_loop_spec (subs s) e R F (client_count s) 0 0 (clients s) w ltac:(lia)) as (w' & logs & E & L & C).
  rewrite drop_0 in E, C. cbn [Nat.add take app] in E. exists w', logs. split_and!; [|done|done|].
  - unfold notify_d_broadcast_event. rewrite E. done.
  - pose proof (ws_stream [event_text e] 1 ltac:(done)) as S.
    cbn [map concat] in S. rewrite app_nil_r in S. apply S.
    constructor; [|done]. destruct F as [F _]. unfold strlen, json_size in *. lia.
Qed.

(** ** A concrete environment: calls are recorded, those to socket 5 fail *)

Definition log_world : Type := list (Z * string).

#[export] Instance log_mem : MemOS log_world :=
  Build_MemOS log_world (fun w => (true, w)) (fun w => (1, w)) (fun w => (2, w)) 4096 unit (fun _ w => (Some tt, w))
    (fun _ t => strlen t) "generic".

#[export] Instance log_sock : SockOS log_world := Build_SockOS log_world log_mem (fun f b w => (if f =? 5 then -1 else strlen b, w ++ [(f, b)])) (fun _ w => w).

#[export] Instance log_os : NotifyOS log_world := Build_NotifyOS log_world log_sock (fun w => (Z.of_nat (length w), w)).

#[export] Instance log_laws : SendLog log_world.
Proof. exists (map (fun '(f, b) => (f, b, if f =? 5 then -1 else strlen b))). intros f b w. exact (map_app _ w [(f, b)]). Defined.

(** Two WebSocket clients, the second with a broken connection, an event-stream client and a socket with a topic of its
    own. *)
Definition toy_clients : list notify_client_t :=
  [mkClient 4 NOTIFY_CLIENT_WEBSOCKET None None 0 0 0 true true;
   mkClient 5 NOTIFY_CLIENT_WEBSOCKET None None 0 0 0 true true;
   mkClient 6 NOTIFY_CLIENT_SSE None None 0 0 0 true true;
   mkClient 7 NOTIFY_CLIENT_SOCKET (Some "news"%string) (Some "me"%string) 0 0 0 true false].

Definition toy_svc : notify_d_service_t :=
  mkSvc (toy_clients ++ replicate 124 zero_client) 4 (mkRing (replicate MAXP None) 0 0 0 []) empty_subs 0 0 0 0 true true false 3.

Definition toy_event : notify_event_t := mkEvent (Some "hi"%string) (Some "chat"%string) None 9.

Lemma delivery_exact_witness :
  exists (w' : log_world) logs, notify_d_broadcast_event toy_svc toy_event ([] : log_world) =
      Some (3%nat, set_clients (map (after ∅ toy_event) toy_clients ++ replicate 124 zero_client) toy_svc, w') /\
    Forall2 (calls toy_event) (take 3 toy_clients) logs /\ sent w' = concat logs /\
    map (fun x => (x.1.1, 0 <? x.2)) (concat logs) = [(4, true); (4, true); (5, false); (6, true)].
Proof.
  destruct (delivery_exact toy_svc toy_event ([] : log_world)) as (w' & logs & E & L & C & _);
    [cbn; lia|apply empty_subs_ok|split; apply Nat.ltb_lt; vm_compute; reflexivity|].
  assert (subs_of (subs toy_svc) = ∅) as S by apply empty_subs_ok. rewrite S in E, C.
  exists w', logs. split_and!; [rewrite E; vm_compute; reflexivity|exact C|exact L|].
  assert (Hw : Some w' = (fun x => x.2) <$> notify_d_broadcast_event toy_svc toy_event ([] : log_world)) by (by rewrite E).
  vm_compute in Hw. injection Hw as ->.
  change (sent ([] : log_world) ++ concat logs) with (concat logs) in L. rewrite <- L. vm_compute. reflexivity.
Defined.
