(* ===== verification/NotifySys.v ===== *)
(** * NotifySys

    The notification daemon as a system of threads: connections that publish,
    subscribe, register and are answered, the event loop that takes the oldest
    event and walks over the clients without holding the lock, and the two forms
    of stop (file Notify; notify_d/src/svc.c).  What happens under the lock is
    one step, and so is a round of the broadcast. *)

From stdpp Require Import gmap.
From S2P Require Import Prelude MemEnv Cjson WebSocket Notify.

(** ** The event loop *)

Inductive phase :=
| EIdle
| EVisit (p i count : nat)                     (** broadcasting event [p], next client [i] *)
| EExit.

Inductive stopping := NotStopping | Joining | Stopped.

(** [notify_d_reply_stats] after the lock is given back: what is to be reported,
    then the reply sent. *)
Inductive reply := ToSend (v : Z * Z * nat * nat * Z) | Sent.

Record sys (W : Type) := mkSys {
  sv : notify_d_service_t;
  loop : phase;
  replies : list (nat * Z * reply);            (** sockets being answered *)
  stop : stopping;
  wd : W
}.
Arguments mkSys {W}. Arguments sv {W}. Arguments loop {W}. Arguments replies {W}. Arguments stop {W}. Arguments wd {W}.

Inductive label :=
| LEnqueue (ok : bool)
| LSub (q : sub_req)
| LRegister (slot : option nat)
| LReply
| LReplied
| LTake (p : nat)
| LVisit (i : nat) (hit : bool)
| LFree (p : nat)
| LBeat
| LExit
| LStop (force : bool)
| LJoined.

Definition in_hand (ph : phase) : option nat := match ph with EVisit p _ _ => Some p | _ => None end.

Section system.
  Context {W : Type} `{NotifyOS W}.

(** One turn of [notify_d_event_loop] that finds the ring empty. *)
Definition loop_idle (s : notify_d_service_t) (w : W) : option (notify_d_service_t * W) :=
    let '(now, w) := ntf_time w in
    let now := u64 now in
    if NOTIFY_D_SSE_PING_INTERVAL <=? u64 (now - last_sse_ping s)
    then notify_d_sse_heartbeat (set_ping now s) w
    else Some (s, w).

(** The event loop's lock section where the ring is not empty. *)
Definition loop_take (s : notify_d_service_t) : option (nat * notify_d_service_t) :=
    '(p, q) ← ring_pop (ring s);
    Some (p, set_ring q s).

(** One round of the broadcast of event [p]. *)
Definition loop_visit (s : notify_d_service_t) (p i : nat) (w : W) : option (bool * notify_d_service_t * W) :=
    e ← mjoin (events (ring s) !! p);
    c ← clients s !! i;
    '(hit, c, w) ← bcast_one (subs s) e c w;
    Some (hit, set_clients (<[i := c]> (clients s)) s, w).

Definition loop_free (s : notify_d_service_t) (p : nat) : option notify_d_service_t :=
    q ← event_free p (ring s);
    Some (set_ring q s).

Inductive step : sys W -> label -> sys W -> Prop :=
| step_enqueue s ph rp st w msg topic ev rc q w' :
    notify_d_enqueue (ring s) (Some msg) topic ev w = (rc, q, w') ->
    step (mkSys s ph rp st w) (LEnqueue (bool_decide (rc = AIRY_SUCCESS))) (mkSys (set_ring q s) ph rp st w')
| step_sub s ph rp st w q a r w' :
    sub_run (subs s) q w = Some (a, r, w') ->
    step (mkSys s ph rp st w) (LSub q) (mkSys (set_subs r s) ph rp st w')
| step_register s ph rp st w f buffer i s' w' v w'' :
    notify_d_register s f buffer w = (Some i, s', w') -> reply_begin s' i w' = Some (v, w'') ->
    step (mkSys s ph rp st w) (LRegister (Some i))
      (mkSys s' ph (option_list ((fun v => (i, f, ToSend v)) <$> v) ++ rp) st w'')
| step_refuse s ph rp st w f buffer s' w' :
    notify_d_register s f buffer w = (None, s', w') ->
    step (mkSys s ph rp st w) (LRegister None) (mkSys s' ph rp st w')
| step_reply s ph rp st w k i f v w' :
    rp !! k = Some (i, f, ToSend v) -> reply_send s v f w = Some w' ->
    step (mkSys s ph rp st w) LReply (mkSys s ph (<[k := (i, f, Sent)]> rp) st w')
| step_replied s ph rp st w k i f s' :
    rp !! k = Some (i, f, Sent) -> reply_end s i = Some s' ->
    step (mkSys s ph rp st w) LReplied (mkSys s' ph (delete k rp) st w)
| step_take s rp st w p s' :
    event_running s = true -> (0 < pending_count (ring s))%nat -> loop_take s = Some (p, s') ->
    step (mkSys s EIdle rp st w) (LTake p) (mkSys s' (EVisit p 0 0) rp st w)
| step_visit s rp st w p i k hit s' w' :
    (i < client_count s)%nat -> loop_visit s p i w = Some (hit, s', w') ->
    step (mkSys s (EVisit p i k) rp st w) (LVisit i hit)
      (mkSys s' (EVisit p (S i) (if hit then S k else k)) rp st w')
| step_free s rp st w p i k s' :
    (client_count s <= i)%nat -> loop_free s p = Some s' ->
    step (mkSys s (EVisit p i k) rp st w) (LFree p) (mkSys s' EIdle rp st w)
| step_beat s rp st w s' w' :
    event_running s = true -> pending_count (ring s) = 0%nat -> loop_idle s w = Some (s', w') ->
    step (mkSys s EIdle rp st w) LBeat (mkSys s' EIdle rp st w')
| step_exit s rp st w :
    event_running s = false -> step (mkSys s EIdle rp st w) LExit (mkSys s EExit rp st w)
| step_stop_force s ph rp w s' w' :
    stop_clean true (stop_flags true s) w = Some (s', w') ->
    step (mkSys s ph rp NotStopping w) (LStop true) (mkSys s' ph rp Stopped w')
| step_stop s ph rp w :
    step (mkSys s ph rp NotStopping w) (LStop false) (mkSys (stop_flags false s) ph rp Joining w)
| step_joined s rp w s' w' :
    stop_clean false s w = Some (s', w') ->
    step (mkSys s EExit rp Joining w) LJoined (mkSys s' EExit rp Stopped w').

(** A run, newest label last. *)
Inductive run : sys W -> list label -> sys W -> Prop :=
| run_nil s : run s [] s
| run_snoc s tr s' l s'' : run s tr s' -> step s' l s'' -> run s (tr ++ [l]) s''.

(** The daemon after [notify_d_init] and [notify_d_start]. *)
Definition start (f : Z) (w : W) : sys W :=
    let '(s, w) := notify_d_service_init w in mkSys (started f s) EIdle [] NotStopping w.
End system.

(** ** Invariant *)

Record svc_ok (s : notify_d_service_t) (hand : option nat) : Prop := {
  so_ring : ring_ok (ring s);
  so_owned : owned (ring s) hand;
  so_subs : subs_ok (subs s);
  so_clients : length (clients s) = NOTIFY_D_MAX_CLIENTS;
  so_topics : Forall (fun c => type c <> NOTIFY_CLIENT_SOCKET -> c_topic c = None) (clients s)
}.

(** What a step changes of the record of clients keeps kind and topic. *)
Definition same_names (c c' : notify_client_t) : Prop := type c' = type c /\ c_topic c' = c_topic c.

Lemma topics_insert l i c c' :
  Forall (fun c => type c <> NOTIFY_CLIENT_SOCKET -> c_topic c = None) l -> l !! i = Some c -> same_names c c' ->
  Forall (fun c => type c <> NOTIFY_CLIENT_SOCKET -> c_topic c = None) (<[i := c']> l).
Proof.
  intros HF E [Ht Hn]. apply Forall_insert; [done|]. rewrite Ht, Hn. by apply (proj1 (Forall_lookup _ _) HF i c E).
Qed.

Lemma svc_ok_clients s hand l :
  svc_ok s hand -> length l = NOTIFY_D_MAX_CLIENTS ->
  Forall (fun c => type c <> NOTIFY_CLIENT_SOCKET -> c_topic c = None) l -> svc_ok (set_clients l s) hand.
Proof. intros [? ? ? ? ?] ? ?. by split. Qed.

(** A pass over the clients that only touches counters, flags and sockets. *)
Definition mild (l l' : list notify_client_t) : Prop := Forall2 same_names l l'.

Lemma mild_refl l : mild l l.
Proof. apply Forall2_same_length_lookup_2; [done|]. intros i x y Hx Hy. simplify_eq. by split. Qed.

Lemma mild_trans l1 l2 l3 : mild l1 l2 -> mild l2 l3 -> mild l1 l3.
Proof.
  unfold mild. intros A. revert l3. induction A as [|x y l1 l2 [? ?] A IH]; intros l3 B; inversion_clear B as [|? z ? l3' [? ?] B'];
    constructor; [split; congruence|by apply IH].
Qed.

Lemma mild_insert l i c c' : l !! i = Some c -> same_names c c' -> mild l (<[i := c']> l).
Proof.
  intros E S. rewrite <- (list_insert_id l i c E) at 1. apply Forall2_insert; [apply mild_refl|done].
Qed.

Lemma mild_ok s hand l : svc_ok s hand -> mild (clients s) l -> svc_ok (set_clients l s) hand.
Proof.
  intros O M. apply svc_ok_clients; [done| |].
  - rewrite <- (Forall2_length _ _ _ M). apply O.
  - pose proof (so_topics _ _ O) as T. revert T. unfold mild in M. induction M as [|c c' l1 l2 [Ht Hn] M IH]; intros T; [done|].
    apply Forall_cons in T as [T1 T2]. constructor; [by rewrite Ht, Hn|by apply IH].
Qed.

Section invariant.
  Context {W : Type} `{NotifyOS W}.

Lemma bcast_one_mild r e c (w : W) hit c' w' : bcast_one r e c w = Some (hit, c', w') -> same_names c c'.
Proof.
    unfold bcast_one. destruct (c_active c); cbn [negb]; [|intros; by simplify_eq].
    destruct (subscribed r e c) as [[|]|]; cbn [mbind option_bind negb]; [|intros; by simplify_eq|done].
    destruct (type c), (handshake_done c), (printed json_size (event_text e)), (printed sse_size (sse_text e));
      cbn [mbind option_bind]; intros; by simplify_eq.
Qed.

Lemma beat_loop_mild n : forall i l (w : W) l' w', beat_loop n i l w = Some (l', w') -> mild l l'.
Proof.
    induction n as [|n IH]; intros i l w l' w' E; cbn [beat_loop] in E; [simplify_eq; apply mild_refl|].
    destruct (l !! i) as [c|] eqn:Ec; cbn [mbind option_bind] in E; [|done].
    destruct (beats c); cbn [negb] in E; [|by eapply IH].
    destruct (airy_sock_send (fd c) ping_text w) as [k w1]. apply IH in E. eapply mild_trans; [|exact E].
    destruct (0 <? k); [|apply mild_refl]. by apply (mild_insert _ _ c).
Qed.

Lemma close_loop_mild n : forall i l (w : W) l' w', close_loop n i l w = Some (l', w') -> mild l l'.
Proof.
    induction n as [|n IH]; intros i l w l' w' E; cbn [close_loop] in E; [simplify_eq; apply mild_refl|].
    destruct (l !! i) as [c|] eqn:Ec; cbn [mbind option_bind] in E; [|done].
    destruct (c_active c && negb (fd c =? AIRY_INVALID_SOCKET)); [|by eapply IH].
    apply IH in E. eapply mild_trans; [|exact E]. by apply (mild_insert _ _ c).
Qed.

Lemma inactive_from_lt l : forall i j, inactive_from i l = Some j -> (i <= j < i + length l)%nat.
Proof.
    induction l as [|c l IH]; intros i j E; cbn in E; [done|]. destruct (c_active c); cbn [negb] in E.
    - apply IH in E. cbn [length]. lia.
    - simplify_eq. cbn [length]. lia.
Qed.

Lemma client_slot_lt s hand i : svc_ok s hand -> notify_d_find_client_slot s = Some i -> (i < length (clients s))%nat.
Proof.
    intros O. unfold notify_d_find_client_slot. destruct (inactive_from 0 (clients s)) as [j|] eqn:E.
    - intros [= <-]. apply inactive_from_lt in E. lia.
    - destruct (Nat.ltb_spec (client_count s) NOTIFY_D_MAX_CLIENTS); [|done]. intros [= <-]. rewrite (so_clients _ _ O). done.
Qed.

Lemma put_client s hand i c n : svc_ok s hand -> (type c <> NOTIFY_CLIENT_SOCKET -> c_topic c = None) ->
    svc_ok (set_count n (set_clients (<[i := c]> (clients s)) s)) hand.
Proof.
    intros [O1 O2 O3 O4 O5] Hc. split; cbn [ring subs clients set_count set_clients]; try done.
    - by rewrite length_insert.
    - by apply Forall_insert.
Qed.
Lemma enqueue_ok s hand msg topic ev (w : W) rc q w' :
    svc_ok s hand -> notify_d_enqueue (ring s) (Some msg) topic ev w = (rc, q, w') ->
    svc_ok (set_ring q s) hand /\ oldest q = oldest (ring s).
Proof.
    intros [O1 O2 O3 O4 O5] E. pose proof (enqueue_spec _ _ _ _ _ _ _ _ hand O1 O2 E) as S.
    case_bool_decide; [|subst; done]. destruct S as (_ & ? & ? & ? & _). split; [by split|done].
Qed.

Lemma counters_ok s hand n e : svc_ok s hand -> svc_ok (set_counters n e s) hand.
Proof. intros [? ? ? ? ?]. by split. Qed.

Lemma register_ok s hand f buffer (w : W) slot s' w' :
    svc_ok s hand -> notify_d_register s f buffer w = (slot, s', w') ->
    svc_ok s' hand /\ oldest (ring s') = oldest (ring s).
Proof.
    intros O. unfold notify_d_register. destruct (notify_d_find_client_slot s) as [i|].
    2: { destruct (airy_sock_send f busy_text w) as [? w1]. intros [= <- <- <-]. done. }
    destruct (ntf_time w) as [now w1], (notify_d_hdr_take buffer "X-Client-Id: " 256 w1) as [id w2].
    destruct (is_sse buffer); [destruct (airy_sock_send f sse_headers w2); intros [= <- <- <-]; split; [by apply put_client|done]|].
    destruct (is_upgrade buffer).
    - destruct (notify_d_ws_upgrade f buffer w2) as [rc w3]. case_bool_decide; intros [= <- <- <-]; (split; [|done]).
      + by apply put_client.
      + apply (put_client s hand i (mkClient f NOTIFY_CLIENT_WEBSOCKET None id (u64 now) (u64 now) 0 false false) (client_count s)) in O; [|done].
        destruct s; exact O.
    - destruct (notify_d_hdr_take buffer "X-Topic: " NOTIFY_D_MAX_BUFFER w2) as [t w3].
      destruct (match t with Some t => (Some t, w3) | None => AIRY_STRDUP "inbound" w3 end) as [t' w4].
      cbv zeta. match goal with |- context [notify_d_enqueue (ring ?x) _ _ _ _] => set (s1 := x) end.
      assert (O1 : svc_ok s1 hand) by (by apply put_client).
      destruct (notify_d_enqueue (ring s1) (Some buffer) t' None w4) as [[rc q] w5] eqn:E.
      destruct (enqueue_ok s1 hand _ _ _ _ _ _ _ O1 E) as [O2 Ho].
      case_bool_decide; intros [= <- <- <-]; (split; [by apply counters_ok|done]).
Qed.

Lemma stop_flags_ok s hand b : svc_ok s hand -> svc_ok (stop_flags b s) hand.
Proof. intros [? ? ? ? ?]. by split. Qed.

Lemma stop_clean_ok s hand b (w : W) s' w' :
    svc_ok s hand -> stop_clean b s w = Some (s', w') ->
    svc_ok s' hand /\ (if b then pending_count (ring s') = 0%nat /\ length (events (ring s')) = length (events (ring s)) else s' = s).
Proof.
    intros O. unfold stop_clean. destruct b; cbn [negb]; [|by intros [= <- <-]].
    destruct (close_loop (client_count s) 0 (clients s) w) as [[l w1]|] eqn:E; cbn [mbind option_bind]; [|done].
    destruct (drain_spec (ring s) hand (so_ring _ _ O) (so_owned _ _ O)) as (q & -> & Q1 & Q2 & Q3 & Q4). cbn [mbind option_bind].
    intros [= <- <-]. split; [|done]. pose proof (mild_ok s hand l O (close_loop_mild _ _ _ _ _ _ E)) as [? ? ? ? ?]. by split.
Qed.

(** The step relation keeps the invariant, and moves the oldest event only by
    taking it or by the forced stop. *)
Definition sys_ok (s : sys W) : Prop := svc_ok (sv s) (in_hand (loop s)).

Lemma ntf_step_ok s l s' : sys_ok s -> step s l s' ->
    sys_ok s' /\
    match l with
    | LTake p => p = oldest (ring (sv s)) /\ oldest (ring (sv s')) = S p
    | LStop true => (oldest (ring (sv s)) <= oldest (ring (sv s')))%nat
    | _ => oldest (ring (sv s')) = oldest (ring (sv s))
    end.
Proof.
    unfold sys_ok. intros O S. inversion S; subst; clear S; cbn [sv loop in_hand] in *.
    - destruct (enqueue_ok _ _ _ _ _ _ _ _ _ O H0). done.
    - destruct (sub_run_refines (subs s0) q w (so_subs _ _ O)) as (a' & r' & w'' & E & R & _).
      rewrite H0 in E. simplify_eq. split; [|done]. destruct O. by split.
    - by apply (register_ok _ _ _ _ _ _ _ _ O H0).
    - by apply (register_ok _ _ _ _ _ _ _ _ O H0).
    - done.
    - unfold reply_end in H1. destruct (clients s0 !! i) as [c|] eqn:Ec; cbn in H1; [|done]. simplify_eq. split; [|done].
      apply (mild_ok s0); [done|]. by apply (mild_insert _ _ c).
    - unfold loop_take in H2. destruct (pop_spec (ring s0) (so_ring _ _ O) (so_owned _ _ O) H1) as (q & E & Q1 & Q2 & Q3 & _).
      rewrite E in H2. cbn in H2. simplify_eq. cbn [ring set_ring]. split; [|done]. destruct O. by split.
    - unfold loop_visit in H1. destruct (mjoin (events (ring s0) !! p)) as [e|]; cbn in H1; [|done].
      destruct (clients s0 !! i) as [c|] eqn:Ec; cbn in H1; [|done].
      destruct (bcast_one (subs s0) e c w) as [[[h c'] w1]|] eqn:Eb; cbn in H1; [|done]. simplify_eq. split; [|done].
      apply (mild_ok s0); [done|]. apply (mild_insert _ _ c); [done|]. by eapply bcast_one_mild.
    - unfold loop_free in H1. destruct (free_spec (ring s0) p (so_ring _ _ O) (so_owned _ _ O)) as (q & E & Q1 & Q2 & Q3 & _).
      rewrite E in H1. cbn in H1. simplify_eq. split; [|done]. destruct O. by split.
    - unfold loop_idle in H2. destruct (ntf_time w) as [now w1]. destruct (_ <=? _); [|by simplify_eq].
      unfold notify_d_sse_heartbeat in H2. destruct (beat_loop _ _ _ _) as [[l w2]|] eqn:E; cbn in H2; [|done]. simplify_eq.
      split; [|done]. apply (mild_ok (set_ping (u64 now) s0)); [destruct O; by split|]. by eapply beat_loop_mild.
    - done.
    - apply (stop_clean_ok _ (in_hand ph)) in H0 as [? [C L]]; [|by apply stop_flags_ok]. split; [done|].
      unfold oldest. rewrite C, L. cbn [ring stop_flags]. lia.
    - split; [by apply stop_flags_ok|done].
    - apply (stop_clean_ok _ None) in H0 as [? ->]; done.
Qed.

Lemma ntf_start_ok f w : sys_ok (start f w) /\ oldest (ring (sv (start f w))) = 0%nat.
Proof.
    unfold sys_ok, start, notify_d_service_init. destruct (ntf_time w) as [now w']. cbn [sv loop in_hand]. split; [|done].
    split; cbn [ring subs clients started].
    - split; cbn; unfold MAXP, NOTIFY_D_MAX_PENDING; try done; lia.
    - split; [done|]. intros p. cbn. split; [by intros [? ?]|]. intros [?|?]; [lia|done].
    - apply empty_subs_ok.
    - by rewrite length_replicate.
    - by apply Forall_replicate.
Qed.

Lemma ntf_run_ok f w tr s : run (start f w) tr s -> sys_ok s.
Proof.
    remember (start f w) as s0 eqn:E. induction 1 as [|s tr s' l s'' R IH S]; subst; [apply ntf_start_ok|].
    by apply (ntf_step_ok s' l), S; apply IH.
Qed.
End invariant.

(** The events taken by the loop, in order. *)
Definition takes (tr : list label) : list nat := omap (fun l => match l with LTake p => Some p | _ => None end) tr.

Definition forced (tr : list label) : bool := existsb (fun l => match l with LStop true => true | _ => false end) tr.

Section theorems.
  Context {W : Type} `{NotifyOS W}.

Lemma takes_sorted f (w : W) tr s : run (start f w) tr s ->
    StronglySorted lt (takes tr) /\ Forall (fun p => (p < oldest (ring (sv s)))%nat) (takes tr) /\
    (forced tr = false -> takes tr = seq 0 (oldest (ring (sv s)))).
Proof.
    remember (start f w) as s0 eqn:E. induction 1 as [|s tr s' l s'' R IH S]; subst.
    { split_and!; [constructor|constructor|]. by rewrite (proj2 (ntf_start_ok f w)). }
    destruct (IH eq_refl) as (I1 & I2 & I3). destruct (ntf_step_ok _ _ _ (ntf_run_ok _ _ _ _ R) S) as [_ Hl].
    unfold takes, forced in *. rewrite omap_app, existsb_app. cbn [omap list_omap existsb].
    assert (Same : oldest (ring (sv s'')) = oldest (ring (sv s')) ->
      StronglySorted lt (takes tr) /\ Forall (fun p => (p < oldest (ring (sv s'')))%nat) (takes tr) /\
      (forced tr = false -> takes tr = seq 0 (oldest (ring (sv s''))))) by (intros ->; done).
    destruct l as [| | | | |p| | | | |[|]|]; try (rewrite app_nil_r; cbn [orb]; rewrite orb_false_r; by apply Same).
    - destruct Hl as [-> ->]. cbn [orb]. rewrite orb_false_r. split_and!.
      + apply StronglySorted_app. split_and!; [|done|by repeat constructor]. intros a b Ha ->%list_elem_of_singleton.
        by apply (proj1 (Forall_forall _ _) I2).
      + apply Forall_app. split; [eapply Forall_impl; [exact I2|]; cbn; lia|]. constructor; [lia|constructor].
      + intros F. rewrite (I3 F), seq_S. done.
    - rewrite app_nil_r. split_and!; [done|eapply Forall_impl; [exact I2|]; cbn; lia|]. cbn [orb]. by rewrite orb_true_r.
Qed.

(** C18.  Events are broadcast in the order in which they were accepted, each at
    most once, and none is freed twice or used after it was freed.  In every
    state that the daemon reaches, through any interleaving of connections, the
    event loop and a stop: the ring of 1024 slots holds the accepted events that
    were not taken yet, oldest first; the events in memory are these and the one
    being broadcast (nothing leaks); the events taken so far are in the order of
    acceptance, without repetition, and, as long as no forced stop threw waiting
    ones away, without a gap. *)
Theorem notify_fifo (f : Z) (w : W) (tr : list label) (s : sys W) :
    run (start f w) tr s ->
    ring_ok (ring (sv s)) /\ owned (ring (sv s)) (in_hand (loop s)) /\
    StronglySorted lt (takes tr) /\ Forall (fun p => (p < oldest (ring (sv s)))%nat) (takes tr) /\
    (forced tr = false -> takes tr ++ seq (oldest (ring (sv s))) (pending_count (ring (sv s))) = seq 0 (length (events (ring (sv s))))).
Proof.
    intros R. pose proof (ntf_run_ok _ _ _ _ R) as [O1 O2 _ _ _]. destruct (takes_sorted _ _ _ _ R) as (T1 & T2 & T3).
    split_and!; [done..|]. intros F. rewrite (T3 F), <- seq_app. f_equal. pose proof (rk_events _ O1). unfold oldest. lia.
Qed.

(** ** Progress of the event loop *)

Lemma beat_loop_total n : forall i l (w : W), (i + n <= length l)%nat -> is_Some (beat_loop n i l w).
Proof.
    induction n as [|n IH]; intros i l w Hl; cbn [beat_loop]; [by eexists|].
    destruct (lookup_lt_is_Some_2 l i ltac:(lia)) as [c ->]. cbn [mbind option_bind].
    destruct (beats c); cbn [negb]; [|apply IH; lia]. destruct (airy_sock_send (fd c) ping_text w) as [k w1].
    apply IH. destruct (0 <? k); rewrite ?length_insert; lia.
Qed.

Lemma bcast_one_total r e c (w : W) : subs_ok r -> fits e -> is_Some (bcast_one r e c w).
Proof.
    intros R [F1 F2]. unfold bcast_one. destruct (c_active c); cbn [negb]; [|by eexists].
    destruct (subscribed_iff r e c R) as (b & -> & _). cbn [mbind option_bind]. destruct b; cbn [negb]; [|by eexists].
    rewrite !printed_fits by done. destruct (type c), (handshake_done c); by eexists.
Qed.

(** The steps left until the loop is at its head again. *)
Definition rounds_left (s : sys W) : nat :=
    match loop s with EVisit _ i _ => S (client_count (sv s) - i) | _ => 0 end.

(** The event loop cannot get stuck while the number of registrations
    is within the array and the texts of the event fit.  In every reachable
    state it has ended or has a step of its own, with no access outside the
    arrays and to no freed event: where it broadcasts, the step brings the end
    of the broadcast nearer and the record of the event is still there; at its
    head it takes an event exactly when one waits, and ends once the daemon is
    being stopped. *)
Theorem loop_progress (f : Z) (w : W) (tr : list label) (s : sys W) :
    run (start f w) tr s -> (client_count (sv s) <= NOTIFY_D_MAX_CLIENTS)%nat ->
    (forall p e, in_hand (loop s) = Some p -> events (ring (sv s)) !! p = Some (Some e) -> fits e) ->
    match loop s with
    | EExit => True
    | EVisit p i _ =>
        exists l s', step s l s' /\ (rounds_left s' < rounds_left s)%nat /\
          (if (client_count (sv s) <=? i)%nat then l = LFree p else exists hit, l = LVisit i hit)
    | EIdle =>
        exists l s', step s l s' /\
          l = if event_running (sv s) then if (0 <? pending_count (ring (sv s)))%nat then LTake (oldest (ring (sv s))) else LBeat
              else LExit
    end.
Proof.
    intros R Hc Hf. pose proof (ntf_run_ok _ _ _ _ R) as O. unfold sys_ok in O. destruct s as [v ph rp st w1]. cbn [sv loop] in *.
    destruct ph as [|p i k|]; cbn [in_hand] in *; [| |done].
    - destruct (event_running v) eqn:Er; [|do 2 eexists; by split; [apply step_exit|]].
      destruct (Nat.ltb_spec 0 (pending_count (ring v))) as [Hp|Hp].
      + destruct (pop_spec (ring v) (so_ring _ _ O) (so_owned _ _ O) Hp) as (q & E & _).
        do 2 eexists. split; [|done]. apply step_take; [done|done|]. unfold loop_take. by rewrite E.
      + assert (is_Some (loop_idle v w1)) as [[v' w2] E].
        { unfold loop_idle. destruct (ntf_time w1) as [now w2]. destruct (_ <=? _); [|by eexists].
          unfold notify_d_sse_heartbeat. cbn [client_count clients set_ping].
          destruct (beat_loop_total (client_count v) 0 (clients v) w2) as [[l w3] ->]; [rewrite (so_clients _ _ O); lia|by eexists]. }
        do 2 eexists. split; [|done]. eapply step_beat; [done|lia|exact E].
    - destruct (so_owned _ _ O) as [_ O2]. destruct (proj2 (O2 p) (or_intror eq_refl)) as [e Ee].
      assert (Ep : events (ring v) !! p = Some (Some e)) by (destruct (events (ring v) !! p) as [[?|]|]; cbn in Ee; congruence).
      destruct (Nat.leb_spec (client_count v) i) as [Hi|Hi].
      + destruct (free_spec (ring v) p (so_ring _ _ O) (so_owned _ _ O)) as (q & E & _).
        do 2 eexists. split_and!; [eapply step_free; [done|unfold loop_free; by rewrite E]| |done]. cbn. lia.
      + destruct (lookup_lt_is_Some_2 (clients v) i) as [c Ec]; [rewrite (so_clients _ _ O); lia|].
        destruct (bcast_one_total (subs v) e c w1 (so_subs _ _ O) (Hf p e eq_refl Ep)) as [[[hit c'] w2] Eb].
        do 2 eexists. split_and!; [eapply step_visit; [done|unfold loop_visit; rewrite Ep; cbn; rewrite Ec; cbn; by rewrite Eb]| |by eexists].
        unfold rounds_left. cbn. lia.
Qed.
End theorems.

(** ** What the code does in corner cases *)

Section corners.
  Context {W : Type} `{NotifyOS W}.

(** Event-stream and WebSocket clients never have a topic, so that every event
    is for them: what they subscribed to plays no part. *)
Lemma subscriptions_ignored (f : Z) (w : W) tr s X e c :
    run (start f w) tr s -> c ∈ clients (sv s) -> c_active c = true -> type c <> NOTIFY_CLIENT_SOCKET ->
    (type c = NOTIFY_CLIENT_WEBSOCKET -> handshake_done c = true) -> receives X e c.
Proof.
    intros R Hc Ha Ht Hh. pose proof (ntf_run_ok _ _ _ _ R) as [_ _ _ _ O5]. rewrite Forall_forall in O5.
    specialize (O5 c Hc Ht). split_and!; [done| |done]. unfold wanted. rewrite O5. by destruct (e_topic e).
Qed.

(** A broadcast keeps a client whose [send] fails. *)
Lemma broken_client_stays r e c (w : W) hit c' w' : bcast_one r e c w = Some (hit, c', w') -> c_active c' = c_active c.
Proof.
    unfold bcast_one. destruct (c_active c) eqn:Ha; cbn [negb]; [|intros; by simplify_eq].
    destruct (subscribed r e c) as [[|]|]; cbn [mbind option_bind negb]; [|intros; by simplify_eq|done].
    destruct (type c), (handshake_done c), (printed json_size (event_text e)), (printed sse_size (sse_text e));
      cbn [mbind option_bind]; intros; by simplify_eq.
Qed.

(** A text longer than its buffer is sent from beyond the buffer's end. *)
Lemma long_text_overread size text : printed size text = None <-> (size < String.length text)%nat.
Proof.
    unfold printed. destruct (Nat.ltb_spec (String.length text) size); [split; [done|lia]|].
    destruct (Nat.eqb_spec (String.length text) size); split; (done || lia).
Qed.

(** One short message from a socket: registered, answered, signed off. *)
Definition one_message (f : Z) (text : string) (sw : notify_d_service_t * W) : option (notify_d_service_t * W) :=
    let '(s, w) := sw in
    match notify_d_register s f text w with
    | (Some i, s, w) =>
        '(v, w) ← reply_begin s i w;
        match v with
        | Some v => w ← reply_send s v f w; s ← reply_end s i; Some (s, w)
        | None => Some (s, w)
        end
    | (None, s, w) => Some (s, w)
    end.

Fixpoint messages (n : nat) (f : Z) (text : string) (sw : notify_d_service_t * W) : option (notify_d_service_t * W) :=
    match n with O => Some sw | S n' => sw ← one_message f text sw; messages n' f text sw end.
End corners.

(** Each message counts as one more client although the slot is used again:
    with the 129th the loops over the clients leave the array. *)
Lemma count_overrun :
  (let '(s, w) := notify_d_service_init ([] : log_world) in
   '(s, w) ← messages 128 7 "hello" (started 3 s, w);
   Some (client_count s, length (filter (fun c => c_active c = true) (clients s)))) = Some (128, 0)%nat /\
  (let '(s, w) := notify_d_service_init ([] : log_world) in messages 129 7 "hello" (started 3 s, w)) = None.
Proof. split; vm_compute; reflexivity. Qed.

Definition toy_s0 : sys log_world := start 3 ([] : log_world).

Definition toy_q1 : ring_t := (notify_d_enqueue (ring (sv toy_s0)) (Some "hi"%string) None None ([] : log_world)).1.2.

Definition toy_s1 : sys log_world := mkSys (set_ring toy_q1 (sv toy_s0)) EIdle [] NotStopping ([] : log_world).

Definition toy_s2 : sys log_world :=
  mkSys (match loop_take (sv toy_s1) with Some (_, v) => v | None => sv toy_s1 end) (EVisit 0 0 0) [] NotStopping ([] : log_world).

Lemma ntf_toy_run : run toy_s0 [LEnqueue true; LTake 0] toy_s2.
Proof.
  apply (run_snoc toy_s0 [LEnqueue true] toy_s1 (LTake 0)).
  - apply (run_snoc toy_s0 [] toy_s0 (LEnqueue true)); [constructor|].
    apply (step_enqueue (sv toy_s0) EIdle [] NotStopping [] "hi"%string None None AIRY_SUCCESS toy_q1 []). vm_compute. reflexivity.
  - apply step_take; [reflexivity|vm_compute; lia|vm_compute; reflexivity].
Qed.

Lemma notify_fifo_witness : takes [LEnqueue true; LTake 0] ++ seq 1 0 = seq 0 1.
Proof. apply (notify_fifo 3 ([] : log_world) [LEnqueue true; LTake 0] toy_s2 ntf_toy_run). reflexivity. Defined.

Lemma loop_progress_witness : exists l s', step toy_s2 l s' /\ (rounds_left s' < 1)%nat /\ l = LFree 0.
Proof.
  refine (loop_progress 3 ([] : log_world) [LEnqueue true; LTake 0] toy_s2 ntf_toy_run _ _); [vm_compute; lia|].
  intros p e [= <-] E. vm_compute in E. injection E as <-. split; apply Nat.ltb_lt; vm_compute; reflexivity.
Defined.

(** ** Methods *)

(** A well-formed service whose clients are within the array. *)
Definition good (s : notify_d_service_t) : Prop :=
  (exists hand, svc_ok s hand) /\ (client_count s <= NOTIFY_D_MAX_CLIENTS)%nat.

(** Other threads that keep it so. *)
Class OthersOk (W : Type) `{Others W} := others_ok : forall s (w : W), good s -> good (others s w).1.1.

Section methods.
  Context {W : Type} `{NotifyOS W} `{JsonRpc} `{Others W} `{!OthersOk W}.

Lemma client_at s hand i : svc_ok s hand -> (client_count s <= NOTIFY_D_MAX_CLIENTS)%nat -> (i < client_count s)%nat ->
    is_Some (clients s !! i).
Proof. intros O Hc Hi. apply lookup_lt_is_Some. rewrite (so_clients _ _ O). lia. Qed.

Lemma good_client s i : good s -> (i < client_count s)%nat -> is_Some (clients s !! i).
Proof. intros [[hand O] Hc] Hi. by eapply client_at. Qed.

Lemma count_active_total s n : good s -> forall i k, (i + n <= client_count s)%nat -> is_Some (count_active n i (clients s) k).
Proof.
    intros G. induction n as [|n IH]; intros i k Hi; cbn [count_active]; [by eexists|].
    destruct (good_client s i G ltac:(lia)) as [c ->]. cbn. apply IH. lia.
Qed.

Lemma clients_of_total s name n : good s -> forall i k, (i + n <= client_count s)%nat -> is_Some (clients_of n i (clients s) name k).
Proof.
    intros G. induction n as [|n IH]; intros i k Hi; cbn [clients_of]; [by eexists|].
    destruct (good_client s i G ltac:(lia)) as [c ->]. cbn. apply IH. lia.
Qed.

Lemma active_subs_total r n : subs_ok r -> forall i k, (i + n <= subscription_count r)%nat ->
    is_Some (active_subs n i (subscriptions r) k).
Proof.
    intros R. induction n as [|n IH]; intros i k Hi; cbn [active_subs]; [by eexists|].
    destruct (sub_lookup r R i ltac:(lia)) as [c ->]. cbn. apply IH. lia.
Qed.

Lemma ntf_take_total t p x : is_Some (ntf_take t p x).
Proof.
    unfold ntf_take, topics_put. destruct x as [x|]; [|by eexists]. destruct (is_empty x); [by eexists|].
    destruct (existsb _ t); [by eexists|]. destruct (length t <? MAX_TOPICS)%nat; by eexists.
Qed.

Lemma take_clients_total s n : good s -> forall i t k, (i + n <= client_count s)%nat -> is_Some (take_clients n i (clients s) t k).
Proof.
    intros G. induction n as [|n IH]; intros i t k Hi; cbn [take_clients]; [by eexists|].
    destruct (good_client s i G ltac:(lia)) as [c ->]. cbn.
    destruct (ntf_take_total t (PClient i) (c_topic c)) as [t' ->]. destruct (c_active c); cbn; apply IH; lia.
Qed.

Lemma take_subs_total r n : subs_ok r -> forall i t k, (i + n <= subscription_count r)%nat -> is_Some (take_subs n i (subscriptions r) t k).
Proof.
    intros R. induction n as [|n IH]; intros i t k Hi; cbn [take_subs]; [by eexists|].
    destruct (sub_lookup r R i ltac:(lia)) as [c ->]. cbn.
    destruct (ntf_take_total t (PSub i) (s_topic c)) as [t' ->]. destruct (s_active c); cbn; apply IH; lia.
Qed.

Lemma subs_count_total r topic : subs_ok r -> is_Some (notify_d_subscription_count r topic).
Proof.
    intros R. destruct topic as [t|]; [|by eexists]. unfold notify_d_subscription_count.
    rewrite (count_subs_spec r t _ R 0 0 eq_refl). by eexists.
Qed.

Lemma good_subs s : good s -> subs_ok (subs s).
Proof. intros [[hand O] _]. by apply (so_subs _ hand). Qed.

(** Some thread frees a topic. *)
Definition someone_frees : Prop := exists s (w : W), (others s w).1.2 <> [].

Lemma deref_or_freed freed (x : place * string) : (freed = [] \/ someone_frees) -> deref freed x = Some x.2 \/ someone_frees.
Proof. unfold deref. intros [->|]; [left|by right]. rewrite bool_decide_false; [done|]. apply not_elem_of_nil. Qed.

Lemma freed_more s (w : W) freed : (freed = [] \/ someone_frees) -> (others s w).1.2 ++ freed = [] \/ someone_frees.
Proof.
    intros [->|]; [|by right]. rewrite app_nil_r. destruct (others s w).1.2 eqn:E; [by left|]. right. exists s, w. by rewrite E.
Qed.

Lemma list_items_ok names : forall freed s (w : W), (freed = [] \/ someone_frees) -> good s ->
    match list_items names freed s w with
    | Some (_, s', _) => good s'
    | None => someone_frees
    end.
Proof.
    induction names as [|x names IH]; intros freed s w Hf G; cbn [list_items]; [done|].
    pose proof (others_ok s w G) as G1. pose proof (freed_more s w freed Hf) as F1.
    destruct (others s w) as [[s1 f1] w1]. cbn [fst snd] in G1, F1.
    destruct (deref (f1 ++ freed) x) as [nm1|] eqn:E1; cbn [mbind option_bind];
      [|destruct (deref_or_freed _ x F1) as [E|]; [congruence|done]].
    destruct (clients_of_total s1 nm1 (client_count s1) G1 0 0 ltac:(lia)) as [a ->]. cbn [mbind option_bind].
    pose proof (others_ok s1 w1 G1) as G2. pose proof (freed_more s1 w1 _ F1) as F2.
    destruct (others s1 w1) as [[s2 f2] w2]. cbn [fst snd] in G2, F2.
    destruct (deref (f2 ++ f1 ++ freed) x) as [nm|] eqn:E2; cbn [mbind option_bind].
    - destruct (subs_count_total (subs s2) (Some nm) (good_subs _ G2)) as [n ->]. cbn [mbind option_bind].
      pose proof (IH (f2 ++ f1 ++ freed) s2 w2 F2 G2) as Hi. destruct (list_items names _ s2 w2) as [[[l s3] w3]|]; done.
    - destruct (deref_or_freed _ x F2) as [E3|]; [congruence|done].
Qed.

(** Every method answers and keeps the invariant, except that [list] may read a
    topic that another thread freed. *)
Definition answers (x : option (notify_d_service_t * ntf_answer * W)) : Prop :=
    exists s' a w', x = Some (s', a, w') /\ good s'.

Lemma good_ring s q hand : svc_ok (set_ring q s) hand -> (client_count s <= NOTIFY_D_MAX_CLIENTS)%nat -> good (set_ring q s).
Proof. intros O Hc. split; [by exists hand|done]. Qed.

Lemma ntf_publish_ok s req rid (w : W) : good s -> answers (ntf_publish s req rid w).
Proof.
    intros G. pose proof G as [[hand O] Hc].
    unfold ntf_publish. set (topic := jsonrpc_get_string_param _ "topic" _). set (ev := jsonrpc_get_string_param _ "event" _).
    cbv zeta.
    match goal with |- context [if bad_name (jsonrpc_get_string_param ?a "message" ?b) then ?c else ?d] =>
      set (m := if bad_name (jsonrpc_get_string_param a "message" b) then c else d) end. clearbody m. destruct m as [m|]; cbn [bad_name]; [|by do 3 eexists].
    destruct (is_empty m); [by do 3 eexists|].
    destruct (notify_d_enqueue (ring s) (Some m) topic ev w) as [[rc q] w1] eqn:E.
    destruct (enqueue_ok s hand _ _ _ _ _ _ _ O E) as [O1 _]. cbv zeta. pose proof (good_ring s q hand O1 Hc) as G1.
    case_bool_decide; cbn [negb]; [|by do 3 eexists].
    pose proof (others_ok (set_ring q s) w1 G1) as G2. destruct (others (set_ring q s) w1) as [[s2 f] w2]. cbn [fst snd] in G2.
    destruct (subs_count_total (subs s2) topic (good_subs _ G2)) as [n ->]. by do 3 eexists.
Qed.

Lemma set_subs_ok s r : good s -> subs_ok r -> good (set_subs r s).
Proof. intros [[hand O] Hc] R. split; [|done]. exists hand. destruct O. by split. Qed.

Lemma ntf_member_ok s req rid (w : W) : good s -> answers (ntf_member s req rid w).
Proof.
    intros G. pose proof (good_subs s G) as R0.
    unfold ntf_member. set (topic := jsonrpc_get_string_param _ "topic" _). set (id := jsonrpc_get_string_param _ "client_id" _).
    set (on := match cj_str _ with Some _ => _ | None => _ end).
    destruct (bad_name topic || bad_name id); [by do 3 eexists|].
    assert (exists rc r w', (if on then notify_d_subscribe (subs s) topic id w
      else '(rc, r) ← notify_d_unsubscribe (subs s) topic id; Some (rc, r, w)) = Some (rc, r, w') /\ subs_ok r)
      as (rc & r & w1 & -> & R).
    { destruct on.
      - destruct (subscribe_refines (subs s) topic id w R0) as (rc & r & w1 & E & R & _). by exists rc, r, w1.
      - destruct (sub_run_refines (subs s) (RUnsub topic id) w R0) as (a & r & w1 & E & R & _). cbn [sub_run] in E.
        destruct (notify_d_unsubscribe (subs s) topic id) as [[rc r']|]; cbn in E |- *; [|done]. simplify_eq. by exists rc, r, w1. }
    cbn [mbind option_bind]. cbv zeta. pose proof (set_subs_ok s r G R) as G1. case_bool_decide; cbn [negb]; [|by do 3 eexists].
    pose proof (others_ok (set_subs r s) w1 G1) as G2. destruct (others (set_subs r s) w1) as [[s2 f] w2]. cbn [fst snd] in G2.
    destruct (subs_count_total (subs s2) topic (good_subs _ G2)) as [n ->]. by do 3 eexists.
Qed.

Lemma ntf_list_ok s (w : W) : good s -> answers (ntf_list s w) \/ ntf_list s w = None /\ someone_frees.
Proof.
    intros G. unfold ntf_list. destruct (take_clients_total s (client_count s) G 0 [] 0 ltac:(lia)) as [[t k] ->].
    cbn [mbind option_bind]. destruct (take_subs_total (subs s) (subscription_count (subs s)) (good_subs s G) 0 t 0 ltac:(lia)) as [[t' k'] ->].
    cbn [mbind option_bind]. pose proof (list_items_ok t' [] s w (or_introl eq_refl) G) as Hi.
    destruct (list_items t' [] s w) as [[[l s'] w']|]; [left; by do 3 eexists|by right].
Qed.

Lemma ntf_health_ok s (w : W) : good s -> answers (ntf_health s w).
Proof.
    intros G. unfold ntf_health. destruct (count_active_total s (client_count s) G 0 0 ltac:(lia)) as [a ->]. cbn [mbind option_bind].
    destruct (active_subs_total (subs s) (subscription_count (subs s)) (good_subs s G) 0 0 ltac:(lia)) as [b ->]. cbn [mbind option_bind].
    destruct (ntf_time w) as [now w1]. by do 3 eexists.
Qed.

Lemma method_ok s name n fn status req rid (w : W) : good s -> ntf_lookup name = Some (n, fn, status) ->
  (answers (fn s req rid w) \/ fn s req rid w = None /\ name = "list"%string /\ someone_frees) /\ status <> NOTIFY_D_METHOD_NOT_RPC.
Proof.
    intros G E. unfold ntf_lookup in E. apply find_some in E as [E En]. apply strcmp_eq_true in En. cbn in E, En.
    repeat (destruct E as [E|E]; [simplify_eq; split; [|done]|]); try done;
      first [left; by apply ntf_publish_ok | left; by apply ntf_member_ok | left; by apply ntf_health_ok
            | destruct (ntf_list_ok s w G) as [?|[? ?]]; [by left|by right]
            | left; unfold answers, ntf_shutdown, ntf_stats, ntf_ping; repeat (destruct (ntf_time _)); by do 3 eexists].
Qed.
End methods.

(** The method a request names. *)
Definition method_of `{Cjson} (request : string) : option string :=
  req ← cJSON_Parse request; cj_str (cJSON_GetObjectItem req "method").

(** C28.  A request on the JSON-RPC interface is safe whatever it holds and
    whatever the other threads do between its sections under the lock, as long
    as they keep the service well-formed with the clients within the array.  The
    dispatcher returns, with the service well-formed: a text that is no request,
    or names no method, changes nothing and writes no answer; a method stays
    inside the arrays of clients, subscriptions and events and the list of
    topics, compares no null name, and its answer fits the buffer.  The one
    exception is [list] while another thread frees a topic: it may read the
    freed topic. *)
Theorem dispatch_safe {W} `{NotifyOS W} `{JsonRpc} `{Others W} `{!OthersOk W} (s : notify_d_service_t) (request : string)
    (size : nat) (w : W) :
  good s ->
  match notify_d_dispatch_jsonrpc s request size w with
  | Some (st, resp, s', w') =>
      good s' /\ (st = NOTIFY_D_METHOD_NOT_RPC -> s' = s /\ resp = None) /\
      (forall text, resp = Some text -> (String.length text < size)%nat)
  | None => method_of request = Some "list"%string /\ exists s1 (w1 : W), (others s1 w1).1.2 <> []
  end.
Proof.
  intros G. unfold notify_d_dispatch_jsonrpc, method_of. destruct (Nat.eqb_spec size 0) as [->|Hs]; [done|].
  destruct (cJSON_Parse request) as [req|]; cbn [mbind option_bind]; [|done].
  destruct (cj_str (cJSON_GetObjectItem req "method")) as [m|]; [|done].
  destruct (cJSON_GetObjectItem req "id") as [idj|]; [|done].
  destruct (ntf_lookup m) as [[[n fn] status]|] eqn:E; [|done]. cbv zeta.
  set (rid := match cJSON_num idj with Some _ => _ | None => _ end).
  destruct (method_ok s m n fn status req rid w G E) as [[(s' & a & w' & -> & G')|(-> & -> & Hf)] N]; cbn [mbind option_bind]; [|done].
  split_and!; [done|done|]. intros text Ht. destruct (match a with inl _ => _ | inr _ => _ end) as [x|]; [|done].
  cbn in Ht. simplify_eq. unfold snprintf_s. rewrite substring_size. lia.
Qed.

(** Destroying the service of a stopped daemon leaves no event, no subscription
    and no name behind. *)
Lemma destroy_frees (s : notify_d_service_t) : svc_ok s None -> (client_count s <= NOTIFY_D_MAX_CLIENTS)%nat ->
  exists s', notify_d_service_destroy s = Some s' /\ (forall p, mjoin (events (ring s') !! p) = None) /\
    subs_of (subs s') = ∅ /\ client_count s' = 0%nat.
Proof.
  intros O Hc. unfold notify_d_service_destroy.
  destruct (drain_spec (ring s) None (so_ring _ _ O) (so_owned _ _ O)) as (q & -> & _ & [_ Q] & C & _). cbn [mbind option_bind].
  eexists. split_and!; [done| | |done].
  - intros p. cbn. destruct (mjoin (events q !! p)) eqn:E; [|done]. destruct (proj1 (Q p)) as [Hp|Hp]; [by eexists| |done].
    unfold oldest in Hp. rewrite C in Hp. lia.
  - unfold subs_of, pairs. cbn [subs subscriptions set_count set_ring set_subs set_clients]. unfold clear_sub.
    set (k := subscription_count (subs s)).
    assert (omap entry (map (fun x => if s_active x then zero_sub else x) (take k (subscriptions (subs s))) ++ drop k (subscriptions (subs s))) = []) as ->; [|done].
    rewrite omap_app. apply app_nil; split.
    + induction (take k (subscriptions (subs s))) as [|x l IH]; [done|]. cbn. unfold entry at 1.
      destruct (s_active x) eqn:Ha; [exact IH|]. by rewrite Ha.
    + assert (HF : Forall (fun x => entry x = None) (drop k (subscriptions (subs s)))).
      { apply Forall_lookup. intros j x Hj. rewrite lookup_drop in Hj. unfold entry. destruct (s_active x) eqn:Ha; [|done].
        destruct (sk_active _ (so_subs _ _ O) _ x Hj Ha). lia. }
      induction HF as [|x l Hx HF IH]; [done|]. cbn. by rewrite Hx.
Qed.

(** A request to publish, read by a concrete library. *)
Definition toy_request : Cjson := toy_cjson
  [("r", VObj [("method", VStr "publish"); ("id", VNum (Doubles.d_of_Z 4)); ("params", VObj [("message", VStr "hi")])])]%string.

Definition toy_rpc : @JsonRpc toy_request :=
  @Build_JsonRpc toy_request (fun v k d => match cj_str (cj_get v k) with Some t => Some t | None => d end)
    (fun _ m _ => Some m) (fun t _ => Some (jtree_text t)).

(** Another thread that takes a subscription out of the registry whenever the
    lock is free. *)
#[export] Instance leaver : Others log_world := fun s w =>
  match notify_d_find_subscription (subs s) "news" "me", notify_d_unsubscribe (subs s) (Some "news"%string) (Some "me"%string) with
  | Some (Some i), Some (_, r) => (set_subs r s, [PSub i], w)
  | _, _ => (s, [], w)
  end.

#[export] Instance leaver_ok : OthersOk log_world.
Proof.
  intros s w G. unfold others, leaver. destruct (notify_d_find_subscription (subs s) "news" "me") as [[i|]|]; try done.
  destruct (sub_run_refines (subs s) (RUnsub (Some "news"%string) (Some "me"%string)) w (good_subs s G)) as (a & r & w1 & E & R & _).
  cbn [sub_run] in E. destruct (notify_d_unsubscribe (subs s) (Some "news"%string) (Some "me"%string)) as [[rc r']|]; [|done].
  cbn in E |- *. simplify_eq. by apply set_subs_ok.
Qed.

Lemma toy_s0_good : good (sv toy_s0).
Proof. split; [exists None; exact (proj1 (ntf_start_ok 3 ([] : log_world)))|vm_compute; lia]. Qed.

Lemma dispatch_safe_witness :
  exists st resp s' w', notify_d_dispatch_jsonrpc (H0 := toy_request) (H1 := toy_rpc) (sv toy_s0) "r" 64 ([] : log_world)
    = Some (st, resp, s', w') /\ good s' /\ st = NOTIFY_D_METHOD_HANDLED /\ pending_count (ring s') = 1%nat.
Proof.
  pose proof (dispatch_safe (H0 := toy_request) (H1 := toy_rpc) (sv toy_s0) "r" 64 ([] : log_world) toy_s0_good) as D.
  destruct (notify_d_dispatch_jsonrpc (H0 := toy_request) (H1 := toy_rpc) (sv toy_s0) "r" 64 ([] : log_world))
    as [[[[st resp] s'] w']|] eqn:E; [|destruct D as [D _]; vm_compute in D; discriminate D].
  exists st, resp, s', w'. destruct D as (G & _). split_and!; [reflexivity|exact G|..]; vm_compute in E; injection E as <- <- <- <-; reflexivity.
Defined.

(** [list] with a subscription that is given up while the answer is built reads
    the freed topic. *)
Lemma list_reads_freed :
  ntf_list (set_subs (mkSubs [mkSub (Some "me"%string) (Some "news"%string) true] 1) (sv toy_s0)) ([] : log_world) = None.
Proof. vm_compute. reflexivity. Qed.
