(* ===== verification/Channel.v ===== *)
(** * Channel

    The channel service of channel_d: the table of channels and their life
    (channel_d/src/book/channel_book.c), the opening of sockets, shared memory
    and pipes (channel_d/src/service/channel_service.c), sending, receiving and
    probing (channel_d/src/io/channel_io.c), POSIX branch.

    Descriptors, mappings, files and clocks belong to the operating system: a
    class of operations on a world, with a class of laws for what the accounting
    relies on.  The table is the list of the [channel_count] entries in use.
    Sending and receiving hold the lock only before and after the transfer, so
    each of them is two steps around it.  An outer [None] is an access behind
    the end of the array. *)

From stdpp Require Import gmap.
From S2P Require Import Prelude MemEnv.

Definition CHANNEL_MAX_ID : nat := 128.
Definition CHANNEL_MAX_NAME : nat := 256.
Definition CHANNEL_MAX_ENDPOINT : nat := 512.
Definition CHANNEL_MAX_CHANNELS : nat := 256.
Definition SHM_NAME_SIZE : nat := 128.

(** ** Data *)

Inductive channel_type_t := CHANNEL_TYPE_SOCKET | CHANNEL_TYPE_SHM | CHANNEL_TYPE_PIPE | CHANNEL_TYPE_UNKNOWN.
Inductive channel_status_t := CHANNEL_STATUS_CLOSED | CHANNEL_STATUS_OPEN | CHANNEL_STATUS_ERROR | CHANNEL_STATUS_DRAINING.

#[export] Instance channel_type_eq : EqDecision channel_type_t.
Proof. solve_decision. Defined.
#[export] Instance channel_status_eq : EqDecision channel_status_t.
Proof. solve_decision. Defined.

Record channel_info_t := mkInfo {
  channel_id : string;
  name : string;
  ctype : channel_type_t;
  status : channel_status_t;
  endpoint : string;
  created_at : Z;
  last_activity : Z;
  buffer_size : Z;
  messages_sent : Z;
  messages_received : Z
}.

Record channel_config_t := mkConfig {
  max_channels : Z;
  default_buffer_size : Z;
  socket_dir : string;
  shm_prefix : string
}.

(** A callback is known by a number; [recv_buffer] says whether it is there. *)
Record channel_entry_t := mkEntry {
  info : channel_info_t;
  socket_fd : Z;
  shm_ptr : option Z;
  shm_size : Z;
  shm_name : string;
  shm_fd : Z;
  callback : option nat;
  recv_buffer : bool
}.

Record channel_service := mkSvc {
  config : channel_config_t;
  channels : list channel_entry_t;
  running : bool;
  healthy : bool;
  total_messages_sent : Z;
  total_messages_received : Z
}.

Class ChanOS (W : Type) := {
  chan_mem :: MemOS W;
  airy_time_ms : W -> Z * W;
  airy_io_mkdir_p : string -> W -> Z * W;
  sys_socket : W -> Z * W;
  sys_bind : Z -> string -> W -> Z * W;
  sys_listen : Z -> W -> Z * W;
  sys_nonblock : Z -> W -> W;
  sys_close : Z -> W -> W;
  sys_unlink : string -> W -> W;
  sys_shm_open : string -> W -> Z * W;
  sys_ftruncate : Z -> Z -> W -> Z * W;
  sys_mmap : Z -> Z -> W -> option Z * W;
  sys_munmap : Z -> Z -> W -> W;
  sys_shm_unlink : string -> W -> W;
  sys_mkfifo : string -> W -> Z * bool * W;     (** result, and whether the file was there *)
  sys_timeouts : Z -> bool -> W -> W;
  sys_connect : Z -> string -> W -> Z * bool * W;  (** result, and whether the time was over *)
  sys_open_rd : string -> W -> Z * W;
  sys_open_wr : string -> W -> Z * W;
  airy_io_write_all : Z -> list Z -> W -> Z * bool * W;
  sys_accept : Z -> W -> Z * W;
  sys_read : Z -> Z -> W -> list Z * W;         (** empty at the end and on an error *)
  shm_load : Z -> W -> list Z;                  (** the bytes of a mapping *)
  shm_store : Z -> list Z -> W -> W
}.

Definition set_channels (l : list channel_entry_t) (s : channel_service) : channel_service :=
  mkSvc (config s) l (running s) (healthy s) (total_messages_sent s) (total_messages_received s).

Definition set_info (i : channel_info_t) (e : channel_entry_t) : channel_entry_t :=
  mkEntry i (socket_fd e) (shm_ptr e) (shm_size e) (shm_name e) (shm_fd e) (callback e) (recv_buffer e).

Definition set_activity (t : Z) (i : channel_info_t) : channel_info_t :=
  mkInfo (channel_id i) (name i) (ctype i) (status i) (endpoint i) (created_at i) t (buffer_size i) (messages_sent i)
    (messages_received i).

Section ops.
  Context {W : Type} `{ChanOS W} `{AiryString}.

(** ** Look-up *)

Fixpoint find_from (i : nat) (l : list channel_entry_t) (id : string) : option nat :=
    match l with
    | [] => None
    | e :: l' => if strcmp_eq (channel_id (info e)) id then Some i else find_from (S i) l' id
    end.

Definition find_channel (s : channel_service) (id : string) : option nat := find_from 0 (channels s) id.

(** ** Release *)

Definition free_socket (e : channel_entry_t) (w : W) : channel_entry_t * W :=
    if 0 <=? socket_fd e then
      let w := sys_close (socket_fd e) w in
      let w := if bool_decide (ctype (info e) = CHANNEL_TYPE_SOCKET) && negb (strcmp_eq (endpoint (info e)) "")
               then sys_unlink (endpoint (info e)) w else w in
      (mkEntry (info e) (-1) (shm_ptr e) (shm_size e) (shm_name e) (shm_fd e) (callback e) (recv_buffer e), w)
    else (e, w).

Definition free_shm (e : channel_entry_t) (w : W) : channel_entry_t * W :=
    let w := match shm_ptr e with Some p => sys_munmap p (shm_size e) w | None => w end in
    let w := if 0 <=? shm_fd e then sys_close (shm_fd e) w else w in
    let w := if strcmp_eq (shm_name e) "" then w else sys_shm_unlink (shm_name e) w in
    (mkEntry (info e) (socket_fd e) None (shm_size e) "" (if 0 <=? shm_fd e then -1 else shm_fd e) (callback e) (recv_buffer e), w).

Definition backend_entry_free (e : channel_entry_t) (w : W) : channel_entry_t * W :=
    let '(e, w) := free_socket e w in free_shm e w.

Definition channel_entry_free (e : channel_entry_t) (w : W) : channel_entry_t * W :=
    let '(e, w) := backend_entry_free e w in
    (mkEntry (info e) (socket_fd e) (shm_ptr e) (shm_size e) (shm_name e) (shm_fd e) (callback e) false, w).

(** The loop of stop and destroy. *)
Fixpoint free_all (l : list channel_entry_t) (w : W) : W :=
    match l with
    | [] => w
    | e :: l' => free_all l' (channel_entry_free e w).2
    end.

(** ** Opening *)

(** [sizeof (addr.sun_path)] on Linux. *)
Definition SUN_PATH : nat := 108.

Definition create_socket_channel (e : channel_entry_t) (path : string) (w : W) : airy_rc * channel_entry_t * W :=
    let addr := AIRY_STRNCPY_TERM SUN_PATH path in
    let '(fd, w) := sys_socket w in
    if fd <? 0 then (AIRY_ERR_IO, e, w)
    else
      let w := sys_unlink path w in
      let '(rc, w) := sys_bind fd addr w in
      if rc <? 0 then (AIRY_ERR_IO, e, sys_close fd w)
      else
        let '(rc, w) := sys_listen fd w in
        if rc <? 0 then (AIRY_ERR_IO, e, sys_unlink path (sys_close fd w))
        else (AIRY_SUCCESS,
              mkEntry (info e) fd (shm_ptr e) (shm_size e) (shm_name e) (shm_fd e) (callback e) (recv_buffer e),
              sys_nonblock fd w).

Definition create_shm_channel (e : channel_entry_t) (w : W) : airy_rc * channel_entry_t * W :=
    let id := snprintf_s SHM_NAME_SIZE (channel_id (info e)) in
    let nm := snprintf_s SHM_NAME_SIZE ("/airy_ch_" +:+ id) in
    let e := mkEntry (info e) (socket_fd e) (shm_ptr e) (shm_size e) nm (shm_fd e) (callback e) (recv_buffer e) in
    let size := if 0 <? buffer_size (info e) then buffer_size (info e) else 65536 in
    let '(fd, w) := sys_shm_open nm w in
    if fd <? 0 then (AIRY_ERR_IO, e, w)
    else
      let '(rc, w) := sys_ftruncate fd size w in
      if rc <? 0 then (AIRY_ERR_IO, e, sys_shm_unlink nm (sys_close fd w))
      else
        match sys_mmap fd size w with
        | (None, w) => (AIRY_ERR_IO, e, sys_shm_unlink nm (sys_close fd w))
        | (Some p, w) =>
            (AIRY_SUCCESS, mkEntry (info e) (socket_fd e) (Some p) size nm fd (callback e) (recv_buffer e),
             shm_store p (replicate (Z.to_nat size) 0) w)
        end.

Definition create_pipe_channel (e : channel_entry_t) (w : W) : airy_rc * channel_entry_t * W :=
    if strcmp_eq (endpoint (info e)) "" then (AIRY_SUCCESS, e, w)
    else
      let '(rc, exists_, w) := sys_mkfifo (endpoint (info e)) w in
      (if (rc <? 0) && negb exists_ then AIRY_ERR_IO else AIRY_SUCCESS, e, w).

Definition default_endpoint (c : channel_config_t) (t : channel_type_t) (id : string) : string :=
    match t with
    | CHANNEL_TYPE_SOCKET => snprintf_s CHANNEL_MAX_ENDPOINT (socket_dir c +:+ "/" +:+ id +:+ ".sock")
    | CHANNEL_TYPE_SHM => snprintf_s CHANNEL_MAX_ENDPOINT (shm_prefix c +:+ id)
    | _ => ""
    end.

(** The entry before its resources are made. *)
Definition new_entry (c : channel_config_t) (id nm : string) (t : channel_type_t) (ep : option string) (now : Z) : channel_entry_t :=
    mkEntry
      (mkInfo (AIRY_STRNCPY_TERM CHANNEL_MAX_ID id) (AIRY_STRNCPY_TERM CHANNEL_MAX_NAME nm) t CHANNEL_STATUS_OPEN
         (match ep with Some p => AIRY_STRNCPY_TERM CHANNEL_MAX_ENDPOINT p | None => default_endpoint c t id end)
         now now (default_buffer_size c) 0 0)
      (-1) None 0 "" (-1) None false.

Definition create_channel (e : channel_entry_t) (w : W) : airy_rc * channel_entry_t * W :=
    match ctype (info e) with
    | CHANNEL_TYPE_SOCKET => create_socket_channel e (endpoint (info e)) w
    | CHANNEL_TYPE_SHM => create_shm_channel e w
    | CHANNEL_TYPE_PIPE => create_pipe_channel e w
    | CHANNEL_TYPE_UNKNOWN => (AIRY_ERR_NOT_SUPPORTED, e, w)
    end.

Definition with_buffer (e : channel_entry_t) : channel_entry_t :=
    mkEntry (info e) (socket_fd e) (shm_ptr e) (shm_size e) (shm_name e) (shm_fd e) (callback e) true.

(** The tests before the lock is taken. *)
Definition open_admit (s : channel_service) (id nm : option string) : airy_rc :=
    match id, nm with
    | Some _, Some _ => if max_channels (config s) <=? Z.of_nat (length (channels s)) then AIRY_ERR_OVERFLOW else AIRY_SUCCESS
    | _, _ => AIRY_ERR_INVALID_PARAM
    end.

(** The section under the lock; it does not test the number again. *)
Definition open_locked (s : channel_service) (id nm : string) (t : channel_type_t) (ep : option string) (w : W)
      : option (airy_rc * channel_service * W) :=
    match find_channel s id with
    | Some _ => Some (AIRY_ERR_UNKNOWN, s, w)
    | None =>
        if (CHANNEL_MAX_CHANNELS <=? length (channels s))%nat then None
        else
          let '(now, w) := airy_time_ms w in
          let '(rc, e, w) := create_channel (new_entry (config s) id nm t ep now) w in
          if negb (bool_decide (rc = AIRY_SUCCESS)) then Some (AIRY_ERR_IO, s, w)
          else
            let '(ok, w) := os_alloc w in
            if negb ok then Some (AIRY_ERR_OUT_OF_MEMORY, s, (channel_entry_free e w).2)
            else Some (AIRY_SUCCESS, set_channels (channels s ++ [with_buffer e]) s, w)
    end.

(** [between]: what other threads do after the tests and before the lock is
    taken. *)
Definition channel_service_open (between : channel_service -> W -> channel_service * W) (s : channel_service)
      (id nm : option string) (t : channel_type_t) (ep : option string) (w : W) : option (airy_rc * channel_service * W) :=
    match open_admit s id nm, id, nm with
    | AIRY_SUCCESS, Some id, Some nm => let '(s, w) := between s w in open_locked s id nm t ep w
    | rc, _, _ => Some (rc, s, w)
    end.

(** ** Life of the service *)

Definition channel_service_create (c : channel_config_t) (w : W) : option channel_service * W :=
    let '(ok, w) := os_alloc w in
    if negb ok then (None, w)
    else if strcmp_eq (socket_dir c) "" then (None, w)
    else
      let '(rc, w) := airy_io_mkdir_p (socket_dir c) w in
      if negb (rc =? 0) then (None, w) else (Some (mkSvc c [] false true 0 0), w).

Definition channel_service_start (s : channel_service) (w : W) : airy_rc * channel_service * W :=
    if running s then (AIRY_SUCCESS, s, w)
    else
      let w := if strcmp_eq (socket_dir (config s)) "" then w else (airy_io_mkdir_p (socket_dir (config s)) w).2 in
      (AIRY_SUCCESS, mkSvc (config s) (channels s) true true (total_messages_sent s) (total_messages_received s), w).

Definition channel_service_stop (s : channel_service) (w : W) : airy_rc * channel_service * W :=
    if negb (running s) then (AIRY_ERR_INVALID_PARAM, s, w)
    else (AIRY_SUCCESS, mkSvc (config s) [] false (healthy s) (total_messages_sent s) (total_messages_received s),
          free_all (channels s) w).

Definition channel_service_destroy (s : channel_service) (w : W) : W :=
    let '(_, s, w) := if running s then channel_service_stop s w else (AIRY_SUCCESS, s, w) in
    free_all (channels s) w.

(** The last entry takes the place of the closed one. *)
Definition drop_entry (l : list channel_entry_t) (i : nat) : list channel_entry_t :=
    match last l with
    | Some x => take (length l - 1) (<[i := x]> l)
    | None => l
    end.

Definition channel_service_close (s : channel_service) (id : option string) (w : W) : airy_rc * channel_service * W :=
    match id with
    | None => (AIRY_ERR_INVALID_PARAM, s, w)
    | Some id =>
        match find_channel s id with
        | None => (AIRY_ERR_NOT_FOUND, s, w)
        | Some i =>
            match channels s !! i with
            | None => (AIRY_ERR_NOT_FOUND, s, w)
            | Some e => (AIRY_SUCCESS, set_channels (drop_entry (channels s) i) s, (channel_entry_free e w).2)
            end
        end
    end.

(** ** Queries *)

Definition channel_service_list (s : channel_service) (capacity : nat) : list channel_info_t :=
    map info (take (Nat.min (length (channels s)) capacity) (channels s)).

Definition channel_service_get_info (s : channel_service) (id : option string) : airy_rc * option channel_info_t :=
    match id with
    | None => (AIRY_ERR_INVALID_PARAM, None)
    | Some id =>
        match find_channel s id ≫= fun i => channels s !! i with
        | None => (AIRY_ERR_NOT_FOUND, None)
        | Some e => (AIRY_SUCCESS, Some (info e))
        end
    end.

Definition set_cb (cb : option nat) (e : channel_entry_t) : channel_entry_t :=
    mkEntry (info e) (socket_fd e) (shm_ptr e) (shm_size e) (shm_name e) (shm_fd e) cb (recv_buffer e).

Definition channel_service_set_callback (s : channel_service) (id : option string) (cb : option nat) : airy_rc * channel_service :=
    match id with
    | None => (AIRY_ERR_INVALID_PARAM, s)
    | Some id =>
        match find_channel s id with
        | None => (AIRY_ERR_NOT_FOUND, s)
        | Some i => (AIRY_SUCCESS, set_channels (alter (set_cb cb) i (channels s)) s)
        end
    end.

(** ** Transfer *)

(** A 32-bit number in network order, and in the host's (little-endian). *)
Definition net32 (n : Z) : list Z := [u8 (Z.shiftr n 24); u8 (Z.shiftr n 16); u8 (Z.shiftr n 8); u8 n].
Definition host32 (n : Z) : list Z := [u8 n; u8 (Z.shiftr n 8); u8 (Z.shiftr n 16); u8 (Z.shiftr n 24)].

(** [n] bytes as a number, missing ones as 0. *)
Definition from_net (l : list Z) : Z :=
    nth 0 l 0 * 2 ^ 24 + nth 1 l 0 * 2 ^ 16 + nth 2 l 0 * 2 ^ 8 + nth 3 l 0.
Definition from_host (l : list Z) : Z :=
    nth 0 l 0 + nth 1 l 0 * 2 ^ 8 + nth 2 l 0 * 2 ^ 16 + nth 3 l 0 * 2 ^ 24.

(** The bytes [b] written at [off]. *)
Definition splice (off : nat) (b r : list Z) : list Z := take off r ++ b ++ drop (off + length b) r.

Definition timeout_rc (over : bool) : airy_rc := if over then AIRY_ERR_TIMEOUT else AIRY_ERR_IO.

Definition chan_connect (ep : string) (with_rcv : bool) (w : W) : (airy_rc + Z) * W :=
    let addr := AIRY_STRNCPY_TERM SUN_PATH ep in
    let '(fd, w) := sys_socket w in
    if fd <? 0 then (inl AIRY_ERR_IO, w)
    else
      let w := sys_timeouts fd with_rcv w in
      let '(rc, over, w) := sys_connect fd addr w in
      if rc <? 0 then (inl (timeout_rc over), sys_close fd w) else (inr fd, w).

Definition chan_sock_send (ep : string) (data : list Z) (w : W) : airy_rc * W :=
    match chan_connect ep false w with
    | (inl rc, w) => (rc, w)
    | (inr fd, w) =>
        let '(w1, over, w) := airy_io_write_all fd (net32 (u32 (Z.of_nat (length data)))) w in
        if w1 <? 0 then (timeout_rc over, sys_close fd w)
        else
          let '(w2, over, w) := airy_io_write_all fd data w in
          (if w2 <? 0 then timeout_rc over else AIRY_SUCCESS, sys_close fd w)
    end.

Definition chan_pipe_send (ep : string) (data : list Z) (w : W) : airy_rc * W :=
    if strcmp_eq ep "" then (AIRY_SUCCESS, w)
    else
      let '(fd, w) := sys_open_wr ep w in
      if fd <? 0 then (AIRY_ERR_IO, w)
      else
        let '(n, _, w) := airy_io_write_all fd (net32 (u32 (Z.of_nat (length data)))) w in
        if n <? 0 then (AIRY_ERR_IO, sys_close fd w)
        else
          let '(n, _, w) := airy_io_write_all fd data w in
          (if n <? 0 then AIRY_ERR_IO else AIRY_SUCCESS, sys_close fd w).

(** The code and the bytes, where there are any. *)
Definition chan_read_frame (fd max_len : Z) (zero_rc : airy_rc) (w : W) : airy_rc * option (list Z) * W :=
    let '(h, w) := sys_read fd 4 w in
    match h with
    | [] => (zero_rc, None, w)
    | _ =>
        let len := from_net h in
        if max_len <? len then (AIRY_ERR_OVERFLOW, None, w)
        else if len =? 0 then (zero_rc, None, w)
        else
          let '(ok, w) := os_alloc w in
          if negb ok then (AIRY_ERR_OUT_OF_MEMORY, None, w)
          else
            let '(b, w) := sys_read fd len w in
            match b with [] => (zero_rc, None, w) | _ => (AIRY_SUCCESS, Some b, w) end
    end.

(** ** Sending *)

Definition shm_header : Z := 8.

(** What the transfer needs of the entry, copied under the lock. *)
Record view := mkView { v_type : channel_type_t; v_endpoint : string; v_fd : Z; v_cb : option nat }.

Definition view_of (e : channel_entry_t) : view :=
    mkView (ctype (info e)) (AIRY_STRNCPY_TERM 512 (endpoint (info e))) (socket_fd e) (callback e).

(** [*msg_len], the data, then [*msg_flag = 1]. *)
Definition shm_put (p : Z) (data : list Z) (w : W) : W :=
    let w := shm_store p (splice 0 (host32 (u32 (Z.of_nat (length data)))) (shm_load p w)) w in
    let w := shm_store p (splice 8 data (shm_load p w)) w in
    shm_store p (splice 4 (host32 1) (shm_load p w)) w.

(** The open entry of a name. *)
Definition find_open (s : channel_service) (id : string) : option (nat * channel_entry_t) :=
    match find_channel s id with
    | None => None
    | Some i =>
        match channels s !! i with
        | Some e => if bool_decide (status (info e) = CHANNEL_STATUS_OPEN) then Some (i, e) else None
        | None => None
        end
    end.

Definition touch (i : nat) (t : Z) (s : channel_service) : channel_service :=
    set_channels (alter (fun e => set_info (set_activity t (info e)) e) i (channels s)) s.

Definition send_begin (s : channel_service) (id : option string) (data : option (list Z)) (w : W)
      : (airy_rc + view) * channel_service * W :=
    match id, data with
    | Some id, Some data =>
        if (length data =? 0)%nat then (inl AIRY_ERR_INVALID_PARAM, s, w)
        else
          match find_open s id with
          | None => (inl AIRY_ERR_NOT_FOUND, s, w)
          | Some (i, e) =>
              let '(now, w) := airy_time_ms w in
              let s := touch i now s in
              match ctype (info e) with
              | CHANNEL_TYPE_SHM =>
                  match shm_ptr e with
                  | None => (inl AIRY_ERR_UNKNOWN, s, w)
                  | Some p =>
                      if shm_size e <? shm_header then (inl AIRY_ERR_OVERFLOW, s, w)
                      else if shm_size e - shm_header <? Z.of_nat (length data) then (inl AIRY_ERR_OVERFLOW, s, w)
                      else (inr (view_of e), s, shm_put p data w)
                  end
              | _ => (inr (view_of e), s, w)
              end
          end
    | _, _ => (inl AIRY_ERR_INVALID_PARAM, s, w)
    end.

Definition send_io (v : view) (data : list Z) (w : W) : airy_rc * W :=
    match v_type v with
    | CHANNEL_TYPE_SOCKET => if v_fd v <? 0 then (AIRY_ERR_IO, w) else chan_sock_send (v_endpoint v) data w
    | CHANNEL_TYPE_PIPE => chan_pipe_send (v_endpoint v) data w
    | CHANNEL_TYPE_SHM => (AIRY_SUCCESS, w)
    | CHANNEL_TYPE_UNKNOWN => (AIRY_ERR_UNKNOWN, w)
    end.

Definition count_msg (sent : bool) (i : channel_info_t) : channel_info_t :=
    mkInfo (channel_id i) (name i) (ctype i) (status i) (endpoint i) (created_at i) (last_activity i) (buffer_size i)
      (if sent then u64 (messages_sent i + 1) else messages_sent i)
      (if sent then messages_received i else u64 (messages_received i + 1)).

(** The last section under the lock, of sending and of receiving. *)
Definition count_end (sent : bool) (s : channel_service) (id : string) : channel_service :=
    match find_open s id with
    | None => s
    | Some (i, _) =>
        let s := set_channels (alter (fun e => set_info (count_msg sent (info e)) e) i (channels s)) s in
        mkSvc (config s) (channels s) (running s) (healthy s)
          (if sent then u64 (total_messages_sent s + 1) else total_messages_sent s)
          (if sent then total_messages_received s else u64 (total_messages_received s + 1))
    end.

(** The code, the callback that is called, and the service. *)
Definition channel_service_send (s : channel_service) (id : option string) (data : option (list Z)) (w : W)
      : airy_rc * option nat * channel_service * W :=
    match send_begin s id data w, id, data with
    | (inl rc, s, w), _, _ => (rc, None, s, w)
    | (inr v, s, w), Some id, Some data =>
        let '(rc, w) := send_io v data w in
        if bool_decide (rc = AIRY_SUCCESS) then (AIRY_SUCCESS, v_cb v, count_end true s id, w) else (rc, None, s, w)
    | (inr _, s, w), _, _ => (AIRY_ERR_INVALID_PARAM, None, s, w)
    end.

(** ** Receiving *)

(** The message of the mapping: nothing, too long, no memory, or its bytes with
    the flag taken down.  An outer [None] reads behind the mapping. *)
Definition shm_take (p size : Z) (w : W) : option (airy_rc * option (list Z) * bool * W) :=
    let r := shm_load p w in
    if negb (from_host (drop 4 r) =? 1) then Some (AIRY_SUCCESS, None, false, w)
    else
      let len := from_host r in
      if (len =? 0) || (u64 (size - shm_header) <? len) then Some (AIRY_ERR_OVERFLOW, None, false, w)
      else
        let '(ok, w) := os_alloc w in
        if negb ok then Some (AIRY_ERR_OUT_OF_MEMORY, None, false, w)
        else if Z.of_nat (length r) <? shm_header + len then None
        else Some (AIRY_SUCCESS, Some (take (Z.to_nat len) (drop 8 r)), true, shm_store p (splice 4 (host32 0) (shm_load p w)) w).

(** An early return with its code, or the view to go on with; the bytes of a
    message in shared memory. *)
Definition recv_begin (s : channel_service) (id : option string) (w : W)
      : option ((airy_rc + view) * option (list Z) * channel_service * W) :=
    match id with
    | None => Some (inl AIRY_ERR_INVALID_PARAM, None, s, w)
    | Some id =>
        match find_open s id with
        | None => Some (inl AIRY_ERR_NOT_FOUND, None, s, w)
        | Some (i, e) =>
            let '(now, w) := airy_time_ms w in
            let s := touch i now s in
            match ctype (info e) with
            | CHANNEL_TYPE_SHM =>
                match shm_ptr e with
                | None => Some (inl AIRY_ERR_UNKNOWN, None, s, w)
                | Some p =>
                    '(rc, data, on, w) ← shm_take p (shm_size e) w;
                    Some (if on : bool then inr (view_of e) else inl rc, data, s, w)
                end
            | _ => Some (inr (view_of e), None, s, w)
            end
        end
    end.

(** [Some] data or an early return. *)
Definition recv_io (v : view) (max_msg : Z) (data : option (list Z)) (w : W) : (airy_rc + airy_rc) * option (list Z) * W :=
    match v_type v with
    | CHANNEL_TYPE_SOCKET =>
        if v_fd v <? 0 then (inl AIRY_ERR_IO, None, w)
        else
          let '(c, w) := sys_accept (v_fd v) w in
          if c <? 0 then (inl AIRY_ERR_IO, None, w)
          else
            let '(rc, b, w) := chan_read_frame c max_msg AIRY_ERR_IO w in
            (if bool_decide (rc = AIRY_SUCCESS) then inr AIRY_SUCCESS else inl rc, b, sys_close c w)
    | CHANNEL_TYPE_PIPE =>
        if strcmp_eq (v_endpoint v) "" then (inl AIRY_SUCCESS, None, w)
        else
          let '(fd, w) := sys_open_rd (v_endpoint v) w in
          if fd <? 0 then (inl AIRY_SUCCESS, None, w)
          else
            let '(rc, b, w) := chan_read_frame fd UINT32_MAX AIRY_SUCCESS w in
            (if bool_decide (rc = AIRY_SUCCESS) then inr AIRY_SUCCESS else inl rc, b, sys_close fd w)
    | CHANNEL_TYPE_SHM => (inr AIRY_SUCCESS, data, w)
    | CHANNEL_TYPE_UNKNOWN => (inl AIRY_ERR_UNKNOWN, None, w)
    end.

Definition channel_service_receive (s : channel_service) (id : option string) (w : W)
      : option (airy_rc * option (list Z) * channel_service * W) :=
    '(r, data, s, w) ← recv_begin s id w;
    match r, id with
    | inl rc, _ => Some (rc, data, s, w)
    | inr v, Some id =>
        let '(r, data, w) := recv_io v (default_buffer_size (config s)) data w in
        match r with
        | inl rc => Some (rc, data, s, w)
        | inr _ => Some (AIRY_SUCCESS, data, count_end false s id, w)
        end
    | inr _, None => Some (AIRY_ERR_INVALID_PARAM, None, s, w)
    end.

(** ** Probing *)

Definition probe (e : channel_entry_t) (w : W) : airy_rc * W :=
    match ctype (info e) with
    | CHANNEL_TYPE_SOCKET =>
        if (socket_fd e <? 0) || strcmp_eq (endpoint (info e)) "" then (AIRY_ERR_IO, w)
        else match chan_connect (endpoint (info e)) true w with
             | (inl rc, w) => (rc, w)
             | (inr fd, w) => (AIRY_SUCCESS, sys_close fd w)
             end
    | CHANNEL_TYPE_SHM => (match shm_ptr e with None => AIRY_ERR_IO | Some _ => AIRY_SUCCESS end, w)
    | CHANNEL_TYPE_PIPE =>
        if strcmp_eq (endpoint (info e)) "" then (AIRY_ERR_IO, w)
        else
          let '(fd, w) := sys_open_rd (endpoint (info e)) w in
          if fd <? 0 then (AIRY_ERR_IO, w) else (AIRY_SUCCESS, sys_close fd w)
    | CHANNEL_TYPE_UNKNOWN => (AIRY_ERR_PERMISSION_DENIED, w)
    end.

(** The code, the latency and the service. *)
Definition channel_service_ping (s : channel_service) (id : option string) (w : W) : airy_rc * Z * channel_service * W :=
    match id with
    | None => (AIRY_ERR_INVALID_PARAM, 0, s, w)
    | Some id =>
        match find_channel s id with
        | None => (AIRY_ERR_NOT_FOUND, 0, s, w)
        | Some i =>
            match channels s !! i with
            | None => (AIRY_ERR_NOT_FOUND, 0, s, w)
            | Some e =>
                let '(t0, w) := airy_time_ms w in
                let '(rc, w) := probe e w in
                let '(t1, w) := airy_time_ms w in
                (rc, t1 - t0, if bool_decide (rc = AIRY_SUCCESS) then touch i t1 s else s, w)
            end
        end
    end.
End ops.

(** ** What the accounting relies on

    [fds] and [maps] are the descriptors and mappings that the process holds. *)
Class ChanLaws (W : Type) `{ChanOS W} := {
  fds : W -> gset Z;
  maps : W -> gset Z;
  held w := (fds w, maps w);
  (** the calls that hand out a descriptor *)
  got (r : Z) (w w' : W) := maps w' = maps w /\ if 0 <=? r then r ∉ fds w /\ fds w' = {[r]} ∪ fds w else fds w' = fds w;
  law_socket : forall w, got (sys_socket w).1 w (sys_socket w).2;
  law_shm_open : forall n w, got (sys_shm_open n w).1 w (sys_shm_open n w).2;
  law_open_rd : forall n w, got (sys_open_rd n w).1 w (sys_open_rd n w).2;
  law_open_wr : forall n w, got (sys_open_wr n w).1 w (sys_open_wr n w).2;
  law_accept : forall f w, got (sys_accept f w).1 w (sys_accept f w).2;
  law_close : forall f w, fds (sys_close f w) = fds w ∖ {[f]} /\ maps (sys_close f w) = maps w;
  law_mmap : forall f n w, let r := sys_mmap f n w in
    fds r.2 = fds w /\ match r.1 with Some p => p ∉ maps w /\ maps r.2 = {[p]} ∪ maps w | None => maps r.2 = maps w end;
  law_munmap : forall p n w, fds (sys_munmap p n w) = fds w /\ maps (sys_munmap p n w) = maps w ∖ {[p]};
  (** the others keep both *)
  law_alloc : forall w, held (os_alloc w).2 = held w;
  law_time : forall w, held (airy_time_ms w).2 = held w;
  law_mkdir : forall d w, held (airy_io_mkdir_p d w).2 = held w;
  law_bind : forall f p w, held (sys_bind f p w).2 = held w;
  law_listen : forall f w, held (sys_listen f w).2 = held w;
  law_nonblock : forall f w, held (sys_nonblock f w) = held w;
  law_unlink : forall p w, held (sys_unlink p w) = held w;
  law_ftruncate : forall f n w, held (sys_ftruncate f n w).2 = held w;
  law_shm_unlink : forall n w, held (sys_shm_unlink n w) = held w;
  law_mkfifo : forall n w, held (sys_mkfifo n w).2 = held w;
  law_timeouts : forall f b w, held (sys_timeouts f b w) = held w;
  law_connect : forall f p w, held (sys_connect f p w).2 = held w;
  law_write : forall f b w, held (airy_io_write_all f b w).2 = held w;
  law_read : forall f n w, held (sys_read f n w).2 = held w;
  law_store : forall p b w, held (shm_store p b w) = held w
}.

(** The descriptors and mappings of an entry. *)
Definition efds (e : channel_entry_t) : gset Z :=
  (if 0 <=? socket_fd e then {[socket_fd e]} else ∅) ∪ (if 0 <=? shm_fd e then {[shm_fd e]} else ∅).

Definition emaps (e : channel_entry_t) : gset Z := match shm_ptr e with Some p => {[p]} | None => ∅ end.

Section held.
  Context {W : Type} `{ChanLaws W} `{AiryString}.

Lemma held_eq w w' : held w' = held w <-> fds w' = fds w /\ maps w' = maps w.
Proof. unfold held. split; [intros [=]; done|intros [-> ->]; done]. Qed.

Lemma free_socket_held e w :
    fds (free_socket e w).2 = fds w ∖ (if 0 <=? socket_fd e then {[socket_fd e]} else ∅) /\ maps (free_socket e w).2 = maps w.
Proof.
    unfold free_socket. destruct (0 <=? socket_fd e); [|cbn; split; [set_solver|done]]. cbn [snd].
    destruct (law_close (socket_fd e) w) as [F M].
    destruct (bool_decide _ && _); [|done].
    pose proof (law_unlink (endpoint (info e)) (sys_close (socket_fd e) w)) as U. apply held_eq in U as [-> ->]. done.
Qed.

Lemma free_shm_held e w :
    fds (free_shm e w).2 = fds w ∖ (if 0 <=? shm_fd e then {[shm_fd e]} else ∅) /\ maps (free_shm e w).2 = maps w ∖ emaps e.
Proof.
    unfold free_shm, emaps. cbn [snd].
    set (w1 := match shm_ptr e with Some p => sys_munmap p (shm_size e) w | None => w end).
    assert (A : fds w1 = fds w /\ maps w1 = maps w ∖ match shm_ptr e with Some p => {[p]} | None => ∅ end).
    { unfold w1. destruct (shm_ptr e) as [p|]; [apply law_munmap|split; [done|set_solver]]. }
    set (w2 := if 0 <=? shm_fd e then sys_close (shm_fd e) w1 else w1).
    assert (B : fds w2 = fds w1 ∖ (if 0 <=? shm_fd e then {[shm_fd e]} else ∅) /\ maps w2 = maps w1).
    { unfold w2. destruct (0 <=? shm_fd e); [apply law_close|split; [set_solver|done]]. }
    destruct A as [A1 A2], B as [B1 B2]. rewrite A1 in B1. rewrite A2 in B2. destruct (strcmp_eq (shm_name e) ""); [done|].
    pose proof (law_shm_unlink (shm_name e) w2) as U. apply held_eq in U as [-> ->]. done.
Qed.

(** Releasing an entry gives back its descriptors and mappings. *)
Lemma entry_free_held e w : fds (channel_entry_free e w).2 = fds w ∖ efds e /\ maps (channel_entry_free e w).2 = maps w ∖ emaps e.
Proof.
    unfold channel_entry_free, backend_entry_free, efds, emaps.
    pose proof (free_socket_held e w) as [A1 A2]. destruct (free_socket e w) as [e1 w1] eqn:E1. cbn [snd] in A1, A2.
    assert (S : shm_fd e1 = shm_fd e /\ shm_ptr e1 = shm_ptr e).
    { unfold free_socket in E1. destruct (0 <=? socket_fd e); simplify_eq; done. }
    pose proof (free_shm_held e1 w1) as [B1 B2]. destruct (free_shm e1 w1) as [e2 w2]. cbn [snd] in *.
    unfold emaps in B2. destruct S as [S1 S2]. rewrite S1, A1 in B1. rewrite S2, A2 in B2. split; [|done]. rewrite B1. set_solver.
Qed.
End held.

Definition lfds (e : channel_entry_t) : list Z :=
  (if 0 <=? socket_fd e then [socket_fd e] else []) ++ (if 0 <=? shm_fd e then [shm_fd e] else []).

Definition lmaps (e : channel_entry_t) : list Z := option_list (shm_ptr e).

Lemma efds_list e : efds e = list_to_set (lfds e).
Proof. unfold efds, lfds. destruct (0 <=? socket_fd e), (0 <=? shm_fd e); cbn; set_solver. Qed.

Lemma emaps_list e : emaps e = list_to_set (lmaps e).
Proof. unfold emaps, lmaps. destruct (shm_ptr e); cbn; set_solver. Qed.

Definition ids (l : list channel_entry_t) : list string := map (fun e => channel_id (info e)) l.

(** [X] is what was there before, [L] what the table accounts for. *)
Definition accounts (X cur : gset Z) (L : list Z) : Prop :=
  cur = X ∪ list_to_set L /\ NoDup L /\ Forall (fun x => x ∉ X) L.

Lemma accounts_perm X cur L L' : L ≡ₚ L' -> accounts X cur L -> accounts X cur L'.
Proof.
  intros P (E & N & F). split_and!; [|by rewrite <- P|by rewrite <- P]. rewrite E. apply leibniz_equiv. by rewrite P.
Qed.

Lemma accounts_add X cur L N : accounts X cur L -> NoDup N -> Forall (fun x => x ∉ cur) N ->
  accounts X (list_to_set N ∪ cur) (N ++ L).
Proof.
  intros (E & ND & F) HN HF. rewrite Forall_forall in HF. split_and!.
  - rewrite E, list_to_set_app_L. set_solver.
  - apply NoDup_app. split_and!; [done| |done]. intros x Hx Hl. apply (HF x Hx). rewrite E. apply elem_of_union_r. by apply elem_of_list_to_set.
  - apply Forall_app. split; [|done]. apply Forall_forall. intros x Hx HX. apply (HF x Hx). rewrite E. by apply elem_of_union_l.
Qed.

Lemma accounts_drop X cur N L : accounts X cur (N ++ L) -> accounts X (cur ∖ list_to_set N) L.
Proof.
  intros (E & ND & F). apply NoDup_app in ND as (N1 & D & N2). apply Forall_app in F as [F1 F2]. rewrite Forall_forall in F1.
  split_and!; [|done|done]. rewrite E, list_to_set_app_L. apply leibniz_equiv. intros x.
  rewrite elem_of_difference, !elem_of_union, !elem_of_list_to_set. split; [tauto|].
  intros [HX|HL]; (split; [tauto|]); intros HN; [by apply (F1 x HN)|by apply (D x HN)].
Qed.

(** [cf] is the configuration and [B] a bound of the table. *)
Record chan_ok {W} `{ChanLaws W} (F M : gset Z) (cf : channel_config_t) (B : Z) (s : channel_service) (w : W) : Prop := {
  ck_config : config s = cf;
  ck_bound : Z.of_nat (length (channels s)) <= B /\ (length (channels s) <= CHANNEL_MAX_CHANNELS)%nat;
  ck_ids : NoDup (ids (channels s));
  ck_fds : accounts F (fds w) (concat (map lfds (channels s)));
  ck_maps : accounts M (maps w) (concat (map lmaps (channels s)))
}.

Lemma drop_entry_perm l i e : l !! i = Some e -> l ≡ₚ e :: drop_entry l i.
Proof.
  intros E. unfold drop_entry. destruct (last l) as [x|] eqn:El.
  2: { apply last_None in El as ->. done. }
  apply last_Some in El as [l' ->]. rewrite length_app. cbn [length]. rewrite Nat.add_sub.
  destruct (decide (i < length l')%nat) as [Hi|Hi].
  - rewrite insert_app_l by done. rewrite take_app_length' by by rewrite length_insert.
    rewrite lookup_app_l in E by done. rewrite insert_take_drop by done.
    rewrite <- (take_drop_middle l' i e E) at 1. rewrite <- app_assoc. cbn [app].
    rewrite <- Permutation_middle. constructor. apply Permutation_app_head. symmetry. apply Permutation_cons_append.
  - apply lookup_lt_Some in E as Hl. rewrite length_app in Hl. cbn in Hl. replace i with (length l') in * by lia.
    rewrite list_lookup_middle in E by done. simplify_eq. rewrite list_insert_id by (by apply list_lookup_middle).
    rewrite take_app_length. symmetry. apply Permutation_cons_append.
Qed.

Section account.
  Context {W : Type} `{ChanLaws W} `{AiryStringOk}.

Lemma find_from_spec l id : forall i,
    match find_from i l id with
    | Some j => exists e, (i <= j)%nat /\ l !! (j - i)%nat = Some e /\ channel_id (info e) = id
    | None => id ∉ ids l
    end.
Proof.
    induction l as [|e l IH]; intros i; cbn; [apply not_elem_of_nil|].
    destruct (strcmp_eq (channel_id (info e)) id) eqn:E.
    - apply strcmp_eq_true in E. exists e. rewrite Nat.sub_diag. split_and!; [lia|done|done].
    - apply strcmp_eq_false in E. specialize (IH (S i)). destruct (find_from (S i) l id) as [j|].
      + destruct IH as (e' & Hj & El & Ei). exists e'. split_and!; [lia| |done].
        replace (j - i)%nat with (S (j - S i)) by lia. done.
      + apply not_elem_of_cons. split; [congruence|done].
Qed.

Lemma find_channel_spec s id :
    match find_channel s id with
    | Some i => exists e, channels s !! i = Some e /\ channel_id (info e) = id
    | None => id ∉ ids (channels s)
    end.
Proof.
    pose proof (find_from_spec (channels s) id 0) as F. unfold find_channel. destruct (find_from 0 _ id) as [i|]; [|done].
    destruct F as (e & _ & E & I). rewrite Nat.sub_0_r in E. eauto.
Qed.

(** A change of an entry that keeps name, descriptors and mappings. *)
Definition gentle (f : channel_entry_t -> channel_entry_t) : Prop :=
    forall e, channel_id (info (f e)) = channel_id (info e) /\ lfds (f e) = lfds e /\ lmaps (f e) = lmaps e.

Lemma map_alter_same {A B} (g : A -> B) (f : A -> A) i (l : list A) : (forall x, g (f x) = g x) -> map g (alter f i l) = map g l.
Proof.
    intros Hg. revert i. induction l as [|x l IH]; intros [|i]; cbn; [done..|by rewrite Hg|].
    f_equal. apply IH.
Qed.

Lemma gentle_ok F M cf B s w f i w' : chan_ok F M cf B s w -> gentle f -> held w' = held w ->
    chan_ok F M cf B (set_channels (alter f i (channels s)) s) w'.
Proof.
    intros [C0 C1 C2 C3 C4] G Hw. apply held_eq in Hw as [Ef Em]. split; cbn [channels set_channels config]; [done|..].
    - by rewrite length_alter.
    - unfold ids. rewrite map_alter_same; [done|apply G].
    - rewrite Ef, map_alter_same; [done|apply G].
    - rewrite Em, map_alter_same; [done|apply G].
Qed.

Lemma held_ok F M cf B s w w' : chan_ok F M cf B s w -> held w' = held w -> chan_ok F M cf B s w'.
Proof. intros [C0 C1 C2 C3 C4] Hw. apply held_eq in Hw as [Ef Em]. split; by rewrite ?Ef, ?Em. Qed.

Lemma got_close f w w1 w2 : got f w w1 -> 0 <= f -> held w2 = held w1 -> held (sys_close f w2) = held w.
Proof.
    intros [Gm Gf] Hf Hw. apply held_eq in Hw as [Ef Em]. destruct (Z.leb_spec 0 f); [|lia]. destruct Gf as [Gn Gf].
    apply held_eq. destruct (law_close f w2) as [-> ->]. rewrite Ef, Em, Gm, Gf. split; [|done].
    apply leibniz_equiv. set_solver.
Qed.

Lemma got_none f w w1 : got f w w1 -> f < 0 -> held w1 = held w.
Proof. intros [Gm Gf] Hf. destruct (Z.leb_spec 0 f); [lia|]. by apply held_eq. Qed.

Lemma chan_connect_held ep b w :
    match chan_connect ep b w with
    | (inl _, w') => held w' = held w
    | (inr f, w') => 0 <= f /\ exists w1, got f w w1 /\ held w' = held w1
    end.
Proof.
    unfold chan_connect. pose proof (law_socket w) as G. destruct (sys_socket w) as [f w1]. cbn [fst snd] in G.
    destruct (Z.ltb_spec f 0); [by eapply got_none|].
    pose proof (law_connect f (AIRY_STRNCPY_TERM SUN_PATH ep) (sys_timeouts f b w1)) as C. rewrite law_timeouts in C.
    destruct (sys_connect _ _ _) as [[rc over] w2]. cbn [snd] in C.
    destruct (rc <? 0); [by eapply got_close|]. split; [done|]. by exists w1.
Qed.

Lemma sock_send_held ep data w : held (chan_sock_send ep data w).2 = held w.
Proof.
    unfold chan_sock_send. pose proof (chan_connect_held ep false w) as C. destruct (chan_connect ep false w) as [[rc|f] w']; [done|].
    destruct C as (Hf & w1 & G & Hw).
    pose proof (law_write f (net32 (u32 (Z.of_nat (length data)))) w') as A. destruct (airy_io_write_all f _ w') as [[n o] w2]. cbn [snd] in A.
    destruct (n <? 0); cbn [snd]; [eapply got_close; [done|done|congruence]|].
    pose proof (law_write f data w2) as B. destruct (airy_io_write_all f data w2) as [[n' o'] w3]. cbn [snd] in *.
    eapply got_close; [done|done|congruence].
Qed.

Lemma pipe_send_held ep data w : held (chan_pipe_send ep data w).2 = held w.
Proof.
    unfold chan_pipe_send. destruct (strcmp_eq ep ""); [done|]. pose proof (law_open_wr ep w) as G.
    destruct (sys_open_wr ep w) as [f w1]. cbn [fst snd] in G. destruct (Z.ltb_spec f 0); [by eapply got_none|].
    pose proof (law_write f (net32 (u32 (Z.of_nat (length data)))) w1) as A. destruct (airy_io_write_all f _ w1) as [[n o] w2]. cbn [snd] in A.
    destruct (n <? 0); cbn [snd]; [eapply got_close; [done|done|congruence]|].
    pose proof (law_write f data w2) as B. destruct (airy_io_write_all f data w2) as [[n' o'] w3]. cbn [snd] in *.
    eapply got_close; [done|done|congruence].
Qed.

Lemma read_frame_held f n z w : held (chan_read_frame f n z w).2 = held w.
Proof.
    unfold chan_read_frame. pose proof (law_read f 4 w) as A. destruct (sys_read f 4 w) as [h w1]. cbn [snd] in A.
    destruct h; [done|]. destruct (n <? _); [done|]. destruct (_ =? 0); [done|].
    pose proof (law_alloc w1) as B. destruct (os_alloc w1) as [ok w2]. cbn [snd] in B. destruct ok; cbn [negb snd]; [|congruence].
    set (k := from_net _). pose proof (law_read f k w2) as C. destruct (sys_read f k w2) as [b w3]. cbn [snd] in C.
    destruct b; cbn [snd]; congruence.
Qed.

Lemma send_io_held v data w : held (send_io v data w).2 = held w.
Proof.
    unfold send_io. destruct (v_type v); [|done|apply pipe_send_held|done].
    destruct (v_fd v <? 0); [done|apply sock_send_held].
Qed.

Lemma recv_io_held v n data w : held (recv_io v n data w).2 = held w.
Proof.
    unfold recv_io. destruct (v_type v); [|done| |done].
    - destruct (v_fd v <? 0); [done|]. pose proof (law_accept (v_fd v) w) as G. destruct (sys_accept (v_fd v) w) as [c w1]. cbn [fst snd] in G.
      destruct (Z.ltb_spec c 0); [by eapply got_none|].
      pose proof (read_frame_held c n AIRY_ERR_IO w1) as R. destruct (chan_read_frame c n AIRY_ERR_IO w1) as [[rc b] w2]. cbn [snd] in *.
      by eapply got_close.
    - destruct (strcmp_eq _ _); [done|]. pose proof (law_open_rd (v_endpoint v) w) as G. destruct (sys_open_rd (v_endpoint v) w) as [c w1]. cbn [fst snd] in G.
      destruct (Z.ltb_spec c 0); [by eapply got_none|].
      pose proof (read_frame_held c UINT32_MAX AIRY_SUCCESS w1) as R. destruct (chan_read_frame c _ _ w1) as [[rc b] w2]. cbn [snd] in *.
      by eapply got_close.
Qed.

Lemma probe_held e w : held (probe e w).2 = held w.
Proof.
    unfold probe. destruct (ctype (info e)); [|done| |done].
    - destruct (_ || _); [done|]. pose proof (chan_connect_held (endpoint (info e)) true w) as C.
      destruct (chan_connect _ true w) as [[rc|f] w']; [done|]. destruct C as (Hf & w1 & G & Hw). by eapply got_close.
    - destruct (strcmp_eq _ _); [done|]. pose proof (law_open_rd (endpoint (info e)) w) as G. destruct (sys_open_rd _ w) as [c w1]. cbn [fst snd] in G.
      destruct (Z.ltb_spec c 0); [by eapply got_none|]. by eapply got_close.
Qed.
(** What [create_channel] makes of an entry without resources. *)
Definition created (e : channel_entry_t) (w : W) (r : airy_rc * channel_entry_t * W) : Prop :=
    let '(rc, e', w') := r in
    info e' = info e /\
    if bool_decide (rc = AIRY_SUCCESS)
    then NoDup (lfds e') /\ Forall (fun x => x ∉ fds w) (lfds e') /\ fds w' = list_to_set (lfds e') ∪ fds w /\
         NoDup (lmaps e') /\ Forall (fun x => x ∉ maps w) (lmaps e') /\ maps w' = list_to_set (lmaps e') ∪ maps w
    else held w' = held w.

Lemma create_socket_ok e path w : socket_fd e = -1 -> shm_fd e = -1 -> shm_ptr e = None ->
    created e w (create_socket_channel e path w).
Proof.
    intros E1 E2 E3. unfold create_socket_channel, created. pose proof (law_socket w) as G.
    destruct (sys_socket w) as [f w1]. cbn [fst snd] in G.
    destruct (Z.ltb_spec f 0); [split; [done|by eapply got_none]|].
    pose proof (law_unlink path w1) as U. pose proof (law_bind f (AIRY_STRNCPY_TERM SUN_PATH path) (sys_unlink path w1)) as B.
    destruct (sys_bind _ _ _) as [rc w2]. cbn [snd] in B. rewrite U in B.
    destruct (rc <? 0); [split; [done|]; by eapply got_close|].
    pose proof (law_listen f w2) as L. destruct (sys_listen f w2) as [rc' w3]. cbn [snd] in L. rewrite B in L.
    destruct (rc' <? 0); [split; [done|]; cbn; rewrite law_unlink; by eapply got_close|].
    split; [done|]. rewrite bool_decide_true by done. unfold lfds, lmaps. cbn [socket_fd shm_fd shm_ptr]. rewrite E2, E3.
    destruct G as [Gm Gf]. destruct (Z.leb_spec 0 f); [|lia]. destruct Gf as [Gn Gf].
    pose proof (law_nonblock f w3) as N. rewrite L in N. apply held_eq in N as [-> ->]. rewrite Gf, Gm. cbn.
    split_and!; [apply NoDup_singleton|by apply Forall_singleton|clear; set_solver|constructor|constructor|clear; set_solver].
Qed.

Lemma create_shm_ok e w : socket_fd e = -1 -> shm_fd e = -1 -> shm_ptr e = None -> created e w (create_shm_channel e w).
Proof.
    intros E1 E2 E3. unfold create_shm_channel, created. cbv zeta. cbn [info socket_fd shm_fd shm_ptr].
    set (nm := snprintf_s SHM_NAME_SIZE ("/airy_ch_" +:+ _)).
    set (size := if 0 <? buffer_size (info e) then buffer_size (info e) else 65536).
    pose proof (law_shm_open nm w) as G. destruct (sys_shm_open nm w) as [f w1]. cbn [fst snd] in G.
    destruct (Z.ltb_spec f 0); [split; [done|by eapply got_none]|].
    pose proof (law_ftruncate f size w1) as T. destruct (sys_ftruncate f size w1) as [rc w2]. cbn [snd] in T.
    destruct (rc <? 0); [split; [done|]; cbn; rewrite law_shm_unlink; by eapply got_close|].
    pose proof (law_mmap f size w2) as P. destruct (sys_mmap f size w2) as [[p|] w3]; cbn [fst snd] in P; destruct P as [Pf Pm].
    2: { split; [done|]. cbn. rewrite law_shm_unlink. eapply got_close; [done|done|]. rewrite <- T. by apply held_eq. }
    split; [done|]. rewrite bool_decide_true by done. unfold lfds, lmaps. cbn [socket_fd shm_fd shm_ptr]. rewrite E1.
    destruct G as [Gm Gf]. destruct (Z.leb_spec 0 f); [|lia]. destruct Gf as [Gn Gf]. destruct Pm as [Pn Pm].
    apply held_eq in T as [Tf Tm]. pose proof (law_store p (replicate (Z.to_nat size) 0) w3) as N. apply held_eq in N as [-> ->].
    rewrite Pf, Pm, Tf, Tm, Gf, Gm. rewrite Tm, Gm in Pn. cbn.
    split_and!; [apply NoDup_singleton|by apply Forall_singleton|clear; set_solver|apply NoDup_singleton|by apply Forall_singleton|clear; set_solver].
Qed.

Lemma create_pipe_ok e w : lfds e = [] -> lmaps e = [] -> created e w (create_pipe_channel e w).
Proof.
    intros E1 E2. unfold create_pipe_channel, created. destruct (strcmp_eq _ _).
    - split; [done|]. rewrite bool_decide_true by done. rewrite E1, E2. cbn. split_and!; [constructor|constructor|clear; set_solver|constructor|constructor|clear; set_solver].
    - pose proof (law_mkfifo (endpoint (info e)) w) as F. destruct (sys_mkfifo _ w) as [[rc x] w1]. cbn [snd] in F. split; [done|].
      destruct ((rc <? 0) && negb x); [done|]. rewrite bool_decide_true by done. apply held_eq in F as [-> ->].
      rewrite E1, E2. cbn. split_and!; [constructor|constructor|clear; set_solver|constructor|constructor|clear; set_solver].
Qed.

Lemma create_ok c id nm t ep now w : created (new_entry c id nm t ep now) w (create_channel (new_entry c id nm t ep now) w).
Proof.
    unfold create_channel. destruct t; cbn [new_entry ctype info].
    - by apply create_socket_ok.
    - by apply create_shm_ok.
    - by apply create_pipe_ok.
    - done.
Qed.

Lemma open_admit_below s id nm : open_admit s id nm = AIRY_SUCCESS -> Z.of_nat (length (channels s)) < max_channels (config s).
Proof.
    unfold open_admit. destruct id as [id|], nm as [nm|]; try done.
    destruct (Z.leb_spec (max_channels (config s)) (Z.of_nat (length (channels s)))); done.
Qed.

Lemma open_ok F M cf B s id nm t ep w rc s' w' :
    chan_ok F M cf B s w -> (String.length id < CHANNEL_MAX_ID)%nat ->
    open_locked s id nm t ep w = Some (rc, s', w') ->
    chan_ok F M cf (B + 1) s' w' /\ (if bool_decide (rc = AIRY_SUCCESS) then ids (channels s') = ids (channels s) ++ [id] else s' = s).
Proof.
    intros O Hid. assert (O' : chan_ok F M cf (B + 1) s w) by (destruct O; split; try done; lia).
    unfold open_locked. pose proof (find_channel_spec s id) as Fd. destruct (find_channel s id) as [i|]; [intros; by simplify_eq|].
    destruct (Nat.leb_spec CHANNEL_MAX_CHANNELS (length (channels s))) as [|Hl]; [done|].
    pose proof (law_time w) as T. destruct (airy_time_ms w) as [now w1]. cbn [snd] in T.
    pose proof (create_ok (config s) id nm t ep now w1) as C.
    destruct (create_channel _ w1) as [[crc e] w2]. destruct C as [Ei C].
    case_bool_decide; cbn [negb]; [|intros [= <- <- <-]; split; [eapply held_ok; [exact O'|congruence]|done]].
    pose proof (law_alloc w2) as A. destruct (os_alloc w2) as [ok w3]. cbn [snd] in A. apply held_eq in A as [Af Am].
    apply held_eq in T as [Tf Tm]. destruct C as (N1 & F1 & Ef & N2 & F2 & Em). rewrite Tf in Ef. rewrite Tm in Em.
    rewrite Tf in F1. rewrite Tm in F2.
    destruct ok; cbn [negb]; intros [= <- <- <-].
    - assert (Eid : channel_id (info e) = id) by (rewrite Ei; cbn; by apply strncpy_term_short).
      destruct O as [O0 [O1 O1'] O2 O3 O4]. rewrite bool_decide_true by done. split; [split; cbn [channels set_channels config]; [done|..]|].
      + rewrite length_app. cbn [length]. split; lia.
      + unfold ids. rewrite map_app. cbn. rewrite Eid. apply NoDup_app. split_and!; [done| |apply NoDup_singleton].
        intros x Hx ->%list_elem_of_singleton. by apply Fd.
      + rewrite map_app, concat_app, Af, Ef. cbn [map concat]. rewrite app_nil_r. change (lfds (with_buffer e)) with (lfds e).
        eapply accounts_perm; [apply Permutation_app_comm|]. by apply accounts_add.
      + rewrite map_app, concat_app, Am, Em. cbn [map concat]. rewrite app_nil_r. change (lmaps (with_buffer e)) with (lmaps e).
        eapply accounts_perm; [apply Permutation_app_comm|]. by apply accounts_add.
      + cbn [channels set_channels]. unfold ids. rewrite map_app. cbn. by rewrite Eid.
    - rewrite bool_decide_false by done. split; [|done]. eapply held_ok; [exact O'|]. apply held_eq.
      destruct (entry_free_held e w3) as [-> ->]. rewrite Af, Am, Ef, Em, efds_list, emaps_list.
      rewrite Forall_forall in F1, F2. split; apply leibniz_equiv; intros x; rewrite elem_of_difference, elem_of_union, elem_of_list_to_set.
      + specialize (F1 x). tauto.
      + specialize (F2 x). tauto.
Qed.

Lemma close_ok F M cf B s id w rc s' w' :
    chan_ok F M cf B s w -> channel_service_close s (Some id) w = (rc, s', w') ->
    chan_ok F M cf B s' w' /\ (if bool_decide (rc = AIRY_SUCCESS) then ids (channels s) ≡ₚ id :: ids (channels s') else s' = s).
Proof.
    intros O. unfold channel_service_close. pose proof (find_channel_spec s id) as Fd.
    destruct (find_channel s id) as [i|]; [|intros; by simplify_eq]. destruct Fd as (e & Ee & Ei). rewrite Ee.
    intros [= <- <- <-]. rewrite bool_decide_true by done. pose proof (drop_entry_perm (channels s) i e Ee) as P.
    destruct O as [O0 [O1 O1'] O2 O3 O4]. pose proof (Permutation_length P) as PL. cbn [length] in PL.
    assert (PI : ids (channels s) ≡ₚ id :: ids (drop_entry (channels s) i)) by (unfold ids; rewrite P at 1; cbn; by rewrite Ei).
    split; [|done]. destruct (entry_free_held e w) as [Ef Em]. split; cbn [channels set_channels config]; [done|..].
    - split; lia.
    - rewrite PI in O2. by apply NoDup_cons in O2 as [_ ?].
    - rewrite Ef, efds_list. apply accounts_drop. eapply accounts_perm; [|exact O3]. rewrite P at 1. done.
    - rewrite Em, emaps_list. apply accounts_drop. eapply accounts_perm; [|exact O4]. rewrite P at 1. done.
Qed.

Lemma free_all_held l : forall X Y w, accounts X (fds w) (concat (map lfds l)) -> accounts Y (maps w) (concat (map lmaps l)) ->
    fds (free_all l w) = X /\ maps (free_all l w) = Y.
Proof.
    induction l as [|e l IH]; intros X Y w A B; cbn [free_all map concat] in *.
    - destruct A as [A _], B as [B _]. rewrite A, B. cbn. clear. split; set_solver.
    - destruct (entry_free_held e w) as [Ef Em]. apply IH.
      + rewrite Ef, efds_list. by apply accounts_drop.
      + rewrite Em, emaps_list. by apply accounts_drop.
Qed.

Lemma empty_ok F M cf B s w : config s = cf -> 0 <= B -> channels s = [] -> fds w = F -> maps w = M -> chan_ok F M cf B s w.
Proof.
    intros Ec Hb E <- <-. split; [done|..]; rewrite E; cbn; [lia|constructor|..]; (split_and!; [clear; set_solver|constructor|constructor]).
Qed.

Lemma stop_ok F M cf B s w : chan_ok F M cf B s w -> let '(_, s', w') := channel_service_stop s w in chan_ok F M cf B s' w'.
Proof.
    intros O. unfold channel_service_stop. destruct (running s); cbn [negb]; [|done].
    destruct (free_all_held (channels s) F M w (ck_fds _ _ _ _ _ _ O) (ck_maps _ _ _ _ _ _ O)) as [A A']. destruct O as [O0 [O1 _] _ _ _]. apply empty_ok; [done|lia|done..].
Qed.

Lemma destroy_held F M cf B s w : chan_ok F M cf B s w ->
    fds (channel_service_destroy s w) = F /\ maps (channel_service_destroy s w) = M.
Proof.
    intros O. unfold channel_service_destroy. destruct (running s).
    - pose proof (stop_ok F M cf B s w O) as S. destruct (channel_service_stop s w) as [[rc s'] w']. by apply free_all_held; apply S.
    - by apply free_all_held; apply O.
Qed.
End account.

(** ** Every interleaving

    One step per section under the lock and per transfer without it. *)
Section steps.
  Context {W : Type} `{ChanLaws W} `{AiryStringOk}.

(** Everything but opening. *)
Inductive chan_step : channel_service * W -> channel_service * W -> Prop :=
| cs_close s w id rc s' w' : channel_service_close s (Some id) w = (rc, s', w') -> chan_step (s, w) (s', w')
| cs_start s w rc s' w' : channel_service_start s w = (rc, s', w') -> chan_step (s, w) (s', w')
| cs_stop s w rc s' w' : channel_service_stop s w = (rc, s', w') -> chan_step (s, w) (s', w')
| cs_callback s w id cb rc s' : channel_service_set_callback s id cb = (rc, s') -> chan_step (s, w) (s', w)
| cs_send s w id data r s' w' : send_begin s id data w = (r, s', w') -> chan_step (s, w) (s', w')
| cs_send_io s w v data rc w' : send_io v data w = (rc, w') -> chan_step (s, w) (s, w')
| cs_count s w b id : chan_step (s, w) (count_end b s id, w)
| cs_recv s w id r data s' w' : recv_begin s id w = Some (r, data, s', w') -> chan_step (s, w) (s', w')
| cs_recv_io s w v n data r w' : recv_io v n data w = (r, w') -> chan_step (s, w) (s, w')
| cs_ping s w id rc ms s' w' : channel_service_ping s id w = (rc, ms, s', w') -> chan_step (s, w) (s', w').

(** With openings: [p] of at most [T] threads have passed the tests and wait for
    the lock. *)
Inductive sys_step (T : nat) : channel_service * W * nat -> channel_service * W * nat -> Prop :=
| ss_test s w p id nm : open_admit s id nm = AIRY_SUCCESS -> (p < T)%nat -> sys_step T (s, w, p) (s, w, S p)
| ss_locked s w p id nm t ep rc s' w' :
    (String.length id < CHANNEL_MAX_ID)%nat -> open_locked s id nm t ep w = Some (rc, s', w') ->
    sys_step T (s, w, S p) (s', w', p)
| ss_other x y p : chan_step x y -> sys_step T (x, p) (y, p).

Lemma touch_ok F M cf B s w i t w' : chan_ok F M cf B s w -> held w' = held w -> chan_ok F M cf B (touch i t s) w'.
Proof. intros O Hw. by apply (gentle_ok F M cf B s w). Qed.

Lemma shm_put_held p data w : held (shm_put p data w) = held w.
Proof. unfold shm_put. by rewrite !law_store. Qed.

Lemma shm_take_held p n w r : shm_take p n w = Some r -> held r.2 = held w.
Proof.
    unfold shm_take. destruct (negb _); [intros; by simplify_eq|]. destruct (_ || _); [intros; by simplify_eq|].
    pose proof (law_alloc w) as A. destruct (os_alloc w) as [ok w1]. cbn [snd] in A. destruct ok; cbn [negb]; [|intros [= <-]; exact A].
    destruct (_ <? _); [done|]. intros [= <-]. cbn [snd]. by rewrite law_store.
Qed.

Lemma chan_step_ok F M cf B x y : chan_ok F M cf B x.1 x.2 -> chan_step x y -> chan_ok F M cf B y.1 y.2.
Proof.
    intros O S. destruct S as [s w id rc s' w' Q|s w rc s' w' Q|s w rc s' w' Q|s w id cb rc s' Q|
      s w id data r s' w' Q|s w v data rc w' Q|s w b id|s w id r data s' w' Q|s w v n data r w' Q|s w id rc ms s' w' Q]; cbn [fst snd] in *.
    - by eapply close_ok.
    - unfold channel_service_start in Q. destruct (running s); [by simplify_eq|]. simplify_eq.
      assert (E : held (if strcmp_eq (socket_dir (config s)) "" then w else (airy_io_mkdir_p (socket_dir (config s)) w).2) = held w)
        by (destruct (strcmp_eq _ _); [done|apply law_mkdir]).
      pose proof (held_ok F M cf B s w _ O E) as [? ? ? ? ?]. by split.
    - pose proof (stop_ok F M cf B s w O) as K. by rewrite Q in K.
    - unfold channel_service_set_callback in Q. destruct id as [id|]; [|by simplify_eq].
      destruct (find_channel s id); simplify_eq; [|done]. by eapply gentle_ok.
    - unfold send_begin in Q. destruct id as [id|]; [|by simplify_eq]. destruct data as [data|]; [|by simplify_eq].
      destruct (length data =? 0)%nat; [by simplify_eq|]. destruct (find_open s id) as [[i e]|]; [|by simplify_eq].
      pose proof (law_time w) as T. destruct (airy_time_ms w) as [now w1]. cbn [snd] in T.
      destruct (ctype (info e)), (shm_ptr e) as [p|]; repeat case_match; simplify_eq; (eapply touch_ok; [done|]);
        rewrite ?shm_put_held; by apply held_eq.
    - pose proof (send_io_held v data w) as E. rewrite Q in E. by eapply held_ok.
    - unfold count_end. destruct (find_open s id) as [[i e]|]; [|done].
      assert (G : chan_ok F M cf B (set_channels (alter (fun e0 => set_info (count_msg b (info e0)) e0) i (channels s)) s) w)
        by (by apply (gentle_ok F M cf B s w)). destruct G. by split.
    - unfold recv_begin in Q. destruct id as [id|]; [|by simplify_eq]. destruct (find_open s id) as [[i e]|]; [|by simplify_eq].
      pose proof (law_time w) as T. destruct (airy_time_ms w) as [now w1]. cbn [snd] in T.
      destruct (ctype (info e)); [simplify_eq; (eapply touch_ok; [done|by apply held_eq])| |simplify_eq; (eapply touch_ok; [done|by apply held_eq])..].
      destruct (shm_ptr e) as [p|]; [|simplify_eq; (eapply touch_ok; [done|by apply held_eq])].
      destruct (shm_take p (shm_size e) w1) as [[[[rc d] on] w2]|] eqn:E; cbn in Q; [|done]. apply shm_take_held in E. cbn [snd] in E.
      rewrite T in E. clear T. injection Q as <- <- <- <-. by eapply touch_ok.
    - pose proof (recv_io_held v n data w) as E. rewrite Q in E. by eapply held_ok.
    - unfold channel_service_ping in Q. destruct id as [id|]; [|by simplify_eq]. destruct (find_channel s id) as [i|]; [|by simplify_eq].
      destruct (channels s !! i) as [e|]; [|by simplify_eq].
      pose proof (law_time w) as T. destruct (airy_time_ms w) as [t0 w1]. cbn [snd] in T.
      pose proof (probe_held e w1) as P. destruct (probe e w1) as [prc w2]. cbn [snd] in P.
      pose proof (law_time w2) as T2. destruct (airy_time_ms w2) as [t1 w3]. cbn [snd] in T2. rewrite P, T in T2.
      injection Q as <- <- <- <-. case_bool_decide; [by eapply touch_ok|by eapply held_ok].
Qed.

(** The bound of the table while [p] threads are past the tests. *)
Definition room (cf : channel_config_t) (T p : nat) : Z := Z.max 0 (max_channels cf) + Z.of_nat T - 1 - Z.of_nat p.

Definition sys_ok (F M : gset Z) (cf : channel_config_t) (T : nat) (x : channel_service * W * nat) : Prop :=
    chan_ok F M cf (room cf T x.2) x.1.1 x.1.2.

Lemma sys_step_ok F M cf T x y : sys_ok F M cf T x -> sys_step T x y -> sys_ok F M cf T y.
Proof.
    unfold sys_ok, room. intros O S. destruct S as [s w p id nm A Hp|s w p id nm t ep rc s' w' Hid Q|x y p S]; cbn [fst snd] in *.
    - apply open_admit_below in A. destruct O as [O0 [O1 O1'] O2 O3 O4]. subst cf. split; try done. split; [|done]. lia.
    - destruct (open_ok F M cf _ s id nm t ep w rc s' w' O Hid Q) as [K _].
      replace (Z.max 0 (max_channels cf) + Z.of_nat T - 1 - Z.of_nat p)
        with (Z.max 0 (max_channels cf) + Z.of_nat T - 1 - Z.of_nat (Datatypes.S p) + 1) by lia. exact K.
    - by eapply chan_step_ok.
Qed.

(** A thread past the tests finds room in the array when the limit leaves some
    for the others. *)
Lemma locked_in_array F M cf T p s w id nm t ep :
    sys_ok F M cf T (s, w, S p) -> Z.max 0 (max_channels cf) + Z.of_nat T - 1 <= Z.of_nat CHANNEL_MAX_CHANNELS ->
    open_locked s id nm t ep w <> None.
Proof.
    intros O HT. unfold sys_ok, room in O. cbn [fst snd] in O. destruct (ck_bound _ _ _ _ _ _ O) as [O1 _].
    unfold open_locked. destruct (find_channel s id); [done|].
    destruct (Nat.leb_spec CHANNEL_MAX_CHANNELS (length (channels s))); [lia|].
    destruct (airy_time_ms w) as [now w1]. destruct (create_channel _ w1) as [[rc e] w2]. destruct (negb _); [done|].
    destruct (os_alloc w2) as [ok w3]. by destruct (negb ok).
Qed.

(** C21.  The channel service gives back what it takes.  In every state that it
    reaches from its creation, through any interleaving of requests, of the
    unlocked parts of sending and receiving, and of openings that test the number
    of channels before they take the lock, at most [T] of them at a time (names
    shorter than 128 bytes): the table is inside its array, has at most
    [max_channels + T - 1] entries and each name once; an opening never writes
    behind the array as long as that bound is at most 256; the process holds
    exactly the descriptors and mappings it held before and those of the
    channels in the table, each channel its own, so an opening that fails, a
    transfer and a probe leave none behind; and destroying the service leaves
    exactly what was there before it was made. *)
Theorem channel_resources (c : channel_config_t) (T p : nat) (w0 w1 : W) (s0 s : channel_service) (w : W) :
    channel_service_create c w0 = (Some s0, w1) -> (0 < T)%nat -> rtc (sys_step T) (s0, w1, O) (s, w, p) ->
    chan_ok (fds w0) (maps w0) c (Z.max 0 (max_channels c) + Z.of_nat T - 1 - Z.of_nat p) s w /\
    ((0 < p)%nat -> Z.max 0 (max_channels c) + Z.of_nat T - 1 <= Z.of_nat CHANNEL_MAX_CHANNELS ->
     forall id nm t ep, open_locked s id nm t ep w <> None) /\
    fds (channel_service_destroy s w) = fds w0 /\ maps (channel_service_destroy s w) = maps w0.
Proof.
    intros Hc HT R. assert (O0 : sys_ok (fds w0) (maps w0) c T (s0, w1, O)).
    { unfold channel_service_create in Hc. pose proof (law_alloc w0) as A. destruct (os_alloc w0) as [ok w2]. cbn [snd] in A.
      destruct ok; cbn [negb] in Hc; [|done]. destruct (strcmp_eq _ _); [done|].
      pose proof (law_mkdir (socket_dir c) w2) as D. destruct (airy_io_mkdir_p _ w2) as [rc w3]. cbn [snd] in D.
      destruct (rc =? 0); cbn [negb] in Hc; [|done]. rewrite A in D. apply held_eq in D as [? ?]. injection Hc as <- <-.
      apply empty_ok; try done. unfold room. cbn [fst snd]. lia. }
    assert (P : forall x y, rtc (sys_step T) x y -> sys_ok (fds w0) (maps w0) c T x -> sys_ok (fds w0) (maps w0) c T y).
    { induction 1 as [|x y z S _ IH]; [done|]. intros O. by apply IH, (sys_step_ok _ _ _ _ x). }
    specialize (P _ _ R O0). split_and!; [exact P| |by eapply destroy_held..].
    intros Hp HB id nm t ep. destruct p as [|p]; [lia|]. by eapply locked_in_array.
Qed.
End steps.

(** ** The mailbox of a channel in shared memory *)

(** The mapping is memory: it holds what was stored, and neither the clock nor
    the allocator changes it. *)
Class ShmLaws (W : Type) `{ChanOS W} := {
  load_store : forall p b w, shm_load p (shm_store p b w) = b;
  load_time : forall p w, shm_load p (airy_time_ms w).2 = shm_load p w;
  load_alloc : forall p w, shm_load p (os_alloc w).2 = shm_load p w
}.

Lemma from_host_32 n r : is_u32 n -> from_host (host32 n ++ r) = n.
Proof.
  intros Hn. unfold from_host, host32, u8. cbn [nth app]. rewrite !Z.shiftr_div_pow2 by lia.
  change (2 ^ 8) with 256. change (2 ^ 16) with 65536. change (2 ^ 24) with 16777216. unfold is_u32, UINT32_MAX in Hn.
  Z.div_mod_to_equations. lia.
Qed.

Section mailbox.
  Context {W : Type} `{ChanOS W} `{!ShmLaws W} `{AiryString}.

(** Length, flag, data, and the rest of the mapping as it was. *)
Lemma shm_put_load p data w : (8 + length data <= length (shm_load p w))%nat ->
    shm_load p (shm_put p data w) =
      host32 (u32 (Z.of_nat (length data))) ++ host32 1 ++ data ++ drop (8 + length data) (shm_load p w).
Proof.
    intros Hl. unfold shm_put. rewrite !load_store. set (r := shm_load p w) in *. set (h := host32 (u32 (Z.of_nat (length data)))).
    assert (E1 : splice 0 h r = h ++ drop 4 r) by (unfold splice; by rewrite take_0).
    rewrite E1. assert (E2 : splice 8 data (h ++ drop 4 r) = h ++ take 4 (drop 4 r) ++ data ++ drop (8 + length data) r).
    { unfold splice. rewrite take_app, drop_app. change (length h) with 4%nat. rewrite (take_ge h), (drop_ge h) by (change (length h) with 4%nat; lia).
      rewrite <- app_assoc, drop_drop. done. }
    rewrite E2. unfold splice. change (length (host32 1)) with 4%nat.
    rewrite take_app_length' by done. f_equal. f_equal. rewrite app_assoc, drop_app_length'; [done|].
    rewrite length_app, length_take, length_drop. change (length h) with 4%nat. lia.
Qed.

Lemma find_open_alter s id i e f : find_open s id = Some (i, e) ->
    (forall e, channel_id (info (f e)) = channel_id (info e) /\ status (info (f e)) = status (info e)) ->
    find_open (set_channels (alter f i (channels s)) s) id = Some (i, f e).
Proof.
    unfold find_open, find_channel. cbn [channels set_channels]. intros E G.
    destruct (find_from 0 (channels s) id) as [j|] eqn:Ej; [|done].
    destruct (channels s !! j) as [e'|] eqn:Ee; [|done]. case_bool_decide; [|done]. simplify_eq.
    assert (Q : forall k m l, find_from k (alter f m l) id = find_from k l id).
    { intros k m l. revert k m. induction l as [|x l IH]; intros k [|m]; cbn; try done; [by rewrite (proj1 (G x))|].
      destruct (strcmp_eq _ _); [done|apply IH]. }
    rewrite Q, Ej, list_lookup_alter_eq, Ee. cbn. rewrite bool_decide_true; [done|]. by rewrite (proj2 (G e)).
Qed.

Lemma touch_find s id i e t : find_open s id = Some (i, e) -> find_open (touch i t s) id = Some (i, set_info (set_activity t (info e)) e).
Proof. intros E. unfold touch. by apply (find_open_alter s id i e (fun e => set_info (set_activity t (info e)) e)). Qed.

Lemma count_find b s id i e : find_open s id = Some (i, e) ->
    find_open (count_end b s id) id = Some (i, set_info (count_msg b (info e)) e).
Proof.
    intros E. unfold count_end. rewrite E. cbv zeta.
    exact (find_open_alter s id i e (fun e => set_info (count_msg b (info e)) e) E (fun _ => conj eq_refl eq_refl)).
Qed.

(** An entry with a mapping of its size. *)
Definition shm_entry (e : channel_entry_t) (p : Z) (w : W) : Prop :=
    ctype (info e) = CHANNEL_TYPE_SHM /\ shm_ptr e = Some p /\ 8 <= shm_size e < 2 ^ 64 /\
    Z.of_nat (length (shm_load p w)) = shm_size e.

Lemma shm_send s id i e p data w : find_open s id = Some (i, e) -> shm_entry e p w ->
    (0 < length data)%nat -> Z.of_nat (length data) <= shm_size e - 8 ->
    exists s' w' e', channel_service_send s (Some id) (Some data) w = (AIRY_SUCCESS, callback e, s', w') /\
      find_open s' id = Some (i, e') /\ shm_entry e' p w' /\
      shm_load p w' = host32 (u32 (Z.of_nat (length data))) ++ host32 1 ++ data ++ drop (8 + length data) (shm_load p w).
Proof.
    intros Hf (Et & Ep & Hs & Hr) Hd Hl. unfold channel_service_send, send_begin.
    destruct (Nat.eqb_spec (length data) 0); [lia|]. rewrite Hf.
    pose proof (load_time p w) as T. destruct (airy_time_ms w) as [now w1]. cbn [snd] in T. rewrite Et, Ep. unfold shm_header.
    destruct (Z.ltb_spec (shm_size e) 8); [lia|]. destruct (Z.ltb_spec (shm_size e - 8) (Z.of_nat (length data))); [lia|].
    unfold send_io. cbn [v_type view_of]. rewrite Et. rewrite bool_decide_true by done.
    assert (P : shm_load p (shm_put p data w1) = host32 (u32 (Z.of_nat (length data))) ++ host32 1 ++ data ++ drop (8 + length data) (shm_load p w)).
    { rewrite shm_put_load by (rewrite T; lia). by rewrite T. }
    do 3 eexists. split_and!; [done|by apply count_find, touch_find| |exact P].
    unfold shm_entry. cbn [info set_info ctype count_msg set_activity shm_ptr shm_size]. split_and!; [done|done|lia|lia|].
    rewrite P, !length_app, length_drop. cbn [length host32]. lia.
Qed.

(** Receiving from a full box, and from an empty one. *)
Lemma shm_recv s id i e p data r w w' : find_open s id = Some (i, e) -> shm_entry e p w ->
    shm_load p w = host32 (u32 (Z.of_nat (length data))) ++ host32 1 ++ data ++ r ->
    (0 < length data)%nat -> Z.of_nat (length data) <= shm_size e - 8 -> Z.of_nat (length data) <= UINT32_MAX ->
    os_alloc (airy_time_ms w).2 = (true, w') ->
    exists s' w2 e', channel_service_receive s (Some id) w = Some (AIRY_SUCCESS, Some data, s', w2) /\
      find_open s' id = Some (i, e') /\ shm_entry e' p w2 /\ from_host (drop 4 (shm_load p w2)) = 0.
Proof.
    intros Hf (Et & Ep & Hs & Hr) Hm Hd Hl Hu Ha. unfold channel_service_receive, recv_begin. rewrite Hf.
    pose proof (load_time p w) as T. pose proof (load_alloc p (airy_time_ms w).2) as A. rewrite Ha in A. cbn [snd] in A.
    destruct (airy_time_ms w) as [now w1]. cbn [snd] in *. rewrite Et, Ep. unfold shm_take. rewrite T, Hm in *.
    set (n := u32 (Z.of_nat (length data))). assert (En : n = Z.of_nat (length data)) by (apply u32_id; ulia).
    change (drop 4 (host32 n ++ host32 1 ++ data ++ r)) with (host32 1 ++ data ++ r).
    rewrite (from_host_32 1) by ulia. cbn [Z.eqb Pos.eqb negb]. rewrite from_host_32 by ulia. unfold shm_header.
    rewrite (u64_id (shm_size e - 8)) by ulia. destruct (Z.eqb_spec n 0); [lia|]. cbn [orb].
    destruct (Z.ltb_spec (shm_size e - 8) n); [lia|]. rewrite Ha. cbn [negb].
    destruct (Z.ltb_spec (Z.of_nat (length (host32 n ++ host32 1 ++ data ++ r))) (8 + n)) as [Hx|_].
    { rewrite !length_app in Hx. cbn [length host32] in Hx. lia. }
    cbn [mbind option_bind]. unfold recv_io. cbn [v_type view_of]. rewrite Et.
    change (drop 8 (host32 n ++ host32 1 ++ data ++ r)) with (data ++ r). rewrite En, Nat2Z.id, take_app_length.
    do 3 eexists. split_and!; [done|by apply count_find, touch_find| |].
    - unfold shm_entry. cbn [info set_info ctype count_msg set_activity shm_ptr shm_size]. split_and!; [done|done|lia|lia|].
      rewrite load_store, A. rewrite <- Hr. f_equal.
    - rewrite load_store, A. reflexivity.
Qed.

Lemma shm_recv_empty s id i e p w : find_open s id = Some (i, e) -> shm_entry e p w -> from_host (drop 4 (shm_load p w)) = 0 ->
    exists s' w', channel_service_receive s (Some id) w = Some (AIRY_SUCCESS, None, s', w').
Proof.
    intros Hf (Et & Ep & Hs & Hr) Hz. unfold channel_service_receive, recv_begin. rewrite Hf.
    pose proof (load_time p w) as T. destruct (airy_time_ms w) as [now w1]. cbn [snd] in T. rewrite Et, Ep. unfold shm_take.
    rewrite T, Hz. cbn. by do 2 eexists.
Qed.

(** A message through shared memory arrives as it was sent, once.  On an
    open channel with a mapping of its size, sending data that fits succeeds
    and calls the channel's callback; the next receive, if memory can be had,
    returns exactly the data; the one after it returns nothing.  The header and
    the data stay inside the mapping. *)
Theorem mailbox_roundtrip (s : channel_service) (id : string) (i : nat) (e : channel_entry_t) (p : Z) (data : list Z) (w : W) :
    find_open s id = Some (i, e) -> shm_entry e p w ->
    (0 < length data)%nat -> Z.of_nat (length data) <= Z.min (shm_size e - 8) UINT32_MAX ->
    (forall w, (os_alloc w).1 = true) ->
    exists s1 w1 s2 w2 s3 w3,
      channel_service_send s (Some id) (Some data) w = (AIRY_SUCCESS, callback e, s1, w1) /\
      channel_service_receive s1 (Some id) w1 = Some (AIRY_SUCCESS, Some data, s2, w2) /\
      channel_service_receive s2 (Some id) w2 = Some (AIRY_SUCCESS, None, s3, w3).
Proof.
    intros Hf He Hd Hl Ha. destruct (shm_send s id i e p data w Hf He Hd ltac:(lia)) as (s1 & w1 & e1 & E1 & F1 & X1 & L1).
    assert (Hs : shm_size e1 = shm_size e).
    { destruct He as (_ & _ & _ & Hr), X1 as (_ & _ & _ & Hr1). rewrite <- Hr1, L1, <- Hr, !length_app, length_drop. cbn [length host32]. lia. }
    specialize (Ha (airy_time_ms w1).2). destruct (os_alloc (airy_time_ms w1).2) as [ok w1'] eqn:Ea. cbn in Ha. subst ok.
    destruct (shm_recv s1 id i e1 p data _ w1 w1' F1 X1 L1 Hd ltac:(lia) ltac:(lia) Ea) as (s2 & w2 & e2 & E2 & F2 & X2 & Z2).
    destruct (shm_recv_empty s2 id i e2 p w2 F2 X2 Z2) as (s3 & w3 & E3). by exists s1, w1, s2, w2, s3, w3.
Qed.

(** ** Corner cases *)

(** The channels that the RPC interface opens as pipes have no endpoint: what
    is sent to them is dropped and reported as sent. *)
Lemma pipe_drops data w : chan_pipe_send "" data w = (AIRY_SUCCESS, w).
Proof. done. Qed.

(** A name that does not fit the entry is never found again: it can be opened
    twice, and not closed. *)
Lemma long_name_unknown s id : Forall (fun x => (String.length x < CHANNEL_MAX_ID)%nat) (ids (channels s)) ->
    (CHANNEL_MAX_ID <= String.length id)%nat -> find_channel s id = None.
Proof.
    intros HF Hl. pose proof (find_channel_spec s id) as F. destruct (find_channel s id) as [i|]; [|done].
    destruct F as (e & Ee & Ei). rewrite Forall_forall in HF. specialize (HF id). exfalso.
    assert (id ∈ ids (channels s)) as Hin%HF; [|lia]. rewrite <- Ei. apply list_elem_of_lookup. exists i.
    unfold ids. rewrite list_lookup_fmap || rewrite list_lookup_map. by rewrite Ee.
Qed.

(** A mapping that is too small for its header: the bound of a received length
    wraps around. *)
Lemma small_mapping_overread p w r : shm_load p w = host32 5 ++ host32 1 ++ r -> length r = 0%nat -> (os_alloc w).1 = true ->
    shm_take p 4 w = None.
Proof.
    intros E L A. destruct r; [|done]. unfold shm_take. rewrite E. cbn -[os_alloc]. destruct (os_alloc w) as [ok w']. cbn in A. by subst.
Qed.

(** A frame that arrives in pieces is taken for the whole message. *)
Lemma short_read_taken f len b w w1 w2 w3 : from_net b = len -> b <> [] -> 0 < len <= UINT32_MAX ->
    sys_read f 4 w = (b, w1) -> os_alloc w1 = (true, w2) -> sys_read f len w2 = ([1], w3) ->
    chan_read_frame f UINT32_MAX AIRY_ERR_IO w = (AIRY_SUCCESS, Some [1], w3).
Proof.
    intros E Nb Hl R1 A R2. unfold chan_read_frame. rewrite R1. destruct b as [|x b]; [done|]. rewrite E.
    destruct (Z.ltb_spec UINT32_MAX len); [lia|]. destruct (Z.eqb_spec len 0); [lia|]. rewrite A. cbn [negb]. by rewrite R2.
Qed.

(** Two openings that both pass the test with one place left: the second writes
    behind the array. *)
Lemma late_opening_overruns s id nm t ep w :
    length (channels s) = CHANNEL_MAX_CHANNELS -> find_channel s id = None -> open_locked s id nm t ep w = None.
Proof. intros Hl Hf. unfold open_locked. rewrite Hf. destruct (Nat.leb_spec CHANNEL_MAX_CHANNELS (length (channels s))); [done|lia]. Qed.
End mailbox.

(** ** A concrete environment

    Descriptors and mappings are numbered; every call succeeds. *)
Record toy_w := mkToy { next_id : nat; raw_fds : gset Z; raw_maps : gset Z; mem : gmap Z (list Z) }.

Definition below (n : nat) (X : gset Z) : gset Z := filter (fun x => x < Z.of_nat n) X.

Definition toy_fds (w : toy_w) : gset Z := below (next_id w) (raw_fds w).
Definition toy_maps (w : toy_w) : gset Z := below (next_id w) (raw_maps w).

Definition toy_get (w : toy_w) : Z * toy_w :=
  (Z.of_nat (next_id w), mkToy (S (next_id w)) ({[Z.of_nat (next_id w)]} ∪ toy_fds w) (toy_maps w) (mem w)).

Definition toy_map (w : toy_w) : option Z * toy_w :=
  (Some (Z.of_nat (next_id w)), mkToy (S (next_id w)) (toy_fds w) ({[Z.of_nat (next_id w)]} ∪ toy_maps w) (mem w)).

Definition toy_chan_mem : MemOS toy_w :=
  Build_MemOS toy_w (fun w => (true, w)) (fun w => (1, w)) (fun w => (2, w)) 4096 unit (fun _ w => (Some tt, w)) (fun _ t => strlen t) "generic".

Definition toy_chan : ChanOS toy_w := {|
  chan_mem := toy_chan_mem;
  airy_time_ms w := (7, w);
  airy_io_mkdir_p _ w := (0, w);
  sys_socket w := toy_get w;
  sys_bind _ _ w := (0, w);
  sys_listen _ w := (0, w);
  sys_nonblock _ w := w;
  sys_close f w := mkToy (next_id w) (raw_fds w ∖ {[f]}) (raw_maps w) (mem w);
  sys_unlink _ w := w;
  sys_shm_open _ w := toy_get w;
  sys_ftruncate _ _ w := (0, w);
  sys_mmap _ _ w := toy_map w;
  sys_munmap p _ w := mkToy (next_id w) (raw_fds w) (raw_maps w ∖ {[p]}) (mem w);
  sys_shm_unlink _ w := w;
  sys_mkfifo _ w := (0, false, w);
  sys_timeouts _ _ w := w;
  sys_connect _ _ w := (0, false, w);
  sys_open_rd _ w := toy_get w;
  sys_open_wr _ w := toy_get w;
  airy_io_write_all _ b w := (Z.of_nat (length b), false, w);
  sys_accept _ w := toy_get w;
  sys_read _ _ w := ([], w);
  shm_load p w := default [] (mem w !! p);
  shm_store p b w := mkToy (next_id w) (raw_fds w) (raw_maps w) (<[p := b]> (mem w))
|}.

Lemma below_add n X : below (S n) ({[Z.of_nat n]} ∪ below n X) = {[Z.of_nat n]} ∪ below n X.
Proof.
  apply leibniz_equiv. intros x. unfold below. rewrite elem_of_filter, !elem_of_union, elem_of_singleton, elem_of_filter. split; [tauto|].
  intros [->|[? ?]]; split; try lia; tauto.
Qed.

Lemma below_keep n X : below (S n) (below n X) = below n X.
Proof. apply leibniz_equiv. intros x. unfold below. rewrite !elem_of_filter. split; [tauto|]. intros [? ?]. split; [lia|tauto]. Qed.

Lemma below_diff n X f : below n (X ∖ {[f]}) = below n X ∖ {[f]}.
Proof. apply leibniz_equiv. intros x. unfold below. rewrite elem_of_filter, !elem_of_difference, elem_of_filter. tauto. Qed.

Lemma below_fresh n X : Z.of_nat n ∉ below n X.
Proof. unfold below. rewrite elem_of_filter. lia. Qed.

Lemma toy_got w : toy_maps (toy_get w).2 = toy_maps w /\
  if 0 <=? (toy_get w).1 then (toy_get w).1 ∉ toy_fds w /\ toy_fds (toy_get w).2 = {[(toy_get w).1]} ∪ toy_fds w
  else toy_fds (toy_get w).2 = toy_fds w.
Proof.
  unfold toy_get. cbn [fst snd]. destruct (Z.leb_spec 0 (Z.of_nat (next_id w))); [|lia].
  unfold toy_fds, toy_maps. cbn [next_id raw_fds raw_maps]. split_and!; [apply below_keep|apply below_fresh|apply below_add].
Qed.

Definition toy_laws : @ChanLaws toy_w toy_chan.
Proof.
  unshelve refine {| fds := toy_fds; maps := toy_maps |}; intros; cbv zeta; cbn [airy_time_ms airy_io_mkdir_p sys_socket sys_bind sys_listen
    sys_nonblock sys_close sys_unlink sys_shm_open sys_ftruncate sys_mmap sys_munmap sys_shm_unlink sys_mkfifo sys_timeouts sys_connect
    sys_open_rd sys_open_wr airy_io_write_all sys_accept sys_read shm_load shm_store toy_chan]; try apply toy_got; try reflexivity.
  - unfold toy_fds, toy_maps. cbn. split; [apply below_diff|done].
  - subst r. cbn [sys_mmap toy_chan]. unfold toy_map, toy_fds, toy_maps. cbn [fst snd next_id raw_fds raw_maps]. split_and!; [apply below_keep|apply below_fresh|apply below_add].
  - unfold toy_fds, toy_maps. cbn. split; [done|apply below_diff].
Defined.

Definition toy_shm : @ShmLaws toy_w toy_chan.
Proof. split; [|done|done]. intros p b w. cbn. by rewrite lookup_insert_eq. Defined.

Definition toy_cfg : channel_config_t := mkConfig 4 16 "/tmp/c" "/s_".
Definition toy_start : toy_w := mkToy 3 {[0]} ∅ ∅.
Definition toy_svc0 : channel_service := mkSvc toy_cfg [] false true 0 0.

(** One channel in shared memory. *)
Definition toy_opened : option (airy_rc * channel_service * toy_w) :=
  channel_service_open (H := toy_chan) (H0 := bounded_copy) pair toy_svc0 (Some "a"%string) (Some "n"%string) CHANNEL_TYPE_SHM None
    toy_start.

Definition toy_svc1 : channel_service := match toy_opened with Some (_, s, _) => s | None => toy_svc0 end.
Definition toy_w1 : toy_w := match toy_opened with Some (_, _, w) => w | None => toy_start end.

(** Two threads are past the tests, and one of them has opened its channel. *)
Lemma channel_resources_witness :
  length (channels toy_svc1) = 1%nat /\
  (forall id nm t ep, open_locked (H := toy_chan) (H0 := bounded_copy) toy_svc1 id nm t ep toy_w1 <> None) /\
  toy_fds (channel_service_destroy (H := toy_chan) toy_svc1 toy_w1) = toy_fds toy_start.
Proof.
  split; [vm_compute; reflexivity|].
  destruct (channel_resources (H0 := toy_laws) (H1 := bounded_copy) (H2 := bounded_copy_ok) toy_cfg 2 1 toy_start toy_start
    toy_svc0 toy_svc1 toy_w1) as (_ & Hin & Hd & _); [reflexivity|lia| |split; [apply Hin; vm_compute; (lia || discriminate)|exact Hd]].
  apply rtc_l with (toy_svc0, toy_start, 1%nat);
    [apply (ss_test 2 toy_svc0 toy_start 0 (Some "a"%string) (Some "n"%string)); [vm_compute; reflexivity|lia]|].
  apply rtc_l with (toy_svc0, toy_start, 2%nat);
    [apply (ss_test 2 toy_svc0 toy_start 1 (Some "a"%string) (Some "n"%string)); [vm_compute; reflexivity|lia]|].
  apply rtc_once. apply (ss_locked 2 toy_svc0 toy_start 1 "a"%string "n"%string CHANNEL_TYPE_SHM None AIRY_SUCCESS).
  - cbn. unfold CHANNEL_MAX_ID. lia.
  - vm_compute. reflexivity.
Defined.

Lemma mailbox_roundtrip_witness :
  exists s1 w1 s2 w2 s3 w3,
    channel_service_send (H := toy_chan) (H0 := bounded_copy) toy_svc1 (Some "a"%string) (Some [104; 105]) toy_w1 = (AIRY_SUCCESS, None, s1, w1) /\
    channel_service_receive (H := toy_chan) (H0 := bounded_copy) s1 (Some "a"%string) w1 = Some (AIRY_SUCCESS, Some [104; 105], s2, w2) /\
    channel_service_receive (H := toy_chan) (H0 := bounded_copy) s2 (Some "a"%string) w2 = Some (AIRY_SUCCESS, None, s3, w3).
Proof.
  destruct (find_open toy_svc1 "a") as [[i e]|] eqn:E; [|vm_compute in E; discriminate E].
  assert (X : shm_entry (H := toy_chan) e 4 toy_w1 /\ callback e = None /\ shm_size e = 16).
  { vm_compute in E. injection E as <- <-. split_and!; [unfold shm_entry; split_and!; vm_compute; (reflexivity || discriminate)|reflexivity|reflexivity]. }
  destruct X as (X1 & X2 & X3). rewrite <- X2.
  apply (mailbox_roundtrip (H := toy_chan) (ShmLaws0 := toy_shm) (H0 := bounded_copy) toy_svc1 "a" i e 4 [104; 105] toy_w1);
    [exact E|exact X1|cbn; lia|rewrite X3; vm_compute; discriminate|done].
Defined.
