(* ===== verification/CostTracker.v ===== *)
(** * CostTracker

    The accounting of llm_d (llm_d/src/accounting/cost_tracker.c with its callers in
    rpc/service_request.c and rpc/service.c, and the pricing rules of
    config/service_config_yaml_pricing.c): the price of a model, the totals of
    every model, the file they are kept in and when it is written.

    The file is on the disk of RecFile, where a crash of the process leaves one of
    the states the disk went through.  Requests run in parallel: what happens
    under the lock is one step of [step], and a writer of the file goes through
    the phases of [cost_write] one step at a time. *)

From stdpp Require Import gmap.
From S2P Require Import Prelude Doubles MemEnv Cjson Vector RecFile.

(** ** Data *)

Record pricing_rule_t := mkRule {
  model_pattern : option string;
  input_price_per_k : double;
  output_price_per_k : double
}.

(** [model] is NULL when there was no memory for the name. *)
Record model_cost_t := mkModel {
  model : option string;
  prompt_tokens : Z;                           (** 64 bits *)
  completion_tokens : Z;
  cached_tokens : Z;
  cost_usd : double
}.

Record cost_tracker := mkCt {
  rules : list pricing_rule_t;
  models : list model_cost_t;                  (** the linked list, head first *)
  pending : Z;                                 (** 32 bits *)
  dirty : bool;
  stamp_ms : Z
}.

Definition COST_FLUSH_MS : Z := 1000.
Definition COST_FLUSH_OPS : Z := 64.
Definition FILE_MAX : Z := 16 * 1024 * 1024.

Class CostOS (W : Type) := {
  os_time_ms : W -> Z * W;                     (** airy_time_ms *)
  byte_before : ascii;                         (** the byte in front of an empty pattern *)
  u32_outside : double -> Z                    (** the cast of a [double] that is no [uint32_t] *)
}.

(** ** Prices *)

(** [strncmp(a, b, n) == 0] *)
Fixpoint strncmp_eq (a b : string) (n : Z) : bool :=
  if n <=? 0 then true
  else match a, b with
       | EmptyString, EmptyString => true
       | String x a', String y b' => Ascii.eqb x y && strncmp_eq a' b' (n - 1)
       | _, _ => false
       end.

Section price.
  Context {W : Type} `{CostOS W}.

(** [s[len - 1]] *)
Definition last_byte (s : string) : ascii := default byte_before (String.get (String.length s - 1) s).

Definition match_rule (model : option string) (rule : pricing_rule_t) : bool :=
    match model_pattern rule, model with
    | Some pattern, Some model =>
        if Ascii.eqb (last_byte pattern) "*" then strncmp_eq model pattern (u64 (strlen pattern - 1))
        else strcmp_eq model pattern
    | _, _ => false
    end.

Fixpoint cost_tracker_price (rules : list pricing_rule_t) (model : option string) : double * double :=
    match rules with
    | [] => (d_lit 1 1000, d_lit 2 1000)
    | r :: rules' =>
        if match_rule model r then (input_price_per_k r, output_price_per_k r)
        else cost_tracker_price rules' model
    end.

(** [(prompt / 1000.0) * in + (completion / 1000.0) * out] *)
Definition use_price (rules : list pricing_rule_t) (model : string) (prompt completion : Z) : double :=
    let '(in_price, out_price) := cost_tracker_price rules (Some model) in
    dadd (dmul (ddiv (d_of_Z prompt) (d_of_Z 1000)) in_price) (dmul (ddiv (d_of_Z completion) (d_of_Z 1000)) out_price).

Definition cost_tracker_estimate (ct : cost_tracker) (model : option string) (prompt completion : Z) : double :=
    match model with
    | None => d_zero
    | Some model => use_price (rules ct) model prompt completion
    end.
End price.

(** ** Rules *)

(** A model of the configuration: its name and the prices it declares. *)
Record yaml_model_t := mkYaml {
  y_name : string;
  has_input_price : bool;
  has_output_price : bool;
  input_cost_per_k : double;
  output_cost_per_k : double
}.

Definition priced (m : yaml_model_t) : bool := has_input_price m || has_output_price m.

Section rules.
  Context {W : Type} `{MemOS W} `{CostOS W}.

(** The copies of the patterns; [None] when there is no memory for one. *)
Fixpoint dup_loop (l : list pricing_rule_t) (w : W) : option (list pricing_rule_t) * W :=
    match l with
    | [] => (Some [], w)
    | r :: l' =>
        let '(p, w) := strdup_opt (model_pattern r) w in
        match model_pattern r, p with
        | Some _, None => (None, w)
        | _, _ =>
            let '(l', w) := dup_loop l' w in
            ((fun l' => mkRule p (input_price_per_k r) (output_price_per_k r) :: l') <$> l', w)
        end
    end.

(** For a positive count. *)
Definition rules_dup (l : list pricing_rule_t) (w : W) : option (list pricing_rule_t) * W :=
    let '(ok, w) := os_alloc w in if ok : bool then dup_loop l w else (None, w).

Definition cost_tracker_create (l : list pricing_rule_t) (w : W) : option cost_tracker * W :=
    let '(ok, w) := os_alloc w in
    if ok : bool then
      let '(rs, w) := match l with [] => (Some [], w) | _ => rules_dup l w end in
      match rs with
      | None => (None, w)
      | Some rs => let '(t, w) := os_time_ms w in (Some (mkCt rs [] 0 false t), w)
      end
    else (None, w).

Definition cost_set_rules (ct : cost_tracker) (l : list pricing_rule_t) (w : W) : Z * cost_tracker * W :=
    let '(rs, w) := match l with [] => (Some [], w) | _ => rules_dup l w end in
    match rs with
    | None => (-1, ct, w)
    | Some rs => (0, mkCt rs (models ct) (pending ct) (dirty ct) (stamp_ms ct), w)
    end.

Fixpoint yaml_loop (l : list yaml_model_t) (w : W) : option (list pricing_rule_t) * W :=
    match l with
    | [] => (Some [], w)
    | m :: l' =>
        if priced m then
          let '(p, w) := AIRY_STRDUP (y_name m) w in
          match p with
          | None => (None, w)
          | Some p =>
              let '(l', w) := yaml_loop l' w in
              ((fun l' => mkRule (Some p) (input_cost_per_k m) (output_cost_per_k m) :: l') <$> l', w)
          end
        else yaml_loop l' w
    end.

(** The rules of the models read from the file; none when there is no memory. *)
Definition load_pricing_rules_from_yaml (st : option (list yaml_model_t)) (w : W) : list pricing_rule_t * W :=
    match st with
    | None => ([], w)
    | Some l =>
        if existsb priced l then
          let '(ok, w) := os_alloc w in
          if ok : bool then let '(rs, w) := yaml_loop l w in (default [] rs, w) else ([], w)
        else ([], w)
    end.
End rules.

(** ** Totals *)

(** Where [name] is in the list; [None] when the search compares with NULL. *)
Fixpoint model_find (l : list model_cost_t) (name : string) : option (option nat) :=
  match l with
  | [] => Some None
  | m :: l' =>
      s ← model m;
      if strcmp_eq s name then Some (Some O) else r ← model_find l' name; Some (option_map S r)
  end.

Definition count_use (prompt completion cached : Z) (price : double) (m : model_cost_t) : model_cost_t :=
  mkModel (model m) (u64 (prompt_tokens m + prompt)) (u64 (completion_tokens m + completion))
    (u64 (cached_tokens m + cached)) (dadd (cost_usd m) price).

Section totals.
  Context {W : Type} `{MemOS W} `{CostOS W}.

(** The position of the model's entry in the list that has it, [None] for it
    when there is no memory; no result when the search compares with NULL. *)
Definition model_get (l : list model_cost_t) (name : string) (w : W) : option (option nat * list model_cost_t * W) :=
    r ← model_find l name;
    match r with
    | Some i => Some (Some i, l, w)
    | None =>
        let '(ok, w) := os_alloc w in
        if ok : bool then
          let '(s, w) := AIRY_STRDUP name w in
          Some (Some O, mkModel s 0 0 0 d_zero :: l, w)
        else Some (None, l, w)
    end.

Definition cost_tracker_add (ct : cost_tracker) (model : option string) (prompt completion cached : Z) (w : W)
    : option (cost_tracker * W) :=
    match model with
    | None => Some (ct, w)
    | Some name =>
        '(i, l, w) ← model_get (models ct) name w;
        match i with
        | None => Some (ct, w)
        | Some i =>
            Some (mkCt (rules ct) (alter (count_use prompt completion cached (use_price (rules ct) name prompt completion)) i l)
                    (u32 (pending ct + 1)) true (stamp_ms ct), w)
        end
    end.
End totals.

(** ** Export *)

Section export.
  Context {W : Type} `{MemOS W}.

(** [cJSON_AddStringToObject] and [cJSON_AddNumberToObject]: the member is left
    out when there is no memory for it. *)
Definition add_member (key : string) (v : jtree) (o : list (string * jtree)) (w : W) : list (string * jtree) * W :=
    let '(ok, w) := os_alloc w in (if ok : bool then o ++ [(key, v)] else o, w).

Definition export_model (m : model_cost_t) (w : W) : option jtree * W :=
    let '(obj, w) := os_alloc w in
    let '(o, w) := match model m with Some s => add_member "model" (JStr s) [] w | None => let '(_, w) := os_alloc w in ([], w) end in
    let '(o, w) := add_member "prompt_tokens" (JReal (d_of_Z (prompt_tokens m))) o w in
    let '(o, w) := add_member "completion_tokens" (JReal (d_of_Z (completion_tokens m))) o w in
    let '(o, w) := add_member "cached_tokens" (JReal (d_of_Z (cached_tokens m))) o w in
    let '(o, w) := add_member "cost_usd" (JReal (cost_usd m)) o w in
    (if obj : bool then Some (JObj o) else None, w).

Fixpoint export_loop (l : list model_cost_t) (w : W) : list jtree * W :=
    match l with
    | [] => ([], w)
    | m :: l' =>
        let '(obj, w) := export_model m w in
        let '(arr, w) := export_loop l' w in
        (match obj with Some obj => obj :: arr | None => arr end, w)
    end.

(** [None]: there is no memory for the root. *)
Definition cost_tracker_export (ct : cost_tracker) (w : W) : option jtree * W :=
    let '(root, w) := os_alloc w in
    let '(has_arr, w) := os_alloc w in
    let '(arr, w) := export_loop (models ct) w in
    let '(o, w) := if has_arr : bool then add_member "models" (JArr arr) [] w else ([], w) in
    (if root : bool then Some (JObj o) else None, w).
End export.

(** ** Writing the file *)

Section write.
  Context {W : Type} `{MemOS W} `{FileOS W} `{Cjson} `{CostOS W}.

(** The text to write, outside the lock but for the export. *)
Definition write_text (ct : cost_tracker) (w : W) : option string * W :=
    let '(root, w) := cost_tracker_export ct w in
    match root with
    | None => (None, w)
    | Some root => let '(ok, w) := os_alloc w in (if ok : bool then Some (cJSON_PrintUnformatted root) else None, w)
    end.

(** The temporary file and its renaming; [fwrite] is [fprintf] of the text. *)
Definition write_file (path : string) (sync : bool) (json : string) (d : disk) (w : W) : bool * disk * W :=
    let tmp := path +:+ ".tmp" in
    if 1024 <=? strlen tmp then (false, d, w)
    else
      let '(f, d, w) := fopen_wb tmp d w in
      match f with
      | None => (false, d, w)
      | Some f =>
          let '(wok, f, w) := fprintf f json w in
          let '(wok, f, d, w) := if wok : bool then fflush f d w else (false, f, d, w) in
          let '(wok, w) := if wok && sync then call w else (wok, w) in
          let '(_, d, w) := fclose f d w in
          if negb wok then let '(d, w) := remove_file tmp d w in (false, d, w)
          else
            let '(renamed, d, w) := airy_file_rename tmp path d w in
            if renamed : bool then (true, d, w)
            else let '(d, w) := remove_file tmp d w in (false, d, w)
      end.

(** The counters once the file is in place. *)
Definition write_done (sync : bool) (snap : Z) (ct : cost_tracker) (w : W) : cost_tracker * W :=
    let p := if snap <? pending ct then pending ct - snap else 0 in
    if sync then let '(t, w) := os_time_ms w in (mkCt (rules ct) (models ct) p (0 <? p) t, w)
    else (mkCt (rules ct) (models ct) p (dirty ct) (stamp_ms ct), w).

(** The whole call, when nobody else uses the tracker meanwhile. *)
Definition cost_write (path : string) (sync : bool) (ct : cost_tracker) (d : disk) (w : W) : Z * cost_tracker * disk * W :=
    let snap := pending ct in
    let '(json, w) := write_text ct w in
    match json with
    | None => (-1, ct, d, w)
    | Some json =>
        let '(ok, d, w) := write_file path sync json d w in
        if ok : bool then let '(ct, w) := write_done sync snap ct w in (0, ct, d, w) else (-1, ct, d, w)
    end.

Definition cost_tracker_save (path : option string) (ct : cost_tracker) (d : disk) (w : W) : Z * cost_tracker * disk * W :=
    match path with
    | None | Some EmptyString => (-1, ct, d, w)
    | Some path => cost_write path true ct d w
    end.

(** What [cost_tracker_flush] decides from the counters it read and the time:
    [None] not to write, otherwise whether to synchronise. *)
Definition flush_decide (pending : Z) (dirty : bool) (stamp now : Z) : option bool :=
    if negb dirty then None
    else
      let sync := COST_FLUSH_MS <=? u64 (now - stamp) in
      if negb sync && (pending <? COST_FLUSH_OPS) then None else Some sync.

Definition cost_tracker_flush (path : option string) (ct : cost_tracker) (d : disk) (w : W) : Z * cost_tracker * disk * W :=
    match path with
    | None | Some EmptyString => (-1, ct, d, w)
    | Some path =>
        if negb (dirty ct) then (0, ct, d, w)
        else
          let '(now, w) := os_time_ms w in
          match flush_decide (pending ct) (dirty ct) (stamp_ms ct) now with
          | None => (0, ct, d, w)
          | Some sync => cost_write path sync ct d w
          end
    end.

(** After a response: the use is counted and the file written when it is time;
    the result is the price of the response. *)
Definition update_cost_tracking (path : option string) (model : option string) (prompt completion cached : Z)
    (ct : cost_tracker) (d : disk) (w : W) : option (option double * cost_tracker * disk * W) :=
    match model with
    | None => Some (None, ct, d, w)
    | Some _ =>
        '(ct, w) ← cost_tracker_add ct model prompt completion cached w;
        let usd := cost_tracker_estimate ct model prompt completion in
        match path with
        | None => Some (Some usd, ct, d, w)
        | Some _ => let '(_, ct, d, w) := cost_tracker_flush path ct d w in Some (Some usd, ct, d, w)
        end
    end.
End write.

(** ** Reading the file *)

Inductive slurp := Slurped (s : string) | Nothing | Broken.

Section load.
  Context {W : Type} `{MemOS W} `{FileOS W} `{Cjson} `{CostOS W}.

Definition file_slurp (path : string) (d : disk) (w : W) : slurp * W :=
    let '(opened, w) := call w in
    match now d !! path with
    | Some s =>
        if opened : bool then
          let '(sought, w) := call w in
          if negb sought then (Broken, w)
          else if strlen s =? 0 then (Nothing, w)
          else if FILE_MAX <? strlen s then (Broken, w)
          else
            let '(ok, w) := os_alloc w in
            if ok : bool then
              let '(read, w) := call w in
              (if read : bool then Slurped (cut_at "000" s).1 else Broken, w)
            else (Broken, w)
        else (Nothing, w)
    | None => (Nothing, w)
    end.

(** [(uint32_t)d] *)
Definition to_u32 (d : double) : Z :=
    if dlt (d_of_Z (-1)) d && dlt d (d_of_Z (UINT32_MAX + 1)) then d_trunc d else u32_outside d.

Definition json_u32 (item : cJSON) (key : string) : Z :=
    match cj_num (cJSON_GetObjectItem item key) with Some x => to_u32 x | None => 0 end.

Definition entry_apply (l : list model_cost_t) (item : cJSON) (w : W) : option (list model_cost_t * W) :=
    match cj_str (cJSON_GetObjectItem item "model") with
    | None | Some EmptyString => Some (l, w)
    | Some name =>
        '(i, l, w) ← model_get l name w;
        match i with
        | None => Some (l, w)
        | Some i =>
            let usd := default d_zero (cj_num (cJSON_GetObjectItem item "cost_usd")) in
            Some (alter (count_use (json_u32 item "prompt_tokens") (json_u32 item "completion_tokens")
                    (json_u32 item "cached_tokens") usd) i l, w)
        end
    end.

Fixpoint load_loop (l : list model_cost_t) (items : list cJSON) (w : W) : option (list model_cost_t * W) :=
    match items with
    | [] => Some (l, w)
    | item :: items' => '(l, w) ← entry_apply l item w; load_loop l items' w
    end.

(** No result when a search compares with NULL. *)
Definition cost_tracker_load (path : option string) (ct : cost_tracker) (d : disk) (w : W) : option (Z * cost_tracker * W) :=
    match path with
    | None | Some EmptyString => Some (-1, ct, w)
    | Some path =>
        let '(r, w) := file_slurp path d w in
        match r with
        | Nothing => Some (0, ct, w)
        | Broken => Some (-1, ct, w)
        | Slurped s =>
            match cJSON_Parse s with
            | None => Some (-1, ct, w)
            | Some root =>
                match cj_items (cJSON_GetObjectItem root "models") with
                | None => Some (-1, ct, w)
                | Some items =>
                    '(l, w) ← load_loop (models ct) items w;
                    Some (0, mkCt (rules ct) l (pending ct) (dirty ct) (stamp_ms ct), w)
                end
            end
        end
    end.
End load.

(** ** The price of a model *)

Section price_facts.
  Context {W : Type} `{CostOS W}.

(** What a pattern stands for: every name that begins with what is before a final
    star, and the name itself without one. *)
Definition pattern_covers (pattern model : string) : Prop :=
  match String.get (String.length pattern - 1) pattern with
  | Some c => if Ascii.eqb c "*" then String.prefix (String.substring 0 (String.length pattern - 1) pattern) model = true
              else model = pattern
  | None => model = pattern
  end.

Lemma strncmp_whole : forall a b n, strlen b < n -> strncmp_eq a b n = strcmp_eq a b.
Proof.
  unfold strlen, strcmp_eq. induction a as [|x a IH]; intros [|y b] n Hn; cbn in *; destruct (Z.leb_spec n 0); try lia; try done.
  rewrite IH by lia. by destruct (Ascii.eqb x y).
Qed.

Lemma strncmp_prefix : forall b a n,
  (n <= String.length b)%nat -> strncmp_eq a b (Z.of_nat n) = String.prefix (String.substring 0 n b) a.
Proof.
  induction b as [|y b IH]; intros a [|n] Hn; try (cbn in Hn; lia); try by destruct a.
  destruct a as [|x a]; [done|]. cbn [strncmp_eq String.substring String.prefix]. rewrite Nat2Z.inj_succ.
  destruct (Z.leb_spec (Z.succ (Z.of_nat n)) 0); [lia|]. replace (Z.succ (Z.of_nat n) - 1) with (Z.of_nat n) by lia.
  rewrite IH by (cbn in Hn; lia). destruct (Ascii.eqb_spec x y) as [->|]; case_match; try done.
Qed.

(** A rule matches exactly the names its pattern stands for, also when the
    pattern is empty and the byte in front of it is read. *)
Lemma match_rule_spec rule pattern name :
  model_pattern rule = Some pattern -> strlen pattern <= UINT64_MAX ->
  match_rule (Some name) rule = true <-> pattern_covers pattern name.
Proof.
  intros Hp Hlen. unfold match_rule, last_byte, pattern_covers. rewrite Hp. pose proof (strcmp_eq_true name pattern) as Heq.
  destruct pattern as [|c pattern].
  - cbn [String.get String.length from_option]. destruct (Ascii.eqb byte_before "*"); [|done]. by rewrite strncmp_whole.
  - assert (Hn : u64 (strlen (String c pattern) - 1) = Z.of_nat (String.length (String c pattern) - 1)).
    { rewrite u64_id; unfold strlen in *; unfold is_u64; cbn [String.length] in *; lia. }
    destruct (String.get _ _) as [l|] eqn:E; cbn [from_option]; unfold id.
    + destruct (Ascii.eqb l "*"); [|done]. rewrite Hn, strncmp_prefix by lia. done.
    + exfalso. cbn [String.length] in E. rewrite Nat.sub_succ, Nat.sub_0_r in E. clear -E.
      revert c E. induction pattern as [|c' pattern IH]; intros c E; [done|]. apply (IH c'). exact E.
Qed.

(** The first rule that matches decides; without one the built-in price holds. *)
Lemma price_first rs name :
  (exists before r after, rs = before ++ r :: after /\ match_rule (Some name) r = true
     /\ Forall (fun r => match_rule (Some name) r = false) before
     /\ cost_tracker_price rs (Some name) = (input_price_per_k r, output_price_per_k r))
  \/ Forall (fun r => match_rule (Some name) r = false) rs
     /\ cost_tracker_price rs (Some name) = (d_lit 1 1000, d_lit 2 1000).
Proof.
  induction rs as [|r rs IH]; [by right|]. cbn [cost_tracker_price]. destruct (match_rule (Some name) r) eqn:E.
  - left. by exists [], r, rs.
  - destruct IH as [(b & r' & a & -> & Hm & Hb & Hp)|[Hn Hp]].
    + left. exists (r :: b), r', a. split_and!; [done..|by constructor|done].
    + right. split; [by constructor|done].
Qed.
End price_facts.

(** ** The totals are a map *)

(** Every entry has a name and no two have the same. *)
Definition well_named (l : list model_cost_t) : Prop := Forall (fun m => is_Some (model m)) l /\ NoDup (model <$> l).

Fixpoint lookup_model (l : list model_cost_t) (name : string) : option model_cost_t :=
  match l with
  | [] => None
  | m :: l' => if decide (model m = Some name) then Some m else lookup_model l' name
  end.

Definition new_model (name : string) : model_cost_t := mkModel (Some name) 0 0 0 d_zero.

Lemma well_named_cons m l : well_named (m :: l) <-> is_Some (model m) /\ model m ∉ model <$> l /\ well_named l.
Proof. unfold well_named. rewrite Forall_cons. cbn. rewrite NoDup_cons. naive_solver. Qed.

Lemma lookup_model_none l name : Some name ∉ model <$> l -> lookup_model l name = None.
Proof.
  induction l as [|m l IH]; [done|]. cbn. rewrite not_elem_of_cons. intros [Hm Hl].
  rewrite decide_False by congruence. auto.
Qed.

Lemma model_find_spec l name :
  Forall (fun m => is_Some (model m)) l ->
  match model_find l name with
  | Some (Some i) => exists m, l !! i = Some m /\ model m = Some name
  | Some None => Some name ∉ model <$> l
  | None => False
  end.
Proof.
  induction 1 as [|m l [s Hs] Hl IH]; cbn; [set_solver|]. rewrite Hs. cbn. destruct (strcmp_eq s name) eqn:E.
  - apply strcmp_eq_true in E as ->. by exists m.
  - apply strcmp_eq_false in E. destruct (model_find l name) as [[i|]|]; cbn; [done| |done].
    rewrite not_elem_of_cons. split; [congruence|done].
Qed.

Lemma alter_names f i (l : list model_cost_t) : (forall m, model (f m) = model m) -> model <$> alter f i l = model <$> l.
Proof. intros Hf. revert i. induction l as [|m l IH]; intros [|i]; cbn; [done..| |]; rewrite ?Hf, ?IH; done. Qed.

Lemma well_named_alter f i l : (forall m, model (f m) = model m) -> well_named l -> well_named (alter f i l).
Proof.
  unfold well_named. intros Hf [Hs Hn]. rewrite alter_names by done. split; [|done].
  apply Forall_alter; [done|]. intros m _. by rewrite Hf.
Qed.

(** Changing the entry of [name] changes what is found under that name only. *)
Lemma lookup_alter_model f name n : forall l i m,
  (forall m, model (f m) = model m) -> NoDup (model <$> l) -> l !! i = Some m -> model m = Some name ->
  lookup_model l name = Some m /\ lookup_model (alter f i l) n = if decide (n = name) then Some (f m) else lookup_model l n.
Proof.
  induction l as [|x l IH]; intros [|i] m Hf Hn Hl Hm; [done..| |]; cbn in Hn; apply NoDup_cons in Hn as [Hx Hn].
  - injection Hl as ->. cbn. rewrite Hm, decide_True by done. split; [done|]. rewrite Hf, Hm.
    destruct (decide (n = name)) as [->|Hne]; [by rewrite decide_True|]. by rewrite !decide_False by congruence.
  - cbn in Hl. destruct (IH i m Hf Hn Hl Hm) as [E1 E2].
    assert (Hxn : model x <> Some name).
    { intros E. apply Hx. rewrite E, <- Hm. apply list_elem_of_fmap_2. by eapply list_elem_of_lookup_2. }
    cbn. rewrite decide_False by done. split; [done|].
    destruct (decide (model x = Some n)) as [En|En]; rewrite ?E2; [|done]. by rewrite decide_False by congruence.
Qed.

Section uses.
  Context {W : Type} `{MemOS W} `{CostOS W}.
  Hypothesis ample : forall w : W, (os_alloc w).1 = true.

Lemma alloc_ok (w : W) : exists w', os_alloc w = (true, w').
Proof. pose proof (ample w). destruct (os_alloc w) as [b w']. exists w'. naive_solver. Qed.

Lemma strdup_ok s (w : W) : exists w', AIRY_STRDUP s w = (Some s, w').
Proof. unfold AIRY_STRDUP. destruct (alloc_ok w) as [w' ->]. by exists w'. Qed.

(** With memory the entry of a name is found or made, and [f] changes it and
    nothing else. *)
Lemma model_get_alter f l name (w : W) :
  (forall m, model (f m) = model m) -> well_named l ->
  exists i l' w', model_get l name w = Some (Some i, l', w') /\ well_named (alter f i l')
    /\ forall n, lookup_model (alter f i l') n
         = if decide (n = name) then Some (f (default (new_model name) (lookup_model l name))) else lookup_model l n.
Proof.
  intros Hf [Hs Hn]. unfold model_get. pose proof (model_find_spec l name Hs) as Hfind.
  destruct (model_find l name) as [[i|]|]; [| |done]; cbn [mbind option_bind].
  - destruct Hfind as (m & Hl & Hm). exists i, l, w. split_and!; [done|by apply well_named_alter|].
    intros n. destruct (lookup_alter_model f name n l i m Hf Hn Hl Hm) as [-> ->]. done.
  - destruct (alloc_ok w) as [w1 ->]. destruct (strdup_ok name w1) as [w2 ->]. exists 0%nat, (new_model name :: l), w2.
    split_and!; [done|apply well_named_alter; [done|]; by apply well_named_cons|].
    intros n. destruct (lookup_alter_model f name n (new_model name :: l) 0 (new_model name)) as [_ ->]; [done|by apply NoDup_cons|done..|].
    rewrite (lookup_model_none l name) by done. destruct (decide (n = name)) as [->|Hne]; [done|].
    cbn. by rewrite decide_False by congruence.
Qed.

(** What a client sees: the rules in force and, by name, the exact sums. *)
Record sums := mkSums { s_prompt : Z; s_completion : Z; s_cached : Z; s_usd : double }.

Record books := mkBooks { b_rules : list pricing_rule_t; b_sums : gmap string sums }.

Inductive event :=
| EUse (name : string) (prompt completion cached : Z)
| ERules (rs : list pricing_rule_t).

Definition book_event (b : books) (e : event) : books :=
  match e with
  | EUse name p c k =>
      let t := default (mkSums 0 0 0 d_zero) (b_sums b !! name) in
      mkBooks (b_rules b)
        (<[name := mkSums (s_prompt t + p) (s_completion t + c) (s_cached t + k) (dadd (s_usd t) (use_price (b_rules b) name p c))]>
           (b_sums b))
  | ERules rs => mkBooks rs (b_sums b)
  end.

Definition entry_of_sums (name : string) (t : sums) : model_cost_t :=
  mkModel (Some name) (u64 (s_prompt t)) (u64 (s_completion t)) (u64 (s_cached t)) (s_usd t).

Definition kept (ct : cost_tracker) (b : books) : Prop :=
  rules ct = b_rules b /\ well_named (models ct)
  /\ forall name, lookup_model (models ct) name = entry_of_sums name <$> b_sums b !! name.

Definition do_event (ct : cost_tracker) (e : event) (w : W) : option (cost_tracker * W) :=
  match e with
  | EUse name p c k => cost_tracker_add ct (Some name) p c k w
  | ERules rs => let '(_, ct, w) := cost_set_rules ct rs w in Some (ct, w)
  end.

Fixpoint do_events (ct : cost_tracker) (es : list event) (w : W) : option (cost_tracker * W) :=
  match es with
  | [] => Some (ct, w)
  | e :: es' => '(ct, w) ← do_event ct e w; do_events ct es' w
  end.

Lemma dup_loop_ok : forall rs (w : W), exists w', dup_loop rs w = (Some rs, w').
Proof.
  induction rs as [|[[p|] a b] rs IH]; intros w; cbn; [by exists w| |].
  - destruct (strdup_ok p w) as [w1 ->]. destruct (IH w1) as [w2 ->]. by exists w2.
  - destruct (IH w) as [w2 ->]. by exists w2.
Qed.

Lemma rules_copy_ok rs (w : W) : exists w', match rs with [] => (Some [], w) | _ => rules_dup rs w end = (Some rs, w').
Proof.
  destruct rs as [|r rs]; [by exists w|]. unfold rules_dup. destruct (alloc_ok w) as [w1 ->]. apply dup_loop_ok.
Qed.

Lemma set_rules_ok ct rs (w : W) :
  exists w', cost_set_rules ct rs w = (0, mkCt rs (models ct) (pending ct) (dirty ct) (stamp_ms ct), w').
Proof. unfold cost_set_rules. destruct (rules_copy_ok rs w) as [w' ->]. by exists w'. Qed.

(** A use counts under its own name, at the price of the rules in force. *)
Lemma add_ok ct name p c k (w : W) :
  well_named (models ct) ->
  exists l w', cost_tracker_add ct (Some name) p c k w = Some (mkCt (rules ct) l (u32 (pending ct + 1)) true (stamp_ms ct), w')
    /\ well_named l
    /\ forall n, lookup_model l n
         = if decide (n = name)
           then Some (count_use p c k (use_price (rules ct) name p c) (default (new_model name) (lookup_model (models ct) name)))
           else lookup_model (models ct) n.
Proof.
  intros Hw. unfold cost_tracker_add.
  destruct (model_get_alter (count_use p c k (use_price (rules ct) name p c)) (models ct) name w) as (i & l & w' & -> & Hl & Hn); [done..|].
  cbn. eexists _, w'. split_and!; [done|done|exact Hn].
Qed.

Lemma event_kept ct b e (w : W) : kept ct b -> exists ct' w', do_event ct e w = Some (ct', w') /\ kept ct' (book_event b e).
Proof.
  intros (Hr & Hw & Hl). destruct e as [name p c k|rs]; cbn [do_event book_event].
  - destruct (add_ok ct name p c k w Hw) as (l & w' & -> & Hwl & Hn). eexists _, w'. split; [done|]. split_and!; [done|done|].
    cbn [models b_sums]. intros n. rewrite Hn. destruct (decide (n = name)) as [->|Hne].
    + rewrite lookup_insert_eq, Hl, Hr. cbn. f_equal. destruct (b_sums b !! name) as [t|]; cbn; unfold count_use, entry_of_sums; cbn; [|done].
      unfold u64. by rewrite !Zplus_mod_idemp_l.
    + by rewrite lookup_insert_ne by done.
  - destruct (set_rules_ok ct rs w) as [w' ->]. eexists _, w'. done.
Qed.

(** The tracker is a map from names to sums: whatever is used, and whenever the
    rules change, every name has exactly one entry with the sums of its uses
    modulo 2^64 and their prices under the rules in force at each use. *)
Theorem tracker_refines rs es (w : W) :
  exists ct w0 ct' w', cost_tracker_create rs w = (Some ct, w0)
    /\ do_events ct es w0 = Some (ct', w') /\ kept ct' (foldl book_event (mkBooks rs ∅) es).
Proof.
  unfold cost_tracker_create. destruct (alloc_ok w) as [w1 ->]. destruct (rules_copy_ok rs w1) as [w2 ->].
  destruct (os_time_ms w2) as [t w3]. eexists _, w3. cut (forall es ct b (w : W), kept ct b ->
    exists ct' w', do_events ct es w = Some (ct', w') /\ kept ct' (foldl book_event b es)).
  { intros Hrun. destruct (Hrun es (mkCt rs [] 0 false t) (mkBooks rs ∅) w3) as (ct' & w' & E & K); [|by exists ct', w'].
    split_and!; [done|split; constructor|]. intros name. cbn. by rewrite lookup_empty. }
  clear w w1 w2 w3 t rs es. intros es. induction es as [|e es IH]; intros ct b w K; cbn; [by exists ct, w|].
  destruct (event_kept ct b e w K) as (ct1 & w1 & -> & K1). cbn. by apply IH.
Qed.
End uses.

(** ** Writers and requests *)

(** Where a writer is: [PRead] has read the counters, [PAsk] is at the start of
    [cost_write], [PSnap] holds the count, [PText] the text, [PDone] has renamed
    the file. *)
Inductive phase :=
| PRead (pending : Z) (dirty : bool) (stamp : Z)
| PAsk (sync : bool)
| PSnap (sync : bool) (snap : Z)
| PText (sync : bool) (snap : Z) (json : string)
| PDone (sync : bool) (snap : Z).

Section system.
  Context {W : Type} `{MemOS W} `{FileOS W} `{Cjson} `{CostOS W}.

(** [past_models]: the totals after every use so far, newest first, down to those
    the daemon started with. *)
Record sys := mkSys {
  tracker : cost_tracker;
  dsk : disk;
  world : W;
  writers : list phase;
  past_models : list (list model_cost_t)
}.

Definition with_ct (s : sys) (ct : cost_tracker) (w : W) : sys := mkSys ct (dsk s) w (writers s) (past_models s).
Definition with_writers (s : sys) (ph : list phase) (w : W) : sys := mkSys (tracker s) (dsk s) w ph (past_models s).

(** One critical section, one write of the file, or a change of the environment. *)
Inductive step (path : string) : sys -> sys -> Prop :=
| s_use s name p c k ct' w' :
    cost_tracker_add (tracker s) (Some name) p c k (world s) = Some (ct', w') ->
    step path s (mkSys ct' (dsk s) w' (writers s) (models ct' :: past_models s))
| s_rules s rs rc ct' w' : cost_set_rules (tracker s) rs (world s) = (rc, ct', w') -> step path s (with_ct s ct' w')
| s_flush s : step path s (with_writers s (PRead (pending (tracker s)) (dirty (tracker s)) (stamp_ms (tracker s)) :: writers s) (world s))
| s_save s : step path s (with_writers s (PAsk true :: writers s) (world s))
| s_decide s i p dirty stamp now w' :
    writers s !! i = Some (PRead p dirty stamp) -> os_time_ms (world s) = (now, w') ->
    step path s (with_writers s (match flush_decide p dirty stamp now with
                                 | Some sync => <[i := PAsk sync]> (writers s)
                                 | None => delete i (writers s)
                                 end) w')
| s_snap s i sync :
    writers s !! i = Some (PAsk sync) ->
    step path s (with_writers s (<[i := PSnap sync (pending (tracker s))]> (writers s)) (world s))
| s_text s i sync snap json w' :
    writers s !! i = Some (PSnap sync snap) -> write_text (tracker s) (world s) = (json, w') ->
    step path s (with_writers s (match json with
                                 | Some json => <[i := PText sync snap json]> (writers s)
                                 | None => delete i (writers s)
                                 end) w')
| s_file s i sync snap json ok d' w' :
    writers s !! i = Some (PText sync snap json) -> write_file path sync json (dsk s) (world s) = (ok, d', w') ->
    step path s (mkSys (tracker s) d' w'
                   (if ok : bool then <[i := PDone sync snap]> (writers s) else delete i (writers s)) (past_models s))
| s_done s i sync snap ct' w' :
    writers s !! i = Some (PDone sync snap) -> write_done sync snap (tracker s) (world s) = (ct', w') ->
    step path s (mkSys ct' (dsk s) w' (delete i (writers s)) (past_models s))
| s_env s w' : step path s (with_ct s (tracker s) w').

(** At most one writer at a time. *)
Definition solo_step (path : string) (s s' : sys) : Prop := step path s s' /\ (length (writers s') <= 1)%nat.

(** The state after the start: the totals are those loaded from the file. *)
Definition booted (ct : cost_tracker) (d : disk) (w : W) : sys := mkSys ct (mkDisk (now d) [now d]) w [] [models ct].

(** The text of the totals. *)
Definition model_tree (m : model_cost_t) : jtree :=
  JObj ((match model m with Some s => [("model"%string, JStr s)] | None => [] end)
        ++ [("prompt_tokens"%string, JReal (d_of_Z (prompt_tokens m)));
            ("completion_tokens"%string, JReal (d_of_Z (completion_tokens m)));
            ("cached_tokens"%string, JReal (d_of_Z (cached_tokens m))); ("cost_usd"%string, JReal (cost_usd m))]).

Definition totals_tree (l : list model_cost_t) : jtree := JObj [("models"%string, JArr (model_tree <$> l))].

Definition totals_text (l : list model_cost_t) : string := cJSON_PrintUnformatted (totals_tree l).

(** The file has all uses but the last [k]: it is the text of the totals before
    them, or still the file of the start when nothing was written. *)
Definition file_behind (file0 file : option string) (hist : list (list model_cost_t)) (k : nat) : Prop :=
  (exists l, hist !! k = Some l /\ file = Some (totals_text l)) \/ S k = length hist /\ file = file0.

Lemma file_behind_push file0 file hist k l : file_behind file0 file hist k -> file_behind file0 file (l :: hist) (S k).
Proof. intros [(l' & Hl & ->)|[Hk ->]]; [left; by exists l'|right; cbn; split; [lia|done]]. Qed.
End system.

Arguments sys : clear implicits.

Section writing.
  Context {W : Type} `{MemOS W} `{FileOS W} `{Cjson} `{CostOS W}.
  Hypothesis ample : forall w : W, (os_alloc w).1 = true.

Lemma add_member_ok key v o (w : W) : exists w', add_member key v o w = (o ++ [(key, v)], w').
Proof. unfold add_member. destruct (alloc_ok ample w) as [w' ->]. by exists w'. Qed.

Lemma export_model_ok m (w : W) : exists w', export_model m w = (Some (model_tree m), w').
Proof.
  unfold export_model, model_tree. destruct (alloc_ok ample w) as [w1 ->].
  assert (Hm : exists w2, match model m with Some s => add_member "model" (JStr s) [] w1 | None => let '(_, w) := os_alloc w1 in ([], w) end
    = (match model m with Some s => [("model", JStr s)] | None => [] end, w2)%string).
  { destruct (model m) as [s|]; [apply (add_member_ok "model" (JStr s) [])|]. destruct (os_alloc w1) as [b w2]. by exists w2. }
  destruct Hm as [w2 ->]. destruct (add_member_ok "prompt_tokens" (JReal (d_of_Z (prompt_tokens m)))
    (match model m with Some s => [("model", JStr s)] | None => [] end)%string w2) as [w3 ->].
  match goal with |- context [add_member "completion_tokens" ?v ?o w3] => destruct (add_member_ok "completion_tokens" v o w3) as [w4 ->] end.
  match goal with |- context [add_member "cached_tokens" ?v ?o w4] => destruct (add_member_ok "cached_tokens" v o w4) as [w5 ->] end.
  match goal with |- context [add_member "cost_usd" ?v ?o w5] => destruct (add_member_ok "cost_usd" v o w5) as [w6 ->] end.
  exists w6. by rewrite <- !app_assoc.
Qed.

Lemma export_loop_ok : forall l (w : W), exists w', export_loop l w = (model_tree <$> l, w').
Proof.
  induction l as [|m l IH]; intros w; cbn [export_loop]; [by exists w|].
  destruct (export_model_ok m w) as [w1 ->]. destruct (IH w1) as [w2 ->]. by exists w2.
Qed.

(** With memory the text is that of all totals. *)
Lemma write_text_ok ct (w : W) : exists w', write_text ct w = (Some (totals_text (models ct)), w').
Proof.
  unfold write_text, cost_tracker_export. destruct (alloc_ok ample w) as [w1 ->]. destruct (alloc_ok ample w1) as [w2 ->].
  destruct (export_loop_ok (models ct) w2) as [w3 ->]. destruct (add_member_ok "models" (JArr (model_tree <$> models ct)) [] w3) as [w4 ->].
  cbn [app]. destruct (alloc_ok ample w4) as [w5 ->]. by exists w5.
Qed.
End writing.

Section file.
  Context {W : Type} `{FileOS W}.

Lemma remove_false p q v d d0 (w : W) :
  q <> p -> keeps p v d0 d ->
  let '(ok, d', _) := (let '(d', w') := remove_file q d w in (false, d', w')) in (ok : bool) = false /\ keeps p v d0 d'.
Proof.
  intros Hq K. pose proof (remove_keeps p q v d w Hq (proj1 K)) as Hr. destruct (remove_file q d w) as [d' w'].
  split; [done|by eapply keeps_trans].
Qed.

(** Writing and flushing the temporary file. *)
Lemma fill_spec path tmp json v d d1 (w1 : W) :
  tmp <> path -> keeps path v d d1 -> now d1 !! tmp = Some ""%string ->
  exists ok2 f2 d2 w2,
    (let '(wok, f, w) := fprintf (mkStream tmp "") json w1 in if wok : bool then fflush f d1 w else (false, f, d1, w)) = (ok2, f2, d2, w2)
    /\ keeps path v d d2 /\ s_path f2 = tmp /\ (ok2 = true -> s_buf f2 = ""%string /\ now d2 !! tmp = Some json).
Proof.
  intros Hne K1 T1. unfold fprintf. destruct (io w1) as [[n|] w2]; [by eexists _, _, _, _|].
  cbn beta iota. cbn [s_path s_buf]. change ("" +:+ json)%string with json.
  pose proof (fflush_keeps path _ (mkStream tmp json) d1 w2 Hne (proj1 K1)) as Hf.
  destruct (fflush (mkStream tmp json) d1 w2) as [[[ok2 f2] d2] w3]. destruct Hf as (K & Ep & Hb). eexists _, _, _, _. split; [done|].
  split_and!; [by eapply keeps_trans|done|]. intros Ho. destruct (Hb Ho) as [? Hb2]. cbn [s_path s_buf] in Hb2. by rewrite T1 in Hb2.
Qed.

(** Nothing is left to flush: the temporary file keeps its text. *)
Lemma flush_rest tmp json f d (w : W) :
  s_path f = tmp -> s_buf f = ""%string -> now d !! tmp = Some json ->
  let '(_, _, d', _) := fflush f d w in now d' !! tmp = Some json.
Proof.
  intros <- Hb Ht. unfold fflush. rewrite Hb. destruct (io w) as [[n|] w']; cbn; unfold append_file; rewrite lookup_insert_eq, Ht; cbn;
    [destruct n; cbn|]; by rewrite str_app_nil_r.
Qed.

(** A write leaves the file as it was at every moment, or ends with the new text
    and nothing in between. *)
Lemma write_file_spec path sync json d (w : W) :
  let '(ok, d', _) := write_file path sync json d w in
  if ok : bool
  then exists d0, keeps path (now d !! path) d d0 /\ now d' !! path = Some json /\ past d' = now d' :: past d0
  else keeps path (now d !! path) d d'.
Proof.
  unfold write_file. destruct (1024 <=? _); [by apply keeps_refl|]. pose proof (not_eq_sym (tmp_ne path)) as Hne.
  unfold fopen_wb. destruct (io w) as [[n|] w1]; [by apply keeps_refl|].
  set (tmp := path +:+ ".tmp") in *. set (d1 := set_disk _ d).
  assert (K1 : keeps path (now d !! path) d d1) by (apply keeps_set; by rewrite lookup_insert_ne).
  assert (T1 : now d1 !! tmp = Some "") by (cbn; by rewrite lookup_insert_eq).
  pose proof (fill_spec path tmp json (now d !! path) d d1 w1 Hne K1 T1) as Hw.
  destruct Hw as (ok2 & f2 & d2 & w2 & Ew & K2 & Ep2 & Hb2).
  destruct (fprintf (mkStream tmp "") json w1) as [[wok f] w']. rewrite Ew.
  assert (Hc : exists ok3 w3, (if ok2 && sync then call w2 else (ok2, w2)) = (ok3, w3) /\ (ok3 = true -> ok2 = true)).
  { destruct ok2; cbn [andb]; [|by eexists _, _]. destruct sync; [destruct (call w2) as [b w3]; by eexists _, _|by eexists _, _]. }
  destruct Hc as (ok3 & w3 & -> & Hok3). unfold fclose.
  pose proof (fflush_keeps path _ f2 d2 w3 ltac:(congruence) (proj1 K2)) as Hf.
  destruct (fflush f2 d2 w3) as [[[ok4 f4] d3] w4] eqn:Efl. destruct Hf as (K3 & _ & Hb3).
  assert (K : keeps path (now d !! path) d d3) by by eapply keeps_trans.
  assert (Hrm : forall w, let '(ok, d', _) := (let '(d', w') := remove_file tmp d3 w in (false, d', w')) in
    (ok : bool) = false /\ keeps path (now d !! path) d d') by (intros w5; by apply remove_false).
  destruct ok3; cbn [negb].
  2:{ specialize (Hrm w4). destruct (remove_file tmp d3 w4) as [d5 w7]. apply Hrm. }
  destruct (Hb2 (Hok3 eq_refl)) as [Hbuf Ht].
  pose proof (flush_rest tmp json f2 d2 w3 Ep2 Hbuf Ht) as T3. rewrite Efl in T3.
  unfold airy_file_rename. destruct (call w4) as [[] w6]; [|specialize (Hrm w6); destruct (remove_file tmp d3 w6); apply Hrm].
  rewrite T3. exists d3. split_and!; [done|cbn; by rewrite lookup_insert_eq|done].
Qed.
End file.

(** ** What a crash can lose *)

Section loss.
  Context {W : Type} `{MemOS W} `{FileOS W} `{Cjson} `{CostOS W}.
  Hypothesis ample : forall w : W, (os_alloc w).1 = true.
  Variables (path : string) (file0 : option string).

Definition here (s : sys W) : option string := now (dsk s) !! path.

(** A writer that holds a count may take it off: what it leaves covers the uses
    its text lacks. *)
Definition phase_ok (s : sys W) (ph : phase) : Prop :=
  match ph with
  | PRead _ _ _ | PAsk _ => True
  | PSnap _ snap => 0 <= snap <= pending (tracker s)
  | PText _ snap json =>
      0 <= snap /\ exists k l, past_models s !! k = Some l /\ json = totals_text l /\ Z.of_nat k + snap <= pending (tracker s)
  | PDone _ snap => 0 <= snap /\ exists k, file_behind file0 (here s) (past_models s) k /\ Z.of_nat k + snap <= pending (tracker s)
  end.

Record loss_inv (s : sys W) : Prop := mkLoss {
  li_named : well_named (models (tracker s));
  li_newest : past_models s !! O = Some (models (tracker s));
  li_pending : 0 <= pending (tracker s) < Z.of_nat (length (past_models s));
  li_dirty : dirty (tracker s) = false -> pending (tracker s) = 0;
  li_file : exists k, file_behind file0 (here s) (past_models s) k /\ Z.of_nat k <= pending (tracker s);
  li_past : Forall (fun f => exists k, file_behind file0 (f !! path) (past_models s) k) (past (dsk s));
  li_writers : Forall (phase_ok s) (writers s) /\ (length (writers s) <= 1)%nat
}.

(** Nothing the invariant reads has changed but the writers. *)
Lemma loss_writers s ph (w : W) : loss_inv s -> Forall (phase_ok s) ph -> (length ph <= 1)%nat -> loss_inv (with_writers s ph w).
Proof. intros [] Hph Hlen. split; try done. Qed.

Lemma loss_use s name p c k ct' (w' : W) :
  loss_inv s -> cost_tracker_add (tracker s) (Some name) p c k (world s) = Some (ct', w') ->
  Z.of_nat (S (length (past_models s))) <= 2 ^ 32 ->
  loss_inv (mkSys ct' (dsk s) w' (writers s) (models ct' :: past_models s)).
Proof.
  intros [Hn Hnew Hp Hd (j & Hj & Hjp) Hpast [Hw Hlen]] E Hb.
  destruct (add_ok ample (tracker s) name p c k (world s) Hn) as (l & w1 & E1 & Hwl & _). rewrite E in E1. injection E1 as -> ->.
  assert (Hu : u32 (pending (tracker s) + 1) = pending (tracker s) + 1) by (apply u32_id; unfold is_u32; cbv [UINT32_MAX]; lia).
  split; cbn [tracker dsk writers past_models models pending dirty]; rewrite ?Hu; [done|done|cbn; lia|done| | |].
  - exists (S j). split; [by apply file_behind_push|lia].
  - eapply Forall_impl; [exact Hpast|]. intros f [i Hi]. exists (S i). by apply file_behind_push.
  - split; [|done]. eapply Forall_impl; [exact Hw|].
    intros [| | |? snap json|? snap] Hph; cbn [phase_ok tracker past_models pending dsk here] in *; rewrite ?Hu; try lia; try done.
    + destruct Hph as (? & i & l' & Hi & -> & ?). split; [done|]. exists (S i), l'. split_and!; [done..|lia].
    + destruct Hph as (? & i & Hi & ?). split; [done|]. exists (S i). split; [by apply file_behind_push|lia].
Qed.

Lemma one_writer (s : sys W) i ph : (length (writers s) <= 1)%nat -> writers s !! i = Some ph -> i = O /\ writers s = [ph].
Proof. destruct (writers s) as [|x [|y l]]; destruct i as [|i]; cbn; intros; try lia; try done. naive_solver. Qed.

(** Where a writer is there, it is the only one. *)
Ltac lone_writer :=
  match goal with
  | Hlen : (length (writers ?s) <= 1)%nat, Hi : writers ?s !! ?i = Some _ |- _ =>
      let Ew := fresh "Ew" in destruct (one_writer s i _ Hlen Hi) as [-> Ew]; rewrite Ew in *
  end.

Lemma loss_file s i sync snap json (ok : bool) d' (w' : W) :
  loss_inv s -> writers s !! i = Some (PText sync snap json) -> write_file path sync json (dsk s) (world s) = (ok, d', w') ->
  loss_inv (mkSys (tracker s) d' w' (if ok then <[i := PDone sync snap]> (writers s) else delete i (writers s)) (past_models s)).
Proof.
  intros [Hn Hnew Hp Hd (j & Hj & Hjp) Hpast [Hw Hlen]] Hi E. lone_writer.
  apply Forall_singleton in Hw as (Hs0 & k & l & Hl & -> & Hk).
  pose proof (write_file_spec path sync (totals_text l) (dsk s) (world s)) as Hspec. rewrite E in Hspec.
  assert (Hold : forall d0, keeps path (now (dsk s) !! path) (dsk s) d0 ->
    Forall (fun f => exists k, file_behind file0 (f !! path) (past_models s) k) (past d0)).
  { intros d0 (_ & fs & -> & Hfs). apply Forall_app. split; [|done]. eapply Forall_impl; [exact Hfs|]. intros f ->. by exists j. }
  destruct ok; cbn [list_insert insert delete list_delete].
  - destruct Hspec as (d0 & K & Hnow & Hpst).
    assert (Hb : file_behind file0 (now d' !! path) (past_models s) k) by (left; by exists l).
    split; cbn [tracker dsk writers past_models]; try done.
    + exists k. split; [done|lia].
    + rewrite Hpst. constructor; [by exists k|by apply Hold].
    + split; [|cbn; lia]. constructor; [|constructor]. split; [done|]. by exists k.
  - split; cbn [tracker dsk writers past_models]; try done.
    + exists j. unfold here. cbn [dsk]. by rewrite (proj1 Hspec).
    + by apply Hold.
    + split; [constructor|cbn; lia].
Qed.

Lemma loss_done s i sync snap ct' (w' : W) :
  loss_inv s -> writers s !! i = Some (PDone sync snap) -> write_done sync snap (tracker s) (world s) = (ct', w') ->
  loss_inv (mkSys ct' (dsk s) w' (delete i (writers s)) (past_models s)).
Proof.
  intros [Hn Hnew Hp Hd Hfile Hpast [Hw Hlen]] Hi E. lone_writer.
  apply Forall_singleton in Hw as (Hs0 & k & Hk & Hkp). unfold write_done in E.
  set (p := if snap <? pending (tracker s) then pending (tracker s) - snap else 0) in E.
  assert (Hpv : p = pending (tracker s) - snap) by (subst p; destruct (Z.ltb_spec snap (pending (tracker s))); lia).
  assert (Hct : models ct' = models (tracker s) /\ pending ct' = p /\ (dirty ct' = false -> p = 0)).
  { destruct sync; [destruct (os_time_ms (world s)) as [t w1]|]; injection E as <- <-; cbn [models pending dirty]; split_and!; try done.
    - intros Hz. apply Z.ltb_ge in Hz. lia.
    - intros Hz. specialize (Hd Hz). lia. }
  destruct Hct as (Em & Ep & Ed). split; cbn [tracker dsk writers past_models]; rewrite ?Em, ?Ep; try done; [lia| |].
  - exists k. split; [done|lia].
  - split; [constructor|cbn; lia].
Qed.

Lemma loss_step s s' : loss_inv s -> solo_step path s s' -> Z.of_nat (length (past_models s')) <= 2 ^ 32 -> loss_inv s'.
Proof.
  intros I [Hstep Hone] Hb. destruct Hstep; pose proof (li_writers _ I) as [Hw Hlen].
  - eapply loss_use; [done|done|exact Hb].
  - destruct (set_rules_ok ample (tracker s) rs (world s)) as [w1 E]. rewrite E in *. simplify_eq. destruct I. split; done.
  - apply loss_writers; [done| |done]. by constructor.
  - apply loss_writers; [done| |done]. by constructor.
  - lone_writer. apply loss_writers; [done| |by case_match; cbn; lia].
    case_match; repeat constructor.
  - lone_writer. apply loss_writers; [done| |done].
    constructor; [|constructor]. pose proof (li_pending _ I). cbn. lia.
  - lone_writer. apply (proj1 (Forall_singleton _ _)) in Hw.
    destruct (write_text_ok ample (tracker s) (world s)) as [w1 E]. rewrite E in *. simplify_eq.
    apply loss_writers; [done| |done]. constructor; [|constructor]. cbn in Hw |- *. split; [lia|].
    exists O, (models (tracker s)). split_and!; [apply I|done|lia].
  - by eapply loss_file.
  - by eapply loss_done.
  - destruct I. split; done.
Qed.

Lemma past_models_grow s s' : step path s s' -> (length (past_models s) <= length (past_models s'))%nat.
Proof. destruct 1; cbn; lia. Qed.

Lemma loss_reach s0 s : rtc (solo_step path) s0 s -> loss_inv s0 -> Z.of_nat (length (past_models s)) <= 2 ^ 32 -> loss_inv s.
Proof.
  intros R I0. revert s R. apply (rtc_ind_r (fun s => Z.of_nat (length (past_models s)) <= 2 ^ 32 -> loss_inv s)); [done|].
  intros s1 s2 R Hstep IH Hb. eapply loss_step; [apply IH|done|done].
  pose proof (past_models_grow s1 s2 (proj1 Hstep)). lia.
Qed.

Lemma loss_boot ct d (w : W) :
  file0 = now d !! path -> well_named (models ct) -> pending ct = 0 -> dirty ct = false -> loss_inv (booted ct d w).
Proof.
  intros Hf0 Hn Hp Hd. assert (Hf : file_behind file0 (now d !! path) [models ct] 0) by by right.
  split; cbn; rewrite ?Hp; try done; try lia.
  - exists O. split; [exact Hf|lia].
  - constructor; [by exists O|constructor].
  - split; [constructor|lia].
Qed.
End loss.

(** C22.  The billing file is never far behind, and never torn.  As long as at
    most one request writes it at a time, and however its steps mix with uses and
    reloads and whichever file operations fail: at every moment the file lacks at
    most the last [pending] uses, none when the tracker is not dirty, and fewer
    than 64 when a flush would decide not to write; and at every moment of the
    past the file was the complete text of the totals at some use (or the file
    found at the start).  For fewer than 2^32 uses since the start, and enough
    memory. *)
Theorem cost_loss_bounded {W : Type} `{MemOS W} `{FileOS W} `{Cjson} `{CostOS W} path ct d (w : W) s :
  (forall w : W, (os_alloc w).1 = true) ->
  well_named (models ct) -> pending ct = 0 -> dirty ct = false ->
  rtc (solo_step path) (booted ct d w) s -> Z.of_nat (length (past_models s)) <= 2 ^ 32 ->
  past_models s !! O = Some (models (tracker s))
  /\ Forall (fun f => exists k, file_behind (now d !! path) (f !! path) (past_models s) k) (past (dsk s))
  /\ exists k, file_behind (now d !! path) (now (dsk s) !! path) (past_models s) k
       /\ Z.of_nat k <= pending (tracker s)
       /\ (dirty (tracker s) = false -> k = O)
       /\ (forall t, flush_decide (pending (tracker s)) (dirty (tracker s)) (stamp_ms (tracker s)) t = None -> (k < 64)%nat).
Proof.
  intros Ha Hn Hp Hd R Hb. destruct (loss_reach Ha path (now d !! path) _ _ R (loss_boot _ _ ct d w eq_refl Hn Hp Hd) Hb)
    as [_ Hnew Hpend Hdirty (k & Hk & Hkp) Hpast _].
  split_and!; [done|done|]. exists k. split_and!; [done|done|intros Hz; specialize (Hdirty Hz); lia|].
  intros t Hf. unfold flush_decide in Hf. destruct (dirty (tracker s)); cbn [negb] in Hf; [|specialize (Hdirty eq_refl); lia].
  destruct (negb _ && _) eqn:E; [|done]. apply andb_true_iff in E as [_ E]. apply Z.ltb_lt in E. unfold COST_FLUSH_OPS in E. lia.
Qed.

(** ** A restart *)

Fixpoint same_key (a b : string) : bool :=
  match a, b with
  | EmptyString, EmptyString => true
  | String x a', String y b' => Ascii.eqb (tolower x) (tolower y) && same_key a' b'
  | _, _ => false
  end.

(** cJSON reads back what it printed, for the trees it can carry (text without
    NUL, finite numbers); a member is found by the first key that is equal up to
    case. *)
Class CjsonTree `{Cjson} := {
  carries : jtree -> Prop;
  reads : jtree -> cJSON -> Prop;
  cj_reparse : forall t, carries t -> exists v, cJSON_Parse (cJSON_PrintUnformatted t) = Some v /\ reads t v;
  cj_member : forall before k t after v, reads (JObj (before ++ (k, t) :: after)) v ->
    Forall (fun e => same_key e.1 k = false) before -> exists v', cJSON_GetObjectItem v k = Some v' /\ reads t v';
  cj_elements : forall l v, reads (JArr l) v -> exists vs, cJSON_items v = Some vs /\ Forall2 reads l vs;
  cj_string : forall s v, reads (JStr s) v -> cJSON_str v = Some s;
  cj_real : forall d v, reads (JReal d) v -> cJSON_num v = Some d
}.

(** An entry that survives the file: counts of 32 bits. *)
Definition restorable (m : model_cost_t) : Prop :=
  model m <> Some ""%string /\ 0 <= prompt_tokens m <= UINT32_MAX /\ 0 <= completion_tokens m <= UINT32_MAX
  /\ 0 <= cached_tokens m <= UINT32_MAX /\ dadd d_zero (cost_usd m) = cost_usd m.

Lemma lookup_model_app l1 l2 n :
  lookup_model (l1 ++ l2) n = match lookup_model l1 n with Some m => Some m | None => lookup_model l2 n end.
Proof. induction l1 as [|m l1 IH]; [done|]. cbn. by case_decide. Qed.

Section restart.
  Context {W : Type} `{MemOS W} `{FileOS W} `{CostOS W} `{LAWS : CjsonTree}.
  Hypothesis ample : forall w : W, (os_alloc w).1 = true.
  Hypothesis io_works : forall w : W, (io w).1 = None.

Lemma call_ok (w : W) : exists w', call w = (true, w').
Proof. unfold call. pose proof (io_works w). destruct (io w) as [r w']. cbn in *. subst r. by exists w'. Qed.

(** When no file operation fails, the text is in the file. *)
Lemma write_file_works path sync json d (w : W) :
  strlen (path +:+ ".tmp") < 1024 -> exists d' w', write_file path sync json d w = (true, d', w') /\ now d' !! path = Some json.
Proof.
  intros Hlen. pose proof (write_file_spec path sync json d w) as Hspec. destruct (write_file path sync json d w) as [[ok d'] w'] eqn:E.
  assert (ok = true) as ->; [|destruct Hspec as (_ & _ & Hnow & _); by exists d', w'].
  assert (Hio : forall w : W, exists w', io w = (None, w')).
  { intros w0. pose proof (io_works w0). destruct (io w0) as [r w1]. cbn in *. subst r. by exists w1. }
  clear Hspec. unfold write_file, fopen_wb, fprintf, fclose, fflush, airy_file_rename in E. rewrite (proj2 (Z.leb_gt _ _) Hlen) in E.
  destruct (Hio w) as [w1 E1]. rewrite E1 in E. destruct (Hio w1) as [w2 E2]. rewrite E2 in E. cbn [s_path s_buf] in E.
  destruct (Hio w2) as [w3 E3]. rewrite E3 in E. cbn [s_path s_buf andb] in E.
  assert (Hs : exists w4, (if sync then call w3 else (true, w3)) = (true, w4)) by (destruct sync; [apply call_ok|by exists w3]).
  destruct Hs as [w4 Es]. rewrite Es in E. destruct (Hio w4) as [w5 E5]. rewrite E5 in E. cbn [negb] in E.
  destruct (call_ok w5) as [w6 E6]. rewrite E6 in E. cbn [set_disk now] in E. unfold append_file in E. rewrite lookup_insert_eq in E. congruence.
Qed.

Lemma to_u32_exact n : 0 <= n <= UINT32_MAX -> to_u32 (d_of_Z n) = n.
Proof.
  intros Hn. unfold to_u32. assert (Hb : dlt (d_of_Z n) (d_of_Z (2 ^ 32)) = true) by (apply d_of_Z_below; unfold UINT32_MAX in Hn; lia).
  change (UINT32_MAX + 1) with (2 ^ 32). rewrite Hb.
  assert (Hneg : dlt (d_of_Z (-1)) (d_of_Z n) = true).
  { change (d_of_Z (-1)) with (SpecFloat.S754_finite true 4503599627370496 (-52)). destruct n as [|p|p]; [done| |lia].
    destruct (d_of_pos p) as (m & -> & _); [unfold UINT32_MAX in Hn; lia|done]. }
  rewrite Hneg. apply d_trunc_of_Z. unfold UINT32_MAX in Hn. lia.
Qed.

Lemma member_num before k x after v :
  reads (JObj (before ++ (k, JReal x) :: after)) v -> Forall (fun e => same_key e.1 k = false) before ->
  cj_num (cJSON_GetObjectItem v k) = Some x.
Proof. intros R F. destruct (cj_member _ _ _ _ _ R F) as (v' & -> & R'). by apply cj_real. Qed.

Lemma member_u32 before k n after v :
  reads (JObj (before ++ (k, JReal (d_of_Z n)) :: after)) v -> Forall (fun e => same_key e.1 k = false) before ->
  0 <= n <= UINT32_MAX -> json_u32 v k = n.
Proof. intros R F Hn. unfold json_u32. rewrite (member_num _ _ _ _ _ R F). by apply to_u32_exact. Qed.

(** The object of an entry is read as the entry. *)
Lemma entry_apply_ok m acc v (w : W) :
  is_Some (model m) -> restorable m -> reads (model_tree m) v -> well_named acc -> (forall n, model m = Some n -> lookup_model acc n = None) ->
  exists acc' w', entry_apply acc v w = Some (acc', w') /\ well_named acc'
    /\ forall n, lookup_model acc' n = if decide (model m = Some n) then Some m else lookup_model acc n.
Proof.
  destruct m as [[name|] p c k usd]; intros [? [=]] (Hne & Hp & Hc & Hk & Hu) R Hacc Hnew; subst.
  cbn [model prompt_tokens completion_tokens cached_tokens cost_usd] in *. unfold entry_apply, model_tree in *.
  cbn [model prompt_tokens completion_tokens cached_tokens cost_usd app] in R.
  destruct (cj_member [] "model" (JStr x) _ v R) as (vn & -> & Rn); [constructor|]. unfold cj_str. cbn [mbind option_bind]. rewrite (cj_string _ _ Rn).
  rewrite (member_u32 [("model", JStr x)] "prompt_tokens" p _ v R) by (try done; repeat constructor).
  rewrite (member_u32 [("model", JStr x); ("prompt_tokens", _)] "completion_tokens" c _ v R) by (try done; repeat constructor).
  rewrite (member_u32 [("model", JStr x); ("prompt_tokens", _); ("completion_tokens", _)] "cached_tokens" k _ v R) by (try done; repeat constructor).
  rewrite (member_num [("model", JStr x); ("prompt_tokens", _); ("completion_tokens", _); ("cached_tokens", _)] "cost_usd" usd _ v R) by repeat constructor.
  destruct (model_get_alter ample (count_use p c k usd) acc x w) as (i & l' & w' & E & Hw & Hl); [done..|].
  destruct x as [|a x]; [done|]. rewrite E. cbn [mbind option_bind default from_option id]. eexists _, w'. split_and!; [done|done|].
  intros n. rewrite Hl, Hnew by done. destruct (decide (n = String a x)) as [->|Hn].
  - rewrite decide_True by done. unfold count_use, new_model.
    cbn [from_option model prompt_tokens completion_tokens cached_tokens cost_usd]. unfold id. cbn [model prompt_tokens completion_tokens cached_tokens cost_usd].
    rewrite Hu, !u64_id; unfold is_u64, UINT64_MAX, UINT32_MAX in *; lia || done.
  - by rewrite decide_False by congruence.
Qed.

Lemma load_loop_ok : forall l vs seen acc (w : W),
  Forall2 reads (model_tree <$> l) vs -> well_named (seen ++ l) -> Forall restorable l -> well_named acc ->
  (forall n, lookup_model acc n = lookup_model seen n) ->
  exists acc' w', load_loop acc vs w = Some (acc', w') /\ well_named acc' /\ forall n, lookup_model acc' n = lookup_model (seen ++ l) n.
Proof.
  induction l as [|m l IH]; intros vs seen acc w R Hw Hr Hacc Heq; cbn in R.
  - apply Forall2_nil_inv_l in R as ->. rewrite app_nil_r. by exists acc, w.
  - apply Forall2_cons_inv_l in R as (v & vs' & Rv & R & ->). apply Forall_cons in Hr as [Hm Hr].
    assert (Hnew : model m ∉ model <$> seen).
    { destruct Hw as [_ Hw]. rewrite fmap_app in Hw. apply NoDup_app in Hw as (_ & Hd & _). intros Hin. by eapply Hd, list_elem_of_here. }
    assert (Hs : is_Some (model m)) by (destruct Hw as [Hw _]; by apply Forall_app, proj2, Forall_cons, proj1 in Hw).
    destruct (entry_apply_ok m acc v w) as (acc1 & w1 & E & Hw1 & Hl1); [done..| |].
    { intros n Hn. rewrite Heq. apply lookup_model_none. by rewrite <- Hn. }
    cbn [load_loop]. rewrite E. cbn [mbind option_bind].
    destruct (IH vs' (seen ++ [m]) acc1 w1) as (acc' & w' & E' & Hw' & Hl'); [done|by rewrite <- app_assoc|done|done| |].
    { intros n. rewrite Hl1, lookup_model_app, Heq. cbn. destruct (decide (model m = Some n)) as [En|En].
      - by rewrite lookup_model_none by by rewrite <- En.
      - by destruct (lookup_model seen n). }
    exists acc', w'. split_and!; [done|done|]. intros n. by rewrite Hl', <- app_assoc.
Qed.

(** A restart gets back every model's totals from the file that was written, as
    long as no count reached 2^32. *)
Theorem usage_restored path ct l d (w : W) :
  well_named l -> Forall restorable l -> carries (totals_tree l) ->
  path <> ""%string -> now d !! path = Some (totals_text l) -> 0 < strlen (totals_text l) <= FILE_MAX -> has_char "000" (totals_text l) = false ->
  models ct = [] ->
  exists l' w', cost_tracker_load (Some path) ct d w = Some (0, mkCt (rules ct) l' (pending ct) (dirty ct) (stamp_ms ct), w')
    /\ well_named l' /\ forall name, lookup_model l' name = lookup_model l name.
Proof.
  intros Hw Hr Hc Hp Hd Hlen Hnul Hct. unfold cost_tracker_load. destruct path as [|a path]; [done|].
  unfold file_slurp. rewrite Hd. destruct (call_ok w) as [w1 ->]. destruct (call_ok w1) as [w2 ->]. cbn [negb].
  rewrite (proj2 (Z.eqb_neq _ _)) by lia. rewrite (proj2 (Z.ltb_ge _ _)) by lia.
  destruct (alloc_ok ample w2) as [w3 ->]. destruct (call_ok w3) as [w4 ->]. rewrite cut_at_none by done. cbn [fst].
  destruct (cj_reparse _ Hc) as (root & Eroot & Rroot). unfold totals_text. rewrite Eroot. unfold totals_tree in Rroot.
  destruct (cj_member [] "models" _ [] root Rroot) as (arr & -> & Rarr); [constructor|].
  destruct (cj_elements _ _ Rarr) as (vs & Evs & Rvs). unfold cj_items. cbn [mbind option_bind]. rewrite Evs, Hct.
  destruct (load_loop_ok l vs [] [] w4) as (l' & w' & -> & Hw' & Hl'); [done|done|done|split; constructor|done|].
  by exists l', w'.
Qed.
End restart.

(** ** Examples *)

(** Memory and files never fail; the world is the clock. *)
#[local] Instance clock_mem : MemOS Z := {|
  os_alloc w := (true, w);
  os_time_ns w := (w, w);
  os_rand w := (0, w);
  self_addr := 0;
  tok_counter := unit;
  tok_create _ w := (None, w);
  tok_count _ _ := 0;
  AIRY_TOKEN_MODEL_NAME_DEFAULT := ""%string
|}.

#[local] Instance clock_file : FileOS Z := {| io w := (None, w) |}.

#[local] Instance clock_cost : CostOS Z := {| os_time_ms w := (w, w); byte_before := "000"%char; u32_outside d := u32 (d_trunc d) |}.

#[local] Instance no_docs : Cjson := toy_cjson [].

Definition ct0 : cost_tracker := mkCt [] [] 0 false 0.

Definition use_of (n : nat) : cost_tracker := default ct0 (fst <$> do_events ct0 (replicate n (EUse "m" 1000 500 0)) 5000).

Definition text_of (n : nat) : string := totals_text (models (use_of n)).

(** One use is written, and a second one comes before the file is in place. *)
Definition one_behind (d : disk) : sys Z :=
  mkSys (mkCt [] (models (use_of 2)) 1 true 5000) d 5000 [] [models (use_of 2); models (use_of 1); []].

(** The steps of a run, the state evaluated after each. *)
Ltac settle := match goal with |- rtc _ ?a _ => let a' := eval vm_compute in a in replace a with a' by (vm_compute; reflexivity) end.
Ltac go := first [vm_compute; reflexivity | vm_compute; lia].
Tactic Notation "sys_solo" uconstr(c) := eapply rtc_l; [split; [eapply c; go|go]|]; settle.
Tactic Notation "sys_step" uconstr(c) := eapply rtc_l; [eapply c; go|]; settle.

Definition start : sys Z := booted ct0 (mkDisk ∅ []) 5000.

(** A write on the clock world. *)
Lemma clock_write json d : exists d', write_file "usage" true json d 5000 = (true, d', 5000) /\ now d' !! "usage"%string = Some json.
Proof.
  destruct (write_file_works (W := Z) ltac:(done) "usage" true json d 5000 ltac:(done)) as (d' & w & E & Hd).
  assert (Hw : w = 5000) by (symmetry; apply (f_equal snd) in E; cbn [snd] in E; rewrite <- E;
    unfold write_file, airy_file_rename; cbn; rewrite lookup_insert_eq; done).
  subst w. by exists d'.
Qed.

Lemma one_behind_reached : exists d, rtc (solo_step "usage") start (one_behind d).
Proof.
  destruct (clock_write (text_of 1) (dsk start)) as (d & E & _). exists d.
  sys_solo (s_use "usage" _ "m" 1000 500 0). sys_solo s_flush.
  sys_solo (s_decide "usage" _ 0). sys_solo (s_snap "usage" _ 0). sys_solo (s_text "usage" _ 0).
  sys_solo (s_use "usage" _ "m" 1000 500 0). eapply rtc_l; [split; [eapply (s_file "usage" _ 0); [go|exact E]|go]|]. settle.
  sys_solo (s_done "usage" _ 0).
  match goal with |- rtc _ ?a ?b => replace b with a by (vm_compute; reflexivity) end. done.
Qed.

Lemma ct0_named : well_named (models ct0).
Proof. split; constructor. Qed.

Lemma cost_loss_bounded_witness :
  exists d k, file_behind None (now d !! "usage"%string) (past_models (one_behind d)) k /\ Z.of_nat k <= pending (tracker (one_behind d)).
Proof.
  destruct one_behind_reached as [d R]. exists d.
  destruct (cost_loss_bounded "usage" ct0 (mkDisk ∅ []) 5000 (one_behind d) ltac:(done) ct0_named eq_refl eq_refl
    R ltac:(vm_compute; discriminate)) as (_ & _ & k & Hk & Hp & _). exists k. split; [exact Hk|exact Hp].
Defined.

(** With two writers the bound is lost: the one that exported first renames last,
    and neither the count nor the mark is left for the use its text lacks. *)
Lemma stale_writer :
  exists s, rtc (step "usage") start s
    /\ writers s = [] /\ dirty (tracker s) = false /\ pending (tracker s) = 0
    /\ models (tracker s) = models (use_of 2) /\ now (dsk s) !! "usage"%string = Some (text_of 1) /\ text_of 1 <> text_of 2.
Proof.
  destruct (clock_write (text_of 2) (dsk start)) as (d2 & E2 & _). destruct (clock_write (text_of 1) d2) as (d1 & E1 & F1).
  eexists. split.
  { sys_step (s_use "usage" _ "m" 1000 500 0). sys_step s_save. sys_step (s_snap "usage" _ 0). sys_step (s_text "usage" _ 0).
    sys_step (s_use "usage" _ "m" 1000 500 0). sys_step s_flush. sys_step (s_decide "usage" _ 0). sys_step (s_snap "usage" _ 0).
    sys_step (s_text "usage" _ 0). eapply rtc_l; [eapply (s_file "usage" _ 0); [go|exact E2]|]. settle.
    sys_step (s_done "usage" _ 0). eapply rtc_l; [eapply (s_file "usage" _ 0); [go|exact E1]|]. settle.
    sys_step (s_done "usage" _ 0). apply rtc_refl. }
  split_and!; [done|done|done|vm_compute; reflexivity|exact F1|]. vm_compute. discriminate.
Qed.

(** Without memory for its name an entry stays in the list, and the next use of
    any model compares with NULL. *)
Lemma name_lost {W : Type} `{MemOS W} `{CostOS W} rs t name name' p c k p' c' k' (w w1 w2 w3 : W) :
  os_alloc w = (true, w1) -> os_alloc w1 = (false, w2) ->
  exists ct, cost_tracker_add (mkCt rs [] 0 false t) (Some name) p c k w = Some (ct, w2)
    /\ cost_tracker_add ct (Some name') p' c' k' w3 = None.
Proof.
  intros E1 E2. eexists. unfold cost_tracker_add, model_get, AIRY_STRDUP. cbn [models model_find mbind option_bind].
  rewrite E1, E2. cbn [mbind option_bind]. split; reflexivity.
Qed.

(** A count that reached 2^32 is not read back. *)
Lemma large_count_cut : @json_u32 Z (toy_cjson []) clock_cost (VObj [("prompt_tokens"%string, VNum (d_of_Z (2 ^ 32 + 7)))]) "prompt_tokens" = 7.
Proof. vm_compute. reflexivity. Qed.

(** *** A library that reads what it prints *)

Fixpoint val_of (t : jtree) : jval :=
  match t with
  | JStr s => VStr s
  | JNum n => VNum (d_of_Z n)
  | JReal d => VNum d
  | JBool b => VStr (if b then "true" else "false")
  | JObj l => VObj (map (fun e => (e.1, val_of e.2)) l)
  | JArr l => VArr (map val_of l)
  end.

Definition usage_docs : Cjson := toy_cjson [(text_of 2, val_of (totals_tree (models (use_of 2))))].

Lemma find_member k t after : forall before,
  Forall (fun e => same_key e.1 k = false) before ->
  snd <$> find (fun e => strcmp_eq e.1 k) (map (fun e => (e.1, val_of e.2)) (before ++ (k, t) :: after)) = Some (val_of t).
Proof.
  assert (Hself : forall a, same_key a a = true) by (induction a as [|x a IH]; [done|]; cbn; by rewrite Ascii.eqb_refl).
  induction 1 as [|[k' t'] before Hk _ IH]; cbn [app map find fst snd]; [by rewrite strcmp_eq_refl|].
  destruct (strcmp_eq k' k) eqn:E; [|done]. apply strcmp_eq_true in E as ->. cbn in Hk. by rewrite Hself in Hk.
Qed.

#[local] Instance usage_tree : @CjsonTree usage_docs.
Proof.
  refine (@Build_CjsonTree usage_docs (fun t => cJSON_Parse (Cjson := usage_docs) (jtree_text t) = Some (val_of t)) (fun t (v : jval) => v = val_of t) _ _ _ _ _).
  - intros t Ht. by exists (val_of t).
  - intros before k t after v -> F. exists (val_of t). split; [by apply find_member|done].
  - intros l v ->. exists (map val_of l). split; [done|]. induction l; constructor; done.
  - by intros s v ->.
  - by intros d v ->.
Defined.

Definition two_uses : list model_cost_t := Eval vm_compute in models (use_of 2).

(** Two uses come back after a restart, in a tracker with other rules. *)
Lemma usage_restored_witness :
  exists l' w', cost_tracker_load (H1 := usage_docs) (Some "usage"%string) (mkCt [mkRule (Some "m*"%string) d_zero d_zero] [] 0 false 9)
      (mkDisk {["usage"%string := text_of 2]} []) 5000
    = Some (0, mkCt [mkRule (Some "m*"%string) d_zero d_zero] l' 0 false 9, w')
    /\ well_named l' /\ forall name, lookup_model l' name = lookup_model (models (use_of 2)) name.
Proof.
  apply (usage_restored (W := Z) (LAWS := usage_tree) ltac:(done) ltac:(done) "usage" (mkCt [mkRule (Some "m*"%string) d_zero d_zero] [] 0 false 9)
    (models (use_of 2)) (mkDisk {["usage"%string := text_of 2]} []) 5000).
  - split; [vm_compute; repeat constructor; by eexists|vm_compute; repeat constructor; set_solver].
  - assert (E : models (use_of 2) = two_uses) by (vm_compute; reflexivity). rewrite E. repeat constructor; vm_compute; discriminate || reflexivity.
  - vm_compute. reflexivity.
  - done.
  - cbn [now]. by rewrite lookup_singleton_eq.
  - vm_compute. split; [done|discriminate].
  - vm_compute. reflexivity.
  - done.
Defined.

(** Loading the file a second time counts every use again. *)
Lemma load_again :
  exists l1 l2, load_loop (W := Z) (H1 := usage_docs) [] [val_of (model_tree (mkModel (Some "m"%string) 10 5 0 d_zero))] 0 = Some (l1, 0)
    /\ load_loop (W := Z) (H1 := usage_docs) l1 [val_of (model_tree (mkModel (Some "m"%string) 10 5 0 d_zero))] 0 = Some (l2, 0)
    /\ prompt_tokens <$> l1 = [10] /\ prompt_tokens <$> l2 = [20].
Proof. eexists _, _. split; [vm_compute; reflexivity|]. split; [vm_compute; reflexivity|]. done. Qed.
